(* ===== verification/_CoqProject ===== *)
-Q . S2P
Prelude.v
BitOps.v
HostUtils.v
Bitmap.v
Memory.v
Atomic128.v
HostAtomic.v
HostAtomicExact.v
SearchData.v
Regions.v
Retranslate.v
JumpLists.v
Clocks.v
WasmModule.v
ModuleReads.v
WasmControl.v
TcgCond.v
Opcodes.v
TciDecode.v
Tune.v
TbHeader.v
Tci.v
TciHot.v
TciEquiv.v
Wasm.v
WasmOps.v
WasmRun.v
WordRel.v
WasmSim.v
WasmExact.v
WasmStraight.v
WasmValid.v
WasmWrong.v
InstanceCache.v
CacheCoherence.v
Dispatch.v
RepBulk.v
Tlb.v
TlbCoherence.v
TlbOps.v
TlbLookup.v
TlbSafety.v
TlbDirty.v
Softmmu.v
SoftmmuLookup.v
SoftmmuParts.v
SoftmmuExact.v
SoftmmuDevice.v
InlineTlb.v
AndroidVnc.v
