(* ===== verification/Prelude.v ===== *)
(** * Verification of the Bootbox engine

    Bootbox runs x86 guests in a browser: QEMU compiled to WebAssembly, with a TCG
    backend that interprets a translation block (TB) until it is hot, then compiles
    it to a WebAssembly module of its own.  This library models the parts of the C
    code that Bootbox adds or depends on most (under src/engine/qemu-wasm unless
    said otherwise) as executable definitions and proves what makes them correct.

    ** The program and how its parts interact

    The guest's instructions are translated block by block.  [tb_gen_code]
    (accel/tcg/translate-all.c) takes room for a translation block from the calling
    thread's region of the code buffer (tcg/region.c), translates guest instructions
    until the block ends, and tries again with fewer when something overflows.  TCG
    emits each block twice: as 32-bit interpreter words (TCI) and as a wasm module
    (tcg/wasm32/tcg-target.c.inc, the end of [tcg_gen_code] in tcg/tcg.c), which may
    be left out and regenerated later.  In front of the words is a header with, for
    each vCPU thread, an export slot and a run counter; behind the code is a
    compressed table that maps host addresses back to guest instructions.

    The dispatcher [tcg_qemu_tb_exec] (tcg/wasm32.c) looks the block up in the
    thread's instance cache; runs the compiled function, or interprets the block and
    counts the run, or compiles it and enters it in the cache, evicting idle
    instances when too many are alive.  Interpreting is a small hot loop that hands
    every other operation to the full interpreter.  Thresholds and switches come
    from the file /bootbox-tune.  Blocks are chained to their successors, and taken
    out of all chains when they are retired (accel/tcg/tb-maint.c).  An access that
    leaves a block in its middle restores the guest state from the table; a device
    access there makes the block end at that instruction from then on.  Guest
    string instructions run many iterations per call of a helper
    (target/i386/tcg/mem_helper.c), and guest clocks are read without locks
    (system/cpu-timers.c).  Guest memory is reached through a software TLB that the
    generated code consults itself and accel/tcg/cputlb.c fills, flushes and resizes.
    An access it cannot serve itself goes to the slow path of cputlb.c: it translates
    the one or two pages, asks watchpoints and dirty tracking, and performs the access on
    RAM with the atomicity it needs (accel/tcg/ldst_atomicity.c.inc, with a 16-byte
    compare-and-swap emulated by a spinlock) or on a device.  Device code may switch
    coroutines, which the fast interpreter cannot survive: a guard makes such an access
    run again in the full one.  Apart from the engine, Android guests show their screen
    through a VNC bridge (src/ubuntu-build/android-vnc).

    ** Files

    - Prelude: machine words as integers ([uw], [sw]: C's wrap-around), bitwise
      reasoning, hint databases [bits] and [words], generic list lemmas.
    - BitOps, HostUtils, Bitmap: include/qemu/bitops.h, include/qemu/host-utils.h,
      util/host-utils.c, util/bitops.c.
    - Memory: the module's linear memory; an access outside it is a trap ([None]).
    - Atomic128: the emulated 16-byte compare-and-swap
      (host/include/generic/host/atomic128-cas.h) as steps of concurrent threads.
    - HostAtomic, HostAtomicExact: accel/tcg/ldst_atomicity.c.inc, atomic128-ldst.h and
      store-insert-al16.h for this host, and that each access is its bytes.
    - SearchData: the table behind a block's code ([encode_search],
      [cpu_unwind_data_from_tb] of translate-all.c).
    - Regions: tcg/region.c, with [tcg_tb_alloc] and [tcg_register_thread] (in three
      steps) of tcg/tcg.c; the threads as a transition system.
    - Retranslate: finding a block by address and restoring the guest state, the
      memory of split blocks, [cpu_io_recompile], the retry loop of [tb_gen_code],
      the instruction loop of accel/tcg/translator.c, and [bb_tb_regen_wasm].
    - JumpLists: chained jumps and their lists (tb-maint.c, [tb_add_jump] of
      cpu-exec.c), with concurrent retirements as steps, [tb_jmp_unlink] one access at
      a time.
    - Clocks: system/cpu-timers.c and include/qemu/seqlock.h: starting and stopping
      (Module Timers), the time stamp counter on its lock-free and its locked path
      (Module Tsc) and the virtual clock (Module Vm).
    - WasmModule, ModuleReads: the helper tables and the bytes of the module, a
      reader of the binary format, and that it reads what was meant.
    - WasmControl: labels, branches, resumable calls and chaining to the next block as
      structured wasm code.
    - TcgCond, Opcodes, TciDecode: include/tcg/tcg-cond.h, include/tcg/tcg-opc.h with
      the configuration in tcg/wasm32/tcg-target.h, and the TCI words (emitters,
      [patch_reloc] and the [tci_args_*] decoders).
    - Tune: [bootbox_tune_init]: the parser and the once-only protocol.
    - TbHeader: thread slots ([init_wasm32]), the header [tcg_gen_code] writes, and
      [tb_wants_tci].
    - Tci, TciHot, TciEquiv: [tcg_qemu_tb_exec_tci_full] case by case, the hot loop
      with [tci_hot_call] and [tci_exec], and their equivalence.
    - Wasm, WasmOps: the WebAssembly instructions the emitter uses, with their
      execution and validation, and the straight-line half of
      tcg/wasm32/tcg-target.c.inc: for each operation the interpreter words and the
      wasm instructions written side by side.
    - WasmRun, WordRel, WasmSim, WasmExact: what the emitted instructions compute; how
      a 64-bit wasm local stands for a 32-bit value; the simulation of the interpreter,
      by the shape of the operation and then operation by operation.
    - WasmStraight, WasmValid, WasmWrong: sequences of operations, validation, and the
      operations that are compiled wrongly.
    - InstanceCache, CacheCoherence: the table of compiled TBs, its CLOCK eviction,
      insertion and lookup; a transition system of one thread's cache, the headers
      and what other threads do.
    - Dispatch: [trysleep] and the dispatch loop.
    - RepBulk: [helper_rep_bulk] and the code translate.c generates around it.
    - Tlb: the TLB of one vCPU (accel/tcg/cputlb.c, include/hw/core/cpu.h): tables,
      victims, large-page region, resizing, fills, flushes, dirty tracking, and the
      jump cache of accel/tcg/tb-hash.h.
    - TlbCoherence, TlbOps: an abstract TLB (a map from pages to fills) and that every
      operation, on every mode, keeps the tables coherent with it.
    - TlbLookup, TlbSafety, TlbDirty: [mmu_lookup1] and [probe_access_internal], and what
      follows for lookups, the jump cache, table sizes, generated code and dirty
      tracking.
    - Softmmu: the slow path of cputlb.c ([mmu_lookup], [do_ld*], [do_st*], the device
      pieces and [bb_guard_mmio]) in a monad of outcomes: return, leave, no page, stuck.
    - SoftmmuLookup, SoftmmuParts, SoftmmuExact: the translation of an access; its part
      in one page; guest memory byte by byte ([gload], [gstore]) and that accesses are it.
    - SoftmmuDevice: the guard, and the pieces of a device access.
    - InlineTlb: the interpreter's own lookup ([tlb_load] of tcg/wasm32.c) on the TLB as it
      lies in memory.
    - AndroidVnc: bootbox_android_vnc.c: settings, keys, touch events, frame relay.

    State is passed explicitly; concurrent code is a step relation with one step per
    atomic access or locked region.  A C trap or fault is [None] or [Trap], an
    assertion [Abort] or [None], a longjmp out of a helper [Longjmp], a translation
    given up [GOverflow].  Code outside these files is a class: [Helpers] (guest
    helpers, libffi), [Host] and [HostLaws] (instantiation, clock, yields,
    re-translation), [Mmu] and [MmuLaws] (softmmu lookups), [World] (watchpoints, dirty
    bitmaps, invalidation of code, memory regions and devices), or an argument: the code
    generator of Retranslate ([setjmp_gen_code]), the straight-line instructions of
    WasmControl and the function a block chains to, the target's page walk ([walk_ok]) and the answers of the memory API
    ([backing]) in the TLB files.  Their laws are documented behaviour, and each theorem that uses
    one has a witness with a concrete instance.

    ** What the theorems show

    - Interpreters: the hot loop and the full interpreter compute the same result on
      the same block ([tci_exec_sound], [tci_exec_complete]), except that a guarded
      device access is put off, once, to a run of the full interpreter
      ([deferred_run_completes]).  Assumed of the code: the [env] and stack
      registers keep their values along the run.
    - Compiled code: the structured instructions run as the operations with their
      labels do, also when entered again after an unwinding call or when the block goes
      on to its successor by itself ([control_exact]); the module's bytes decode to the module meant
      ([module_parses]) from exact tables ([helper_tables_exact]), written within
      the thread's own memory ([module_write_confined]); past 127 helpers they do
      not ([many_helpers_break]).
    - Straight-line code: a sequence of operations leaves the same memory and the same
      results compiled as interpreted (at 32 bits, the low halves; [straight_exact]), and
      its instructions validate ([emit_validates]), except sub2 and the 32-bit population
      count, which never do; the signed widening multiplication, 32-bit extract, add2,
      clz and ctz are compiled to something else, and it is shown exactly when that
      matters ([muls2_high], [miscompiled]).
    - TLB: a lookup returns the translation last filled and not flushed since
      ([lookup_current]); a filled page is found ([filled_page_hits]); generated code
      only reaches plain RAM by itself, and stores only where dirty tracking does not
      wait for them ([fast_path_safe]); resetting the dirty state
      diverts all writes to a range ([reset_dirty_protects]); flushes return with
      bounded tables ([flush_total]) and page flushes clear the jump cache
      ([page_flush_clears_jumps]).  Two places do less than they say:
      [used_counter_wraps], [range_flush_misses_large].
    - Guest memory: a load or store of RAM is exactly the bytes its current translations
      give, at every size, alignment, atomicity and byte order and across pages
      ([guest_load_exact], [guest_store_exact]), because every host access is
      ([host_access_exact]); the interpreter serves exactly the plain, aligned accesses
      inside a page itself, and serves them so ([inline_access_exact]).  Assumed of the
      target: its page walk fills only the page asked for, with page-aligned RAM.
    - Devices: the fast interpreter never runs a handler that may yield
      ([fast_access_never_yields]); an access is one dispatch per piece, in order, and
      the pieces tile it ([device_access_exact]); the guard is per page, so a first
      device may run twice ([restart_repeats_first_page]).
    - 16-byte atomics: compare-and-swaps are linearizable among themselves
      ([cas_linearizable]), used as reads they never write ([cas_reads_pure]), the lock
      is given back ([lock_released]); a plain store that meets one is lost
      ([plain_store_lost]).
    - Cache: evictions free exactly what they should, spare what ran, stay in bounds;
      a lookup never yields a stale or foreign function, whatever happened before.
      The dispatcher only runs a function of the current TB, found in the table or
      just compiled for it ([dispatcher_runs_own_code]).
    - Translation: threads generate code in disjoint memory, and descriptors and blocks
      never overlap ([contexts_disjoint]); a flush always finds room
      ([flush_succeeds]); the retries end
      ([tb_gen_code_terminates]); a host address leads back to exactly its guest
      instruction ([restore_state_exact]); a one-page block without a limit that is split
      for a device access stays split ([io_split_sticks]); regenerated code is used only if it is the same
      ([regen_safe]).
    - Chaining: unless a jump is chained again in a window that the unlinking of its
      old destination leaves open, no block in use jumps to a retired one
      ([retired_unreachable]) and no assertion of the lists fails
      ([retirement_runs]); in that window both happen ([unlink_overtaken]).
    - Clocks: time stamps taken on the same path never go back between vCPUs
      ([tsc_monotonic]); across a stop of the machine they do ([tsc_breaks_at_stop]);
      reads finish ([tsc_progress]); the virtual clock is never read half-written
      ([vm_clock_consistent]) and stands still while stopped.
    - String instructions: the helper is a number of single iterations, and a REP
      instruction ends as it would without it.
    - Encodings and settings: words decode to what was emitted, labels resolve,
      settings are in range and read by one thread.
    - Arithmetic and bitmaps: the portable routines compute the exact values.
    - Bridge: the touch stream is the pointer's; frames stay in their buffers; the
      key map sends wrong keys for 25 letters and two function keys.

    ** Fuel

    Interpreter, dispatcher and REP loops, and the loop of a compiled function, take
    fuel because the guest may not terminate; results are stated for some fuel in
    both directions of an equivalence.  The settings parser uses the length of the
    file, and more changes nothing; bitmap searches use the number of bits.  The
    bulk helper's 64 chunks are the code's own bound.  A LEB128 integer takes at
    most five bytes (ten for 64 bits); [tcg_tb_alloc] retries at most once per
    region; the retries of [tb_gen_code] are bounded by [retry_measure], which
    every retry lowers; removing a jump from a list of JumpLists needs the length of
    the list.  The loop that widens the large-page region runs at most 64
    times, the flush loop once per mode (16), and a table is halved at most 32 times.
    A device access or a part of a split access is cut into at most as many pieces as it
    has bytes, and the retry loops of the 16-byte accesses, which run alone in
    HostAtomic, succeed at the first try: none runs out of fuel.

    ** Not modelled

    The emitter's guest memory accesses, helper calls and inlined SSE, the TCG
    optimizer and register allocator, x86 translation apart from REP MOVS/STOS, the
    hash table and page lists of translation blocks, insertion into the balanced
    trees, the queues that carry TLB flushes to other vCPUs, 16-byte guest accesses and
    the atomic read-modify-write helpers of cputlb.c (their host accesses are in
    HostAtomic), vector operations, the
    devices, block layer and other targets of QEMU, the guest desktop's browser,
    launcher, key sender and cmpxchg16b probe, and the JavaScript and Swift
    application.  In CacheCoherence other threads appear only as the writes they can
    make to a header.  The memory is sequentially consistent where accesses are
    atomic or under a lock.  16-bit addressing and instruction counting of REP
    instructions, and the bridge's device-node and socket set-up, are left out. *)

From stdpp Require Export base list gmap numbers option tactics.
From Stdlib Require Export ZArith Lia.
From Stdlib Require Export Btauto.

#[global] Open Scope Z_scope.
#[global] Unset Program Cases.

(** ** Hint databases

    [bits] rewrites [Z.testbit] of a compound word into a boolean combination
    of tests of its parts; [words] resolves the range side conditions of
    machine words. *)

Create Rewrite HintDb bits.
Create HintDb words.

(** ** Machine words

    A [w]-bit unsigned C integer is a [Z] in [0, 2^w); a signed one is a [Z] in
    [-2^(w-1), 2^(w-1)).  [uw] and [sw] are the conversions C performs on
    assignment: reduction modulo [2^w] into either range. *)

Definition uw (w x : Z) : Z := x mod 2 ^ w.

Definition sw (w x : Z) : Z := (x + 2 ^ (w - 1)) mod 2 ^ w - 2 ^ (w - 1).

Abbreviation u8 := (uw 8).
Abbreviation u16 := (uw 16).
Abbreviation u32 := (uw 32).
Abbreviation u64 := (uw 64).
Abbreviation s8 := (sw 8).
Abbreviation s16 := (sw 16).
Abbreviation s32 := (sw 32).
Abbreviation s64 := (sw 64).

(** [is_u w x]: [x] is a value of the unsigned [w]-bit type. *)
Definition is_u (w x : Z) : Prop := 0 <= x < 2 ^ w.

Definition is_s (w x : Z) : Prop := - 2 ^ (w - 1) <= x < 2 ^ (w - 1).

#[global] Instance is_u_dec w x : Decision (is_u w x).
Proof. unfold is_u; apply _. Defined.

#[global] Instance is_s_dec w x : Decision (is_s w x).
Proof. unfold is_s; apply _. Defined.

(** C's [a / b] and [a % b] truncate towards zero; a zero divisor, and the
    one overflowing quotient of a signed type, trap on the wasm host. *)
Definition sdiv (w a b : Z) : option Z :=
  if (b =? 0) || ((a =? - 2 ^ (w - 1)) && (b =? -1)) then None
  else Some (Z.quot a b).

Definition srem (w a b : Z) : option Z :=
  if b =? 0 then None else Some (Z.rem a b).

Definition udiv (a b : Z) : option Z :=
  if b =? 0 then None else Some (a / b).

Definition urem (a b : Z) : option Z :=
  if b =? 0 then None else Some (a mod b).

(** ** Range lemmas *)

Lemma pow2_pos w : 0 <= w -> 0 < 2 ^ w.
Proof. intros; apply Z.pow_pos_nonneg; lia. Qed.

Lemma uw_range w x : 0 <= w -> is_u w (uw w x).
Proof. intros; apply Z.mod_pos_bound, pow2_pos; lia. Qed.

Lemma uw_nonneg w x : 0 <= w -> 0 <= uw w x.
Proof. intros; apply uw_range; lia. Qed.

Lemma uw_small w x : is_u w x -> uw w x = x.
Proof. apply Z.mod_small. Qed.

Lemma uw_idemp w x : 0 <= w -> uw w (uw w x) = uw w x.
Proof. intros; apply uw_small, uw_range; lia. Qed.

Lemma sw_range w x : 0 < w -> is_s w (sw w x).
Proof.
  intros Hw; unfold is_s, sw.
  pose proof (Z.mod_pos_bound (x + 2 ^ (w - 1)) (2 ^ w) (pow2_pos w ltac:(lia))).
  assert (2 ^ w = 2 * 2 ^ (w - 1)) by (rewrite <- Z.pow_succ_r by lia; f_equal; lia).
  lia.
Qed.

Lemma sw_small w x : 0 < w -> is_s w x -> sw w x = x.
Proof.
  intros Hw Hx; unfold is_s, sw in *.
  assert (2 ^ w = 2 * 2 ^ (w - 1)) by (rewrite <- Z.pow_succ_r by lia; f_equal; lia).
  rewrite Z.mod_small; lia.
Qed.

Lemma uw_sw w x : 0 < w -> uw w (sw w x) = uw w x.
Proof.
  intros Hw; unfold uw, sw.
  rewrite Zminus_mod_idemp_l. f_equal; lia.
Qed.

Lemma sw_uw w x : 0 < w -> sw w (uw w x) = sw w x.
Proof. intros Hw; unfold uw, sw. by rewrite Zplus_mod_idemp_l. Qed.

(** The signed reading of an unsigned word, by cases on its top bit. *)
Lemma sw_cases w x :
  0 < w -> is_u w x -> sw w x = if x <? 2 ^ (w - 1) then x else x - 2 ^ w.
Proof.
  intros Hw Hx; unfold is_u in Hx.
  assert (2 ^ w = 2 * 2 ^ (w - 1)) by (rewrite <- Z.pow_succ_r by lia; f_equal; lia).
  assert (0 < 2 ^ (w - 1)) by (apply pow2_pos; lia).
  destruct (Z.ltb_spec x (2 ^ (w - 1))).
  - apply sw_small; [lia | unfold is_s; lia].
  - unfold sw. replace (x + 2 ^ (w - 1)) with (x - 2 ^ (w - 1) + 1 * 2 ^ w) by lia.
    rewrite Z_mod_plus_full, Z.mod_small; lia.
Qed.

Lemma uw_add_idemp_l w a b : uw w (uw w a + b) = uw w (a + b).
Proof. apply Zplus_mod_idemp_l. Qed.

Lemma uw_add_idemp_r w a b : uw w (a + uw w b) = uw w (a + b).
Proof. apply Zplus_mod_idemp_r. Qed.

Lemma uw_sub_idemp_l w a b : uw w (uw w a - b) = uw w (a - b).
Proof. apply Zminus_mod_idemp_l. Qed.

Lemma uw_sub_idemp_r w a b : uw w (a - uw w b) = uw w (a - b).
Proof. apply Zminus_mod_idemp_r. Qed.

Lemma uw_mul_idemp_l w a b : uw w (uw w a * b) = uw w (a * b).
Proof. apply Zmult_mod_idemp_l. Qed.

Lemma uw_mul_idemp_r w a b : uw w (a * uw w b) = uw w (a * b).
Proof. apply Zmult_mod_idemp_r. Qed.

(** Narrowing twice is narrowing to the smaller width. *)
Lemma uw_uw_le v w x : 0 <= v <= w -> uw v (uw w x) = uw v x.
Proof.
  intros H; apply Z.bits_inj'; intros i Hi; unfold uw.
  rewrite !Z.testbit_mod_pow2 by lia.
  destruct (Z.ltb_spec i v), (Z.ltb_spec i w); try lia; done.
Qed.

#[export] Hint Resolve uw_range uw_nonneg sw_range pow2_pos : words.
#[export] Hint Extern 1 (Z.le _ _) => lia : words.
#[export] Hint Extern 1 (Z.lt _ _) => lia : words.

(** ** Bit-level reasoning *)

Lemma testbit_uw w x i : 0 <= w -> Z.testbit (uw w x) i = (i <? w) && Z.testbit x i.
Proof. apply Z.testbit_mod_pow2. Qed.

(** Sign extension repeats bit [w - 1] above. *)
Lemma testbit_sw w x i :
  0 < w -> 0 <= i -> Z.testbit (sw w x) i = Z.testbit x (Z.min i (w - 1)).
Proof.
  intros Hw Hi. rewrite <- (sw_uw w x) by lia.
  pose proof (uw_range w x ltac:(lia)) as Hr.
  assert (Hb : Z.testbit x (Z.min i (w - 1)) = Z.testbit (uw w x) (Z.min i (w - 1))).
  { rewrite testbit_uw by lia. destruct (Z.ltb_spec (Z.min i (w - 1)) w); [done | lia]. }
  rewrite Hb. clear Hb. revert Hr. generalize (uw w x); clear x; intros x Hx.
  rewrite sw_cases by done.
  assert (Hp : 2 ^ w = 2 * 2 ^ (w - 1)) by (rewrite <- Z.pow_succ_r by lia; f_equal; lia).
  assert (Hp1 : 0 < 2 ^ (w - 1)) by (apply pow2_pos; lia).
  unfold is_u in Hx.
  destruct (Z.ltb_spec x (2 ^ (w - 1))) as [Hlt | Hge].
  - destruct (Z.le_gt_cases i (w - 1)).
    + by rewrite Z.min_l by lia.
    + rewrite Z.min_r by lia.
      rewrite <- (Z.mod_small x (2 ^ (w - 1))) by lia.
      by rewrite !Z.mod_pow2_bits_high by lia.
  - destruct (Z.lt_ge_cases i w).
    + rewrite Z.min_l by lia. by rewrite Z.sub_pow2_spec_low by lia.
    + rewrite Z.min_r by lia.
      assert (Ht : Z.testbit (x - 2 ^ w) i = true).
      { assert (Hneg : x - 2 ^ w < 0) by lia.
        destruct (Z.bounded_iff_bits w (x - 2 ^ w) ltac:(lia)) as [Hb _].
        rewrite Hb by lia. by apply bool_decide_eq_true. }
      rewrite Ht. symmetry.
      apply Z.testbit_true; [lia |].
      replace (x / 2 ^ (w - 1)) with 1; [done |].
      apply (Z.div_unique_pos _ _ 1 (x - 2 ^ (w - 1))); lia.
Qed.

(** A value of a [w]-bit type has no bit at or above [w]. *)
Lemma testbit_is_u w x i : is_u w x -> w <= i -> Z.testbit x i = false.
Proof.
  intros Hx Hi. destruct (Z.lt_ge_cases w 0).
  - unfold is_u in Hx. rewrite Z.pow_neg_r in Hx by lia. lia.
  - rewrite <- (uw_small w x Hx), testbit_uw by lia.
    by destruct (Z.ltb_spec i w); [lia |].
Qed.

Lemma is_u_bits w x : 0 <= w -> (forall i, w <= i -> Z.testbit x i = false) -> is_u w x.
Proof.
  intros Hw Hb. replace x with (uw w x); [by apply uw_range |].
  apply Z.bits_inj'; intros i Hi. rewrite testbit_uw by lia.
  destruct (Z.ltb_spec i w); [done |]. by rewrite Hb by lia.
Qed.

Lemma testbit_shiftl a n i :
  0 <= i -> Z.testbit (Z.shiftl a n) i = Z.testbit a (i - n).
Proof. intros; by apply Z.shiftl_spec. Qed.

Lemma testbit_shiftr a n i :
  0 <= i -> Z.testbit (Z.shiftr a n) i = Z.testbit a (i + n).
Proof. intros; by apply Z.shiftr_spec. Qed.

Lemma testbit_ones n i : 0 <= n -> 0 <= i -> Z.testbit (Z.ones n) i = (i <? n).
Proof. apply Z.testbit_ones_nonneg. Qed.

Lemma testbit_m1 i : 0 <= i -> Z.testbit (-1) i = true.
Proof. apply Z.bits_m1. Qed.

Lemma testbit_if (b : bool) x y i :
  Z.testbit (if b then x else y) i = if b then Z.testbit x i else Z.testbit y i.
Proof. by destruct b. Qed.

#[export] Hint Rewrite Z.land_spec Z.lor_spec Z.lxor_spec Z.ldiff_spec
  Z.testbit_0_l testbit_if : bits.
#[export] Hint Rewrite testbit_uw testbit_sw testbit_shiftl testbit_shiftr
  Z.lnot_spec testbit_ones testbit_m1 Z.testbit_mod_pow2 using lia : bits.

(** [bit_cases] splits the comparisons a bit index takes part in;
    [bitblast] proves an equation between words bit by bit. *)
Ltac bit_cases :=
  repeat match goal with
  | |- context [?a <? ?b] => destruct (Z.ltb_spec a b); try lia
  | |- context [Z.min ?a ?b] =>
      first [ rewrite (Z.min_l a b) by lia | rewrite (Z.min_r a b) by lia
            | destruct (Z.le_gt_cases a b) ]
  | |- context [Z.testbit ?a ?i] =>
      match i with
      | _ => rewrite (Z.testbit_neg_r a i) by lia
      end
  end.

Ltac bit_align :=
  repeat match goal with
  | |- context [Z.testbit ?a ?i] =>
      match goal with
      | |- context [Z.testbit a ?j] =>
          assert_fails (constr_eq i j); replace i with j by lia
      end
  end.

Ltac bit_rewrite := repeat (progress (autorewrite with bits)).

Ltac bitblast_at i :=
  bit_rewrite; bit_cases; bit_rewrite; bit_cases; bit_align;
  simpl; try reflexivity; try btauto.

Ltac bitblast :=
  apply Z.bits_inj'; let i := fresh "i" in let Hi := fresh "Hi" in
  intros i Hi; bitblast_at i.

Lemma land_is_u_l w a b : 0 <= w -> is_u w a -> is_u w (Z.land a b).
Proof.
  intros Hw Ha; apply is_u_bits; [done |]; intros i Hi.
  by rewrite Z.land_spec, (testbit_is_u w a) by (done || lia).
Qed.

Lemma land_is_u_r w a b : 0 <= w -> is_u w b -> is_u w (Z.land a b).
Proof. rewrite Z.land_comm. apply land_is_u_l. Qed.

Lemma lor_is_u w a b : 0 <= w -> is_u w a -> is_u w b -> is_u w (Z.lor a b).
Proof.
  intros Hw Ha Hb; apply is_u_bits; [done |]; intros i Hi.
  by rewrite Z.lor_spec, (testbit_is_u w a), (testbit_is_u w b) by (done || lia).
Qed.

Lemma lxor_is_u w a b : 0 <= w -> is_u w a -> is_u w b -> is_u w (Z.lxor a b).
Proof.
  intros Hw Ha Hb; apply is_u_bits; [done |]; intros i Hi.
  by rewrite Z.lxor_spec, (testbit_is_u w a), (testbit_is_u w b) by (done || lia).
Qed.

Lemma shiftr_is_u w a n : 0 <= w -> 0 <= n -> is_u w a -> is_u w (Z.shiftr a n).
Proof.
  intros Hw Hn Ha; apply is_u_bits; [done |]; intros i Hi.
  rewrite testbit_shiftr by lia. apply (testbit_is_u w); [done | lia].
Qed.

#[export] Hint Resolve land_is_u_l land_is_u_r lor_is_u lxor_is_u shiftr_is_u : words.

(** Disjoint words add without carry. *)
Lemma add_disjoint a b : Z.land a b = 0 -> a + b = Z.lor a b.
Proof. intros H. by rewrite <- Z.lxor_lor, Z.add_nocarry_lxor. Qed.

Lemma ones_uw w : 0 <= w -> Z.ones w = 2 ^ w - 1.
Proof. intros; rewrite Z.ones_equiv; lia. Qed.

(** ** C booleans and comparisons *)

Definition b2z (b : bool) : Z := if b then 1 else 0.

Lemma b2z_is_u w b : 1 <= w -> is_u w (b2z b).
Proof.
  intros Hw; unfold is_u.
  assert (2 ^ 1 <= 2 ^ w) by (apply Z.pow_le_mono_r; lia).
  destruct b; simpl; lia.
Qed.

#[export] Hint Resolve b2z_is_u : words.

(** ** Case analysis shared by the components *)

(** Destruct the scrutinee of a [match] or [if] of the goal, keeping its
    equation. *)
Ltac case_goal :=
  match goal with
  | |- context [match ?x with _ => _ end] => destruct x eqn:?
  end.

Ltac case_hyp H :=
  match type of H with
  | context [match ?x with _ => _ end] => destruct x eqn:?
  end.

(** ** Lists *)

Definition is_some {A} (o : option A) : bool := match o with Some _ => true | None => false end.

(** A computation that returns, named by its result. *)
Lemma some_default {A} (d : A) o : is_some o = true -> o = Some (default d o).
Proof. by destruct o. Qed.

Lemma some_triple {A B C} (d : A * B * C) o : is_some o = true ->
  o = Some (fst (fst (default d o)), snd (fst (default d o)), snd (default d o)).
Proof. by destruct o as [[[? ?] ?]|]. Qed.

Lemma lookup_total_insert_eq {A} `{!Inhabited A} (l : list A) i x :
  (i < length l)%nat -> <[i := x]> l !!! i = x.
Proof. intros H. apply list_lookup_total_correct. by apply list_lookup_insert_eq. Qed.

Lemma lookup_total_insert_ne {A} `{!Inhabited A} (l : list A) i j x :
  i <> j -> <[i := x]> l !!! j = l !!! j.
Proof.
  intros H. rewrite !list_lookup_total_alt. by rewrite list_lookup_insert_ne.
Qed.

(** Number of elements that satisfy a boolean test. *)
Fixpoint countb {A} (p : A -> bool) (l : list A) : nat :=
  match l with
  | [] => 0
  | x :: l' => (if p x then 1 else 0) + countb p l'
  end.

Lemma countb_app {A} (p : A -> bool) l1 l2 :
  countb p (l1 ++ l2) = (countb p l1 + countb p l2)%nat.
Proof. induction l1 as [| x l1 IH]; simpl; [done |]. rewrite IH. lia. Qed.

Lemma countb_le_length {A} (p : A -> bool) l : (countb p l <= length l)%nat.
Proof. induction l as [| x l IH]; simpl; [lia |]. destruct (p x); lia. Qed.

Lemma countb_insert {A} (p : A -> bool) l i x y :
  l !! i = Some y ->
  (countb p (<[i := x]> l) + (if p y then 1 else 0)
   = countb p l + (if p x then 1 else 0))%nat.
Proof.
  revert i; induction l as [| z l IH]; intros [| i] H; simplify_eq/=; [lia |].
  specialize (IH _ H). change (list_insert i x l) with (<[i := x]> l) in *. lia.
Qed.
