(* ===== verification/BitOps.v ===== *)
(** * Bit fields, rotations and byte swaps

    Models the inline routines of src/engine/qemu-wasm/include/qemu/bitops.h
    and bswap.h that the TCI encoder and interpreter are written with.  The
    32- and 64-bit versions in the source differ only in the constant width,
    so each pair is one definition over the width [w] and two instances. *)

From S2P Require Import Prelude.

(** The all-ones word [~0U] / [~0ULL], and C's [~x] on a [w]-bit word. *)
Definition allones (w : Z) : Z := Z.ones w.
Definition unot (w x : Z) : Z := uw w (Z.lnot x).

(** The assertion at the head of every bit-field routine:
    [start >= 0 && length > 0 && length <= w - start]. *)
Definition bitfield_ok (w start length : Z) : bool :=
  (0 <=? start) && (0 <? length) && (length <=? w - start).

Module Field.

(** [(value >> start) & (~0U >> (w - length))] *)
Definition extract (w value start length : Z) : Z :=
  Z.land (Z.shiftr value start) (Z.shiftr (allones w) (w - length)).

(** [((intw_t)(value << (w - length - start))) >> (w - length)] *)
Definition sextract (w value start length : Z) : Z :=
  Z.shiftr (sw w (uw w (Z.shiftl value (w - length - start)))) (w - length).

Definition mask (w start length : Z) : Z :=
  uw w (Z.shiftl (Z.shiftr (allones w) (w - length)) start).

(** [(value & ~mask) | ((fieldval << start) & mask)] *)
Definition deposit (w value start length fieldval : Z) : Z :=
  Z.lor (Z.land value (unot w (mask w start length)))
        (Z.land (uw w (Z.shiftl fieldval start)) (mask w start length)).

End Field.

Definition extract32 : Z -> Z -> Z -> Z := Field.extract 32.
Definition extract64 : Z -> Z -> Z -> Z := Field.extract 64.
Definition sextract32 : Z -> Z -> Z -> Z := Field.sextract 32.
Definition sextract64 : Z -> Z -> Z -> Z := Field.sextract 64.
Definition deposit32 : Z -> Z -> Z -> Z -> Z := Field.deposit 32.
Definition deposit64 : Z -> Z -> Z -> Z -> Z := Field.deposit 64.

(** [(word << (shift & (w-1))) | (word >> (-shift & (w-1)))]; the shift count
    is an [unsigned int], so [-shift] wraps at 32 bits. *)
Definition rolw (w word shift : Z) : Z :=
  Z.lor (uw w (Z.shiftl word (Z.land shift (w - 1))))
        (Z.shiftr word (Z.land (u32 (- shift)) (w - 1))).

Definition rorw (w word shift : Z) : Z :=
  Z.lor (Z.shiftr word (Z.land shift (w - 1)))
        (uw w (Z.shiftl word (Z.land (u32 (- shift)) (w - 1)))).

Definition rol8 := rolw 8.
Definition ror8 := rorw 8.
Definition rol16 := rolw 16.
Definition ror16 := rorw 16.
Definition rol32 := rolw 32.
Definition ror32 := rorw 32.
Definition rol64 := rolw 64.
Definition ror64 := rorw 64.

Definition hswap32 (h : Z) : Z := rol32 h 16.

Definition hswap64 (h : Z) : Z :=
  let m := 0x0000ffff0000ffff in
  let h := rol64 h 32 in
  Z.lor (u64 (Z.shiftl (Z.land h m) 16)) (Z.land (Z.shiftr h 16) m).

Definition wswap64 (h : Z) : Z := rol64 h 32.

(** [__builtin_bswap*]: the bytes of the word in reverse order. *)
Definition bswap_bytes (n : Z) (x : Z) : Z :=
  little_endian_to_Z 8 (reverse (Z_to_little_endian n 8 x)).

Definition bswap16 (x : Z) : Z := bswap_bytes 2 (u16 x).
Definition bswap32 (x : Z) : Z := bswap_bytes 4 (u32 x).
Definition bswap64 (x : Z) : Z := bswap_bytes 8 (u64 x).

(** ** Bit fields *)

Lemma bitfield_ok_spec w s l :
  bitfield_ok w s l = true <-> 0 <= s /\ 0 < l /\ l <= w - s.
Proof. unfold bitfield_ok. rewrite !andb_true_iff, !Z.leb_le, Z.ltb_lt. tauto. Qed.

(** Which bit of the source each bit of an extracted field is. *)
Lemma extract_spec w v s l i :
  bitfield_ok w s l = true -> 0 <= i ->
  Z.testbit (Field.extract w v s l) i = (i <? l) && Z.testbit v (i + s).
Proof.
  rewrite bitfield_ok_spec; intros (? & ? & ?) ?.
  unfold Field.extract, allones. bitblast_at i.
Qed.

Lemma extract_uw w v s l :
  bitfield_ok w s l = true -> Field.extract w v s l = uw l (Z.shiftr v s).
Proof.
  intros Hok; apply Z.bits_inj'; intros i Hi.
  rewrite extract_spec by done. apply bitfield_ok_spec in Hok. bitblast_at i.
Qed.

Lemma extract_range w v s l : bitfield_ok w s l = true -> is_u l (Field.extract w v s l).
Proof.
  intros Hok; rewrite extract_uw by done. apply bitfield_ok_spec in Hok.
  apply uw_range; lia.
Qed.

Lemma sextract_sw w v s l :
  bitfield_ok w s l = true -> Field.sextract w v s l = sw l (Z.shiftr v s).
Proof.
  rewrite bitfield_ok_spec; intros (? & ? & ?).
  unfold Field.sextract. bitblast.
Qed.

Lemma deposit_spec w v s l f i :
  bitfield_ok w s l = true -> is_u w v -> 0 <= i ->
  Z.testbit (Field.deposit w v s l f) i =
  if (s <=? i) && (i <? s + l) then Z.testbit f (i - s) else Z.testbit v i.
Proof.
  rewrite bitfield_ok_spec; intros (? & ? & ?) Hv ?.
  unfold Field.deposit, Field.mask, unot, allones.
  assert (Hvi : w <= i -> Z.testbit v i = false) by (intros; by apply (testbit_is_u w)).
  destruct (Z.leb_spec s i); bitblast_at i; rewrite ?Hvi by lia; btauto.
Qed.

Lemma deposit_range w v s l f :
  bitfield_ok w s l = true -> is_u w v -> is_u w (Field.deposit w v s l f).
Proof.
  intros Hok Hv. pose proof Hok as H; apply bitfield_ok_spec in H.
  apply is_u_bits; [lia |]; intros i Hi.
  rewrite deposit_spec by (done || lia).
  destruct (Z.leb_spec s i), (Z.ltb_spec i (s + l)); try lia;
    simpl; by apply (testbit_is_u w).
Qed.

Lemma sextract_range w v s l :
  bitfield_ok w s l = true -> is_s l (Field.sextract w v s l).
Proof.
  intros Hok; rewrite sextract_sw by done. apply bitfield_ok_spec in Hok.
  apply sw_range; lia.
Qed.

#[export] Hint Resolve extract_range deposit_range sextract_range : words.

(** Reading back the field just written gives the low [l] bits of the value. *)
Lemma extract_deposit_same w v s l f :
  bitfield_ok w s l = true -> is_u w v ->
  Field.extract w (Field.deposit w v s l f) s l = uw l f.
Proof.
  intros Hok Hv; apply Z.bits_inj'; intros i Hi.
  pose proof Hok as H; apply bitfield_ok_spec in H.
  rewrite extract_spec, deposit_spec, testbit_uw by (done || lia).
  destruct (Z.leb_spec s (i + s)), (Z.ltb_spec (i + s) (s + l)), (Z.ltb_spec i l);
    try lia; simpl; try done. by replace (i + s - s) with i by lia.
Qed.

Lemma sextract_deposit_same w v s l f :
  bitfield_ok w s l = true -> is_u w v ->
  Field.sextract w (Field.deposit w v s l f) s l = sw l f.
Proof.
  intros Hok Hv. pose proof Hok as H; apply bitfield_ok_spec in H.
  rewrite sextract_sw by done.
  rewrite <- (sw_uw l), <- (extract_uw w) by (done || lia).
  by rewrite extract_deposit_same, sw_uw by (done || lia).
Qed.

(** Writing a field leaves every disjoint field as it was. *)
Lemma extract_deposit_other w v s l f s' l' :
  bitfield_ok w s l = true -> bitfield_ok w s' l' = true -> is_u w v ->
  s + l <= s' \/ s' + l' <= s ->
  Field.extract w (Field.deposit w v s l f) s' l' = Field.extract w v s' l'.
Proof.
  intros Hok Hok' Hv Hd; apply Z.bits_inj'; intros i Hi.
  pose proof Hok as H; apply bitfield_ok_spec in H.
  pose proof Hok' as H'; apply bitfield_ok_spec in H'.
  rewrite !extract_spec, deposit_spec by (done || lia).
  destruct (Z.ltb_spec i l'); [simpl | done].
  destruct (Z.leb_spec s (i + s')), (Z.ltb_spec (i + s') (s + l)); try lia; done.
Qed.

Lemma sextract_deposit_other w v s l f s' l' :
  bitfield_ok w s l = true -> bitfield_ok w s' l' = true -> is_u w v ->
  s + l <= s' \/ s' + l' <= s ->
  Field.sextract w (Field.deposit w v s l f) s' l' = Field.sextract w v s' l'.
Proof.
  intros Hok Hok' Hv Hd.
  pose proof Hok' as H'; apply bitfield_ok_spec in H'.
  rewrite !sextract_sw by done.
  rewrite <- (sw_uw l' (Z.shiftr _ _)), <- (sw_uw l' (Z.shiftr v _)) by lia.
  by rewrite <- !(extract_uw w), extract_deposit_other by done.
Qed.

(** ** Rotations *)

Lemma rot_counts w shift :
  w ∈ [8; 16; 32; 64] ->
  let n := Z.land shift (w - 1) in
  0 <= n < w /\ Z.land (u32 (- shift)) (w - 1) = if n =? 0 then 0 else w - n.
Proof.
  intros Hw n. assert (exists k, 0 < k <= 6 /\ w = 2 ^ k) as (k & Hk & ->).
  { rewrite !elem_of_cons, elem_of_nil in Hw.
    destruct Hw as [-> | [-> | [-> | [-> | []]]]];
      [exists 3 | exists 4 | exists 5 | exists 6]; lia. }
  assert (Hm : forall x, Z.land x (2 ^ k - 1) = x mod 2 ^ k).
  { intros x. rewrite <- ones_uw, Z.land_ones by lia. done. }
  subst n. rewrite !Hm.
  assert (Hu : u32 (- shift) mod 2 ^ k = - shift mod 2 ^ k).
  { change (uw k (u32 (- shift)) = uw k (- shift)). apply uw_uw_le. lia. }
  rewrite Hu. pose proof (pow2_pos k ltac:(lia)).
  split; [by apply Z.mod_pos_bound |].
  destruct (Z.eqb_spec (shift mod 2 ^ k) 0) as [E | E].
  - by rewrite Z_mod_zero_opp_full.
  - by rewrite Z_mod_nz_opp_full.
Qed.

(** Bit [i] of a left rotation by [n] is bit [i - n] modulo the width. *)
Lemma rolw_spec w x n i :
  w ∈ [8; 16; 32; 64] -> is_u w x -> 0 <= i < w ->
  Z.testbit (rolw w x n) i =
  let k := Z.land n (w - 1) in
  Z.testbit x (if k <=? i then i - k else i - k + w).
Proof.
  intros Hw Hx Hi; destruct (rot_counts w n Hw) as [Hn He]; cbv zeta in *.
  unfold rolw; rewrite He. set (k := Z.land n (w - 1)) in *.
  assert (Hz : forall j, w <= j -> Z.testbit x j = false)
    by (intros; by apply (testbit_is_u w)).
  rewrite Z.lor_spec, testbit_uw, testbit_shiftl, testbit_shiftr by lia.
  destruct (Z.ltb_spec i w); [| lia].
  destruct (Z.eqb_spec k 0), (Z.leb_spec k i); try lia; simpl.
  - replace (i + 0) with (i - k) by lia. by rewrite orb_diag.
  - rewrite (Hz (i + (w - k))) by lia. by rewrite orb_false_r.
  - rewrite (Z.testbit_neg_r x (i - k)) by lia. simpl; f_equal; lia.
Qed.

Lemma rorw_spec w x n i :
  w ∈ [8; 16; 32; 64] -> is_u w x -> 0 <= i < w ->
  Z.testbit (rorw w x n) i =
  let k := Z.land n (w - 1) in
  Z.testbit x (if i + k <? w then i + k else i + k - w).
Proof.
  intros Hw Hx Hi; destruct (rot_counts w n Hw) as [Hn He]; cbv zeta in *.
  unfold rorw; rewrite He. set (k := Z.land n (w - 1)) in *.
  assert (Hz : forall j, w <= j -> Z.testbit x j = false)
    by (intros; by apply (testbit_is_u w)).
  rewrite Z.lor_spec, testbit_uw, testbit_shiftl, testbit_shiftr by lia.
  destruct (Z.ltb_spec i w); [| lia].
  destruct (Z.eqb_spec k 0), (Z.ltb_spec (i + k) w); try lia; simpl.
  - replace (i - 0) with (i + k) by lia. by rewrite orb_diag.
  - rewrite (Z.testbit_neg_r x (i - (w - k))) by lia. by rewrite orb_false_r.
  - rewrite (Hz (i + k)) by lia. simpl; f_equal; lia.
Qed.

Lemma rot_width_pos w : w ∈ [8; 16; 32; 64] -> 0 < w.
Proof. rewrite !elem_of_cons, elem_of_nil. lia. Qed.

Lemma rolw_range w x n : w ∈ [8; 16; 32; 64] -> is_u w x -> is_u w (rolw w x n).
Proof.
  intros Hw Hx; destruct (rot_counts w n Hw) as [Hn He]; cbv zeta in *.
  pose proof (rot_width_pos w Hw). unfold rolw; rewrite He.
  apply lor_is_u; [lia | apply uw_range; lia |].
  apply shiftr_is_u; [lia | destruct (_ =? 0); lia | done].
Qed.

Lemma rorw_range w x n : w ∈ [8; 16; 32; 64] -> is_u w x -> is_u w (rorw w x n).
Proof.
  intros Hw Hx; destruct (rot_counts w n Hw) as [Hn He]; cbv zeta in *.
  pose proof (rot_width_pos w Hw). unfold rorw; rewrite He.
  apply lor_is_u; [lia | | apply uw_range; lia].
  apply shiftr_is_u; [lia | lia | done].
Qed.

#[export] Hint Resolve rolw_range rorw_range : words.

(** Equality of two words of the same width, bit by bit. *)
Lemma word_eq w x y :
  0 <= w -> is_u w x -> is_u w y ->
  (forall i, 0 <= i < w -> Z.testbit x i = Z.testbit y i) -> x = y.
Proof.
  intros Hw Hx Hy Hb; apply Z.bits_inj'; intros i Hi.
  destruct (Z.lt_ge_cases i w); [apply Hb; lia |].
  by rewrite (testbit_is_u w x), (testbit_is_u w y).
Qed.

Lemma rorw_rolw w x n : w ∈ [8; 16; 32; 64] -> is_u w x -> rorw w (rolw w x n) n = x.
Proof.
  intros Hw Hx; pose proof (rot_width_pos w Hw).
  apply (word_eq w); [lia | eauto with words | done |]; intros i Hi.
  destruct (rot_counts w n Hw) as [Hn _]; cbv zeta in *.
  rewrite rorw_spec by eauto with words; cbv zeta.
  destruct (Z.ltb_spec (i + Z.land n (w - 1)) w); rewrite rolw_spec by (done || lia);
    cbv zeta; case_match; try lia; f_equal; lia.
Qed.

Lemma rolw_rorw w x n : w ∈ [8; 16; 32; 64] -> is_u w x -> rolw w (rorw w x n) n = x.
Proof.
  intros Hw Hx; pose proof (rot_width_pos w Hw).
  apply (word_eq w); [lia | eauto with words | done |]; intros i Hi.
  destruct (rot_counts w n Hw) as [Hn _]; cbv zeta in *.
  rewrite rolw_spec by eauto with words; cbv zeta.
  destruct (Z.leb_spec (Z.land n (w - 1)) i); rewrite rorw_spec by (done || lia);
    cbv zeta; case_match; try lia; f_equal; lia.
Qed.

(** ** Byte swaps *)

Lemma bswap_bytes_range n x : 0 <= n -> is_u (n * 8) (bswap_bytes n x).
Proof.
  intros Hn. unfold bswap_bytes, is_u.
  pose proof (little_endian_to_Z_bound 8 (reverse (Z_to_little_endian n 8 x))) as H.
  rewrite length_reverse, length_Z_to_little_endian in H by lia.
  apply H; [lia |]. apply Forall_reverse, Z_to_little_endian_bound; lia.
Qed.

Lemma bswap_bytes_involutive n x :
  0 <= n -> bswap_bytes n (bswap_bytes n x) = uw (n * 8) x.
Proof.
  intros Hn. unfold bswap_bytes at 1. unfold bswap_bytes at 1.
  rewrite Z_to_little_endian_to_Z.
  - rewrite reverse_involutive. by apply little_endian_to_Z_to_little_endian.
  - by rewrite length_reverse, length_Z_to_little_endian.
  - lia.
  - apply Forall_reverse, Z_to_little_endian_bound; lia.
Qed.

Lemma bswap64_involutive x : bswap64 (bswap64 x) = u64 x.
Proof.
  unfold bswap64. pose proof (bswap_bytes_range 8 (u64 x) ltac:(lia)).
  rewrite (uw_small 64 (bswap_bytes _ _)) by done.
  rewrite bswap_bytes_involutive by lia. by rewrite uw_idemp.
Qed.

Lemma bswap32_involutive x : bswap32 (bswap32 x) = u32 x.
Proof.
  unfold bswap32. pose proof (bswap_bytes_range 4 (u32 x) ltac:(lia)).
  rewrite (uw_small 32 (bswap_bytes _ _)) by done.
  rewrite bswap_bytes_involutive by lia. by rewrite uw_idemp.
Qed.

Lemma bswap16_involutive x : bswap16 (bswap16 x) = u16 x.
Proof.
  unfold bswap16. pose proof (bswap_bytes_range 2 (u16 x) ltac:(lia)).
  rewrite (uw_small 16 (bswap_bytes _ _)) by done.
  rewrite bswap_bytes_involutive by lia. by rewrite uw_idemp.
Qed.

(** A bit field written into a word reads back as written, unsigned and sign
    extended, and every field disjoint from it reads as before. *)
Theorem field_roundtrip w v s l f s' l' :
  bitfield_ok w s l = true -> bitfield_ok w s' l' = true -> is_u w v -> s + l <= s' \/ s' + l' <= s ->
  Field.extract w (Field.deposit w v s l f) s l = uw l f /\
  Field.sextract w (Field.deposit w v s l f) s l = sw l f /\
  Field.extract w (Field.deposit w v s l f) s' l' = Field.extract w v s' l' /\
  Field.sextract w (Field.deposit w v s l f) s' l' = Field.sextract w v s' l'.
Proof.
  intros Hf Hg Hv Hd. split_and!; [by apply extract_deposit_same | by apply sextract_deposit_same
    | by apply extract_deposit_other | by apply sextract_deposit_other].
Qed.

Lemma field_roundtrip_witness :
  extract32 (deposit32 0x12345678 8 4 0xF) 8 4 = 0xF /\
  extract32 (deposit32 0x12345678 8 4 0xF) 12 8 = extract32 0x12345678 12 8.
Proof.
  destruct (field_roundtrip 32 0x12345678 8 4 0xF 12 8) as (H1 & _ & H3 & _);
    [reflexivity | reflexivity | unfold is_u; lia | left; lia |]. split; [exact H1 | exact H3].
Defined.
