(* ===== verification/HostUtils.v ===== *)
(** * Host arithmetic utilities

    Models src/engine/qemu-wasm/include/qemu/host-utils.h and
    src/engine/qemu-wasm/util/host-utils.c: bit counting, overflow-reporting
    arithmetic, and the portable (no [CONFIG_INT128]) double-word multiply,
    divide and shift routines.  The theorems say that the portable routines
    compute what the [__int128] versions of the same header compute. *)

From S2P Require Import Prelude BitOps.

(** ** Bit counting *)

(** [__builtin_clz], [__builtin_ctz] and [__builtin_popcount]. *)
Definition builtin_clz (w val : Z) : Z := w - 1 - Z.log2 val.

Fixpoint pos_ctz (p : positive) : Z :=
  match p with
  | xO q => 1 + pos_ctz q
  | _ => 0
  end.

Definition builtin_ctz (val : Z) : Z :=
  match val with Zpos p => pos_ctz p | _ => 0 end.

Fixpoint pos_popcount (p : positive) : Z :=
  match p with
  | xH => 1
  | xO q => pos_popcount q
  | xI q => 1 + pos_popcount q
  end.

Definition builtin_popcount (val : Z) : Z :=
  match val with Zpos p => pos_popcount p | _ => 0 end.

Definition clz8 (val : Z) : Z := if val =? 0 then 8 else builtin_clz 32 val - 24.
Definition clz16 (val : Z) : Z := if val =? 0 then 16 else builtin_clz 32 val - 16.
Definition clz32 (val : Z) : Z := if val =? 0 then 32 else builtin_clz 32 val.
Definition clo32 (val : Z) : Z := clz32 (unot 32 val).
Definition clz64 (val : Z) : Z := if val =? 0 then 64 else builtin_clz 64 val.
Definition clo64 (val : Z) : Z := clz64 (unot 64 val).
Definition ctz8 (val : Z) : Z := if val =? 0 then 8 else builtin_ctz val.
Definition ctz16 (val : Z) : Z := if val =? 0 then 16 else builtin_ctz val.
Definition ctz32 (val : Z) : Z := if val =? 0 then 32 else builtin_ctz val.
Definition cto32 (val : Z) : Z := ctz32 (unot 32 val).
Definition ctz64 (val : Z) : Z := if val =? 0 then 64 else builtin_ctz val.
Definition cto64 (val : Z) : Z := ctz64 (unot 64 val).

(** The arm compiled where [__builtin_clrsb] is missing. *)
Definition clrsb32 (val : Z) : Z := clz32 (Z.lxor val (u32 (Z.shiftr (s32 val) 1))) - 1.
Definition clrsb64 (val : Z) : Z := clz64 (Z.lxor val (u64 (Z.shiftr (s64 val) 1))) - 1.

Definition ctpop8 (val : Z) : Z := builtin_popcount val.
Definition ctpop16 (val : Z) : Z := builtin_popcount val.
Definition ctpop32 (val : Z) : Z := builtin_popcount val.
Definition ctpop64 (val : Z) : Z := builtin_popcount val.

Definition uabs64 (v : Z) : Z := if v <? 0 then u64 (- v) else v.

(** ** Arithmetic with an overflow indication: (result, overflowed) *)

Definition s_overflow (w r : Z) : Z * bool := (sw w r, negb (sw w r =? r)).
Definition u_overflow (w r : Z) : Z * bool := (uw w r, negb (uw w r =? r)).

Definition sadd32_overflow (x y : Z) := s_overflow 32 (x + y).
Definition sadd64_overflow (x y : Z) := s_overflow 64 (x + y).
Definition uadd32_overflow (x y : Z) := u_overflow 32 (x + y).
Definition uadd64_overflow (x y : Z) := u_overflow 64 (x + y).
Definition ssub32_overflow (x y : Z) := s_overflow 32 (x - y).
Definition ssub64_overflow (x y : Z) := s_overflow 64 (x - y).
Definition usub32_overflow (x y : Z) := u_overflow 32 (x - y).
Definition usub64_overflow (x y : Z) := u_overflow 64 (x - y).
Definition smul32_overflow (x y : Z) := s_overflow 32 (x * y).
Definition smul64_overflow (x y : Z) := s_overflow 64 (x * y).
Definition umul32_overflow (x y : Z) := u_overflow 32 (x * y).
Definition umul64_overflow (x y : Z) := u_overflow 64 (x * y).

(** Carry and borrow chains (the arm without [__builtin_addcll]): the two
    partial results are combined with [|=]. *)
Definition uadd64_carry (x y : Z) (carry : bool) : Z * bool :=
  let '(x, c1) := uadd64_overflow x (b2z carry) in
  let '(x, c2) := uadd64_overflow x y in
  (x, c1 || c2).

Definition usub64_borrow (x y : Z) (borrow : bool) : Z * bool :=
  let '(x, b1) := usub64_overflow x (b2z borrow) in
  let '(x, b2) := usub64_overflow x y in
  (x, b1 || b2).

(** ** 64 x 64 -> 128 multiplication *)

(** The [LL] union: a 64-bit word seen as its low and high halves. *)
Definition ll_low (x : Z) : Z := u32 x.
Definition ll_high (x : Z) : Z := Z.shiftr x 32.
Definition ll_of (low high : Z) : Z := high * 2 ^ 32 + low.

Definition mul64 (a b : Z) : Z * Z :=
  let rl := u64 (ll_low a * ll_low b) in
  let rm := u64 (ll_low a * ll_high b) in
  let rn := u64 (ll_high a * ll_low b) in
  let rh := u64 (ll_high a * ll_high b) in
  let c := u64 (ll_high rl + ll_low rm + ll_low rn) in
  let rl := ll_of (ll_low rl) (u32 c) in
  let c := Z.shiftr c 32 in
  let c := u64 (c + ll_high rm + ll_high rn + ll_low rh) in
  let rh := ll_of (u32 c) (ll_high rh) in
  let rh := ll_of (ll_low rh) (u32 (ll_high rh + u32 (Z.shiftr c 32))) in
  (rl, rh).

Definition mulu64 (a b : Z) : Z * Z := mul64 a b.

Definition muls64 (a b : Z) : Z * Z :=
  let '(plow, rh) := mul64 (u64 a) (u64 b) in
  let rh := if b <? 0 then u64 (rh - u64 a) else rh in
  let rh := if a <? 0 then u64 (rh - u64 b) else rh in
  (plow, rh).

(** [(a * b) / c] through a 96-bit intermediate; [c] is non-zero. *)
Definition muldiv64_rounding (a b c : Z) (round_up : bool) : Z :=
  let rl := u64 (ll_low a * b) in
  let rl := if round_up then u64 (rl + u32 (c - 1)) else rl in
  let rh := u64 (ll_high a * b) in
  let rh := u64 (rh + Z.shiftr rl 32) in
  let high := u32 (rh / c) in
  let low := u32 (u64 (u64 (Z.shiftl (rh mod c) 32) + Z.land rl 0xffffffff) / c) in
  ll_of low high.

Definition muldiv64 (a b c : Z) : Z := muldiv64_rounding a b c false.
Definition muldiv64_round_up (a b c : Z) : Z := muldiv64_rounding a b c true.

(** 128 x 64 multiplication (without [CONFIG_INT128]): (low, high, truncated). *)
Definition mulu128 (plow phigh factor : Z) : Z * Z * bool :=
  let dhi := phigh in
  let dlo := plow in
  if dhi =? 0 then
    let '(lo, hi) := mulu64 dlo factor in (lo, hi, false)
  else
    let '(lo, ahi) := mulu64 dlo factor in
    let '(blo, bhi) := mulu64 dhi factor in
    let '(hi, o) := uadd64_overflow ahi blo in
    (lo, hi, o || negb (bhi =? 0)).

(** ** 128 / 64 division *)

(** One half of [udiv_qrnnd] (its body divides twice by the same steps): the
    quotient digit and remainder of [n1 * 2^32 + digit] by [d]. *)
Definition udiv_qrnnd_half (n1 digit d : Z) : Z * Z :=
  let d0 := u32 d in
  let d1 := Z.shiftr d 32 in
  let r1 := n1 mod d1 in
  let q1 := n1 / d1 in
  let m := u64 (q1 * d0) in
  let r1 := Z.lor (u64 (Z.shiftl r1 32)) digit in
  let '(q1, r1) :=
    if r1 <? m then
      let q1 := u64 (q1 - 1) in
      let r1 := u64 (r1 + d) in
      if d <=? r1 then
        if r1 <? m then (u64 (q1 - 1), u64 (r1 + d)) else (q1, r1)
      else (q1, r1)
    else (q1, r1) in
  (q1, u64 (r1 - m)).

(** (quotient, remainder) of [n1 * 2^64 + n0] by the normalised [d]. *)
Definition udiv_qrnnd (n1 n0 d : Z) : Z * Z :=
  let '(q1, r1) := udiv_qrnnd_half n1 (Z.shiftr n0 32) d in
  let '(q0, r0) := udiv_qrnnd_half r1 (u32 n0) d in
  (Z.lor (u64 (Z.shiftl q1 32)) q0, r0).

(** Unsigned 128-by-64 division: (low, high, remainder); a zero divisor traps
    on the host division. *)
Definition divu128 (plow phigh divisor : Z) : option (Z * Z * Z) :=
  let dhi := phigh in
  let dlo := plow in
  if (divisor =? 0) || (dhi =? 0) then
    q ← udiv dlo divisor;
    r ← urem dlo divisor;
    Some (q, 0, r)
  else
    let sh := clz64 divisor in
    if dhi <? divisor then
      let '(divisor, dhi, dlo) :=
        if negb (sh =? 0) then
          (u64 (Z.shiftl divisor sh),
           Z.lor (u64 (Z.shiftl dhi sh)) (Z.shiftr dlo (64 - sh)),
           u64 (Z.shiftl dlo sh))
        else (divisor, dhi, dlo) in
      let '(q, rem) := udiv_qrnnd dhi dlo divisor in
      Some (q, 0, Z.shiftr rem sh)
    else
      let '(phigh, dhi, dlo, divisor) :=
        if negb (sh =? 0) then
          let divisor := u64 (Z.shiftl divisor sh) in
          let dhighest := Z.shiftr dhi (64 - sh) in
          let dhi := Z.lor (u64 (Z.shiftl dhi sh)) (Z.shiftr dlo (64 - sh)) in
          let dlo := u64 (Z.shiftl dlo sh) in
          let '(q, dhi) := udiv_qrnnd dhighest dhi divisor in
          (q, dhi, dlo, divisor)
        else (1, u64 (dhi - divisor), dlo, divisor) in
      let '(q, rem) := udiv_qrnnd dhi dlo divisor in
      Some (q, phigh, Z.shiftr rem sh).

(** Signed 128-by-64 division: (low, high, remainder), the high word and the
    remainder signed. *)
Definition divs128 (plow phigh divisor : Z) : option (Z * Z * Z) :=
  let unsig_hi := u64 phigh in
  let unsig_lo := plow in
  let '(neg_quotient, neg_remainder, unsig_hi, unsig_lo) :=
    if phigh <? 0 then
      if unsig_lo =? 0 then (true, true, u64 (- unsig_hi), unsig_lo)
      else (true, true, unot 64 unsig_hi, u64 (- unsig_lo))
    else (false, false, unsig_hi, unsig_lo) in
  let '(neg_quotient, divisor) :=
    if divisor <? 0 then (negb neg_quotient, - divisor) else (neg_quotient, divisor) in
  '(unsig_lo, unsig_hi, rem) ← divu128 unsig_lo unsig_hi (u64 divisor);
  let '(plow, phigh) :=
    if (neg_quotient : bool) then
      if unsig_lo =? 0 then (0, s64 (- unsig_hi))
      else (u64 (- unsig_lo), s64 (unot 64 unsig_hi))
    else (unsig_lo, s64 unsig_hi) in
  Some (plow, phigh, if (neg_remainder : bool) then s64 (- rem) else s64 rem).

(** ** 128-bit shifts *)

Definition urshift (plow phigh shift : Z) : Z * Z :=
  let shift := Z.land shift 127 in
  if shift =? 0 then (plow, phigh)
  else
    let h := Z.shiftr phigh (Z.land shift 63) in
    if 64 <=? shift then (h, 0)
    else (Z.lor (Z.shiftr plow (Z.land shift 63))
                (u64 (Z.shiftl phigh (64 - Z.land shift 63))), h).

(** (low, high, overflow); the flag is only ever set. *)
Definition ulshift (plow phigh shift : Z) (overflow : bool) : Z * Z * bool :=
  let low := plow in
  let high := phigh in
  let shift := Z.land shift 127 in
  if shift =? 0 then (plow, phigh, overflow)
  else
    let '(low, high) := urshift low high (128 - shift) in
    let overflow := if negb (Z.lor low high =? 0) then true else overflow in
    if 64 <=? shift then
      (0, u64 (Z.shiftl plow (Z.land shift 63)), overflow)
    else
      (u64 (Z.shiftl plow shift),
       Z.lor (Z.shiftr plow (64 - Z.land shift 63)) (u64 (Z.shiftl phigh (Z.land shift 63))),
       overflow).

(** ** Powers of two *)

Definition is_power_of_2 (value : Z) : bool :=
  if value =? 0 then false else Z.land value (u64 (value - 1)) =? 0.

Definition pow2floor (value : Z) : Z :=
  if value =? 0 then 0 else Z.shiftr 0x8000000000000000 (clz64 value).

Definition pow2ceil (value : Z) : Z :=
  let n := clz64 (u64 (value - 1)) in
  if n =? 0 then b2z (value =? 0) else Z.shiftr 0x8000000000000000 (n - 1).

(** ** Halves of a word *)

Lemma ll_split x : x = ll_of (ll_low x) (ll_high x).
Proof.
  unfold ll_of, ll_low, ll_high, uw. rewrite Z.shiftr_div_pow2 by lia.
  pose proof (Z.div_mod x (2 ^ 32)). lia.
Qed.

Lemma ll_low_range x : 0 <= ll_low x < 2 ^ 32.
Proof. apply uw_range; lia. Qed.

Lemma ll_high_range x : is_u 64 x -> 0 <= ll_high x < 2 ^ 32.
Proof.
  unfold is_u, ll_high. intros Hx. rewrite Z.shiftr_div_pow2 by lia.
  split; [apply Z.div_pos; lia | apply Z.div_lt_upper_bound; lia].
Qed.

Lemma ll_low_of l h : 0 <= l < 2 ^ 32 -> ll_low (ll_of l h) = l.
Proof.
  intros; unfold ll_low, ll_of, uw.
  rewrite Z.add_comm, Z_mod_plus_full. by apply Z.mod_small.
Qed.

Lemma ll_high_of l h : 0 <= l < 2 ^ 32 -> ll_high (ll_of l h) = h.
Proof.
  intros; unfold ll_high, ll_of. rewrite Z.shiftr_div_pow2 by lia.
  rewrite Z.add_comm, Z.div_add by lia. rewrite Z.div_small by lia. lia.
Qed.

(** Name the halves of [x] as fresh variables with their ranges. *)
Ltac halves x lo hi :=
  let E := fresh "E" x in
  pose proof (ll_split x) as E; unfold ll_of in E;
  pose proof (ll_low_range x);
  set (lo := ll_low x) in *; set (hi := ll_high x) in *.

(** The portable 64 x 64 multiply is exact: high * 2^64 + low is the product. *)
Lemma mul64_exact a b :
  is_u 64 a -> is_u 64 b ->
  let '(lo, hi) := mul64 a b in
  hi * 2 ^ 64 + lo = a * b /\ is_u 64 lo /\ is_u 64 hi.
Proof.
  intros Ha Hb.
  pose proof (ll_high_range a Ha) as Hah; pose proof (ll_high_range b Hb) as Hbh.
  unfold mul64. halves a al ah. halves b bl bh.
  assert (Hp : forall x y, 0 <= x < 2 ^ 32 -> 0 <= y < 2 ^ 32 ->
                           0 <= x * y <= (2 ^ 32 - 1) * (2 ^ 32 - 1)) by (intros; nia).
  pose proof (Hp al bl ltac:(lia) ltac:(lia)); pose proof (Hp al bh ltac:(lia) ltac:(lia)).
  pose proof (Hp ah bl ltac:(lia) ltac:(lia)); pose proof (Hp ah bh ltac:(lia) ltac:(lia)).
  clear Hp.
  assert (Eab : a * b = ah * bh * 2 ^ 64 + (al * bh + ah * bl) * 2 ^ 32 + al * bl)
    by (rewrite Ea, Eb; ring).
  rewrite !(uw_small 64 (_ * _)) by (unfold is_u; lia).
  generalize dependent (al * bl); intros rl; generalize dependent (al * bh); intros rm.
  generalize dependent (ah * bl); intros rn; generalize dependent (ah * bh); intros rh.
  intros Hrh Hrn Hrm Hrl Eab.
  assert (Hu : forall x, 0 <= x <= (2 ^ 32 - 1) * (2 ^ 32 - 1) -> is_u 64 x)
    by (unfold is_u; lia).
  pose proof (ll_high_range rl (Hu _ Hrl)); pose proof (ll_high_range rm (Hu _ Hrm)).
  pose proof (ll_high_range rn (Hu _ Hrn)); pose proof (ll_high_range rh (Hu _ Hrh)).
  halves rl rll rlh. halves rm rml rmh. halves rn rnl rnh. halves rh rhl rhh.
  cbv zeta.
  rewrite (uw_small 64 (rlh + rml + rnl)) by (unfold is_u; lia).
  set (c := rlh + rml + rnl) in *.
  assert (Hc : is_u 64 c) by (unfold is_u; lia).
  pose proof (ll_high_range c Hc) as Hch. change (Z.shiftr c 32) with (ll_high c).
  change (u32 c) with (ll_low c). halves c cl ch.
  rewrite (uw_small 64 (ch + rmh + rnh + rhl)) by (unfold is_u; lia).
  set (e := ch + rmh + rnh + rhl) in *.
  assert (He : is_u 64 e) by (unfold is_u; lia).
  pose proof (ll_high_range e He) as Heh. change (Z.shiftr e 32) with (ll_high e).
  change (u32 e) with (ll_low e). halves e el eh.
  rewrite ll_low_of, ll_high_of by lia.
  rewrite (uw_small 32 eh) by (unfold is_u; lia).
  assert (Hov : rhh + eh < 2 ^ 32) by lia.
  rewrite (uw_small 32 (rhh + eh)) by (unfold is_u; lia).
  unfold ll_of, is_u. lia.
Qed.

(** The signed 64 x 64 multiply returns the two words of the exact 128-bit product. *)
Theorem muls64_exact a b :
  is_s 64 a -> is_s 64 b ->
  let '(lo, hi) := muls64 a b in
  lo = u64 (a * b) /\ hi = u64 (Z.shiftr (a * b) 64).
Proof.
  intros Ha Hb. unfold muls64.
  pose proof (mul64_exact (u64 a) (u64 b) ltac:(eauto with words) ltac:(eauto with words)) as H.
  destruct (mul64 (u64 a) (u64 b)) as [lo hi]. destruct H as (H & Hlo & Hhi).
  rewrite Z.shiftr_div_pow2 by lia.
  assert (Hs : forall x, is_s 64 x -> u64 x = x + (if x <? 0 then 2 ^ 64 else 0)).
  { intros x Hx; unfold is_s, uw in *. destruct (Z.ltb_spec x 0).
    - rewrite <- (Z_mod_plus_full x 1 (2 ^ 64)), Z.mod_small; lia.
    - rewrite Z.mod_small; lia. }
  rewrite !Hs in * by done. unfold is_u, is_s in *.
  assert (Hdm : a * b = (a * b) / 2 ^ 64 * 2 ^ 64 + lo /\ lo = (a * b) mod 2 ^ 64).
  { assert (Hmod : lo = (a * b) mod 2 ^ 64).
    { replace (a * b) with (lo + (hi - (if b <? 0 then a else 0) - (if a <? 0 then b else 0)
        - (if a <? 0 then if b <? 0 then 2 ^ 64 else 0 else 0)) * 2 ^ 64)
        by (destruct (a <? 0), (b <? 0); lia).
      rewrite Z_mod_plus_full, Z.mod_small; lia. }
    split; [| done]. pose proof (Z.div_mod (a * b) (2 ^ 64)). lia. }
  destruct Hdm as [Hdm Hmod]. split; [done |].
  set (q := a * b / 2 ^ 64) in *. unfold uw.
  destruct (Z.ltb_spec a 0), (Z.ltb_spec b 0); rewrite ?Z.add_0_r in *.
  - rewrite Zminus_mod_idemp_l, Zminus_mod_idemp_r.
    rewrite <- (Zminus_mod_idemp_l (hi - _)), Zminus_mod_idemp_r, Zminus_mod_idemp_l.
    replace q with (hi - a - b + (-1) * 2 ^ 64) by lia.
    by rewrite Z_mod_plus_full.
  - rewrite Zminus_mod_idemp_r. f_equal; lia.
  - rewrite Zminus_mod_idemp_r. f_equal; lia.
  - symmetry. replace q with hi by lia. apply Z.mod_small; lia.
Qed.

Lemma muls64_exact_witness : muls64 (-3) 5 = (u64 (-15), u64 (Z.shiftr (-15) 64)).
Proof.
  pose proof (muls64_exact (-3) 5 ltac:(unfold is_s; lia) ltac:(unfold is_s; lia)) as H.
  vm_compute in H |- *. destruct H. congruence.
Defined.

(** The digit step of the division: exact for a normalised divisor. *)
Lemma udiv_qrnnd_half_exact n1 x d :
  2 ^ 63 <= d < 2 ^ 64 -> 0 <= n1 < d -> 0 <= x < 2 ^ 32 ->
  let '(q, r) := udiv_qrnnd_half n1 x d in
  q * d + r = n1 * 2 ^ 32 + x /\ 0 <= r < d /\ 0 <= q < 2 ^ 32.
Proof.
  intros Hd Hn Hx. unfold udiv_qrnnd_half.
  assert (Hdu : is_u 64 d) by (unfold is_u; lia).
  pose proof (ll_high_range d Hdu) as Hd1.
  change (u32 d) with (ll_low d). change (Z.shiftr d 32) with (ll_high d).
  halves d d0 d1.
  pose proof (Z.div_mod n1 d1 ltac:(lia)) as Hdm.
  pose proof (Z.mod_pos_bound n1 d1 ltac:(lia)) as Hrem.
  set (q1 := n1 / d1) in *. set (r1 := n1 mod d1) in *.
  assert (Hq : 0 <= q1 <= 2 ^ 32 + 1) by nia.
  assert (Hm : 0 <= q1 * d0 < 2 ^ 64) by nia.
  rewrite (uw_small 64 (q1 * d0)) by done.
  assert (Hr : Z.lor (u64 (Z.shiftl r1 32)) x = r1 * 2 ^ 32 + x).
  { rewrite uw_small by (unfold is_u; rewrite Z.shiftl_mul_pow2; lia).
    rewrite <- add_disjoint; [rewrite Z.shiftl_mul_pow2 by lia; done |].
    assert (is_u 32 x) by done. apply Z.bits_inj'; intros i Hi.
    rewrite Z.land_spec, testbit_shiftl, Z.testbit_0_l by lia.
    destruct (Z.lt_ge_cases i 32); [by rewrite Z.testbit_neg_r by lia |].
    by rewrite (testbit_is_u 32 x), andb_false_r by (done || lia). }
  rewrite Hr. clear Hr.
  set (R := r1 * 2 ^ 32 + x). set (m := q1 * d0) in *.
  assert (HR : 0 <= R < d) by (subst R; lia).
  assert (Hid : n1 * 2 ^ 32 + x = q1 * d + R - m)
    by (subst R m; rewrite Ed, Hdm; ring).
  clearbody m R. clear Hdm Hrem.
  assert (Hfin : forall q r, q * d + r = n1 * 2 ^ 32 + x -> 0 <= r < d -> 0 <= q < 2 ^ 32)
    by (intros; nia).
  assert (Hres : forall q r, q * d + r = n1 * 2 ^ 32 + x -> 0 <= r < d ->
                 q * d + r = n1 * 2 ^ 32 + x /\ 0 <= r < d /\ 0 <= q < 2 ^ 32) by eauto.
  destruct (Z.ltb_spec R m) as [Hlt | Hge].
  2:{ rewrite uw_small by (unfold is_u; lia). apply Hres; lia. }
  assert (Hq0 : 0 < q1) by nia.
  rewrite (uw_small 64 (q1 - 1)) by (unfold is_u; lia).
  destruct (Z.lt_ge_cases (R + d) (2 ^ 64)) as [Hnw | Hw].
  - rewrite (uw_small 64 (R + d)) by (unfold is_u; lia).
    destruct (Z.leb_spec d (R + d)); [| lia].
    destruct (Z.ltb_spec (R + d) m).
    + assert (Hq2 : 2 <= q1) by nia.
      rewrite (uw_small 64 (q1 - 1 - 1)) by (unfold is_u; lia).
      rewrite uw_sub_idemp_l. rewrite uw_small by (unfold is_u; lia). apply Hres; lia.
    + rewrite uw_small by (unfold is_u; lia). apply Hres; lia.
  - assert (Hwr : u64 (R + d) = R + d - 2 ^ 64).
    { unfold uw. rewrite <- (Z_mod_plus_full _ (-1)). rewrite Z.mod_small; lia. }
    rewrite Hwr. destruct (Z.leb_spec d (R + d - 2 ^ 64)); [lia |].
    rewrite <- Hwr, uw_sub_idemp_l. rewrite uw_small by (unfold is_u; lia). apply Hres; lia.
Qed.

Lemma lor_shift32 h l : 0 <= h -> 0 <= l < 2 ^ 32 -> Z.lor (Z.shiftl h 32) l = h * 2 ^ 32 + l.
Proof.
  intros Hh Hl. rewrite <- add_disjoint; [rewrite Z.shiftl_mul_pow2 by lia; done |].
  assert (is_u 32 l) by done. apply Z.bits_inj'; intros i Hi.
  rewrite Z.land_spec, testbit_shiftl, Z.testbit_0_l by lia.
  destruct (Z.lt_ge_cases i 32); [by rewrite Z.testbit_neg_r by lia |].
  by rewrite (testbit_is_u 32 l), andb_false_r by (done || lia).
Qed.

(** [udiv_qrnnd] divides exactly when the divisor is normalised (top bit set)
    and the quotient fits 64 bits. *)
Lemma udiv_qrnnd_exact n1 n0 d :
  2 ^ 63 <= d < 2 ^ 64 -> 0 <= n1 < d -> is_u 64 n0 ->
  let '(q, r) := udiv_qrnnd n1 n0 d in
  q = (n1 * 2 ^ 64 + n0) / d /\ r = (n1 * 2 ^ 64 + n0) mod d.
Proof.
  intros Hd Hn1 Hn0. unfold udiv_qrnnd.
  pose proof (ll_high_range n0 Hn0). change (u32 n0) with (ll_low n0).
  change (Z.shiftr n0 32) with (ll_high n0). halves n0 nl nh.
  pose proof (udiv_qrnnd_half_exact n1 nh d Hd Hn1 ltac:(lia)) as H1.
  destruct (udiv_qrnnd_half n1 nh d) as [q1 r1]. destruct H1 as (H1 & Hr1 & Hq1).
  pose proof (udiv_qrnnd_half_exact r1 nl d Hd Hr1 ltac:(lia)) as H2.
  destruct (udiv_qrnnd_half r1 nl d) as [q0 r0]. destruct H2 as (H2 & Hr0 & Hq0).
  rewrite uw_small by (unfold is_u; rewrite Z.shiftl_mul_pow2; lia).
  rewrite lor_shift32 by lia.
  assert (E : n1 * 2 ^ 64 + n0 = d * (q1 * 2 ^ 32 + q0) + r0) by nia.
  split; [apply (Z.div_unique_pos _ _ _ r0) | apply (Z.mod_unique_pos _ _ (q1 * 2 ^ 32 + q0))]; lia.
Qed.

(** [clz64] is the shift that normalises a non-zero word. *)
Lemma clz64_normalises v :
  0 < v < 2 ^ 64 ->
  0 <= clz64 v <= 63 /\ 2 ^ 63 <= v * 2 ^ clz64 v < 2 ^ 64.
Proof.
  intros Hv. unfold clz64, builtin_clz. destruct (Z.eqb_spec v 0); [lia |].
  pose proof (Z.log2_spec v ltac:(lia)) as Hs. pose proof (Z.log2_nonneg v).
  assert (Hl : Z.log2 v < 64) by (apply Z.log2_lt_pow2; lia).
  set (l := Z.log2 v) in *. split; [lia |].
  assert (E : 2 ^ 63 = 2 ^ l * 2 ^ (64 - 1 - l)) by (rewrite <- Z.pow_add_r by lia; f_equal; lia).
  assert (E' : 2 ^ 64 = 2 ^ Z.succ l * 2 ^ (64 - 1 - l))
    by (rewrite <- Z.pow_add_r by lia; f_equal; lia).
  assert (0 < 2 ^ (64 - 1 - l)) by (apply pow2_pos; lia).
  rewrite E, E'. split; [apply Z.mul_le_mono_nonneg_r; lia | apply Z.mul_lt_mono_pos_r; lia].
Qed.

(** Shifting a two-word value left by [sh] moves the top [sh] bits of the low
    word into the high word. *)
Lemma shift_pair hi lo sh :
  is_u 64 lo -> 0 <= hi -> 0 <= sh <= 64 ->
  (Z.lor (Z.shiftl hi sh) (Z.shiftr lo (64 - sh))) * 2 ^ 64 + u64 (Z.shiftl lo sh)
  = (hi * 2 ^ 64 + lo) * 2 ^ sh.
Proof.
  intros Hlo Hhi Hsh.
  rewrite <- add_disjoint.
  2:{ apply Z.bits_inj'; intros i Hi.
      rewrite Z.land_spec, testbit_shiftl, testbit_shiftr, Z.testbit_0_l by lia.
      destruct (Z.lt_ge_cases i sh); [by rewrite Z.testbit_neg_r by lia |].
      by rewrite (testbit_is_u 64 lo), andb_false_r by (done || lia). }
  rewrite !Z.shiftl_mul_pow2, Z.shiftr_div_pow2 by lia.
  assert (E : 2 ^ 64 = 2 ^ (64 - sh) * 2 ^ sh) by (rewrite <- Z.pow_add_r by lia; f_equal; lia).
  assert (0 < 2 ^ (64 - sh)) by (apply pow2_pos; lia).
  assert (0 < 2 ^ sh) by (apply pow2_pos; lia).
  assert (Eu : u64 (lo * 2 ^ sh) = (lo mod 2 ^ (64 - sh)) * 2 ^ sh).
  { unfold uw. rewrite E. by rewrite Zmult_mod_distr_r. }
  rewrite Eu, Z.mul_add_distr_r.
  pose proof (Z.div_mod lo (2 ^ (64 - sh)) ltac:(lia)) as Hd.
  rewrite (Z.mul_comm (lo / _)), E. nia.
Qed.

Lemma div_scaled a b s : 0 < b -> 0 < s -> (a * s) / (b * s) = a / b.
Proof. intros; apply Z.div_mul_cancel_r; lia. Qed.

Lemma mod_scaled a b s : 0 < b -> 0 < s -> ((a * s) mod (b * s)) / s = a mod b.
Proof. intros; rewrite Z.mul_mod_distr_r by lia. apply Z.div_mul; lia. Qed.

(** Double-word long division: the quotient of [h * 2^64 + l] by [d] from the
    quotient and remainder of [h] by [d]. *)
Lemma div_two_words h l d q r :
  0 < d -> 0 <= l < 2 ^ 64 -> q = h / d -> r = h mod d ->
  (h * 2 ^ 64 + l) / d = q * 2 ^ 64 + (r * 2 ^ 64 + l) / d /\
  (h * 2 ^ 64 + l) mod d = (r * 2 ^ 64 + l) mod d.
Proof.
  intros Hd Hl -> ->. pose proof (Z.div_mod h d ltac:(lia)) as E.
  replace (h * 2 ^ 64 + l) with (h mod d * 2 ^ 64 + l + (h / d * 2 ^ 64) * d) by nia.
  rewrite Z.div_add, Z_mod_plus_full by lia. lia.
Qed.

(** The two normalisation blocks of [divu128], with [s = 2^clz64 d]. *)
Lemma normalise_small lo hi d sh s :
  is_u 64 lo -> 0 <= hi < d -> 0 <= sh <= 63 -> s = 2 ^ sh -> d * s < 2 ^ 64 ->
  exists H L,
    (if negb (sh =? 0) then
       (u64 (Z.shiftl d sh), Z.lor (u64 (Z.shiftl hi sh)) (Z.shiftr lo (64 - sh)),
        u64 (Z.shiftl lo sh)) else (d, hi, lo)) = (d * s, H, L) /\
    H * 2 ^ 64 + L = (hi * 2 ^ 64 + lo) * s /\ 0 <= L < 2 ^ 64 /\ 0 <= H < d * s.
Proof.
  intros Hlo Hhi Hsh Es Hn. assert (Hs : 0 < s) by (subst s; apply pow2_pos; lia).
  unfold is_u in Hlo.
  assert (Hb : forall H L, H * 2 ^ 64 + L = (hi * 2 ^ 64 + lo) * s -> 0 <= L < 2 ^ 64 ->
                           0 <= H < d * s).
  { intros H L HL HLr.
    assert (0 <= (hi * 2 ^ 64 + lo) * s) by (apply Z.mul_nonneg_nonneg; lia).
    assert ((hi * 2 ^ 64 + lo) * s < (d * 2 ^ 64) * s) by (apply Z.mul_lt_mono_pos_r; lia).
    assert ((d * 2 ^ 64) * s = (d * s) * 2 ^ 64) by ring. lia. } destruct (Z.eqb_spec sh 0) as [E | E]; simpl.
  - assert (s = 1) by (subst s; rewrite E; lia). subst s.
    exists hi, lo. split_and!; try lia. do 2 f_equal; lia.
  - rewrite (uw_small 64 (Z.shiftl d sh))
      by (unfold is_u; rewrite Z.shiftl_mul_pow2 by lia; rewrite <- Es; nia).
    rewrite (uw_small 64 (Z.shiftl hi sh))
      by (unfold is_u; rewrite Z.shiftl_mul_pow2 by lia; rewrite <- Es; nia).
    pose proof (shift_pair hi lo sh ltac:(done) ltac:(lia) ltac:(lia)) as Hp.
    pose proof (uw_range 64 (Z.shiftl lo sh) ltac:(lia)) as Hu; unfold is_u in Hu.
    rewrite <- Es in Hp. rewrite (Z.shiftl_mul_pow2 d), <- Es by lia.
    eexists _, _; split; [done |]; split_and!; [done | lia | lia | |];
      eapply Hb; eauto.
Qed.

(** The low word of a shifted high word is a multiple of the scale. *)
Lemma shl_low_multiple hi sh s :
  0 <= sh <= 64 -> s = 2 ^ sh ->
  u64 (Z.shiftl hi sh) = Z.shiftl (u64 (Z.shiftl hi sh) / s) sh.
Proof.
  intros Hsh ->. assert (0 < 2 ^ sh) by (apply pow2_pos; lia).
  rewrite !Z.shiftl_mul_pow2 by lia. unfold uw.
  assert (E64 : 2 ^ 64 = 2 ^ (64 - sh) * 2 ^ sh)
    by (rewrite <- Z.pow_add_r by lia; f_equal; lia).
  rewrite E64, Zmult_mod_distr_r, Z.div_mul; lia.
Qed.

Lemma normalise_large lo hi d sh s :
  is_u 64 lo -> is_u 64 hi -> 0 < d <= hi -> 0 <= sh <= 63 -> s = 2 ^ sh ->
  2 ^ 63 <= d * s < 2 ^ 64 ->
  exists qh H L T,
    (if negb (sh =? 0) then
       let divisor := u64 (Z.shiftl d sh) in
       let dhighest := Z.shiftr hi (64 - sh) in
       let dhi := Z.lor (u64 (Z.shiftl hi sh)) (Z.shiftr lo (64 - sh)) in
       let dlo := u64 (Z.shiftl lo sh) in
       let '(q, dhi) := udiv_qrnnd dhighest dhi divisor in (q, dhi, dlo, divisor)
     else (1, u64 (hi - d), lo, d)) = (qh, H, L, d * s) /\
    0 <= L < 2 ^ 64 /\ T * 2 ^ 64 + L = (hi * 2 ^ 64 + lo) * s /\
    qh = T / (d * s) /\ H = T mod (d * s).
Proof.
  intros Hlo Hhi Hd Hsh Es Hn. assert (Hs : 0 < s) by (subst s; apply pow2_pos; lia).
  unfold is_u in *. destruct (Z.eqb_spec sh 0) as [E | E]; simpl.
  - assert (s = 1) by (subst s; rewrite E; lia). subst s.
    rewrite uw_small by (unfold is_u; lia).
    eexists _, _, _, hi; split; [do 2 f_equal; lia |]; split_and!; try lia.
    + apply (Z.div_unique_pos _ _ _ (hi - d)); lia.
    + apply (Z.mod_unique_pos _ _ 1); lia.
  - pose proof (shift_pair 0 hi sh ltac:(done) ltac:(lia) ltac:(lia)) as Hp0.
    rewrite Z.shiftl_0_l, Z.lor_0_l in Hp0.
    pose proof (shl_low_multiple hi sh s ltac:(lia) Es) as Hm.
    pose proof (shift_pair (u64 (Z.shiftl hi sh) / s) lo sh) as Hp. rewrite <- Hm in Hp.
    pose proof (uw_range 64 (Z.shiftl hi sh) ltac:(lia)) as Hu.
    pose proof (uw_range 64 (Z.shiftl lo sh) ltac:(lia)) as Hul. unfold is_u in Hu, Hul.
    specialize (Hp Hlo (Z.div_pos _ _ (proj1 Hu) Hs) ltac:(lia)).
    rewrite (Z.shiftl_mul_pow2 (_ / s)) in Hm by lia. rewrite <- Es in Hm, Hp, Hp0.
    set (H := Z.lor (u64 (Z.shiftl hi sh)) (Z.shiftr lo (64 - sh))) in *.
    assert (HH : is_u 64 H)
      by (apply lor_is_u; [lia | done | apply shiftr_is_u; (done || lia)]).
    rewrite (uw_small 64 (Z.shiftl d sh))
      by (unfold is_u; rewrite Z.shiftl_mul_pow2 by lia; rewrite <- Es; lia).
    rewrite (Z.shiftl_mul_pow2 d), <- Es by lia.
    assert (HT : 0 <= Z.shiftr hi (64 - sh) < d * s).
    { split; [apply Z.shiftr_nonneg; lia |].
      rewrite Z.shiftr_div_pow2 by lia. apply Z.div_lt_upper_bound; [apply pow2_pos; lia |].
      assert (1 < 2 ^ (64 - sh)) by (apply Z.pow_gt_1; lia).
      assert (2 * 2 ^ 63 <= 2 ^ (64 - sh) * (d * s)) by (apply Z.mul_le_mono_nonneg; lia).
      lia. }
    set (T := Z.shiftr hi (64 - sh)) in *.
    pose proof (udiv_qrnnd_exact T H (d * s) ltac:(lia) HT HH) as Hx.
    destruct (udiv_qrnnd T H (d * s)) as [q r]. destruct Hx as [-> ->].
    exists ((T * 2 ^ 64 + H) / (d * s)), ((T * 2 ^ 64 + H) mod (d * s)),
           (u64 (Z.shiftl lo sh)), (T * 2 ^ 64 + H).
    split_and!; (done || lia).
Qed.

(** The portable unsigned 128-by-64 division is exact for every non-zero
    divisor: 128-bit quotient in (high, low), remainder returned. *)
Lemma divu128_exact lo hi d :
  is_u 64 lo -> is_u 64 hi -> 0 < d < 2 ^ 64 ->
  exists ql qh r,
    divu128 lo hi d = Some (ql, qh, r) /\
    qh * 2 ^ 64 + ql = (hi * 2 ^ 64 + lo) / d /\
    r = (hi * 2 ^ 64 + lo) mod d /\ is_u 64 ql /\ is_u 64 qh.
Proof.
  intros Hlo Hhi Hd. unfold divu128. pose proof Hlo as Hlo'; pose proof Hhi as Hhi'.
  unfold is_u in Hlo', Hhi'.
  destruct (Z.eqb_spec d 0); [lia |]. rewrite orb_false_l.
  destruct (Z.eqb_spec hi 0) as [-> | Hhi0].
  { unfold udiv, urem. destruct (Z.eqb_spec d 0); [lia |]. simpl.
    eexists _, _, _; split; [done |]. rewrite Z.mul_0_l, Z.add_0_l.
    pose proof (Z.div_le_upper_bound lo d lo). pose proof (Z.div_pos lo d).
    unfold is_u; split_and!; (done || nia). }
  destruct (clz64_normalises d Hd) as [Hsh Hn].
  remember (2 ^ clz64 d) as s eqn:Es. assert (Hs : 0 < s) by (subst s; apply pow2_pos; lia).
  destruct (Z.ltb_spec hi d) as [Hlt | Hge].
  - destruct (normalise_small lo hi d (clz64 d) s Hlo ltac:(lia) Hsh Es ltac:(lia))
      as (H & L & -> & HHL & HL & HH).
    pose proof (udiv_qrnnd_exact H L (d * s) ltac:(lia) HH HL) as Hx.
    destruct (udiv_qrnnd H L (d * s)) as [q r]. destruct Hx as [-> ->].
    rewrite HHL, div_scaled by lia. eexists _, _, _; split; [done |].
    rewrite Z.shiftr_div_pow2, <- Es, mod_scaled by lia.
    assert (0 <= (hi * 2 ^ 64 + lo) / d < 2 ^ 64)
      by (split; [apply Z.div_pos; lia | apply Z.div_lt_upper_bound; nia]).
    unfold is_u; lia.
  - destruct (normalise_large lo hi d (clz64 d) s Hlo Hhi ltac:(lia) Hsh Es Hn)
      as (qh & H & L & T & Heq & HL & HTL & -> & ->).
    cbv zeta in Heq. rewrite Heq.
    pose proof (Z.mod_pos_bound T (d * s) ltac:(lia)) as HH.
    pose proof (udiv_qrnnd_exact (T mod (d * s)) L (d * s) ltac:(lia) HH HL) as Hx.
    destruct (udiv_qrnnd _ L (d * s)) as [q r]. destruct Hx as [-> ->].
    destruct (div_two_words T L (d * s) _ _ ltac:(lia) HL eq_refl eq_refl) as [Hdiv Hmod].
    rewrite HTL, div_scaled in Hdiv by lia.
    eexists _, _, _; split; [done |].
    rewrite Z.shiftr_div_pow2, <- Es, <- Hmod, HTL, mod_scaled by lia.
    assert (Hq2 : 0 <= (T mod (d * s) * 2 ^ 64 + L) / (d * s) < 2 ^ 64)
      by (split; [apply Z.div_pos; lia | apply Z.div_lt_upper_bound; nia]).
    assert (Hq1 : 0 <= T / (d * s) < 2 ^ 64)
      by (split; [apply Z.div_pos; nia | apply Z.div_lt_upper_bound; nia]).
    unfold is_u; lia.
Qed.

Lemma unot_sub w x : 0 <= w -> is_u w x -> unot w x = 2 ^ w - 1 - x.
Proof.
  intros Hw Hx; unfold unot, uw, is_u, Z.lnot in *.
  rewrite <- (Z_mod_plus_full _ 1), Z.mod_small; lia.
Qed.

Lemma uw_opp_pos w x : 0 < x < 2 ^ w -> uw w (- x) = 2 ^ w - x.
Proof.
  intros Hx; unfold uw. rewrite <- (Z_mod_plus_full _ 1), Z.mod_small; lia.
Qed.

(** Two's complement negation of a 128-bit value held in two words. *)
Lemma neg_pair hi lo :
  is_u 64 hi -> is_u 64 lo ->
  let '(h, l) := if lo =? 0 then (u64 (- hi), lo) else (unot 64 hi, u64 (- lo)) in
  h * 2 ^ 64 + l = uw 128 (- (hi * 2 ^ 64 + lo)) /\ is_u 64 h /\ is_u 64 l.
Proof.
  intros Hhi Hlo. destruct (Z.eqb_spec lo 0) as [-> | Hne].
  - split_and!; [| eauto with words | done]. rewrite !Z.add_0_r.
    unfold uw. change (2 ^ 128) with (2 ^ 64 * 2 ^ 64).
    rewrite <- Z.mul_opp_l. by rewrite Zmult_mod_distr_r.
  - rewrite unot_sub, uw_opp_pos by (unfold is_u in *; (done || lia)).
    unfold is_u in *. rewrite uw_opp_pos by lia. lia.
Qed.

(** A signed high word over an unsigned low word is a signed 128-bit value. *)
Lemma signed_pair x y : is_u 64 y -> s64 x * 2 ^ 64 + y = sw 128 (x * 2 ^ 64 + y).
Proof.
  intros Hy. unfold sw, is_u in *.
  change (2 ^ (64 - 1)) with (2 ^ 63). change (2 ^ (128 - 1)) with (2 ^ 63 * 2 ^ 64).
  change (2 ^ 128) with (2 ^ 64 * 2 ^ 64).
  replace (x * 2 ^ 64 + y + 2 ^ 63 * 2 ^ 64) with (y + (x + 2 ^ 63) * 2 ^ 64) by lia.
  rewrite Z.rem_mul_r by lia. rewrite Z_mod_plus_full, Z.div_add by lia.
  rewrite (Z.mod_small y (2 ^ 64)), (Z.div_small y (2 ^ 64)), Z.add_0_l by lia. lia.
Qed.

(** Sign-magnitude division: C's truncating quotient and remainder from the
    quotient and remainder of the absolute values. *)
Lemma quot_rem_abs n d :
  d <> 0 ->
  Z.quot n d = (if xorb (n <? 0) (d <? 0) then - (Z.abs n / Z.abs d) else Z.abs n / Z.abs d) /\
  Z.rem n d = (if n <? 0 then - (Z.abs n mod Z.abs d) else Z.abs n mod Z.abs d).
Proof.
  intros Hd. rewrite <- Z.quot_div_nonneg, <- Z.rem_mod_nonneg by lia.
  destruct (Z.ltb_spec n 0), (Z.ltb_spec d 0); simpl;
    rewrite ?(Z.abs_neq n), ?(Z.abs_eq n), ?(Z.abs_neq d), ?(Z.abs_eq d) by lia;
    rewrite ?Z.quot_opp_l, ?Z.quot_opp_r, ?Z.rem_opp_l, ?Z.rem_opp_r by lia; lia.
Qed.

(** The magnitude block of [divs128]. *)
Lemma divs128_magnitude lo hi :
  is_u 64 lo -> is_s 64 hi ->
  exists h l,
    (if hi <? 0 then
       if lo =? 0 then (true, true, u64 (- u64 hi), lo)
       else (true, true, unot 64 (u64 hi), u64 (- lo))
     else (false, false, u64 hi, lo))
    = ((hi * 2 ^ 64 + lo <? 0), (hi * 2 ^ 64 + lo <? 0), h, l) /\
    h * 2 ^ 64 + l = Z.abs (hi * 2 ^ 64 + lo) /\ is_u 64 h /\ is_u 64 l.
Proof.
  intros Hlo Hhi. pose proof Hlo as Hlo'. unfold is_u, is_s in Hlo', Hhi.
  destruct (Z.ltb_spec hi 0), (Z.ltb_spec (hi * 2 ^ 64 + lo) 0); try lia.
  - pose proof (neg_pair (u64 hi) lo ltac:(eauto with words) Hlo) as Hn.
    assert (Eh : u64 hi = hi + 2 ^ 64)
      by (unfold uw; rewrite <- (Z_mod_plus_full _ 1), Z.mod_small; lia).
    assert (Ea : uw 128 (- (u64 hi * 2 ^ 64 + lo)) = Z.abs (hi * 2 ^ 64 + lo))
      by (rewrite Eh; unfold uw; rewrite <- (Z_mod_plus_full _ 1), Z.mod_small; lia).
    rewrite <- Ea. destruct (lo =? 0); eexists _, _; (split; [reflexivity | exact Hn]).
  - exists (u64 hi), lo. rewrite uw_small by (unfold is_u; lia).
    split_and!; (done || (unfold is_u; lia)).
Qed.

(** the signed 128 by 64 division never traps on a non-zero divisor and returns the
    truncated quotient and the remainder with the sign of the dividend; only the quotient
    of -2^127 by -1 does not fit, and wraps. *)
Theorem divs128_exact lo hi d :
  is_u 64 lo -> is_s 64 hi -> is_s 64 d -> d <> 0 ->
  exists ql qh r,
    divs128 lo hi d = Some (ql, qh, r) /\
    qh * 2 ^ 64 + ql = sw 128 (Z.quot (hi * 2 ^ 64 + lo) d) /\
    r = Z.rem (hi * 2 ^ 64 + lo) d.
Proof.
  intros Hlo Hhi Hd Hd0. unfold divs128.
  destruct (divs128_magnitude lo hi Hlo Hhi) as (h & l & -> & Habs & Hh & Hl).
  set (n := hi * 2 ^ 64 + lo) in *. cbn beta iota.
  assert (Hb1 : (if d <? 0 then (negb (n <? 0), - d) else (n <? 0, d))
                = (xorb (n <? 0) (d <? 0), Z.abs d)).
  { destruct (Z.ltb_spec d 0); [rewrite Z.abs_neq by lia | rewrite Z.abs_eq by lia];
      by destruct (n <? 0). }
  rewrite Hb1. cbn beta iota. clear Hb1. unfold is_s in Hd.
  rewrite (uw_small 64 (Z.abs d)) by (unfold is_u; lia).
  destruct (divu128_exact l h (Z.abs d) Hl Hh ltac:(lia)) as (ql & qh & r & -> & Hq & Hr & Hql & Hqh).
  rewrite Habs in Hq, Hr. destruct (quot_rem_abs n d Hd0) as [-> ->].
  rewrite <- Hq, <- Hr.
  pose proof (Z.mod_pos_bound (Z.abs n) (Z.abs d) ltac:(lia)) as Hrb. rewrite <- Hr in Hrb.
  pose proof (neg_pair qh ql Hqh Hql) as Hn. simpl.
  destruct (xorb _ _); [destruct (Z.eqb_spec ql 0) as [-> | Hne]; destruct Hn as (Hn & ? & ?) |];
    (eexists _, _, _; split; [reflexivity |]; split;
     [| destruct (n <? 0); apply sw_small; unfold is_s; lia]).
  - rewrite <- (sw_uw 64), signed_pair by (done || lia). by rewrite Hn, sw_uw by lia.
  - rewrite signed_pair by done. by rewrite Hn, sw_uw by lia.
  - by apply signed_pair.
Qed.

Lemma divs128_exact_witness :
  exists ql qh r, divs128 7 (-1) (-5) = Some (ql, qh, r) /\ r = Z.rem (-1 * 2 ^ 64 + 7) (-5).
Proof.
  destruct (divs128_exact 7 (-1) (-5)) as (ql & qh & r & H1 & _ & H3);
    [unfold is_u, is_s; lia.. |]. eauto.
Defined.

(** ** Shifts of a two-word value *)

Lemma land_127 s : Z.land s 127 = s mod 128.
Proof. change 127 with (Z.ones 7). by rewrite Z.land_ones. Qed.

Lemma land_63 s : Z.land s 63 = s mod 64.
Proof. change 63 with (Z.ones 6). by rewrite Z.land_ones. Qed.

Lemma pair_bits hi lo i :
  is_u 64 lo -> 0 <= i ->
  Z.testbit (hi * 2 ^ 64 + lo) i = if i <? 64 then Z.testbit lo i else Z.testbit hi (i - 64).
Proof.
  intros Hlo Hi. assert (Hd : Z.land (Z.shiftl hi 64) lo = 0).
  { apply Z.bits_inj'; intros j Hj. rewrite Z.land_spec, testbit_shiftl, Z.testbit_0_l by lia.
    destruct (Z.lt_ge_cases j 64); [by rewrite Z.testbit_neg_r by lia |].
    by rewrite (testbit_is_u 64 lo), andb_false_r by (done || lia). }
  rewrite <- Z.shiftl_mul_pow2, add_disjoint, Z.lor_spec, testbit_shiftl by (done || lia).
  destruct (Z.ltb_spec i 64).
  - by rewrite Z.testbit_neg_r by lia.
  - by rewrite (testbit_is_u 64 lo), orb_false_r by (done || lia).
Qed.

Lemma urshift_exact lo hi shift :
  is_u 64 lo -> is_u 64 hi ->
  let '(l, h) := urshift lo hi shift in
  h * 2 ^ 64 + l = Z.shiftr (hi * 2 ^ 64 + lo) (shift mod 128) /\ is_u 64 l /\ is_u 64 h.
Proof.
  intros Hlo Hhi. unfold urshift. rewrite land_127.
  pose proof (Z.mod_pos_bound shift 128 ltac:(lia)) as Hs.
  set (s := shift mod 128) in *. rewrite land_63.
  destruct (Z.eqb_spec s 0) as [-> | Hs0]; [by rewrite Z.shiftr_0_r |].
  assert (Hz : forall x j, is_u 64 x -> 64 <= j -> Z.testbit x j = false)
    by (intros; by apply (testbit_is_u 64)).
  destruct (Z.leb_spec 64 s).
  - replace (s mod 64) with (s - 64) by (apply (Z.mod_unique_pos _ _ 1); lia).
    split_and!; [| apply shiftr_is_u; (done || lia) | done].
    rewrite Z.mul_0_l, Z.add_0_l. apply Z.bits_inj'; intros i Hi.
    rewrite !testbit_shiftr, pair_bits by (done || lia).
    destruct (Z.ltb_spec (i + s) 64); [lia |]. f_equal; lia.
  - rewrite Z.mod_small by lia.
    assert (Hl : is_u 64 (Z.lor (Z.shiftr lo s) (u64 (Z.shiftl hi (64 - s)))))
      by (apply lor_is_u; [lia | apply shiftr_is_u; (done || lia) | eauto with words]).
    split_and!; [| done | apply shiftr_is_u; (done || lia)].
    apply Z.bits_inj'; intros i Hi. rewrite pair_bits by done.
    rewrite (testbit_shiftr (_ + _)), pair_bits by (done || lia).
    destruct (Z.ltb_spec i 64), (Z.ltb_spec (i + s) 64); try lia.
    + rewrite Z.lor_spec, testbit_uw, testbit_shiftr, testbit_shiftl by lia.
      by rewrite (Z.testbit_neg_r hi), andb_false_r, orb_false_r by lia.
    + rewrite Z.lor_spec, testbit_uw, testbit_shiftr, testbit_shiftl by lia.
      rewrite (Hz lo) by (done || lia). destruct (Z.ltb_spec i 64); [simpl; f_equal; lia | lia].
    + rewrite testbit_shiftr by lia. f_equal; lia.
Qed.

(** The bits [ulshift] tests with its right shift are those the left shift
    loses. *)
Lemma ulshift_lost lo hi s :
  is_u 64 lo -> is_u 64 hi -> 0 < s < 128 ->
  let '(l, h) := urshift lo hi (128 - s) in
  (Z.lor l h =? 0) = (Z.shiftl (hi * 2 ^ 64 + lo) s <? 2 ^ 128).
Proof.
  intros Hlo Hhi Hs. pose proof (urshift_exact lo hi (128 - s) Hlo Hhi) as Hr.
  destruct (urshift lo hi (128 - s)) as [l h]. destruct Hr as (Hr & Hl & Hh).
  rewrite (Z.mod_small (128 - s)), Z.shiftr_div_pow2 in Hr by lia.
  set (n := hi * 2 ^ 64 + lo) in *. assert (Hn : 0 <= n) by (subst n; unfold is_u in *; lia).
  apply eq_bool_prop_intro. rewrite !Is_true_true, Z.eqb_eq, Z.ltb_lt, Z.lor_eq_0_iff.
  rewrite Z.shiftl_mul_pow2 by lia.
  assert (E : 2 ^ 128 = 2 ^ (128 - s) * 2 ^ s) by (rewrite <- Z.pow_add_r by lia; f_equal; lia).
  assert (0 < 2 ^ s) by (apply pow2_pos; lia).
  assert (0 < 2 ^ (128 - s)) by (apply pow2_pos; lia).
  rewrite E, <- Z.mul_lt_mono_pos_r by lia. unfold is_u in *. split.
  - intros [-> ->]. symmetry in Hr. apply Z.div_small_iff in Hr; lia.
  - intros Hlt. rewrite Z.div_small in Hr by lia. lia.
Qed.

(** The two words [ulshift] stores are those of the shifted value. *)
Lemma ulshift_words lo hi s :
  is_u 64 lo -> is_u 64 hi -> 0 < s < 128 ->
  let '(l, h) :=
    if 64 <=? s then (0, u64 (Z.shiftl lo (Z.land s 63)))
    else (u64 (Z.shiftl lo s),
          Z.lor (Z.shiftr lo (64 - Z.land s 63)) (u64 (Z.shiftl hi (Z.land s 63)))) in
  h * 2 ^ 64 + l = uw 128 (Z.shiftl (hi * 2 ^ 64 + lo) s).
Proof.
  intros Hlo Hhi Hs. rewrite land_63.
  assert (Hp : forall j, Z.testbit (hi * 2 ^ 64 + lo) j =
                         if j <? 64 then Z.testbit lo j else Z.testbit hi (j - 64)).
  { intros j. destruct (Z.lt_ge_cases j 0); [| by apply pair_bits].
    destruct (Z.ltb_spec j 64); by rewrite !Z.testbit_neg_r by lia. }
  destruct (Z.leb_spec 64 s).
  - replace (s mod 64) with (s - 64) by (apply (Z.mod_unique_pos _ _ 1); lia).
    apply Z.bits_inj'; intros i Hi.
    rewrite pair_bits, (testbit_uw 128), (testbit_shiftl (_ + _)), Hp by (done || lia).
    destruct (Z.ltb_spec i 64), (Z.ltb_spec i 128), (Z.ltb_spec (i - s) 64); try lia; simpl.
    + by rewrite Z.testbit_0_l, Z.testbit_neg_r by lia.
    + rewrite testbit_uw, testbit_shiftl by lia.
      destruct (Z.ltb_spec (i - 64) 64); [simpl; f_equal; lia | lia].
    + rewrite testbit_uw by lia. by destruct (Z.ltb_spec (i - 64) 64); [lia |].
    + rewrite testbit_uw by lia. by destruct (Z.ltb_spec (i - 64) 64); [lia |].
  - rewrite Z.mod_small by lia. apply Z.bits_inj'; intros i Hi.
    rewrite pair_bits, (testbit_uw 128), (testbit_shiftl (_ + _)), Hp by (eauto with words || lia).
    destruct (Z.ltb_spec i 64), (Z.ltb_spec i 128), (Z.ltb_spec (i - s) 64); try lia.
    + rewrite testbit_uw, testbit_shiftl by lia. by destruct (Z.ltb_spec i 64); [| lia].
    + rewrite Z.lor_spec, testbit_uw, testbit_shiftl, testbit_shiftr by lia.
      rewrite (Z.testbit_neg_r hi), andb_false_r, orb_false_r by lia. simpl. f_equal; lia.
    + rewrite Z.lor_spec, testbit_uw, testbit_shiftl, testbit_shiftr by lia.
      rewrite (testbit_is_u 64 lo) by (done || lia).
      destruct (Z.ltb_spec (i - 64) 64); [simpl; f_equal; lia | lia].
    + rewrite Z.lor_spec, testbit_uw, testbit_shiftr by lia.
      rewrite (testbit_is_u 64 lo) by (done || lia).
      by destruct (Z.ltb_spec (i - 64) 64); [lia |].
Qed.

(** The 128-bit left shift is exact modulo 2^128 and raises the sticky overflow flag
    exactly when a set bit is lost. *)
Theorem ulshift_exact lo hi shift ov :
  is_u 64 lo -> is_u 64 hi ->
  let n := Z.shiftl (hi * 2 ^ 64 + lo) (shift mod 128) in
  let '(l, h, o) := ulshift lo hi shift ov in
  h * 2 ^ 64 + l = uw 128 n /\ o = ov || negb (n <? 2 ^ 128).
Proof.
  intros Hlo Hhi. unfold ulshift. rewrite land_127.
  pose proof (Z.mod_pos_bound shift 128 ltac:(lia)) as Hs. set (s := shift mod 128) in *.
  destruct (Z.eqb_spec s 0) as [-> | Hs0].
  { rewrite Z.shiftl_0_r. assert (Hn : is_u 128 (hi * 2 ^ 64 + lo)) by (unfold is_u in *; lia).
    split; [by rewrite uw_small |]. unfold is_u in Hn.
    destruct (Z.ltb_spec (hi * 2 ^ 64 + lo) (2 ^ 128)); [by rewrite orb_false_r | lia]. }
  pose proof (ulshift_lost lo hi s Hlo Hhi ltac:(lia)) as Hl.
  pose proof (ulshift_words lo hi s Hlo Hhi ltac:(lia)) as Hw.
  destruct (urshift lo hi (128 - s)) as [l h]. rewrite Hl.
  destruct (64 <=? s); (split; [done |]); by destruct (_ <? _), ov.
Qed.

Lemma ulshift_exact_witness : ulshift 3 (2 ^ 62) 1 false = (6, 2 ^ 63, false).
Proof.
  pose proof (ulshift_exact 3 (2 ^ 62) 1 false ltac:(unfold is_u; lia) ltac:(unfold is_u; lia)) as H.
  vm_compute in H |- *. destruct H. congruence.
Defined.

(** ** Carries, scaling and powers of two *)

Lemma uadd64_overflow_exact x y :
  0 <= x + y < 2 * 2 ^ 64 ->
  let '(r, o) := uadd64_overflow x y in r + 2 ^ 64 * b2z o = x + y /\ is_u 64 r.
Proof.
  intros Hr. unfold uadd64_overflow, u_overflow, is_u, uw.
  pose proof (Z.mod_pos_bound (x + y) (2 ^ 64) ltac:(lia)).
  destruct (Z.eqb_spec ((x + y) mod 2 ^ 64) (x + y)) as [E | E]; simpl; [lia |].
  assert ((x + y) mod 2 ^ 64 = x + y - 2 ^ 64); [| lia].
  symmetry. apply (Z.mod_unique_pos _ _ 1); [| lia].
  destruct (Z.lt_ge_cases (x + y) (2 ^ 64)); [by rewrite Z.mod_small in E by lia | lia].
Qed.

Lemma usub64_overflow_exact x y :
  - 2 ^ 64 <= x - y < 2 ^ 64 ->
  let '(r, o) := usub64_overflow x y in r - 2 ^ 64 * b2z o = x - y /\ is_u 64 r.
Proof.
  intros Hr. unfold usub64_overflow, u_overflow, is_u, uw.
  pose proof (Z.mod_pos_bound (x - y) (2 ^ 64) ltac:(lia)).
  destruct (Z.eqb_spec ((x - y) mod 2 ^ 64) (x - y)) as [E | E]; simpl; [lia |].
  assert ((x - y) mod 2 ^ 64 = x - y + 2 ^ 64); [| lia].
  symmetry. apply (Z.mod_unique_pos _ _ (-1)); [| lia].
  destruct (Z.lt_ge_cases (x - y) 0); [lia | by rewrite Z.mod_small in E by lia].
Qed.

(** The carry chain is exact: the 65-bit sum is the result and the carry. *)
Lemma uadd64_carry_exact x y c :
  is_u 64 x -> is_u 64 y ->
  let '(r, c') := uadd64_carry x y c in
  r + 2 ^ 64 * b2z c' = x + y + b2z c /\ is_u 64 r.
Proof.
  unfold is_u. intros Hx Hy. unfold uadd64_carry.
  assert (Hc : 0 <= b2z c <= 1) by (destruct c; simpl; lia).
  pose proof (uadd64_overflow_exact x (b2z c) ltac:(lia)) as H1.
  destruct (uadd64_overflow x (b2z c)) as [r1 c1]. destruct H1 as [H1 Hr1]. unfold is_u in *.
  pose proof (uadd64_overflow_exact r1 y ltac:(lia)) as H2.
  destruct (uadd64_overflow r1 y) as [r2 c2]. unfold is_u in *.
  destruct c1, c2; simpl in *; lia.
Qed.

Lemma usub64_borrow_exact x y c :
  is_u 64 x -> is_u 64 y ->
  let '(r, c') := usub64_borrow x y c in
  r - 2 ^ 64 * b2z c' = x - y - b2z c /\ is_u 64 r.
Proof.
  unfold is_u. intros Hx Hy. unfold usub64_borrow.
  assert (Hc : 0 <= b2z c <= 1) by (destruct c; simpl; lia).
  pose proof (usub64_overflow_exact x (b2z c) ltac:(lia)) as H1.
  destruct (usub64_overflow x (b2z c)) as [r1 c1]. destruct H1 as [H1 Hr1]. unfold is_u in *.
  pose proof (usub64_overflow_exact r1 y ltac:(lia)) as H2.
  destruct (usub64_overflow r1 y) as [r2 c2]. unfold is_u in *.
  destruct c1, c2; simpl in *; lia.
Qed.

(** The 96-bit multiply-then-divide computes the exact quotient whenever it fits the
    64-bit result, in both rounding modes. *)
Theorem muldiv64_rounding_exact a b c (up : bool) :
  is_u 64 a -> is_u 32 b -> is_u 32 c -> 0 < c ->
  let n := a * b + (if up then c - 1 else 0) in
  n / c < 2 ^ 64 -> muldiv64_rounding a b c up = n / c.
Proof.
  intros Ha Hb Hc Hc0 n Hq. unfold muldiv64_rounding.
  pose proof (ll_low_range a) as Hal. pose proof (ll_high_range a Ha) as Hah.
  pose proof (ll_split a) as Hs. unfold ll_of in Hs.
  set (al := ll_low a) in *. set (ah := ll_high a) in *. clearbody al ah.
  unfold is_u in *. rewrite (uw_small 32 (c - 1)) by (unfold is_u; lia).
  assert (0 <= al * b <= (2 ^ 32 - 1) * (2 ^ 32 - 1)) by (split; [lia |]; apply Z.mul_le_mono_nonneg; lia).
  assert (0 <= ah * b <= (2 ^ 32 - 1) * (2 ^ 32 - 1)) by (split; [lia |]; apply Z.mul_le_mono_nonneg; lia).
  rewrite !(uw_small 64 (al * b)), !(uw_small 64 (ah * b)) by (unfold is_u; lia).
  set (rl := if up then u64 (al * b + (c - 1)) else al * b).
  assert (Hrl : rl = al * b + (if up then c - 1 else 0) /\ 0 <= rl < 2 ^ 64).
  { subst rl. destruct up; [rewrite uw_small by (unfold is_u; lia) |]; lia. }
  destruct Hrl as [Erl Hrl]. clearbody rl. rewrite Z.shiftr_div_pow2 by lia.
  pose proof (Z.div_mod rl (2 ^ 32) ltac:(lia)) as Hd.
  pose proof (Z.mod_pos_bound rl (2 ^ 32) ltac:(lia)) as Hm.
  assert (Hdb : 0 <= rl / 2 ^ 32 < 2 ^ 32) by (split; [apply Z.div_pos | apply Z.div_lt_upper_bound]; lia).
  rewrite (uw_small 64 (ah * b + _)) by (unfold is_u; lia).
  change 0xffffffff with (Z.ones 32). rewrite Z.land_ones by lia.
  set (rh := ah * b + rl / 2 ^ 32). set (l0 := rl mod 2 ^ 32) in *.
  assert (En : n = rh * 2 ^ 32 + l0) by (subst n rh a; lia).
  rewrite Z.shiftl_mul_pow2 by lia.
  pose proof (Z.mod_pos_bound rh c ltac:(lia)) as Hrc. pose proof (Z.div_mod rh c ltac:(lia)) as Hrh.
  rewrite (uw_small 64 (rh mod c * 2 ^ 32)) by (unfold is_u; lia).
  rewrite (uw_small 64 (_ + l0)) by (unfold is_u; lia).
  set (t := rh mod c * 2 ^ 32 + l0). assert (Et : n = (rh / c) * 2 ^ 32 * c + t) by (subst t; lia).
  assert (Eq : n / c = (rh / c) * 2 ^ 32 + t / c) by (rewrite Et, Z.div_add_l; lia).
  assert (Ht : 0 <= t / c < 2 ^ 32).
  { split; [apply Z.div_pos; lia | apply Z.div_lt_upper_bound; [lia |]]. subst t.
    assert (rh mod c * 2 ^ 32 <= (c - 1) * 2 ^ 32) by (apply Z.mul_le_mono_nonneg_r; lia). lia. }
  assert (Hh : 0 <= rh / c) by (apply Z.div_pos; subst rh; lia).
  unfold ll_of. rewrite !uw_small by (unfold is_u; lia). by rewrite Eq.
Qed.

Lemma muldiv64_rounding_exact_witness :
  muldiv64_rounding (2 ^ 63) 1000000 999983 true = (2 ^ 63 * 1000000 + 999982) / 999983.
Proof.
  apply (muldiv64_rounding_exact (2 ^ 63) 1000000 999983 true); unfold is_u; vm_compute; (split; congruence) || congruence.
Defined.
