(* ===== verification/Bitmap.v ===== *)
(** * Bitmaps and half shuffles

    Models util/bitops.c ([find_next_bit], [find_next_zero_bit], [find_last_bit]),
    the single-bit operations, [find_first_bit] and the half shuffles of
    include/qemu/bitops.h, for a host with 32-bit [long] (wasm32).

    A bitmap is the list of its words.  The searches return the position a scan
    of the bits one by one would, whichever of their word and four-word loops
    they go through; the single-bit operations change exactly one bit; the
    shuffles are given bit by bit and undo each other.  Bit numbers are
    non-negative, as in every caller. *)

From S2P Require Import Prelude BitOps HostUtils.

Definition BITS_PER_LONG : Z := 32.

Abbreviation bitmap := (list Z).

Definition word (addr : bitmap) (i : Z) : Z := addr !!! Z.to_nat i.

Definition BIT_MASK (nr : Z) : Z := u32 (Z.shiftl 1 (nr mod BITS_PER_LONG)).
Definition BIT_WORD (nr : Z) : Z := nr / BITS_PER_LONG.

Definition set_word (addr : bitmap) (i v : Z) : bitmap := <[Z.to_nat i := v]> addr.

(** ** Single bits *)

Definition set_bit (nr : Z) (addr : bitmap) : bitmap :=
  set_word addr (BIT_WORD nr) (Z.lor (word addr (BIT_WORD nr)) (BIT_MASK nr)).

Definition clear_bit (nr : Z) (addr : bitmap) : bitmap :=
  set_word addr (BIT_WORD nr) (Z.land (word addr (BIT_WORD nr)) (unot 32 (BIT_MASK nr))).

Definition change_bit (nr : Z) (addr : bitmap) : bitmap :=
  set_word addr (BIT_WORD nr) (Z.lxor (word addr (BIT_WORD nr)) (BIT_MASK nr)).

Definition old_bit (nr : Z) (addr : bitmap) : bool :=
  negb (Z.land (word addr (BIT_WORD nr)) (BIT_MASK nr) =? 0).

Definition test_and_set_bit (nr : Z) (addr : bitmap) : bool * bitmap :=
  (old_bit nr addr, set_bit nr addr).

Definition test_and_clear_bit (nr : Z) (addr : bitmap) : bool * bitmap :=
  (old_bit nr addr, clear_bit nr addr).

Definition test_and_change_bit (nr : Z) (addr : bitmap) : bool * bitmap :=
  (old_bit nr addr, change_bit nr addr).

Definition test_bit (nr : Z) (addr : bitmap) : Z :=
  Z.land 1 (Z.shiftr (word addr (BIT_WORD nr)) (Z.land nr (BITS_PER_LONG - 1))).

(** ** Searches *)

(** The label [found_first]: the last, partial word. *)
Definition found_first (result size tmp : Z) : Z :=
  let tmp := Z.land tmp (Z.shiftr (allones 32) (BITS_PER_LONG - size)) in
  if tmp =? 0 then result + size else result + ctz32 tmp.

(** The loops and the end of [find_next_bit] from word [p]; [result] is the number
    of its first bit and [size] the bits left. *)
Fixpoint next_words (fuel : nat) (addr : bitmap) (p result size : Z) : Z :=
  match fuel with
  | O => result
  | S fuel =>
      if BITS_PER_LONG <=? size then
        let tmp := word addr p in
        if negb (tmp =? 0) then result + ctz32 tmp
        else next_words fuel addr (p + 1) (result + BITS_PER_LONG) (size - BITS_PER_LONG)
      else if size =? 0 then result
      else found_first result size (word addr p)
  end.

Fixpoint next_words4 (fuel : nat) (addr : bitmap) (p result size : Z) : Z :=
  match fuel with
  | O => result
  | S fuel =>
      if 4 * BITS_PER_LONG <=? size then
        let tmp := word addr p in
        let d1 := word addr (p + 1) in
        let d2 := word addr (p + 2) in
        let d3 := word addr (p + 3) in
        if negb (tmp =? 0) then result + ctz32 tmp
        else if negb (Z.lor (Z.lor d1 d2) d3 =? 0) then next_words (S (Z.to_nat size)) addr p result size
        else next_words4 fuel addr (p + 4) (result + 4 * BITS_PER_LONG) (size - 4 * BITS_PER_LONG)
      else next_words (S (Z.to_nat size)) addr p result size
  end.

Definition find_next_bit (addr : bitmap) (size offset : Z) : Z :=
  let p := BIT_WORD offset in
  let result := Z.land offset (unot 32 (BITS_PER_LONG - 1)) in
  if size <=? offset then size
  else
    let size := size - result in
    let offset := offset mod BITS_PER_LONG in
    if negb (offset =? 0) then
      let tmp := Z.land (word addr p) (u32 (Z.shiftl (allones 32) offset)) in
      if size <? BITS_PER_LONG then found_first result size tmp
      else if negb (tmp =? 0) then result + ctz32 tmp
      else next_words4 (S (Z.to_nat size)) addr (p + 1) (result + BITS_PER_LONG) (size - BITS_PER_LONG)
    else next_words4 (S (Z.to_nat size)) addr p result size.

Definition found_first_zero (result size tmp : Z) : Z :=
  let tmp := Z.lor tmp (u32 (Z.shiftl (allones 32) size)) in
  if tmp =? allones 32 then result + size else result + ctz32 (unot 32 tmp).

Fixpoint next_zero_words (fuel : nat) (addr : bitmap) (p result size : Z) : Z :=
  match fuel with
  | O => result
  | S fuel =>
      if negb (Z.land size (unot 32 (BITS_PER_LONG - 1)) =? 0) then
        let tmp := word addr p in
        if negb (unot 32 tmp =? 0) then result + ctz32 (unot 32 tmp)
        else next_zero_words fuel addr (p + 1) (result + BITS_PER_LONG) (size - BITS_PER_LONG)
      else if size =? 0 then result
      else found_first_zero result size (word addr p)
  end.

Definition find_next_zero_bit (addr : bitmap) (size offset : Z) : Z :=
  let p := BIT_WORD offset in
  let result := Z.land offset (unot 32 (BITS_PER_LONG - 1)) in
  if size <=? offset then size
  else
    let size := size - result in
    let offset := offset mod BITS_PER_LONG in
    if negb (offset =? 0) then
      let tmp := Z.lor (word addr p) (Z.shiftr (allones 32) (BITS_PER_LONG - offset)) in
      if size <? BITS_PER_LONG then found_first_zero result size tmp
      else if negb (unot 32 tmp =? 0) then result + ctz32 (unot 32 tmp)
      else next_zero_words (S (Z.to_nat size)) addr (p + 1) (result + BITS_PER_LONG) (size - BITS_PER_LONG)
    else next_zero_words (S (Z.to_nat size)) addr p result size.

Definition find_first_zero_bit (addr : bitmap) (size : Z) : Z := find_next_zero_bit addr size 0.

Fixpoint first_words (fuel : nat) (addr : bitmap) (p size result : Z) : Z :=
  match fuel with
  | O => size
  | S fuel =>
      if result <? size then
        let tmp := word addr p in
        if negb (tmp =? 0) then
          let result := result + ctz32 tmp in if result <? size then result else size
        else first_words fuel addr (p + 1) size (u32 (result + BITS_PER_LONG))
      else size
  end.

Definition find_first_bit (addr : bitmap) (size : Z) : Z := first_words (S (Z.to_nat size)) addr 0 size 0.

(** [while (words) { tmp = addr[--words]; ... }] *)
Fixpoint last_words (words : nat) (addr : bitmap) (size : Z) : Z :=
  match words with
  | O => size
  | S words =>
      let tmp := word addr (Z.of_nat words) in
      if negb (tmp =? 0) then Z.of_nat words * BITS_PER_LONG + BITS_PER_LONG - 1 - clz32 tmp
      else last_words words addr size
  end.

Definition find_last_bit (addr : bitmap) (size : Z) : Z :=
  let words := size / BITS_PER_LONG in
  let partial := Z.land size (BITS_PER_LONG - 1) in
  let tmp := Z.land (word addr words) (Z.shiftr (allones 32) (BITS_PER_LONG - partial)) in
  if negb (partial =? 0) && negb (tmp =? 0) then words * BITS_PER_LONG + BITS_PER_LONG - 1 - clz32 tmp
  else last_words (Z.to_nat words) addr size.

(** ** Half shuffles *)

Definition half_shuffle32 (x : Z) : Z :=
  let x := Z.lor (u32 (Z.shiftl (Z.land x 0xFF00) 8)) (Z.land x 0x00FF) in
  let x := Z.land (Z.lor (u32 (Z.shiftl x 4)) x) 0x0F0F0F0F in
  let x := Z.land (Z.lor (u32 (Z.shiftl x 2)) x) 0x33333333 in
  Z.land (Z.lor (u32 (Z.shiftl x 1)) x) 0x55555555.

Definition half_shuffle64 (x : Z) : Z :=
  let x := Z.lor (u64 (Z.shiftl (Z.land x 0xFFFF0000) 16)) (Z.land x 0xFFFF) in
  let x := Z.land (Z.lor (u64 (Z.shiftl x 8)) x) 0x00FF00FF00FF00FF in
  let x := Z.land (Z.lor (u64 (Z.shiftl x 4)) x) 0x0F0F0F0F0F0F0F0F in
  let x := Z.land (Z.lor (u64 (Z.shiftl x 2)) x) 0x3333333333333333 in
  Z.land (Z.lor (u64 (Z.shiftl x 1)) x) 0x5555555555555555.

Definition half_unshuffle32 (x : Z) : Z :=
  let x := Z.land x 0x55555555 in
  let x := Z.land (Z.lor (Z.shiftr x 1) x) 0x33333333 in
  let x := Z.land (Z.lor (Z.shiftr x 2) x) 0x0F0F0F0F in
  let x := Z.land (Z.lor (Z.shiftr x 4) x) 0x00FF00FF in
  Z.land (Z.lor (Z.shiftr x 8) x) 0x0000FFFF.

Definition half_unshuffle64 (x : Z) : Z :=
  let x := Z.land x 0x5555555555555555 in
  let x := Z.land (Z.lor (Z.shiftr x 1) x) 0x3333333333333333 in
  let x := Z.land (Z.lor (Z.shiftr x 2) x) 0x0F0F0F0F0F0F0F0F in
  let x := Z.land (Z.lor (Z.shiftr x 4) x) 0x00FF00FF00FF00FF in
  let x := Z.land (Z.lor (Z.shiftr x 8) x) 0x0000FFFF0000FFFF in
  Z.land (Z.lor (Z.shiftr x 16) x) 0x00000000FFFFFFFF.

(** ** The bits of a bitmap *)

Definition bit (addr : bitmap) (i : Z) : bool := Z.testbit (word addr (i / 32)) (i mod 32).

Definition wf (addr : bitmap) : Prop := Forall (is_u 32) addr.

(** The bits of [a, b) all have the value [v]. *)
Definition run (v : bool) (addr : bitmap) (a b : Z) : Prop := forall i, a <= i < b -> bit addr i = v.

(** [r] is the first bit of value [v] in [offset, size), or [size] if there is none. *)
Definition first_from (v : bool) (addr : bitmap) (size offset r : Z) : Prop :=
  offset <= r <= size /\ run (negb v) addr offset r /\ (r < size -> bit addr r = v).

Lemma word_is_u addr i : wf addr -> is_u 32 (word addr i).
Proof.
  intros H. unfold word. rewrite list_lookup_total_alt.
  destruct (addr !! Z.to_nat i) eqn:E; simpl; [by eapply Forall_lookup in E | done].
Qed.

Lemma bit_in_word addr p j : 0 <= j < 32 -> bit addr (32 * p + j) = Z.testbit (word addr p) j.
Proof.
  intros. unfold bit. replace ((32 * p + j) / 32) with p by (Z.div_mod_to_equations; lia).
  by replace ((32 * p + j) mod 32) with j by (Z.div_mod_to_equations; lia).
Qed.

Lemma builtin_ctz_spec x : 0 < x ->
  0 <= builtin_ctz x /\ Z.testbit x (builtin_ctz x) = true
  /\ forall j, 0 <= j < builtin_ctz x -> Z.testbit x j = false.
Proof.
  destruct x as [|q|q]; try lia. intros _. simpl.
  induction q as [q IH|q IH|]; simpl; [split_and!; [done|done|lia] | | split_and!; [done|done|lia]].
  destruct IH as (H0 & H1 & H2). split_and!; [lia | |].
  - replace (Z.pos q~0) with (2 * Z.pos q) by lia. rewrite Z.double_bits, Z.add_1_l, Z.pred_succ; done.
  - intros j Hj. replace (Z.pos q~0) with (2 * Z.pos q) by lia. rewrite Z.double_bits.
    destruct (Z.eq_dec j 0) as [->|]; [done|]. apply H2. lia.
Qed.

Lemma ctz32_spec x : is_u 32 x -> x <> 0 ->
  0 <= ctz32 x < 32 /\ Z.testbit x (ctz32 x) = true
  /\ forall j, 0 <= j < ctz32 x -> Z.testbit x j = false.
Proof.
  intros Hx H0. unfold ctz32. rewrite (proj2 (Z.eqb_neq x 0) H0).
  destruct (builtin_ctz_spec x) as (Ha & Hb & Hc); [unfold is_u in Hx; lia|].
  split_and!; auto. destruct (Z.le_gt_cases 32 (builtin_ctz x)); [|lia].
  rewrite (testbit_is_u 32) in Hb; done.
Qed.

(** [tmp] holds, as ones, the bits [lo, hi) of word [p] whose value is [v]. *)
Definition selects (v : bool) (addr : bitmap) (p lo hi tmp : Z) : Prop :=
  is_u 32 tmp /\ forall j, 0 <= j < 32 ->
    Z.testbit tmp j = (lo <=? j) && (j <? hi) && eqb (Z.testbit (word addr p) j) v.

Lemma selects_miss v addr p lo hi :
  0 <= lo -> hi <= 32 -> selects v addr p lo hi 0 -> run (negb v) addr (32 * p + lo) (32 * p + hi).
Proof.
  intros Hlo Hhi [_ H] i Hi. replace i with (32 * p + (i - 32 * p)) by lia.
  rewrite bit_in_word by lia. specialize (H (i - 32 * p) ltac:(lia)).
  rewrite Z.testbit_0_l, (proj2 (Z.leb_le _ _)), (proj2 (Z.ltb_lt _ _)) in H by lia.
  revert H; clear; destruct (Z.testbit _ _), v; simpl; congruence.
Qed.

Lemma selects_hit v addr size p lo hi tmp :
  0 <= lo -> hi <= 32 -> 32 * p + hi <= size -> selects v addr p lo hi tmp -> tmp <> 0 ->
  first_from v addr size (32 * p + lo) (32 * p + ctz32 tmp).
Proof.
  intros Hlo Hhi Hs [Hu H] H0. destruct (ctz32_spec tmp Hu H0) as (Hr & Ht & Hf).
  rewrite (H _ Hr) in Ht. apply andb_true_iff in Ht as [[?%Z.leb_le ?%Z.ltb_lt]%andb_true_iff Hv%eqb_prop].
  split_and!; [lia | lia | | intros _; rewrite bit_in_word by lia; done].
  intros i Hi. replace i with (32 * p + (i - 32 * p)) by lia. rewrite bit_in_word by lia.
  specialize (Hf (i - 32 * p) ltac:(lia)). rewrite H in Hf by lia.
  rewrite (proj2 (Z.leb_le _ _)), (proj2 (Z.ltb_lt _ _)) in Hf by lia.
  revert Hf; clear; destruct (Z.testbit _ _), v; simpl; congruence.
Qed.

Lemma first_from_skip v addr size a b r :
  a <= b -> run (negb v) addr a b -> first_from v addr size b r -> first_from v addr size a r.
Proof.
  intros Hab Hr (H1 & H2 & H3). split_and!; try lia; [|done].
  intros i Hi. destruct (Z.lt_ge_cases i b); [apply Hr; lia | apply H2; lia].
Qed.

Lemma first_from_none v addr size a : a <= size -> run (negb v) addr a size -> first_from v addr size a size.
Proof. intros ? H. split_and!; [lia | lia | done | lia]. Qed.

Lemma selects_word addr p : wf addr -> selects true addr p 0 32 (word addr p).
Proof.
  intros H. split; [by apply word_is_u|]. intros j Hj.
  rewrite (proj2 (Z.leb_le _ _)), (proj2 (Z.ltb_lt _ _)) by lia. by destruct (Z.testbit _ _).
Qed.

Lemma selects_above v addr p lo hi tmp o : 0 <= o < 32 -> lo <= o ->
  selects v addr p lo hi tmp -> selects v addr p o hi (Z.land tmp (u32 (Z.shiftl (allones 32) o))).
Proof.
  intros Ho Hl [Hu H]. split; [by apply land_is_u_l|]. intros j Hj. unfold allones.
  rewrite Z.land_spec, H, testbit_uw, testbit_shiftl by lia.
  rewrite (proj2 (Z.ltb_lt j 32)) by lia.
  destruct (Z.leb_spec o j).
  - rewrite testbit_ones, (proj2 (Z.ltb_lt (j - o) 32)) by lia. rewrite (proj2 (Z.leb_le lo j)) by lia. btauto.
  - rewrite (Z.testbit_neg_r _ (j - o)) by lia. btauto.
Qed.

Lemma selects_below v addr p lo hi tmp k : 0 < k <= 32 -> k <= hi ->
  selects v addr p lo hi tmp -> selects v addr p lo k (Z.land tmp (Z.shiftr (allones 32) (32 - k))).
Proof.
  intros Hk Hl [Hu H]. split; [by apply land_is_u_l|]. intros j Hj. unfold allones.
  rewrite Z.land_spec, H, testbit_shiftr, testbit_ones by lia.
  destruct (Z.ltb_spec (j + (32 - k)) 32), (Z.ltb_spec j k), (Z.ltb_spec j hi); try lia; btauto.
Qed.

Lemma found_first_spec addr size p lo tmp :
  0 <= lo -> 0 < size - 32 * p < 32 -> lo <= size - 32 * p -> selects true addr p lo 32 tmp ->
  first_from true addr size (32 * p + lo) (found_first (32 * p) (size - 32 * p) tmp).
Proof.
  intros Hlo Hs Hl Ht. unfold found_first, BITS_PER_LONG.
  apply (selects_below _ _ _ _ _ _ (size - 32 * p)) in Ht; [|lia..].
  destruct (Z.eqb_spec (Z.land tmp (Z.shiftr (allones 32) (32 - (size - 32 * p)))) 0) as [E|E].
  - rewrite E in Ht. apply selects_miss in Ht; [|lia..].
    replace (32 * p + (size - 32 * p)) with size in * by lia. apply first_from_none; [lia|done].
  - eapply selects_hit; [| | |exact Ht|done]; lia.
Qed.

Lemma next_words_spec addr size fuel : wf addr -> forall p,
  0 <= size - 32 * p < Z.of_nat fuel ->
  first_from true addr size (32 * p) (next_words fuel addr p (32 * p) (size - 32 * p)).
Proof.
  intros Hwf. induction fuel as [|fuel IH]; intros p Hp; [lia|]. cbn [next_words].
  unfold BITS_PER_LONG. pose proof (selects_word addr p Hwf) as Hw.
  destruct (Z.leb_spec 32 (size - 32 * p)).
  - destruct (Z.eqb_spec (word addr p) 0) as [E|E]; cbn [negb].
    + rewrite E in Hw. apply selects_miss in Hw; [|lia..].
      replace (32 * p + 0) with (32 * p) in Hw by lia.
      apply (first_from_skip _ _ _ _ (32 * (p + 1))); [lia | by replace (32 * (p + 1)) with (32 * p + 32) by lia |].
      replace (32 * p + 32) with (32 * (p + 1)) by lia.
      replace (size - 32 * p - 32) with (size - 32 * (p + 1)) by lia. apply IH. lia.
    + replace (32 * p) with (32 * p + 0) at 1 by lia. eapply selects_hit; [| | |exact Hw|done]; lia.
  - destruct (Z.eqb_spec (size - 32 * p) 0).
    + replace size with (32 * p) by lia. split_and!; [lia|lia| |lia]. intros i Hi. lia.
    + replace (32 * p) with (32 * p + 0) at 1 by lia. apply found_first_spec; [lia..|done].
Qed.

Lemma word_run addr p : wf addr -> word addr p = 0 -> run false addr (32 * p) (32 * (p + 1)).
Proof.
  intros Hwf E. pose proof (selects_word addr p Hwf) as Hw. rewrite E in Hw.
  apply selects_miss in Hw; [|lia..]. by replace (32 * (p + 1)) with (32 * p + 32) by lia;
  replace (32 * p + 0) with (32 * p) in Hw by lia.
Qed.

Lemma run_app v addr a b c : run v addr a b -> run v addr b c -> run v addr a c.
Proof. intros H1 H2 i Hi. destruct (Z.lt_ge_cases i b); [apply H1 | apply H2]; lia. Qed.

Lemma next_words4_spec addr size fuel : wf addr -> forall p,
  0 <= size - 32 * p < Z.of_nat fuel ->
  first_from true addr size (32 * p) (next_words4 fuel addr p (32 * p) (size - 32 * p)).
Proof.
  intros Hwf. induction fuel as [|fuel IH]; intros p Hp; [lia|]. cbn [next_words4].
  unfold BITS_PER_LONG. change (4 * 32) with 128.
  destruct (Z.leb_spec 128 (size - 32 * p)); [|apply next_words_spec; [done|lia]].
  destruct (Z.eqb_spec (word addr p) 0) as [E|E]; cbn [negb].
  2: { replace (32 * p) with (32 * p + 0) at 1 by lia.
       eapply selects_hit; [| | |by apply selects_word|done]; lia. }
  destruct (Z.eqb_spec (Z.lor (Z.lor (word addr (p + 1)) (word addr (p + 2))) (word addr (p + 3))) 0) as [D|];
    cbn [negb]; [|apply next_words_spec; [done|lia]].
  apply Z.lor_eq_0_iff in D as [[D1 D2]%Z.lor_eq_0_iff D3].
  apply (first_from_skip _ _ _ _ (32 * (p + 4))); [lia| |].
  - apply (run_app _ _ _ (32 * (p + 1))); [by apply word_run|].
    apply (run_app _ _ _ (32 * (p + 2))); [replace (p + 2) with (p + 1 + 1) by lia; by apply word_run|].
    apply (run_app _ _ _ (32 * (p + 3))); [replace (p + 3) with (p + 2 + 1) by lia; by apply word_run|].
    replace (p + 4) with (p + 3 + 1) by lia. by apply word_run.
  - replace (32 * p + 128) with (32 * (p + 4)) by lia.
    replace (size - 32 * p - 128) with (size - 32 * (p + 4)) by lia. apply IH. lia.
Qed.

Lemma align_down o : is_u 32 o -> Z.land o (unot 32 (BITS_PER_LONG - 1)) = 32 * (o / 32).
Proof.
  intros Ho. replace (32 * (o / 32)) with (Z.shiftl (Z.shiftr o 5) 5)
    by (rewrite Z.shiftl_mul_pow2, Z.shiftr_div_pow2 by lia; change (2 ^ 5) with 32; lia).
  unfold unot, BITS_PER_LONG. change (32 - 1) with (Z.ones 5).
  apply Z.bits_inj'. intros i Hi. bit_rewrite.
  destruct (Z.ltb_spec i 32); [|rewrite (testbit_is_u 32 o) by (done || lia)].
  - destruct (Z.ltb_spec i 5); [rewrite (Z.testbit_neg_r _ (i - 5)) by lia; btauto|].
    rewrite testbit_shiftr by lia. replace (i - 5 + 5) with i by lia. btauto.
  - rewrite testbit_shiftr by lia. replace (i - 5 + 5) with i by lia.
    by rewrite (testbit_is_u 32 o) by (done || lia).
Qed.

Lemma find_next_bit_first addr size offset :
  wf addr -> is_u 32 size -> 0 <= offset <= size ->
  first_from true addr size offset (find_next_bit addr size offset).
Proof.
  intros Hwf Hs Ho. unfold find_next_bit.
  destruct (Z.leb_spec size offset); [replace offset with size by lia; apply first_from_none; [lia|intros i ?; lia]|].
  rewrite align_down by (unfold is_u in *; lia). unfold BIT_WORD, BITS_PER_LONG.
  pose proof (Z.div_mod offset 32 ltac:(lia)) as Hd. pose proof (Z.mod_pos_bound offset 32 ltac:(lia)) as Hm.
  remember (offset / 32) as p eqn:Hp. remember (offset mod 32) as o. clear Heqo Hp.
  assert (0 <= p) by lia. subst offset.
  destruct (Z.eqb_spec o 0) as [->|]; cbn [negb].
  { replace (32 * p + 0) with (32 * p) by lia. apply next_words4_spec; [done|lia]. }
  pose proof (selects_above true addr p 0 32 (word addr p) o Hm ltac:(lia) (selects_word addr p Hwf)) as Ht.
  destruct (Z.ltb_spec (size - 32 * p) 32); [apply found_first_spec; (done || lia)|].
  destruct (Z.eqb_spec (Z.land (word addr p) (u32 (Z.shiftl (allones 32) o))) 0) as [E|E]; cbn [negb].
  - rewrite E in Ht. apply selects_miss in Ht; [|lia..].
    apply (first_from_skip _ _ _ _ (32 * (p + 1))); [lia|by replace (32 * (p + 1)) with (32 * p + 32) by lia|].
    replace (32 * p + 32) with (32 * (p + 1)) by lia.
    replace (size - 32 * p - 32) with (size - 32 * (p + 1)) by lia. apply next_words4_spec; [done|lia].
  - eapply selects_hit; [| | |exact Ht|done]; lia.
Qed.

(** *** Clear bits: the complement of the word selects them *)

Lemma unot_bit x j : 0 <= j < 32 -> Z.testbit (unot 32 x) j = negb (Z.testbit x j).
Proof. intros. unfold unot. rewrite testbit_uw, Z.lnot_spec, (proj2 (Z.ltb_lt j 32)) by lia. done. Qed.

Lemma unot_is_u x : is_u 32 (unot 32 x).
Proof. by apply uw_range. Qed.

Lemma unot_zero x : is_u 32 x -> (x =? allones 32) = (unot 32 x =? 0).
Proof.
  intros H. rewrite unot_sub by (done || lia). unfold allones. change (Z.ones 32) with (2 ^ 32 - 1).
  destruct (Z.eqb_spec x (2 ^ 32 - 1)), (Z.eqb_spec (2 ^ 32 - 1 - x) 0); lia.
Qed.

Lemma selects_clear addr p : selects false addr p 0 32 (unot 32 (word addr p)).
Proof.
  split; [apply unot_is_u|]. intros j Hj. rewrite unot_bit by done.
  rewrite (proj2 (Z.leb_le _ _)), (proj2 (Z.ltb_lt _ _)) by lia. by destruct (Z.testbit _ _).
Qed.

Lemma selects_clear_above addr p o : 0 < o < 32 ->
  selects false addr p o 32 (unot 32 (Z.lor (word addr p) (Z.shiftr (allones 32) (32 - o)))).
Proof.
  intros Ho. split; [apply unot_is_u|]. intros j Hj. rewrite unot_bit by done. unfold allones.
  rewrite Z.lor_spec, testbit_shiftr, testbit_ones by lia.
  rewrite (proj2 (Z.ltb_lt j 32)) by lia.
  destruct (Z.ltb_spec (j + (32 - o)) 32), (Z.leb_spec o j); try lia; by destruct (Z.testbit _ _).
Qed.

Lemma selects_clear_below addr p lo tmp k : 0 <= k < 32 ->
  selects false addr p lo 32 (unot 32 tmp) ->
  selects false addr p lo k (unot 32 (Z.lor tmp (u32 (Z.shiftl (allones 32) k)))).
Proof.
  intros Hk [_ H]. split; [apply unot_is_u|]. intros j Hj. specialize (H j Hj).
  rewrite unot_bit in * by done. unfold allones.
  rewrite Z.lor_spec, testbit_uw, testbit_shiftl, negb_orb, H by lia.
  rewrite (proj2 (Z.ltb_lt j 32)) by lia. destruct (Z.ltb_spec j k).
  - rewrite (Z.testbit_neg_r _ (j - k)) by lia. btauto.
  - rewrite testbit_ones, (proj2 (Z.ltb_lt (j - k) 32)) by lia. btauto.
Qed.

Lemma found_first_zero_spec addr size p lo tmp :
  0 <= lo -> 0 < size - 32 * p < 32 -> lo <= size - 32 * p -> is_u 32 tmp ->
  selects false addr p lo 32 (unot 32 tmp) ->
  first_from false addr size (32 * p + lo) (found_first_zero (32 * p) (size - 32 * p) tmp).
Proof.
  intros Hlo Hs Hl Hu Ht. unfold found_first_zero.
  apply (selects_clear_below _ _ _ _ (size - 32 * p)) in Ht; [|lia].
  rewrite unot_zero by (apply lor_is_u; [lia|done|by apply uw_range]).
  destruct (Z.eqb_spec (unot 32 (Z.lor tmp (u32 (Z.shiftl (allones 32) (size - 32 * p))))) 0) as [E|E].
  - rewrite E in Ht. apply selects_miss in Ht; [|lia..].
    replace (32 * p + (size - 32 * p)) with size in * by lia. apply first_from_none; [lia|done].
  - eapply selects_hit; [| | |exact Ht|done]; lia.
Qed.

Lemma whole_words size : is_u 32 size ->
  negb (Z.land size (unot 32 (BITS_PER_LONG - 1)) =? 0) = (32 <=? size).
Proof.
  intros H. rewrite align_down by done. unfold is_u in H.
  destruct (Z.eqb_spec (32 * (size / 32)) 0), (Z.leb_spec 32 size); try done; Z.div_mod_to_equations; lia.
Qed.

Lemma next_zero_words_spec addr size fuel : wf addr -> is_u 32 size -> forall p, 0 <= p ->
  0 <= size - 32 * p < Z.of_nat fuel ->
  first_from false addr size (32 * p) (next_zero_words fuel addr p (32 * p) (size - 32 * p)).
Proof.
  intros Hwf Hs. induction fuel as [|fuel IH]; intros p Hp0 Hp; [lia|]. cbn [next_zero_words].
  rewrite whole_words by (unfold is_u in *; lia). unfold BITS_PER_LONG.
  pose proof (selects_clear addr p) as Hw. destruct (Z.leb_spec 32 (size - 32 * p)).
  - destruct (Z.eqb_spec (unot 32 (word addr p)) 0) as [E|E]; cbn [negb].
    + rewrite E in Hw. apply selects_miss in Hw; [|lia..].
      replace (32 * p + 0) with (32 * p) in Hw by lia.
      apply (first_from_skip _ _ _ _ (32 * (p + 1))); [lia | by replace (32 * (p + 1)) with (32 * p + 32) by lia |].
      replace (32 * p + 32) with (32 * (p + 1)) by lia.
      replace (size - 32 * p - 32) with (size - 32 * (p + 1)) by lia. apply IH; lia.
    + replace (32 * p) with (32 * p + 0) at 1 by lia. eapply selects_hit; [| | |exact Hw|done]; lia.
  - destruct (Z.eqb_spec (size - 32 * p) 0).
    + replace size with (32 * p) by lia. split_and!; [lia|lia| |lia]. intros i Hi. lia.
    + replace (32 * p) with (32 * p + 0) at 1 by lia.
      apply found_first_zero_spec; [lia..|by apply word_is_u|done].
Qed.

Lemma find_next_zero_bit_first addr size offset :
  wf addr -> is_u 32 size -> 0 <= offset <= size ->
  first_from false addr size offset (find_next_zero_bit addr size offset).
Proof.
  intros Hwf Hs Ho. unfold find_next_zero_bit.
  destruct (Z.leb_spec size offset); [replace offset with size by lia; apply first_from_none; [lia|intros i ?; lia]|].
  rewrite align_down by (unfold is_u in *; lia). unfold BIT_WORD, BITS_PER_LONG.
  pose proof (Z.div_mod offset 32 ltac:(lia)) as Hd. pose proof (Z.mod_pos_bound offset 32 ltac:(lia)) as Hm.
  remember (offset / 32) as p eqn:Hp. remember (offset mod 32) as o. clear Heqo Hp.
  assert (0 <= p) by lia. subst offset.
  destruct (Z.eqb_spec o 0) as [->|]; cbn [negb].
  { replace (32 * p + 0) with (32 * p) by lia. apply next_zero_words_spec; (done || lia). }
  pose proof (selects_clear_above addr p o ltac:(lia)) as Ht.
  destruct (Z.ltb_spec (size - 32 * p) 32).
  { apply found_first_zero_spec; [lia..| |done]. apply lor_is_u; [lia|by apply word_is_u|].
    by apply shiftr_is_u; [lia|lia|]. }
  destruct (Z.eqb_spec (unot 32 (Z.lor (word addr p) (Z.shiftr (allones 32) (32 - o)))) 0) as [E|E]; cbn [negb].
  - rewrite E in Ht. apply selects_miss in Ht; [|lia..].
    apply (first_from_skip _ _ _ _ (32 * (p + 1))); [lia|by replace (32 * (p + 1)) with (32 * p + 32) by lia|].
    replace (32 * p + 32) with (32 * (p + 1)) by lia.
    replace (size - 32 * p - 32) with (size - 32 * (p + 1)) by lia. apply next_zero_words_spec; (done || lia).
  - eapply selects_hit; [| | |exact Ht|done]; lia.
Qed.

Lemma first_words_spec addr size fuel : wf addr -> size <= 2 ^ 32 - 32 -> forall p, 0 <= p -> 0 <= size ->
  size - 32 * p < Z.of_nat fuel -> 32 * p < size + 32 ->
  first_from true addr size (Z.min size (32 * p)) (first_words fuel addr p size (32 * p)).
Proof.
  intros Hwf Hs. induction fuel as [|fuel IH]; intros p Hp0 Hz Hp Hb; cbn [first_words].
  { rewrite Z.min_l by lia. apply first_from_none; [lia|intros i ?; lia]. }
  unfold BITS_PER_LONG. destruct (Z.ltb_spec (32 * p) size).
  2: { rewrite Z.min_l by lia. apply first_from_none; [lia|intros i ?; lia]. }
  rewrite Z.min_r by lia. destruct (Z.eqb_spec (word addr p) 0) as [E|E]; cbn [negb].
  - pose proof (word_run addr p Hwf E) as Hr.
    rewrite uw_small by (unfold is_u; lia). replace (32 * p + 32) with (32 * (p + 1)) by lia.
    apply (first_from_skip _ _ _ _ (Z.min size (32 * (p + 1)))); [lia|intros i ?; apply Hr; lia|].
    apply IH; lia.
  - destruct (selects_hit true addr (32 * p + 32) p 0 32 (word addr p)) as (H1 & H2 & H3);
      [lia..|by apply selects_word|done|].
    replace (32 * p + 0) with (32 * p) in * by lia.
    destruct (Z.ltb_spec (32 * p + ctz32 (word addr p)) size).
    + destruct (ctz32_spec (word addr p) (word_is_u addr p Hwf) E) as (? & _).
      split_and!; [lia|lia|done|intros _; apply H3; lia].
    + apply first_from_none; [lia|intros i ?; apply H2; lia].
Qed.

Lemma find_first_bit_first addr size :
  wf addr -> 0 <= size <= 2 ^ 32 - 32 -> first_from true addr size 0 (find_first_bit addr size).
Proof.
  intros Hwf Hs. unfold find_first_bit.
  replace 0 with (Z.min size (32 * 0)) at 1 by lia. change 0 with (32 * 0) at 3.
  apply first_words_spec; (done || lia).
Qed.

(** *** The last set bit *)

(** [r] is the last set bit below [size], or [size] if there is none. *)
Definition last_below (addr : bitmap) (size r : Z) : Prop :=
  (r = size /\ run false addr 0 size)
  \/ (0 <= r < size /\ bit addr r = true /\ run false addr (r + 1) size).

Lemma clz32_spec x : is_u 32 x -> x <> 0 ->
  0 <= 31 - clz32 x < 32 /\ Z.testbit x (31 - clz32 x) = true
  /\ forall j, 31 - clz32 x < j -> Z.testbit x j = false.
Proof.
  intros Hx H0. unfold clz32, builtin_clz. rewrite (proj2 (Z.eqb_neq x 0) H0).
  replace (31 - (32 - 1 - Z.log2 x)) with (Z.log2 x) by lia. unfold is_u in Hx.
  split_and!; [apply Z.log2_nonneg|apply Z.log2_lt_pow2; lia|by apply Z.bit_log2; lia|].
  intros j Hj. apply Z.bits_above_log2; lia.
Qed.

Lemma selects_last addr size p hi tmp :
  0 <= p -> 0 < hi <= 32 -> 32 * p + hi <= size -> selects true addr p 0 hi tmp -> tmp <> 0 ->
  run false addr (32 * p + hi) size -> last_below addr size (p * 32 + 32 - 1 - clz32 tmp).
Proof.
  intros Hp Hhi Hs [Hu H] H0 Hr. destruct (clz32_spec tmp Hu H0) as (Hc & Ht & Hf).
  right. replace (p * 32 + 32 - 1 - clz32 tmp) with (32 * p + (31 - clz32 tmp)) by lia.
  remember (31 - clz32 tmp) as c. clear Heqc. rewrite H in Ht by lia.
  apply andb_true_iff in Ht as [[?%Z.leb_le ?%Z.ltb_lt]%andb_true_iff Hv%eqb_prop].
  split_and!; [lia|lia|by rewrite bit_in_word by lia|].
  intros i Hi. destruct (Z.lt_ge_cases i (32 * p + hi)); [|apply Hr; lia].
  replace i with (32 * p + (i - 32 * p)) by lia. rewrite bit_in_word by lia.
  specialize (Hf (i - 32 * p) ltac:(lia)). rewrite H in Hf by lia.
  rewrite (proj2 (Z.leb_le _ _)), (proj2 (Z.ltb_lt _ _)) in Hf by lia.
  revert Hf; clear; by destruct (Z.testbit _ _).
Qed.

Lemma last_words_spec addr size words : wf addr -> 32 * Z.of_nat words <= size ->
  run false addr (32 * Z.of_nat words) size -> last_below addr size (last_words words addr size).
Proof.
  intros Hwf. induction words as [|n IH]; intros Hs Hr; cbn [last_words]; [by left|].
  unfold BITS_PER_LONG. destruct (Z.eqb_spec (word addr (Z.of_nat n)) 0) as [E|E]; cbn [negb].
  - apply IH; [lia|]. apply (run_app _ _ _ (32 * (Z.of_nat n + 1))); [by apply word_run|].
    by replace (32 * (Z.of_nat n + 1)) with (32 * Z.of_nat (S n)) by lia.
  - eapply selects_last; [lia| | |by apply selects_word|done|]; [lia..|].
    by replace (32 * Z.of_nat n + 32) with (32 * Z.of_nat (S n)) by lia.
Qed.

Lemma find_last_bit_last addr size :
  wf addr -> is_u 32 size -> last_below addr size (find_last_bit addr size).
Proof.
  intros Hwf Hs. unfold find_last_bit, BITS_PER_LONG. change (32 - 1) with (Z.ones 5).
  rewrite Z.land_ones by lia. change (2 ^ 5) with 32. unfold is_u in Hs.
  pose proof (Z.div_mod size 32 ltac:(lia)) as Hd. pose proof (Z.mod_pos_bound size 32 ltac:(lia)) as Hm.
  remember (size / 32) as p. remember (size mod 32) as k. clear Heqp Heqk.
  destruct (Z.eqb_spec k 0); cbn [negb andb].
  { apply last_words_spec; [done|lia|intros i ?; lia]. }
  pose proof (selects_below true addr p 0 32 (word addr p) k ltac:(lia) ltac:(lia) (selects_word addr p Hwf)) as Ht.
  destruct (Z.eqb_spec (Z.land (word addr p) (Z.shiftr (allones 32) (32 - k))) 0) as [E|E]; cbn [negb].
  - rewrite E in Ht. apply selects_miss in Ht; [|lia..].
    apply last_words_spec; [done|lia|]. intros i Hi. apply Ht. lia.
  - eapply selects_last; [lia| | |exact Ht|done|intros i ?; lia]; lia.
Qed.

(** ** One bit *)

Lemma BIT_MASK_bit nr j : 0 <= j < 32 -> Z.testbit (BIT_MASK nr) j = (j =? nr mod 32).
Proof.
  intros Hj. unfold BIT_MASK, BITS_PER_LONG. pose proof (Z.mod_pos_bound nr 32 ltac:(lia)).
  rewrite testbit_uw, (proj2 (Z.ltb_lt j 32)), Z.shiftl_1_l, Z.pow2_bits_eqb by lia.
  cbn [andb]. apply Z.eqb_sym.
Qed.

Lemma bit_set_word addr nr v i : 0 <= nr -> 0 <= i -> (Z.to_nat (nr / 32) < length addr)%nat ->
  bit (set_word addr (nr / 32) v) i =
    if i / 32 =? nr / 32 then Z.testbit v (i mod 32) else bit addr i.
Proof.
  intros Hn Hi Hl. unfold bit, word, set_word.
  assert (0 <= nr / 32 /\ 0 <= i / 32) by (split; apply Z.div_pos; lia).
  destruct (Z.eqb_spec (i / 32) (nr / 32)) as [->|].
  - by rewrite lookup_total_insert_eq.
  - rewrite lookup_total_insert_ne by lia. done.
Qed.

(** Two bit numbers in one word are equal when they agree inside it. *)
Lemma same_bit i nr : i / 32 = nr / 32 -> (i mod 32 =? nr mod 32) = (i =? nr).
Proof.
  intros H. destruct (Z.eqb_spec (i mod 32) (nr mod 32)), (Z.eqb_spec i nr); try done; subst;
    Z.div_mod_to_equations; lia.
Qed.

Section OneBit.
Context (addr : bitmap) (nr : Z).
Hypothesis Hnr : 0 <= nr.
Hypothesis Hin : (Z.to_nat (nr / 32) < length addr)%nat.

(** A read-modify-write of the word of [nr] that acts bitwise changes bit [nr] alone. *)
Lemma update_bit v (g : bool -> bool) :
  (forall j, 0 <= j < 32 -> Z.testbit v j =
     if j =? nr mod 32 then g (Z.testbit (word addr (nr / 32)) j) else Z.testbit (word addr (nr / 32)) j) ->
  forall i, 0 <= i -> bit (set_word addr (nr / 32) v) i = if i =? nr then g (bit addr i) else bit addr i.
Proof using Hnr Hin.
  intros Hv i Hi. rewrite bit_set_word by done. unfold bit at 2 3.
  pose proof (Z.mod_pos_bound i 32 ltac:(lia)).
  destruct (Z.eqb_spec (i / 32) (nr / 32)) as [E|E].
  - rewrite Hv, same_bit, E by done. done.
  - destruct (Z.eqb_spec i nr); [by subst|done].
Qed.

Lemma set_bit_bit i : 0 <= i -> bit (set_bit nr addr) i = (i =? nr) || bit addr i.
Proof using Hnr Hin.
  intros Hi. unfold set_bit, BIT_WORD, BITS_PER_LONG.
  rewrite (update_bit _ (fun _ => true)) by (done || (intros j Hj; rewrite Z.lor_spec, BIT_MASK_bit by done;
    destruct (_ =? _); btauto)). by destruct (i =? nr).
Qed.

Lemma clear_bit_bit i : 0 <= i -> bit (clear_bit nr addr) i = negb (i =? nr) && bit addr i.
Proof using Hnr Hin.
  intros Hi. unfold clear_bit, BIT_WORD, BITS_PER_LONG.
  rewrite (update_bit _ (fun _ => false)) by (done || (intros j Hj; rewrite Z.land_spec, unot_bit, BIT_MASK_bit by done;
    destruct (_ =? _); cbn [negb]; btauto)). by destruct (i =? nr).
Qed.

Lemma change_bit_bit i : 0 <= i -> bit (change_bit nr addr) i = xorb (i =? nr) (bit addr i).
Proof using Hnr Hin.
  intros Hi. unfold change_bit, BIT_WORD, BITS_PER_LONG.
  rewrite (update_bit _ negb) by (done || (intros j Hj; rewrite Z.lxor_spec, BIT_MASK_bit by done;
    destruct (_ =? _); btauto)). by destruct (i =? nr).
Qed.
End OneBit.

Lemma old_bit_bit nr addr : wf addr -> old_bit nr addr = bit addr nr.
Proof.
  intros Hwf. unfold old_bit, bit, BIT_WORD, BITS_PER_LONG.
  pose proof (Z.mod_pos_bound nr 32 ltac:(lia)). set (x := word addr (nr / 32)).
  assert (Hx : is_u 32 x) by by apply word_is_u.
  destruct (Z.eqb_spec (Z.land x (BIT_MASK nr)) 0) as [E|E]; cbn [negb].
  - apply (f_equal (fun z => Z.testbit z (nr mod 32))) in E.
    rewrite Z.land_spec, BIT_MASK_bit, Z.eqb_refl, andb_true_r, Z.testbit_0_l in E by done. done.
  - destruct (Z.testbit x (nr mod 32)) eqn:T; [done|]. destruct E. apply Z.bits_inj'. intros j Hj.
    rewrite Z.land_spec, Z.testbit_0_l. destruct (Z.lt_ge_cases j 32);
      [|by rewrite (testbit_is_u 32 x) by (done || lia)].
    rewrite BIT_MASK_bit by lia. destruct (Z.eqb_spec j (nr mod 32)) as [->|]; [by rewrite T|btauto].
Qed.

Lemma test_bit_bit nr addr : test_bit nr addr = b2z (bit addr nr).
Proof.
  unfold test_bit, bit, BIT_WORD, BITS_PER_LONG. change (32 - 1) with (Z.ones 5).
  rewrite Z.land_ones by lia. change (2 ^ 5) with 32. pose proof (Z.mod_pos_bound nr 32 ltac:(lia)).
  rewrite Z.land_comm. change 1 with (Z.ones 1) at 1. rewrite Z.land_ones by lia.
  change (2 ^ 1) with 2. rewrite <- Z.bit0_mod, Z.shiftr_spec by lia.
  replace (0 + nr mod 32) with (nr mod 32) by lia. by destruct (Z.testbit _ _).
Qed.

(** ** Shuffles, bit by bit *)

(** [bit_at]: a bit of a word built with constant masks and shifts, at a constant index. *)
Ltac bit_at :=
  repeat (match goal with
  | |- context [Z.testbit (Zpos ?c) ?i] =>
      let b := eval vm_compute in (Z.testbit (Zpos c) i) in change (Z.testbit (Zpos c) i) with b
  | |- context [Z.testbit ?x (?a + ?b)] => let c := eval vm_compute in (a + b) in change (a + b) with c
  | |- context [Z.testbit ?x (?a - ?b)] => let c := eval vm_compute in (a - b) in change (a - b) with c
  | |- context [Z.testbit ?x (Zneg ?p)] => rewrite (Z.testbit_neg_r x (Zneg p) eq_refl)
  | |- context [Z.testbit (Z.land ?a ?b) ?i] => rewrite (Z.land_spec a b i)
  | |- context [Z.testbit (Z.lor ?a ?b) ?i] => rewrite (Z.lor_spec a b i)
  | |- context [Z.testbit (Z.shiftl ?a ?n) ?i] => rewrite (testbit_shiftl a n i (Zle_bool_imp_le 0 i eq_refl))
  | |- context [Z.testbit (Z.shiftr ?a ?n) ?i] => rewrite (testbit_shiftr a n i (Zle_bool_imp_le 0 i eq_refl))
  | |- context [Z.testbit (uw ?w ?a) ?i] =>
      rewrite (testbit_uw w a i (Zle_bool_imp_le 0 w eq_refl));
      let c := eval vm_compute in (i <? w) in change (i <? w) with c
  end; rewrite ?andb_false_r, ?andb_true_r, ?orb_false_r; cbn [andb orb]).

Ltac each_bit i n :=
  match n with
  | O => exfalso; lia
  | S ?m => let k := eval vm_compute in (Z.of_nat m) in
            destruct (Z.eq_dec i k) as [->|]; [| each_bit i m]
  end.

Lemma half_shuffle32_bit x i : 0 <= i < 16 ->
  Z.testbit (half_shuffle32 x) (2 * i) = Z.testbit x i /\ Z.testbit (half_shuffle32 x) (2 * i + 1) = false.
Proof.
  intros Hi. unfold half_shuffle32. let n := eval vm_compute in 16%nat in each_bit i n;
  cbn [Z.mul Z.add Pos.mul Pos.add Pos.succ]; split; bit_at; reflexivity.
Qed.

Lemma half_unshuffle32_bit x i : 0 <= i < 16 ->
  Z.testbit (half_unshuffle32 x) i = Z.testbit x (2 * i).
Proof.
  intros Hi. unfold half_unshuffle32. let n := eval vm_compute in 16%nat in each_bit i n;
  cbn [Z.mul Pos.mul]; bit_at; reflexivity.
Qed.

Lemma half_shuffle64_bit x i : 0 <= i < 32 ->
  Z.testbit (half_shuffle64 x) (2 * i) = Z.testbit x i /\ Z.testbit (half_shuffle64 x) (2 * i + 1) = false.
Proof.
  intros Hi. unfold half_shuffle64. let n := eval vm_compute in 32%nat in each_bit i n;
  cbn [Z.mul Z.add Pos.mul Pos.add Pos.succ]; split; bit_at; reflexivity.
Qed.

Lemma half_unshuffle64_bit x i : 0 <= i < 32 ->
  Z.testbit (half_unshuffle64 x) i = Z.testbit x (2 * i).
Proof.
  intros Hi. unfold half_unshuffle64. let n := eval vm_compute in 32%nat in each_bit i n;
  cbn [Z.mul Pos.mul]; bit_at; reflexivity.
Qed.

Lemma word_of_low_bits h x y :
  0 <= h -> is_u h y -> (forall i, 0 <= i < h -> Z.testbit y i = Z.testbit x i) -> y = uw h x.
Proof.
  intros Hh Hy H. apply Z.bits_inj'. intros i Hi. rewrite testbit_uw by done.
  destruct (Z.ltb_spec i h); [by apply H|]. by rewrite (testbit_is_u h).
Qed.

(** ** Contracts *)

Definition demo_map : bitmap := [0; 0; 0; 0; 0; 0x00010000; 0xFFFFFFFF].

Lemma demo_map_wf : wf demo_map.
Proof. repeat constructor; done. Qed.

(** Every forward search of a bitmap (the word and four-word loops, the partial
    first and last words, the complemented words for clear bits) returns the first
    bit of the wanted value at or after the start, and the size if there is none. *)
Theorem bitmap_search_exact addr size offset :
  wf addr -> 0 <= size <= 2 ^ 32 - 32 -> 0 <= offset <= size ->
  first_from true addr size offset (find_next_bit addr size offset)
  /\ first_from false addr size offset (find_next_zero_bit addr size offset)
  /\ first_from true addr size 0 (find_first_bit addr size)
  /\ first_from false addr size 0 (find_first_zero_bit addr size).
Proof.
  intros Hwf Hs Ho. assert (is_u 32 size) by (unfold is_u; lia).
  split_and!; [by apply find_next_bit_first | by apply find_next_zero_bit_first
              | by apply find_first_bit_first |].
  apply find_next_zero_bit_first; (done || lia).
Qed.

Lemma bitmap_search_exact_witness :
  find_next_bit demo_map 200 3 = 176 /\ first_from true demo_map 200 3 176.
Proof.
  split; [reflexivity|].
  pose proof (bitmap_search_exact demo_map 200 3 demo_map_wf ltac:(lia) ltac:(lia)) as [H _].
  exact H.
Defined.

(** The backward search returns the last set bit below the size, and the size
    if no bit is set. *)
Theorem find_last_bit_exact addr size :
  wf addr -> is_u 32 size -> last_below addr size (find_last_bit addr size).
Proof. apply find_last_bit_last. Qed.

Lemma find_last_bit_exact_witness :
  find_last_bit demo_map 190 = 176 /\ last_below demo_map 190 (find_last_bit demo_map 190).
Proof.
  split; [reflexivity|]. apply (find_last_bit_exact demo_map 190 demo_map_wf). split; lia.
Defined.

(** Setting, clearing and toggling a bit changes that bit alone, and the
    test-and-modify operations return the value it had. *)
Theorem single_bit_exact addr nr i :
  wf addr -> 0 <= nr -> (Z.to_nat (nr / 32) < length addr)%nat -> 0 <= i ->
  bit (set_bit nr addr) i = (i =? nr) || bit addr i
  /\ bit (clear_bit nr addr) i = negb (i =? nr) && bit addr i
  /\ bit (change_bit nr addr) i = xorb (i =? nr) (bit addr i)
  /\ test_and_set_bit nr addr = (bit addr nr, set_bit nr addr)
  /\ test_and_clear_bit nr addr = (bit addr nr, clear_bit nr addr)
  /\ test_and_change_bit nr addr = (bit addr nr, change_bit nr addr)
  /\ test_bit nr addr = b2z (bit addr nr).
Proof.
  intros Hwf Hn Hl Hi. unfold test_and_set_bit, test_and_clear_bit, test_and_change_bit.
  rewrite old_bit_bit by done.
  split_and!; try done; [by apply set_bit_bit | by apply clear_bit_bit | by apply change_bit_bit
                        | apply test_bit_bit].
Qed.

Lemma single_bit_exact_witness :
  bit (set_bit 40 demo_map) 40 = true /\ bit (clear_bit 176 demo_map) 176 = false.
Proof.
  pose proof (single_bit_exact demo_map 40 40 demo_map_wf ltac:(lia) ltac:(vm_compute; lia) ltac:(lia)) as (H1 & _).
  pose proof (single_bit_exact demo_map 176 176 demo_map_wf ltac:(lia) ltac:(vm_compute; lia) ltac:(lia)) as (_ & H2 & _).
  split; [exact H1 | exact H2].
Defined.

(** The half shuffle puts bit [i] at bit [2 * i] and clears the odd bits, and the
    unshuffle gets the low half back. *)
Theorem half_shuffle_roundtrip x :
  half_unshuffle32 (half_shuffle32 x) = u16 x /\ half_unshuffle64 (half_shuffle64 x) = u32 x
  /\ forall i, 0 <= i < 32 ->
     Z.testbit (half_shuffle64 x) (2 * i) = Z.testbit x i /\ Z.testbit (half_shuffle64 x) (2 * i + 1) = false.
Proof.
  split_and!; [| | apply half_shuffle64_bit].
  - apply word_of_low_bits; [lia| |].
    + by apply land_is_u_r.
    + intros i Hi. rewrite half_unshuffle32_bit by done. by apply half_shuffle32_bit.
  - apply word_of_low_bits; [lia| |].
    + by apply land_is_u_r.
    + intros i Hi. rewrite half_unshuffle64_bit by done. by apply half_shuffle64_bit.
Qed.
