(* ===== verification/Memory.v ===== *)
(** * Linear memory

    The interpreter, the dispatcher and the instance cache of tcg/wasm32.c read
    and write 1, 2, 4 and 8 byte little-endian words of the module's linear
    memory through cast pointers.  The memory is a finite map from byte addresses
    to bytes; an access that touches an address outside it is a WebAssembly trap
    ([None]), and a trapping store writes nothing. *)
From S2P Require Import Prelude.

Abbreviation mem := (gmap Z Z).

Fixpoint load (n : nat) (m : mem) (a : Z) : option Z :=
  match n with
  | O => Some 0
  | S n =>
      b ← m !! a;
      r ← load n m (a + 1);
      Some (b + 256 * r)
  end.

Fixpoint store (n : nat) (m : mem) (a v : Z) : option mem :=
  match n with
  | O => Some m
  | S n =>
      _ ← m !! a;
      store n (<[a := v mod 256]> m) (a + 1) (v / 256)
  end.

Abbreviation load8 := (load 1).
Abbreviation load16 := (load 2).
Abbreviation load32 := (load 4).
Abbreviation load64 := (load 8).
Abbreviation store8 := (store 1).
Abbreviation store16 := (store 2).
Abbreviation store32 := (store 4).
Abbreviation store64 := (store 8).

(** Every cell holds a byte. *)
Definition mem_wf (m : mem) : Prop := forall a b, m !! a = Some b -> is_u 8 b.

(** The [n] bytes at [a] are inside the memory. *)
Definition mapped (m : mem) (a : Z) (n : nat) : Prop :=
  forall i, 0 <= i < Z.of_nat n -> is_Some (m !! (a + i)).

(** ** Accesses succeed exactly on mapped ranges *)

Lemma mapped_cons m a n :
  mapped m a (S n) <-> is_Some (m !! a) /\ mapped m (a + 1) n.
Proof.
  unfold mapped. split.
  - intros H. split; [specialize (H 0); rewrite Z.add_0_r in H; apply H; lia |].
    intros i Hi. replace (a + 1 + i) with (a + (i + 1)) by lia. apply H; lia.
  - intros [H0 H] i Hi. destruct (decide (i = 0)) as [-> | Hn]; [by rewrite Z.add_0_r |].
    replace (a + i) with (a + 1 + (i - 1)) by lia. apply H; lia.
Qed.

Lemma mapped_insert m a n p v : mapped m a n -> mapped (<[p := v]> m) a n.
Proof. intros H i Hi. rewrite lookup_insert. case_decide; [done | by apply H]. Qed.

Lemma load_is_Some n m a : is_Some (load n m a) <-> mapped m a n.
Proof.
  revert a; induction n as [| n IH]; intros a; simpl.
  { split; [intros _ i Hi; lia | done]. }
  rewrite mapped_cons, <- IH. destruct (m !! a), (load n m (a + 1)); simpl;
    split; try (intros [] || intros [[] []]); try done; by eexists.
Qed.

Lemma store_is_Some n m a v : is_Some (store n m a v) <-> mapped m a n.
Proof.
  revert m a v; induction n as [| n IH]; intros m a v; simpl.
  { split; [intros _ i Hi; lia | done]. }
  rewrite mapped_cons. destruct (m !! a) eqn:E; simpl.
  - rewrite IH. split.
    + intros H. split; [done |]. intros i Hi. specialize (H i Hi).
      by rewrite lookup_insert_ne in H by lia.
    + intros [_ H]. by apply mapped_insert.
  - split; [by intros [] | by intros [[] _]].
Qed.

(** ** Frame and read-back *)

Lemma store_lookup_ne n m a v m' p :
  store n m a v = Some m' -> (p < a \/ a + Z.of_nat n <= p) -> m' !! p = m !! p.
Proof.
  revert m a v; induction n as [| n IH]; intros m a v; simpl; intros E Hp; [by simplify_eq |].
  destruct (m !! a) eqn:Ea; [| done]. simpl in E.
  rewrite (IH _ _ _ E) by lia. by rewrite lookup_insert_ne by lia.
Qed.

Lemma store_mapped n m a v m' p k :
  store n m a v = Some m' -> mapped m' p k <-> mapped m p k.
Proof.
  intros E. apply forall_proper; intros i. enough (is_Some (m' !! (p + i)) <-> is_Some (m !! (p + i))) by tauto.
  revert m a v E; induction n as [| n IH]; intros m a v; simpl; intros E; [by simplify_eq |].
  destruct (m !! a) eqn:Ea; [| done]. simpl in E. rewrite (IH _ _ _ E).
  rewrite lookup_insert. case_decide; subst; [by rewrite Ea |]. done.
Qed.

Lemma load_ext n m m' a :
  (forall i, 0 <= i < Z.of_nat n -> m !! (a + i) = m' !! (a + i)) -> load n m a = load n m' a.
Proof.
  revert a; induction n as [| n IH]; intros a H; simpl; [done |].
  specialize (H 0) as H0. rewrite Z.add_0_r in H0. rewrite H0 by lia.
  rewrite (IH (a + 1)); [done |]. intros i Hi. replace (a + 1 + i) with (a + (i + 1)) by lia. apply H; lia.
Qed.

(** A store leaves every disjoint word as it was. *)
Lemma load_store_ne n k m a v m' p :
  store n m a v = Some m' ->
  (p + Z.of_nat k <= a \/ a + Z.of_nat n <= p) -> load k m' p = load k m p.
Proof. intros E Hp. apply load_ext. intros i Hi. eapply store_lookup_ne; [done | lia]. Qed.

(** A word read back is the value stored, truncated to its width. *)
Lemma load_store_eq n m a v m' :
  store n m a v = Some m' -> load n m' a = Some (v mod 256 ^ Z.of_nat n).
Proof.
  revert m a v; induction n as [| n IH]; intros m a v; intros E.
  { simpl. by rewrite Z.mod_1_r. }
  cbn [store] in E. destruct (m !! a) eqn:Ea; [| done]. cbn in E. cbn [load].
  rewrite (store_lookup_ne _ _ _ _ _ a E) by lia. rewrite lookup_insert_eq. simpl mbind.
  cbn. rewrite (IH _ _ _ E). cbn. f_equal.
  rewrite Nat2Z.inj_succ, Z.pow_succ_r by lia. rewrite Z.rem_mul_r by lia. lia.
Qed.

Lemma load_store32_eq m a v m' : store32 m a v = Some m' -> load32 m' a = Some (u32 v).
Proof. apply load_store_eq. Qed.

Lemma load_store64_eq m a v m' : store64 m a v = Some m' -> load64 m' a = Some (u64 v).
Proof. apply load_store_eq. Qed.

Lemma load_range n m a v : mem_wf m -> load n m a = Some v -> is_u (8 * Z.of_nat n) v.
Proof.
  intros Hm. revert a v; induction n as [| n IH]; intros a v; cbn [load].
  { intros [= <-]. split; [lia | by vm_compute]. }
  destruct (m !! a) as [b |] eqn:Eb; [| done]. simpl. destruct (load n m (a + 1)) as [r |] eqn:Er; [| done].
  simpl. intros [= <-]. apply Hm in Eb. apply IH in Er. unfold is_u in *.
  replace (8 * Z.of_nat (S n)) with (8 + 8 * Z.of_nat n) by lia.
  rewrite Z.pow_add_r by lia. change (2 ^ 8) with 256 in *. lia.
Qed.

Lemma store_wf n m a v m' : mem_wf m -> store n m a v = Some m' -> mem_wf m'.
Proof.
  revert m a v; induction n as [| n IH]; intros m a v Hm; simpl; [by intros [= <-] |].
  destruct (m !! a) eqn:Ea; [| done]. simpl. apply IH. intros p b.
  rewrite lookup_insert. case_decide; [| apply Hm]. intros [= <-].
  unfold is_u. pose proof (Z.mod_pos_bound v 256 ltac:(lia)). lia.
Qed.

#[export] Hint Resolve store_wf load_range : words.

(** [mapped] on a concrete memory, by evaluation. *)
Lemma mapped_dec_true m a n :
  forallb (fun i => bool_decide (is_Some (m !! (a + i)))) (seqZ 0 (Z.of_nat n)) = true -> mapped m a n.
Proof.
  intros H i Hi. rewrite forallb_forall in H. specialize (H i).
  rewrite bool_decide_eq_true in H. apply H. apply list_elem_of_In, elem_of_seqZ. lia.
Qed.
