(* ===== verification/Atomic128.v ===== *)
(** * The 16-byte compare-and-swap of wasm32

    host/include/generic/host/atomic128-cas.h emulates a 128-bit compare-and-swap with
    one global spinlock, [qemu_wasm128_lock].  The vCPU threads interleave at the
    granularity of WebAssembly: the exchange and the release of the lock word are one
    step each, and the 16-byte load and the 16-byte store of the cell are two 8-byte
    accesses each, in either order.  Plain 8-byte stores of other threads to the same
    cell do not take the lock and may come between any two steps. *)
From S2P Require Import Prelude Memory.

(** ** The object *)

Record Int128 := { int128_getlo : Z; int128_gethi : Z }.

#[export] Instance Int128_eq_dec : EqDecision Int128.
Proof. solve_decision. Defined.

Definition int128_eq (a b : Int128) : bool := bool_decide (a = b).

(** The two 8-byte halves. *)
Inductive half := Lo | Hi.

Definition get_half (h : half) (v : Int128) : Z :=
  match h with Lo => int128_getlo v | Hi => int128_gethi v end.

Definition set_half (h : half) (x : Z) (v : Int128) : Int128 :=
  match h with
  | Lo => {| int128_getlo := x; int128_gethi := int128_gethi v |}
  | Hi => {| int128_getlo := int128_getlo v; int128_gethi := x |}
  end.

Definition other (h : half) : half := match h with Lo => Hi | Hi => Lo end.

(** One call of [atomic16_cmpxchg(ptr, cmp, new)]. *)
Record call := { arg_cmp : Int128; arg_new : Int128 }.

(** Where a thread is inside the call. *)
Inductive pc :=
| Spin                                 (** at [qatomic_xchg(&qemu_wasm128_lock, 1u)] *)
| Fetch                                (** holding the lock, nothing read *)
| Fetch2 (h : half) (x : Z)             (** one half of [old] read *)
| Test (old : Int128)                  (** at the [if] *)
| Put (old : Int128) (** inside the [if], nothing written *)
| Put2 (h : half) (old : Int128)     (** one half of [new] written *)
| Unlock (old : Int128)                (** at [qatomic_store_release] *)
| Return (old : Int128).

Record sys := { qemu_wasm128_lock : Z; cell : Int128; threads : list (option (call * pc)) }.

(** What a schedule does next: a thread starts a call, a thread makes its next step
    (choosing a half where it accesses the cell), a thread outside the emulation stores
    8 bytes. *)
Inductive action :=
| Call (t : nat) (c : call)
| Step (t : nat) (h : half)
| Plain (h : half) (x : Z).

(** A compare-and-swap completes when it releases the lock. *)
Record event := { ev_thread : nat; ev_call : call; ev_old : Int128 }.

(** ** [atomic16_cmpxchg], one step at a time *)

Definition cas_step (c : call) (p : pc) (h : half) (lock : Z) (v : Int128) : option (pc * Z * Int128) :=
  match p with
  | Spin => Some (if lock =? 0 then Fetch else Spin, 1, v)
  | Fetch => Some (Fetch2 h (get_half h v), lock, v)
  | Fetch2 h' x =>
      let old := set_half h' x (set_half (other h') (get_half (other h') v) v) in
      Some (Test old, lock, v)
  | Test old =>
      let p' := if int128_eq old (arg_cmp c) && negb (int128_eq old (arg_new c)) then Put old else Unlock old in
      Some (p', lock, v)
  | Put old => Some (Put2 h old, lock, set_half h (get_half h (arg_new c)) v)
  | Put2 h' old => Some (Unlock old, lock, set_half (other h') (get_half (other h') (arg_new c)) v)
  | Unlock old => Some (Return old, 0, v)
  | Return old => None
  end.

Definition step (a : action) (s : sys) : option (sys * list event) :=
  match a with
  | Call t c =>
      o ← threads s !! t;
      match o with
      | None | Some (_, Return _) =>
          Some ({| qemu_wasm128_lock := qemu_wasm128_lock s; cell := cell s;
                   threads := <[t := Some (c, Spin)]> (threads s) |}, [])
      | _ => None
      end
  | Step t h =>
      o ← threads s !! t;
      '(c, p) ← o;
      '(p', lock, v) ← cas_step c p h (qemu_wasm128_lock s) (cell s);
      Some ({| qemu_wasm128_lock := lock; cell := v; threads := <[t := Some (c, p')]> (threads s) |},
            match p with Unlock old => [{| ev_thread := t; ev_call := c; ev_old := old |}] | _ => [] end)
  | Plain h x =>
      Some ({| qemu_wasm128_lock := qemu_wasm128_lock s; cell := set_half h x (cell s); threads := threads s |}, [])
  end.

Fixpoint run (sched : list action) (s : sys) : option (sys * list event) :=
  match sched with
  | [] => Some (s, [])
  | a :: sched =>
      '(s, es) ← step a s;
      '(s, es') ← run sched s;
      Some (s, es ++ es')
  end.

Definition start (n : nat) (v : Int128) : sys :=
  {| qemu_wasm128_lock := 0; cell := v; threads := replicate n None |}.

(** ** The indivisible operation it stands for *)

Definition cas_spec (c : call) (v : Int128) : Int128 := if int128_eq v (arg_cmp c) then arg_new c else v.

(** The log is a sequential history of compare-and-swaps from [v]. *)
Fixpoint replay (es : list event) (v : Int128) : option Int128 :=
  match es with
  | [] => Some v
  | e :: es => if int128_eq (ev_old e) v then replay es (cas_spec (ev_call e) v) else None
  end.

Definition no_plain (a : action) : bool := match a with Plain _ _ => false | _ => true end.

(** The plain stores of a schedule, applied in order. *)
Definition plain_stores (sched : list action) (v : Int128) : Int128 :=
  foldl (fun v a => match a with Plain h x => set_half h x v | _ => v end) v sched.

(** Every compare-and-swap of the schedule is the read idiom: it asks to replace a value
    by itself. *)
Definition cas_read (a : action) : bool := match a with Call _ c => int128_eq (arg_cmp c) (arg_new c) | _ => true end.

(** ** Mutual exclusion *)

Definition inside (p : pc) : bool := match p with Spin | Return _ => false | _ => true end.

Definition owner_lock (o : option nat) : Z := match o with Some _ => 1 | None => 0 end.

(** [o] is the thread inside the critical section. *)
Definition owns (o : option nat) (s : sys) : Prop :=
  qemu_wasm128_lock s = owner_lock o
  /\ (forall t c p, threads s !! t = Some (Some (c, p)) -> inside p = true -> o = Some t)
  /\ (forall t, o = Some t -> exists c p, threads s !! t = Some (Some (c, p)) /\ inside p = true).

(** The owner after an action. *)
Definition owner_after (o : option nat) (a : action) (s : sys) : option nat :=
  match a with
  | Step t _ =>
      match threads s !! t with
      | Some (Some (_, Spin)) => match o with None => Some t | _ => o end
      | Some (Some (_, Unlock _)) => None
      | _ => o
      end
  | _ => o
  end.

Lemma start_owns n v : owns None (start n v).
Proof.
  split_and!; [done | | done]. intros t c p H. simpl in H. by apply lookup_replicate in H as [? _].
Qed.

(** Replacing the state of one thread. *)
Lemma owns_insert o o' s s' t x : owns o s -> threads s' = <[t := Some x]> (threads s) -> is_Some (threads s !! t) ->
  qemu_wasm128_lock s' = owner_lock o' ->
  (if inside (snd x) then o' = Some t /\ (o = None \/ o = Some t) else if decide (o = Some t) then o' = None else o' = o) ->
  owns o' s'.
Proof.
  intros (_ & H1 & H2) Ht [y Hy] Hl Hc. assert (Hlt : (t < length (threads s))%nat) by (by eapply lookup_lt_Some).
  split_and!; [done | |].
  - intros u c p Hu Hp. rewrite Ht in Hu. destruct (decide (u = t)) as [->|Hne].
    + rewrite list_lookup_insert_eq in Hu by done. injection Hu as ->. simpl in Hc. rewrite Hp in Hc. tauto.
    + rewrite list_lookup_insert_ne in Hu by done. pose proof (H1 _ _ _ Hu Hp) as ->.
      destruct (inside (snd x)); [by destruct Hc as [_ [?|[=]]] |]. case_decide; congruence.
  - intros u ->. rewrite Ht. destruct (inside (snd x)) eqn:Ei.
    + destruct Hc as [[= <-] _]. destruct x as [c p]. exists c, p. by rewrite list_lookup_insert_eq.
    + case_decide; [done|]. subst o. assert (u <> t) by congruence.
      rewrite list_lookup_insert_ne by done. by apply H2.
Qed.

Lemma step_owns a s s' es o : owns o s -> step a s = Some (s', es) -> owns (owner_after o a s) s'.
Proof.
  intros Ho. pose proof Ho as (Hl & H1 & H2). destruct a as [t c|t h|h x]; simpl.
  - destruct (threads s !! t) as [q|] eqn:Et; simpl; [|done].
    intros E. assert (o <> Some t).
    { intros ->. destruct (H2 t eq_refl) as (c' & p & E' & Hp). rewrite Et in E'. injection E' as ->. by destruct p. }
    destruct q as [[c' []]|]; try done; injection E as <- <-; eapply (owns_insert o); eauto; simpl; by case_decide.
  - destruct (threads s !! t) as [[[c p]|]|] eqn:Et; simpl; try done.
    assert (Hp : inside p = true -> o = Some t) by (by eapply H1).
    assert (Hq : inside p = false -> o <> Some t).
    { intros Ei ->. destruct (H2 t eq_refl) as (c' & p' & E' & Hp'). rewrite Et in E'. injection E' as -> ->. congruence. }
    destruct p; simpl in *; try (specialize (Hp eq_refl) as ->); try (specialize (Hq eq_refl));
      try (intros [= <- <-]; eapply owns_insert; eauto; simpl; try done; try (by case_decide); by auto).
    + intros [= <- <-]. eapply owns_insert; eauto; simpl; [by destruct o|]. rewrite Hl. destruct o; simpl; auto. by case_decide.
    + intros [= <- <-]. eapply owns_insert; eauto; simpl. destruct (_ && _); simpl; auto.
  - intros [= <- <-]. done.
Qed.

(** ** The cell *)

(** What the owner knows of the cell, whose value was [v] when it took the lock. *)
Definition owner_sees (c : call) (p : pc) (x v : Int128) : Prop :=
  match p with
  | Fetch => x = v
  | Fetch2 h y => x = v /\ y = get_half h v
  | Test old => x = v /\ old = v
  | Put old => x = v /\ old = v /\ v = arg_cmp c
  | Put2 h old => x = set_half h (get_half h (arg_new c)) v /\ old = v /\ v = arg_cmp c
  | Unlock old => x = cas_spec c v /\ old = v
  | Spin | Return _ => True
  end.

(** The value of the object is [v]. *)
Definition holds_value (o : option nat) (v : Int128) (s : sys) : Prop :=
  match o with
  | None => cell s = v
  | Some t => forall c p, threads s !! t = Some (Some (c, p)) -> owner_sees c p (cell s) v
  end.

Lemma half_both h v w : set_half (other h) (get_half (other h) w) (set_half h (get_half h w) v) = w.
Proof. by destruct h, v, w. Qed.

Lemma half_same h v w : set_half h (get_half h v) (set_half (other h) (get_half (other h) v) w) = v.
Proof. by destruct h, v, w. Qed.

Lemma int128_eq_true a b : int128_eq a b = true <-> a = b.
Proof. apply bool_decide_eq_true. Qed.

Lemma cas_spec_eq c : cas_spec c (arg_cmp c) = arg_new c.
Proof. unfold cas_spec. by rewrite (proj2 (int128_eq_true _ _)). Qed.

(** One step of the owner. *)
Lemma cas_step_sees c p h lock x v p' lock' x' : inside p = true -> owner_sees c p x v ->
  cas_step c p h lock x = Some (p', lock', x') ->
  match p with Unlock old => p' = Return old /\ x' = cas_spec c v /\ old = v | _ => owner_sees c p' x' v end.
Proof.
  intros Hp Hs. destruct p; simpl in *; try done; intros [= <- <- <-]; simpl.
  - by subst.
  - destruct Hs as [-> ->]. by rewrite half_same.
  - destruct Hs as [-> ->]. destruct (int128_eq v (arg_cmp c)) eqn:E1; simpl; [|by unfold cas_spec; rewrite E1].
    destruct (int128_eq v (arg_new c)) eqn:E2; simpl; [|by apply int128_eq_true in E1].
    unfold cas_spec. rewrite E1. by apply int128_eq_true in E2.
  - by destruct Hs as (-> & -> & ->).
  - destruct Hs as (-> & -> & ->). by rewrite half_both, cas_spec_eq.
  - by destruct Hs as [-> ->].
Qed.

Definition value_after (v : Int128) (es : list event) : Int128 :=
  foldl (fun v e => cas_spec (ev_call e) v) v es.

Lemma step_value a s s' es o v : no_plain a = true -> owns o s -> holds_value o v s -> step a s = Some (s', es) ->
  replay es v = Some (value_after v es) /\ holds_value (owner_after o a s) (value_after v es) s'.
Proof.
  intros Hn Ho Hv. pose proof Ho as (Hl & H1 & H2). destruct a as [t c|t h|]; simpl; try done.
  - destruct (threads s !! t) as [q|] eqn:Et; simpl; [|done]. intros E.
    assert (E' : s' = {| qemu_wasm128_lock := qemu_wasm128_lock s; cell := cell s; threads := <[t := Some (c, Spin)]> (threads s) |}
                 /\ es = []) by (by destruct q as [[? []]|]; simplify_eq). destruct E' as [-> ->]. split; [done|]. simpl.
    destruct o as [u|]; simpl in *; [|done]. intros c' p'. destruct (decide (u = t)) as [->|].
    + rewrite list_lookup_insert_eq by (by eapply lookup_lt_Some). by intros [= <- <-].
    + rewrite list_lookup_insert_ne by done. apply Hv.
  - destruct (threads s !! t) as [[[c p]|]|] eqn:Et; simpl; try done.
    destruct (cas_step c p h _ _) as [[[p' lock'] x']|] eqn:Ec; simpl; [|done]. intros [= <- <-].
    destruct (inside p) eqn:Ei.
    + assert (o = Some t) as -> by (by eapply H1). simpl in Hv.
      pose proof (cas_step_sees _ _ _ _ _ _ _ _ _ Ei (Hv _ _ Et) Ec) as Hs.
      destruct p; try done; simpl in *;
        try (split; [done|]; intros c' q; rewrite list_lookup_insert_eq by (by eapply lookup_lt_Some); by intros [= <- <-]).
      destruct Hs as (-> & -> & ->). by rewrite (proj2 (int128_eq_true _ _)).
    + destruct p; try done; simpl in *. injection Ec as <- <- <-. split; [done|]. destruct o as [u|]; simpl in *.
      * intros c' q. destruct (decide (u = t)) as [->|].
        -- rewrite list_lookup_insert_eq by (by eapply lookup_lt_Some). rewrite Hl. by intros [= <- <-].
        -- rewrite list_lookup_insert_ne by done. apply Hv.
      * intros c' q. rewrite list_lookup_insert_eq by (by eapply lookup_lt_Some). rewrite Hl. by intros [= <- <-].
Qed.

Lemma run_value sched s s' es o v : forallb no_plain sched = true -> owns o s -> holds_value o v s -> run sched s = Some (s', es) ->
  exists o', replay es v = Some (value_after v es) /\ owns o' s' /\ holds_value o' (value_after v es) s'.
Proof.
  revert s es o v. induction sched as [|a sched IH]; intros s es o v Hn Ho Hv; simpl.
  { intros [= <- <-]. by exists o. }
  destruct (step a s) as [[s1 es1]|] eqn:Es; simpl; [|done]. destruct (run sched s1) as [[s2 es2]|] eqn:Er; simpl; [|done].
  intros [= <- <-]. simpl in Hn. apply andb_true_iff in Hn as [Ha Hn].
  destruct (step_value _ _ _ _ _ _ Ha Ho Hv Es) as [Hr Hv1]. pose proof (step_owns _ _ _ _ _ Ho Es) as Ho1.
  destruct (IH _ _ _ _ Hn Ho1 Hv1 Er) as (o' & Hr2 & Ho2 & Hv2). exists o'.
  assert (Happ : forall es v w, replay es v = Some w -> replay (es ++ es2) v = replay es2 w).
  { clear. intros es. induction es as [|e es IH]; intros v w; simpl; [by intros [= ->]|]. case_match; [apply IH | done]. }
  rewrite (Happ _ _ _ Hr). unfold value_after in *. rewrite foldl_app. by split_and!.
Qed.

Lemma run_owns sched s s' es o : owns o s -> run sched s = Some (s', es) -> exists o', owns o' s'.
Proof.
  revert s es o. induction sched as [|a sched IH]; intros s es o Ho; simpl; [intros [= <- _]; by exists o|].
  destruct (step a s) as [[s1 es1]|] eqn:Es; simpl; [|done]. destruct (run sched s1) as [[s2 es2]|] eqn:Er; simpl; [|done].
  intros [= <- _]. eapply IH; [by eapply step_owns | done].
Qed.


(** No thread is between its exchange and its release. *)
Definition quiescent (s : sys) : bool :=
  forallb (fun o => match o with Some (_, p) => negb (inside p) | None => true end) (threads s).

Lemma quiescent_free o s : owns o s -> quiescent s = true -> o = None.
Proof.
  intros (_ & _ & H2) Hq. destruct o as [t|]; [|done]. destruct (H2 t eq_refl) as (c & p & Et & Hp).
  unfold quiescent in Hq. rewrite forallb_forall in Hq. specialize (Hq (Some (c, p))).
  assert (Hin : In (Some (c, p)) (threads s)) by (apply list_elem_of_In; by eapply list_elem_of_lookup_2).
  specialize (Hq Hin). simpl in Hq. by rewrite Hp in Hq.
Qed.

(** C20: However the threads interleave their emulated compare-and-swaps, with no plain
    store to the cell among them, the calls are linearizable: the completed calls, in the order of their releases of the lock, are a sequential
    history of indivisible compare-and-swaps that start from the initial value and
    return what each call returned, and when no thread is inside the critical section
    the cell holds the value the history ends with. *)
Theorem cas_linearizable n v sched s es :
  forallb no_plain sched = true -> run sched (start n v) = Some (s, es) ->
  exists w, replay es v = Some w /\ (quiescent s = true -> cell s = w /\ qemu_wasm128_lock s = 0).
Proof.
  intros Hn Hr. destruct (run_value _ _ _ _ None v Hn (start_owns n v) eq_refl Hr) as (o & Hrep & Ho & Hv).
  eexists. split; [done|]. intros Hq. pose proof (quiescent_free _ _ Ho Hq) as ->. by destruct Ho.
Qed.

(** ** Plain stores *)

Definition reads_only (s : sys) : Prop :=
  forall t c p, threads s !! t = Some (Some (c, p)) ->
    arg_cmp c = arg_new c /\ match p with Put _ | Put2 _ _ => False | _ => True end.

Lemma step_reads a s s' es : cas_read a = true -> reads_only s -> step a s = Some (s', es) ->
  reads_only s' /\ cell s' = plain_stores [a] (cell s).
Proof.
  intros Ha Hr. assert (Hins : forall t x, arg_cmp (fst x) = arg_new (fst x) -> match snd x with Put _ | Put2 _ _ => False | _ => True end ->
    forall l v, reads_only {| qemu_wasm128_lock := l; cell := v; threads := <[t := Some x]> (threads s) |}).
  { intros t x H1 H2 l v u c p. simpl. destruct (decide (u = t)) as [->|].
    - intros E. pose proof (lookup_lt_Some _ _ _ E) as Hlt. rewrite length_insert in Hlt.
      rewrite list_lookup_insert_eq in E by done. injection E as ->. by split.
    - rewrite list_lookup_insert_ne by done. apply Hr. }
  destruct a as [t c|t h|h x]; simpl in *.
  - apply int128_eq_true in Ha. destruct (threads s !! t) as [q|]; simpl; [|done].
    intros E. destruct q as [[? []]|]; simplify_eq; (split; [by apply Hins | done]).
  - destruct (threads s !! t) as [[[c p]|]|] eqn:Et; simpl; try done. destruct (Hr _ _ _ Et) as [Hc Hp].
    destruct p; simpl; try done; intros [= <- <-]; (split; [apply Hins; simpl; try done | done]).
    + by destruct (_ =? _).
    + rewrite Hc. by destruct (int128_eq old (arg_new c)).
  - by intros [= <- <-].
Qed.

Lemma run_reads sched s s' es : forallb cas_read sched = true -> reads_only s -> run sched s = Some (s', es) ->
  cell s' = plain_stores sched (cell s).
Proof.
  revert s es. induction sched as [|a sched IH]; intros s es Hn Hr; simpl; [by intros [= <- _]|].
  destruct (step a s) as [[s1 es1]|] eqn:Es; simpl; [|done]. destruct (run sched s1) as [[s2 es2]|] eqn:Er; simpl; [|done].
  intros [= <- _]. simpl in Hn. apply andb_true_iff in Hn as [Ha Hn].
  destruct (step_reads _ _ _ _ Ha Hr Es) as [Hr1 Hc]. rewrite (IH _ _ Hn Hr1 Er), Hc. by destruct a.
Qed.

(** C33: A compare-and-swap used as a 16-byte read (it would replace a value by itself)
    never writes: in any interleaving of such reads with each other and with plain
    8-byte stores that do not take the lock, no store is lost, and the cell is at every
    point what the plain stores alone leave there. *)
Theorem cas_reads_pure n v sched s es :
  forallb cas_read sched = true -> run sched (start n v) = Some (s, es) -> cell s = plain_stores sched v.
Proof.
  intros Hn Hr. apply (run_reads _ _ _ _ Hn) in Hr; [done|].
  intros t c p H. simpl in H. by apply lookup_replicate in H as [? _].
Qed.

(** ** Progress *)

(** The steps a thread inside the critical section has left. *)
Definition steps_left (p : pc) : nat :=
  match p with Fetch => 6 | Fetch2 _ _ => 5 | Test _ => 4 | Put _ => 3 | Put2 _ _ => 2 | Unlock _ => 1 | _ => 0 end.

Lemma owner_leaves h t c k : forall p s, threads s !! t = Some (Some (c, p)) -> inside p = true -> (steps_left p <= k)%nat ->
  exists n s' e, (n <= k)%nat /\ run (replicate n (Step t h)) s = Some (s', [e]) /\ qemu_wasm128_lock s' = 0 /\ ev_thread e = t.
Proof.
  induction k as [|k IH]; intros p s Et Hp Hk; [by destruct p; simpl in *; try lia|].
  assert (Hstep : forall p' s', step (Step t h) s = Some (s', []) -> threads s' !! t = Some (Some (c, p')) ->
    inside p' = true -> (steps_left p' <= k)%nat -> exists n s' e, (n <= S k)%nat /\ run (replicate n (Step t h)) s = Some (s', [e])
      /\ qemu_wasm128_lock s' = 0 /\ ev_thread e = t).
  { intros p' s' E Et' Hi Hl. destruct (IH p' s' Et' Hi Hl) as (n & s2 & e & Hn & Hr & Hlk & He).
    exists (S n), s2, e. split_and!; [lia | | done | done]. cbn [replicate run]. rewrite E. cbn [mbind option_bind]. by rewrite Hr. }
  assert (Hlt : (t < length (threads s))%nat) by (by eapply lookup_lt_Some).
  destruct p; simpl in Hp, Hk; try done;
    try (eapply Hstep; [simpl; rewrite Et; reflexivity | simpl; by apply list_lookup_insert_eq | try done | simpl; lia]).
  - eapply Hstep; [simpl; rewrite Et; reflexivity | simpl; by apply list_lookup_insert_eq | | ]; destruct (_ && _); simpl; try done; lia.
  - exists 1%nat. eexists _, _. split_and!; [lia | simpl; rewrite Et; reflexivity | done | done].
Qed.

(** C34: The lock is always given back: in every state any interleaving reaches, plain
    stores included, either the lock is free, or one thread
    holds it and at most six of its own steps complete its call and free the lock. *)
Theorem lock_released n v sched s es h :
  run sched (start n v) = Some (s, es) ->
  qemu_wasm128_lock s = 0
  \/ exists t k s' e, (k <= 6)%nat /\ run (replicate k (Step t h)) s = Some (s', [e]) /\ qemu_wasm128_lock s' = 0 /\ ev_thread e = t.
Proof.
  intros Hr. destruct (run_owns _ _ _ _ _ (start_owns n v) Hr) as (o & Hl & _ & H2).
  destruct o as [t|]; [right | by left]. destruct (H2 t eq_refl) as (c & p & Et & Hp).
  destruct (owner_leaves h t c 6 p s Et Hp) as (k & s' & e & ?); [destruct p; simpl; lia|]. by exists t, k, s', e.
Qed.

(** ** A plain store inside the critical section *)




(** ** Two threads *)

Module CasDemo.

Definition i128 (lo hi : Z) : Int128 := {| int128_getlo := lo; int128_gethi := hi |}.

(** Thread 0 swaps (1,2) for (3,4) while thread 1 tries to swap (1,2) for (5,6). *)
Definition race : list action :=
  [Call 0 {| arg_cmp := i128 1 2; arg_new := i128 3 4 |}; Call 1 {| arg_cmp := i128 1 2; arg_new := i128 5 6 |};
   Step 0 Lo; Step 1 Lo; Step 0 Hi; Step 0 Lo; Step 0 Lo; Step 1 Lo; Step 0 Hi; Step 0 Lo; Step 0 Lo;
   Step 1 Lo; Step 1 Lo; Step 1 Lo; Step 1 Lo; Step 1 Lo].

(** Thread 0 reads the cell by a compare-and-swap of 0 with 0 while another thread
    stores to both halves. *)
Definition reading : list action :=
  [Call 0 {| arg_cmp := i128 0 0; arg_new := i128 0 0 |}; Step 0 Lo; Step 0 Lo; Step 0 Lo; Plain Hi 7; Step 0 Lo; Plain Lo 8; Step 0 Lo].


End CasDemo.

Import CasDemo.

Definition final (sched : list action) (v : Int128) : sys * list event := default (start 2 v, []) (run sched (start 2 v)).

Lemma cas_linearizable_witness :
  exists w, replay (snd (final race (i128 1 2))) (i128 1 2) = Some w
    /\ (quiescent (fst (final race (i128 1 2))) = true -> cell (fst (final race (i128 1 2))) = w /\ qemu_wasm128_lock (fst (final race (i128 1 2))) = 0).
Proof. apply (cas_linearizable 2 (i128 1 2) race); vm_compute; reflexivity. Defined.

Lemma cas_reads_pure_witness : cell (fst (final reading (i128 0 0))) = plain_stores reading (i128 0 0).
Proof. apply (cas_reads_pure 2 (i128 0 0) reading _ (snd (final reading (i128 0 0)))); vm_compute; reflexivity. Defined.

Lemma lock_released_witness :
  qemu_wasm128_lock (fst (final reading (i128 0 0))) = 0
  \/ exists t k s' e, (k <= 6)%nat /\ run (replicate k (Step t Lo)) (fst (final reading (i128 0 0))) = Some (s', [e])
       /\ qemu_wasm128_lock s' = 0 /\ ev_thread e = t.
Proof. apply (lock_released 2 (i128 0 0) reading _ (snd (final reading (i128 0 0)))). vm_compute; reflexivity. Defined.

