(* ===== verification/HostAtomic.v ===== *)
(** * Host loads and stores of guest RAM

    accel/tcg/ldst_atomicity.c.inc performs a guest access inside one page of RAM with
    the atomicity its [MemOp] asks for, out of the aligned atomic accesses the host has:
    reading and shifting aligned words that cover the access, or inserting it into them
    by compare-and-swap.  The host is wasm32: little-endian, 4-byte pointers
    ([HAVE_al8_fast] is 0), no 16-byte atomic load ([HAVE_ATOMIC128_RO] is 0), the
    emulated 16-byte compare-and-swap of atomic128-cas.h ([HAVE_ATOMIC128_RW] and
    [HAVE_CMPXCHG128] are 1).  Whether the toolchain has 8-byte atomics ([HAVE_al8]) is a
    variable.  An atomic access to a misaligned address traps, as in WebAssembly. *)
From S2P Require Import Prelude BitOps HostUtils Memory.

(** ** Outcomes *)

(** [Exit] is [cpu_loop_exit_atomic]: the instruction is run again with the other vCPUs
    stopped.  [Assert] is [g_assert_not_reached]. *)
Inductive res (A : Type) := Ok (a : A) | Exit | Assert | Trap.
Arguments Ok {A} a.
Arguments Exit {A}.
Arguments Assert {A}.
Arguments Trap {A}.

#[export] Instance res_bind : MBind res := fun A B f r =>
  match r with Ok a => f a | Exit => Exit | Assert => Assert | Trap => Trap end.

(** A plain access. *)
Definition acc {A} (o : option A) : res A := match o with Some a => Ok a | None => Trap end.

(** ** The memory operation *)

Definition MO_8 : Z := 0.
Definition MO_16 : Z := 1.
Definition MO_32 : Z := 2.
Definition MO_64 : Z := 3.
Definition MO_128 : Z := 4.
Definition MO_SIZE : Z := 0x07.
Definition MO_ATOM_IFALIGN : Z := 0x000.
Definition MO_ATOM_IFALIGN_PAIR : Z := 0x100.
Definition MO_ATOM_WITHIN16 : Z := 0x200.
Definition MO_ATOM_WITHIN16_PAIR : Z := 0x300.
Definition MO_ATOM_SUBALIGN : Z := 0x400.
Definition MO_ATOM_NONE : Z := 0x500.
Definition MO_ATOM_MASK : Z := 0x700.

(** [required_atomicity]; [serial] is [cpu_in_serial_context(cpu)]. *)
Definition required_atomicity (serial : bool) (p memop : Z) : res Z :=
  let atom := Z.land memop MO_ATOM_MASK in
  let size := Z.land memop MO_SIZE in
  let half := if size =? 0 then 0 else size - 1 in
  let ifalign size := if Z.land p (Z.shiftl 1 size - 1) =? 0 then size else MO_8 in
  let tmp := Z.land p 15 in
  atmax ←
    (if atom =? MO_ATOM_NONE then Ok MO_8
     else if atom =? MO_ATOM_IFALIGN_PAIR then Ok (ifalign half)
     else if atom =? MO_ATOM_IFALIGN then Ok (ifalign size)
     else if atom =? MO_ATOM_WITHIN16 then Ok (if tmp + Z.shiftl 1 size <=? 16 then size else MO_8)
     else if atom =? MO_ATOM_WITHIN16_PAIR then
       Ok (if tmp + Z.shiftl 1 size <=? 16 then size
           else if tmp + Z.shiftl 1 half =? 16 then half else - half)
     else if atom =? MO_ATOM_SUBALIGN then Ok (Z.min size (ctz32 p))
     else Assert);
  Ok (if serial then MO_8 else atmax).

(** ** Atomic accesses *)

(** [load_atomic2], [load_atomic4] and [load_atomic8]: [qatomic_read] of an aligned word. *)
Definition load_atomic (n : nat) (m : mem) (pv : Z) : res Z :=
  if pv mod Z.of_nat n =? 0 then acc (load n m pv) else Trap.

(** [store_atomic2], [store_atomic4] and [store_atomic8]. *)
Definition store_atomic (n : nat) (m : mem) (pv val : Z) : res mem :=
  if pv mod Z.of_nat n =? 0 then acc (store n m pv val) else Trap.

(** [atomic16_cmpxchg] as the thread that holds the lock executes it; [Int128] values
    are 128-bit words. *)
Definition atomic16_cmpxchg (m : mem) (ptr cmp new : Z) : res (mem * Z) :=
  if ptr mod 16 =? 0 then
    old ← acc (load 16 m ptr);
    m ← (if (old =? cmp) && negb (old =? new) then acc (store 16 m ptr new) else Ok m);
    Ok (m, old)
  else Trap.

(** [atomic16_read_rw]: the compare-and-swap of 0 with 0. *)
Definition atomic16_read_rw (m : mem) (ptr : Z) : res (mem * Z) := atomic16_cmpxchg m ptr 0 0.

(** [atomic16_set]: the loop ends when the compare-and-swap found what was read. *)
Fixpoint atomic16_set (fuel : nat) (m : mem) (ptr val : Z) : res mem :=
  match fuel with
  | O => Assert
  | S fuel =>
      cur ← acc (load 16 m ptr);
      '(m, old) ← atomic16_cmpxchg m ptr cur val;
      if old =? cur then Ok m else atomic16_set fuel m ptr val
  end.

(** [store_atom_insert_al4] and [store_atom_insert_al8]: the word is read and the merged
    word put back by compare-and-swap, which fails only when another thread wrote. *)
Definition store_atom_insert (n : nat) (m : mem) (p val msk : Z) : res mem :=
  old ← load_atomic n m p;
  store_atomic n m p (Z.lor (Z.land old (unot (8 * Z.of_nat n) msk)) val).

(** [store_atom_insert_al16]; [old] is what the next iteration starts from. *)
Fixpoint insert16_loop (fuel : nat) (m : mem) (ps old val msk : Z) : res mem :=
  match fuel with
  | O => Assert
  | S fuel =>
      let cmp := old in
      let new := Z.lor (Z.land old msk) val in
      '(m, old) ← atomic16_cmpxchg m ps cmp new;
      if cmp =? old then Ok m else insert16_loop fuel m ps old val msk
  end.

Definition store_atom_insert_al16 (m : mem) (ps val msk : Z) : res mem :=
  old ← acc (load 16 m ps);
  insert16_loop 2 m ps old val (unot 128 msk).

(** [MAKE_64BIT_MASK(0, sz)], for a non-zero [sz]. *)
Definition MAKE_64BIT_MASK (shift length : Z) : Z :=
  u64 (Z.shiftl (Z.shiftr (u64 (Z.lnot 0)) (64 - length)) shift).

Section Host.
Context (HAVE_al8 : bool) (serial : bool).

(** ** Loads *)

Definition load_atomic8_or_exit (m : mem) (pv : Z) : res Z :=
  if HAVE_al8 then load_atomic 8 m pv else Exit.

(** The memory the compare-and-swap leaves is the one it read ([read_rw_pure]). *)
Definition load_atomic16_or_exit (m : mem) (pv : Z) : res Z :=
  '(_, r) ← atomic16_read_rw m pv;
  Ok r.

Definition load_atom_extract_al4x2 (m : mem) (pi : Z) : res Z :=
  let sh := Z.land pi 3 * 8 in
  let pv := Z.land pi (Z.lnot 3) in
  a ← load_atomic 4 m pv;
  b ← load_atomic 4 m (pv + 4);
  Ok (Z.lor (Z.shiftr a sh) (u32 (Z.shiftl b (Z.land (- sh) 31)))).

Definition load_atom_extract_al8x2 (m : mem) (pi : Z) : res Z :=
  let sh := Z.land pi 7 * 8 in
  let pv := Z.land pi (Z.lnot 7) in
  a ← load_atomic 8 m pv;
  b ← load_atomic 8 m (pv + 8);
  Ok (Z.lor (Z.shiftr a sh) (u64 (Z.shiftl b (Z.land (- sh) 63)))).

(** Returns a [uint32_t]. *)
Definition load_atom_extract_al8_or_exit (m : mem) (pi : Z) : res Z :=
  let o := Z.land pi 7 in
  x ← load_atomic8_or_exit m (Z.land pi (Z.lnot 7));
  Ok (u32 (Z.shiftr x (o * 8))).

Definition load_atom_extract_al16_or_exit (m : mem) (pi : Z) : res Z :=
  let o := Z.land pi 7 in
  r ← load_atomic16_or_exit m (Z.land pi (Z.lnot 7));
  Ok (u64 (Z.shiftr r (o * 8))).

Definition load_atom_4_by_2 (m : mem) (pv : Z) : res Z :=
  a ← load_atomic 2 m pv;
  b ← load_atomic 2 m (pv + 2);
  Ok (Z.lor (u32 (Z.shiftl b 16)) a).

Definition load_atom_8_by_2 (m : mem) (pv : Z) : res Z :=
  a ← load_atom_4_by_2 m pv;
  b ← load_atom_4_by_2 m (pv + 4);
  Ok (Z.lor (u64 (Z.shiftl b 32)) a).

Definition load_atom_8_by_4 (m : mem) (pv : Z) : res Z :=
  a ← load_atomic 4 m pv;
  b ← load_atomic 4 m (pv + 4);
  Ok (Z.lor (u64 (Z.shiftl b 32)) a).

Definition load_atom_2 (m : mem) (pi memop : Z) : res Z :=
  if Z.land pi 1 =? 0 then load_atomic 2 m pi
  else
    atmax ← required_atomicity serial pi memop;
    if atmax =? MO_8 then acc (load16 m pi)
    else if atmax =? MO_16 then
      if Z.land pi 3 =? 1 then x ← load_atomic 4 m (pi - 1); Ok (u16 (Z.shiftr x 8))
      else if negb (Z.land pi 15 =? 7) then x ← load_atom_extract_al8_or_exit m pi; Ok (u16 x)
      else x ← load_atom_extract_al16_or_exit m pi; Ok (u16 x)
    else Assert.

Definition load_atom_4 (m : mem) (pi memop : Z) : res Z :=
  if Z.land pi 3 =? 0 then load_atomic 4 m pi
  else
    atmax ← required_atomicity serial pi memop;
    if (atmax =? MO_8) || (atmax =? MO_16) || (atmax =? - MO_16) then load_atom_extract_al4x2 m pi
    else if atmax =? MO_32 then
      if Z.land pi 4 =? 0 then load_atom_extract_al8_or_exit m pi
      else x ← load_atom_extract_al16_or_exit m pi; Ok (u32 x)
    else Assert.

Definition load_atom_8 (m : mem) (pi memop : Z) : res Z :=
  if HAVE_al8 && (Z.land pi 7 =? 0) then load_atomic 8 m pi
  else
    atmax ← required_atomicity serial pi memop;
    if atmax =? MO_64 then
      if negb HAVE_al8 && (Z.land pi 7 =? 0) then _ ← load_atomic8_or_exit m pi; load_atom_extract_al16_or_exit m pi
      else load_atom_extract_al16_or_exit m pi
    else if atmax =? MO_8 then acc (load64 m pi)
    else if atmax =? MO_16 then load_atom_8_by_2 m pi
    else if atmax =? MO_32 then load_atom_8_by_4 m pi
    else if atmax =? - MO_32 then
      if HAVE_al8 then load_atom_extract_al8x2 m pi else Exit
    else Assert.

(** [int128_make128(lo, hi)]. *)
Definition int128_make128 (lo hi : Z) : Z := lo + 2 ^ 64 * hi.

Definition load_atom_16 (m : mem) (pi memop : Z) : res Z :=
  atmax ← required_atomicity serial pi memop;
  let two f := a ← f m pi; b ← f m (pi + 8); Ok (int128_make128 a b) in
  if atmax =? MO_8 then acc (load 16 m pi)
  else if atmax =? MO_16 then two load_atom_8_by_2
  else if atmax =? MO_32 then two load_atom_8_by_4
  else if atmax =? MO_64 then if HAVE_al8 then two (load_atomic 8) else Exit
  else if atmax =? - MO_64 then if HAVE_al8 then two load_atom_extract_al8x2 else Exit
  else if atmax =? MO_128 then load_atomic16_or_exit m pi
  else Assert.

(** ** Stores *)

Definition store_atom_4_by_2 (m : mem) (pv val : Z) : res mem :=
  m ← store_atomic 2 m pv (u16 val);
  store_atomic 2 m (pv + 2) (u16 (Z.shiftr val 16)).

Definition store_atom_8_by_2 (m : mem) (pv val : Z) : res mem :=
  m ← store_atom_4_by_2 m pv (u32 val);
  store_atom_4_by_2 m (pv + 4) (u32 (Z.shiftr val 32)).

Definition store_atom_8_by_4 (m : mem) (pv val : Z) : res mem :=
  m ← store_atomic 4 m pv (u32 val);
  store_atomic 4 m (pv + 4) (u32 (Z.shiftr val 32)).

(** The bytes stored, and what is left of the value. *)
Fixpoint store_bytes_leN (m : mem) (p : Z) (size : nat) (val_le : Z) : res (mem * Z) :=
  match size with
  | O => Ok (m, val_le)
  | S size =>
      m ← acc (store8 m p (u8 val_le));
      store_bytes_leN m (p + 1) size (Z.shiftr val_le 8)
  end.

(** [store_parts_leN]: the largest piece the alignment and the size allow, at each round. *)
Fixpoint store_parts_leN (fuel : nat) (m : mem) (pv size val_le : Z) : res (mem * Z) :=
  match fuel with
  | O => Assert
  | S fuel =>
      let k := Z.land (Z.lor pv size) 7 in
      '(m, val_le, n) ←
        (if k =? 4 then m ← store_atomic 4 m pv (u32 val_le); Ok (m, Z.shiftr val_le 32, 4)
         else if (k =? 2) || (k =? 6) then m ← store_atomic 2 m pv (u16 val_le); Ok (m, Z.shiftr val_le 16, 2)
         else if k =? 0 then Assert
         else m ← acc (store8 m pv (u8 val_le)); Ok (m, Z.shiftr val_le 8, 1));
      if size - n =? 0 then Ok (m, val_le) else store_parts_leN fuel m (pv + n) (size - n) val_le
  end.

Definition store_whole_le4 (m : mem) (pv size val_le : Z) : res (mem * Z) :=
  let sz := size * 8 in
  let o := Z.land pv 3 in
  let sh := o * 8 in
  let msk := u32 (MAKE_64BIT_MASK 0 sz) in
  m ← store_atom_insert 4 m (pv - o) (u32 (Z.shiftl val_le sh)) (u32 (Z.shiftl msk sh));
  Ok (m, Z.shiftr val_le sz).

Definition store_whole_le8 (m : mem) (pv size val_le : Z) : res (mem * Z) :=
  let sz := size * 8 in
  let o := Z.land pv 7 in
  let sh := o * 8 in
  let msk := MAKE_64BIT_MASK 0 sz in
  m ← store_atom_insert 8 m (pv - o) (u64 (Z.shiftl val_le sh)) (u64 (Z.shiftl msk sh));
  Ok (m, Z.shiftr val_le sz).

Definition store_whole_le16 (m : mem) (pv size val_le : Z) : res (mem * Z) :=
  let sz := size * 8 in
  let o := Z.land pv 15 in
  let sh := o * 8 in
  let msk := if sz <=? 64 then MAKE_64BIT_MASK 0 sz else int128_make128 (u64 (-1)) (MAKE_64BIT_MASK 0 (sz - 64)) in
  m ← store_atom_insert_al16 m (pv - o) (uw 128 (Z.shiftl val_le sh)) (uw 128 (Z.shiftl msk sh));
  Ok (m, if sz <=? 64 then 0 else Z.shiftr (Z.shiftr val_le 64) (sz - 64)).

Definition store_atom_2 (m : mem) (pi memop val : Z) : res mem :=
  if Z.land pi 1 =? 0 then store_atomic 2 m pi val
  else
    atmax ← required_atomicity serial pi memop;
    if atmax =? MO_8 then acc (store16 m pi val)
    else if Z.land pi 3 =? 1 then store_atom_insert 4 m (pi - 1) (u32 (Z.shiftl val 8)) (u32 (MAKE_64BIT_MASK 8 16))
    else if Z.land pi 7 =? 3 then
      if HAVE_al8 then store_atom_insert 8 m (pi - 3) (u64 (Z.shiftl val 24)) (MAKE_64BIT_MASK 24 16) else Exit
    else if Z.land pi 15 =? 7 then
      store_atom_insert_al16 m (pi - 7) (uw 128 (Z.shiftl val 56)) (uw 128 (Z.shiftl 0xffff 56))
    else Assert.

Definition store_atom_4 (m : mem) (pi memop val : Z) : res mem :=
  if Z.land pi 3 =? 0 then store_atomic 4 m pi val
  else
    atmax ← required_atomicity serial pi memop;
    if atmax =? MO_8 then acc (store32 m pi val)
    else if atmax =? MO_16 then store_atom_4_by_2 m pi val
    else if atmax =? - MO_16 then
      let s2 := Z.land pi 3 in
      let s1 := 4 - s2 in
      if s2 =? 1 then
        '(m, val_le) ← store_whole_le4 m pi s1 val;
        acc (store8 m (pi + 3) (u8 val_le))
      else if s2 =? 3 then
        m ← acc (store8 m pi (u8 val));
        '(m, _) ← store_whole_le4 m (pi + 1) s2 (Z.shiftr val 8);
        Ok m
      else Assert
    else if atmax =? MO_32 then
      if Z.land pi 7 <? 4 then
        if HAVE_al8 then '(m, _) ← store_whole_le8 m pi 4 val; Ok m else Exit
      else '(m, _) ← store_whole_le16 m pi 4 val; Ok m
    else Assert.

Definition store_atom_8 (m : mem) (pi memop val : Z) : res mem :=
  if HAVE_al8 && (Z.land pi 7 =? 0) then store_atomic 8 m pi val
  else
    atmax ← required_atomicity serial pi memop;
    if atmax =? MO_8 then acc (store64 m pi val)
    else if atmax =? MO_16 then store_atom_8_by_2 m pi val
    else if atmax =? MO_32 then store_atom_8_by_4 m pi val
    else if atmax =? - MO_32 then
      if HAVE_al8 then
        let s2 := Z.land pi 7 in
        let s1 := 8 - s2 in
        if (1 <=? s2) && (s2 <=? 3) then
          '(m, val_le) ← store_whole_le8 m pi s1 val;
          '(m, _) ← store_bytes_leN m (pi + s1) (Z.to_nat s2) val_le;
          Ok m
        else if (5 <=? s2) && (s2 <=? 7) then
          '(m, val_le) ← store_bytes_leN m pi (Z.to_nat s1) val;
          '(m, _) ← store_whole_le8 m (pi + s1) s2 val_le;
          Ok m
        else Assert
      else Exit
    else if atmax =? MO_64 then '(m, _) ← store_whole_le16 m pi 8 val; Ok m
    else Assert.

(** With the emulated compare-and-swap the aligned store is not special. *)
Definition store_atom_16 (m : mem) (pi memop val : Z) : res mem :=
  atmax ← required_atomicity serial pi memop;
  let a := u64 val in
  let b := Z.shiftr val 64 in
  if atmax =? MO_8 then acc (store 16 m pi val)
  else if atmax =? MO_16 then m ← store_atom_8_by_2 m pi a; store_atom_8_by_2 m (pi + 8) b
  else if atmax =? MO_32 then m ← store_atom_8_by_4 m pi a; store_atom_8_by_4 m (pi + 8) b
  else if atmax =? MO_64 then
    if HAVE_al8 then m ← store_atomic 8 m pi a; store_atomic 8 m (pi + 8) b else Exit
  else if atmax =? - MO_64 then
    let s2 := Z.land pi 15 in
    let s1 := 16 - s2 in
    if (1 <=? s2) && (s2 <=? 7) then
      '(m, val_le) ← store_whole_le16 m pi s1 val;
      '(m, _) ← store_bytes_leN m (pi + s1) (Z.to_nat s2) val_le;
      Ok m
    else if (9 <=? s2) && (s2 <=? 15) then
      '(m, _) ← store_bytes_leN m pi (Z.to_nat s1) (u64 val);
      '(m, _) ← store_whole_le16 m (pi + s1) s2 (Z.shiftr val (s1 * 8));
      Ok m
    else Assert
  else if atmax =? MO_128 then atomic16_set 2 m pi val
  else Assert.

End Host.
