(* ===== verification/HostAtomicExact.v ===== *)
(** * The host accesses are exact

    Every way ldst_atomicity.c.inc performs an access reads and writes exactly the bytes
    of the access: words that cover it, shifted or merged, agree with the plain
    little-endian access ([Memory.load] and [Memory.store]). *)
From S2P Require Import Prelude BitOps HostUtils Bitmap Memory HostAtomic.

(** ** Bytes of a word *)

Definition byte (i v : Z) : Z := u8 (Z.shiftr v (8 * i)).

Lemma byte_0 v : byte 0 v = v mod 256.
Proof. unfold byte. by rewrite Z.mul_0_r, Z.shiftr_0_r. Qed.

Lemma byte_S i v : 0 <= i -> byte (i + 1) v = byte i (v / 256).
Proof.
  intros Hi. unfold byte. change (v / 256) with (v / 2 ^ 8). rewrite <- Z.shiftr_div_pow2 by lia. rewrite Z.shiftr_shiftr by lia. do 2 f_equal. lia.
Qed.

Lemma byte_trunc n i v : 0 <= i < n -> byte i (uw (8 * n) v) = byte i v.
Proof. intros Hi. unfold byte. bitblast. Qed.

Lemma store_lookup n m a v m' p : store n m a v = Some m' ->
  m' !! p = if decide (a <= p < a + Z.of_nat n) then Some (byte (p - a) v) else m !! p.
Proof.
  revert m a v. induction n as [|n IH]; intros m a v E; cbn [store] in E.
  { simplify_eq. case_decide; [lia | done]. }
  destruct (m !! a) eqn:Ea; [|done]. simpl in E. rewrite (IH _ _ _ E). repeat case_decide; try lia.
  - f_equal. replace (p - a) with (p - (a + 1) + 1) by lia. by rewrite byte_S by lia.
  - assert (p = a) as -> by lia. by rewrite lookup_insert_eq, Z.sub_diag, byte_0.
  - by rewrite lookup_insert_ne by lia.
Qed.

(** A store is determined by the bytes it leaves. *)
Lemma store_unique n m a v m' m2 : store n m a v = Some m' ->
  (forall p, m2 !! p = if decide (a <= p < a + Z.of_nat n) then Some (byte (p - a) v) else m !! p) -> m2 = m'.
Proof. intros E H. apply map_eq; intros p. by rewrite H, (store_lookup _ _ _ _ _ _ E). Qed.

Lemma store_total n m a v : mapped m a n -> exists m', store n m a v = Some m'.
Proof. intros H. by apply store_is_Some. Qed.

Lemma load_total n m a : mapped m a n -> exists v, load n m a = Some v.
Proof. intros H. by apply load_is_Some. Qed.

Lemma load_byte n m a v i : mem_wf m -> load n m a = Some v -> 0 <= i < Z.of_nat n -> m !! (a + i) = Some (byte i v).
Proof.
  intros Hm. revert a v i. induction n as [|n IH]; intros a v i E Hi; [lia|]. cbn [load] in E.
  destruct (m !! a) as [b|] eqn:Eb; simpl in E; [|done]. destruct (load n m (a + 1)) as [r|] eqn:Er; simpl in E; [|done].
  injection E as <-. pose proof (Hm _ _ Eb) as Hb. unfold is_u in Hb.
  destruct (decide (i = 0)) as [->|].
  - rewrite Z.add_0_r, Eb, byte_0. f_equal. rewrite Z.mul_comm, Z.mod_add by lia. by rewrite Z.mod_small by lia.
  - replace (a + i) with (a + 1 + (i - 1)) by lia. rewrite (IH _ _ _ Er) by lia.
    replace i with (i - 1 + 1) at 2 by lia. rewrite byte_S by lia. do 2 f_equal.
    rewrite Z.mul_comm, Z.div_add by lia. by rewrite Z.div_small by lia.
Qed.

Lemma load_of_bytes n m a v : is_u (8 * Z.of_nat n) v ->
  (forall i, 0 <= i < Z.of_nat n -> m !! (a + i) = Some (byte i v)) -> load n m a = Some v.
Proof.
  revert a v. induction n as [|n IH]; intros a v Hv H; cbn [load].
  { f_equal. unfold is_u in Hv. simpl in Hv. lia. }
  specialize (H 0) as H0. rewrite Z.add_0_r in H0. rewrite H0 by lia. simpl. rewrite (IH (a + 1) (v / 256)).
  - simpl. f_equal. rewrite byte_0. pose proof (Z.div_mod v 256). lia.
  - unfold is_u in *. replace (8 * Z.of_nat (S n)) with (8 + 8 * Z.of_nat n) in Hv by lia. rewrite Z.pow_add_r in Hv by lia.
    change (2 ^ 8) with 256 in Hv. split; [apply Z.div_pos; lia | apply Z.div_lt_upper_bound; lia].
  - intros i Hi. rewrite <- byte_S by lia. replace (a + 1 + i) with (a + (i + 1)) by lia. apply H. lia.
Qed.

(** ** Sub-words *)

(** The bytes inside a wider word. *)
Lemma load_extract k s m q x o : mem_wf m -> load k m q = Some x -> 0 <= o -> o + Z.of_nat s <= Z.of_nat k ->
  load s m (q + o) = Some (uw (8 * Z.of_nat s) (Z.shiftr x (8 * o))).
Proof.
  intros Hm E Ho Hs. apply load_of_bytes; [apply uw_range; lia|]. intros i Hi.
  rewrite <- Z.add_assoc, (load_byte _ _ _ _ _ Hm E) by lia. f_equal. rewrite byte_trunc by done.
  unfold byte. rewrite Z.shiftr_shiftr by lia. do 2 f_equal. lia.
Qed.

Lemma load_concat a b m p x y : load a m p = Some x -> load b m (p + Z.of_nat a) = Some y ->
  load (a + b) m p = Some (x + 2 ^ (8 * Z.of_nat a) * y).
Proof.
  revert p x. induction a as [|a IH]; intros p x Ha Hb; cbn [load Nat.add] in *.
  { injection Ha as <-. rewrite Z.add_0_r in Hb. rewrite Hb. f_equal. simpl. lia. }
  destruct (m !! p); simpl in *; [|done]. destruct (load a m (p + 1)) as [r|] eqn:Er; simpl in *; [|done].
  injection Ha as <-. rewrite (IH _ _ Er); [|by replace (p + 1 + Z.of_nat a) with (p + Z.of_nat (S a)) by lia].
  simpl. f_equal. replace (8 * Z.of_nat (S a)) with (8 + 8 * Z.of_nat a) by lia. rewrite Z.pow_add_r by lia. lia.
Qed.

Lemma store_concat a b m p v : store (a + b) m p v = (m' ← store a m p v; store b m' (p + Z.of_nat a) (Z.shiftr v (8 * Z.of_nat a))).
Proof.
  revert m p v. induction a as [|a IH]; intros m p v; cbn [store Nat.add].
  { simpl. by rewrite Z.add_0_r. }
  destruct (m !! p); simpl; [|done]. rewrite IH. destruct (store a _ _ _); simpl; [|done]. f_equal; [lia|].
  change (v / 256) with (v / 2 ^ 8). rewrite <- Z.shiftr_div_pow2 by lia. rewrite Z.shiftr_shiftr by lia. f_equal. lia.
Qed.

(** A store depends on the bytes of its value only. *)
Lemma store_trunc n m p v : store n m p (uw (8 * Z.of_nat n) v) = store n m p v.
Proof.
  assert (Hw : is_Some (store n m p (uw (8 * Z.of_nat n) v)) <-> is_Some (store n m p v)) by (by rewrite !store_is_Some).
  destruct (store n m p (uw _ v)) as [m2|] eqn:E2, (store n m p v) as [m'|] eqn:E; try done.
  - f_equal. apply (store_unique _ _ _ _ _ _ E). intros q. rewrite (store_lookup _ _ _ _ _ _ E2).
    case_decide; [|done]. by rewrite byte_trunc by lia.
  - by destruct (proj1 Hw (mk_is_Some _ _ eq_refl)).
  - by destruct (proj2 Hw (mk_is_Some _ _ eq_refl)).
Qed.

(** Merging [s] bytes into a wider word. *)
Lemma store_merge k s m q o v old msk : mem_wf m -> load k m q = Some old -> 0 <= o -> o + Z.of_nat s <= Z.of_nat k ->
  is_u (8 * Z.of_nat s) v -> msk = Z.shiftl (Z.ones (8 * Z.of_nat s)) (8 * o) ->
  store k m q (Z.lor (Z.land old (unot (8 * Z.of_nat k) msk)) (Z.shiftl v (8 * o))) = store s m (q + o) v.
Proof.
  intros Hm E Ho Hs Hv ->.
  assert (Hk : mapped m q k) by (apply load_is_Some; by eexists).
  destruct (store_total s m (q + o) v) as [m1 E1].
  { intros i Hi. rewrite <- Z.add_assoc. apply Hk. lia. }
  rewrite E1. edestruct (store_total k m q) as [m2 E2]; [done|]. rewrite E2. f_equal.
  apply (store_unique _ _ _ _ _ _ E1). intros p. rewrite (store_lookup _ _ _ _ _ _ E2).
  case_decide.
  - pose proof (load_byte _ _ _ _ (p - q) Hm E) as Hb. replace (q + (p - q)) with p in Hb by lia.
    case_decide; [|rewrite Hb by lia]; f_equal; apply Z.bits_inj'; intros j Hj; unfold byte, unot.
    + rewrite !testbit_uw by lia. destruct (Z.ltb_spec j 8); [|done]. simpl.
      rewrite !testbit_shiftr, Z.lor_spec, Z.land_spec, testbit_uw, Z.lnot_spec, !testbit_shiftl by lia.
      rewrite testbit_ones by lia. bit_cases; simpl; try lia; rewrite ?andb_false_r; simpl; f_equal; lia.
    + rewrite !testbit_uw by lia. destruct (Z.ltb_spec j 8); [|done]. simpl.
      rewrite !testbit_shiftr, Z.lor_spec, Z.land_spec, testbit_uw, Z.lnot_spec, !testbit_shiftl by lia.
      replace (_ <? 8 * Z.of_nat k) with true by (symmetry; apply Z.ltb_lt; lia).
      assert (Hz : Z.testbit (Z.ones (8 * Z.of_nat s)) (j + 8 * (p - q) - 8 * o) = false /\ Z.testbit v (j + 8 * (p - q) - 8 * o) = false).
      { destruct (decide (p < q + o)); [by rewrite !Z.testbit_neg_r by lia|].
        rewrite testbit_ones, (testbit_is_u _ v _ Hv) by lia. split; [apply Z.ltb_ge; lia | done]. }
      destruct Hz as [-> ->]. simpl. by rewrite orb_false_r, andb_true_r.
  - case_decide; [lia | done].
Qed.

(** ** Pages and aligned words *)

(** The host page of [p] is mapped. *)
Definition page_mapped (m : mem) (p : Z) : Prop := forall q, q / 4096 = p / 4096 -> is_Some (m !! q).

(** An access of [n] bytes inside one mapped page. *)
Definition in_page (m : mem) (p : Z) (n : nat) : Prop :=
  mem_wf m /\ page_mapped m p /\ p mod 4096 + Z.of_nat n <= 4096 /\ is_u 32 p.

(** Every aligned word that overlaps the access is mapped. *)
Lemma block_mapped m p n q k : in_page m p n -> (k ∈ [1; 2; 4; 8; 16])%nat -> q mod Z.of_nat k = 0 ->
  q < p + Z.of_nat n -> p < q + Z.of_nat k -> mapped m q k.
Proof.
  intros (_ & Hp & Hn & _) Hk Hq H1 H2 i Hi. apply Hp.
  assert (p / 4096 * 4096 <= q + i < p / 4096 * 4096 + 4096).
  { set_unfold. destruct_or! Hk; subst k; pose proof (Z.div_mod p 4096 ltac:(lia)); pose proof (Z.mod_pos_bound p 4096 ltac:(lia));
      Z.to_euclidean_division_equations; lia. }
  symmetry. apply (Z.div_unique _ _ _ (q + i - p / 4096 * 4096)); lia.
Qed.

Lemma in_page_mapped m p n : in_page m p n -> mapped m p n.
Proof.
  intros H i Hi. pose proof (block_mapped m p n (p + i) 1 H) as Hb. specialize (Hb ltac:(set_solver)).
  rewrite Z.mod_1_r in Hb. specialize (Hb eq_refl ltac:(lia) ltac:(lia) 0 ltac:(lia)). by rewrite Z.add_0_r in Hb.
Qed.

Lemma land_1 p : Z.land p 1 = p mod 2.
Proof. apply (Z.land_ones p 1). lia. Qed.
Lemma land_3 p : Z.land p 3 = p mod 4.
Proof. apply (Z.land_ones p 2). lia. Qed.
Lemma land_7 p : Z.land p 7 = p mod 8.
Proof. apply (Z.land_ones p 3). lia. Qed.
Lemma land_15 p : Z.land p 15 = p mod 16.
Proof. apply (Z.land_ones p 4). lia. Qed.

Lemma align_floor k p : 0 <= k -> Z.land p (Z.lnot (Z.ones k)) = p - p mod 2 ^ k.
Proof.
  intros Hk. rewrite <- Z.ldiff_land, Z.ldiff_ones_r, Z.shiftl_mul_pow2, Z.shiftr_div_pow2 by done.
  pose proof (Z.div_mod p (2 ^ k)). lia.
Qed.
Lemma align_3 p : Z.land p (Z.lnot 3) = p - p mod 4.
Proof. apply (align_floor 2). lia. Qed.
Lemma align_7 p : Z.land p (Z.lnot 7) = p - p mod 8.
Proof. apply (align_floor 3). lia. Qed.

Create Rewrite HintDb aligned.
#[local] Hint Rewrite land_1 land_3 land_7 land_15 align_3 align_7 : aligned.

(** [r] is the plain load. *)
Definition loads (n : nat) (m : mem) (p : Z) (r : res Z) : Prop := exists v, load n m p = Some v /\ r = Ok v.

Lemma load_atomic_ok n m q : q mod Z.of_nat n = 0 -> mapped m q n -> loads n m q (load_atomic n m q).
Proof.
  intros Hq Hm. destruct (load_total n m q Hm) as [v Hv]. exists v. split; [done|]. unfold load_atomic. by rewrite Hq, Hv.
Qed.

Lemma plain_load_ok n m p : in_page m p n -> loads n m p (acc (load n m p)).
Proof. intros H. destruct (load_total n m p (in_page_mapped _ _ _ H)) as [v Hv]. exists v. by rewrite Hv. Qed.

(** ** The atomicity asked for *)

Lemma ctz32_divides p : is_u 32 p -> 0 <= ctz32 p /\ p mod 2 ^ ctz32 p = 0.
Proof.
  intros Hp. unfold ctz32. destruct (Z.eqb_spec p 0) as [->|Hne]; [split; [lia | by rewrite Z.mod_0_l]|].
  destruct (builtin_ctz_spec p) as (Ha & _ & Hc); [unfold is_u in Hp; lia|]. split; [done|].
  apply Z.bits_inj'; intros i Hi. rewrite Z.testbit_mod_pow2, Z.bits_0 by done.
  destruct (Z.ltb_spec i (builtin_ctz p)); simpl; [by apply Hc | done].
Qed.

(** What [required_atomicity] can answer for an access of [2 ^ k] bytes. *)
Definition atomicity (serial : bool) (k p a : Z) : Prop :=
  a = MO_8
  \/ serial = false
     /\ (a = k /\ (p mod 2 ^ k = 0 \/ p mod 16 + 2 ^ k <= 16)
         \/ 0 < a < k /\ p mod 2 ^ a = 0
         \/ a = - (k - 1) /\ 16 < p mod 16 + 2 ^ k /\ p mod 16 + 2 ^ (k - 1) <> 16).

(** The operation has one of the six atomicities and accesses [2 ^ k] bytes. *)
Definition memop_ok (memop k : Z) : Prop :=
  Z.land memop MO_SIZE = k /\ Z.land memop MO_ATOM_MASK <= MO_ATOM_NONE.

Lemma atom_cases memop : let a := Z.land memop MO_ATOM_MASK in a <= MO_ATOM_NONE ->
  a ∈ [MO_ATOM_NONE; MO_ATOM_IFALIGN_PAIR; MO_ATOM_IFALIGN; MO_ATOM_WITHIN16; MO_ATOM_WITHIN16_PAIR; MO_ATOM_SUBALIGN].
Proof.
  intros a Ha. assert (Hs : a = Z.shiftl (Z.land (Z.shiftr memop 8) 7) 8).
  { unfold a, MO_ATOM_MASK. change 0x700 with (Z.shiftl 7 8). apply Z.bits_inj'; intros i Hi.
    rewrite Z.land_spec, !testbit_shiftl, Z.land_spec by done. destruct (Z.leb_spec 8 i).
    - rewrite testbit_shiftr by lia. by replace (i - 8 + 8) with i by lia.
    - by rewrite !(Z.testbit_neg_r _ (i - 8)), !andb_false_r by lia. }
  rewrite land_7, Z.shiftl_mul_pow2 in Hs by lia. pose proof (Z.mod_pos_bound (Z.shiftr memop 8) 8).
  unfold MO_ATOM_NONE, MO_ATOM_IFALIGN_PAIR, MO_ATOM_IFALIGN, MO_ATOM_WITHIN16, MO_ATOM_WITHIN16_PAIR, MO_ATOM_SUBALIGN in *.
  rewrite !elem_of_cons. lia.
Qed.

Lemma required_ok serial k p memop : memop_ok memop k -> 1 <= k <= 4 -> is_u 32 p ->
  exists a, required_atomicity serial p memop = Ok a /\ atomicity serial k p a.
Proof.
  intros [Hk Ha] Hr Hp. unfold required_atomicity. rewrite Hk. pose proof (atom_cases memop Ha) as Hc.
  rewrite (proj2 (Z.eqb_neq k 0)) by lia. rewrite !Z.shiftl_1_l, land_15, <- !ones_uw, !Z.land_ones by lia.
  assert (Hj : k - 1 = 0 \/ 0 < k - 1) by lia.
  assert (H16 : p mod 16 + 2 ^ (k - 1) = 16 -> p mod 2 ^ (k - 1) = 0).
  { assert (k = 1 \/ k = 2 \/ k = 3 \/ k = 4) as [-> | [-> | [-> | ->]]] by lia; change (2 ^ (1 - 1)) with 1;
      change (2 ^ (2 - 1)) with 2; change (2 ^ (3 - 1)) with 4; change (2 ^ (4 - 1)) with 8; Z.to_euclidean_division_equations; lia. }
  destruct (ctz32_divides p Hp) as [Hz Hd].
  unfold atomicity, MO_8. destruct serial.
  { set_unfold in Hc. destruct_or! Hc; rewrite Hc; simpl; eexists; (split; [reflexivity | by left]). }
  set_unfold in Hc. destruct_or! Hc; rewrite Hc; cbn [Z.eqb Pos.eqb MO_ATOM_NONE MO_ATOM_IFALIGN_PAIR MO_ATOM_IFALIGN MO_ATOM_WITHIN16 MO_ATOM_WITHIN16_PAIR MO_ATOM_SUBALIGN mbind res_bind];
    eexists; (split; [reflexivity|]).
  - by left.
  - destruct (Z.eqb_spec (p mod 2 ^ (k - 1)) 0); [|by left]. destruct Hj; [left; lia | right; split; [done|]]. right; left. split; [lia | done].
  - destruct (Z.eqb_spec (p mod 2 ^ k) 0); [|by left]. right; split; [done|]. left. by split; [|left].
  - destruct (Z.leb_spec (p mod 16 + 2 ^ k) 16); [|by left]. right; split; [done|]. left. by split; [|right].
  - destruct (Z.leb_spec (p mod 16 + 2 ^ k) 16); [right; split; [done|]; left; by split; [|right]|].
    destruct (Z.eqb_spec (p mod 16 + 2 ^ (k - 1)) 16); [|right; split; [done|]; by right; right].
    destruct Hj; [left; lia | right; split; [done|]]. right; left. split; [lia | by apply H16].
  - destruct (Z.le_gt_cases k (ctz32 p)) as [Hle|Hgt].
    + rewrite Z.min_l by done. right; split; [done|]. left. split; [done|]. left.
      apply Z.mod_divide; [lia|]. apply Z.mod_divide in Hd; [|lia]. etransitivity; [|done]. exists (2 ^ (ctz32 p - k)). rewrite <- Z.pow_add_r by lia. f_equal. lia.
    + rewrite Z.min_r by lia. destruct (Z.eq_dec (ctz32 p) 0) as [->|]; [by left|]. right; split; [done|]. right; left. split; [lia | done].
Qed.

(** ** Loads *)

Lemma mod_add_0 k p d : 0 < k -> p mod k = 0 -> d mod k = 0 -> (p + d) mod k = 0.
Proof. intros Hk Hp Hd. by rewrite Z.add_mod, Hp, Hd by lia. Qed.

Section Loads.
Context (al8 serial : bool) (m : mem).

(** Concatenation of two adjacent words, by shift and or. *)
Lemma or_concat w a b : is_u w a -> 0 <= w -> Z.lor (Z.shiftl b w) a = a + 2 ^ w * b.
Proof.
  intros Ha Hw. rewrite Z.lor_comm, Z.mul_comm, <- Z.shiftl_mul_pow2 by done. symmetry. apply add_disjoint.
  apply Z.bits_inj'; intros i Hi. rewrite Z.land_spec, testbit_shiftl, Z.bits_0 by done.
  destruct (Z.lt_ge_cases i w); [by rewrite (Z.testbit_neg_r b), andb_false_r by lia | by rewrite (testbit_is_u w)].
Qed.

Lemma loads_two n p f a b :
  mem_wf m -> loads n m p a -> loads n m (p + Z.of_nat n) b ->
  (forall x y, is_u (8 * Z.of_nat n) x -> is_u (8 * Z.of_nat n) y -> f x y = x + 2 ^ (8 * Z.of_nat n) * y) ->
  loads (n + n) m p (x ← a; y ← b; Ok (f x y)).
Proof.
  intros Hm (x & Hx & ->) (y & Hy & ->) Hf. simpl. eexists. split; [by eapply load_concat|].
  by rewrite Hf by (by eapply load_range).
Qed.

Lemma make128_two x y : is_u 64 x -> int128_make128 x y = x + 2 ^ 64 * y.
Proof. done. Qed.

(** A load of [2 n] bytes by two aligned loads of [n]. *)
Lemma by_two n p : mem_wf m -> p mod Z.of_nat n = 0 -> (0 < n)%nat -> mapped m p n -> mapped m (p + Z.of_nat n) n ->
  forall f, (forall x y, is_u (8 * Z.of_nat n) x -> is_u (8 * Z.of_nat n) y -> f x y = x + 2 ^ (8 * Z.of_nat n) * y) ->
  loads (n + n) m p (x ← load_atomic n m p; y ← load_atomic n m (p + Z.of_nat n); Ok (f x y)).
Proof.
  intros Hm Hp Hn H1 H2 f Hf. apply loads_two; [done | by apply load_atomic_ok | | done].
  apply load_atomic_ok; [|done]. apply mod_add_0; [lia | done | apply Z.mod_same; lia].
Qed.

Lemma or_two w x y : 0 < w -> is_u w x -> is_u w y -> Z.lor (uw (w + w) (Z.shiftl y w)) x = x + 2 ^ w * y.
Proof.
  intros Hw Hx Hy. rewrite <- or_concat by (done || lia). f_equal. apply uw_small. rewrite Z.shiftl_mul_pow2 by lia.
  unfold is_u in *. rewrite Z.pow_add_r by lia. nia.
Qed.

Lemma load_4_by_2_ok p : in_page m p 4 -> p mod 2 = 0 -> loads 4 m p (load_atom_4_by_2 m p).
Proof.
  intros H Hp. pose proof H as (Hm & _). apply (by_two 2); try done; try lia.
  - apply (block_mapped m p 4); [done | set_solver | done | lia | lia].
  - apply (block_mapped m p 4); [done | set_solver | | lia | lia]. by apply mod_add_0.
  - intros x y. apply (or_two 16). lia.
Qed.

Lemma in_page_sub p n o k : in_page m p n -> 0 <= o -> o + Z.of_nat k <= Z.of_nat n -> (0 < k)%nat -> in_page m (p + o) k.
Proof.
  intros (Hm & Hp & Hn & Hu) Ho Hk Hk0. pose proof (Z.div_mod p 4096 ltac:(lia)). pose proof (Z.mod_pos_bound p 4096 ltac:(lia)).
  assert (Hd : (p + o) / 4096 = p / 4096) by (symmetry; apply (Z.div_unique _ _ _ (p mod 4096 + o)); lia).
  pose proof (Z.div_mod (p + o) 4096 ltac:(lia)). split_and!; [done | | lia |].
  - intros q Hq. apply Hp. by rewrite Hq.
  - unfold is_u in *. change (2 ^ 32) with 4294967296 in *. Z.to_euclidean_division_equations; lia.
Qed.

Lemma in_page_le p n k : in_page m p n -> (k <= n)%nat -> in_page m p k.
Proof. intros (Hm & Hp & Hn & Hu) Hk. split_and!; try done. lia. Qed.

Lemma load_8_by_2_ok p : in_page m p 8 -> p mod 2 = 0 -> loads 8 m p (load_atom_8_by_2 m p).
Proof.
  intros H Hp. pose proof H as (Hm & _). apply (loads_two 4); [done | | |].
  - apply load_4_by_2_ok; [|done]. eapply in_page_le; [done | lia].
  - apply load_4_by_2_ok; [apply (in_page_sub p 8); done || lia | by apply mod_add_0].
  - intros x y. apply (or_two 32). lia.
Qed.

Lemma load_8_by_4_ok p : in_page m p 8 -> p mod 4 = 0 -> loads 8 m p (load_atom_8_by_4 m p).
Proof.
  intros H Hp. pose proof H as (Hm & _). apply (by_two 4); try done; try lia.
  - apply (block_mapped m p 8); [done | set_solver | done | lia | lia].
  - apply (block_mapped m p 8); [done | set_solver | | lia | lia]. by apply mod_add_0.
  - intros x y. apply (or_two 32). lia.
Qed.

(** The two words around an access, shifted together. *)
Lemma al_x2 w sh x y : 0 < sh < w -> is_u w x -> is_u w y ->
  Z.lor (Z.shiftr x sh) (uw w (Z.shiftl y (w - sh))) = uw w (Z.shiftr (x + 2 ^ w * y) sh).
Proof.
  intros Hs Hx Hy. rewrite <- or_concat by (done || lia). apply Z.bits_inj'; intros i Hi.
  rewrite Z.lor_spec, !testbit_uw, !testbit_shiftr, Z.lor_spec, !testbit_shiftl by lia.
  replace (i + sh - w) with (i - (w - sh)) by lia.
  destruct (Z.ltb_spec i w); simpl; [by rewrite orb_comm|]. by rewrite (testbit_is_u w x) by (done || lia).
Qed.

(** An access and the aligned words it straddles. *)
Lemma straddle n p : in_page m p n -> (n ∈ [4; 8])%nat -> p mod Z.of_nat n <> 0 ->
  let q := p - p mod Z.of_nat n in
  exists x y, load_atomic n m q = Ok x /\ load_atomic n m (q + Z.of_nat n) = Ok y
    /\ is_u (8 * Z.of_nat n) x /\ is_u (8 * Z.of_nat n) y
    /\ load n m p = Some (uw (8 * Z.of_nat n) (Z.shiftr (x + 2 ^ (8 * Z.of_nat n) * y) (8 * (p mod Z.of_nat n)))).
Proof.
  intros H Hn Hp q. pose proof H as (Hm & _). assert (0 < Z.of_nat n) by (set_unfold in Hn; lia).
  pose proof (Z.mod_pos_bound p (Z.of_nat n) ltac:(done)).
  assert (Hq : q mod Z.of_nat n = 0) by (unfold q; rewrite Zminus_mod_idemp_r, Z.sub_diag; apply Z.mod_0_l; lia).
  assert (Hk : (n ∈ [1; 2; 4; 8; 16])%nat) by set_solver.
  destruct (load_atomic_ok n m q Hq) as (x & Hx & Ex); [apply (block_mapped m p n); done || lia|].
  destruct (load_atomic_ok n m (q + Z.of_nat n)) as (y & Hy & Ey).
  { apply mod_add_0; [done | done | by apply Z.mod_same; lia]. }
  { apply (block_mapped m p n); try done; try lia. apply mod_add_0; [done | done | by apply Z.mod_same; lia]. }
  exists x, y. split_and!; [done | done | by eapply load_range | by eapply load_range |].
  pose proof (load_extract _ n m q _ (p mod Z.of_nat n) Hm (load_concat _ _ _ _ _ _ Hx Hy)) as He.
  replace (q + p mod Z.of_nat n) with p in He by lia. apply He; lia.
Qed.

Lemma al4x2_ok p : in_page m p 4 -> p mod 4 <> 0 -> loads 4 m p (load_atom_extract_al4x2 m p).
Proof.
  intros H Hp. destruct (straddle 4 p H) as (x & y & Ex & Ey & Hx & Hy & Hl); [set_solver | done |].
  eexists. split; [done|]. unfold load_atom_extract_al4x2. autorewrite with aligned.
  change (Z.of_nat 4) with 4 in *. rewrite Ex. simpl. rewrite Ey. simpl. f_equal.
  pose proof (Z.mod_pos_bound p 4 ltac:(lia)). change 31 with (Z.ones 5). rewrite Z.land_ones by lia.
  replace (- (p mod 4 * 8) mod 2 ^ 5) with (32 - 8 * (p mod 4)) by (apply (Z.mod_unique _ _ (-1)); lia).
  rewrite (Z.mul_comm _ 8). apply (al_x2 32); [lia | done | done].
Qed.

Lemma al8x2_ok p : in_page m p 8 -> p mod 8 <> 0 -> loads 8 m p (load_atom_extract_al8x2 m p).
Proof.
  intros H Hp. destruct (straddle 8 p H) as (x & y & Ex & Ey & Hx & Hy & Hl); [set_solver | done |].
  eexists. split; [done|]. unfold load_atom_extract_al8x2. autorewrite with aligned.
  change (Z.of_nat 8) with 8 in *. rewrite Ex. simpl. rewrite Ey. simpl. f_equal.
  pose proof (Z.mod_pos_bound p 8 ltac:(lia)). change 63 with (Z.ones 6). rewrite Z.land_ones by lia.
  replace (- (p mod 8 * 8) mod 2 ^ 6) with (64 - 8 * (p mod 8)) by (apply (Z.mod_unique _ _ (-1)); lia).
  rewrite (Z.mul_comm _ 8). apply (al_x2 64); [lia | done | done].
Qed.

(** The emulated 16-byte read leaves the memory alone. *)
Lemma read_rw_pure p : p mod 16 = 0 -> mapped m p 16 ->
  exists v, load 16 m p = Some v /\ atomic16_read_rw m p = Ok (m, v).
Proof.
  intros Hp Hm. destruct (load_total _ _ _ Hm) as [v Hv]. exists v. split; [done|].
  unfold atomic16_read_rw, atomic16_cmpxchg. rewrite Hp, Hv. simpl. by destruct (v =? 0).
Qed.

(** An access inside one aligned word of [k] bytes, extracted from it. *)
Lemma within k s p x : in_page m p s -> load k m (p - p mod Z.of_nat k) = Some x -> (0 < k)%nat ->
  p mod Z.of_nat k + Z.of_nat s <= Z.of_nat k ->
  load s m p = Some (uw (8 * Z.of_nat s) (Z.shiftr x (8 * (p mod Z.of_nat k)))).
Proof.
  intros (Hm & _) Hx Hk Hp. pose proof (Z.mod_pos_bound p (Z.of_nat k) ltac:(lia)).
  pose proof (load_extract k s m _ x (p mod Z.of_nat k) Hm Hx ltac:(lia) Hp) as He.
  by replace (p - p mod Z.of_nat k + p mod Z.of_nat k) with p in He by lia.
Qed.

Lemma aligned_down k p : 0 < k -> (p - p mod k) mod k = 0.
Proof. intros Hk. rewrite Zminus_mod_idemp_r, Z.sub_diag. apply Z.mod_0_l. lia. Qed.

Lemma al8_ok s p : in_page m p s -> (s = 2 \/ s = 4)%nat -> p mod 8 + Z.of_nat s <= 8 -> al8 = true ->
  exists x, load_atom_extract_al8_or_exit al8 m p = Ok x /\ load s m p = Some (uw (8 * Z.of_nat s) x) /\ is_u 32 x.
Proof.
  intros H Hs Hp ->. unfold load_atom_extract_al8_or_exit, load_atomic8_or_exit. autorewrite with aligned.
  pose proof (Z.mod_pos_bound p 8 ltac:(lia)).
  destruct (load_atomic_ok 8 m (p - p mod 8)) as (x & Hx & ->).
  { by apply aligned_down. }
  { apply (block_mapped m p s); [done | set_solver | by apply aligned_down | lia | change (Z.of_nat 8) with 8; lia]. }
  simpl. eexists. split_and!; [done | | by apply uw_range]. rewrite (within 8 s p x H Hx) by (change (Z.of_nat 8) with 8; lia). f_equal.
  change (Z.of_nat 8) with 8. rewrite (Z.mul_comm _ 8). symmetry. apply uw_uw_le. lia.
Qed.

Lemma al16_ok s p : in_page m p s -> (s = 2 \/ s = 4 \/ s = 8)%nat -> p mod 16 + Z.of_nat s <= 16 -> p mod 16 < 8 ->
  exists x, load_atom_extract_al16_or_exit m p = Ok x /\ load s m p = Some (uw (8 * Z.of_nat s) x) /\ is_u 64 x.
Proof.
  intros H Hs Hp Hp8. unfold load_atom_extract_al16_or_exit, load_atomic16_or_exit. autorewrite with aligned.
  assert (E8 : p mod 8 = p mod 16) by (Z.to_euclidean_division_equations; lia). rewrite E8.
  pose proof (Z.mod_pos_bound p 16 ltac:(lia)).
  destruct (read_rw_pure (p - p mod 16)) as (x & Hx & ->).
  { by apply aligned_down. }
  { apply (block_mapped m p s); [done | set_solver | by apply aligned_down | lia | change (Z.of_nat 16) with 16; lia]. }
  simpl. eexists. split_and!; [done | | by apply uw_range]. rewrite (within 16 s p x H Hx) by (change (Z.of_nat 16) with 16; lia). f_equal.
  change (Z.of_nat 16) with 16. rewrite (Z.mul_comm _ 8). symmetry. apply uw_uw_le. lia.
Qed.

(** The plain load, or an exit where 8-byte atomics are missing and other vCPUs run. *)
Definition served (n : nat) (p : Z) (r : res Z) : Prop :=
  loads n m p r \/ r = Exit /\ al8 = false /\ serial = false.

(** The sub-word of an extracted value. *)
Lemma loads_uw n p (r : res Z) x : r = Ok x -> load n m p = Some (uw (8 * Z.of_nat n) x) ->
  loads n m p (x ← r; Ok (uw (8 * Z.of_nat n) x)).
Proof. intros -> H. by eexists. Qed.

Lemma odd_within8 p : p mod 2 <> 0 -> p mod 16 + 2 <= 16 -> p mod 16 <> 7 -> p mod 8 + 2 <= 8.
Proof. intros. Z.to_euclidean_division_equations; lia. Qed.

Lemma load_atom_2_ok p memop : in_page m p 2 -> memop_ok memop MO_16 -> served 2 p (load_atom_2 al8 serial m p memop).
Proof.
  intros H Hop. unfold load_atom_2. autorewrite with aligned. destruct (Z.eqb_spec (p mod 2) 0) as [E|E].
  { left. apply load_atomic_ok; [done | by apply in_page_mapped]. }
  destruct (required_ok serial _ p memop Hop) as (a & -> & Ha); [done | apply H |]. unfold atomicity, MO_8, MO_16 in *. simpl.
  pose proof (Z.mod_pos_bound p 16 ltac:(lia)). change (2 ^ (1 - 1)) with 1 in *. change (2 ^ 1) with 2 in *.
  destruct Ha as [->|(Hs & Ha)]; [left; by apply plain_load_ok|].
  destruct Ha as [(-> & Ha)|[(Ha & _)|(-> & Ha)]]; [|lia | exfalso; Z.to_euclidean_division_equations; lia]. simpl.
  destruct Ha as [?|Ha]; [done|].
  destruct (Z.eqb_spec (p mod 4) 1) as [E4|E4].
  { left. destruct (load_atomic_ok 4 m (p - p mod 4)) as (x & Hx & Ex); [by apply aligned_down| |].
    - apply (block_mapped m p 2); [done | set_solver | by apply aligned_down | lia | change (Z.of_nat 4) with 4; lia].
    - rewrite E4 in Ex. rewrite Ex. eapply (loads_uw 2 p (Ok (Z.shiftr x 8))); [done|].
      rewrite (within 4 2 p x H Hx) by (change (Z.of_nat 4) with 4; lia). change (Z.of_nat 4) with 4. by rewrite E4. }
  destruct (Z.eqb_spec (p mod 16) 7) as [E7|E7]; simpl.
  - left. destruct (al16_ok 2 p H) as (x & Ex & Hx & Hux); [lia | lia | lia |]. by apply (loads_uw 2 p _ x).
  - destruct al8 eqn:E8; [left | by right].
    destruct (al8_ok 2 p H) as (x & Ex & Hx & Hux); [lia | by apply odd_within8 | done |]. rewrite E8 in Ex. by apply (loads_uw 2 p _ x).
Qed.

Lemma load_atom_4_ok p memop : in_page m p 4 -> memop_ok memop MO_32 -> served 4 p (load_atom_4 al8 serial m p memop).
Proof.
  intros H Hop. unfold load_atom_4. autorewrite with aligned. destruct (Z.eqb_spec (p mod 4) 0) as [E|E].
  { left. apply load_atomic_ok; [done | by apply in_page_mapped]. }
  destruct (required_ok serial _ p memop Hop) as (a & -> & Ha); [done | apply H |]. unfold atomicity, MO_8, MO_16, MO_32 in *. simpl.
  pose proof (Z.mod_pos_bound p 16 ltac:(lia)). change (2 ^ 2) with 4 in *.
  assert (Ha' : a = 0 \/ a = 1 \/ a = -1 \/ a = 2 /\ serial = false /\ p mod 16 + 4 <= 16).
  { destruct Ha as [->|(Hs & [(-> & [?|?])|[(? & _)|(-> & _)]])]; [by left | done | by right; right; right | right; left; lia | by right; right; left]. }
  destruct Ha' as [-> | [-> | [-> | (-> & Hs & Hw)]]]; [left; by apply al4x2_ok.. |]. simpl.
  assert (E4 : (Z.land p 4 =? 0) = (p mod 8 <? 4)).
  { change (Z.land p 4) with (Z.land p (Z.land 7 4)). rewrite Z.land_assoc, land_7. pose proof (Z.mod_pos_bound p 8 ltac:(lia)).
    assert (H8 : p mod 8 ∈ [0; 1; 2; 3; 4; 5; 6; 7]) by (rewrite !elem_of_cons; lia).
    set_unfold in H8. by destruct_or! H8; rewrite H8. }
  rewrite E4. destruct (Z.ltb_spec (p mod 8) 4).
  - destruct al8 eqn:E8; [left | by right].
    destruct (al8_ok 4 p H) as (x & Ex & Hx & Hux); [lia | lia | done |]. rewrite E8 in Ex. rewrite (uw_small _ x) in Hx by done. by exists x.
  - left. destruct (al16_ok 4 p H) as (x & Ex & Hx & Hux); [lia | lia | Z.to_euclidean_division_equations; lia |]. by apply (loads_uw 4 p _ x).
Qed.

Lemma load_atom_8_ok p memop : in_page m p 8 -> memop_ok memop MO_64 -> served 8 p (load_atom_8 al8 serial m p memop).
Proof.
  intros H Hop. unfold load_atom_8. autorewrite with aligned. destruct (al8 && (p mod 8 =? 0)) eqn:E.
  { left. apply andb_true_iff in E as [_ E]. apply load_atomic_ok; [by apply Z.eqb_eq | by apply in_page_mapped]. }
  assert (Hun : al8 = true -> p mod 8 <> 0) by (intros ->; simpl in E; by apply Z.eqb_neq).
  destruct (required_ok serial _ p memop Hop) as (a & -> & Ha); [done | apply H |]. unfold atomicity, MO_8, MO_16, MO_32, MO_64 in *. simpl.
  pose proof (Z.mod_pos_bound p 16 ltac:(lia)). change (2 ^ 3) with 8 in *.
  destruct Ha as [->|(Hs & [(-> & Ha)|[(Ha & Hd)|(-> & Ha)]])]; simpl.
  - left. by apply plain_load_ok.
  - destruct (Z.eqb_spec (p mod 8) 0) as [E8|E8].
    { destruct al8 eqn:Eal; [by destruct (Hun eq_refl) | by right]. }
    rewrite andb_false_r. left. destruct Ha as [?|Ha]; [done|].
    destruct (al16_ok 8 p H) as (x & Ex & Hx & Hux); [lia | lia | Z.to_euclidean_division_equations; lia |].
    rewrite (uw_small _ x) in Hx by done. by exists x.
  - assert (a = 1 \/ a = 2) as [-> | ->] by lia; simpl; left; [by apply load_8_by_2_ok | by apply load_8_by_4_ok].
  - destruct al8 eqn:Eal; [left; apply al8x2_ok; [done | by apply Hun] | by right].
Qed.

Lemma load_atom_16_ok p memop : in_page m p 16 -> memop_ok memop MO_128 -> served 16 p (load_atom_16 al8 serial m p memop).
Proof.
  intros H Hop. pose proof H as (Hm & _). unfold load_atom_16.
  assert (Hlo : in_page m p 8) by (eapply in_page_le; [done | lia]).
  assert (Hhi : in_page m (p + 8) 8) by (apply (in_page_sub p 16); done || lia).
  assert (Htwo : forall f, loads 8 m p (f m p) -> loads 8 m (p + 8) (f m (p + 8)) ->
    loads 16 m p (a ← f m p; b ← f m (p + 8); Ok (int128_make128 a b))).
  { intros f H1 H2. by apply (loads_two 8). }
  destruct (required_ok serial _ p memop Hop) as (a & -> & Ha); [done | apply H |].
  unfold atomicity, MO_8, MO_16, MO_32, MO_64, MO_128 in *. cbn [mbind res_bind].
  pose proof (Z.mod_pos_bound p 16 ltac:(lia)). change (2 ^ 4) with 16 in *. change (2 ^ (4 - 1)) with 8 in *.
  destruct Ha as [->|(Hs & [(-> & Ha)|[(Ha & Hd)|(-> & Ha)]])]; cbn [Z.eqb Pos.eqb Z.sub Z.opp Z.add Z.pos_sub Pos.pred_double].
  - left. by apply plain_load_ok.
  - left. destruct (read_rw_pure p) as (v & Hv & Er); [lia | by apply in_page_mapped |].
    exists v. split; [done|]. unfold load_atomic16_or_exit. by rewrite Er.
  - assert (a = 1 \/ a = 2 \/ a = 3) as [-> | [-> | ->]] by lia; simpl.
    + left. apply Htwo; apply load_8_by_2_ok; try done. by apply mod_add_0.
    + left. apply Htwo; apply load_8_by_4_ok; try done. by apply mod_add_0.
    + destruct al8 eqn:Eal; [left | by right]. apply Htwo; (apply load_atomic_ok; [|by apply in_page_mapped]); [done | by apply mod_add_0].
  - destruct al8 eqn:Eal; [left | by right]. assert (p mod 8 <> 0) by (Z.to_euclidean_division_equations; lia).
    apply Htwo; apply al8x2_ok; try done. by rewrite <- (Z.mul_1_l 8) at 1; rewrite Z.mod_add.
Qed.

End Loads.

(** ** Stores *)

(** [r] is the memory the plain store leaves. *)
Definition stores (n : nat) (m : mem) (p v : Z) (r : res mem) : Prop := exists m', store n m p v = Some m' /\ r = Ok m'.

Lemma in_page_store n m a v m' p k : store n m a v = Some m' -> in_page m p k -> in_page m' p k.
Proof.
  intros E (Hm & Hp & Hn & Hu). split_and!; [by eapply store_wf | | done | done]. intros q Hq.
  rewrite (store_lookup _ _ _ _ _ _ E). case_decide; [done | by apply Hp].
Qed.

Lemma store_atomic_ok n m q v : q mod Z.of_nat n = 0 -> mapped m q n -> stores n m q v (store_atomic n m q v).
Proof.
  intros Hq Hm. destruct (store_total n m q v Hm) as [m' Hv]. exists m'. split; [done|]. unfold store_atomic. by rewrite Hq, Hv.
Qed.

Lemma plain_store_ok n m p v : in_page m p n -> stores n m p v (acc (store n m p v)).
Proof. intros H. destruct (store_total n m p v (in_page_mapped _ _ _ H)) as [m' Hv]. exists m'. by rewrite Hv. Qed.

(** Storing what is there changes nothing. *)
Lemma store_same n m p v : mem_wf m -> load n m p = Some v -> store n m p v = Some m.
Proof.
  intros Hm Hl. destruct (store_total n m p v) as [m' E]; [apply load_is_Some; by eexists|]. rewrite E. f_equal. symmetry.
  apply (store_unique _ _ _ _ _ _ E). intros q. case_decide; [|done]. rewrite <- (load_byte _ _ _ _ (q - p) Hm Hl) by lia.
  by replace (p + (q - p)) with q by lia.
Qed.

(** A compare-and-swap with the value that is there. *)
Lemma cmpxchg_current m p old new : mem_wf m -> p mod 16 = 0 -> load 16 m p = Some old ->
  exists m', store 16 m p new = Some m' /\ atomic16_cmpxchg m p old new = Ok (m', old).
Proof.
  intros Hm Hp Hl. destruct (store_total 16 m p new) as [m' E]; [apply load_is_Some; by eexists|].
  exists m'. split; [done|]. unfold atomic16_cmpxchg. rewrite Hp, Hl. cbn [Z.eqb acc mbind res_bind]. rewrite Z.eqb_refl.
  destruct (Z.eqb_spec old new) as [<-|]; cbn [negb andb].
  - rewrite (store_same _ _ _ _ Hm Hl) in E. injection E as ->. reflexivity.
  - rewrite E. reflexivity.
Qed.

(** The compare-and-swap loop of a store ends in its first round when no other thread
    writes. *)
Lemma atomic16_set_ok fuel m p v : mem_wf m -> p mod 16 = 0 -> mapped m p 16 -> stores 16 m p v (atomic16_set (S fuel) m p v).
Proof.
  intros Hm Hp Hk. destruct (load_total _ _ _ Hk) as [old Hl]. cbn [atomic16_set]. rewrite Hl. cbn [acc mbind res_bind].
  destruct (cmpxchg_current m p old v Hm Hp Hl) as (m' & E & ->). simpl. rewrite Z.eqb_refl. by exists m'.
Qed.

(** The value shifted to its place in the wider word, and its mask. *)
Definition placed (s : nat) (o v x msk : Z) : Prop :=
  x = Z.shiftl (uw (8 * Z.of_nat s) v) (8 * o) /\ msk = Z.shiftl (Z.ones (8 * Z.of_nat s)) (8 * o).

Lemma insert_ok k s m q o v x msk : mem_wf m -> q mod Z.of_nat k = 0 -> mapped m q k -> 0 <= o -> o + Z.of_nat s <= Z.of_nat k ->
  placed s o v x msk -> stores s m (q + o) v (store_atom_insert k m q x msk).
Proof.
  intros Hm Hq Hk Ho Hs [-> Hmsk]. unfold store_atom_insert. destruct (load_atomic_ok k m q Hq Hk) as (old & Hl & ->). simpl.
  edestruct (store_atomic_ok k m q) as (m' & E & Er); [done | done |]. exists m'. split; [|exact Er].
  rewrite <- store_trunc. rewrite <- E. symmetry. apply store_merge; try done. apply uw_range. lia.
Qed.

Lemma insert16_ok s m q o v x msk : mem_wf m -> q mod 16 = 0 -> mapped m q 16 -> 0 <= o -> o + Z.of_nat s <= 16 ->
  placed s o v x msk -> stores s m (q + o) v (store_atom_insert_al16 m q x msk).
Proof.
  intros Hm Hq Hk Ho Hs [-> Hmsk]. unfold store_atom_insert_al16. destruct (load_total _ _ _ Hk) as [old Hl]. rewrite Hl.
  cbn [acc mbind res_bind insert16_loop].
  edestruct (cmpxchg_current m q old) as (m' & E & ->); [done | done | done |]. cbn [mbind res_bind]. rewrite Z.eqb_refl.
  exists m'. split; [|done]. rewrite <- store_trunc, <- E. symmetry. change 128 with (8 * Z.of_nat 16).
  apply store_merge; try done. apply uw_range. lia.
Qed.

Lemma mask64 s : 1 <= s <= 8 -> MAKE_64BIT_MASK 0 (s * 8) = Z.ones (8 * s).
Proof.
  intros Hs. assert (H : s ∈ [1; 2; 3; 4; 5; 6; 7; 8]) by (rewrite !elem_of_cons; lia).
  set_unfold in H. by destruct_or! H; subst s.
Qed.

(** A value shifted into a word: its upper bytes fall out at the end of the word, or it
    has none. *)
Lemma shift_fits w s o v : 0 <= s -> 0 <= o -> o + s = w \/ o + s <= w /\ is_u s v ->
  uw w (Z.shiftl v o) = Z.shiftl (uw s v) o.
Proof.
  intros Hs Ho H. apply Z.bits_inj'; intros i Hi. rewrite testbit_uw, !testbit_shiftl by lia.
  destruct (Z.lt_ge_cases i o); [by rewrite !(Z.testbit_neg_r _ (i - o)), andb_false_r by lia|].
  rewrite testbit_uw by lia. destruct H as [H | [H Hv]].
  - f_equal. destruct (Z.ltb_spec i w), (Z.ltb_spec (i - o) s); lia || done.
  - destruct (Z.ltb_spec (i - o) s).
    + by rewrite (proj2 (Z.ltb_lt i w)) by lia.
    + by rewrite (testbit_is_u s v), andb_false_r by done.
Qed.

Lemma ones_fit w s o : 0 <= s -> 0 <= o -> o + s <= w -> uw w (Z.shiftl (Z.ones s) o) = Z.shiftl (Z.ones s) o.
Proof.
  intros Hs Ho H. assert (Hu : is_u s (Z.ones s)) by (rewrite ones_uw by done; unfold is_u; pose proof (pow2_pos s Hs); lia).
  rewrite (shift_fits w s o) by (done || right; done). by rewrite (uw_small s) by done.
Qed.

(** The bytes of the value that fit: the store reaches the end of the word, or the value
    has no more bytes. *)
Definition word_fits (k s o v : Z) : Prop := o + s = k \/ o + s <= k /\ is_u (8 * s) v.

Lemma placed_ok k s o v : 0 <= o -> word_fits k (Z.of_nat s) o v ->
  placed s o v (uw (8 * k) (Z.shiftl v (o * 8))) (uw (8 * k) (Z.shiftl (Z.ones (8 * Z.of_nat s)) (o * 8))).
Proof.
  intros Ho Hf. rewrite (Z.mul_comm o 8). split; [apply shift_fits; [lia | lia |] | apply ones_fit; destruct Hf as [?|[? _]]; lia].
  destruct Hf as [?|[? ?]]; [left; lia | right; split; [lia | done]].
Qed.

Lemma word_fits_le k s o v : word_fits k s o v -> o + s <= k.
Proof. intros [?|[? _]]; lia. Qed.

(** The aligned word of [k] bytes around an access. *)
Lemma word_mapped m p s k : in_page m p s -> (1 <= s)%nat -> (k ∈ [1; 2; 4; 8; 16])%nat -> mapped m (p - p mod Z.of_nat k) k.
Proof.
  intros H Hs Hk. assert (0 < Z.of_nat k) by (set_unfold in Hk; lia). pose proof (Z.mod_pos_bound p (Z.of_nat k) ltac:(done)).
  apply (block_mapped m p s); [done | done | by apply aligned_down | lia | lia].
Qed.

Lemma mask32 s : 1 <= s <= 4 -> u32 (MAKE_64BIT_MASK 0 (s * 8)) = Z.ones (8 * s).
Proof.
  intros Hs. assert (H : s ∈ [1; 2; 3; 4]) by (rewrite !elem_of_cons; lia). set_unfold in H. by destruct_or! H; subst s.
Qed.

Lemma mask128 s : 1 <= s <= 16 ->
  (if s * 8 <=? 64 then MAKE_64BIT_MASK 0 (s * 8) else int128_make128 (u64 (-1)) (MAKE_64BIT_MASK 0 (s * 8 - 64))) = Z.ones (8 * s).
Proof.
  intros Hs. assert (H : s ∈ [1; 2; 3; 4; 5; 6; 7; 8; 9; 10; 11; 12; 13; 14; 15; 16]) by (rewrite !elem_of_cons; lia).
  set_unfold in H. by destruct_or! H; subst s.
Qed.

Lemma whole_le4_ok m p s v n : in_page m p s -> (1 <= s)%nat -> word_fits 4 (Z.of_nat s) (p mod 4) v -> n = Z.of_nat s ->
  exists m', store s m p v = Some m' /\ store_whole_le4 m p n v = Ok (m', Z.shiftr v (8 * n)).
Proof.
  intros H Hs Hf ->. pose proof (Z.mod_pos_bound p 4 ltac:(lia)). pose proof (word_fits_le _ _ _ _ Hf).
  unfold store_whole_le4. autorewrite with aligned. rewrite mask32 by lia.
  destruct (insert_ok 4 s m (p - p mod 4) (p mod 4) v _ _ (proj1 H) (aligned_down 4 p eq_refl) (word_mapped m p s 4 H Hs ltac:(set_solver))
    ltac:(lia) ltac:(done) (placed_ok 4 s (p mod 4) v ltac:(lia) Hf)) as (m' & E & Er).
  change (8 * 4) with 32 in Er. rewrite Er.
  replace (p - p mod 4 + p mod 4) with p in E by lia. exists m'. by rewrite (Z.mul_comm 8).
Qed.

Lemma whole_le8_ok m p s v n : in_page m p s -> (1 <= s)%nat -> word_fits 8 (Z.of_nat s) (p mod 8) v -> n = Z.of_nat s ->
  exists m', store s m p v = Some m' /\ store_whole_le8 m p n v = Ok (m', Z.shiftr v (8 * n)).
Proof.
  intros H Hs Hf ->. pose proof (Z.mod_pos_bound p 8 ltac:(lia)). pose proof (word_fits_le _ _ _ _ Hf).
  unfold store_whole_le8. autorewrite with aligned. rewrite mask64 by lia.
  destruct (insert_ok 8 s m (p - p mod 8) (p mod 8) v _ _ (proj1 H) (aligned_down 8 p eq_refl) (word_mapped m p s 8 H Hs ltac:(set_solver))
    ltac:(lia) ltac:(done) (placed_ok 8 s (p mod 8) v ltac:(lia) Hf)) as (m' & E & Er).
  change (8 * 8) with 64 in Er. rewrite Er.
  replace (p - p mod 8 + p mod 8) with p in E by lia. exists m'. by rewrite (Z.mul_comm 8).
Qed.

Lemma whole_le16_ok m p s v n : in_page m p s -> (1 <= s)%nat -> word_fits 16 (Z.of_nat s) (p mod 16) v -> n = Z.of_nat s ->
  exists m', store s m p v = Some m' /\ store_whole_le16 m p n v = Ok (m', if n <=? 8 then 0 else Z.shiftr v (8 * n)).
Proof.
  intros H Hs Hf ->. pose proof (Z.mod_pos_bound p 16 ltac:(lia)). pose proof (word_fits_le _ _ _ _ Hf).
  unfold store_whole_le16. autorewrite with aligned. rewrite mask128 by lia.
  destruct (insert16_ok s m (p - p mod 16) (p mod 16) v _ _ (proj1 H) (aligned_down 16 p eq_refl) (word_mapped m p s 16 H Hs ltac:(set_solver))
    ltac:(lia) ltac:(done) (placed_ok 16 s (p mod 16) v ltac:(lia) Hf)) as (m' & E & Er).
  change (8 * 16) with 128 in Er. rewrite Er.
  replace (p - p mod 16 + p mod 16) with p in E by lia. exists m'. split; [done|]. cbn [mbind res_bind]. do 2 f_equal.
  destruct (Z.leb_spec (Z.of_nat s * 8) 64), (Z.leb_spec (Z.of_nat s) 8); try (done || lia).
  rewrite Z.shiftr_shiftr by lia. f_equal. lia.
Qed.

Lemma bytes_ok n m p v : mapped m p n -> exists m', store n m p v = Some m' /\ store_bytes_leN m p n v = Ok (m', Z.shiftr v (8 * Z.of_nat n)).
Proof.
  revert m p v. induction n as [|n IH]; intros m p v H.
  { exists m. split; [done|]. cbn [store_bytes_leN]. by rewrite Z.mul_0_r, Z.shiftr_0_r. }
  pose proof (store_concat 1 n m p v) as Ec. cbn [Nat.add] in Ec. rewrite Ec. cbn [store_bytes_leN].
  rewrite mapped_cons in H. destruct H as [H0 H1].
  destruct (store_total 1 m p v) as [m1 E1].
  { apply mapped_cons. split; [done | intros i Hi; lia]. }
  assert (E1' : store 1 m p (u8 v) = Some m1) by (by rewrite <- E1, <- (store_trunc 1 m p v)). rewrite E1, E1'. simpl.
  destruct (IH m1 (p + 1) (Z.shiftr v 8)) as (m' & E & Er); [by eapply store_mapped|].
  change (Z.of_nat 1) with 1. change (8 * 1) with 8. rewrite E, Er. exists m'. split; [done|]. do 2 f_equal.
  rewrite Z.shiftr_shiftr by lia. f_equal. lia.
Qed.

Lemma stores_uw n m p v r : stores n m p (uw (8 * Z.of_nat n) v) r <-> stores n m p v r.
Proof. unfold stores. by rewrite store_trunc. Qed.

(** Two adjacent stores. *)
Lemma stores_seq a b m p v r f : stores a m p v r ->
  (forall m1, store a m p v = Some m1 -> stores b m1 (p + Z.of_nat a) (Z.shiftr v (8 * Z.of_nat a)) (f m1)) ->
  stores (a + b) m p v (m1 ← r; f m1).
Proof.
  intros (m1 & E & ->) Hf. destruct (Hf m1 E) as (m' & E' & Er). exists m'. split; [|done]. by rewrite store_concat, E.
Qed.

#[local] Arguments store_atom_insert : simpl never.
#[local] Arguments store_atom_insert_al16 : simpl never.
#[local] Arguments MAKE_64BIT_MASK : simpl never.
#[local] Arguments Z.shiftl : simpl never.
#[local] Arguments uw : simpl never.
#[local] Arguments store : simpl never.
#[local] Arguments load : simpl never.

Lemma stores_after a b m p v m1 r : store a m p v = Some m1 -> stores b m1 (p + Z.of_nat a) (Z.shiftr v (8 * Z.of_nat a)) r ->
  stores (a + b) m p v r.
Proof. intros E (m' & E' & Er). exists m'. split; [|done]. by rewrite store_concat, E. Qed.

Section Stores.
Context (al8 serial : bool).

Definition stored (n : nat) (m : mem) (p v : Z) (r : res mem) : Prop :=
  stores n m p v r \/ r = Exit /\ al8 = false /\ serial = false.

(** A store of [2 n] bytes by two aligned stores of [n]. *)
Lemma store_by_two n m p v : in_page m p (n + n) -> (n ∈ [1; 2; 4; 8])%nat -> p mod Z.of_nat n = 0 ->
  stores (n + n) m p v (m1 ← store_atomic n m p (uw (8 * Z.of_nat n) v);
                        store_atomic n m1 (p + Z.of_nat n) (uw (8 * Z.of_nat n) (Z.shiftr v (8 * Z.of_nat n)))).
Proof.
  intros H Hn Hp. assert (0 < Z.of_nat n) by (set_unfold in Hn; lia). apply stores_seq.
  - apply stores_uw, store_atomic_ok; [done|]. apply in_page_mapped. eapply in_page_le; [done | lia].
  - intros m1 E. apply stores_uw, store_atomic_ok; [apply mod_add_0; [done | done | by apply Z.mod_same; lia]|].
    apply in_page_mapped. eapply in_page_store; [done|]. eapply in_page_sub; [done | lia | lia | lia].
Qed.

Lemma store_4_by_2_ok m p v : in_page m p 4 -> p mod 2 = 0 -> stores 4 m p v (store_atom_4_by_2 m p v).
Proof. intros H Hp. apply (store_by_two 2 m p v H); [set_solver | done]. Qed.

Lemma store_8_by_4_ok m p v : in_page m p 8 -> p mod 4 = 0 -> stores 8 m p v (store_atom_8_by_4 m p v).
Proof. intros H Hp. apply (store_by_two 4 m p v H); [set_solver | done]. Qed.

Lemma store_8_by_2_ok m p v : in_page m p 8 -> p mod 2 = 0 -> stores 8 m p v (store_atom_8_by_2 m p v).
Proof.
  intros H Hp. apply (stores_seq 4 4).
  - rewrite <- stores_uw. change (8 * Z.of_nat 4) with 32. apply store_4_by_2_ok; [eapply in_page_le; [done | lia] | done].
  - intros m1 E. rewrite <- stores_uw. change (8 * Z.of_nat 4) with 32. change (Z.of_nat 4) with 4.
    apply store_4_by_2_ok; [|by apply mod_add_0].
    eapply in_page_store; [exact E|]. apply (in_page_sub m p 8); [done | lia | change (Z.of_nat 4) with 4; change (Z.of_nat 8) with 8; lia | lia].
Qed.

(** Merging 2 bytes into an aligned word. *)
Lemma store_atom_2_ok m p memop v : in_page m p 2 -> memop_ok memop MO_16 -> is_u 16 v ->
  stored 2 m p v (store_atom_2 al8 serial m p memop v).
Proof.
  intros H Hop Hv. unfold store_atom_2. autorewrite with aligned. destruct (Z.eqb_spec (p mod 2) 0) as [E|E].
  { left. apply store_atomic_ok; [done | by apply in_page_mapped]. }
  destruct (required_ok serial _ p memop Hop) as (a & -> & Ha); [done | apply H |]. unfold atomicity, MO_8, MO_16 in *. simpl.
  pose proof (Z.mod_pos_bound p 16 ltac:(lia)). change (2 ^ (1 - 1)) with 1 in *. change (2 ^ 1) with 2 in *.
  destruct Ha as [->|(Hs & Ha)]; [left; by apply plain_store_ok|].
  destruct Ha as [(-> & Ha)|[(Ha & _)|(-> & Ha)]]; [|lia | exfalso; Z.to_euclidean_division_equations; lia]. simpl.
  destruct Ha as [?|Ha]; [done|].
  assert (Hfit : forall k, p mod k + 2 <= k -> word_fits k (Z.of_nat 2) (p mod k) v) by (intros k Hk; right; by split).
  assert (Hback : forall k, p - p mod k + p mod k = p) by (intros; lia).
  destruct (Z.eqb_spec (p mod 4) 1) as [E4|E4].
  { left. pose proof (insert_ok 4 2 m (p - p mod 4) (p mod 4) v _ _ (proj1 H) (aligned_down 4 p eq_refl) (word_mapped m p 2 4 H ltac:(lia) ltac:(set_solver))
      ltac:(lia) ltac:(change (Z.of_nat 4) with 4; lia) (placed_ok 4 2 (p mod 4) v ltac:(lia) (Hfit 4 ltac:(lia)))) as Hi.
    rewrite Hback, E4 in Hi. exact Hi. }
  destruct (Z.eqb_spec (p mod 8) 3) as [E8|E8].
  { destruct al8 eqn:Eal; [left | by right].
    pose proof (insert_ok 8 2 m (p - p mod 8) (p mod 8) v _ _ (proj1 H) (aligned_down 8 p eq_refl) (word_mapped m p 2 8 H ltac:(lia) ltac:(set_solver))
      ltac:(lia) ltac:(change (Z.of_nat 8) with 8; lia) (placed_ok 8 2 (p mod 8) v ltac:(lia) (Hfit 8 ltac:(lia)))) as Hi.
    rewrite Hback, E8 in Hi. exact Hi. }
  assert (E16 : p mod 16 = 7) by (Z.to_euclidean_division_equations; lia). rewrite (proj2 (Z.eqb_eq _ _) E16).
  left. pose proof (insert16_ok 2 m (p - p mod 16) (p mod 16) v _ _ (proj1 H) (aligned_down 16 p eq_refl) (word_mapped m p 2 16 H ltac:(lia) ltac:(set_solver))
    ltac:(lia) ltac:(lia) (placed_ok 16 2 (p mod 16) v ltac:(lia) (Hfit 16 ltac:(lia)))) as Hi.
  rewrite Hback, E16 in Hi. exact Hi.
Qed.

(** What a call that also returns the rest of the value stores. *)
Lemma stores_fst n m p v (r : res (mem * Z)) m' x : store n m p v = Some m' -> r = Ok (m', x) -> stores n m p v ('(m, _) ← r; Ok m).
Proof. intros E ->. by exists m'. Qed.

Lemma store_atom_4_ok m p memop v : in_page m p 4 -> memop_ok memop MO_32 -> is_u 32 v ->
  stored 4 m p v (store_atom_4 al8 serial m p memop v).
Proof.
  intros H Hop Hv. unfold store_atom_4. autorewrite with aligned. destruct (Z.eqb_spec (p mod 4) 0) as [E|E].
  { left. apply store_atomic_ok; [done | by apply in_page_mapped]. }
  destruct (required_ok serial _ p memop Hop) as (a & -> & Ha); [done | apply H |]. unfold atomicity, MO_8, MO_16, MO_32 in *.
  cbn [mbind res_bind]. pose proof (Z.mod_pos_bound p 16 ltac:(lia)). pose proof (Z.mod_pos_bound p 8 ltac:(lia)).
  change (2 ^ 2) with 4 in *. change (2 ^ (2 - 1)) with 2 in *.
  destruct Ha as [->|(Hs & [(-> & Ha)|[(Ha & Hd)|(-> & Ha)]])]; cbn [Z.eqb Pos.eqb Z.sub Z.opp Z.add Z.pos_sub Pos.pred_double].
  - left. by apply plain_store_ok.
  - destruct Ha as [?|Ha]; [done|]. destruct (Z.ltb_spec (p mod 8) 4).
    + destruct al8 eqn:Eal; [left | by right].
      destruct (whole_le8_ok m p 4 v 4 H) as (m' & Es & Er); [lia | right; split; [change (Z.of_nat 4) with 4; lia | done] | done |]. by eapply stores_fst.
    + left. destruct (whole_le16_ok m p 4 v 4 H) as (m' & Es & Er); [lia | right; split; [change (Z.of_nat 4) with 4; lia | done] | done |]. by eapply stores_fst.
  - assert (a = 1) as -> by lia. left. by apply store_4_by_2_ok.
  - left. assert (E13 : p mod 4 = 1 \/ p mod 4 = 3) by (Z.to_euclidean_division_equations; lia).
    destruct E13 as [E1|E3]; [rewrite E1 | rewrite E3]; cbn [Z.eqb Pos.eqb Z.sub Z.opp Z.add Z.pos_sub Pos.pred_double Pos.pred].
    + destruct (whole_le4_ok m p 3 v 3) as (m' & Es & Er); [eapply in_page_le; [done | lia] | lia | left; rewrite E1; done | done |].
      change (4 - 1) with 3. rewrite Er. apply (stores_seq 3 1 m p v (Ok m') (fun m1 => acc (store 1 m1 (p + 3) (u8 (Z.shiftr v (8 * 3)))))); [by exists m'|].
      intros m1 E'. apply (stores_uw 1), plain_store_ok. eapply in_page_store; [done|]. eapply in_page_sub; [done | lia | done | lia].
    + apply (stores_seq 1 3 m p v (acc (store 1 m p (u8 v))) (fun m => '(m0, _) ← store_whole_le4 m (p + 1) 3 (Z.shiftr v 8); Ok m0)).
      * apply (stores_uw 1), plain_store_ok. eapply in_page_le; [done | lia].
      * intros m1 E'. assert (E0 : (p + 1) mod 4 = 0) by (Z.to_euclidean_division_equations; lia).
        destruct (whole_le4_ok m1 (p + 1) 3 (Z.shiftr v 8) 3) as (m' & Es & Er).
        -- eapply in_page_store; [done|]. eapply in_page_sub; [done | lia | done | lia].
        -- lia.
        -- right. rewrite E0. split; [done|]. unfold is_u in *. rewrite Z.shiftr_div_pow2 by lia. split; [apply Z.div_pos; lia | apply Z.div_lt_upper_bound; lia].
        -- done.
        -- by eapply stores_fst.
Qed.

(** A store split at the boundary of an aligned word: the part up to the boundary by one
    access to the word ([whole]), the rest byte by byte; or the other way round. *)
Lemma whole_then_bytes n s1 s2 m p v (r : res (mem * Z)) m1 : in_page m p n -> Z.of_nat n = s1 + s2 -> 0 <= s1 -> 0 < s2 ->
  store (Z.to_nat s1) m p v = Some m1 -> r = Ok (m1, Z.shiftr v (8 * s1)) ->
  stores n m p v ('(m, val_le) ← r; '(m, _) ← store_bytes_leN m (p + s1) (Z.to_nat s2) val_le; Ok m).
Proof.
  intros H Hn H1 H2 E ->. cbn [mbind res_bind]. assert (Hz : Z.of_nat (Z.to_nat s1) = s1) by lia.
  replace n with (Z.to_nat s1 + Z.to_nat s2)%nat by lia. apply (stores_after _ _ _ _ _ _ _ E). rewrite Hz.
  destruct (bytes_ok (Z.to_nat s2) m1 (p + s1) (Z.shiftr v (8 * s1))) as (m' & Es & Er).
  - apply in_page_mapped. eapply in_page_store; [done|]. eapply in_page_sub; [done | lia | lia | lia].
  - rewrite Er. by exists m'.
Qed.

Lemma bytes_then_whole n s1 s2 m p v w f : in_page m p n -> Z.of_nat n = s1 + s2 -> 0 <= s1 -> 0 < s2 -> uw (8 * s1) w = uw (8 * s1) v ->
  (forall m1, in_page m1 (p + s1) (Z.to_nat s2) -> stores (Z.to_nat s2) m1 (p + s1) (Z.shiftr v (8 * s1)) (f (m1, Z.shiftr w (8 * s1)))) ->
  stores n m p v (m2 ← store_bytes_leN m p (Z.to_nat s1) w; f m2).
Proof.
  intros H Hn H1 H2 Hw Hf. assert (Hz : Z.of_nat (Z.to_nat s1) = s1) by lia.
  destruct (bytes_ok (Z.to_nat s1) m p w) as (m1 & Es & Er); [apply in_page_mapped; eapply in_page_le; [done | lia]|].
  rewrite Er. cbn [mbind res_bind]. pose proof (store_trunc (Z.to_nat s1) m p) as Hu. rewrite Hz in Hu. rewrite <- Hu, Hw, Hu in Es.
  replace n with (Z.to_nat s1 + Z.to_nat s2)%nat by lia. apply (stores_after _ _ _ _ _ _ _ Es). rewrite Hz. apply Hf.
  eapply in_page_store; [done|]. eapply in_page_sub; [done | lia | lia | lia].
Qed.

Lemma shiftr_fits s1 s2 v : 0 <= s1 -> 0 <= s2 -> is_u (8 * (s1 + s2)) v -> is_u (8 * s2) (Z.shiftr v (8 * s1)).
Proof.
  intros H1 H2 Hv. unfold is_u in *. rewrite Z.shiftr_div_pow2 by lia. replace (8 * (s1 + s2)) with (8 * s1 + 8 * s2) in Hv by lia.
  rewrite Z.pow_add_r in Hv by lia. pose proof (pow2_pos (8 * s1)). split; [apply Z.div_pos; lia | apply Z.div_lt_upper_bound; lia].
Qed.

Lemma store_atom_8_ok m p memop v : in_page m p 8 -> memop_ok memop MO_64 -> is_u 64 v ->
  stored 8 m p v (store_atom_8 al8 serial m p memop v).
Proof.
  intros H Hop Hv. unfold store_atom_8. autorewrite with aligned. destruct (al8 && (p mod 8 =? 0)) eqn:E.
  { left. apply andb_true_iff in E as [_ E]. apply store_atomic_ok; [by apply Z.eqb_eq | by apply in_page_mapped]. }
  destruct (required_ok serial _ p memop Hop) as (a & -> & Ha); [done | apply H |]. unfold atomicity, MO_8, MO_16, MO_32, MO_64 in *.
  cbn [mbind res_bind]. pose proof (Z.mod_pos_bound p 16 ltac:(lia)). pose proof (Z.mod_pos_bound p 8 ltac:(lia)).
  change (2 ^ 3) with 8 in *. change (2 ^ (3 - 1)) with 4 in *.
  destruct Ha as [->|(Hs & [(-> & Ha)|[(Ha & Hd)|(-> & Ha)]])]; cbn [Z.eqb Pos.eqb Z.sub Z.opp Z.add Z.pos_sub Pos.pred_double].
  - left. by apply plain_store_ok.
  - left. assert (Hw : p mod 16 + 8 <= 16) by (destruct Ha; [Z.to_euclidean_division_equations; lia | done]).
    destruct (whole_le16_ok m p 8 v 8 H) as (m' & Es & Er); [lia | by right | done |]. by eapply stores_fst.
  - assert (a = 1 \/ a = 2) as [-> | ->] by lia; left; [by apply store_8_by_2_ok | by apply store_8_by_4_ok].
  - destruct al8 eqn:Eal; [left | by right].
    assert (Hm8 : 1 <= p mod 8 <= 3 \/ 5 <= p mod 8 <= 7) by (clear - Ha H0 H1; Z.to_euclidean_division_equations; lia).
    destruct Hm8 as [Hm8|Hm8].
    + rewrite (proj2 (Z.leb_le 1 (p mod 8))), (proj2 (Z.leb_le (p mod 8) 3)) by lia. cbn [andb].
      destruct (whole_le8_ok m p (Z.to_nat (8 - p mod 8)) v (8 - p mod 8)) as (m' & Es & Er);
        [eapply in_page_le; [done | lia] | lia | left; lia | lia |].
      eapply whole_then_bytes; [done | lia | lia | lia | done | done].
    + rewrite (proj2 (Z.leb_gt (p mod 8) 3)), (proj2 (Z.leb_le 5 (p mod 8))), (proj2 (Z.leb_le (p mod 8) 7)), andb_false_r by lia. cbn [andb].
      apply bytes_then_whole with (s2 := p mod 8); [done | lia | lia | lia | done |].
      intros m1 Hp1. assert (E0 : (p + (8 - p mod 8)) mod 8 = 0) by (clear; Z.to_euclidean_division_equations; lia).
      destruct (whole_le8_ok m1 (p + (8 - p mod 8)) (Z.to_nat (p mod 8)) (Z.shiftr v (8 * (8 - p mod 8))) (p mod 8)) as (m' & Es & Er);
        [done | lia | right; rewrite E0; split; [lia|]; apply shiftr_fits; [lia | lia |] | lia |].
      { by replace (8 * (8 - p mod 8 + Z.of_nat (Z.to_nat (p mod 8)))) with 64 by lia. }
      by eapply stores_fst.
Qed.

Lemma store_atom_16_ok m p memop v : in_page m p 16 -> memop_ok memop MO_128 -> is_u 128 v ->
  stored 16 m p v (store_atom_16 al8 serial m p memop v).
Proof.
  intros H Hop Hv. unfold store_atom_16.
  assert (Hlo : in_page m p 8) by (eapply in_page_le; [done | lia]).
  assert (Hhi : forall m1, store 8 m p v = Some m1 -> in_page m1 (p + 8) 8)
    by (intros m1 E; eapply in_page_store; [done|]; apply (in_page_sub m p 16); done || lia).
  assert (Htwo : forall f : mem -> Z -> Z -> res mem, stores 8 m p (u64 v) (f m p (u64 v)) ->
    (forall m1, in_page m1 (p + 8) 8 -> stores 8 m1 (p + 8) (Z.shiftr v 64) (f m1 (p + 8) (Z.shiftr v 64))) ->
    stores 16 m p v (m ← f m p (u64 v); f m (p + 8) (Z.shiftr v 64))).
  { intros f (m1 & E & ->) H2. cbn [mbind res_bind]. change 64 with (8 * Z.of_nat 8) in E. rewrite store_trunc in E.
    apply (stores_after 8 8 m p v m1 _ E). change (Z.of_nat 8) with 8. change (8 * 8) with 64. by apply H2, Hhi. }
  destruct (required_ok serial _ p memop Hop) as (a & -> & Ha); [done | apply H |].
  unfold atomicity, MO_8, MO_16, MO_32, MO_64, MO_128 in *. cbn [mbind res_bind]. autorewrite with aligned.
  pose proof (Z.mod_pos_bound p 16 ltac:(lia)). change (2 ^ 4) with 16 in *. change (2 ^ (4 - 1)) with 8 in *.
  destruct Ha as [->|(Hs & [(-> & Ha)|[(Ha & Hd)|(-> & Ha)]])]; cbn [Z.eqb Pos.eqb Z.sub Z.opp Z.add Z.pos_sub Pos.pred_double].
  - left. by apply plain_store_ok.
  - left. apply atomic16_set_ok; [apply H | lia | by apply in_page_mapped].
  - assert (a = 1 \/ a = 2 \/ a = 3) as [-> | [-> | ->]] by lia; cbn [Z.eqb Pos.eqb].
    + left. apply (Htwo store_atom_8_by_2); [by apply store_8_by_2_ok | intros; apply store_8_by_2_ok; [done | by apply mod_add_0]].
    + left. apply (Htwo store_atom_8_by_4); [by apply store_8_by_4_ok | intros; apply store_8_by_4_ok; [done | by apply mod_add_0]].
    + destruct al8 eqn:Eal; [left | by right].
      apply (Htwo (store_atomic 8)); [apply store_atomic_ok; [done | by apply in_page_mapped]|].
      intros. apply store_atomic_ok; [by apply mod_add_0 | by apply in_page_mapped].
  - left. assert (Hm16 : 1 <= p mod 16 <= 7 \/ 9 <= p mod 16 <= 15) by lia. destruct Hm16 as [Hm16|Hm16].
    + rewrite (proj2 (Z.leb_le 1 (p mod 16))), (proj2 (Z.leb_le (p mod 16) 7)) by lia. cbn [andb].
      destruct (whole_le16_ok m p (Z.to_nat (16 - p mod 16)) v (16 - p mod 16)) as (m' & Es & Er);
        [eapply in_page_le; [exact H | lia] | lia | left; lia | lia |].
      rewrite (proj2 (Z.leb_gt (16 - p mod 16) 8)) in Er by lia.
      eapply whole_then_bytes; [done | lia | lia | lia | done | done].
    + rewrite (proj2 (Z.leb_gt (p mod 16) 7)), (proj2 (Z.leb_le 9 (p mod 16))), (proj2 (Z.leb_le (p mod 16) 15)), andb_false_r by lia. cbn [andb].
      eapply (bytes_then_whole 16 (16 - p mod 16) (p mod 16) m p v (u64 v) (fun '(m0, _) => '(m1, _) ← store_whole_le16 m0 (p + (16 - p mod 16)) (p mod 16) (Z.shiftr v ((16 - p mod 16) * 8)); Ok m1));
        [done | lia | lia | lia | apply uw_uw_le; lia |].
      intros m1 Hp1. assert (E0 : (p + (16 - p mod 16)) mod 16 = 0) by (clear; Z.to_euclidean_division_equations; lia).
      rewrite (Z.mul_comm _ 8).
      destruct (whole_le16_ok m1 (p + (16 - p mod 16)) (Z.to_nat (p mod 16)) (Z.shiftr v (8 * (16 - p mod 16))) (p mod 16)) as (m' & Es & Er);
        [done | lia | right; rewrite E0; split; [lia|]; apply shiftr_fits; [lia | lia |] | lia |].
      { by replace (8 * (16 - p mod 16 + Z.of_nat (Z.to_nat (p mod 16)))) with 128 by lia. }
      by eapply stores_fst.
Qed.

End Stores.

(** ** Every width *)

(** The routine for an access of [2 ^ lg] bytes. *)
Definition load_atom (al8 serial : bool) (lg : nat) : mem -> Z -> Z -> res Z :=
  match lg with
  | 1 => load_atom_2 al8 serial
  | 2 => load_atom_4 al8 serial
  | 3 => load_atom_8 al8 serial
  | _ => load_atom_16 al8 serial
  end%nat.

Definition store_atom (al8 serial : bool) (lg : nat) : mem -> Z -> Z -> Z -> res mem :=
  match lg with
  | 1 => store_atom_2 al8 serial
  | 2 => store_atom_4 al8 serial
  | 3 => store_atom_8 al8 serial
  | _ => store_atom_16 al8 serial
  end%nat.

(** C19: Every 2-, 4-, 8- and 16-byte access to a page of RAM, at any alignment and with
    any of the six atomicities, reads exactly the bytes at its address in little-endian
    order and a store changes exactly those bytes to the value's, although the code
    reads, shifts and merges whole aligned words around them; no access is misaligned or
    leaves the page and no assertion fails.  Only a host without 8-byte atomics, with
    other vCPUs running, leaves to run the instruction exclusively: with them, the
    emulated 16-byte compare-and-swap serves every case. *)
Theorem host_access_exact al8 serial lg m p memop v :
  (1 <= lg <= 4)%nat -> in_page m p (2 ^ lg) -> memop_ok memop (Z.of_nat lg) -> is_u (8 * 2 ^ Z.of_nat lg) v ->
  served al8 serial m (2 ^ lg) p (load_atom al8 serial lg m p memop)
  /\ stored al8 serial (2 ^ lg) m p v (store_atom al8 serial lg m p memop v).
Proof.
  intros Hlg H Hop Hv. assert (lg = 1 \/ lg = 2 \/ lg = 3 \/ lg = 4)%nat as [-> | [-> | [-> | ->]]] by lia.
  - split; [by apply load_atom_2_ok | by apply store_atom_2_ok].
  - split; [by apply load_atom_4_ok | by apply store_atom_4_ok].
  - split; [by apply load_atom_8_ok | by apply store_atom_8_ok].
  - split; [by apply load_atom_16_ok | by apply store_atom_16_ok].
Qed.

(** ** A page of memory *)

Definition page_mem (base : Z) : mem := list_to_map ((fun q => (q, q mod 256)) <$> seqZ base 4096).

Lemma bytes_lookup base n q : base <= q < base + n ->
  (list_to_map ((fun q => (q, q mod 256)) <$> seqZ base n) : mem) !! q = Some (q mod 256).
Proof.
  intros Hq. apply elem_of_list_to_map_1.
  - rewrite <- list_fmap_compose. change (fst ∘ _) with (fun q : Z => q). rewrite list_fmap_id. apply NoDup_seqZ.
  - apply list_elem_of_fmap. exists q. split; [done | by apply elem_of_seqZ].
Qed.

Lemma bytes_wf base n : mem_wf (list_to_map ((fun q => (q, q mod 256)) <$> seqZ base n)).
Proof.
  intros a b H%elem_of_list_to_map_2. apply list_elem_of_fmap in H as (q & [= -> ->] & _). apply Z.mod_pos_bound. lia.
Qed.

Lemma page_mem_lookup base q : base <= q < base + 4096 -> page_mem base !! q = Some (q mod 256).
Proof. apply bytes_lookup. Qed.

Lemma page_mem_wf base : mem_wf (page_mem base).
Proof. apply bytes_wf. Qed.

Lemma page_mem_page base p n : base mod 4096 = 0 -> base <= p -> p + Z.of_nat n <= base + 4096 -> (0 < n)%nat -> is_u 32 p -> in_page (page_mem base) p n.
Proof.
  intros Hb H1 H2 Hn Hu. assert (Hd : p / 4096 = base / 4096).
  { pose proof (Z.div_mod base 4096 ltac:(lia)). symmetry. apply (Z.div_unique _ _ _ (p - base)); lia. }
  pose proof (Z.div_mod base 4096 ltac:(lia)). pose proof (Z.div_mod p 4096 ltac:(lia)).
  split_and!; [apply page_mem_wf | | lia | done]. intros q Hq. rewrite page_mem_lookup; [by eexists|].
  pose proof (Z.div_mod q 4096 ltac:(lia)). pose proof (Z.mod_pos_bound q 4096 ltac:(lia)). lia.
Qed.

(** An 8-byte access across an 8-byte boundary, each half atomic within 16 bytes. *)
Lemma host_access_exact_witness :
  served true false (page_mem 0x7000) (2 ^ 3) 0x700d (load_atom true false 3 (page_mem 0x7000) 0x700d 0x303)
  /\ stored true false (2 ^ 3) (page_mem 0x7000) 0x700d 0x1122334455667788
       (store_atom true false 3 (page_mem 0x7000) 0x700d 0x303 0x1122334455667788).
Proof.
  apply (host_access_exact true false 3 (page_mem 0x7000) 0x700d 0x303 0x1122334455667788).
  - lia.
  - apply page_mem_page; [done | lia | simpl; lia | simpl; lia | by vm_compute].
  - by split.
  - by vm_compute.
Defined.
