(* ===== verification/SearchData.v ===== *)
(** * Search data and unwinding

    The table the translator appends to every block (accel/tcg/translate-all.c):
    one line per guest instruction with its insn_start words and the end of its
    host code, as signed LEB128 differences.  [encode_search] writes it,
    [cpu_unwind_data_from_tb] reads it back when a helper leaves a block in the
    middle, and [x86_restore_state_to_opc] (target/i386/tcg/tcg-cpu.c) turns the
    line into the guest's program counter and condition-code state.

    The table is the list of its bytes; reading past the end of what is given is
    [None].  The lemmas: the number format round-trips for every 64-bit value,
    and unwinding finds exactly the instruction whose host code contains the
    address; [Retranslate] builds its theorems on them. *)
From S2P Require Import Prelude.

(** ** Signed LEB128 *)

Definition TARGET_LONG_BITS : Z := 64.

(** The [do] loop; ten bytes hold any 64-bit value ([encode_sleb128_fuel]). *)
Fixpoint encode_loop (fuel : nat) (val : Z) : list Z :=
  match fuel with
  | O => []
  | S fuel =>
      let byte := Z.land val 0x7f in
      let val := Z.shiftr val 7 in
      let more := negb (((val =? 0) && (Z.land byte 0x40 =? 0))
                        || ((val =? -1) && negb (Z.land byte 0x40 =? 0))) in
      if more then Z.lor byte 0x80 :: encode_loop fuel val else [byte]
  end.

Definition encode_sleb128 (val : Z) : list Z := encode_loop 10 val.

(** The [do] loop of the reader: the value so far, the shift, the bytes left.  A
    shift by 64 or more is undefined in C and is [None] here. *)
Fixpoint decode_loop (val shift : Z) (p : list Z) : option (Z * list Z) :=
  match p with
  | [] => None
  | byte :: p =>
      if 64 <=? shift then None else
      let val := Z.lor val (s64 (Z.shiftl (Z.land byte 0x7f) shift)) in
      let shift := shift + 7 in
      if negb (Z.land byte 0x80 =? 0) then decode_loop val shift p
      else
        let val := if (shift <? TARGET_LONG_BITS) && negb (Z.land byte 0x40 =? 0)
                   then Z.lor val (s64 (Z.shiftl (-1) shift)) else val in
        Some (val, p)
  end.

Definition decode_sleb128 (p : list Z) : option (Z * list Z) := decode_loop 0 0 p.

(** ** The translation block, as far as this file needs it *)

Record tblock := {
  tb_pc : Z;              (* pc *)
  tb_cs_base : Z;
  tb_flags : Z;
  tb_cflags : Z;
  tb_size : Z;            (* bytes of guest code *)
  tb_icount : Z;
  tc_ptr : Z;             (* tc.ptr *)
  tc_size : Z;            (* tc.size *)
  page_addr0 : Z;         (* page_addr[0]; -1 wraps to 2^32 - 1 *)
  page_addr1 : Z
}.

Definition CF_COUNT_MASK : Z := 0x1ff.
Definition CF_MEMI_ONLY : Z := 0x1000.
Definition CF_USE_ICOUNT : Z := 0x2000.
Definition CF_INVALID : Z := 0x4000.
Definition CF_PCREL : Z := 0x20000.

(** [x & mask] used as a condition. *)
Definition has (x mask : Z) : bool := negb (Z.land x mask =? 0).

Definition TARGET_INSN_START_WORDS : nat := 2.
Definition GETPC_ADJ : Z := 2.

(** What the translator collected: [gen_insn_data] and [gen_insn_end_off]. *)
Record gen_insns := {
  gen_insn_data : list Z;
  gen_insn_end_off : list Z
}.

(** ** Writing the table *)

(** The words before the first line. *)
Definition seed (tb : tblock) (j : nat) : Z :=
  if negb (has (tb_cflags tb) CF_PCREL) && (j =? 0)%nat then tb_pc tb else 0.

Definition prev_word (tb : tblock) (g : gen_insns) (i j : nat) : Z :=
  match i with
  | O => seed tb j
  | S i' => gen_insn_data g !!! (i' * TARGET_INSN_START_WORDS + j)%nat
  end.

Definition curr_word (g : gen_insns) (i j : nat) : Z :=
  gen_insn_data g !!! (i * TARGET_INSN_START_WORDS + j)%nat.

Definition prev_end (g : gen_insns) (i : nat) : Z :=
  match i with O => 0 | S i' => gen_insn_end_off g !!! i' end.

(** One line. *)
Definition encode_row (tb : tblock) (g : gen_insns) (i : nat) : list Z :=
  concat (map (fun j => encode_sleb128 (s64 (curr_word g i j - prev_word tb g i j)))
              (seq 0 TARGET_INSN_START_WORDS))
  ++ encode_sleb128 (s64 (gen_insn_end_off g !!! i - prev_end g i)).

(** The loop over the instructions from [i] on; [p] is the address after
    [written]. *)
Fixpoint encode_rows (tb : tblock) (g : gen_insns) (highwater : Z)
    (todo i : nat) (p : Z) (written : list Z) : option (list Z) :=
  match todo with
  | O => Some written
  | S todo =>
      let row := encode_row tb g i in
      let p := p + Z.of_nat (length row) in
      if highwater <? p then None
      else encode_rows tb g highwater todo (S i) p (written ++ row)
  end.

(** The bytes written at [block], or [None] for the result -1. *)
Definition encode_search (tb : tblock) (g : gen_insns) (highwater block : Z) : option (list Z) :=
  encode_rows tb g highwater (Z.to_nat (tb_icount tb)) 0 block [].

(** ** Reading it back *)

(** [data[j] += decode_sleb128(&p)] for every column. *)
Fixpoint decode_words (data : list Z) (p : list Z) : option (list Z * list Z) :=
  match data with
  | [] => Some ([], p)
  | d :: data =>
      '(v, p) ← decode_sleb128 p;
      '(data, p) ← decode_words data p;
      Some (u64 (d + v) :: data, p)
  end.

(** The loop over the lines: [Some None] is the result -1. *)
Fixpoint unwind_rows (host_pc num_insns : Z) (todo : nat) (i : Z)
    (data : list Z) (iter_pc : Z) (p : list Z) : option (option (Z * list Z)) :=
  match todo with
  | O => Some None
  | S todo =>
      '(data, p) ← decode_words data p;
      '(v, p) ← decode_sleb128 p;
      let iter_pc := u32 (iter_pc + v) in
      if host_pc <? iter_pc then Some (Some (num_insns - i, data))
      else unwind_rows host_pc num_insns todo (i + 1) data iter_pc p
  end.

(** [search] is what is stored at [tc.ptr + tc.size]; the result is the number
    of instructions left, counting the one found, and its line. *)
Definition cpu_unwind_data_from_tb (tb : tblock) (search : list Z) (host_pc : Z)
    : option (option (Z * list Z)) :=
  let iter_pc := tc_ptr tb in
  let host_pc := u32 (host_pc - GETPC_ADJ) in
  if host_pc <? iter_pc then Some None
  else
    let data := map (seed tb) (seq 0 TARGET_INSN_START_WORDS) in
    unwind_rows host_pc (tb_icount tb) (Z.to_nat (tb_icount tb)) 0 data iter_pc search.

(** ** The number format *)

Lemma land_bit_neg v k : 0 <= k -> negb (Z.land v (2 ^ k) =? 0) = Z.testbit v k.
Proof.
  intros Hk. destruct (Z.testbit v k) eqn:E.
  - destruct (Z.eqb_spec (Z.land v (2 ^ k)) 0) as [H0 |]; [| done].
    apply (f_equal (fun x => Z.testbit x k)) in H0.
    rewrite Z.land_spec, Z.pow2_bits_true, E, Z.bits_0 in H0 by done. done.
  - apply negb_false_iff, Z.eqb_eq, Z.bits_inj'. intros i Hi.
    rewrite Z.land_spec, Z.pow2_bits_eqb, Z.bits_0 by done.
    destruct (Z.eqb_spec k i) as [<- |]; [by rewrite E | by rewrite andb_false_r].
Qed.

(** The bits above the sign bit of a 64-bit value. *)
Lemma testbit_is_s64 v i : is_s 64 v -> 63 <= i -> Z.testbit v i = Z.testbit v 63.
Proof.
  intros Hv Hi. rewrite <- (sw_small 64 v) by (lia || done).
  rewrite !testbit_sw by lia. by bit_cases.
Qed.

(** When the writer stops, the bits above the byte are the byte's bit 6. *)
Lemma stop_spec c :
  (((Z.shiftr c 7 =? 0) && (Z.land (Z.land c 0x7f) 0x40 =? 0))
   || ((Z.shiftr c 7 =? -1) && negb (Z.land (Z.land c 0x7f) 0x40 =? 0))) = true <->
  (forall i, 7 <= i -> Z.testbit c i = Z.testbit c 6).
Proof.
  assert (E : Z.land (Z.land c 0x7f) 0x40 = Z.land c (2 ^ 6)) by (rewrite <- Z.land_assoc; done).
  rewrite E. pose proof (land_bit_neg c 6 ltac:(lia)) as H6.
  assert (H6' : (Z.land c (2 ^ 6) =? 0) = negb (Z.testbit c 6)) by (rewrite <- H6; by rewrite negb_involutive).
  rewrite H6', negb_involutive. split.
  - intros H i Hi. replace i with ((i - 7) + 7) by lia. rewrite <- Z.shiftr_spec by lia.
    destruct (Z.testbit c 6); rewrite ?andb_true_r, ?andb_false_r, ?orb_false_r in H; cbn in H;
      apply Z.eqb_eq in H; rewrite H; [by rewrite Z.bits_m1 by lia | by rewrite Z.bits_0].
  - intros H. destruct (Z.testbit c 6) eqn:E6; rewrite ?andb_true_r, ?andb_false_r, ?orb_false_r; cbn [negb orb].
    + apply Z.eqb_eq, Z.bits_inj'. intros i Hi. rewrite Z.shiftr_spec, Z.bits_m1 by lia. apply H. lia.
    + rewrite ?andb_true_r. apply Z.eqb_eq, Z.bits_inj'. intros i Hi. rewrite Z.shiftr_spec, Z.bits_0 by lia. apply H. lia.
Qed.

(** Seven bits of [v] from bit [s] on, shifted back to their place in a 64-bit
    word. *)
Lemma seven_bits v s i : 0 <= s <= 63 -> 0 <= i ->
  Z.testbit (s64 (Z.shiftl (uw 7 (Z.shiftr v s)) s)) i
  = (s <=? Z.min i 63) && (Z.min i 63 <? s + 7) && Z.testbit v (Z.min i 63).
Proof.
  intros Hs Hi. rewrite testbit_sw, testbit_shiftl, testbit_uw by lia. change (64 - 1) with 63.
  generalize (Z.min i 63) (Z.min_glb i 63 0 ltac:(lia) ltac:(lia)). intros k Hk.
  destruct (Z.leb_spec s k) as [Hle | Hgt]; cbn [andb].
  - rewrite Z.shiftr_spec by lia. replace (k - s + s) with k by lia.
    destruct (Z.ltb_spec (k - s) 7), (Z.ltb_spec k (s + 7)); (lia || done).
  - by rewrite (Z.testbit_neg_r _ (k - s)), andb_false_r by lia.
Qed.

Lemma land7 c : Z.land c 0x7f = uw 7 c.
Proof. apply (Z.land_ones c 7). lia. Qed.

(** A byte that is not the last one: seven more bits are known. *)
Lemma decode_more v s : 0 <= s <= 56 ->
  Z.lor (uw s v) (s64 (Z.shiftl (Z.land (Z.lor (Z.land (Z.shiftr v s) 0x7f) 0x80) 0x7f) s))
  = uw (s + 7) v.
Proof.
  intros Hs. rewrite Z.land_lor_distr_l, <- Z.land_assoc. change (Z.land 0x80 0x7f) with 0. change (Z.land 0x7f 0x7f) with 0x7f.
  rewrite Z.lor_0_r, land7. apply Z.bits_inj'. intros i Hi.
  rewrite Z.lor_spec, seven_bits, !testbit_uw by lia.
  destruct (Z.le_gt_cases i 63) as [H63 | H63]; [rewrite Z.min_l by lia | rewrite Z.min_r by lia].
  - destruct (Z.ltb_spec i s), (Z.ltb_spec i (s + 7)), (Z.leb_spec s i); try lia; cbn [andb orb];
      by rewrite ?orb_false_r.
  - destruct (Z.ltb_spec i s), (Z.ltb_spec i (s + 7)), (Z.ltb_spec 63 (s + 7)); lia || by rewrite andb_false_r.
Qed.

(** The last byte: with the bits above it all equal to its bit 6, the sign
    extension (or, in the tenth byte, the value itself) completes the number. *)
Lemma decode_last v s : is_s 64 v -> 0 <= s <= 63 ->
  (forall i, 7 <= i -> Z.testbit (Z.shiftr v s) i = Z.testbit (Z.shiftr v s) 6) ->
  let b := Z.land (Z.shiftr v s) 0x7f in
  let val := Z.lor (uw s v) (s64 (Z.shiftl (Z.land b 0x7f) s)) in
  (if (s + 7 <? 64) && negb (Z.land b 0x40 =? 0) then Z.lor val (s64 (Z.shiftl (-1) (s + 7))) else val) = v.
Proof.
  intros Hv Hs Hup b val.
  assert (E6 : negb (Z.land b 0x40 =? 0) = Z.testbit v (6 + s)).
  { change 0x40 with (2 ^ 6). rewrite land_bit_neg by lia. subst b. rewrite Z.land_spec, Z.shiftr_spec by lia.
    apply andb_true_r. }
  assert (Hhi : forall i, s + 7 <= i -> Z.testbit v i = Z.testbit v (6 + s)).
  { intros i Hi. specialize (Hup (i - s) ltac:(lia)). rewrite !Z.shiftr_spec in Hup by lia.
    replace (i - s + s) with i in Hup by lia. done. }
  assert (Hval : forall i, 0 <= i ->
    Z.testbit val i = if i <? s + 7 then Z.testbit v i else (63 <? s + 7) && Z.testbit v i).
  { intros i Hi. subst val b. rewrite <- Z.land_assoc. change (Z.land 0x7f 0x7f) with 0x7f.
    rewrite land7, Z.lor_spec, seven_bits, testbit_uw by lia.
    destruct (Z.le_gt_cases i 63) as [H63 | H63]; [rewrite Z.min_l by lia | rewrite Z.min_r by lia].
    - destruct (Z.ltb_spec i s), (Z.ltb_spec i (s + 7)), (Z.leb_spec s i), (Z.ltb_spec 63 (s + 7)); try lia; cbn [andb orb];
        by rewrite ?orb_false_r.
    - rewrite (testbit_is_s64 v i) by (done || lia).
      destruct (Z.ltb_spec i s), (Z.ltb_spec i (s + 7)), (Z.leb_spec s 63), (Z.ltb_spec 63 (s + 7)); try lia; done. }
  rewrite E6. clearbody val. clear E6 b Hup. apply Z.bits_inj'. intros i Hi.
  destruct (Z.ltb_spec (s + 7) 64) as [H64 | H64]; cbn [andb].
  - destruct (Z.testbit v (6 + s)) eqn:E.
    + rewrite Z.lor_spec, Hval, testbit_sw, testbit_shiftl by lia.
      destruct (Z.ltb_spec i (s + 7)) as [Hlt | Hge].
      * by rewrite (Z.testbit_neg_r _ (Z.min i (64 - 1) - (s + 7))), orb_false_r by lia.
      * rewrite (Hhi i), testbit_m1, orb_true_r by lia. done.
    + rewrite Hval by lia. destruct (Z.ltb_spec i (s + 7)) as [Hlt | Hge]; [done |].
      by rewrite (Hhi i), andb_false_r by lia.
  - rewrite Hval by lia. destruct (Z.ltb_spec i (s + 7)); [done |].
    by destruct (Z.ltb_spec 63 (s + 7)); [| lia].
Qed.

(** The continuation bit of a byte. *)
Lemma cont_bit b : negb (Z.land b 0x80 =? 0) = Z.testbit b 7.
Proof. apply (land_bit_neg b 7). lia. Qed.

(** From byte number [s / 7] on, the reader follows the writer. *)
Lemma decode_encode_loop fuel v s rest :
  is_s 64 v -> 0 <= s <= 63 -> 64 <= s + 7 * Z.of_nat fuel ->
  decode_loop (uw s v) s (encode_loop fuel (Z.shiftr v s) ++ rest) = Some (v, rest).
Proof.
  intros Hv. revert s. induction fuel as [| fuel IH]; intros s Hs Hf; [lia |].
  cbn [encode_loop]. cbv zeta. set (c := Z.shiftr v s).
  pose proof (stop_spec c) as Hstop. destruct (_ || _) eqn:E; cbn [negb].
  - (* the last byte *)
    destruct Hstop as [Hstop _]. specialize (Hstop eq_refl).
    cbn [app decode_loop]. rewrite (proj2 (Z.leb_gt 64 s)) by lia. cbv zeta.
    rewrite cont_bit, Z.land_spec. change (Z.testbit 0x7f 7) with false. rewrite andb_false_r.
    unfold TARGET_LONG_BITS. subst c. by rewrite (decode_last v s Hv Hs Hstop).
  - (* more to come: the value has a bit above these seven that differs *)
    assert (Hs' : s <= 56).
    { apply Z.le_ngt. intros Hs'. enough (false = true) by done. apply Hstop. intros i Hi. subst c.
      rewrite !Z.shiftr_spec by lia. rewrite (testbit_is_s64 v (i + s)), (testbit_is_s64 v (6 + s)) by (done || lia). done. }
    cbn [app decode_loop]. rewrite (proj2 (Z.leb_gt 64 s)) by lia. cbv zeta.
    rewrite cont_bit, Z.lor_spec. change (Z.testbit 0x80 7) with true. rewrite orb_true_r.
    subst c. rewrite decode_more by lia.
    rewrite Z.shiftr_shiftr by lia. apply IH; lia.
Qed.

(** Every 64-bit value is read back. *)
Lemma decode_encode v rest :
  is_s 64 v -> decode_sleb128 (encode_sleb128 v ++ rest) = Some (v, rest).
Proof.
  intros Hv. pose proof (decode_encode_loop 10 v 0 rest Hv ltac:(lia) ltac:(lia)) as H.
  unfold uw in H. rewrite Z.shiftr_0_r, Z.mod_1_r in H. exact H.
Qed.

(** ** The table *)

(** What the translator guarantees about the collected data: a line per
    instruction, 64-bit words, 16-bit end offsets (their type). *)
Record gen_ok (tb : tblock) (g : gen_insns) : Prop := {
  go_data_len : length (gen_insn_data g) = (Z.to_nat (tb_icount tb) * TARGET_INSN_START_WORDS)%nat;
  go_end_len : length (gen_insn_end_off g) = Z.to_nat (tb_icount tb);
  go_data : Forall (is_u 64) (gen_insn_data g);
  go_end : Forall (is_u 16) (gen_insn_end_off g);
  go_icount : 0 <= tb_icount tb
}.

Definition row (g : gen_insns) (i : nat) : list Z :=
  map (curr_word g i) (seq 0 TARGET_INSN_START_WORDS).

Lemma s64_delta c p : is_u 64 c -> u64 (p + s64 (c - p)) = c.
Proof.
  intros Hc. rewrite <- uw_add_idemp_r, uw_sw, uw_add_idemp_r by lia.
  replace (p + (c - p)) with c by lia. by apply uw_small.
Qed.

Lemma decode_words_row (c p : nat -> Z) js rest :
  (forall j, j ∈ js -> is_u 64 (c j)) ->
  decode_words (map p js) (concat (map (fun j => encode_sleb128 (s64 (c j - p j))) js) ++ rest)
  = Some (map c js, rest).
Proof.
  induction js as [| j js IH]; intros Hc; [done |]. cbn [map concat decode_words].
  rewrite <- app_assoc, decode_encode by (apply sw_range; lia). cbn [mbind option_bind].
  rewrite IH by set_solver. cbn [mbind option_bind].
  rewrite s64_delta by (apply Hc; set_solver). done.
Qed.

Lemma prev_word_S tb g i : map (prev_word tb g (S i)) (seq 0 TARGET_INSN_START_WORDS) = row g i.
Proof. done. Qed.

Section Unwind.
Context (tb : tblock) (g : gen_insns) (Hg : gen_ok tb g).
Context (Hptr : is_u 32 (tc_ptr tb)).
Context (Hroom : Forall (fun e => tc_ptr tb + e < 2 ^ 32) (gen_insn_end_off g)).

Abbreviation n := (Z.to_nat (tb_icount tb)).

Lemma curr_word_u64 i j : (i < n)%nat -> (j < TARGET_INSN_START_WORDS)%nat -> is_u 64 (curr_word g i j).
Proof using Hg.
  intros Hi Hj. unfold curr_word.
  destruct (lookup_lt_is_Some_2 (gen_insn_data g) (i * TARGET_INSN_START_WORDS + j)) as [x Hx].
  { rewrite (go_data_len tb g Hg). unfold TARGET_INSN_START_WORDS in *. lia. }
  rewrite (list_lookup_total_correct _ _ _ Hx). eapply Forall_lookup_1; [apply (go_data tb g Hg) | done].
Qed.

Lemma end_u16 i : (i < n)%nat -> is_u 16 (gen_insn_end_off g !!! i).
Proof using Hg.
  intros Hi. destruct (lookup_lt_is_Some_2 (gen_insn_end_off g) i) as [x Hx].
  { by rewrite (go_end_len tb g Hg). }
  rewrite (list_lookup_total_correct _ _ _ Hx). eapply Forall_lookup_1; [apply (go_end tb g Hg) | done].
Qed.

Lemma end_room i : (i < n)%nat -> tc_ptr tb + gen_insn_end_off g !!! i < 2 ^ 32.
Proof using Hg Hroom.
  intros Hi. destruct (lookup_lt_is_Some_2 (gen_insn_end_off g) i) as [x Hx].
  { by rewrite (go_end_len tb g Hg). }
  rewrite (list_lookup_total_correct _ _ _ Hx). by eapply (Forall_lookup_1 _ _ _ _ Hroom).
Qed.

Lemma prev_end_u16 i : (i <= n)%nat -> is_u 16 (prev_end g i).
Proof using Hg. destruct i; intros Hi; cbn [prev_end]; [done | apply end_u16; lia]. Qed.

Lemma iter_pc_step i : (i < n)%nat ->
  u32 (u32 (tc_ptr tb + prev_end g i) + s64 (gen_insn_end_off g !!! i - prev_end g i))
  = tc_ptr tb + gen_insn_end_off g !!! i.
Proof using Hg Hptr Hroom.
  intros Hi. pose proof (end_u16 i Hi) as He. pose proof (prev_end_u16 i ltac:(lia)) as Hp.
  pose proof (end_room i Hi) as Hrm.
  unfold is_u in *. rewrite (sw_small 64) by (unfold is_s; lia). rewrite uw_add_idemp_l.
  rewrite uw_small by (unfold is_u; lia). lia.
Qed.

(** The loop reads the lines one by one and stops at the first whose end is
    beyond the address. *)
Lemma unwind_rows_spec h todo i rest :
  (i + todo)%nat = n ->
  unwind_rows h (tb_icount tb) todo (Z.of_nat i)
    (map (prev_word tb g i) (seq 0 TARGET_INSN_START_WORDS)) (u32 (tc_ptr tb + prev_end g i))
    (concat (map (encode_row tb g) (seq i todo)) ++ rest)
  = Some (match list_find (fun e => h < tc_ptr tb + e) (drop i (gen_insn_end_off g)) with
          | Some (k, _) => Some (tb_icount tb - Z.of_nat (i + k), row g (i + k))
          | None => None
          end).
Proof using Hg Hptr Hroom.
  revert i. induction todo as [| todo IH]; intros i Hi.
  { rewrite drop_ge by (rewrite (go_end_len tb g Hg); lia). done. }
  cbn [seq map concat unwind_rows]. unfold encode_row at 1. rewrite <- !app_assoc.
  rewrite decode_words_row; cycle 1.
  { intros j Hj. apply curr_word_u64; [lia |]. apply elem_of_seq in Hj. lia. }
  cbn [mbind option_bind]. rewrite decode_encode by (apply sw_range; lia). cbn [mbind option_bind].
  rewrite iter_pc_step by lia.
  destruct (lookup_lt_is_Some_2 (gen_insn_end_off g) i) as [e He].
  { rewrite (go_end_len tb g Hg). lia. }
  rewrite (drop_S _ _ _ He), (list_lookup_total_correct _ _ _ He). cbn [list_find].
  destruct (Z.ltb_spec h (tc_ptr tb + e)) as [Hlt | Hge].
  - rewrite decide_True by done. by rewrite Nat.add_0_r.
  - rewrite decide_False by lia.
    specialize (IH (S i) ltac:(lia)). rewrite prev_word_S in IH. cbn [prev_end] in IH.
    rewrite (list_lookup_total_correct _ _ _ He) in IH.
    pose proof (end_u16 i ltac:(lia)) as He16. pose proof (end_room i ltac:(lia)) as Hrm.
    rewrite (list_lookup_total_correct _ _ _ He) in He16, Hrm.
    rewrite (uw_small 32) in IH by (unfold is_u in *; lia).
    replace (Z.of_nat (S i)) with (Z.of_nat i + 1) in IH by lia. unfold row in IH. rewrite IH.
    destruct (list_find _ (drop (S i) _)) as [[k e'] |]; [| done].
    change (prod_map S id <$> Some (k, e')) with (Some (S k, e')). unfold row.
    by rewrite Nat.add_succ_r.
Qed.
End Unwind.

(** The writer appends the lines in order. *)
Lemma encode_rows_spec tb g hw todo i p written out :
  encode_rows tb g hw todo i p written = Some out ->
  out = written ++ concat (map (encode_row tb g) (seq i todo)).
Proof.
  revert i p written. induction todo as [| todo IH]; intros i p written; cbn [encode_rows seq map concat].
  - intros [= <-]. by rewrite app_nil_r.
  - case_match; [done |]. intros H1%IH. by rewrite H1, <- app_assoc.
Qed.

(** The table depends on the block's program counter, flags and length only. *)
Lemma encode_search_ext tb tb' g hw block :
  tb_pc tb = tb_pc tb' -> tb_cflags tb = tb_cflags tb' -> tb_icount tb = tb_icount tb' ->
  encode_search tb g hw block = encode_search tb' g hw block.
Proof.
  intros Hpc Hcf Hic. unfold encode_search. rewrite Hic.
  generalize (@nil Z), block, 0%nat. induction (Z.to_nat (tb_icount tb')) as [| todo IH]; intros w p i; [done |].
  cbn [encode_rows].
  assert (E : encode_row tb g i = encode_row tb' g i).
  { unfold encode_row, prev_word, seed. by rewrite Hpc, Hcf. }
  by rewrite E, IH.
Qed.

Lemma encode_rows_fits tb g hw todo i p written :
  p <= hw ->
  is_Some (encode_rows tb g hw todo i p written) <->
  p + Z.of_nat (length (concat (map (encode_row tb g) (seq i todo)))) <= hw.
Proof.
  revert i p written. induction todo as [| todo IH]; intros i p written Hp; cbn [encode_rows seq map concat].
  - cbn. split; [lia | by eexists].
  - rewrite length_app, Nat2Z.inj_add.
    destruct (Z.ltb_spec hw (p + Z.of_nat (length (encode_row tb g i)))) as [Hlt | Hge].
    + split; [by intros [? ?] | lia].
    + rewrite IH by lia. lia.
Qed.

(** The search data round-trips.  Whenever [encode_search] did not report an
    overflow, unwinding the block at a host address finds exactly the instruction
    whose host code contains it (the first one whose end offset is beyond the
    address, two bytes back as [GETPC_ADJ] says): the result is the number of
    instructions from that one on, with the insn_start words the translator
    recorded for it.  An address before or after the code gives -1, whatever bytes
    follow the table. *)
Lemma unwind_exact (tb : tblock) (g : gen_insns) (highwater : Z) (search rest : list Z) (host_pc : Z)
  (Hg : gen_ok tb g) (Hptr : is_u 32 (tc_ptr tb))
  (Hroom : Forall (fun e => tc_ptr tb + e < 2 ^ 32) (gen_insn_end_off g))
  (Hpc : is_u 32 (host_pc - GETPC_ADJ))
  (Henc : encode_search tb g highwater (tc_ptr tb + tc_size tb) = Some search) :
  cpu_unwind_data_from_tb tb (search ++ rest) host_pc
  = Some (if host_pc - GETPC_ADJ <? tc_ptr tb then None
          else match list_find (fun e => host_pc - GETPC_ADJ < tc_ptr tb + e) (gen_insn_end_off g) with
               | Some (i, _) => Some (tb_icount tb - Z.of_nat i, row g i)
               | None => None
               end).
Proof.
  unfold cpu_unwind_data_from_tb. rewrite (uw_small 32) by done.
  destruct (_ <? _); [done |].
  apply encode_rows_spec in Henc. cbn [app] in Henc. subst search.
  pose proof (unwind_rows_spec tb g Hg Hptr Hroom (host_pc - GETPC_ADJ) (Z.to_nat (tb_icount tb)) 0 rest eq_refl) as H.
  cbn [prev_end] in H. rewrite Z.add_0_r, (uw_small 32) in H by done. exact H.
Qed.

(** The table is refused exactly when it does not fit below the high-water
    mark; in particular no byte of an accepted table lies beyond it. *)
Lemma encode_search_fits (tb : tblock) (g : gen_insns) (highwater block : Z)
  (Hb : block <= highwater) :
  match encode_search tb g highwater block with
  | Some out => out = concat (map (encode_row tb g) (seq 0 (Z.to_nat (tb_icount tb)))) /\
      block + Z.of_nat (length out) <= highwater
  | None => highwater < block + Z.of_nat (length (concat (map (encode_row tb g) (seq 0 (Z.to_nat (tb_icount tb))))))
  end.
Proof.
  pose proof (encode_rows_fits tb g highwater (Z.to_nat (tb_icount tb)) 0 block [] Hb) as Hf.
  destruct (encode_search tb g highwater block) as [out |] eqn:E; unfold encode_search in E; rewrite E in Hf.
  - apply encode_rows_spec in E. cbn [app] in E. subst out. split; [done |]. apply Hf. by eexists.
  - destruct Hf as [_ Hf]. apply Z.nle_gt. intros H. by destruct (Hf H).
Qed.

(** ** A block of three instructions *)
Module UnwindDemo.
Definition tb : tblock :=
  {| tb_pc := 0xfffffff00000ff0; tb_cs_base := 0; tb_flags := 0x8000; tb_cflags := 0; tb_size := 9;
     tb_icount := 3; tc_ptr := 0x110000; tc_size := 96; page_addr0 := 0x5000; page_addr1 := 0xffffffff |}.
Definition g : gen_insns :=
  {| gen_insn_data := [0xfffffff00000ff0; 0; 0xfffffff00000ff3; 9; 0xfffffff00000ff7; 0];
     gen_insn_end_off := [24; 60; 96] |}.

Example demo_unwind :
  (search ← encode_search tb g 0x120000 (0x110000 + 96); cpu_unwind_data_from_tb tb search (0x110000 + 42))
  = Some (Some (2, [0xfffffff00000ff3; 9])).
Proof. reflexivity. Qed.

Lemma demo_gen_ok : gen_ok tb g.
Proof. split; cbn; [done | done | | | lia]; repeat constructor; done. Qed.
End UnwindDemo.
