(* ===== verification/Regions.v ===== *)
(** * Regions of the code buffer

    The buffer that holds all translated code is divided into regions; every
    vCPU thread's translation context owns the region it fills and asks for
    another when it is full (tcg/region.c), and [tcg_tb_alloc] (tcg/tcg.c) carves
    the descriptors of the blocks out of the context's region.  A full buffer is
    flushed by giving every context a region again ([tcg_region_reset_all]).

    Pointers are integers; [region.lock] makes each operation one step, and
    [tcg_register_thread], which takes it only at its end, is three: the slot is
    claimed, the context is published as a copy of the start-up one, it gets a
    region of its own.  The theorems: whatever the interleaving, no two contexts
    that translate own overlapping memory, and the descriptors and blocks they
    allocate stay inside their regions and never overlap; an address inside a
    region is looked up in that region's tree; a reset always finds a region for
    every context. *)
From S2P Require Import Prelude.

Definition TCG_HIGHWATER : Z := 1024.
Definition KiB : Z := 1024.
Definition MiB : Z := 1024 * 1024.
Definition MIN_CODE_GEN_BUFFER_SIZE : Z := MiB.
Definition MAX_CODE_GEN_BUFFER_SIZE : Z := 2 ^ 32 - 1.
Definition DEFAULT_CODE_GEN_BUFFER_SIZE : Z := 1024 * MiB.

(** [QEMU_ALIGN_DOWN] and [ROUND_UP]. *)
Definition ALIGN_DOWN (n m : Z) : Z := n / m * m.
Definition ROUND_UP (n d : Z) : Z := ALIGN_DOWN (n + d - 1) d.

(** [struct tcg_region_state]: the fields set at start-up, and the two the lock
    protects. *)
Record region_cfg := {
  start_aligned : Z;
  after_prologue : Z;
  n_regions : Z;        (* n *)
  rsize : Z;            (* size *)
  stride : Z;
  total_size : Z
}.

(** The part of a [TCGContext] the regions are about. *)
Record ctx := {
  code_gen_buffer : Z;
  code_gen_ptr : Z;
  code_gen_buffer_size : Z;
  code_gen_highwater : Z
}.

#[global] Instance ctx_inhabited : Inhabited ctx := populate (Build_ctx 0 0 0 0).

Record rstate := {
  current : Z;
  agg_size_full : Z;
  ctxs : list (option ctx)  (* tcg_ctxs[0 .. tcg_cur_ctxs - 1]; None: NULL, claimed and not yet published *)
}.

(** ** Start-up *)

(** The buffer's size: the command line's, or an eighth of the memory. *)
Definition buffer_size (tb_size phys_mem page_size : Z) : Z :=
  let tb_size := if tb_size =? 0 then
                   if phys_mem =? 0 then DEFAULT_CODE_GEN_BUFFER_SIZE
                   else Z.min DEFAULT_CODE_GEN_BUFFER_SIZE (ALIGN_DOWN (phys_mem / 8) page_size)
                 else tb_size in
  let tb_size := if tb_size <? MIN_CODE_GEN_BUFFER_SIZE then MIN_CODE_GEN_BUFFER_SIZE else tb_size in
  if MAX_CODE_GEN_BUFFER_SIZE <? tb_size then MAX_CODE_GEN_BUFFER_SIZE else tb_size.

Definition tcg_n_regions (tb_size max_cpus : Z) (mttcg : bool) : Z :=
  if (max_cpus =? 1) || negb mttcg then 1
  else
    let n := tb_size / (2 * MiB) in
    if n <=? max_cpus then max_cpus else Z.min n (max_cpus * 8).

Definition tcg_region_bounds (r : region_cfg) (curr_region : Z) : Z * Z :=
  let start := start_aligned r + curr_region * stride r in
  let end_ := start + rsize r in
  let start := if curr_region =? 0 then after_prologue r else start in
  let end_ := if curr_region =? n_regions r - 1 then start_aligned r + total_size r else end_ in
  (start, end_).

Definition tcg_region_assign (r : region_cfg) (curr_region : Z) : ctx :=
  let '(start, end_) := tcg_region_bounds r curr_region in
  {| code_gen_buffer := start; code_gen_ptr := start;
     code_gen_buffer_size := end_ - start;
     code_gen_highwater := end_ - TCG_HIGHWATER |}.

(** The partition [tcg_region_init] makes of a buffer of [tb_size] bytes at
    [buf]; [None] when its assertion on the region size fails. *)
Definition tcg_region_partition (buf tb_size page_size max_cpus : Z) (mttcg : bool) : option region_cfg :=
  let n := tcg_n_regions tb_size max_cpus mttcg in
  let region_size := ALIGN_DOWN (tb_size / n) page_size in
  if negb (2 * page_size <=? region_size) then None
  else Some {| start_aligned := buf; after_prologue := buf; n_regions := n;
               rsize := region_size - page_size; stride := region_size;
               total_size := tb_size - page_size |}.

(** ** Allocation *)

(** [tcg_region_alloc__locked]: the context's new region and the counter, or
    [None] for [true] (no region left). *)
Definition tcg_region_alloc__locked (r : region_cfg) (cur : Z) : option (ctx * Z) :=
  if cur =? n_regions r then None
  else Some (tcg_region_assign r cur, cur + 1).

(** [tcg_region_alloc] for the context [s]. *)
Definition tcg_region_alloc (r : region_cfg) (cur agg : Z) (s : ctx) : option (ctx * Z * Z) :=
  let size_full := code_gen_buffer_size s in
  '(s', cur) ← tcg_region_alloc__locked r cur;
  Some (s', cur, agg + (size_full - TCG_HIGHWATER)).

(** [tcg_register_thread] takes a slot, with an assertion that there is one; *)
Definition register_claim (max_ctxs : Z) (st : rstate) : option (nat * rstate) :=
  let n := length (ctxs st) in
  if negb (Z.of_nat n <? max_ctxs) then None
  else Some (n, {| current := current st; agg_size_full := agg_size_full st; ctxs := ctxs st ++ [None] |}).

(** stores a copy of the start-up context there; *)
Definition register_publish (init_ctx : ctx) (n : nat) (st : rstate) : rstate :=
  {| current := current st; agg_size_full := agg_size_full st; ctxs := <[n := Some init_ctx]> (ctxs st) |}.

(** and asks for a region, with an assertion that there is one, unless it is the
    first context, which keeps the start-up context's region 0. *)
Definition register_place (r : region_cfg) (n : nat) (st : rstate) : option rstate :=
  if (0 <? n)%nat then
    '(s, cur) ← tcg_region_alloc__locked r (current st);
    Some {| current := cur; agg_size_full := agg_size_full st; ctxs := <[n := Some s]> (ctxs st) |}
  else Some st.

(** The loop of [tcg_region_reset_all] over the contexts; [None] when it meets a
    slot that holds no context yet, or no region is left. *)
Fixpoint initial_allocs (r : region_cfg) (cur : Z) (l : list (option ctx)) : option (list (option ctx) * Z) :=
  match l with
  | [] => Some ([], cur)
  | None :: _ => None
  | Some _ :: l =>
      '(s, cur) ← tcg_region_alloc__locked r cur;
      '(l, cur) ← initial_allocs r cur l;
      Some (Some s :: l, cur)
  end.

Definition tcg_region_reset_all (r : region_cfg) (st : rstate) : option rstate :=
  '(l, cur) ← initial_allocs r 0 (ctxs st);
  Some {| current := cur; agg_size_full := 0; ctxs := l |}.

(** [tcg_region_prologue_set]: the prologue is deducted from the first region;
    the context is the start-up one. *)
Definition tcg_region_prologue_set (r : region_cfg) (s : ctx) (code_ptr : Z) : option (region_cfg * ctx) :=
  if negb (start_aligned r =? code_gen_buffer s) then None
  else
    let r := {| start_aligned := start_aligned r; after_prologue := code_ptr; n_regions := n_regions r;
                rsize := rsize r; stride := stride r; total_size := total_size r |} in
    Some (r, tcg_region_assign r 0).

(** Start-up: [tcg_region_init] leaves the start-up context in region 0, then
    the prologue is generated and deducted. *)
Definition tcg_region_init (r : region_cfg) : option (ctx * rstate) :=
  '(s, cur) ← tcg_region_alloc__locked r 0;
  Some (s, {| current := cur; agg_size_full := 0; ctxs := [] |}).

(** ** Block descriptors *)

Definition tcg_tb_alignment : Z := 16.
Definition CODE_GEN_ALIGN : Z := 16.

Section TbAlloc.
Context (sizeof_tb : Z).

(** [tcg_tb_alloc]: the descriptor and the context and counters afterwards;
    [None] as the descriptor when no region is left.  Each retry takes a region,
    so [n_regions - current] retries are enough. *)
Fixpoint tb_alloc_loop (fuel : nat) (r : region_cfg) (cur agg : Z) (s : ctx) : option (option Z * ctx * Z * Z) :=
  let tb := ROUND_UP (code_gen_ptr s) tcg_tb_alignment in
  let next := ROUND_UP (tb + sizeof_tb) tcg_tb_alignment in
  if code_gen_highwater s <? next then
    match tcg_region_alloc r cur agg s with
    | None => Some (None, s, cur, agg)
    | Some (s, cur, agg) =>
        match fuel with
        | O => None
        | S fuel => tb_alloc_loop fuel r cur agg s
        end
    end
  else Some (Some tb, {| code_gen_buffer := code_gen_buffer s; code_gen_ptr := next;
                         code_gen_buffer_size := code_gen_buffer_size s;
                         code_gen_highwater := code_gen_highwater s |}, cur, agg).

Definition tcg_tb_alloc (r : region_cfg) (cur agg : Z) (s : ctx) : option (option Z * ctx * Z * Z) :=
  tb_alloc_loop (Z.to_nat (n_regions r - cur)) r cur agg s.
End TbAlloc.

(** ** From addresses to regions, and sizes *)

Definition in_code_gen_buffer (r : region_cfg) (p : Z) : bool :=
  u32 (p - start_aligned r) <=? total_size r.

(** The index of the tree that holds the blocks at [p]; there is no second
    mapping of the buffer on this host ([tcg_splitwx_diff] is 0). *)
Definition tc_ptr_to_region_tree (r : region_cfg) (p : Z) : option Z :=
  if negb (in_code_gen_buffer r p) then None
  else Some (
    if p <? start_aligned r then 0
    else
      let offset := p - start_aligned r in
      if stride r * (n_regions r - 1) <? offset then n_regions r - 1
      else offset / stride r).

(** [None] when the assertion on a context's size fails, or a slot holds no
    context yet. *)
Fixpoint ctxs_size (l : list (option ctx)) (total : Z) : option Z :=
  match l with
  | [] => Some total
  | None :: _ => None
  | Some s :: l =>
      let size := u32 (code_gen_ptr s - code_gen_buffer s) in
      if negb (size <=? code_gen_buffer_size s) then None
      else ctxs_size l (total + size)
  end.

Definition tcg_code_size (st : rstate) : option Z := ctxs_size (ctxs st) (agg_size_full st).

Definition tcg_code_capacity (r : region_cfg) : Z :=
  total_size r - (n_regions r - 1) * (stride r - rsize r) - n_regions r * TCG_HIGHWATER.

(** ** The threads *)

(** The end of [tb_gen_code] (accel/tcg/translate-all.c): the pointer moves past
    the code and its search data; when another thread had already translated the
    block, the pointer moves back over the descriptor instead. *)
Definition set_ptr (p : Z) (s : ctx) : ctx :=
  {| code_gen_buffer := code_gen_buffer s; code_gen_ptr := p;
     code_gen_buffer_size := code_gen_buffer_size s;
     code_gen_highwater := code_gen_highwater s |}.

Definition tb_commit (gen_code_size search_size : Z) (s : ctx) : ctx :=
  let gen_code_buf := code_gen_ptr s in
  set_ptr (ROUND_UP (gen_code_buf + gen_code_size + search_size) CODE_GEN_ALIGN) s.

Definition tb_discard (sizeof_tb gen_code_buf : Z) (s : ctx) : ctx :=
  set_ptr (gen_code_buf - ROUND_UP sizeof_tb tcg_tb_alignment) s.

(** All threads: the shared state; the slots of the threads inside
    [tcg_register_thread]; for each thread between [tcg_tb_alloc] and the end of the
    translation, the descriptor it holds; and the memory of the blocks translated
    since the last flush, descriptor, code and search data. *)
Record sys := { shared : rstate; joining : gset nat; pending : gmap nat Z; committed : list (Z * Z) }.

Definition set_ctx (i : nat) (s : ctx) (cur agg : Z) (st : rstate) : rstate :=
  {| current := cur; agg_size_full := agg; ctxs := <[i := Some s]> (ctxs st) |}.

Section Threads.
Context (r : region_cfg) (sizeof_tb max_ctxs : Z) (init_ctx : ctx).

Inductive rstep : sys -> sys -> Prop :=
| step_claim st join pend cm n st' :
    register_claim max_ctxs st = Some (n, st') ->
    rstep {| shared := st; joining := join; pending := pend; committed := cm |}
          {| shared := st'; joining := {[n]} ∪ join; pending := pend; committed := cm |}
| step_publish n st join pend cm :
    n ∈ join -> ctxs st !! n = Some None ->
    rstep {| shared := st; joining := join; pending := pend; committed := cm |}
          {| shared := register_publish init_ctx n st; joining := join; pending := pend; committed := cm |}
| step_place n s st join pend cm st' :
    n ∈ join -> ctxs st !! n = Some (Some s) -> register_place r n st = Some st' ->
    rstep {| shared := st; joining := join; pending := pend; committed := cm |}
          {| shared := st'; joining := join ∖ {[n]}; pending := pend; committed := cm |}
| step_tb_alloc i s st join pend cm o s' cur agg :
    ctxs st !! i = Some (Some s) -> i ∉ join ->
    tcg_tb_alloc sizeof_tb r (current st) (agg_size_full st) s = Some (o, s', cur, agg) ->
    rstep {| shared := st; joining := join; pending := pend; committed := cm |}
          {| shared := set_ctx i s' cur agg st; joining := join;
             pending := match o with Some tb => <[i := tb]> pend | None => delete i pend end; committed := cm |}
(** code and search data fit below the high-water mark: the generator and
    [encode_search] report an overflow otherwise *)
| step_commit i s st join pend cm tb code search :
    ctxs st !! i = Some (Some s) -> pend !! i = Some tb ->
    0 <= code -> 0 <= search -> code_gen_ptr s + code + search <= code_gen_highwater s ->
    rstep {| shared := st; joining := join; pending := pend; committed := cm |}
          {| shared := set_ctx i (tb_commit code search s) (current st) (agg_size_full st) st; joining := join;
             pending := delete i pend; committed := (tb, code_gen_ptr (tb_commit code search s)) :: cm |}
| step_discard i s st join pend cm tb code search :
    ctxs st !! i = Some (Some s) -> pend !! i = Some tb ->
    0 <= code -> 0 <= search -> code_gen_ptr s + code + search <= code_gen_highwater s ->
    rstep {| shared := st; joining := join; pending := pend; committed := cm |}
          {| shared := set_ctx i (tb_discard sizeof_tb (code_gen_ptr s) (tb_commit code search s))
                         (current st) (agg_size_full st) st; joining := join;
             pending := delete i pend; committed := cm |}
(** a flush runs when every vCPU thread is stopped outside the translator, or is
    still registering *)
| step_reset st join cm st' :
    ctxs st <> [] -> tcg_region_reset_all r st = Some st' ->
    rstep {| shared := st; joining := join; pending := ∅; committed := cm |}
          {| shared := st'; joining := join; pending := ∅; committed := [] |}.
End Threads.

(** ** The partition *)

(** What start-up establishes. *)
Record cfg_ok (r : region_cfg) : Prop := {
  ok_n : 1 <= n_regions r;
  ok_start : 0 <= start_aligned r;
  ok_stride : rsize r <= stride r;
  ok_prologue : start_aligned r <= after_prologue r <= start_aligned r + rsize r - TCG_HIGHWATER;
  ok_size : TCG_HIGHWATER <= rsize r;
  ok_total : (n_regions r - 1) * stride r + rsize r <= total_size r;
  ok_fits : start_aligned r + total_size r < 2 ^ 32
}.

Lemma n_regions_pos tb_size max_cpus mttcg : 1 <= max_cpus -> 1 <= tcg_n_regions tb_size max_cpus mttcg.
Proof. intros H. unfold tcg_n_regions. repeat case_match; lia. Qed.

Lemma partition_ok buf tb_size page_size max_cpus mttcg r :
  1 <= max_cpus -> TCG_HIGHWATER <= page_size -> 0 <= buf -> 0 <= tb_size -> buf + tb_size <= 2 ^ 32 ->
  tcg_region_partition buf tb_size page_size max_cpus mttcg = Some r -> cfg_ok r.
Proof.
  intros Hcpu Hpage Hbuf Htb Hfit. unfold tcg_region_partition.
  pose proof (n_regions_pos tb_size max_cpus mttcg Hcpu) as Hn.
  set (n := tcg_n_regions _ _ _) in *. set (rs := ALIGN_DOWN _ _).
  destruct (Z.leb_spec (2 * page_size) rs) as [Hrs |]; [| done]. intros [= <-].
  unfold TCG_HIGHWATER in *.
  assert (H1 : rs <= tb_size / n).
  { unfold rs, ALIGN_DOWN. rewrite Z.mul_comm. apply Z.mul_div_le. lia. }
  assert (H2 : n * (tb_size / n) <= tb_size) by (apply Z.mul_div_le; lia).
  assert (H3 : n * rs <= n * (tb_size / n)) by (apply Z.mul_le_mono_nonneg_l; lia).
  split; cbn; unfold TCG_HIGHWATER; nia.
Qed.

Lemma round_up_spec n d : 0 < d -> n <= ROUND_UP n d < n + d.
Proof.
  intros Hd. unfold ROUND_UP, ALIGN_DOWN. pose proof (Z.div_mod (n + d - 1) d ltac:(lia)).
  pose proof (Z.mod_pos_bound (n + d - 1) d Hd). lia.
Qed.

Lemma round_up_add n m d : 0 < d -> ROUND_UP (ROUND_UP n d + m) d = ROUND_UP n d + ROUND_UP m d.
Proof.
  intros Hd. unfold ROUND_UP at 2, ALIGN_DOWN. set (q := (n + d - 1) / d).
  unfold ROUND_UP, ALIGN_DOWN.
  replace (q * d + m + d - 1) with ((m + d - 1) + q * d) by lia. rewrite Z.div_add by lia. lia.
Qed.

Lemma round_up_idemp n d : 0 < d -> ROUND_UP (ROUND_UP n d) d = ROUND_UP n d.
Proof.
  intros Hd. rewrite <- (Z.add_0_r (ROUND_UP n d)) at 1. rewrite round_up_add by done.
  unfold ROUND_UP at 2, ALIGN_DOWN. rewrite (Z.div_small (0 + d - 1)) by lia. lia.
Qed.

Section Invariant.
Context (r : region_cfg) (Hr : cfg_ok r) (sizeof_tb max_ctxs : Z) (init_ctx : ctx).
Context (Hsize : 0 < sizeof_tb).

Abbreviation bounds k := (tcg_region_bounds r k).

(** The memory of region [k]. *)
Lemma bounds_spec k : 0 <= k < n_regions r ->
  start_aligned r + k * stride r <= fst (bounds k) /\
  fst (bounds k) + TCG_HIGHWATER <= snd (bounds k) /\
  (k < n_regions r - 1 -> snd (bounds k) <= start_aligned r + (k + 1) * stride r) /\
  snd (bounds k) <= start_aligned r + total_size r.
Proof using Hr.
  intros Hk. destruct Hr. unfold tcg_region_bounds. cbn [fst snd].
  unfold TCG_HIGHWATER in *.
  assert (Hmul : k < n_regions r - 1 -> (k + 1) * stride r <= (n_regions r - 1) * stride r)
    by (intros; apply Z.mul_le_mono_nonneg_r; lia).
  assert (Hlast : k = n_regions r - 1 -> k * stride r = (n_regions r - 1) * stride r) by congruence.
  assert (Hzero : k = 0 -> k * stride r = 0) by (intros ->; lia).
  destruct (Z.eqb_spec k 0); destruct (Z.eqb_spec k (n_regions r - 1)); split_and!; lia.
Qed.

Lemma bounds_disjoint j k : 0 <= j < k -> k < n_regions r -> snd (bounds j) <= fst (bounds k).
Proof using Hr.
  intros Hj Hk. destruct (bounds_spec j ltac:(lia)) as (_ & _ & H & _).
  destruct (bounds_spec k ltac:(lia)) as (H' & _). specialize (H ltac:(lia)).
  destruct Hr. assert ((j + 1) * stride r <= k * stride r) by (apply Z.mul_le_mono_nonneg_r; unfold TCG_HIGHWATER in *; lia). lia.
Qed.

(** Context [s] fills region [k]. *)
Record owns (k : Z) (s : ctx) : Prop := {
  ow_region : 0 <= k < n_regions r;
  ow_buffer : code_gen_buffer s = fst (bounds k);
  ow_size : code_gen_buffer_size s = snd (bounds k) - fst (bounds k);
  ow_high : code_gen_highwater s = snd (bounds k) - TCG_HIGHWATER;
  ow_ptr : code_gen_buffer s <= code_gen_ptr s <= code_gen_buffer s + code_gen_buffer_size s
}.

Lemma assign_owns k : 0 <= k < n_regions r -> owns k (tcg_region_assign r k).
Proof using Hr.
  intros Hk. pose proof (bounds_spec k Hk) as (_ & H & _). unfold tcg_region_assign.
  destruct (bounds k) as [s e] eqn:E. cbn in *. unfold TCG_HIGHWATER in *.
  split; rewrite ?E; cbn; unfold TCG_HIGHWATER; lia.
Qed.

Lemma set_ptr_owns k s p : owns k s ->
  code_gen_buffer s <= p <= code_gen_buffer s + code_gen_buffer_size s -> owns k (set_ptr p s).
Proof. intros [] H. by split. Qed.

Lemma alloc_locked_spec cur s cur' :
  0 <= cur <= n_regions r -> tcg_region_alloc__locked r cur = Some (s, cur') ->
  owns cur s /\ cur' = cur + 1 /\ cur' <= n_regions r.
Proof using Hr.
  intros Hc. unfold tcg_region_alloc__locked. destruct (Z.eqb_spec cur (n_regions r)); [done |].
  intros [= <- <-]. split; [apply assign_owns; lia | lia].
Qed.

(** What a thread that holds the descriptor [tb] relies on. *)
Record holds (s : ctx) (tb : Z) : Prop := {
  ho_buffer : code_gen_buffer s <= tb;
  ho_aligned : ROUND_UP tb tcg_tb_alignment = tb;
  ho_ptr : code_gen_ptr s = ROUND_UP (tb + sizeof_tb) tcg_tb_alignment;
  ho_high : code_gen_ptr s <= code_gen_highwater s
}.

Lemma fit_spec k s :
  let tb := ROUND_UP (code_gen_ptr s) tcg_tb_alignment in
  let next := ROUND_UP (tb + sizeof_tb) tcg_tb_alignment in
  owns k s -> next <= code_gen_highwater s -> owns k (set_ptr next s) /\ holds (set_ptr next s) tb.
Proof using Hr Hsize.
  intros tb next Ho Hn.
  pose proof (round_up_spec (code_gen_ptr s) tcg_tb_alignment ltac:(done)) as Htb.
  pose proof (round_up_spec (tb + sizeof_tb) tcg_tb_alignment ltac:(done)) as Hnx.
  fold tb in Htb. fold next in Hnx. pose proof (ow_ptr _ _ Ho). pose proof (ow_high _ _ Ho).
  pose proof (ow_size _ _ Ho). pose proof (ow_buffer _ _ Ho). unfold TCG_HIGHWATER in *. split.
  - apply set_ptr_owns; [done |]. lia.
  - split; cbn; [lia | apply round_up_idemp; done | done | done].
Qed.

(** A descriptor: inside the region the context now owns, which is the old one, and
    then it is behind the old pointer, or one that was free. *)
Lemma tb_alloc_loop_spec fuel cur agg s k o s' cur' agg' :
  0 <= cur <= n_regions r -> owns k s ->
  tb_alloc_loop sizeof_tb fuel r cur agg s = Some (o, s', cur', agg') ->
  cur <= cur' <= n_regions r /\
  exists k', owns k' s' /\ (k' = k /\ code_gen_ptr s <= default (code_gen_ptr s') o \/ cur <= k' < cur') /\
    forall tb, o = Some tb -> holds s' tb.
Proof using Hr Hsize.
  revert cur agg s k. induction fuel as [| fuel IH]; intros cur agg s k Hc Ho; cbn [tb_alloc_loop];
    destruct (Z.ltb_spec (code_gen_highwater s) (ROUND_UP (ROUND_UP (code_gen_ptr s) tcg_tb_alignment + sizeof_tb) tcg_tb_alignment)) as [Hlt | Hge].
  2,4: intros [= <- <- <- <-]; split; [lia |]; exists k; destruct (fit_spec k s Ho Hge) as [Ho' Hh];
       split_and!; [done | left; split; [done |]; apply round_up_spec; done | by intros ? [= <-]].
  all: unfold tcg_region_alloc; destruct (tcg_region_alloc__locked r cur) as [[s1 cur1] |] eqn:E; cbn [mbind option_bind].
  2,4: by intros [= <- <- <- <-]; split; [lia |]; exists k; split_and!; [done | by left | done].
  - done.
  - destruct (alloc_locked_spec _ _ _ Hc E) as (Ho1 & -> & Hc1). intros H.
    destruct (IH (cur + 1) _ _ _ ltac:(lia) Ho1 H) as (Hc' & k' & Ho' & Hk & Htb).
    split; [lia |]. exists k'. split_and!; [done | right; lia | done].
Qed.

(** The retry loop never runs out of fuel: every retry takes a region. *)
Lemma tb_alloc_total cur agg s : 0 <= cur <= n_regions r ->
  is_Some (tcg_tb_alloc sizeof_tb r cur agg s).
Proof using Hr.
  unfold tcg_tb_alloc. remember (Z.to_nat (n_regions r - cur)) as fuel eqn:Ef.
  revert cur agg s Ef. induction fuel as [| fuel IH]; intros cur agg s Ef Hc; cbn [tb_alloc_loop]; case_match; try by eexists.
  - unfold tcg_region_alloc, tcg_region_alloc__locked. rewrite (proj2 (Z.eqb_eq _ _)) by lia. by eexists.
  - unfold tcg_region_alloc. destruct (tcg_region_alloc__locked r cur) as [[s1 cur1] |] eqn:E; cbn [mbind option_bind]; [| by eexists].
    destruct (alloc_locked_spec _ _ _ Hc E) as (_ & -> & _). apply IH; lia.
Qed.

(** ** The invariant of all threads *)

(** Where thread [i] will put its next bytes: behind the blocks it has finished. *)
Definition frontier (pend : gmap nat Z) (i : nat) (s : ctx) : Z := default (code_gen_ptr s) (pend !! i).

Definition apart (p q : Z * Z) : Prop := snd p <= fst q \/ snd q <= fst p.

(** A finished block lies in a region that has been handed out, behind the thread
    that owns the region if one does. *)
Record placed (y : sys) (own : gmap nat Z) (k : Z) (p : Z * Z) : Prop := {
  pl_used : 0 <= k < current (shared y);
  pl_low : fst (bounds k) <= fst p;
  pl_span : fst p <= snd p;
  pl_high : snd p <= snd (bounds k);
  pl_first : own !! 0%nat = None -> k <> 0;
  pl_owner : forall i s, own !! i = Some k -> ctxs (shared y) !! i = Some (Some s) -> snd p <= frontier (pending y) i s
}.

(** Every thread that has registered owns a region below [current], no region is
    owned twice, and a thread that holds a descriptor has its pointer right behind it.
    Until the first context is published, region 0 belongs to the start-up context. *)
Record inv (y : sys) (own : gmap nat Z) : Prop := {
  inv_cur : 0 <= current (shared y) <= n_regions r;
  inv_own : forall i k, own !! i = Some k -> exists s, ctxs (shared y) !! i = Some (Some s) /\ owns k s;
  inv_inj : forall i j k, own !! i = Some k -> own !! j = Some k -> i = j;
  inv_used : forall i k, own !! i = Some k -> k < current (shared y);
  inv_placed : forall i, (i < length (ctxs (shared y)))%nat -> i ∉ joining y -> is_Some (own !! i);
  inv_zero : forall s, ctxs (shared y) !! 0%nat = Some (Some s) -> is_Some (own !! 0%nat);
  inv_first : own !! 0%nat = None -> 1 <= current (shared y) /\ forall i k, own !! i = Some k -> k <> 0;
  inv_pend : forall i tb, pending y !! i = Some tb ->
    (i ∉ joining y) /\ exists s, ctxs (shared y) !! i = Some (Some s) /\ holds s tb;
  inv_live : forall p, p ∈ committed y -> exists k, placed y own k p;
  inv_apart : ForallOrdPairs apart (committed y);
  inv_ctx : forall i s, ctxs (shared y) !! i = Some (Some s) -> exists k, owns k s
}.

Lemma own_of y own i s : inv y own -> ctxs (shared y) !! i = Some (Some s) -> i ∉ joining y ->
  exists k, own !! i = Some k /\ owns k s.
Proof.
  intros Hi Hs Hj. destruct (inv_placed _ _ Hi i) as [k Hk]; [by eapply lookup_lt_Some | done |].
  destruct (inv_own _ _ Hi i k Hk) as (s0 & Hs0 & Ho). rewrite Hs in Hs0. simplify_eq. by exists k.
Qed.

(** Replacing one thread's context by one that owns the same region, no nearer its
    start, or one that was free. *)
Lemma inv_set_ctx y own i k k' s s' cur agg pend :
  inv y own -> own !! i = Some k -> ctxs (shared y) !! i = Some (Some s) -> i ∉ joining y -> owns k' s' ->
  current (shared y) <= cur <= n_regions r ->
  (k' = k /\ frontier (pending y) i s <= frontier pend i s' \/ current (shared y) <= k' < cur) ->
  (forall tb, pend !! i = Some tb -> holds s' tb) ->
  (forall j, j <> i -> pend !! j = pending y !! j) ->
  inv {| shared := set_ctx i s' cur agg (shared y); joining := joining y; pending := pend; committed := committed y |}
    (<[i := k']> own).
Proof.
  intros [Hc Hown Hinj Hused Hpl Hz Hfirst Hpend Hlive Hap Hctx] Hk Hs Hj Ho Hcur Hk' Htb Hother.
  pose proof (lookup_lt_Some _ _ _ Hs) as His. pose proof (Hused i k Hk) as Huk.
  assert (Hnew : forall j x, own !! j = Some x -> j <> i -> x <> k').
  { intros j x Hx Hji ->. destruct Hk' as [[-> _] | Hk']; [by apply Hji, (Hinj j i k) | specialize (Hused _ _ Hx); lia]. }
  split; cbn.
  - lia.
  - intros j x Hx. destruct (decide (j = i)) as [-> |]; simpl_map.
    + simplify_eq. exists s'. by rewrite list_lookup_insert_eq.
    + rewrite list_lookup_insert_ne by done. by apply Hown.
  - intros a b x Ha Hb. destruct (decide (a = i)) as [-> |]; destruct (decide (b = i)) as [-> |]; simpl_map; simplify_eq; [done | | |].
    + by destruct (Hnew b _ Hb).
    + by destruct (Hnew a _ Ha).
    + by eapply Hinj.
  - intros j x Hx. destruct (decide (j = i)) as [-> |]; simpl_map; [simplify_eq; lia | specialize (Hused _ _ Hx); lia].
  - intros j Hlt Hjn. rewrite length_insert in Hlt. destruct (decide (j = i)) as [-> |]; simpl_map; [by eexists | by apply Hpl].
  - intros s0 Hs0. destruct (decide (i = 0)%nat) as [-> |]; simpl_map; [by eexists |].
    rewrite list_lookup_insert_ne in Hs0 by done. by eapply Hz.
  - intros H0. destruct (decide (i = 0)%nat) as [-> |]; simpl_map; [done |]. destruct (Hfirst H0) as [H1 H2]. split; [lia |].
    intros j x Hx. destruct (decide (j = i)) as [-> |]; simpl_map; [| by eapply H2].
    simplify_eq. destruct Hk' as [[-> _] | ?]; [by eapply H2 | lia].
  - intros j tb Hjt. destruct (decide (j = i)) as [-> |].
    + split; [done |]. exists s'. rewrite list_lookup_insert_eq by done. eauto.
    + rewrite list_lookup_insert_ne by done. apply Hpend. by rewrite <- Hother.
  - intros p Hp. destruct (Hlive p Hp) as [kp [P1 P2 P3 P4 P5 P6]]. exists kp. split; cbn; try done; [lia | |].
    + intros H0. destruct (decide (i = 0)%nat) as [-> |]; simpl_map; [done | by apply P5].
    + intros j sj Hx Hsj. destruct (decide (j = i)) as [-> |]; simpl_map.
      * rewrite list_lookup_insert_eq in Hsj by done. simplify_eq. destruct Hk' as [[-> Hfr] | ?]; [| lia].
        specialize (P6 i s Hk Hs). lia.
      * rewrite list_lookup_insert_ne in Hsj by done. unfold frontier. rewrite Hother by done. by apply P6.
  - done.
  - intros j sj [(<- & [= <-] & _) | [_ Hsj]]%list_lookup_insert_Some; [by exists k' | by eapply Hctx].
Qed.

(** A finished block that ends at the thread's pointer. *)
Lemma inv_commit y own i k s p :
  inv y own -> own !! i = Some k -> ctxs (shared y) !! i = Some (Some s) -> owns k s ->
  fst (bounds k) <= fst p <= snd p -> snd p <= frontier (pending y) i s -> snd p <= snd (bounds k) ->
  Forall (apart p) (committed y) ->
  inv {| shared := shared y; joining := joining y; pending := pending y; committed := p :: committed y |} own.
Proof.
  intros Hi Hk Hs Ho H1 H2 H3 Hall. pose proof Hi as [Hc Hown Hinj Hused Hpl Hz Hfirst Hpend Hlive Hap Hctx].
  split; cbn; try done; [| by constructor].
  intros q [-> | Hq]%elem_of_cons.
  - exists k. pose proof (ow_region _ _ Ho). pose proof (Hused i k Hk). split; cbn [shared pending]; [lia | lia | lia | lia | |].
    + intros E0. destruct (Hfirst E0) as [_ E1]. by eapply E1.
    + intros j sj Hj Hsj. rewrite (Hinj j i k Hj Hk) in *. rewrite Hs in Hsj. by simplify_eq.
  - destruct (Hlive q Hq) as [kq [P1 P2 P3 P4 P5 P6]]. by exists kq.
Qed.

(** What lies between a thread's frontier and the end of its region is free. *)
Lemma fresh_apart y own i k s p :
  inv y own -> own !! i = Some k -> ctxs (shared y) !! i = Some (Some s) -> owns k s ->
  frontier (pending y) i s <= fst p -> fst (bounds k) <= fst p -> snd p <= snd (bounds k) ->
  Forall (apart p) (committed y).
Proof using Hr.
  intros Hi Hk Hs Ho H1 H2 H3. apply list.Forall_forall. intros q Hq.
  destruct (inv_live _ _ Hi q Hq) as [kq [P1 P2 P3 P4 P5 P6]]. unfold apart.
  pose proof (inv_used _ _ Hi i k Hk). pose proof (ow_region _ _ Ho). pose proof (inv_cur _ _ Hi).
  destruct (Z.lt_total kq k) as [Hlt | [-> | Hlt]].
  - pose proof (bounds_disjoint kq k ltac:(lia) ltac:(lia)). right. lia.
  - specialize (P6 i s Hk Hs). right. lia.
  - pose proof (bounds_disjoint k kq ltac:(lia) ltac:(lia)). left. lia.
Qed.

(** A reset gives context [i] region [cur + i]. *)
Lemma initial_allocs_spec l0 cur l cur' :
  0 <= cur <= n_regions r -> initial_allocs r cur l0 = Some (l, cur') ->
  length l = length l0 /\ cur' = cur + Z.of_nat (length l0) /\ cur' <= n_regions r /\
  forall i o, l !! i = Some o -> exists s, o = Some s /\ owns (cur + Z.of_nat i) s.
Proof using Hr.
  revert cur l. induction l0 as [| [s0 |] l0 IH]; intros cur l Hc; cbn [initial_allocs].
  - intros [= <- <-]. split_and!; [done | cbn; lia | lia | done].
  - destruct (tcg_region_alloc__locked r cur) as [[s1 cur1] |] eqn:E; [cbn [mbind option_bind] | done].
    destruct (alloc_locked_spec _ _ _ Hc E) as (Ho & -> & Hc1).
    destruct (initial_allocs r (cur + 1) l0) as [[l1 cur2] |] eqn:E2; [cbn [mbind option_bind] | done].
    intros [= <- <-]. destruct (IH (cur + 1) l1 ltac:(lia) E2) as (Hl & -> & Hle & Hall).
    split_and!; [by cbn; f_equal | cbn; lia | cbn; lia |].
    intros [| i] o Ho'; cbn in Ho'; [simplify_eq; rewrite Z.add_0_r; by eexists |].
    replace (cur + Z.of_nat (S i)) with (cur + 1 + Z.of_nat i) by lia. by apply Hall.
  - done.
Qed.

Lemma reset_inv st st' join : ctxs st <> [] -> tcg_region_reset_all r st = Some st' ->
  inv {| shared := st'; joining := join; pending := ∅; committed := [] |} (map_seq 0 (seqZ 0 (Z.of_nat (length (ctxs st))))).
Proof using Hr.
  intros Hne. unfold tcg_region_reset_all.
  destruct (initial_allocs r 0 (ctxs st)) as [[l cur] |] eqn:E; [cbn [mbind option_bind] | done].
  intros [= <-]. pose proof (ok_n r Hr).
  destruct (initial_allocs_spec _ 0 _ _ ltac:(lia) E) as (Hl & -> & Hle & Hall).
  assert (Hlk : forall i k, (map_seq 0 (seqZ 0 (Z.of_nat (length (ctxs st)))) : gmap nat Z) !! i = Some k <->
            k = Z.of_nat i /\ (i < length (ctxs st))%nat).
  { intros i k. rewrite lookup_map_seq_0, lookup_seqZ. lia. }
  split; cbn.
  - lia.
  - intros i k [-> Hi]%Hlk. destruct (lookup_lt_is_Some_2 l i) as [o Ho]; [lia |].
    destruct (Hall i o Ho) as (s & -> & Hs). by exists s.
  - intros i j k [-> _]%Hlk [Hk _]%Hlk. lia.
  - intros i k [-> Hi]%Hlk. lia.
  - intros i Hi _. eexists. apply Hlk. split; [done | lia].
  - intros s Hs%lookup_lt_Some. eexists. apply Hlk. split; [done | lia].
  - intros H0. exfalso. assert (Hpos : (0 < length (ctxs st))%nat) by (destruct (ctxs st); [done | cbn; lia]).
    assert (H1 : (map_seq 0 (seqZ 0 (Z.of_nat (length (ctxs st)))) : gmap nat Z) !! 0%nat = Some 0) by by apply Hlk. congruence.
  - intros i tb. by rewrite lookup_empty.
  - by intros p ?%elem_of_nil.
  - constructor.
  - intros i s Hs. destruct (Hall i _ Hs) as (s' & [= ->] & Ho). by eexists.
Qed.

Lemma commit_owns k s tb code search : owns k s -> holds s tb -> 0 <= code -> 0 <= search ->
  code_gen_ptr s + code + search <= code_gen_highwater s ->
  owns k (tb_commit code search s) /\ tb <= code_gen_ptr (tb_commit code search s) /\ fst (bounds k) <= tb.
Proof using Hr Hsize.
  intros Ho Hh Hc Hs Hfit. pose proof (round_up_spec (code_gen_ptr s + code + search) CODE_GEN_ALIGN ltac:(done)) as Hup.
  pose proof (round_up_spec (tb + sizeof_tb) tcg_tb_alignment ltac:(done)).
  unfold tb_commit. set (e := ROUND_UP (_ + _ + _) _) in *. pose proof (ow_ptr _ _ Ho). pose proof (ow_high _ _ Ho).
  pose proof (ow_buffer _ _ Ho). pose proof (ow_size _ _ Ho). destruct Hh. unfold TCG_HIGHWATER, CODE_GEN_ALIGN in *.
  split_and!; [apply set_ptr_owns; [done | lia] | cbn [code_gen_ptr set_ptr]; lia | lia].
Qed.

Lemma discard_owns k s s1 tb : owns k s -> holds s tb -> owns k s1 ->
  owns k (tb_discard sizeof_tb (code_gen_ptr s) s1) /\ code_gen_ptr (tb_discard sizeof_tb (code_gen_ptr s) s1) = tb.
Proof using Hr Hsize.
  intros Ho Hh Ho1.
  assert (E : code_gen_ptr s - ROUND_UP sizeof_tb tcg_tb_alignment = tb).
  { rewrite (ho_ptr _ _ Hh), <- (ho_aligned _ _ Hh) at 1. rewrite round_up_add by done.
    rewrite (ho_aligned _ _ Hh). lia. }
  split; [| exact E]. apply set_ptr_owns; [done |].
  rewrite E. pose proof (ho_buffer _ _ Hh). pose proof (ho_ptr _ _ Hh) as Hp.
  pose proof (round_up_spec (tb + sizeof_tb) tcg_tb_alignment ltac:(done)).
  destruct Ho, Ho1. lia.
Qed.

Context (Hinit : owns 0 init_ctx).

Lemma claim_inv y own n st' : inv y own -> register_claim max_ctxs (shared y) = Some (n, st') ->
  inv {| shared := st'; joining := {[n]} ∪ joining y; pending := pending y; committed := committed y |} own.
Proof.
  intros [Hc Hown Hinj Hused Hpl Hz Hfirst Hpend Hlive Hap Hctx]. unfold register_claim. case_match; [done |]. intros [= <- <-].
  split; cbn; try done.
  - intros i k Hk. destruct (Hown i k Hk) as (s & Hs & Ho). exists s. split; [by apply lookup_app_l_Some | done].
  - intros i Hi Hj. rewrite length_app in Hi. cbn in Hi. apply Hpl; [| set_solver].
    destruct (decide (i = length (ctxs (shared y)))) as [-> |]; [set_solver | lia].
  - intros s [Hs | [_ Hs%list_lookup_singleton_Some]]%lookup_app_Some; [by eapply Hz | by destruct Hs].
  - intros i tb Hi. destruct (Hpend i tb Hi) as (Hj & s & Hs & Hh). pose proof (lookup_lt_Some _ _ _ Hs). split.
    + intros [->%elem_of_singleton | ?]%elem_of_union; [lia | done].
    + exists s. split; [by apply lookup_app_l_Some | done].
  - intros p Hp. destruct (Hlive p Hp) as [k [P1 P2 P3 P4 P5 P6]]. exists k. split; cbn [shared pending current ctxs register_publish]; try done.
    intros i s Hi [Hs | [_ Hs%list_lookup_singleton_Some]]%lookup_app_Some; [by apply P6 | by destruct Hs].
  - intros i s [Hs | [_ Hs%list_lookup_singleton_Some]]%lookup_app_Some; [by eapply Hctx | by destruct Hs].
Qed.

(** A context is published: the first one takes over region 0, a later one is a copy
    that its thread does not use yet. *)
Lemma publish_inv y own n : inv y own -> n ∈ joining y -> ctxs (shared y) !! n = Some None ->
  inv {| shared := register_publish init_ctx n (shared y); joining := joining y; pending := pending y;
         committed := committed y |} (if decide (n = 0)%nat then <[0%nat := 0]> own else own).
Proof using Hr Hinit.
  intros [Hc Hown Hinj Hused Hpl Hz Hfirst Hpend Hlive Hap Hctx] Hn Hs.
  pose proof (lookup_lt_Some _ _ _ Hs) as Hlt.
  assert (Hno : own !! n = None).
  { destruct (own !! n) as [k |] eqn:E; [| done]. destruct (Hown n k E) as (s & Hs' & _). congruence. }
  assert (Hown' : forall i k, own !! i = Some k ->
            exists s, <[n := Some init_ctx]> (ctxs (shared y)) !! i = Some (Some s) /\ owns k s).
  { intros i k Hk. rewrite list_lookup_insert_ne by congruence. by apply Hown. }
  assert (Hpend' : forall i tb, pending y !! i = Some tb ->
            (i ∉ joining y) /\ exists s, <[n := Some init_ctx]> (ctxs (shared y)) !! i = Some (Some s) /\ holds s tb).
  { intros i tb Hi. destruct (Hpend i tb Hi) as [Hj Hx]. split; [done |]. rewrite list_lookup_insert_ne; [done | congruence]. }
  assert (Hctx' : forall i s, <[n := Some init_ctx]> (ctxs (shared y)) !! i = Some (Some s) -> exists k, owns k s).
  { intros i s [(_ & [= <-] & _) | [_ Hsi]]%list_lookup_insert_Some; [by exists 0 | by eapply Hctx]. }
  destruct (decide (n = 0)%nat) as [-> | Hn0]; split; cbn [shared joining pending committed register_publish current ctxs]; try done.
  - intros i k Hk. destruct (decide (i = 0)%nat) as [-> |]; simpl_map; [| by apply Hown'].
    simplify_eq. exists init_ctx. by rewrite list_lookup_insert_eq.
  - destruct (Hfirst Hno) as [_ H0]. intros i j k Hi Hj.
    destruct (decide (i = 0)%nat) as [-> |]; destruct (decide (j = 0)%nat) as [-> |]; simpl_map; simplify_eq; try done;
      [by destruct (H0 _ _ Hj) | by destruct (H0 _ _ Hi) | by eapply Hinj].
  - destruct (Hfirst Hno) as [H1 _]. intros i k Hk. destruct (decide (i = 0)%nat) as [-> |]; simpl_map; [simplify_eq; lia | by eapply Hused].
  - intros i Hi Hj. rewrite length_insert in Hi. destruct (decide (i = 0)%nat) as [-> |]; simpl_map; [by eexists | by apply Hpl].
  - intros s _. simpl_map. by eexists.
  - simpl_map. done.
  - intros p Hp. destruct (Hlive p Hp) as [k [P1 P2 P3 P4 P5 P6]]. exists k. split; cbn [shared pending current ctxs register_publish]; try done; [by simpl_map |].
    intros i s Hi Hsi. destruct (decide (i = 0)%nat) as [-> |]; simpl_map; [by simplify_eq; destruct (P5 Hno) |].
    rewrite list_lookup_insert_ne in Hsi by done. by apply P6.
  - intros i Hi Hj. rewrite length_insert in Hi. by apply Hpl.
  - intros s. rewrite list_lookup_insert_ne by done. apply Hz.
  - intros p Hp. destruct (Hlive p Hp) as [k [P1 P2 P3 P4 P5 P6]]. exists k. split; cbn [shared pending current ctxs register_publish]; try done.
    intros i s Hi Hsi. rewrite list_lookup_insert_ne in Hsi by congruence. by apply P6.
Qed.

(** The thread gets the next free region. *)
Lemma place_new_inv y own n s0 s : inv y own -> n ∈ joining y -> ctxs (shared y) !! n = Some (Some s0) ->
  owns (current (shared y)) s -> current (shared y) + 1 <= n_regions r -> (0 < n)%nat ->
  inv {| shared := {| current := current (shared y) + 1; agg_size_full := agg_size_full (shared y);
                      ctxs := <[n := Some s]> (ctxs (shared y)) |};
         joining := joining y ∖ {[n]}; pending := pending y; committed := committed y |} (<[n := current (shared y)]> own).
Proof.
  intros [Hc Hown Hinj Hused Hpl Hz Hfirst Hpend Hlive Hap Hctx] Hn Hs Ho Hle Hn0. pose proof (lookup_lt_Some _ _ _ Hs) as Hlt.
  assert (Hfr : forall i, own !! i <> Some (current (shared y))) by (intros i Hi; specialize (Hused _ _ Hi); lia).
  split; cbn [shared joining pending committed current ctxs]; try done.
  - lia.
  - intros i k Hk. destruct (decide (i = n)) as [-> |]; simpl_map.
    + simplify_eq. exists s. by rewrite list_lookup_insert_eq.
    + rewrite list_lookup_insert_ne by done. by apply Hown.
  - intros i j k Hi Hj. destruct (decide (i = n)) as [-> |]; destruct (decide (j = n)) as [-> |]; simpl_map; simplify_eq; try done;
      [by destruct (Hfr j) | by destruct (Hfr i) | by eapply Hinj].
  - intros i k Hk. destruct (decide (i = n)) as [-> |]; simpl_map; [simplify_eq; lia | specialize (Hused _ _ Hk); lia].
  - intros i Hi Hj. rewrite length_insert in Hi. destruct (decide (i = n)) as [-> |]; simpl_map; [by eexists |].
    apply Hpl; [done | set_solver].
  - intros s1. rewrite list_lookup_insert_ne by lia. rewrite lookup_insert_ne by lia. apply Hz.
  - rewrite lookup_insert_ne by lia. intros H0. destruct (Hfirst H0) as [H1 H2]. split; [lia |].
    intros i k Hk. destruct (decide (i = n)) as [-> |]; simpl_map; [simplify_eq; lia | by eapply H2].
  - intros i tb Hi. destruct (Hpend i tb Hi) as [Hj Hx]. split; [set_solver |]. rewrite list_lookup_insert_ne; [done | set_solver].
  - intros p Hp. destruct (Hlive p Hp) as [k [P1 P2 P3 P4 P5 P6]]. exists k. split; cbn [shared pending current ctxs register_publish]; try done; [lia | |].
    + rewrite lookup_insert_ne by lia. done.
    + intros i si Hi Hsi. destruct (decide (i = n)) as [-> |]; simpl_map; [simplify_eq; lia |].
      rewrite list_lookup_insert_ne in Hsi by done. by apply P6.
  - intros i si [(_ & [= <-] & _) | [_ Hsi]]%list_lookup_insert_Some; [by eexists | by eapply Hctx].
Qed.

Lemma place_inv y own n s st' : inv y own -> n ∈ joining y -> ctxs (shared y) !! n = Some (Some s) ->
  register_place r n (shared y) = Some st' ->
  exists own', inv {| shared := st'; joining := joining y ∖ {[n]}; pending := pending y; committed := committed y |} own'.
Proof using Hr Hsize Hinit.
  intros Hi Hn Hs. unfold register_place. destruct (Nat.ltb_spec 0 n) as [Hn0 | Hn0].
  - destruct (tcg_region_alloc__locked r (current (shared y))) as [[s1 cur] |] eqn:E; [cbn [mbind option_bind] | done].
    intros [= <-]. destruct (alloc_locked_spec _ _ _ (inv_cur _ _ Hi) E) as (Ho & -> & Hle).
    eexists. by eapply place_new_inv.
  - intros [= <-]. assert (n = 0%nat) as -> by lia. exists own. destruct Hi as [Hc Hown Hinj Hused Hpl Hz Hfirst Hpend Hlive Hap Hctx].
    split; cbn; try done.
    + intros i Hlt Hj. destruct (decide (i = 0)%nat) as [-> |]; [by eapply Hz | apply Hpl; [done | set_solver]].
    + intros i tb Hi. destruct (Hpend i tb Hi) as [Hj Hx]. split; [set_solver | done].
    + intros p Hp. destruct (Hlive p Hp) as [k [P1 P2 P3 P4 P5 P6]]. by exists k.
Qed.

Lemma tb_alloc_inv y own i s o s' cur agg : inv y own -> ctxs (shared y) !! i = Some (Some s) -> i ∉ joining y ->
  tcg_tb_alloc sizeof_tb r (current (shared y)) (agg_size_full (shared y)) s = Some (o, s', cur, agg) ->
  exists own', inv {| shared := set_ctx i s' cur agg (shared y); joining := joining y;
    pending := match o with Some tb => <[i := tb]> (pending y) | None => delete i (pending y) end; committed := committed y |} own'.
Proof using Hr Hsize.
  intros Hi Hs Hj E. destruct (own_of _ _ _ _ Hi Hs Hj) as (k & Hk & Ho).
  destruct (tb_alloc_loop_spec _ _ _ _ _ _ _ _ _ (inv_cur _ _ Hi) Ho E) as (Hle & k' & Ho' & Hk' & Hh).
  assert (Hf : frontier (pending y) i s <= code_gen_ptr s).
  { unfold frontier. destruct (pending y !! i) as [tb |] eqn:Ep; cbn; [| lia].
    destruct (inv_pend _ _ Hi i tb Ep) as (_ & s0 & Hs0 & Hh0). rewrite Hs in Hs0. simplify_eq. destruct Hh0 as [_ _ E0 _].
    pose proof (round_up_spec (tb + sizeof_tb) tcg_tb_alignment ltac:(done)). lia. }
  eexists. eapply (inv_set_ctx y own i k k' s s' cur agg); try done.
  - destruct Hk' as [[-> Hp] | Hk']; [left | by right]. split; [done |]. unfold frontier at 2.
    destruct o as [tb |]; [rewrite lookup_insert_eq | rewrite lookup_delete_eq]; cbn in *; lia.
  - intros tb. destruct o as [tb' |]; [rewrite lookup_insert_eq | rewrite lookup_delete_eq; done].
    intros [= <-]. by apply Hh.
  - intros j Hne. destruct o; [by rewrite lookup_insert_ne | by rewrite lookup_delete_ne].
Qed.

(** The end of a translation: its thread's context [s'] ends at or behind the old
    descriptor. *)
Lemma finish_inv y own i s tb k s' : inv y own -> own !! i = Some k -> ctxs (shared y) !! i = Some (Some s) ->
  pending y !! i = Some tb -> owns k s' -> tb <= code_gen_ptr s' ->
  inv {| shared := set_ctx i s' (current (shared y)) (agg_size_full (shared y)) (shared y); joining := joining y;
         pending := delete i (pending y); committed := committed y |} (<[i := k]> own).
Proof using Hr.
  intros Hi Hk Hs Hp Ho Hle. destruct (inv_pend _ _ Hi i tb Hp) as [Hj _]. pose proof (inv_cur _ _ Hi).
  eapply inv_set_ctx; try done; [| left; split; [done |] | |].
  - lia.
  - unfold frontier. rewrite Hp, lookup_delete_eq. done.
  - intros tb'. by rewrite lookup_delete_eq.
  - intros j Hne. by rewrite lookup_delete_ne.
Qed.

Lemma commit_inv y own i s tb code search : inv y own -> ctxs (shared y) !! i = Some (Some s) ->
  pending y !! i = Some tb -> 0 <= code -> 0 <= search -> code_gen_ptr s + code + search <= code_gen_highwater s ->
  exists own', inv {| shared := set_ctx i (tb_commit code search s) (current (shared y)) (agg_size_full (shared y)) (shared y);
    joining := joining y; pending := delete i (pending y);
    committed := (tb, code_gen_ptr (tb_commit code search s)) :: committed y |} own'.
Proof using Hr Hsize.
  intros Hi Hs Hp Hc1 Hc2 Hfit. destruct (inv_pend _ _ Hi i tb Hp) as (Hj & s0 & Hs0 & Hh). rewrite Hs in Hs0. simplify_eq.
  destruct (own_of _ _ _ _ Hi Hs Hj) as (k & Hk & Ho).
  destruct (commit_owns k s0 tb code search Ho Hh Hc1 Hc2 Hfit) as (Ho' & Hle & Hlow).
  pose proof (ow_buffer _ _ Ho') as B1. pose proof (ow_size _ _ Ho') as B2. pose proof (ow_ptr _ _ Ho') as B3.
  assert (Hap : Forall (apart (tb, code_gen_ptr (tb_commit code search s0))) (committed y)).
  { eapply fresh_apart; [done | done | done | done | | |]; [unfold frontier; rewrite Hp | |]; cbn [fst snd]; [done | done | lia]. }
  pose proof (finish_inv y own i s0 tb k _ Hi Hk Hs Hp Ho' Hle) as Hf. eexists.
  eapply (inv_commit _ _ i k (tb_commit code search s0) (tb, _) Hf); cbn [fst snd shared pending committed];
    [by rewrite lookup_insert_eq | | done | lia | | lia | done].
  - cbn. rewrite list_lookup_insert_eq; [done |]. by eapply lookup_lt_Some.
  - unfold frontier. rewrite lookup_delete_eq. done.
Qed.

Lemma discard_inv y own i s tb code search : inv y own -> ctxs (shared y) !! i = Some (Some s) ->
  pending y !! i = Some tb -> 0 <= code -> 0 <= search -> code_gen_ptr s + code + search <= code_gen_highwater s ->
  exists own', inv {| shared := set_ctx i (tb_discard sizeof_tb (code_gen_ptr s) (tb_commit code search s))
                        (current (shared y)) (agg_size_full (shared y)) (shared y);
    joining := joining y; pending := delete i (pending y); committed := committed y |} own'.
Proof using Hr Hsize.
  intros Hi Hs Hp Hc1 Hc2 Hfit. destruct (inv_pend _ _ Hi i tb Hp) as (Hj & s0 & Hs0 & Hh). rewrite Hs in Hs0. simplify_eq.
  destruct (own_of _ _ _ _ Hi Hs Hj) as (k & Hk & Ho).
  destruct (commit_owns k s0 tb code search Ho Hh Hc1 Hc2 Hfit) as (Ho' & _).
  destruct (discard_owns k s0 _ tb Ho Hh Ho') as [Ho2 E]. eexists. eapply finish_inv; try done. lia.
Qed.

Lemma rstep_inv y own y' : inv y own -> rstep r sizeof_tb max_ctxs init_ctx y y' -> exists own', inv y' own'.
Proof using Hr Hsize Hinit.
  intros Hi Hstep. destruct Hstep.
  - eexists. by eapply (claim_inv _ _ _ _ Hi).
  - eexists. by eapply (publish_inv _ _ _ Hi).
  - by eapply (place_inv _ _ _ _ _ Hi).
  - by eapply (tb_alloc_inv _ _ _ _ _ _ _ _ Hi).
  - by eapply (commit_inv _ _ _ _ _ _ _ Hi).
  - by eapply (discard_inv _ _ _ _ _ _ _ Hi).
  - eexists. by apply reset_inv.
Qed.

Lemma rsteps_inv y own y' : inv y own -> rtc (rstep r sizeof_tb max_ctxs init_ctx) y y' -> exists own', inv y' own'.
Proof using Hr Hsize Hinit.
  intros Hi Hs. revert own Hi. induction Hs as [| y y1 y2 H1 _ IH]; intros own Hi; [by eexists |].
  destruct (rstep_inv _ _ _ Hi H1) as [own' Hi']. by eapply IH.
Qed.

(** What the invariant means for memory. *)
Lemma inv_disjoint y own i j si sj : inv y own -> i <> j -> i ∉ joining y -> j ∉ joining y ->
  ctxs (shared y) !! i = Some (Some si) -> ctxs (shared y) !! j = Some (Some sj) ->
  code_gen_buffer si + code_gen_buffer_size si <= code_gen_buffer sj \/
  code_gen_buffer sj + code_gen_buffer_size sj <= code_gen_buffer si.
Proof using Hr.
  intros Hi Hij Hji Hjj Hsi Hsj.
  destruct (own_of _ _ _ _ Hi Hsi Hji) as (ki & Hki & []). destruct (own_of _ _ _ _ Hi Hsj Hjj) as (kj & Hkj & []).
  assert (ki <> kj) by (intros ->; by apply Hij, (inv_inj _ _ Hi i j kj)).
  destruct (Z.lt_total ki kj) as [Hlt | [? | Hlt]]; [left | lia | right].
  - pose proof (bounds_disjoint ki kj ltac:(lia) ltac:(lia)). lia.
  - pose proof (bounds_disjoint kj ki ltac:(lia) ltac:(lia)). lia.
Qed.

Lemma owns_bounds k s : owns k s ->
  start_aligned r <= code_gen_buffer s <= code_gen_ptr s /\
  code_gen_ptr s <= code_gen_buffer s + code_gen_buffer_size s <= start_aligned r + total_size r.
Proof using Hr.
  intros [Hreg Hb Hz Hhw Hp]. destruct (bounds_spec k Hreg) as (H1 & H2 & _ & H4). destruct Hr. unfold TCG_HIGHWATER in *.
  assert (0 <= k * stride r) by (apply Z.mul_nonneg_nonneg; lia). lia.
Qed.

Lemma inv_committed y own p : inv y own -> p ∈ committed y ->
  start_aligned r <= fst p <= snd p /\ snd p <= start_aligned r + total_size r.
Proof using Hr.
  intros Hi Hp. destruct (inv_live _ _ Hi p Hp) as [k [P1 P2 P3 P4 _ _]]. pose proof (inv_cur _ _ Hi).
  destruct (bounds_spec k ltac:(lia)) as (H1 & H2 & _ & H4). destruct Hr. unfold TCG_HIGHWATER in *.
  assert (0 <= k * stride r) by (apply Z.mul_nonneg_nonneg; lia). lia.
Qed.

(** A descriptor and what is behind it are in the thread's own region, apart from
    every finished block. *)
Lemma inv_pending y own i tb : inv y own -> pending y !! i = Some tb ->
  exists s, ctxs (shared y) !! i = Some (Some s) /\ code_gen_buffer s <= tb /\ tb mod tcg_tb_alignment = 0 /\
    tb + sizeof_tb <= code_gen_ptr s <= code_gen_highwater s /\
    Forall (apart (tb, code_gen_buffer s + code_gen_buffer_size s)) (committed y).
Proof using Hr.
  intros Hi Hp. destruct (inv_pend _ _ Hi i tb Hp) as (Hj & s & Hs & [H1 H2 H3 H4]). exists s.
  destruct (own_of _ _ _ _ Hi Hs Hj) as (k & Hk & Ho). pose proof (round_up_spec (tb + sizeof_tb) tcg_tb_alignment ltac:(done)).
  split_and!; [done | done | | lia | lia |].
  - rewrite <- H2. unfold ROUND_UP, ALIGN_DOWN. apply Z.mod_mul. done.
  - eapply fresh_apart; try done; cbn [fst snd]; [unfold frontier; by rewrite Hp | |]; destruct Ho; lia.
Qed.

Lemma inv_count y own : inv y own -> joining y = ∅ -> Z.of_nat (length (ctxs (shared y))) <= n_regions r.
Proof using Hr.
  intros Hi Hj. set (n := length (ctxs (shared y))).
  set (f := fun i => default 0 (own !! i)).
  assert (Hf : forall i, (i < n)%nat -> own !! i = Some (f i)).
  { intros i Hlt. destruct (inv_placed _ _ Hi i Hlt) as [k Hk]; [rewrite Hj; apply not_elem_of_empty |]. unfold f. by rewrite Hk. }
  assert (Hsub : f <$> seq 0 n ⊆+ seqZ 0 (n_regions r)).
  { apply NoDup_submseteq.
    - apply NoDup_fmap_2_strong; [| apply NoDup_seq]. intros a b [_ Ha]%elem_of_seq [_ Hb]%elem_of_seq E.
      apply (inv_inj _ _ Hi a b (f a)); [by apply Hf | rewrite E; by apply Hf].
    - intros k (i & -> & [_ Hlt]%elem_of_seq)%list_elem_of_fmap. destruct (inv_own _ _ Hi i _ (Hf i Hlt)) as (s & _ & Ho).
      pose proof (ow_region _ _ Ho). apply elem_of_seqZ. lia. }
  apply submseteq_length in Hsub. rewrite length_fmap, length_seq, length_seqZ in Hsub. pose proof (ok_n r Hr). lia.
Qed.
End Invariant.

(** ** Start-up, and the theorems *)

(** The state when the vCPU threads start: the partition, the start-up context
    moved behind the prologue. *)
Record started (buf tb_size page_size max_cpus : Z) (mttcg : bool) (code_ptr : Z)
    (r : region_cfg) (init_ctx : ctx) (y : sys) : Prop := {
  su_cpus : 1 <= max_cpus;
  su_page : TCG_HIGHWATER <= page_size;
  su_buf : 0 <= buf;
  su_size : 0 <= tb_size;
  su_fits : buf + tb_size <= 2 ^ 32;
  su_run : exists r0 s0 st0,
    tcg_region_partition buf tb_size page_size max_cpus mttcg = Some r0 /\
    tcg_region_init r0 = Some (s0, st0) /\
    tcg_region_prologue_set r0 s0 code_ptr = Some (r, init_ctx) /\
    y = {| shared := st0; joining := ∅; pending := ∅; committed := [] |};
  su_prologue : buf <= code_ptr /\ code_ptr + TCG_HIGHWATER <= buf + rsize r
}.

Lemma started_ok buf tb_size page_size max_cpus mttcg code_ptr r init_ctx y sizeof_tb :
  started buf tb_size page_size max_cpus mttcg code_ptr r init_ctx y ->
  cfg_ok r /\ owns r 0 init_ctx /\ inv r sizeof_tb y ∅.
Proof.
  intros [Hcpu Hpage Hbuf Htb Hfit (r0 & s0 & st0 & Hpart & Hinit & Hpro & ->) Hcp].
  pose proof (partition_ok _ _ _ _ _ _ Hcpu Hpage Hbuf Htb Hfit Hpart) as Hok.
  unfold tcg_region_prologue_set in Hpro. case_match; [done |]. simplify_eq.
  unfold tcg_region_partition in Hpart. case_match; [done |]. simplify_eq. cbn in Hcp.
  assert (Hok' : cfg_ok {| start_aligned := buf; after_prologue := code_ptr;
      n_regions := tcg_n_regions tb_size max_cpus mttcg;
      rsize := ALIGN_DOWN (tb_size / tcg_n_regions tb_size max_cpus mttcg) page_size - page_size;
      stride := ALIGN_DOWN (tb_size / tcg_n_regions tb_size max_cpus mttcg) page_size;
      total_size := tb_size - page_size |}).
  { destruct Hok; cbn in *. split; cbn; unfold TCG_HIGHWATER in *; lia. }
  split; [done |]. split.
  - apply assign_owns; [done |]. pose proof (ok_n _ Hok'). cbn in *. lia.
  - unfold tcg_region_init, tcg_region_alloc__locked in Hinit. cbn in Hinit.
    case_match; [done |]. cbn in Hinit. simplify_eq. pose proof (ok_n _ Hok'). cbn in *.
    split; cbn; try done; try (by intros; simplify_map_eq).
    + lia.
    + by intros p ?%elem_of_nil.
    + constructor.
Qed.

Lemma ctxs_size_total r l total : cfg_ok r -> Forall is_Some l ->
  (forall i s, l !! i = Some (Some s) -> exists k, owns r k s) -> is_Some (ctxs_size l total).
Proof.
  intros Hr Hl. revert total. induction Hl as [| o l [s ->] _ IH]; intros total Ho; [by eexists |]. cbn [ctxs_size].
  destruct (Ho 0%nat s eq_refl) as [k Hk]. pose proof (owns_bounds r Hr k s Hk). pose proof (ok_fits r Hr). pose proof (ok_start r Hr).
  rewrite (uw_small 32) by (unfold is_u; lia). rewrite (proj2 (Z.leb_le _ _)) by lia. apply IH.
  intros i s' Hs. exact (Ho (S i) s' Hs).
Qed.

(** C13: vCPU threads never write code into the same memory.  From start-up on, through
    any interleaving of threads registering (claiming a slot, publishing a copy of the
    start-up context, getting a region), allocating descriptors, finishing or discarding
    translations, and flushes:
    the regions of two threads that have registered are disjoint, and each lies inside
    the buffer with the thread's pointer inside it;
    a descriptor a thread holds is aligned, lies in the thread's own region with room
    for the structure right before its pointer, and from there to the end of the region
    no byte belongs to a finished block;
    the blocks finished since the last flush lie inside the buffer and no two overlap;
    and the assertion of [tcg_code_size] holds when every slot has its context. *)
Theorem contexts_disjoint (buf tb_size page_size max_cpus : Z) (mttcg : bool) (code_ptr : Z)
  (r : region_cfg) (init_ctx : ctx) (y y' : sys) (sizeof_tb max_ctxs : Z)
  (Hs : started buf tb_size page_size max_cpus mttcg code_ptr r init_ctx y)
  (Htb : 0 < sizeof_tb) (Hrun : rtc (rstep r sizeof_tb max_ctxs init_ctx) y y') :
  (forall i j si sj, i <> j -> i ∉ joining y' -> j ∉ joining y' ->
     ctxs (shared y') !! i = Some (Some si) -> ctxs (shared y') !! j = Some (Some sj) ->
     code_gen_buffer si + code_gen_buffer_size si <= code_gen_buffer sj \/
     code_gen_buffer sj + code_gen_buffer_size sj <= code_gen_buffer si) /\
  (forall i s, ctxs (shared y') !! i = Some (Some s) ->
     start_aligned r <= code_gen_buffer s <= code_gen_ptr s /\
     code_gen_ptr s <= code_gen_buffer s + code_gen_buffer_size s <= start_aligned r + total_size r) /\
  (forall i tb, pending y' !! i = Some tb -> exists s, ctxs (shared y') !! i = Some (Some s) /\
     code_gen_buffer s <= tb /\ tb mod tcg_tb_alignment = 0 /\ tb + sizeof_tb <= code_gen_ptr s <= code_gen_highwater s /\
     Forall (apart (tb, code_gen_buffer s + code_gen_buffer_size s)) (committed y')) /\
  (forall p, p ∈ committed y' -> start_aligned r <= fst p <= snd p /\ snd p <= start_aligned r + total_size r) /\
  ForallOrdPairs apart (committed y') /\
  (Forall is_Some (ctxs (shared y')) -> is_Some (tcg_code_size (shared y'))).
Proof.
  destruct (started_ok _ _ _ _ _ _ _ _ _ sizeof_tb Hs) as (Hr & Ho & Hi).
  destruct (rsteps_inv r Hr sizeof_tb max_ctxs init_ctx Htb Ho _ _ _ Hi Hrun) as [own Hi'].
  split_and!.
  - intros. by eapply inv_disjoint.
  - intros i s Hsi. destruct (inv_ctx _ _ _ _ Hi' i s Hsi) as [k Hk]. by eapply owns_bounds.
  - intros. by eapply inv_pending.
  - intros. by eapply inv_committed.
  - apply (inv_apart _ _ _ _ Hi').
  - intros Hall. apply (ctxs_size_total r); [done | done | apply (inv_ctx _ _ _ _ Hi')].
Qed.

Lemma initial_allocs_total r l : forall cur, Forall is_Some l -> 0 <= cur -> cur + Z.of_nat (length l) <= n_regions r ->
  exists l', initial_allocs r cur l = Some (l', cur + Z.of_nat (length l)) /\ length l' = length l.
Proof.
  induction l as [| o l IH]; intros cur Hl Hc Hle; cbn [initial_allocs length] in *.
  - exists []. by rewrite Z.add_0_r.
  - apply Forall_cons_1 in Hl as [[s ->] Hl]. unfold tcg_region_alloc__locked.
    rewrite (proj2 (Z.eqb_neq _ _)) by lia. cbn [mbind option_bind].
    destruct (IH (cur + 1) Hl ltac:(lia) ltac:(lia)) as (l' & -> & Hl'). cbn [mbind option_bind].
    eexists. split; [do 2 f_equal; lia | by cbn; f_equal].
Qed.

(** a flush never runs out of regions: in every reachable state in which no thread is
    registering, [tcg_region_reset_all] finds a region for each context (its assertion
    cannot fail), and [tcg_tb_alloc] returns. *)
Theorem flush_succeeds (buf tb_size page_size max_cpus : Z) (mttcg : bool) (code_ptr : Z)
  (r : region_cfg) (init_ctx : ctx) (y y' : sys) (sizeof_tb max_ctxs : Z)
  (Hs : started buf tb_size page_size max_cpus mttcg code_ptr r init_ctx y)
  (Htb : 0 < sizeof_tb) (Hrun : rtc (rstep r sizeof_tb max_ctxs init_ctx) y y') (Hjoin : joining y' = ∅) :
  (exists st, tcg_region_reset_all r (shared y') = Some st /\
     length (ctxs st) = length (ctxs (shared y'))) /\
  (forall s, is_Some (tcg_tb_alloc sizeof_tb r (current (shared y')) (agg_size_full (shared y')) s)).
Proof.
  destruct (started_ok _ _ _ _ _ _ _ _ _ sizeof_tb Hs) as (Hr & Ho & Hi).
  destruct (rsteps_inv r Hr sizeof_tb max_ctxs init_ctx Htb Ho _ _ _ Hi Hrun) as [own Hi'].
  split; [| intros s; apply tb_alloc_total; [done | apply (inv_cur _ _ _ _ Hi')]].
  pose proof (inv_count r Hr _ _ _ Hi' Hjoin) as Hn. unfold tcg_region_reset_all.
  destruct (initial_allocs_total r (ctxs (shared y')) 0) as (l & -> & Hl); [| lia | lia | by eexists].
  apply Forall_lookup_2. intros i o Hio. destruct (inv_placed _ _ _ _ Hi' i) as [k Hk];
    [by eapply lookup_lt_Some | rewrite Hjoin; apply not_elem_of_empty |].
  destruct (inv_own _ _ _ _ Hi' i k Hk) as (s & Hsi & _). rewrite Hio in Hsi. simplify_eq. by eexists.
Qed.

Lemma region_tree_in r k p : cfg_ok r -> 0 <= k < n_regions r ->
  fst (tcg_region_bounds r k) <= p < snd (tcg_region_bounds r k) ->
  in_code_gen_buffer r p = true /\ tc_ptr_to_region_tree r p = Some k.
Proof.
  intros Hr Hk Hb. pose proof (ok_start r Hr). pose proof (ok_fits r Hr). pose proof (ok_size r Hr).
  pose proof (ok_stride r Hr). unfold TCG_HIGHWATER in *.
  destruct (bounds_spec r Hr k Hk) as (B1 & _ & B3 & B4).
  assert (0 <= k * stride r) by (apply Z.mul_nonneg_nonneg; lia).
  assert (Hin : in_code_gen_buffer r p = true).
  { unfold in_code_gen_buffer. rewrite (uw_small 32) by (unfold is_u; lia). apply Z.leb_le. lia. }
  split; [done |]. unfold tc_ptr_to_region_tree. rewrite Hin. cbn [negb].
  rewrite (proj2 (Z.ltb_ge _ _)) by lia. f_equal.
  destruct (Z.ltb_spec (stride r * (n_regions r - 1)) (p - start_aligned r)) as [Hlt | Hge].
  - destruct (Z.eq_dec k (n_regions r - 1)); [done |]. specialize (B3 ltac:(lia)).
    assert ((k + 1) * stride r <= (n_regions r - 1) * stride r) by (apply Z.mul_le_mono_nonneg_r; lia). lia.
  - symmetry. apply (Z.div_unique_pos _ _ k (p - start_aligned r - k * stride r)); [| lia].
    destruct (Z.eq_dec k (n_regions r - 1)) as [-> |]; [lia | specialize (B3 ltac:(lia)); lia].
Qed.

Lemma region_tree_out r p : cfg_ok r -> is_u 32 p ->
  p < start_aligned r \/ start_aligned r + total_size r < p ->
  in_code_gen_buffer r p = false /\ tc_ptr_to_region_tree r p = None.
Proof.
  intros Hr Hp Hout. pose proof (ok_n r Hr). pose proof (ok_start r Hr). pose proof (ok_fits r Hr).
  pose proof (ok_size r Hr). pose proof (ok_stride r Hr). pose proof (ok_total r Hr).
  unfold TCG_HIGHWATER in *. unfold is_u in Hp.
  assert (0 <= (n_regions r - 1) * stride r) by (apply Z.mul_nonneg_nonneg; lia).
  assert (Hin : in_code_gen_buffer r p = false).
  { unfold in_code_gen_buffer. apply Z.leb_gt. unfold uw. destruct Hout as [Hlt | Hgt].
    - rewrite <- (Z.mod_unique_pos (p - start_aligned r) (2 ^ 32) (-1) (p - start_aligned r + 2 ^ 32)); lia.
    - rewrite Z.mod_small; lia. }
  split; [done |]. unfold tc_ptr_to_region_tree. by rewrite Hin.
Qed.

(** an address is looked up in the tree of the region that contains it: for
    every address inside region [k], code or descriptors, [tc_ptr_to_region_tree]
    gives [k]; an address outside the buffer gives no tree. *)
Theorem region_of_address (buf tb_size page_size max_cpus : Z) (mttcg : bool) (code_ptr : Z)
  (r : region_cfg) (init_ctx : ctx) (y : sys) (p : Z)
  (Hs : started buf tb_size page_size max_cpus mttcg code_ptr r init_ctx y) (Hp : is_u 32 p) :
  (forall k, 0 <= k < n_regions r ->
     fst (tcg_region_bounds r k) <= p < snd (tcg_region_bounds r k) -> tc_ptr_to_region_tree r p = Some k) /\
  (p < start_aligned r \/ start_aligned r + total_size r < p -> tc_ptr_to_region_tree r p = None).
Proof.
  destruct (started_ok _ _ _ _ _ _ _ _ _ 1 Hs) as (Hr & _ & _). split.
  - intros k Hk Hb. by apply region_tree_in.
  - intros Hout. by apply region_tree_out.
Qed.

(** ** Two vCPUs in an 8 MB buffer *)
Module RegionDemo.
Definition r : region_cfg :=
  {| start_aligned := 0x100000; after_prologue := 0x100400; n_regions := 4;
     rsize := 0x1f0000; stride := 0x200000; total_size := 0x7f0000 |}.
Definition init_ctx : ctx := tcg_region_assign r 0.
Definition y0 : sys :=
  {| shared := {| current := 1; agg_size_full := 0; ctxs := [] |}; joining := ∅; pending := ∅; committed := [] |}.

Lemma demo_started : started 0x100000 0x800000 0x10000 2 true 0x100400 r init_ctx y0.
Proof.
  split; [lia | unfold TCG_HIGHWATER; lia | lia | lia | lia | | unfold TCG_HIGHWATER; cbn [rsize r]; lia].
  exists {| start_aligned := 0x100000; after_prologue := 0x100000; n_regions := 4;
            rsize := 0x1f0000; stride := 0x200000; total_size := 0x7f0000 |}.
  eexists _, _. split; [vm_compute; reflexivity |]. split; [reflexivity |]. split; reflexivity.
Qed.

(** Two threads register, the second overtaking the first between its claim and its
    store; the second translates a block and allocates the descriptor of the next. *)
Definition c1 : ctx := set_ptr 0x3000a0 (tcg_region_assign r 1).
Definition c2 : ctx := tb_commit 64 16 c1.
Definition y_end : sys :=
  {| shared := {| current := 2; agg_size_full := 0; ctxs := [Some init_ctx; Some (set_ptr 0x300190 c2)] |}; joining := ∅;
     pending := {[1%nat := 0x3000f0]}; committed := [(0x300000, 0x3000f0)] |}.

Lemma rstep_to y y1 y2 : rstep r 160 2 init_ctx y y1 -> y1 = y2 -> rstep r 160 2 init_ctx y y2.
Proof. by intros H <-. Qed.

Definition at_ (ctxs : list (option ctx)) (cur : Z) (join : gset nat) (pend : gmap nat Z) (cm : list (Z * Z)) : sys :=
  {| shared := {| current := cur; agg_size_full := 0; ctxs := ctxs |}; joining := join; pending := pend; committed := cm |}.

Lemma demo_allocs : rtc (rstep r 160 2 init_ctx) y0 y_end.
Proof.
  apply (rtc_l _ _ (at_ [None] 1 {[0%nat]} ∅ [])). { eapply rstep_to; [by eapply step_claim | done]. }
  apply (rtc_l _ _ (at_ [None; None] 1 {[0%nat; 1%nat]} ∅ [])). { eapply rstep_to; [by eapply step_claim | done]. }
  apply (rtc_l _ _ (at_ [None; Some init_ctx] 1 {[0%nat; 1%nat]} ∅ [])). { eapply rstep_to; [by apply (step_publish _ _ _ _ 1) | done]. }
  apply (rtc_l _ _ (at_ [None; Some (tcg_region_assign r 1)] 2 {[0%nat]} ∅ [])). { eapply rstep_to; [by eapply (step_place _ _ _ _ 1) | done]. }
  apply (rtc_l _ _ (at_ [None; Some c1] 2 {[0%nat]} {[1%nat := 0x300000]} [])). { eapply rstep_to; [by eapply (step_tb_alloc _ _ _ _ 1) | done]. }
  apply (rtc_l _ _ (at_ [Some init_ctx; Some c1] 2 {[0%nat]} {[1%nat := 0x300000]} [])). { eapply rstep_to; [by apply (step_publish _ _ _ _ 0) | done]. }
  apply (rtc_l _ _ (at_ [Some init_ctx; Some c1] 2 ∅ {[1%nat := 0x300000]} [])). { eapply rstep_to; [by eapply (step_place _ _ _ _ 0) | done]. }
  apply (rtc_l _ _ (at_ [Some init_ctx; Some c2] 2 ∅ ∅ [(0x300000, 0x3000f0)])). { eapply rstep_to; [by eapply (step_commit _ _ _ _ 1 _ _ _ _ _ _ 64 16) | done]. }
  apply rtc_once. eapply rstep_to; [by eapply (step_tb_alloc _ _ _ _ 1) | done].
Qed.

Lemma contexts_disjoint_witness :
  rtc (rstep r 160 2 init_ctx) y0 y_end /\
  exists s, ctxs (shared y_end) !! 1%nat = Some (Some s) /\ code_gen_buffer s <= 0x3000f0 /\ 0x3000f0 + 160 <= code_gen_ptr s /\
    Forall (apart (0x3000f0, code_gen_buffer s + code_gen_buffer_size s)) [(0x300000, 0x3000f0)].
Proof.
  split; [exact demo_allocs |].
  destruct (contexts_disjoint _ _ _ _ _ _ r init_ctx y0 y_end 160 2 demo_started ltac:(lia) demo_allocs) as (_ & _ & H & _).
  destruct (H 1%nat 0x3000f0 eq_refl) as (s & H1 & H2 & _ & [H3 _] & H4). exists s. split_and!; assumption.
Defined.

Lemma flush_succeeds_witness :
  exists st, tcg_region_reset_all r (shared y_end) = Some st /\ length (ctxs st) = 2%nat.
Proof. exact (proj1 (flush_succeeds _ _ _ _ _ _ r init_ctx y0 y_end 160 2 demo_started ltac:(lia) demo_allocs eq_refl)). Defined.

Lemma region_of_address_witness :
  is_u 32 0x4efff0 /\ tc_ptr_to_region_tree r 0x4efff0 = Some 1.
Proof.
  split; [done |].
  apply (proj1 (region_of_address _ _ _ _ _ _ r init_ctx y0 0x4efff0 demo_started ltac:(done)) 1); vm_compute; split; congruence.
Defined.
End RegionDemo.
