(* ===== verification/Retranslate.v ===== *)
(** * Translating, leaving and re-translating a block

    What happens around a translation block besides running it: finding the block
    of a host address (tcg/region.c), restoring the guest state at an instruction
    inside it, the instruction limit of a translation and its retries
    ([tb_gen_code]), the split hints that make a block end at a device access
    ([cpu_io_recompile], [bb_split_*]), and the second translation of a live block
    when its module is needed ([bb_tb_regen_wasm]); all in
    accel/tcg/translate-all.c, with the instruction loop of translator.c.

    The translator proper (decoding guest instructions, generating code) is a
    parameter: [setjmp_gen_code] for whole translations, one hook per instruction
    for [translator_loop].  What the theorems need of it are the hypotheses of
    the sections. *)
From Stdlib Require Import Sorting.Sorted.
From S2P Require Import Prelude Memory SearchData Regions.

(** [-1] as a [tb_page_addr_t]. *)
Definition NO_PAGE : Z := 2 ^ 32 - 1.

(** ** Finding a block *)

(** The trees of region.c hold disjoint blocks ordered by address. *)
Inductive qtree :=
| QNil
| QNode (l : qtree) (tb : tblock) (r : qtree).

(** [ptr_cmp_tb_tc] and [tb_tc_cmp]; the assertion that two blocks at one address
    have one size is [None]. *)
Definition ptr_cmp_tb_tc (ptr s_ptr s_size : Z) : Z :=
  if s_ptr + s_size <=? ptr then 1 else if ptr <? s_ptr then -1 else 0.

Definition tb_tc_cmp (a_ptr a_size b_ptr b_size : Z) : option Z :=
  if negb (a_size =? 0) && negb (b_size =? 0) then
    if b_ptr <? a_ptr then Some 1
    else if a_ptr <? b_ptr then Some (-1)
    else if a_size =? b_size then Some 0 else None
  else if a_size =? 0 then Some (ptr_cmp_tb_tc a_ptr b_ptr b_size)
  else Some (ptr_cmp_tb_tc b_ptr a_ptr a_size).

(** [q_tree_lookup] with the key [{ .ptr = p, .size = 0 }]; [None] when the
    comparison asserts. *)
Fixpoint q_tree_lookup (t : qtree) (p : Z) : option (option tblock) :=
  match t with
  | QNil => Some None
  | QNode l tb r =>
      cmp ← tb_tc_cmp p 0 (tc_ptr tb) (tc_size tb);
      if cmp =? 0 then Some (Some tb)
      else if cmp <? 0 then q_tree_lookup l p
      else q_tree_lookup r p
  end.

(** [trees] is [region_trees]. *)
Definition tcg_tb_lookup (r : region_cfg) (trees : Z -> qtree) (p : Z) : option (option tblock) :=
  match tc_ptr_to_region_tree r p with
  | None => Some None
  | Some k => q_tree_lookup (trees k) p
  end.

Fixpoint blocks (t : qtree) : list tblock :=
  match t with
  | QNil => []
  | QNode l tb r => blocks l ++ [tb] ++ blocks r
  end.

(** ** The guest state a block leaves *)

(** The fields of the CPU that restoring writes. *)
Record guest := {
  eip : Z;
  cc_op : Z;
  icount_low : Z       (* icount_decr.u16.low *)
}.

Definition HF_CS64_MASK : Z := 0x8000.
Definition CC_OP_DYNAMIC : Z := 0.
Definition TARGET_PAGE_MASK : Z := -4096.

Definition x86_restore_state_to_opc (tb : tblock) (data : list Z) (env : guest) : guest :=
  let cc := s32 (data !!! 1%nat) in
  let ip := if has (tb_cflags tb) CF_PCREL then Z.lor (Z.land (eip env) TARGET_PAGE_MASK) (data !!! 0%nat)
            else if has (tb_flags tb) HF_CS64_MASK then data !!! 0%nat
            else u32 (data !!! 0%nat - tb_cs_base tb) in
  {| eip := ip;
     cc_op := if negb (cc =? CC_OP_DYNAMIC) then cc else cc_op env;
     icount_low := icount_low env |}.

Section Restore.
Context (icount_enabled : bool).
(** The bytes of the code buffer from an address on. *)
Context (code : Z -> list Z).

Definition unwind_tb (tb : tblock) (host_pc : Z) : option (option (Z * list Z)) :=
  cpu_unwind_data_from_tb tb (code (tc_ptr tb + tc_size tb)) host_pc.

(** [None]: a search table that ends too early, or the assertion. *)
Definition cpu_restore_state_from_tb (tb : tblock) (host_pc : Z) (env : guest) : option guest :=
  found ← unwind_tb tb host_pc;
  match found with
  | None => Some env
  | Some (insns_left, data) =>
      let counted := has (tb_cflags tb) CF_USE_ICOUNT in
      if counted && negb icount_enabled then None
      else
        let env := if counted then {| eip := eip env; cc_op := cc_op env;
                                      icount_low := u16 (icount_low env + insns_left) |} else env in
        Some (x86_restore_state_to_opc tb data env)
  end.

Definition cpu_restore_state (r : region_cfg) (trees : Z -> qtree) (host_pc : Z) (env : guest)
    : option (bool * guest) :=
  if in_code_gen_buffer r host_pc then
    found ← tcg_tb_lookup r trees host_pc;
    match found with
    | Some tb => env ← cpu_restore_state_from_tb tb host_pc env; Some (true, env)
    | None => Some (false, env)
    end
  else Some (false, env).
End Restore.

(** ** Split hints *)

Definition BB_SPLIT_BITS : Z := 14.
Definition TCG_MAX_INSNS : Z := 512.

(** The table [bb_split] of key and limit, zero at the start. *)
Definition split_table := Z -> Z * Z.

Definition bb_split_slot (k : Z) : Z :=
  Z.shiftr (u32 (k * 2654435761)) (32 - BB_SPLIT_BITS).

Definition bb_split_hint (t : split_table) (a : Z) : Z :=
  let i := bb_split_slot a in
  if (a =? NO_PAGE) || negb (fst (t i) =? a) then 0 else snd (t i).

Definition bb_split_set (a n : Z) (t : split_table) : split_table :=
  let i := bb_split_slot a in
  fun j => if j =? i then (a, n) else t j.

(** The limit [tb_gen_code] starts with (and the block's flags): a block without
    a RAM address holds one instruction; a limit in the flags counts; otherwise
    the hint, or the most a block can hold. *)
Definition gen_limit (t : split_table) (cflags phys_pc : Z) : Z * Z :=
  let cflags := if phys_pc =? NO_PAGE then Z.lor (Z.land cflags (Z.lnot CF_COUNT_MASK)) 1 else cflags in
  let max_insns := Z.land cflags CF_COUNT_MASK in
  if max_insns =? 0 then
    let h := bb_split_hint t phys_pc in
    (cflags, if (0 <? h) && (h <? TCG_MAX_INSNS) then h else TCG_MAX_INSNS)
  else (cflags, max_insns).

(** ** A device access in the middle of a block *)

Record io_state := {
  io_env : guest;
  io_split : split_table;
  io_invalidated : list tblock;    (* blocks given to tb_phys_invalidate *)
  io_cflags_next : Z               (* cflags_next_tb *)
}.

(** [cpu_io_recompile]; [None] is [cpu_abort] (no block at that address) or an
    assertion.  x86 has no branch delay slots, so [n] is 1.  [curr_cflags] is the
    CPU's flag word. *)
Definition cpu_io_recompile (icount_enabled bb_split_enabled : bool) (code : Z -> list Z)
    (r : region_cfg) (trees : Z -> qtree) (curr_cflags retaddr : Z) (s : io_state) : option io_state :=
  found ← tcg_tb_lookup r trees retaddr;
  tb ← found;
  env ← cpu_restore_state_from_tb icount_enabled code tb retaddr (io_env s);
  '(split, inval) ←
    (if bb_split_enabled && negb (has (tb_cflags tb) CF_COUNT_MASK) && negb (page_addr0 tb =? NO_PAGE)
        && (page_addr1 tb =? NO_PAGE) then
       unwound ← unwind_tb code tb retaddr;
       Some (match unwound with
             | Some (insns_left, _) =>
                 if 1 <=? insns_left then
                   (bb_split_set (page_addr0 tb) (u32 (tb_icount tb - insns_left + 1)) (io_split s),
                    tb :: io_invalidated s)
                 else (io_split s, io_invalidated s)
             | None => (io_split s, io_invalidated s)
             end)
     else Some (io_split s, io_invalidated s));
  Some {| io_env := env; io_split := split; io_invalidated := inval;
          io_cflags_next := Z.lor (Z.lor curr_cflags CF_MEMI_ONLY) 1 |}.

(** ** The instruction loop *)

Inductive DisasJumpType := DISAS_NEXT | DISAS_TOO_MANY | DISAS_NORETURN | DISAS_TARGET (n : Z).

#[global] Instance DisasJumpType_eq_dec : EqDecision DisasJumpType.
Proof. solve_decision. Defined.

(** The part of [DisasContextBase] the loop uses. *)
Record dbase := {
  num_insns : Z;
  max_insns : Z;
  is_jmp : DisasJumpType;
  saved_can_do_io : Z         (* 0, 1, or -1 for unknown *)
}.

Definition set_can_do_io (val : bool) (db : dbase) : dbase :=
  if negb (saved_can_do_io db =? b2z val) then
    {| num_insns := num_insns db; max_insns := max_insns db; is_jmp := is_jmp db;
       saved_can_do_io := b2z val |}
  else db.

Definition set_is_jmp (j : DisasJumpType) (db : dbase) : dbase :=
  {| num_insns := num_insns db; max_insns := max_insns db; is_jmp := j;
     saved_can_do_io := saved_can_do_io db |}.

Definition translator_io_start (db : dbase) : dbase :=
  let db := set_can_do_io true db in
  if decide (is_jmp db = DISAS_NEXT) then set_is_jmp DISAS_TOO_MANY db else db.

Section TranslatorLoop.
(** The target's [translate_insn] for instruction number [k] of a translation
    with limit [m]: what it sets [is_jmp] to, and whether it calls
    [translator_io_start] (port I/O, the time-stamp counter); and
    [tcg_op_buf_full] after it. *)
Context (translate_insn : Z -> Z -> bool * DisasJumpType).
Context (tcg_op_buf_full : Z -> Z -> bool).

(** The loop; the result is the context at its end and, for every instruction,
    whether its code runs with [can_do_io] set.  [None] when the fuel is used
    up; [max_insns] rounds are enough. *)
Fixpoint translate_insns (fuel : nat) (db : dbase) (flags : list bool) : option (dbase * list bool) :=
  match fuel with
  | O => None
  | S fuel =>
      let db := {| num_insns := num_insns db + 1; max_insns := max_insns db; is_jmp := is_jmp db;
                   saved_can_do_io := saved_can_do_io db |} in
      let db := if num_insns db =? max_insns db then set_can_do_io true db else db in
      let '(io_start, jmp) := translate_insn (max_insns db) (num_insns db) in
      let db := if io_start then translator_io_start (set_is_jmp jmp db) else set_is_jmp jmp db in
      let flags := flags ++ [saved_can_do_io db =? 1] in
      if negb (bool_decide (is_jmp db = DISAS_NEXT)) then Some (db, flags)
      else if tcg_op_buf_full (max_insns db) (num_insns db) || (max_insns db <=? num_insns db)
      then Some (set_is_jmp DISAS_TOO_MANY db, flags)
      else translate_insns fuel db flags
  end.

(** [translator_loop] up to the end of the loop, with the [can_do_io] store of
    [gen_tb_start]. *)
Definition translator_loop (max : Z) : option (dbase * list bool) :=
  let db := {| num_insns := 0; max_insns := max; is_jmp := DISAS_NEXT; saved_can_do_io := -1 |} in
  translate_insns (Z.to_nat max) (set_can_do_io (max =? 1) db) [].
End TranslatorLoop.

(** ** A whole translation *)

(** What one call of [setjmp_gen_code] leaves: its result, [*max_insns], the
    block and the collected search data. *)
Record gen_out (W : Type) := {
  go_ret : Z;
  go_max : Z;
  go_tb : tblock;
  go_insns : gen_insns;
  go_world : W
}.
Arguments go_ret {W}.
Arguments go_max {W}.
Arguments go_tb {W}.
Arguments go_insns {W}.
Arguments go_world {W}.

Definition set_page_addr1 (p : Z) (tb : tblock) : tblock :=
  {| tb_pc := tb_pc tb; tb_cs_base := tb_cs_base tb; tb_flags := tb_flags tb; tb_cflags := tb_cflags tb;
     tb_size := tb_size tb; tb_icount := tb_icount tb; tc_ptr := tc_ptr tb; tc_size := tc_size tb;
     page_addr0 := page_addr0 tb; page_addr1 := p |}.

Definition set_tc_size (n : Z) (tb : tblock) : tblock :=
  {| tb_pc := tb_pc tb; tb_cs_base := tb_cs_base tb; tb_flags := tb_flags tb; tb_cflags := tb_cflags tb;
     tb_size := tb_size tb; tb_icount := tb_icount tb; tc_ptr := tc_ptr tb; tc_size := n;
     page_addr0 := page_addr0 tb; page_addr1 := page_addr1 tb |}.

(** The two labels of [tb_gen_code] a retry jumps to. *)
Inductive gen_label := BufferOverflow | RestartTranslate (tb : tblock).

Record gen_state (W : Type) := {
  gs_label : gen_label;
  gs_max : Z;                (* max_insns *)
  gs_ctx : ctx;              (* tcg_ctx *)
  gs_current : Z;            (* region.current *)
  gs_agg : Z;
  gs_world : W
}.
Arguments gs_label {W}.
Arguments gs_max {W}.
Arguments gs_ctx {W}.
Arguments gs_current {W}.
Arguments gs_agg {W}.
Arguments gs_world {W}.

Inductive gen_result (W : Type) :=
| GenDone (tb : tblock) (search : list Z) (st : gen_state W)   (* before the block is published *)
| GenFlush (st : gen_state W)                                  (* tb_flush, then cpu_loop_exit *)
| GenAssert.                                                   (* an assertion failed *)
Arguments GenDone {W}.
Arguments GenFlush {W}.
Arguments GenAssert {W}.

Section TbGenCode.
Context {W : Type} (setjmp_gen_code : ctx -> tblock -> Z -> W -> gen_out W).
Context (r : region_cfg) (sizeof_tb : Z).
Context (pc cs_base flags cflags phys_pc : Z).

(** From a label to the next one, or to a result. *)
Definition gen_step (s : gen_state W) : gen_state W + gen_result W :=
  match gs_label s with
  | BufferOverflow =>
      match tcg_tb_alloc sizeof_tb r (gs_current s) (gs_agg s) (gs_ctx s) with
      | None => inr GenAssert
      | Some (None, c, cur, agg) =>
          inr (GenFlush {| gs_label := BufferOverflow; gs_max := gs_max s; gs_ctx := c;
                           gs_current := cur; gs_agg := agg; gs_world := gs_world s |})
      | Some (Some _, c, cur, agg) =>
          let tb := {| tb_pc := if negb (has cflags CF_PCREL) then pc else 0; tb_cs_base := cs_base;
                       tb_flags := flags; tb_cflags := cflags; tb_size := 0; tb_icount := 0;
                       tc_ptr := code_gen_ptr c; tc_size := 0; page_addr0 := phys_pc; page_addr1 := NO_PAGE |} in
          inl {| gs_label := RestartTranslate tb; gs_max := gs_max s; gs_ctx := c;
                 gs_current := cur; gs_agg := agg; gs_world := gs_world s |}
      end
  | RestartTranslate tb =>
      let out := setjmp_gen_code (gs_ctx s) tb (gs_max s) (gs_world s) in
      let s := {| gs_label := gs_label s; gs_max := go_max out; gs_ctx := gs_ctx s;
                  gs_current := gs_current s; gs_agg := gs_agg s; gs_world := go_world out |} in
      let tb := go_tb out in
      let goto l m := inl {| gs_label := l; gs_max := m; gs_ctx := gs_ctx s;
                             gs_current := gs_current s; gs_agg := gs_agg s; gs_world := gs_world s |} in
      let gen_code_size := go_ret out in
      if gen_code_size <? 0 then
        if gen_code_size =? -1 then goto BufferOverflow (gs_max s)
        else if gen_code_size =? -2 then
          if negb (1 <? gs_max s) then inr GenAssert
          else
            let tb := if negb (page_addr1 tb =? NO_PAGE) then set_page_addr1 NO_PAGE tb else tb in
            goto (RestartTranslate tb) (gs_max s / 2)
        else if gen_code_size =? -3 then goto (RestartTranslate tb) (gs_max s)
        else inr GenAssert
      else
        match encode_search tb (go_insns out) (code_gen_highwater (gs_ctx s))
                (code_gen_ptr (gs_ctx s) + gen_code_size) with
        | None => goto BufferOverflow (gs_max s)
        | Some search =>
            inr (GenDone (set_tc_size gen_code_size tb) search
                   {| gs_label := gs_label s; gs_max := gs_max s;
                      gs_ctx := tb_commit gen_code_size (Z.of_nat (length search)) (gs_ctx s);
                      gs_current := gs_current s; gs_agg := gs_agg s; gs_world := gs_world s |})
        end
  end.

Fixpoint gen_loop (fuel : nat) (s : gen_state W) : option (gen_result W) :=
  match fuel with
  | O => None
  | S fuel =>
      match gen_step s with
      | inl s => gen_loop fuel s
      | inr res => Some res
      end
  end.
End TbGenCode.

(** ** Translating a live block again *)

Definition BB_REGEN_SCRATCH : Z := 512 * 1024.

(** [memcmp(a, b, n) == 0]. *)
Fixpoint mem_equal (n : nat) (m : mem) (a b : Z) : option bool :=
  match n with
  | O => Some true
  | S n =>
      x ← load8 m a; y ← load8 m b;
      if x =? y then mem_equal n m (a + 1) (b + 1) else Some false
  end.

Definition set_size_icount (size icount : Z) (tb : tblock) : tblock :=
  {| tb_pc := tb_pc tb; tb_cs_base := tb_cs_base tb; tb_flags := tb_flags tb; tb_cflags := tb_cflags tb;
     tb_size := size; tb_icount := icount; tc_ptr := tc_ptr tb; tc_size := tc_size tb;
     page_addr0 := page_addr0 tb; page_addr1 := page_addr1 tb |}.

(** The thread's translator state, its scratch buffer (0 before the first use),
    the outcome counters and the memory. *)
Record regen := {
  rg_highwater : Z;       (* tcg_ctx->code_gen_highwater *)
  rg_buf : Z;             (* bb_regen_buf *)
  rg_bias : Z;            (* bb_code_bias *)
  rg_scratch : Z;         (* bb_regen_scratch *)
  rg_stats : list Z;      (* bb_regen_stats *)
  rg_mem : mem
}.

Definition set_target (highwater buf bias : Z) (s : regen) : regen :=
  {| rg_highwater := highwater; rg_buf := buf; rg_bias := bias; rg_scratch := rg_scratch s;
     rg_stats := rg_stats s; rg_mem := rg_mem s |}.

Definition set_rg_mem (m : mem) (s : regen) : regen :=
  {| rg_highwater := rg_highwater s; rg_buf := rg_buf s; rg_bias := rg_bias s; rg_scratch := rg_scratch s;
     rg_stats := rg_stats s; rg_mem := m |}.

Definition set_scratch (p : Z) (s : regen) : regen :=
  {| rg_highwater := rg_highwater s; rg_buf := rg_buf s; rg_bias := rg_bias s; rg_scratch := p;
     rg_stats := rg_stats s; rg_mem := rg_mem s |}.

Definition set_stat (i : nat) (v : Z) (s : regen) : regen :=
  {| rg_highwater := rg_highwater s; rg_buf := rg_buf s; rg_bias := rg_bias s; rg_scratch := rg_scratch s;
     rg_stats := <[i := v]> (rg_stats s); rg_mem := rg_mem s |}.

Definition inc_stat (i : nat) (s : regen) : regen := set_stat i (u32 (rg_stats s !!! i + 1)) s.

(** What the code of the page at the CPU's program counter looks like:
    [probe_access_full] with [qemu_ram_addr_from_host_nofail]. *)
Record code_page := {
  cp_tlb_bad : bool;      (* tlb_flags & (TLB_INVALID_MASK | TLB_MMIO) *)
  cp_host : Z;            (* host_pc, 0 for NULL *)
  cp_lg_page_size : Z;
  cp_ram_addr : Z
}.

Definition TARGET_PAGE_BITS : Z := 12.

Section Regen.
(** The translation: given the thread's state, the block, the program counter,
    its host address and the limit, the result and what it leaves. *)
Context (gen : regen -> tblock -> Z -> Z -> Z -> Z * tblock * mem).

(** The result and [*why], the block and the state. *)
Definition bb_regen_once (tb : tblock) (tc_ptr buf pc host_pc max_insns why : Z) (s : regen)
    : option (bool * Z * tblock * regen) :=
  let saved_hw := rg_highwater s in
  let saved_size := tb_size tb in
  let saved_icount := tb_icount tb in
  let s1 := set_target (rg_scratch s + BB_REGEN_SCRATCH - 4096) buf (tc_ptr - buf) s in
  let '(ret, tb, m) := gen s1 tb pc host_pc max_insns in
  let s := set_target saved_hw 0 0 (set_rg_mem m s1) in
  let tb := set_size_icount saved_size saved_icount tb in
  if ret <? 0 then Some (false, 8, tb, s)
  else
    off ← load32 m tc_ptr;
    len ← load32 m (u32 (tc_ptr + off - 4));
    off' ← load32 m buf;
    if negb (off' =? off) then Some (false, 9, tb, s)
    else
      len' ← load32 m (u32 (buf + off - 4));
      if negb (len' =? len) then Some (false, 9, tb, s)
      else
        same ← mem_equal (Z.to_nat len) m (u32 (buf + off)) (u32 (tc_ptr + off));
        if negb same then Some (false, 9, tb, s) else Some (true, why, tb, s).

(** The two attempts: with the limit of the first translation, then with the
    block's own length. *)
Definition regen_attempts (tb : tblock) (tc_ptr buf pc host_pc max : Z) (s : regen)
    : option (bool * Z * tblock * regen) :=
  '(ok, why, tb, s) ← bb_regen_once tb tc_ptr buf pc host_pc max 5 s;
  if negb ok && negb (max =? tb_icount tb)
  then bb_regen_once tb tc_ptr buf pc host_pc (tb_icount tb) why s
  else Some (ok, why, tb, s).

(** [pc], [cs_base] and [flags] are the CPU state ([cpu_get_tb_cpu_state]), [page]
    its code page; [aligned_alloc] is the address the allocator would return.  The
    result is the scratch copy or 0, with the block and the state. *)
Definition bb_tb_regen_wasm (tb_lookup : option tblock) (tc : Z) (pc cs_base flags : Z) (page : code_page)
    (aligned_alloc flush_count code_kb : Z) (t : split_table) (s : regen)
    : option (Z * option tblock * regen) :=
  let s := set_stat 11 code_kb (set_stat 10 flush_count s) in
  let fail why tb s := Some (0, tb, inc_stat (Z.to_nat why) s) in
  match tb_lookup with
  | None => fail 5 None s
  | Some tb =>
      if negb (tc_ptr tb =? tc) || has (tb_cflags tb) CF_INVALID || (page_addr0 tb =? NO_PAGE)
         || negb (page_addr1 tb =? NO_PAGE) || (tb_icount tb =? 0) then fail 5 (Some tb) s
      else if negb (cs_base =? tb_cs_base tb) || negb (flags =? tb_flags tb)
              || (negb (has (tb_cflags tb) CF_PCREL) && negb (pc =? tb_pc tb)) then fail 6 (Some tb) s
      else if cp_tlb_bad page || (cp_host page =? 0) || (cp_lg_page_size page <? TARGET_PAGE_BITS)
              || negb (cp_ram_addr page =? page_addr0 tb) then fail 7 (Some tb) s
      else
        let s := if rg_scratch s =? 0 then set_scratch aligned_alloc s else s in
        if rg_scratch s =? 0 then fail 5 (Some tb) s
        else
          let buf := rg_scratch s + Z.land tc 4095 in
          let count := Z.land (tb_cflags tb) CF_COUNT_MASK in
          let max := if negb (count =? 0) then count else TCG_MAX_INSNS in
          let max := if count =? 0 then
                       let h := bb_split_hint t (page_addr0 tb) in
                       if (0 <? h) && (h <? TCG_MAX_INSNS) then h else max
                     else max in
          '(ok, why, tb, s) ← regen_attempts tb tc buf pc (cp_host page) max s;
          if ok : bool then Some (buf, Some tb, inc_stat 4 s)
          else fail why (Some tb) s
  end.
End Regen.

(** ** Lookup *)

(** The blocks of a tree: ordered, disjoint, not empty. *)
Definition ordered (l : list tblock) : Prop :=
  StronglySorted (fun a b => tc_ptr a + tc_size a <= tc_ptr b) l /\ Forall (fun tb => 0 < tc_size tb) l.

Definition contains (tb : tblock) (p : Z) : Prop := tc_ptr tb <= p < tc_ptr tb + tc_size tb.

Lemma ptr_key_cmp p tb : tb_tc_cmp p 0 (tc_ptr tb) (tc_size tb) = Some (ptr_cmp_tb_tc p (tc_ptr tb) (tc_size tb)).
Proof. reflexivity. Qed.

Lemma sorted_app_inv {A} (R : A -> A -> Prop) l1 x l2 : StronglySorted R (l1 ++ x :: l2) ->
  StronglySorted R l1 /\ StronglySorted R l2 /\ (forall y, y ∈ l1 -> R y x) /\ (forall y, y ∈ l2 -> R x y).
Proof.
  induction l1 as [| a l1 IH]; cbn; intros H; apply StronglySorted_inv in H as [H1 H2].
  - rewrite list.Forall_forall in H2. split_and!; [constructor | done | by intros y ?%elem_of_nil | done].
  - destruct (IH H1) as (I1 & I2 & I3 & I4). apply Forall_app in H2 as [F1 F2]. split_and!; [by constructor | done | | done].
    intros y [-> | Hy]%elem_of_cons; [by inversion F2 | by apply I3].
Qed.

Lemma ordered_node l tb r : ordered (blocks l ++ [tb] ++ blocks r) ->
  ordered (blocks l) /\ ordered (blocks r) /\ 0 < tc_size tb /\
  (forall a, a ∈ blocks l -> tc_ptr a + tc_size a <= tc_ptr tb) /\
  (forall b, b ∈ blocks r -> tc_ptr tb + tc_size tb <= tc_ptr b).
Proof.
  intros [Hs Hf]. apply sorted_app_inv in Hs as (H1 & H2 & H3 & H4).
  apply Forall_app in Hf as [F1 F2]. apply Forall_cons_1 in F2 as [F2 F3]. by repeat split.
Qed.

Lemma ordered_pos l tb : ordered l -> tb ∈ l -> 0 < tc_size tb.
Proof. intros [_ Hf] Hin. rewrite list.Forall_forall in Hf. by apply Hf. Qed.

(** The lookup finds the block that contains the address. *)
Lemma q_tree_lookup_in t p tb : ordered (blocks t) -> tb ∈ blocks t -> contains tb p ->
  q_tree_lookup t p = Some (Some tb).
Proof.
  unfold contains. induction t as [| l IHl tb' r IHr]; intros Ho Hin Hp; [by apply elem_of_nil in Hin |].
  cbn [blocks q_tree_lookup] in *. rewrite ptr_key_cmp. cbn [mbind option_bind]. unfold ptr_cmp_tb_tc.
  destruct (ordered_node _ _ _ Ho) as (Hl & Hr & Hpos & Hbl & Hbr).
  apply elem_of_app in Hin as [Hin | Hin].
  - specialize (Hbl _ Hin). rewrite (proj2 (Z.leb_gt _ _)), (proj2 (Z.ltb_lt _ _)) by lia. by apply IHl.
  - apply elem_of_cons in Hin as [-> | Hin].
    + by rewrite (proj2 (Z.leb_gt _ _)), (proj2 (Z.ltb_ge _ _)) by lia.
    + specialize (Hbr _ Hin). rewrite (proj2 (Z.leb_le _ _)) by lia. by apply IHr.
Qed.

Lemma q_tree_lookup_out t p : ordered (blocks t) -> (forall tb, tb ∈ blocks t -> ~ contains tb p) ->
  q_tree_lookup t p = Some None.
Proof.
  unfold contains. induction t as [| l IHl tb' r IHr]; intros Ho Hout; [done |].
  cbn [blocks q_tree_lookup] in *. rewrite ptr_key_cmp. cbn [mbind option_bind]. unfold ptr_cmp_tb_tc.
  destruct (ordered_node _ _ _ Ho) as (Hl & Hr & Hpos & Hbl & Hbr).
  pose proof (Hout tb' ltac:(rewrite !elem_of_app, list_elem_of_singleton; tauto)) as Htb.
  destruct (Z.leb_spec (tc_ptr tb' + tc_size tb') p).
  { apply IHr; [done | intros tb Hin; apply Hout; rewrite !elem_of_app; tauto]. }
  destruct (Z.ltb_spec p (tc_ptr tb')); [| lia].
  apply IHl; [done | intros tb Hin; apply Hout; rewrite !elem_of_app; tauto].
Qed.

(** ** Leaving a block *)

(** A translated block in region [k], with its search table behind its code. *)
Record live (r : region_cfg) (trees : Z -> qtree) (code : Z -> list Z) (k : Z)
    (tb : tblock) (g : gen_insns) : Prop := {
  lv_cfg : cfg_ok r;
  lv_region : 0 <= k < n_regions r;
  lv_ordered : ordered (blocks (trees k));
  lv_in : tb ∈ blocks (trees k);
  lv_bounds : fst (tcg_region_bounds r k) <= tc_ptr tb /\ tc_ptr tb + tc_size tb <= snd (tcg_region_bounds r k);
  lv_gen : gen_ok tb g;
  lv_ends : Forall (fun e => e <= tc_size tb) (gen_insn_end_off g);
  lv_search : exists highwater search rest,
    encode_search tb g highwater (tc_ptr tb + tc_size tb) = Some search /\
    code (tc_ptr tb + tc_size tb) = search ++ rest
}.

Section Leaving.
Context {r : region_cfg} {trees : Z -> qtree} {code : Z -> list Z} {k : Z} {tb : tblock} {g : gen_insns}.
Context (Hlive : live r trees code k tb g).

Lemma live_range p : contains tb p -> in_code_gen_buffer r p = true /\ tc_ptr_to_region_tree r p = Some k.
Proof using Hlive.
  intros Hp. destruct Hlive. apply region_tree_in; [done | done | unfold contains in Hp; lia].
Qed.

Lemma live_addr : 0 <= tc_ptr tb /\ tc_ptr tb + tc_size tb < 2 ^ 32.
Proof using Hlive.
  destruct Hlive as [Hc Hk _ _ Hb _ _ _]. destruct (bounds_spec r Hc k Hk) as (B1 & _ & _ & B4).
  pose proof (ok_start r Hc). pose proof (ok_fits r Hc). pose proof (ok_size r Hc). pose proof (ok_stride r Hc).
  unfold TCG_HIGHWATER in *. assert (0 <= k * stride r) by (apply Z.mul_nonneg_nonneg; lia). lia.
Qed.

Lemma live_lookup p : contains tb p -> tcg_tb_lookup r trees p = Some (Some tb).
Proof using Hlive.
  intros Hp. unfold tcg_tb_lookup. rewrite (proj2 (live_range p Hp)).
  destruct Hlive. by apply q_tree_lookup_in.
Qed.

(** Instruction [i] of the block holds the host address [p]: it is the first one
    whose code ends beyond it, the call being two bytes back. *)
Definition insn_at (p : Z) (i : nat) : Prop :=
  tc_ptr tb + GETPC_ADJ <= p /\ exists e,
    list_find (fun e => p - GETPC_ADJ < tc_ptr tb + e) (gen_insn_end_off g) = Some (i, e).

Lemma live_unwind p i : contains tb p -> insn_at p i ->
  unwind_tb code tb p = Some (Some (tb_icount tb - Z.of_nat i, row g i)) /\ (i < Z.to_nat (tb_icount tb))%nat.
Proof using Hlive.
  intros Hp (Hge & e & Hf). pose proof live_addr as Ha.
  pose proof (lv_gen _ _ _ _ _ _ Hlive) as Hg. unfold contains, GETPC_ADJ in *. split.
  - destruct (lv_search _ _ _ _ _ _ Hlive) as (hw & search & rest & Henc & Hcode).
    unfold unwind_tb. rewrite Hcode, (unwind_exact tb g hw search rest p);
      [| done | unfold is_u; lia | | unfold is_u, GETPC_ADJ; lia | done].
    + unfold GETPC_ADJ. rewrite (proj2 (Z.ltb_ge _ _)) by lia. by rewrite Hf.
    + eapply List.Forall_impl; [| apply (lv_ends _ _ _ _ _ _ Hlive)]. cbn. lia.
  - destruct (proj1 (list_find_Some _ _ _ _) Hf) as (Hi & _). apply lookup_lt_Some in Hi.
    by rewrite (go_end_len _ _ Hg) in Hi.
Qed.
End Leaving.

(** The guest at instruction [i]: its program counter and condition-code state
    from the words recorded for it, and with instruction counting on, the
    instructions not run given back. *)
Definition guest_at (tb : tblock) (g : gen_insns) (i : nat) (env : guest) : guest :=
  let pc := curr_word g i 0 in
  let cc := s32 (curr_word g i 1) in
  {| eip := if has (tb_cflags tb) CF_PCREL then Z.lor (Z.land (eip env) TARGET_PAGE_MASK) pc
            else if has (tb_flags tb) HF_CS64_MASK then pc else u32 (pc - tb_cs_base tb);
     cc_op := if cc =? CC_OP_DYNAMIC then cc_op env else cc;
     icount_low := if has (tb_cflags tb) CF_USE_ICOUNT
                   then u16 (icount_low env + (tb_icount tb - Z.of_nat i)) else icount_low env |}.

Lemma live_restore icount r trees code k tb g p i env :
  live r trees code k tb g -> contains tb p -> insn_at (tb := tb) (g := g) p i ->
  (has (tb_cflags tb) CF_USE_ICOUNT = true -> icount = true) ->
  cpu_restore_state_from_tb icount code tb p env = Some (guest_at tb g i env).
Proof.
  intros Hl Hp Hi Hic. unfold cpu_restore_state_from_tb.
  rewrite (proj1 (live_unwind Hl p i Hp Hi)). cbn [mbind option_bind].
  unfold guest_at, x86_restore_state_to_opc, row, TARGET_INSN_START_WORDS. cbn [seq map].
  destruct (has (tb_cflags tb) CF_USE_ICOUNT); [rewrite (Hic eq_refl) |]; cbn [andb negb];
    change ([curr_word g i 0; curr_word g i 1] !!! 1%nat) with (curr_word g i 1);
    change ([curr_word g i 0; curr_word g i 1] !!! 0%nat) with (curr_word g i 0);
    destruct (s32 (curr_word g i 1) =? CC_OP_DYNAMIC); reflexivity.
Qed.

(** C11: leaving a block restores the guest exactly.  For an address inside the
    code of instruction [i] of any live block, [cpu_restore_state] finds the
    block (through the region, its tree and the search data) and sets the program
    counter, the condition-code state and the instruction count to those of
    instruction [i]; an address in no block changes nothing. *)
Theorem restore_state_exact (icount : bool) (r : region_cfg) (trees : Z -> qtree) (code : Z -> list Z)
  (k : Z) (tb : tblock) (g : gen_insns) (host_pc : Z) (i : nat) (env : guest)
  (Hlive : live r trees code k tb g) (Hp : contains tb host_pc)
  (Hi : insn_at (tb := tb) (g := g) host_pc i)
  (Hic : has (tb_cflags tb) CF_USE_ICOUNT = true -> icount = true) :
  cpu_restore_state icount code r trees host_pc env = Some (true, guest_at tb g i env) /\
  (forall q, is_u 32 q -> fst (tcg_region_bounds r k) <= q < snd (tcg_region_bounds r k) ->
     (forall tb', tb' ∈ blocks (trees k) -> ~ contains tb' q) ->
     cpu_restore_state icount code r trees q env = Some (false, env)).
Proof.
  split.
  - unfold cpu_restore_state. rewrite (proj1 (live_range Hlive host_pc Hp)), (live_lookup Hlive host_pc Hp).
    cbn [mbind option_bind]. rewrite (live_restore icount r trees code k tb g host_pc i env Hlive Hp Hi Hic). done.
  - intros q Hq Hb Hout. destruct Hlive as [Hc Hk Ho _ _ _ _ _]. unfold cpu_restore_state, tcg_tb_lookup.
    destruct (region_tree_in r k q Hc Hk Hb) as [-> ->]. by rewrite q_tree_lookup_out.
Qed.

(** ** Split hints *)

Lemma split_slot_range a : is_u BB_SPLIT_BITS (bb_split_slot a).
Proof.
  unfold bb_split_slot, BB_SPLIT_BITS. pose proof (uw_range 32 (a * 2654435761) ltac:(lia)) as H.
  unfold is_u in *. rewrite Z.shiftr_div_pow2 by lia. change (32 - 14) with 18.
  split; [apply Z.div_pos; lia | apply Z.div_lt_upper_bound; lia].
Qed.

Lemma hint_set a n t : a <> NO_PAGE -> bb_split_hint (bb_split_set a n t) a = n.
Proof.
  intros Ha. unfold bb_split_hint, bb_split_set. rewrite (proj2 (Z.eqb_neq _ _)) by done.
  rewrite Z.eqb_refl. cbn [fst snd]. by rewrite Z.eqb_refl.
Qed.

Lemma hint_other a b n t : bb_split_slot b <> bb_split_slot a ->
  bb_split_hint (bb_split_set a n t) b = bb_split_hint t b.
Proof.
  intros Hs. unfold bb_split_hint, bb_split_set. by rewrite (proj2 (Z.eqb_neq _ _) Hs).
Qed.

(** Another block in the same slot loses its hint. *)
Lemma hint_evicted a b n t : b <> a -> bb_split_slot b = bb_split_slot a ->
  bb_split_hint (bb_split_set a n t) b = 0.
Proof.
  intros Hb Hs. unfold bb_split_hint, bb_split_set. rewrite Hs, Z.eqb_refl. cbn [fst snd].
  rewrite (proj2 (Z.eqb_neq a b)) by done. by rewrite orb_true_r.
Qed.

(** The limit with a hint: the hint itself, up to the most a block can hold. *)
Lemma gen_limit_hint t cflags a n : has cflags CF_COUNT_MASK = false -> a <> NO_PAGE ->
  bb_split_hint t a = n -> 1 <= n <= TCG_MAX_INSNS -> gen_limit t cflags a = (cflags, n).
Proof.
  intros Hc Ha Hn Hr. unfold gen_limit. rewrite (proj2 (Z.eqb_neq a NO_PAGE) Ha).
  unfold has in Hc. rewrite negb_false_iff in Hc. rewrite Hc, Hn. cbv zeta. rewrite (proj2 (Z.ltb_lt 0 n)) by lia.
  unfold TCG_MAX_INSNS in *. destruct (Z.ltb_spec n 512); cbn [andb]; [done |]. do 2 f_equal. lia.
Qed.

(** ** The instruction loop *)

Section LoopProps.
Context (translate_insn : Z -> Z -> bool * DisasJumpType) (tcg_op_buf_full : Z -> Z -> bool).
Abbreviation loop := (translate_insns translate_insn tcg_op_buf_full).

(** The loop returns within the limit; its last instruction, when it is the one
    that reaches the limit, may do I/O. *)
Lemma translate_insns_limit fuel db flags :
  0 <= num_insns db -> Z.of_nat fuel = max_insns db - num_insns db -> (0 < fuel)%nat ->
  exists db' fl, loop fuel db flags = Some (db', flags ++ fl) /\
    max_insns db' = max_insns db /\ num_insns db' = num_insns db + Z.of_nat (length fl) /\
    num_insns db < num_insns db' <= max_insns db /\
    (num_insns db' = max_insns db -> exists fl0, fl = fl0 ++ [true]).
Proof.
  revert db flags. induction fuel as [| fuel IH]; intros db flags Hn Hf Hpos; [lia |].
  cbn [translate_insns num_insns max_insns]. cbv zeta.
  set (db1 := Build_dbase (num_insns db + 1) _ _ _).
  set (db2 := if _ =? _ then set_can_do_io true db1 else db1).
  assert (H2 : max_insns db2 = max_insns db /\ num_insns db2 = num_insns db + 1 /\
    (num_insns db + 1 = max_insns db -> saved_can_do_io db2 = 1)).
  { subst db2. unfold set_can_do_io. destruct (Z.eqb_spec (num_insns db + 1) (max_insns db)) as [E | E];
      [| subst db1; cbn; repeat split; lia].
    destruct (Z.eqb_spec (saved_can_do_io db1) (b2z true)); subst db1; cbn in *; repeat split; lia. }
  destruct H2 as (Hm2 & Hn2 & Hs2). clearbody db2. clear db1.
  destruct (translate_insn _ _) as [io jmp].
  set (db3 := if io then _ else _).
  assert (H3 : max_insns db3 = max_insns db /\ num_insns db3 = num_insns db + 1 /\
    (num_insns db + 1 = max_insns db -> saved_can_do_io db3 = 1)).
  { subst db3. unfold translator_io_start, set_can_do_io, set_is_jmp. destruct io; cbn; [| tauto].
    destruct (Z.eqb_spec (saved_can_do_io db2) 1); cbn; case_decide; cbn; auto. }
  destruct H3 as (Hm3 & Hn3 & Hs3). clearbody db3.
  assert (Hstop : exists db' fl, Some (db3, flags ++ [saved_can_do_io db3 =? 1]) = Some (db', flags ++ fl) /\
    max_insns db' = max_insns db /\ num_insns db' = num_insns db + Z.of_nat (length fl) /\
    num_insns db < num_insns db' <= max_insns db /\
    (num_insns db' = max_insns db -> exists fl0, fl = fl0 ++ [true])).
  { eexists _, _. split; [reflexivity |]. cbn. split_and!; [done | done | lia | lia |].
    intros E. rewrite Hs3 by lia. by exists []. }
  case_bool_decide; cbn [negb]; [| exact Hstop].
  rewrite Hm3, Hn3. destruct (tcg_op_buf_full _ _); cbn [orb].
  { destruct Hstop as (db' & fl & [= <- <-%app_inv_head] & Hrest). eexists (set_is_jmp DISAS_TOO_MANY db3), _. by split. }
  destruct (Z.leb_spec (max_insns db) (num_insns db + 1)) as [Hle | Hgt].
  { destruct Hstop as (db' & fl & [= <- <-%app_inv_head] & Hrest). eexists (set_is_jmp DISAS_TOO_MANY db3), _. by split. }
  destruct (IH db3 (flags ++ [saved_can_do_io db3 =? 1]) ltac:(lia) ltac:(lia) ltac:(lia))
    as (db' & fl & E & Hm & Hnum & Hr & Hl).
  rewrite E, <- app_assoc. eexists _, _. split; [reflexivity |].
  cbn [app length]. split_and!; [lia | lia | lia | lia |].
  intros Ee. rewrite Hm3 in Hl. destruct (Hl Ee) as [fl0 ->]. by exists ((saved_can_do_io db3 =? 1) :: fl0).
Qed.

(** One round of the loop, by its instruction number. *)
Lemma translate_insns_step fuel db flags :
  let k := num_insns db + 1 in
  exists db1 fl, num_insns db1 = k /\ max_insns db1 = max_insns db /\
    loop (S fuel) db flags =
      if (negb (fst (translate_insn (max_insns db) k)) &&
          bool_decide (snd (translate_insn (max_insns db) k) = DISAS_NEXT)) &&
         negb (tcg_op_buf_full (max_insns db) k || (max_insns db <=? k))
      then loop fuel db1 fl else Some (db1, fl).
Proof.
  cbn [translate_insns num_insns max_insns]. cbv zeta.
  set (db1 := Build_dbase (num_insns db + 1) _ _ _).
  set (db2 := if _ =? _ then set_can_do_io true db1 else db1).
  assert (H2 : max_insns db2 = max_insns db /\ num_insns db2 = num_insns db + 1).
  { subst db2. unfold set_can_do_io. repeat case_match; done. }
  destruct H2 as (Hm2 & Hn2). clearbody db2. clear db1. rewrite Hm2, Hn2.
  destruct (translate_insn _ _) as [io jmp]. cbn [fst snd]. destruct io; cbn [negb andb].
  - set (db3 := translator_io_start _).
    assert (H3 : max_insns db3 = max_insns db /\ num_insns db3 = num_insns db + 1 /\ is_jmp db3 <> DISAS_NEXT).
    { subst db3. unfold translator_io_start, set_can_do_io, set_is_jmp. cbn.
      destruct (Z.eqb_spec (saved_can_do_io db2) 1); cbn; case_decide; cbn; repeat split; done. }
    destruct H3 as (Hm3 & Hn3 & Hj3). clearbody db3.
    rewrite bool_decide_false by done. cbn [negb]. by eexists _, _.
  - set (db3 := set_is_jmp jmp db2).
    assert (H3 : max_insns db3 = max_insns db /\ num_insns db3 = num_insns db + 1 /\ is_jmp db3 = jmp) by done.
    destruct H3 as (Hm3 & Hn3 & Hj3). clearbody db3. rewrite Hj3.
    case_bool_decide; cbn [negb andb]; [| by eexists _, _].
    rewrite Hm3, Hn3. destruct (_ || _); cbn [negb]; [| by eexists _, _].
    by exists (set_is_jmp DISAS_TOO_MANY db3); eexists.
Qed.

(** With a smaller limit [j] the same instructions are translated up to [j]. *)
Lemma translate_insns_stop fuel fuel' db db' flags flags' j e fl :
  num_insns db' = num_insns db -> max_insns db' = j -> num_insns db < j ->
  loop fuel db flags = Some (e, fl) -> j <= num_insns e ->
  (forall k, num_insns db < k < j -> translate_insn j k = translate_insn (max_insns db) k /\
     tcg_op_buf_full j k = tcg_op_buf_full (max_insns db) k) ->
  (Z.to_nat (j - num_insns db) <= fuel')%nat ->
  exists e' fl', loop fuel' db' flags' = Some (e', fl') /\ num_insns e' = j.
Proof.
  revert fuel' db db' flags flags'. induction fuel as [| fuel IH]; intros fuel' db db' flags flags' En Em Hlt Hrun He Hag Hf; [done |].
  destruct fuel' as [| fuel']; [lia |].
  destruct (translate_insns_step fuel db flags) as (d1 & f1 & Hn1 & Hm1 & E1).
  destruct (translate_insns_step fuel' db' flags') as (d2 & f2 & Hn2 & Hm2 & E2).
  rewrite E1 in Hrun. rewrite En, Em in E2. rewrite E2. rewrite En in Hn2.
  destruct (Z.eq_dec (num_insns db + 1) j) as [Ej | Nj].
  - rewrite (proj2 (Z.leb_le j (num_insns db + 1))) by lia. rewrite orb_true_r, andb_false_r.
    eexists _, _. split; [done | lia].
  - destruct (Hag (num_insns db + 1) ltac:(lia)) as [-> ->].
    destruct (_ && _) eqn:Ec in Hrun; [| simplify_eq; lia].
    apply andb_true_iff in Ec as [-> Ec]. apply negb_true_iff, orb_false_iff in Ec as [-> _].
    rewrite (proj2 (Z.leb_gt j (num_insns db + 1))) by lia. cbn [orb negb andb].
    eapply (IH fuel' d1 d2 f1 f2); [lia | lia | lia | done | done | | lia].
    intros k Hk. rewrite Hm1. apply Hag. lia.
Qed.
End LoopProps.

(** The loop with a limit stops there at the latest, the instruction that reaches the
    limit may do I/O, and a run that got that far with another limit gets there with
    this one if the instructions before it translate alike. *)
Definition stops_at (hook : Z -> Z -> bool * DisasJumpType) (full : Z -> Z -> bool) (limit : Z) : Prop :=
  exists db fl, translator_loop hook full limit = Some (db, fl) /\
    1 <= num_insns db <= limit /\
    (num_insns db = limit -> exists fl0, fl = fl0 ++ [true]) /\
    (forall max0 db0 fl0, translator_loop hook full max0 = Some (db0, fl0) -> limit <= num_insns db0 ->
       (forall j, 0 < j < limit -> hook limit j = hook max0 j /\ full limit j = full max0 j) ->
       num_insns db = limit).

Lemma translator_loop_stops hook full limit : 1 <= limit -> stops_at hook full limit.
Proof.
  intros Hlimit. unfold stops_at, translator_loop.
  set (db0 := set_can_do_io (limit =? 1) _).
  assert (Hd : num_insns db0 = 0 /\ max_insns db0 = limit).
  { subst db0. unfold set_can_do_io. case_match; done. }
  destruct Hd as [Hd0 Hd1].
  destruct (translate_insns_limit hook full (Z.to_nat limit) db0 [] ltac:(lia) ltac:(lia) ltac:(lia))
    as (db & fl & E & Hm & Hn & Hr & Hl).
  exists db, fl. split; [exact E |]. rewrite Hd0, Hd1 in *. split; [lia |]. split; [done |].
  intros max0 e fl0 Hrun He Hag.
  set (dm := set_can_do_io (max0 =? 1) _) in Hrun.
  assert (Hdm : num_insns dm = 0 /\ max_insns dm = max0).
  { subst dm. unfold set_can_do_io. case_match; done. }
  destruct Hdm as [Hdm0 Hdm1].
  destruct (translate_insns_stop hook full (Z.to_nat max0) (Z.to_nat limit) dm db0 [] [] limit e fl0
    ltac:(lia) Hd1 ltac:(lia) Hrun He) as (e' & fl' & E' & He'); [| lia | congruence].
  intros j Hj. rewrite Hdm1. apply Hag. lia.
Qed.

(** The blocks a device access splits. *)
Definition splits (bb_split_enabled : bool) (tb : tblock) : bool :=
  bb_split_enabled && negb (has (tb_cflags tb) CF_COUNT_MASK) && negb (page_addr0 tb =? NO_PAGE) && (page_addr1 tb =? NO_PAGE).

(** The flags of the retry hold the count 1. *)
Lemma retry_limit t cflags a : has cflags CF_COUNT_MASK = false -> snd (gen_limit t (Z.lor (Z.lor cflags CF_MEMI_ONLY) 1) a) = 1.
Proof.
  unfold has. rewrite negb_false_iff, Z.eqb_eq. intros Hc. unfold gen_limit.
  assert (E : Z.land (Z.lor (Z.lor cflags CF_MEMI_ONLY) 1) CF_COUNT_MASK = 1) by (rewrite !Z.land_lor_distr_l, Hc; reflexivity).
  destruct (a =? NO_PAGE); cbv zeta; [| by rewrite E].
  assert (E1 : Z.land (Z.lor (Z.land (Z.lor (Z.lor cflags CF_MEMI_ONLY) 1) (Z.lnot CF_COUNT_MASK)) 1) CF_COUNT_MASK = 1).
  { rewrite Z.land_lor_distr_l, <- Z.land_assoc, (Z.land_comm (Z.lnot _)), Z.land_lnot_diag, Z.land_0_r. reflexivity. }
  by rewrite E1.
Qed.

(** C27: a device touched by instruction [i] of a block.  [cpu_io_recompile] restores the
    guest at instruction [i] and retries with a block of one instruction.  If splitting
    is enabled, the block has no instruction limit of its own and lies in one page, the
    split sticks: the block is retired and its length recorded, so that the next
    unlimited translation of that address is limited to [i + 1] instructions, stops
    there at the latest (and exactly there when the guest code is the same and its
    earlier instructions translate as before), and the instruction that reaches the
    limit is allowed to do I/O.  Otherwise (a block over two pages among them) nothing is recorded and
    the block stays. *)
Theorem io_split_sticks (icount bb_split_enabled : bool) (r : region_cfg) (trees : Z -> qtree) (code : Z -> list Z)
  (k : Z) (tb : tblock) (g : gen_insns) (retaddr curr_cflags : Z) (i : nat) (s : io_state)
  (Hlive : live r trees code k tb g) (Hp : contains tb retaddr)
  (Hi : insn_at (tb := tb) (g := g) retaddr i)
  (Hic : has (tb_cflags tb) CF_USE_ICOUNT = true -> icount = true)
  (Hmax : tb_icount tb <= TCG_MAX_INSNS) :
  let limit := Z.of_nat i + 1 in
  exists s', cpu_io_recompile icount bb_split_enabled code r trees curr_cflags retaddr s = Some s' /\
    io_env s' = guest_at tb g i (io_env s) /\
    (has curr_cflags CF_COUNT_MASK = false -> forall t phys_pc, snd (gen_limit t (io_cflags_next s') phys_pc) = 1) /\
    if splits bb_split_enabled tb then
      io_invalidated s' = tb :: io_invalidated s /\
      (forall cflags, has cflags CF_COUNT_MASK = false ->
         gen_limit (io_split s') cflags (page_addr0 tb) = (cflags, limit)) /\
      (forall hook full, stops_at hook full limit)
    else io_invalidated s' = io_invalidated s /\ io_split s' = io_split s.
Proof.
  intros limit. destruct (live_unwind Hlive retaddr i Hp Hi) as [Hu Hlt].
  pose proof (go_icount _ _ (lv_gen _ _ _ _ _ _ Hlive)) as Hnn. unfold TCG_MAX_INSNS in *.
  unfold cpu_io_recompile. rewrite (live_lookup Hlive retaddr Hp). cbn [mbind option_bind].
  rewrite (live_restore icount r trees code k tb g retaddr i (io_env s) Hlive Hp Hi Hic). cbn [mbind option_bind].
  fold (splits bb_split_enabled tb). destruct (splits bb_split_enabled tb) eqn:Es.
  - rewrite Hu. cbn [mbind option_bind]. rewrite (proj2 (Z.leb_le 1 _)) by lia.
    eexists. split; [reflexivity |]. cbn [io_env io_invalidated io_split io_cflags_next].
    split; [done |]. split; [intros; by apply retry_limit |]. split; [done |]. split; [| intros; apply translator_loop_stops; lia].
    unfold splits in Es. rewrite !andb_true_iff, !negb_true_iff, Z.eqb_neq in Es. destruct Es as [[[_ Hcount] Hpage] _].
    intros cflags Hc. apply gen_limit_hint; [done | done | | unfold TCG_MAX_INSNS; lia].
    rewrite hint_set by done. rewrite uw_small; [lia | unfold is_u; lia].
  - eexists. split; [reflexivity |]. cbn [io_env io_invalidated io_split io_cflags_next].
    split; [done |]. split; [intros; by apply retry_limit | done].
Qed.

(** ** The retries of a translation end *)

Section Retries.
Context {r : region_cfg} (Hr : cfg_ok r) {sizeof_tb : Z} (Hsize : 0 < sizeof_tb).

(** Room left: whole regions not yet taken, and the rest of the context's own. *)
Definition room (cur : Z) (c : ctx) : Z :=
  (n_regions r - cur) * (total_size r + 1) + Z.max 0 (code_gen_highwater c - code_gen_ptr c).

Lemma owns_room k c : owns r k c -> code_gen_highwater c - code_gen_ptr c <= total_size r.
Proof using Hr.
  intros [Hk Hb Hz Hh Hp]. destruct (bounds_spec r Hr k Hk) as (B1 & _ & _ & B4).
  pose proof (ok_size r Hr). pose proof (ok_stride r Hr). unfold TCG_HIGHWATER in *.
  assert (0 <= k * stride r) by (apply Z.mul_nonneg_nonneg; lia). lia.
Qed.

Lemma total_nonneg : 0 <= total_size r.
Proof using Hr.
  pose proof (ok_total r Hr). pose proof (ok_n r Hr). pose proof (ok_size r Hr). pose proof (ok_stride r Hr).
  unfold TCG_HIGHWATER in *. assert (0 <= (n_regions r - 1) * stride r) by (apply Z.mul_nonneg_nonneg; lia). lia.
Qed.

Lemma room_nonneg cur c : cur <= n_regions r -> 0 <= room cur c.
Proof using Hr.
  intros Hc. unfold room. pose proof total_nonneg.
  assert (0 <= (n_regions r - cur) * (total_size r + 1)) by (apply Z.mul_nonneg_nonneg; lia). lia.
Qed.

(** Every descriptor uses some of it up. *)
Lemma tb_alloc_room fuel cur agg c k tb c' cur' agg' :
  0 <= cur <= n_regions r -> owns r k c ->
  tb_alloc_loop sizeof_tb fuel r cur agg c = Some (Some tb, c', cur', agg') -> room cur' c' < room cur c.
Proof using Hr Hsize.
  revert cur agg c k. induction fuel as [| fuel IH]; intros cur agg c k Hc Ho; cbn [tb_alloc_loop];
    destruct (Z.ltb_spec (code_gen_highwater c) (ROUND_UP (ROUND_UP (code_gen_ptr c) tcg_tb_alignment + sizeof_tb) tcg_tb_alignment)) as [Hlt | Hge].
  2,4: intros [= <- <- <- <-]; unfold room; cbn [code_gen_highwater code_gen_ptr];
       pose proof (round_up_spec (code_gen_ptr c) tcg_tb_alignment ltac:(done));
       pose proof (round_up_spec (ROUND_UP (code_gen_ptr c) tcg_tb_alignment + sizeof_tb) tcg_tb_alignment ltac:(done)); lia.
  all: unfold tcg_region_alloc; destruct (tcg_region_alloc__locked r cur) as [[c1 cur1] |] eqn:E; cbn [mbind option_bind]; [| done].
  - done.
  - destruct (alloc_locked_spec r Hr cur _ _ Hc E) as (Ho1 & -> & Hc1). intros H.
    specialize (IH (cur + 1) _ _ _ ltac:(lia) Ho1 H). pose proof (owns_room _ _ Ho1). pose proof total_nonneg.
    unfold room in *. assert (E1 : (n_regions r - cur) * (total_size r + 1)
      = (n_regions r - (cur + 1)) * (total_size r + 1) + (total_size r + 1)) by lia. lia.
Qed.

Context {W : Type} (setjmp_gen_code : ctx -> tblock -> Z -> W -> gen_out W).
Context (pc cs_base flags cflags phys_pc : Z).
(** The instruction count never exceeds the limit (translator.c). *)
Context (Hlimit : forall c tb m w, 1 <= m -> 1 <= go_max (setjmp_gen_code c tb m w) <= m).
(** [tb_lock_page1] restarts only when it has just recorded the second page; with
    the page recorded and locked, the restart goes through. *)
Context (Hrelock : forall c tb m w, go_ret (setjmp_gen_code c tb m w) = -3 ->
  page_addr1 tb = NO_PAGE /\ page_addr1 (go_tb (setjmp_gen_code c tb m w)) <> NO_PAGE).
(** The errors are the documented ones, and one instruction always fits. *)
Context (Hcodes : forall c tb m w, -3 <= go_ret (setjmp_gen_code c tb m w)).
Context (Hone : forall c tb m w, go_ret (setjmp_gen_code c tb m w) = -2 -> 1 < go_max (setjmp_gen_code c tb m w)).

Abbreviation step := (gen_step setjmp_gen_code r sizeof_tb pc cs_base flags cflags phys_pc).
Abbreviation run := (gen_loop setjmp_gen_code r sizeof_tb pc cs_base flags cflags phys_pc).

Definition label_weight (l : gen_label) : Z :=
  match l with BufferOverflow => 0 | RestartTranslate _ => 1 end.
Definition label_lock (l : gen_label) : Z :=
  match l with BufferOverflow => 0 | RestartTranslate tb => if page_addr1 tb =? NO_PAGE then 1 else 0 end.

(** The measure, for translations that start with limit [top]: room, then the
    limit, then whether the second page is still to be locked. *)
Definition retry_measure (top : Z) (s : gen_state W) : Z :=
  (2 * room (gs_current s) (gs_ctx s) + label_weight (gs_label s)) * (2 * top + 2)
  + 2 * gs_max s + label_lock (gs_label s).

Record gen_wf (top : Z) (s : gen_state W) : Prop := {
  gw_max : 1 <= gs_max s <= top;
  gw_cur : 0 <= gs_current s <= n_regions r;
  gw_own : exists k, owns r k (gs_ctx s)
}.

Lemma label_lock_range l : 0 <= label_lock l <= 1.
Proof. destruct l; cbn; [lia | case_match; lia]. Qed.

Lemma retry_measure_nonneg top s : gen_wf top s -> 0 <= retry_measure top s.
Proof using Hr.
  intros [Hm Hc _]. unfold retry_measure. pose proof (room_nonneg (gs_current s) (gs_ctx s) ltac:(lia)).
  pose proof (label_lock_range (gs_label s)).
  assert (0 <= label_weight (gs_label s)) by (destruct (gs_label s); cbn; lia).
  assert (0 <= (2 * room (gs_current s) (gs_ctx s) + label_weight (gs_label s)) * (2 * top + 2))
    by (apply Z.mul_nonneg_nonneg; lia). lia.
Qed.

(** Lexicographic descent. *)
Lemma measure_descent top x x' m m' l l' : 0 <= m' <= top -> 0 <= m -> 0 <= l' <= 1 -> 0 <= l -> 0 <= top ->
  x' < x \/ x' = x /\ 2 * m' + l' < 2 * m + l ->
  x' * (2 * top + 2) + 2 * m' + l' < x * (2 * top + 2) + 2 * m + l.
Proof. intros ? ? ? ? ? [H | [-> H]]; [| lia]. assert ((x' + 1) * (2 * top + 2) <= x * (2 * top + 2)) by (apply Z.mul_le_mono_nonneg_r; lia). lia. Qed.

(** What a finished translation is: its search table belongs to it, and the
    context still owns a region. *)
Definition gen_good (res : gen_result W) : Prop :=
  match res with
  | GenAssert => False
  | GenFlush st => exists k, owns r k (gs_ctx st)
  | GenDone tb search st => exists c g, encode_search tb g (code_gen_highwater c) (code_gen_ptr c + tc_size tb) = Some search /\
      gs_ctx st = tb_commit (tc_size tb) (Z.of_nat (length search)) c /\ exists k, owns r k c
  end.

Lemma gen_step_ok top s : gen_wf top s ->
  match step s with
  | inl s' => gen_wf top s' /\ retry_measure top s' < retry_measure top s
  | inr res => gen_good res
  end.
Proof using Hr Hsize Hlimit Hrelock Hcodes Hone.
  intros [Hm Hc [k Ho]]. unfold gen_step. destruct (gs_label s) as [| tb] eqn:El.
  - destruct (tb_alloc_total r Hr sizeof_tb (gs_current s) (gs_agg s) (gs_ctx s) Hc) as [[[[o c] cur] agg] E].
    rewrite E. destruct (tb_alloc_loop_spec r Hr sizeof_tb Hsize _ _ _ _ _ _ _ _ _ Hc Ho E) as (Hc' & k' & Ho' & _).
    destruct o as [tb |]; [| by eexists]. split; [split; cbn; [lia | lia | by eexists] |].
    pose proof (tb_alloc_room _ _ _ _ _ _ _ _ _ Hc Ho E) as Hroom.
    unfold retry_measure. rewrite El. cbn [gs_current gs_ctx gs_label gs_max label_weight label_lock page_addr1].
    apply measure_descent; [lia | lia | rewrite Z.eqb_refl; lia | lia | lia | left; lia].
  - set (out := setjmp_gen_code (gs_ctx s) tb (gs_max s) (gs_world s)).
    pose proof (Hlimit (gs_ctx s) tb (gs_max s) (gs_world s) ltac:(lia)) as Hl. fold out in Hl.
    pose proof (Hcodes (gs_ctx s) tb (gs_max s) (gs_world s)) as Hcd. fold out in Hcd.
    cbv zeta. cbn [gs_max gs_ctx gs_label gs_current gs_agg gs_world].
    assert (Hbo : forall s', gs_label s' = BufferOverflow -> gs_max s' = go_max out -> gs_ctx s' = gs_ctx s ->
      gs_current s' = gs_current s -> gen_wf top s' /\ retry_measure top s' < retry_measure top s).
    { intros s' E1 E2 E3 E4. split; [split; rewrite ?E2, ?E3, ?E4; [lia | lia | by eexists] |].
      unfold retry_measure. rewrite E1, E2, E3, E4, El. cbn [label_weight label_lock].
      pose proof (label_lock_range (RestartTranslate tb)). apply measure_descent; cbn [label_lock] in *; lia. }
    assert (Hrs : forall s' tb', gs_label s' = RestartTranslate tb' -> 1 <= gs_max s' <= gs_max s -> gs_ctx s' = gs_ctx s ->
      gs_current s' = gs_current s -> 2 * gs_max s' + label_lock (RestartTranslate tb') < 2 * gs_max s + label_lock (RestartTranslate tb) ->
      gen_wf top s' /\ retry_measure top s' < retry_measure top s).
    { intros s' tb' E1 E2 E3 E4 E5. split; [split; rewrite ?E3, ?E4; [lia | lia | by eexists] |].
      unfold retry_measure. rewrite E1, E3, E4, El. cbn [label_weight].
      pose proof (label_lock_range (RestartTranslate tb)). pose proof (label_lock_range (RestartTranslate tb')).
      apply measure_descent; lia. }
    destruct (Z.ltb_spec (go_ret out) 0) as [Hneg | Hpos].
    + destruct (Z.eqb_spec (go_ret out) (-1)) as [E1 | E1]; [by apply Hbo |].
      destruct (Z.eqb_spec (go_ret out) (-2)) as [E2 | E2].
      { pose proof (Hone _ _ _ _ E2) as H1. fold out in H1. rewrite (proj2 (Z.ltb_lt _ _)) by lia. cbn [negb].
        set (tb' := if negb _ then _ else _). pose proof (label_lock_range (RestartTranslate tb)).
        pose proof (label_lock_range (RestartTranslate tb')).
        pose proof (Z.div_mod (go_max out) 2 ltac:(lia)). pose proof (Z.mod_pos_bound (go_max out) 2 ltac:(lia)).
        apply (Hrs _ tb'); cbn [gs_max gs_ctx gs_current gs_label]; [done | lia | done | done | lia]. }
      destruct (Z.eqb_spec (go_ret out) (-3)) as [E3 | E3]; [| lia].
      destruct (Hrelock _ _ _ _ E3) as [Hp1 Hp2]. fold out in Hp2.
      apply (Hrs _ (go_tb out)); cbn [gs_max gs_ctx gs_current gs_label label_lock]; [done | lia | done | done |].
      rewrite (proj2 (Z.eqb_neq _ _) Hp2), (proj2 (Z.eqb_eq _ _) Hp1). lia.
    + destruct (encode_search _ _ _ _) as [search |] eqn:E; [| by apply Hbo].
      exists (gs_ctx s), (go_insns out). split; [| split; [done | by eexists]].
      rewrite <- E. by apply encode_search_ext.
Qed.

Lemma gen_loop_ok top fuel s : gen_wf top s -> retry_measure top s < Z.of_nat fuel ->
  exists res, run fuel s = Some res /\ gen_good res.
Proof using Hr Hsize Hlimit Hrelock Hcodes Hone.
  revert s. induction fuel as [| fuel IH]; intros s Hw Hf.
  { pose proof (retry_measure_nonneg top s Hw). lia. }
  cbn [gen_loop]. pose proof (gen_step_ok top s Hw) as Hs.
  destruct (gen_step setjmp_gen_code r sizeof_tb pc cs_base flags cflags phys_pc s) as [s' | res]; [| by eexists].
  destruct Hs as [Hw' Hd]. apply IH; [done | lia].
Qed.
End Retries.

Lemma gen_limit_range t cflags phys_pc : 1 <= snd (gen_limit t cflags phys_pc) <= TCG_MAX_INSNS.
Proof.
  unfold gen_limit, TCG_MAX_INSNS. set (cf := if phys_pc =? NO_PAGE then _ else _).
  assert (Hr : 0 <= Z.land cf CF_COUNT_MASK < 512).
  { unfold CF_COUNT_MASK. change 0x1ff with (Z.ones 9). rewrite Z.land_ones by lia. apply Z.mod_pos_bound. lia. }
  destruct (Z.eqb_spec (Z.land cf CF_COUNT_MASK) 0); cbn [snd]; [| lia].
  cbv zeta. destruct (Z.ltb_spec 0 (bb_split_hint t phys_pc)), (Z.ltb_spec (bb_split_hint t phys_pc) 512); cbn [andb]; lia.
Qed.

(** C17: translating a block ends.  Whatever the translator answers (the buffer
    is full, the block is too large, a second page must be locked first), the
    retries of [tb_gen_code] stop after at most [retry_measure] rounds: every full
    buffer uses up room, every block that is too large halves the limit, every
    relock records the page.  The result is a block with its own search table
    right behind its code, or a request to flush; no assertion of the loop
    fails. *)
Theorem tb_gen_code_terminates {W : Type} (r : region_cfg) (sizeof_tb : Z)
  (setjmp_gen_code : ctx -> tblock -> Z -> W -> gen_out W)
  (t : split_table) (pc cs_base flags cflags phys_pc : Z) (c : ctx) (k cur agg : Z) (w : W)
  (Hr : cfg_ok r) (Hsize : 0 < sizeof_tb) (Ho : owns r k c) (Hcur : 0 <= cur <= n_regions r)
  (Hlimit : forall c tb m w, 1 <= m -> 1 <= go_max (setjmp_gen_code c tb m w) <= m)
  (Hrelock : forall c tb m w, go_ret (setjmp_gen_code c tb m w) = -3 ->
     page_addr1 tb = NO_PAGE /\ page_addr1 (go_tb (setjmp_gen_code c tb m w)) <> NO_PAGE)
  (Hcodes : forall c tb m w, -3 <= go_ret (setjmp_gen_code c tb m w))
  (Hone : forall c tb m w, go_ret (setjmp_gen_code c tb m w) = -2 -> 1 < go_max (setjmp_gen_code c tb m w)) :
  let '(cflags, max_insns) := gen_limit t cflags phys_pc in
  let s := {| gs_label := BufferOverflow; gs_max := max_insns; gs_ctx := c; gs_current := cur;
              gs_agg := agg; gs_world := w |} in
  exists res, gen_loop setjmp_gen_code r sizeof_tb pc cs_base flags cflags phys_pc
                (Z.to_nat (retry_measure (r := r) TCG_MAX_INSNS s + 1)) s = Some res /\ gen_good (r := r) res.
Proof.
  pose proof (gen_limit_range t cflags phys_pc) as Hm. destruct (gen_limit t cflags phys_pc) as [cf m]. cbn [snd] in Hm.
  cbv zeta. set (s := Build_gen_state _ _ _ _ _ _ _).
  assert (Hw : gen_wf (r := r) TCG_MAX_INSNS s) by (split; [done | done | by eexists]).
  apply (gen_loop_ok Hr Hsize setjmp_gen_code pc cs_base flags cf phys_pc Hlimit Hrelock Hcodes Hone TCG_MAX_INSNS _ s Hw).
  pose proof (retry_measure_nonneg Hr TCG_MAX_INSNS s Hw). lia.
Qed.

(** ** A translator that gives up on long blocks *)
Module RetryDemo.
(** Blocks of more than four instructions are too large; the block at the end of
    a region does not fit. *)
Definition gen (c : ctx) (tb : tblock) (m : Z) (w : unit) : gen_out unit :=
  {| go_ret := if 4 <? m then -2 else if code_gen_highwater c <? code_gen_ptr c + 64 then -1 else 64;
     go_max := m;
     go_tb := set_size_icount 8 (Z.min m 3) tb;
     go_insns := UnwindDemo.g;
     go_world := w |}.

Lemma tb_gen_code_terminates_witness :
  cfg_ok RegionDemo.r /\ exists res,
    gen_loop gen RegionDemo.r 160 0 0 0x8000 0 0x5000
      (Z.to_nat (retry_measure (r := RegionDemo.r) TCG_MAX_INSNS
        {| gs_label := BufferOverflow; gs_max := 512; gs_ctx := RegionDemo.init_ctx; gs_current := 1;
           gs_agg := 0; gs_world := tt |} + 1))
      {| gs_label := BufferOverflow; gs_max := 512; gs_ctx := RegionDemo.init_ctx; gs_current := 1;
         gs_agg := 0; gs_world := tt |} = Some res /\ gen_good (r := RegionDemo.r) res.
Proof.
  destruct (started_ok _ _ _ _ _ _ _ _ _ 160 RegionDemo.demo_started) as (Hr & Ho & _).
  split; [exact Hr |].
  exact (tb_gen_code_terminates RegionDemo.r 160 gen (fun _ => (0, 0)) 0 0 0x8000 0 0x5000 RegionDemo.init_ctx 0 1 0 tt
    Hr ltac:(lia) Ho ltac:(cbn; lia) ltac:(cbn; lia)
    ltac:(intros c tb m w; cbn; repeat case_match; lia) ltac:(intros c tb m w; cbn; repeat case_match; lia)
    ltac:(intros c tb m w; cbn; destruct (Z.ltb_spec 4 m); [lia | case_match; lia])).
Defined.

(** The same translation, run: seven halvings, then a block of three instructions. *)
Example demo_retries :
  match gen_loop gen RegionDemo.r 160 0 0 0x8000 0 0x5000 10
          {| gs_label := BufferOverflow; gs_max := 512; gs_ctx := RegionDemo.init_ctx; gs_current := 1;
             gs_agg := 0; gs_world := tt |} with
  | Some (GenDone tb search st) => tb_icount tb = 3 /\ gs_max st = 4 /\ tc_ptr tb = 0x1004a0
  | _ => False
  end.
Proof. vm_compute. done. Qed.
End RetryDemo.

(** ** The second translation of a live block *)

Lemma mem_equal_spec n m a b : mem_equal n m a b = Some true ->
  forall j, 0 <= j < Z.of_nat n -> is_Some (m !! (a + j)) /\ m !! (a + j) = m !! (b + j).
Proof.
  revert a b. induction n as [| n IH]; intros a b H j Hj; [lia |]. cbn [mem_equal load] in H.
  destruct (m !! a) as [x |] eqn:Ea; [cbn [mbind option_bind] in H | done].
  destruct (m !! b) as [y |] eqn:Eb; [cbn [mbind option_bind] in H | done].
  destruct (Z.eqb_spec (x + 256 * 0) (y + 256 * 0)) as [E | E]; [| done].
  destruct (decide (j = 0)) as [-> | Hj0].
  - rewrite !Z.add_0_r, Ea, Eb. split; [done | f_equal; lia].
  - destruct (IH _ _ H (j - 1) ltac:(lia)) as [H1 H2].
    replace (a + j) with (a + 1 + (j - 1)) by lia. by replace (b + j) with (b + 1 + (j - 1)) by lia.
Qed.

(** The copy at [buf] agrees with the live block at [tc]: same offset and size of
    the interpreter code, same bytes. *)
Definition same_code (m : mem) (tc buf : Z) : Prop :=
  exists off len, load32 m tc = Some off /\ load32 m buf = Some off /\
    load32 m (u32 (tc + off - 4)) = Some len /\ load32 m (u32 (buf + off - 4)) = Some len /\
    forall j, 0 <= j < len -> m !! (u32 (buf + off) + j) = m !! (u32 (tc + off) + j).

(** The thread outside a re-translation. *)
Record regen_idle (s : regen) : Prop := { ri_buf : rg_buf s = 0; ri_bias : rg_bias s = 0 }.

Section RegenProps.
Context (gen : regen -> tblock -> Z -> Z -> Z -> Z * tblock * mem).
(** With a target buffer set, code generation writes there and not past the
    high-water mark's reserve, and leaves the block alone except for its size and
    instruction count ([set_jmp_reset_offset], [tcg_gen_code], translator.c). *)
Context (Hgen : forall s tb pc host_pc m ret tb' mem', gen s tb pc host_pc m = (ret, tb', mem') ->
  rg_scratch s <= rg_buf s -> rg_highwater s = rg_scratch s + BB_REGEN_SCRATCH - 4096 ->
  (forall p, p < rg_scratch s \/ rg_scratch s + BB_REGEN_SCRATCH <= p -> mem' !! p = rg_mem s !! p) /\
  set_size_icount (tb_size tb) (tb_icount tb) tb' = tb).

(** What both outcomes of an attempt leave. *)
Record regen_frame (s s' : regen) : Prop := {
  rf_high : rg_highwater s' = rg_highwater s;
  rf_scratch : rg_scratch s' = rg_scratch s;
  rf_idle : regen_idle s';
  rf_mem : forall p, p < rg_scratch s \/ rg_scratch s + BB_REGEN_SCRATCH <= p -> rg_mem s' !! p = rg_mem s !! p
}.

Lemma regen_once_ok tb tc buf pc host_pc max why s ok why' tb' s' :
  rg_scratch s <= buf ->
  bb_regen_once gen tb tc buf pc host_pc max why s = Some (ok, why', tb', s') ->
  tb' = tb /\ regen_frame s s' /\ (ok = true -> same_code (rg_mem s') tc buf) /\ (ok = false -> why' = 8 \/ why' = 9).
Proof using Hgen.
  intros Hb. unfold bb_regen_once. cbv zeta.
  set (s1 := set_target _ _ _ s). destruct (gen s1 tb pc host_pc max) as [[ret tb1] m] eqn:E.
  destruct (Hgen _ _ _ _ _ _ _ _ E) as [Hmem Htb]; [done | done |].
  set (s2 := set_target _ _ _ _). rewrite Htb.
  assert (Hf : regen_frame s s2) by (split; [done | done | done | exact Hmem]).
  destruct (ret <? 0); [intros [= <- <- <- <-]; by split_and!; auto |].
  destruct (load32 m tc) as [off |] eqn:E1; [cbn [mbind option_bind] | done].
  destruct (load32 m (u32 (tc + off - 4))) as [len |] eqn:E2; [cbn [mbind option_bind] | done].
  destruct (load32 m buf) as [off' |] eqn:E3; [cbn [mbind option_bind] | done].
  destruct (Z.eqb_spec off' off) as [-> | _]; cbn [negb]; [| intros [= <- <- <- <-]; by split_and!; auto].
  destruct (load32 m (u32 (buf + off - 4))) as [len' |] eqn:E4; [cbn [mbind option_bind] | done].
  destruct (Z.eqb_spec len' len) as [-> | _]; cbn [negb]; [| intros [= <- <- <- <-]; by split_and!; auto].
  destruct (mem_equal _ _ _ _) as [same |] eqn:E5; [cbn [mbind option_bind] | done].
  destruct same; cbn [negb]; intros [= <- <- <- <-]; [| by split_and!; auto].
  split_and!; [done | done | intros _ | done]. exists off, len. cbn. split_and!; [done | done | done | done |].
  intros j Hj. apply (mem_equal_spec _ _ _ _ E5). lia.
Qed.

Lemma regen_attempts_ok tb tc buf pc host_pc max s ok why tb' s' :
  rg_scratch s <= buf ->
  regen_attempts gen tb tc buf pc host_pc max s = Some (ok, why, tb', s') ->
  tb' = tb /\ regen_frame s s' /\ (ok = true -> same_code (rg_mem s') tc buf).
Proof using Hgen.
  intros Hb. unfold regen_attempts.
  destruct (bb_regen_once gen tb tc buf pc host_pc max 5 s) as [[[[ok1 why1] tb1] s1] |] eqn:R1; [cbn [mbind option_bind] | done].
  destruct (regen_once_ok _ _ _ _ _ _ _ _ _ _ _ _ Hb R1) as (-> & [F1 F2 F3 F4] & S1 & _).
  destruct (negb ok1 && _); [| by intros [= <- <- <- <-]].
  intros R2. rewrite <- F2 in Hb. destruct (regen_once_ok _ _ _ _ _ _ _ _ _ _ _ _ Hb R2) as (-> & [G1 G2 G3 G4] & S2 & _).
  split_and!; [done | | done]. split; [congruence | congruence | done |].
  intros p Hp. rewrite G4 by (rewrite F2; done). by apply F4.
Qed.
End RegenProps.

(** What a re-translation leaves, successful or not. *)
Record regen_kept (s s' : regen) : Prop := {
  rk_idle : regen_idle s';
  rk_high : rg_highwater s' = rg_highwater s;
  rk_mem : forall p, p < rg_scratch s' \/ rg_scratch s' + BB_REGEN_SCRATCH <= p -> rg_mem s' !! p = rg_mem s !! p
}.

Lemma regen_kept_same s s' : regen_idle s -> rg_buf s' = rg_buf s -> rg_bias s' = rg_bias s ->
  rg_highwater s' = rg_highwater s -> rg_mem s' = rg_mem s -> regen_kept s s'.
Proof. intros [H1 H2] E1 E2 E3 E4. split; [split; congruence | done | by rewrite E4]. Qed.

Lemma regen_kept_stat s s' i : regen_kept s s' -> regen_kept s (inc_stat i s').
Proof. intros [[H1 H2] H3 H4]. by split. Qed.

Lemma regen_kept_frame s s1 s2 : regen_kept s s1 -> rg_mem s1 = rg_mem s -> regen_frame s1 s2 -> regen_kept s s2.
Proof.
  intros [H1 H2 H3] Hm [F1 F2 F3 F4]. split; [done | congruence |].
  intros p Hp. rewrite F4 by (rewrite <- F2; done). by rewrite Hm.
Qed.

(** C28: re-translating a live block is safe.  Whatever happens, the live block
    and its thread's translator state are as before, and memory changes only inside
    the scratch buffer; a copy is handed out only when the block is a valid
    one-page block matching the CPU state, and then the copy's interpreter code is
    byte for byte the live block's, so the module compiled from it agrees with
    what is being run. *)
Theorem regen_safe (gen : regen -> tblock -> Z -> Z -> Z -> Z * tblock * mem)
  (lookup : option tblock) (tc pc cs_base flags : Z) (page : code_page)
  (alloc flushes kb : Z) (t : split_table) (s : regen) (res : Z) (tbo : option tblock) (s' : regen)
  (Hgen : forall s tb pc host_pc m ret tb' mem', gen s tb pc host_pc m = (ret, tb', mem') ->
     rg_scratch s <= rg_buf s -> rg_highwater s = rg_scratch s + BB_REGEN_SCRATCH - 4096 ->
     (forall p, p < rg_scratch s \/ rg_scratch s + BB_REGEN_SCRATCH <= p -> mem' !! p = rg_mem s !! p) /\
     set_size_icount (tb_size tb) (tb_icount tb) tb' = tb)
  (Hidle : regen_idle s)
  (Hrun : bb_tb_regen_wasm gen lookup tc pc cs_base flags page alloc flushes kb t s = Some (res, tbo, s')) :
  tbo = lookup /\ regen_kept s s' /\
  (res <> 0 -> res = rg_scratch s' + Z.land tc 4095 /\ same_code (rg_mem s') tc res /\
     exists tb, lookup = Some tb /\ tc_ptr tb = tc /\ has (tb_cflags tb) CF_INVALID = false /\
       page_addr1 tb = NO_PAGE /\ flags = tb_flags tb /\ cs_base = tb_cs_base tb /\
       cp_ram_addr page = page_addr0 tb).
Proof.
  unfold bb_tb_regen_wasm in Hrun. cbv zeta in Hrun.
  set (s0 := set_stat 11 kb _) in Hrun.
  assert (K0 : regen_kept s s0 /\ rg_mem s0 = rg_mem s) by (split; [by apply regen_kept_same | done]).
  destruct K0 as [K0 M0]. clearbody s0.
  assert (Hfail : forall why o s1, regen_kept s s1 -> o = lookup ->
    Some (0, o, inc_stat (Z.to_nat why) s1) = Some (res, tbo, s') ->
    tbo = lookup /\ regen_kept s s' /\ res = 0).
  { intros why o s1 K -> [= <- <- <-]. split_and!; [done | by apply regen_kept_stat | done]. }
  destruct lookup as [tb |]; [| destruct (Hfail _ _ _ K0 eq_refl Hrun) as (-> & K & ->); done].
  destruct (negb (tc_ptr tb =? tc) || _ || _ || _ || _) eqn:C1; [destruct (Hfail _ _ _ K0 eq_refl Hrun) as (-> & K & ->); done |].
  destruct (negb (cs_base =? tb_cs_base tb) || _ || _) eqn:C2; [destruct (Hfail _ _ _ K0 eq_refl Hrun) as (-> & K & ->); done |].
  destruct (cp_tlb_bad page || _ || _ || _) eqn:C3; [destruct (Hfail _ _ _ K0 eq_refl Hrun) as (-> & K & ->); done |].
  set (s1 := if rg_scratch s0 =? 0 then _ else _) in Hrun.
  assert (K1 : regen_kept s s1 /\ rg_mem s1 = rg_mem s).
  { subst s1. destruct (rg_scratch s0 =? 0); [| by split]. split; [| done]. destruct K0 as [[? ?] ? ?].
    split; [by split | done | cbn; by rewrite M0]. }
  destruct K1 as [K1 M1]. clearbody s1.
  destruct (rg_scratch s1 =? 0); [destruct (Hfail _ _ _ K1 eq_refl Hrun) as (-> & K & ->); done |].
  set (max := if Z.land (tb_cflags tb) CF_COUNT_MASK =? 0 then _ else _) in Hrun. clearbody max.
  assert (Hbuf : rg_scratch s1 <= rg_scratch s1 + Z.land tc 4095)
    by (assert (0 <= Z.land tc 4095) by (apply Z.land_nonneg; lia); lia).
  destruct (regen_attempts gen tb tc _ _ _ max s1) as [[[[ok why] tb2] s2] |] eqn:R; [cbn [mbind option_bind] in Hrun | done].
  destruct (regen_attempts_ok gen Hgen _ _ _ _ _ _ _ _ _ _ _ Hbuf R) as (-> & F & S1).
  pose proof (regen_kept_frame _ _ _ K1 M1 F) as K2.
  destruct ok; [| destruct (Hfail _ _ _ K2 eq_refl Hrun) as (-> & K & ->); done].
  injection Hrun as <- <- <-. split_and!; [done | by apply regen_kept_stat |].
  intros _. split_and!; [cbn; by rewrite (rf_scratch _ _ F) | by apply S1 |]. exists tb.
  repeat match goal with
  | H : _ || _ = false |- _ => apply orb_false_iff in H as [? ?]
  | H : negb (_ =? _) = false |- _ => apply negb_false_iff, Z.eqb_eq in H
  end.
  by split_and!.
Qed.

(** ** A live block, left and translated again *)
Module LeaveDemo.
Definition tb : tblock := UnwindDemo.tb.
Definition g : gen_insns := UnwindDemo.g.
Definition trees (k : Z) : qtree := if k =? 0 then QNode QNil tb QNil else QNil.
Definition search : list Z := default [] (encode_search tb g 0x120000 0x110060).
Definition code (a : Z) : list Z := if a =? 0x110060 then search else [].

Lemma demo_live : live RegionDemo.r trees code 0 tb g.
Proof.
  destruct (started_ok _ _ _ _ _ _ _ _ _ 160 RegionDemo.demo_started) as (Hr & _).
  split; [done | cbn; lia | | apply list_elem_of_singleton; done | vm_compute; split; discriminate | apply UnwindDemo.demo_gen_ok | |].
  - split; [repeat constructor |]. constructor; [cbn; lia | constructor].
  - repeat constructor; cbn; lia.
  - exists 0x120000, search, []. split; vm_compute; reflexivity.
Qed.

(** An address in the code of the second instruction. *)
Lemma demo_insn : insn_at (tb := tb) (g := g) (0x110000 + 42) 1.
Proof. split; [vm_compute; discriminate |]. exists 60. reflexivity. Qed.

Definition env : guest := {| eip := 0xfffffff00000ff0; cc_op := 1; icount_low := 7 |}.

Lemma restore_state_exact_witness :
  cpu_restore_state false code RegionDemo.r trees (0x110000 + 42) env
  = Some (true, {| eip := 0xfffffff00000ff3; cc_op := 9; icount_low := 7 |}).
Proof.
  exact (proj1 (restore_state_exact false RegionDemo.r trees code 0 tb g (0x110000 + 42) 1 env demo_live
    ltac:(vm_compute; split; [discriminate | reflexivity]) demo_insn ltac:(done))).
Defined.

Definition s0 : io_state :=
  {| io_env := {| eip := 0; cc_op := 0; icount_low := 0 |}; io_split := fun _ => (0, 0);
     io_invalidated := []; io_cflags_next := 0 |}.

Lemma io_split_sticks_witness :
  exists s', cpu_io_recompile false true code RegionDemo.r trees 0 (0x110000 + 42) s0 = Some s' /\
    eip (io_env s') = 0xfffffff00000ff3 /\ io_invalidated s' = [tb] /\
    gen_limit (io_split s') 0 0x5000 = (0, 2).
Proof.
  destruct (io_split_sticks false true RegionDemo.r trees code 0 tb g (0x110000 + 42) 0 1 s0 demo_live
    ltac:(vm_compute; split; [discriminate | reflexivity]) demo_insn ltac:(done)
    ltac:(vm_compute; discriminate)) as (s' & E & Henv & _ & Hinv & Hlim & _).
  exists s'. split; [exact E |]. split; [by rewrite Henv |]. split; [exact Hinv |]. exact (Hlim 0 eq_refl).
Defined.
End LeaveDemo.

Module RegenDemo.
(** The live block at 0x110000: its TCI code at offset 8, four bytes long. *)
Definition bytes : list Z := [8; 0; 0; 0; 4; 0; 0; 0; 0x11; 0x22; 0x33; 0x44].
Fixpoint write (m : mem) (a : Z) (l : list Z) : mem :=
  match l with [] => m | b :: l => write (<[a := b]> m) (a + 1) l end.

(** A translator that writes the same code again when it fits. *)
Definition gen (s : regen) (tb : tblock) (pc host_pc m : Z) : Z * tblock * mem :=
  if rg_buf s + 12 <=? rg_highwater s
  then (12, set_size_icount 9 m tb, write (rg_mem s) (rg_buf s) bytes)
  else (-1, tb, rg_mem s).

Lemma write_outside l m a p : p < a \/ a + Z.of_nat (length l) <= p -> write m a l !! p = m !! p.
Proof.
  revert m a. induction l as [| b l IH]; intros m a Hp; [done |]. cbn [write length] in *.
  rewrite IH by lia. by rewrite lookup_insert_ne by lia.
Qed.

Lemma gen_writes s tb pc host_pc m ret tb' mem' : gen s tb pc host_pc m = (ret, tb', mem') ->
  rg_scratch s <= rg_buf s -> rg_highwater s = rg_scratch s + BB_REGEN_SCRATCH - 4096 ->
  (forall p, p < rg_scratch s \/ rg_scratch s + BB_REGEN_SCRATCH <= p -> mem' !! p = rg_mem s !! p) /\
  set_size_icount (tb_size tb) (tb_icount tb) tb' = tb.
Proof.
  unfold gen. destruct (Z.leb_spec (rg_buf s + 12) (rg_highwater s)); intros [= <- <- <-] Hb Hh; split;
    try (by destruct tb); try done.
  intros p Hp. apply (write_outside bytes (rg_mem s) (rg_buf s)). unfold BB_REGEN_SCRATCH in *. cbn. lia.
Qed.

Definition s0 : regen :=
  {| rg_highwater := 0x2f0000; rg_buf := 0; rg_bias := 0; rg_scratch := 0x800000;
     rg_stats := replicate 12 0; rg_mem := write ∅ 0x110000 bytes |}.
Definition page : code_page :=
  {| cp_tlb_bad := false; cp_host := 0x700000; cp_lg_page_size := 12; cp_ram_addr := 0x5000 |}.

Lemma regen_safe_witness :
  exists s', bb_tb_regen_wasm gen (Some LeaveDemo.tb) 0x110000 0xfffffff00000ff0 0 0x8000 page 0 0 1
      (fun _ => (0, 0)) s0 = Some (0x800000, Some LeaveDemo.tb, s') /\
    same_code (rg_mem s') 0x110000 0x800000.
Proof.
  eexists. split; [vm_compute; reflexivity |].
  apply (regen_safe gen (Some LeaveDemo.tb) 0x110000 0xfffffff00000ff0 0 0x8000 page 0 0 1 (fun _ => (0, 0)) s0
    0x800000 (Some LeaveDemo.tb) _ gen_writes ltac:(by split) ltac:(vm_compute; reflexivity)). discriminate.
Defined.
End RegenDemo.
