(* ===== verification/JumpLists.v ===== *)
(** * Chained jumps between blocks

    A block's code may jump directly into another block.  The incoming jumps of a
    block form a linked list threaded through the blocks they come from
    ([jmp_list_head], [jmp_list_next]), so that retiring the block can take all of
    them out again (accel/tcg/tb-maint.c, [tb_add_jump] of accel/tcg/cpu-exec.c).
    The pointers carry a tag in their lowest bit: in the lists, which of the two
    jumps of a block the entry is; in [jmp_dest], that the block is being retired
    and takes no further jumps.

    The store maps block addresses to the fields concerned; addresses are even, 0 is
    NULL.  Blocks are retired by concurrent threads, one thread per block ([qht_remove]
    lets only one pass).  [tb_add_jump] and the locked part of
    [tb_remove_from_jmp_list] are one step each: they hold the lock of the list they
    change, and the accesses of other threads in between (an atomic [or] on [jmp_dest],
    a read of an old link) commute with theirs.
    [tb_jmp_unlink] is not: it walks its list under its own block's lock only, and
    between clearing an entry's [jmp_dest], which lets another thread chain that jump
    elsewhere, and reading the entry's [jmp_list_next], which that thread overwrites,
    it can be overtaken.  Its steps are taking the lock, clearing an entry, reading the
    link, and the end.

    The theorems: as long as no jump is chained again in that window, the assertions of
    the code never fail, an unlinking in progress comes to its end, and a block that
    has been retired is the target of no jump of any block still in use; without that
    proviso both fail. *)
From S2P Require Import Prelude.

(** Tagged pointers. *)
Definition tag_of (x : Z) : Z := Z.land x 1.
Definition ptr_of (x : Z) : Z := Z.land x (Z.lnot 1).

Record jblock := {
  jmp_dest : Z -> Z;          (* jmp_dest[n] *)
  jmp_list_next : Z -> Z;     (* jmp_list_next[n] *)
  jmp_list_head : Z;
  jmp_target_addr : Z -> Z;   (* jmp_target_addr[n] *)
  invalid : bool              (* cflags & CF_INVALID *)
}.

Definition store := Z -> jblock.

Definition fupd {A} (f : Z -> A) (i : Z) (x : A) : Z -> A := fun j => if j =? i then x else f j.

Definition set_dest (tb n v : Z) (s : store) : store :=
  fupd s tb {| jmp_dest := fupd (jmp_dest (s tb)) n v; jmp_list_next := jmp_list_next (s tb);
               jmp_list_head := jmp_list_head (s tb); jmp_target_addr := jmp_target_addr (s tb);
               invalid := invalid (s tb) |}.

Definition set_next (tb n v : Z) (s : store) : store :=
  fupd s tb {| jmp_dest := jmp_dest (s tb); jmp_list_next := fupd (jmp_list_next (s tb)) n v;
               jmp_list_head := jmp_list_head (s tb); jmp_target_addr := jmp_target_addr (s tb);
               invalid := invalid (s tb) |}.

Definition set_head (tb v : Z) (s : store) : store :=
  fupd s tb {| jmp_dest := jmp_dest (s tb); jmp_list_next := jmp_list_next (s tb);
               jmp_list_head := v; jmp_target_addr := jmp_target_addr (s tb); invalid := invalid (s tb) |}.

Definition set_invalid (tb : Z) (s : store) : store :=
  fupd s tb {| jmp_dest := jmp_dest (s tb); jmp_list_next := jmp_list_next (s tb);
               jmp_list_head := jmp_list_head (s tb); jmp_target_addr := jmp_target_addr (s tb);
               invalid := true |}.

(** [tb_set_jmp_target]: the wasm back end jumps through [jmp_target_addr]. *)
Definition tb_set_jmp_target (tb n addr : Z) (s : store) : store :=
  fupd s tb {| jmp_dest := jmp_dest (s tb); jmp_list_next := jmp_list_next (s tb);
               jmp_list_head := jmp_list_head (s tb);
               jmp_target_addr := fupd (jmp_target_addr (s tb)) n addr; invalid := invalid (s tb) |}.

(** On this host a reset jump has no target. *)
Definition tb_reset_jump (tb n : Z) (s : store) : store := tb_set_jmp_target tb n 0 s.

Section Operations.
(** Where a block's code is ([tc.ptr]). *)
Context (tc : Z -> Z).

(** [tb_add_jump], under the lock of [tb_next]. *)
Definition tb_add_jump (tb n tb_next : Z) (s : store) : store :=
  if invalid (s tb_next) then s
  else
    let old := jmp_dest (s tb) n in
    if negb (old =? 0) then s
    else
      let s := set_dest tb n tb_next s in
      let s := tb_set_jmp_target tb n (tc tb_next) s in
      let s := set_next tb n (jmp_list_head (s tb_next)) s in
      set_head tb_next (Z.lor tb n) s.

(** [tb_remove_from_jmp_list]: the atomic [or] that closes the jump ... *)
Definition mark_dest (orig n : Z) (s : store) : Z * store :=
  let ptr := Z.lor (jmp_dest (s orig) n) 1 in
  (ptr, set_dest orig n ptr s).

(** ... and the part under the destination's lock.  [pprev] is the link that
    points to the entry looked at: the list head or a [jmp_list_next]. *)
Inductive link := Head (tb : Z) | Next (tb n : Z).

Definition set_link (p : link) (v : Z) (s : store) : store :=
  match p with Head tb => set_head tb v s | Next tb n => set_next tb n v s end.

(** [None]: [g_assert_not_reached], or the list is longer than the fuel. *)
Fixpoint remove_loop (fuel : nat) (orig n_orig : Z) (pprev : link) (entry : Z) (s : store) : option store :=
  match fuel with
  | O => None
  | S fuel =>
      let tb := ptr_of entry in
      let n := tag_of entry in
      if tb =? 0 then None
      else if (tb =? orig) && (n =? n_orig) then Some (set_link pprev (jmp_list_next (s tb) n) s)
      else remove_loop fuel orig n_orig (Next tb n) (jmp_list_next (s tb) n) s
  end.

(** With [ptr] from [mark_dest] (its destination not NULL); [None] when an
    assertion fails. *)
Definition remove_locked (fuel : nat) (orig n_orig ptr : Z) (s : store) : option store :=
  let dest := ptr_of ptr in
  let ptr_locked := jmp_dest (s orig) n_orig in
  if negb (ptr_locked =? ptr) then
    if (ptr_locked =? 1) && invalid (s dest) then Some s else None
  else remove_loop fuel orig n_orig (Head dest) (jmp_list_head (s dest)) s.

(** ** Threads *)

(** How far [do_tb_phys_invalidate] of a block has come: in use; flagged; jump
    [n] marked with [ptr]; jump [n] dealt with; in [tb_jmp_unlink], with its lock held,
    in front of an entry, or with the entry cleared and its link not yet read; done. *)
Inductive phase := InUse | Flagged | Marked (n ptr : Z) | Removed (n : Z) | Unlinking (entry : Z) | Stepping (entry : Z) | Retired.

Record world := { blk : store; phase_of : Z -> phase }.

(** Whether the block's lock is held between steps. *)
Definition locked (w : world) (d : Z) : bool :=
  match phase_of w d with Unlinking _ | Stepping _ => true | _ => false end.

(** [tb_jmp_unlink]: its next step, for a block whose own jumps have been dealt with. *)
Definition tb_jmp_unlink (dest : Z) (w : world) : option world :=
  let go p s := Some {| blk := s; phase_of := fupd (phase_of w) dest p |} in
  match phase_of w dest with
  | Removed n => if n =? 1 then go (Unlinking (jmp_list_head (blk w dest))) (blk w) else None
  | Unlinking entry =>
      let tb := ptr_of entry in
      let n := tag_of entry in
      if tb =? 0 then go Retired (set_head dest 0 (blk w))
      else
        let s := tb_reset_jump tb n (blk w) in
        go (Stepping entry) (set_dest tb n (Z.land (jmp_dest (s tb) n) 1) s)
  | Stepping entry => go (Unlinking (jmp_list_next (blk w (ptr_of entry)) (tag_of entry))) (blk w)
  | _ => None
  end.

Definition is_block (tb : Z) : Prop := tb <> 0 /\ Z.even tb = true.
Definition is_jump (n : Z) : Prop := n = 0 \/ n = 1.

(** A block being chained; and the stages of a retirement in order: flag, mark and
    remove jump 0, mark and remove jump 1, unlink.  In a quiet run no jump is chained
    that an unlinking has cleared and whose link it has not read. *)
Context (quiet : bool).

Inductive jstep : world -> world -> Prop :=
| j_add tb n tb_next w :
    is_block tb -> is_jump n -> is_block tb_next ->
    (quiet = true -> forall d, phase_of w d <> Stepping (Z.lor tb n)) ->
    jstep w {| blk := tb_add_jump tb n tb_next (blk w); phase_of := phase_of w |}
| j_flag tb w :
    is_block tb -> phase_of w tb = InUse ->
    jstep w {| blk := set_invalid tb (blk w); phase_of := fupd (phase_of w) tb Flagged |}
| j_mark tb n w :
    is_block tb -> (phase_of w tb = Flagged /\ n = 0) \/ (phase_of w tb = Removed 0 /\ n = 1) ->
    jstep w {| blk := snd (mark_dest tb n (blk w));
               phase_of := fupd (phase_of w) tb
                 (let ptr := fst (mark_dest tb n (blk w)) in
                  if ptr_of ptr =? 0 then Removed n else Marked n ptr) |}
| j_remove tb n ptr fuel w s :
    is_block tb -> phase_of w tb = Marked n ptr -> locked w (ptr_of ptr) = false ->
    remove_locked fuel tb n ptr (blk w) = Some s ->
    jstep w {| blk := s; phase_of := fupd (phase_of w) tb (Removed n) |}
| j_unlink tb w w' : is_block tb -> tb_jmp_unlink tb w = Some w' -> jstep w w'.

(** No block is chained yet; a new block starts like this ([tb_gen_code]). *)
Definition fresh : jblock :=
  {| jmp_dest := fun _ => 0; jmp_list_next := fun _ => 0; jmp_list_head := 0;
     jmp_target_addr := fun _ => 0; invalid := false |}.
Definition jinit : world := {| blk := fun _ => fresh; phase_of := fun _ => InUse |}.
End Operations.

(** ** Tagged pointers *)

Lemma tag_mod x : tag_of x = x mod 2.
Proof. apply (Z.land_ones x 1). lia. Qed.

Lemma ptr_div x : ptr_of x = 2 * (x / 2).
Proof.
  unfold ptr_of. rewrite Z.mul_comm. change 2 with (2 ^ 1). rewrite <- Z.shiftr_div_pow2, <- Z.shiftl_mul_pow2 by lia.
  rewrite <- Z.ldiff_land. apply (Z.ldiff_ones_r x 1). lia.
Qed.

Lemma ptr_tag x : x = ptr_of x + tag_of x.
Proof. rewrite ptr_div, tag_mod. apply Z.div_mod. lia. Qed.

Lemma even_mod p : Z.even p = true -> p mod 2 = 0.
Proof. rewrite Zeven_mod. apply Z.eqb_eq. Qed.

Lemma lor_tag p n : Z.even p = true -> is_jump n -> Z.lor p n = p + n.
Proof.
  intros Hp Hn. symmetry. apply add_disjoint. destruct Hn as [-> | ->]; [by rewrite Z.land_0_r |].
  change (Z.land p 1) with (tag_of p). rewrite tag_mod. by apply even_mod.
Qed.

Lemma ptr_of_lor p n : Z.even p = true -> is_jump n -> ptr_of (Z.lor p n) = p.
Proof.
  intros Hp Hn. rewrite lor_tag, ptr_div by done. pose proof (even_mod p Hp). pose proof (Z.div_mod p 2 ltac:(lia)).
  destruct Hn as [-> | ->].
  - rewrite Z.add_0_r. lia.
  - rewrite <- (Z.div_unique_pos (p + 1) 2 (p / 2) 1); lia.
Qed.

Lemma ptr_of_block d : is_block d -> ptr_of d = d.
Proof. intros [_ Hd]. rewrite ptr_div. pose proof (even_mod d Hd). pose proof (Z.div_mod d 2 ltac:(lia)). lia. Qed.

Lemma tag_of_lor p n : Z.even p = true -> is_jump n -> tag_of (Z.lor p n) = n.
Proof.
  intros Hp Hn. pose proof (ptr_of_lor p n Hp Hn) as H. pose proof (ptr_tag (Z.lor p n)) as H'.
  rewrite lor_tag in * by done. lia.
Qed.

Lemma ptr_even x : Z.even (ptr_of x) = true.
Proof. rewrite ptr_div, Z.even_mul. done. Qed.

(** Setting the tag keeps the pointer. *)
Lemma ptr_of_mark x : ptr_of (Z.lor x 1) = ptr_of x /\ tag_of (Z.lor x 1) = 1.
Proof.
  assert (E : Z.lor x 1 = Z.lor (ptr_of x) 1).
  { apply Z.bits_inj'. intros i Hi. unfold ptr_of. rewrite !Z.lor_spec, Z.land_spec, Z.lnot_spec by lia.
    destruct (Z.testbit x i), (Z.testbit 1 i); done. }
  rewrite E. split; [apply ptr_of_lor | apply tag_of_lor]; try apply ptr_even; by right.
Qed.

(** Keeping only the tag clears the pointer. *)
Lemma keep_tag x : ptr_of (Z.land x 1) = 0 /\ Z.land x 1 = tag_of x.
Proof.
  split; [| done]. change (Z.land x 1) with (tag_of x). rewrite ptr_div, tag_mod, Z.div_small; [done |].
  apply Z.mod_pos_bound. lia.
Qed.

Lemma lor_parts x : Z.lor (ptr_of x) (tag_of x) = x.
Proof.
  rewrite lor_tag; [symmetry; apply ptr_tag | apply ptr_even |]. unfold is_jump. rewrite tag_mod.
  pose proof (Z.mod_pos_bound x 2 ltac:(lia)). lia.
Qed.

Lemma tag_jump x : is_jump (tag_of x).
Proof. unfold is_jump. rewrite tag_mod. pose proof (Z.mod_pos_bound x 2 ltac:(lia)). lia. Qed.

(** ** The lists *)

(** [entry] is the head of the list of jumps [l]. *)
Fixpoint linked (s : store) (entry : Z) (l : list (Z * Z)) : Prop :=
  match l with
  | [] => entry = 0
  | (tb, n) :: l => entry = Z.lor tb n /\ is_block tb /\ is_jump n /\ linked s (jmp_list_next (s tb) n) l
  end.

Lemma linked_ext s s' entry l :
  (forall tb n, (tb, n) ∈ l -> jmp_list_next (s' tb) n = jmp_list_next (s tb) n) ->
  linked s entry l -> linked s' entry l.
Proof.
  revert entry. induction l as [| [tb n] l IH]; intros entry Hn; [done |]. cbn.
  intros (-> & Hb & Hj & Hl). split_and!; [done | done | done |].
  rewrite Hn by (left). apply IH; [| done]. intros tb' n' Hin. apply Hn. by right.
Qed.

Lemma fupd_eq {A} (f : Z -> A) i x : fupd f i x i = x.
Proof. unfold fupd. by rewrite Z.eqb_refl. Qed.

Lemma fupd_ne {A} (f : Z -> A) i j x : j <> i -> fupd f i x j = f j.
Proof. intros H. unfold fupd. by rewrite (proj2 (Z.eqb_neq _ _) H). Qed.

(** ** What the stores change *)

Definition here (x m tb n : Z) : bool := (x =? tb) && (m =? n).

Ltac jfields :=
  unfold tb_reset_jump, tb_set_jmp_target, set_dest, set_next, set_head, set_invalid, here, fupd;
  repeat match goal with
  | |- context [?x =? ?y] => destruct (Z.eqb_spec x y); subst; cbn [andb jmp_dest jmp_list_next jmp_list_head jmp_target_addr invalid]
  end; try done; try lia.

Lemma dest_set_dest tb n v s x m : jmp_dest (set_dest tb n v s x) m = if here x m tb n then v else jmp_dest (s x) m.
Proof. jfields. Qed.
Lemma dest_set_next tb n v s x : jmp_dest (set_next tb n v s x) = jmp_dest (s x).
Proof. jfields. Qed.
Lemma dest_set_head tb v s x : jmp_dest (set_head tb v s x) = jmp_dest (s x).
Proof. jfields. Qed.
Lemma dest_set_target tb n v s x : jmp_dest (tb_set_jmp_target tb n v s x) = jmp_dest (s x).
Proof. jfields. Qed.
Lemma dest_set_invalid tb s x : jmp_dest (set_invalid tb s x) = jmp_dest (s x).
Proof. jfields. Qed.

Lemma next_set_dest tb n v s x : jmp_list_next (set_dest tb n v s x) = jmp_list_next (s x).
Proof. jfields. Qed.
Lemma next_set_next tb n v s x m : jmp_list_next (set_next tb n v s x) m = if here x m tb n then v else jmp_list_next (s x) m.
Proof. jfields. Qed.
Lemma next_set_head tb v s x : jmp_list_next (set_head tb v s x) = jmp_list_next (s x).
Proof. jfields. Qed.
Lemma next_set_target tb n v s x : jmp_list_next (tb_set_jmp_target tb n v s x) = jmp_list_next (s x).
Proof. jfields. Qed.
Lemma next_set_invalid tb s x : jmp_list_next (set_invalid tb s x) = jmp_list_next (s x).
Proof. jfields. Qed.

Lemma head_set_dest tb n v s x : jmp_list_head (set_dest tb n v s x) = jmp_list_head (s x).
Proof. jfields. Qed.
Lemma head_set_next tb n v s x : jmp_list_head (set_next tb n v s x) = jmp_list_head (s x).
Proof. jfields. Qed.
Lemma head_set_head tb v s x : jmp_list_head (set_head tb v s x) = if x =? tb then v else jmp_list_head (s x).
Proof. jfields. Qed.
Lemma head_set_target tb n v s x : jmp_list_head (tb_set_jmp_target tb n v s x) = jmp_list_head (s x).
Proof. jfields. Qed.
Lemma head_set_invalid tb s x : jmp_list_head (set_invalid tb s x) = jmp_list_head (s x).
Proof. jfields. Qed.

Lemma target_set_dest tb n v s x : jmp_target_addr (set_dest tb n v s x) = jmp_target_addr (s x).
Proof. jfields. Qed.
Lemma target_set_next tb n v s x : jmp_target_addr (set_next tb n v s x) = jmp_target_addr (s x).
Proof. jfields. Qed.
Lemma target_set_head tb v s x : jmp_target_addr (set_head tb v s x) = jmp_target_addr (s x).
Proof. jfields. Qed.
Lemma target_set_target tb n v s x m :
  jmp_target_addr (tb_set_jmp_target tb n v s x) m = if here x m tb n then v else jmp_target_addr (s x) m.
Proof. jfields. Qed.
Lemma target_set_invalid tb s x : jmp_target_addr (set_invalid tb s x) = jmp_target_addr (s x).
Proof. jfields. Qed.

Lemma invalid_set_dest tb n v s x : invalid (set_dest tb n v s x) = invalid (s x).
Proof. jfields. Qed.
Lemma invalid_set_next tb n v s x : invalid (set_next tb n v s x) = invalid (s x).
Proof. jfields. Qed.
Lemma invalid_set_head tb v s x : invalid (set_head tb v s x) = invalid (s x).
Proof. jfields. Qed.
Lemma invalid_set_target tb n v s x : invalid (tb_set_jmp_target tb n v s x) = invalid (s x).
Proof. jfields. Qed.
Lemma invalid_set_invalid tb s x : invalid (set_invalid tb s x) = if x =? tb then true else invalid (s x).
Proof. jfields. Qed.

Create Rewrite HintDb jump.
#[export] Hint Rewrite dest_set_dest dest_set_next dest_set_head dest_set_target dest_set_invalid
  next_set_dest next_set_next next_set_head next_set_target next_set_invalid
  head_set_dest head_set_next head_set_head head_set_target head_set_invalid
  target_set_dest target_set_next target_set_head target_set_target target_set_invalid
  invalid_set_dest invalid_set_next invalid_set_head invalid_set_target invalid_set_invalid : jump.

Ltac jsimpl := unfold tb_reset_jump; autorewrite with jump.

Lemma here_spec x m tb n : here x m tb n = true <-> x = tb /\ m = n.
Proof. unfold here. rewrite andb_true_iff, !Z.eqb_eq. done. Qed.

Lemma here_cases x m tb n : (x = tb /\ m = n /\ here x m tb n = true) \/ (~ (x = tb /\ m = n) /\ here x m tb n = false).
Proof. destruct (here x m tb n) eqn:E; [left; apply here_spec in E; tauto | right]. rewrite <- here_spec, E. done. Qed.

(** ** The invariant *)

(** The jump [n] of a block in that phase has been taken out of its list. *)
Definition removed (p : phase) (n : Z) : Prop :=
  match p with
  | InUse | Flagged => False
  | Marked m _ => n < m
  | Removed m => n <= m
  | Unlinking _ | Stepping _ | Retired => True
  end.

(** Where the list of [d] begins: at its head, or where its unlinking has come to. *)
Definition cursor (w : world) (d : Z) : Z :=
  match phase_of w d with
  | Unlinking entry => entry
  | Stepping entry => jmp_list_next (blk w (ptr_of entry)) (tag_of entry)
  | _ => jmp_list_head (blk w d)
  end.

Section Chains.
Context (tc : Z -> Z).

Record chained (w : world) (L : Z -> list (Z * Z)) : Prop := {
  (** every block's list is well formed and holds only jumps to it *)
  ch_linked : forall d, is_block d -> linked (blk w) (cursor w d) (L d);
  ch_nodup : forall d, NoDup (L d);
  ch_dest : forall d tb n, (tb, n) ∈ L d ->
    is_block d /\ is_block tb /\ is_jump n /\ ptr_of (jmp_dest (blk w tb) n) = d;
  (** every jump with a destination is in its list until it is taken out *)
  ch_in : forall tb n, is_block tb -> is_jump n -> ptr_of (jmp_dest (blk w tb) n) <> 0 ->
    ~ removed (phase_of w tb) n -> (tb, n) ∈ L (ptr_of (jmp_dest (blk w tb) n));
  ch_removed : forall tb n, is_jump n -> removed (phase_of w tb) n ->
    tag_of (jmp_dest (blk w tb) n) = 1 /\ forall d, (tb, n) ∉ L d;
  (** a jump being taken out is still marked, or its destination took it out *)
  ch_marked : forall tb n ptr, phase_of w tb = Marked n ptr ->
    is_jump n /\ ptr_of ptr <> 0 /\ tag_of ptr = 1 /\
    (jmp_dest (blk w tb) n = ptr \/ (jmp_dest (blk w tb) n = 1 /\ invalid (blk w (ptr_of ptr)) = true));
  (** the patched target is that of the destination *)
  ch_target : forall tb n, jmp_target_addr (blk w tb) n = 0 \/
    (ptr_of (jmp_dest (blk w tb) n) <> 0 /\ jmp_target_addr (blk w tb) n = tc (ptr_of (jmp_dest (blk w tb) n)));
  ch_invalid : forall tb, invalid (blk w tb) = true <-> phase_of w tb <> InUse;
  ch_phase : forall tb, match phase_of w tb with Marked n _ | Removed n => is_jump n | _ => True end;
  ch_retired : forall tb, phase_of w tb = Retired -> L tb = [];
  (** an entry that has been cleared has no destination until its link is read *)
  ch_step : forall d entry, phase_of w d = Stepping entry ->
    ptr_of (jmp_dest (blk w (ptr_of entry)) (tag_of entry)) = 0
}.

(** A list's beginning stays when its block's phase, head and cleared entry's link do. *)
Lemma cursor_frame w w' d : phase_of w' d = phase_of w d ->
  jmp_list_head (blk w' d) = jmp_list_head (blk w d) ->
  (forall entry, phase_of w d = Stepping entry ->
     jmp_list_next (blk w' (ptr_of entry)) (tag_of entry) = jmp_list_next (blk w (ptr_of entry)) (tag_of entry)) ->
  cursor w' d = cursor w d.
Proof. intros Hp Hh Hn. unfold cursor. rewrite Hp. destruct (phase_of w d) eqn:E; auto. Qed.

Lemma jinit_chained : chained jinit (fun _ => []).
Proof.
  split; cbn; try done; [intros d; apply NoDup_nil_2 | by intros d tb n ?%elem_of_nil | by intros tb n; left].
Qed.

(** A jump that is in some list is not taken out. *)
Lemma in_not_removed w L d tb n : chained w L -> is_jump n -> (tb, n) ∈ L d -> ~ removed (phase_of w tb) n.
Proof. intros Hc Hn Hin Hr. by destruct (ch_removed w L Hc tb n Hn Hr) as [_ H]; apply (H d). Qed.

(** A jump whose destination is NULL is in no list. *)
Lemma null_not_in w L d tb n : chained w L -> ptr_of (jmp_dest (blk w tb) n) = 0 -> (tb, n) ∉ L d.
Proof. intros Hc H0 Hin. destruct (ch_dest w L Hc d tb n Hin) as ([Hd _] & _ & _ & E). congruence. Qed.

Lemma marked_not_removed w L tb n ptr : chained w L -> phase_of w tb = Marked n ptr -> ~ removed (phase_of w tb) n.
Proof. intros Hc ->. cbn. lia. Qed.

(** ** Chaining a block *)

Lemma add_chained w L tb n next : chained w L -> is_block tb -> is_jump n -> is_block next ->
  (forall d, phase_of w d <> Stepping (Z.lor tb n)) ->
  exists L', chained {| blk := tb_add_jump tc tb n next (blk w); phase_of := phase_of w |} L'.
Proof.
  intros Hc Htb Hn Hnext Hq. unfold tb_add_jump. cbv zeta. destruct w as [s ph]. cbn [blk phase_of] in *.
  destruct (invalid (s next)) eqn:Einv; [by exists L |].
  destruct (Z.eqb_spec (jmp_dest (s tb) n) 0) as [E0 | E0]; cbn [negb]; [| by exists L].
  assert (Hin_use : ph next = InUse).
  { destruct (ph next) eqn:E; [done | ..]; exfalso;
      assert (invalid (s next) = true) by (apply (ch_invalid _ _ Hc); cbn; by rewrite E); congruence. }
  assert (Hfree : forall d, (tb, n) ∉ L d) by (intros d; apply (null_not_in _ _ d tb n Hc); cbn; by rewrite E0).
  assert (Hnr : ~ removed (ph tb) n).
  { intros Hr. destruct (ch_removed _ _ Hc tb n Hn Hr) as [Ht _]. cbn in Ht. rewrite E0 in Ht. done. }
  assert (Hnm : forall ptr, ph tb <> Marked n ptr).
  { intros ptr E. destruct (ch_marked _ _ Hc tb n ptr E) as (_ & _ & Ht & [H1 | [H1 _]]); cbn in H1; rewrite E0 in H1; [| done].
    rewrite <- H1 in Ht. done. }
  exists (fupd L next ((tb, n) :: L next)). split; cbn [blk phase_of].
  - intros d Hd. pose proof (ch_linked _ _ Hc d Hd) as Hl. cbn [blk] in Hl.
    set (s1 := tb_set_jmp_target tb n (tc next) (set_dest tb n next s)). set (s' := set_head next (Z.lor tb n) (set_next tb n (jmp_list_head (s1 next)) s1)).
    assert (Hnx : forall x m, ~ (x = tb /\ m = n) -> jmp_list_next (s' x) m = jmp_list_next (s x) m).
    { intros x m Hne. unfold s', s1. jsimpl. destruct (here_cases x m tb n) as [(-> & -> & _) | (_ & ->)]; tauto. }
    assert (Hext : linked s' (cursor {| blk := s; phase_of := ph |} d) (L d)).
    { eapply linked_ext; [| exact Hl]. intros x m Hin. apply Hnx. intros [-> ->]. by apply Hfree in Hin. }
    destruct (Z.eqb_spec d next) as [-> | Hdn]; [rewrite fupd_eq | rewrite fupd_ne by done].
    + unfold cursor in *. cbn [phase_of blk] in *. rewrite Hin_use in *.
      assert (Eh : jmp_list_head (s' next) = Z.lor tb n) by (unfold s', s1; jsimpl; by rewrite Z.eqb_refl).
      assert (En : jmp_list_next (s' tb) n = jmp_list_head (s next))
        by (unfold s', s1; jsimpl; by destruct (here_cases tb n tb n) as [(_ & _ & ->) | (Hne & _)]; [| tauto]).
      cbn [linked]. rewrite Eh, En. by split_and!.
    + rewrite (cursor_frame {| blk := s; phase_of := ph |}); cbn [blk phase_of]; [done | done | |].
      * unfold s', s1. jsimpl. by rewrite (proj2 (Z.eqb_neq _ _) Hdn).
      * intros entry He. apply Hnx. intros [E1 E2]. apply (Hq d). cbn. by rewrite He, <- E1, <- E2, lor_parts.
  - intros d. unfold fupd. destruct (d =? next); [| apply (ch_nodup _ _ Hc)].
    apply list.NoDup_cons; split; [apply Hfree | apply (ch_nodup _ _ Hc)].
  - intros d x m Hin. jsimpl. destruct (here_cases x m tb n) as [(-> & -> & ->) | (Hne & ->)].
    + unfold fupd in Hin. destruct (Z.eqb_spec d next) as [Ed |]; [subst d | by apply Hfree in Hin].
      split_and!; try done. by apply ptr_of_block.
    + apply (ch_dest _ _ Hc). unfold fupd in Hin. destruct (Z.eqb_spec d next) as [Ed |]; [subst d | done].
      apply elem_of_cons in Hin as [[= -> ->] | Hin]; [tauto | done].
  - intros x m Hx Hm. jsimpl. destruct (here_cases x m tb n) as [(-> & -> & ->) | (Hne & ->)].
    + intros _ _. rewrite (ptr_of_block next Hnext), fupd_eq. left.
    + intros H1 H2. pose proof (ch_in _ _ Hc x m Hx Hm H1 H2) as Hin. cbn in Hin. unfold fupd.
      destruct (Z.eqb_spec (ptr_of (jmp_dest (s x) m)) next) as [E |]; [rewrite E in Hin; by right | done].
  - intros x m Hm Hr. jsimpl. destruct (here_cases x m tb n) as [(-> & -> & ->) | (Hne & ->)]; [done |].
    destruct (ch_removed _ _ Hc x m Hm Hr) as [Ht Hnin]. split; [done |]. intros d. unfold fupd. case_match; [| done].
    intros [[= -> ->] | Hin]%elem_of_cons; [tauto | by apply (Hnin next)].
  - intros x m ptr Hx. jsimpl. destruct (here_cases x m tb n) as [(-> & -> & ->) | (Hne & ->)]; [by apply Hnm in Hx |].
    apply (ch_marked _ _ Hc x m ptr Hx).
  - intros x m. jsimpl. destruct (here_cases x m tb n) as [(-> & -> & ->) | (Hne & ->)]; [| apply (ch_target _ _ Hc)].
    right. rewrite (ptr_of_block next Hnext). split; [apply Hnext | done].
  - intros x. jsimpl. apply (ch_invalid _ _ Hc).
  - apply (ch_phase _ _ Hc).
  - intros x Hx. rewrite fupd_ne; [by apply (ch_retired _ _ Hc) |]. intros ->. congruence.
  - intros d entry He. jsimpl. destruct (here_cases (ptr_of entry) (tag_of entry) tb n) as [(E1 & E2 & _) | (_ & ->)]; [| by apply (ch_step _ _ Hc d)].
    destruct (Hq d). cbn. by rewrite He, <- E1, <- E2, lor_parts.
Qed.

(** ** Retiring a block *)

Lemma flag_chained w L tb : chained w L -> phase_of w tb = InUse ->
  chained {| blk := set_invalid tb (blk w); phase_of := fupd (phase_of w) tb Flagged |} L.
Proof.
  intros Hc Hp. destruct w as [s ph]. cbn [blk phase_of] in *.
  assert (Hsame : forall x n, removed (fupd ph tb Flagged x) n -> removed (ph x) n).
  { intros x n. unfold fupd. by destruct (x =? tb). }
  split; cbn [blk phase_of].
  - intros d Hd. pose proof (ch_linked _ _ Hc d Hd) as Hl. cbn [blk] in Hl.
    assert (Ecur : cursor {| blk := set_invalid tb s; phase_of := fupd ph tb Flagged |} d = cursor {| blk := s; phase_of := ph |} d).
    { unfold cursor, fupd. cbn [blk phase_of]. destruct (Z.eqb_spec d tb) as [-> |]; [rewrite Hp; by jsimpl |].
      destruct (ph d); by jsimpl. }
    rewrite Ecur. eapply linked_ext; [| exact Hl]. intros x m _. by jsimpl.
  - apply (ch_nodup _ _ Hc).
  - intros d x m Hin. jsimpl. by apply (ch_dest _ _ Hc).
  - intros x m Hx Hm. jsimpl. intros H1 H2. apply (ch_in _ _ Hc x m Hx Hm H1). cbn. intros Hr. apply H2. unfold fupd.
    destruct (Z.eqb_spec x tb) as [-> |]; [by rewrite Hp in Hr | done].
  - intros x m Hm Hr. jsimpl. by apply (ch_removed _ _ Hc), Hsame.
  - intros x m ptr Hx. jsimpl. assert (Hx' : ph x = Marked m ptr).
    { unfold fupd in Hx. by destruct (x =? tb). }
    destruct (ch_marked _ _ Hc x m ptr Hx') as (H1 & H2 & H3 & H4). split_and!; [done | done | done |].
    destruct H4 as [H4 | [H4 H5]]; [by left | right]. split; [done |]. by destruct (_ =? tb).
  - intros x m. jsimpl. apply (ch_target _ _ Hc).
  - intros x. jsimpl. unfold fupd. destruct (Z.eqb_spec x tb); [done | apply (ch_invalid _ _ Hc)].
  - intros x. unfold fupd. destruct (Z.eqb_spec x tb); [done | apply (ch_phase _ _ Hc)].
  - intros x Hx. apply (ch_retired _ _ Hc). unfold fupd in Hx. by destruct (x =? tb).
  - intros d entry He. unfold fupd in He. destruct (d =? tb); [done |]. jsimpl. by apply (ch_step _ _ Hc d).
Qed.

(** A phase [q] of [tb] after which jump [n], and nothing else, counts as taken out
    in addition. *)
Lemma mark_chained w L tb n : chained w L -> is_block tb ->
  (phase_of w tb = Flagged /\ n = 0) \/ (phase_of w tb = Removed 0 /\ n = 1) ->
  chained {| blk := snd (mark_dest tb n (blk w));
             phase_of := fupd (phase_of w) tb
               (let ptr := fst (mark_dest tb n (blk w)) in if ptr_of ptr =? 0 then Removed n else Marked n ptr) |} L.
Proof.
  intros Hc Htb Hp. destruct w as [s ph]. cbn [blk phase_of] in *. unfold mark_dest. cbn [fst snd]. cbv zeta.
  set (ptr := Z.lor (jmp_dest (s tb) n) 1). destruct (ptr_of_mark (jmp_dest (s tb) n)) as [Eptr Etag]. fold ptr in Eptr, Etag.
  set (q := if ptr_of ptr =? 0 then Removed n else Marked n ptr).
  assert (Hn : is_jump n) by (unfold is_jump; lia).
  assert (Hold : forall m, removed (ph tb) m -> is_jump m -> m <> n /\ removed q m).
  { intros m Hr Hm. unfold is_jump in Hm. destruct Hp as [[E ->] | [E ->]]; rewrite E in Hr; cbn in Hr; [done |].
    split; [lia |]. subst q. case_match; cbn; lia. }
  assert (Hnew : forall m, removed q m -> is_jump m -> removed (ph tb) m \/ (m = n /\ ptr_of ptr = 0)).
  { intros m Hr Hm. unfold is_jump in Hm. subst q. destruct (Z.eqb_spec (ptr_of ptr) 0) as [E0 | E0]; cbn in Hr;
      destruct Hp as [[E ->] | [E ->]]; rewrite E; cbn; destruct Hm as [-> | ->]; try lia; tauto. }
  assert (Hinv : ph tb <> InUse) by (destruct Hp as [[-> _] | [-> _]]; done).
  assert (Hptr : forall x m, ptr_of (jmp_dest (set_dest tb n ptr s x) m) = ptr_of (jmp_dest (s x) m)).
  { intros x m. jsimpl. destruct (here_cases x m tb n) as [(-> & -> & ->) | (_ & ->)]; [exact Eptr | done]. }
  split; cbn [blk phase_of].
  - intros d Hd. pose proof (ch_linked _ _ Hc d Hd) as Hl. cbn [blk] in Hl.
    assert (Ecur : cursor {| blk := set_dest tb n ptr s; phase_of := fupd ph tb q |} d = cursor {| blk := s; phase_of := ph |} d).
    { unfold cursor, fupd. cbn [blk phase_of]. destruct (Z.eqb_spec d tb) as [-> |]; [| destruct (ph d); by jsimpl].
      jsimpl. destruct Hp as [[-> _] | [-> _]]; subst q; by case_match. }
    rewrite Ecur. eapply linked_ext; [| exact Hl]. intros x m _. by jsimpl.
  - apply (ch_nodup _ _ Hc).
  - intros d x m Hin. rewrite Hptr. by apply (ch_dest _ _ Hc).
  - intros x m Hx Hm. rewrite Hptr. intros H1 H2. apply (ch_in _ _ Hc x m Hx Hm H1). cbn. intros Hr. apply H2. unfold fupd.
    destruct (Z.eqb_spec x tb) as [-> |]; [by apply Hold | done].
  - intros x m Hm Hr. unfold fupd in Hr. jsimpl. destruct (Z.eqb_spec x tb) as [-> | Hne].
    + destruct (Hnew m Hr Hm) as [Hr' | [-> E0]].
      * destruct (Hold m Hr' Hm) as [Hmn _]. destruct (here_cases tb m tb n) as [(_ & ? & _) | (_ & ->)]; [tauto |].
        by apply (ch_removed _ _ Hc).
      * destruct (here_cases tb n tb n) as [(_ & _ & ->) | (? & _)]; [| tauto]. split; [done |].
        intros d. apply (null_not_in _ _ d tb n Hc). cbn. congruence.
    + destruct (here_cases x m tb n) as [(? & _) | (_ & ->)]; [done |]. by apply (ch_removed _ _ Hc).
  - intros x m p Hx. unfold fupd in Hx. jsimpl. destruct (Z.eqb_spec x tb) as [-> | Hne].
    + subst q. destruct (Z.eqb_spec (ptr_of ptr) 0); [done |]. injection Hx as <- <-.
      destruct (here_cases tb n tb n) as [(_ & _ & ->) | (? & _)]; [| tauto]. split_and!; [done | done | done | by left].
    + destruct (here_cases x m tb n) as [(? & _) | (_ & ->)]; [done |]. by apply (ch_marked _ _ Hc).
  - intros x m. rewrite Hptr. jsimpl. apply (ch_target _ _ Hc).
  - intros x. jsimpl. unfold fupd. destruct (Z.eqb_spec x tb) as [-> |]; [| apply (ch_invalid _ _ Hc)].
    rewrite (ch_invalid _ _ Hc tb). cbn. subst q. split; [by case_match | done].
  - intros x. unfold fupd. destruct (Z.eqb_spec x tb); [subst q; by case_match | apply (ch_phase _ _ Hc)].
  - intros x Hx. apply (ch_retired _ _ Hc). unfold fupd in Hx. destruct (Z.eqb_spec x tb); [subst q; by case_match | done].
  - intros d entry He. rewrite Hptr. apply (ch_step _ _ Hc d). unfold fupd in He. destruct (Z.eqb_spec d tb); [subst q; by case_match | done].
Qed.

(** ** Taking a jump out of its list *)

(** The link to the entry after [l], when [p] is the link to the first. *)
Fixpoint last_link (p : link) (l : list (Z * Z)) : link :=
  match l with [] => p | (tb, n) :: l => last_link (Next tb n) l end.

Lemma last_link_in tb n l : exists x m, last_link (Next tb n) l = Next x m /\ (x, m) ∈ (tb, n) :: l.
Proof.
  revert tb n. induction l as [| [tb' n'] l IH]; intros tb n; [exists tb, n; split; [done | left] |].
  destruct (IH tb' n') as (x & m & E & Hin). exists x, m. split; [done | by right].
Qed.

Lemma remove_loop_Some fuel o n p entry s l s' :
  linked s entry l -> remove_loop fuel o n p entry s = Some s' ->
  exists l1 l2, l = l1 ++ (o, n) :: l2 /\ s' = set_link (last_link p l1) (jmp_list_next (s o) n) s.
Proof.
  revert p entry l. induction fuel as [| fuel IH]; intros p entry l Hl Hr; [done |]. cbn [remove_loop] in Hr.
  destruct l as [| [tb m] l]; cbn [linked] in Hl.
  { subst entry. cbn in Hr. done. }
  destruct Hl as (-> & [Hb0 Hbe] & Hj & Hl). rewrite ptr_of_lor, tag_of_lor in Hr by done.
  rewrite (proj2 (Z.eqb_neq _ _) Hb0) in Hr.
  destruct (Z.eqb_spec tb o) as [-> | Hne]; destruct (Z.eqb_spec m n) as [-> | Hnm]; cbn [andb] in Hr.
  1: by injection Hr as <-; exists [], l.
  all: destruct (IH _ _ _ Hl Hr) as (l1 & l2 & -> & ->); by eexists (_ :: l1), l2.
Qed.

Lemma remove_loop_total o n s l : forall fuel p entry,
  linked s entry l -> (o, n) ∈ l -> (length l <= fuel)%nat -> is_Some (remove_loop fuel o n p entry s).
Proof.
  induction l as [| [tb m] l IH]; intros fuel p entry Hl Hin Hf; [by apply elem_of_nil in Hin |].
  destruct fuel as [| fuel]; [cbn in Hf; lia |]. cbn [remove_loop linked] in *.
  destruct Hl as (-> & [Hb0 Hbe] & Hj & Hl). rewrite ptr_of_lor, tag_of_lor by done.
  rewrite (proj2 (Z.eqb_neq _ _) Hb0).
  destruct (Z.eqb_spec tb o) as [-> | Hne]; destruct (Z.eqb_spec m n) as [-> | Hnm]; cbn [andb]; [by eexists | | |];
    (apply IH; [done | | cbn in Hf; lia]); apply elem_of_cons in Hin as [E | Hin]; congruence || done.
Qed.

(** Cutting an entry out behind the first one. *)
Lemma linked_cut_next s l1 tb m o n l2 entry :
  linked s entry (((tb, m) :: l1) ++ (o, n) :: l2) -> NoDup (((tb, m) :: l1) ++ (o, n) :: l2) ->
  linked (set_link (last_link (Next tb m) l1) (jmp_list_next (s o) n) s) entry (((tb, m) :: l1) ++ l2).
Proof.
  revert tb m entry. induction l1 as [| [tb1 m1] l1 IH]; intros tb m entry Hl Hnd.
  - destruct Hl as (-> & Hb & Hj & (_ & _ & _ & Hl)). cbn [last_link set_link app].
    apply list.NoDup_cons in Hnd as [Hnin _]. refine (conj eq_refl (conj Hb (conj Hj _))).
    jsimpl. destruct (here_cases tb m tb m) as [(_ & _ & ->) | (? & _)]; [| tauto].
    eapply linked_ext; [| exact Hl]. intros x k Hin. jsimpl.
    destruct (here_cases x k tb m) as [(-> & -> & _) | (_ & ->)]; [| done]. exfalso. apply Hnin. by right.
  - destruct Hl as (-> & Hb & Hj & Hl). apply list.NoDup_cons in Hnd as [Hnin Hnd].
    specialize (IH tb1 m1 _ Hl Hnd). cbn [last_link].
    destruct (last_link_in tb1 m1 l1) as (x & k & E & Hin). rewrite E in *.
    refine (conj eq_refl (conj Hb (conj Hj _))). cbn [set_link] in *.
    assert (En : jmp_list_next (set_next x k (jmp_list_next (s o) n) s tb) m = jmp_list_next (s tb) m).
    { rewrite next_set_next. destruct (here_cases tb m x k) as [(-> & -> & _) | (_ & ->)]; [| done].
      exfalso. apply Hnin. apply elem_of_cons in Hin as [-> | Hin]; [left | right; apply elem_of_app; by left]. }
    rewrite En. exact IH.
Qed.

Lemma linked_cut s d l1 o n l2 :
  linked s (jmp_list_head (s d)) (l1 ++ (o, n) :: l2) -> NoDup (l1 ++ (o, n) :: l2) ->
  let s' := set_link (last_link (Head d) l1) (jmp_list_next (s o) n) s in
  linked s' (jmp_list_head (s' d)) (l1 ++ l2).
Proof.
  intros Hl Hnd. destruct l1 as [| [tb m] l1]; cbn [last_link].
  - destruct Hl as (_ & _ & _ & Hl). cbn [set_link app]. jsimpl. rewrite Z.eqb_refl.
    eapply linked_ext; [| exact Hl]. intros x k _. by jsimpl.
  - cbv zeta. destruct (last_link_in tb m l1) as (x & k & E & _).
    pose proof (linked_cut_next s l1 tb m o n l2 _ Hl Hnd) as H. rewrite E in *. cbn [set_link] in *. jsimpl. exact H.
Qed.

(** The other lists do not notice. *)
Lemma linked_other s d l1 v entry l :
  (forall x m, (x, m) ∈ l1 -> (x, m) ∉ l) -> linked s entry l ->
  linked (set_link (last_link (Head d) l1) v s) entry l.
Proof.
  intros Hdis Hl. eapply linked_ext; [| exact Hl]. intros x m Hin.
  destruct l1 as [| [tb k] l1]; cbn [last_link set_link]; [by jsimpl |].
  destruct (last_link_in tb k l1) as (a & b & -> & Hab). cbn [set_link]. jsimpl.
  destruct (here_cases x m a b) as [(-> & -> & _) | (_ & ->)]; [| done]. by apply Hdis in Hab.
Qed.

Lemma set_link_fields p v s x :
  jmp_dest (set_link p v s x) = jmp_dest (s x) /\ jmp_target_addr (set_link p v s x) = jmp_target_addr (s x) /\
  invalid (set_link p v s x) = invalid (s x).
Proof. destruct p; cbn [set_link]; by jsimpl. Qed.

Lemma set_link_head d l1 v s x : x <> d ->
  jmp_list_head (set_link (last_link (Head d) l1) v s x) = jmp_list_head (s x).
Proof.
  intros Hx. destruct l1 as [| [tb k] l1]; cbn [last_link set_link]; [jsimpl; by rewrite (proj2 (Z.eqb_neq _ _) Hx) |].
  destruct (last_link_in tb k l1) as (a & b & -> & _). cbn [set_link]. by jsimpl.
Qed.

(** Phases after [Marked n ptr] became [Removed n]. *)
Lemma removed_after n ptr m : is_jump m -> removed (Removed n) m -> removed (Marked n ptr) m \/ m = n.
Proof. cbn. lia. Qed.

(** The bookkeeping of a removal: the store's fields as given, jump [n] of [tb]
    in no list any more. *)
Lemma chained_removed s ph L L' s' tb n ptr :
  chained {| blk := s; phase_of := ph |} L -> is_block tb -> ph tb = Marked n ptr ->
  (forall x, jmp_dest (s' x) = jmp_dest (s x) /\ jmp_target_addr (s' x) = jmp_target_addr (s x) /\ invalid (s' x) = invalid (s x)) ->
  (forall d, is_block d -> linked s' (cursor {| blk := s'; phase_of := fupd ph tb (Removed n) |} d) (L' d)) -> (forall d, NoDup (L' d)) ->
  (forall d x m, (x, m) ∈ L' d -> (x, m) ∈ L d /\ (x, m) <> (tb, n)) ->
  (forall d x m, (x, m) ∈ L d -> (x, m) <> (tb, n) -> (x, m) ∈ L' d) ->
  (forall d, L d = [] -> L' d = []) ->
  chained {| blk := s'; phase_of := fupd ph tb (Removed n) |} L'.
Proof.
  intros Hc Htb Hp Hf Hl Hnd Hsub Hsup Hnil.
  destruct (ch_marked _ _ Hc tb n ptr Hp) as (Hn & Hp0 & Hpt & Hpd). cbn in Hpd.
  assert (Hold : forall m, removed (ph tb) m -> removed (Removed n) m) by (intros m; rewrite Hp; cbn; lia).
  assert (Hd : forall x m, jmp_dest (s' x) m = jmp_dest (s x) m) by (intros x m; by rewrite (proj1 (Hf x))).
  split; cbn [blk phase_of]; [done | done | | | | | | | | |].
  - intros d x m Hin. rewrite Hd. apply (ch_dest _ _ Hc), Hsub, Hin.
  - intros x m Hx Hm. rewrite Hd. intros H1 H2. unfold fupd in H2.
    apply Hsup; [apply (ch_in _ _ Hc x m Hx Hm H1); cbn; intros Hr; apply H2; destruct (Z.eqb_spec x tb) as [-> |]; auto |].
    intros [= -> ->]. apply H2. rewrite Z.eqb_refl. cbn. lia.
  - intros x m Hm Hr. rewrite Hd. unfold fupd in Hr. destruct (Z.eqb_spec x tb) as [-> | Hne].
    + destruct (removed_after n ptr m Hm Hr) as [Hr' | ->].
      * rewrite <- Hp in Hr'. destruct (ch_removed _ _ Hc tb m Hm Hr') as [H1 H2]. split; [done |].
        intros d Hin. by apply (H2 d), Hsub.
      * split; [destruct Hpd as [-> | [-> _]]; done |]. intros d Hin. by apply Hsub in Hin as [_ ?].
    + destruct (ch_removed _ _ Hc x m Hm Hr) as [H1 H2]. split; [done |]. intros d Hin. by apply (H2 d), Hsub.
  - intros x m p Hx. unfold fupd in Hx. rewrite Hd. destruct (Z.eqb_spec x tb); [done |].
    rewrite (proj2 (proj2 (Hf (ptr_of p)))). by apply (ch_marked _ _ Hc).
  - intros x m. rewrite Hd, (proj1 (proj2 (Hf x))). apply (ch_target _ _ Hc).
  - intros x. rewrite (proj2 (proj2 (Hf x))). unfold fupd. destruct (Z.eqb_spec x tb) as [-> |]; [| apply (ch_invalid _ _ Hc)].
    rewrite (ch_invalid _ _ Hc tb). cbn. by rewrite Hp.
  - intros x. unfold fupd. destruct (Z.eqb_spec x tb); [done | apply (ch_phase _ _ Hc)].
  - intros x Hx. unfold fupd in Hx. destruct (Z.eqb_spec x tb); [done |]. by apply Hnil, (ch_retired _ _ Hc).
  - intros d entry He. rewrite Hd. unfold fupd in He. destruct (Z.eqb_spec d tb); [done |]. by apply (ch_step _ _ Hc d).
Qed.

(** Lists of different blocks share no jump. *)
Lemma lists_disjoint w L d d' x m : chained w L -> d <> d' -> (x, m) ∈ L d -> (x, m) ∉ L d'.
Proof.
  intros Hc Hne H1 H2. destruct (ch_dest _ _ Hc d x m H1) as (_ & _ & _ & E1), (ch_dest _ _ Hc d' x m H2) as (_ & _ & _ & E2).
  congruence.
Qed.

Lemma marked_ptr p : ptr_of p <> 0 -> is_block (ptr_of p).
Proof. intros H. split; [done | apply ptr_even]. Qed.

(** The beginnings of the lists before and after [tb]'s jump is dealt with. *)
Lemma cursor_removed s s' ph tb n ptr d : ph tb = Marked n ptr ->
  jmp_list_head (s' d) = jmp_list_head (s d) ->
  (forall entry, ph d = Stepping entry -> jmp_list_next (s' (ptr_of entry)) (tag_of entry) = jmp_list_next (s (ptr_of entry)) (tag_of entry)) ->
  cursor {| blk := s'; phase_of := fupd ph tb (Removed n) |} d = cursor {| blk := s; phase_of := ph |} d.
Proof.
  intros Hp Hh Hn. unfold cursor, fupd. cbn [blk phase_of]. destruct (Z.eqb_spec d tb) as [-> |]; [by rewrite Hp |].
  destruct (ph d) eqn:E; auto.
Qed.

Lemma cursor_unlocked w d : locked w d = false -> cursor w d = jmp_list_head (blk w d).
Proof. unfold locked, cursor. by destruct (phase_of w d). Qed.

(** A link of the list [l1] is not that of a cleared entry. *)
Lemma cleared_link w L d l1 l2 d' entry v : chained w L -> L d = l1 ++ l2 -> phase_of w d' = Stepping entry ->
  jmp_list_next (set_link (last_link (Head d) l1) v (blk w) (ptr_of entry)) (tag_of entry) =
  jmp_list_next (blk w (ptr_of entry)) (tag_of entry).
Proof.
  intros Hc EL He. destruct l1 as [| [x m] l1]; cbn [last_link set_link]; [by jsimpl |].
  destruct (last_link_in x m l1) as (a & b & -> & Hab). cbn [set_link]. jsimpl.
  destruct (here_cases (ptr_of entry) (tag_of entry) a b) as [(<- & <- & _) | (_ & ->)]; [exfalso | done].
  apply (null_not_in _ _ d (ptr_of entry) (tag_of entry) Hc); [by apply (ch_step _ _ Hc d') |]. rewrite EL. apply elem_of_app. by left.
Qed.

Lemma remove_chained w L tb n ptr fuel s' : chained w L -> is_block tb -> phase_of w tb = Marked n ptr ->
  locked w (ptr_of ptr) = false -> remove_locked fuel tb n ptr (blk w) = Some s' ->
  exists L', chained {| blk := s'; phase_of := fupd (phase_of w) tb (Removed n) |} L'.
Proof.
  intros Hc Htb Hp Hlk Hr. destruct w as [s ph]. cbn [blk phase_of] in *.
  destruct (ch_marked _ _ Hc tb n ptr Hp) as (Hn & Hp0 & Hpt & Hpd). cbn in Hpd.
  unfold remove_locked in Hr. destruct (Z.eqb_spec (jmp_dest (s tb) n) ptr) as [Ed | Ed]; cbn [negb] in Hr.
  - set (d := ptr_of ptr) in *. assert (Hd : is_block d) by (by apply marked_ptr).
    pose proof (ch_linked _ _ Hc d Hd) as Hl. rewrite cursor_unlocked in Hl by done. cbn [blk] in Hl.
    destruct (remove_loop_Some _ _ _ _ _ _ _ _ Hl Hr) as (l1 & l2 & EL & ->).
    pose proof (ch_nodup _ _ Hc d) as Hnd. rewrite EL in Hnd.
    pose proof (proj1 (list.NoDup_app _ _) Hnd) as (Hnd1 & Hdis & Hnd2). apply list.NoDup_cons in Hnd2 as [Hni2 Hnd2].
    exists (fupd L d (l1 ++ l2)). eapply (chained_removed s ph L); [done | done | done | intros x; apply set_link_fields | | | | |].
    + intros d' Hd'. unfold fupd at 2. destruct (Z.eqb_spec d' d) as [-> | Hne].
      * rewrite EL in Hl. rewrite cursor_unlocked; [by apply linked_cut |]. unfold locked in *. cbn [phase_of] in *.
        unfold fupd. by destruct (d =? tb).
      * rewrite (cursor_removed s _ ph tb n ptr); [| done | by apply set_link_head | intros entry; by apply (cleared_link _ _ d l1 ((tb, n) :: l2) d' entry _ Hc)].
        apply linked_other; [| apply (ch_linked _ _ Hc d' Hd')].
        intros x m Hin. apply (lists_disjoint _ _ d d' x m Hc); [done |]. rewrite EL. apply elem_of_app. by left.
    + intros d'. unfold fupd. destruct (d' =? d); [| apply (ch_nodup _ _ Hc)].
      apply list.NoDup_app. split_and!; [done | | done]. intros y Hy Hy2. apply (Hdis y Hy). by right.
    + intros d' x m Hin. unfold fupd in Hin. destruct (Z.eqb_spec d' d) as [-> | Hne].
      * split; [rewrite EL; apply elem_of_app; apply elem_of_app in Hin as [Hin | Hin]; [by left | right; by right] |].
        intros [= -> ->]. apply elem_of_app in Hin as [Hin | Hin]; [apply (Hdis _ Hin); left | done].
      * split; [done |]. intros [= -> ->]. apply (lists_disjoint _ _ d' d tb n Hc Hne Hin). rewrite EL. apply elem_of_app. right. left.
    + intros d' x m Hin Hne. unfold fupd. destruct (Z.eqb_spec d' d) as [-> |]; [| done]. rewrite EL in Hin.
      apply elem_of_app in Hin as [Hin | [Hin | Hin]%elem_of_cons]; [apply elem_of_app; by left | done | apply elem_of_app; by right].
    + intros d' H0. unfold fupd. destruct (Z.eqb_spec d' d) as [-> |]; [| done]. rewrite EL in H0. by destruct l1.
  - destruct (_ && _) in Hr; [| done]. injection Hr as <-. destruct Hpd as [? | [E1 _]]; [done |].
    assert (Hno : forall d, (tb, n) ∉ L d) by (intros d; apply (null_not_in _ _ d tb n Hc); cbn; by rewrite E1).
    exists L. eapply (chained_removed s ph L); [done | done | done | done | | | | |]; try done.
    + intros d Hd. rewrite (cursor_removed s s ph tb n ptr) by done. apply (ch_linked _ _ Hc d Hd).
    + intros d. apply (ch_nodup _ _ Hc).
    + intros d x m Hin. split; [done |]. intros [= -> ->]. by apply (Hno d).
Qed.

(** ** Unlinking the incoming jumps *)

(** Taking the lock, reading a link: the list begins where it did. *)
Lemma rephase_chained w L d p : chained w L -> is_block d ->
  (forall n, is_jump n -> removed (phase_of w d) n) -> phase_of w d <> InUse ->
  (exists entry, p = Unlinking entry /\ entry = cursor w d) ->
  chained {| blk := blk w; phase_of := fupd (phase_of w) d p |} L.
Proof.
  intros Hc Hd Hall Huse (entry & -> & ->). destruct w as [s ph]. cbn [blk phase_of] in *. split; cbn [blk phase_of].
  - intros x Hx. pose proof (ch_linked _ _ Hc x Hx) as Hl. cbn [blk] in Hl.
    assert (E : cursor {| blk := s; phase_of := fupd ph d (Unlinking (cursor {| blk := s; phase_of := ph |} d)) |} x = cursor {| blk := s; phase_of := ph |} x).
    { unfold cursor at 1, fupd. cbn [blk phase_of]. destruct (Z.eqb_spec x d) as [-> |]; done. }
    by rewrite E.
  - apply (ch_nodup _ _ Hc).
  - apply (ch_dest _ _ Hc).
  - intros x m Hx Hm H1 H2. apply (ch_in _ _ Hc x m Hx Hm H1). cbn. intros Hr. apply H2. unfold fupd.
    by destruct (Z.eqb_spec x d).
  - intros x m Hm Hr. apply (ch_removed _ _ Hc x m Hm). cbn. unfold fupd in Hr. destruct (Z.eqb_spec x d) as [-> |]; [by apply Hall | done].
  - intros x m ptr Hx. apply (ch_marked _ _ Hc). unfold fupd in Hx. by destruct (x =? d).
  - apply (ch_target _ _ Hc).
  - intros x. rewrite (ch_invalid _ _ Hc x). cbn. unfold fupd. by destruct (Z.eqb_spec x d) as [-> |].
  - intros x. unfold fupd. destruct (x =? d); [done | apply (ch_phase _ _ Hc)].
  - intros x Hx. apply (ch_retired _ _ Hc). unfold fupd in Hx. by destruct (x =? d).
  - intros x entry Hx. unfold fupd in Hx. destruct (x =? d); [done |]. by apply (ch_step _ _ Hc x).
Qed.

(** Clearing the first jump of the list: it leaves the list. *)
Lemma clear_chained w L d tb n l : chained w L -> is_block d -> phase_of w d = Unlinking (Z.lor tb n) -> L d = (tb, n) :: l ->
  let s := tb_reset_jump tb n (blk w) in
  chained {| blk := set_dest tb n (Z.land (jmp_dest (s tb) n) 1) s; phase_of := fupd (phase_of w) d (Stepping (Z.lor tb n)) |} (fupd L d l).
Proof.
  intros Hc Hd Hp EL. destruct w as [s ph]. cbn [blk phase_of] in *. cbv zeta.
  set (s' := set_dest tb n _ _). pose proof (ch_nodup _ _ Hc d) as Hnd. rewrite EL in Hnd. apply list.NoDup_cons in Hnd as [Hni Hnd].
  destruct (ch_dest _ _ Hc d tb n ltac:(rewrite EL; left)) as (_ & Htb & Hn & Hdest). cbn in Hdest.
  assert (N : forall x, jmp_list_next (s' x) = jmp_list_next (s x)) by (intros x; unfold s'; by jsimpl).
  assert (D : forall x, jmp_list_head (s' x) = jmp_list_head (s x)) by (intros x; unfold s'; by jsimpl).
  assert (V : forall x, invalid (s' x) = invalid (s x)) by (intros x; unfold s'; by jsimpl).
  assert (I : jmp_dest (s' tb) n = tag_of (jmp_dest (s tb) n) /\ jmp_target_addr (s' tb) n = 0).
  { unfold s'. jsimpl. by destruct (here_cases tb n tb n) as [(_ & _ & ->) | (? & _)]; [| tauto]. }
  assert (O : forall x m, (x, m) <> (tb, n) -> jmp_dest (s' x) m = jmp_dest (s x) m /\ jmp_target_addr (s' x) m = jmp_target_addr (s x) m).
  { intros x m Hne. unfold s'. jsimpl. destruct (here_cases x m tb n) as [(-> & -> & _) | (_ & ->)]; [done | done]. }
  clearbody s'.
  assert (Hz : ptr_of (jmp_dest (s' tb) n) = 0) by (rewrite (proj1 I); apply (proj1 (keep_tag _))).
  assert (Hsub : forall d' x m, (x, m) ∈ fupd L d l d' -> (x, m) ∈ L d' /\ (x, m) <> (tb, n)).
  { intros d' x m. unfold fupd. destruct (Z.eqb_spec d' d) as [-> | Hne]; intros Hin.
    - split; [rewrite EL; by right |]. by intros [= -> ->].
    - split; [done |]. intros [= -> ->]. apply (lists_disjoint _ _ d' d tb n Hc Hne Hin). rewrite EL. left. }
  split; cbn [blk phase_of].
  - intros x Hx. pose proof (ch_linked _ _ Hc x Hx) as Hl. cbn [blk] in Hl. unfold cursor, fupd in *. cbn [blk phase_of] in *.
    destruct (Z.eqb_spec x d) as [-> | Hne].
    + rewrite Hp, EL in Hl. destruct Hl as (_ & _ & _ & Hl). rewrite ptr_of_lor, tag_of_lor, N by (done || apply Htb).
      eapply linked_ext; [| exact Hl]. intros y m _. by rewrite N.
    + assert (E : match ph x with Unlinking e => e | Stepping e => jmp_list_next (s' (ptr_of e)) (tag_of e) | _ => jmp_list_head (s' x) end =
                  match ph x with Unlinking e => e | Stepping e => jmp_list_next (s (ptr_of e)) (tag_of e) | _ => jmp_list_head (s x) end)
        by (destruct (ph x); by rewrite ?N, ?D).
      rewrite E. eapply linked_ext; [| exact Hl]. intros y m _. by rewrite N.
  - intros x. unfold fupd. destruct (x =? d); [done | apply (ch_nodup _ _ Hc)].
  - intros d' x m Hin. destruct (Hsub _ _ _ Hin) as [H1 H2]. rewrite (proj1 (O x m H2)). by apply (ch_dest _ _ Hc).
  - intros x m Hx Hm. destruct (decide ((x, m) = (tb, n))) as [[= -> ->] | Hne]; [by rewrite Hz |].
    rewrite (proj1 (O x m Hne)). intros H1 H2.
    assert (Hin : (x, m) ∈ L (ptr_of (jmp_dest (s x) m))).
    { apply (ch_in _ _ Hc x m Hx Hm H1). cbn. intros Hr. apply H2. unfold fupd. by destruct (x =? d). }
    unfold fupd. destruct (Z.eqb_spec (ptr_of (jmp_dest (s x) m)) d) as [E |]; [| done].
    rewrite E, EL in Hin. by apply elem_of_cons in Hin as [? | ?].
  - intros x m Hm Hr. assert (Hr' : removed (ph x) m).
    { unfold fupd in Hr. destruct (Z.eqb_spec x d) as [-> |]; [by rewrite Hp | done]. }
    destruct (ch_removed _ _ Hc x m Hm Hr') as [H1 H2]. split.
    + destruct (decide ((x, m) = (tb, n))) as [[= -> ->] | Hne]; [by rewrite (proj1 I), <- H1, !tag_mod, Z.mod_mod | by rewrite (proj1 (O x m Hne))].
    + intros d' Hin. by apply (H2 d'), Hsub.
  - intros x m p Hx. rewrite V. assert (Hx' : ph x = Marked m p) by (unfold fupd in Hx; by destruct (x =? d)).
    destruct (ch_marked _ _ Hc x m p Hx') as (H1 & H2 & H3 & H4). cbn in H4. split_and!; [done | done | done |].
    destruct (decide ((x, m) = (tb, n))) as [[= -> ->] | Hne]; [| by rewrite (proj1 (O x m Hne))].
    right. rewrite (proj1 I). destruct H4 as [H4 | [H4 H5]]; [| by rewrite H4, H5].
    rewrite H4 in *. split; [done |]. rewrite Hdest. apply (ch_invalid _ _ Hc). cbn. by rewrite Hp.
  - intros x m. destruct (decide ((x, m) = (tb, n))) as [[= -> ->] | Hne]; [left; apply I |].
    destruct (O x m Hne) as [-> ->]. apply (ch_target _ _ Hc).
  - intros x. rewrite V, (ch_invalid _ _ Hc x). cbn. unfold fupd. destruct (Z.eqb_spec x d) as [-> |]; [by rewrite Hp | done].
  - intros x. unfold fupd. destruct (x =? d); [done | apply (ch_phase _ _ Hc)].
  - intros x Hx. unfold fupd in *. destruct (x =? d); [done | by apply (ch_retired _ _ Hc)].
  - intros x entry Hx. unfold fupd in Hx. destruct (Z.eqb_spec x d) as [-> |].
    + injection Hx as <-. by rewrite ptr_of_lor, tag_of_lor by (done || apply Htb).
    + destruct (decide ((ptr_of entry, tag_of entry) = (tb, n))) as [[= -> ->] | Hne]; [done |].
      rewrite (proj1 (O _ _ Hne)). by apply (ch_step _ _ Hc x).
Qed.

(** The end: no jump to the block is left. *)
Lemma finish_chained w L d : chained w L -> is_block d -> phase_of w d = Unlinking 0 -> L d = [] ->
  chained {| blk := set_head d 0 (blk w); phase_of := fupd (phase_of w) d Retired |} L.
Proof.
  intros Hc Hd Hp EL. destruct w as [s ph]. cbn [blk phase_of] in *. split; cbn [blk phase_of].
  - intros x Hx. pose proof (ch_linked _ _ Hc x Hx) as Hl. unfold cursor, fupd in *. cbn [blk phase_of] in *.
    destruct (Z.eqb_spec x d) as [-> | Hne]; [jsimpl; rewrite Z.eqb_refl, EL; done |].
    assert (E : match ph x with Unlinking e => e | Stepping e => jmp_list_next (set_head d 0 s (ptr_of e)) (tag_of e) | _ => jmp_list_head (set_head d 0 s x) end =
                match ph x with Unlinking e => e | Stepping e => jmp_list_next (s (ptr_of e)) (tag_of e) | _ => jmp_list_head (s x) end)
      by (destruct (ph x); jsimpl; by rewrite ?(proj2 (Z.eqb_neq _ _) Hne)).
    rewrite E. eapply linked_ext; [| exact Hl]. intros y m _. by jsimpl.
  - apply (ch_nodup _ _ Hc).
  - intros d' x m Hin. jsimpl. by apply (ch_dest _ _ Hc).
  - intros x m Hx Hm. jsimpl. intros H1 H2. apply (ch_in _ _ Hc x m Hx Hm H1). cbn. intros Hr. apply H2. unfold fupd. by destruct (x =? d).
  - intros x m Hm Hr. jsimpl. apply (ch_removed _ _ Hc x m Hm). cbn. unfold fupd in Hr. destruct (Z.eqb_spec x d) as [-> |]; [by rewrite Hp | done].
  - intros x m p Hx. jsimpl. apply (ch_marked _ _ Hc). unfold fupd in Hx. by destruct (x =? d).
  - intros x m. jsimpl. apply (ch_target _ _ Hc).
  - intros x. jsimpl. rewrite (ch_invalid _ _ Hc x). cbn. unfold fupd. destruct (Z.eqb_spec x d) as [-> |]; [by rewrite Hp | done].
  - intros x. unfold fupd. destruct (x =? d); [done | apply (ch_phase _ _ Hc)].
  - intros x Hx. unfold fupd in Hx. destruct (Z.eqb_spec x d) as [E |]; [by rewrite E | by apply (ch_retired _ _ Hc)].
  - intros x entry Hx. jsimpl. unfold fupd in Hx. destruct (x =? d); [done |]. by apply (ch_step _ _ Hc x).
Qed.

(** The entry an unlinking is in front of is the first of what is left. *)
Lemma unlinking_entry w L d entry : chained w L -> is_block d -> phase_of w d = Unlinking entry ->
  (ptr_of entry = 0 /\ entry = 0 /\ L d = []) \/
  exists tb n l, is_block tb /\ is_jump n /\ entry = Z.lor tb n /\ ptr_of entry = tb /\ tag_of entry = n /\ L d = (tb, n) :: l.
Proof.
  intros Hc Hd Hp. pose proof (ch_linked _ _ Hc d Hd) as Hl. unfold cursor in Hl. rewrite Hp in Hl.
  destruct (L d) as [| [tb n] l]; cbn [linked] in Hl; [left; by subst entry | right].
  destruct Hl as (-> & Htb & Hn & _). exists tb, n, l. split_and!; try done; [apply ptr_of_lor | apply tag_of_lor]; (apply Htb || done).
Qed.

(** One step of the unlinking: what is left gets no longer, and a step later shorter. *)
Definition unlink_left (w : world) (L : Z -> list (Z * Z)) (d : Z) : nat :=
  match phase_of w d with
  | Retired => 0
  | Unlinking _ => 1 + 2 * length (L d)
  | Stepping _ => 2 + 2 * length (L d)
  | _ => 2 + 2 * length (L d)
  end.

Lemma unlink_step_chained w L d w' : chained w L -> is_block d -> tb_jmp_unlink d w = Some w' ->
  exists L', chained w' L' /\ (unlink_left w' L' d < unlink_left w L d)%nat /\
    (phase_of w' d = Retired \/ locked w' d = true).
Proof.
  intros Hc Hd. unfold tb_jmp_unlink. destruct (phase_of w d) as [| | n ptr | n | entry | entry |] eqn:Hp; try done.
  - destruct (Z.eqb_spec n 1) as [-> |]; [| done]. intros [= <-]. exists L. split_and!.
    + apply rephase_chained; [done | done | | by rewrite Hp |]; [intros m Hm; rewrite Hp; cbn; unfold is_jump in Hm; lia |].
      eexists. split; [done |]. unfold cursor. by rewrite Hp.
    + unfold unlink_left. cbn. rewrite fupd_eq, Hp. lia.
    + right. unfold locked. cbn. by rewrite fupd_eq.
  - destruct (unlinking_entry w L d entry Hc Hd Hp) as [(E0 & -> & EL) | (tb & m & l & Htb & Hm & -> & Ep & Et & EL)].
    + rewrite E0. cbn. intros [= <-]. exists L. split_and!; [by apply finish_chained | | left; cbn; by rewrite fupd_eq].
      unfold unlink_left. cbn. rewrite fupd_eq, Hp. lia.
    + rewrite Ep, Et, (proj2 (Z.eqb_neq _ _) (proj1 Htb)). intros [= <-]. exists (fupd L d l). split_and!.
      * by apply (clear_chained w L d tb m l).
      * unfold unlink_left. cbn. rewrite !fupd_eq, Hp, EL. cbn. lia.
      * right. unfold locked. cbn. by rewrite fupd_eq.
  - intros [= <-]. exists L. split_and!.
    + apply rephase_chained; [done | done | by rewrite Hp | by rewrite Hp |].
      eexists. split; [done |]. unfold cursor. by rewrite Hp.
    + unfold unlink_left. cbn. rewrite fupd_eq, Hp. lia.
    + right. unfold locked. cbn. by rewrite fupd_eq.
Qed.

Lemma jstep_chained w w' L : chained w L -> jstep tc true w w' -> exists L', chained w' L'.
Proof.
  intros Hc Hs. destruct Hs as [tb n next w H1 H2 H3 Hq | tb w H1 H2 | tb n w H1 H2 | tb n ptr fuel w s H1 H2 H3 H4 | tb w w' H1 H2].
  - eapply add_chained; try done. by apply Hq.
  - eexists. by apply flag_chained.
  - eexists. by apply mark_chained.
  - by eapply remove_chained.
  - destruct (unlink_step_chained _ _ _ _ Hc H1 H2) as (L' & HL & _). by exists L'.
Qed.

Lemma jsteps_chained w : rtc (jstep tc true) jinit w -> exists L, chained w L.
Proof.
  intros H. assert (Hg : forall w0 L0, rtc (jstep tc true) w0 w -> chained w0 L0 -> exists L, chained w L).
  { clear H. intros w0 L0 H. revert L0. induction H as [| x y z Hxy _ IH]; intros L0 H0; [by eexists |].
    destruct (jstep_chained _ _ _ H0 Hxy) as [L1 H1]. by eapply IH. }
  by eapply Hg, jinit_chained.
Qed.

(** Steps of the unlinking of [d] alone. *)
Fixpoint unlink_steps (k : nat) (d : Z) (w : world) : option world :=
  match k with O => Some w | S k => w ← tb_jmp_unlink d w; unlink_steps k d w end.

Lemma unlink_ends d k : forall w L, chained w L -> is_block d -> (unlink_left w L d <= k)%nat ->
  phase_of w d = Removed 1 \/ phase_of w d = Retired \/ locked w d = true ->
  exists j w', unlink_steps j d w = Some w' /\ phase_of w' d = Retired.
Proof.
  induction k as [| k IH]; intros w L Hc Hd Hk Hp.
  { exists 0%nat, w. split; [done |]. destruct Hp as [Hp | [Hp | Hp]]; [| done |]; exfalso.
    - unfold unlink_left in Hk. rewrite Hp in Hk. lia.
    - unfold unlink_left, locked in *. destruct (phase_of w d); done || lia. }
  destruct (ltac:(tauto) : phase_of w d = Retired \/ (phase_of w d = Removed 1 \/ locked w d = true)) as [| Hp']; [by exists 0%nat, w |].
  assert (Hstep : is_Some (tb_jmp_unlink d w)).
  { unfold tb_jmp_unlink, locked in *. destruct Hp' as [-> | Hp']; [by eexists |].
    destruct (phase_of w d); try done. case_match; by eexists. }
  destruct Hstep as [w1 E]. destruct (unlink_step_chained w L d w1 Hc Hd E) as (L1 & Hc1 & Hlt & Hp1).
  destruct (IH w1 L1 Hc1 Hd ltac:(lia) ltac:(tauto)) as (j & w' & Hj & Hr).
  exists (S j), w'. cbn [unlink_steps]. by rewrite E.
Qed.
End Chains.

(** ** The theorems *)

(** C12: a retired block is never jumped into, in quiet runs.  With any number of
    threads chaining and retiring blocks concurrently, one access of [tb_jmp_unlink] at
    a time, as long as no jump is chained again between its being cleared by the
    unlinking of its old destination and that unlinking's reading its link: once the
    retirement of a block is complete no block that is still in use has a jump patched
    to its code, and none can get one. *)
Theorem retired_unreachable (tc : Z -> Z) (w : world) (d tb n : Z)
  (Htc : forall a b, is_block a -> is_block b -> tc a = tc b -> a = b)
  (Htc0 : forall a, is_block a -> tc a <> 0)
  (Hrun : rtc (jstep tc true) jinit w) (Hd : is_block d) (Hret : phase_of w d = Retired)
  (Htb : is_block tb) (Hn : is_jump n) (Huse : invalid (blk w tb) = false) :
  jmp_target_addr (blk w tb) n <> tc d /\
  jmp_target_addr (tb_add_jump tc tb n d (blk w) tb) n = jmp_target_addr (blk w tb) n.
Proof.
  destruct (jsteps_chained tc w Hrun) as [L Hc]. split.
  - intros Et. destruct (ch_target _ _ _ Hc tb n) as [E0 | [Hp E]]; [apply (Htc0 d Hd); congruence |].
    assert (Ed : ptr_of (jmp_dest (blk w tb) n) = d) by (apply Htc; [by apply marked_ptr | done | congruence]).
    assert (Hin : (tb, n) ∈ L d).
    { rewrite <- Ed. apply (ch_in _ _ _ Hc tb n Htb Hn Hp).
      destruct (phase_of w tb) eqn:Ep; [intros [] | ..]; exfalso;
        assert (invalid (blk w tb) = true) by (apply (ch_invalid _ _ _ Hc); by rewrite Ep); congruence. }
    rewrite (ch_retired _ _ _ Hc d Hret) in Hin. by apply elem_of_nil in Hin.
  - unfold tb_add_jump. by rewrite (proj2 (ch_invalid _ _ _ Hc d)) by (by rewrite Hret).
Qed.

(** C30: in quiet runs the assertions of the retirement never fail and its loops end.
    In every state reachable that way, taking a marked jump out of its list, once the
    destination's lock is free, finds it there (or finds that its destination has been
    retired meanwhile, as the code asserts); and the unlinking of a block's incoming
    jumps, begun or about to begin, comes to its end by its own steps. *)
Theorem retirement_runs (tc : Z -> Z) (w : world) (tb : Z)
  (Hrun : rtc (jstep tc true) jinit w) (Htb : is_block tb) :
  (forall n ptr, phase_of w tb = Marked n ptr -> locked w (ptr_of ptr) = false ->
     exists fuel, is_Some (remove_locked fuel tb n ptr (blk w))) /\
  (phase_of w tb = Removed 1 \/ locked w tb = true ->
     exists k w', unlink_steps k tb w = Some w' /\ phase_of w' tb = Retired).
Proof.
  destruct (jsteps_chained tc w Hrun) as [L Hc]. split.
  - intros n ptr Hp Hlk. destruct (ch_marked _ _ _ Hc tb n ptr Hp) as (Hn & Hp0 & Hpt & Hpd).
    exists (length (L (ptr_of ptr))). unfold remove_locked.
    destruct (Z.eqb_spec (jmp_dest (blk w tb) n) ptr) as [Ed | Ed]; cbn [negb].
    + pose proof (ch_linked _ _ _ Hc (ptr_of ptr) (marked_ptr _ Hp0)) as Hl. rewrite cursor_unlocked in Hl by done.
      apply (remove_loop_total tb n _ (L (ptr_of ptr))); [done | | done].
      pose proof (ch_in _ _ _ Hc tb n Htb Hn) as Hin. rewrite Ed in Hin. apply Hin; [done |]. by eapply marked_not_removed.
    + destruct Hpd as [? | [-> ->]]; [done | by eexists].
  - intros Hp. eapply (unlink_ends tc tb _ w L Hc Htb); [done | tauto].
Qed.

(** ** The window *)

Section Window.
Context (tc : Z -> Z).

Abbreviation run := (rtc (jstep tc false)).

Lemma tag_of_block x : is_block x -> tag_of x = 0.
Proof. intros [_ Hx]. rewrite tag_mod. by apply even_mod. Qed.

(** The steps of an overtaken unlinking, for jumps number 0. *)
Lemma add_run w tb nx h : is_block tb -> is_block nx -> invalid (blk w nx) = false -> jmp_dest (blk w tb) 0 = 0 ->
  jmp_list_head (blk w nx) = h ->
  jstep tc false w {| blk := set_head nx tb (set_next tb 0 h (tb_set_jmp_target tb 0 (tc nx) (set_dest tb 0 nx (blk w))));
                      phase_of := phase_of w |}.
Proof.
  intros H1 H2 H3 H4 <-. pose proof (j_add tc false tb 0 nx w H1 (or_introl eq_refl) H2 ltac:(done)) as H.
  unfold tb_add_jump in H. rewrite H3, H4, Z.lor_0_r in H. cbn [negb Z.eqb] in H. autorewrite with jump in H. exact H.
Qed.

Lemma mark_run w tb n : is_block tb -> jmp_dest (blk w tb) n = 0 ->
  (phase_of w tb = Flagged /\ n = 0) \/ (phase_of w tb = Removed 0 /\ n = 1) ->
  jstep tc false w {| blk := set_dest tb n 1 (blk w); phase_of := fupd (phase_of w) tb (Removed n) |}.
Proof. intros H1 H2 H3. pose proof (j_mark tc false tb n w H1 H3) as H. unfold mark_dest in H. rewrite H2 in H. exact H. Qed.

Lemma mark_dest_run w tb e : is_block tb -> is_block e -> jmp_dest (blk w tb) 0 = e -> phase_of w tb = Flagged ->
  jstep tc false w {| blk := set_dest tb 0 (Z.lor e 1) (blk w); phase_of := fupd (phase_of w) tb (Marked 0 (Z.lor e 1)) |}.
Proof.
  intros H1 H2 H3 H4. pose proof (j_mark tc false tb 0 w H1 (or_introl (conj H4 eq_refl))) as H. unfold mark_dest in H. rewrite H3 in H.
  cbn [fst snd] in H. cbv zeta in H. rewrite ptr_of_lor, (proj2 (Z.eqb_neq _ _) (proj1 H2)) in H by (apply H2 || by right). exact H.
Qed.

Lemma lock_run w d h : is_block d -> phase_of w d = Removed 1 -> jmp_list_head (blk w d) = h ->
  jstep tc false w {| blk := blk w; phase_of := fupd (phase_of w) d (Unlinking h) |}.
Proof. intros H1 H2 <-. apply (j_unlink _ _ d); [done |]. unfold tb_jmp_unlink. by rewrite H2. Qed.

Lemma clear_run w d tb v : is_block d -> is_block tb -> phase_of w d = Unlinking tb -> Z.land (jmp_dest (blk w tb) 0) 1 = v ->
  jstep tc false w {| blk := set_dest tb 0 v (tb_set_jmp_target tb 0 0 (blk w)); phase_of := fupd (phase_of w) d (Stepping tb) |}.
Proof.
  intros H1 H2 H3 <-. apply (j_unlink _ _ d); [done |]. unfold tb_jmp_unlink.
  rewrite H3, ptr_of_block, tag_of_block, (proj2 (Z.eqb_neq _ _) (proj1 H2)) by done. cbv zeta. unfold tb_reset_jump.
  by rewrite dest_set_target.
Qed.

Lemma read_run w d tb h : is_block d -> is_block tb -> phase_of w d = Stepping tb -> jmp_list_next (blk w tb) 0 = h ->
  jstep tc false w {| blk := blk w; phase_of := fupd (phase_of w) d (Unlinking h) |}.
Proof. intros H1 H2 H3 <-. apply (j_unlink _ _ d); [done |]. unfold tb_jmp_unlink. by rewrite H3, ptr_of_block, tag_of_block. Qed.

Lemma end_run w d : is_block d -> phase_of w d = Unlinking 0 ->
  jstep tc false w {| blk := set_head d 0 (blk w); phase_of := fupd (phase_of w) d Retired |}.
Proof. intros H1 H2. apply (j_unlink _ _ d); [done |]. unfold tb_jmp_unlink. by rewrite H2. Qed.

Lemma remove_fails s c ptr : jmp_dest (s c) 0 = 1 -> ptr <> 1 -> invalid (s (ptr_of ptr)) = false ->
  forall fuel, remove_locked fuel c 0 ptr s = None.
Proof.
  intros H1 H2 H3 fuel. unfold remove_locked. rewrite H1, H3, andb_false_r. by rewrite (proj2 (Z.eqb_neq 1 ptr)) by congruence.
Qed.

(** Looking fields up through the stores. *)
Ltac addresses :=
  cbn [blk phase_of jinit fresh]; autorewrite with jump; unfold fupd, here;
  repeat match goal with
  | |- context [?x =? ?x] => rewrite (Z.eqb_refl x)
  | H : ?x <> ?y |- context [?x =? ?y] => rewrite (proj2 (Z.eqb_neq x y) H)
  | H : ?x <> ?y |- context [?y =? ?x] => rewrite (proj2 (Z.eqb_neq y x) (not_eq_sym H))
  end; cbn [andb Z.eqb jmp_dest jmp_list_next jmp_list_head jmp_target_addr invalid fresh].
Ltac looks := addresses; reflexivity.

Lemma window_stale a b d e : is_block a -> is_block b -> is_block d -> is_block e ->
  a <> b -> a <> d -> a <> e -> b <> d -> b <> e -> d <> e ->
  exists w, run jinit w /\ phase_of w d = Retired /\ phase_of w b = InUse /\ invalid (blk w b) = false /\
    jmp_target_addr (blk w b) 0 = tc d.
Proof.
  intros Ha Hb Hd He ? ? ? ? ? ?. eexists. split.
  - eapply rtc_l; [apply (add_run _ b d 0); [done | done | looks..] |].
    eapply rtc_l; [apply (add_run _ a d b); [done | done | looks..] |].
    eapply rtc_l; [apply (j_flag _ _ d); [done | looks] |].
    eapply rtc_l; [apply (mark_run _ d 0); [done | looks | left; split; looks] |].
    eapply rtc_l; [apply (mark_run _ d 1); [done | looks | right; split; looks] |].
    eapply rtc_l; [apply (lock_run _ d a); [done | looks..] |].
    eapply rtc_l; [apply (clear_run _ d a 0); [done | done | looks | addresses; by apply tag_of_block] |].
    eapply rtc_l; [apply (add_run _ a e 0); [done | done | looks..] |].
    eapply rtc_l; [apply (read_run _ d a 0); [done | done | looks..] |].
    eapply rtc_l; [apply (end_run _ d); [done | looks] |]. apply rtc_refl.
  - split_and!; looks.
Qed.

Lemma window_asserts a c d e : is_block a -> is_block c -> is_block d -> is_block e ->
  a <> c -> a <> d -> a <> e -> c <> d -> c <> e -> d <> e ->
  exists w ptr, run jinit w /\ phase_of w c = Marked 0 ptr /\ locked w (ptr_of ptr) = false /\
    forall fuel, remove_locked fuel c 0 ptr (blk w) = None.
Proof.
  intros Ha Hc Hd He ? ? ? ? ? ?. eexists _, (Z.lor e 1). split.
  - eapply rtc_l; [apply (add_run _ c e 0); [done | done | looks..] |].
    eapply rtc_l; [apply (add_run _ a d 0); [done | done | looks..] |].
    eapply rtc_l; [apply (j_flag _ _ d); [done | looks] |].
    eapply rtc_l; [apply (mark_run _ d 0); [done | looks | left; split; looks] |].
    eapply rtc_l; [apply (mark_run _ d 1); [done | looks | right; split; looks] |].
    eapply rtc_l; [apply (lock_run _ d a); [done | looks..] |].
    eapply rtc_l; [apply (clear_run _ d a 0); [done | done | looks | addresses; by apply tag_of_block] |].
    eapply rtc_l; [apply (add_run _ a e c); [done | done | looks..] |].
    eapply rtc_l; [apply (j_flag _ _ c); [done | looks] |].
    eapply rtc_l; [apply (mark_dest_run _ c e); [done | done | looks..] |].
    eapply rtc_l; [apply (read_run _ d a c); [done | done | looks..] |].
    eapply rtc_l; [apply (clear_run _ d c 1); [done | done | looks | addresses; apply tag_of_lor; [apply He | by right]] |].
    apply rtc_refl.
  - rewrite ptr_of_lor by (apply He || by right). split_and!; [looks | unfold locked; looks |].
    apply remove_fails; [looks | | rewrite ptr_of_lor by (apply He || by right); looks].
    rewrite (lor_tag e 1 (proj2 He) ltac:(by right)). destruct He. lia.
Qed.

(** C39: the walk of [tb_jmp_unlink] can be overtaken.  Take any distinct blocks.
    Blocks [b] and [a] jump to [d]; [d] is retired; its unlinking clears the jump of
    [a], and before it has read the link to the next entry a vCPU chains [a] to [e],
    which overwrites that link.  The walk then ends early: [d] is retired while [b],
    still in use, jumps into it.  If [c] jumps to [e] and is itself being retired, the
    walk goes on into the list of [e] and clears the jump of [c], whose retirement then
    fails the assertion that its destination has been retired, for [e] is in use. *)
Theorem unlink_overtaken (a b c d e : Z) (Ha : is_block a) (Hb : is_block b) (Hc : is_block c) (Hd : is_block d) (He : is_block e)
  (Hne : NoDup [a; b; c; d; e]) :
  (exists w, rtc (jstep tc false) jinit w /\ phase_of w d = Retired /\ phase_of w b = InUse /\ invalid (blk w b) = false /\
     jmp_target_addr (blk w b) 0 = tc d) /\
  (exists w ptr, rtc (jstep tc false) jinit w /\ phase_of w c = Marked 0 ptr /\ locked w (ptr_of ptr) = false /\
     forall fuel, remove_locked fuel c 0 ptr (blk w) = None).
Proof.
  rewrite !list.NoDup_cons, !not_elem_of_cons in Hne. destruct_and!.
  split; [by apply (window_stale a b d e) | by apply (window_asserts a c d e)].
Qed.
End Window.

Module JumpDemo.
(** Block 16 is chained to block 32, then block 32 is retired. *)
Definition tc (tb : Z) : Z := tb + 1.
Definition w1 : world := {| blk := tb_add_jump tc 16 0 32 (blk jinit); phase_of := phase_of jinit |}.
Definition w2 : world := {| blk := set_invalid 32 (blk w1); phase_of := fupd (phase_of w1) 32 Flagged |}.
Definition w3 : world := {| blk := snd (mark_dest 32 0 (blk w2)); phase_of := fupd (phase_of w2) 32 (Removed 0) |}.
Definition w4 : world := {| blk := snd (mark_dest 32 1 (blk w3)); phase_of := fupd (phase_of w3) 32 (Removed 1) |}.
Definition w8 : world := default w4 (unlink_steps 4 32 w4).
(** Instead of that, block 16 is being retired. *)
Definition w2' : world := {| blk := set_invalid 16 (blk w1); phase_of := fupd (phase_of w1) 16 Flagged |}.
Definition w3' : world := {| blk := snd (mark_dest 16 0 (blk w2')); phase_of := fupd (phase_of w2') 16 (Marked 0 33) |}.

Lemma block16 : is_block 16.
Proof. split; [lia | done]. Qed.
Lemma block32 : is_block 32.
Proof. split; [lia | done]. Qed.

Lemma run1 : rtc (jstep tc true) jinit w1.
Proof. apply rtc_once, j_add; [apply block16 | by left | apply block32 | done]. Qed.

Lemma unlink_run k : forall w w', unlink_steps k 32 w = Some w' -> rtc (jstep tc true) w w'.
Proof.
  induction k as [| k IH]; intros w w'; cbn [unlink_steps]; [by intros [= <-] |].
  destruct (tb_jmp_unlink 32 w) as [w0 |] eqn:E; [cbn [mbind option_bind] | done]. intros H.
  eapply rtc_l; [by apply (j_unlink _ _ 32); [apply block32 |] | by apply IH].
Qed.

Lemma demo_unlink : unlink_steps 4 32 w4 = Some w8.
Proof. unfold w8. destruct (unlink_steps 4 32 w4) eqn:E; [done |]. vm_compute in E. discriminate. Qed.

Lemma run4 : rtc (jstep tc true) jinit w4.
Proof.
  transitivity w1; [apply run1 |].
  apply (rtc_l _ _ w2); [apply j_flag; [apply block32 | done] |].
  apply (rtc_l _ _ w3); [apply (j_mark tc true 32 0 w2); [apply block32 | by left] |].
  apply rtc_once, (j_mark tc true 32 1 w3); [apply block32 | by right].
Qed.

Lemma run8 : rtc (jstep tc true) jinit w8.
Proof. transitivity w4; [apply run4 | exact (unlink_run 4 _ _ demo_unlink)]. Qed.

Lemma run3' : rtc (jstep tc true) jinit w3'.
Proof.
  transitivity w1; [apply run1 |].
  apply (rtc_l _ _ w2'); [apply j_flag; [apply block16 | done] |].
  apply rtc_once, (j_mark tc true 16 0 w2'); [apply block16 | by left].
Qed.

Lemma retired_unreachable_witness :
  jmp_target_addr (blk w1 16) 0 = 33 /\ phase_of w8 32 = Retired /\ jmp_target_addr (blk w8 16) 0 <> 33.
Proof.
  split; [reflexivity | split; [vm_compute; reflexivity |]].
  apply (retired_unreachable tc w8 32 16 0); [| | apply run8 | apply block32 | vm_compute; reflexivity | apply block16 | by left | vm_compute; reflexivity];
    unfold tc, is_block; [intros; lia | intros a [_ He] H; by replace a with (-1) in He by lia].
Defined.

Lemma retirement_runs_witness :
  phase_of w3' 16 = Marked 0 33 /\ (exists fuel, is_Some (remove_locked fuel 16 0 33 (blk w3'))) /\
  exists k w', unlink_steps k 32 w4 = Some w' /\ phase_of w' 32 = Retired.
Proof.
  split; [reflexivity |]. split.
  - apply (retirement_runs tc w3' 16 run3' block16); reflexivity.
  - apply (retirement_runs tc w4 32 run4 block32). left. reflexivity.
Defined.

(** Five blocks. *)
Lemma unlink_overtaken_witness :
  exists w, rtc (jstep tc false) jinit w /\ phase_of w 64 = Retired /\ phase_of w 32 = InUse /\ invalid (blk w 32) = false /\
    jmp_target_addr (blk w 32) 0 = 65.
Proof.
  refine (proj1 (unlink_overtaken tc 16 32 48 64 80 _ _ _ _ _ _)); [split; [lia | done].. |].
  apply (bool_decide_unpack _). vm_compute. exact I.
Defined.
End JumpDemo.
