(* ===== verification/Clocks.v ===== *)
(** * Guest clocks

    The guest's time-stamp counter and virtual clock (system/cpu-timers.c) and the
    sequence lock they use (include/qemu/seqlock.h).

    [Timers]: the fields both clocks share, and the stores of the writers
    [cpu_enable_ticks] and [cpu_disable_ticks].

    [Tsc]: every guest RDTSC is a call of [cpu_get_ticks].  Its guard, its lock-free
    path at the grain of the atomic operations, its locked path and the writers, for
    any number of vCPU threads in any interleaving, with each thread's host clock
    reading whatever it likes (browsers coarsen it per worker).  Completed calls are
    logged with the path they took and the number of calls that were complete when
    they began.

    [Vm]: the virtual clock.  Readers run against the writers one memory access at a
    time.

    64-bit sums wrap, as the program is compiled to have them. *)
From S2P Require Import Prelude.

Module Timers.

Record timers := {
  cpu_ticks_prev : Z;
  cpu_ticks_offset : Z;
  cpu_ticks_enabled : bool;
  cpu_clock_offset : Z
}.

(** [host] is what [cpu_get_host_ticks] returns. *)
Definition cpu_get_ticks_locked (host : Z) (t : timers) : Z * timers :=
  let ticks := if cpu_ticks_enabled t then s64 (cpu_ticks_offset t + host) else cpu_ticks_offset t in
  let '(ticks, offset) :=
    if ticks <? cpu_ticks_prev t
    then (cpu_ticks_prev t, s64 (cpu_ticks_offset t + s64 (cpu_ticks_prev t - ticks)))
    else (ticks, cpu_ticks_offset t) in
  (ticks, {| cpu_ticks_prev := ticks; cpu_ticks_offset := offset;
             cpu_ticks_enabled := cpu_ticks_enabled t; cpu_clock_offset := cpu_clock_offset t |}).

Definition cpu_get_clock_locked (clock : Z) (t : timers) : Z :=
  if cpu_ticks_enabled t then s64 (cpu_clock_offset t + clock) else cpu_clock_offset t.

Definition set_ticks_offset (v : Z) (t : timers) : timers :=
  {| cpu_ticks_prev := cpu_ticks_prev t; cpu_ticks_offset := v;
     cpu_ticks_enabled := cpu_ticks_enabled t; cpu_clock_offset := cpu_clock_offset t |}.
Definition set_clock_offset (v : Z) (t : timers) : timers :=
  {| cpu_ticks_prev := cpu_ticks_prev t; cpu_ticks_offset := cpu_ticks_offset t;
     cpu_ticks_enabled := cpu_ticks_enabled t; cpu_clock_offset := v |}.
Definition set_enabled (b : bool) (t : timers) : timers :=
  {| cpu_ticks_prev := cpu_ticks_prev t; cpu_ticks_offset := cpu_ticks_offset t;
     cpu_ticks_enabled := b; cpu_clock_offset := cpu_clock_offset t |}.

(** The stores a writer makes between [seqlock_write_lock] and
    [seqlock_write_unlock], in order; [host] and [clock] are what the host clocks
    show. *)
Definition enable_stores (host clock : Z) (t : timers) : list (timers -> timers) :=
  if cpu_ticks_enabled t then []
  else [set_ticks_offset (s64 (cpu_ticks_offset t - host));
        set_clock_offset (s64 (cpu_clock_offset t - clock));
        set_enabled true].

Definition disable_stores (host clock : Z) (t : timers) : list (timers -> timers) :=
  if cpu_ticks_enabled t then
    [set_ticks_offset (s64 (cpu_ticks_offset t + host));
     set_clock_offset (cpu_get_clock_locked clock t);
     set_enabled false]
  else [].

Definition apply_stores (l : list (timers -> timers)) (t : timers) : timers := fold_left (fun t f => f t) l t.

Definition cpu_enable_ticks (host clock : Z) (t : timers) : timers := apply_stores (enable_stores host clock t) t.
Definition cpu_disable_ticks (host clock : Z) (t : timers) : timers := apply_stores (disable_stores host clock t) t.

(** A writer: not writing, or inside with stores still to make. *)
Inductive writer := Idle | Writing (todo : list (timers -> timers)).

(** The writers leave [cpu_ticks_prev] alone. *)
Definition keeps_prev (f : timers -> timers) : Prop := forall t, cpu_ticks_prev (f t) = cpu_ticks_prev t.

Lemma stores_keep_prev (enable : bool) host clock t :
  Forall keeps_prev (if enable then enable_stores host clock t else disable_stores host clock t).
Proof. unfold enable_stores, disable_stores. destruct enable, (cpu_ticks_enabled t); repeat constructor. Qed.

Lemma locked_spec host t : cpu_ticks_prev t <= fst (cpu_get_ticks_locked host t) /\
  cpu_ticks_prev (snd (cpu_get_ticks_locked host t)) = fst (cpu_get_ticks_locked host t).
Proof.
  unfold cpu_get_ticks_locked. set (x := if cpu_ticks_enabled t then _ else _).
  destruct (Z.ltb_spec x (cpu_ticks_prev t)); cbn; lia.
Qed.

End Timers.

Module Tsc.
Import Timers.

(** ** The state *)

(** Where a thread is in [cpu_get_ticks]: outside; past the guard on the lock-free
    path; after the load of [ticks_max]; in the compare-and-swap loop; about to
    return; waiting for [vm_clock_lock] on the locked path; with the lock given back.
    [since] is the number of calls that were complete when this one began, [began] the
    number of updates of [ticks_max] made when it loaded it first, [seen] that number
    at its last load of [ticks_max], [failed] its failed swaps that were not
    spurious. *)
Inductive pos :=
| Outside
| Entered (since : nat)
| Loaded (prev : Z) (since began : nat)
| Looping (prev ticks : Z) (since began seen failed : nat)
| Returning (ticks : Z) (since began failed : nat)
| Waiting (since : nat)
| Unlocked (ticks : Z) (since : nat).

Record call := { c_thread : nat; c_free : bool; c_since : nat; c_value : Z; c_failed : nat; c_updates : nat }.

Record state := {
  ticks_max : Z;
  fields : timers;
  wr : writer;                   (* who holds vm_clock_lock to write *)
  skew : nat -> Z;               (* one per thread *)
  at_ : nat -> pos;
  updates : nat;                 (* updates of ticks_max so far *)
  log : list call                (* completed calls, oldest first *)
}.

Definition upd {A} (f : nat -> A) (i : nat) (x : A) : nat -> A := fun j => if (j =? i)%nat then x else f j.

Definition set_at (i : nat) (p : pos) (s : state) : state :=
  {| ticks_max := ticks_max s; fields := fields s; wr := wr s; skew := skew s; at_ := upd (at_ s) i p;
     updates := updates s; log := log s |}.
Definition set_fields (t : timers) (s : state) : state :=
  {| ticks_max := ticks_max s; fields := t; wr := wr s; skew := skew s; at_ := at_ s; updates := updates s; log := log s |}.
Definition set_wr (w : writer) (s : state) : state :=
  {| ticks_max := ticks_max s; fields := fields s; wr := w; skew := skew s; at_ := at_ s; updates := updates s; log := log s |}.
Definition set_skew (i : nat) (v : Z) (s : state) : state :=
  {| ticks_max := ticks_max s; fields := fields s; wr := wr s; skew := upd (skew s) i v; at_ := at_ s;
     updates := updates s; log := log s |}.
Definition set_max (v : Z) (s : state) : state :=
  {| ticks_max := v; fields := fields s; wr := wr s; skew := skew s; at_ := at_ s; updates := S (updates s); log := log s |}.
Definition completed (c : call) (s : state) : state :=
  {| ticks_max := ticks_max s; fields := fields s; wr := wr s; skew := skew s; at_ := upd (at_ s) (c_thread c) Outside;
     updates := updates s; log := log s ++ [c] |}.

(** Lines 94 to 99: the thread's tick and its skew afterwards. *)
Definition tick_of (off host sk prev : Z) : Z * Z :=
  let ticks := s64 (s64 (off + host) + sk) in
  if ticks <? prev then (prev, s64 (sk + s64 (prev - ticks))) else (ticks, sk).

(** ** [cpu_get_ticks] and the writers *)

Section Run.
(** [bootbox_tsc_lockfree], which the tunables set before the vCPUs run. *)
Context (lockfree : bool).

Definition guard (s : state) : bool := lockfree && cpu_ticks_enabled (fields s).

Inductive step : state -> state -> Prop :=
(** the two loads of the guard *)
| s_guard i s : at_ s i = Outside ->
    step s (set_at i (if guard s then Entered (length (log s)) else Waiting (length (log s))) s)
(** [prev = ticks_max] *)
| s_load i s since : at_ s i = Entered since -> step s (set_at i (Loaded (ticks_max s) since (updates s)) s)
(** the tick, from the offset and whatever the thread's host clock shows *)
| s_tick i s prev since began host : at_ s i = Loaded prev since began ->
    step s (set_at i (Looping prev (fst (tick_of (cpu_ticks_offset (fields s)) host (skew s i) prev)) since began began 0)
             (set_skew i (snd (tick_of (cpu_ticks_offset (fields s)) host (skew s i) prev)) s))
(** the swap succeeds *)
| s_swap i s prev ticks since began seen failed :
    at_ s i = Looping prev ticks since began seen failed -> prev < ticks -> ticks_max s = prev ->
    step s (set_at i (Returning ticks since began failed) (set_max ticks s))
(** the swap fails because the value has changed *)
| s_fail i s prev ticks since began seen failed :
    at_ s i = Looping prev ticks since began seen failed -> prev < ticks -> ticks_max s <> prev ->
    step s (set_at i (Looping (ticks_max s) ticks since began (updates s) (S failed)) s)
(** a weak swap may fail for no reason *)
| s_spurious i s prev ticks since began seen failed :
    at_ s i = Looping prev ticks since began seen failed -> prev < ticks -> ticks_max s = prev -> step s s
(** the loop ends *)
| s_done i s prev ticks since began seen failed :
    at_ s i = Looping prev ticks since began seen failed -> ticks <= prev ->
    step s (set_at i (Returning ticks since began failed) s)
| s_return i s ticks since began failed : at_ s i = Returning ticks since began failed ->
    step s (completed {| c_thread := i; c_free := true; c_since := since; c_value := ticks; c_failed := failed;
                         c_updates := updates s - began |} s)
(** the locked path, which waits for a writer *)
| s_locked i s since host : at_ s i = Waiting since -> wr s = Idle ->
    step s (set_at i (Unlocked (fst (cpu_get_ticks_locked host (fields s))) since)
             (set_fields (snd (cpu_get_ticks_locked host (fields s))) s))
| s_unlocked i s ticks since : at_ s i = Unlocked ticks since ->
    step s (completed {| c_thread := i; c_free := false; c_since := since; c_value := ticks; c_failed := 0; c_updates := 0 |} s)
(** the machine is started or stopped: the stores of the writer, one at a time *)
| s_write_begin s host clock (enable : bool) : wr s = Idle ->
    step s (set_wr (Writing (if enable then enable_stores host clock (fields s) else disable_stores host clock (fields s))) s)
| s_store s f todo : wr s = Writing (f :: todo) -> step s (set_wr (Writing todo) (set_fields (f (fields s)) s))
| s_write_end s : wr s = Writing [] -> step s (set_wr Idle s).

Definition init : state :=
  {| ticks_max := 0; fields := {| cpu_ticks_prev := 0; cpu_ticks_offset := 0; cpu_ticks_enabled := false; cpu_clock_offset := 0 |};
     wr := Idle; skew := fun _ => 0; at_ := fun _ => Outside; updates := 0; log := [] |}.

(** ** Monotonicity *)

(** A value that a completed call on the path, numbered below [since], returned is at
    most [x]. *)
Definition above (free : bool) (l : list call) (since : nat) (x : Z) : Prop :=
  forall a c, l !! a = Some c -> (a < since)%nat -> c_free c = free -> c_value c <= x.

(** What a thread knows, by its position. *)
Definition pos_ok (s : state) (p : pos) : Prop :=
  match p with
  | Outside => True
  | Entered since => (since <= length (log s))%nat /\ lockfree = true
  | Loaded prev since began =>
      above true (log s) since prev /\ (since <= length (log s))%nat /\ lockfree = true /\ prev <= ticks_max s /\
      (began <= updates s)%nat /\ (ticks_max s <> prev -> (began < updates s)%nat)
  | Looping prev ticks since began seen failed =>
      above true (log s) since ticks /\ (since <= length (log s))%nat /\ lockfree = true /\ prev <= ticks_max s /\
      (began + failed <= seen)%nat /\ (seen <= updates s)%nat /\
      (ticks_max s <> prev -> (seen < updates s)%nat)
  | Returning ticks since began failed =>
      above true (log s) since ticks /\ (since <= length (log s))%nat /\ lockfree = true /\ ticks <= ticks_max s /\
      (began + failed <= updates s)%nat
  | Waiting since => (since <= length (log s))%nat
  | Unlocked ticks since =>
      above false (log s) since ticks /\ (since <= length (log s))%nat /\ ticks <= cpu_ticks_prev (fields s)
  end.

(** The largest value handed out on a path so far. *)
Definition bound (free : bool) (s : state) : Z := if free then ticks_max s else cpu_ticks_prev (fields s).

Record inv (s : state) : Prop := {
  inv_log : forall a c, log s !! a = Some c -> c_value c <= bound (c_free c) s;
  inv_order : forall a b ca cb, log s !! a = Some ca -> log s !! b = Some cb ->
    (a < c_since cb)%nat -> c_free ca = c_free cb -> c_value ca <= c_value cb;
  inv_failed : forall a c, log s !! a = Some c -> (c_failed c <= c_updates c)%nat;
  inv_since : forall a c, log s !! a = Some c -> (c_since c <= a)%nat;
  inv_paths : forall a c, log s !! a = Some c -> c_free c = true -> lockfree = true;
  inv_pos : forall i, pos_ok s (at_ s i);
  inv_writer : match wr s with Idle => True | Writing todo => Forall keeps_prev todo end
}.

Lemma tick_of_ge off host sk prev : prev <= fst (tick_of off host sk prev).
Proof. unfold tick_of. destruct (Z.ltb_spec (s64 (s64 (off + host) + sk)) prev); cbn; lia. Qed.

Lemma above_mono fr l since x y : above fr l since x -> x <= y -> above fr l since y.
Proof. intros H Hxy a c Ha Hlt Hf. specialize (H a c Ha Hlt Hf). lia. Qed.

Lemma above_app fr l l' since x : above fr l since x -> (since <= length l)%nat -> above fr (l ++ l') since x.
Proof. intros H Hs a c Ha Hlt. rewrite lookup_app_l in Ha by lia. by apply (H a c). Qed.

Lemma above_bound s fr since x : inv s -> bound fr s <= x -> above fr (log s) since x.
Proof. intros Hi Hx a c Ha _ <-. pose proof (inv_log s Hi a c Ha). lia. Qed.

(** Other threads' knowledge survives: the bounds only grow, and [ticks_max] changes
    only together with [updates]. *)
Lemma pos_ok_frame s s' p :
  ticks_max s <= ticks_max s' -> (updates s <= updates s')%nat ->
  (ticks_max s' <> ticks_max s -> (updates s < updates s')%nat) ->
  cpu_ticks_prev (fields s) <= cpu_ticks_prev (fields s') ->
  (exists l', log s' = log s ++ l') -> pos_ok s p -> pos_ok s' p.
Proof.
  intros Hm Hu Hc Hpv [l' Hl]. unfold pos_ok. rewrite Hl, length_app.
  assert (Hne : forall (x : Z) (k : nat), (ticks_max s <> x -> (k < updates s)%nat) -> (k <= updates s)%nat ->
            ticks_max s' <> x -> (k < updates s')%nat).
  { intros x k H5 Hk Hx. destruct (Z.eq_dec (ticks_max s') (ticks_max s)) as [E | E].
    - rewrite E in Hx. specialize (H5 Hx). lia.
    - specialize (Hc E). lia. }
  destruct p as [| since | prev since began | prev ticks since began seen failed | ticks since began failed | since | ticks since]; [done | ..].
  - intros [H1 H2]. split; [lia | done].
  - intros (H1 & H2 & H3 & H4 & H5 & H6). split_and!; [by apply above_app | lia | done | lia | lia | by apply Hne].
  - intros (H1 & H2 & H3 & H4 & H5 & H6 & H7). split_and!; [by apply above_app | lia | done | lia | lia | lia | by apply Hne].
  - intros (H1 & H2 & H3 & H4 & H5). split_and!; [by apply above_app | lia | done | lia | lia].
  - lia.
  - intros (H1 & H2 & H3). split_and!; [by apply above_app | lia | lia].
Qed.

Lemma upd_eq {A} (f : nat -> A) i x : upd f i x i = x.
Proof. unfold upd. by rewrite Nat.eqb_refl. Qed.

Lemma upd_cases {A} (P : A -> Prop) (f : nat -> A) i x : P x -> (forall j, P (f j)) -> forall j, P (upd f i x j).
Proof. intros Hx Hf j. unfold upd. by destruct (j =? i)%nat. Qed.

(** A step that changes neither the log nor, downwards, the bounds. *)
Lemma inv_same s s' : inv s -> log s' = log s -> ticks_max s <= ticks_max s' -> (updates s <= updates s')%nat ->
  (ticks_max s' <> ticks_max s -> (updates s < updates s')%nat) ->
  cpu_ticks_prev (fields s) <= cpu_ticks_prev (fields s') ->
  (forall i, pos_ok s' (at_ s' i)) -> match wr s' with Idle => True | Writing todo => Forall keeps_prev todo end -> inv s'.
Proof.
  intros [H1 H2 H3 H4 H5 H6 H7] El Hm Hu Hc Hp Hpos Hw. split; rewrite ?El; try done.
  intros a c Ha. specialize (H1 a c Ha). unfold bound in *. destruct (c_free c); lia.
Qed.

Lemma inv_move s i p sk : inv s -> pos_ok s p ->
  inv {| ticks_max := ticks_max s; fields := fields s; wr := wr s; skew := sk; at_ := upd (at_ s) i p;
         updates := updates s; log := log s |}.
Proof.
  intros Hi Hp. apply (inv_same s); cbn; try done; [| apply Hi]. apply upd_cases; [done | apply Hi].
Qed.

(** A call completes: on its path, nothing it had to exceed exceeds it. *)
Lemma inv_completed s c : inv s -> above (c_free c) (log s) (c_since c) (c_value c) -> (c_since c <= length (log s))%nat ->
  c_value c <= bound (c_free c) s -> (c_failed c <= c_updates c)%nat -> (c_free c = true -> lockfree = true) -> inv (completed c s).
Proof.
  intros Hi Ha Hs Hb Hf Hp. split; cbn.
  - intros a c' Ha'%lookup_snoc_Some. destruct Ha' as [[_ Ha'] | [_ <-]]; [apply (inv_log s Hi a c' Ha') | done].
  - intros a b ca cb Ha'%lookup_snoc_Some Hb'%lookup_snoc_Some Hlt Heq. destruct Hb' as [[Hb1 Hb'] | [-> <-]].
    + pose proof (inv_since s Hi b cb Hb'). destruct Ha' as [[Ha1 Ha'] | [-> _]]; [by apply (inv_order s Hi a b) | lia].
    + destruct Ha' as [[Ha1 Ha'] | [-> _]]; [by apply (Ha a) | lia].
  - intros a c' Ha'%lookup_snoc_Some. destruct Ha' as [[_ Ha'] | [_ <-]]; [by apply (inv_failed s Hi a) | done].
  - intros a c' Ha'%lookup_snoc_Some. destruct Ha' as [[_ Ha'] | [-> <-]]; [by apply (inv_since s Hi a) | done].
  - intros a c' Ha'%lookup_snoc_Some. destruct Ha' as [[_ Ha'] | [_ <-]]; [by apply (inv_paths s Hi a) | done].
  - apply upd_cases; [done |]. intros j. eapply pos_ok_frame; [| | | | | apply (inv_pos s Hi j)]; cbn; [lia | lia | done | lia | by eexists].
  - apply Hi.
Qed.

Lemma init_inv : inv init.
Proof. by split. Qed.

Lemma step_inv s s' : inv s -> step s s' -> inv s'.
Proof.
  intros Hi Hs. destruct Hs as [i s Hp | i s since Hp | i s prev since began host Hp | i s prev ticks since began seen failed Hp Hlt Hm
    | i s prev ticks since began seen failed Hp Hlt Hm | | i s prev ticks since began seen failed Hp Hle
    | i s ticks since began failed Hp | i s since host Hp Hw | i s ticks since Hp | s host clock enable Hw | s f todo Hw | s Hw];
    try (pose proof (inv_pos s Hi i) as Hok; rewrite Hp in Hok; cbn [pos_ok] in Hok).
  - apply inv_move; [done |]. destruct (guard s) eqn:Eg; cbn; [| lia]. split; [lia | by apply andb_true_iff in Eg as [? _]].
  - apply inv_move; [done |]. destruct Hok as [H1 H2]. cbn. split_and!; [by apply above_bound | lia | done | lia | lia | done].
  - unfold set_at, set_skew. cbn. apply inv_move; [done |]. destruct Hok as (H1 & H2 & H3 & H4 & H5 & H6).
    pose proof (tick_of_ge (cpu_ticks_offset (fields s)) host (skew s i) prev). cbn. split_and!; [by eapply above_mono | lia | done | lia | lia | lia | done].
  - destruct Hok as (H1 & H2 & H3 & H4 & H5 & H6 & H7). apply (inv_same s); cbn; [done | done | lia | lia | lia | lia | | apply Hi].
    apply upd_cases; [cbn; split_and!; [done | lia | done | lia | lia] |].
    intros j. eapply pos_ok_frame; [| | | | | apply (inv_pos s Hi j)]; cbn; [lia | lia | lia | lia | by exists []; rewrite app_nil_r].
  - apply inv_move; [done |]. destruct Hok as (H1 & H2 & H3 & H4 & H5 & H6 & H7). specialize (H7 Hm). cbn. split_and!; [done | lia | done | lia | lia | lia | done].
  - done.
  - apply inv_move; [done |]. destruct Hok as (H1 & H2 & H3 & H4 & H5 & H6 & H7). cbn. split_and!; [done | lia | done | lia | lia].
  - destruct Hok as (H1 & H2 & H3 & H4 & H5). apply inv_completed; cbn; try done; lia.
  - destruct (locked_spec host (fields s)) as [Hge Heq]. apply (inv_same s); cbn; [done | done | lia | lia | done | lia | | apply Hi].
    apply upd_cases; [cbn; split_and!; [apply above_bound; [done | exact Hge] | lia | lia] |].
    intros j. eapply pos_ok_frame; [| | | | | apply (inv_pos s Hi j)]; cbn; [lia | lia | done | lia | by exists []; rewrite app_nil_r].
  - destruct Hok as (H1 & H2 & H3). apply inv_completed; cbn; try done; lia.
  - apply (inv_same s); cbn; try done; [apply Hi | apply stores_keep_prev].
  - pose proof (inv_writer s Hi) as Hk. rewrite Hw in Hk. apply Forall_cons_1 in Hk as [Hf Hk].
    apply (inv_same s); cbn; rewrite ?Hf; try done. intros j. eapply pos_ok_frame; [| | | | | apply (inv_pos s Hi j)]; cbn; rewrite ?Hf; try done.
    by exists []; rewrite app_nil_r.
  - apply (inv_same s); cbn; try done. apply Hi.
Qed.

Lemma steps_inv s : rtc step init s -> inv s.
Proof.
  intros H. assert (Hg : forall s0, rtc step s0 s -> inv s0 -> inv s).
  { clear H. intros s0 H. induction H as [| x y z Hxy _ IH]; [done |]. intros Hx. by apply IH, (step_inv x). }
  by eapply Hg, init_inv.
Qed.

(** C15: the time-stamp counter never steps back among calls that take the same path.
    Whatever the threads' host clocks show, however their calls interleave and however
    the machine is stopped and started meanwhile, a call of [cpu_get_ticks] that begins
    after another has returned, on the same or on a different vCPU, returns at least
    its value if both took the lock-free path or both the locked one.  With the
    lock-free path switched off every call takes the locked path.  A lock-free call
    returns at most [ticks_max], a locked one at most [cpu_ticks_prev].  Nothing is
    claimed between calls on different paths: see [tsc_breaks_at_stop]. *)
Theorem tsc_monotonic (s : state) (a b : nat) (ca cb : call)
  (Hrun : rtc step init s) (Ha : log s !! a = Some ca) (Hb : log s !! b = Some cb)
  (Hlater : (a < c_since cb)%nat) :
  (c_free ca = c_free cb -> c_value ca <= c_value cb) /\ (lockfree = false -> c_free ca = false /\ c_free cb = false) /\
  c_value cb <= bound (c_free cb) s.
Proof.
  pose proof (steps_inv s Hrun) as Hi. split_and!; [by apply (inv_order s Hi a b) | | by apply (inv_log s Hi b)].
  intros Hl. split; apply not_true_is_false; intros E; [apply (inv_paths s Hi a) in E | apply (inv_paths s Hi b) in E]; congruence.
Qed.

(** ** Progress *)

(** The next step of thread [i] when its host clock shows [host]; a swap
    succeeds when the value is unchanged, the lock is free. *)
Definition advance (i : nat) (host : Z) (s : state) : state :=
  match at_ s i with
  | Outside => set_at i (if guard s then Entered (length (log s)) else Waiting (length (log s))) s
  | Entered since => set_at i (Loaded (ticks_max s) since (updates s)) s
  | Loaded prev since began =>
      let '(t, sk) := tick_of (cpu_ticks_offset (fields s)) host (skew s i) prev in
      set_at i (Looping prev t since began began 0) (set_skew i sk s)
  | Looping prev ticks since began seen failed =>
      if prev <? ticks then
        if ticks_max s =? prev then set_at i (Returning ticks since began failed) (set_max ticks s)
        else set_at i (Looping (ticks_max s) ticks since began (updates s) (S failed)) s
      else set_at i (Returning ticks since began failed) s
  | Returning ticks since began failed =>
      completed {| c_thread := i; c_free := true; c_since := since; c_value := ticks; c_failed := failed;
                   c_updates := updates s - began |} s
  | Waiting since =>
      let '(v, t) := cpu_get_ticks_locked host (fields s) in set_at i (Unlocked v since) (set_fields t s)
  | Unlocked ticks since =>
      completed {| c_thread := i; c_free := false; c_since := since; c_value := ticks; c_failed := 0; c_updates := 0 |} s
  end.

Lemma advance_step i host s : wr s = Idle -> step s (advance i host s).
Proof.
  intros Hw. unfold advance.
  destruct (at_ s i) as [| since | prev since began | prev ticks since began seen failed | ticks since began failed | since | ticks since] eqn:E.
  - by apply s_guard.
  - by apply s_load.
  - pose proof (s_tick i s prev since began host E) as H. by destruct (tick_of _ _ _ _).
  - destruct (Z.ltb_spec prev ticks); [| by eapply s_done].
    destruct (Z.eqb_spec (ticks_max s) prev); [by eapply s_swap | by eapply s_fail].
  - by apply s_return.
  - pose proof (s_locked i s since host E Hw) as H. by destruct (cpu_get_ticks_locked _ _).
  - by apply s_unlocked.
Qed.

Definition advances (n : nat) (i : nat) (host : Z) (s : state) : state := Nat.iter n (advance i host) s.

Lemma advances_S n i host s : advances (S n) i host s = advances n i host (advance i host s).
Proof. apply Nat.iter_succ_r. Qed.

Lemma advance_wr i host s : wr (advance i host s) = wr s.
Proof.
  unfold advance. destruct (at_ s i); try done.
  - by destruct (tick_of _ _ _ _).
  - by repeat case_match.
  - by destruct (cpu_get_ticks_locked _ _).
Qed.

(** The steps a thread has left when it is left alone. *)
Definition steps_left (s : state) (p : pos) : nat :=
  match p with
  | Outside => 5
  | Entered _ => 4
  | Loaded prev _ _ => if ticks_max s =? prev then 3 else 4
  | Looping prev _ _ _ _ _ => if ticks_max s =? prev then 2 else 3
  | Waiting _ => 2
  | Returning _ _ _ _ | Unlocked _ _ => 1
  end.

(** One step completes the call, or leaves fewer. *)
Lemma advance_nearer i host s :
  (exists c, log (advance i host s) = log s ++ [c] /\ c_thread c = i) \/
  (log (advance i host s) = log s /\ (steps_left (advance i host s) (at_ (advance i host s) i) < steps_left s (at_ s i))%nat).
Proof.
  unfold advance. destruct (at_ s i) as [| since | prev since began | prev ticks since began seen failed | ticks since began failed | since | ticks since] eqn:E.
  - right. cbn. rewrite upd_eq. destruct (guard s); cbn; split; try done; lia.
  - right. cbn. rewrite upd_eq; cbn; rewrite Z.eqb_refl. split; [done | lia].
  - right. destruct (tick_of _ _ _ _). cbn. rewrite upd_eq. cbn. split; [done |]. destruct (_ =? _); lia.
  - right. destruct (Z.ltb_spec prev ticks); [| cbn; rewrite upd_eq; cbn; split; [done | destruct (_ =? _); lia]].
    cbn [steps_left]. destruct (Z.eqb_spec (ticks_max s) prev); cbn; rewrite upd_eq; cbn; rewrite ?Z.eqb_refl; split; (done || lia).
  - left. by eexists.
  - right. destruct (cpu_get_ticks_locked _ _). cbn. rewrite upd_eq. cbn. split; [done | lia].
  - left. by eexists.
Qed.

Lemma advance_completes i host : forall k s, wr s = Idle -> (steps_left s (at_ s i) <= k)%nat ->
  exists n c, (n <= k)%nat /\ rtc step s (advances n i host s) /\ log (advances n i host s) = log s ++ [c] /\ c_thread c = i.
Proof.
  induction k as [| k IH]; intros s Hw Hk.
  { exfalso. destruct (at_ s i); cbn in Hk; repeat case_match; lia. }
  destruct (advance_nearer i host s) as [(c & Hc & Ht) | [Hl Hlt]].
  - exists 1%nat, c. split_and!; [lia | by apply rtc_once, advance_step | done | done].
  - destruct (IH (advance i host s)) as (n & c & Hn & Hr & Hc & Ht); [by rewrite advance_wr | lia |].
    exists (S n), c. rewrite advances_S. split_and!; [lia | eapply rtc_l; [by apply advance_step | done] | by rewrite Hc, Hl | done].
Qed.

(** Reading the counter makes progress.  In every reachable state each completed call
    retried its swap at most once for every update another call made meanwhile (so if
    one thread is held up, others are getting through), and any thread, wherever it is
    in the routine and whichever path it takes, completes its call within five of its
    own steps when it is left alone and no writer holds the lock. *)
Theorem tsc_progress (s : state) (Hrun : rtc step init s) :
  (forall a c, log s !! a = Some c -> (c_failed c <= c_updates c)%nat) /\
  (wr s = Idle -> forall i host, exists n c, (n <= 5)%nat /\ rtc step s (advances n i host s) /\
     log (advances n i host s) = log s ++ [c] /\ c_thread c = i).
Proof.
  split; [intros a c; apply (inv_failed s (steps_inv s Hrun)) |]. intros Hw i host. apply advance_completes; [done |].
  destruct (at_ s i); cbn; repeat case_match; lia.
Qed.
End Run.

(** ** Keeping pace *)

(** A tick is the thread's clock plus its skew, exactly, while nothing wraps. *)
Lemma tick_of_value off host sk prev :
  is_s 64 (off + host) -> is_s 64 (off + host + sk) -> is_s 64 prev ->
  is_s 64 (prev - (off + host + sk)) -> is_s 64 (prev - (off + host)) ->
  let '(t, sk') := tick_of off host sk prev in
  t = Z.max prev (off + host + sk) /\ t = off + host + sk'.
Proof.
  intros H1 H2 H3 H4 H5. unfold tick_of. rewrite (sw_small 64 (off + host)), (sw_small 64 (off + host + sk)) by (lia || done).
  destruct (Z.ltb_spec (off + host + sk) prev); [| lia].
  rewrite (sw_small 64 (prev - _)) by (lia || done). rewrite sw_small; [lia | lia |].
  replace (sk + (prev - (off + host + sk))) with (prev - (off + host)) by lia. done.
Qed.

(** A lagging vCPU's counter keeps pace.  A thread whose clock is behind the
    highest tick handed out is moved forward once: its next reading is at least
    its last one plus the time its own clock has advanced since, whether or not
    any other vCPU reads the counter. *)
Theorem tsc_keeps_pace (off host host' sk prev prev' : Z)
  (Hoff : Z.abs off < 2 ^ 60) (Hh : Z.abs host < 2 ^ 60) (Hh' : Z.abs host' < 2 ^ 60) (Hsk : Z.abs sk < 2 ^ 60)
  (Hp : Z.abs prev < 2 ^ 60) (Hp' : Z.abs prev' < 2 ^ 60) :
  let '(t, sk') := tick_of off host sk prev in
  t + (host' - host) <= fst (tick_of off host' sk' prev').
Proof.
  pose proof (tick_of_value off host sk prev) as H1. destruct (tick_of off host sk prev) as [t sk'].
  unfold is_s in *. destruct H1 as [Ht Hv]; [lia | lia | lia | lia | lia |].
  pose proof (tick_of_value off host' sk' prev') as H2. unfold is_s in *.
  destruct (tick_of off host' sk' prev') as [t' sk'']. cbn [fst]. lia.
Qed.
(** ** Stopping the machine *)

(** The machine once it has been started with the host's clock at [hs]. *)
Definition started (hs : Z) : state :=
  set_fields {| cpu_ticks_prev := 0; cpu_ticks_offset := s64 (0 - hs); cpu_ticks_enabled := true; cpu_clock_offset := s64 (0 - 0) |} init.

Lemma started_steps lf hs : rtc (step lf) init (started hs).
Proof.
  eapply rtc_l; [exact (s_write_begin lf init hs 0 true eq_refl) |]. do 3 (eapply rtc_l; [eapply s_store; reflexivity |]).
  apply rtc_once. refine (s_write_end lf _ _). reflexivity.
Qed.

Lemma tick_of_first off host : is_s 64 (off + host) -> 0 < off + host -> tick_of off host 0 0 = (off + host, 0).
Proof.
  intros H1 H2. unfold tick_of. rewrite (sw_small 64 (off + host)), Z.add_0_r, sw_small by (lia || done).
  by destruct (Z.ltb_spec (off + host) 0); [lia |].
Qed.

Ltac take c := eapply rtc_l; [eapply c; reflexivity |].

(** The two calls of a stop: the first reads its clock after the writer has read its
    own and before the writer's stores, the second finds the ticks disabled. *)
Lemma stop_steps_back hs Hd H : 0 <= hs -> hs <= Hd -> Hd < H -> H < 2 ^ 60 ->
  exists s, rtc (step true) (started hs) s /\ log s =
    [{| c_thread := 0; c_free := true; c_since := 0; c_value := H - hs; c_failed := 0; c_updates := 1 |};
     {| c_thread := 1; c_free := false; c_since := 1; c_value := Hd - hs; c_failed := 0; c_updates := 0 |}].
Proof.
  intros H1 H2 H3 H4. assert (E1 : s64 (0 - hs) = - hs) by (apply sw_small; unfold is_s; lia).
  assert (E2 : s64 (- hs + Hd) = Hd - hs) by (rewrite sw_small; unfold is_s; lia).
  unfold started. rewrite E1. eexists. split.
  - take (fun s => s_write_begin true s Hd 0 false). take (s_guard true 0). take (s_load true 0).
    eapply rtc_l. { eapply (s_tick true 0 _ _ _ _ H). reflexivity. }
    cbn [fields set_at set_wr set_fields init cpu_ticks_offset skew updates].
    rewrite tick_of_first by (unfold is_s; lia). cbn [fst snd].
    eapply rtc_l. { eapply (s_swap true 0); [reflexivity | cbn; lia | reflexivity]. }
    take (s_return true 0). do 3 take (s_store true). take (s_write_end true). take (s_guard true 1).
    eapply rtc_l. { eapply (s_locked true 1 _ _ 0); reflexivity. }
    take (s_unlocked true 1). apply rtc_refl.
  - cbn -[sw]. rewrite E2. unfold cpu_get_ticks_locked. cbn -[sw]. destruct (Z.ltb_spec (Hd - hs) 0); [lia |]. cbn.
    by replace (- hs + H) with (H - hs) by lia.
Qed.

(** The one call of a stop: past the guard, it takes the offset the writer has just
    stored. *)
Lemma stop_jumps hs Hd H : 0 <= hs -> hs <= Hd -> Hd < H -> H < 2 ^ 60 ->
  exists s, rtc (step true) (started hs) s /\ log s =
    [{| c_thread := 0; c_free := true; c_since := 0; c_value := Hd - hs + H; c_failed := 0; c_updates := 1 |}] /\
    ticks_max s = Hd - hs + H.
Proof.
  intros H1 H2 H3 H4. assert (E1 : s64 (0 - hs) = - hs) by (apply sw_small; unfold is_s; lia).
  assert (E2 : s64 (- hs + Hd) = Hd - hs) by (rewrite sw_small; unfold is_s; lia).
  unfold started. rewrite E1. eexists. split.
  - take (s_guard true 0). take (s_load true 0). take (fun s => s_write_begin true s Hd 0 false). take (s_store true).
    eapply rtc_l. { eapply (s_tick true 0 _ _ _ _ H). reflexivity. }
    cbn [fields set_at set_wr set_fields set_ticks_offset init cpu_ticks_offset skew updates].
    rewrite E2, tick_of_first by (unfold is_s; lia). cbn [fst snd].
    eapply rtc_l. { eapply (s_swap true 0); [reflexivity | cbn; lia | reflexivity]. }
    take (s_return true 0). apply rtc_refl.
  - done.
Qed.

(** C40: across a stop the lock-free counter is not monotonic.  The machine is started
    when the host's clock shows [hs] and stopped while a vCPU is still running,
    [cpu_disable_ticks] reading the clock at [Hd].  A vCPU that reads its clock at a
    later [H], before the stores of [cpu_disable_ticks], is given [H - hs]; a call that
    begins after that one has returned takes the locked path and is given [Hd - hs],
    which is less: the locked path knows nothing of [ticks_max].  A vCPU that has
    passed the guard and reads the offset between the first store and the last is given
    [Hd - hs + H], the clock counted twice, and no later lock-free call can return
    less. *)
Theorem tsc_breaks_at_stop (hs Hd H : Z) (Hhs : 0 <= hs) (Hle : hs <= Hd) (Hlt : Hd < H) (Hsmall : H < 2 ^ 60) :
  (exists s a b, rtc (step true) init s /\ log s = [a; b] /\ c_since b = 1%nat /\
     c_value a = H - hs /\ c_value b = Hd - hs /\ c_value b < c_value a) /\
  (exists s a, rtc (step true) init s /\ log s = [a] /\ c_value a = (H - hs) + Hd /\ ticks_max s = c_value a).
Proof.
  split.
  - destruct (stop_steps_back hs Hd H) as (s & Hr & Hl); [done.. |]. eexists s, _, _.
    split_and!; [by etransitivity; [apply started_steps |] | exact Hl | cbn; lia..].
  - destruct (stop_jumps hs Hd H) as (s & Hr & Hl & Hm); [done.. |]. eexists s, _.
    split_and!; [by etransitivity; [apply started_steps |] | exact Hl | cbn; lia..].
Qed.
End Tsc.

(** ** Two vCPUs, the second one 5 ticks behind *)
Module TscDemo.
Import Timers Tsc.

Definition run (l : list (nat * Z)) (s : state) : state := fold_left (fun s '(i, host) => advance true i host s) l s.

Lemma run_steps l s : wr s = Idle -> rtc (step true) s (run l s).
Proof.
  revert s. induction l as [| [i host] l IH]; intros s Hw; [done |].
  eapply rtc_l; [by apply (advance_step true i host) | apply IH; by rewrite advance_wr].
Qed.

Definition s10 : state :=
  run [(0%nat, 10); (0%nat, 10); (0%nat, 10); (0%nat, 10); (0%nat, 10);
       (1%nat, 5); (1%nat, 5); (1%nat, 5); (1%nat, 5); (1%nat, 5)] (started 0).

Definition c0 : call := {| c_thread := 0; c_free := true; c_since := 0; c_value := 10; c_failed := 0; c_updates := 1 |}.
Definition c1 : call := {| c_thread := 1; c_free := true; c_since := 1; c_value := 10; c_failed := 0; c_updates := 0 |}.

Lemma s10_log : log s10 = [c0; c1].
Proof. vm_compute. reflexivity. Qed.

Lemma s10_steps : rtc (step true) init s10.
Proof. etransitivity; [apply (started_steps true 0) | by apply run_steps]. Qed.

Lemma tsc_monotonic_witness :
  log s10 = [c0; c1] /\ c_thread c0 <> c_thread c1 /\ c_value c0 <= c_value c1.
Proof.
  split; [exact s10_log |]. split; [discriminate |].
  exact (proj1 (tsc_monotonic true s10 0 1 c0 c1 s10_steps ltac:(by rewrite s10_log) ltac:(by rewrite s10_log) ltac:(cbn; lia)) eq_refl).
Defined.

Lemma tsc_progress_witness :
  exists n c, (n <= 5)%nat /\ log (advances true n 1 20 s10) = log s10 ++ [c] /\ c_thread c = 1%nat.
Proof.
  destruct (proj2 (tsc_progress true s10 s10_steps) ltac:(vm_compute; reflexivity) 1%nat 20) as (n & c & Hn & _ & Hc & Ht).
  exists n, c. split_and!; assumption.
Defined.

Lemma tsc_keeps_pace_witness : tick_of 0 5 0 10 = (10, 5) /\ 10 + (8 - 5) <= fst (tick_of 0 8 5 10).
Proof. split; [reflexivity | exact (tsc_keeps_pace 0 5 8 0 10 10 ltac:(lia) ltac:(lia) ltac:(lia) ltac:(lia) ltac:(lia) ltac:(lia))]. Defined.

(** Started at 100, stopped at 150, read at 160. *)
Lemma tsc_breaks_at_stop_witness :
  (exists s a b, rtc (step true) init s /\ log s = [a; b] /\ c_since b = 1%nat /\ c_value a = 60 /\ c_value b = 50 /\
     c_value b < c_value a) /\
  (exists s a, rtc (step true) init s /\ log s = [a] /\ c_value a = 210 /\ ticks_max s = c_value a).
Proof. exact (tsc_breaks_at_stop 100 150 160 ltac:(lia) ltac:(lia) ltac:(lia) ltac:(lia)). Defined.
End TscDemo.

(** * The virtual clock *)
Module Vm.
Import Timers.

(** ** The sequence lock *)

(** [QemuSeqLock]: one 32-bit counter. *)
Definition seqlock_init : Z := 0.
Definition seqlock_write_begin (sequence : Z) : Z := u32 (sequence + 1).
Definition seqlock_write_end (sequence : Z) : Z := u32 (sequence + 1).
Definition seqlock_read_begin (sequence : Z) : Z := Z.land sequence (u32 (Z.lnot 1)).
Definition seqlock_read_retry (sequence start : Z) : bool := negb (sequence =? start).

(** ** Readers against writers *)

(** A reader in [cpu_get_clock]: outside; with the sequence number it began with
    and the number of writes begun by then; after the load of the offset; after the
    second load and [get_clock]; with its result (and the writes begun at the end). *)
Inductive reader :=
| ROut
| RBegun (start : Z) (writes0 : nat)
| ROffset (start : Z) (writes0 : nat) (off : Z)
| RTime (start : Z) (writes0 : nat) (clock ti : Z)
| RDone (writes0 writes1 : nat) (clock ti : Z).

Record vm := {
  sequence : Z;
  fields : timers;
  wr : writer;
  rd : reader;
  writes : nat;                  (* writes begun *)
  snaps : list timers            (* the fields after each completed write, the initial ones first *)
}.

Inductive vstep : vm -> vm -> Prop :=
| v_write_begin v host clock (enable : bool) :
    wr v = Idle ->
    vstep v {| sequence := seqlock_write_begin (sequence v); fields := fields v;
               wr := Writing (if enable then enable_stores host clock (fields v) else disable_stores host clock (fields v));
               rd := rd v; writes := S (writes v); snaps := snaps v |}
| v_store v f todo :
    wr v = Writing (f :: todo) ->
    vstep v {| sequence := sequence v; fields := f (fields v); wr := Writing todo; rd := rd v;
               writes := writes v; snaps := snaps v |}
| v_write_end v :
    wr v = Writing [] ->
    vstep v {| sequence := seqlock_write_end (sequence v); fields := fields v; wr := Idle; rd := rd v;
               writes := writes v; snaps := snaps v ++ [fields v] |}
| v_read_begin v :
    rd v = ROut ->
    vstep v {| sequence := sequence v; fields := fields v; wr := wr v;
               rd := RBegun (seqlock_read_begin (sequence v)) (writes v); writes := writes v; snaps := snaps v |}
(** [time = cpu_clock_offset] *)
| v_read_offset v start w0 :
    rd v = RBegun start w0 ->
    vstep v {| sequence := sequence v; fields := fields v; wr := wr v;
               rd := ROffset start w0 (cpu_clock_offset (fields v)); writes := writes v; snaps := snaps v |}
(** [if (cpu_ticks_enabled) time += get_clock()] *)
| v_read_enabled v start w0 off clock :
    rd v = ROffset start w0 off ->
    vstep v {| sequence := sequence v; fields := fields v; wr := wr v;
               rd := RTime start w0 clock (if cpu_ticks_enabled (fields v) then s64 (off + clock) else off);
               writes := writes v; snaps := snaps v |}
| v_read_retry v start w0 clock ti :
    rd v = RTime start w0 clock ti -> seqlock_read_retry (sequence v) start = true ->
    vstep v {| sequence := sequence v; fields := fields v; wr := wr v;
               rd := RBegun (seqlock_read_begin (sequence v)) (writes v); writes := writes v; snaps := snaps v |}
| v_read_done v start w0 clock ti :
    rd v = RTime start w0 clock ti -> seqlock_read_retry (sequence v) start = false ->
    vstep v {| sequence := sequence v; fields := fields v; wr := wr v;
               rd := RDone w0 (writes v) clock ti; writes := writes v; snaps := snaps v |}.

Definition vinit (t : timers) : vm :=
  {| sequence := seqlock_init; fields := t; wr := Idle; rd := ROut; writes := 0; snaps := [t] |}.

(** ** Consistent reads *)

(** One whole write. *)
Definition one_write (t t' : timers) : Prop :=
  exists host clock, t' = cpu_enable_ticks host clock t \/ t' = cpu_disable_ticks host clock t.

(** The counter is twice the writes begun, less one inside a write; outside, the
    fields are the last snapshot; inside, the stores left lead to a whole write. *)
Definition writer_ok (v : vm) : Prop :=
  match wr v with
  | Idle => sequence v = u32 (2 * Z.of_nat (writes v)) /\ length (snaps v) = S (writes v) /\
      snaps v !! writes v = Some (fields v)
  | Writing todo => sequence v = u32 (2 * Z.of_nat (writes v) - 1) /\ length (snaps v) = writes v /\
      (0 < writes v)%nat /\
      exists t, snaps v !! (writes v - 1)%nat = Some t /\ one_write t (apply_stores todo (fields v))
  end.

(** What a reader that began with [w0] writes begun relies on: unless a write was
    on then or has begun since, no write is on and its loads are those of the
    present fields. *)
Definition since_ok (v : vm) (start : Z) (w0 : nat) (Q : timers -> Prop) : Prop :=
  (w0 <= writes v)%nat /\
  ((start = u32 (2 * Z.of_nat w0) /\ (writes v = w0 -> wr v = Idle /\ Q (fields v))) \/
   start = u32 (2 * Z.of_nat w0 - 2)).

Definition reader_ok (v : vm) : Prop :=
  match rd v with
  | ROut => True
  | RBegun start w0 => since_ok v start w0 (fun _ => True)
  | ROffset start w0 off => since_ok v start w0 (fun t => off = cpu_clock_offset t)
  | RTime start w0 clock ti => since_ok v start w0 (fun t => ti = cpu_get_clock_locked clock t)
  | RDone w0 w1 clock ti => (w0 <= w1)%nat /\ (Z.of_nat (w1 - w0) < 2 ^ 31 - 1 ->
      exists t, snaps v !! w0 = Some t /\ ti = cpu_get_clock_locked clock t)
  end.

Record vinv (v : vm) : Prop := {
  vi_writer : writer_ok v;
  vi_reader : reader_ok v;
  vi_chain : forall n t t', snaps v !! n = Some t -> snaps v !! S n = Some t' -> one_write t t'
}.

(** [& ~1] clears the lowest bit. *)
Lemma read_begin_spec x : is_u 32 x -> seqlock_read_begin x = 2 * (x / 2).
Proof.
  intros Hx. unfold seqlock_read_begin. change (u32 (Z.lnot 1)) with (Z.ldiff (Z.ones 32) 1).
  rewrite Z.mul_comm. change 2 with (2 ^ 1). rewrite <- Z.shiftr_div_pow2, <- Z.shiftl_mul_pow2 by lia.
  apply Z.bits_inj'. intros i Hi. rewrite Z.land_spec, Z.ldiff_spec, testbit_ones, testbit_shiftl by lia.
  destruct (Z.eq_dec i 0) as [-> | H0].
  - change (Z.testbit 1 0) with true. cbn [negb]. rewrite !andb_false_r. symmetry. apply Z.testbit_neg_r. lia.
  - rewrite testbit_shiftr by lia. replace (i - 1 + 1) with i by lia.
    replace (Z.testbit 1 i) with false by (symmetry; apply (testbit_is_u 1); [done | lia]).
    destruct (Z.ltb_spec i 32); cbn; [by rewrite andb_true_r |].
    by rewrite andb_false_r, (testbit_is_u 32 x i) by (done || lia).
Qed.

Lemma u32_double w : u32 (2 * w) = 2 * (w mod 2 ^ 31).
Proof. unfold uw. change (2 ^ 32) with (2 * 2 ^ 31). by rewrite Z.mul_mod_distr_l by lia. Qed.

Lemma read_begin_idle w : seqlock_read_begin (u32 (2 * w)) = u32 (2 * w).
Proof.
  rewrite read_begin_spec by (apply uw_range; lia). rewrite u32_double, (Z.mul_comm 2 (w mod 2 ^ 31)), Z.div_mul by lia. lia.
Qed.

Lemma read_begin_writing w : seqlock_read_begin (u32 (2 * w - 1)) = u32 (2 * w - 2).
Proof.
  rewrite read_begin_spec by (apply uw_range; lia). replace (2 * w - 2) with (2 * (w - 1)) by lia. rewrite u32_double.
  assert (E : u32 (2 * w - 1) = 2 * ((w - 1) mod 2 ^ 31) + 1).
  { unfold uw. symmetry. apply (Z.mod_unique_pos _ _ ((w - 1) / 2 ^ 31)).
    - pose proof (Z.mod_pos_bound (w - 1) (2 ^ 31) ltac:(lia)). lia.
    - pose proof (Z.div_mod (w - 1) (2 ^ 31) ltac:(lia)). lia. }
  rewrite E. f_equal. symmetry. apply (Z.div_unique_pos _ _ _ 1); lia.
Qed.

(** The counter is the start value only when no write began in between (fewer
    than 2^31 - 1 did). *)
Lemma no_retry (w w0 : Z) (b : bool) : 0 <= w - w0 < 2 ^ 31 - 1 ->
  u32 (2 * w) = u32 (2 * w0 - (if b then 2 else 0)) -> w = w0 /\ b = false.
Proof.
  intros Hw E. assert (E' : u32 (2 * w) = u32 (2 * (w0 - b2z b))).
  { rewrite E. f_equal. destruct b; cbn; lia. }
  rewrite !u32_double in E'. apply Z.mul_cancel_l in E'; [| lia].
  assert (Hz : (w - (w0 - b2z b)) mod 2 ^ 31 = 0) by (rewrite Zminus_mod, E', Z.sub_diag; done).
  destruct b; cbn [b2z] in Hz; rewrite Z.mod_small in Hz by lia; lia || (split; [lia | done]).
Qed.

(** Readers survive what writers do. *)
Lemma since_ok_frame v v' start w0 Q :
  (writes v <= writes v')%nat ->
  (writes v' = w0 -> writes v = w0 -> wr v = Idle -> wr v' = Idle /\ fields v' = fields v) ->
  since_ok v start w0 Q -> since_ok v' start w0 Q.
Proof.
  intros Hw Hf [H1 H2]. split; [lia |]. destruct H2 as [[-> H2] | ->]; [left | by right].
  split; [done |]. intros E. destruct (H2 ltac:(lia)) as [Hi HQ]. destruct (Hf E ltac:(lia) Hi) as [Hi' ->]. done.
Qed.

Lemma reader_ok_frame v v' :
  (writes v <= writes v')%nat -> rd v' = rd v -> (exists l, snaps v' = snaps v ++ l) ->
  (forall w0, writes v' = w0 -> writes v = w0 -> wr v = Idle -> wr v' = Idle /\ fields v' = fields v) ->
  reader_ok v -> reader_ok v'.
Proof.
  intros Hw Hrd [l Hl] Hf. unfold reader_ok. rewrite Hrd.
  destruct (rd v); [done | by apply since_ok_frame, Hf | by apply since_ok_frame, Hf | by apply since_ok_frame, Hf |].
  intros [H1 H2]. split; [done |]. intros H. destruct (H2 H) as (t & Ht & E). exists t. split; [| done].
  rewrite Hl. by apply lookup_app_l_Some.
Qed.

Lemma begin_ok v : writer_ok v -> since_ok v (seqlock_read_begin (sequence v)) (writes v) (fun _ => True).
Proof.
  unfold writer_ok, since_ok. intros H. split; [done |]. destruct (wr v) as [| todo].
  - left. destruct H as (-> & _). split; [apply read_begin_idle | done].
  - right. destruct H as (-> & _). apply read_begin_writing.
Qed.

Lemma vinit_inv t : vinv (vinit t).
Proof. split; [by repeat split | done |]. by intros [| n] t1 t2; cbn. Qed.

Lemma vstep_inv v v' : vinv v -> vstep v v' -> vinv v'.
Proof.
  intros [Hw Hr Hc] Hs. destruct Hs as [v host clock enable E | v f todo E | v E | v E | v start w0 E
    | v start w0 off clock E | v start w0 clock ti E Er | v start w0 clock ti E Er].
  - (* a write begins *)
    unfold writer_ok in Hw. rewrite E in Hw. destruct Hw as (Hseq & Hlen & Hsn). split; [| | done].
    + unfold writer_ok. cbn. split_and!; [| done | lia |].
      * unfold seqlock_write_begin. rewrite Hseq, uw_add_idemp_l. f_equal. lia.
      * exists (fields v). split; [by rewrite Nat.sub_0_r |]. exists host, clock. by destruct enable; [left | right].
    + apply (reader_ok_frame v); [| done | by exists []; rewrite app_nil_r | | exact Hr]; cbn; lia.
  - (* a store *)
    unfold writer_ok in Hw. rewrite E in Hw. destruct Hw as (Hseq & Hlen & Hpos & t & Ht & Hone). split; [| | done].
    + unfold writer_ok. cbn. by split_and!; [| | | exists t].
    + apply (reader_ok_frame v); [done | done | by exists []; rewrite app_nil_r | | exact Hr]. intros w0 _ _ E'. congruence.
  - (* a write ends *)
    unfold writer_ok in Hw. rewrite E in Hw. destruct Hw as (Hseq & Hlen & Hpos & t & Ht & Hone). split.
    + unfold writer_ok. cbn. split_and!.
      * unfold seqlock_write_end. rewrite Hseq, uw_add_idemp_l. f_equal. lia.
      * rewrite length_app. cbn. lia.
      * rewrite lookup_app_r, Hlen by lia. by rewrite Nat.sub_diag.
    + apply (reader_ok_frame v); [done | done | by eexists | | exact Hr]. intros w0 _ _ E'. congruence.
    + cbn. intros n t1 t2 H1%lookup_snoc_Some H2%lookup_snoc_Some.
      destruct H2 as [[H2' H2] | [H2' <-]]; [destruct H1 as [[_ H1] | [H1 _]]; [by eapply Hc | lia] |].
      destruct H1 as [[_ H1] | [H1 _]]; [| lia]. replace (writes v - 1)%nat with n in Ht by lia. by simplify_eq.
  - split; [exact Hw | exact (begin_ok v Hw) | exact Hc].
  - unfold reader_ok in Hr. rewrite E in Hr. destruct Hr as [H1 H2]. split; [exact Hw | | exact Hc].
    split; [done |]. destruct H2 as [[-> H2] | ->]; [left | by right]. split; [done |]. cbn. intros E'. by destruct (H2 E').
  - unfold reader_ok in Hr. rewrite E in Hr. destruct Hr as [H1 H2]. split; [exact Hw | | exact Hc].
    split; [done |]. destruct H2 as [[-> H2] | ->]; [left | by right]. split; [done |]. cbn. intros E'.
    destruct (H2 E') as [Hi ->]. done.
  - split; [exact Hw | exact (begin_ok v Hw) | exact Hc].
  - unfold reader_ok in Hr. rewrite E in Hr. destruct Hr as [H1 H2]. split; [exact Hw | | exact Hc].
    split; [done |]. cbn [writes snaps]. intros Hfew. unfold seqlock_read_retry in Er. apply negb_false_iff, Z.eqb_eq in Er.
    unfold writer_ok in Hw. destruct (wr v) as [| todo] eqn:Ew.
    + destruct Hw as (Hseq & Hlen & Hsn).
      destruct H2 as [[-> H2] | ->].
      * destruct (no_retry (Z.of_nat (writes v)) (Z.of_nat w0) false) as [Eq _]; [lia | cbn; rewrite Z.sub_0_r; congruence |].
        apply Nat2Z.inj in Eq. destruct (H2 Eq) as [_ HQ]. exists (fields v). by rewrite <- Eq.
      * destruct (no_retry (Z.of_nat (writes v)) (Z.of_nat w0) true) as [_ Eq]; [lia | cbn; congruence | done].
    + destruct Hw as (Hseq & _). exfalso.
      assert (Hev : exists k, start = 2 * k).
      { destruct H2 as [[-> _] | ->]; [| replace (2 * Z.of_nat w0 - 2) with (2 * (Z.of_nat w0 - 1)) by lia];
          rewrite u32_double; by eexists. }
      destruct Hev as [k ->]. rewrite Er in Hseq. unfold uw in Hseq.
      pose proof (Z.div_mod (2 * Z.of_nat (writes v) - 1) (2 ^ 32) ltac:(lia)) as Hd. rewrite <- Hseq in Hd. lia.
Qed.

Lemma vsteps_inv t v : rtc vstep (vinit t) v -> vinv v.
Proof.
  intros H. assert (Hg : forall v0, rtc vstep v0 v -> vinv v0 -> vinv v).
  { clear H. intros v0 H. induction H as [| x y z Hxy _ IH]; [done |]. intros Hx. by apply IH, (vstep_inv x). }
  by eapply Hg, vinit_inv.
Qed.

(** C31: the virtual clock is never read torn.  A completed [cpu_get_clock], with
    [cpu_enable_ticks] and [cpu_disable_ticks] running at any points in between
    (fewer than 2^31 - 1 of them during the call, so that the counter cannot come
    round), returned the clock as it is after some number of whole writes, never a
    mixture of an old offset with a new enabled flag. *)
Theorem vm_clock_consistent (t0 : timers) (v : vm) (w0 w1 : nat) (clock ti : Z)
  (Hrun : rtc vstep (vinit t0) v) (Hdone : rd v = RDone w0 w1 clock ti)
  (Hfew : Z.of_nat (w1 - w0) < 2 ^ 31 - 1) :
  (exists t, snaps v !! w0 = Some t /\ ti = cpu_get_clock_locked clock t) /\
  (forall n t t', snaps v !! n = Some t -> snaps v !! S n = Some t' -> one_write t t').
Proof.
  destruct (vsteps_inv t0 v Hrun) as [_ Hr Hc]. split; [| exact Hc].
  unfold reader_ok in Hr. rewrite Hdone in Hr. by apply Hr.
Qed.

(** stopping and starting the machine stops and resumes its clock.  After
    [cpu_disable_ticks] every reading is the one at that moment; after the
    following [cpu_enable_ticks] the clock goes on from there with the time passed
    since; doing either twice changes nothing. *)
Theorem vm_clock_pauses (t : timers) (host clock host2 clock2 : Z) (Hen : cpu_ticks_enabled t = true) :
  let stopped := cpu_disable_ticks host clock t in
  let resumed := cpu_enable_ticks host2 clock2 stopped in
  (forall c, cpu_get_clock_locked c stopped = cpu_get_clock_locked clock t) /\
  (forall c, cpu_get_clock_locked c resumed = s64 (cpu_get_clock_locked clock t + (c - clock2))) /\
  cpu_ticks_enabled resumed = true /\
  (forall h c, cpu_disable_ticks h c stopped = stopped /\ cpu_enable_ticks h c resumed = resumed).
Proof.
  unfold cpu_disable_ticks, cpu_enable_ticks, disable_stores, enable_stores. rewrite Hen. cbn.
  split_and!; [done | | done | done]. intros c. unfold cpu_get_clock_locked. cbn. rewrite Hen.
  assert (Hs : forall x y, s64 (s64 x + y) = s64 (x + y)).
  { intros x y. rewrite <- (sw_uw 64 (s64 x + y)), <- uw_add_idemp_l, uw_sw, uw_add_idemp_l, sw_uw by lia. done. }
  rewrite !Hs. replace (s64 (cpu_clock_offset t + clock) - clock2 + c) with (s64 (cpu_clock_offset t + clock) + (c - clock2)) by lia.
  by rewrite Hs.
Qed.
End Vm.

(** ** A read with a write in the middle *)
Module VmDemo.
Import Timers Vm.

Definition t0 : timers :=
  {| cpu_ticks_prev := 0; cpu_ticks_offset := 0; cpu_ticks_enabled := false; cpu_clock_offset := 1000 |}.
Definition t1 : timers := cpu_enable_ticks 7 600 t0.

(** The reader loads the old offset, the machine is started, the reader sees the
    new flag and retries; its second pass completes. *)
Definition v_end : vm :=
  {| sequence := 2; fields := t1; wr := Idle; rd := RDone 1 1 650 1050; writes := 1; snaps := [t0; t1] |}.

Lemma vstep_to v v' v'' : vstep v v' -> v' = v'' -> vstep v v''.
Proof. by intros H <-. Qed.

Ltac next c := eapply rtc_l; [eapply vstep_to; [eapply c; reflexivity | vm_compute; reflexivity] |].

Lemma demo_run : rtc vstep (vinit t0) v_end.
Proof.
  next v_read_begin. next v_read_offset.
  next (fun v => v_write_begin v 7 600 true). next v_store. next v_store. next v_store.
  next (fun v start w0 off => v_read_enabled v start w0 off 640). next v_write_end.
  next v_read_retry. next v_read_offset. next (fun v start w0 off => v_read_enabled v start w0 off 650).
  next v_read_done. apply rtc_refl.
Qed.

Lemma vm_clock_consistent_witness :
  rd v_end = RDone 1 1 650 1050 /\
  exists t, snaps v_end !! 1%nat = Some t /\ 1050 = cpu_get_clock_locked 650 t.
Proof.
  split; [reflexivity |]. exact (proj1 (vm_clock_consistent t0 v_end 1 1 650 1050 demo_run eq_refl ltac:(lia))).
Defined.

Lemma vm_clock_pauses_witness :
  cpu_ticks_enabled t1 = true /\ forall c, cpu_get_clock_locked c (cpu_disable_ticks 9 700 t1) = 1100.
Proof. split; [reflexivity |]. exact (proj1 (vm_clock_pauses t1 9 700 0 0 eq_refl)). Defined.
End VmDemo.
