(* ===== verification/WasmModule.v ===== *)
(** * The wasm module of a block

    The compiled half of a translation block is a WebAssembly module written into
    the code buffer behind the interpreter words: tables of the helpers the code
    calls are collected while the body is generated (tcg/tcg.c from
    [tcg_sub_out8] on, [gen_func_type] of tcg/wasm32/tcg-target.c.inc), and the
    end of [tcg_gen_code] assembles sections around the body, with lengths filled
    into five-byte placeholders.

    [read_module] is the reader of the format, after the WebAssembly core
    specification (binary format), for the sections and types that occur here;
    [meant] is the module intended.  The theorems are in ModuleReads. *)
From S2P Require Import Prelude BitOps HostUtils.

(** ** Variable-length integers *)

(** [fill_uint32_leb128] at offset [off] of a buffer; a 32-bit value needs at most
    five rounds. *)
Fixpoint leb_fill_loop (fuel : nat) (v : Z) (b : list Z) : list Z :=
  match fuel, b with
  | S fuel, x :: b =>
      Z.lor x (Z.land v 0x7f) :: (let v := Z.shiftr v 7 in if v =? 0 then b else leb_fill_loop fuel v b)
  | _, _ => b
  end.

Definition fill_uint32_leb128 (off : nat) (v : Z) (b : list Z) : list Z :=
  take off b ++ leb_fill_loop 5 v (drop off b).

Fixpoint leb_write_loop (fuel : nat) (v : Z) : list Z :=
  match fuel with
  | O => []
  | S fuel =>
      let b := Z.land v 0x7f in
      let v := Z.shiftr v 7 in
      if v =? 0 then [b] else Z.lor b 0x80 :: leb_write_loop fuel v
  end.

Definition write_uint32_leb128 (v : Z) : list Z := leb_write_loop 5 v.

(** ** The helper tables *)

Definition WASM_NUM_HELPER_FUNCS_MAX : Z := 200.
Definition WASM_HELPER_TYPE_MAX_BYTES : Z := 16.
Definition WASM_HELPER_ADDED_TYPES_SECTION_MAX : Z :=
  (WASM_NUM_HELPER_FUNCS_MAX + 1) * WASM_HELPER_TYPE_MAX_BYTES.
Definition SUB_BUF_MAX : Z := 100000.

(** The entries in use: [num_helper_funcs] and [target_helper_types_pos] are the
    lengths. *)
Record htab := {
  target_helper_funcs : list Z;
  target_helper_types : list Z
}.

Definition num_helper_funcs (h : htab) : Z := Z.of_nat (length (target_helper_funcs h)).
Definition target_helper_types_pos (h : htab) : Z := Z.of_nat (length (target_helper_types h)).

(** The tables at the start of [tcg_gen_code]. *)
Definition htab_init : htab := {| target_helper_funcs := []; target_helper_types := [] |}.

(** Generation goes on, is abandoned ([tcg_raise_tb_overflow]: the block is
    translated again with fewer instructions), or an assertion fails. *)
Inductive gres (A : Type) := GOk (a : A) | GOverflow | GAssert.
Arguments GOk {A}. Arguments GOverflow {A}. Arguments GAssert {A}.

Definition gbind {A B} (x : gres A) (f : A -> gres B) : gres B :=
  match x with GOk a => f a | GOverflow => GOverflow | GAssert => GAssert end.

(** [tcg_sub_out8]: one byte of the body. *)
Definition tcg_sub_out8 (v : Z) (sub : list Z) : gres (list Z) :=
  if SUB_BUF_MAX <? Z.of_nat (length sub) + 1 then GOverflow else GOk (sub ++ [u8 v]).

Definition dh_typecode_void : Z := 0.
Definition dh_typecode_i32 : Z := 2.
Definition dh_typecode_s32 : Z := 3.
Definition dh_typecode_i64 : Z := 4.
Definition dh_typecode_s64 : Z := 5.
Definition dh_typecode_ptr : Z := 6.
Definition dh_typecode_i128 : Z := 7.

(** The value types of the parameters [j], [j + 1], ... of a helper. *)
Fixpoint param_types (n : nat) (j typemask : Z) : option (list Z) :=
  match n with
  | O => Some []
  | S n =>
      let typecode := extract32 typemask ((j + 1) * 3) 3 in
      if typecode =? dh_typecode_void then param_types n (j + 1) typemask
      else if (typecode =? dh_typecode_i32) || (typecode =? dh_typecode_s32) || (typecode =? dh_typecode_ptr)
      then cons 0x7f <$> param_types n (j + 1) typemask
      else if (typecode =? dh_typecode_i64) || (typecode =? dh_typecode_s64)
      then cons 0x7e <$> param_types n (j + 1) typemask
      else if typecode =? dh_typecode_i128
      then cons 0x7f <$> param_types n (j + 1) typemask
      else None
  end.

Definition result_types (rettype : Z) : option (list Z) :=
  if (rettype =? dh_typecode_void) || (rettype =? dh_typecode_i128) then Some [0x0]
  else if (rettype =? dh_typecode_i32) || (rettype =? dh_typecode_s32) || (rettype =? dh_typecode_ptr)
  then Some [0x1; 0x7f]
  else if (rettype =? dh_typecode_i64) || (rettype =? dh_typecode_s64) then Some [0x1; 0x7e]
  else None.

Definition nargs_of (typemask : Z) : Z := (32 - clz32 (Z.shiftr typemask 3) + 2) / 3.

(** [gen_func_type]: the signature, its parameter count filled in last. *)
Definition gen_func_type (typemask : Z) : option (list Z) :=
  let rettype := Z.land typemask 7 in
  ps ← param_types (Z.to_nat (nargs_of typemask)) 0 typemask;
  let ps := if rettype =? dh_typecode_i128 then 0x7f :: ps else ps in
  r ← result_types rettype;
  Some (fill_uint32_leb128 1 (Z.of_nat (length ps)) ([0x60; 0] ++ ps) ++ r).

Definition gen_func_type_qemu_ld : list Z := [0x60; 0x4; 0x7f; 0x7e; 0x7f; 0x7f; 0x1; 0x7e].

(** [is_64]: the access is of 64 bits ([MO_UQ]). *)
Definition gen_func_type_qemu_st (is_64 : bool) : list Z :=
  [0x60; 0x5; 0x7f; 0x7e; if is_64 then 0x7e else 0x7f; 0x7f; 0x7f; 0x0].

(** What is called: a helper with its type mask, or the slow path of a guest load
    or store. *)
Inductive callee := Helper (typemask : Z) | LoadSlow | StoreSlow (is_64 : bool).

Definition callee_type (c : callee) : option (list Z) :=
  match c with
  | Helper typemask => gen_func_type typemask
  | LoadSlow => Some gen_func_type_qemu_ld
  | StoreSlow is_64 => Some (gen_func_type_qemu_st is_64)
  end.

(** [get_wasm_helper_idx]; -1 when the helper is not in the table. *)
Fixpoint helper_idx_from (i : Z) (l : list Z) (helper : Z) : Z :=
  match l with
  | [] => -1
  | f :: l => if f =? helper then i else helper_idx_from (i + 1) l helper
  end.

Definition get_wasm_helper_idx (h : htab) (helper : Z) : Z := helper_idx_from 0 (target_helper_funcs h) helper.

(** [wasm_register_helper_alloc_num] and [wasm_register_helper]. *)
Definition wasm_register_helper (helper : Z) (h : htab) : gres (Z * htab) :=
  if WASM_NUM_HELPER_FUNCS_MAX <=? num_helper_funcs h then GOverflow
  else GOk (num_helper_funcs h,
            {| target_helper_funcs := target_helper_funcs h ++ [helper];
               target_helper_types := target_helper_types h |}).

(** [wasm_get_helper_types_begin], the signature, [wasm_add_helper_types_pos]. *)
Definition add_helper_type (c : callee) (h : htab) : gres htab :=
  if WASM_HELPER_ADDED_TYPES_SECTION_MAX <? target_helper_types_pos h + WASM_HELPER_TYPE_MAX_BYTES then GOverflow
  else match callee_type c with
       | None => GAssert
       | Some t => GOk {| target_helper_funcs := target_helper_funcs h;
                          target_helper_types := target_helper_types h ++ t |}
       end.

(** At every call: the helper's index, registered at its first use. *)
Definition use_helper (helper : Z) (c : callee) (h : htab) : gres (Z * htab) :=
  let func_idx := get_wasm_helper_idx h helper in
  if func_idx <? 0 then
    gbind (wasm_register_helper helper h) (fun '(func_idx, h) =>
    gbind (add_helper_type c h) (fun h => GOk (func_idx, h)))
  else GOk (func_idx, h).

(** ** The parts of the module *)

Definition ENV_OFF : Z := 0.
Definition STACK_OFF : Z := 4.
Definition TB_PTR_OFF : Z := 8.
Definition DO_INIT_OFF : Z := 16.
Definition EXPORT_VEC_OFF_OFF : Z := 32.
Definition RL (r : Z) : Z := 8 + r.

Definition mod_header_a : list Z :=
  [0x0; 0x61; 0x73; 0x6d; 0x01; 0x0; 0x0; 0x0; 0x01; 0x80; 0x80; 0x80; 0x80; 0x00; 0x80; 0x80;
   0x80; 0x80; 0x00; 0x60; 0x01; 0x7f; 0x01; 0x7f].

Definition mod_header_b : list Z :=
  [0x02; 0x80; 0x80; 0x80; 0x80; 0x00; 0x80; 0x80; 0x80; 0x80; 0x00; 0x03; 0x65; 0x6e; 0x76; 0x06;
   0x62; 0x75; 0x66; 0x66; 0x65; 0x72; 0x02; 0x03; 0x00; 0x80; 0x80; 0x80; 0x80; 0x00; 0x03;
   0x65; 0x6e; 0x76; 0x05; 0x74; 0x61; 0x62; 0x6c; 0x65; 0x01; 0x70; 0x00; 0x00].

Definition WASM_HEADER_B_NONFUNC_IMPORTS : Z := 2.

Definition mod_header_c : list Z :=
  [0x03; 2; 1; 0x00; 0x06; 0x7e; 25; 0x7e; 0x01; 0x42; 0x00; 0x0b; 0x7e; 0x01; 0x42; 0x00; 0x0b;
   0x7e; 0x01; 0x42; 0x00; 0x0b; 0x7e; 0x01; 0x42; 0x00; 0x0b; 0x7e; 0x01; 0x42; 0x00; 0x0b;
   0x7e; 0x01; 0x42; 0x00; 0x0b; 0x7e; 0x01; 0x42; 0x00; 0x0b; 0x7e; 0x01; 0x42; 0x00; 0x0b;
   0x7e; 0x01; 0x42; 0x00; 0x0b; 0x7e; 0x01; 0x42; 0x00; 0x0b; 0x7e; 0x01; 0x42; 0x00; 0x0b;
   0x7e; 0x01; 0x42; 0x00; 0x0b; 0x7e; 0x01; 0x42; 0x00; 0x0b; 0x7e; 0x01; 0x42; 0x00; 0x0b;
   0x7e; 0x01; 0x42; 0x00; 0x0b; 0x7e; 0x01; 0x42; 0x00; 0x0b; 0x7e; 0x01; 0x42; 0x00; 0x0b;
   0x7e; 0x01; 0x42; 0x00; 0x0b; 0x7e; 0x01; 0x42; 0x00; 0x0b; 0x7e; 0x01; 0x42; 0x00; 0x0b;
   0x7e; 0x01; 0x42; 0x00; 0x0b; 0x7e; 0x01; 0x42; 0x00; 0x0b; 0x7e; 0x01; 0x42; 0x00; 0x0b;
   0x7e; 0x01; 0x42; 0x00; 0x0b; 0x7e; 0x01; 0x42; 0x00; 0x0b; 0x07; 13; 1; 0x05; 0x73; 0x74;
   0x61; 0x72; 0x74; 0x00; 0x80; 0x80; 0x80; 0x80; 0x00].

Definition mod_header_d : list Z :=
  [0x0a; 0x80; 0x80; 0x80; 0x80; 0x00; 0x80; 0x80; 0x80; 0x80; 0x00; 0x80; 0x80; 0x80; 0x80; 0x00;
   0x2; 0x2; 0x7f; 0x5; 0x7e; 0x20; 0x0; 0x28; 0; DO_INIT_OFF; 0x41; 0; 0x47; 0x04; 0x40; 0x23;
   14; 0x50; 0x04; 0x40; 0x20; 0x0; 0x28; 0; ENV_OFF; 0xad; 0x24; 14; 0x20; 0x0; 0x28; 0;
   STACK_OFF; 0xad; 0x24; 15; 0x0b; 0x20; 0x0; 0x41; 0x00; 0x36; 0x00; DO_INIT_OFF; 0x42; 0x00;
   0x24; 16; 0x0b; 0x03; 0x40; 0x23; 16; 0x50; 0x04; 0x40].

Definition mod_header_d_sizes : list Z :=
  [0x0a; 0x80; 0x80; 0x80; 0x80; 0x00; 0x80; 0x80; 0x80; 0x80; 0x00; 0x80; 0x80; 0x80; 0x80; 0x00].

Definition mod_header_d_locals : list Z :=
  [0x2; 0x2; 0x7f; 22; 0x7e].

Definition mod_header_d_locals_fp : list Z :=
  [0x5; 0x2; 0x7f; 22; 0x7e; 3; 0x7d; 3; 0x7c; 3; 0x7b].

Definition mod_header_d_loc_a : list Z :=
  [0x20; 0x0; 0x28; 0; ENV_OFF; 0xad; 0x21; RL 14; 0x20; 0x0; 0x28; 0; STACK_OFF; 0xad; 0x21;
   RL 15; 0x20; 0x0; 0x28; 0; DO_INIT_OFF; 0x04; 0x40; 0x20; 0x0; 0x41; 0x00; 0x36; 0x00;
   DO_INIT_OFF; 0x05].

Definition WASM_THIS_TB_LEB_POS : nat := 6.

Definition mod_header_d_loc_chain : list Z :=
  [0x20; 0x0; 0x28; 0; TB_PTR_OFF; 0x41; 0x80; 0x80; 0x80; 0x80; 0x00; 0x47; 0x04; 0x40; 0x20;
   0x0; 0x20; 0x0; 0x28; 0; TB_PTR_OFF; 0x20; 0x0; 0x28; 0; EXPORT_VEC_OFF_OFF; 0x6a; 0x28; 0;
   0; 0x22; 1; 0x45; 0x04; 0x40; 0x00; 0x0b; 0x20; 1; 0x28; 0; 0; 0x20; 0x0; 0x28; 0;
   TB_PTR_OFF; 0x47; 0x04; 0x40; 0x00; 0x0b; 0x20; 1; 0x28; 0; 4; 0x13; 0x00; 0x00; 0x0b].

Definition mod_header_d_loc_chain_nested : list Z :=
  [0x20; 0x0; 0x28; 0; TB_PTR_OFF; 0x41; 0x80; 0x80; 0x80; 0x80; 0x00; 0x47; 0x04; 0x40; 0x20;
   0x0; 0x20; 0x0; 0x28; 0; TB_PTR_OFF; 0x20; 0x0; 0x28; 0; EXPORT_VEC_OFF_OFF; 0x6a; 0x28; 0;
   0; 0x22; 1; 0x45; 0x04; 0x40; 0x00; 0x0b; 0x20; 1; 0x28; 0; 0; 0x20; 0x0; 0x28; 0;
   TB_PTR_OFF; 0x47; 0x04; 0x40; 0x00; 0x0b; 0x20; 1; 0x28; 0; 4; 0x11; 0x00; 0x00; 0x0f; 0x0b].

Definition mod_header_d_loc_b : list Z :=
  [0x23; 16; 0x21; 24; 0x23; 0; 0x21; RL 0; 0x23; 1; 0x21; RL 1; 0x23; 2; 0x21; RL 2; 0x23; 3;
   0x21; RL 3; 0x23; 4; 0x21; RL 4; 0x23; 5; 0x21; RL 5; 0x23; 6; 0x21; RL 6; 0x23; 7; 0x21;
   RL 7; 0x23; 8; 0x21; RL 8; 0x23; 9; 0x21; RL 9; 0x23; 10; 0x21; RL 10; 0x23; 11; 0x21; RL 11;
   0x23; 12; 0x21; RL 12; 0x23; 13; 0x21; RL 13; 0x0b; 0x03; 0x40; 0x20; 24; 0x50; 0x04; 0x40].

(** The settings the generated code depends on. *)
Record wmode := {
  wasm_reg_locals : bool;
  wasm_fp_locals : bool;
  wasm_tail_chain : bool;
  wasm_chain_nested : bool
}.

Definition size (b : list Z) : Z := Z.of_nat (length b).

Definition wasm_header_d_size (m : wmode) : Z :=
  if negb (wasm_reg_locals m) then size mod_header_d
  else size mod_header_d_sizes +
       (if wasm_fp_locals m then size mod_header_d_locals_fp else size mod_header_d_locals) +
       size mod_header_d_loc_a +
       (if wasm_tail_chain m
        then if wasm_chain_nested m then size mod_header_d_loc_chain_nested else size mod_header_d_loc_chain
        else 0) +
       size mod_header_d_loc_b.

(** The chain check with this block's address as a five-byte signed operand. *)
Definition chain_with (chain : list Z) (this_tb : Z) : list Z :=
  let v := s32 this_tb in
  let leb := [Z.lor (Z.land v 0x7f) 0x80; Z.lor (Z.land (Z.shiftr v 7) 0x7f) 0x80;
              Z.lor (Z.land (Z.shiftr v 14) 0x7f) 0x80; Z.lor (Z.land (Z.shiftr v 21) 0x7f) 0x80;
              Z.land (Z.shiftr v 28) 0x7f] in
  take WASM_THIS_TB_LEB_POS chain ++ leb ++ drop (WASM_THIS_TB_LEB_POS + 5) chain.

Definition wasm_write_header_d (m : wmode) (this_tb : Z) : list Z :=
  if negb (wasm_reg_locals m) then mod_header_d
  else mod_header_d_sizes ++
       (if wasm_fp_locals m then mod_header_d_locals_fp else mod_header_d_locals) ++
       mod_header_d_loc_a ++
       (if wasm_tail_chain m
        then chain_with (if wasm_chain_nested m then mod_header_d_loc_chain_nested else mod_header_d_loc_chain) this_tb
        else []) ++
       mod_header_d_loc_b.

(** [snprintf] with ["%d"]: at most ten digits. *)
Fixpoint decimal (fuel : nat) (i : Z) : list Z :=
  match fuel with
  | O => []
  | S fuel => if i <? 10 then [48 + i] else decimal fuel (i / 10) ++ [48 + i mod 10]
  end.

Definition tcg_out_import_entry (i typeidx : Z) : list Z :=
  let buf := decimal 10 i in
  [6; 0x68; 0x65; 0x6c; 0x70; 0x65; 0x72] ++ write_uint32_leb128 (size buf) ++ buf ++ [0x00; u8 typeidx].

Definition import_entries (n : Z) : list Z :=
  concat ((fun i => tcg_out_import_entry (Z.of_nat i) (Z.of_nat i + 1)) <$> seq 0 (Z.to_nat n)).

(** The size fields; [base] is where the header starts in the blob. *)
Definition write_wasm_type_section_size (base : nat) (added num : Z) (b : list Z) : list Z :=
  fill_uint32_leb128 (base + 14) (u32 (num + 1)) (fill_uint32_leb128 (base + 9) (u32 (added + 10)) b).

Definition write_wasm_import_section_size (base : nat) (added num : Z) (b : list Z) : list Z :=
  fill_uint32_leb128 (base + 6) (u32 (num + WASM_HEADER_B_NONFUNC_IMPORTS))
    (fill_uint32_leb128 (base + 1) (u32 (size mod_header_b - 6 + added)) b).

Definition write_wasm_memory_size (base : nat) (b : list Z) : list Z :=
  fill_uint32_leb128 (base + 25) ((2 ^ 32 - 1) / 65536) b.

Definition write_wasm_export_section_size (base : nat) (startidx : Z) (b : list Z) : list Z :=
  fill_uint32_leb128 (base + 142) startidx b.

Definition write_wasm_code_size (base : nat) (code_size code_nums header_d_size : Z) (b : list Z) : list Z :=
  let code_size := u32 (code_size + header_d_size - 6) in
  fill_uint32_leb128 (base + 11) (u32 (code_size - 10))
    (fill_uint32_leb128 (base + 6) code_nums (fill_uint32_leb128 (base + 1) code_size b)).

(** ** The end of [tcg_gen_code] *)

Definition le32 (v : Z) : list Z := [u8 v; u8 (Z.shiftr v 8); u8 (Z.shiftr v 16); u8 (Z.shiftr v 24)].

(** The bytes from [s->code_ptr] on, or a failure (the value -1) with the number of
    bytes written before it. *)
Inductive tail := Written (b : list Z) | TooLong (written : Z).

Section Tail.
(** The address the bytes go to, and the high-water mark. *)
Context (code_ptr highwater : Z).

Definition room (b : list Z) (n : Z) (k : tail) : tail :=
  if highwater <? code_ptr + size b + n then TooLong (size b) else k.

Definition wasm_tail (bb_lazy_wasm regen : bool) (m : wmode) (this_tb : Z) (h : htab) (sub_buf : list Z) : tail :=
  if bb_lazy_wasm && negb regen then room [] 8 (Written (le32 0 ++ le32 0))
  else
  let num := num_helper_funcs h in
  (* four bytes are left for the size *)
  let b := le32 0 in
  room b (size mod_header_a + target_helper_types_pos h) (
  let header_a_base := length b in
  let b := b ++ mod_header_a ++ target_helper_types h in
  let b := write_wasm_type_section_size header_a_base (target_helper_types_pos h) num b in
  room b (size mod_header_b) (
  let header_b_base := length b in
  let b := b ++ mod_header_b ++ import_entries num in
  let b := write_wasm_import_section_size header_b_base (size (import_entries num)) num b in
  let b := write_wasm_memory_size header_b_base b in
  room b (size mod_header_c) (
  let header_c_base := length b in
  let b := b ++ mod_header_c in
  let b := write_wasm_export_section_size header_c_base num b in
  room b (wasm_header_d_size m) (
  let header_d_ptr := length b in
  let b := b ++ wasm_write_header_d m this_tb in
  let b := write_wasm_code_size header_d_ptr (size sub_buf) 1 (wasm_header_d_size m) b in
  room b (size sub_buf) (
  let b := b ++ sub_buf in
  let b := le32 (size b - 4) ++ drop 4 b in
  room b (4 + num * 4) (
  let b := b ++ le32 (num * 4) ++ concat (le32 <$> target_helper_funcs h) in
  room b 0 (Written b))))))).
End Tail.

(** ** The binary format *)

(** An unsigned integer of at most [bits] bits, in at most [k] bytes. *)
Fixpoint read_unsigned (k : nat) (bits : Z) (l : list Z) : option (Z * list Z) :=
  match k, l with
  | S k, b :: l =>
      if b <? 128 then if b <? 2 ^ bits then Some (b, l) else None
      else '(m, l) ← read_unsigned k (bits - 7) l; Some (b - 128 + 128 * m, l)
  | _, _ => None
  end.

Definition read_u32 : list Z -> option (Z * list Z) := read_unsigned 5 32.

(** A signed integer of [bits] bits: bit 6 of the last byte is the sign. *)
Fixpoint read_signed (k : nat) (bits : Z) (l : list Z) : option (Z * list Z) :=
  match k, l with
  | S k, b :: l =>
      if b <? 128 then
        let n := if b <? 64 then b else b - 128 in
        if (- 2 ^ (bits - 1) <=? n) && (n <? 2 ^ (bits - 1)) then Some (n, l) else None
      else '(m, l) ← read_signed k (bits - 7) l; Some (b - 128 + 128 * m, l)
  | _, _ => None
  end.

Definition read_s32 : list Z -> option (Z * list Z) := read_signed 5 32.

Definition reader (A : Type) := list Z -> option (A * list Z).

Fixpoint read_times {A} (p : reader A) (n : nat) (l : list Z) : option (list A * list Z) :=
  match n with
  | O => Some ([], l)
  | S n => '(x, l) ← p l; '(xs, l) ← read_times p n l; Some (x :: xs, l)
  end.

Definition read_vec {A} (p : reader A) : reader (list A) := fun l =>
  '(n, l) ← read_u32 l; if Z.of_nat (length l) <? n then None else read_times p (Z.to_nat n) l.

Definition read_byte : reader Z := fun l => match l with b :: l => Some (b, l) | [] => None end.

Definition read_name : reader (list Z) := read_vec read_byte.

Definition is_valtype (b : Z) : bool := (0x7b <=? b) && (b <=? 0x7f).

Definition read_valtype : reader Z := fun l =>
  '(b, l) ← read_byte l; if is_valtype b then Some (b, l) else None.

Definition read_functype : reader (list Z * list Z) := fun l =>
  '(b, l) ← read_byte l;
  if negb (b =? 0x60) then None
  else '(ps, l) ← read_vec read_valtype l; '(rs, l) ← read_vec read_valtype l; Some (ps, rs, l).

(** Minimum, maximum, shared. *)
Definition read_limits : reader (Z * option Z * bool) := fun l =>
  '(b, l) ← read_byte l;
  '(lo, l) ← read_u32 l;
  if b =? 0 then Some (lo, None, false, l)
  else if (b =? 1) || (b =? 3) then '(hi, l) ← read_u32 l; Some (lo, Some hi, b =? 3, l)
  else None.

Inductive import_desc :=
| ImportFunc (typeidx : Z)
| ImportTable (elem : Z) (lim : Z * option Z * bool)
| ImportMem (lim : Z * option Z * bool).

Definition read_import : reader (list Z * list Z * import_desc) := fun l =>
  '(md, l) ← read_name l;
  '(nm, l) ← read_name l;
  '(k, l) ← read_byte l;
  if k =? 0 then '(t, l) ← read_u32 l; Some (md, nm, ImportFunc t, l)
  else if k =? 1 then '(e, l) ← read_byte l; '(lim, l) ← read_limits l; Some (md, nm, ImportTable e lim, l)
  else if k =? 2 then '(lim, l) ← read_limits l; Some (md, nm, ImportMem lim, l)
  else None.

(** A global: type, mutability, and an initial value, here always an [i64.const]. *)
Definition read_global : reader (Z * Z * Z) := fun l =>
  '(t, l) ← read_valtype l;
  '(mut, l) ← read_byte l;
  match l with
  | 0x42 :: l =>
      '(v, l) ← read_signed 10 64 l;
      match l with 0x0b :: l => Some (t, mut, v, l) | _ => None end
  | _ => None
  end.

Definition read_export : reader (list Z * Z * Z) := fun l =>
  '(nm, l) ← read_name l; '(k, l) ← read_byte l; '(i, l) ← read_u32 l; Some (nm, k, i, l).

Definition read_local : reader (Z * Z) := fun l =>
  '(n, l) ← read_u32 l; '(t, l) ← read_valtype l; Some (n, t, l).

(** The next [n] bytes. *)
Definition read_bytes (n : Z) : reader (list Z) := fun l =>
  if Z.of_nat (length l) <? n then None else Some (take (Z.to_nat n) l, drop (Z.to_nat n) l).

(** A function body: locals, and an expression that ends with [end]. *)
Definition read_func : reader (list (Z * Z) * list Z) := fun l =>
  '(n, l) ← read_u32 l;
  '(body, l) ← read_bytes n l;
  '(ls, e) ← read_vec read_local body;
  if bool_decide (List.last e 0 = 0x0b) then Some (ls, e, l) else None.

(** A section: its contents take up exactly its size. *)
Definition read_section {A} (id : Z) (p : reader A) : reader A := fun l =>
  '(i, l) ← read_byte l;
  '(n, l) ← read_u32 l;
  '(c, l) ← read_bytes n l;
  '(x, rest) ← p c;
  if (i =? id) && bool_decide (rest = []) then Some (x, l) else None.

Record wmodule := {
  w_types : list (list Z * list Z);
  w_imports : list (list Z * list Z * import_desc);
  w_funcs : list Z;
  w_globals : list (Z * Z * Z);
  w_exports : list (list Z * Z * Z);
  w_code : list (list (Z * Z) * list Z)
}.

Definition read_module (l : list Z) : option wmodule :=
  '(start, l) ← read_bytes 8 l;
  '(ts, l) ← read_section 1 (read_vec read_functype) l;
  '(ims, l) ← read_section 2 (read_vec read_import) l;
  '(fs, l) ← read_section 3 (read_vec read_u32) l;
  '(gs, l) ← read_section 6 (read_vec read_global) l;
  '(es, l) ← read_section 7 (read_vec read_export) l;
  '(cs, l) ← read_section 10 (read_vec read_func) l;
  if bool_decide (start = [0x00; 0x61; 0x73; 0x6d; 0x01; 0x00; 0x00; 0x00]) && bool_decide (l = [])
  then Some {| w_types := ts; w_imports := ims; w_funcs := fs; w_globals := gs; w_exports := es; w_code := cs |}
  else None.

(** ** The module meant *)

(** The signature of what is called: a type mask has the type code of the result in
    its lowest three bits, those of up to seven arguments above it
    (include/exec/helper-head.h).  A 128-bit result is returned through a pointer
    passed first. *)
Definition type_code (typemask j : Z) : Z := Z.land (Z.shiftr typemask (3 * j)) 7.

Definition code_type (c : Z) : option Z :=
  if c =? dh_typecode_void then None
  else if (c =? dh_typecode_i64) || (c =? dh_typecode_s64) then Some 0x7e else Some 0x7f.

Definition callee_sig (c : callee) : list Z * list Z :=
  match c with
  | Helper typemask =>
      let args := omap (fun j => code_type (type_code typemask (Z.of_nat j))) (seq 1 7) in
      if type_code typemask 0 =? dh_typecode_i128 then (0x7f :: args, [])
      else (args, option_list (code_type (type_code typemask 0)))
  | LoadSlow => ([0x7f; 0x7e; 0x7f; 0x7f], [0x7e])
  | StoreSlow is_64 => ([0x7f; 0x7e; if is_64 then 0x7e else 0x7f; 0x7f; 0x7f], [])
  end.

(** The masks that [dh_typemask] builds: at most seven arguments, no code 1. *)
Definition callee_ok (c : callee) : Prop :=
  match c with
  | Helper typemask => 0 <= typemask < 2 ^ 24 /\ forall j, 0 <= j < 8 -> type_code typemask j <> 1
  | _ => True
  end.

Definition env_name : list Z := [0x65; 0x6e; 0x76].
Definition buffer_name : list Z := [0x62; 0x75; 0x66; 0x66; 0x65; 0x72].
Definition table_name : list Z := [0x74; 0x61; 0x62; 0x6c; 0x65].
Definition helper_name : list Z := [0x68; 0x65; 0x6c; 0x70; 0x65; 0x72].
Definition start_name : list Z := [0x73; 0x74; 0x61; 0x72; 0x74].

Definition meant_imports (n : nat) : list (list Z * list Z * import_desc) :=
  [(env_name, buffer_name, ImportMem (0, Some 65535, true));
   (env_name, table_name, ImportTable 0x70 (0, None, false))] ++
  ((fun i => (helper_name, decimal 10 (Z.of_nat i), ImportFunc (Z.of_nat i + 1))) <$> seq 0 n).

Definition meant_locals (m : wmode) : list (Z * Z) :=
  if negb (wasm_reg_locals m) then [(2, 0x7f); (5, 0x7e)]
  else [(2, 0x7f); (22, 0x7e)] ++ if wasm_fp_locals m then [(3, 0x7d); (3, 0x7c); (3, 0x7b)] else [].

(** The instructions in front of the body. *)
Definition prologue (m : wmode) (this_tb : Z) : list Z :=
  if negb (wasm_reg_locals m) then drop 21 mod_header_d
  else mod_header_d_loc_a ++
       (if wasm_tail_chain m
        then chain_with (if wasm_chain_nested m then mod_header_d_loc_chain_nested else mod_header_d_loc_chain) this_tb
        else []) ++
       mod_header_d_loc_b.

Definition meant (m : wmode) (this_tb : Z) (sigs : list (list Z * list Z)) (sub_buf : list Z) : wmodule :=
  {| w_types := ([0x7f], [0x7f]) :: sigs;
     w_imports := meant_imports (length sigs);
     w_funcs := [0];
     w_globals := repeat (0x7e, 1, 0) 25;
     w_exports := [(start_name, 0, Z.of_nat (length sigs))];
     w_code := [(meant_locals m, prologue m this_tb ++ sub_buf)] |}.
