(* ===== verification/ModuleReads.v ===== *)
(** * The wasm module of a block is the one meant

    What [wasm_tail] writes reads back, by the reader of the binary format, as the
    module [meant] of WasmModule: the placeholders are filled with the right
    lengths, every signature and import is decoded as declared, and the tables the
    module is made from are exact and within their bounds.  Past 127 helpers the
    type indices of the imports no longer fit the byte they are written to. *)
From S2P Require Import Prelude BitOps HostUtils Regions WasmModule.

(** ** Variable-length integers *)

Definition leb5 (v : Z) : list Z :=
  let v1 := Z.shiftr v 7 in let v2 := Z.shiftr v1 7 in let v3 := Z.shiftr v2 7 in let v4 := Z.shiftr v3 7 in
  [Z.lor 0x80 (Z.land v 0x7f); Z.lor 0x80 (Z.land v1 0x7f); Z.lor 0x80 (Z.land v2 0x7f);
   Z.lor 0x80 (Z.land v3 0x7f); Z.lor 0x00 (Z.land v4 0x7f)].

Definition placeholder : list Z := [0x80; 0x80; 0x80; 0x80; 0x00].

Lemma fill_placeholder v rest : leb_fill_loop 5 v (placeholder ++ rest) = leb5 v ++ rest.
Proof.
  unfold placeholder, leb5. cbn [app leb_fill_loop]. cbv zeta.
  repeat match goal with
  | |- context [if ?x =? 0 then _ else _] => destruct (Z.eqb_spec x 0) as [E | _]; [try rewrite E; reflexivity |]
  end. reflexivity.
Qed.

Lemma fill_at off v b pre rest : b = pre ++ placeholder ++ rest -> length pre = off ->
  fill_uint32_leb128 off v b = pre ++ leb5 v ++ rest.
Proof.
  intros -> <-. unfold fill_uint32_leb128. by rewrite take_app_length, drop_app_length, fill_placeholder.
Qed.

Lemma low7 v : Z.land v 0x7f = v mod 128.
Proof. apply (Z.land_ones v 7). lia. Qed.

Lemma shift7 v : Z.shiftr v 7 = v / 128.
Proof. apply (Z.shiftr_div_pow2 v 7). lia. Qed.

Lemma cont7 x : 0 <= x < 128 -> Z.lor 0x80 x = 128 + x.
Proof.
  intros Hx. symmetry. apply add_disjoint. apply Z.bits_inj'. intros n Hn.
  rewrite Z.land_spec, Z.bits_0. change 0x80 with (2 ^ 7). rewrite Z.pow2_bits_eqb by lia.
  destruct (Z.eqb_spec 7 n) as [<- |]; [| done]. cbn [andb]. apply Z.testbit_false; [lia |]. by rewrite Z.div_small by lia.
Qed.

Lemma read_more k bits x l m l' : 0 <= x < 128 -> read_unsigned k (bits - 7) l = Some (m, l') ->
  read_unsigned (S k) bits (Z.lor 0x80 x :: l) = Some (x + 128 * m, l').
Proof.
  intros Hx Hr. rewrite cont7 by done. cbn [read_unsigned]. rewrite (proj2 (Z.ltb_ge _ _)) by lia. rewrite Hr.
  cbn. do 2 f_equal. lia.
Qed.

Lemma read_leb5 v l : is_u 32 v -> read_u32 (leb5 v ++ l) = Some (v, l).
Proof.
  unfold is_u. intros Hv. unfold read_u32, leb5. cbv zeta. rewrite !low7, !shift7. cbn [app].
  assert (Hm : forall x, 0 <= x mod 128 < 128) by (intros; apply Z.mod_pos_bound; lia).
  rewrite (read_more 4 32 (v mod 128) _ (v / 128) l); [do 2 f_equal; pose proof (Z.div_mod v 128); lia | done |].
  rewrite (read_more 3 _ (v / 128 mod 128) _ (v / 128 / 128) l);
    [do 2 f_equal; pose proof (Z.div_mod (v / 128) 128); lia | done |].
  rewrite (read_more 2 _ (v / 128 / 128 mod 128) _ (v / 128 / 128 / 128) l);
    [do 2 f_equal; pose proof (Z.div_mod (v / 128 / 128) 128); lia | done |].
  rewrite (read_more 1 _ (v / 128 / 128 / 128 mod 128) _ (v / 128 / 128 / 128 / 128) l);
    [do 2 f_equal; pose proof (Z.div_mod (v / 128 / 128 / 128) 128); lia | done |].
  assert (Hw : 0 <= v / 128 / 128 / 128 / 128 < 16).
  { rewrite !Z.div_div by lia. split; [apply Z.div_pos; lia | apply Z.div_lt_upper_bound; lia]. }
  rewrite Z.lor_0_l, (Z.mod_small _ 128) by lia.
  cbn [read_unsigned]. by rewrite !(proj2 (Z.ltb_lt _ _)) by (cbn; lia).
Qed.

Lemma leb5_size v : size (leb5 v) = 5.
Proof. done. Qed.

Lemma read_small b l : 0 <= b < 128 -> read_u32 (b :: l) = Some (b, l).
Proof. intros Hb. unfold read_u32. cbn [read_unsigned]. by rewrite !(proj2 (Z.ltb_lt _ _)) by lia. Qed.

(** ** What is written *)

Definition part_a (n : Z) (ts : list Z) : list Z :=
  take 9 mod_header_a ++ leb5 (size ts + 10) ++ leb5 (n + 1) ++ drop 19 mod_header_a ++ ts.

Definition part_b (n : Z) : list Z :=
  take 1 mod_header_b ++ leb5 (38 + size (import_entries n)) ++ leb5 (n + 2) ++
  take 14 (drop 11 mod_header_b) ++ leb5 65535 ++ drop 30 mod_header_b ++ import_entries n.

Definition part_c (n : Z) : list Z := take 142 mod_header_c ++ leb5 n.

(** The locals and the expression of the function. *)
Definition func_bytes (m : wmode) (this_tb : Z) : list Z := drop 16 (wasm_write_header_d m this_tb).

Definition part_d (m : wmode) (this_tb : Z) (sub_buf : list Z) : list Z :=
  let f := size (func_bytes m this_tb) + size sub_buf in
  [0x0a] ++ leb5 (f + 10) ++ leb5 1 ++ leb5 f ++ func_bytes m this_tb.

Definition blob_of (m : wmode) (this_tb : Z) (h : htab) (sub_buf : list Z) : list Z :=
  let n := num_helper_funcs h in
  part_a n (target_helper_types h) ++ part_b n ++ part_c n ++ part_d m this_tb sub_buf ++ sub_buf.

Lemma a_written n ts b : is_u 32 (n + 1) -> is_u 32 (size ts + 10) ->
  write_wasm_type_section_size (length b) (size ts) n (b ++ mod_header_a ++ ts) = b ++ part_a n ts.
Proof.
  unfold is_u. intros Hn Hts. unfold write_wasm_type_section_size, part_a, uw. rewrite !Z.mod_small by done.
  rewrite (fill_at (length b + 9) _ _ (b ++ take 9 mod_header_a) (placeholder ++ drop 19 mod_header_a ++ ts));
    [| by rewrite <- !app_assoc | by rewrite length_app].
  rewrite (fill_at (length b + 14) _ _ (b ++ take 9 mod_header_a ++ leb5 (size ts + 10)) (drop 19 mod_header_a ++ ts));
    [by rewrite <- !app_assoc | by rewrite <- !app_assoc | by rewrite !length_app].
Qed.

Lemma b_written n b : is_u 32 (n + 2) -> is_u 32 (38 + size (import_entries n)) ->
  write_wasm_memory_size (length b) (write_wasm_import_section_size (length b) (size (import_entries n)) n
    (b ++ mod_header_b ++ import_entries n)) = b ++ part_b n.
Proof.
  unfold is_u. intros Hn Hts. unfold write_wasm_memory_size, write_wasm_import_section_size, part_b, uw.
  change (size mod_header_b - 6) with 38. change WASM_HEADER_B_NONFUNC_IMPORTS with 2. rewrite !Z.mod_small by done.
  rewrite (fill_at (length b + 1) _ _ (b ++ take 1 mod_header_b) (drop 6 mod_header_b ++ import_entries n));
    [| by rewrite <- !app_assoc | by rewrite length_app].
  rewrite (fill_at (length b + 6) _ _ (b ++ take 1 mod_header_b ++ leb5 (38 + size (import_entries n)))
             (drop 11 mod_header_b ++ import_entries n));
    [| by rewrite <- !app_assoc | by rewrite !length_app].
  rewrite (fill_at (length b + 25) _ _
             (b ++ take 1 mod_header_b ++ leb5 (38 + size (import_entries n)) ++ leb5 (n + 2) ++ take 14 (drop 11 mod_header_b))
             (drop 30 mod_header_b ++ import_entries n));
    [by rewrite <- !app_assoc | by rewrite <- !app_assoc | by rewrite !length_app].
Qed.

Lemma c_written n b : write_wasm_export_section_size (length b) n (b ++ mod_header_c) = b ++ part_c n.
Proof.
  unfold write_wasm_export_section_size, part_c.
  rewrite (fill_at (length b + 142) _ _ (b ++ take 142 mod_header_c) []);
    [by rewrite app_nil_r, <- !app_assoc | by rewrite <- !app_assoc | by rewrite !length_app].
Qed.

Lemma header_d_split m this_tb :
  wasm_write_header_d m this_tb = [0x0a] ++ placeholder ++ placeholder ++ placeholder ++ func_bytes m this_tb /\
  wasm_header_d_size m = 16 + size (func_bytes m this_tb).
Proof. destruct m as [[] [] [] []]; done. Qed.

Lemma d_written m this_tb code b : is_u 32 (size (func_bytes m this_tb) + code + 10) -> 0 <= code ->
  write_wasm_code_size (length b) code 1 (wasm_header_d_size m) (b ++ wasm_write_header_d m this_tb) =
  b ++ [0x0a] ++ leb5 (size (func_bytes m this_tb) + code + 10) ++ leb5 1 ++ leb5 (size (func_bytes m this_tb) + code) ++
  func_bytes m this_tb.
Proof.
  destruct (header_d_split m this_tb) as [-> ->]. unfold is_u. intros Hn Hc. unfold write_wasm_code_size, uw. cbv zeta.
  assert (0 <= size (func_bytes m this_tb)) by (unfold size; lia).
  rewrite (Z.mod_small (code + _ - 6)) by lia. rewrite (Z.mod_small (_ - 10)) by lia.
  replace (code + (16 + size (func_bytes m this_tb)) - 6) with (size (func_bytes m this_tb) + code + 10) by lia.
  replace (size (func_bytes m this_tb) + code + 10 - 10) with (size (func_bytes m this_tb) + code) by lia.
  set (f := func_bytes m this_tb).
  rewrite (fill_at (length b + 1) _ _ (b ++ [0x0a]) (placeholder ++ placeholder ++ f));
    [| by rewrite <- !app_assoc | by rewrite length_app].
  rewrite (fill_at (length b + 6) _ _ (b ++ [0x0a] ++ leb5 (size f + code + 10)) (placeholder ++ f));
    [| by rewrite <- !app_assoc | by rewrite !length_app].
  rewrite (fill_at (length b + 11) _ _ (b ++ [0x0a] ++ leb5 (size f + code + 10) ++ leb5 1) f);
    [by rewrite <- !app_assoc | by rewrite <- !app_assoc | by rewrite !length_app].
Qed.

Lemma size_app b c : size (b ++ c) = size b + size c.
Proof. unfold size. rewrite length_app. lia. Qed.

Lemma decimal_small i : 0 <= i < 1000 ->
  size (decimal 10 i) = if i <? 10 then 1 else if i <? 100 then 2 else 3.
Proof.
  intros Hi. cbn [decimal]. destruct (Z.ltb_spec i 10); [done |].
  rewrite size_app. destruct (Z.ltb_spec i 100).
  - rewrite (proj2 (Z.ltb_lt (i / 10) 10)); [done | apply Z.div_lt_upper_bound; lia].
  - rewrite (proj2 (Z.ltb_ge (i / 10) 10)) by (apply Z.div_le_lower_bound; lia).
    rewrite size_app, (proj2 (Z.ltb_lt (i / 10 / 10) 10)); [done |].
    rewrite Z.div_div by lia. apply Z.div_lt_upper_bound; lia.
Qed.

Lemma entry_size i t : 0 <= i < 1000 ->
  size (tcg_out_import_entry i t) = if i <? 10 then 11 else if i <? 100 then 12 else 13.
Proof.
  intros Hi. unfold tcg_out_import_entry. rewrite !size_app, decimal_small by done.
  destruct (i <? 10); [done |]. destruct (i <? 100); done.
Qed.

Lemma import_entries_S n : 0 <= n ->
  import_entries (n + 1) = import_entries n ++ tcg_out_import_entry n (n + 1).
Proof.
  intros Hn. unfold import_entries. rewrite Z2Nat.inj_add by lia. rewrite seq_app, fmap_app, concat_app. f_equal.
  rewrite Nat.add_0_l. change (Z.to_nat 1) with 1%nat. cbn [seq fmap list_fmap concat]. rewrite Z2Nat.id by lia. apply app_nil_r.
Qed.

(** The size of the import entries, exactly. *)
Definition imports_size (n : Z) : Z := 11 * n + Z.max 0 (n - 10) + Z.max 0 (n - 100).

Lemma import_entries_size n : 0 <= n <= 1000 -> size (import_entries n) = imports_size n.
Proof.
  intros [Hn Hm]. revert Hm. pattern n. apply natlike_ind; [done | | done].
  clear n Hn. intros n Hn IH Hm. rewrite <- Z.add_1_r, import_entries_S, size_app, IH, entry_size by lia.
  unfold imports_size. destruct (Z.ltb_spec n 10), (Z.ltb_spec n 100); lia.
Qed.

(** The tables are within their bounds. *)
Record htab_ok (h : htab) : Prop := {
  ho_num : num_helper_funcs h <= WASM_NUM_HELPER_FUNCS_MAX;
  ho_pos : target_helper_types_pos h <= WASM_HELPER_ADDED_TYPES_SECTION_MAX
}.

Lemma room_written code_ptr highwater b n k out :
  room code_ptr highwater b n k = Written out -> code_ptr + size b + n <= highwater /\ k = Written out.
Proof. unfold room. destruct (Z.ltb_spec highwater (code_ptr + size b + n)); [done |]. intros ->. split; [lia | done]. Qed.

Lemma written_inj b c : Written b = Written c -> b = c.
Proof. congruence. Qed.

Lemma tail_written code_ptr highwater lazy regen m this_tb h sub out :
  lazy && negb regen = false -> htab_ok h -> size sub <= SUB_BUF_MAX ->
  wasm_tail code_ptr highwater lazy regen m this_tb h sub = Written out ->
  let blob := blob_of m this_tb h sub in
  out = le32 (size blob) ++ blob ++ le32 (num_helper_funcs h * 4) ++ concat (le32 <$> target_helper_funcs h) /\
  code_ptr + size out <= highwater.
Proof.
  intros Hl [Hn Hp] Hs Ht blob. change WASM_HELPER_ADDED_TYPES_SECTION_MAX with 3216 in Hp.
  unfold WASM_NUM_HELPER_FUNCS_MAX, SUB_BUF_MAX in *. unfold wasm_tail in Ht. rewrite Hl in Ht. cbv zeta in Ht.
  unfold target_helper_types_pos in *. change (Z.of_nat (length ?x)) with (size x) in Ht, Hp.
  set (n := num_helper_funcs h) in *. set (ts := target_helper_types h) in *.
  assert (H0 : 0 <= n) by (unfold n, num_helper_funcs; lia). assert (0 <= size ts /\ 0 <= size sub) by (unfold size; lia).
  pose proof (import_entries_size n ltac:(lia)) as He. unfold imports_size in He.
  pose proof (header_d_split m this_tb) as [_ Hd].
  assert (Hf : 0 <= size (func_bytes m this_tb) <= 500) by (destruct m as [[] [] [] []]; vm_compute; split; discriminate).
  apply room_written in Ht as [_ Ht]. rewrite (a_written n ts (le32 0)) in Ht by (unfold is_u; lia).
  apply room_written in Ht as [_ Ht]. rewrite (b_written n) in Ht by (unfold is_u; lia).
  apply room_written in Ht as [_ Ht]. rewrite c_written in Ht.
  apply room_written in Ht as [_ Ht]. rewrite d_written in Ht by (unfold is_u; lia).
  apply room_written in Ht as [_ Ht].
  apply room_written in Ht as [_ Ht].
  apply room_written in Ht as [Hh Ht]. apply written_inj in Ht as Ho.
  assert (Hb : out = le32 (size blob) ++ blob ++ le32 (n * 4) ++ concat (le32 <$> target_helper_funcs h)).
  { rewrite <- Ho. unfold blob, blob_of, part_d. fold n. fold ts. cbv zeta.
    rewrite <- !app_assoc. rewrite !(size_app (le32 0)). change (size (le32 0)) with 4.
    rewrite Z.add_simpl_l. f_equal. rewrite (drop_app_length (le32 0)). by rewrite <- !app_assoc. }
  split; [done |]. rewrite Ho, Z.add_0_r in Hh. done.
Qed.

(** ** Reading signatures *)

Lemma type_code_range tm j : 0 <= type_code tm j < 8.
Proof. unfold type_code. change 7 with (Z.ones 3). rewrite Z.land_ones by lia. apply Z.mod_pos_bound. lia. Qed.

Lemma extract_code tm j : 0 <= j < 10 -> extract32 tm (j * 3) 3 = type_code tm j.
Proof.
  intros Hj. unfold extract32, type_code. rewrite extract_uw by (unfold bitfield_ok; rewrite !andb_true_iff; lia).
  rewrite Z.mul_comm. unfold uw. symmetry. apply (Z.land_ones _ 3). lia.
Qed.

Definition arg_types (tm : Z) (j n : nat) : list Z := omap (fun i => code_type (type_code tm (Z.of_nat i))) (seq j n).

Lemma param_types_exact tm n : forall j, (j + n <= 7)%nat ->
  (forall j, 0 <= j < 8 -> type_code tm j <> 1) ->
  param_types n (Z.of_nat j) tm = Some (arg_types tm (S j) n).
Proof.
  induction n as [| n IH]; intros j Hj Hc; [done |]. unfold arg_types. cbn [param_types seq omap list_omap].
  rewrite extract_code by lia. replace (Z.of_nat j + 1) with (Z.of_nat (S j)) by lia. rewrite (IH (S j)) by (try lia; done).
  fold (arg_types tm (S (S j)) n).
  pose proof (type_code_range tm (Z.of_nat (S j))) as Hr. specialize (Hc (Z.of_nat (S j)) ltac:(lia)).
  unfold code_type. set (c := type_code tm (Z.of_nat (S j))) in *. clearbody c.
  assert (Hcs : c = 0 \/ c = 2 \/ c = 3 \/ c = 4 \/ c = 5 \/ c = 6 \/ c = 7) by lia.
  by destruct Hcs as [-> | [-> | [-> | [-> | [-> | [-> | ->]]]]]].
Qed.

(** Beyond the highest argument in use all codes are zero. *)
Lemma arg_types_zero tm j n : (forall i, (j <= i)%nat -> type_code tm (Z.of_nat i) = 0) -> arg_types tm j n = [].
Proof.
  revert j. induction n as [| n IH]; intros j Hz; [done |]. unfold arg_types. cbn [seq omap list_omap].
  rewrite Hz by lia. apply (IH (S j)). intros i Hi. apply Hz. lia.
Qed.

Lemma nargs_high tm : 0 <= tm < 2 ^ 24 ->
  0 <= nargs_of tm <= 7 /\ forall i, nargs_of tm < i -> type_code tm i = 0.
Proof.
  intros Htm. unfold nargs_of, clz32, builtin_clz. pose proof (Z.shiftr_div_pow2 tm 3 ltac:(lia)) as E.
  set (x := Z.shiftr tm 3) in *. assert (Hx : 0 <= x < 2 ^ 21).
  { rewrite E. split; [apply Z.div_pos; lia | apply Z.div_lt_upper_bound; lia]. }
  assert (Hcode : forall i, 1 <= i -> x < 2 ^ (3 * (i - 1)) -> type_code tm i = 0).
  { intros i Hi Hlt. unfold type_code. replace (3 * i) with (3 + 3 * (i - 1)) by lia.
    rewrite <- Z.shiftr_shiftr by lia. fold x. rewrite Z.shiftr_div_pow2 by lia. rewrite Z.div_small by lia. done. }
  destruct (Z.eqb_spec x 0) as [Ex | Ex].
  { split; [done |]. intros i Hi. assert (0 < i) by exact Hi. apply Hcode; [lia |]. rewrite Ex. apply Z.pow_pos_nonneg; lia. }
  pose proof (Z.log2_spec x ltac:(lia)) as [_ Hl]. pose proof (Z.log2_nonneg x).
  assert (Z.log2 x < 21) by (apply Z.log2_lt_pow2; lia).
  replace (32 - (32 - 1 - Z.log2 x) + 2) with (Z.log2 x + 3) by lia.
  pose proof (Z.div_mod (Z.log2 x + 3) 3 ltac:(lia)). pose proof (Z.mod_pos_bound (Z.log2 x + 3) 3 ltac:(lia)).
  split; [lia |]. intros i Hi. apply Hcode; [lia |]. eapply Z.lt_le_trans; [exact Hl |]. apply Z.pow_le_mono_r; lia.
Qed.

Lemma args_exact tm : 0 <= tm < 2 ^ 24 -> (forall j, 0 <= j < 8 -> type_code tm j <> 1) ->
  param_types (Z.to_nat (nargs_of tm)) 0 tm = Some (arg_types tm 1 7).
Proof.
  intros Htm Hc. destruct (nargs_high tm Htm) as [Hn Hz]. set (k := Z.to_nat (nargs_of tm)).
  pose proof (param_types_exact tm k 0 ltac:(lia) Hc) as Ep. change (Z.of_nat 0) with 0 in Ep. rewrite Ep. f_equal.
  replace 7%nat with (k + (7 - k))%nat by lia. unfold arg_types at 2. rewrite seq_app, omap_app.
  fold (arg_types tm 1 k) (arg_types tm (1 + k) (7 - k)). rewrite (arg_types_zero tm (1 + k)); [by rewrite app_nil_r |].
  intros i Hi. apply Hz. lia.
Qed.

Lemma arg_types_val tm j n : Forall (fun t => is_valtype t = true) (arg_types tm j n) /\ (length (arg_types tm j n) <= n)%nat.
Proof.
  revert j. induction n as [| n IH]; intros j; [by split |]. unfold arg_types. cbn [seq omap list_omap].
  fold (arg_types tm (S j) n). destruct (IH (S j)) as [Hf Hl]. unfold code_type.
  destruct (_ =? _); [split; [done | lia] |]. destruct (_ || _); cbn [length]; (split; [constructor; done | lia]).
Qed.

Lemma read_vec_exact {A} (p : reader A) l0 l xs rest :
  read_u32 l0 = Some (Z.of_nat (length xs), l) -> (length xs <= length l)%nat ->
  read_times p (length xs) l = Some (xs, rest) -> read_vec p l0 = Some (xs, rest).
Proof.
  intros Hn Hl Ht. unfold read_vec. rewrite Hn. cbn [mbind option_bind].
  rewrite (proj2 (Z.ltb_ge _ _)) by lia. by rewrite Nat2Z.id.
Qed.

Lemma read_times_map {A B} (p : reader A) (enc : B -> list Z) (f : B -> A) xs l :
  (forall x l, x ∈ xs -> p (enc x ++ l) = Some (f x, l)) ->
  read_times p (length xs) (concat (enc <$> xs) ++ l) = Some (f <$> xs, l).
Proof.
  induction xs as [| x xs IH]; intros Hp; [done |]. cbn [fmap list_fmap concat length read_times].
  rewrite <- app_assoc, Hp by left. cbn [mbind option_bind]. rewrite IH; [done |]. intros y l' Hy. apply Hp. by right.
Qed.

Lemma read_valtypes xs l : Forall (fun t => is_valtype t = true) xs -> (length xs < 128)%nat ->
  read_vec read_valtype (Z.of_nat (length xs) :: xs ++ l) = Some (xs, l).
Proof.
  intros Hf Hn. apply (read_vec_exact _ _ (xs ++ l)); [apply read_small; lia | rewrite length_app; lia |].
  clear Hn. induction xs as [| x xs IH]; [done |]. apply Forall_cons_1 in Hf as [Hx Hf]. cbn [length read_times app].
  assert (E : read_valtype (x :: xs ++ l) = Some (x, xs ++ l)) by (unfold read_valtype; cbn; by rewrite Hx).
  rewrite E. cbn [mbind option_bind]. by rewrite IH.
Qed.

Lemma signature_bytes ps r : (length ps < 128)%nat ->
  fill_uint32_leb128 1 (Z.of_nat (length ps)) ([0x60; 0] ++ ps) ++ r = 0x60 :: Z.of_nat (length ps) :: ps ++ r.
Proof.
  intros Hl. unfold fill_uint32_leb128. cbn [app take drop]. cbn [app leb_fill_loop].
  rewrite low7, shift7, Z.mod_small, Z.div_small by lia. done.
Qed.

Lemma read_signature ps rs l :
  Forall (fun t => is_valtype t = true) ps -> Forall (fun t => is_valtype t = true) rs ->
  (length ps < 128)%nat -> (length rs < 128)%nat ->
  read_functype (0x60 :: Z.of_nat (length ps) :: ps ++ Z.of_nat (length rs) :: rs ++ l) = Some (ps, rs, l).
Proof.
  intros Hp Hr Hlp Hlr. unfold read_functype, read_byte. cbn [mbind option_bind negb Z.eqb Pos.eqb].
  rewrite read_valtypes by done. cbn [mbind option_bind]. by rewrite read_valtypes by done.
Qed.

Definition results (r : Z) : list Z := if r =? dh_typecode_i128 then [] else option_list (code_type r).

Lemma result_types_exact r : 0 <= r < 8 -> r <> 1 ->
  result_types r = Some (Z.of_nat (length (results r)) :: results r) /\
  Forall (fun t => is_valtype t = true) (results r) /\ (length (results r) <= 1)%nat.
Proof.
  intros Hr H1. assert (Hcs : r = 0 \/ r = 2 \/ r = 3 \/ r = 4 \/ r = 5 \/ r = 6 \/ r = 7) by lia.
  destruct Hcs as [-> | [-> | [-> | [-> | [-> | [-> | ->]]]]]]; (split; [done | split; [repeat constructor | cbn; lia]]).
Qed.

Lemma read_gen_func_type tm t l : callee_ok (Helper tm) -> gen_func_type tm = Some t ->
  read_functype (t ++ l) = Some (callee_sig (Helper tm), l).
Proof.
  intros [Htm Hc]. unfold gen_func_type. rewrite args_exact by done. cbn [mbind option_bind].
  change (Z.land tm 7) with (type_code tm 0). cbn [callee_sig]. fold (arg_types tm 1 7).
  destruct (arg_types_val tm 1 7) as [Hv Hlen]. specialize (Hc 0 ltac:(lia)).
  set (args := arg_types tm 1 7) in *. clearbody args. 
  destruct (result_types_exact (type_code tm 0) (type_code_range tm 0) Hc) as (-> & Hrv & Hrl).
  set (r := type_code tm 0) in *. clearbody r.
  set (ps := if r =? dh_typecode_i128 then 0x7f :: args else args).
  assert (Hps : Forall (fun t => is_valtype t = true) ps /\ (length ps <= 8)%nat).
  { unfold ps. destruct (r =? dh_typecode_i128); cbn [length]; (split; [try constructor; done | lia]). }
  cbn [mbind option_bind]. intros Et. apply (inj Some) in Et as <-. rewrite signature_bytes by lia.
  cbn [app]. rewrite <- app_assoc. cbn [app]. rewrite read_signature by (try lia; tauto).
  unfold ps, results. by destruct (r =? dh_typecode_i128).
Qed.

Lemma read_callee_type c t l : callee_ok c -> callee_type c = Some t ->
  read_functype (t ++ l) = Some (callee_sig c, l).
Proof.
  destruct c as [tm | | is_64]; cbn [callee_type]; [apply read_gen_func_type | |]; intros _ Et; apply (inj Some) in Et as <-.
  - apply (read_signature [0x7f; 0x7e; 0x7f; 0x7f] [0x7e]); cbn; try lia; repeat constructor.
  - apply (read_signature [0x7f; 0x7e; if is_64 then 0x7e else 0x7f; 0x7f; 0x7f] []); cbn; try lia; repeat constructor.
    by destruct is_64.
Qed.

(** ** Reading the module *)

Lemma read_bytes_app c l : read_bytes (size c) (c ++ l) = Some (c, l).
Proof.
  unfold read_bytes, size. rewrite (proj2 (Z.ltb_ge _ _)) by (rewrite length_app; lia).
  by rewrite Nat2Z.id, take_app_length, drop_app_length.
Qed.

Definition sect (id : Z) (c : list Z) : list Z := id :: leb5 (size c) ++ c.
Definition sect_small (id : Z) (c : list Z) : list Z := id :: size c :: c.

Lemma read_section_app {A} id (p : reader A) c x l : is_u 32 (size c) -> p c = Some (x, []) ->
  read_section id p (sect id c ++ l) = Some (x, l).
Proof.
  intros Hs Hp. unfold read_section, read_byte, sect. cbn [mbind option_bind app]. rewrite <- app_assoc.
  rewrite read_leb5 by done. cbn [mbind option_bind]. rewrite read_bytes_app. cbn [mbind option_bind]. rewrite Hp.
  cbn [mbind option_bind]. by rewrite Z.eqb_refl, bool_decide_eq_true_2.
Qed.

Lemma read_section_small {A} id (p : reader A) c x l : size c < 128 -> p c = Some (x, []) ->
  read_section id p (sect_small id c ++ l) = Some (x, l).
Proof.
  intros Hs Hp. unfold read_section, read_byte, sect_small. cbn [mbind option_bind app].
  rewrite read_small by (unfold size in *; lia). cbn [mbind option_bind]. rewrite read_bytes_app. cbn [mbind option_bind].
  rewrite Hp. cbn [mbind option_bind]. by rewrite Z.eqb_refl, bool_decide_eq_true_2.
Qed.

Lemma read_vec_leb5 {A} (p : reader A) xs l : is_u 32 (Z.of_nat (length xs)) -> (length xs <= length l)%nat ->
  read_times p (length xs) l = Some (xs, []) ->
  read_vec p (leb5 (Z.of_nat (length xs)) ++ l) = Some (xs, []).
Proof. intros Hn Hl Ht. eapply read_vec_exact; [by apply read_leb5 | done | done]. Qed.

(** The types: that of the function, then those of the helpers. *)
Lemma read_types cs ts : is_u 32 (Z.of_nat (length cs) + 1) -> Forall callee_ok cs ->
  Forall2 (fun c t => callee_type c = Some t) cs ts ->
  read_vec read_functype (leb5 (Z.of_nat (length cs) + 1) ++ drop 19 mod_header_a ++ concat ts) =
  Some (([0x7f], [0x7f]) :: (callee_sig <$> cs), []).
Proof.
  intros Hn Hok Hts. replace (Z.of_nat (length cs) + 1) with (Z.of_nat (length (([0x7f], [0x7f]) :: (callee_sig <$> cs)))) in *
    by (cbn [length]; rewrite length_fmap; lia).
  assert (Ht : forall l, read_times read_functype (length cs) (concat ts ++ l) = Some (callee_sig <$> cs, l)).
  { clear Hn. intros l. induction Hts as [| c t cs ts Hc _ IH]; [done |]. apply Forall_cons_1 in Hok as [Hk Hok].
    cbn [length read_times concat fmap list_fmap]. rewrite <- app_assoc, (read_callee_type c) by done.
    cbn [mbind option_bind]. by rewrite IH. }
  assert (Hlen : (length cs <= length (concat ts))%nat).
  { clear Hn Ht. induction Hts as [| c t cs ts Hc _ IH]; [done |]. apply Forall_cons_1 in Hok as [Hk Hok].
    cbn [length concat]. rewrite length_app. specialize (IH Hok).
    pose proof (read_callee_type c t [] Hk Hc) as Hr. destruct t; [done | cbn; lia]. }
  apply read_vec_leb5; [done | cbn [length app drop mod_header_a]; rewrite length_fmap; lia |].
  cbn [length read_times]. rewrite length_fmap.
  assert (E : read_functype (drop 19 mod_header_a ++ concat ts) = Some ([0x7f], [0x7f], concat ts)).
  { apply (read_signature [0x7f] [0x7f]); cbn; try lia; repeat constructor. }
  rewrite E. cbn [mbind option_bind]. by rewrite <- (app_nil_r (concat ts)), Ht.
Qed.

Lemma read_name_small b l : (length b < 128)%nat -> read_name (size b :: b ++ l) = Some (b, l).
Proof.
  intros Hb. unfold read_name. apply (read_vec_exact _ _ (b ++ l)); [apply read_small; lia | rewrite length_app; lia |].
  clear Hb. induction b as [| x b IH]; [done |]. cbn [length read_times app].
  change (read_byte (x :: b ++ l)) with (Some (x, b ++ l)). cbn [mbind option_bind]. by rewrite IH.
Qed.

(** An import entry is read back as long as its type index fits in seven bits. *)
Lemma read_import_entry i t l : 0 <= i < 1000 -> 0 <= t < 128 ->
  read_import (tcg_out_import_entry i t ++ l) = Some (helper_name, decimal 10 i, ImportFunc t, l).
Proof.
  intros Hi Ht. pose proof (decimal_small i Hi) as Hd.
  assert (Hs : 1 <= size (decimal 10 i) <= 3) by (destruct (i <? 10), (i <? 100); lia).
  unfold tcg_out_import_entry. cbv zeta.
  assert (Ew : write_uint32_leb128 (size (decimal 10 i)) = [size (decimal 10 i)]).
  { unfold write_uint32_leb128. cbn [leb_write_loop]. rewrite low7, shift7, Z.mod_small, Z.div_small by lia. done. }
  rewrite Ew. set (d := decimal 10 i) in *. unfold read_import.
  assert (Eh : forall r, read_name (([6; 0x68; 0x65; 0x6c; 0x70; 0x65; 0x72] ++ r)) = Some (helper_name, r)).
  { intros r. apply (read_name_small helper_name r). cbn. lia. }
  rewrite <- !app_assoc, Eh. cbn [mbind option_bind app].
  rewrite (read_name_small d) by (unfold size in Hs; lia). cbn [mbind option_bind read_byte Z.eqb].
  unfold uw. rewrite Z.mod_small, read_small by lia. done.
Qed.

Lemma read_imports n : 0 <= n <= 127 ->
  read_vec read_import (leb5 (n + 2) ++ take 14 (drop 11 mod_header_b) ++ leb5 65535 ++ drop 30 mod_header_b ++ import_entries n) =
  Some (meant_imports (Z.to_nat n), []).
Proof.
  intros Hn. assert (Hlen : length (meant_imports (Z.to_nat n)) = (2 + Z.to_nat n)%nat).
  { unfold meant_imports. rewrite length_app, length_fmap, length_seq. done. }
  pose proof (import_entries_size n ltac:(lia)) as He. unfold imports_size, size in He.
  replace (n + 2) with (Z.of_nat (length (meant_imports (Z.to_nat n)))) by lia.
  assert (E14 : length (take 14 (drop 11 mod_header_b)) = 14%nat) by done.
  apply read_vec_leb5; [unfold is_u; lia | rewrite Hlen, !length_app, E14; lia |]. rewrite Hlen. cbn [Nat.add read_times].
  assert (Em : forall r, read_import (take 14 (drop 11 mod_header_b) ++ leb5 65535 ++ r) =
                 Some (env_name, buffer_name, ImportMem (0, Some 65535, true), r)).
  { intros r. change (take 14 (drop 11 mod_header_b) ++ leb5 65535 ++ r)
      with (size env_name :: env_name ++ size buffer_name :: buffer_name ++ [2; 3; 0] ++ leb5 65535 ++ r).
    unfold read_import. rewrite read_name_small by (cbn; lia). cbn [mbind option_bind].
    rewrite read_name_small by (cbn; lia).
    cbn [mbind option_bind read_byte app Z.eqb Pos.eqb]. unfold read_limits. cbn [mbind option_bind read_byte].
    rewrite read_small by lia. cbn [mbind option_bind Z.eqb Pos.eqb orb]. rewrite read_leb5 by (unfold is_u; lia). done. }
  rewrite Em. cbn [mbind option_bind].
  assert (Et : forall r, read_import (drop 30 mod_header_b ++ r) =
                 Some (env_name, table_name, ImportTable 0x70 (0, None, false), r)).
  { intros r. change (drop 30 mod_header_b ++ r)
      with (size env_name :: env_name ++ size table_name :: table_name ++ [1; 0x70; 0; 0] ++ r).
    unfold read_import. rewrite read_name_small by (cbn; lia). cbn [mbind option_bind].
    rewrite read_name_small by (cbn; lia).
    cbn [mbind option_bind read_byte app Z.eqb Pos.eqb]. unfold read_limits. cbn [mbind option_bind read_byte].
    rewrite read_small by lia. done. }
  rewrite Et. cbn [mbind option_bind]. unfold import_entries.
  pose proof (read_times_map read_import (fun i => tcg_out_import_entry (Z.of_nat i) (Z.of_nat i + 1))
    (fun i => (helper_name, decimal 10 (Z.of_nat i), ImportFunc (Z.of_nat i + 1))) (seq 0 (Z.to_nat n)) []) as Hr.
  rewrite length_seq, app_nil_r in Hr. rewrite Hr; [done |].
  intros i l Hi%elem_of_seq. apply read_import_entry; lia.
Qed.

Lemma read_exports n : is_u 32 n ->
  read_vec read_export (drop 134 (take 142 mod_header_c) ++ leb5 n) = Some ([(start_name, 0, n)], []).
Proof.
  intros Hn. apply (read_vec_exact _ _ (5 :: start_name ++ [0] ++ leb5 n)); [by apply read_small | cbn; lia |].
  cbn [length read_times]. unfold read_export. change 5 with (size start_name). rewrite read_name_small by (cbn; lia).
  cbn [mbind option_bind app read_byte]. rewrite <- (app_nil_r (leb5 n)), read_leb5 by done. done.
Qed.

Lemma read_local_groups xs r : (length xs < 128)%nat ->
  Forall (fun '(n, t) => 0 <= n < 128 /\ is_valtype t = true) xs ->
  read_vec read_local (Z.of_nat (length xs) :: concat ((fun '(n, t) => [n; t]) <$> xs) ++ r) = Some (xs, r).
Proof.
  intros Hl Hf. apply (read_vec_exact _ _ (concat ((fun '(n, t) => [n; t]) <$> xs) ++ r)); [apply read_small; lia | |].
  - clear. induction xs as [| [n t] xs IH]; [cbn; lia |]. cbn in *. lia.
  - rewrite (read_times_map read_local (fun '(n, t) => [n; t]) id); [by rewrite list_fmap_id |].
    intros [n t] l Hin. rewrite list.Forall_forall in Hf. destruct (Hf _ Hin) as [Hn Ht]. unfold read_local.
    cbn [app]. rewrite read_small by done. cbn [mbind option_bind]. unfold read_valtype. cbn [read_byte mbind option_bind].
    by rewrite Ht.
Qed.

Lemma read_locals m this_tb sub :
  read_vec read_local (func_bytes m this_tb ++ sub) = Some (meant_locals m, prologue m this_tb ++ sub).
Proof.
  assert (E : func_bytes m this_tb = Z.of_nat (length (meant_locals m)) ::
    concat ((fun '(n, t) => [n; t]) <$> meant_locals m) ++ prologue m this_tb) by (destruct m as [[] [] [] []]; done).
  rewrite E. cbn [app]. rewrite <- app_assoc. apply read_local_groups; destruct m as [[] [] [] []]; cbn; try lia;
    repeat constructor; lia.
Qed.

Lemma read_code m this_tb sub : is_u 32 (size (func_bytes m this_tb) + size sub) -> List.last sub 0 = 0x0b ->
  read_vec read_func (leb5 1 ++ leb5 (size (func_bytes m this_tb) + size sub) ++ func_bytes m this_tb ++ sub) =
  Some ([(meant_locals m, prologue m this_tb ++ sub)], []).
Proof.
  intros Hs He. apply (read_vec_exact _ _ (leb5 (size (func_bytes m this_tb) + size sub) ++ func_bytes m this_tb ++ sub));
    [by apply read_leb5 | cbn; lia |].
  cbn [length read_times]. unfold read_func. rewrite read_leb5 by done. cbn [mbind option_bind].
  pose proof (read_bytes_app (func_bytes m this_tb ++ sub) []) as Eb. rewrite app_nil_r, size_app in Eb. rewrite Eb.
  cbn [mbind option_bind].
  rewrite read_locals. cbn [mbind option_bind].
  assert (Hl : List.last (prologue m this_tb ++ sub) 0 = 0x0b).
  { destruct (exists_last (l := sub)) as (s' & x & ->); [by intros -> |]. rewrite last_last in He. by rewrite app_assoc, last_last. }
  by rewrite bool_decide_eq_true_2.
Qed.

(** The parts are the magic number and sections whose sizes are right. *)
Definition types_part (n : Z) (ts : list Z) : list Z := leb5 (n + 1) ++ drop 19 mod_header_a ++ ts.
Definition imports_part (n : Z) : list Z :=
  leb5 (n + 2) ++ take 14 (drop 11 mod_header_b) ++ leb5 65535 ++ drop 30 mod_header_b ++ import_entries n.
Definition code_part (m : wmode) (this_tb : Z) (sub : list Z) : list Z :=
  leb5 1 ++ leb5 (size (func_bytes m this_tb) + size sub) ++ func_bytes m this_tb ++ sub.
Definition globals_part : list Z := take 126 (drop 6 mod_header_c).
Definition exports_part (n : Z) : list Z := drop 134 (take 142 mod_header_c) ++ leb5 n.

Lemma part_a_sect n ts : part_a n ts = take 8 mod_header_a ++ sect 1 (types_part n ts).
Proof.
  unfold part_a, sect, types_part. rewrite !size_app. change (size (leb5 (n + 1))) with 5.
  change (size (drop 19 mod_header_a)) with 5. replace (size ts + 10) with (5 + (5 + size ts)) by lia. done.
Qed.

Lemma part_b_sect n : part_b n = sect 2 (imports_part n).
Proof.
  unfold part_b, sect, imports_part. rewrite !size_app. change (size (leb5 (n + 2))) with 5.
  change (size (leb5 65535)) with 5. change (size (take 14 (drop 11 mod_header_b))) with 14.
  change (size (drop 30 mod_header_b)) with 14.
  replace (5 + (14 + (5 + (14 + size (import_entries n))))) with (38 + size (import_entries n)) by lia. done.
Qed.

Lemma part_c_sect n :
  part_c n = sect_small 3 [1; 0] ++ sect_small 6 globals_part ++ sect_small 7 (exports_part n).
Proof. reflexivity. Qed.

Lemma part_d_sect m this_tb sub : part_d m this_tb sub ++ sub = sect 10 (code_part m this_tb sub).
Proof.
  unfold part_d, sect, code_part. cbv zeta. rewrite <- !app_assoc, !size_app. change (size (leb5 1)) with 5.
  change (size (leb5 (size (func_bytes m this_tb) + size sub))) with 5.
  replace (5 + (5 + (size (func_bytes m this_tb) + size sub))) with (size (func_bytes m this_tb) + size sub + 10) by lia. done.
Qed.

Lemma blob_reads m this_tb h sub cs ts : htab_ok h -> num_helper_funcs h <= 127 -> size sub <= SUB_BUF_MAX ->
  List.last sub 0 = 0x0b -> length cs = length (target_helper_funcs h) -> Forall callee_ok cs ->
  target_helper_types h = concat ts -> Forall2 (fun c t => callee_type c = Some t) cs ts ->
  read_module (blob_of m this_tb h sub) = Some (meant m this_tb (callee_sig <$> cs) sub).
Proof.
  intros [_ Hp] Hn Hs He Hlen Hok Ets Hts. change WASM_HELPER_ADDED_TYPES_SECTION_MAX with 3216 in Hp.
  unfold SUB_BUF_MAX, target_helper_types_pos in *. unfold blob_of. cbv zeta.
  set (n := num_helper_funcs h) in *. assert (En : n = Z.of_nat (length cs)) by (unfold n, num_helper_funcs; lia).
  assert (Hf : 0 <= size (func_bytes m this_tb) <= 500) by (destruct m as [[] [] [] []]; vm_compute; split; discriminate).
  pose proof (import_entries_size n ltac:(lia)) as Hi. unfold imports_size in Hi.
  assert (0 <= size sub) by (unfold size; lia). change (Z.of_nat (length ?x)) with (size x) in Hp.
  rewrite part_a_sect, part_b_sect, part_c_sect, part_d_sect, Ets in *. unfold read_module. rewrite <- !app_assoc.
  rewrite (read_bytes_app (take 8 mod_header_a)). cbn [mbind option_bind].
  rewrite (read_section_app 1 _ _ (([0x7f], [0x7f]) :: (callee_sig <$> cs))); cbn [mbind option_bind];
    [| unfold types_part, is_u; rewrite !size_app; unfold size in *; cbn; lia
     | unfold types_part; rewrite En; apply read_types; [unfold is_u; lia | done | done]].
  rewrite (read_section_app 2 _ _ (meant_imports (Z.to_nat n))); cbn [mbind option_bind];
    [| unfold imports_part, is_u; rewrite !size_app; unfold size in *; cbn; lia | apply read_imports; lia].
  rewrite (read_section_small 3 _ _ [0]) by done. cbn [mbind option_bind].
  rewrite (read_section_small 6 _ _ (repeat (0x7e, 1, 0) 25)) by (vm_compute; reflexivity). cbn [mbind option_bind].
  rewrite (read_section_small 7 _ _ [(start_name, 0, n)]) by (try done; apply read_exports; unfold is_u; lia).
  cbn [mbind option_bind].
  rewrite <- (app_nil_r (sect 10 _)).
  rewrite (read_section_app 10 _ _ [(meant_locals m, prologue m this_tb ++ sub)]); cbn [mbind option_bind];
    [| unfold code_part, is_u; rewrite !size_app, !leb5_size; lia | apply read_code; [unfold is_u; lia | done]].
  rewrite !bool_decide_eq_true_2 by done. cbn [andb]. unfold meant. rewrite length_fmap. by rewrite En, Nat2Z.id.
Qed.

(** ** The helper tables *)

(** The calls of a body: every helper has one declaration. *)
Fixpoint use_helpers (decl : Z -> callee) (calls : list Z) (h : htab) : gres htab :=
  match calls with
  | [] => GOk h
  | f :: calls => gbind (use_helper f (decl f) h) (fun '(_, h) => use_helpers decl calls h)
  end.

Lemma callee_type_some c : callee_ok c -> exists t, callee_type c = Some t /\ size t <= 12.
Proof.
  destruct c as [tm | | is_64]; cbn [callee_ok callee_type]; [| by eexists | by eexists].
  intros [Htm Hc]. unfold gen_func_type. rewrite args_exact by done. cbn [mbind option_bind].
  change (Z.land tm 7) with (type_code tm 0). specialize (Hc 0 ltac:(lia)).
  destruct (result_types_exact (type_code tm 0) (type_code_range tm 0) Hc) as (-> & _ & Hrl). cbn [mbind option_bind].
  eexists. split; [done |]. destruct (arg_types_val tm 1 7) as [_ Hal].
  set (ps := if type_code tm 0 =? dh_typecode_i128 then 0x7f :: arg_types tm 1 7 else arg_types tm 1 7). assert (Hps : (length ps <= 8)%nat) by (unfold ps; destruct (_ =? _); cbn [length]; lia).
  rewrite signature_bytes by lia. unfold size. cbn [length]. rewrite length_app. cbn [length]. lia.
Qed.

(** The tables hold the declared signature of every helper called, once. *)
Record tables (decl : Z -> callee) (seen : list Z) (h : htab) : Prop := {
  tb_nodup : NoDup (target_helper_funcs h);
  tb_same : forall f, f ∈ target_helper_funcs h <-> f ∈ seen;
  tb_types : exists ts, target_helper_types h = concat ts /\
    Forall2 (fun c t => callee_type c = Some t) (decl <$> target_helper_funcs h) ts;
  tb_num : num_helper_funcs h <= WASM_NUM_HELPER_FUNCS_MAX;
  tb_pos : target_helper_types_pos h <= 12 * num_helper_funcs h
}.

Lemma helper_idx_spec l f i : 0 <= i ->
  (helper_idx_from i l f < 0 -> f ∉ l) /\
  (0 <= helper_idx_from i l f -> i <= helper_idx_from i l f /\ l !! Z.to_nat (helper_idx_from i l f - i) = Some f).
Proof.
  revert i. induction l as [| x l IH]; intros i Hi; cbn [helper_idx_from].
  - split; [by intros _ ?%elem_of_nil | lia].
  - destruct (Z.eqb_spec x f) as [-> | Hne]; [split; [lia |]; intros _; split; [lia |]; by rewrite Z.sub_diag |].
    destruct (IH (i + 1) ltac:(lia)) as [H1 H2]. split.
    + intros H. apply not_elem_of_cons. split; [done | by apply H1].
    + intros H. destruct (H2 H) as [H3 H4]. split; [lia |].
      replace (Z.to_nat (helper_idx_from (i + 1) l f - i)) with (S (Z.to_nat (helper_idx_from (i + 1) l f - (i + 1)))) by lia.
      done.
Qed.

Lemma tables_init decl : tables decl [] htab_init.
Proof. split; cbn; [apply NoDup_nil_2 | done | exists []; split; [done | apply Forall2_nil] | done | done]. Qed.

Lemma use_helper_tables decl seen h f : callee_ok (decl f) -> tables decl seen h ->
  match use_helper f (decl f) h with
  | GOk (i, h') => tables decl (f :: seen) h' /\ 0 <= i /\ target_helper_funcs h' !! Z.to_nat i = Some f
  | GOverflow => (f ∉ target_helper_funcs h) /\ num_helper_funcs h = WASM_NUM_HELPER_FUNCS_MAX
  | GAssert => False
  end.
Proof.
  intros Hok [Hnd Hsame (ts & Ets & Hts) Hnum Hpos]. unfold use_helper, get_wasm_helper_idx.
  destruct (helper_idx_spec (target_helper_funcs h) f 0 ltac:(lia)) as [Hnew Hold].
  set (i := helper_idx_from 0 (target_helper_funcs h) f) in *. destruct (Z.ltb_spec i 0) as [Hi | Hi].
  - specialize (Hnew Hi). unfold wasm_register_helper. destruct (Z.leb_spec WASM_NUM_HELPER_FUNCS_MAX (num_helper_funcs h)).
    { cbn [gbind]. split; [done | lia]. }
    cbn [gbind]. unfold add_helper_type. cbn [target_helper_types_pos target_helper_types].
    change (target_helper_types_pos {| target_helper_funcs := _; target_helper_types := _ |}) with (target_helper_types_pos h).
    unfold WASM_NUM_HELPER_FUNCS_MAX in *. destruct (Z.ltb_spec WASM_HELPER_ADDED_TYPES_SECTION_MAX (target_helper_types_pos h + WASM_HELPER_TYPE_MAX_BYTES)) as [Ho | Ho].
    { change WASM_HELPER_ADDED_TYPES_SECTION_MAX with 3216 in Ho. change WASM_HELPER_TYPE_MAX_BYTES with 16 in Ho. lia. }
    destruct (callee_type_some _ Hok) as (t & Et & Hst). rewrite Et. cbn [gbind target_helper_funcs target_helper_types].
    assert (Hn1 : num_helper_funcs h + 1 = Z.of_nat (length (target_helper_funcs h ++ [f]))).
    { unfold num_helper_funcs. rewrite length_app. cbn. lia. }
    split; [split; cbn [target_helper_funcs target_helper_types] |].
    + apply list.NoDup_app. split; [done |]. split; [by intros x Hx ->%list_elem_of_singleton | apply NoDup_singleton].
    + intros x. rewrite elem_of_app, Hsame, list_elem_of_singleton, elem_of_cons. tauto.
    + exists (ts ++ [t]). rewrite concat_app, fmap_app. cbn [concat]. rewrite app_nil_r, Ets. split; [done |].
      apply Forall2_app; [done | by repeat constructor].
    + unfold num_helper_funcs. cbn [target_helper_funcs]. unfold WASM_NUM_HELPER_FUNCS_MAX. lia.
    + unfold num_helper_funcs, target_helper_types_pos in *. cbn [target_helper_funcs target_helper_types].
      rewrite length_app. unfold size in Hst. lia.
    + unfold num_helper_funcs in *. split; [lia |]. rewrite Nat2Z.id. by apply list_lookup_middle.
  - destruct (Hold Hi) as [_ Hlk]. rewrite Z.sub_0_r in Hlk. split; [| done]. split; try done; [| by exists ts].
    intros x. rewrite Hsame, elem_of_cons. split; [tauto |]. intros [-> | ?]; [| done].
    apply Hsame. by eapply list_elem_of_lookup_2.
Qed.

Lemma tables_ok decl seen h : tables decl seen h -> htab_ok h.
Proof.
  intros [_ _ _ Hn Hp]. split; [done |]. unfold WASM_NUM_HELPER_FUNCS_MAX in Hn.
  change WASM_HELPER_ADDED_TYPES_SECTION_MAX with 3216. lia.
Qed.

Lemma use_helpers_tables decl : (forall f, callee_ok (decl f)) -> forall calls seen h, tables decl seen h ->
  match use_helpers decl calls h with
  | GOk h' => exists seen', tables decl seen' h' /\ forall f, f ∈ seen' <-> f ∈ seen \/ f ∈ calls
  | GOverflow => exists l, NoDup l /\ (forall f, f ∈ l -> f ∈ seen \/ f ∈ calls) /\ WASM_NUM_HELPER_FUNCS_MAX < Z.of_nat (length l)
  | GAssert => False
  end.
Proof.
  intros Hdecl calls. induction calls as [| f calls IH]; intros seen h Ht; cbn [use_helpers].
  { exists seen. split; [done |]. intros f. rewrite elem_of_nil. tauto. }
  pose proof (use_helper_tables decl seen h f (Hdecl f) Ht) as Hu.
  destruct (use_helper f (decl f) h) as [[i h1] | |]; cbn [gbind]; [| | done].
  - destruct Hu as [Ht1 _]. specialize (IH (f :: seen) h1 Ht1). destruct (use_helpers decl calls h1) as [h2 | |]; [| | done].
    + destruct IH as (seen' & Ht2 & Hs). exists seen'. split; [done |]. intros x. rewrite Hs, !elem_of_cons. tauto.
    + destruct IH as (l & Hnd & Hl & Hlen). exists l. split; [done |]. split; [| done].
      intros x Hx%Hl. rewrite elem_of_cons in *. tauto.
  - destruct Hu as [Hf Hn]. exists (f :: target_helper_funcs h). split; [apply list.NoDup_cons; split; [done | apply (tb_nodup _ _ _ Ht)] |].
    split; [| cbn [length]; unfold num_helper_funcs in Hn; lia].
    intros x [-> | Hx]%elem_of_cons; [right; left |]. left. by apply (tb_same _ _ _ Ht).
Qed.

(** Reading this block's address back. *)
Lemma read_signed_more k bits v l l' : read_signed k (bits - 7) l = Some (v / 128, l') ->
  read_signed (S k) bits (Z.lor (Z.land v 0x7f) 0x80 :: l) = Some (v, l').
Proof.
  intros Hr. pose proof (Z.mod_pos_bound v 128 ltac:(lia)). rewrite low7, Z.lor_comm, cont7 by done. cbn [read_signed].
  rewrite (proj2 (Z.ltb_ge _ _)) by lia. rewrite Hr. cbn. do 2 f_equal. pose proof (Z.div_mod v 128). lia.
Qed.

Lemma read_this_tb v l : is_s 32 v ->
  read_s32 ([Z.lor (Z.land v 0x7f) 0x80; Z.lor (Z.land (Z.shiftr v 7) 0x7f) 0x80;
             Z.lor (Z.land (Z.shiftr v 14) 0x7f) 0x80; Z.lor (Z.land (Z.shiftr v 21) 0x7f) 0x80;
             Z.land (Z.shiftr v 28) 0x7f] ++ l) = Some (v, l).
Proof.
  unfold is_s. intros Hv.
  assert (Hs : forall k, 0 <= k -> Z.shiftr v k / 128 = Z.shiftr v (k + 7)).
  { intros k Hk. rewrite <- shift7, Z.shiftr_shiftr by lia. done. }
  unfold read_s32. cbn [app]. apply read_signed_more. rewrite <- shift7.
  apply read_signed_more. rewrite Hs by lia. apply read_signed_more. rewrite Hs by lia. apply read_signed_more.
  rewrite Hs by lia. change (21 + 7) with 28. change (14 + 7) with 21. rewrite low7.
  assert (Hw : -8 <= Z.shiftr v 28 < 8).
  { rewrite Z.shiftr_div_pow2 by lia. split; [apply Z.div_le_lower_bound; lia | apply Z.div_lt_upper_bound; lia]. }
  cbn [read_signed]. destruct (Z_lt_le_dec (Z.shiftr v 28) 0).
  - rewrite <- (Z.mod_unique_pos (Z.shiftr v 28) 128 (-1) (Z.shiftr v 28 + 128)) by lia.
    rewrite (proj2 (Z.ltb_lt _ _)), (proj2 (Z.ltb_ge _ 64)) by lia. cbv zeta.
    replace (Z.shiftr v 28 + 128 - 128) with (Z.shiftr v 28) by lia.
    rewrite (proj2 (Z.leb_le _ _)), (proj2 (Z.ltb_lt _ _)) by (cbn; lia). done.
  - rewrite Z.mod_small, (proj2 (Z.ltb_lt _ 128)), (proj2 (Z.ltb_lt _ 64)) by lia. cbv zeta.
    rewrite (proj2 (Z.leb_le _ _)), (proj2 (Z.ltb_lt _ _)) by (cbn; lia). done.
Qed.

(** ** How far the writing goes *)

Definition extent (t : tail) : Z := match t with Written b => size b | TooLong n => n end.

Lemma fill_size off v b : size (fill_uint32_leb128 off v b) = size b.
Proof.
  assert (H : forall k v b, length (leb_fill_loop k v b) = length b).
  { intros k. induction k as [| k IH]; intros v' [| x b']; try done. cbn [leb_fill_loop length].
    destruct (_ =? 0); [done |]. by rewrite IH. }
  unfold fill_uint32_leb128, size. rewrite length_app, H, <- length_app, take_drop. done.
Qed.

Lemma room_extent code_ptr highwater b n k X : 0 <= X ->
  code_ptr + size b <= highwater + X ->
  (code_ptr + size b + n <= highwater -> code_ptr + extent k <= highwater + X) ->
  code_ptr + extent (room code_ptr highwater b n k) <= highwater + X.
Proof. intros HX Hb Hk. unfold room. destruct (Z.ltb_spec highwater (code_ptr + size b + n)); [done | apply Hk; lia]. Qed.

Lemma header_d_size m this_tb : size (wasm_write_header_d m this_tb) = wasm_header_d_size m.
Proof. destruct (header_d_split m this_tb) as [-> ->]. rewrite !size_app. change (size placeholder) with 5. change (size [0x0a]) with 1. lia. Qed.

Lemma funcs_size l : size (concat (le32 <$> l)) = 4 * Z.of_nat (length l).
Proof. induction l as [| x l IH]; [done |]. cbn [fmap list_fmap concat]. rewrite size_app, IH. change (size (le32 x)) with 4. cbn [length]. lia. Qed.

Lemma size_drop4 b : size (drop 4 b) = Z.max 0 (size b - 4).
Proof. unfold size. rewrite length_drop. lia. Qed.

Lemma size_le32 v : size (le32 v) = 4.
Proof. done. Qed.

Create Rewrite HintDb sizes.
#[export] Hint Rewrite fill_size size_drop4 size_app size_le32 header_d_size funcs_size : sizes.

Lemma size_nonneg b : 0 <= size b.
Proof. unfold size. lia. Qed.

Lemma tail_extent code_ptr highwater lazy regen m this_tb h sub : code_ptr <= highwater -> htab_ok h ->
  code_ptr + extent (wasm_tail code_ptr highwater lazy regen m this_tb h sub) <=
  highwater + Z.max 4 (imports_size (num_helper_funcs h)).
Proof.
  intros Hc [Hn _]. unfold WASM_NUM_HELPER_FUNCS_MAX in Hn. unfold wasm_tail. cbv zeta.
  set (n := num_helper_funcs h) in *. assert (H0 : 0 <= n) by (unfold n, num_helper_funcs; lia).
  pose proof (import_entries_size n ltac:(lia)) as He. set (X := Z.max 4 (imports_size n)).
  assert (HX : 4 <= X /\ imports_size n <= X) by (unfold X; lia). clearbody X.
  destruct (lazy && negb regen).
  { apply room_extent; [lia | change (size []) with 0; lia |]. change (extent _) with 8. change (size []) with 0. lia. }
  unfold write_wasm_type_section_size, write_wasm_memory_size, write_wasm_import_section_size,
    write_wasm_export_section_size, write_wasm_code_size. cbv zeta.
  pose proof (size_nonneg sub). pose proof (size_nonneg (target_helper_types h)) as Hts.
  assert (Hi : 0 <= imports_size n) by (unfold imports_size; lia).
  pose proof (size_nonneg mod_header_a). pose proof (size_nonneg mod_header_b). pose proof (size_nonneg mod_header_c).
  pose proof (size_nonneg (wasm_write_header_d m this_tb)) as Hd. rewrite header_d_size in Hd.
  change (target_helper_types_pos h) with (size (target_helper_types h)) in *.
  assert (Hnf : Z.of_nat (length (target_helper_funcs h)) = n) by done.
  repeat (apply room_extent; [lia | autorewrite with sizes; rewrite ?He; lia | let Hr := fresh in intros Hr; autorewrite with sizes in Hr; rewrite ?He in Hr]).
  cbn [extent]. autorewrite with sizes. rewrite ?He. lia.
Qed.

(** ** The theorems *)

(** C14: the generated module is well formed and the one meant.  Whatever helpers a
    body calls (up to 127 of them) and whatever the settings, if the code fits,
    what follows the size word reads as a WebAssembly module with the start
    function's type and the declared signature of every helper, the memory, the
    table and the helpers imported in the order of their indices, and one
    exported function with the prologue and the generated body; the list of helper
    addresses follows it; nothing is written past the high-water mark; and the
    block's own address in the chaining check is the right one. *)
Theorem module_parses (decl : Z -> callee) (calls : list Z) (h : htab) (m : wmode) (this_tb : Z)
  (sub out : list Z) (lazy regen : bool) (code_ptr highwater : Z)
  (Hdecl : forall f, callee_ok (decl f)) (Hh : use_helpers decl calls htab_init = GOk h)
  (Hn : num_helper_funcs h <= 127) (Hlazy : lazy && negb regen = false)
  (Hsub : size sub <= SUB_BUF_MAX) (Hend : List.last sub 0 = 0x0b)
  (Hout : wasm_tail code_ptr highwater lazy regen m this_tb h sub = Written out) :
  (exists blob,
     out = le32 (size blob) ++ blob ++ le32 (num_helper_funcs h * 4) ++ concat (le32 <$> target_helper_funcs h) /\
     read_module blob = Some (meant m this_tb (callee_sig <$> (decl <$> target_helper_funcs h)) sub)) /\
  code_ptr + size out <= highwater /\
  (wasm_reg_locals m = true -> wasm_tail_chain m = true ->
   read_s32 (drop (length mod_header_d_loc_a + WASM_THIS_TB_LEB_POS) (prologue m this_tb)) =
   Some (s32 this_tb, drop (length mod_header_d_loc_a + WASM_THIS_TB_LEB_POS + 5) (prologue m this_tb))).
Proof.
  pose proof (use_helpers_tables decl Hdecl calls [] htab_init (tables_init decl)) as Ht. rewrite Hh in Ht.
  destruct Ht as (seen & Ht & _). destruct (tb_types _ _ _ Ht) as (ts & Ets & Hts).
  destruct (tail_written _ _ _ _ _ _ _ _ _ Hlazy (tables_ok _ _ _ Ht) Hsub Hout) as [Eo Hhw]. split; [| split; [done |]].
  - eexists. split; [exact Eo |]. eapply blob_reads; [by eapply tables_ok | done | done | done | by rewrite length_fmap | | done | done].
    apply list.Forall_forall. intros c (f & -> & _)%list_elem_of_fmap. apply Hdecl.
  - intros Hr Hc. assert (Hv : is_s 32 (s32 this_tb)) by (apply sw_range; lia). unfold prologue. rewrite Hr, Hc. cbn [negb].
    unfold chain_with. cbv zeta. generalize dependent (s32 this_tb). intros v Hv.
    by destruct (wasm_chain_nested m); apply read_this_tb.
Qed.

(** the helper tables are exact and within bounds.  After the calls of a body
    every helper is in the table once, at the index its calls use; no assertion
    fails; and translation is abandoned only when there really are more than 200
    different helpers: the signatures never run out of room first. *)
Theorem helper_tables_exact (decl : Z -> callee) (calls : list Z) (Hdecl : forall f, callee_ok (decl f)) :
  match use_helpers decl calls htab_init with
  | GOk h =>
      NoDup (target_helper_funcs h) /\ (forall f, f ∈ target_helper_funcs h <-> f ∈ calls) /\
      num_helper_funcs h <= WASM_NUM_HELPER_FUNCS_MAX /\
      target_helper_types_pos h <= WASM_HELPER_ADDED_TYPES_SECTION_MAX /\
      (forall f, f ∈ calls -> exists i, use_helper f (decl f) h = GOk (i, h) /\
         target_helper_funcs h !! Z.to_nat i = Some f)
  | GOverflow => exists l, NoDup l /\ l ⊆ calls /\ WASM_NUM_HELPER_FUNCS_MAX < Z.of_nat (length l)
  | GAssert => False
  end.
Proof.
  pose proof (use_helpers_tables decl Hdecl calls [] htab_init (tables_init decl)) as Ht.
  destruct (use_helpers decl calls htab_init) as [h | |]; [| | done].
  - destruct Ht as (seen & Ht & Hs). assert (Hsame : forall f, f ∈ target_helper_funcs h <-> f ∈ calls).
    { intros f. rewrite (tb_same _ _ _ Ht), Hs, elem_of_nil. tauto. }
    destruct (tables_ok _ _ _ Ht) as [Hn Hp].
    split; [apply (tb_nodup _ _ _ Ht) | split; [done | split; [done | split; [done |]]]].
    intros f Hf. unfold use_helper, get_wasm_helper_idx.
    destruct (helper_idx_spec (target_helper_funcs h) f 0 ltac:(lia)) as [Hnew Hold].
    set (i := helper_idx_from 0 (target_helper_funcs h) f) in *. destruct (Z.ltb_spec i 0) as [Hi | Hi].
    + exfalso. by apply (Hnew Hi), Hsame.
    + destruct (Hold Hi) as [_ Hlk]. rewrite Z.sub_0_r in Hlk. by exists i.
  - destruct Ht as (l & Hnd & Hl & Hlen). exists l. split; [done |]. split; [| done].
    intros f Hf. destruct (Hl f Hf) as [[]%elem_of_nil | ?]; done.
Qed.

Lemma types_part_size n ts : size (types_part n ts) = 10 + size ts.
Proof. unfold types_part. rewrite !size_app, leb5_size. change (size (drop 19 mod_header_a)) with 5. lia. Qed.

Lemma imports_part_size n : size (imports_part n) = 38 + size (import_entries n).
Proof.
  unfold imports_part. rewrite !size_app, !leb5_size. change (size (take 14 (drop 11 mod_header_b))) with 14.
  change (size (drop 30 mod_header_b)) with 14. lia.
Qed.

Lemma read_section_any {A} id (p : reader A) c l : is_u 32 (size c) ->
  read_section id p (sect id c ++ l) = match p c with Some (x, []) => Some (x, l) | _ => None end.
Proof.
  intros Hs. unfold read_section, read_byte, sect. cbn [mbind option_bind app]. rewrite <- app_assoc.
  rewrite read_leb5 by done. cbn [mbind option_bind]. rewrite read_bytes_app. cbn [mbind option_bind].
  destruct (p c) as [[x [| y r]] |]; cbn [mbind option_bind]; rewrite ?Z.eqb_refl; done.
Qed.

Lemma imports_unreadable n : 128 <= n <= 200 -> read_vec read_import (imports_part n) = None.
Proof.
  intros Hn. assert (Hall : forallb (fun k =>
    match read_vec read_import (imports_part (Z.of_nat k)) with None => true | Some _ => false end) (seq 128 73) = true)
    by (vm_compute; reflexivity).
  rewrite List.forallb_forall in Hall. specialize (Hall (Z.to_nat n)). rewrite Z2Nat.id in Hall by lia.
  destruct (read_vec read_import (imports_part n)); [| done].
  assert (Hin : List.In (Z.to_nat n) (seq 128 73)) by (apply List.in_seq; lia). by specialize (Hall Hin).
Qed.

(** C32: with more than 127 helpers the module is broken.  The tables take up to 200
    helpers, but an import's type index is written as one byte, which is not the
    encoding of an index above 127: no such module can be read. *)
Theorem many_helpers_break (m : wmode) (this_tb : Z) (h : htab) (sub : list Z)
  (Hh : htab_ok h) (Hn : 128 <= num_helper_funcs h) :
  read_module (blob_of m this_tb h sub) = None.
Proof.
  destruct Hh as [Hm Hp]. unfold WASM_NUM_HELPER_FUNCS_MAX in Hm. change WASM_HELPER_ADDED_TYPES_SECTION_MAX with 3216 in Hp.
  change (target_helper_types_pos h) with (size (target_helper_types h)) in Hp. unfold blob_of. cbv zeta.
  set (n := num_helper_funcs h) in *. clearbody n.
  pose proof (import_entries_size n ltac:(lia)) as Hi. unfold imports_size in Hi. pose proof (size_nonneg (target_helper_types h)).
  rewrite part_a_sect, part_b_sect. unfold read_module. rewrite <- !app_assoc, (read_bytes_app (take 8 mod_header_a)).
  cbn [mbind option_bind]. rewrite read_section_any by (unfold is_u; rewrite types_part_size; lia).
  destruct (read_vec read_functype _) as [[x [|]] |]; [cbn [mbind option_bind] | done | done].
  rewrite read_section_any by (unfold is_u; rewrite imports_part_size; lia).
  by rewrite imports_unreadable by lia.
Qed.

(** generating a module writes no other thread's memory.  The checks against
    the high-water mark leave out the import entries; whatever the tables hold,
    nothing is written more than 1466 bytes past the end of the region the thread
    owns, which is inside the guard page that follows it, and nothing at all past
    its end with up to 86 helpers. *)
Theorem module_write_confined (r : region_cfg) (k code_ptr : Z) (lazy regen : bool) (m : wmode) (this_tb : Z)
  (h : htab) (sub : list Z) (Hh : htab_ok h)
  (Hptr : code_ptr <= code_gen_highwater (tcg_region_assign r k)) :
  let t := wasm_tail code_ptr (code_gen_highwater (tcg_region_assign r k)) lazy regen m this_tb h sub in
  code_ptr + extent t <= snd (tcg_region_bounds r k) + 1466 /\
  (num_helper_funcs h <= 86 -> code_ptr + extent t <= snd (tcg_region_bounds r k)).
Proof.
  intros t. pose proof (tail_extent code_ptr _ lazy regen m this_tb h sub Hptr Hh) as Ht. fold t in Ht.
  destruct Hh as [Hn _]. unfold WASM_NUM_HELPER_FUNCS_MAX in Hn.
  assert (H0 : 0 <= num_helper_funcs h) by (unfold num_helper_funcs; lia).
  unfold tcg_region_assign in Ht. destruct (tcg_region_bounds r k) as [start end_]. cbn [code_gen_highwater snd] in *.
  unfold TCG_HIGHWATER, imports_size in Ht. split; lia.
Qed.

Module ModuleDemo.
(** A body that calls a helper with two arguments and a 64-bit result twice, and
    the slow path of a 64-bit store. *)
Definition decl (f : Z) : callee := if f =? 1000 then Helper 0x1a4 else StoreSlow true.
Definition calls : list Z := [1000; 1004; 1000].
Definition mode : wmode :=
  {| wasm_reg_locals := true; wasm_fp_locals := false; wasm_tail_chain := true; wasm_chain_nested := false |}.
Definition sub : list Z := [0x0b; 0x0b; 0x00; 0x0b].
Definition h : htab := match use_helpers decl calls htab_init with GOk h => h | _ => htab_init end.
Definition out : list Z :=
  match wasm_tail 0x10000 0x20000 false false mode 0xfff00000 h sub with Written b => b | TooLong _ => [] end.

Lemma decl_ok f : callee_ok (decl f).
Proof.
  unfold decl. destruct (f =? 1000); [| done]. split; [lia |]. intros j Hj.
  assert (Hc : j = 0 \/ j = 1 \/ j = 2 \/ j = 3 \/ j = 4 \/ j = 5 \/ j = 6 \/ j = 7) by lia.
  by destruct Hc as [-> | [-> | [-> | [-> | [-> | [-> | [-> | ->]]]]]]].
Qed.

Lemma demo_tables : use_helpers decl calls htab_init = GOk h.
Proof. reflexivity. Qed.

Lemma demo_ok : htab_ok h.
Proof. by split; vm_compute. Qed.

Lemma module_parses_witness :
  size out = 452 /\ (exists blob, out = le32 (size blob) ++ blob ++ le32 8 ++ concat (le32 <$> [1000; 1004]) /\
    read_module blob = Some (meant mode 0xfff00000 [([0x7e; 0x7f], [0x7e]); ([0x7f; 0x7e; 0x7e; 0x7f; 0x7f], [])] sub)).
Proof.
  split; [vm_compute; reflexivity |].
  destruct (module_parses decl calls h mode 0xfff00000 sub out false false 0x10000 0x20000 decl_ok demo_tables
    ltac:(vm_compute; discriminate) eq_refl ltac:(vm_compute; discriminate) eq_refl ltac:(vm_compute; reflexivity))
    as ((blob & E & Hr) & _ & _).
  exists blob. split; [exact E | exact Hr].
Defined.

Lemma helper_tables_exact_witness : callee_ok (decl 1000) /\
  exists h, use_helpers decl calls htab_init = GOk h /\ NoDup (target_helper_funcs h).
Proof.
  split; [apply decl_ok |]. exists h. split; [exact demo_tables |].
  pose proof (helper_tables_exact decl calls decl_ok) as Ht. rewrite demo_tables in Ht. exact (proj1 Ht).
Defined.

(** 128 helpers. *)
Definition full : htab :=
  {| target_helper_funcs := Z.of_nat <$> seq 1 128; target_helper_types := concat (repeat gen_func_type_qemu_ld 128) |}.

Lemma many_helpers_break_witness :
  use_helpers (fun _ => LoadSlow) (Z.of_nat <$> seq 1 128) htab_init = GOk full /\
  read_module (blob_of mode 0 full sub) = None.
Proof.
  split; [vm_compute; reflexivity |]. apply (many_helpers_break mode 0 full sub); [split |]; vm_compute; discriminate.
Defined.

Definition region : region_cfg :=
  {| start_aligned := 0x100000; after_prologue := 0x100000; n_regions := 2; rsize := 0xff000; stride := 0x100000;
     total_size := 0x1ff000 |}.

Lemma module_write_confined_witness :
  code_gen_highwater (tcg_region_assign region 0) = 0x1fec00 /\
  0x1fec00 + extent (wasm_tail 0x1fec00 0x1fec00 false false mode 0 full sub) <= 0x1ff000 + 1466.
Proof.
  split; [reflexivity |].
  refine (proj1 (module_write_confined region 0 0x1fec00 false false mode 0 full sub _ _)); [split |]; vm_compute; discriminate.
Defined.
End ModuleDemo.
