(* ===== verification/WasmControl.v ===== *)
(** * Control flow of the compiled code

    WebAssembly has no jumps to labels.  The backend
    (tcg/wasm32/tcg-target.c.inc, [tcg_wasm_out_op_br_to_label],
    [tcg_wasm_out_label_idx], [tcg_wasm_out_call], [tcg_wasm_out_qemu_ld],
    [tcg_wasm_out_goto_ptr], [tcg_wasm_out_goto_tb], [tcg_wasm_out_chain]; the end of
    [tcg_gen_code] in tcg/tcg.c) cuts a block's operations into numbered pieces, one at every label
    and at every call that may unwind, each inside an [if] on the block pointer, all
    inside one loop: a branch stores the number of its label in the block pointer
    and leaves the piece, or goes to the top of the loop when the label lies
    behind.  The number of the piece a call is in is saved, so that a call that
    unwound is made again when the block is entered the next time.  A block that goes
    on to another one calls that block's function itself, when there is one and the
    budget is not spent (chaining), by a tail call or by a call whose result it
    returns.

    The instructions that are not about control (arithmetic, guest memory,
    comparisons, the helpers themselves, the loads and stores of the chaining code)
    are parameters acting on a state [St]; so is what the function a block chains to
    does, which need not return.

    The theorems: the emitted instructions are properly nested, and running them
    is running the operations with their labels, from the start and after an
    unwinding. *)
From S2P Require Import Prelude WasmModule.

Definition LABEL_MAX : Z := 200.
(** Entries of [current_label]. *)
Definition CURRENT_LABEL_SIZE : Z := 100.

Section Control.
(** Straight-line operations, conditions, calls. *)
Context {OpT CondT CallT : Type}.
(** Chaining: whether it is on, whether by nested calls; the budget is decremented
    ([chain_spend]) and tested ([chain_left]); the successor's slot is loaded
    ([chain_slot]) and tested ([chain_has]); the slot's block is compared with the
    successor ([chain_own]); the slot is marked used ([chain_used]). *)
Context (wasm_tail_chain wasm_chain_nested : bool).
Context (chain_spend chain_slot chain_used : OpT) (chain_left chain_has chain_own : CondT).

(** The operations of a block after register allocation.  A guest access is an
    [Op] (the TLB lookup and the fast path) followed by a [Slow] (the call made
    when the lookup missed).  [GotoPtr] has its comparison with the block itself, its
    stores, and the copy of its operand with the test for zero. *)
Inductive top :=
| Op (o : OpT)
| Label (l : Z)
| Br (l : Z)
| Brcond (c : CondT) (l : Z)
| Call (h : CallT)
| Slow (miss : CondT) (h : CallT)
| ExitTb (o : OpT) (arg : Z)
| GotoPtr (self : CondT) (o next : OpT) (nonnull : CondT)
| GotoTb (chained self : CondT) (o : OpT).

(** Instructions; [IPlace l] is an [i64.const] whose operand is filled in at the
    end, [IUnwound] tests whether the last call unwound ([unwinding] is 1, or
    [done_flag] is 0), [ICallNext] is the [call_indirect] of the successor and
    [IReturnCallNext] the [return_call_indirect]. *)
Inductive instr :=
| IOp (o : OpT) | ITest (c : CondT) | ICall (h : CallT) | IUnwound | ICallNext | IReturnCallNext
| II64Const (v : Z) | IPlace (l : Z) | II32Const (v : Z)
| IBpGet | IBpSet | ISetResume | IEqz | ILeU
| IIf | ILoop | IEnd | IBr (depth : nat) | IReturn | IUnreachable.

(** ** Emission *)

Record est := {
  wasm_block_idx : Z;
  current_label : list Z;
  label_to_block : list (Z * Z);
  placeholders : Z;            (* block_ptr_placeholder_idx_pos *)
  code : list instr
}.

Definition out (ii : list instr) (s : est) : est :=
  {| wasm_block_idx := wasm_block_idx s; current_label := current_label s; label_to_block := label_to_block s;
     placeholders := placeholders s; code := code s ++ ii |}.

(** The test in front of piece [k]. *)
Definition guard_out (k : Z) : list instr := [IBpGet; II64Const k; ILeU; IIf].

(** [wasm_alloc_block_idx] and the end of the current piece. *)
Definition next_block (s : est) : est :=
  let k := wasm_block_idx s + 1 in
  {| wasm_block_idx := k; current_label := current_label s; label_to_block := label_to_block s;
     placeholders := placeholders s; code := code s ++ IEnd :: guard_out k |}.

(** [tcg_out_label_cb], with [wasm_add_label_context]. *)
Definition tcg_out_label_cb (l : Z) (s : est) : gres est :=
  if CURRENT_LABEL_SIZE <=? Z.of_nat (length (current_label s)) then GOverflow
  else
    let k := wasm_block_idx s + 1 in
    let label := l + 1 in
    if (label <? 0) || (LABEL_MAX <=? label) then GOverflow
    else GOk (next_block
      {| wasm_block_idx := wasm_block_idx s; current_label := current_label s ++ [l];
         label_to_block := (label, k) :: label_to_block s; placeholders := placeholders s; code := code s |}).

(** [tcg_wasm_out_op_br_to_label], with [wasm_add_label_block_ptr_placeholder]. *)
Definition br_to_label (l : Z) (br_if : bool) (s : est) : gres est :=
  let toploop_depth := if br_if then 2%nat else 1%nat in
  let s := out (if br_if then [IIf] else []) s in
  let label := l + 1 in
  if (LABEL_MAX <=? placeholders s) || (label <? 0) || (LABEL_MAX <=? label) then GOverflow
  else
    let found := bool_decide (l ∈ current_label s) in
    GOk (out ([IPlace label; IBpSet; IBr (if found then toploop_depth else toploop_depth - 1)] ++
              (if br_if then [IEnd] else []))
      {| wasm_block_idx := wasm_block_idx s; current_label := current_label s; label_to_block := label_to_block s;
         placeholders := placeholders s + 1; code := code s |}).

(** The resume point in front of a call that may unwind. *)
Definition resume_point (s : est) : est :=
  next_block (out [II64Const (wasm_block_idx s + 1); ISetResume] s).

(** [tcg_wasm_out_chain]. *)
Definition chain_out : list instr :=
  if wasm_tail_chain then
    [IOp chain_spend; ITest chain_left; IIf;
     IOp chain_slot; ITest chain_has; IIf;
     ITest chain_own; IIf; IOp chain_used] ++
    (if wasm_chain_nested then [ICallNext; IReturn] else [IReturnCallNext]) ++
    [IEnd; IEnd; IEnd]
  else [].

(** The chaining of [tcg_wasm_out_goto_ptr], for a successor that is not zero. *)
Definition ptr_chain_out (next : OpT) (nonnull : CondT) : list instr :=
  if wasm_tail_chain then [IOp next; ITest nonnull; IIf] ++ chain_out ++ [IEnd] else [].

Definition emit_top (t : top) (s : est) : gres est :=
  match t with
  | Op o => GOk (out [IOp o] s)
  | Label l => tcg_out_label_cb l s
  | Br l => br_to_label l false s
  | Brcond c l => br_to_label l true (out [ITest c] s)
  | Call h => GOk (out [ICall h; IUnwound; IIf; II32Const 0; IReturn; IEnd] (resume_point s))
  | Slow miss h =>
      GOk (out [ITest miss; IIf; ICall h; IUnwound; IIf; II32Const 0; IReturn; IEnd; IEnd] (resume_point s))
  | ExitTb o arg => GOk (out [IOp o; II32Const arg; IReturn] s)
  | GotoPtr self o next nonnull =>
      GOk (out ([ITest self; IIf; II64Const 0; IBpSet; IBr 2; IEnd; IOp o] ++ ptr_chain_out next nonnull ++
                [II32Const 0; IReturn]) s)
  | GotoTb chained self o =>
      GOk (out ([ITest chained; IIf; ITest self; IIf; II64Const 0; IBpSet; IBr 3; IEnd; IOp o] ++ chain_out ++
                [II32Const 0; IReturn; IEnd]) s)
  end.

Fixpoint emit_tops (ts : list top) (s : est) : gres est :=
  match ts with
  | [] => GOk s
  | t :: ts => gbind (emit_top t s) (emit_tops ts)
  end.

Definition est_init : est :=
  {| wasm_block_idx := 0; current_label := []; label_to_block := []; placeholders := 0; code := [] |}.

(** [label_to_block] holds -1 for labels not seen. *)
Fixpoint lookup_label (m : list (Z * Z)) (label : Z) : Z :=
  match m with
  | [] => -1
  | (l, k) :: m => if l =? label then k else lookup_label m label
  end.

Definition fill_place (m : list (Z * Z)) (i : instr) : instr :=
  match i with IPlace label => II64Const (lookup_label m label) | _ => i end.

(** The function: the loop and the first test are the end of the header, the rest
    is written by [tcg_gen_code]. *)
Definition function_body (ts : list top) : gres (list instr) :=
  gbind (emit_tops ts est_init) (fun s =>
  GOk ([ILoop; IBpGet; IEqz; IIf] ++ (fill_place (label_to_block s) <$> code s) ++ [IEnd; IEnd; IUnreachable; IEnd])).

(** ** WebAssembly *)

Inductive tree := TI (i : instr) | TIf (body : list tree) | TLoop (body : list tree).

(** Nesting: [cur] is the block being read, [stk] the blocks around it. *)
Fixpoint parse (ii : list instr) (cur : list tree) (stk : list (bool * list tree)) : option (list tree) :=
  match ii with
  | [] => None
  | IIf :: ii => parse ii [] ((false, cur) :: stk)
  | ILoop :: ii => parse ii [] ((true, cur) :: stk)
  | IEnd :: ii =>
      match stk with
      | (lp, par) :: stk => parse ii (par ++ [if lp : bool then TLoop cur else TIf cur]) stk
      | [] => match ii with [] => Some cur | _ => None end
      end
  | i :: ii => parse ii (cur ++ [TI i]) stk
  end.

Context {St : Type}.
Context (op_sem : OpT -> St -> St) (cond_sem : CondT -> St -> bool) (call_sem : CallT -> St -> St * bool).
(** What the function a block chains to does: the state, its result, whether it ended
    in a call that unwound, and the resume point it leaves; [None] when it does not
    return. *)
Context (next_sem : St -> option (St * Z * bool * Z)).
(** Whether registers and the block pointer are locals; otherwise the block pointer
    is the global that also holds the resume point. *)
Context (wasm_reg_locals : bool).

Record wst := { sg : St; bp_local : Z; bp_global : Z; unwound : bool; stack : list Z }.

Definition get_bp (w : wst) : Z := if wasm_reg_locals then bp_local w else bp_global w.
Definition set_stack (l : list Z) (w : wst) : wst :=
  {| sg := sg w; bp_local := bp_local w; bp_global := bp_global w; unwound := unwound w; stack := l |}.
Definition push (v : Z) (w : wst) : wst := set_stack (v :: stack w) w.
Definition set_bp (v : Z) (w : wst) : wst :=
  {| sg := sg w; bp_local := if wasm_reg_locals then v else bp_local w;
     bp_global := if wasm_reg_locals then bp_global w else v; unwound := unwound w; stack := stack w |}.
Definition set_resume (v : Z) (w : wst) : wst :=
  {| sg := sg w; bp_local := bp_local w; bp_global := v; unwound := unwound w; stack := stack w |}.
Definition set_sg (x : St) (w : wst) : wst :=
  {| sg := x; bp_local := bp_local w; bp_global := bp_global w; unwound := unwound w; stack := stack w |}.
Definition set_call (x : St * bool) (w : wst) : wst :=
  {| sg := fst x; bp_local := bp_local w; bp_global := bp_global w; unwound := snd x; stack := stack w |}.
Definition set_next (r : St * Z * bool * Z) (w : wst) : wst :=
  let '(x, v, u, g) := r in
  {| sg := x; bp_local := bp_local w; bp_global := g; unwound := u; stack := v :: stack w |}.

(** What executing instructions ends with; [WNever] when the successor does not
    return. *)
Inductive wout := WNormal (w : wst) | WBr (depth : nat) (w : wst) | WReturn (w : wst) (v : Z) | WTrap (w : wst) | WNever | WFuel.

Definition exec_instr (i : instr) (w : wst) : wout :=
  match i, stack w with
  | IOp o, _ => WNormal (set_sg (op_sem o (sg w)) w)
  | ITest c, _ => WNormal (push (b2z (cond_sem c (sg w))) w)
  | ICall h, _ => WNormal (set_call (call_sem h (sg w)) w)
  | IUnwound, _ => WNormal (push (b2z (unwound w)) w)
  | II64Const v, _ | II32Const v, _ => WNormal (push v w)
  | IBpGet, _ => WNormal (push (get_bp w) w)
  | IBpSet, v :: st => WNormal (set_bp v (set_stack st w))
  | ISetResume, v :: st => WNormal (set_resume v (set_stack st w))
  | IEqz, v :: st => WNormal (set_stack (b2z (v =? 0) :: st) w)
  | ILeU, y :: x :: st => WNormal (set_stack (b2z (x <=? y) :: st) w)
  | IBr d, _ => WBr d w
  | IReturn, v :: _ => WReturn w v
  | ICallNext, _ => match next_sem (sg w) with Some r => WNormal (set_next r w) | None => WNever end
  | IReturnCallNext, _ =>
      match next_sem (sg w) with Some r => WReturn (set_next r w) (snd (fst (fst r))) | None => WNever end
  | _, _ => WTrap w
  end.

(** Leaving a block of instructions with nothing on the stack above [st]. *)
Definition leave (st : list Z) (o : wout) (k : wst -> wout) : wout :=
  match o with
  | WNormal w => k (set_stack st w)
  | WBr 0 w => k (set_stack st w)
  | WBr (S d) w => WBr d (set_stack st w)
  | _ => o
  end.

Fixpoint loop_iter (fuel : nat) (body : wst -> wout) (st : list Z) (w : wst) : wout :=
  match fuel with
  | O => WFuel
  | S fuel =>
      match body w with
      | WNormal w => WNormal (set_stack st w)
      | WBr 0 w => loop_iter fuel body st (set_stack st w)
      | WBr (S d) w => WBr d (set_stack st w)
      | o => o
      end
  end.

(** The fuel bounds the iterations of a loop. *)
Fixpoint exec_tree (fuel : nat) (t : tree) (w : wst) {struct t} : wout :=
  let exec_list := fix exec_list (ts : list tree) (w : wst) : wout :=
    match ts with
    | [] => WNormal w
    | t :: ts => match exec_tree fuel t w with WNormal w => exec_list ts w | o => o end
    end in
  match t with
  | TI i => exec_instr i w
  | TIf body =>
      match stack w with
      | v :: st => if v =? 0 then WNormal (set_stack st w) else leave st (exec_list body (set_stack st w)) WNormal
      | [] => WTrap w
      end
  | TLoop body => loop_iter fuel (exec_list body) (stack w) w
  end.

Fixpoint exec_list (fuel : nat) (ts : list tree) (w : wst) : wout :=
  match ts with
  | [] => WNormal w
  | t :: ts => match exec_tree fuel t w with WNormal w => exec_list fuel ts w | o => o end
  end.

(** ** The meaning of the operations *)

(** A block ends by leaving with a value, by going on to its successor's function, by
    an unwinding call (with the operations to resume at), or runs off its end. *)
Inductive tend := TExit (x : St) (v : Z) | TNext (x : St) | TUnwound (x : St) (at_ : list top) | TFell (x : St).

(** The block that goes on to another leaves to the dispatcher with 0, unless it
    chains: then what is left of the budget is positive, the successor has a slot, and
    the slot is the successor's. *)
Definition go_on (x : St) : tend :=
  if wasm_tail_chain then
    let x := op_sem chain_spend x in
    if cond_sem chain_left x then
      let x := op_sem chain_slot x in
      if cond_sem chain_has x && cond_sem chain_own x then TNext (op_sem chain_used x) else TExit x 0
    else TExit x 0
  else TExit x 0.

Definition go_on_ptr (next : OpT) (nonnull : CondT) (x : St) : tend :=
  if wasm_tail_chain then
    let x := op_sem next x in if cond_sem nonnull x then go_on x else TExit x 0
  else TExit x 0.

Fixpoint after_label (l : Z) (ts : list top) : list top :=
  match ts with
  | [] => []
  | Label l' :: ts => if l' =? l then ts else after_label l ts
  | _ :: ts => after_label l ts
  end.

(** One operation of the program [prog]. *)
Definition tstep (prog ts : list top) (x : St) : list top * St + tend :=
  match ts with
  | [] => inr (TFell x)
  | Op o :: ts => inl (ts, op_sem o x)
  | Label _ :: ts => inl (ts, x)
  | Br l :: _ => inl (after_label l prog, x)
  | Brcond c l :: ts => inl (if cond_sem c x then after_label l prog else ts, x)
  | Call h :: ts' => let '(x, u) := call_sem h x in if u then inr (TUnwound x ts) else inl (ts', x)
  | Slow miss h :: ts' =>
      if cond_sem miss x
      then let '(x, u) := call_sem h x in if u then inr (TUnwound x ts) else inl (ts', x)
      else inl (ts', x)
  | ExitTb o arg :: _ => inr (TExit (op_sem o x) arg)
  | GotoPtr self o next nonnull :: _ =>
      if cond_sem self x then inl (prog, x) else inr (go_on_ptr next nonnull (op_sem o x))
  | GotoTb chained self o :: ts =>
      if cond_sem chained x
      then if cond_sem self x then inl (prog, x) else inr (go_on (op_sem o x))
      else inl (ts, x)
  end.

Fixpoint trun (n : nat) (prog ts : list top) (x : St) : option tend :=
  match n with
  | O => None
  | S n => match tstep prog ts x with inl (ts, x) => trun n prog ts x | inr e => Some e end
  end.

(** ** Pieces *)

(** The number of the piece after an operation, and the labels seen. *)
Definition step_blk (k : Z) (t : top) : Z :=
  match t with Label _ | Call _ | Slow _ _ => k + 1 | _ => k end.
Definition step_seen (seen : list Z) (t : top) : list Z :=
  match t with Label l => seen ++ [l] | _ => seen end.

Definition found (seen : list Z) (l : Z) : bool := bool_decide (l ∈ seen).

(** What one operation emits, with [B] for the numbers of the labels. *)
Definition tok (B : Z -> instr) (k : Z) (seen : list Z) (t : top) : list instr :=
  match t with
  | Op o => [IOp o]
  | Label l => IEnd :: guard_out (k + 1)
  | Br l => [B l; IBpSet; IBr (if found seen l then 1 else 0)]
  | Brcond c l => [ITest c; IIf; B l; IBpSet; IBr (if found seen l then 2 else 1); IEnd]
  | Call h =>
      [II64Const (k + 1); ISetResume; IEnd] ++ guard_out (k + 1) ++ [ICall h; IUnwound; IIf; II32Const 0; IReturn; IEnd]
  | Slow miss h =>
      [II64Const (k + 1); ISetResume; IEnd] ++ guard_out (k + 1) ++
      [ITest miss; IIf; ICall h; IUnwound; IIf; II32Const 0; IReturn; IEnd; IEnd]
  | ExitTb o arg => [IOp o; II32Const arg; IReturn]
  | GotoPtr self o next nonnull =>
      [ITest self; IIf; II64Const 0; IBpSet; IBr 2; IEnd; IOp o] ++ ptr_chain_out next nonnull ++ [II32Const 0; IReturn]
  | GotoTb chained self o =>
      [ITest chained; IIf; ITest self; IIf; II64Const 0; IBpSet; IBr 3; IEnd; IOp o] ++ chain_out ++ [II32Const 0; IReturn; IEnd]
  end.

Fixpoint toks (B : Z -> instr) (k : Z) (seen : list Z) (ts : list top) : list instr :=
  match ts with
  | [] => []
  | t :: ts => tok B k seen t ++ toks B (step_blk k t) (step_seen seen t) ts
  end.

(** The entries made in [label_to_block], in order. *)
Fixpoint labs (k : Z) (ts : list top) : list (Z * Z) :=
  match ts with
  | [] => []
  | Label l :: ts => (l + 1, k + 1) :: labs (k + 1) ts
  | t :: ts => labs (step_blk k t) ts
  end.

(** The number of a label's piece, -1 when there is none. *)
Fixpoint blk (k : Z) (ts : list top) (l : Z) : Z :=
  match ts with
  | [] => -1
  | Label l' :: ts => if l' =? l then k + 1 else blk (k + 1) ts l
  | t :: ts => blk (step_blk k t) ts l
  end.

Fixpoint labels (ts : list top) : list Z :=
  match ts with [] => [] | Label l :: ts => l :: labels ts | _ :: ts => labels ts end.

Fixpoint targets (ts : list top) : list Z :=
  match ts with [] => [] | Br l :: ts | Brcond _ l :: ts => l :: targets ts | _ :: ts => targets ts end.

(** Every label is placed once and every branch has its label: what TCG
    guarantees of a block. *)
Definition labels_ok (prog : list top) : Prop := NoDup (labels prog) /\ forall l, l ∈ targets prog -> l ∈ labels prog.

Lemma emit_top_code t s s' : emit_top t s = GOk s' ->
  wasm_block_idx s' = step_blk (wasm_block_idx s) t /\ current_label s' = step_seen (current_label s) t /\
  code s' = code s ++ tok (fun l => IPlace (l + 1)) (wasm_block_idx s) (current_label s) t /\
  label_to_block s' = rev (labs (wasm_block_idx s) [t]) ++ label_to_block s.
Proof.
  destruct t; cbn [emit_top tok step_blk step_seen labs rev app].
  1, 5, 6, 7, 8, 9: intros [= <-]; cbn; split_and!; rewrite <- ?app_assoc; reflexivity.
  - unfold tcg_out_label_cb. destruct (_ <=? _); [done |]. cbv zeta. destruct (_ || _); [done |]. intros [= <-]. done.
  - unfold br_to_label. cbv zeta. destruct (_ || _); [done |]. intros [= <-]. cbn. rewrite app_nil_r.
    unfold found. by destruct (bool_decide _).
  - unfold br_to_label. cbv zeta. destruct (_ || _); [done |]. intros [= <-]. cbn. rewrite <- !app_assoc.
    unfold found. by destruct (bool_decide _).
Qed.

Lemma labs_cons k t ts : labs k (t :: ts) = labs k [t] ++ labs (step_blk k t) ts.
Proof. by destruct t. Qed.

Lemma emit_tops_code ts : forall s s', emit_tops ts s = GOk s' ->
  code s' = code s ++ toks (fun l => IPlace (l + 1)) (wasm_block_idx s) (current_label s) ts /\
  label_to_block s' = rev (labs (wasm_block_idx s) ts) ++ label_to_block s.
Proof.
  induction ts as [| t ts IH]; intros s s'; cbn [emit_tops toks].
  { intros [= <-]. by rewrite app_nil_r. }
  destruct (emit_top t s) as [s1 | |] eqn:E; cbn [gbind]; [| done | done]. intros Hr.
  destruct (emit_top_code _ _ _ E) as (E1 & E2 & E3 & E4). destruct (IH _ _ Hr) as [-> ->].
  rewrite (labs_cons _ t ts), rev_app_distr, E1, E2, E3, E4, <- !app_assoc. done.
Qed.

Lemma fill_toks m ts : forall k seen,
  fill_place m <$> toks (fun l => IPlace (l + 1)) k seen ts = toks (fun l => II64Const (lookup_label m (l + 1))) k seen ts.
Proof.
  induction ts as [| t ts IH]; intros k seen; [done |]. cbn [toks]. rewrite fmap_app, IH. f_equal.
  destruct t; cbn [tok]; try done; rewrite !fmap_app; unfold ptr_chain_out, chain_out; by destruct wasm_tail_chain, wasm_chain_nested.
Qed.

(** ** Label numbers *)

Lemma lookup_app m1 m2 l : lookup_label (m1 ++ m2) l =
  if bool_decide (l ∈ (fst <$> m1)) then lookup_label m1 l else lookup_label m2 l.
Proof.
  induction m1 as [| [l' k] m1 IH]; [done |]. cbn [app lookup_label fmap list_fmap fst].
  destruct (Z.eqb_spec l' l) as [-> | Hne]; [by rewrite bool_decide_eq_true_2 by left |]. rewrite IH.
  by rewrite (bool_decide_ext (l ∈ l' :: (fst <$> m1)) (l ∈ (fst <$> m1))) by (rewrite elem_of_cons; split; [intros [? |]; congruence | tauto]).
Qed.

Lemma labs_keys k ts : fst <$> labs k ts = (fun l => l + 1) <$> labels ts.
Proof. revert k. induction ts as [| t ts IH]; intros k; [done |]. destruct t; cbn; rewrite ?IH; done. Qed.

Lemma blk_missing l ts : forall k, l ∉ labels ts -> blk k ts l = -1.
Proof.
  induction ts as [| t ts IH]; intros k Hl; [done |]. destruct t; cbn [labels blk] in *; try (by apply IH).
  apply not_elem_of_cons in Hl as [Hne Hl]. rewrite (proj2 (Z.eqb_neq _ _)) by done. by apply IH.
Qed.

Lemma lookup_labs l ts : forall k, NoDup (labels ts) -> lookup_label (rev (labs k ts)) (l + 1) = blk k ts l.
Proof.
  induction ts as [| t ts IH]; intros k Hn; [done |]. destruct t; cbn [labels labs blk rev] in *; try (by apply IH).
  apply list.NoDup_cons in Hn as [Hl0 Hn]. rewrite lookup_app. cbn [lookup_label].
  assert (Hk : forall x, x + 1 ∈ fst <$> rev (labs (k + 1) ts) <-> x ∈ labels ts).
  { intros x. rewrite list_elem_of_fmap. pose proof (labs_keys (k + 1) ts) as Ek. split.
    - intros ((y & k') & Hy & Hin). rewrite list_elem_of_In, <- List.in_rev, <- list_elem_of_In in Hin.
      assert (Hin' : y ∈ fst <$> labs (k + 1) ts) by (apply list_elem_of_fmap; by exists (y, k')).
      rewrite Ek in Hin'. apply list_elem_of_fmap in Hin' as (z & Hz & Hin'). cbn in Hy. by replace x with z by lia.
    - intros Hx. assert (Hin : x + 1 ∈ fst <$> labs (k + 1) ts) by (rewrite Ek; apply list_elem_of_fmap; by exists x).
      apply list_elem_of_fmap in Hin as (p & Hp & Hin). exists p. split; [done |].
      by rewrite list_elem_of_In, <- List.in_rev, <- list_elem_of_In. }
  destruct (Z.eqb_spec l0 l) as [-> | Hne].
  - rewrite bool_decide_eq_false_2 by (by rewrite Hk). by rewrite Z.eqb_refl.
  - rewrite (proj2 (Z.eqb_neq _ _)) by lia. case_bool_decide as Hin; [by apply IH |].
    rewrite Hk in Hin. symmetry. by apply blk_missing.
Qed.

(** ** Nesting *)

Definition call_trees (h : CallT) : list tree :=
  [TI (ICall h); TI IUnwound; TIf [TI (II32Const 0); TI IReturn]].
Definition resume_trees (k : Z) : list tree := [TI (II64Const k); TI ISetResume].
Definition goto_top (d : nat) : list tree := [TI (II64Const 0); TI IBpSet; TI (IBr d)].
Definition branch_trees (b : Z) (d : nat) : list tree := [TI (II64Const b); TI IBpSet; TI (IBr d)].
Definition exit_trees (o : OpT) (v : Z) : list tree := [TI (IOp o); TI (II32Const v); TI IReturn].

Definition chain_trees : list tree :=
  if wasm_tail_chain then
    [TI (IOp chain_spend); TI (ITest chain_left);
     TIf [TI (IOp chain_slot); TI (ITest chain_has);
          TIf [TI (ITest chain_own);
               TIf (TI (IOp chain_used) :: if wasm_chain_nested then [TI ICallNext; TI IReturn] else [TI IReturnCallNext])]]]
  else [].
Definition ptr_chain_trees (next : OpT) (nonnull : CondT) : list tree :=
  if wasm_tail_chain then [TI (IOp next); TI (ITest nonnull); TIf chain_trees] else [].
Definition go_trees (chain : list tree) (o : OpT) : list tree := [TI (IOp o)] ++ chain ++ [TI (II32Const 0); TI IReturn].

(** The operations that do not start a piece. *)
Definition plain_trees (B : Z -> Z) (seen : list Z) (t : top) : list tree :=
  match t with
  | Op o => [TI (IOp o)]
  | Br l => branch_trees (B l) (if found seen l then 1 else 0)
  | Brcond c l => [TI (ITest c); TIf (branch_trees (B l) (if found seen l then 2 else 1))]
  | ExitTb o arg => exit_trees o arg
  | GotoPtr self o next nonnull => [TI (ITest self); TIf (branch_trees 0 2)] ++ go_trees (ptr_chain_trees next nonnull) o
  | GotoTb chained self o =>
      [TI (ITest chained); TIf ([TI (ITest self); TIf (branch_trees 0 3)] ++ go_trees chain_trees o)]
  | _ => []
  end.

(** The rest of the current piece, and the pieces after it. *)
Fixpoint segs (B : Z -> Z) (k : Z) (seen : list Z) (ts : list top) : list tree * list (Z * list tree) :=
  match ts with
  | [] => ([], [])
  | t :: ts =>
      let '(u, rest) := segs B (step_blk k t) (step_seen seen t) ts in
      match t with
      | Label l => ([], (k + 1, u) :: rest)
      | Call h => (resume_trees (k + 1), (k + 1, call_trees h ++ u) :: rest)
      | Slow miss h => (resume_trees (k + 1), (k + 1, [TI (ITest miss); TIf (call_trees h)] ++ u) :: rest)
      | _ => (plain_trees B seen t ++ u, rest)
      end
  end.

Definition guard (p : Z * list tree) : list tree := [TI IBpGet; TI (II64Const (fst p)); TI ILeU; TIf (snd p)].
Definition guards (l : list (Z * list tree)) : list tree := concat (guard <$> l).

Abbreviation num B := (fun l => II64Const (B l)).

Lemma parse_toks B r ts : forall k seen cur par stk,
  parse (toks (num B) k seen ts ++ IEnd :: r) cur ((false, par) :: stk) =
  let '(u, rest) := segs B k seen ts in parse r (par ++ TIf (cur ++ u) :: guards rest) stk.
Proof.
  induction ts as [| t ts IH]; intros k seen cur par stk.
  { cbn. by rewrite app_nil_r. }
  cbn [toks segs]. rewrite <- app_assoc.
  assert (Hin : forall cur par k' seen', parse (toks (num B) k' seen' ts ++ IEnd :: r) cur ((false, par) :: stk) =
    parse r (par ++ TIf (cur ++ fst (segs B k' seen' ts)) :: guards (snd (segs B k' seen' ts))) stk).
  { intros cur' par' k' seen'. rewrite IH. by destruct (segs B k' seen' ts). }
  clear IH. destruct t; cbn [tok app guard_out parse step_blk step_seen plain_trees];
    unfold go_trees, ptr_chain_out, ptr_chain_trees, chain_out, chain_trees;
    try (destruct wasm_tail_chain, wasm_chain_nested); cbn [app parse]; rewrite Hin; destruct (segs B _ _ ts) as [u rest]; cbn [fst snd]; unfold guards; cbn [fmap list_fmap concat guard fst snd app];
    rewrite <- ?app_assoc; cbn [app]; rewrite ?app_nil_r; reflexivity.
Qed.

(** The whole function. *)
Definition function_trees (B : Z -> Z) (prog : list top) : list tree :=
  let '(u, rest) := segs B 0 [] prog in
  [TLoop ([TI IBpGet; TI IEqz; TIf u] ++ guards rest); TI IUnreachable].

Lemma toks_ext B B' ts : (forall l, B l = B' l) -> forall k seen, toks B k seen ts = toks B' k seen ts.
Proof.
  intros HB. induction ts as [| t ts IH]; intros k seen; [done |]. cbn [toks]. rewrite IH. f_equal.
  destruct t; cbn [tok]; rewrite ?HB; done.
Qed.

Lemma function_parses prog ii : labels_ok prog -> function_body prog = GOk ii ->
  parse ii [] [] = Some (function_trees (blk 0 prog) prog).
Proof.
  intros [Hn _]. unfold function_body. destruct (emit_tops prog est_init) as [s | |] eqn:E; cbn [gbind]; [| done | done].
  intros Es. assert (Ei : ii = [ILoop; IBpGet; IEqz; IIf] ++ (fill_place (label_to_block s) <$> code s) ++ [IEnd; IEnd; IUnreachable; IEnd])
    by congruence. clear Es. destruct (emit_tops_code _ _ _ E) as [Ec El].
  cbn [code label_to_block est_init wasm_block_idx current_label app] in Ec, El.
  rewrite app_nil_r in El. rewrite Ei, Ec, El, fill_toks.
  rewrite (toks_ext _ (num (blk 0 prog))) by (intros l; by rewrite lookup_labs).
  cbn [app parse]. rewrite parse_toks. unfold function_trees. by destruct (segs (blk 0 prog) 0 [] prog) as [u rest].
Qed.

(** ** Executing pieces *)

Lemma exec_if fuel body w : exec_tree fuel (TIf body) w =
  match stack w with
  | v :: st => if v =? 0 then WNormal (set_stack st w) else leave st (exec_list fuel body (set_stack st w)) WNormal
  | [] => WTrap w
  end.
Proof.
  cbn [exec_tree]. destruct (stack w) as [| v st]; [done |]. destruct (v =? 0); [done |]. f_equal.
  generalize (set_stack st w). induction body as [| t body IH]; intros w'; [done |]. cbn [exec_list].
  destruct (exec_tree fuel t w'); done.
Qed.

Lemma exec_loop_tree fuel body w : exec_tree fuel (TLoop body) w = loop_iter fuel (exec_list fuel body) (stack w) w.
Proof.
  cbn [exec_tree]. assert (E : forall ts w, (fix exec_list (ts : list tree) (w : wst) : wout :=
    match ts with [] => WNormal w | t :: ts => match exec_tree fuel t w with WNormal w => exec_list ts w | o => o end end) ts w
    = exec_list fuel ts w).
  { intros ts. induction ts as [| t ts IH]; intros w'; [done |]. cbn [exec_list]. destruct (exec_tree fuel t w'); done. }
  generalize (stack w). generalize fuel at 1 3. intros n st. revert w. induction n as [| n IH]; intros w; [done |]. cbn [loop_iter].
  rewrite E. destruct (exec_list fuel body w) as [| [] | | | |]; done.
Qed.

Lemma exec_app fuel a b w : exec_list fuel (a ++ b) w =
  match exec_list fuel a w with WNormal w => exec_list fuel b w | o => o end.
Proof. revert w. induction a as [| t a IH]; intros w; [done |]. cbn [app exec_list]. destruct (exec_tree fuel t w); done. Qed.

(** The rest [u] of a piece, then the pieces [rest]. *)
Definition cont (fuel : nat) (u : list tree) (rest : list (Z * list tree)) (w : wst) : wout :=
  match leave [] (exec_list fuel u w) WNormal with WNormal w => exec_list fuel (guards rest) w | o => o end.

(** ** Running the operations piece by piece *)

Inductive rres := REnd (e : tend) | RUnwind (x : St) (b : Z) | RBack (x : St) (b : Z) | RFell (x : St).

(** From piece [k]; with [skip = Some b], everything before piece [b] is passed
    over. *)
Fixpoint run_seg (B : Z -> Z) (k : Z) (skip : option Z) (ts : list top) (x : St) : rres :=
  match ts with
  | [] => RFell x
  | t :: ts =>
      let passed := match skip with Some b => negb (b =? k + 1) | None => false end in
      let jump l := if k <? B l then run_seg B k (Some (B l)) ts x else RBack x (B l) in
      match t with
      | Label _ => run_seg B (k + 1) (if passed then skip else None) ts x
      | Call h =>
          if passed then run_seg B (k + 1) skip ts x
          else let '(x, u) := call_sem h x in if u then RUnwind x (k + 1) else run_seg B (k + 1) None ts x
      | Slow miss h =>
          if passed then run_seg B (k + 1) skip ts x
          else if cond_sem miss x
          then let '(x, u) := call_sem h x in if u then RUnwind x (k + 1) else run_seg B (k + 1) None ts x
          else run_seg B (k + 1) None ts x
      | _ =>
          match skip with
          | Some _ => run_seg B k skip ts x
          | None =>
              match t with
              | Op o => run_seg B k None ts (op_sem o x)
              | Br l => jump l
              | Brcond c l => if cond_sem c x then jump l else run_seg B k None ts x
              | ExitTb o arg => REnd (TExit (op_sem o x) arg)
              | GotoPtr self o next nonnull =>
                  if cond_sem self x then RBack x 0 else REnd (go_on_ptr next nonnull (op_sem o x))
              | GotoTb chained self o =>
                  if cond_sem chained x then if cond_sem self x then RBack x 0 else REnd (go_on (op_sem o x))
                  else run_seg B k None ts x
              | _ => RFell x
              end
          end
      end
  end.

(** A state between instructions. *)
Record settled (w : wst) : Prop := { se_stack : stack w = []; se_unwound : unwound w = false }.

(** The block has left, or its successor has ended, the way it does. *)
Definition left_as (e : tend) (o : wout) : Prop :=
  match e with
  | TExit x v => exists w, o = WReturn w v /\ sg w = x /\ unwound w = false
  | TNext x =>
      match next_sem x with
      | Some (x', v, u, g) => exists w, o = WReturn w v /\ sg w = x' /\ unwound w = u /\ bp_global w = g
      | None => o = WNever
      end
  | _ => False
  end.

Definition matches (r : rres) (o : wout) : Prop :=
  match r with
  | REnd e => left_as e o
  | RUnwind x b => exists w, o = WReturn w 0 /\ sg w = x /\ unwound w = true /\ bp_global w = b
  | RBack x b => exists w, o = WBr 0 w /\ sg w = x /\ settled w /\ get_bp w = b
  | RFell x => exists w, o = WNormal w /\ sg w = x /\ settled w
  end.

(** Piece [b] starts with a call. *)
Fixpoint at_call (k : Z) (ts : list top) (b : Z) : bool :=
  match ts with
  | [] => false
  | t :: ts =>
      match t with
      | Label _ => if b =? k + 1 then false else at_call (k + 1) ts b
      | Call _ | Slow _ _ => if b =? k + 1 then true else at_call (k + 1) ts b
      | _ => at_call k ts b
      end
  end.

(** The branches of [ts] know where their labels are. *)
Definition targets_ok (B : Z -> Z) (k : Z) (seen : list Z) (ts : list top) : Prop :=
  forall l, l ∈ targets ts -> if found seen l then B l <= k else B l = blk k ts l /\ k < B l.

Lemma exec_TI fuel i w : exec_tree fuel (TI i) w = exec_instr i w.
Proof. done. Qed.

#[local] Arguments exec_tree : simpl never.

Lemma get_set_bp v w : get_bp (set_bp v w) = v.
Proof. unfold get_bp, set_bp. by destruct wasm_reg_locals. Qed.

Lemma settled_stack w : settled w -> set_stack [] w = w.
Proof. intros [Hs _]. destruct w. cbn in *. by subst. Qed.

Lemma cont_app fuel a u rest w w' : exec_list fuel a w = WNormal w' -> cont fuel (a ++ u) rest w = cont fuel u rest w'.
Proof. intros E. unfold cont. by rewrite exec_app, E. Qed.

(** Entering or passing over a piece. *)
Lemma guards_cons fuel k u rest w : settled w ->
  exec_list fuel (guards ((k, u) :: rest)) w =
  if get_bp w <=? k then cont fuel u rest w else exec_list fuel (guards rest) w.
Proof.
  destruct w as [x bl bg un st]. intros [Hst Hun]. cbn in Hst, Hun. subst st un.
  unfold guards. cbn [fmap list_fmap concat guard fst snd app exec_list].
  do 3 (rewrite exec_TI; cbn). rewrite exec_if. cbn. destruct (_ <=? k); cbn; done.
Qed.

(** A call: what it ends with, or the rest of the piece. *)
Lemma call_cont fuel h u rest w : settled w ->
  exists w', sg w' = fst (call_sem h (sg w)) /\ bp_global w' = bp_global w /\ get_bp w' = get_bp w /\
    (if snd (call_sem h (sg w))
     then unwound w' = true /\ cont fuel (call_trees h ++ u) rest w = WReturn w' 0
     else settled w' /\ cont fuel (call_trees h ++ u) rest w = cont fuel u rest w').
Proof.
  destruct w as [x bl bg un st]. intros [Hst Hun]. cbn in Hst, Hun. subst st un. unfold cont, call_trees. cbn [app exec_list].
  do 2 (rewrite exec_TI; cbn). rewrite exec_if. cbn. destruct (call_sem h x) as [x' []]; cbn.
  - do 2 (rewrite exec_TI; cbn). eexists. split_and!; [| | | | reflexivity]; done.
  - eexists. split_and!; [| | | | reflexivity]; done.
Qed.

Lemma resume_cont fuel k rest w : settled w ->
  cont fuel (resume_trees k) rest w = exec_list fuel (guards rest) (set_resume k w).
Proof.
  destruct w as [x bl bg un st]. intros [Hst Hun]. cbn in Hst, Hun. subst st un. unfold cont, resume_trees. cbn [exec_list].
  by do 2 (rewrite exec_TI; cbn).
Qed.

(** Branching [d] blocks out of the piece. *)
Lemma branch_exec fuel b d w : settled w ->
  exec_list fuel (branch_trees b d) w = WBr d (set_bp b w) /\ settled (set_bp b w).
Proof.
  destruct w as [x bl bg un st]. intros [Hst Hun]. cbn in Hst, Hun. subst st un. unfold branch_trees. cbn [exec_list].
  do 3 (rewrite exec_TI; cbn). split; done.
Qed.

Lemma exit_exec fuel o v w : settled w ->
  exists w', exec_list fuel (exit_trees o v) w = WReturn w' v /\ sg w' = op_sem o (sg w) /\ unwound w' = false.
Proof.
  destruct w as [x bl bg un st]. intros [Hst Hun]. cbn in Hst, Hun. subst st un. unfold exit_trees. cbn [exec_list].
  do 3 (rewrite exec_TI; cbn). by eexists.
Qed.

(** A conditional block. *)
Lemma test_if fuel c body w : settled w ->
  exec_list fuel [TI (ITest c); TIf body] w =
  if cond_sem c (sg w) then leave [] (exec_list fuel body w) WNormal else WNormal w.
Proof.
  destruct w as [x bl bg un st]. intros [Hst Hun]. cbn in Hst, Hun. subst st un. cbn [exec_list].
  rewrite exec_TI. cbn. rewrite exec_if. cbn. destruct (cond_sem c x); cbn; [| done].
  by destruct (leave _ _ _).
Qed.

(** Chaining: the successor ends the function, or nothing has happened but the
    chaining operations. *)
Lemma chain_exec fuel w : settled w ->
  match go_on (sg w) with
  | TExit x _ => exists w', exec_list fuel chain_trees w = WNormal w' /\ sg w' = x /\ settled w'
  | e => left_as e (exec_list fuel chain_trees w)
  end.
Proof.
  destruct w as [x bl bg un st]. intros [Hst Hun]. cbn in Hst, Hun. subst st un. unfold go_on, chain_trees.
  destruct wasm_tail_chain; [| by eexists]. cbn [exec_list sg]. do 2 (rewrite exec_TI; cbn). rewrite exec_if. cbn.
  destruct (cond_sem chain_left _); cbn; [| by eexists].
  do 2 (rewrite exec_TI; cbn). rewrite exec_if. cbn. destruct (cond_sem chain_has _); cbn; [| by eexists].
  rewrite exec_TI. cbn. rewrite exec_if. cbn. destruct (cond_sem chain_own _); cbn; [| by eexists].
  rewrite exec_TI. cbn. destruct wasm_chain_nested; cbn [exec_list]; rewrite exec_TI; cbn;
    (destruct (next_sem _) as [[[[x' v] u] g] |]; cbn; [| done]).
  - rewrite exec_TI. cbn. by eexists.
  - by eexists.
Qed.

Lemma ptr_chain_exec fuel next nonnull w : settled w ->
  match go_on_ptr next nonnull (sg w) with
  | TExit x _ => exists w', exec_list fuel (ptr_chain_trees next nonnull) w = WNormal w' /\ sg w' = x /\ settled w'
  | e => left_as e (exec_list fuel (ptr_chain_trees next nonnull) w)
  end.
Proof.
  intros Hs. unfold go_on_ptr, ptr_chain_trees. destruct wasm_tail_chain eqn:Ec; [| by exists w].
  pose (w1 := set_sg (op_sem next (sg w)) w). assert (Hs1 : settled w1) by (destruct Hs; by split).
  change (exec_list fuel [TI (IOp next); TI (ITest nonnull); TIf chain_trees] w)
    with (exec_list fuel [TI (ITest nonnull); TIf chain_trees] w1).
  rewrite test_if by done. change (sg w1) with (op_sem next (sg w)).
  destruct (cond_sem nonnull (op_sem next (sg w))); [| by exists w1].
  pose proof (chain_exec fuel w1 Hs1) as H. change (sg w1) with (op_sem next (sg w)) in H.
  destruct (go_on (op_sem next (sg w))) as [x v | x | x p | x]; cbn [left_as] in *; try done.
  - destruct H as (w' & -> & Hx & Hs'). exists w'. cbn [leave]. by rewrite settled_stack.
  - destruct (next_sem x) as [[[[x' v] u] g] |]; [| by rewrite H]. destruct H as (w' & -> & H). by exists w'.
Qed.

(** Going on: the block's end, whatever follows. *)
Lemma go_matches fuel chain o u rest w (e : St -> tend) : settled w ->
  (forall x, match e x with TExit _ v => v = 0 | TNext _ => True | _ => False end) ->
  (forall w, settled w ->
     match e (sg w) with
     | TExit x _ => exists w', exec_list fuel chain w = WNormal w' /\ sg w' = x /\ settled w'
     | e => left_as e (exec_list fuel chain w)
     end) ->
  left_as (e (op_sem o (sg w))) (cont fuel (go_trees chain o ++ u) rest w) /\
  left_as (e (op_sem o (sg w))) (exec_list fuel (go_trees chain o) w).
Proof.
  intros Hs Hv Hc. pose (w1 := set_sg (op_sem o (sg w)) w). assert (Hs1 : settled w1) by (destruct Hs; by split).
  assert (E : exec_list fuel (go_trees chain o) w = exec_list fuel (chain ++ [TI (II32Const 0); TI IReturn]) w1) by done.
  assert (Hd : left_as (e (op_sem o (sg w))) (exec_list fuel (go_trees chain o) w)).
  { rewrite E, exec_app. specialize (Hc w1 Hs1). specialize (Hv (op_sem o (sg w))). change (sg w1) with (op_sem o (sg w)) in Hc.
    destruct (e (op_sem o (sg w))) as [x v | x | x p | x]; cbn [left_as] in *; try done.
    - destruct Hc as (w' & -> & Hx & Hs'). subst v. cbn [exec_list]. do 2 (rewrite exec_TI; cbn). eexists. split; [done |]. split; [done | apply Hs'].
    - destruct (next_sem x) as [[[[x' v] u'] g] |]; [| by rewrite Hc]. destruct Hc as (w' & -> & Hc). by exists w'. }
  split; [| done]. unfold cont. rewrite exec_app. specialize (Hv (op_sem o (sg w))).
  destruct (e (op_sem o (sg w))) as [x v | x | x p | x]; cbn [left_as] in *; try done.
  - destruct Hd as (w' & -> & Hd). by exists w'.
  - destruct (next_sem x) as [[[[x' v] u'] g] |]; [| by rewrite Hd]. destruct Hd as (w' & -> & Hd). by exists w'.
Qed.

Lemma go_on_kind x : match go_on x with TExit _ v => v = 0 | TNext _ => True | _ => False end.
Proof. unfold go_on. by repeat case_match; simplify_eq. Qed.

Lemma go_on_ptr_kind next nonnull x : match go_on_ptr next nonnull x with TExit _ v => v = 0 | TNext _ => True | _ => False end.
Proof. unfold go_on_ptr. destruct wasm_tail_chain; [| done]. destruct (cond_sem _ _); [apply go_on_kind | done]. Qed.


Lemma blk_above l ts : forall k, 0 <= k -> blk k ts l = -1 \/ k < blk k ts l.
Proof.
  induction ts as [| t ts IH]; intros k Hk; [by left |].
  destruct t; cbn [blk step_blk]; try (by apply IH); try (destruct (IH (k + 1) ltac:(lia)); lia).
  destruct (l0 =? l); [lia |]. destruct (IH (k + 1) ltac:(lia)); lia.
Qed.

Lemma blk_not_call l ts : forall k, 0 <= k -> at_call k ts (blk k ts l) = false.
Proof.
  induction ts as [| t ts IH]; intros k Hk; [done |].
  destruct t; cbn [blk step_blk at_call]; try (by apply IH).
  - destruct (Z.eqb_spec l0 l); [by rewrite Z.eqb_refl |]. destruct (_ =? _); [done | apply IH; lia].
  - destruct (blk_above l ts (k + 1)) as [E | E]; [lia | |];
      (rewrite (proj2 (Z.eqb_neq _ _)) by lia; apply IH; lia).
  - destruct (blk_above l ts (k + 1)) as [E | E]; [lia | |];
      (rewrite (proj2 (Z.eqb_neq _ _)) by lia; apply IH; lia).
Qed.

Lemma targets_ok_step B k seen t ts : 0 <= k -> NoDup (labels (t :: ts)) ->
  targets_ok B k seen (t :: ts) -> targets_ok B (step_blk k t) (step_seen seen t) ts.
Proof.
  intros Hk Hn Ht l Hl. assert (Hl' : l ∈ targets (t :: ts)) by (destruct t; cbn [targets]; rewrite ?elem_of_cons; tauto).
  specialize (Ht l Hl'). unfold found in *. destruct t; cbn [step_blk step_seen blk] in *; try done.
  - case_bool_decide as Hs; [rewrite bool_decide_eq_true_2 by (apply elem_of_app; by left); lia |].
    destruct (Z.eqb_spec l0 l) as [-> | Hne].
    + rewrite bool_decide_eq_true_2 by (apply elem_of_app; right; by apply list_elem_of_singleton). lia.
    + rewrite bool_decide_eq_false_2 by (rewrite elem_of_app, list_elem_of_singleton; intros [? | ?]; congruence).
      destruct (blk_above l ts (k + 1)); lia.
  - case_bool_decide; [lia |]. destruct (blk_above l ts (k + 1)); lia.
  - case_bool_decide; [lia |]. destruct (blk_above l ts (k + 1)); lia.
Qed.

(** The two ways to be in the middle of the pieces: running in piece [k], or
    looking for piece [b]. *)
Definition sim_run fuel B k seen ts : Prop := forall w, settled w -> get_bp w <= k ->
  matches (run_seg B k None ts (sg w)) (cont fuel (fst (segs B k seen ts)) (snd (segs B k seen ts)) w).
Definition sim_skip fuel B k seen ts : Prop := forall w b, settled w -> get_bp w = b -> k < b ->
  (at_call k ts b = true -> bp_global w = b) ->
  matches (run_seg B k (Some b) ts (sg w)) (exec_list fuel (guards (snd (segs B k seen ts))) w).

(** Being at the start of piece [k + 1], either way. *)
Lemma sim_label fuel B k seen l ts :
  sim_run fuel B (k + 1) (seen ++ [l]) ts -> sim_skip fuel B (k + 1) (seen ++ [l]) ts ->
  sim_run fuel B k seen (Label l :: ts) /\ sim_skip fuel B k seen (Label l :: ts).
Proof.
  intros H1 H2. unfold sim_run, sim_skip in *. cbn [segs step_blk step_seen run_seg at_call].
  destruct (segs B (k + 1) (seen ++ [l]) ts) as [u rest]. cbn [fst snd] in *. split.
  - intros w Hs Hb. unfold cont at 1. cbn [exec_list leave]. rewrite settled_stack, guards_cons by done.
    rewrite (proj2 (Z.leb_le _ _)) by lia. apply H1; [done | lia].
  - intros w b Hs Hb Hk Hc. rewrite guards_cons by done. destruct (Z.eqb_spec b (k + 1)) as [E | E]; cbn [negb].
    + rewrite (proj2 (Z.leb_le _ _)) by lia. apply H1; [done | lia].
    + rewrite (proj2 (Z.leb_gt _ _)) by lia. apply H2; [done | done | lia | done].
Qed.

(** A call made in piece [k + 1]. *)
Lemma call_matches fuel B k seen h ts w : sim_run fuel B (k + 1) seen ts ->
  settled w -> get_bp w <= k + 1 -> bp_global w = k + 1 ->
  matches (let '(x, u) := call_sem h (sg w) in if u then RUnwind x (k + 1) else run_seg B (k + 1) None ts x)
    (cont fuel (call_trees h ++ fst (segs B (k + 1) seen ts)) (snd (segs B (k + 1) seen ts)) w).
Proof.
  intros H1 Hs Hb Hg. destruct (call_cont fuel h (fst (segs B (k + 1) seen ts)) (snd (segs B (k + 1) seen ts)) w Hs)
    as (w' & Ex & Eg & Eb & Hc). destruct (call_sem h (sg w)) as [x u]. cbn [fst snd] in *. destruct u.
  - destruct Hc as [Hu ->]. exists w'. split_and!; [done | done | done | congruence].
  - destruct Hc as [Hs' ->]. rewrite <- Ex. apply H1; [done | lia].
Qed.

Lemma resume_state k w : settled w -> get_bp w <= k ->
  settled (set_resume (k + 1) w) /\ get_bp (set_resume (k + 1) w) <= k + 1 /\ sg (set_resume (k + 1) w) = sg w.
Proof.
  intros [Hst Hun] Hb. split; [by split | split; [| done]]. unfold get_bp in *. cbn. destruct wasm_reg_locals; lia.
Qed.

Lemma sim_call fuel B k seen h ts : sim_run fuel B (k + 1) seen ts -> sim_skip fuel B (k + 1) seen ts ->
  sim_run fuel B k seen (Call h :: ts) /\ sim_skip fuel B k seen (Call h :: ts).
Proof.
  intros H1 H2. pose proof (call_matches fuel B k seen h ts) as Hm. unfold sim_run, sim_skip in *.
  cbn [segs step_blk step_seen run_seg at_call].
  destruct (segs B (k + 1) seen ts) as [u rest]. cbn [fst snd] in *. split.
  - intros w Hs Hb. destruct (resume_state k w Hs Hb) as (Hs' & Hb' & Ex).
    rewrite resume_cont, guards_cons by done. rewrite (proj2 (Z.leb_le _ _)) by lia. rewrite <- Ex.
    by apply Hm.
  - intros w b Hs Hb Hk Hc. rewrite guards_cons by done. destruct (Z.eqb_spec b (k + 1)) as [E | E]; cbn [negb].
    + rewrite (proj2 (Z.leb_le _ _)) by lia. apply Hm; [done | done | lia | rewrite Hc by done; lia].
    + rewrite (proj2 (Z.leb_gt _ _)) by lia. apply H2; [done | done | lia | done].
Qed.

(** The call of a missed access does what the call does. *)
Lemma slow_exec fuel miss h w : settled w -> cond_sem miss (sg w) = true ->
  exec_list fuel [TI (ITest miss); TIf (call_trees h)] w = exec_list fuel (call_trees h) w.
Proof.
  intros Hs Hm. rewrite test_if, Hm by done. destruct w as [x bl bg un st]. destruct Hs as [Hst Hun]. cbn in Hst, Hun.
  subst st un. unfold call_trees. cbn [exec_list]. do 2 (rewrite exec_TI; cbn). rewrite exec_if. cbn.
  destruct (call_sem h x) as [x' []]; cbn; [by do 2 (rewrite exec_TI; cbn) | done].
Qed.

Lemma sim_slow fuel B k seen miss h ts : sim_run fuel B (k + 1) seen ts -> sim_skip fuel B (k + 1) seen ts ->
  sim_run fuel B k seen (Slow miss h :: ts) /\ sim_skip fuel B k seen (Slow miss h :: ts).
Proof.
  intros H1 H2. pose proof (fun w => call_matches fuel B k seen h ts w H1) as Hm0. unfold sim_run, sim_skip in *.
  cbn [segs step_blk step_seen run_seg at_call].
  destruct (segs B (k + 1) seen ts) as [u rest]. cbn [fst snd] in *.
  assert (Hm : forall w, settled w -> get_bp w <= k + 1 -> bp_global w = k + 1 ->
    matches (if cond_sem miss (sg w)
             then let '(x, u) := call_sem h (sg w) in if u then RUnwind x (k + 1) else run_seg B (k + 1) None ts x
             else run_seg B (k + 1) None ts (sg w))
      (cont fuel ([TI (ITest miss); TIf (call_trees h)] ++ u) rest w)).
  { intros w Hs Hb Hg. destruct (cond_sem miss (sg w)) eqn:Em.
    - specialize (Hm0 w Hs Hb Hg). unfold cont in *. rewrite exec_app in *. by rewrite slow_exec.
    - rewrite (cont_app _ _ _ _ w w) by (rewrite test_if, Em by done; done). by apply H1. }
  split.
  - intros w Hs Hb. destruct (resume_state k w Hs Hb) as (Hs' & Hb' & Ex).
    rewrite resume_cont, guards_cons by done. rewrite (proj2 (Z.leb_le _ _)) by lia. rewrite <- Ex. by apply Hm.
  - intros w b Hs Hb Hk Hc. rewrite guards_cons by done. destruct (Z.eqb_spec b (k + 1)) as [E | E]; cbn [negb].
    + rewrite (proj2 (Z.leb_le _ _)) by lia. apply Hm; [done | lia | rewrite Hc by done; lia].
    + rewrite (proj2 (Z.leb_gt _ _)) by lia. apply H2; [done | done | lia | done].
Qed.

(** A branch out of the piece, directly or from inside a conditional block. *)
Lemma branch_matches fuel B k seen l ts w : sim_skip fuel B k seen ts -> settled w -> 0 <= k ->
  (if found seen l then B l <= k else B l = blk k ts l /\ k < B l) ->
  matches (if k <? B l then run_seg B k (Some (B l)) ts (sg w) else RBack (sg w) (B l))
    (match leave [] (WBr (if found seen l then 1 else 0) (set_bp (B l) w)) WNormal with
     | WNormal w => exec_list fuel (guards (snd (segs B k seen ts))) w
     | o => o
     end).
Proof.
  intros H2 Hs Hk Ht. destruct (branch_exec fuel (B l) 0 w Hs) as [_ Hs']. destruct (found seen l); cbn [leave].
  - rewrite (proj2 (Z.ltb_ge _ _)) by done. rewrite settled_stack by done. exists (set_bp (B l) w).
    split_and!; [done | done | done | apply get_set_bp].
  - destruct Ht as [Eb Hlt]. rewrite (proj2 (Z.ltb_lt _ _)) by done. rewrite settled_stack by done.
    apply (H2 (set_bp (B l) w) (B l)); [done | apply get_set_bp | done |]. rewrite Eb, blk_not_call by done. done.
Qed.

(** Leaving to the top of the loop from [d] blocks inside a piece. *)
Lemma top_matches w : settled w -> matches (RBack (sg w) 0) (WBr 0 (set_bp 0 w)).
Proof.
  intros Hs. destruct (branch_exec 0 0 0 w Hs) as [_ Hs']. exists (set_bp 0 w).
  split_and!; [done | done | done | apply get_set_bp].
Qed.

Lemma exit_matches fuel o v u rest w : settled w ->
  matches (REnd (TExit (op_sem o (sg w)) v)) (cont fuel (exit_trees o v ++ u) rest w).
Proof.
  intros Hs. destruct (exit_exec fuel o v w Hs) as (w' & E & Hx & Hu). unfold cont. rewrite exec_app, E. by exists w'.
Qed.

(** An operation that starts no piece does not matter while looking for one. *)
Lemma skip_plain fuel B k seen t ts : step_blk k t = k -> step_seen seen t = seen ->
  (forall x b, run_seg B k (Some b) (t :: ts) x = run_seg B k (Some b) ts x) ->
  (forall b, at_call k (t :: ts) b = at_call k ts b) ->
  snd (segs B k seen (t :: ts)) = snd (segs B k seen ts) ->
  sim_skip fuel B k seen ts -> sim_skip fuel B k seen (t :: ts).
Proof.
  intros _ _ Hr Ha Hs H2 w b Hse Hb Hk Hc. rewrite Hr, Hs. apply H2; [done | done | done |]. by rewrite <- Ha.
Qed.

Lemma segs_plain B k seen t ts : step_blk k t = k -> step_seen seen t = seen ->
  segs B k seen (t :: ts) = (plain_trees B seen t ++ fst (segs B k seen ts), snd (segs B k seen ts)).
Proof.
  intros Ek Es. cbn [segs]. rewrite Ek, Es. destruct (segs B k seen ts) as [u rest]. cbn [fst snd].
  destruct t; cbn [step_blk step_seen] in *; try done; lia || (apply (f_equal length) in Es; rewrite length_app in Es; cbn in Es; lia).
Qed.

Lemma sim_plain fuel B k seen t ts : 0 <= k -> step_blk k t = k -> step_seen seen t = seen ->
  targets_ok B k seen (t :: ts) -> sim_run fuel B k seen ts -> sim_skip fuel B k seen ts ->
  sim_run fuel B k seen (t :: ts) /\ sim_skip fuel B k seen (t :: ts).
Proof.
  intros Hk Ek Es Ht H1 H2. pose proof (segs_plain B k seen t ts Ek Es) as Esg. split.
  2: { apply skip_plain; try done; [| | by rewrite Esg];
       destruct t; cbn [step_blk] in Ek; try lia; done. }
  intros w Hs Hb. rewrite Esg. cbn [fst snd]. pose proof (branch_matches fuel B k seen) as Hbr.
  set (u := fst (segs B k seen ts)) in *. set (rest := snd (segs B k seen ts)) in *.
  destruct t as [o | l | l | c l | h | miss h | o arg | self o next nonnull | chained self o]; cbn [step_blk] in Ek; try lia;
    cbn [run_seg plain_trees].
  - rewrite (cont_app _ [TI (IOp o)] u rest w (set_sg (op_sem o (sg w)) w)) by done.
    apply (H1 (set_sg (op_sem o (sg w)) w)); [by destruct Hs; split | done].
  - specialize (Ht l ltac:(left)). cbn [blk] in Ht. specialize (Hbr l ts w H2 Hs Hk Ht).
    unfold cont. rewrite exec_app, (proj1 (branch_exec _ _ _ w Hs)). exact Hbr.
  - specialize (Ht l ltac:(left)). cbn [blk] in Ht. specialize (Hbr l ts w H2 Hs Hk Ht).
    unfold cont. rewrite exec_app, test_if by done. destruct (cond_sem c (sg w)).
    + rewrite (proj1 (branch_exec _ _ _ w Hs)). pose proof (proj2 (branch_exec fuel (B l) 0 w Hs)) as Hs'.
      destruct (found seen l); cbn [leave] in *; rewrite !(settled_stack _ Hs') in *; exact Hbr.
    + apply (H1 w Hs Hb).
  - by apply exit_matches.
  - rewrite <- app_assoc. unfold cont. rewrite exec_app, test_if by done. destruct (cond_sem self (sg w)).
    + rewrite (proj1 (branch_exec _ _ _ w Hs)). cbn [leave]. pose proof (proj2 (branch_exec fuel 0 0 w Hs)) as Hs'.
      rewrite !(settled_stack _ Hs'). by apply top_matches.
    + apply (go_matches fuel (ptr_chain_trees next nonnull) o u rest w (go_on_ptr next nonnull) Hs);
        [apply go_on_ptr_kind | intros w'; apply ptr_chain_exec].
  - unfold cont. rewrite exec_app, test_if by done. destruct (cond_sem chained (sg w)); [| apply (H1 w Hs Hb)].
    rewrite exec_app, test_if by done. destruct (cond_sem self (sg w)).
    + rewrite (proj1 (branch_exec _ _ _ w Hs)). cbn [leave]. pose proof (proj2 (branch_exec fuel 0 0 w Hs)) as Hs'.
      rewrite !(settled_stack _ Hs'). by apply top_matches.
    + destruct (go_matches fuel chain_trees o [] [] w go_on Hs go_on_kind (fun w' => chain_exec fuel w')) as [_ Hg].
      cbn [matches]. pose proof (go_on_kind (op_sem o (sg w))) as Hv.
      destruct (go_on (op_sem o (sg w))) as [x v | x | x p | x]; cbn [left_as] in *; try done.
      * destruct Hg as (w' & -> & Hg). by exists w'.
      * destruct (next_sem x) as [[[[x' v] u'] g] |]; [| by rewrite Hg]. destruct Hg as (w' & -> & Hg). by exists w'.
Qed.

Lemma sim fuel B ts : forall k seen, 0 <= k -> NoDup (labels ts) -> targets_ok B k seen ts ->
  sim_run fuel B k seen ts /\ sim_skip fuel B k seen ts.
Proof.
  induction ts as [| t ts IH]; intros k seen Hk Hn Ht.
  { split.
    - intros w Hs _. unfold cont. cbn. rewrite settled_stack by done. by exists w.
    - intros w b Hs _ _ _. by exists w. }
  pose proof (targets_ok_step B k seen t ts Hk Hn Ht) as Ht'.
  assert (Hn' : NoDup (labels ts)) by (destruct t; cbn [labels] in Hn; try done; by apply list.NoDup_cons in Hn as [_ ?]).
  destruct (IH (step_blk k t) (step_seen seen t)) as [H1 H2]; [destruct t; cbn; lia | done | done |].
  destruct t; cbn [step_blk step_seen] in *; try (by apply sim_plain).
  - by apply sim_label.
  - by apply sim_call.
  - by apply sim_slow.
Qed.

(** ** The loop *)

Definition run_top (prog : list top) (b : Z) (x : St) : rres :=
  if b =? 0 then run_seg (blk 0 prog) 0 None prog x else run_seg (blk 0 prog) 0 (Some b) prog x.

Definition loop_body (prog : list top) : list tree :=
  let '(u, rest) := segs (blk 0 prog) 0 [] prog in [TI IBpGet; TI IEqz; TIf u] ++ guards rest.

Lemma blk_found l ts : l ∈ labels ts -> forall k, 0 <= k -> k < blk k ts l.
Proof.
  induction ts as [| t ts IH]; intros Hl k Hk; [by apply elem_of_nil in Hl |].
  destruct t; cbn [labels blk step_blk] in *; try (by apply IH); try (specialize (IH Hl (k + 1) ltac:(lia)); lia).
  destruct (Z.eqb_spec l0 l); [lia |]. apply elem_of_cons in Hl as [? | Hl]; [congruence |].
  specialize (IH Hl (k + 1) ltac:(lia)). lia.
Qed.

Lemma labels_targets prog : labels_ok prog -> targets_ok (blk 0 prog) 0 [] prog.
Proof.
  intros [_ Hl] l Hin. unfold found. rewrite bool_decide_eq_false_2 by (by intros ?%elem_of_nil). split; [done |].
  apply blk_found; [by apply Hl | lia].
Qed.

Lemma body_matches fuel prog w b : labels_ok prog -> settled w -> get_bp w = b -> 0 <= b ->
  (at_call 0 prog b = true -> bp_global w = b) ->
  matches (run_top prog b (sg w)) (exec_list fuel (loop_body prog) w).
Proof.
  intros Hl Hs Hb H0 Hc. destruct (sim fuel (blk 0 prog) prog 0 [] ltac:(lia) (proj1 Hl) (labels_targets _ Hl)) as [H1 H2].
  unfold sim_run, sim_skip, loop_body in *. destruct (segs (blk 0 prog) 0 [] prog) as [u rest]. cbn [fst snd] in *.
  assert (E : exec_list fuel ([TI IBpGet; TI IEqz; TIf u] ++ guards rest) w =
    if b =? 0 then cont fuel u rest w else exec_list fuel (guards rest) w).
  { clear H1 H2 Hc. destruct w as [x bl bg un st]. destruct Hs as [Hst Hun]. cbn in Hst, Hun. subst st un.
    cbn [app exec_list]. do 2 (rewrite exec_TI; cbn). rewrite exec_if. cbn. rewrite Hb. by destruct (b =? 0). }
  rewrite E. unfold run_top. destruct (Z.eqb_spec b 0); [apply H1; [done | lia] | apply H2; [done | done | lia | done]].
Qed.

(** ** Pieces and the operations they start at *)

Fixpoint suf (k : Z) (ts : list top) (b : Z) : option (list top) :=
  match ts with
  | [] => None
  | t :: ts' =>
      match t with
      | Label _ => if b =? k + 1 then Some ts' else suf (k + 1) ts' b
      | Call _ | Slow _ _ => if b =? k + 1 then Some ts else suf (k + 1) ts' b
      | _ => suf k ts' b
      end
  end.

(** What piece [b] of the program starts with. *)
Definition position (prog : list top) (b : Z) : option (list top) := if b =? 0 then Some prog else suf 0 prog b.

Definition reaches (prog ts : list top) (x : St) (r : rres) : Prop :=
  match r with
  | REnd e => exists n, trun n prog ts x = Some e
  | RUnwind x' b => exists n p, position prog b = Some p /\ trun n prog ts x = Some (TUnwound x' p)
  | RBack x' b => exists j p, position prog b = Some p /\ forall m, trun (S j + m) prog ts x = trun m prog p x'
  | RFell x' => exists n, trun n prog ts x = Some (TFell x')
  end.

Lemma reaches_step prog ts x ts' x' r : tstep prog ts x = inl (ts', x') -> reaches prog ts' x' r -> reaches prog ts x r.
Proof.
  intros E. destruct r; cbn [reaches].
  - intros (n & Hn). exists (S n). cbn [trun]. by rewrite E.
  - intros (n & p & Hp & Hn). exists (S n), p. split; [done |]. cbn [trun]. by rewrite E.
  - intros (j & p & Hp & Hn). exists (S j), p. split; [done |]. intros m. specialize (Hn m). cbn [Nat.add trun] in *.
    by rewrite E.
  - intros (n & Hn). exists (S n). cbn [trun]. by rewrite E.
Qed.

Lemma suf_after l ts : forall k, 0 <= k -> l ∈ labels ts -> suf k ts (blk k ts l) = Some (after_label l ts).
Proof.
  induction ts as [| t ts IH]; intros k Hk Hl; [by apply elem_of_nil in Hl |].
  destruct t; cbn [labels blk step_blk suf after_label] in *; try (by apply IH).
  - destruct (Z.eqb_spec l0 l); [by rewrite Z.eqb_refl |]. apply elem_of_cons in Hl as [? | Hl]; [congruence |].
    pose proof (blk_found l ts Hl (k + 1) ltac:(lia)). rewrite (proj2 (Z.eqb_neq _ _)) by lia. apply IH; [lia | done].
  - pose proof (blk_found l ts Hl (k + 1) ltac:(lia)). rewrite (proj2 (Z.eqb_neq _ _)) by lia. apply IH; [lia | done].
  - pose proof (blk_found l ts Hl (k + 1) ltac:(lia)). rewrite (proj2 (Z.eqb_neq _ _)) by lia. apply IH; [lia | done].
Qed.

Section Reaches.
Context (prog : list top) (Hok : labels_ok prog).
Abbreviation B := (blk 0 prog).

(** [ts] is what is left of the program from piece [k] on. *)
Record tail_of (k : Z) (ts : list top) : Prop := {
  to_suf : forall b, k < b -> suf k ts b = suf 0 prog b;
  to_targets : forall l, l ∈ targets ts -> l ∈ labels prog
}.

Definition reach_run (k : Z) (ts : list top) : Prop := forall x, reaches prog ts x (run_seg B k None ts x).
Definition reach_skip (k : Z) (ts : list top) : Prop := forall x b p, k < b -> suf k ts b = Some p ->
  reaches prog p x (run_seg B k (Some b) ts x).

Lemma tail_of_step k t ts : 0 <= k -> tail_of k (t :: ts) -> tail_of (step_blk k t) ts.
Proof.
  intros Hk [Hs Ht]. split; [| intros l Hl; apply Ht; destruct t; cbn [targets]; rewrite ?elem_of_cons; tauto].
  intros b Hb. destruct t; cbn [step_blk] in *; rewrite <- Hs by lia; cbn [suf]; try done;
    by rewrite (proj2 (Z.eqb_neq _ _)) by lia.
Qed.

Lemma jump_reaches k l ts x : 0 <= k -> tail_of k ts -> l ∈ labels prog -> reach_skip k ts ->
  reaches prog (Br l :: ts) x (if k <? B l then run_seg B k (Some (B l)) ts x else RBack x (B l)).
Proof.
  intros Hk [Hs _] Hl H2. pose proof (suf_after l prog 0 ltac:(lia) Hl) as Ea. pose proof (blk_found l prog Hl 0 ltac:(lia)) as Hb.
  destruct (Z.ltb_spec k (B l)).
  - eapply reaches_step; [done |]. apply H2; [done |]. by rewrite Hs.
  - exists 0%nat, (after_label l prog). split; [| done]. unfold position. by rewrite (proj2 (Z.eqb_neq _ _)) by lia.
Qed.

(** From the branch itself, or from where it was taken. *)
Lemma jump_reaches' k l ts ts' x : 0 <= k -> tail_of k ts -> l ∈ labels prog -> reach_skip k ts ->
  tstep prog ts' x = inl (after_label l prog, x) ->
  reaches prog ts' x (if k <? B l then run_seg B k (Some (B l)) ts x else RBack x (B l)).
Proof.
  intros Hk Ht Hl H2 E. pose proof (jump_reaches k l ts x Hk Ht Hl H2) as Hj.
  destruct (if k <? B l then run_seg B k (Some (B l)) ts x else RBack x (B l)); cbn [reaches] in *.
  - destruct Hj as ([| n] & Hn); [done |]. exists (S n). cbn [trun tstep] in *. by rewrite E.
  - destruct Hj as ([| n] & p & Hp & Hn); [done |]. exists (S n), p. split; [done |]. cbn [trun tstep] in *. by rewrite E.
  - destruct Hj as (j & p & Hp & Hn). exists j, p. split; [done |]. intros m. specialize (Hn m).
    cbn [Nat.add trun tstep] in *. by rewrite E.
  - destruct Hj as ([| n] & Hn); [done |]. exists (S n). cbn [trun tstep] in *. by rewrite E.
Qed.

(** Making a call. *)
Lemma call_reaches k h ts ts0 x : 0 <= k -> position prog (k + 1) = Some ts0 ->
  reach_run (k + 1) ts ->
  tstep prog ts0 x = (let '(x, u) := call_sem h x in if u then inr (TUnwound x ts0) else inl (ts, x)) ->
  reaches prog ts0 x (let '(x, u) := call_sem h x in if u then RUnwind x (k + 1) else run_seg B (k + 1) None ts x).
Proof.
  intros Hk Hp H1 E. destruct (call_sem h x) as [x' []].
  - exists 1%nat, ts0. split; [done |]. cbn [trun]. by rewrite E.
  - eapply reaches_step; [exact E | apply H1].
Qed.

Lemma run_reaches ts : forall k, 0 <= k -> tail_of k ts -> reach_run k ts /\ reach_skip k ts.
Proof.
  induction ts as [| t ts IH]; intros k Hk Ht.
  { split; [intros x; by exists 1%nat | by intros x b p]. }
  pose proof (tail_of_step k t ts Hk Ht) as Ht'.
  destruct (IH (step_blk k t) ltac:(destruct t; cbn; lia) Ht') as [H1 H2].
  assert (Hpos : match t with Call _ | Slow _ _ => position prog (k + 1) = Some (t :: ts) | _ => True end).
  { destruct t; try done; unfold position; rewrite (proj2 (Z.eqb_neq _ _)), <- (to_suf _ _ Ht) by lia; cbn [suf];
      by rewrite Z.eqb_refl. }
  assert (Hlab : forall l, l ∈ targets (t :: ts) -> l ∈ labels prog) by apply Ht.
  split.
  - intros x. destruct t as [o | l | l | c l | h | miss h | o arg | self o next nonnull | chained self o]; cbn [run_seg step_blk] in *.
    + by eapply reaches_step; [done | apply H1].
    + by eapply reaches_step; [done | apply H1].
    + apply jump_reaches; [done | done | apply Hlab; left | done].
    + destruct (cond_sem c x) eqn:Ec.
      * apply jump_reaches'; [done | done | apply Hlab; left | done | cbn; by rewrite Ec].
      * eapply reaches_step; [cbn; by rewrite Ec | apply H1].
    + by apply call_reaches.
    + destruct (cond_sem miss x) eqn:Ec.
      * apply call_reaches; [done | done | done | cbn; by rewrite Ec].
      * eapply reaches_step; [cbn; by rewrite Ec | apply H1].
    + by exists 1%nat.
    + destruct (cond_sem self x) eqn:Ec.
      * exists 0%nat, prog. split; [done |]. intros m. cbn. by rewrite Ec.
      * exists 1%nat. cbn. by rewrite Ec.
    + destruct (cond_sem chained x) eqn:Ec; [destruct (cond_sem self x) eqn:Es |].
      * exists 0%nat, prog. split; [done |]. intros m. cbn. by rewrite Ec, Es.
      * exists 1%nat. cbn. by rewrite Ec, Es.
      * eapply reaches_step; [cbn; by rewrite Ec | apply H1].
  - intros x b p Hb Hs. destruct t as [o | l | l | c l | h | miss h | o arg | self o next nonnull | chained self o];
      cbn [run_seg step_blk suf] in *; try (by apply H2);
      (destruct (Z.eqb_spec b (k + 1)) as [E | E]; cbn [negb]; [injection Hs as <- | apply H2; [lia | done]]).
    + apply H1.
    + by apply call_reaches.
    + destruct (cond_sem miss x) eqn:Ec.
      * apply call_reaches; [done | done | done | cbn; by rewrite Ec].
      * eapply reaches_step; [cbn; by rewrite Ec | apply H1].
Qed.

Lemma top_reaches b p x : 0 <= b -> position prog b = Some p -> reaches prog p x (run_top prog b x).
Proof.
  intros Hb Hp. destruct (run_reaches prog 0 ltac:(lia)) as [H1 H2]; [split; [done | apply Hok] |].
  unfold position, run_top in *. destruct (Z.eqb_spec b 0); [injection Hp as <-; apply H1 | apply H2; [lia | done]].
Qed.
End Reaches.

(** ** Fuel is for the loop only *)

Fixpoint loops (t : tree) : bool :=
  match t with TI _ => false | TIf body => existsb loops body | TLoop _ => true end.

Lemma exec_fuel f1 f2 : forall t, loops t = false -> forall w, exec_tree f1 t w = exec_tree f2 t w.
Proof.
  fix IH 1. intros [i | body | body]; [done | | done]. intros Hb w. rewrite !exec_if. destruct (stack w) as [| v st]; [done |].
  destruct (v =? 0); [done |]. f_equal. generalize (set_stack st w). revert Hb.
  induction body as [| t body IHb]; [done |]. intros Hb w'. cbn [loops existsb] in Hb. apply orb_false_iff in Hb as [H1 H2].
  cbn [exec_list]. rewrite (IH t H1). destruct (exec_tree f2 t w'); [by apply IHb | done ..].
Qed.

Lemma exec_list_fuel f1 f2 ts : existsb loops ts = false -> forall w, exec_list f1 ts w = exec_list f2 ts w.
Proof.
  induction ts as [| t ts IH]; [done |]. cbn [existsb exec_list]. intros [H1 H2]%orb_false_iff w.
  rewrite (exec_fuel f1 f2 t H1). destruct (exec_tree f2 t w); [by apply IH | done ..].
Qed.

Lemma segs_loops B ts : forall k seen,
  existsb loops (fst (segs B k seen ts)) = false /\ existsb loops (guards (snd (segs B k seen ts))) = false.
Proof.
  induction ts as [| t ts IH]; intros k seen; [done |]. cbn [segs]. specialize (IH (step_blk k t) (step_seen seen t)).
  destruct (segs B (step_blk k t) (step_seen seen t) ts) as [u rest]. cbn [fst snd] in IH. destruct IH as [H1 H2].
  destruct t; cbn [fst snd plain_trees]; unfold guards in *; cbn [fmap list_fmap concat guard fst snd app];
    unfold go_trees, ptr_chain_trees, chain_trees; try (destruct wasm_tail_chain, wasm_chain_nested);
    rewrite ?existsb_app; cbn; rewrite ?existsb_app, ?H1, ?H2; done.
Qed.

Lemma body_fuel f1 f2 prog w : exec_list f1 (loop_body prog) w = exec_list f2 (loop_body prog) w.
Proof.
  apply exec_list_fuel. unfold loop_body. pose proof (segs_loops (blk 0 prog) prog 0 []) as [H1 H2].
  destruct (segs (blk 0 prog) 0 [] prog) as [u rest]. cbn [fst snd] in *. cbn. by rewrite H1, H2.
Qed.

(** ** The whole function *)

Definition ends_as (prog : list top) (e : tend) (o : wout) : Prop :=
  match e with
  | TExit _ _ | TNext _ => left_as e o
  | TUnwound x p => exists w, o = WReturn w 0 /\ sg w = x /\ unwound w = true /\ position prog (bp_global w) = Some p
  | TFell x => exists w, o = WTrap w /\ sg w = x
  end.

(** Entered at piece [b]. *)
Record entered (b : Z) (w : wst) : Prop := {
  en_settled : settled w;
  en_bp : get_bp w = b;
  en_resume : b <> 0 -> bp_global w = b
}.

Definition fall_through (o : wout) : wout := match o with WNormal w => WTrap w | _ => o end.

Lemma function_exec prog n w : stack w = [] ->
  exec_list n (function_trees (blk 0 prog) prog) w = fall_through (loop_iter n (exec_list 0 (loop_body prog)) [] w).
Proof.
  intros Hs. unfold function_trees. pose proof (body_fuel n 0 prog) as Hb. unfold loop_body in *.
  destruct (segs (blk 0 prog) 0 [] prog) as [u rest]. cbn [exec_list]. rewrite exec_loop_tree, Hs.
  assert (E : forall m w, loop_iter m (exec_list n ([TI IBpGet; TI IEqz; TIf u] ++ guards rest)) [] w =
    loop_iter m (exec_list 0 ([TI IBpGet; TI IEqz; TIf u] ++ guards rest)) [] w).
  { intros m. induction m as [| m IH]; intros w'; [done |]. cbn [loop_iter]. rewrite Hb.
    destruct (exec_list 0 _ w') as [| [] | | | |]; done. }
  rewrite E. by destruct (loop_iter n _ [] w).
Qed.

Lemma trun_mono prog n m ts x e : trun n prog ts x = Some e -> trun (n + m) prog ts x = Some e.
Proof.
  revert ts x. induction n as [| n IH]; intros ts x; [done |]. cbn [trun Nat.add].
  destruct (tstep prog ts x) as [[ts' x'] | e']; [apply IH | done].
Qed.

Lemma trun_det prog n m ts x e e' : trun n prog ts x = Some e -> trun m prog ts x = Some e' -> e = e'.
Proof.
  intros H1 H2. apply (trun_mono _ _ m) in H1. apply (trun_mono _ _ n) in H2. rewrite Nat.add_comm in H2. congruence.
Qed.

Lemma at_call_low ts : forall k b, b <= k -> at_call k ts b = false.
Proof.
  induction ts as [| t ts IH]; intros k b Hb; [done |].
  destruct t; cbn [at_call]; try (by apply IH); (rewrite (proj2 (Z.eqb_neq _ _)) by lia; apply IH; lia).
Qed.

Lemma back_label B ts : forall k skip x x' b, run_seg B k skip ts x = RBack x' b ->
  b = 0 \/ exists l, l ∈ targets ts /\ b = B l.
Proof.
  induction ts as [| t ts IH]; intros k skip x x' b; cbn [run_seg]; [done |].
  assert (Hw : b = 0 \/ (exists l, l ∈ targets ts /\ b = B l) -> b = 0 \/ exists l, l ∈ targets (t :: ts) /\ b = B l).
  { intros [? | (l & Hl & Hb)]; [by left | right]. exists l. split; [| done]. destruct t; cbn [targets]; rewrite ?elem_of_cons; tauto. }
  destruct t; cbn [targets];
    repeat first
      [ case_match | intros Hr; discriminate Hr | intros Hr; apply Hw; eapply IH; exact Hr
      | intros [= <- <-]; by left | intros [= <- <-]; right; eexists; split; [left | done] ].
Qed.

Lemma back_enters prog b w x x' b' : labels_ok prog -> run_top prog b x = RBack x' b' -> settled w -> get_bp w = b' ->
  0 <= b' /\ (at_call 0 prog b' = true -> bp_global w = b').
Proof.
  intros [_ Hl] Hr Hs Hb. assert (H0 : b' = 0 \/ exists l, l ∈ targets prog /\ b' = blk 0 prog l).
  { unfold run_top in Hr. destruct (b =? 0); by eapply back_label. }
  destruct H0 as [-> | (l & Hin & ->)]; [by rewrite at_call_low |].
  pose proof (blk_found l prog (Hl l Hin) 0 ltac:(lia)). split; [lia |]. by rewrite blk_not_call.
Qed.

Lemma left_ends prog e n body w : left_as e (body w) -> ends_as prog e (fall_through (loop_iter (S n) body [] w)).
Proof.
  destruct e as [x v | x | x p | x]; cbn [left_as ends_as loop_iter]; try done.
  - intros (w' & -> & H). by exists w'.
  - destruct (next_sem x) as [[[[x' v] u] g] |]; [intros (w' & -> & H); by exists w' | by intros ->].
Qed.

(** What the function does, the operations do. *)
Lemma loop_sound prog n : labels_ok prog -> forall w b p, settled w -> get_bp w = b -> 0 <= b ->
  (at_call 0 prog b = true -> bp_global w = b) -> position prog b = Some p ->
  let o := fall_through (loop_iter n (exec_list 0 (loop_body prog)) [] w) in
  o = WFuel \/ exists m e, trun m prog p (sg w) = Some e /\ ends_as prog e o.
Proof.
  intros Hl. induction n as [| n IH]; intros w b p Hs Hb H0 Hc Hp; [by left |]. cbn [loop_iter].
  pose proof (body_matches 0 prog w b Hl Hs Hb H0 Hc) as Hm. pose proof (top_reaches prog Hl b p (sg w) H0 Hp) as Hr.
  destruct (run_top prog b (sg w)) as [e0 | x b' | x b' | x] eqn:Er; cbn [matches reaches] in *.
  - destruct Hr as (m & Hr). right. exists m, e0. split; [done |].
    exact (left_ends prog e0 n (exec_list 0 (loop_body prog)) w Hm).
  - destruct Hm as (w' & -> & Hx & Hu & Hg), Hr as (m & p' & Hp' & Hm). right. exists m, (TUnwound x p'). split; [done |].
    exists w'. split_and!; [done | done | done | by rewrite Hg].
  - destruct Hm as (w' & -> & Hx & Hs' & Hb'), Hr as (j & p' & Hp' & Hm). rewrite settled_stack by done.
    destruct (back_enters prog b w' _ _ _ Hl Er Hs' Hb') as [H0' Hc'].
    destruct (IH w' b' p' Hs' Hb' H0' Hc' Hp') as [E | (m & e & He & Ho)]; [by left | right].
    exists (S j + m)%nat, e. split; [by rewrite Hm, <- Hx | done].
  - destruct Hm as (w' & -> & Hx & Hs'), Hr as (m & Hm). right. exists m, (TFell x). split; [done |].
    rewrite settled_stack by done. by exists w'.
Qed.

(** What the operations do, the function does. *)
Lemma loop_complete prog : labels_ok prog -> forall m w b p e, settled w -> get_bp w = b -> 0 <= b ->
  (at_call 0 prog b = true -> bp_global w = b) -> position prog b = Some p ->
  trun m prog p (sg w) = Some e ->
  exists n, ends_as prog e (fall_through (loop_iter n (exec_list 0 (loop_body prog)) [] w)).
Proof.
  intros Hl m. induction (lt_wf m) as [m _ IH]; intros w b p e Hs Hb H0 Hc Hp He.
  pose proof (body_matches 0 prog w b Hl Hs Hb H0 Hc) as Hm. pose proof (top_reaches prog Hl b p (sg w) H0 Hp) as Hr.
  destruct (run_top prog b (sg w)) as [e0 | x b' | x b' | x] eqn:Er; cbn [matches reaches] in *.
  - destruct Hr as (m' & Hr). exists 1%nat. cbn [loop_iter]. rewrite (trun_det _ _ _ _ _ _ _ He Hr).
    exact (left_ends prog e0 0 (exec_list 0 (loop_body prog)) w Hm).
  - destruct Hm as (w' & E & Hx & Hu & Hg), Hr as (m' & p' & Hp' & Hm). exists 1%nat. cbn [loop_iter]. rewrite E.
    rewrite (trun_det _ _ _ _ _ _ _ He Hm). exists w'. split_and!; [done | done | done | by rewrite Hg].
  - destruct Hm as (w' & E & Hx & Hs' & Hb'), Hr as (j & p' & Hp' & Hm).
    destruct (back_enters prog b w' _ _ _ Hl Er Hs' Hb') as [H0' Hc'].
    destruct (decide (S j < m)%nat) as [Hlt | Hge].
    + destruct (IH (m - S j)%nat ltac:(lia) w' b' p' e Hs' Hb' H0' Hc' Hp') as (n & Hn).
      { rewrite Hx, <- Hm. by replace (S j + (m - S j))%nat with m by lia. }
      exists (S n). cbn [loop_iter]. by rewrite E, settled_stack.
    + exfalso. specialize (Hm 0%nat). cbn [trun] in Hm. apply (trun_mono _ _ (S j - m)) in He.
      replace (m + (S j - m))%nat with (S j + 0)%nat in He by lia. congruence.
  - destruct Hm as (w' & E & Hx & Hs'), Hr as (m' & Hm). exists 1%nat. cbn [loop_iter]. rewrite E.
    rewrite (trun_det _ _ _ _ _ _ _ He Hm). cbn [fall_through]. rewrite settled_stack by done. by exists w'.
Qed.

Lemma suf_pos ts : forall k b p, suf k ts b = Some p -> k < b.
Proof.
  induction ts as [| t ts IH]; intros k b p; [done |].
  destruct t; cbn [suf]; try apply IH; (destruct (Z.eqb_spec b (k + 1)); [lia | intros H%IH; lia]).
Qed.

Lemma position_pos prog b p : position prog b = Some p -> 0 <= b.
Proof. unfold position. destruct (Z.eqb_spec b 0); [lia | intros H%suf_pos; lia]. Qed.

Lemma entered_call prog b w : entered b w -> at_call 0 prog b = true -> bp_global w = b.
Proof.
  intros [_ _ Hr] Hc. apply Hr. intros ->. by rewrite at_call_low in Hc.
Qed.

(** ** The theorem *)

(** C8: the compiled control flow is that of the operations, chaining included.  If
    emission succeeds, the instructions are properly nested.  Enter the function at a
    piece (at the start, or at the call that unwound last time): if running the
    operations from there comes to an end, so does the function, in that end, and
    whenever the function comes to an end the operations do, in the same one.  The ends
    are: the same value returned in the same state; an unwinding, with the number of
    the piece of the call saved, so that the next entry makes that call again; control
    gone on to the successor's function, whose end is then the function's (or which
    never returns), with chaining by tail calls and by nested calls alike; or running
    off the end, which traps. *)
Theorem control_exact (prog : list top) (ii : list instr) (Hok : labels_ok prog) (Hgen : function_body prog = GOk ii) :
  exists ts, parse ii [] [] = Some ts /\
  forall b p w, position prog b = Some p -> entered b w ->
    (forall m e, trun m prog p (sg w) = Some e -> exists n, ends_as prog e (exec_list n ts w)) /\
    (forall n, exec_list n ts w = WFuel \/ exists m e, trun m prog p (sg w) = Some e /\ ends_as prog e (exec_list n ts w)).
Proof.
  exists (function_trees (blk 0 prog) prog). split; [by apply function_parses |]. intros b p w Hp He.
  pose proof (position_pos _ _ _ Hp) as H0. pose proof (entered_call prog b w He) as Hc. destruct He as [Hs Hb _].
  split.
  - intros m e Hm. destruct (loop_complete prog Hok m w b p e Hs Hb H0 Hc Hp Hm) as (n & Hn). exists n.
    by rewrite function_exec by apply Hs.
  - intros n. rewrite function_exec by apply Hs. by eapply loop_sound.
Qed.
End Control.

Module ControlDemo.
(** A loop that counts down with a call in it, and goes on to its successor. *)
Record st := { count : Z; calls : Z; budget : Z }.
Definition op (o : st -> st) (x : st) : st := o x.
Definition cond (c : st -> bool) (x : st) : bool := c x.
(** The call unwinds the second time. *)
Definition call (h : unit) (x : st) : st * bool :=
  ({| count := count x; calls := calls x + 1; budget := budget x |}, calls x =? 1).
(** The successor adds 50 and leaves with 7. *)
Definition next (x : st) : option (st * Z * bool * Z) :=
  Some ({| count := count x + 50; calls := calls x; budget := budget x |}, 7, false, 0).
Definition add (n : Z) (x : st) : st := {| count := count x + n; calls := calls x; budget := budget x |}.
Definition spend (x : st) : st := {| count := count x; calls := calls x; budget := budget x - 1 |}.
Definition more (x : st) : bool := 0 <? count x.
Definition yes (x : st) : bool := true.
Definition no (x : st) : bool := false.
Definition left_ (x : st) : bool := 0 <? budget x.

Definition prog : list top :=
  [Label 0; Call tt; Op (add (-1)); Brcond more 0; Br 1; Op (add 100); Label 1; GotoTb yes no (add 0); ExitTb (add 0) 3].

Definition instrs : list instr :=
  match function_body true false spend (add 0) (add 0) left_ yes yes prog with GOk ii => ii | _ => [] end.

Definition start : wst :=
  {| sg := {| count := 3; calls := 0; budget := 5 |}; bp_local := 0; bp_global := 99; unwound := false; stack := [] |}.
(** The entry after the unwinding, with budget left and with the last of it. *)
Definition again (n : Z) : wst :=
  {| sg := {| count := 2; calls := 2; budget := n |}; bp_local := 2; bp_global := 2; unwound := false; stack := [] |}.

Lemma prog_ok : labels_ok prog.
Proof.
  split.
  - cbn. apply list.NoDup_cons. split; [by rewrite list_elem_of_singleton | apply NoDup_singleton].
  - intros l Hl. cbn in *. rewrite !elem_of_cons in *. tauto.
Qed.

Lemma enter_start : entered true 0 start.
Proof. by repeat split. Qed.
Lemma enter_again n : entered true 2 (again n).
Proof. by repeat split. Qed.
Lemma again_at : position prog 2 = Some (drop 1 prog).
Proof. reflexivity. Qed.

Definition runs := trun true spend (add 0) (add 0) left_ yes yes op cond call 20 prog.

Lemma start_runs : runs prog (sg start) = Some (TUnwound {| count := 2; calls := 2; budget := 5 |} (drop 1 prog)).
Proof. vm_compute. reflexivity. Qed.
Lemma again_runs : runs (drop 1 prog) (sg (again 5)) = Some (TNext {| count := 0; calls := 4; budget := 4 |}).
Proof. vm_compute. reflexivity. Qed.
Lemma last_runs : runs (drop 1 prog) (sg (again 1)) = Some (TExit {| count := 0; calls := 4; budget := 0 |} 0).
Proof. vm_compute. reflexivity. Qed.

Definition ends (ts : list tree) (w : wst) (e : tend) : Prop :=
  exists n, ends_as next prog e (exec_list op cond call next true n ts w).

(** The call unwinds and is made again; the block goes on to its successor, or leaves
    with 0 when the budget is spent. *)
Lemma control_exact_witness :
  exists ts, parse instrs [] [] = Some ts /\
    ends ts start (TUnwound {| count := 2; calls := 2; budget := 5 |} (drop 1 prog)) /\
    ends ts (again 5) (TNext {| count := 0; calls := 4; budget := 4 |}) /\
    ends ts (again 1) (TExit {| count := 0; calls := 4; budget := 0 |} 0).
Proof.
  destruct (control_exact true false spend (add 0) (add 0) left_ yes yes op cond call next true prog instrs prog_ok
              ltac:(vm_compute; reflexivity)) as (ts & Hp & H).
  exists ts. split; [exact Hp |]. split; [| split].
  - exact (proj1 (H 0 prog start eq_refl enter_start) 20%nat _ start_runs).
  - exact (proj1 (H 2 (drop 1 prog) (again 5) again_at (enter_again 5)) 20%nat _ again_runs).
  - exact (proj1 (H 2 (drop 1 prog) (again 1) again_at (enter_again 1)) 20%nat _ last_runs).
Defined.
End ControlDemo.
