(* ===== verification/TcgCond.v ===== *)
(** * Comparison conditions

    Models include/tcg/tcg-cond.h and the two comparison routines of the TCI
    interpreter (tcg/wasm32.c, [tci_compare32] and [tci_compare64]).  A condition
    is its 4-bit code, as the instruction stream carries it; a code outside the
    ten comparisons reaches [g_assert_not_reached] ([None]).  The theorems say
    that the bit tricks of tcg-cond.h mean what their names say of the
    interpreter's comparisons. *)
From S2P Require Import Prelude.

Definition TCG_COND_NEVER : Z := 0.
Definition TCG_COND_ALWAYS : Z := 1.
Definition TCG_COND_EQ : Z := 8.
Definition TCG_COND_NE : Z := 9.
Definition TCG_COND_LT : Z := 2.
Definition TCG_COND_GE : Z := 3.
Definition TCG_COND_LE : Z := 10.
Definition TCG_COND_GT : Z := 11.
Definition TCG_COND_LTU : Z := 4.
Definition TCG_COND_GEU : Z := 5.
Definition TCG_COND_LEU : Z := 12.
Definition TCG_COND_GTU : Z := 13.

Definition tcg_invert_cond (c : Z) : Z := Z.lxor c 1.
Definition tcg_swap_cond (c : Z) : Z := if Z.land c 6 =? 0 then c else Z.lxor c 9.
Definition tcg_unsigned_cond (c : Z) : Z := if Z.land c 2 =? 0 then c else Z.lxor c 6.
Definition tcg_signed_cond (c : Z) : Z := if Z.land c 4 =? 0 then c else Z.lxor c 6.
Definition is_unsigned_cond (c : Z) : bool := negb (Z.land c 4 =? 0).

Definition tcg_high_cond (c : Z) : Z :=
  if (c =? TCG_COND_GE) || (c =? TCG_COND_LE) || (c =? TCG_COND_GEU) || (c =? TCG_COND_LEU)
  then Z.lxor c 8 else c.

Definition tci_compare32 (u0 u1 condition : Z) : option bool :=
  let i0 := s32 u0 in
  let i1 := s32 u1 in
  if condition =? TCG_COND_EQ then Some (u0 =? u1)
  else if condition =? TCG_COND_NE then Some (negb (u0 =? u1))
  else if condition =? TCG_COND_LT then Some (i0 <? i1)
  else if condition =? TCG_COND_GE then Some (i1 <=? i0)
  else if condition =? TCG_COND_LE then Some (i0 <=? i1)
  else if condition =? TCG_COND_GT then Some (i1 <? i0)
  else if condition =? TCG_COND_LTU then Some (u0 <? u1)
  else if condition =? TCG_COND_GEU then Some (u1 <=? u0)
  else if condition =? TCG_COND_LEU then Some (u0 <=? u1)
  else if condition =? TCG_COND_GTU then Some (u1 <? u0)
  else None.

Definition tci_compare64 (u0 u1 condition : Z) : option bool :=
  let i0 := s64 u0 in
  let i1 := s64 u1 in
  if condition =? TCG_COND_EQ then Some (u0 =? u1)
  else if condition =? TCG_COND_NE then Some (negb (u0 =? u1))
  else if condition =? TCG_COND_LT then Some (i0 <? i1)
  else if condition =? TCG_COND_GE then Some (i1 <=? i0)
  else if condition =? TCG_COND_LE then Some (i0 <=? i1)
  else if condition =? TCG_COND_GT then Some (i1 <? i0)
  else if condition =? TCG_COND_LTU then Some (u0 <? u1)
  else if condition =? TCG_COND_GEU then Some (u1 <=? u0)
  else if condition =? TCG_COND_LEU then Some (u0 <=? u1)
  else if condition =? TCG_COND_GTU then Some (u1 <? u0)
  else None.

(** The ten conditions a comparison may carry. *)
Definition comparison_conds : list Z :=
  [TCG_COND_EQ; TCG_COND_NE; TCG_COND_LT; TCG_COND_GE; TCG_COND_LE; TCG_COND_GT;
   TCG_COND_LTU; TCG_COND_GEU; TCG_COND_LEU; TCG_COND_GTU].

(** The condition without its equality part is decided by the high words; with
    equal high words the low words decide it, unsigned. *)
Definition compare_pair (h0 l0 h1 l1 c : Z) : option bool :=
  if h0 =? h1 then tci_compare32 l0 l1 (tcg_unsigned_cond c)
  else tci_compare32 h0 h1 (tcg_high_cond c).

(** ** Case analysis on a condition *)

Ltac cond_cases H :=
  unfold comparison_conds in H;
  repeat (rewrite elem_of_cons in H);
  repeat (destruct H as [-> | H]); try (by apply elem_of_nil in H).

(** Evaluates the condition tests of a goal about concrete conditions. *)
Ltac cond_eval :=
  unfold compare_pair, tci_compare32, tci_compare64, tcg_high_cond, tcg_invert_cond, tcg_swap_cond,
    tcg_unsigned_cond, tcg_signed_cond, is_unsigned_cond, TCG_COND_EQ, TCG_COND_NE, TCG_COND_LT,
    TCG_COND_GE, TCG_COND_LE, TCG_COND_GT, TCG_COND_LTU, TCG_COND_GEU, TCG_COND_LEU, TCG_COND_GTU;
  cbn -[sw uw Z.pow Z.mul Z.add].

(** Equality and order tests of a goal, split into their two outcomes. *)
Ltac cmp_cases :=
  repeat match goal with
  | |- context [?a =? ?b] => destruct (Z.eqb_spec a b)
  | |- context [?a <? ?b] => destruct (Z.ltb_spec a b)
  | |- context [?a <=? ?b] => destruct (Z.leb_spec a b)
  end; try done; try lia.

Lemma compare32_defined u0 u1 c :
  is_Some (tci_compare32 u0 u1 c) <-> c ∈ comparison_conds.
Proof.
  split.
  - unfold tci_compare32, comparison_conds. intros H.
    repeat (apply elem_of_cons; match type of H with
      | is_Some (if ?x =? ?y then _ else _) => destruct (Z.eqb_spec x y); [by left | right] end).
    by destruct H.
  - intros H. cond_cases H; by eexists.
Qed.

Lemma compare64_defined u0 u1 c :
  is_Some (tci_compare64 u0 u1 c) <-> c ∈ comparison_conds.
Proof.
  split.
  - unfold tci_compare64, comparison_conds. intros H.
    repeat (apply elem_of_cons; match type of H with
      | is_Some (if ?x =? ?y then _ else _) => destruct (Z.eqb_spec x y); [by left | right] end).
    by destruct H.
  - intros H. cond_cases H; by eexists.
Qed.

(** Signed readings are injective on words. *)
Lemma sw_inj w a b : 0 < w -> is_u w a -> is_u w b -> sw w a = sw w b -> a = b.
Proof.
  intros Hw Ha Hb E. rewrite <- (uw_small w a), <- (uw_small w b) by done.
  rewrite <- (uw_sw w a), <- (uw_sw w b) by done. by rewrite E.
Qed.

(** ** Inversion and operand swap *)

Lemma compare64_invert u0 u1 c :
  c ∈ comparison_conds ->
  tci_compare64 u0 u1 (tcg_invert_cond c) = negb <$> tci_compare64 u0 u1 c.
Proof. intros H. cond_cases H; cond_eval; cmp_cases. Qed.

Lemma compare32_invert u0 u1 c :
  c ∈ comparison_conds ->
  tci_compare32 u0 u1 (tcg_invert_cond c) = negb <$> tci_compare32 u0 u1 c.
Proof. intros H. cond_cases H; cond_eval; cmp_cases. Qed.

Lemma compare64_swap u0 u1 c :
  c ∈ comparison_conds -> tci_compare64 u1 u0 (tcg_swap_cond c) = tci_compare64 u0 u1 c.
Proof. intros H. cond_cases H; cond_eval; cmp_cases. Qed.

Lemma compare32_swap u0 u1 c :
  c ∈ comparison_conds -> tci_compare32 u1 u0 (tcg_swap_cond c) = tci_compare32 u0 u1 c.
Proof. intros H. cond_cases H; cond_eval; cmp_cases. Qed.

(** The two operations are involutions on the conditions, and signed and
    unsigned versions are each other's. *)
Lemma cond_involutions c :
  c ∈ comparison_conds ->
  tcg_invert_cond (tcg_invert_cond c) = c /\ tcg_swap_cond (tcg_swap_cond c) = c /\
  (is_unsigned_cond c = true -> tcg_unsigned_cond (tcg_signed_cond c) = c) /\
  tcg_invert_cond c ∈ comparison_conds /\ tcg_swap_cond c ∈ comparison_conds.
Proof.
  intros H. cond_cases H; repeat split;
    first [reflexivity | intros _; reflexivity | apply (bool_decide_unpack _); reflexivity].
Qed.

(** ** Double-word comparisons *)

(** The signed and unsigned reading of a pair, from its words. *)
Lemma pair_signed h l :
  is_u 32 h -> is_u 32 l -> s64 (h * 2 ^ 32 + l) = s32 h * 2 ^ 32 + l.
Proof.
  intros Hh Hl. rewrite !sw_cases by (done || unfold is_u in *; lia). unfold is_u in *.
  change (2 ^ (64 - 1)) with (2 ^ 31 * 2 ^ 32). change (2 ^ (32 - 1)) with (2 ^ 31).
  destruct (Z.ltb_spec (h * 2 ^ 32 + l) (2 ^ 31 * 2 ^ 32)), (Z.ltb_spec h (2 ^ 31)); lia.
Qed.

(** The comparison of 64-bit values held as pairs of 32-bit words, done with
    [tcg_high_cond] on the high words unless they are equal and [tcg_unsigned_cond] on
    the low words, is the 64-bit comparison of the pairs for every ordering condition. *)
Theorem compare_pair_exact h0 l0 h1 l1 c :
  is_u 32 h0 -> is_u 32 l0 -> is_u 32 h1 -> is_u 32 l1 -> c ∈ comparison_conds ->
  c <> TCG_COND_EQ -> c <> TCG_COND_NE ->
  compare_pair h0 l0 h1 l1 c = tci_compare64 (h0 * 2 ^ 32 + l0) (h1 * 2 ^ 32 + l1) c.
Proof.
  intros Hh0 Hl0 Hh1 Hl1 H He Hn. pose proof (sw_inj 32 h0 h1 ltac:(lia) Hh0 Hh1) as Hi.
  unfold tci_compare64. rewrite !pair_signed by done. unfold is_u in *.
  cond_cases H; try done; cond_eval; cmp_cases; subst; try lia;
    match goal with E : h0 <> h1 |- _ => destruct E; apply Hi; lia end.
Qed.

Lemma compare_pair_exact_witness :
  compare_pair 1 0xffffffff 2 0 TCG_COND_LE = tci_compare64 (1 * 2 ^ 32 + 0xffffffff) (2 * 2 ^ 32 + 0) TCG_COND_LE.
Proof.
  apply (compare_pair_exact 1 0xffffffff 2 0 TCG_COND_LE); try (unfold is_u; lia); try discriminate.
  unfold comparison_conds. set_solver.
Defined.
