(* ===== verification/Opcodes.v ===== *)
(** * TCG opcodes

    The opcode table of include/tcg/tcg-opc.h as the wasm32 backend instantiates
    it (tcg/wasm32/tcg-target.h and the defaults of include/tcg/tcg.h): 64-bit
    registers, no host vectors, and the two TCI-private moves at the end.  An
    opcode's number is its position, as in the [TCGOpcode] enumeration; the
    instruction stream stores it in 8 bits. *)
From S2P Require Import Prelude.

Inductive TCGOpcode : Set :=
  | INDEX_op_discard | INDEX_op_set_label | INDEX_op_call | INDEX_op_br | INDEX_op_mb
  | INDEX_op_mov_i32 | INDEX_op_setcond_i32 | INDEX_op_negsetcond_i32 | INDEX_op_movcond_i32
  | INDEX_op_ld8u_i32 | INDEX_op_ld8s_i32 | INDEX_op_ld16u_i32 | INDEX_op_ld16s_i32
  | INDEX_op_ld_i32 | INDEX_op_st8_i32 | INDEX_op_st16_i32 | INDEX_op_st_i32 | INDEX_op_add_i32
  | INDEX_op_sub_i32 | INDEX_op_mul_i32 | INDEX_op_div_i32 | INDEX_op_divu_i32 | INDEX_op_rem_i32
  | INDEX_op_remu_i32 | INDEX_op_div2_i32 | INDEX_op_divu2_i32 | INDEX_op_and_i32
  | INDEX_op_or_i32 | INDEX_op_xor_i32 | INDEX_op_shl_i32 | INDEX_op_shr_i32 | INDEX_op_sar_i32
  | INDEX_op_rotl_i32 | INDEX_op_rotr_i32 | INDEX_op_deposit_i32 | INDEX_op_extract_i32
  | INDEX_op_sextract_i32 | INDEX_op_extract2_i32 | INDEX_op_brcond_i32 | INDEX_op_add2_i32
  | INDEX_op_sub2_i32 | INDEX_op_mulu2_i32 | INDEX_op_muls2_i32 | INDEX_op_muluh_i32
  | INDEX_op_mulsh_i32 | INDEX_op_brcond2_i32 | INDEX_op_setcond2_i32 | INDEX_op_ext8s_i32
  | INDEX_op_ext16s_i32 | INDEX_op_ext8u_i32 | INDEX_op_ext16u_i32 | INDEX_op_bswap16_i32
  | INDEX_op_bswap32_i32 | INDEX_op_not_i32 | INDEX_op_neg_i32 | INDEX_op_andc_i32
  | INDEX_op_orc_i32 | INDEX_op_eqv_i32 | INDEX_op_nand_i32 | INDEX_op_nor_i32 | INDEX_op_clz_i32
  | INDEX_op_ctz_i32 | INDEX_op_ctpop_i32 | INDEX_op_mov_i64 | INDEX_op_setcond_i64
  | INDEX_op_negsetcond_i64 | INDEX_op_movcond_i64 | INDEX_op_ld8u_i64 | INDEX_op_ld8s_i64
  | INDEX_op_ld16u_i64 | INDEX_op_ld16s_i64 | INDEX_op_ld32u_i64 | INDEX_op_ld32s_i64
  | INDEX_op_ld_i64 | INDEX_op_st8_i64 | INDEX_op_st16_i64 | INDEX_op_st32_i64 | INDEX_op_st_i64
  | INDEX_op_add_i64 | INDEX_op_sub_i64 | INDEX_op_mul_i64 | INDEX_op_div_i64 | INDEX_op_divu_i64
  | INDEX_op_rem_i64 | INDEX_op_remu_i64 | INDEX_op_div2_i64 | INDEX_op_divu2_i64
  | INDEX_op_and_i64 | INDEX_op_or_i64 | INDEX_op_xor_i64 | INDEX_op_shl_i64 | INDEX_op_shr_i64
  | INDEX_op_sar_i64 | INDEX_op_rotl_i64 | INDEX_op_rotr_i64 | INDEX_op_deposit_i64
  | INDEX_op_extract_i64 | INDEX_op_sextract_i64 | INDEX_op_extract2_i64 | INDEX_op_ext_i32_i64
  | INDEX_op_extu_i32_i64 | INDEX_op_extrl_i64_i32 | INDEX_op_extrh_i64_i32 | INDEX_op_brcond_i64
  | INDEX_op_ext8s_i64 | INDEX_op_ext16s_i64 | INDEX_op_ext32s_i64 | INDEX_op_ext8u_i64
  | INDEX_op_ext16u_i64 | INDEX_op_ext32u_i64 | INDEX_op_bswap16_i64 | INDEX_op_bswap32_i64
  | INDEX_op_bswap64_i64 | INDEX_op_not_i64 | INDEX_op_neg_i64 | INDEX_op_andc_i64
  | INDEX_op_orc_i64 | INDEX_op_eqv_i64 | INDEX_op_nand_i64 | INDEX_op_nor_i64 | INDEX_op_clz_i64
  | INDEX_op_ctz_i64 | INDEX_op_ctpop_i64 | INDEX_op_add2_i64 | INDEX_op_sub2_i64
  | INDEX_op_mulu2_i64 | INDEX_op_muls2_i64 | INDEX_op_muluh_i64 | INDEX_op_mulsh_i64
  | INDEX_op_insn_start | INDEX_op_exit_tb | INDEX_op_goto_tb | INDEX_op_goto_ptr
  | INDEX_op_plugin_cb_start | INDEX_op_plugin_cb_end | INDEX_op_qemu_ld_a32_i32
  | INDEX_op_qemu_st_a32_i32 | INDEX_op_qemu_ld_a32_i64 | INDEX_op_qemu_st_a32_i64
  | INDEX_op_qemu_ld_a64_i32 | INDEX_op_qemu_st_a64_i32 | INDEX_op_qemu_ld_a64_i64
  | INDEX_op_qemu_st_a64_i64 | INDEX_op_qemu_st8_a32_i32 | INDEX_op_qemu_st8_a64_i32
  | INDEX_op_qemu_ld_a32_i128 | INDEX_op_qemu_ld_a64_i128 | INDEX_op_qemu_st_a32_i128
  | INDEX_op_qemu_st_a64_i128 | INDEX_op_mov_vec | INDEX_op_dup_vec | INDEX_op_dup2_vec
  | INDEX_op_ld_vec | INDEX_op_st_vec | INDEX_op_dupm_vec | INDEX_op_add_vec | INDEX_op_sub_vec
  | INDEX_op_mul_vec | INDEX_op_neg_vec | INDEX_op_abs_vec | INDEX_op_ssadd_vec
  | INDEX_op_usadd_vec | INDEX_op_sssub_vec | INDEX_op_ussub_vec | INDEX_op_smin_vec
  | INDEX_op_umin_vec | INDEX_op_smax_vec | INDEX_op_umax_vec | INDEX_op_and_vec
  | INDEX_op_or_vec | INDEX_op_xor_vec | INDEX_op_andc_vec | INDEX_op_orc_vec | INDEX_op_nand_vec
  | INDEX_op_nor_vec | INDEX_op_eqv_vec | INDEX_op_not_vec | INDEX_op_shli_vec
  | INDEX_op_shri_vec | INDEX_op_sari_vec | INDEX_op_rotli_vec | INDEX_op_shls_vec
  | INDEX_op_shrs_vec | INDEX_op_sars_vec | INDEX_op_rotls_vec | INDEX_op_shlv_vec
  | INDEX_op_shrv_vec | INDEX_op_sarv_vec | INDEX_op_rotlv_vec | INDEX_op_rotrv_vec
  | INDEX_op_cmp_vec | INDEX_op_bitsel_vec | INDEX_op_cmpsel_vec | INDEX_op_last_generic
  | INDEX_op_tci_movi | INDEX_op_tci_movl.

(** The enumeration in order. *)
Definition all_opcodes : list TCGOpcode :=
  [INDEX_op_discard; INDEX_op_set_label; INDEX_op_call; INDEX_op_br; INDEX_op_mb;
   INDEX_op_mov_i32; INDEX_op_setcond_i32; INDEX_op_negsetcond_i32; INDEX_op_movcond_i32;
   INDEX_op_ld8u_i32; INDEX_op_ld8s_i32; INDEX_op_ld16u_i32; INDEX_op_ld16s_i32; INDEX_op_ld_i32;
   INDEX_op_st8_i32; INDEX_op_st16_i32; INDEX_op_st_i32; INDEX_op_add_i32; INDEX_op_sub_i32;
   INDEX_op_mul_i32; INDEX_op_div_i32; INDEX_op_divu_i32; INDEX_op_rem_i32; INDEX_op_remu_i32;
   INDEX_op_div2_i32; INDEX_op_divu2_i32; INDEX_op_and_i32; INDEX_op_or_i32; INDEX_op_xor_i32;
   INDEX_op_shl_i32; INDEX_op_shr_i32; INDEX_op_sar_i32; INDEX_op_rotl_i32; INDEX_op_rotr_i32;
   INDEX_op_deposit_i32; INDEX_op_extract_i32; INDEX_op_sextract_i32; INDEX_op_extract2_i32;
   INDEX_op_brcond_i32; INDEX_op_add2_i32; INDEX_op_sub2_i32; INDEX_op_mulu2_i32;
   INDEX_op_muls2_i32; INDEX_op_muluh_i32; INDEX_op_mulsh_i32; INDEX_op_brcond2_i32;
   INDEX_op_setcond2_i32; INDEX_op_ext8s_i32; INDEX_op_ext16s_i32; INDEX_op_ext8u_i32;
   INDEX_op_ext16u_i32; INDEX_op_bswap16_i32; INDEX_op_bswap32_i32; INDEX_op_not_i32;
   INDEX_op_neg_i32; INDEX_op_andc_i32; INDEX_op_orc_i32; INDEX_op_eqv_i32; INDEX_op_nand_i32;
   INDEX_op_nor_i32; INDEX_op_clz_i32; INDEX_op_ctz_i32; INDEX_op_ctpop_i32; INDEX_op_mov_i64;
   INDEX_op_setcond_i64; INDEX_op_negsetcond_i64; INDEX_op_movcond_i64; INDEX_op_ld8u_i64;
   INDEX_op_ld8s_i64; INDEX_op_ld16u_i64; INDEX_op_ld16s_i64; INDEX_op_ld32u_i64;
   INDEX_op_ld32s_i64; INDEX_op_ld_i64; INDEX_op_st8_i64; INDEX_op_st16_i64; INDEX_op_st32_i64;
   INDEX_op_st_i64; INDEX_op_add_i64; INDEX_op_sub_i64; INDEX_op_mul_i64; INDEX_op_div_i64;
   INDEX_op_divu_i64; INDEX_op_rem_i64; INDEX_op_remu_i64; INDEX_op_div2_i64; INDEX_op_divu2_i64;
   INDEX_op_and_i64; INDEX_op_or_i64; INDEX_op_xor_i64; INDEX_op_shl_i64; INDEX_op_shr_i64;
   INDEX_op_sar_i64; INDEX_op_rotl_i64; INDEX_op_rotr_i64; INDEX_op_deposit_i64;
   INDEX_op_extract_i64; INDEX_op_sextract_i64; INDEX_op_extract2_i64; INDEX_op_ext_i32_i64;
   INDEX_op_extu_i32_i64; INDEX_op_extrl_i64_i32; INDEX_op_extrh_i64_i32; INDEX_op_brcond_i64;
   INDEX_op_ext8s_i64; INDEX_op_ext16s_i64; INDEX_op_ext32s_i64; INDEX_op_ext8u_i64;
   INDEX_op_ext16u_i64; INDEX_op_ext32u_i64; INDEX_op_bswap16_i64; INDEX_op_bswap32_i64;
   INDEX_op_bswap64_i64; INDEX_op_not_i64; INDEX_op_neg_i64; INDEX_op_andc_i64; INDEX_op_orc_i64;
   INDEX_op_eqv_i64; INDEX_op_nand_i64; INDEX_op_nor_i64; INDEX_op_clz_i64; INDEX_op_ctz_i64;
   INDEX_op_ctpop_i64; INDEX_op_add2_i64; INDEX_op_sub2_i64; INDEX_op_mulu2_i64;
   INDEX_op_muls2_i64; INDEX_op_muluh_i64; INDEX_op_mulsh_i64; INDEX_op_insn_start;
   INDEX_op_exit_tb; INDEX_op_goto_tb; INDEX_op_goto_ptr; INDEX_op_plugin_cb_start;
   INDEX_op_plugin_cb_end; INDEX_op_qemu_ld_a32_i32; INDEX_op_qemu_st_a32_i32;
   INDEX_op_qemu_ld_a32_i64; INDEX_op_qemu_st_a32_i64; INDEX_op_qemu_ld_a64_i32;
   INDEX_op_qemu_st_a64_i32; INDEX_op_qemu_ld_a64_i64; INDEX_op_qemu_st_a64_i64;
   INDEX_op_qemu_st8_a32_i32; INDEX_op_qemu_st8_a64_i32; INDEX_op_qemu_ld_a32_i128;
   INDEX_op_qemu_ld_a64_i128; INDEX_op_qemu_st_a32_i128; INDEX_op_qemu_st_a64_i128;
   INDEX_op_mov_vec; INDEX_op_dup_vec; INDEX_op_dup2_vec; INDEX_op_ld_vec; INDEX_op_st_vec;
   INDEX_op_dupm_vec; INDEX_op_add_vec; INDEX_op_sub_vec; INDEX_op_mul_vec; INDEX_op_neg_vec;
   INDEX_op_abs_vec; INDEX_op_ssadd_vec; INDEX_op_usadd_vec; INDEX_op_sssub_vec;
   INDEX_op_ussub_vec; INDEX_op_smin_vec; INDEX_op_umin_vec; INDEX_op_smax_vec;
   INDEX_op_umax_vec; INDEX_op_and_vec; INDEX_op_or_vec; INDEX_op_xor_vec; INDEX_op_andc_vec;
   INDEX_op_orc_vec; INDEX_op_nand_vec; INDEX_op_nor_vec; INDEX_op_eqv_vec; INDEX_op_not_vec;
   INDEX_op_shli_vec; INDEX_op_shri_vec; INDEX_op_sari_vec; INDEX_op_rotli_vec;
   INDEX_op_shls_vec; INDEX_op_shrs_vec; INDEX_op_sars_vec; INDEX_op_rotls_vec;
   INDEX_op_shlv_vec; INDEX_op_shrv_vec; INDEX_op_sarv_vec; INDEX_op_rotlv_vec;
   INDEX_op_rotrv_vec; INDEX_op_cmp_vec; INDEX_op_bitsel_vec; INDEX_op_cmpsel_vec;
   INDEX_op_last_generic; INDEX_op_tci_movi; INDEX_op_tci_movl].

(** ** Operation flags *)

Definition TCG_OPF_BB_EXIT : Z := 1.
Definition TCG_OPF_BB_END : Z := 2.
Definition TCG_OPF_CALL_CLOBBER : Z := 4.
Definition TCG_OPF_SIDE_EFFECTS : Z := 8.
Definition TCG_OPF_64BIT : Z := 16.
Definition TCG_OPF_NOT_PRESENT : Z := 32.
Definition TCG_OPF_VECTOR : Z := 64.
Definition TCG_OPF_COND_BRANCH : Z := 128.

(** The features a backend declares ([TCG_TARGET_HAS_*]). *)
Inductive tcg_feature : Set :=
  | HAS_bswap16_i32 | HAS_bswap32_i32 | HAS_div_i32 | HAS_rem_i32 | HAS_ext8s_i32
  | HAS_ext16s_i32 | HAS_ext8u_i32 | HAS_ext16u_i32 | HAS_andc_i32 | HAS_deposit_i32
  | HAS_extract_i32 | HAS_sextract_i32 | HAS_extract2_i32 | HAS_eqv_i32 | HAS_nand_i32
  | HAS_nor_i32 | HAS_clz_i32 | HAS_ctz_i32 | HAS_ctpop_i32 | HAS_neg_i32 | HAS_not_i32
  | HAS_orc_i32 | HAS_rot_i32 | HAS_movcond_i32 | HAS_negsetcond_i32 | HAS_muls2_i32
  | HAS_muluh_i32 | HAS_mulsh_i32 | HAS_qemu_st8_i32 | HAS_extr_i64_i32 | HAS_extrl_i64_i32
  | HAS_extrh_i64_i32 | HAS_bswap16_i64 | HAS_bswap32_i64 | HAS_bswap64_i64 | HAS_deposit_i64
  | HAS_extract_i64 | HAS_sextract_i64 | HAS_extract2_i64 | HAS_div_i64 | HAS_rem_i64
  | HAS_ext8s_i64 | HAS_ext16s_i64 | HAS_ext32s_i64 | HAS_ext8u_i64 | HAS_ext16u_i64
  | HAS_ext32u_i64 | HAS_andc_i64 | HAS_eqv_i64 | HAS_nand_i64 | HAS_nor_i64 | HAS_clz_i64
  | HAS_ctz_i64 | HAS_ctpop_i64 | HAS_neg_i64 | HAS_not_i64 | HAS_orc_i64 | HAS_rot_i64
  | HAS_negsetcond_i64 | HAS_movcond_i64 | HAS_muls2_i64 | HAS_add2_i32 | HAS_sub2_i32
  | HAS_mulu2_i32 | HAS_add2_i64 | HAS_sub2_i64 | HAS_mulu2_i64 | HAS_muluh_i64 | HAS_mulsh_i64
  | HAS_qemu_ldst_i128 | HAS_div2_i32 | HAS_div2_i64 | HAS_mul_vec | HAS_neg_vec | HAS_abs_vec
  | HAS_sat_vec | HAS_minmax_vec | HAS_andc_vec | HAS_orc_vec | HAS_nand_vec | HAS_nor_vec
  | HAS_eqv_vec | HAS_not_vec | HAS_shi_vec | HAS_roti_vec | HAS_shs_vec | HAS_rots_vec
  | HAS_shv_vec | HAS_rotv_vec | HAS_bitsel_vec | HAS_cmpsel_vec.

(** What the wasm32 backend has. *)
Definition tcg_target_has (f : tcg_feature) : bool :=
  match f with
  | HAS_extract2_i32 | HAS_negsetcond_i32 | HAS_muluh_i32 | HAS_mulsh_i32 | HAS_qemu_st8_i32
  | HAS_extr_i64_i32 | HAS_extrh_i64_i32 | HAS_extract2_i64 | HAS_negsetcond_i64
  | HAS_muls2_i64 | HAS_mulu2_i64 | HAS_muluh_i64 | HAS_mulsh_i64 | HAS_qemu_ldst_i128
  | HAS_div2_i32 | HAS_div2_i64 | HAS_mul_vec | HAS_neg_vec | HAS_abs_vec | HAS_sat_vec
  | HAS_minmax_vec | HAS_andc_vec | HAS_orc_vec | HAS_nand_vec | HAS_nor_vec | HAS_eqv_vec
  | HAS_not_vec | HAS_shi_vec | HAS_roti_vec | HAS_shs_vec | HAS_rots_vec | HAS_shv_vec
  | HAS_rotv_vec | HAS_bitsel_vec | HAS_cmpsel_vec => false
  | _ => true
  end.

Definition TCG_TARGET_REG_BITS : Z := 64.
Definition TCG_TARGET_MAYBE_vec : bool := false.

Definition IMPL_if (b : bool) : Z := if b then 0 else TCG_OPF_NOT_PRESENT.
Definition IMPL (f : tcg_feature) : Z := IMPL_if (tcg_target_has f).
Definition IMPL64 : Z :=
  if TCG_TARGET_REG_BITS =? 32 then Z.lor TCG_OPF_64BIT TCG_OPF_NOT_PRESENT else TCG_OPF_64BIT.
Definition IMPLVEC : Z := Z.lor TCG_OPF_VECTOR (IMPL_if TCG_TARGET_MAYBE_vec).
Definition DATA64_ARGS : Z := if TCG_TARGET_REG_BITS =? 64 then 1 else 2.

Record TCGOpDef := { nb_oargs : Z; nb_iargs : Z; nb_cargs : Z; op_flags : Z }.

(** A row of the table: output, input and constant arguments, then the flags or-ed. *)
Definition DEF (o i c : Z) (flags : list Z) : TCGOpDef :=
  {| nb_oargs := o; nb_iargs := i; nb_cargs := c; op_flags := fold_right Z.lor 0 flags |}.

Definition tcg_op_defs (opc : TCGOpcode) : TCGOpDef :=
  match opc with
  | INDEX_op_discard => DEF 1 0 0 [TCG_OPF_NOT_PRESENT]
  | INDEX_op_set_label => DEF 0 0 1 [TCG_OPF_BB_END; TCG_OPF_NOT_PRESENT]
  | INDEX_op_call => DEF 0 0 3 [TCG_OPF_CALL_CLOBBER; TCG_OPF_NOT_PRESENT]
  | INDEX_op_br => DEF 0 0 1 [TCG_OPF_BB_END]
  | INDEX_op_mb => DEF 0 0 1 []
  | INDEX_op_mov_i32 => DEF 1 1 0 [TCG_OPF_NOT_PRESENT]
  | INDEX_op_setcond_i32 => DEF 1 2 1 []
  | INDEX_op_negsetcond_i32 => DEF 1 2 1 [IMPL HAS_negsetcond_i32]
  | INDEX_op_movcond_i32 => DEF 1 4 1 []
  | INDEX_op_ld8u_i32 => DEF 1 1 1 []
  | INDEX_op_ld8s_i32 => DEF 1 1 1 []
  | INDEX_op_ld16u_i32 => DEF 1 1 1 []
  | INDEX_op_ld16s_i32 => DEF 1 1 1 []
  | INDEX_op_ld_i32 => DEF 1 1 1 []
  | INDEX_op_st8_i32 => DEF 0 2 1 []
  | INDEX_op_st16_i32 => DEF 0 2 1 []
  | INDEX_op_st_i32 => DEF 0 2 1 []
  | INDEX_op_add_i32 => DEF 1 2 0 []
  | INDEX_op_sub_i32 => DEF 1 2 0 []
  | INDEX_op_mul_i32 => DEF 1 2 0 []
  | INDEX_op_div_i32 => DEF 1 2 0 [IMPL HAS_div_i32]
  | INDEX_op_divu_i32 => DEF 1 2 0 [IMPL HAS_div_i32]
  | INDEX_op_rem_i32 => DEF 1 2 0 [IMPL HAS_rem_i32]
  | INDEX_op_remu_i32 => DEF 1 2 0 [IMPL HAS_rem_i32]
  | INDEX_op_div2_i32 => DEF 2 3 0 [IMPL HAS_div2_i32]
  | INDEX_op_divu2_i32 => DEF 2 3 0 [IMPL HAS_div2_i32]
  | INDEX_op_and_i32 => DEF 1 2 0 []
  | INDEX_op_or_i32 => DEF 1 2 0 []
  | INDEX_op_xor_i32 => DEF 1 2 0 []
  | INDEX_op_shl_i32 => DEF 1 2 0 []
  | INDEX_op_shr_i32 => DEF 1 2 0 []
  | INDEX_op_sar_i32 => DEF 1 2 0 []
  | INDEX_op_rotl_i32 => DEF 1 2 0 [IMPL HAS_rot_i32]
  | INDEX_op_rotr_i32 => DEF 1 2 0 [IMPL HAS_rot_i32]
  | INDEX_op_deposit_i32 => DEF 1 2 2 [IMPL HAS_deposit_i32]
  | INDEX_op_extract_i32 => DEF 1 1 2 [IMPL HAS_extract_i32]
  | INDEX_op_sextract_i32 => DEF 1 1 2 [IMPL HAS_sextract_i32]
  | INDEX_op_extract2_i32 => DEF 1 2 1 [IMPL HAS_extract2_i32]
  | INDEX_op_brcond_i32 => DEF 0 2 2 [TCG_OPF_BB_END; TCG_OPF_COND_BRANCH]
  | INDEX_op_add2_i32 => DEF 2 4 0 [IMPL HAS_add2_i32]
  | INDEX_op_sub2_i32 => DEF 2 4 0 [IMPL HAS_sub2_i32]
  | INDEX_op_mulu2_i32 => DEF 2 2 0 [IMPL HAS_mulu2_i32]
  | INDEX_op_muls2_i32 => DEF 2 2 0 [IMPL HAS_muls2_i32]
  | INDEX_op_muluh_i32 => DEF 1 2 0 [IMPL HAS_muluh_i32]
  | INDEX_op_mulsh_i32 => DEF 1 2 0 [IMPL HAS_mulsh_i32]
  | INDEX_op_brcond2_i32 => DEF 0 4 2 [TCG_OPF_BB_END; TCG_OPF_COND_BRANCH; IMPL_if (TCG_TARGET_REG_BITS =? 32)]
  | INDEX_op_setcond2_i32 => DEF 1 4 1 [IMPL_if (TCG_TARGET_REG_BITS =? 32)]
  | INDEX_op_ext8s_i32 => DEF 1 1 0 [IMPL HAS_ext8s_i32]
  | INDEX_op_ext16s_i32 => DEF 1 1 0 [IMPL HAS_ext16s_i32]
  | INDEX_op_ext8u_i32 => DEF 1 1 0 [IMPL HAS_ext8u_i32]
  | INDEX_op_ext16u_i32 => DEF 1 1 0 [IMPL HAS_ext16u_i32]
  | INDEX_op_bswap16_i32 => DEF 1 1 1 [IMPL HAS_bswap16_i32]
  | INDEX_op_bswap32_i32 => DEF 1 1 1 [IMPL HAS_bswap32_i32]
  | INDEX_op_not_i32 => DEF 1 1 0 [IMPL HAS_not_i32]
  | INDEX_op_neg_i32 => DEF 1 1 0 []
  | INDEX_op_andc_i32 => DEF 1 2 0 [IMPL HAS_andc_i32]
  | INDEX_op_orc_i32 => DEF 1 2 0 [IMPL HAS_orc_i32]
  | INDEX_op_eqv_i32 => DEF 1 2 0 [IMPL HAS_eqv_i32]
  | INDEX_op_nand_i32 => DEF 1 2 0 [IMPL HAS_nand_i32]
  | INDEX_op_nor_i32 => DEF 1 2 0 [IMPL HAS_nor_i32]
  | INDEX_op_clz_i32 => DEF 1 2 0 [IMPL HAS_clz_i32]
  | INDEX_op_ctz_i32 => DEF 1 2 0 [IMPL HAS_ctz_i32]
  | INDEX_op_ctpop_i32 => DEF 1 1 0 [IMPL HAS_ctpop_i32]
  | INDEX_op_mov_i64 => DEF 1 1 0 [TCG_OPF_64BIT; TCG_OPF_NOT_PRESENT]
  | INDEX_op_setcond_i64 => DEF 1 2 1 [IMPL64]
  | INDEX_op_negsetcond_i64 => DEF 1 2 1 [IMPL64; IMPL HAS_negsetcond_i64]
  | INDEX_op_movcond_i64 => DEF 1 4 1 [IMPL64]
  | INDEX_op_ld8u_i64 => DEF 1 1 1 [IMPL64]
  | INDEX_op_ld8s_i64 => DEF 1 1 1 [IMPL64]
  | INDEX_op_ld16u_i64 => DEF 1 1 1 [IMPL64]
  | INDEX_op_ld16s_i64 => DEF 1 1 1 [IMPL64]
  | INDEX_op_ld32u_i64 => DEF 1 1 1 [IMPL64]
  | INDEX_op_ld32s_i64 => DEF 1 1 1 [IMPL64]
  | INDEX_op_ld_i64 => DEF 1 1 1 [IMPL64]
  | INDEX_op_st8_i64 => DEF 0 2 1 [IMPL64]
  | INDEX_op_st16_i64 => DEF 0 2 1 [IMPL64]
  | INDEX_op_st32_i64 => DEF 0 2 1 [IMPL64]
  | INDEX_op_st_i64 => DEF 0 2 1 [IMPL64]
  | INDEX_op_add_i64 => DEF 1 2 0 [IMPL64]
  | INDEX_op_sub_i64 => DEF 1 2 0 [IMPL64]
  | INDEX_op_mul_i64 => DEF 1 2 0 [IMPL64]
  | INDEX_op_div_i64 => DEF 1 2 0 [IMPL64; IMPL HAS_div_i64]
  | INDEX_op_divu_i64 => DEF 1 2 0 [IMPL64; IMPL HAS_div_i64]
  | INDEX_op_rem_i64 => DEF 1 2 0 [IMPL64; IMPL HAS_rem_i64]
  | INDEX_op_remu_i64 => DEF 1 2 0 [IMPL64; IMPL HAS_rem_i64]
  | INDEX_op_div2_i64 => DEF 2 3 0 [IMPL64; IMPL HAS_div2_i64]
  | INDEX_op_divu2_i64 => DEF 2 3 0 [IMPL64; IMPL HAS_div2_i64]
  | INDEX_op_and_i64 => DEF 1 2 0 [IMPL64]
  | INDEX_op_or_i64 => DEF 1 2 0 [IMPL64]
  | INDEX_op_xor_i64 => DEF 1 2 0 [IMPL64]
  | INDEX_op_shl_i64 => DEF 1 2 0 [IMPL64]
  | INDEX_op_shr_i64 => DEF 1 2 0 [IMPL64]
  | INDEX_op_sar_i64 => DEF 1 2 0 [IMPL64]
  | INDEX_op_rotl_i64 => DEF 1 2 0 [IMPL64; IMPL HAS_rot_i64]
  | INDEX_op_rotr_i64 => DEF 1 2 0 [IMPL64; IMPL HAS_rot_i64]
  | INDEX_op_deposit_i64 => DEF 1 2 2 [IMPL64; IMPL HAS_deposit_i64]
  | INDEX_op_extract_i64 => DEF 1 1 2 [IMPL64; IMPL HAS_extract_i64]
  | INDEX_op_sextract_i64 => DEF 1 1 2 [IMPL64; IMPL HAS_sextract_i64]
  | INDEX_op_extract2_i64 => DEF 1 2 1 [IMPL64; IMPL HAS_extract2_i64]
  | INDEX_op_ext_i32_i64 => DEF 1 1 0 [IMPL64]
  | INDEX_op_extu_i32_i64 => DEF 1 1 0 [IMPL64]
  | INDEX_op_extrl_i64_i32 => DEF 1 1 0 []
  | INDEX_op_extrh_i64_i32 => DEF 1 1 0 []
  | INDEX_op_brcond_i64 => DEF 0 2 2 [TCG_OPF_BB_END; TCG_OPF_COND_BRANCH; IMPL64]
  | INDEX_op_ext8s_i64 => DEF 1 1 0 [IMPL64; IMPL HAS_ext8s_i64]
  | INDEX_op_ext16s_i64 => DEF 1 1 0 [IMPL64; IMPL HAS_ext16s_i64]
  | INDEX_op_ext32s_i64 => DEF 1 1 0 [IMPL64; IMPL HAS_ext32s_i64]
  | INDEX_op_ext8u_i64 => DEF 1 1 0 [IMPL64; IMPL HAS_ext8u_i64]
  | INDEX_op_ext16u_i64 => DEF 1 1 0 [IMPL64; IMPL HAS_ext16u_i64]
  | INDEX_op_ext32u_i64 => DEF 1 1 0 [IMPL64; IMPL HAS_ext32u_i64]
  | INDEX_op_bswap16_i64 => DEF 1 1 1 [IMPL64; IMPL HAS_bswap16_i64]
  | INDEX_op_bswap32_i64 => DEF 1 1 1 [IMPL64; IMPL HAS_bswap32_i64]
  | INDEX_op_bswap64_i64 => DEF 1 1 1 [IMPL64; IMPL HAS_bswap64_i64]
  | INDEX_op_not_i64 => DEF 1 1 0 [IMPL64; IMPL HAS_not_i64]
  | INDEX_op_neg_i64 => DEF 1 1 0 [IMPL64]
  | INDEX_op_andc_i64 => DEF 1 2 0 [IMPL64; IMPL HAS_andc_i64]
  | INDEX_op_orc_i64 => DEF 1 2 0 [IMPL64; IMPL HAS_orc_i64]
  | INDEX_op_eqv_i64 => DEF 1 2 0 [IMPL64; IMPL HAS_eqv_i64]
  | INDEX_op_nand_i64 => DEF 1 2 0 [IMPL64; IMPL HAS_nand_i64]
  | INDEX_op_nor_i64 => DEF 1 2 0 [IMPL64; IMPL HAS_nor_i64]
  | INDEX_op_clz_i64 => DEF 1 2 0 [IMPL64; IMPL HAS_clz_i64]
  | INDEX_op_ctz_i64 => DEF 1 2 0 [IMPL64; IMPL HAS_ctz_i64]
  | INDEX_op_ctpop_i64 => DEF 1 1 0 [IMPL64; IMPL HAS_ctpop_i64]
  | INDEX_op_add2_i64 => DEF 2 4 0 [IMPL64; IMPL HAS_add2_i64]
  | INDEX_op_sub2_i64 => DEF 2 4 0 [IMPL64; IMPL HAS_sub2_i64]
  | INDEX_op_mulu2_i64 => DEF 2 2 0 [IMPL64; IMPL HAS_mulu2_i64]
  | INDEX_op_muls2_i64 => DEF 2 2 0 [IMPL64; IMPL HAS_muls2_i64]
  | INDEX_op_muluh_i64 => DEF 1 2 0 [IMPL64; IMPL HAS_muluh_i64]
  | INDEX_op_mulsh_i64 => DEF 1 2 0 [IMPL64; IMPL HAS_mulsh_i64]
  | INDEX_op_insn_start => DEF 0 0 DATA64_ARGS [TCG_OPF_NOT_PRESENT]
  | INDEX_op_exit_tb => DEF 0 0 1 [TCG_OPF_BB_EXIT; TCG_OPF_BB_END]
  | INDEX_op_goto_tb => DEF 0 0 1 [TCG_OPF_BB_EXIT; TCG_OPF_BB_END]
  | INDEX_op_goto_ptr => DEF 0 1 0 [TCG_OPF_BB_EXIT; TCG_OPF_BB_END]
  | INDEX_op_plugin_cb_start => DEF 0 0 3 [TCG_OPF_NOT_PRESENT]
  | INDEX_op_plugin_cb_end => DEF 0 0 0 [TCG_OPF_NOT_PRESENT]
  | INDEX_op_qemu_ld_a32_i32 => DEF 1 1 1 [TCG_OPF_CALL_CLOBBER; TCG_OPF_SIDE_EFFECTS]
  | INDEX_op_qemu_st_a32_i32 => DEF 0 (1 + 1) 1 [TCG_OPF_CALL_CLOBBER; TCG_OPF_SIDE_EFFECTS]
  | INDEX_op_qemu_ld_a32_i64 => DEF DATA64_ARGS 1 1 [TCG_OPF_CALL_CLOBBER; TCG_OPF_SIDE_EFFECTS; TCG_OPF_64BIT]
  | INDEX_op_qemu_st_a32_i64 => DEF 0 (DATA64_ARGS + 1) 1 [TCG_OPF_CALL_CLOBBER; TCG_OPF_SIDE_EFFECTS; TCG_OPF_64BIT]
  | INDEX_op_qemu_ld_a64_i32 => DEF 1 DATA64_ARGS 1 [TCG_OPF_CALL_CLOBBER; TCG_OPF_SIDE_EFFECTS]
  | INDEX_op_qemu_st_a64_i32 => DEF 0 (1 + DATA64_ARGS) 1 [TCG_OPF_CALL_CLOBBER; TCG_OPF_SIDE_EFFECTS]
  | INDEX_op_qemu_ld_a64_i64 => DEF DATA64_ARGS DATA64_ARGS 1 [TCG_OPF_CALL_CLOBBER; TCG_OPF_SIDE_EFFECTS; TCG_OPF_64BIT]
  | INDEX_op_qemu_st_a64_i64 => DEF 0 (DATA64_ARGS + DATA64_ARGS) 1 [TCG_OPF_CALL_CLOBBER; TCG_OPF_SIDE_EFFECTS; TCG_OPF_64BIT]
  | INDEX_op_qemu_st8_a32_i32 => DEF 0 (1 + 1) 1 [TCG_OPF_CALL_CLOBBER; TCG_OPF_SIDE_EFFECTS; IMPL HAS_qemu_st8_i32]
  | INDEX_op_qemu_st8_a64_i32 => DEF 0 (1 + DATA64_ARGS) 1 [TCG_OPF_CALL_CLOBBER; TCG_OPF_SIDE_EFFECTS; IMPL HAS_qemu_st8_i32]
  | INDEX_op_qemu_ld_a32_i128 => DEF 2 1 1 [TCG_OPF_CALL_CLOBBER; TCG_OPF_SIDE_EFFECTS; TCG_OPF_64BIT; IMPL HAS_qemu_ldst_i128]
  | INDEX_op_qemu_ld_a64_i128 => DEF 2 1 1 [TCG_OPF_CALL_CLOBBER; TCG_OPF_SIDE_EFFECTS; TCG_OPF_64BIT; IMPL HAS_qemu_ldst_i128]
  | INDEX_op_qemu_st_a32_i128 => DEF 0 3 1 [TCG_OPF_CALL_CLOBBER; TCG_OPF_SIDE_EFFECTS; TCG_OPF_64BIT; IMPL HAS_qemu_ldst_i128]
  | INDEX_op_qemu_st_a64_i128 => DEF 0 3 1 [TCG_OPF_CALL_CLOBBER; TCG_OPF_SIDE_EFFECTS; TCG_OPF_64BIT; IMPL HAS_qemu_ldst_i128]
  | INDEX_op_mov_vec => DEF 1 1 0 [TCG_OPF_VECTOR; TCG_OPF_NOT_PRESENT]
  | INDEX_op_dup_vec => DEF 1 1 0 [IMPLVEC]
  | INDEX_op_dup2_vec => DEF 1 2 0 [IMPLVEC; IMPL_if (TCG_TARGET_REG_BITS =? 32)]
  | INDEX_op_ld_vec => DEF 1 1 1 [IMPLVEC]
  | INDEX_op_st_vec => DEF 0 2 1 [IMPLVEC]
  | INDEX_op_dupm_vec => DEF 1 1 1 [IMPLVEC]
  | INDEX_op_add_vec => DEF 1 2 0 [IMPLVEC]
  | INDEX_op_sub_vec => DEF 1 2 0 [IMPLVEC]
  | INDEX_op_mul_vec => DEF 1 2 0 [IMPLVEC; IMPL HAS_mul_vec]
  | INDEX_op_neg_vec => DEF 1 1 0 [IMPLVEC; IMPL HAS_neg_vec]
  | INDEX_op_abs_vec => DEF 1 1 0 [IMPLVEC; IMPL HAS_abs_vec]
  | INDEX_op_ssadd_vec => DEF 1 2 0 [IMPLVEC; IMPL HAS_sat_vec]
  | INDEX_op_usadd_vec => DEF 1 2 0 [IMPLVEC; IMPL HAS_sat_vec]
  | INDEX_op_sssub_vec => DEF 1 2 0 [IMPLVEC; IMPL HAS_sat_vec]
  | INDEX_op_ussub_vec => DEF 1 2 0 [IMPLVEC; IMPL HAS_sat_vec]
  | INDEX_op_smin_vec => DEF 1 2 0 [IMPLVEC; IMPL HAS_minmax_vec]
  | INDEX_op_umin_vec => DEF 1 2 0 [IMPLVEC; IMPL HAS_minmax_vec]
  | INDEX_op_smax_vec => DEF 1 2 0 [IMPLVEC; IMPL HAS_minmax_vec]
  | INDEX_op_umax_vec => DEF 1 2 0 [IMPLVEC; IMPL HAS_minmax_vec]
  | INDEX_op_and_vec => DEF 1 2 0 [IMPLVEC]
  | INDEX_op_or_vec => DEF 1 2 0 [IMPLVEC]
  | INDEX_op_xor_vec => DEF 1 2 0 [IMPLVEC]
  | INDEX_op_andc_vec => DEF 1 2 0 [IMPLVEC; IMPL HAS_andc_vec]
  | INDEX_op_orc_vec => DEF 1 2 0 [IMPLVEC; IMPL HAS_orc_vec]
  | INDEX_op_nand_vec => DEF 1 2 0 [IMPLVEC; IMPL HAS_nand_vec]
  | INDEX_op_nor_vec => DEF 1 2 0 [IMPLVEC; IMPL HAS_nor_vec]
  | INDEX_op_eqv_vec => DEF 1 2 0 [IMPLVEC; IMPL HAS_eqv_vec]
  | INDEX_op_not_vec => DEF 1 1 0 [IMPLVEC; IMPL HAS_not_vec]
  | INDEX_op_shli_vec => DEF 1 1 1 [IMPLVEC; IMPL HAS_shi_vec]
  | INDEX_op_shri_vec => DEF 1 1 1 [IMPLVEC; IMPL HAS_shi_vec]
  | INDEX_op_sari_vec => DEF 1 1 1 [IMPLVEC; IMPL HAS_shi_vec]
  | INDEX_op_rotli_vec => DEF 1 1 1 [IMPLVEC; IMPL HAS_roti_vec]
  | INDEX_op_shls_vec => DEF 1 2 0 [IMPLVEC; IMPL HAS_shs_vec]
  | INDEX_op_shrs_vec => DEF 1 2 0 [IMPLVEC; IMPL HAS_shs_vec]
  | INDEX_op_sars_vec => DEF 1 2 0 [IMPLVEC; IMPL HAS_shs_vec]
  | INDEX_op_rotls_vec => DEF 1 2 0 [IMPLVEC; IMPL HAS_rots_vec]
  | INDEX_op_shlv_vec => DEF 1 2 0 [IMPLVEC; IMPL HAS_shv_vec]
  | INDEX_op_shrv_vec => DEF 1 2 0 [IMPLVEC; IMPL HAS_shv_vec]
  | INDEX_op_sarv_vec => DEF 1 2 0 [IMPLVEC; IMPL HAS_shv_vec]
  | INDEX_op_rotlv_vec => DEF 1 2 0 [IMPLVEC; IMPL HAS_rotv_vec]
  | INDEX_op_rotrv_vec => DEF 1 2 0 [IMPLVEC; IMPL HAS_rotv_vec]
  | INDEX_op_cmp_vec => DEF 1 2 1 [IMPLVEC]
  | INDEX_op_bitsel_vec => DEF 1 3 0 [IMPLVEC; IMPL HAS_bitsel_vec]
  | INDEX_op_cmpsel_vec => DEF 1 4 1 [IMPLVEC; IMPL HAS_cmpsel_vec]
  | INDEX_op_last_generic => DEF 0 0 0 [TCG_OPF_NOT_PRESENT]
  | INDEX_op_tci_movi => DEF 1 0 1 [TCG_OPF_NOT_PRESENT]
  | INDEX_op_tci_movl => DEF 1 0 1 [TCG_OPF_NOT_PRESENT]
  end.

(** The backend implements the operation (it may appear after register allocation). *)
Definition op_present (opc : TCGOpcode) : bool :=
  negb (Z.testbit (op_flags (tcg_op_defs opc)) 5).

Definition opcode_num (opc : TCGOpcode) : Z :=
  match opc with
  | INDEX_op_discard => 0
  | INDEX_op_set_label => 1
  | INDEX_op_call => 2
  | INDEX_op_br => 3
  | INDEX_op_mb => 4
  | INDEX_op_mov_i32 => 5
  | INDEX_op_setcond_i32 => 6
  | INDEX_op_negsetcond_i32 => 7
  | INDEX_op_movcond_i32 => 8
  | INDEX_op_ld8u_i32 => 9
  | INDEX_op_ld8s_i32 => 10
  | INDEX_op_ld16u_i32 => 11
  | INDEX_op_ld16s_i32 => 12
  | INDEX_op_ld_i32 => 13
  | INDEX_op_st8_i32 => 14
  | INDEX_op_st16_i32 => 15
  | INDEX_op_st_i32 => 16
  | INDEX_op_add_i32 => 17
  | INDEX_op_sub_i32 => 18
  | INDEX_op_mul_i32 => 19
  | INDEX_op_div_i32 => 20
  | INDEX_op_divu_i32 => 21
  | INDEX_op_rem_i32 => 22
  | INDEX_op_remu_i32 => 23
  | INDEX_op_div2_i32 => 24
  | INDEX_op_divu2_i32 => 25
  | INDEX_op_and_i32 => 26
  | INDEX_op_or_i32 => 27
  | INDEX_op_xor_i32 => 28
  | INDEX_op_shl_i32 => 29
  | INDEX_op_shr_i32 => 30
  | INDEX_op_sar_i32 => 31
  | INDEX_op_rotl_i32 => 32
  | INDEX_op_rotr_i32 => 33
  | INDEX_op_deposit_i32 => 34
  | INDEX_op_extract_i32 => 35
  | INDEX_op_sextract_i32 => 36
  | INDEX_op_extract2_i32 => 37
  | INDEX_op_brcond_i32 => 38
  | INDEX_op_add2_i32 => 39
  | INDEX_op_sub2_i32 => 40
  | INDEX_op_mulu2_i32 => 41
  | INDEX_op_muls2_i32 => 42
  | INDEX_op_muluh_i32 => 43
  | INDEX_op_mulsh_i32 => 44
  | INDEX_op_brcond2_i32 => 45
  | INDEX_op_setcond2_i32 => 46
  | INDEX_op_ext8s_i32 => 47
  | INDEX_op_ext16s_i32 => 48
  | INDEX_op_ext8u_i32 => 49
  | INDEX_op_ext16u_i32 => 50
  | INDEX_op_bswap16_i32 => 51
  | INDEX_op_bswap32_i32 => 52
  | INDEX_op_not_i32 => 53
  | INDEX_op_neg_i32 => 54
  | INDEX_op_andc_i32 => 55
  | INDEX_op_orc_i32 => 56
  | INDEX_op_eqv_i32 => 57
  | INDEX_op_nand_i32 => 58
  | INDEX_op_nor_i32 => 59
  | INDEX_op_clz_i32 => 60
  | INDEX_op_ctz_i32 => 61
  | INDEX_op_ctpop_i32 => 62
  | INDEX_op_mov_i64 => 63
  | INDEX_op_setcond_i64 => 64
  | INDEX_op_negsetcond_i64 => 65
  | INDEX_op_movcond_i64 => 66
  | INDEX_op_ld8u_i64 => 67
  | INDEX_op_ld8s_i64 => 68
  | INDEX_op_ld16u_i64 => 69
  | INDEX_op_ld16s_i64 => 70
  | INDEX_op_ld32u_i64 => 71
  | INDEX_op_ld32s_i64 => 72
  | INDEX_op_ld_i64 => 73
  | INDEX_op_st8_i64 => 74
  | INDEX_op_st16_i64 => 75
  | INDEX_op_st32_i64 => 76
  | INDEX_op_st_i64 => 77
  | INDEX_op_add_i64 => 78
  | INDEX_op_sub_i64 => 79
  | INDEX_op_mul_i64 => 80
  | INDEX_op_div_i64 => 81
  | INDEX_op_divu_i64 => 82
  | INDEX_op_rem_i64 => 83
  | INDEX_op_remu_i64 => 84
  | INDEX_op_div2_i64 => 85
  | INDEX_op_divu2_i64 => 86
  | INDEX_op_and_i64 => 87
  | INDEX_op_or_i64 => 88
  | INDEX_op_xor_i64 => 89
  | INDEX_op_shl_i64 => 90
  | INDEX_op_shr_i64 => 91
  | INDEX_op_sar_i64 => 92
  | INDEX_op_rotl_i64 => 93
  | INDEX_op_rotr_i64 => 94
  | INDEX_op_deposit_i64 => 95
  | INDEX_op_extract_i64 => 96
  | INDEX_op_sextract_i64 => 97
  | INDEX_op_extract2_i64 => 98
  | INDEX_op_ext_i32_i64 => 99
  | INDEX_op_extu_i32_i64 => 100
  | INDEX_op_extrl_i64_i32 => 101
  | INDEX_op_extrh_i64_i32 => 102
  | INDEX_op_brcond_i64 => 103
  | INDEX_op_ext8s_i64 => 104
  | INDEX_op_ext16s_i64 => 105
  | INDEX_op_ext32s_i64 => 106
  | INDEX_op_ext8u_i64 => 107
  | INDEX_op_ext16u_i64 => 108
  | INDEX_op_ext32u_i64 => 109
  | INDEX_op_bswap16_i64 => 110
  | INDEX_op_bswap32_i64 => 111
  | INDEX_op_bswap64_i64 => 112
  | INDEX_op_not_i64 => 113
  | INDEX_op_neg_i64 => 114
  | INDEX_op_andc_i64 => 115
  | INDEX_op_orc_i64 => 116
  | INDEX_op_eqv_i64 => 117
  | INDEX_op_nand_i64 => 118
  | INDEX_op_nor_i64 => 119
  | INDEX_op_clz_i64 => 120
  | INDEX_op_ctz_i64 => 121
  | INDEX_op_ctpop_i64 => 122
  | INDEX_op_add2_i64 => 123
  | INDEX_op_sub2_i64 => 124
  | INDEX_op_mulu2_i64 => 125
  | INDEX_op_muls2_i64 => 126
  | INDEX_op_muluh_i64 => 127
  | INDEX_op_mulsh_i64 => 128
  | INDEX_op_insn_start => 129
  | INDEX_op_exit_tb => 130
  | INDEX_op_goto_tb => 131
  | INDEX_op_goto_ptr => 132
  | INDEX_op_plugin_cb_start => 133
  | INDEX_op_plugin_cb_end => 134
  | INDEX_op_qemu_ld_a32_i32 => 135
  | INDEX_op_qemu_st_a32_i32 => 136
  | INDEX_op_qemu_ld_a32_i64 => 137
  | INDEX_op_qemu_st_a32_i64 => 138
  | INDEX_op_qemu_ld_a64_i32 => 139
  | INDEX_op_qemu_st_a64_i32 => 140
  | INDEX_op_qemu_ld_a64_i64 => 141
  | INDEX_op_qemu_st_a64_i64 => 142
  | INDEX_op_qemu_st8_a32_i32 => 143
  | INDEX_op_qemu_st8_a64_i32 => 144
  | INDEX_op_qemu_ld_a32_i128 => 145
  | INDEX_op_qemu_ld_a64_i128 => 146
  | INDEX_op_qemu_st_a32_i128 => 147
  | INDEX_op_qemu_st_a64_i128 => 148
  | INDEX_op_mov_vec => 149
  | INDEX_op_dup_vec => 150
  | INDEX_op_dup2_vec => 151
  | INDEX_op_ld_vec => 152
  | INDEX_op_st_vec => 153
  | INDEX_op_dupm_vec => 154
  | INDEX_op_add_vec => 155
  | INDEX_op_sub_vec => 156
  | INDEX_op_mul_vec => 157
  | INDEX_op_neg_vec => 158
  | INDEX_op_abs_vec => 159
  | INDEX_op_ssadd_vec => 160
  | INDEX_op_usadd_vec => 161
  | INDEX_op_sssub_vec => 162
  | INDEX_op_ussub_vec => 163
  | INDEX_op_smin_vec => 164
  | INDEX_op_umin_vec => 165
  | INDEX_op_smax_vec => 166
  | INDEX_op_umax_vec => 167
  | INDEX_op_and_vec => 168
  | INDEX_op_or_vec => 169
  | INDEX_op_xor_vec => 170
  | INDEX_op_andc_vec => 171
  | INDEX_op_orc_vec => 172
  | INDEX_op_nand_vec => 173
  | INDEX_op_nor_vec => 174
  | INDEX_op_eqv_vec => 175
  | INDEX_op_not_vec => 176
  | INDEX_op_shli_vec => 177
  | INDEX_op_shri_vec => 178
  | INDEX_op_sari_vec => 179
  | INDEX_op_rotli_vec => 180
  | INDEX_op_shls_vec => 181
  | INDEX_op_shrs_vec => 182
  | INDEX_op_sars_vec => 183
  | INDEX_op_rotls_vec => 184
  | INDEX_op_shlv_vec => 185
  | INDEX_op_shrv_vec => 186
  | INDEX_op_sarv_vec => 187
  | INDEX_op_rotlv_vec => 188
  | INDEX_op_rotrv_vec => 189
  | INDEX_op_cmp_vec => 190
  | INDEX_op_bitsel_vec => 191
  | INDEX_op_cmpsel_vec => 192
  | INDEX_op_last_generic => 193
  | INDEX_op_tci_movi => 194
  | INDEX_op_tci_movl => 195
  end.

(** The opcode an 8-bit field names, if any. *)
Definition opcode_of_num (n : Z) : option TCGOpcode :=
  if n <? 0 then None else all_opcodes !! Z.to_nat n.

Lemma opcode_of_num_of opc : opcode_of_num (opcode_num opc) = Some opc.
Proof. by destruct opc. Qed.

#[export] Instance opcode_num_inj : Inj (=) (=) opcode_num.
Proof.
  intros a b E. apply (inj Some). by rewrite <- !opcode_of_num_of, E.
Qed.

#[export] Instance TCGOpcode_eq_dec : EqDecision TCGOpcode.
Proof.
  intros a b. destruct (decide (opcode_num a = opcode_num b)) as [E | E].
  - left. by apply (inj opcode_num).
  - right. by intros ->.
Defined.

(** Every opcode fits the 8-bit field of an instruction, tci_movl included. *)
Lemma opcode_num_range opc : is_u 8 (opcode_num opc).
Proof. destruct opc; by vm_compute. Qed.

Lemma opcode_num_of_num n opc : opcode_of_num n = Some opc -> opcode_num opc = n.
Proof.
  unfold opcode_of_num. destruct (Z.ltb_spec n 0); [done |]. intros E.
  assert (Hn : (Z.to_nat n < length all_opcodes)%nat) by (by apply lookup_lt_Some in E).
  assert (Hf : Forall (fun k => match all_opcodes !! k with
                                | Some o => opcode_num o = Z.of_nat k | None => True end)
                      (seq 0 (length all_opcodes))) by (vm_compute; repeat constructor).
  rewrite Forall_forall in Hf. specialize (Hf (Z.to_nat n)). rewrite E in Hf. rewrite Hf; [lia |].
  apply in_seq. lia.
Qed.
