(* ===== verification/TciDecode.v ===== *)
(** * TCI instruction words

    The TCI byte code is a stream of 32-bit words: an 8-bit opcode and operand
    fields.  The first part models the operand decoders of the interpreter
    (tcg/wasm32.c, [tci_args_*]), the second the emitters of the wasm32 backend
    (tcg/wasm32/tcg-target.c.inc, [tcg_tci_out_op_*] and [patch_reloc]).  The
    round-trip lemmas say that every format decodes to what was emitted, that
    relocating a label changes only the displacement, and where the two readings
    of a zero displacement ([tci_args_l] and [tci_args_br]) differ.

    Pointers are 32-bit addresses; [tb_ptr] is the address of the word after the
    instruction. *)
From S2P Require Import Prelude BitOps Opcodes.

(** ** Decoders *)

Definition tci_opc (insn : Z) : Z := extract32 insn 0 8.

Definition tci_args_l (insn tb_ptr : Z) : Z :=
  let diff := sextract32 insn 12 20 in
  if diff =? 0 then 0 else u32 (tb_ptr + diff).

Definition tci_args_br (insn tb_ptr : Z) : Z := u32 (tb_ptr + sextract32 insn 12 20).

Definition tci_args_r (insn : Z) : Z := extract32 insn 8 4.

Definition tci_args_nl (insn tb_ptr : Z) : Z * Z :=
  (extract32 insn 8 4, u32 (sextract32 insn 12 20 + tb_ptr)).

Definition tci_args_rl (insn tb_ptr : Z) : Z * Z :=
  (extract32 insn 8 4, u32 (sextract32 insn 12 20 + tb_ptr)).

Definition tci_args_rr (insn : Z) : Z * Z := (extract32 insn 8 4, extract32 insn 12 4).

Definition tci_args_ri (insn : Z) : Z * Z :=
  (extract32 insn 8 4, u64 (sextract32 insn 12 20)).

Definition tci_args_rrr (insn : Z) : Z * Z * Z :=
  (extract32 insn 8 4, extract32 insn 12 4, extract32 insn 16 4).

Definition tci_args_rrs (insn : Z) : Z * Z * Z :=
  (extract32 insn 8 4, extract32 insn 12 4, sextract32 insn 16 16).

Definition tci_args_rrbb (insn : Z) : Z * Z * Z * Z :=
  (extract32 insn 8 4, extract32 insn 12 4, extract32 insn 16 6, extract32 insn 22 6).

Definition tci_args_rrrc (insn : Z) : Z * Z * Z * Z :=
  (extract32 insn 8 4, extract32 insn 12 4, extract32 insn 16 4, extract32 insn 20 4).

Definition tci_args_rrrbb (insn : Z) : Z * Z * Z * Z * Z :=
  (extract32 insn 8 4, extract32 insn 12 4, extract32 insn 16 4,
   extract32 insn 20 6, extract32 insn 26 6).

Definition tci_args_rrrrr (insn : Z) : Z * Z * Z * Z * Z :=
  (extract32 insn 8 4, extract32 insn 12 4, extract32 insn 16 4,
   extract32 insn 20 4, extract32 insn 24 4).

Definition tci_args_rrrr (insn : Z) : Z * Z * Z * Z :=
  (extract32 insn 8 4, extract32 insn 12 4, extract32 insn 16 4, extract32 insn 20 4).

Definition tci_args_rrrrrc (insn : Z) : Z * Z * Z * Z * Z * Z :=
  (extract32 insn 8 4, extract32 insn 12 4, extract32 insn 16 4,
   extract32 insn 20 4, extract32 insn 24 4, extract32 insn 28 4).

Definition tci_args_rrrrrr (insn : Z) : Z * Z * Z * Z * Z * Z :=
  (extract32 insn 8 4, extract32 insn 12 4, extract32 insn 16 4,
   extract32 insn 20 4, extract32 insn 24 4, extract32 insn 28 4).

(** ** Emitters: the word each one writes *)

Module Emit.

Definition op_l (op : TCGOpcode) : Z := deposit32 0 0 8 (opcode_num op).

(** [None]: the displacement does not fit and [tcg_raise_tb_overflow] restarts
    the translation.  [cur] is the address of the word, [bias] the distance from
    the copy being written to the live block. *)
Definition op_p (op : TCGOpcode) (p0 cur bias : Z) : option Z :=
  let out diff := deposit32 (deposit32 0 0 8 (opcode_num op)) 12 20 (u32 diff) in
  if p0 =? 0 then Some (out 0)
  else
    let diff := s32 (p0 - (cur + bias + 4)) in
    if diff =? sextract32 (u32 diff) 0 20 then Some (out diff) else None.

Definition op_r (op : TCGOpcode) (r0 : Z) : Z :=
  deposit32 (deposit32 0 0 8 (opcode_num op)) 8 4 r0.

Definition op_v (op : TCGOpcode) : Z := u8 (opcode_num op).

Definition op_ri (op : TCGOpcode) (r0 i1 : Z) : Z := deposit32 (op_r op r0) 12 20 (u32 i1).

Definition op_rl (op : TCGOpcode) (r0 : Z) : Z := op_r op r0.

Definition op_rr (op : TCGOpcode) (r0 r1 : Z) : Z := deposit32 (op_r op r0) 12 4 r1.

Definition op_rrr (op : TCGOpcode) (r0 r1 r2 : Z) : Z := deposit32 (op_rr op r0 r1) 16 4 r2.

Definition op_rrs (op : TCGOpcode) (r0 r1 i2 : Z) : Z :=
  deposit32 (op_rr op r0 r1) 16 16 (u32 i2).

Definition op_rrbb (op : TCGOpcode) (r0 r1 b2 b3 : Z) : Z :=
  deposit32 (deposit32 (op_rr op r0 r1) 16 6 b2) 22 6 b3.

Definition op_rrrr (op : TCGOpcode) (r0 r1 r2 r3 : Z) : Z :=
  deposit32 (op_rrr op r0 r1 r2) 20 4 r3.

Definition op_rrrc (op : TCGOpcode) (r0 r1 r2 c3 : Z) : Z :=
  deposit32 (op_rrr op r0 r1 r2) 20 4 c3.

Definition op_rrrbb (op : TCGOpcode) (r0 r1 r2 b3 b4 : Z) : Z :=
  deposit32 (deposit32 (op_rrr op r0 r1 r2) 20 6 b3) 26 6 b4.

Definition op_rrrrr (op : TCGOpcode) (r0 r1 r2 r3 r4 : Z) : Z :=
  deposit32 (op_rrrr op r0 r1 r2 r3) 24 4 r4.

Definition op_rrrrrc (op : TCGOpcode) (r0 r1 r2 r3 r4 c5 : Z) : Z :=
  deposit32 (op_rrrrr op r0 r1 r2 r3 r4) 28 4 c5.

Definition op_rrrrrr (op : TCGOpcode) (r0 r1 r2 r3 r4 r5 : Z) : Z :=
  deposit32 (op_rrrrr op r0 r1 r2 r3 r4) 28 4 r5.

(** The relocation of a label at [code_ptr]: [None] when it does not fit. *)
Definition patch_reloc (insn code_ptr value : Z) : option Z :=
  let diff := s32 (value - (code_ptr + 4)) in
  if diff =? sextract32 (u32 diff) 0 20
  then Some (deposit32 insn (32 - 20) 20 (u32 diff)) else None.

(** An immediate is emitted in the word when it fits 20 bits; otherwise the word
    names a pool entry, patched like a label. *)
Definition movi (is_i32 : bool) (ret arg : Z) : Z * bool :=
  let arg := if is_i32 then s32 arg else arg in
  if arg =? sextract32 (u32 arg) 0 20 then (op_ri INDEX_op_tci_movi ret arg, false)
  else (op_r INDEX_op_tci_movl ret, true).

End Emit.

(** ** Round trips *)

Ltac emit_unfold :=
  unfold tci_args_rrrrrr, tci_args_rrrrrc, tci_args_rrrrr, tci_args_rrrr, tci_args_rrrbb,
    tci_args_rrrc, tci_args_rrbb, tci_args_rrs, tci_args_rrr, tci_args_ri, tci_args_rr, tci_args_rl,
    tci_args_nl, tci_args_r, tci_args_br, tci_args_l, tci_opc,
    Emit.op_rrrrrr, Emit.op_rrrrrc, Emit.op_rrrrr, Emit.op_rrrbb, Emit.op_rrrc, Emit.op_rrrr,
    Emit.op_rrbb, Emit.op_rrs, Emit.op_rrr, Emit.op_rr, Emit.op_rl, Emit.op_ri, Emit.op_r, Emit.op_l,
    extract32, sextract32, deposit32.

Ltac word_is_u :=
  repeat (apply deposit_range; [reflexivity |]); first [assumption | unfold is_u; lia].

(** Moves a field read through the field writes around it. *)
Ltac read_field :=
  repeat first
    [ rewrite extract_deposit_same by (reflexivity || word_is_u)
    | rewrite sextract_deposit_same by (reflexivity || word_is_u)
    | rewrite extract_deposit_other by (reflexivity || word_is_u || lia)
    | rewrite sextract_deposit_other by (reflexivity || word_is_u || lia) ].

Ltac decode_solve :=
  intros; emit_unfold; read_field; rewrite ?uw_small by (apply opcode_num_range || assumption);
  try reflexivity.

Lemma decode_opc_rr op r0 r1 : tci_opc (Emit.op_rr op r0 r1) = opcode_num op.
Proof. decode_solve. Qed.

Lemma decode_r op r0 : is_u 4 r0 -> tci_args_r (Emit.op_r op r0) = r0.
Proof. decode_solve. Qed.

Lemma decode_rr op r0 r1 :
  is_u 4 r0 -> is_u 4 r1 -> tci_args_rr (Emit.op_rr op r0 r1) = (r0, r1).
Proof. decode_solve. Qed.

Lemma decode_rrr op r0 r1 r2 :
  is_u 4 r0 -> is_u 4 r1 -> is_u 4 r2 ->
  tci_args_rrr (Emit.op_rrr op r0 r1 r2) = (r0, r1, r2).
Proof. decode_solve. Qed.

Lemma decode_rrs op r0 r1 i2 :
  is_u 4 r0 -> is_u 4 r1 -> is_s 16 i2 ->
  tci_args_rrs (Emit.op_rrs op r0 r1 i2) = (r0, r1, i2).
Proof.
  intros Hr0 Hr1 Hi. decode_solve.
  by rewrite <- (sw_uw 16), uw_uw_le, sw_uw, sw_small by (done || lia).
Qed.

Lemma decode_rrbb op r0 r1 b2 b3 :
  is_u 4 r0 -> is_u 4 r1 -> is_u 6 b2 -> is_u 6 b3 ->
  tci_args_rrbb (Emit.op_rrbb op r0 r1 b2 b3) = (r0, r1, b2, b3).
Proof. decode_solve. Qed.

Lemma decode_rrrr op r0 r1 r2 r3 :
  is_u 4 r0 -> is_u 4 r1 -> is_u 4 r2 -> is_u 4 r3 ->
  tci_args_rrrr (Emit.op_rrrr op r0 r1 r2 r3) = (r0, r1, r2, r3).
Proof. decode_solve. Qed.

Lemma decode_rrrc op r0 r1 r2 c3 :
  is_u 4 r0 -> is_u 4 r1 -> is_u 4 r2 -> is_u 4 c3 ->
  tci_args_rrrc (Emit.op_rrrc op r0 r1 r2 c3) = (r0, r1, r2, c3).
Proof. decode_solve. Qed.

Lemma decode_rrrbb op r0 r1 r2 b3 b4 :
  is_u 4 r0 -> is_u 4 r1 -> is_u 4 r2 -> is_u 6 b3 -> is_u 6 b4 ->
  tci_args_rrrbb (Emit.op_rrrbb op r0 r1 r2 b3 b4) = (r0, r1, r2, b3, b4).
Proof. decode_solve. Qed.

Lemma decode_rrrrr op r0 r1 r2 r3 r4 :
  is_u 4 r0 -> is_u 4 r1 -> is_u 4 r2 -> is_u 4 r3 -> is_u 4 r4 ->
  tci_args_rrrrr (Emit.op_rrrrr op r0 r1 r2 r3 r4) = (r0, r1, r2, r3, r4).
Proof. decode_solve. Qed.

Lemma decode_rrrrrc op r0 r1 r2 r3 r4 c5 :
  is_u 4 r0 -> is_u 4 r1 -> is_u 4 r2 -> is_u 4 r3 -> is_u 4 r4 -> is_u 4 c5 ->
  tci_args_rrrrrc (Emit.op_rrrrrc op r0 r1 r2 r3 r4 c5) = (r0, r1, r2, r3, r4, c5).
Proof. decode_solve. Qed.

Lemma decode_rrrrrr op r0 r1 r2 r3 r4 r5 :
  is_u 4 r0 -> is_u 4 r1 -> is_u 4 r2 -> is_u 4 r3 -> is_u 4 r4 -> is_u 4 r5 ->
  tci_args_rrrrrr (Emit.op_rrrrrr op r0 r1 r2 r3 r4 r5) = (r0, r1, r2, r3, r4, r5).
Proof. decode_solve. Qed.

(** ** Every format at once *)

(** The operands of an instruction, by format. *)
Inductive operands :=
| O_r (r0 : Z)
| O_ri (r0 i1 : Z)
| O_rr (r0 r1 : Z)
| O_rrr (r0 r1 r2 : Z)
| O_rrs (r0 r1 i2 : Z)
| O_rrbb (r0 r1 b2 b3 : Z)
| O_rrrr (r0 r1 r2 r3 : Z)
| O_rrrc (r0 r1 r2 c3 : Z)
| O_rrrbb (r0 r1 r2 b3 b4 : Z)
| O_rrrrr (r0 r1 r2 r3 r4 : Z)
| O_rrrrrc (r0 r1 r2 r3 r4 c5 : Z)
| O_rrrrrr (r0 r1 r2 r3 r4 r5 : Z).

Definition emit (op : TCGOpcode) (o : operands) : Z :=
  match o with
  | O_r r0 => Emit.op_r op r0
  | O_ri r0 i1 => Emit.op_ri op r0 i1
  | O_rr r0 r1 => Emit.op_rr op r0 r1
  | O_rrr r0 r1 r2 => Emit.op_rrr op r0 r1 r2
  | O_rrs r0 r1 i2 => Emit.op_rrs op r0 r1 i2
  | O_rrbb r0 r1 b2 b3 => Emit.op_rrbb op r0 r1 b2 b3
  | O_rrrr r0 r1 r2 r3 => Emit.op_rrrr op r0 r1 r2 r3
  | O_rrrc r0 r1 r2 c3 => Emit.op_rrrc op r0 r1 r2 c3
  | O_rrrbb r0 r1 r2 b3 b4 => Emit.op_rrrbb op r0 r1 r2 b3 b4
  | O_rrrrr r0 r1 r2 r3 r4 => Emit.op_rrrrr op r0 r1 r2 r3 r4
  | O_rrrrrc r0 r1 r2 r3 r4 c5 => Emit.op_rrrrrc op r0 r1 r2 r3 r4 c5
  | O_rrrrrr r0 r1 r2 r3 r4 r5 => Emit.op_rrrrrr op r0 r1 r2 r3 r4 r5
  end.

(** Reads [insn] in the format of [o]; an immediate is read back as the signed
    number the emitter was given. *)
Definition decode_like (o : operands) (insn : Z) : operands :=
  match o with
  | O_r _ => O_r (tci_args_r insn)
  | O_ri _ _ => let '(r0, i1) := tci_args_ri insn in O_ri r0 (s64 i1)
  | O_rr _ _ => let '(r0, r1) := tci_args_rr insn in O_rr r0 r1
  | O_rrr _ _ _ => let '(r0, r1, r2) := tci_args_rrr insn in O_rrr r0 r1 r2
  | O_rrs _ _ _ => let '(r0, r1, i2) := tci_args_rrs insn in O_rrs r0 r1 i2
  | O_rrbb _ _ _ _ => let '(r0, r1, b2, b3) := tci_args_rrbb insn in O_rrbb r0 r1 b2 b3
  | O_rrrr _ _ _ _ => let '(r0, r1, r2, r3) := tci_args_rrrr insn in O_rrrr r0 r1 r2 r3
  | O_rrrc _ _ _ _ => let '(r0, r1, r2, c3) := tci_args_rrrc insn in O_rrrc r0 r1 r2 c3
  | O_rrrbb _ _ _ _ _ =>
      let '(r0, r1, r2, b3, b4) := tci_args_rrrbb insn in O_rrrbb r0 r1 r2 b3 b4
  | O_rrrrr _ _ _ _ _ =>
      let '(r0, r1, r2, r3, r4) := tci_args_rrrrr insn in O_rrrrr r0 r1 r2 r3 r4
  | O_rrrrrc _ _ _ _ _ _ =>
      let '(r0, r1, r2, r3, r4, c5) := tci_args_rrrrrc insn in O_rrrrrc r0 r1 r2 r3 r4 c5
  | O_rrrrrr _ _ _ _ _ _ =>
      let '(r0, r1, r2, r3, r4, r5) := tci_args_rrrrrr insn in O_rrrrrr r0 r1 r2 r3 r4 r5
  end.

(** What the emitters assert: 4-bit registers and conditions, 6-bit positions,
    16- and 20-bit signed immediates. *)
Definition operands_ok (o : operands) : Prop :=
  match o with
  | O_r r0 => is_u 4 r0
  | O_ri r0 i1 => is_u 4 r0 /\ is_s 20 i1
  | O_rr r0 r1 => is_u 4 r0 /\ is_u 4 r1
  | O_rrr r0 r1 r2 => is_u 4 r0 /\ is_u 4 r1 /\ is_u 4 r2
  | O_rrs r0 r1 i2 => is_u 4 r0 /\ is_u 4 r1 /\ is_s 16 i2
  | O_rrbb r0 r1 b2 b3 => is_u 4 r0 /\ is_u 4 r1 /\ is_u 6 b2 /\ is_u 6 b3
  | O_rrrr r0 r1 r2 r3 | O_rrrc r0 r1 r2 r3 =>
      is_u 4 r0 /\ is_u 4 r1 /\ is_u 4 r2 /\ is_u 4 r3
  | O_rrrbb r0 r1 r2 b3 b4 => is_u 4 r0 /\ is_u 4 r1 /\ is_u 4 r2 /\ is_u 6 b3 /\ is_u 6 b4
  | O_rrrrr r0 r1 r2 r3 r4 => is_u 4 r0 /\ is_u 4 r1 /\ is_u 4 r2 /\ is_u 4 r3 /\ is_u 4 r4
  | O_rrrrrc r0 r1 r2 r3 r4 r5 | O_rrrrrr r0 r1 r2 r3 r4 r5 =>
      is_u 4 r0 /\ is_u 4 r1 /\ is_u 4 r2 /\ is_u 4 r3 /\ is_u 4 r4 /\ is_u 4 r5
  end.

Lemma decode_ri op r0 i1 :
  is_u 4 r0 -> is_s 20 i1 -> tci_args_ri (Emit.op_ri op r0 i1) = (r0, u64 i1).
Proof.
  intros Hr0 Hi. decode_solve.
  by rewrite <- (sw_uw 20), uw_uw_le, sw_uw, sw_small by (done || lia).
Qed.

Lemma emit_opc op o : tci_opc (emit op o) = opcode_num op.
Proof. destruct o; unfold emit; decode_solve. Qed.

Lemma emit_is_u op o : is_u 32 (emit op o).
Proof. destruct o; unfold emit; emit_unfold; word_is_u. Qed.

(** every instruction word the emitter builds from operands within the widths it
    asserts is read back by the interpreter as the same opcode and operands, in all
    twelve operand formats. *)
Theorem emit_decode op o :
  operands_ok o -> opcode_of_num (tci_opc (emit op o)) = Some op /\ decode_like o (emit op o) = o.
Proof.
  intros H. rewrite emit_opc, opcode_of_num_of. split; [done |].
  destruct o; cbn [emit decode_like operands_ok] in *; destruct_and?.
  - by rewrite decode_r.
  - rewrite decode_ri by done. rewrite sw_uw, sw_small by (lia || unfold is_s in *; lia). done.
  - by rewrite decode_rr.
  - by rewrite decode_rrr.
  - by rewrite decode_rrs.
  - by rewrite decode_rrbb.
  - by rewrite decode_rrrr.
  - by rewrite decode_rrrc.
  - by rewrite decode_rrrbb.
  - by rewrite decode_rrrrr.
  - by rewrite decode_rrrrrc.
  - by rewrite decode_rrrrrr.
Qed.

Lemma emit_decode_witness :
  decode_like (O_rrrrrc 1 2 3 4 5 11) (emit INDEX_op_setcond2_i32 (O_rrrrrc 1 2 3 4 5 11)) = O_rrrrrc 1 2 3 4 5 11.
Proof.
  apply (emit_decode INDEX_op_setcond2_i32 (O_rrrrrc 1 2 3 4 5 11)). cbn; unfold is_u; lia.
Defined.

(** ** Labels and pointers *)

Lemma sextract_low d : is_u 32 d -> sextract32 d 0 20 = sw 20 d.
Proof. intros Hd. unfold sextract32. rewrite sextract_sw by done. by rewrite Z.shiftr_0_r. Qed.

(** The displacement a word carries after the field is written. *)
Lemma disp_deposit insn d :
  is_u 32 insn -> s32 d = sextract32 (u32 (s32 d)) 0 20 ->
  sextract32 (deposit32 insn 12 20 (u32 (s32 d))) 12 20 = s32 d.
Proof.
  intros Hi E. unfold sextract32 at 1, deposit32.
  rewrite sextract_deposit_same by done.
  rewrite sextract_low in E by eauto with words. by rewrite <- E.
Qed.

Lemma target_of_disp value next : is_u 32 value -> u32 (next + s32 (value - next)) = value.
Proof.
  intros Hv. rewrite <- uw_add_idemp_r, uw_sw, uw_add_idemp_r by lia.
  replace (next + (value - next)) with value by lia. by apply uw_small.
Qed.

(** A patched word: the displacement is the target's, opcode and register are kept. *)
Lemma patch_reloc_fields insn code_ptr value insn' :
  is_u 32 insn -> Emit.patch_reloc insn code_ptr value = Some insn' ->
  sextract32 insn' 12 20 = s32 (value - (code_ptr + 4)) /\
  tci_args_r insn' = tci_args_r insn /\ tci_opc insn' = tci_opc insn.
Proof.
  intros Hi. unfold Emit.patch_reloc. destruct (Z.eqb_spec (s32 (value - (code_ptr + 4)))
    (sextract32 (u32 (s32 (value - (code_ptr + 4)))) 0 20)) as [E |]; [| done].
  intros [= <-]. change (32 - 20) with 12. rewrite disp_deposit by done. split; [done |].
  unfold tci_args_r, tci_opc, extract32, deposit32. by rewrite !extract_deposit_other by (done || lia).
Qed.

(** resolving a label makes the branch word (and the conditional branch word, whose
    register is kept) jump to exactly the label's address, and leaves the opcode as it was. *)
Theorem patch_reloc_target insn code_ptr value insn' :
  is_u 32 insn -> is_u 32 value -> Emit.patch_reloc insn code_ptr value = Some insn' ->
  tci_args_br insn' (code_ptr + 4) = value /\
  tci_args_rl insn' (code_ptr + 4) = (tci_args_r insn, value) /\
  tci_opc insn' = tci_opc insn.
Proof.
  intros Hi Hv Hp. destruct (patch_reloc_fields _ _ _ _ Hi Hp) as (Hd & Hr & Ho).
  unfold tci_args_br, tci_args_rl. rewrite Hd, (Z.add_comm (s32 _)), target_of_disp by done.
  split_and!; [done | by f_equal | done].
Qed.

Lemma patch_reloc_target_witness :
  exists insn', Emit.patch_reloc (Emit.op_r INDEX_op_brcond_i64 3) 0x1000 0x0ff0 = Some insn' /\
    tci_args_rl insn' (0x1000 + 4) = (3, 0x0ff0).
Proof.
  eexists. split; [reflexivity |].
  refine (proj1 (proj2 (patch_reloc_target (Emit.op_r INDEX_op_brcond_i64 3) 0x1000 0x0ff0 _ _ _ _)));
    [vm_compute; split; congruence | vm_compute; split; congruence | reflexivity].
Defined.

(** Pointer operands: what [tcg_tci_out_op_p] emits, the interpreter reads back
    at the live address of the word; only the null pointer is displacement 0. *)
Lemma op_p_target op p0 cur bias insn :
  is_u 32 p0 -> u32 (cur + bias + 4) <> p0 -> Emit.op_p op p0 cur bias = Some insn ->
  tci_args_l insn (cur + bias + 4) = p0 /\ tci_opc insn = opcode_num op.
Proof.
  intros Hp Hne. unfold Emit.op_p. assert (Hu : is_u 32 (deposit32 0 0 8 (opcode_num op)))
    by (unfold deposit32; word_is_u).
  assert (Hop : forall d, tci_opc (deposit32 (deposit32 0 0 8 (opcode_num op)) 12 20 d) = opcode_num op)
    by decode_solve.
  destruct (Z.eqb_spec p0 0) as [-> | Hp0].
  { intros [= <-]. split; [| by apply Hop]. unfold tci_args_l.
    unfold sextract32, deposit32. by rewrite sextract_deposit_same by done. }
  set (next := cur + bias + 4) in *. destruct (Z.eqb_spec (s32 (p0 - next))
    (sextract32 (u32 (s32 (p0 - next))) 0 20)) as [E |]; [| done].
  intros [= <-]. split; [| by apply Hop]. unfold tci_args_l. rewrite disp_deposit by done.
  destruct (Z.eqb_spec (s32 (p0 - next)) 0) as [Ez |]; [| by apply target_of_disp].
  destruct Hne. rewrite <- (target_of_disp p0 next) by done. by rewrite Ez, Z.add_0_r.
Qed.

(** A branch to the next instruction: the two readings of displacement 0. *)
Lemma zero_displacement insn tb_ptr :
  is_u 32 tb_ptr -> sextract32 insn 12 20 = 0 ->
  tci_args_br insn tb_ptr = tb_ptr /\ tci_args_l insn tb_ptr = 0.
Proof.
  intros Ht E. unfold tci_args_br, tci_args_l. rewrite E, Z.add_0_r. split; [by apply uw_small | done].
Qed.

(** An immediate either travels in the word or goes to the pool, and the word
    then holds exactly the 64-bit register value. *)
Lemma movi_decode is_i32 ret arg insn :
  is_u 4 ret -> is_s 64 arg -> Emit.movi is_i32 ret arg = (insn, false) ->
  tci_args_ri insn = (ret, u64 (if is_i32 then s32 arg else arg)).
Proof.
  intros Hr Ha. unfold Emit.movi. set (a := if is_i32 then s32 arg else arg).
  destruct (Z.eqb_spec a (sextract32 (u32 a) 0 20)) as [E | E]; [| done]. intros [= <-].
  apply decode_ri; [done |]. rewrite sextract_low in E by eauto with words.
  rewrite E. eauto with words.
Qed.
