(* ===== verification/Tune.v ===== *)
(** * Start-up tunables

    Models [bootbox_tune_init] of tcg/wasm32.c: the globals it may set with their
    initial values, the [fscanf(" %15[a-z]=%d")] loop over /bootbox-tune, the key
    dispatch, and the once-only protocol by which concurrent vCPU threads agree on
    the values.  The theorems bound every tunable for an arbitrary file, show that
    the scanner reads back any printed settings, and that no thread leaves
    [bootbox_tune_init] before the values are in place. *)
From Stdlib Require Import Ascii String.
From S2P Require Import Prelude.

Abbreviation chars := (list ascii).

(** ** The tunables *)

Definition INSTANTIATE_NUM : Z := 1500.
Definition MAX_INSTANCE_ALIVE : Z := 15000.
Definition INSTANCE_RUNNING_LEN : Z := 65536.
Definition WASM_CHAIN_BUDGET : Z := 256.

(** The globals [bootbox_tune_init] may set; C's [int]s, flags being 0 or 1. *)
Inductive tunable : Set :=
| wasm_instantiate_num | wasm_hot_num | wasm_max_instance_alive | wasm_fp_inline_enabled
| wasm_tail_chain | wasm_chain_nested | wasm_chain_budget | wasm_reg_locals | wasm_hot_share
| bootbox_tsc_lockfree | wasm_fast_tci | bb_lazy_wasm | wasm_sum_count | bb_split_enabled
| bb_share_on | bb_hammock | bb_hm_max | bb_hm_mod | bb_hm_sel | bb_hm_cpl | bb_repbulk
| wasm_simd_inline_enabled | wasm_gvec_ool_enabled.

#[export] Instance tunable_eq_dec : EqDecision tunable.
Proof. solve_decision. Defined.

Definition tune : Type := tunable -> Z.

Definition set (k : tunable) (v : Z) (t : tune) : tune :=
  fun k' => if decide (k' = k) then v else t k'.

(** The initialisers of the globals. *)
Definition tune_default : tune := fun k =>
  match k with
  | wasm_instantiate_num => INSTANTIATE_NUM
  | wasm_hot_num => INSTANTIATE_NUM / 16
  | wasm_max_instance_alive => MAX_INSTANCE_ALIVE
  | wasm_chain_budget => WASM_CHAIN_BUDGET
  | wasm_fp_inline_enabled | wasm_reg_locals | bb_split_enabled | bb_repbulk
  | wasm_simd_inline_enabled => 1
  | bb_hm_max => 16
  | bb_hm_mod => 1
  | _ => 0
  end.

(** ** Key dispatch *)

Definition flag (v : Z) : Z := b2z (negb (v =? 0)).

Definition key_is (key : chars) (s : string) : bool := bool_decide (key = list_ascii_of_string s).

(** One [key=v] pair: the [if]/[else if] chain, range guards included (a value
    out of range falls through the chain and changes nothing). *)
Definition tune_set (key : chars) (v : Z) (t : tune) : tune :=
  if key_is key "jit" && (1 <=? v) && (v <=? 1000000) then set wasm_instantiate_num v t
  else if key_is key "max" && (1000 <=? v) && (v <? INSTANCE_RUNNING_LEN)
  then set wasm_max_instance_alive v t
  else if key_is key "fpinline" then set wasm_fp_inline_enabled (flag v) t
  else if key_is key "chain" then
    let t := set wasm_chain_nested (b2z (v =? 2)) (set wasm_tail_chain (flag v) t) in
    if t wasm_chain_nested =? 0 then t else set wasm_chain_budget 32 t
  else if key_is key "chainmax" && (2 <=? v) && (v <=? WASM_CHAIN_BUDGET)
  then set wasm_chain_budget v t
  else if key_is key "regloc" then set wasm_reg_locals (flag v) t
  else if key_is key "hotshare" then set wasm_hot_share (flag v) t
  else if key_is key "tsc" then set bootbox_tsc_lockfree (flag v) t
  else if key_is key "fasttci" then set wasm_fast_tci (flag v) t
  else if key_is key "lazywasm" then set bb_lazy_wasm (flag v) t
  else if key_is key "sumcnt" then set wasm_sum_count (flag v) t
  else if key_is key "split" then set bb_split_enabled (flag v) t
  else if key_is key "share" then set bb_share_on (flag v) t
  else if key_is key "hammock" then set bb_hammock (flag v) t
  else if key_is key "hmmax" && (1 <=? v) && (v <=? 127) then set bb_hm_max v t
  else if key_is key "hmmod" && (1 <=? v) then set bb_hm_mod v t
  else if key_is key "hmsel" && (0 <=? v) then set bb_hm_sel v t
  else if key_is key "hmcpl" then set bb_hm_cpl v t
  else if key_is key "repbulk" then set bb_repbulk (flag v) t
  else if key_is key "simdinline" then set wasm_simd_inline_enabled (flag v) t
  else if key_is key "gvecool" then set wasm_gvec_ool_enabled (flag v) t
  else t.

(** ** The scanner *)

Definition in_range (lo hi : ascii) (c : ascii) : bool :=
  (nat_of_ascii lo <=? nat_of_ascii c)%nat && (nat_of_ascii c <=? nat_of_ascii hi)%nat.

(** [isspace] in the C locale: blank, and the controls \t \n \v \f \r. *)
Definition isspace (c : ascii) : bool :=
  (nat_of_ascii c =? 32)%nat || ((9 <=? nat_of_ascii c)%nat && (nat_of_ascii c <=? 13)%nat).

Definition is_lower : ascii -> bool := in_range "a" "z".
Definition is_digit : ascii -> bool := in_range "0" "9".

(** The longest prefix of at most [n] characters that satisfy [p], and the rest. *)
Fixpoint span_max (p : ascii -> bool) (n : nat) (s : chars) : chars * chars :=
  match n, s with
  | S n, c :: s' => if p c then let '(a, b) := span_max p n s' in (c :: a, b) else ([], s)
  | _, _ => ([], s)
  end.

Definition span (p : ascii -> bool) (s : chars) : chars * chars := span_max p (length s) s.

Definition skip_space (s : chars) : chars := snd (span isspace s).

Definition digit_val (c : ascii) : Z := Z.of_nat (nat_of_ascii c - 48).

Definition decimal (ds : chars) : Z := fold_left (fun a c => 10 * a + digit_val c) ds 0.

(** [%d]: blanks, an optional sign, digits.  The scanned magnitude saturates at
    [ULLONG_MAX] and the value is stored in an [int]. *)
Definition scan_d (s : chars) : option (Z * chars) :=
  let s := skip_space s in
  let '(neg, s) :=
    match s with
    | "-"%char :: s' => (true, s')
    | "+"%char :: s' => (false, s')
    | _ => (false, s)
    end in
  let '(ds, rest) := span is_digit s in
  match ds with
  | [] => None
  | _ =>
      let y := decimal ds in
      Some (if y <? 2 ^ 64 then s32 (if neg : bool then - y else y) else s32 (2 ^ 64 - 1), rest)
  end.

(** [fscanf(f, " %15[a-z]=%d", key, &v) == 2] and the input left. *)
Definition scan_pair (s : chars) : option (chars * Z * chars) :=
  let '(key, s) := span_max is_lower 15 (skip_space s) in
  match key, s with
  | _ :: _, "="%char :: s => '(v, s) ← scan_d s; Some (key, v, s)
  | _, _ => None
  end.

(** The [while] loop; [fuel] bounds the iterations, each of which consumes input. *)
Fixpoint tune_loop (fuel : nat) (s : chars) (t : tune) : tune :=
  match fuel with
  | O => t
  | S fuel =>
      match scan_pair s with
      | Some (key, v, s) => tune_loop fuel s (tune_set key v t)
      | None => t
      end
  end.

(** The settings after [bootbox_tune_init]; [None]: there is no /bootbox-tune. *)
Definition tune_read (f : option chars) (t : tune) : tune :=
  match f with
  | None => t
  | Some s =>
      let t := tune_loop (length s) s t in
      set wasm_hot_num
        (if negb (t wasm_hot_share =? 0) || negb (t wasm_sum_count =? 0)
         then t wasm_instantiate_num / 16 else t wasm_instantiate_num) t
  end.

(** ** The once-only protocol *)

(** Where a thread is in [bootbox_tune_init]. *)
Inductive init_pc : Set :=
| I_check        (* before [qatomic_read(&state) == 2] *)
| I_cas          (* before [qatomic_cmpxchg(&state, 0, 1)] *)
| I_read         (* won the race: reading the file *)
| I_publish      (* before [qatomic_set(&state, 2)] *)
| I_spin         (* waiting for [state == 2] *)
| I_done.        (* returned *)

Record init_state := { in_state : Z; in_tune : tune; in_pcs : list init_pc }.

Definition init_start (n : nat) : init_state :=
  {| in_state := 0; in_tune := tune_default; in_pcs := replicate n I_check |}.

(** One atomic step of thread [i]. *)
Inductive init_step (f : option chars) : init_state -> init_state -> Prop :=
| step_check s t pcs i :
    pcs !! i = Some I_check ->
    init_step f {| in_state := s; in_tune := t; in_pcs := pcs |}
      {| in_state := s; in_tune := t;
         in_pcs := <[i := if s =? 2 then I_done else I_cas]> pcs |}
| step_cas s t pcs i :
    pcs !! i = Some I_cas ->
    init_step f {| in_state := s; in_tune := t; in_pcs := pcs |}
      {| in_state := if s =? 0 then 1 else s; in_tune := t;
         in_pcs := <[i := if s =? 0 then I_read else I_spin]> pcs |}
| step_read s t pcs i :
    pcs !! i = Some I_read ->
    init_step f {| in_state := s; in_tune := t; in_pcs := pcs |}
      {| in_state := s; in_tune := tune_read f t; in_pcs := <[i := I_publish]> pcs |}
| step_publish s t pcs i :
    pcs !! i = Some I_publish ->
    init_step f {| in_state := s; in_tune := t; in_pcs := pcs |}
      {| in_state := 2; in_tune := t; in_pcs := <[i := I_done]> pcs |}
| step_spin s t pcs i :
    pcs !! i = Some I_spin ->
    init_step f {| in_state := s; in_tune := t; in_pcs := pcs |}
      {| in_state := s; in_tune := t;
         in_pcs := <[i := if s =? 2 then I_done else I_spin]> pcs |}.

(** ** Bounds on every tunable *)

(** What the rest of the backend relies on, before [wasm_hot_num] is derived. *)
Definition tune_ok (t : tune) : Prop :=
  1 <= t wasm_instantiate_num <= 1000000 /\
  1000 <= t wasm_max_instance_alive < INSTANCE_RUNNING_LEN /\
  2 <= t wasm_chain_budget <= WASM_CHAIN_BUDGET /\
  1 <= t bb_hm_max <= 127 /\ 1 <= t bb_hm_mod /\ 0 <= t bb_hm_sel.

Lemma set_eq k v t : set k v t k = v.
Proof. unfold set. by rewrite decide_True. Qed.

Lemma set_ne k k' v t : k' <> k -> set k v t k' = t k'.
Proof. intros H. unfold set. by rewrite decide_False. Qed.

(** A guarded update of one tunable keeps the others' bounds. *)
Ltac tune_upd :=
  repeat match goal with
  | |- context [set ?k ?v ?t ?k'] =>
      first [rewrite (set_eq k v t) | rewrite (set_ne k k' v t) by done]
  end.

Lemma tune_ok_set k v t :
  tune_ok t ->
  match k with
  | wasm_instantiate_num => 1 <= v <= 1000000
  | wasm_max_instance_alive => 1000 <= v < INSTANCE_RUNNING_LEN
  | wasm_chain_budget => 2 <= v <= WASM_CHAIN_BUDGET
  | bb_hm_max => 1 <= v <= 127
  | bb_hm_mod => 1 <= v
  | bb_hm_sel => 0 <= v
  | _ => True
  end -> tune_ok (set k v t).
Proof. unfold tune_ok. intros Ht Hv. destruct k; tune_upd; intuition. Qed.

Lemma tune_set_ok key v t : tune_ok t -> tune_ok (tune_set key v t).
Proof.
  intros Ht. unfold tune_set.
  repeat match goal with |- context [if ?b then _ else _] => destruct b eqn:? end;
    rewrite ?andb_true_iff, ?Z.leb_le, ?Z.ltb_lt in *;
    repeat (apply tune_ok_set; [| first [done | lia | unfold WASM_CHAIN_BUDGET; lia]]); done.
Qed.

Lemma tune_loop_ok fuel s t : tune_ok t -> tune_ok (tune_loop fuel s t).
Proof.
  revert s t; induction fuel as [| fuel IH]; intros s t Ht; simpl; [done |].
  destruct (scan_pair s) as [[[key v] s'] |]; [| done]. by apply IH, tune_set_ok.
Qed.

Lemma tune_default_ok : tune_ok tune_default.
Proof. unfold tune_ok; cbn. repeat split; by vm_compute. Qed.

(** whatever the settings file holds, every setting ends inside the range its
    reader accepts, and a block is never kept interpreted past the compile threshold. *)
Theorem tune_read_ok f :
  let t := tune_read f tune_default in
  tune_ok t /\ 0 <= t wasm_hot_num <= t wasm_instantiate_num.
Proof.
  destruct f as [s |]; cbn [tune_read]; [| split; [apply tune_default_ok | by vm_compute]].
  pose proof (tune_loop_ok (length s) s _ tune_default_ok) as Ht.
  set (t := tune_loop _ _ _) in *. clearbody t. split; [by apply tune_ok_set |].
  rewrite set_eq, set_ne by done. destruct Ht as [Ht _].
  assert (0 <= t wasm_instantiate_num / 16 <= t wasm_instantiate_num)
    by (split; [apply Z.div_pos | apply Z.div_le_upper_bound]; lia).
  destruct (_ || _); lia.
Qed.

(** ** The scanner terminates *)

Lemma span_max_app p n s a b : span_max p n s = (a, b) -> s = a ++ b.
Proof.
  revert s a b; induction n as [| n IH]; intros s a b; simpl; [by intros [= <- <-] |].
  destruct s as [| c s]; [by intros [= <- <-] |]. destruct (p c); [| by intros [= <- <-]].
  destruct (span_max p n s) as [a' b'] eqn:E. intros [= <- <-]. simpl. by rewrite (IH _ _ _ E).
Qed.

Lemma span_max_length p n s : (length (snd (span_max p n s)) <= length s)%nat.
Proof.
  destruct (span_max p n s) as [a b] eqn:E. apply span_max_app in E as ->. rewrite length_app. simpl. lia.
Qed.

Lemma skip_space_length s : (length (skip_space s) <= length s)%nat.
Proof. apply span_max_length. Qed.

Lemma scan_d_length s v r : scan_d s = Some (v, r) -> (length r <= length s)%nat.
Proof.
  unfold scan_d. pose proof (skip_space_length s) as Hs. set (s1 := skip_space s) in *. clearbody s1.
  set (ns := match s1 with "-"%char :: _ => _ | _ => _ end).
  assert (Hn : (length (snd ns) <= length s1)%nat).
  { subst ns. destruct s1 as [| c s1]; [done |]. repeat case_match; simpl; lia. }
  clearbody ns. destruct ns as [neg s2]. simpl in Hn.
  pose proof (span_max_length is_digit (length s2) s2) as Hd.
  unfold span. destruct (span_max is_digit (length s2) s2) as [ds rest]. simpl in Hd.
  destruct ds; [done |]. intros [= _ <-]. lia.
Qed.

(** Every conversion consumes input, so the loop ends. *)
Lemma scan_pair_length s key v r : scan_pair s = Some (key, v, r) -> (length r < length s)%nat.
Proof.
  unfold scan_pair. destruct (span_max is_lower 15 (skip_space s)) as [k s1] eqn:E.
  apply span_max_app in E. pose proof (skip_space_length s) as Hs. rewrite E, length_app in Hs.
  destruct k as [| c k]; [done |]. destruct s1 as [| c1 s1]; [done |].
  intros H. assert (He : exists x, scan_d s1 = Some x /\ x.2 = r).
  { repeat case_match; try done. destruct (scan_d s1) as [[v' r'] |]; [| done].
    simpl in H. simplify_eq. by eexists. }
  destruct He as ([v' r'] & Hd & <-). apply scan_d_length in Hd. simpl in *. lia.
Qed.

(** The fuel of [tune_read] is enough: more changes nothing. *)
Lemma tune_loop_fuel fuel s t :
  (length s <= fuel)%nat -> tune_loop fuel s t = tune_loop (length s) s t.
Proof.
  enough (H : forall n m s t, (length s <= n)%nat -> (length s <= m)%nat ->
                              tune_loop n s t = tune_loop m s t) by (intros; apply H; lia).
  clear. intros n. induction n as [| n IH]; intros m s t Hn Hm.
  { destruct s; [| simpl in Hn; lia]. by destruct m. }
  destruct m as [| m]; [destruct s; [done | simpl in Hm; lia] |].
  simpl. destruct (scan_pair s) as [[[key v] r] |] eqn:E; [| done].
  apply scan_pair_length in E. apply IH; lia.
Qed.

(** ** Reading back printed settings *)

Definition digit_char (d : Z) : ascii := ascii_of_nat (48 + Z.to_nat d).

Fixpoint print_digits (fuel : nat) (n : Z) : chars :=
  match fuel with
  | O => []
  | S fuel => (if n <? 10 then [] else print_digits fuel (n / 10)) ++ [digit_char (n mod 10)]
  end.

Definition print_d (v : Z) : chars :=
  if v <? 0 then "-"%char :: print_digits 11 (- v) else print_digits 11 v.

Definition print_pair (kv : chars * Z) : chars := fst kv ++ "="%char :: print_d (snd kv) ++ [" "%char].

Definition key_ok (k : chars) : Prop :=
  (0 < length k <= 15)%nat /\ Forall (fun c => is_lower c = true) k.

Lemma digit_char_spec d : 0 <= d < 10 -> is_digit (digit_char d) = true /\ digit_val (digit_char d) = d.
Proof.
  intros Hd. assert (H : d ∈ seqZ 0 10) by (apply elem_of_seqZ; lia).
  change (seqZ 0 10) with [0; 1; 2; 3; 4; 5; 6; 7; 8; 9] in H.
  repeat (rewrite elem_of_cons in H). repeat (destruct H as [-> | H]; [by vm_compute |]).
  by apply elem_of_nil in H.
Qed.

Lemma decimal_snoc ds c : decimal (ds ++ [c]) = 10 * decimal ds + digit_val c.
Proof. unfold decimal. by rewrite fold_left_app. Qed.

Lemma print_digits_spec fuel n :
  0 <= n < 10 ^ Z.of_nat fuel ->
  decimal (print_digits fuel n) = n /\
  Forall (fun c => is_digit c = true) (print_digits fuel n) /\
  (fuel <> O -> print_digits fuel n <> []).
Proof.
  revert n; induction fuel as [| fuel IH]; intros n Hn; cbn [print_digits].
  { change (10 ^ Z.of_nat 0) with 1 in Hn. replace n with 0 by lia. by repeat split. }
  rewrite Nat2Z.inj_succ, Z.pow_succ_r in Hn by lia.
  pose proof (Z.mod_pos_bound n 10 ltac:(lia)) as Hm. destruct (digit_char_spec (n mod 10) Hm) as [Hd Hv].
  pose proof (Z.div_mod n 10 ltac:(lia)) as Hdm.
  rewrite decimal_snoc, Hv. destruct (Z.ltb_spec n 10) as [Hlt | Hge].
  - cbn [app decimal fold_left]. rewrite Z.mod_small by lia.
    split; [lia | split; [by constructor; [rewrite Z.mod_small in Hd by lia |] | done]].
  - destruct (IH (n / 10)) as (E & F & _); [split; [apply Z.div_pos | apply Z.div_lt_upper_bound]; lia |].
    rewrite E. split; [lia | split; [apply Forall_app; split; [done | by constructor] |]].
    intros _ Hnil. by apply app_eq_nil in Hnil as [_ ?].
Qed.

(** A maximal run is what a scan set reads when the next character is outside it. *)
Lemma span_max_run p n a c b :
  Forall (fun c => p c = true) a -> (length a <= n)%nat -> p c = false ->
  span_max p n (a ++ c :: b) = (a, c :: b).
Proof.
  revert n; induction a as [| x a IH]; intros n Ha Hn Hc; simpl.
  { destruct n; simpl; [done | by rewrite Hc]. }
  destruct n as [| n]; simpl in *; [lia |]. inversion Ha as [| ? ? Hx Ha']; subst. rewrite Hx.
  by rewrite IH by (done || lia).
Qed.

Lemma span_run p a c b :
  Forall (fun c => p c = true) a -> p c = false -> span p (a ++ c :: b) = (a, c :: b).
Proof. intros. apply span_max_run; [done | rewrite length_app; simpl; lia | done]. Qed.

Lemma skip_space_id c s : isspace c = false -> skip_space (c :: s) = c :: s.
Proof. intros H. unfold skip_space, span. simpl. by rewrite H. Qed.

Lemma skip_one_space c s : isspace c = false -> skip_space (" "%char :: c :: s) = c :: s.
Proof. intros H. unfold skip_space, span. cbn. by rewrite H. Qed.

(** A digit is neither blank nor a sign. *)
Lemma digit_not_space c :
  is_digit c = true -> isspace c = false /\ c <> "-"%char /\ c <> "+"%char.
Proof.
  intros H. split; [| split; intros ->; by vm_compute in H].
  unfold is_digit, in_range, isspace in *.
  change (nat_of_ascii "0") with 48%nat in H. change (nat_of_ascii "9") with 57%nat in H.
  apply andb_true_iff in H as [H1 H2]. apply Nat.leb_le in H1, H2.
  apply orb_false_iff. rewrite Nat.eqb_neq, andb_false_iff, !Nat.leb_gt. lia.
Qed.

Lemma lower_not_space c : is_lower c = true -> isspace c = false.
Proof.
  unfold is_lower, in_range, isspace.
  change (nat_of_ascii "a") with 97%nat. change (nat_of_ascii "z") with 122%nat. rewrite andb_true_iff, !Nat.leb_le. intros [H1 H2].
  apply orb_false_iff. rewrite Nat.eqb_neq, andb_false_iff, !Nat.leb_gt. lia.
Qed.

(** Scanning digits followed by a blank. *)
Lemma scan_digits ds rest :
  Forall (fun c => is_digit c = true) ds -> ds <> [] -> decimal ds < 2 ^ 64 ->
  scan_d (ds ++ " "%char :: rest) = Some (s32 (decimal ds), " "%char :: rest) /\
  scan_d ("-"%char :: ds ++ " "%char :: rest) = Some (s32 (- decimal ds), " "%char :: rest).
Proof.
  intros Hf Hne Hlt. destruct ds as [| d ds]; [done |].
  assert (Hd : is_digit d = true) by (by inversion Hf).
  destruct (digit_not_space d Hd) as (Hs & Hm & Hp).
  apply Z.ltb_lt in Hlt. split; unfold scan_d.
  - rewrite <- app_comm_cons, skip_space_id by done.
    replace (match (d :: ds ++ " "%char :: rest) with
             | "-"%char :: s' => (true, s') | "+"%char :: s' => (false, s')
             | _ => (false, d :: ds ++ " "%char :: rest) end)
      with (false, d :: ds ++ " "%char :: rest)
      by (destruct d as [[] [] [] [] [] [] [] []]; done).
    rewrite app_comm_cons, span_run by done. by rewrite Hlt.
  - rewrite skip_space_id by done. rewrite span_run by done. by rewrite Hlt.
Qed.

Lemma scan_print_d v rest :
  is_s 32 v -> scan_d (print_d v ++ " "%char :: rest) = Some (v, " "%char :: rest).
Proof.
  intros Hv. unfold print_d. assert (Hp : 2 ^ 32 < 10 ^ Z.of_nat 11) by done.
  unfold is_s in Hv. change (2 ^ (32 - 1)) with (2 ^ 31) in Hv.
  destruct (Z.ltb_spec v 0).
  - destruct (print_digits_spec 11 (- v)) as (E & F & N); [lia |].
    destruct (scan_digits (print_digits 11 (- v)) rest) as [_ H2]; [done | by apply N | lia |].
    rewrite <- app_comm_cons, H2, E. rewrite Z.opp_involutive, sw_small by (unfold is_s; lia). done.
  - destruct (print_digits_spec 11 v) as (E & F & N); [lia |].
    destruct (scan_digits (print_digits 11 v) rest) as [H1 _]; [done | by apply N | lia |].
    rewrite H1, E. by rewrite sw_small by (unfold is_s; lia).
Qed.

Lemma scan_print_pair sp k v rest :
  sp = [] \/ sp = [" "%char] -> key_ok k -> is_s 32 v ->
  scan_pair (sp ++ print_pair (k, v) ++ rest) = Some (k, v, " "%char :: rest).
Proof.
  intros Hsp [Hl Hk] Hv. destruct k as [| c k]; [simpl in Hl; lia |].
  assert (Hc : isspace c = false) by (inversion Hk; by apply lower_not_space).
  unfold print_pair, fst, snd, scan_pair.
  assert (E : skip_space (sp ++ ((c :: k) ++ "="%char :: print_d v ++ [" "%char]) ++ rest) =
              (c :: k) ++ "="%char :: (print_d v ++ " "%char :: rest)).
  { rewrite <- !app_assoc. cbn [app]. rewrite <- app_assoc. cbn [app].
    destruct Hsp as [-> | ->]; [by apply skip_space_id | by apply skip_one_space]. }
  rewrite E. rewrite span_max_run by (done || lia). cbn. by rewrite scan_print_d.
Qed.

Lemma tune_loop_print sp kvs t fuel :
  sp = [] \/ sp = [" "%char] ->
  Forall (fun kv => key_ok (fst kv) /\ is_s 32 (snd kv)) kvs ->
  let s := sp ++ concat (print_pair <$> kvs) in
  (length s <= fuel)%nat ->
  tune_loop fuel s t = fold_left (fun t kv => tune_set (fst kv) (snd kv) t) kvs t.
Proof.
  revert sp t fuel; induction kvs as [| [k v] kvs IH]; intros sp t fuel Hsp Hf; cbn zeta; intros Hl.
  { destruct fuel; [done |]. destruct Hsp as [-> | ->]; done. }
  inversion Hf as [| ? ? [Hk Hv] Hf']; subst. rewrite fmap_cons in *. cbn [concat] in *.
  pose proof (scan_print_pair sp k v (concat (print_pair <$> kvs)) Hsp Hk Hv) as Hp.
  destruct fuel as [| fuel].
  { rewrite !length_app in Hl. cbn in Hl. rewrite length_app in Hl. cbn in Hl. lia. }
  cbn [tune_loop fold_left]. rewrite Hp. apply scan_pair_length in Hp.
  apply (IH [" "%char]); [by right | done |]. cbn in *. lia.
Qed.

(** Settings printed as key=value words are read back as the same settings, applied
    in order. *)
Theorem tune_read_print kvs t :
  Forall (fun kv => key_ok (fst kv) /\ is_s 32 (snd kv)) kvs ->
  tune_loop (length (concat (print_pair <$> kvs))) (concat (print_pair <$> kvs)) t =
  fold_left (fun t kv => tune_set (fst kv) (snd kv) t) kvs t.
Proof. intros Hf. by apply (tune_loop_print []); [left | |]. Qed.

Definition demo_settings_words : list (chars * Z) :=
  [(list_ascii_of_string "jit", 900); (list_ascii_of_string "hmcpl", -1)].

Lemma tune_read_print_witness :
  tune_loop (length (concat (print_pair <$> demo_settings_words))) (concat (print_pair <$> demo_settings_words)) tune_default =
  tune_set (list_ascii_of_string "hmcpl") (-1) (tune_set (list_ascii_of_string "jit") 900 tune_default).
Proof.
  apply (tune_read_print demo_settings_words tune_default).
  repeat constructor; cbn; (done || lia).
Defined.

(** ** The once-only protocol *)

Definition busy (pc : init_pc) : bool :=
  match pc with I_read | I_publish => true | _ => false end.

(** The protocol's invariant: the race is open, owned by one thread, or over. *)
Definition init_inv (f : option chars) (s : init_state) : Prop :=
  (in_state s = 0 /\ in_tune s = tune_default /\
   forall i pc, in_pcs s !! i = Some pc -> pc = I_check \/ pc = I_cas) \/
  (in_state s = 1 /\
   (exists o pc, in_pcs s !! o = Some pc /\
      (pc = I_read /\ in_tune s = tune_default \/
       pc = I_publish /\ in_tune s = tune_read f tune_default) /\
      forall i pc, in_pcs s !! i = Some pc -> i <> o -> busy pc = false /\ pc <> I_done)) \/
  (in_state s = 2 /\ in_tune s = tune_read f tune_default /\
   forall i pc, in_pcs s !! i = Some pc -> busy pc = false).

Lemma init_start_inv f n : init_inv f (init_start n).
Proof.
  left. repeat split. intros i pc H. apply lookup_replicate in H as [-> _]. by left.
Qed.

Lemma insert_pcs_cases (pcs : list init_pc) i pc' j pc :
  <[i := pc']> pcs !! j = Some pc -> (j = i /\ pc = pc') \/ (j <> i /\ pcs !! j = Some pc).
Proof.
  intros H. destruct (decide (j = i)) as [-> | Hn].
  - left. apply list_lookup_insert_Some in H. naive_solver.
  - right. by rewrite list_lookup_insert_ne in H by done.
Qed.

(** A step of a thread that does not own the race keeps each phase. *)
Lemma inv_other f s t pcs i pc pc' :
  pcs !! i = Some pc -> busy pc = false -> busy pc' = false ->
  (s = 0 -> pc' = I_check \/ pc' = I_cas) -> (s = 1 -> pc' <> I_done) ->
  init_inv f {| in_state := s; in_tune := t; in_pcs := pcs |} ->
  init_inv f {| in_state := s; in_tune := t; in_pcs := <[i := pc']> pcs |}.
Proof.
  intros Hi Hb Hb' H0 H1 [(Hs & Ht & H) | [(Hs & o & opc & Ho & Hopc & H) | (Hs & Ht & H)]];
    cbn [in_state in_tune in_pcs] in *; subst s.
  - left. split_and!; [done.. |]. intros j q Hj.
    apply insert_pcs_cases in Hj as [[-> ->] | [_ Hj]]; eauto.
  - right; left. split; [done |]. assert (i <> o) by (intros ->; naive_solver).
    exists o, opc. cbn [in_pcs in_tune]. rewrite list_lookup_insert_ne by done. split_and!; [done.. |].
    intros j q Hj Hjo. apply insert_pcs_cases in Hj as [[-> ->] | [_ Hj]]; eauto.
  - right; right. split_and!; [done.. |]. intros j q Hj.
    apply insert_pcs_cases in Hj as [[-> ->] | [_ Hj]]; eauto.
Qed.

(** A busy thread is the owner, in phase 1. *)
Lemma inv_owner f s t pcs i pc :
  pcs !! i = Some pc -> busy pc = true ->
  init_inv f {| in_state := s; in_tune := t; in_pcs := pcs |} ->
  s = 1 /\ t = (match pc with I_read => tune_default | _ => tune_read f tune_default end) /\
  forall j q, pcs !! j = Some q -> j <> i -> busy q = false /\ q <> I_done.
Proof.
  intros Hi Hb [(Hs & Ht & H) | [(Hs & o & opc & Ho & Hopc & H) | (Hs & Ht & H)]];
    cbn [in_state in_tune in_pcs] in *.
  - by destruct (H _ _ Hi) as [-> | ->].
  - assert (i = o) as ->.
    { destruct (decide (i = o)) as [| Hn]; [done |]. destruct (H i pc Hi Hn). congruence. }
    rewrite Hi in Ho. injection Ho as <-. split_and!; [done | | done].
    destruct Hopc as [[-> ->] | [-> ->]]; done.
  - by rewrite (H _ _ Hi) in Hb.
Qed.

Lemma init_step_inv f s s' : init_step f s s' -> init_inv f s -> init_inv f s'.
Proof.
  intros Hstep Hinv.
  destruct Hstep as [s t pcs i Hi | s t pcs i Hi | s t pcs i Hi | s t pcs i Hi | s t pcs i Hi].
  - eapply inv_other; [done | done | .. | done]; destruct (Z.eqb_spec s 2); naive_solver lia.
  - destruct (Z.eqb_spec s 0) as [-> | Hs].
    + destruct Hinv as [(_ & Ht & H) | [(Hs & _) | (Hs & _)]]; [| done..].
      cbn [in_state in_tune in_pcs] in *. right; left. split; [done |]. exists i, I_read.
      cbn [in_pcs in_tune]. rewrite list_lookup_insert_eq by (by eapply lookup_lt_Some).
      split_and!; [done | by left |]. intros j pc Hj Hji.
      apply insert_pcs_cases in Hj as [[-> _] | [_ Hj]]; [done |]. by destruct (H _ _ Hj) as [-> | ->].
    + by eapply inv_other.
  - destruct (inv_owner _ _ _ _ _ _ Hi eq_refl Hinv) as (-> & -> & H).
    right; left. split; [done |]. exists i, I_publish. cbn [in_pcs in_tune].
    rewrite list_lookup_insert_eq by (by eapply lookup_lt_Some). split_and!; [done | by right |].
    intros j q Hj Hji. apply insert_pcs_cases in Hj as [[-> _] | [_ Hj]]; [done | eauto].
  - destruct (inv_owner _ _ _ _ _ _ Hi eq_refl Hinv) as (-> & -> & H).
    right; right. split_and!; [done.. |]. intros j q Hj.
    apply insert_pcs_cases in Hj as [[-> ->] | [Hji Hj]]; [done |]. by destruct (H _ _ Hj Hji).
  - eapply inv_other; [done | done | .. | done]; destruct (Z.eqb_spec s 2); try naive_solver lia.
    intros ->. destruct Hinv as [(_ & _ & H) | [(Hs & _) | (Hs & _)]]; [| done..].
    by destruct (H _ _ Hi).
Qed.

Lemma init_reachable_inv f n s : rtc (init_step f) (init_start n) s -> init_inv f s.
Proof.
  intros H. apply (rtc_ind_r (init_inv f)) in H; [done | apply init_start_inv |].
  intros s1 s2 _ Hstep Hinv. by eapply init_step_inv.
Qed.

(** however the threads that start together interleave, the settings file is read by
    one of them: a thread that returned sees the values read, and a waiting thread waits
    for exactly one reader. *)
Theorem init_once f n s i :
  rtc (init_step f) (init_start n) s ->
  (in_pcs s !! i = Some I_done -> in_tune s = tune_read f tune_default) /\
  (in_pcs s !! i = Some I_spin -> in_state s <> 2 ->
   exists o pc, in_pcs s !! o = Some pc /\ busy pc = true /\
     forall j pc', in_pcs s !! j = Some pc' -> busy pc' = true -> j = o).
Proof.
  intros H. destruct (init_reachable_inv f n s H)
    as [(Hs & Ht & Hp) | [(Hs & o & opc & Ho & Hopc & Hp) | (Hs & Ht & Hp)]].
  - split; intros Hi; by destruct (Hp _ _ Hi).
  - split.
    + intros Hi. destruct (decide (i = o)) as [-> | Hn]; [naive_solver |]. by destruct (Hp _ _ Hi Hn).
    + intros Hi _. exists o, opc. split; [done |]. split; [naive_solver |].
      intros j pc' Hj Hb. destruct (decide (j = o)); [done |]. destruct (Hp _ _ Hj n0). congruence.
  - split; [done | by intros _ ?].
Qed.

(** Two threads: the first reads the file while the second waits for it. *)
Lemma demo_init_waiting :
  rtc (init_step None) (init_start 2)
    {| in_state := 1; in_tune := tune_read None tune_default; in_pcs := [I_publish; I_spin] |}.
Proof.
  eapply rtc_l; [exact (step_check None 0 tune_default [I_check; I_check] 0 eq_refl) |].
  eapply rtc_l; [exact (step_cas None 0 tune_default [I_cas; I_check] 0 eq_refl) |].
  eapply rtc_l; [exact (step_check None 1 tune_default [I_read; I_check] 1 eq_refl) |].
  eapply rtc_l; [exact (step_cas None 1 tune_default [I_read; I_cas] 1 eq_refl) |].
  eapply rtc_l; [exact (step_read None 1 tune_default [I_read; I_spin] 0 eq_refl) |].
  apply rtc_refl.
Qed.

Lemma demo_init_done :
  rtc (init_step None) (init_start 2)
    {| in_state := 2; in_tune := tune_read None tune_default; in_pcs := [I_done; I_done] |}.
Proof.
  etrans; [exact demo_init_waiting |].
  eapply rtc_l; [exact (step_publish None 1 (tune_read None tune_default) [I_publish; I_spin] 0 eq_refl) |].
  eapply rtc_l; [exact (step_spin None 2 (tune_read None tune_default) [I_done; I_spin] 1 eq_refl) |].
  apply rtc_refl.
Qed.

Lemma init_once_witness :
  exists s s', rtc (init_step None) (init_start 2) s /\ in_pcs s !! 1%nat = Some I_spin /\
    (exists o pc, in_pcs s !! o = Some pc /\ busy pc = true) /\
    rtc (init_step None) (init_start 2) s' /\ in_pcs s' !! 1%nat = Some I_done /\
    in_tune s' = tune_read None tune_default.
Proof.
  pose proof (proj2 (init_once None 2 _ 1 demo_init_waiting) eq_refl ltac:(discriminate)) as (o & pc & H1 & H2 & _).
  pose proof (proj1 (init_once None 2 _ 1 demo_init_done) eq_refl) as H3.
  do 2 eexists. split; [exact demo_init_waiting |]. split; [reflexivity |].
  split; [exact (ex_intro _ o (ex_intro _ pc (conj H1 H2))) |].
  split; [exact demo_init_done | split; [reflexivity | exact H3]].
Defined.
