(* ===== verification/TbHeader.v ===== *)
(** * Translation-block headers and the compile decision

    Every translation block starts with two vectors that have one 32-bit slot per
    vCPU thread: the export vector (which compiled instance of the block the
    thread holds) and the counter vector (how often the thread interpreted it).
    This file models the slot layout set up by [init_wasm32] and the decision
    [tb_wants_tci] with the scans it uses (tcg/wasm32.c).  The theorems say that
    no two threads share a slot, that the decision never reads outside the header,
    and characterise it exactly.

    Layout of a block at [tb]: [tb + 0] offset of the TCI code, [tb + 4] size of
    the export vector, [tb + 8] the export vector, then the size of the counter
    vector and the counter vector. *)
From S2P Require Import Prelude Memory Tune.

(** ** Per-thread constants *)

Definition WASM_MIN_CORE_SLOTS : Z := 8.

(** The cached count ([static int n]) and the result; [tcg_max_ctxs] and
    [emscripten_num_logical_cores()] come from outside. *)
Definition get_core_nums (n tcg_max_ctxs logical_cores : Z) : Z * Z :=
  if n =? 0 then
    let v := if 0 <? tcg_max_ctxs then s32 tcg_max_ctxs
             else Z.max logical_cores WASM_MIN_CORE_SLOTS in
    (v, v)
  else (n, n).

(** The thread-local variables [init_wasm32] sets. *)
Record wthread := {
  cur_core_num : Z;
  all_cores_num : Z;
  export_vec_off : Z;
  counter_vec_off : Z
}.

(** [init_wasm32] on a thread that has not run it: the counter of threads
    afterwards, and the thread's constants unless it aborts (more threads than
    slots). *)
Definition init_wasm32 (cur_core_num_max cores : Z) : Z * option wthread :=
  let cur := cur_core_num_max in
  (cur_core_num_max + 1,
   if cores <=? cur then None
   else Some {| cur_core_num := cur; all_cores_num := cores;
                export_vec_off := 4 + 4 + cur * 4;
                counter_vec_off := 4 + 4 + cores * 4 + 4 + cur * 4 |}).

(** ** Writing a header *)

(** [memset(a, 0, n)]. *)
Fixpoint memset0 (n : nat) (m : mem) (a : Z) : option mem :=
  match n with
  | O => Some m
  | S n => m ← store8 m a 0; memset0 n m (a + 1)
  end.

(** The start of the output of [tcg_gen_code] at [code_buf], up to the first TCI
    instruction: the TCI offset, the two vectors zeroed with their sizes before
    them, room for the size of the TCI code.  The result is [s->code_ptr]. *)
Definition tb_header_out (cores code_buf : Z) (m : mem) : option (Z * mem) :=
  let tci_code_off := code_buf in
  let size_base := code_buf + 4 in
  let code_ptr := code_buf + 8 in
  let export_size := cores * 4 in
  m ← memset0 (Z.to_nat export_size) m code_ptr;
  let code_ptr := code_ptr + export_size in
  m ← store32 m size_base export_size;
  let size_base := code_ptr in
  let code_ptr := code_ptr + 4 in
  let counter_size := cores * 4 in
  m ← memset0 (Z.to_nat counter_size) m code_ptr;
  let code_ptr := code_ptr + counter_size in
  m ← store32 m size_base counter_size;
  let code_ptr := code_ptr + 4 in
  m ← store32 m tci_code_off (code_ptr - code_buf);
  Some (code_ptr, m).

(** ** Scans over the vectors *)

Definition export_slot (tb i : Z) : Z := u32 (tb + 8 + 4 * i).
Definition counter_slot (th : wthread) (tb i : Z) : Z :=
  u32 (tb + 4 + 4 + all_cores_num th * 4 + 4 + 4 * i).

(** The loop of both scans: some slot of another thread is non-zero. *)
Fixpoint any_other (th : wthread) (m : mem) (slot : Z -> Z) (cs : list Z) : option bool :=
  match cs with
  | [] => Some false
  | i :: cs =>
      if i =? cur_core_num th then any_other th m slot cs
      else v ← load32 m (slot i);
           if v =? 0 then any_other th m slot cs else Some true
  end.

(** Another vCPU holds (or held) a compiled instance of this block. *)
Definition tb_hot_elsewhere (th : wthread) (m : mem) (tb : Z) : option bool :=
  any_other th m (export_slot tb) (seqZ 0 (all_cores_num th)).

Fixpoint sum_from (th : wthread) (m : mem) (tb : Z) (cs : list Z) (sum : Z) : option Z :=
  match cs with
  | [] => Some sum
  | i :: cs =>
      v ← load32 m (counter_slot th tb i);
      let v := s32 v in
      sum_from th m tb cs (if 0 <? v then s32 (sum + v) else sum)
  end.

(** The block's runs on all cores reach the compile threshold. *)
Definition tb_hot_in_sum (t : tune) (th : wthread) (m : mem) (tb : Z) : option bool :=
  sum ← sum_from th m tb (seqZ 0 (all_cores_num th)) 0;
  Some (t wasm_instantiate_num <=? sum).

(** Another vCPU has interpreted this block. *)
Definition tb_run_elsewhere (th : wthread) (m : mem) (tb : Z) : option bool :=
  any_other th m (counter_slot th tb) (seqZ 0 (all_cores_num th)).

(** Keep interpreting this block (rather than compile it) at run count [cnt]. *)
Definition tb_wants_tci (t : tune) (th : wthread) (m : mem) (cnt tb : Z) : option bool :=
  if cnt <? t wasm_hot_num then Some true
  else if t wasm_instantiate_num <=? cnt then Some false
  else
    hot ← (if t wasm_hot_share =? 0 then Some false else tb_hot_elsewhere th m tb);
    if hot : bool then Some false
    else
      sum ← (if negb (t wasm_sum_count =? 0) && (Z.land cnt 63 =? 0)
             then tb_hot_in_sum t th m tb else Some false);
      Some (negb sum).

(** ** The layout *)

(** A thread's constants agree with the layout for [cores] slots. *)
Definition thread_ok (th : wthread) : Prop :=
  0 <= cur_core_num th < all_cores_num th /\
  export_vec_off th = 4 + 4 + cur_core_num th * 4 /\
  counter_vec_off th = 4 + 4 + all_cores_num th * 4 + 4 + cur_core_num th * 4.

(** The header of the block at [tb] is inside the memory. *)
Definition header_size (cores : Z) : Z := 4 + 4 + cores * 4 + 4 + cores * 4.

Definition header_mapped (th : wthread) (m : mem) (tb : Z) : Prop :=
  0 <= tb /\ tb + header_size (all_cores_num th) <= 2 ^ 32 /\
  mapped m tb (Z.to_nat (header_size (all_cores_num th))).

Lemma init_wasm32_ok max cores th :
  0 <= max -> snd (init_wasm32 max cores) = Some th ->
  thread_ok th /\ all_cores_num th = cores /\ cur_core_num th = max.
Proof.
  intros Hm. unfold init_wasm32. simpl. destruct (Z.leb_spec cores max); [done |].
  intros [= <-]. unfold thread_ok; simpl. lia.
Qed.

(** Threads initialise one after the other (an atomic increment); the results. *)
Fixpoint init_threads (n : nat) (max cores : Z) : list (option wthread) :=
  match n with
  | O => []
  | S n => let '(max, th) := init_wasm32 max cores in th :: init_threads n max cores
  end.

Lemma init_threads_nth n max cores i :
  0 <= max -> (i < n)%nat ->
  init_threads n max cores !! i = Some (snd (init_wasm32 (max + Z.of_nat i) cores)).
Proof.
  revert max i; induction n as [| n IH]; intros max i Hm Hi; [lia |].
  cbn [init_threads init_wasm32]. destruct i as [| i]; cbn.
  - by rewrite Z.add_0_r.
  - rewrite IH by lia. f_equal. unfold init_wasm32; simpl.
    by replace (max + 1 + Z.of_nat i) with (max + Z.of_nat (S i)) by lia.
Qed.

(** of the threads that register, the first ones up to the slot count get distinct
    slots of one common slot count, and every thread past it aborts. *)
Theorem init_threads_slots n cores i j :
  (i < n)%nat -> (j < n)%nat -> i <> j ->
  match init_threads n 0 cores !! i, init_threads n 0 cores !! j with
  | Some (Some a), Some (Some b) =>
      thread_ok a /\ thread_ok b /\ cur_core_num a <> cur_core_num b /\
      all_cores_num a = all_cores_num b
  | Some (Some a), Some None => cores <= Z.of_nat j
  | Some None, Some _ => cores <= Z.of_nat i
  | _, _ => False
  end.
Proof.
  intros Hi Hj Hij. rewrite !init_threads_nth by lia.
  destruct (snd (init_wasm32 (0 + Z.of_nat i) cores)) as [a |] eqn:Ea.
  - destruct (snd (init_wasm32 (0 + Z.of_nat j) cores)) as [b |] eqn:Eb.
    + apply init_wasm32_ok in Ea as (Ha & Hca & Hna); [| lia].
      apply init_wasm32_ok in Eb as (Hb & Hcb & Hnb); [| lia].
      split_and!; [done | done | lia | congruence].
    + unfold init_wasm32 in Eb; simpl in Eb. destruct (Z.leb_spec cores (0 + Z.of_nat j)); [lia | done].
  - unfold init_wasm32 in Ea; simpl in Ea. destruct (Z.leb_spec cores (0 + Z.of_nat i)); [lia | done].
Qed.

Lemma init_threads_slots_witness :
  exists a b, init_threads 3 0 8 !! 0%nat = Some (Some a) /\ init_threads 3 0 8 !! 2%nat = Some (Some b) /\
    cur_core_num a <> cur_core_num b.
Proof.
  pose proof (init_threads_slots 3 8 0 2 ltac:(lia) ltac:(lia) ltac:(lia)) as H. vm_compute in H.
  do 2 eexists. split; [reflexivity | split; [reflexivity |]]. exact (proj1 (proj2 (proj2 H))).
Defined.

(** The thread's slots are the ones the scans read at its number. *)
Lemma own_slots th tb :
  thread_ok th ->
  u32 (tb + export_vec_off th) = export_slot tb (cur_core_num th) /\
  u32 (tb + counter_vec_off th) = counter_slot th tb (cur_core_num th).
Proof.
  intros (Hc & -> & ->). unfold export_slot, counter_slot. split; f_equal; lia.
Qed.

Lemma slot_addr th m tb i :
  header_mapped th m tb -> 0 <= i < all_cores_num th ->
  export_slot tb i = tb + 8 + 4 * i /\
  counter_slot th tb i = tb + 4 + 4 + all_cores_num th * 4 + 4 + 4 * i.
Proof.
  unfold header_mapped, header_size, export_slot, counter_slot. intros (H0 & H1 & _) Hi.
  split; apply uw_small; unfold is_u; lia.
Qed.

(** Two threads' slots of a block never overlap, nor do the two vectors, nor the
    words around them. *)
Lemma slots_disjoint th m tb i j :
  header_mapped th m tb -> 0 <= i < all_cores_num th -> 0 <= j < all_cores_num th ->
  (i <> j -> export_slot tb i + 4 <= export_slot tb j \/ export_slot tb j + 4 <= export_slot tb i) /\
  (i <> j -> counter_slot th tb i + 4 <= counter_slot th tb j \/
             counter_slot th tb j + 4 <= counter_slot th tb i) /\
  export_slot tb i + 4 <= counter_slot th tb j /\
  tb + 8 <= export_slot tb i /\
  counter_slot th tb i + 4 <= tb + header_size (all_cores_num th).
Proof.
  intros Hm Hi Hj. destruct (slot_addr th m tb i Hm Hi) as [-> ->].
  destruct (slot_addr th m tb j Hm Hj) as [-> ->]. unfold header_size. lia.
Qed.

Lemma header_load32 th m tb p :
  header_mapped th m tb -> tb <= p -> p + 4 <= tb + header_size (all_cores_num th) ->
  is_Some (load32 m p).
Proof.
  intros (H0 & H1 & H2) Hl Hh. apply load_is_Some. intros i Hi.
  specialize (H2 (p - tb + i)). replace (tb + (p - tb + i)) with (p + i) in H2 by lia. apply H2. lia.
Qed.

Lemma slots_load th m tb i :
  header_mapped th m tb -> 0 <= i < all_cores_num th ->
  is_Some (load32 m (export_slot tb i)) /\ is_Some (load32 m (counter_slot th tb i)).
Proof.
  intros Hm Hi. pose proof (slots_disjoint th m tb i i Hm Hi Hi) as (_ & _ & H1 & H2 & H3).
  split; eapply header_load32; eauto; lia.
Qed.

(** ** A new header *)

Lemma memset0_spec n m a :
  mapped m a n ->
  exists m', memset0 n m a = Some m' /\
    (forall p, m' !! p = if decide (a <= p < a + Z.of_nat n) then Some 0 else m !! p).
Proof.
  revert m a; induction n as [| n IH]; intros m a Hm; cbn [memset0].
  { exists m. split; [done |]. intros p. case_decide; [lia | done]. }
  apply mapped_cons in Hm as [[b Hb] Hm]. cbn [store]. rewrite Hb. cbn [mbind option_bind].
  destruct (IH (<[a := 0 mod 256]> m) (a + 1)) as (m' & E & Hm'); [by apply mapped_insert |].
  exists m'. split; [done |]. intros p. rewrite Hm', lookup_insert.
  repeat case_decide; try lia; try done.
Qed.

Lemma memset0_facts n m a :
  mapped m a n ->
  exists m', memset0 n m a = Some m' /\
    (forall p k, mapped m p k -> mapped m' p k) /\
    (forall p k, p + Z.of_nat k <= a \/ a + Z.of_nat n <= p -> load k m' p = load k m p) /\
    (forall p, a <= p -> p + 4 <= a + Z.of_nat n -> load32 m' p = Some 0).
Proof.
  intros Ha. destruct (memset0_spec n m a Ha) as (m' & E & H). exists m'. split_and!; [done | | |].
  - intros p k Hp i Hi. rewrite H. case_decide; [done | by apply Hp].
  - intros p k Hp. apply load_ext. intros i Hi. rewrite H, decide_False by lia. done.
  - intros p Hl Hh. assert (Hz : forall i, 0 <= i < 4 -> m' !! (p + i) = Some 0)
      by (intros i Hi; rewrite H, decide_True by lia; done).
    assert (H0 := Hz 0 ltac:(lia)). assert (H1 := Hz 1 ltac:(lia)). assert (H2 := Hz 2 ltac:(lia)).
    assert (H3 := Hz 3 ltac:(lia)). rewrite Z.add_0_r in H0. cbn [load].
    replace (p + 1 + 1) with (p + 2) by lia. replace (p + 2 + 1) with (p + 3) by lia. by rewrite H0, H1, H2, H3.
Qed.

Lemma store32_facts m a v :
  mapped m a 4 ->
  exists m', store32 m a v = Some m' /\
    (forall p k, mapped m p k -> mapped m' p k) /\
    (forall p k, p + Z.of_nat k <= a \/ a + 4 <= p -> load k m' p = load k m p) /\
    load32 m' a = Some (u32 v).
Proof.
  intros Ha. destruct (proj2 (store_is_Some 4 m a v) Ha) as [m' E]. exists m'. split_and!; [done | | |].
  - intros p k Hp. by apply (store_mapped _ _ _ _ _ p k E).
  - intros p k Hp. apply (load_store_ne _ _ _ _ _ _ _ E). lia.
  - by apply (load_store32_eq _ _ _ _ E).
Qed.

Lemma mapped_sub m a n p k :
  mapped m a n -> a <= p -> p + Z.of_nat k <= a + Z.of_nat n -> mapped m p k.
Proof.
  intros H Hl Hh i Hi. replace (p + i) with (a + (p - a + i)) by lia. apply H. lia.
Qed.

(** A header just written: both vectors zero, every size word in place, nothing
    outside it touched. *)
Lemma tb_header_out_fresh cores b m :
  0 <= cores < 2 ^ 24 -> mapped m b (Z.to_nat (header_size cores + 4)) ->
  exists m', tb_header_out cores b m = Some (b + header_size cores + 4, m') /\
    (forall p k, mapped m p k -> mapped m' p k) /\
    (forall p k, p + Z.of_nat k <= b \/ b + header_size cores <= p -> load k m' p = load k m p) /\
    load32 m' b = Some (header_size cores + 4) /\
    load32 m' (b + 4) = Some (cores * 4) /\ load32 m' (b + 8 + cores * 4) = Some (cores * 4) /\
    (forall i, 0 <= i < cores -> load32 m' (b + 8 + 4 * i) = Some 0 /\
                                 load32 m' (b + 8 + cores * 4 + 4 + 4 * i) = Some 0).
Proof.
  intros Hc Hm. unfold header_size in *.
  assert (Hsub : forall m1 p k, (forall p k, mapped m p k -> mapped m1 p k) -> b <= p ->
    p + Z.of_nat k <= b + (4 + 4 + cores * 4 + 4 + cores * 4 + 4) -> mapped m1 p k)
    by (intros m1 p k Hk Hl Hh; apply Hk, (mapped_sub m b _ p k Hm); lia).
  destruct (memset0_facts (Z.to_nat (cores * 4)) m (b + 8)) as (m1 & E1 & M1 & L1 & Z1); [apply Hsub; auto; lia |].
  destruct (store32_facts m1 (b + 4) (cores * 4)) as (m2 & E2 & M2 & L2 & V2); [apply Hsub; auto; lia |].
  destruct (memset0_facts (Z.to_nat (cores * 4)) m2 (b + 8 + cores * 4 + 4)) as (m3 & E3 & M3 & L3 & Z3);
    [apply Hsub; auto; lia |].
  destruct (store32_facts m3 (b + 8 + cores * 4) (cores * 4)) as (m4 & E4 & M4 & L4 & V4); [apply Hsub; auto; lia |].
  destruct (store32_facts m4 b (b + 8 + cores * 4 + 4 + cores * 4 + 4 - b)) as (m5 & E5 & M5 & L5 & V5);
    [apply Hsub; auto; lia |].
  exists m5. split.
  { unfold tb_header_out. rewrite E1. cbn [mbind option_bind]. rewrite E2. cbn [mbind option_bind]. rewrite E3.
    cbn [mbind option_bind]. rewrite E4. cbn [mbind option_bind]. rewrite E5. cbn [mbind option_bind]. do 2 f_equal. lia. }
  assert (Hu : forall v, 0 <= v < 2 ^ 32 -> u32 v = v) by (intros; by apply uw_small).
  split_and!.
  - auto 10.
  - intros p k Hp. rewrite L5, L4, L3, L2, L1 by lia. done.
  - rewrite V5, Hu by lia. f_equal. lia.
  - rewrite L5, L4, L3, V2, Hu by lia. done.
  - rewrite L5, V4, Hu by lia. done.
  - intros i Hi. split.
    + rewrite L5, L4, L3, L2, Z1 by lia. done.
    + rewrite L5, L4, Z3 by lia. done.
Qed.

(** ** What the scans compute *)

Lemma any_other_spec th m slot cs :
  (forall i, i ∈ cs -> is_Some (load32 m (slot i))) ->
  exists b, any_other th m slot cs = Some b /\
    (b = true <-> exists i v, i ∈ cs /\ i <> cur_core_num th /\
                              load32 m (slot i) = Some v /\ v <> 0).
Proof.
  induction cs as [| c cs IH]; intros Hl; cbn [any_other].
  { exists false. split; [done |]. split; [done |]. intros (i & v & Hi & _). by apply elem_of_nil in Hi. }
  destruct IH as (b & Eb & Hb); [intros i Hi; apply Hl; by right |].
  destruct (Z.eqb_spec c (cur_core_num th)) as [-> | Hc].
  { exists b. split; [done |]. rewrite Hb. setoid_rewrite elem_of_cons. naive_solver. }
  destruct (Hl c) as [v Hv]; [by left |]. rewrite Hv. simpl.
  destruct (Z.eqb_spec v 0) as [-> | Hv0].
  - exists b. split; [done |]. rewrite Hb. setoid_rewrite elem_of_cons. naive_solver.
  - exists true. split; [done |]. split; [intros _ | done]. exists c, v. split; [by left | done].
Qed.

(** The sum of the positive run counts of a block over all threads. *)
Definition positive_runs (m : mem) (a : Z) : Z :=
  match load32 m a with Some v => Z.max 0 (s32 v) | None => 0 end.

Definition total_runs (th : wthread) (m : mem) (tb : Z) (cs : list Z) : Z :=
  foldr Z.add 0 ((fun i => positive_runs m (counter_slot th tb i)) <$> cs).

Lemma total_runs_bound th m tb cs k :
  (forall i, i ∈ cs -> positive_runs m (counter_slot th tb i) <= k) ->
  0 <= total_runs th m tb cs <= Z.of_nat (length cs) * k.
Proof.
  intros Hk. induction cs as [| c cs IH]; [by cbn |].
  unfold total_runs in *. rewrite fmap_cons. cbn [foldr length].
  specialize (Hk c) as Hc. destruct IH as [IH0 IH1]; [intros i Hi; apply Hk; by right |].
  assert (0 <= positive_runs m (counter_slot th tb c)) by (unfold positive_runs; case_match; lia).
  specialize (Hc ltac:(by left)). nia.
Qed.

(** While the counts are within the tunable's range the C addition does not
    overflow, so the sum is exact. *)
Lemma sum_from_exact th m tb cs acc k :
  (forall i, i ∈ cs -> is_Some (load32 m (counter_slot th tb i))) ->
  (forall i, i ∈ cs -> positive_runs m (counter_slot th tb i) <= k) ->
  0 <= acc -> acc + Z.of_nat (length cs) * k < 2 ^ 31 ->
  sum_from th m tb cs acc = Some (acc + total_runs th m tb cs).
Proof.
  revert acc; induction cs as [| c cs IH]; intros acc Hl Hk Ha Hb.
  { unfold total_runs; cbn. by rewrite Z.add_0_r. }
  destruct (Hl c) as [v Hv]; [by left |]. specialize (Hk c ltac:(by left)) as Hc.
  unfold total_runs. rewrite fmap_cons. cbn [sum_from foldr length] in *. rewrite Hv. cbn [mbind option_bind].
  unfold positive_runs in Hc |- * at 1. rewrite Hv in Hc |- *.
  assert (Hn : (if 0 <? s32 v then s32 (acc + s32 v) else acc) = acc + Z.max 0 (s32 v)).
  { destruct (Z.ltb_spec 0 (s32 v)); [| lia]. rewrite sw_small; [lia | lia |]. unfold is_s. nia. }
  rewrite Hn, IH.
  - by rewrite <- Z.add_assoc.
  - intros i Hi. apply Hl. by right.
  - intros i Hi. apply Hk. by right.
  - lia.
  - nia.
Qed.

Lemma all_slots_load th m tb i :
  header_mapped th m tb -> i ∈ seqZ 0 (all_cores_num th) ->
  is_Some (load32 m (export_slot tb i)) /\ is_Some (load32 m (counter_slot th tb i)).
Proof. intros Hm Hi. apply elem_of_seqZ in Hi. apply slots_load; [done | lia]. Qed.

(** The conditions under which the sum is exact: no thread's count is beyond
    the largest threshold, and the guest has at most 2147 vCPUs. *)
Definition counts_ok (th : wthread) (m : mem) (tb : Z) : Prop :=
  0 <= all_cores_num th <= 2147 /\
  forall i, 0 <= i < all_cores_num th -> positive_runs m (counter_slot th tb i) <= 1000000.

Lemma tb_hot_in_sum_exact t th m tb :
  header_mapped th m tb -> counts_ok th m tb ->
  tb_hot_in_sum t th m tb =
  Some (t wasm_instantiate_num <=? total_runs th m tb (seqZ 0 (all_cores_num th))).
Proof.
  intros Hm [Hn Hc]. unfold tb_hot_in_sum. rewrite (sum_from_exact _ _ _ _ _ 1000000).
  - done.
  - intros i Hi. by destruct (all_slots_load th m tb i Hm Hi).
  - intros i Hi. apply elem_of_seqZ in Hi. apply Hc. lia.
  - lia.
  - rewrite length_seqZ. lia.
Qed.

(** a block stays interpreted exactly while it is cold, or lukewarm with no other
    core running it compiled (hot_share) and with the runs of all cores together, looked
    at every 64 runs, below the threshold (sumcnt). *)
Theorem tb_wants_tci_spec t th m cnt tb :
  header_mapped th m tb -> counts_ok th m tb ->
  exists b, tb_wants_tci t th m cnt tb = Some b /\
    (b = true <->
     cnt < t wasm_hot_num \/
     (cnt < t wasm_instantiate_num /\
      ~ (t wasm_hot_share <> 0 /\
         exists i v, 0 <= i < all_cores_num th /\ i <> cur_core_num th /\
                     load32 m (export_slot tb i) = Some v /\ v <> 0) /\
      ~ (t wasm_sum_count <> 0 /\ Z.land cnt 63 = 0 /\
         t wasm_instantiate_num <= total_runs th m tb (seqZ 0 (all_cores_num th))))).
Proof.
  intros Hm Hc. unfold tb_wants_tci. destruct (Z.ltb_spec cnt (t wasm_hot_num)) as [Hh | Hh].
  { exists true. split; [done | tauto]. }
  destruct (Z.leb_spec (t wasm_instantiate_num) cnt) as [Hi | Hi].
  { exists false. split; [done |]. split; [done | lia]. }
  destruct (any_other_spec th m (export_slot tb) (seqZ 0 (all_cores_num th))) as (e & Ee & He).
  { intros i Hx. by destruct (all_slots_load th m tb i Hm Hx). }
  setoid_rewrite elem_of_seqZ in He. setoid_rewrite Z.add_0_l in He.
  unfold tb_hot_elsewhere. rewrite Ee, (tb_hot_in_sum_exact t th m tb Hm Hc).
  destruct (Z.eqb_spec (t wasm_hot_share) 0) as [Es | Es]; cbn [mbind option_bind];
    [| destruct e].
  - destruct (Z.eqb_spec (t wasm_sum_count) 0), (Z.eqb_spec (Z.land cnt 63) 0); cbn;
      eexists; (split; [reflexivity |]); rewrite ?negb_true_iff, ?Z.leb_gt; intuition lia.
  - exists false. split; [done |]. split; [done |]. intros [? | (_ & H & _)]; [lia |].
    destruct H. split; [done |]. by apply He.
  - assert (Hn : ~ exists i v, (0 <= i < all_cores_num th) /\ i <> cur_core_num th /\
                               load32 m (export_slot tb i) = Some v /\ v <> 0) by (intros H; by apply He in H).
    destruct (Z.eqb_spec (t wasm_sum_count) 0), (Z.eqb_spec (Z.land cnt 63) 0); cbn;
      eexists; (split; [reflexivity |]); rewrite ?negb_true_iff, ?Z.leb_gt; intuition lia.
Qed.

Module WantsDemo.
Definition th : wthread :=
  {| cur_core_num := 1; all_cores_num := 2; export_vec_off := 12; counter_vec_off := 24 |}.

Definition memory : mem := list_to_map ((fun i => (4096 + i, 0)) <$> seqZ 0 32).

Lemma header_in : header_mapped th memory 4096.
Proof. split_and!; [done | done |]. apply mapped_dec_true. by vm_compute. Qed.

Lemma no_runs : counts_ok th memory 4096.
Proof.
  split; [done |]. intros i Hi. change (all_cores_num th) with 2 in Hi.
  assert (i = 0 \/ i = 1) as [-> | ->] by lia; by vm_compute.
Qed.

Lemma tb_wants_tci_spec_witness :
  exists b, tb_wants_tci tune_default th memory 0 4096 = Some b /\
    (0 < tune_default wasm_hot_num -> b = true).
Proof.
  destruct (tb_wants_tci_spec tune_default th memory 0 4096 header_in no_runs) as (b & H1 & H2).
  exists b. split; [exact H1 | intros H; apply H2; left; exact H].
Defined.
End WantsDemo.

(** ** The decision never faults *)

Lemma sum_from_total th m tb cs acc :
  (forall i, i ∈ cs -> is_Some (load32 m (counter_slot th tb i))) -> is_Some (sum_from th m tb cs acc).
Proof.
  revert acc; induction cs as [| c cs IH]; intros acc Hl; cbn [sum_from]; [done |].
  destruct (Hl c) as [v ->]; [by left |]. cbn [mbind option_bind]. apply IH. intros i Hi. apply Hl. by right.
Qed.

Lemma tb_run_elsewhere_total th m tb : header_mapped th m tb -> is_Some (tb_run_elsewhere th m tb).
Proof.
  intros Hm. destruct (any_other_spec th m (counter_slot th tb) (seqZ 0 (all_cores_num th))) as (b & Eb & _); [| by exists b].
  intros i Hi. by destruct (all_slots_load th m tb i Hm Hi).
Qed.

Lemma tb_wants_tci_total t th m cnt tb : header_mapped th m tb -> is_Some (tb_wants_tci t th m cnt tb).
Proof.
  intros Hm. unfold tb_wants_tci. destruct (cnt <? _); [done |]. destruct (_ <=? cnt); [done |].
  destruct (any_other_spec th m (export_slot tb) (seqZ 0 (all_cores_num th))) as (e & Ee & _).
  { intros i Hi. by destruct (all_slots_load th m tb i Hm Hi). }
  unfold tb_hot_elsewhere, tb_hot_in_sum. rewrite Ee.
  destruct (sum_from_total th m tb (seqZ 0 (all_cores_num th)) 0) as [v ->].
  { intros i Hi. by destruct (all_slots_load th m tb i Hm Hi). }
  destruct (t wasm_hot_share =? 0), e; cbn [mbind option_bind]; try done; destruct (negb _ && _); done.
Qed.
