(* ===== verification/Tci.v ===== *)
(** * The TCI interpreter

    Models the byte-code interpreter of tcg/wasm32.c: guest memory access through
    the software TLB ([tlb_load], [tci_qemu_ld], [tci_qemu_st]), helper calls, and
    the full interpreter [tcg_qemu_tb_exec_tci_full] as a step function over an
    explicit machine state.

    The helper functions of the guest CPU, the MMU slow path and libffi are
    outside this component; [Helpers] is the interface through which the
    interpreter calls them.  A helper returns, longjmps to the CPU loop, or - when
    it runs below the fast interpreter ([bb_fast_tci_depth]) and meets a device
    access that may switch coroutines - sets [bb_force_slow_tci] and longjmps.

    Other vCPU threads do not appear: one thread's interpreter runs on the memory
    as it finds it. *)
From S2P Require Import Prelude BitOps HostUtils Memory TcgCond Opcodes TciDecode Tune TbHeader.

(** ** The interface to helpers *)

Inductive hresult (W A : Type) : Type :=
| HRet (a : A) (m : mem) (w : W)
| HLongjmp (m : mem) (w : W)
| HDefer (m : mem) (w : W).

Arguments HRet {W A} a m w.
Arguments HLongjmp {W A} m w.
Arguments HDefer {W A} m w.

(** What a helper can observe of the interpreter: whether the fast interpreter
    is below it, the return address, the memory and the rest of the machine. *)
Record hinput (W : Type) := { h_depth : Z; h_ra : Z; h_mem : mem; h_world : W }.

Arguments h_depth {W}.
Arguments h_ra {W}.
Arguments h_mem {W}.
Arguments h_world {W}.

(** Where an argument of a libffi call lives. *)
Inductive slot := SReg (i : Z) | SStack (j : Z).

Class Helpers (W : Type) := {
  (** the table index of [helper_lookup_tb_ptr], and the function *)
  lookup_tb_ptr_func : Z;
  helper_lookup_tb_ptr : Z -> hinput W -> hresult W Z;
  (** a helper with at most six arguments, each marked 64-bit or 32-bit, and a
      void, 32-bit or 64-bit result *)
  helper_call : Z -> Z -> list (bool * Z) -> hinput W -> hresult W Z;
  (** the two Int128 shapes: (low, high) words *)
  helper_ret_i128 : Z -> Z -> Z -> Z -> hinput W -> hresult W (Z * Z);
  helper_arg_i128 : Z -> Z -> Z -> Z * Z -> Z -> hinput W -> hresult W unit;
  (** [ffi_call]: stores its result at the stack; sees the registers and slots *)
  ffi_call : Z -> Z -> Z -> list slot -> list Z -> hinput W -> hresult W unit;
  (** argument sizes of a call interface ([cif->arg_types[i]->size]) *)
  cif_sizes : Z -> list Z;
  (** the MMU slow path by access kind ([mop & MO_SSIZE], [mop & MO_SIZE]) *)
  helper_ld_mmu : Z -> Z -> Z -> Z -> Z -> hinput W -> hresult W Z;
  helper_st_mmu : Z -> Z -> Z -> Z -> Z -> Z -> hinput W -> hresult W unit
}.

(** ** Machine state *)

Record tci_state (W : Type) := {
  regs : list Z;                (* the 16 TCG registers, 64-bit *)
  ctx_tb_ptr : Z;               (* ctx.tb_ptr: the block to run next, 0 = leave *)
  tci_tb_ptr : Z;               (* return address of the running helper call *)
  bb_cold_ptr : Z;              (* hot loop met an op it does not run *)
  bb_resume_ptr : Z;            (* single step done, the hot loop continues here *)
  bb_fast_tci_depth : Z;
  bb_force_slow_tci : Z;
  tmem : mem;
  world : W
}.

Arguments regs {W}.
Arguments ctx_tb_ptr {W}.
Arguments tci_tb_ptr {W}.
Arguments bb_cold_ptr {W}.
Arguments bb_resume_ptr {W}.
Arguments bb_fast_tci_depth {W}.
Arguments bb_force_slow_tci {W}.
Arguments tmem {W}.
Arguments world {W}.

(** How a run of the interpreter ends: it returns to the dispatcher, a helper
    longjmps to the CPU loop, an assertion fails, or the WebAssembly code traps. *)
Inductive result (W : Type) : Type :=
| Ret (v : Z) (st : tci_state W)
| Longjmp (st : tci_state W)
| Abort
| Trap.

Arguments Ret {W} v st.
Arguments Longjmp {W} st.
Arguments Abort {W}.
Arguments Trap {W}.

Inductive outcome (W : Type) : Type :=
| Next (pc : Z) (st : tci_state W)
| Done (r : result W).

Arguments Next {W} pc st.
Arguments Done {W} r.

Definition TCG_REG_R0 : Z := 0.
Definition TCG_AREG0 : Z := 14.
Definition TCG_REG_CALL_STACK : Z := 15.

(** The thread's constants: [env], [ctx.stack], its slots and the tunables. *)
Record tci_cfg := { cfg_env : Z; cfg_stack : Z; cfg_thread : wthread; cfg_tune : tune }.

Section State.
Context {W : Type}.
Implicit Type st : tci_state W.

Definition set_regs (v : list Z) st : tci_state W :=
  {| regs := v; ctx_tb_ptr := ctx_tb_ptr st; tci_tb_ptr := tci_tb_ptr st;
     bb_cold_ptr := bb_cold_ptr st; bb_resume_ptr := bb_resume_ptr st;
     bb_fast_tci_depth := bb_fast_tci_depth st; bb_force_slow_tci := bb_force_slow_tci st;
     tmem := tmem st; world := world st |}.

Definition set_ctx_tb_ptr (v : Z) st : tci_state W :=
  {| regs := regs st; ctx_tb_ptr := v; tci_tb_ptr := tci_tb_ptr st;
     bb_cold_ptr := bb_cold_ptr st; bb_resume_ptr := bb_resume_ptr st;
     bb_fast_tci_depth := bb_fast_tci_depth st; bb_force_slow_tci := bb_force_slow_tci st;
     tmem := tmem st; world := world st |}.

Definition set_tci_tb_ptr (v : Z) st : tci_state W :=
  {| regs := regs st; ctx_tb_ptr := ctx_tb_ptr st; tci_tb_ptr := v;
     bb_cold_ptr := bb_cold_ptr st; bb_resume_ptr := bb_resume_ptr st;
     bb_fast_tci_depth := bb_fast_tci_depth st; bb_force_slow_tci := bb_force_slow_tci st;
     tmem := tmem st; world := world st |}.

Definition set_cold (v : Z) st : tci_state W :=
  {| regs := regs st; ctx_tb_ptr := ctx_tb_ptr st; tci_tb_ptr := tci_tb_ptr st;
     bb_cold_ptr := v; bb_resume_ptr := bb_resume_ptr st;
     bb_fast_tci_depth := bb_fast_tci_depth st; bb_force_slow_tci := bb_force_slow_tci st;
     tmem := tmem st; world := world st |}.

Definition set_resume (v : Z) st : tci_state W :=
  {| regs := regs st; ctx_tb_ptr := ctx_tb_ptr st; tci_tb_ptr := tci_tb_ptr st;
     bb_cold_ptr := bb_cold_ptr st; bb_resume_ptr := v;
     bb_fast_tci_depth := bb_fast_tci_depth st; bb_force_slow_tci := bb_force_slow_tci st;
     tmem := tmem st; world := world st |}.

Definition set_depth (v : Z) st : tci_state W :=
  {| regs := regs st; ctx_tb_ptr := ctx_tb_ptr st; tci_tb_ptr := tci_tb_ptr st;
     bb_cold_ptr := bb_cold_ptr st; bb_resume_ptr := bb_resume_ptr st;
     bb_fast_tci_depth := v; bb_force_slow_tci := bb_force_slow_tci st;
     tmem := tmem st; world := world st |}.

Definition set_force (v : Z) st : tci_state W :=
  {| regs := regs st; ctx_tb_ptr := ctx_tb_ptr st; tci_tb_ptr := tci_tb_ptr st;
     bb_cold_ptr := bb_cold_ptr st; bb_resume_ptr := bb_resume_ptr st;
     bb_fast_tci_depth := bb_fast_tci_depth st; bb_force_slow_tci := v;
     tmem := tmem st; world := world st |}.

Definition set_mem (v : mem) st : tci_state W :=
  {| regs := regs st; ctx_tb_ptr := ctx_tb_ptr st; tci_tb_ptr := tci_tb_ptr st;
     bb_cold_ptr := bb_cold_ptr st; bb_resume_ptr := bb_resume_ptr st;
     bb_fast_tci_depth := bb_fast_tci_depth st; bb_force_slow_tci := bb_force_slow_tci st;
     tmem := v; world := world st |}.

Definition set_mw (m : mem) (w : W) st : tci_state W :=
  {| regs := regs st; ctx_tb_ptr := ctx_tb_ptr st; tci_tb_ptr := tci_tb_ptr st;
     bb_cold_ptr := bb_cold_ptr st; bb_resume_ptr := bb_resume_ptr st;
     bb_fast_tci_depth := bb_fast_tci_depth st; bb_force_slow_tci := bb_force_slow_tci st;
     tmem := m; world := w |}.

(** [regs[r]] and [regs[r] = v]. *)
Definition rd st (r : Z) : Z := regs st !!! Z.to_nat r.
Definition wr (r v : Z) st : tci_state W := set_regs (<[Z.to_nat r := v]> (regs st)) st.

(** The writes of a register pair: [tci_write_reg64]. *)
Definition tci_write_reg64 (high_index low_index value : Z) st : tci_state W :=
  wr high_index (Z.shiftr value 32) (wr low_index (u32 value) st).

Definition tci_uint64 (high low : Z) : Z := u64 (u64 (Z.shiftl high 32) + low).

(** A memory read followed by [k]; a store followed by the next instruction. *)
Definition ld (n : nat) st (a : Z) (k : Z -> outcome W) : outcome W :=
  match load n (tmem st) a with Some v => k v | None => Done Trap end.

Definition sto (n : nat) st (a v : Z) (k : tci_state W -> outcome W) : outcome W :=
  match store n (tmem st) a v with Some m => k (set_mem m st) | None => Done Trap end.

(** A comparison or a trapping division followed by [k]. *)
Definition cmp (c : option bool) (k : bool -> outcome W) : outcome W :=
  match c with Some b => k b | None => Done Abort end.

Definition quo (q : option Z) (k : Z -> outcome W) : outcome W :=
  match q with Some v => k v | None => Done Trap end.

(** An [assert] of bitops.h on a bit-field's position. *)
Definition asserting (b : bool) (o : outcome W) : outcome W := if b then o else Done Abort.

Definition hin st (ra : Z) : hinput W :=
  {| h_depth := bb_fast_tci_depth st; h_ra := ra; h_mem := tmem st; h_world := world st |}.

(** A helper's three ways back. *)
Definition helped {A} st (h : hresult W A) (k : A -> tci_state W -> outcome W) : outcome W :=
  match h with
  | HRet a m w => k a (set_mw m w st)
  | HLongjmp m w => Done (Longjmp (set_mw m w st))
  | HDefer m w => Done (Longjmp (set_force 1 (set_mw m w st)))
  end.

End State.

(** ** Guest memory access *)

Definition CPU_TLB_ENTRY_BITS : Z := 5.
Definition TLB_ADDR_READ : Z := 0.
Definition TLB_ADDR_WRITE : Z := 8.
Definition TLB_ADDEND : Z := 24.

Definition MO_SIZE : Z := 7.
Definition MO_SIGN : Z := 8.
Definition MO_SSIZE : Z := Z.lor MO_SIZE MO_SIGN.

Definition make_memop_idx (op idx : Z) : Z := Z.lor (u32 (Z.shiftl op 4)) idx.
Definition get_memop (oi : Z) : Z := Z.shiftr oi 4.
Definition get_mmuidx (oi : Z) : Z := Z.land oi 15.

(** The address of the TLB entry of [taddr].  The mask and table of the fast
    descriptor are 32-bit words that the code reads with 64-bit loads. *)
Definition tlb_entry (m : mem) (env taddr mask_ofs table_ofs page_bits : Z) : option Z :=
  let tmp0 := Z.shiftr taddr (page_bits - CPU_TLB_ENTRY_BITS) in
  tmp2 ← load64 m (u32 (env + mask_ofs));
  tmp2_b ← load64 m (u32 (env + table_ofs));
  Some (u64 (Z.land tmp0 tmp2 + tmp2_b)).

(** The host address of a guest access, or 0 on a miss; [ptr] is the
    instruction's pool entry. *)
Definition tlb_load (m : mem) (env taddr mop ptr : Z) (is_ld : bool) : option Z :=
  a_mask ← load64 m (u32 (ptr + 8 * 3));
  mask_ofs ← load64 m (u32 (ptr + 8 * 4));
  page_bits ← load64 m (u32 (ptr + 8 * 5));
  page_mask ← load64 m (u32 (ptr + 8 * 6));
  table_ofs ← load64 m (u32 (ptr + 8 * 7));
  let a_mask := u32 a_mask in
  let s_bits := Z.land mop MO_SIZE in
  let s_mask := u32 (u32 (Z.shiftl 1 s_bits) - 1) in
  tmp3 ← tlb_entry m env taddr (s32 mask_ofs) (s32 table_ofs) (s8 page_bits);
  let off := if is_ld then TLB_ADDR_READ else TLB_ADDR_WRITE in
  target ← load64 m (u32 (tmp3 + off));
  let c_addr := if a_mask <? s_mask then u64 (taddr + (s_mask - a_mask)) else taddr in
  let compare_mask := Z.lor page_mask a_mask in
  let c_addr := Z.land c_addr compare_mask in
  if c_addr =? target then
    addend ← load32 m (u32 (tmp3 + TLB_ADDEND));
    Some (u64 (taddr + s32 addend))
  else Some 0.

Section Guest.
Context {W : Type} `{!Helpers W}.
Implicit Type st : tci_state W.

Definition tci_qemu_ld (env taddr oi tb_ptr ptr : Z) st
    (k : Z -> tci_state W -> outcome W) : outcome W :=
  let mop := get_memop oi in
  let kind := Z.land mop MO_SSIZE in
  match tlb_load (tmem st) env taddr mop ptr true with
  | None => Done Trap
  | Some target_addr =>
      if negb (target_addr =? 0) then
        let a := u32 target_addr in
        if kind =? 0 then ld 1 st a (fun v => k v st)
        else if kind =? 8 then ld 1 st a (fun v => k (u64 (s8 v)) st)
        else if kind =? 1 then ld 2 st a (fun v => k v st)
        else if kind =? 9 then ld 2 st a (fun v => k (u64 (s16 v)) st)
        else if kind =? 2 then ld 4 st a (fun v => k v st)
        else if kind =? 10 then ld 4 st a (fun v => k (u64 (s32 v)) st)
        else if kind =? 3 then ld 8 st a (fun v => k v st)
        else Done Abort
      else
        if bool_decide (kind ∈ [0; 8; 1; 9; 2; 10; 3]) then
          helped st (helper_ld_mmu kind env taddr oi tb_ptr (hin st tb_ptr)) (fun v => k (u64 v))
        else Done Abort
  end.

Definition tci_qemu_st (env taddr val oi tb_ptr ptr : Z) st
    (k : tci_state W -> outcome W) : outcome W :=
  let mop := get_memop oi in
  let kind := Z.land mop MO_SIZE in
  match tlb_load (tmem st) env taddr mop ptr false with
  | None => Done Trap
  | Some target_addr =>
      if negb (target_addr =? 0) then
        let a := u32 target_addr in
        if kind =? 0 then sto 1 st a (u8 val) k
        else if kind =? 1 then sto 2 st a (u16 val) k
        else if kind =? 2 then sto 4 st a (u32 val) k
        else if kind =? 3 then sto 8 st a val k
        else Done Abort
      else
        if bool_decide (kind ∈ [0; 1; 2; 3]) then
          helped st (helper_st_mmu kind env taddr val oi tb_ptr (hin st tb_ptr)) (fun _ => k)
        else Done Abort
  end.

(** The operands of a guest access live in the pool entry: two registers and
    the access description. *)
Definition tci_args_ldst (insn tb_ptr : Z) st
    (k : Z -> Z -> Z -> Z -> outcome W) : outcome W :=
  let l0 := tci_args_l insn tb_ptr in
  ld 8 st l0 (fun d0 =>
  ld 8 st (u32 (l0 + 8)) (fun d1 =>
  ld 8 st (u32 (l0 + 16)) (fun d2 =>
    let r0 := u32 d0 in
    let r1 := u32 d1 in
    if (r0 <? 16) && (r1 <? 16) then k r0 r1 (u32 d2) l0 else Done Trap))).

(** ** Helper calls *)

Definition div_round_up (n d : Z) : Z := (n + d - 1) / d.

(** [call_slots]: five argument registers from R8, then the stack. *)
Fixpoint call_slots (sizes : list Z) (reg_idx stack_idx : Z) : list slot :=
  match sizes with
  | [] => []
  | sz :: sizes =>
      if reg_idx <? 5
      then SReg (8 + reg_idx) :: call_slots sizes (reg_idx + div_round_up sz 8) stack_idx
      else SStack stack_idx :: call_slots sizes reg_idx (stack_idx + div_round_up sz 8)
  end.

Definition slot64 (stack : Z) st (s : slot) (k : Z -> outcome W) : outcome W :=
  match s with
  | SReg i => k (rd st i)
  | SStack j => ld 8 st (u32 (stack + 8 * j)) k
  end.

(** The slot read as a 32-bit word. *)
Definition slot32 (stack : Z) st (s : slot) (k : Z -> outcome W) : outcome W :=
  match s with
  | SReg i => k (u32 (rd st i))
  | SStack j => ld 4 st (u32 (stack + 8 * j)) k
  end.

(** The loop that gathers the arguments of a direct call; [k None] when a shape
    is not simple. *)
Fixpoint simple_args (stack : Z) st (sizes : list Z) (slots : list slot) (i mask : Z)
    (av : list Z) (k : option (Z * list Z) -> outcome W) : outcome W :=
  match sizes, slots with
  | sz :: sizes, s :: slots =>
      if sz =? 8 then
        slot64 stack st s (fun v =>
          simple_args stack st sizes slots (i + 1) (Z.lor mask (Z.shiftl 1 i)) (av ++ [v]) k)
      else if sz <=? 4 then
        slot32 stack st s (fun v => simple_args stack st sizes slots (i + 1) mask (av ++ [v]) k)
      else k None
  | _, _ => k (Some (mask, av))
  end.

(** [tci_direct_call]: the typed call of every shape of at most six 32- or
    64-bit arguments and result kind [rk]; [None] when there is no such case. *)
Definition tci_direct_call (func n mask rk : Z) (av : list Z) (h : hinput W)
    : option (hresult W Z) :=
  if (0 <=? rk) && (rk <=? 2) && (n <=? 6) && (mask <? 2 ^ n) then
    Some (helper_call func rk
            (imap (fun i a => (Z.testbit mask (Z.of_nat i),
                               if Z.testbit mask (Z.of_nat i) then a else u32 a)) av) h)
  else None.

(** The register write after a direct call with result kind [rk]. *)
Definition direct_result (rk rv : Z) st : tci_state W :=
  if rk =? 1 then wr TCG_REG_R0 (u32 rv) st
  else if rk =? 2 then wr TCG_REG_R0 (u64 rv) st
  else st.

End Guest.

(** ** The full interpreter *)

Module Full.
Section Full.
Context {W : Type} `{!Helpers W}.
Context (cfg : tci_cfg) (single : bool).
Implicit Type st : tci_state W.

(** The libffi call and the widening of its result, left at [stack]. *)
Definition call_ffi (len func cif tb_ptr : Z) (slots : list slot) st : outcome W :=
  let stack := cfg_stack cfg in
  helped st (ffi_call cif func stack slots (regs st) (hin st tb_ptr)) (fun _ st =>
    if len =? 0 then Next tb_ptr st
    else if len =? 1 then ld 4 st stack (fun v => Next tb_ptr (wr TCG_REG_R0 v st))
    else if len =? 2 then ld 8 st stack (fun v => Next tb_ptr (wr TCG_REG_R0 v st))
    else if len =? 3 then
      ld 8 st stack (fun lo => ld 8 st (u32 (stack + 8)) (fun hi =>
        Next tb_ptr (wr (TCG_REG_R0 + 1) hi (wr TCG_REG_R0 lo st))))
    else Done Abort).

Definition next_slot (s : slot) : slot :=
  match s with SReg i => SReg (i + 1) | SStack j => SStack (j + 1) end.

(** The two Int128 shapes, before falling back to libffi. *)
Definition call_i128 (len func cif tb_ptr : Z) (sizes : list Z) (slots : list slot) st : outcome W :=
  let stack := cfg_stack cfg in
  let h := hin st tb_ptr in
  match sizes, slots with
  | [z0; z1; z2], [s0; s1; s2] =>
      if (len =? 3) && (z0 <=? 4) && (z1 =? 8) && (z2 <=? 4) then
        slot32 stack st s0 (fun a0 => slot64 stack st s1 (fun a1 => slot32 stack st s2 (fun a2 =>
          helped st (helper_ret_i128 func a0 a1 a2 h) (fun r st =>
            Next tb_ptr (wr (TCG_REG_R0 + 1) (snd r) (wr TCG_REG_R0 (fst r) st))))))
      else call_ffi len func cif tb_ptr slots st
  | [z0; z1; z2; z3], [s0; s1; s2; s3] =>
      if (len =? 0) && (z0 <=? 4) && (z1 =? 8) && (z2 =? 16) && (z3 <=? 4) then
        slot64 stack st s2 (fun lo => slot64 stack st (next_slot s2) (fun hi =>
        slot32 stack st s0 (fun a0 => slot64 stack st s1 (fun a1 => slot32 stack st s3 (fun a3 =>
          helped st (helper_arg_i128 func a0 a1 (lo, hi) a3 h) (fun _ st => Next tb_ptr st))))))
      else call_ffi len func cif tb_ptr slots st
  | _, _ => call_ffi len func cif tb_ptr slots st
  end.

(** [INDEX_op_call].  [tb_ptr] is the address after the instruction. *)
Definition op_call (insn tb_ptr : Z) st : outcome W :=
  let stack := cfg_stack cfg in
  let '(len, ptr) := tci_args_nl insn tb_ptr in
  ld 8 st ptr (fun d0 =>
  ld 8 st (u32 (ptr + 8)) (fun d1 =>
  let func := u32 d0 in
  let cif := u32 d1 in
  if func =? u32 lookup_tb_ptr_func then
    helped st (helper_lookup_tb_ptr (u32 (rd st 8)) (hin st (tci_tb_ptr st)))
      (fun v st => Next tb_ptr (wr TCG_REG_R0 (u32 v) st))
  else
    let sizes := cif_sizes cif in
    let n := Z.of_nat (length sizes) in
    let slots := call_slots sizes 0 0 in
    let st := set_tci_tb_ptr tb_ptr st in
    if (n <=? 6) && (len <=? 2) then
      simple_args stack st sizes slots 0 0 [] (fun simple =>
        match simple with
        | Some (mask, av) =>
            match tci_direct_call func n mask len av (hin st tb_ptr) with
            | Some r => helped st r (fun rv st => Next tb_ptr (direct_result len rv st))
            | None => call_i128 len func cif tb_ptr sizes slots st
            end
        | None => call_i128 len func cif tb_ptr sizes slots st
        end)
    else call_i128 len func cif tb_ptr sizes slots st)).

(** Branches, comparisons and moves. *)
Definition op_mov (opc : TCGOpcode) (insn tb_ptr : Z) st : option (outcome W) :=
  let next st := Some (Next tb_ptr st) in
  match opc with
  | INDEX_op_br => Some (Next (tci_args_br insn tb_ptr) st)
  | INDEX_op_setcond_i32 =>
      let '(r0, r1, r2, condition) := tci_args_rrrc insn in
      Some (cmp (tci_compare32 (u32 (rd st r1)) (u32 (rd st r2)) condition)
              (fun b => Next tb_ptr (wr r0 (b2z b) st)))
  | INDEX_op_movcond_i32 =>
      let '(r0, r1, r2, r3, r4, condition) := tci_args_rrrrrc insn in
      Some (cmp (tci_compare32 (u32 (rd st r1)) (u32 (rd st r2)) condition)
              (fun b => Next tb_ptr (wr r0 (rd st (if b : bool then r3 else r4)) st)))
  | INDEX_op_setcond_i64 =>
      let '(r0, r1, r2, condition) := tci_args_rrrc insn in
      Some (cmp (tci_compare64 (rd st r1) (rd st r2) condition)
              (fun b => Next tb_ptr (wr r0 (b2z b) st)))
  | INDEX_op_movcond_i64 =>
      let '(r0, r1, r2, r3, r4, condition) := tci_args_rrrrrc insn in
      Some (cmp (tci_compare64 (rd st r1) (rd st r2) condition)
              (fun b => Next tb_ptr (wr r0 (rd st (if b : bool then r3 else r4)) st)))
  | INDEX_op_mov_i32 | INDEX_op_mov_i64 =>
      let '(r0, r1) := tci_args_rr insn in next (wr r0 (rd st r1) st)
  | INDEX_op_tci_movi => let '(r0, t1) := tci_args_ri insn in next (wr r0 t1 st)
  | INDEX_op_tci_movl =>
      let '(r0, ptr) := tci_args_rl insn tb_ptr in
      Some (ld 8 st ptr (fun v => Next tb_ptr (wr r0 v st)))
  | _ => None
  end.

(** Host loads and stores: [n] bytes at [regs[r1] + ofs], extended by [ext]. *)
Definition do_ld (n : nat) (ext : Z -> Z) (insn tb_ptr : Z) st : outcome W :=
  let '(r0, r1, ofs) := tci_args_rrs insn in
  ld n st (u32 (rd st r1 + ofs)) (fun v => Next tb_ptr (wr r0 (ext v) st)).

Definition do_st (n : nat) (insn tb_ptr : Z) st : outcome W :=
  let '(r0, r1, ofs) := tci_args_rrs insn in
  sto n st (u32 (rd st r1 + ofs)) (rd st r0) (Next tb_ptr).

Definition op_ldst (opc : TCGOpcode) (insn tb_ptr : Z) st : option (outcome W) :=
  match opc with
  | INDEX_op_ld8u_i32 | INDEX_op_ld8u_i64 => Some (do_ld 1 id insn tb_ptr st)
  | INDEX_op_ld8s_i32 | INDEX_op_ld8s_i64 => Some (do_ld 1 (fun v => u64 (s8 v)) insn tb_ptr st)
  | INDEX_op_ld16u_i32 | INDEX_op_ld16u_i64 => Some (do_ld 2 id insn tb_ptr st)
  | INDEX_op_ld16s_i32 | INDEX_op_ld16s_i64 => Some (do_ld 2 (fun v => u64 (s16 v)) insn tb_ptr st)
  | INDEX_op_ld_i32 | INDEX_op_ld32u_i64 => Some (do_ld 4 id insn tb_ptr st)
  | INDEX_op_st8_i32 | INDEX_op_st8_i64 => Some (do_st 1 insn tb_ptr st)
  | INDEX_op_st16_i32 | INDEX_op_st16_i64 => Some (do_st 2 insn tb_ptr st)
  | INDEX_op_st_i32 | INDEX_op_st32_i64 => Some (do_st 4 insn tb_ptr st)
  | INDEX_op_ld32s_i64 => Some (do_ld 4 (fun v => u64 (s32 v)) insn tb_ptr st)
  | INDEX_op_ld_i64 => Some (do_ld 8 id insn tb_ptr st)
  | INDEX_op_st_i64 => Some (do_st 8 insn tb_ptr st)
  | _ => None
  end.

(** [regs[r0] = f(regs[r1], regs[r2])] and [regs[r0] = f(regs[r1])]. *)
Definition do_rrr (f : Z -> Z -> Z) (insn tb_ptr : Z) st : outcome W :=
  let '(r0, r1, r2) := tci_args_rrr insn in Next tb_ptr (wr r0 (f (rd st r1) (rd st r2)) st).

Definition do_rr (f : Z -> Z) (insn tb_ptr : Z) st : outcome W :=
  let '(r0, r1) := tci_args_rr insn in Next tb_ptr (wr r0 (f (rd st r1)) st).

(** Divisions: the quotient as a 64-bit register value. *)
Definition do_div (f : Z -> Z -> option Z) (insn tb_ptr : Z) st : outcome W :=
  let '(r0, r1, r2) := tci_args_rrr insn in
  quo (f (rd st r1) (rd st r2)) (fun v => Next tb_ptr (wr r0 (u64 v) st)).

(** Mixed 32/64-bit arithmetic. *)
Definition op_arith (opc : TCGOpcode) (insn tb_ptr : Z) st : option (outcome W) :=
  let bin f := Some (do_rrr f insn tb_ptr st) in
  match opc with
  | INDEX_op_add_i32 | INDEX_op_add_i64 => bin (fun a b => u64 (a + b))
  | INDEX_op_sub_i32 | INDEX_op_sub_i64 => bin (fun a b => u64 (a - b))
  | INDEX_op_mul_i32 | INDEX_op_mul_i64 => bin (fun a b => u64 (a * b))
  | INDEX_op_and_i32 | INDEX_op_and_i64 => bin Z.land
  | INDEX_op_or_i32 | INDEX_op_or_i64 => bin Z.lor
  | INDEX_op_xor_i32 | INDEX_op_xor_i64 => bin Z.lxor
  | INDEX_op_andc_i32 | INDEX_op_andc_i64 => bin (fun a b => Z.land a (unot 64 b))
  | INDEX_op_orc_i32 | INDEX_op_orc_i64 => bin (fun a b => Z.lor a (unot 64 b))
  | INDEX_op_eqv_i32 | INDEX_op_eqv_i64 => bin (fun a b => unot 64 (Z.lxor a b))
  | INDEX_op_nand_i32 | INDEX_op_nand_i64 => bin (fun a b => unot 64 (Z.land a b))
  | INDEX_op_nor_i32 | INDEX_op_nor_i64 => bin (fun a b => unot 64 (Z.lor a b))
  | _ => None
  end.

(** 32-bit arithmetic, shifts, bit fields and double-word operations. *)
Definition op_i32 (opc : TCGOpcode) (insn tb_ptr : Z) st : option (outcome W) :=
  let bin f := Some (do_rrr f insn tb_ptr st) in
  match opc with
  | INDEX_op_div_i32 => Some (do_div (fun a b => sdiv 32 (s32 a) (s32 b)) insn tb_ptr st)
  | INDEX_op_divu_i32 => Some (do_div (fun a b => udiv (u32 a) (u32 b)) insn tb_ptr st)
  | INDEX_op_rem_i32 => Some (do_div (fun a b => srem 32 (s32 a) (s32 b)) insn tb_ptr st)
  | INDEX_op_remu_i32 => Some (do_div (fun a b => urem (u32 a) (u32 b)) insn tb_ptr st)
  | INDEX_op_clz_i32 => bin (fun a b => if u32 a =? 0 then b else clz32 (u32 a))
  | INDEX_op_ctz_i32 => bin (fun a b => if u32 a =? 0 then b else ctz32 (u32 a))
  | INDEX_op_ctpop_i32 => Some (do_rr (fun a => ctpop32 (u32 a)) insn tb_ptr st)
  | INDEX_op_shl_i32 => bin (fun a b => u32 (Z.shiftl (u32 a) (Z.land b 31)))
  | INDEX_op_shr_i32 => bin (fun a b => Z.shiftr (u32 a) (Z.land b 31))
  | INDEX_op_sar_i32 => bin (fun a b => u64 (Z.shiftr (s32 a) (Z.land b 31)))
  | INDEX_op_rotl_i32 => bin (fun a b => rol32 (u32 a) (Z.land b 31))
  | INDEX_op_rotr_i32 => bin (fun a b => ror32 (u32 a) (Z.land b 31))
  | INDEX_op_deposit_i32 =>
      let '(r0, r1, r2, pos, len) := tci_args_rrrbb insn in
      Some (asserting (bitfield_ok 32 pos len)
              (Next tb_ptr (wr r0 (deposit32 (u32 (rd st r1)) pos len (u32 (rd st r2))) st)))
  | INDEX_op_extract_i32 =>
      let '(r0, r1, pos, len) := tci_args_rrbb insn in
      Some (asserting (bitfield_ok 32 pos len)
              (Next tb_ptr (wr r0 (extract32 (u32 (rd st r1)) pos len) st)))
  | INDEX_op_sextract_i32 =>
      let '(r0, r1, pos, len) := tci_args_rrbb insn in
      Some (asserting (bitfield_ok 32 pos len)
              (Next tb_ptr (wr r0 (u64 (sextract32 (u32 (rd st r1)) pos len)) st)))
  | INDEX_op_brcond_i32 =>
      let '(r0, ptr) := tci_args_rl insn tb_ptr in
      Some (Next (if u32 (rd st r0) =? 0 then tb_ptr else ptr) st)
  | INDEX_op_add2_i32 =>
      let '(r0, r1, r2, r3, r4, r5) := tci_args_rrrrrr insn in
      let T1 := tci_uint64 (u32 (rd st r3)) (u32 (rd st r2)) in
      let T2 := tci_uint64 (u32 (rd st r5)) (u32 (rd st r4)) in
      Some (Next tb_ptr (tci_write_reg64 r1 r0 (u64 (T1 + T2)) st))
  | INDEX_op_sub2_i32 =>
      let '(r0, r1, r2, r3, r4, r5) := tci_args_rrrrrr insn in
      let T1 := tci_uint64 (u32 (rd st r3)) (u32 (rd st r2)) in
      let T2 := tci_uint64 (u32 (rd st r5)) (u32 (rd st r4)) in
      Some (Next tb_ptr (tci_write_reg64 r1 r0 (u64 (T1 - T2)) st))
  | INDEX_op_mulu2_i32 =>
      let '(r0, r1, r2, r3) := tci_args_rrrr insn in
      Some (Next tb_ptr (tci_write_reg64 r1 r0 (u64 (u32 (rd st r2) * u32 (rd st r3))) st))
  | INDEX_op_muls2_i32 =>
      let '(r0, r1, r2, r3) := tci_args_rrrr insn in
      Some (Next tb_ptr (tci_write_reg64 r1 r0 (u64 (s32 (rd st r2) * s32 (rd st r3))) st))
  | _ => None
  end.

(** Extensions, byte swaps, complement and negation. *)
Definition op_ext (opc : TCGOpcode) (insn tb_ptr : Z) st : option (outcome W) :=
  let un f := Some (do_rr f insn tb_ptr st) in
  match opc with
  | INDEX_op_ext8s_i32 | INDEX_op_ext8s_i64 => un (fun a => u64 (s8 a))
  | INDEX_op_ext16s_i32 | INDEX_op_ext16s_i64 => un (fun a => u64 (s16 a))
  | INDEX_op_ext8u_i32 | INDEX_op_ext8u_i64 => un u8
  | INDEX_op_ext16u_i32 | INDEX_op_ext16u_i64 => un u16
  | INDEX_op_bswap16_i32 | INDEX_op_bswap16_i64 => un bswap16
  | INDEX_op_bswap32_i32 | INDEX_op_bswap32_i64 => un bswap32
  | INDEX_op_not_i32 | INDEX_op_not_i64 => un (unot 64)
  | INDEX_op_neg_i32 | INDEX_op_neg_i64 => un (fun a => u64 (- a))
  | _ => None
  end.

(** 64-bit arithmetic, shifts, bit fields and double-word operations. *)
Definition op_i64 (opc : TCGOpcode) (insn tb_ptr : Z) st : option (outcome W) :=
  let bin f := Some (do_rrr f insn tb_ptr st) in
  let un f := Some (do_rr f insn tb_ptr st) in
  match opc with
  | INDEX_op_div_i64 => Some (do_div (fun a b => sdiv 64 (s64 a) (s64 b)) insn tb_ptr st)
  | INDEX_op_divu_i64 => Some (do_div udiv insn tb_ptr st)
  | INDEX_op_rem_i64 => Some (do_div (fun a b => srem 64 (s64 a) (s64 b)) insn tb_ptr st)
  | INDEX_op_remu_i64 => Some (do_div urem insn tb_ptr st)
  | INDEX_op_clz_i64 => bin (fun a b => if a =? 0 then b else clz64 a)
  | INDEX_op_ctz_i64 => bin (fun a b => if a =? 0 then b else ctz64 a)
  | INDEX_op_ctpop_i64 => un ctpop64
  | INDEX_op_add2_i64 =>
      let '(r0, r1, r2, r3, r4, r5) := tci_args_rrrrrr insn in
      let T1 := u64 (rd st r2 + rd st r4) in
      let T2 := u64 (rd st r3 + rd st r5 + b2z (T1 <? rd st r2)) in
      Some (Next tb_ptr (wr r1 T2 (wr r0 T1 st)))
  | INDEX_op_sub2_i64 =>
      let '(r0, r1, r2, r3, r4, r5) := tci_args_rrrrrr insn in
      let T1 := u64 (rd st r2 - rd st r4) in
      let T2 := u64 (rd st r3 - rd st r5 - b2z (rd st r2 <? rd st r4)) in
      Some (Next tb_ptr (wr r1 T2 (wr r0 T1 st)))
  | INDEX_op_shl_i64 => bin (fun a b => u64 (Z.shiftl a (Z.land b 63)))
  | INDEX_op_shr_i64 => bin (fun a b => Z.shiftr a (Z.land b 63))
  | INDEX_op_sar_i64 => bin (fun a b => u64 (Z.shiftr (s64 a) (Z.land b 63)))
  | INDEX_op_rotl_i64 => bin (fun a b => rol64 a (Z.land b 63))
  | INDEX_op_rotr_i64 => bin (fun a b => ror64 a (Z.land b 63))
  | INDEX_op_deposit_i64 =>
      let '(r0, r1, r2, pos, len) := tci_args_rrrbb insn in
      Some (asserting (bitfield_ok 64 pos len)
              (Next tb_ptr (wr r0 (deposit64 (rd st r1) pos len (rd st r2)) st)))
  | INDEX_op_extract_i64 =>
      let '(r0, r1, pos, len) := tci_args_rrbb insn in
      Some (asserting (bitfield_ok 64 pos len)
              (Next tb_ptr (wr r0 (extract64 (rd st r1) pos len) st)))
  | INDEX_op_sextract_i64 =>
      let '(r0, r1, pos, len) := tci_args_rrbb insn in
      Some (asserting (bitfield_ok 64 pos len)
              (Next tb_ptr (wr r0 (u64 (sextract64 (rd st r1) pos len)) st)))
  | INDEX_op_brcond_i64 =>
      let '(r0, ptr) := tci_args_rl insn tb_ptr in
      Some (Next (if rd st r0 =? 0 then tb_ptr else ptr) st)
  | INDEX_op_ext32s_i64 | INDEX_op_ext_i32_i64 => un (fun a => u64 (s32 a))
  | INDEX_op_ext32u_i64 | INDEX_op_extu_i32_i64 => un u32
  | INDEX_op_bswap64_i64 => un bswap64
  | _ => None
  end.

(** Chaining into the block at [tb]: interpret it, or return so that the
    dispatcher enters (or builds) its compiled code. *)
Definition chain_to (tb : Z) st : outcome W :=
  let th := cfg_thread cfg in
  let st := set_ctx_tb_ptr tb st in
  let tb_counter_ptr := u32 (tb + counter_vec_off th) in
  ld 4 st tb_counter_ptr (fun c =>
    let c := s32 c in
    if c <? 0 then Done (Ret 0 st)
    else
      match tb_wants_tci (cfg_tune cfg) th (tmem st) c tb with
      | None => Done Trap
      | Some false => Done (Ret 0 st)
      | Some true =>
          sto 4 st tb_counter_ptr (u32 (c + 1)) (fun st =>
          ld 4 st tb (fun off =>
            let tb_ptr := u32 (tb + off) in
            if single then Done (Ret 0 (set_resume tb_ptr st)) else Next tb_ptr st))
      end).

(** Leaving and chaining. *)
Definition op_tb (opc : TCGOpcode) (insn tb_ptr : Z) st : option (outcome W) :=
  match opc with
  | INDEX_op_exit_tb =>
      Some (Done (Ret (tci_args_l insn tb_ptr) (set_ctx_tb_ptr 0 st)))
  | INDEX_op_goto_tb =>
      Some (ld 4 st (tci_args_l insn tb_ptr) (fun tb =>
        if tb =? 0 then Next tb_ptr st else chain_to tb st))
  | INDEX_op_goto_ptr =>
      let ptr := u32 (rd st (tci_args_r insn)) in
      Some (if ptr =? 0 then Done (Ret 0 (set_ctx_tb_ptr 0 st)) else chain_to ptr st)
  | _ => None
  end.

Definition do_qemu_ld (addr : Z -> Z) (insn tb_ptr : Z) st : outcome W :=
  tci_args_ldst insn tb_ptr st (fun r0 r1 oi ptr =>
    tci_qemu_ld (cfg_env cfg) (addr (rd st r1)) oi tb_ptr ptr st
      (fun v st => Next tb_ptr (wr r0 v st))).

Definition do_qemu_st (addr : Z -> Z) (insn tb_ptr : Z) st : outcome W :=
  tci_args_ldst insn tb_ptr st (fun r0 r1 oi ptr =>
    tci_qemu_st (cfg_env cfg) (addr (rd st r1)) (rd st r0) oi tb_ptr ptr st (Next tb_ptr)).

(** Guest loads and stores, by address width; memory barriers. *)
Definition op_qemu (opc : TCGOpcode) (insn tb_ptr : Z) st : option (outcome W) :=
  match opc with
  | INDEX_op_qemu_ld_a32_i32 | INDEX_op_qemu_ld_a32_i64 => Some (do_qemu_ld u32 insn tb_ptr st)
  | INDEX_op_qemu_ld_a64_i32 | INDEX_op_qemu_ld_a64_i64 => Some (do_qemu_ld id insn tb_ptr st)
  | INDEX_op_qemu_st_a32_i32 | INDEX_op_qemu_st_a32_i64 => Some (do_qemu_st u32 insn tb_ptr st)
  | INDEX_op_qemu_st_a64_i32 | INDEX_op_qemu_st_a64_i64 => Some (do_qemu_st id insn tb_ptr st)
  | INDEX_op_mb => Some (Next tb_ptr st)
  | _ => None
  end.

Definition or_else (a : option (outcome W)) (b : outcome W) : outcome W :=
  match a with Some o => o | None => b end.

(** The groups in order; an opcode without a case fails [g_assert_not_reached]. *)
Definition exec_rest (opc : TCGOpcode) (insn tb_ptr : Z) st : outcome W :=
  or_else (op_mov opc insn tb_ptr st)
 (or_else (op_ldst opc insn tb_ptr st)
 (or_else (op_arith opc insn tb_ptr st)
 (or_else (op_i32 opc insn tb_ptr st)
 (or_else (op_ext opc insn tb_ptr st)
 (or_else (op_i64 opc insn tb_ptr st)
 (or_else (op_tb opc insn tb_ptr st)
 (or_else (op_qemu opc insn tb_ptr st) (Done Abort)))))))).

(** The [switch]. *)
Definition exec (opc : TCGOpcode) (insn tb_ptr : Z) st : outcome W :=
  match opc with
  | INDEX_op_call => op_call insn tb_ptr st
  | _ => exec_rest opc insn tb_ptr st
  end.

(** One iteration of the interpreter loop at [pc]. *)
Definition step (pc : Z) st : outcome W :=
  ld 4 st pc (fun insn =>
    match opcode_of_num (tci_opc insn) with
    | Some opc => exec opc insn (u32 (pc + 4)) st
    | None => Done Abort
    end).

(** At most [fuel] iterations; [None] when more are needed. *)
Fixpoint loop (fuel : nat) (pc : Z) st : option (result W) :=
  match fuel with
  | O => None
  | S fuel =>
      match step pc st with
      | Next pc st => loop fuel pc st
      | Done r => Some r
      end
  end.

(** [tcg_qemu_tb_exec_tci_full(env, start, single)]; [start = 0] is [NULL]. *)
Definition tcg_qemu_tb_exec_tci_full (fuel : nat) (start : Z) st : option (result W) :=
  let run tb_ptr :=
    loop fuel tb_ptr (wr TCG_REG_CALL_STACK (cfg_stack cfg) (wr TCG_AREG0 (cfg_env cfg) st)) in
  if start =? 0 then
    match load32 (tmem st) (ctx_tb_ptr st) with
    | Some off => run (u32 (ctx_tb_ptr st + off))
    | None => Some Trap
    end
  else run start.

End Full.
End Full.
