(* ===== verification/TciHot.v ===== *)
(** * The hot loop

    Models the second interpreter of tcg/wasm32.c, [tci_hot_loop]: the operations
    that make up almost all of what is interpreted, in a function small enough for
    the browser's optimizing compiler.  It stops at any other operation
    ([bb_cold_ptr]) and the full interpreter finishes the block.  [tci_exec]
    alternates between the two.  The hot loop has its own code for every operation
    it runs; nothing here is shared with [Full] but the operand decoders, the
    guest memory access and the helper calls that the C code shares. *)
From S2P Require Import Prelude BitOps HostUtils Memory TcgCond Opcodes TciDecode Tune TbHeader Tci.

Section Hot.
Context {W : Type} `{!Helpers W}.
Context (cfg : tci_cfg).
Implicit Type st : tci_state W.

(** The argument loop of [tci_hot_call]: slots are assigned on the way. *)
Fixpoint hot_args (stack : Z) st (sizes : list Z) (reg_idx stack_idx i mask : Z) (av : list Z)
    (k : option (Z * list Z) -> outcome W) : outcome W :=
  match sizes with
  | [] => k (Some (mask, av))
  | sz :: sizes =>
      let '(slot, reg_idx, stack_idx) :=
        if reg_idx <? 5 then (SReg (8 + reg_idx), reg_idx + div_round_up sz 8, stack_idx)
        else (SStack stack_idx, reg_idx, stack_idx + div_round_up sz 8) in
      if sz =? 8 then
        slot64 stack st slot (fun v =>
          hot_args stack st sizes reg_idx stack_idx (i + 1) (Z.lor mask (Z.shiftl 1 i)) (av ++ [v]) k)
      else if sz <=? 4 then
        slot32 stack st slot (fun v =>
          hot_args stack st sizes reg_idx stack_idx (i + 1) mask (av ++ [v]) k)
      else k None
  end.

(** [tci_hot_call]; [k_no] is the path on which it returns 0. *)
Definition tci_hot_call (insn tb_ptr : Z) st (k_no : tci_state W -> outcome W) : outcome W :=
  let stack := cfg_stack cfg in
  let '(len, ptr) := tci_args_nl insn tb_ptr in
  ld 8 st ptr (fun d0 =>
  ld 8 st (u32 (ptr + 8)) (fun d1 =>
  let func := u32 d0 in
  let cif := u32 d1 in
  if func =? u32 lookup_tb_ptr_func then
    helped st (helper_lookup_tb_ptr (u32 (rd st 8)) (hin st (tci_tb_ptr st)))
      (fun v st => Next tb_ptr (wr TCG_REG_R0 (u32 v) st))
  else
    let sizes := cif_sizes cif in
    let n := Z.of_nat (length sizes) in
    if (6 <? n) || (2 <? len) then k_no st
    else
      hot_args stack st sizes 0 0 0 0 [] (fun simple =>
        match simple with
        | None => k_no st
        | Some (mask, av) =>
            let st := set_tci_tb_ptr tb_ptr st in
            match tci_direct_call func n mask len av (hin st tb_ptr) with
            | Some r => helped st r (fun rv st => Next tb_ptr (direct_result len rv st))
            | None => k_no st
            end
        end))).

(** The register operations, comparisons, host loads and stores and branches of
    the [switch]; [None] for the others. *)
Definition hot_reg (opc : TCGOpcode) (insn tb_ptr : Z) st : option (outcome W) :=
  let R r := rd st r in
  let next st := Some (Next tb_ptr st) in
  match opc with
  | INDEX_op_tci_movi => let '(r0, t1) := tci_args_ri insn in next (wr r0 t1 st)
  | INDEX_op_tci_movl =>
      let '(r0, ptr) := tci_args_rl insn tb_ptr in
      Some (ld 8 st ptr (fun v => Next tb_ptr (wr r0 v st)))
  | INDEX_op_mov_i32 | INDEX_op_mov_i64 =>
      let '(r0, r1) := tci_args_rr insn in next (wr r0 (R r1) st)
  | INDEX_op_ld_i64 =>
      let '(r0, r1, ofs) := tci_args_rrs insn in
      Some (ld 8 st (u32 (R r1 + ofs)) (fun v => Next tb_ptr (wr r0 v st)))
  | INDEX_op_ld_i32 | INDEX_op_ld32u_i64 =>
      let '(r0, r1, ofs) := tci_args_rrs insn in
      Some (ld 4 st (u32 (R r1 + ofs)) (fun v => Next tb_ptr (wr r0 v st)))
  | INDEX_op_ld32s_i64 =>
      let '(r0, r1, ofs) := tci_args_rrs insn in
      Some (ld 4 st (u32 (R r1 + ofs)) (fun v => Next tb_ptr (wr r0 (u64 (s32 v)) st)))
  | INDEX_op_ld8u_i32 | INDEX_op_ld8u_i64 =>
      let '(r0, r1, ofs) := tci_args_rrs insn in
      Some (ld 1 st (u32 (R r1 + ofs)) (fun v => Next tb_ptr (wr r0 v st)))
  | INDEX_op_st_i64 =>
      let '(r0, r1, ofs) := tci_args_rrs insn in
      Some (sto 8 st (u32 (R r1 + ofs)) (R r0) (Next tb_ptr))
  | INDEX_op_st_i32 | INDEX_op_st32_i64 =>
      let '(r0, r1, ofs) := tci_args_rrs insn in
      Some (sto 4 st (u32 (R r1 + ofs)) (R r0) (Next tb_ptr))
  | INDEX_op_st8_i32 | INDEX_op_st8_i64 =>
      let '(r0, r1, ofs) := tci_args_rrs insn in
      Some (sto 1 st (u32 (R r1 + ofs)) (R r0) (Next tb_ptr))
  | INDEX_op_add_i32 | INDEX_op_add_i64 =>
      let '(r0, r1, r2) := tci_args_rrr insn in next (wr r0 (u64 (R r1 + R r2)) st)
  | INDEX_op_sub_i32 | INDEX_op_sub_i64 =>
      let '(r0, r1, r2) := tci_args_rrr insn in next (wr r0 (u64 (R r1 - R r2)) st)
  | INDEX_op_and_i32 | INDEX_op_and_i64 =>
      let '(r0, r1, r2) := tci_args_rrr insn in next (wr r0 (Z.land (R r1) (R r2)) st)
  | INDEX_op_or_i32 | INDEX_op_or_i64 =>
      let '(r0, r1, r2) := tci_args_rrr insn in next (wr r0 (Z.lor (R r1) (R r2)) st)
  | INDEX_op_xor_i32 | INDEX_op_xor_i64 =>
      let '(r0, r1, r2) := tci_args_rrr insn in next (wr r0 (Z.lxor (R r1) (R r2)) st)
  | INDEX_op_shl_i64 =>
      let '(r0, r1, r2) := tci_args_rrr insn in
      next (wr r0 (u64 (Z.shiftl (R r1) (Z.land (R r2) 63))) st)
  | INDEX_op_shr_i64 =>
      let '(r0, r1, r2) := tci_args_rrr insn in
      next (wr r0 (Z.shiftr (R r1) (Z.land (R r2) 63)) st)
  | INDEX_op_sar_i64 =>
      let '(r0, r1, r2) := tci_args_rrr insn in
      next (wr r0 (u64 (Z.shiftr (s64 (R r1)) (Z.land (R r2) 63))) st)
  | INDEX_op_ext32u_i64 | INDEX_op_extu_i32_i64 =>
      let '(r0, r1) := tci_args_rr insn in next (wr r0 (u32 (R r1)) st)
  | INDEX_op_ext32s_i64 | INDEX_op_ext_i32_i64 =>
      let '(r0, r1) := tci_args_rr insn in next (wr r0 (u64 (s32 (R r1))) st)
  | INDEX_op_ext8u_i64 => let '(r0, r1) := tci_args_rr insn in next (wr r0 (u8 (R r1)) st)
  | INDEX_op_deposit_i64 =>
      let '(r0, r1, r2, pos, len) := tci_args_rrrbb insn in
      Some (asserting (bitfield_ok 64 pos len)
              (Next tb_ptr (wr r0 (deposit64 (R r1) pos len (R r2)) st)))
  | INDEX_op_setcond_i32 =>
      let '(r0, r1, r2, c) := tci_args_rrrc insn in
      Some (cmp (tci_compare32 (u32 (R r1)) (u32 (R r2)) c)
              (fun b => Next tb_ptr (wr r0 (b2z b) st)))
  | INDEX_op_setcond_i64 =>
      let '(r0, r1, r2, c) := tci_args_rrrc insn in
      Some (cmp (tci_compare64 (R r1) (R r2) c) (fun b => Next tb_ptr (wr r0 (b2z b) st)))
  | INDEX_op_movcond_i64 =>
      let '(r0, r1, r2, r3, r4, c) := tci_args_rrrrrc insn in
      Some (cmp (tci_compare64 (R r1) (R r2) c)
              (fun b => Next tb_ptr (wr r0 (R (if b : bool then r3 else r4)) st)))
  | INDEX_op_brcond_i32 =>
      let '(r0, ptr) := tci_args_rl insn tb_ptr in
      Some (Next (if u32 (R r0) =? 0 then tb_ptr else ptr) st)
  | INDEX_op_brcond_i64 =>
      let '(r0, ptr) := tci_args_rl insn tb_ptr in
      Some (Next (if R r0 =? 0 then tb_ptr else ptr) st)
  | INDEX_op_br => Some (Next (tci_args_br insn tb_ptr) st)
  | INDEX_op_mb => next st
  | _ => None
  end.

(** Chaining into another block: unlike the full interpreter in single-step
    mode, the hot loop goes on itself. *)
Definition hot_chain (tb : Z) st : outcome W :=
  let th := cfg_thread cfg in
  let st := set_ctx_tb_ptr tb st in
  let tb_counter_ptr := u32 (tb + counter_vec_off th) in
  ld 4 st tb_counter_ptr (fun c =>
    let c := s32 c in
    if c <? 0 then Done (Ret 0 st)
    else
      match tb_wants_tci (cfg_tune cfg) th (tmem st) c tb with
      | None => Done Trap
      | Some false => Done (Ret 0 st)
      | Some true =>
          sto 4 st tb_counter_ptr (u32 (c + 1)) (fun st =>
          ld 4 st tb (fun off => Next (u32 (tb + off)) st))
      end).

(** Guest accesses, calls, leaving and chaining; an operation the hot loop does
    not run hands over at [op_ptr]. *)
Definition hot_exec (opc : TCGOpcode) (insn op_ptr tb_ptr : Z) st : outcome W :=
  let env := cfg_env cfg in
  let cold st := Done (Ret 0 (set_cold op_ptr st)) in
  match hot_reg opc insn tb_ptr st with
  | Some o => o
  | None =>
      match opc with
      | INDEX_op_qemu_ld_a64_i32 | INDEX_op_qemu_ld_a64_i64 =>
          tci_args_ldst insn tb_ptr st (fun r0 r1 oi ptr =>
            tci_qemu_ld env (rd st r1) oi tb_ptr ptr st (fun v st => Next tb_ptr (wr r0 v st)))
      | INDEX_op_qemu_ld_a32_i32 | INDEX_op_qemu_ld_a32_i64 =>
          tci_args_ldst insn tb_ptr st (fun r0 r1 oi ptr =>
            tci_qemu_ld env (u32 (rd st r1)) oi tb_ptr ptr st (fun v st => Next tb_ptr (wr r0 v st)))
      | INDEX_op_qemu_st_a64_i32 | INDEX_op_qemu_st_a64_i64 =>
          tci_args_ldst insn tb_ptr st (fun r0 r1 oi ptr =>
            tci_qemu_st env (rd st r1) (rd st r0) oi tb_ptr ptr st (Next tb_ptr))
      | INDEX_op_qemu_st_a32_i32 | INDEX_op_qemu_st_a32_i64 =>
          tci_args_ldst insn tb_ptr st (fun r0 r1 oi ptr =>
            tci_qemu_st env (u32 (rd st r1)) (rd st r0) oi tb_ptr ptr st (Next tb_ptr))
      | INDEX_op_call => tci_hot_call insn tb_ptr st cold
      | INDEX_op_exit_tb => Done (Ret (tci_args_l insn tb_ptr) (set_ctx_tb_ptr 0 st))
      | INDEX_op_goto_tb =>
          ld 4 st (tci_args_l insn tb_ptr) (fun tb =>
            if tb =? 0 then Next tb_ptr st else hot_chain tb st)
      | INDEX_op_goto_ptr =>
          let ptr := u32 (rd st (tci_args_r insn)) in
          if ptr =? 0 then Done (Ret 0 (set_ctx_tb_ptr 0 st)) else hot_chain ptr st
      | _ => cold st
      end
  end.

Definition hot_step (pc : Z) st : outcome W :=
  ld 4 st pc (fun insn =>
    match opcode_of_num (tci_opc insn) with
    | Some opc => hot_exec opc insn pc (u32 (pc + 4)) st
    | None => Done (Ret 0 (set_cold pc st))
    end).

Fixpoint hot_loop (fuel : nat) (pc : Z) st : option (result W) :=
  match fuel with
  | O => None
  | S fuel =>
      match hot_step pc st with
      | Next pc st => hot_loop fuel pc st
      | Done r => Some r
      end
  end.

(** [tci_hot_loop(env, start)]; [start = 0] is [NULL]. *)
Definition tci_hot_loop (fuel : nat) (start : Z) st : option (result W) :=
  let run tb_ptr :=
    hot_loop fuel tb_ptr (wr TCG_REG_CALL_STACK (cfg_stack cfg) (wr TCG_AREG0 (cfg_env cfg) st)) in
  if start =? 0 then
    match load32 (tmem st) (ctx_tb_ptr st) with
    | Some off => run (u32 (ctx_tb_ptr st + off))
    | None => Some Trap
    end
  else run start.

(** The alternation of the two interpreters: the [for] loop of [tci_exec]. *)
Fixpoint exec_loop (fuel : nat) (p : Z) st : option (result W) :=
  match fuel with
  | O => None
  | S fuel =>
      match tci_hot_loop fuel p (set_depth 1 st) with
      | Some (Ret r st) =>
          let st := set_depth 0 st in
          if bb_cold_ptr st =? 0 then Some (Ret r st)
          else
            let p := bb_cold_ptr st in
            match Full.tcg_qemu_tb_exec_tci_full cfg true fuel p (set_cold 0 st) with
            | Some (Ret r st) =>
                if bb_resume_ptr st =? 0 then Some (Ret r st)
                else exec_loop fuel (bb_resume_ptr st) (set_resume 0 st)
            | other => other
            end
      | other => other
      end
  end.

(** [tci_exec]: the classic interpreter unless fasttci is on and no guard asked
    for a slow run. *)
Definition tci_exec (fuel : nat) st : option (result W) :=
  if (cfg_tune cfg wasm_fast_tci =? 0) || negb (bb_force_slow_tci st =? 0)
  then Full.tcg_qemu_tb_exec_tci_full cfg false fuel 0 (set_force 0 st)
  else exec_loop fuel 0 st.

End Hot.
