(* ===== verification/TciEquiv.v ===== *)
(** * The fast interpreter refines the full one

    [tci_exec] with fasttci alternates between the hot loop and single runs of the
    full interpreter, passing control through [bb_cold_ptr] and [bb_resume_ptr];
    the specification is the full interpreter alone.  A simulation relates the two:
    every hot step is a full step, a hand-over loses no instruction and repeats
    none, and a helper that runs below the hot loop either behaves as it would
    below the full interpreter or defers the guest instruction to it. *)
From S2P Require Import Prelude BitOps HostUtils Memory TcgCond Opcodes TciDecode Tune TbHeader Tci TciHot.

(** ** What helpers promise *)

(** [F] under the fast interpreter either behaves as under the full one or
    defers, and it never defers under the full one: the guards test
    [bb_fast_tci_depth] (bb_guard_mmio, bb_guard_pio). *)
Definition guarded {W A} (F : hinput W -> hresult W A) : Prop :=
  forall ra m w,
    let h d := {| h_depth := d; h_ra := ra; h_mem := m; h_world := w |} in
    (F (h 1) = F (h 0) \/ exists m' w', F (h 1) = HDefer m' w') /\
    (forall m' w', F (h 0) <> HDefer m' w').

Class GuardedHelpers (W : Type) `{!Helpers W} := {
  guard_lookup e : guarded (helper_lookup_tb_ptr e);
  guard_call f rk args : guarded (helper_call f rk args);
  guard_ret_i128 f a b c : guarded (helper_ret_i128 f a b c);
  guard_arg_i128 f a b v c : guarded (helper_arg_i128 f a b v c);
  guard_ffi cif f stack slots rs : guarded (ffi_call cif f stack slots rs);
  guard_ld k e a oi ra : guarded (helper_ld_mmu k e a oi ra);
  guard_st k e a v oi ra : guarded (helper_st_mmu k e a v oi ra)
}.

Section Equiv.
Context {W : Type} `{!Helpers W} `{!GuardedHelpers W}.
Context (cfg : tci_cfg).
Implicit Type st : tci_state W.
Implicit Type r : result W.
Implicit Type o : outcome W.

(** The state as the full interpreter has it: [bb_fast_tci_depth] is 0 (the CPU
    loop resets it after a longjmp out of the hot loop). *)
Definition slow st : tci_state W := set_depth 0 st.

Definition slow_r r : result W :=
  match r with
  | Ret v st => Ret v (slow st)
  | Longjmp st => Longjmp (slow st)
  | Abort => Abort
  | Trap => Trap
  end.

Definition slow_o o : outcome W :=
  match o with
  | Next pc st => Next pc (slow st)
  | Done r => Done (slow_r r)
  end.

(** The run ended in a guard: the guest instruction is to be repeated by the
    full interpreter. *)
Definition deferred r : Prop :=
  match r with Longjmp st => bb_force_slow_tci st = 1 | _ => False end.

Definition deferred_o o : Prop := match o with Done r => deferred r | _ => False end.

(** ** Outcomes keep the hand-over flags *)

(** The flags of the final state: untouched by an instruction, but for the
    hand-over pointers when a part of a run returns ([part]) and the force flag of
    a guard. *)
Definition flags (part : bool) (s0 st : tci_state W) : Prop :=
  bb_fast_tci_depth st = bb_fast_tci_depth s0 /\ bb_force_slow_tci st = bb_force_slow_tci s0 /\
  (part = false -> bb_cold_ptr st = bb_cold_ptr s0 /\ bb_resume_ptr st = bb_resume_ptr s0).

Definition keeps (single : bool) (s0 : tci_state W) (o : outcome W) : Prop :=
  match o with
  | Next _ st => flags false s0 st
  | Done (Ret _ st) => flags single s0 st
  | Done (Longjmp st) =>
      bb_cold_ptr st = bb_cold_ptr s0 /\ bb_resume_ptr st = bb_resume_ptr s0 /\
      bb_fast_tci_depth st = bb_fast_tci_depth s0 /\
      (bb_fast_tci_depth s0 = 0 -> bb_force_slow_tci st = bb_force_slow_tci s0)
  | Done _ => True
  end.

(** The flags part of a state: what the other setters do not touch. *)
Definition same_flags (s0 st : tci_state W) : Prop :=
  bb_cold_ptr st = bb_cold_ptr s0 /\ bb_fast_tci_depth st = bb_fast_tci_depth s0 /\
  bb_force_slow_tci st = bb_force_slow_tci s0 /\ bb_resume_ptr st = bb_resume_ptr s0.

Lemma keeps_ld single s0 n st a k :
  (forall v, keeps single s0 (k v)) -> keeps single s0 (ld n st a k).
Proof. intros Hk. unfold ld. by case_match. Qed.

Lemma keeps_sto single s0 n st a v k :
  (forall m, keeps single s0 (k (set_mem m st))) -> keeps single s0 (sto n st a v k).
Proof. intros Hk. unfold sto. by case_match. Qed.

Lemma keeps_cmp single s0 c k : (forall b, keeps single s0 (k b)) -> keeps single s0 (cmp c k).
Proof. intros Hk. unfold cmp. by case_match. Qed.

Lemma keeps_quo single s0 c k : (forall b, keeps single s0 (k b)) -> keeps single s0 (quo c k).
Proof. intros Hk. unfold quo. by case_match. Qed.

Lemma keeps_asserting single s0 b o : keeps single s0 o -> keeps single s0 (asserting b o).
Proof. intros Hk. unfold asserting. by case_match. Qed.

(** A helper does not defer below the full interpreter. *)
Definition no_defer {A} st (h : hresult W A) : Prop :=
  bb_fast_tci_depth st = 0 -> forall m w, h <> HDefer m w.

Lemma guarded_no_defer {A} (F : hinput W -> hresult W A) st ra :
  guarded F -> no_defer st (F (hin st ra)).
Proof. intros HF Hd. unfold hin. rewrite Hd. apply HF. Qed.

Lemma direct_no_defer func n mask rk av st ra h :
  tci_direct_call func n mask rk av (hin st ra) = Some h -> no_defer st h.
Proof.
  unfold tci_direct_call. case_match; [| done]. intros [= <-].
  apply (guarded_no_defer (helper_call func rk _)), guard_call.
Qed.

Lemma keeps_helped {A} single s0 st (h : hresult W A) k :
  same_flags s0 st -> no_defer st h -> (forall a m w, keeps single s0 (k a (set_mw m w st))) ->
  keeps single s0 (helped st h k).
Proof.
  intros (H1 & H2 & H3 & H4) Hn Hk. unfold helped. destruct h as [a m w | m w | m w]; [done | done |].
  cbn. split_and!; [done | done | done |]. intros Hd. by destruct (Hn ltac:(congruence) m w).
Qed.

Lemma keeps_slot64 single s0 stack st s k :
  (forall v, keeps single s0 (k v)) -> keeps single s0 (slot64 stack st s k).
Proof. intros Hk. destruct s; cbn; [done | by apply keeps_ld]. Qed.

Lemma keeps_slot32 single s0 stack st s k :
  (forall v, keeps single s0 (k v)) -> keeps single s0 (slot32 stack st s k).
Proof. intros Hk. destruct s; cbn; [done | by apply keeps_ld]. Qed.

Lemma keeps_simple_args single s0 stack st sizes slots i mask av k :
  (forall x, keeps single s0 (k x)) ->
  keeps single s0 (simple_args stack st sizes slots i mask av k).
Proof.
  intros Hk. revert slots i mask av; induction sizes as [| sz sizes IH]; intros slots i mask av; cbn; [by destruct slots |].
  destruct slots as [| s slots]; [done |]. repeat case_match; [| | done].
  - apply keeps_slot64. intros. apply IH.
  - apply keeps_slot32. intros. apply IH.
Qed.

Lemma keeps_qemu_ld single s0 env taddr oi tb_ptr ptr st k :
  same_flags s0 st -> (forall v st', same_flags s0 st' -> keeps single s0 (k v st')) ->
  keeps single s0 (tci_qemu_ld env taddr oi tb_ptr ptr st k).
Proof.
  intros Hf Hk. unfold tci_qemu_ld. repeat case_match; try done;
    try (apply keeps_ld; intros; by apply Hk). apply keeps_helped; [done | apply guarded_no_defer, guard_ld |]. intros. apply Hk.
  by destruct Hf as (? & ? & ? & ?).
Qed.

Lemma keeps_qemu_st single s0 env taddr val oi tb_ptr ptr st k :
  same_flags s0 st -> (forall st', same_flags s0 st' -> keeps single s0 (k st')) ->
  keeps single s0 (tci_qemu_st env taddr val oi tb_ptr ptr st k).
Proof.
  intros Hf Hk. unfold tci_qemu_st. repeat case_match; try done;
    try (apply keeps_sto; intros; apply Hk; by destruct Hf as (? & ? & ? & ?)).
  apply keeps_helped; [done | apply guarded_no_defer, guard_st |]. intros. apply Hk.
  by destruct Hf as (? & ? & ? & ?).
Qed.

Lemma keeps_args_ldst single s0 insn tb_ptr st k :
  (forall r0 r1 oi ptr : Z, keeps single s0 (k r0 r1 oi ptr)) ->
  keeps single s0 (tci_args_ldst insn tb_ptr st k).
Proof. intros Hk. unfold tci_args_ldst. do 3 (apply keeps_ld; intros). by case_match. Qed.

(** The setters an instruction uses keep the flags. *)
Lemma same_flags_refl st : same_flags st st.
Proof. done. Qed.

Lemma same_flags_wr s0 st i v : same_flags s0 st -> same_flags s0 (wr i v st).
Proof. done. Qed.

Lemma same_flags_mem s0 st m : same_flags s0 st -> same_flags s0 (set_mem m st).
Proof. done. Qed.

Lemma same_flags_mw s0 st m w : same_flags s0 st -> same_flags s0 (set_mw m w st).
Proof. done. Qed.

Lemma same_flags_ra s0 st v : same_flags s0 st -> same_flags s0 (set_tci_tb_ptr v st).
Proof. done. Qed.

Lemma same_flags_ctx s0 st v : same_flags s0 st -> same_flags s0 (set_ctx_tb_ptr v st).
Proof. done. Qed.

Lemma same_flags_direct s0 st rk v : same_flags s0 st -> same_flags s0 (direct_result rk v st).
Proof. intros. unfold direct_result. by repeat case_match. Qed.

Lemma same_flags_pair s0 st a b v : same_flags s0 st -> same_flags s0 (tci_write_reg64 a b v st).
Proof. done. Qed.

Lemma keeps_next single s0 pc st : same_flags s0 st -> keeps single s0 (Next pc st).
Proof. intros (? & ? & ? & ?). by repeat split. Qed.

Lemma keeps_ret single s0 v st : same_flags s0 st -> keeps single s0 (Done (Ret v st)).
Proof. intros (? & ? & ? & ?). by repeat split. Qed.

Lemma keeps_resume s0 p v st : same_flags s0 st -> keeps true s0 (Done (Ret v (set_resume p st))).
Proof. intros (? & ? & ? & ?). by repeat split. Qed.

Lemma keeps_cold s0 p v st : same_flags s0 st -> keeps true s0 (Done (Ret v (set_cold p st))).
Proof. intros (? & ? & ? & ?). by repeat split. Qed.

Ltac same_flags_tac :=
  repeat first
    [ assumption
    | simple apply same_flags_refl
    | simple apply same_flags_wr
    | simple apply same_flags_mem
    | simple apply same_flags_mw
    | simple apply same_flags_ra
    | simple apply same_flags_ctx
    | simple apply same_flags_direct
    | simple apply same_flags_pair ].

Ltac no_defer_tac :=
  first
    [ apply guarded_no_defer; first [ apply guard_lookup | apply guard_call | apply guard_ret_i128
        | apply guard_arg_i128 | apply guard_ffi | apply guard_ld | apply guard_st ]
    | eapply direct_no_defer; eassumption ].

Ltac keeps_tac :=
  repeat first
    [ lazymatch goal with |- keeps _ _ (Done Trap) => exact I | |- keeps _ _ (Done Abort) => exact I end
    | simple apply keeps_next; solve [same_flags_tac]
    | simple apply keeps_resume; solve [same_flags_tac]
    | simple apply keeps_cold; solve [same_flags_tac]
    | simple apply keeps_ret; solve [same_flags_tac]
    | simple apply keeps_ld; intros
    | simple apply keeps_sto; intros
    | simple apply keeps_cmp; intros
    | simple apply keeps_quo; intros
    | simple apply keeps_asserting
    | simple apply keeps_slot64; intros
    | simple apply keeps_slot32; intros
    | simple apply keeps_simple_args; intros
    | simple apply keeps_args_ldst; intros
    | simple apply keeps_helped; [solve [same_flags_tac] | solve [no_defer_tac] | intros]
    | simple apply keeps_qemu_ld; [solve [same_flags_tac] | intros]
    | simple apply keeps_qemu_st; [solve [same_flags_tac] | intros]
    | progress cbv beta
    | case_match ].

Lemma keeps_chain single tb st : keeps single st (Full.chain_to cfg single tb st).
Proof. unfold Full.chain_to. keeps_tac. Qed.

Lemma keeps_ffi single s0 len func cif tb_ptr slots st :
  same_flags s0 st -> keeps single s0 (Full.call_ffi cfg len func cif tb_ptr slots st).
Proof. intros. unfold Full.call_ffi. keeps_tac. Qed.

Lemma keeps_i128 single s0 len func cif tb_ptr sizes slots st :
  same_flags s0 st -> keeps single s0 (Full.call_i128 cfg len func cif tb_ptr sizes slots st).
Proof. intros. unfold Full.call_i128. repeat case_match; keeps_tac; by apply keeps_ffi. Qed.

Lemma keeps_call single insn tb_ptr st : keeps single st (Full.op_call cfg insn tb_ptr st).
Proof. unfold Full.op_call. keeps_tac; apply keeps_i128; same_flags_tac. Qed.

(** A group of the [switch] keeps the flags in every case it has. *)
Definition keeps_opt (single : bool) st (a : option (outcome W)) : Prop :=
  match a with Some o => keeps single st o | None => True end.

Ltac op_group opc :=
  unfold keeps_opt; destruct opc; cbv beta iota zeta;
  lazymatch goal with
  | |- True => exact I
  | _ => repeat (match goal with |- context [match ?x with (_, _) => _ end] => destruct x end); keeps_tac
  end.

Lemma keeps_mov single opc insn tb_ptr st : keeps_opt single st (Full.op_mov opc insn tb_ptr st).
Proof. unfold Full.op_mov. op_group opc. Qed.

Lemma keeps_ldst single opc insn tb_ptr st : keeps_opt single st (Full.op_ldst opc insn tb_ptr st).
Proof. unfold Full.op_ldst, Full.do_ld, Full.do_st. op_group opc. Qed.

Lemma keeps_arith single opc insn tb_ptr st : keeps_opt single st (Full.op_arith opc insn tb_ptr st).
Proof. unfold Full.op_arith, Full.do_rrr. op_group opc. Qed.

Lemma keeps_i32 single opc insn tb_ptr st : keeps_opt single st (Full.op_i32 opc insn tb_ptr st).
Proof. unfold Full.op_i32, Full.do_rrr, Full.do_rr, Full.do_div. op_group opc. Qed.

Lemma keeps_ext single opc insn tb_ptr st : keeps_opt single st (Full.op_ext opc insn tb_ptr st).
Proof. unfold Full.op_ext, Full.do_rr. op_group opc. Qed.

Lemma keeps_i64 single opc insn tb_ptr st : keeps_opt single st (Full.op_i64 opc insn tb_ptr st).
Proof. unfold Full.op_i64, Full.do_rrr, Full.do_rr, Full.do_div. op_group opc. Qed.

Lemma keeps_tb single opc insn tb_ptr st : keeps_opt single st (Full.op_tb cfg single opc insn tb_ptr st).
Proof. unfold Full.op_tb. op_group opc; apply keeps_chain. Qed.

Lemma keeps_qemu single opc insn tb_ptr st : keeps_opt single st (Full.op_qemu cfg opc insn tb_ptr st).
Proof. unfold Full.op_qemu, Full.do_qemu_ld, Full.do_qemu_st. op_group opc. Qed.

Lemma keeps_or_else single st a b :
  keeps_opt single st a -> keeps single st b -> keeps single st (Full.or_else a b).
Proof. by destruct a. Qed.

Lemma keeps_exec single opc insn tb_ptr st : keeps single st (Full.exec cfg single opc insn tb_ptr st).
Proof.
  assert (H : keeps single st (Full.exec_rest cfg single opc insn tb_ptr st)).
  { unfold Full.exec_rest.
    apply keeps_or_else; [apply keeps_mov |]. apply keeps_or_else; [apply keeps_ldst |].
    apply keeps_or_else; [apply keeps_arith |]. apply keeps_or_else; [apply keeps_i32 |].
    apply keeps_or_else; [apply keeps_ext |]. apply keeps_or_else; [apply keeps_i64 |].
    apply keeps_or_else; [apply keeps_tb |]. apply keeps_or_else; [apply keeps_qemu | exact I]. }
  destruct opc; first [exact H | apply keeps_call].
Qed.

Lemma keeps_step single pc st : keeps single st (Full.step cfg single pc st).
Proof. unfold Full.step. apply keeps_ld; intros. case_match; [apply keeps_exec | done]. Qed.

(** The hot loop's instructions keep the flags too. *)
Lemma keeps_hot_args part s0 stack st sizes ri si i mask av k :
  (forall x, keeps part s0 (k x)) ->
  keeps part s0 (hot_args stack st sizes ri si i mask av k).
Proof.
  intros Hk. revert ri si i mask av; induction sizes as [| sz sizes IH]; intros ri si i mask av; [apply Hk |].
  cbn [hot_args]. destruct (ri <? 5); (destruct (sz =? 8); [| destruct (sz <=? 4); [| apply Hk]]);
    first [apply keeps_slot64 | apply keeps_slot32]; intros; apply IH.
Qed.

Lemma keeps_hot_reg opc insn tb_ptr st : keeps_opt true st (hot_reg opc insn tb_ptr st).
Proof. unfold hot_reg. op_group opc. Qed.

Lemma keeps_hot_call pc insn tb_ptr st :
  keeps true st (tci_hot_call cfg insn tb_ptr st (fun st => Done (Ret 0 (set_cold pc st)))).
Proof.
  unfold tci_hot_call. destruct (tci_args_nl insn tb_ptr) as [len ptr].
  do 2 (apply keeps_ld; intros). cbv zeta. case_match; [keeps_tac |]. case_match; [keeps_tac |].
  apply keeps_hot_args. intros x. keeps_tac.
Qed.

Lemma keeps_hot_chain tb st : keeps true st (hot_chain cfg tb st).
Proof. unfold hot_chain. keeps_tac. Qed.

Lemma keeps_hot_step pc st : keeps true st (hot_step cfg pc st).
Proof.
  unfold hot_step. apply keeps_ld; intros insn. destruct (opcode_of_num (tci_opc insn)) as [opc |]; [| keeps_tac].
  unfold hot_exec. pose proof (keeps_hot_reg opc insn (u32 (pc + 4)) st) as H.
  destruct (hot_reg opc insn (u32 (pc + 4)) st) as [o |]; [exact H |]. clear H.
  destruct opc; cbv beta iota zeta; first [simple apply keeps_hot_call | keeps_tac; simple apply keeps_hot_chain].
Qed.

(** ** Hot steps are full steps *)

(** A hot step defers, hands over at its own address, or is the full step. *)
Definition sim (pc : Z) st (hot full : outcome W) : Prop :=
  deferred_o hot \/ hot = Done (Ret 0 (set_cold pc st)) \/ slow_o hot = full.

Lemma hot_reg_full opc insn tb_ptr st :
  match hot_reg opc insn tb_ptr st with
  | Some o => slow_o o = Full.exec cfg false opc insn tb_ptr (slow st)
  | None => True
  end.
Proof.
  unfold hot_reg. destruct opc; cbv beta iota zeta; try exact I;
    unfold Full.exec, Full.exec_rest, Full.op_mov, Full.op_ldst, Full.op_arith, Full.op_i32,
      Full.op_ext, Full.op_i64, Full.op_tb, Full.op_qemu, Full.or_else, Full.do_ld, Full.do_st,
      Full.do_rrr, Full.do_rr; cbv beta iota zeta;
    repeat (match goal with |- context [match ?x with (_, _) => _ end] => destruct x end);
    unfold ld, sto, cmp, asserting;
    change (rd (slow st)) with (rd st); change (tmem (slow st)) with (tmem st);
    repeat case_match; reflexivity.
Qed.

(** Hot and full continuations agree up to the depth flag. *)
Lemma helped_sim {A} (F : hinput W -> hresult W A) pc s0 st ra k kf :
  guarded F -> bb_fast_tci_depth st = 1 ->
  (forall a m w, sim pc s0 (k a (set_mw m w st)) (kf a (set_mw m w (slow st)))) ->
  sim pc s0 (helped st (F (hin st ra)) k) (helped (slow st) (F (hin (slow st) ra)) kf).
Proof.
  intros HF Hd Hk. destruct (HF ra (tmem st) (world st)) as [HE Hn].
  set (h0 := {| h_depth := 0; h_ra := ra; h_mem := tmem st; h_world := world st |}) in *.
  set (h1 := {| h_depth := 1; h_ra := ra; h_mem := tmem st; h_world := world st |}) in *.
  change (hin (slow st) ra) with h0. replace (hin st ra) with h1 by (unfold hin; by rewrite Hd).
  destruct HE as [-> | (m & w & ->)]; [| by left].
  destruct (F h0) as [a m w | m w | m w]; cbn [helped].
  - apply Hk.
  - by right; right.
  - by destruct (Hn m w).
Qed.

Lemma sim_full pc st o o_full : slow_o o = o_full -> sim pc st o o_full.
Proof. by right; right. Qed.

Lemma ld_sim pc s0 n st a k kf :
  (forall v, sim pc s0 (k v) (kf v)) -> sim pc s0 (ld n st a k) (ld n (slow st) a kf).
Proof. intros H. unfold ld. change (tmem (slow st)) with (tmem st). case_match; [done | by apply sim_full]. Qed.

Lemma sto_sim pc s0 n st a v k kf :
  (forall m, sim pc s0 (k (set_mem m st)) (kf (set_mem m (slow st)))) ->
  sim pc s0 (sto n st a v k) (sto n (slow st) a v kf).
Proof. intros H. unfold sto. change (tmem (slow st)) with (tmem st). case_match; [done | by apply sim_full]. Qed.

Lemma qemu_ld_sim pc s0 env taddr oi tb_ptr ptr st (r0 : Z) :
  bb_fast_tci_depth st = 1 ->
  let k v st := Next tb_ptr (wr r0 v st) in
  sim pc s0 (tci_qemu_ld env taddr oi tb_ptr ptr st k) (tci_qemu_ld env taddr oi tb_ptr ptr (slow st) k).
Proof.
  intros Hd k. unfold tci_qemu_ld. change (tmem (slow st)) with (tmem st).
  repeat case_match; try (by apply sim_full); try (apply ld_sim; intros; by apply sim_full).
  apply (helped_sim (helper_ld_mmu _ env taddr oi tb_ptr)); [apply guard_ld | done |].
  intros. by apply sim_full.
Qed.

Lemma qemu_st_sim pc s0 env taddr v oi tb_ptr ptr st :
  bb_fast_tci_depth st = 1 ->
  sim pc s0 (tci_qemu_st env taddr v oi tb_ptr ptr st (Next tb_ptr))
            (tci_qemu_st env taddr v oi tb_ptr ptr (slow st) (Next tb_ptr)).
Proof.
  intros Hd. unfold tci_qemu_st. change (tmem (slow st)) with (tmem st).
  repeat case_match; try (by apply sim_full); try (apply sto_sim; intros; by apply sim_full).
  apply (helped_sim (helper_st_mmu _ env taddr v oi tb_ptr)); [apply guard_st | done |].
  intros. by apply sim_full.
Qed.

Lemma args_ldst_sim pc s0 insn tb_ptr st (k kf : Z -> Z -> Z -> Z -> outcome W) :
  (forall a b c d, sim pc s0 (k a b c d) (kf a b c d)) ->
  sim pc s0 (tci_args_ldst insn tb_ptr st k) (tci_args_ldst insn tb_ptr (slow st) kf).
Proof.
  intros H. unfold tci_args_ldst. do 3 (apply ld_sim; intros). case_match; [apply H | by apply sim_full].
Qed.

(** *** Calls *)

(** The two ways to gather arguments agree: slots assigned up front or on the
    way, before or after the return address is recorded. *)
Lemma hot_args_simple stack st st' sizes ri si i mask av k :
  rd st' = rd st -> tmem st' = tmem st ->
  hot_args stack st sizes ri si i mask av k =
  simple_args stack st' sizes (call_slots sizes ri si) i mask av k.
Proof.
  intros Hr Hm. revert ri si i mask av; induction sizes as [| sz sizes IH]; intros ri si i mask av; [done |].
  cbn [hot_args call_slots]. unfold slot64, slot32, ld.
  destruct (ri <? 5); cbn [simple_args]; unfold slot64, slot32, ld; rewrite ?Hr, ?Hm;
    repeat case_match; try done; apply IH.
Qed.

(** Gathering either traps or yields a definite result for every continuation,
    whose mask names arguments below the count. *)
Lemma simple_args_cps stack st sizes slots i mask av :
  0 <= i -> 0 <= mask < 2 ^ i -> length slots = length sizes ->
  (forall k, simple_args (W := W) stack st sizes slots i mask av k = Done Trap) \/
  exists x, (forall k, simple_args stack st sizes slots i mask av k = k x) /\
    match x with Some (mask', _) => 0 <= mask' < 2 ^ (i + Z.of_nat (length sizes)) | None => True end.
Proof.
  revert slots i mask av; induction sizes as [| sz sizes IH]; intros slots i mask av Hi Hm Hl.
  { right. exists (Some (mask, av)). split; [by destruct slots |]. cbn [length]. by rewrite Z.add_0_r. }
  destruct slots as [| s slots]; [done |]. cbn [simple_args length] in *.
  replace (i + Z.of_nat (S (length sizes))) with (i + 1 + Z.of_nat (length sizes)) by lia.
  assert (Hp : 2 ^ (i + 1) = 2 * 2 ^ i) by (rewrite Z.add_1_r, Z.pow_succ_r by lia; lia).
  assert (Hm8 : 0 <= Z.lor mask (Z.shiftl 1 i) < 2 ^ (i + 1)).
  { change (is_u (i + 1) (Z.lor mask (Z.shiftl 1 i))). apply lor_is_u; [lia | unfold is_u; lia |].
    rewrite Z.shiftl_1_l. unfold is_u. assert (0 < 2 ^ i) by (apply pow2_pos; lia). lia. }
  destruct (sz =? 8); [| destruct (sz <=? 4)]; [| | right; by exists None];
    unfold slot64, slot32, ld;
    (destruct s as [j | j]; [| destruct (load _ _ _); [| by left]]); apply IH; lia.
Qed.

Lemma call_slots_length sizes ri si : length (call_slots sizes ri si) = length sizes.
Proof. revert ri si; induction sizes as [| sz sizes IH]; intros ri si; cbn; [done |]. case_match; cbn; by rewrite IH. Qed.

(** [tci_direct_call] has a case for every simple shape. *)
Lemma direct_call_total func n mask rk av h :
  0 <= rk <= 2 -> n <= 6 -> mask < 2 ^ n ->
  exists args, tci_direct_call func n mask rk av h = Some (helper_call func rk args h) /\
    forall h', tci_direct_call func n mask rk av h' = Some (helper_call func rk args h').
Proof.
  intros Hr Hn Hm. unfold tci_direct_call.
  destruct (Z.leb_spec 0 rk), (Z.leb_spec rk 2), (Z.leb_spec n 6), (Z.ltb_spec mask (2 ^ n)); try lia.
  by eexists.
Qed.

Lemma hot_call_sim pc insn tb_ptr st :
  bb_fast_tci_depth st = 1 ->
  sim pc st (tci_hot_call cfg insn tb_ptr st (fun st => Done (Ret 0 (set_cold pc st))))
            (Full.op_call cfg insn tb_ptr (slow st)).
Proof.
  intros Hd. unfold tci_hot_call, Full.op_call.
  assert (Hlen : 0 <= fst (tci_args_nl insn tb_ptr)).
  { pose proof (extract_range 32 insn 8 4 eq_refl) as [H _]. exact H. }
  destruct (tci_args_nl insn tb_ptr) as [len ptr]. cbn [fst] in Hlen.
  apply ld_sim; intros d0. apply ld_sim; intros d1. change (rd (slow st)) with (rd st). cbv zeta.
  case_match.
  { apply (helped_sim (helper_lookup_tb_ptr (u32 (rd st 8)))); [apply guard_lookup | done |].
    intros. by apply sim_full. }
  set (sizes := cif_sizes (u32 d1)). set (n := Z.of_nat (length sizes)).
  destruct (Z.ltb_spec 6 n), (Z.ltb_spec 2 len); try (right; left; reflexivity).
  destruct (Z.leb_spec n 6), (Z.leb_spec len 2); try lia. cbn [orb andb].
  rewrite (hot_args_simple _ st (set_tci_tb_ptr tb_ptr (slow st))) by done.
  destruct (simple_args_cps (cfg_stack cfg) (set_tci_tb_ptr tb_ptr (slow st)) sizes
              (call_slots sizes 0 0) 0 0 []) as [Ht | (x & Hx & Hb)];
    [lia | done | apply call_slots_length | by rewrite !Ht; apply sim_full |].
  rewrite !Hx. destruct x as [[mask av] |]; [| by right; left].
  cbv beta iota in Hb. rewrite Z.add_0_l in Hb. fold n in Hb.
  destruct (direct_call_total (u32 d0) n mask len av (hin (set_tci_tb_ptr tb_ptr st) tb_ptr))
    as (args & E1 & E2); [lia | lia | lia |].
  rewrite E1, E2. apply (helped_sim (helper_call (u32 d0) len args)); [apply guard_call | done |].
  intros. apply sim_full. unfold direct_result. by repeat case_match.
Qed.

Lemma hot_chain_sim pc s0 tb st :
  sim pc s0 (hot_chain cfg tb st) (Full.chain_to cfg false tb (slow st)).
Proof.
  apply sim_full. unfold hot_chain, Full.chain_to, ld, sto. cbn [tmem set_ctx_tb_ptr slow set_depth set_mem].
  repeat case_match; try done; simplify_eq; done.
Qed.

Lemma hot_exec_sim opc insn pc tb_ptr st :
  bb_fast_tci_depth st = 1 ->
  sim pc st (hot_exec cfg opc insn pc tb_ptr st) (Full.exec cfg false opc insn tb_ptr (slow st)).
Proof.
  intros Hd. unfold hot_exec. pose proof (hot_reg_full opc insn tb_ptr st) as H.
  destruct (hot_reg opc insn tb_ptr st) as [o |]; [by apply sim_full |]. clear H.
  destruct opc; cbv beta iota zeta;
    lazymatch goal with
    | |- sim _ _ (Done (Ret 0 (set_cold _ _))) _ => right; left; reflexivity
    | |- sim _ _ (tci_hot_call _ _ _ _ _) _ => exact (hot_call_sim _ _ _ _ Hd)
    | _ => unfold Full.exec, Full.exec_rest, Full.op_mov, Full.op_ldst, Full.op_arith, Full.op_i32,
             Full.op_ext, Full.op_i64, Full.op_tb, Full.op_qemu, Full.or_else, Full.do_qemu_ld,
             Full.do_qemu_st, id; cbv beta iota zeta; change (rd (slow st)) with (rd st)
    end;
    lazymatch goal with
    | |- sim _ _ (tci_args_ldst _ _ _ _) _ =>
        apply args_ldst_sim; intros;
        lazymatch goal with
        | |- sim _ _ (tci_qemu_ld _ _ _ _ _ _ _) _ => simple apply qemu_ld_sim; exact Hd
        | _ => simple apply qemu_st_sim; exact Hd
        end
    | |- sim _ _ (ld _ _ _ _) _ =>
        apply ld_sim; intros; case_match; [apply sim_full; reflexivity | apply hot_chain_sim]
    | |- sim _ _ (if _ then _ else _) _ => case_match; [apply sim_full; reflexivity | apply hot_chain_sim]
    | |- sim _ _ (Done _) _ => apply sim_full; reflexivity
    | _ => idtac
    end.
Qed.

Lemma hot_step_sim pc st :
  bb_fast_tci_depth st = 1 -> sim pc st (hot_step cfg pc st) (Full.step cfg false pc (slow st)).
Proof.
  intros Hd. unfold hot_step, Full.step. apply ld_sim; intros insn.
  case_match; [by apply hot_exec_sim | by right; left].
Qed.

(** ** Single runs *)

(** In single-step mode only chaining differs: it returns with the resume
    pointer instead of going on. *)
Definition single_of (os o : outcome W) : Prop :=
  os = o \/ exists pc st, o = Next pc st /\ os = Done (Ret 0 (set_resume pc st)).

Lemma single_ld n st a k kf :
  (forall v, single_of (k v) (kf v)) -> single_of (ld n st a k) (ld n st a kf).
Proof. intros H. unfold ld. case_match; [apply H | by left]. Qed.

Lemma single_chain tb st :
  single_of (Full.chain_to cfg true tb st) (Full.chain_to cfg false tb st).
Proof.
  unfold Full.chain_to, sto. apply single_ld; intros c. repeat case_match; try (by left).
  apply single_ld; intros off. right. by do 2 eexists.
Qed.

Lemma single_exec opc insn tb_ptr st :
  single_of (Full.exec cfg true opc insn tb_ptr st) (Full.exec cfg false opc insn tb_ptr st).
Proof.
  destruct opc; try (left; reflexivity);
    unfold Full.exec, Full.exec_rest, Full.op_mov, Full.op_ldst, Full.op_arith, Full.op_i32,
      Full.op_ext, Full.op_i64, Full.op_tb, Full.or_else; cbv beta iota zeta.
  - apply single_ld; intros. case_match; [by left | apply single_chain].
  - case_match; [by left | apply single_chain].
Qed.

Lemma single_step pc st : single_of (Full.step cfg true pc st) (Full.step cfg false pc st).
Proof. unfold Full.step. apply single_ld; intros. case_match; [apply single_exec | by left]. Qed.

(** ** Runs *)

(** [k] instructions of the full interpreter that all go on. *)
Fixpoint steps (k : nat) (pc : Z) st : option (Z * tci_state W) :=
  match k with
  | O => Some (pc, st)
  | S k =>
      match Full.step cfg false pc st with
      | Next pc st => steps k pc st
      | Done _ => None
      end
  end.

Lemma loop_steps k f pc st pc' st' :
  steps k pc st = Some (pc', st') ->
  Full.loop cfg false (k + f) pc st = Full.loop cfg false f pc' st'.
Proof.
  revert pc st; induction k as [| k IH]; intros pc st; cbn; [by intros [= <- <-] |].
  destruct (Full.step cfg false pc st); [apply IH | done].
Qed.

Lemma steps_app k1 k2 pc st pc' st' :
  steps k1 pc st = Some (pc', st') -> steps (k1 + k2) pc st = steps k2 pc' st'.
Proof.
  revert pc st; induction k1 as [| k IH]; intros pc st; cbn; [by intros [= <- <-] |].
  destruct (Full.step cfg false pc st); [apply IH | done].
Qed.

Lemma loop_after_steps k n pc st pc' st' r :
  steps k pc st = Some (pc', st') -> Full.loop cfg false n pc st = Some r ->
  (k <= n)%nat /\ Full.loop cfg false (n - k) pc' st' = Some r.
Proof.
  revert n pc st; induction k as [| k IH]; intros n pc st; cbn.
  { intros [= <- <-] H. split; [lia | by rewrite Nat.sub_0_r]. }
  destruct (Full.step cfg false pc st) as [pc1 st1 |] eqn:E; [| done].
  destruct n as [| n]; cbn; [done |]. rewrite E. intros H1 H2.
  destruct (IH _ _ _ H1 H2) as [Hle H3]. split; [lia | done].
Qed.

Lemma loop_mono single n m pc st r :
  (n <= m)%nat -> Full.loop cfg single n pc st = Some r -> Full.loop cfg single m pc st = Some r.
Proof.
  revert m pc st; induction n as [| n IH]; intros m pc st Hm; cbn; [done |].
  destruct m as [| m]; [lia |]. cbn. destruct (Full.step cfg single pc st); [apply IH; lia | done].
Qed.

Lemma hot_loop_mono n m pc st r :
  (n <= m)%nat -> hot_loop cfg n pc st = Some r -> hot_loop cfg m pc st = Some r.
Proof.
  revert m pc st; induction n as [| n IH]; intros m pc st Hm; cbn; [done |].
  destruct m as [| m]; [lia |]. cbn. destruct (hot_step cfg pc st); [apply IH; lia | done].
Qed.

(** What the backend guarantees of the byte code, checked along a run: the
    registers for [env] and the call stack keep their values (they are reserved
    in register allocation), and no instruction is at address 0. *)
Definition good (pc : Z) st : bool :=
  negb (pc =? 0) && (rd st TCG_AREG0 =? cfg_env cfg) && (rd st TCG_REG_CALL_STACK =? cfg_stack cfg).

Fixpoint good_along (n : nat) (pc : Z) st : bool :=
  good pc st &&
  match n with
  | O => true
  | S n => match Full.step cfg false pc st with Next pc st => good_along n pc st | Done _ => true end
  end.

Definition good_run (pc : Z) st : Prop := forall n, good_along n pc st = true.

Lemma good_run_steps k pc st pc' st' :
  good_run pc st -> steps k pc st = Some (pc', st') -> good_run pc' st'.
Proof.
  intros H Hs n. specialize (H (k + n)%nat). revert pc st H Hs.
  induction k as [| k IH]; intros pc st; cbn; [by intros H [= <- <-] |].
  intros H. apply andb_true_iff in H as [_ H]. destruct (Full.step cfg false pc st); [by apply IH | done].
Qed.

Lemma good_run_here pc st :
  good_run pc st ->
  pc <> 0 /\ rd st TCG_AREG0 = cfg_env cfg /\ rd st TCG_REG_CALL_STACK = cfg_stack cfg.
Proof.
  intros H. specialize (H O). cbn in H. unfold good in H. rewrite !andb_true_iff, negb_true_iff in H.
  destruct H as [[[H1 H2] H3] _]. apply Z.eqb_neq in H1. apply Z.eqb_eq in H2, H3. done.
Qed.

(** Setting up the reserved registers again changes nothing. *)
Lemma wr_id i st : wr i (rd st i) st = st.
Proof.
  unfold wr, rd. replace (<[Z.to_nat i := regs st !!! Z.to_nat i]> (regs st)) with (regs st).
  { by destruct st. }
  destruct (regs st !! Z.to_nat i) as [v |] eqn:E.
  - rewrite (list_lookup_total_correct _ _ _ E). by rewrite list_insert_id.
  - apply lookup_ge_None in E. by rewrite list_insert_ge.
Qed.

Lemma setup_id st :
  rd st TCG_AREG0 = cfg_env cfg -> rd st TCG_REG_CALL_STACK = cfg_stack cfg ->
  wr TCG_REG_CALL_STACK (cfg_stack cfg) (wr TCG_AREG0 (cfg_env cfg) st) = st.
Proof.
  intros H1 H2. rewrite <- H1, wr_id. by rewrite <- H2, wr_id.
Qed.

(** ** The simulation of runs *)

(** Between the parts of a run the hand-over pointers and the force flag are
    clear. *)
Definition clean st : Prop :=
  bb_cold_ptr st = 0 /\ bb_resume_ptr st = 0 /\ bb_force_slow_tci st = 0.

Lemma clean_step pc st pc' st' :
  clean st -> Full.step cfg false pc st = Next pc' st' -> clean st'.
Proof.
  intros (H1 & H2 & H3) E. pose proof (keeps_step false pc st) as K. rewrite E in K.
  destruct K as (_ & Hf & Hp). destruct (Hp eq_refl). unfold clean. split_and!; congruence.
Qed.

(** How a run of the hot loop ends. *)
Definition hot_end (n : nat) (pc : Z) st r : Prop :=
  deferred r \/
  (exists k pc' s', steps k pc (slow st) = Some (pc', slow s') /\ (k < n)%nat /\
     r = Ret 0 (set_cold pc' s') /\ clean s') \/
  (Full.loop cfg false n pc (slow st) = Some (slow_r r) /\
   match r with Ret _ s => bb_cold_ptr s = 0 | _ => True end).

Lemma hot_loop_end n pc st r :
  bb_fast_tci_depth st = 1 -> clean st -> hot_loop cfg n pc st = Some r -> hot_end n pc st r.
Proof.
  revert pc st; induction n as [| n IH]; intros pc st Hd Hc; cbn [hot_loop]; [done |].
  destruct (hot_step_sim pc st Hd) as [Hdef | [Hcold | Hfull]].
  - destruct (hot_step cfg pc st); [done |]. intros [= <-]. by left.
  - rewrite Hcold. intros [= <-]. right; left. exists O, pc, st. split_and!; [done | lia | done | done].
  - pose proof (keeps_hot_step pc st) as K. destruct (hot_step cfg pc st) as [pc1 st1 | r1] eqn:E.
    + intros Hr. destruct K as (Kd & _). cbn in Hfull. symmetry in Hfull.
      pose proof (clean_step _ _ _ _ (Hc : clean (slow st)) Hfull) as Hc1.
      destruct (IH pc1 st1 ltac:(congruence) Hc1 Hr) as [H | [(k & pc' & s' & Hs & Hk & H) | [H H']]].
      * by left.
      * right; left. exists (S k), pc', s'. cbn. rewrite Hfull. split_and!; [done | lia | apply H | apply H].
      * right; right. cbn. by rewrite Hfull.
    + intros [= <-]. right; right. cbn [Full.loop slow_o] in *. rewrite <- Hfull. split; [done |].
      destruct r1 as [v s | | |]; try done. pose proof (keeps_step false pc (slow st)) as K'.
      rewrite <- Hfull in K'. destruct K' as (_ & _ & Hp). destruct (Hp eq_refl) as [Hp1 _].
      destruct Hc as [Hc1 _]. cbn in Hp1. congruence.
Qed.

(** How a single run of the full interpreter ends. *)
Definition single_end (n : nat) (pc : Z) st r : Prop :=
  (exists k pc' s', steps (S k) pc st = Some (pc', s') /\ (k < n)%nat /\
     r = Ret 0 (set_resume pc' s') /\ clean s') \/
  (Full.loop cfg false n pc st = Some r /\ match r with Ret _ s => bb_resume_ptr s = 0 | _ => True end).

Lemma single_loop_end n pc st r :
  clean st -> Full.loop cfg true n pc st = Some r -> single_end n pc st r.
Proof.
  revert pc st; induction n as [| n IH]; intros pc st Hc; cbn [Full.loop]; [done |].
  destruct (single_step pc st) as [E | (pc1 & st1 & Ef & Es)].
  - rewrite E. destruct (Full.step cfg false pc st) as [pc1 st1 | r1] eqn:Ef.
    + intros Hr. pose proof (clean_step _ _ _ _ Hc Ef) as Hc1.
      destruct (IH pc1 st1 Hc1 Hr) as [(k & pc' & s' & Hs & Hk & H) | [H H']].
      * left. exists (S k), pc', s'. cbn [steps] in *. rewrite Ef. split_and!; [done | lia | apply H | apply H].
      * right. cbn. by rewrite Ef.
    + intros [= <-]. right. cbn. rewrite Ef. split; [done |]. destruct r1 as [v s | | |]; try done.
      pose proof (keeps_step false pc st) as K. rewrite Ef in K. destruct K as (_ & _ & Hp).
      destruct (Hp eq_refl) as [_ Hp1]. destruct Hc as (_ & Hc1 & _). congruence.
  - rewrite Es. intros [= <-]. left. exists O, pc1, st1. cbn. rewrite Ef.
    split_and!; [done | lia | done | by eapply clean_step].
Qed.

(** Both kinds of run end whenever the full interpreter does. *)
Lemma hot_loop_total n pc st r :
  bb_fast_tci_depth st = 1 -> Full.loop cfg false n pc (slow st) = Some r ->
  exists r', hot_loop cfg n pc st = Some r'.
Proof.
  revert pc st; induction n as [| n IH]; intros pc st Hd; cbn; [done |].
  pose proof (keeps_hot_step pc st) as K.
  destruct (hot_step_sim pc st Hd) as [Hdef | [-> | Hfull]]; [| by eexists |].
  - destruct (hot_step cfg pc st); [done | by eexists].
  - rewrite <- Hfull. destruct (hot_step cfg pc st) as [pc1 st1 |]; [| by eexists].
    cbn. destruct K as (Kd & _). apply IH. congruence.
Qed.

Lemma single_loop_total n pc st r :
  Full.loop cfg false n pc st = Some r -> exists r', Full.loop cfg true n pc st = Some r'.
Proof.
  revert pc st; induction n as [| n IH]; intros pc st; cbn; [done |].
  destruct (single_step pc st) as [-> | (pc1 & st1 & -> & ->)]; [| by eexists].
  destruct (Full.step cfg false pc st); [apply IH | by eexists].
Qed.

(** Entering either interpreter in the middle of a good run is resuming it. *)
Lemma enter_full single n pc st :
  good_run pc st -> Full.tcg_qemu_tb_exec_tci_full cfg single n pc st = Full.loop cfg single n pc st.
Proof.
  intros H. apply good_run_here in H as (Hp & H1 & H2). unfold Full.tcg_qemu_tb_exec_tci_full.
  destruct (Z.eqb_spec pc 0); [done |]. by rewrite setup_id.
Qed.

Lemma enter_hot n pc st :
  good_run pc (slow st) -> tci_hot_loop cfg n pc st = hot_loop cfg n pc st.
Proof.
  intros H. apply good_run_here in H as (Hp & H1 & H2). unfold tci_hot_loop.
  destruct (Z.eqb_spec pc 0); [done |]. by rewrite setup_id.
Qed.

(** ** Assembling the parts *)

Lemma slow_of_depth st : bb_fast_tci_depth st = 0 -> slow st = st.
Proof. destruct st; unfold slow, set_depth; cbn. by intros ->. Qed.

Lemma steps_depth k pc st pc' st' :
  steps k pc st = Some (pc', st') -> bb_fast_tci_depth st' = bb_fast_tci_depth st.
Proof.
  revert pc st; induction k as [| k IH]; intros pc st; cbn; [by intros [= <- <-] |].
  pose proof (keeps_step false pc st) as K. destruct (Full.step cfg false pc st) as [pc1 st1 |]; [| done].
  destruct K as (Kd & _). intros H. rewrite (IH _ _ H). done.
Qed.

(** A result of the full interpreter has depth 0, and no deferral. *)
Lemma loop_result single n pc st r :
  bb_fast_tci_depth st = 0 -> bb_force_slow_tci st = 0 ->
  Full.loop cfg single n pc st = Some r -> slow_r r = r /\ ~ deferred r.
Proof.
  revert pc st; induction n as [| n IH]; intros pc st Hd Hf; cbn; [done |].
  pose proof (keeps_step single pc st) as K. destruct (Full.step cfg single pc st) as [pc1 st1 | r1].
  - destruct K as (Kd & Kf & _). apply IH; congruence.
  - intros [= <-]. destruct r1 as [v s | s | |]; cbn [slow_r deferred]; try (split; [done | tauto]).
    + destruct K as (Kd & _). split; [| tauto]. by rewrite slow_of_depth by congruence.
    + destruct K as (_ & _ & Kd & Kf). rewrite slow_of_depth by congruence. split; [done |].
      rewrite Kf by done. lia.
Qed.

Lemma set_cold_slow p st :
  bb_cold_ptr st = 0 -> set_cold 0 (set_depth 0 (set_cold p st)) = slow st.
Proof. destruct st; unfold slow, set_depth, set_cold; cbn. by intros ->. Qed.

Lemma set_resume_id p st : bb_resume_ptr st = 0 -> set_resume 0 (set_resume p st) = st.
Proof. destruct st; unfold set_resume; cbn. by intros ->. Qed.

(** One round of [tci_exec]'s loop from the middle of a run: it defers, ends as
    the full interpreter does, or goes on further along the same run. *)
Lemma exec_round f pc st r :
  good_run pc st -> clean st -> bb_fast_tci_depth st = 0 ->
  exec_loop cfg (S f) pc st = Some r ->
  deferred r \/ (exists n, Full.loop cfg false n pc st = Some (slow_r r)) \/
  (exists k pc' st', steps (S k) pc st = Some (pc', st') /\ clean st' /\
     exec_loop cfg f pc' st' = Some r).
Proof.
  intros Hg Hc Hd. cbn [exec_loop].
  rewrite enter_hot by (change (slow (set_depth 1 st)) with (slow st); by rewrite slow_of_depth).
  destruct (hot_loop cfg f pc (set_depth 1 st)) as [r0 |] eqn:E0; [| done].
  pose proof (hot_loop_end f pc (set_depth 1 st) r0 eq_refl Hc E0) as He. unfold hot_end in He.
  change (slow (set_depth 1 st)) with (slow st) in He. rewrite slow_of_depth in He by done.
  destruct He as [Hdef | [(k & pc' & s' & Hs & _ & -> & Hc') | [Hl Hcold]]].
  - destruct r0; try done. intros [= <-]. by left.
  - pose proof (good_run_steps _ _ _ _ _ Hg Hs) as Hg'. pose proof (good_run_here _ _ Hg') as (Hp & _).
    change (bb_cold_ptr (set_depth 0 (set_cold pc' s'))) with pc'.
    destruct (Z.eqb_spec pc' 0); [done |]. rewrite set_cold_slow by apply Hc'. rewrite enter_full by done.
    destruct (Full.loop cfg true f pc' (slow s')) as [r1 |] eqn:E1; [| done].
    destruct (single_loop_end f pc' (slow s') r1 Hc' E1) as [(k2 & pc2 & s2 & Hs2 & _ & -> & Hc2) | [Hl Hres]].
    + pose proof (good_run_steps _ _ _ _ _ Hg' Hs2) as Hg2. pose proof (good_run_here _ _ Hg2) as (Hp2 & _).
      change (bb_resume_ptr (set_resume pc2 s2)) with pc2. destruct (Z.eqb_spec pc2 0); [done |].
      rewrite set_resume_id by apply Hc2. intros Hr. right; right. exists (k + k2)%nat, pc2, s2.
      split_and!; [| done | done]. rewrite <- Nat.add_succ_r. by rewrite (steps_app _ _ _ _ _ _ Hs).
    + assert (Hr1 : slow_r r1 = r1).
      { destruct Hc' as (_ & _ & Hf). by destruct (loop_result true f pc' (slow s') r1 eq_refl Hf E1). }
      intros Hr. assert (r = r1) as ->.
      { destruct r1 as [v s1 | | |]; try congruence. rewrite Hres in Hr. cbn in Hr. congruence. }
      right; left. exists (k + f)%nat. by rewrite (loop_steps _ _ _ _ _ _ Hs), Hr1.
  - intros Hr. right; left. exists f. rewrite Hl. f_equal. destruct r0 as [v s0 | | |]; try congruence.
    change (bb_cold_ptr (set_depth 0 s0)) with (bb_cold_ptr s0) in Hr. rewrite Hcold in Hr.
    cbn in Hr. injection Hr as <-. done.
Qed.

Lemma exec_loop_sound f pc st r :
  good_run pc st -> clean st -> bb_fast_tci_depth st = 0 ->
  exec_loop cfg f pc st = Some r ->
  deferred r \/ exists n, Full.loop cfg false n pc st = Some (slow_r r).
Proof.
  revert pc st; induction f as [| f IH]; intros pc st Hg Hc Hd Hr; [done |].
  destruct (exec_round f pc st r Hg Hc Hd Hr) as [H | [H | (k & pc' & st' & Hs & Hc' & Hr')]]; [by left | by right |].
  destruct (IH pc' st') as [H | [n H]]; [by eapply good_run_steps | done | | done | by left |].
  { rewrite (steps_depth _ _ _ _ _ Hs). done. }
  right. exists (S k + n)%nat. by rewrite (loop_steps _ _ _ _ _ _ Hs).
Qed.

Lemma tci_hot_loop_mono n m p st r :
  (n <= m)%nat -> tci_hot_loop cfg n p st = Some r -> tci_hot_loop cfg m p st = Some r.
Proof.
  intros Hm. unfold tci_hot_loop. case_match; [case_match; [| done] |]; by apply hot_loop_mono.
Qed.

Lemma full_mono single n m p st r :
  (n <= m)%nat -> Full.tcg_qemu_tb_exec_tci_full cfg single n p st = Some r ->
  Full.tcg_qemu_tb_exec_tci_full cfg single m p st = Some r.
Proof.
  intros Hm. unfold Full.tcg_qemu_tb_exec_tci_full.
  case_match; [case_match; [| done] |]; by apply loop_mono.
Qed.

Lemma exec_loop_mono n m p st r :
  (n <= m)%nat -> exec_loop cfg n p st = Some r -> exec_loop cfg m p st = Some r.
Proof.
  revert m p st; induction n as [| n IH]; intros m p st Hm; [done |].
  destruct m as [| m]; [lia |]. cbn [exec_loop].
  destruct (tci_hot_loop cfg n p (set_depth 1 st)) as [r0 |] eqn:E0; [| done].
  rewrite (tci_hot_loop_mono n m _ _ _ ltac:(lia) E0). destruct r0 as [v s | | |]; try done.
  case_match; [done |].
  destruct (Full.tcg_qemu_tb_exec_tci_full cfg true n _ _) as [r1 |] eqn:E1; [| done].
  rewrite (full_mono true n m _ _ _ ltac:(lia) E1). destruct r1; try done.
  case_match; [done |]. apply IH. lia.
Qed.

(** The cold part of a round: what the single run from [pc] leaves to do. *)
Lemma exec_after_cold n pc st r :
  good_run pc st -> clean st -> bb_fast_tci_depth st = 0 -> Full.loop cfg false n pc st = Some r ->
  exists r1, Full.loop cfg true n pc st = Some r1 /\
    ((exists k pc' s', steps (S k) pc st = Some (pc', s') /\ r1 = Ret 0 (set_resume pc' s') /\
        clean s' /\ good_run pc' s' /\ (S k <= n)%nat /\ Full.loop cfg false (n - S k) pc' s' = Some r) \/
     (r1 = r /\ match r1 with Ret _ s => bb_resume_ptr s = 0 | _ => True end)).
Proof.
  intros Hg Hc Hd Hl. destruct (single_loop_total n pc st r Hl) as [r1 E1]. exists r1. split; [done |].
  destruct (single_loop_end n pc st r1 Hc E1) as [(k & pc' & s' & Hs & _ & -> & Hc') | [Hl' Hres]].
  - left. exists k, pc', s'. destruct (loop_after_steps _ _ _ _ _ _ _ Hs Hl) as [Hk Hl'].
    split_and!; try done. by eapply good_run_steps.
  - right. split; [congruence | done].
Qed.

Lemma exec_loop_complete n pc st r :
  good_run pc st -> clean st -> bb_fast_tci_depth st = 0 ->
  Full.loop cfg false n pc st = Some r ->
  exists f r', exec_loop cfg f pc st = Some r' /\ (deferred r' \/ slow_r r' = r).
Proof.
  revert pc st; induction n as [n IH] using lt_wf_ind; intros pc st Hg Hc Hd Hl.
  destruct (hot_loop_total n pc (set_depth 1 st) r eq_refl) as [r0 E0].
  { change (slow (set_depth 1 st)) with (slow st). by rewrite slow_of_depth. }
  pose proof (hot_loop_end n pc (set_depth 1 st) r0 eq_refl Hc E0) as He. unfold hot_end in He.
  change (slow (set_depth 1 st)) with (slow st) in He. rewrite slow_of_depth in He by done.
  assert (Eh : forall f, (n <= f)%nat -> tci_hot_loop cfg f pc (set_depth 1 st) = Some r0).
  { intros f Hf. rewrite enter_hot; [by eapply hot_loop_mono |].
    change (slow (set_depth 1 st)) with (slow st). by rewrite slow_of_depth. }
  destruct He as [Hdef | [(k & pc' & s' & Hs & _ & -> & Hc') | [Hl0 Hcold]]].
  - exists (S n), r0. cbn [exec_loop]. rewrite Eh by done. destruct r0; try done. split; [done | by left].
  - destruct (loop_after_steps _ _ _ _ _ _ _ Hs Hl) as [Hk Hl'].
    pose proof (good_run_steps _ _ _ _ _ Hg Hs) as Hg'. destruct (good_run_here _ _ Hg') as (Hp & _).
    destruct (exec_after_cold (n - k) pc' (slow s') r Hg' Hc' eq_refl Hl') as (r1 & E1 & Hr1).
    assert (Ef : forall f, (n <= f)%nat ->
              Full.tcg_qemu_tb_exec_tci_full cfg true f pc' (slow s') = Some r1)
      by (intros f Hf; rewrite enter_full by done; eapply loop_mono; [| done]; lia).
    assert (Ec : forall f, (n <= f)%nat -> exec_loop cfg (S f) pc st =
              match r1 with
              | Ret v s => if bb_resume_ptr s =? 0 then Some (Ret v s)
                           else exec_loop cfg f (bb_resume_ptr s) (set_resume 0 s)
              | other => Some other end).
    { intros f Hf. cbn [exec_loop]. rewrite Eh by done.
      change (bb_cold_ptr (set_depth 0 (set_cold pc' s'))) with pc'. destruct (Z.eqb_spec pc' 0); [done |].
      rewrite set_cold_slow, Ef by (done || apply Hc'). by destruct r1. }
    destruct Hr1 as [(k2 & pc2 & s2 & Hs2 & -> & Hc2 & Hg2 & Hk2 & Hl2) | [-> Hres]].
    + destruct (IH (n - k - S k2)%nat ltac:(lia) pc2 s2 Hg2 Hc2) as (f & r' & Hf & Hr'); [| done |].
      { by rewrite (steps_depth _ _ _ _ _ Hs2). }
      exists (S (max n f)), r'. split; [| done]. rewrite Ec by lia.
      change (bb_resume_ptr (set_resume pc2 s2)) with pc2. destruct (good_run_here _ _ Hg2) as (Hp2 & _).
      destruct (Z.eqb_spec pc2 0); [done |]. rewrite set_resume_id by apply Hc2.
      eapply exec_loop_mono; [| done]. lia.
    + exists (S n), r. rewrite Ec by done.
      assert (Hsl : slow_r r = r) by (destruct Hc as (_ & _ & Hf); by destruct (loop_result false n pc st r Hd Hf Hl)).
      destruct r; try (split; [done | by right]). rewrite Hres. split; [done | by right].
  - exists (S n). cbn [exec_loop]. rewrite Eh by done. rewrite Hl in Hl0. injection Hl0 as ->.
    destruct r0 as [v s0 | | |]; try (eexists; split; [done | by right]).
    change (bb_cold_ptr (set_depth 0 s0)) with (bb_cold_ptr s0). rewrite Hcold.
    eexists; split; [done | by right].
Qed.

(** A terminating run is good when its instructions are. *)
Lemma good_run_of_loop n pc st r :
  good_along n pc st = true -> Full.loop cfg false n pc st = Some r -> good_run pc st.
Proof.
  revert pc st; induction n as [| n IH]; intros pc st; cbn; [done |]. intros Hg.
  apply andb_true_iff in Hg as [Hg Ha]. destruct (Full.step cfg false pc st) as [pc1 st1 | r1] eqn:E.
  - intros Hl m. destruct m as [| m]; cbn; rewrite Hg; [done |]. rewrite E. by apply IH.
  - intros _ m. destruct m as [| m]; cbn; rewrite Hg; [done |]. by rewrite E.
Qed.

(** ** The theorems *)

(** Where a run of the block [ctx.tb_ptr] starts. *)
Definition entry st : option (Z * tci_state W) :=
  off ← load32 (tmem st) (ctx_tb_ptr st);
  Some (u32 (ctx_tb_ptr st + off),
        wr TCG_REG_CALL_STACK (cfg_stack cfg) (wr TCG_AREG0 (cfg_env cfg) st)).

Definition good_entry st : Prop :=
  match entry st with Some (pc, st0) => good_run pc st0 | None => True end.

Lemma full_entry single n st :
  Full.tcg_qemu_tb_exec_tci_full cfg single n 0 st =
  match entry st with Some (pc, st0) => Full.loop cfg single n pc st0 | None => Some Trap end.
Proof.
  unfold Full.tcg_qemu_tb_exec_tci_full, entry. change (0 =? 0) with true. cbv iota.
  by destruct (load32 (tmem st) (ctx_tb_ptr st)).
Qed.

(** The first round enters at the block's code. *)
Lemma exec_entry f st :
  good_entry st -> bb_fast_tci_depth st = 0 ->
  exec_loop cfg (S f) 0 st =
  match entry st with Some (pc, st0) => exec_loop cfg (S f) pc st0 | None => Some Trap end.
Proof.
  unfold good_entry, entry. intros Hg Hd. cbn [exec_loop]. unfold tci_hot_loop at 1. cbn [Z.eqb].
  change (tmem (set_depth 1 st)) with (tmem st). change (ctx_tb_ptr (set_depth 1 st)) with (ctx_tb_ptr st).
  destruct (load32 (tmem st) (ctx_tb_ptr st)) as [off |]; [| done]. cbn [mbind option_bind] in *.
  rewrite enter_hot; [done |].
  change (slow (set_depth 1 ?s)) with (slow s). by rewrite slow_of_depth.
Qed.

Lemma exec_plain fuel st :
  cfg_tune cfg wasm_fast_tci = 0 -> bb_force_slow_tci st = 0 ->
  tci_exec cfg fuel st = Full.tcg_qemu_tb_exec_tci_full cfg false fuel 0 st.
Proof.
  intros Ht Hf. unfold tci_exec. rewrite Ht. cbn [Z.eqb orb]. f_equal.
  destruct st; unfold set_force; cbn in *. by rewrite Hf.
Qed.

Lemma exec_fast fuel st :
  cfg_tune cfg wasm_fast_tci <> 0 -> bb_force_slow_tci st = 0 -> tci_exec cfg fuel st = exec_loop cfg fuel 0 st.
Proof. intros Ht Hf. unfold tci_exec. rewrite Hf. by destruct (Z.eqb_spec (cfg_tune cfg wasm_fast_tci) 0). Qed.

Lemma entry_clean st pc st0 : entry st = Some (pc, st0) -> clean st -> clean st0.
Proof. unfold entry. destruct (load32 (tmem st) (ctx_tb_ptr st)); [| done]. by intros [= _ <-]. Qed.

Lemma entry_depth st pc st0 :
  entry st = Some (pc, st0) -> bb_fast_tci_depth st0 = bb_fast_tci_depth st.
Proof. unfold entry. destruct (load32 (tmem st) (ctx_tb_ptr st)); [| done]. by intros [= _ <-]. Qed.

(** C1: the fast interpreter does nothing the full interpreter does not: whenever
    [tci_exec] returns, longjmps, aborts or traps, the full interpreter alone, on
    the same block and state, ends in the same result - except when a guard
    deferred a device access, which sets [bb_force_slow_tci].  Results are compared
    up to [bb_fast_tci_depth], which the CPU loop resets after a longjmp. *)
Theorem tci_exec_sound fuel st r :
  clean st -> bb_fast_tci_depth st = 0 -> good_entry st ->
  tci_exec cfg fuel st = Some r ->
  deferred r \/ exists n, Full.tcg_qemu_tb_exec_tci_full cfg false n 0 st = Some (slow_r r).
Proof.
  intros Hc Hd Hg. destruct (decide (cfg_tune cfg wasm_fast_tci = 0)) as [Ht | Ht].
  - rewrite exec_plain by (done || apply Hc). intros Hr. right. exists fuel. rewrite Hr. f_equal. symmetry.
    rewrite full_entry in Hr. destruct (entry st) as [[pc st0] |] eqn:E; [| by simplify_eq].
    pose proof (entry_clean _ _ _ E Hc) as (_ & _ & Hf). pose proof (entry_depth _ _ _ E) as Hd0.
    eapply loop_result; [| exact Hf | exact Hr]. congruence.
  - rewrite exec_fast by (done || apply Hc). destruct fuel as [| f]; [done |].
    rewrite exec_entry by done. intros Hr. unfold good_entry in Hg.
    destruct (entry st) as [[pc st0] |] eqn:E.
    + destruct (exec_loop_sound _ _ _ _ Hg (entry_clean _ _ _ E Hc)
                  ltac:(rewrite (entry_depth _ _ _ E); exact Hd) Hr) as [H | [n H]]; [by left |].
      right. exists n. by rewrite full_entry, E.
    + right. exists O. rewrite full_entry, E. by simplify_eq.
Qed.

(** C2: the fast interpreter gets as far as the full one: when the full
    interpreter alone ends, so does [tci_exec], in the same result unless it
    deferred a device access. *)
Theorem tci_exec_complete n st r :
  clean st -> bb_fast_tci_depth st = 0 -> good_entry st ->
  Full.tcg_qemu_tb_exec_tci_full cfg false n 0 st = Some r ->
  exists fuel r', tci_exec cfg fuel st = Some r' /\ (deferred r' \/ slow_r r' = r).
Proof.
  intros Hc Hd Hg Hr. destruct (decide (cfg_tune cfg wasm_fast_tci = 0)) as [Ht | Ht].
  - exists n, r. rewrite exec_plain by (done || apply Hc). split; [done |]. right.
    rewrite full_entry in Hr. destruct (entry st) as [[pc st0] |] eqn:E; [| by simplify_eq].
    pose proof (entry_clean _ _ _ E Hc) as (_ & _ & Hf). pose proof (entry_depth _ _ _ E) as Hd0.
    eapply loop_result; [| exact Hf | exact Hr]. congruence.
  - rewrite full_entry in Hr. pose proof Hg as Hg'. unfold good_entry in Hg'.
    destruct (entry st) as [[pc st0] |] eqn:E.
    + destruct (exec_loop_complete _ _ _ _ Hg' (entry_clean _ _ _ E Hc)
                  ltac:(rewrite (entry_depth _ _ _ E); exact Hd) Hr) as (f & r' & Hf & Hr').
      exists (S f), r'. split; [| done]. rewrite exec_fast by (done || apply Hc).
      rewrite exec_entry, E by done. by eapply exec_loop_mono; [| exact Hf]; lia.
    + exists 1%nat, Trap. rewrite exec_fast by (done || apply Hc). rewrite exec_entry, E by done.
      split; [done |]. right. by simplify_eq.
Qed.

(** After a guard deferred a device access, the next run of the block goes
    through the full interpreter, clears the request, and does not defer again. *)
Theorem deferred_run_completes fuel st r :
  bb_force_slow_tci st <> 0 -> bb_fast_tci_depth st = 0 ->
  tci_exec cfg fuel st = Some r ->
  Full.tcg_qemu_tb_exec_tci_full cfg false fuel 0 (set_force 0 st) = Some r /\ ~ deferred r.
Proof.
  intros Hf Hd. unfold tci_exec. destruct (Z.eqb_spec (bb_force_slow_tci st) 0); [done |].
  rewrite orb_true_r. intros Hr. split; [done |]. rewrite full_entry in Hr.
  destruct (entry (set_force 0 st)) as [[pc st0] |] eqn:E; [| injection Hr as <-; tauto].
  assert (H0 : bb_force_slow_tci st0 = 0).
  { unfold entry in E. destruct (load32 _ (ctx_tb_ptr _)); [| done]. by injection E as _ <-. }
  eapply loop_result; [| exact H0 | exact Hr]. by rewrite (entry_depth _ _ _ E).
Qed.

End Equiv.

(** ** A concrete machine *)

(** Two blocks for one vCPU: the first multiplies (an operation the hot loop
    hands over) and jumps through a register to the second, which adds and
    leaves. *)
Module Demo.

Fixpoint put_words (m : mem) (a : Z) (ws : list Z) : mem :=
  match ws with
  | [] => m
  | w :: ws =>
      put_words (<[a := w mod 256]> (<[a + 1 := (w / 256) mod 256]>
        (<[a + 2 := (w / 65536) mod 256]> (<[a + 3 := (w / 16777216) mod 256]> m)))) (a + 4) ws
  end.

(** The device model: one helper (table index 77) whose call may switch
    coroutines: it defers below the fast interpreter. *)
#[global] Instance helpers : Helpers unit := {
  lookup_tb_ptr_func := 5;
  helper_lookup_tb_ptr _ h := HRet 0 (h_mem h) tt;
  helper_call f _ _ h :=
    if (f =? 77) && (h_depth h =? 1) then HDefer (h_mem h) tt else HRet 9 (h_mem h) tt;
  helper_ret_i128 _ _ _ _ h := HRet (0, 0) (h_mem h) tt;
  helper_arg_i128 _ _ _ _ _ h := HRet tt (h_mem h) tt;
  ffi_call _ _ _ _ _ h := HRet tt (h_mem h) tt;
  cif_sizes _ := [];
  helper_ld_mmu _ _ _ _ _ h := HRet 0 (h_mem h) tt;
  helper_st_mmu _ _ _ _ _ _ h := HRet tt (h_mem h) tt
}.

#[global] Instance helpers_guarded : GuardedHelpers unit.
Proof.
  split; intros; intros ra0 m0 w0; cbn; try (by split; [left | intros]).
  destruct (f =? 77); cbn; [| by split; [left | intros]].
  split; [right; by do 2 eexists | by intros].
Qed.

Definition thread : wthread :=
  {| cur_core_num := 0; all_cores_num := 1; export_vec_off := 8; counter_vec_off := 16 |}.

Definition cfg : tci_cfg :=
  {| cfg_env := 4096; cfg_stack := 8192; cfg_thread := thread;
     cfg_tune := set wasm_fast_tci 1 tune_default |}.

(** Header words (code offset, export vector, counter vector), then the code. *)
Definition block1 : list Z :=
  [20; 4; 0; 4; 0;
   emit INDEX_op_tci_movi (O_ri 0 7);
   emit INDEX_op_tci_movi (O_ri 1 6);
   emit INDEX_op_mul_i64 (O_rrr 2 0 1);
   emit INDEX_op_tci_movi (O_ri 3 512);
   emit INDEX_op_goto_ptr (O_r 3)].

Definition block2 : list Z :=
  [20; 4; 0; 4; 0;
   emit INDEX_op_add_i64 (O_rrr 4 2 2);
   Emit.op_v INDEX_op_exit_tb].

(** A block that calls helper 77 through the pool entry after its code. *)
Definition block3 : list Z :=
  [20; 4; 0; 4; 0;
   deposit32 (Emit.op_v INDEX_op_call) 12 20 4;
   Emit.op_v INDEX_op_exit_tb;
   77; 0; 88; 0].

Definition memory : mem := put_words (put_words (put_words ∅ 256 block1) 512 block2) 768 block3.

Definition start (tb force : Z) : tci_state unit :=
  {| regs := replicate 16 0; ctx_tb_ptr := tb; tci_tb_ptr := 0; bb_cold_ptr := 0;
     bb_resume_ptr := 0; bb_fast_tci_depth := 0; bb_force_slow_tci := force;
     tmem := memory; world := tt |}.

Lemma start_clean : clean (start 256 0).
Proof. by repeat split. Qed.

Lemma start_good : good_entry cfg (start 256 0).
Proof.
  unfold good_entry. destruct (entry cfg (start 256 0)) as [[pc st0] |] eqn:E; [| done].
  assert (Hb : match entry cfg (start 256 0) with
               | Some (pc, st0) => good_along cfg 20 pc st0 && bool_decide (is_Some (Full.loop cfg false 20 pc st0))
               | None => false end = true) by (vm_compute; reflexivity).
  rewrite E in Hb. apply andb_true_iff in Hb as [Ha Hl]. apply bool_decide_eq_true in Hl as [r Hl].
  by eapply good_run_of_loop.
Qed.

End Demo.

(** [tci_exec] runs the two blocks of [Demo] through both interpreters and
    leaves 84 in register 4. *)
Lemma tci_exec_sound_witness :
  match tci_exec Demo.cfg 30 (Demo.start 256 0) with
  | Some (Ret v st) =>
      rd st 4 = 84 /\
      exists n, Full.tcg_qemu_tb_exec_tci_full Demo.cfg false n 0 (Demo.start 256 0) = Some (Ret v (slow st))
  | _ => False
  end.
Proof.
  assert (Hv : match tci_exec Demo.cfg 30 (Demo.start 256 0) with
               | Some (Ret v st) => rd st 4 =? 84 | _ => false end = true) by (vm_compute; reflexivity).
  destruct (tci_exec Demo.cfg 30 (Demo.start 256 0)) as [[v st | | |] |] eqn:E;
    try discriminate Hv.
  split; [exact (proj1 (Z.eqb_eq _ _) Hv) |].
  destruct (tci_exec_sound Demo.cfg 30 (Demo.start 256 0) (Ret v st) Demo.start_clean eq_refl
              Demo.start_good E) as [H | H]; [destruct H | exact H].
Defined.

Lemma tci_exec_complete_witness :
  exists fuel r', tci_exec Demo.cfg fuel (Demo.start 256 0) = Some r' /\
    (deferred r' \/ Some (slow_r r') = Full.tcg_qemu_tb_exec_tci_full Demo.cfg false 20 0 (Demo.start 256 0)).
Proof.
  assert (Hv : is_Some (Full.tcg_qemu_tb_exec_tci_full Demo.cfg false 20 0 (Demo.start 256 0)))
    by (apply (bool_decide_unpack _); vm_compute; reflexivity).
  destruct Hv as [r E]. rewrite E.
  destruct (tci_exec_complete Demo.cfg 20 (Demo.start 256 0) r Demo.start_clean eq_refl
              Demo.start_good E) as (f & r' & Hf & Hr).
  exists f, r'. split; [exact Hf |]. destruct Hr as [Hr | Hr]; [left; exact Hr | right; rewrite Hr; reflexivity].
Defined.

(** The first run of the third block defers its device access; the second, with
    the request set, performs it. *)
Lemma deferred_run_completes_witness :
  match tci_exec Demo.cfg 30 (Demo.start 768 0) with
  | Some (Longjmp st) => deferred (Longjmp st)
  | _ => False
  end /\
  match tci_exec Demo.cfg 30 (Demo.start 768 1) with
  | Some r => ~ deferred r
  | None => False
  end.
Proof.
  split; [vm_compute; reflexivity |].
  assert (Hv : is_Some (tci_exec Demo.cfg 30 (Demo.start 768 1)))
    by (apply (bool_decide_unpack _); vm_compute; reflexivity).
  destruct Hv as [r E]. rewrite E.
  exact (proj2 (deferred_run_completes Demo.cfg 30 (Demo.start 768 1) r ltac:(discriminate) eq_refl E)).
Defined.
