(* ===== verification/Wasm.v ===== *)
(** * Straight-line WebAssembly

    The instructions the backend writes for one operation, named by their opcode
    bytes, with their meaning and their typing rules from the WebAssembly
    specification.  An instruction either continues, traps, or is stuck for want of
    operands of the right type; code that validates is never stuck.

    Local 0 is the context, locals 1 and 2 are 32-bit temporaries, 3 to 7 64-bit
    temporaries; 8 to 23 are the TCG registers and 24 the block pointer when
    registers are locals, which otherwise are the globals 0 to 15 and 16. *)
From S2P Require Import Prelude BitOps HostUtils Memory.

Inductive vt := T32 | T64.

#[global] Instance vt_eq_dec : EqDecision vt.
Proof. solve_decision. Defined.

Inductive val := V32 (z : Z) | V64 (z : Z).

Definition type_of (v : val) : vt := match v with V32 _ => T32 | V64 _ => T64 end.
Definition mk (t : vt) (z : Z) : val := match t with T32 => V32 z | T64 => V64 z end.
Definition raw (v : val) : Z := match v with V32 z | V64 z => z end.

(** An opcode byte alone; with a variable index; constants; a load or store with
    alignment and offset; [if] with a block type (0x40: no result). *)
Inductive winstr :=
| Plain (op : Z)
| Var (op i : Z)
| Const32 (v : Z)
| Const64 (v : Z)
| MemOp (op align off : Z)
| If (bt : Z) (th el : list winstr).

(** ** Numeric instructions *)

Definition wclz (w a : Z) : Z := if a =? 0 then w else w - 1 - Z.log2 a.
Definition wctz (w a : Z) : Z := if a =? 0 then w else builtin_ctz a.
Definition wrotl (w a b : Z) : Z := Z.lor (uw w (Z.shiftl a (b mod w))) (Z.shiftr a (w - b mod w)).
Definition wrotr (w a b : Z) : Z := Z.lor (Z.shiftr a (b mod w)) (uw w (Z.shiftl a (w - b mod w))).

(** One operand: its type, the result's type, the function. *)
Definition unop (op : Z) : option (vt * vt * (Z -> Z)) :=
  match op with
  | 0x45 => Some (T32, T32, fun a => b2z (a =? 0))       (* i32.eqz *)
  | 0x50 => Some (T64, T32, fun a => b2z (a =? 0))       (* i64.eqz *)
  | 0x67 => Some (T32, T32, wclz 32)                     (* i32.clz *)
  | 0x68 => Some (T32, T32, wctz 32)                     (* i32.ctz *)
  | 0x69 => Some (T32, T32, builtin_popcount)            (* i32.popcnt *)
  | 0x79 => Some (T64, T64, wclz 64)                     (* i64.clz *)
  | 0x7a => Some (T64, T64, wctz 64)                     (* i64.ctz *)
  | 0x7b => Some (T64, T64, builtin_popcount)            (* i64.popcnt *)
  | 0xa7 => Some (T64, T32, u32)                         (* i32.wrap_i64 *)
  | 0xac => Some (T32, T64, fun a => u64 (s32 a))        (* i64.extend_i32_s *)
  | 0xad => Some (T32, T64, fun a => a)                  (* i64.extend_i32_u *)
  | 0xc2 => Some (T64, T64, fun a => u64 (s8 a))         (* i64.extend8_s *)
  | 0xc3 => Some (T64, T64, fun a => u64 (s16 a))        (* i64.extend16_s *)
  | _ => None
  end.

(** The comparisons at [base]: eqz eq ne lt_s lt_u gt_s gt_u le_s le_u ge_s ge_u. *)
Definition relop (base w op : Z) : option (Z -> Z -> bool) :=
  match op - base with
  | 1 => Some Z.eqb
  | 2 => Some (fun a b => negb (a =? b))
  | 3 => Some (fun a b => sw w a <? sw w b)
  | 4 => Some Z.ltb
  | 5 => Some (fun a b => sw w b <? sw w a)
  | 6 => Some (fun a b => b <? a)
  | 7 => Some (fun a b => sw w a <=? sw w b)
  | 8 => Some Z.leb
  | 9 => Some (fun a b => sw w b <=? sw w a)
  | 10 => Some (fun a b => b <=? a)
  | _ => None
  end.

(** The arithmetic at [base]: add sub mul div_s div_u rem_s rem_u and or xor shl
    shr_s shr_u rotl rotr; a result of [None] is a trap. *)
Definition arith (base w op : Z) : option (Z -> Z -> option Z) :=
  match op - base with
  | 0 => Some (fun a b => Some (uw w (a + b)))
  | 1 => Some (fun a b => Some (uw w (a - b)))
  | 2 => Some (fun a b => Some (uw w (a * b)))
  | 3 => Some (fun a b => uw w <$> sdiv w (sw w a) (sw w b))
  | 4 => Some (fun a b => udiv a b)
  | 5 => Some (fun a b => uw w <$> srem w (sw w a) (sw w b))
  | 6 => Some (fun a b => urem a b)
  | 7 => Some (fun a b => Some (Z.land a b))
  | 8 => Some (fun a b => Some (Z.lor a b))
  | 9 => Some (fun a b => Some (Z.lxor a b))
  | 10 => Some (fun a b => Some (uw w (Z.shiftl a (b mod w))))
  | 11 => Some (fun a b => Some (uw w (Z.shiftr (sw w a) (b mod w))))
  | 12 => Some (fun a b => Some (Z.shiftr a (b mod w)))
  | 13 => Some (fun a b => Some (wrotl w a b))
  | 14 => Some (fun a b => Some (wrotr w a b))
  | _ => None
  end.

(** Two operands of one type, the result's type, the function. *)
Definition binop (op : Z) : option (vt * vt * (Z -> Z -> option Z)) :=
  let rel t f := (t, T32, fun a b => Some (b2z (f a b))) in
  match relop 0x45 32 op, relop 0x50 64 op, arith 0x6a 32 op, arith 0x7c 64 op with
  | Some f, _, _, _ => Some (rel T32 f)
  | _, Some f, _, _ => Some (rel T64 f)
  | _, _, Some f, _ => Some (T32, T32, f)
  | _, _, _, Some f => Some (T64, T64, f)
  | _, _, _, _ => None
  end.

(** Loads: result type, number of bytes, extension; stores: operand type, bytes. *)
Definition loadop (op : Z) : option (vt * nat * (Z -> Z)) :=
  match op with
  | 0x28 => Some (T32, 4%nat, fun v => v)                (* i32.load *)
  | 0x29 => Some (T64, 8%nat, fun v => v)                (* i64.load *)
  | 0x30 => Some (T64, 1%nat, fun v => u64 (s8 v))       (* i64.load8_s *)
  | 0x31 => Some (T64, 1%nat, fun v => v)                (* i64.load8_u *)
  | 0x32 => Some (T64, 2%nat, fun v => u64 (s16 v))      (* i64.load16_s *)
  | 0x33 => Some (T64, 2%nat, fun v => v)                (* i64.load16_u *)
  | 0x34 => Some (T64, 4%nat, fun v => u64 (s32 v))      (* i64.load32_s *)
  | 0x35 => Some (T64, 4%nat, fun v => v)                (* i64.load32_u *)
  | _ => None
  end.

Definition storeop (op : Z) : option (vt * nat) :=
  match op with
  | 0x36 => Some (T32, 4%nat)                            (* i32.store *)
  | 0x37 => Some (T64, 8%nat)                            (* i64.store *)
  | 0x3c => Some (T64, 1%nat)                            (* i64.store8 *)
  | 0x3d => Some (T64, 2%nat)                            (* i64.store16 *)
  | 0x3e => Some (T64, 4%nat)                            (* i64.store32 *)
  | _ => None
  end.

(** ** Execution *)

Record wst := { locs : list Z; globs : list Z; wmem : mem }.

Inductive wres := WOk (w : wst) (stk : list val) | WTrap | WStuck.

Definition wbind (r : wres) (k : wst -> list val -> wres) : wres :=
  match r with WOk w stk => k w stk | WTrap => WTrap | WStuck => WStuck end.

Definition set_loc (i v : Z) (w : wst) : wst :=
  {| locs := <[Z.to_nat i := v]> (locs w); globs := globs w; wmem := wmem w |}.
Definition set_glob (i v : Z) (w : wst) : wst :=
  {| locs := locs w; globs := <[Z.to_nat i := v]> (globs w); wmem := wmem w |}.
Definition set_wmem (m : mem) (w : wst) : wst := {| locs := locs w; globs := globs w; wmem := m |}.

Definition block_type (bt : Z) : option (list vt) :=
  match bt with 0x40 => Some [] | 0x7f => Some [T32] | 0x7e => Some [T64] | _ => None end.

Section Exec.
(** Whether the function declares locals for the registers. *)
Context (wasm_reg_locals : bool).

Definition ltype (i : Z) : option vt :=
  if (0 <=? i) && (i <=? 2) then Some T32
  else if (3 <=? i) && (i <=? if wasm_reg_locals then 24 else 7) then Some T64 else None.

Definition gtype (i : Z) : option vt := if (0 <=? i) && (i <=? 16) then Some T64 else None.

(** Pops a value of type [t]. *)
Definition pop (t : vt) (stk : list val) (k : Z -> list val -> wres) : wres :=
  match stk with
  | v :: stk => if decide (type_of v = t) then k (raw v) stk else WStuck
  | [] => WStuck
  end.

Definition exec_plain (op : Z) (w : wst) (stk : list val) : wres :=
  match unop op, binop op with
  | Some (t, r, f), _ => pop t stk (fun a stk => WOk w (mk r (f a) :: stk))
  | None, Some (t, r, f) =>
      pop t stk (fun b stk => pop t stk (fun a stk =>
        match f a b with Some v => WOk w (mk r v :: stk) | None => WTrap end))
  | None, None => if op =? 0x01 then WOk w stk else WStuck
  end.

Definition typed (o : option vt) (k : vt -> wres) : wres := match o with Some t => k t | None => WStuck end.

Definition exec_var (op i : Z) (w : wst) (stk : list val) : wres :=
  match op with
  | 0x20 => typed (ltype i) (fun t => WOk w (mk t (locs w !!! Z.to_nat i) :: stk))
  | 0x21 => typed (ltype i) (fun t => pop t stk (fun v stk => WOk (set_loc i v w) stk))
  | 0x22 => typed (ltype i) (fun t => pop t stk (fun v stk => WOk (set_loc i v w) (mk t v :: stk)))
  | 0x23 => typed (gtype i) (fun t => WOk w (mk t (globs w !!! Z.to_nat i) :: stk))
  | 0x24 => typed (gtype i) (fun t => pop t stk (fun v stk => WOk (set_glob i v w) stk))
  | _ => WStuck
  end.

(** The effective address is the sum, not reduced to 32 bits. *)
Definition exec_mem (op off : Z) (w : wst) (stk : list val) : wres :=
  match loadop op, storeop op with
  | Some (r, n, ext), _ =>
      pop T32 stk (fun a stk =>
        match load n (wmem w) (a + off) with Some v => WOk w (mk r (ext v) :: stk) | None => WTrap end)
  | None, Some (t, n) =>
      pop t stk (fun v stk => pop T32 stk (fun a stk =>
        match store n (wmem w) (a + off) v with Some m => WOk (set_wmem m w) stk | None => WTrap end))
  | None, None => WStuck
  end.

Fixpoint exec1 (i : winstr) (w : wst) (stk : list val) {struct i} : wres :=
  let run := fix run (c : list winstr) (w : wst) (stk : list val) : wres :=
    match c with
    | [] => WOk w stk
    | i :: c => wbind (exec1 i w stk) (run c)
    end in
  match i with
  | Plain op => exec_plain op w stk
  | Var op i => exec_var op i w stk
  | Const32 v => WOk w (V32 (u32 v) :: stk)
  | Const64 v => WOk w (V64 (u64 v) :: stk)
  | MemOp op _ off => exec_mem op off w stk
  | If bt th el =>
      pop T32 stk (fun c stk =>
        wbind (if c =? 0 then run el w [] else run th w []) (fun w rs =>
          if decide (Some (type_of <$> rs) = block_type bt) then WOk w (rs ++ stk) else WStuck))
  end.

Fixpoint exec (c : list winstr) (w : wst) (stk : list val) : wres :=
  match c with
  | [] => WOk w stk
  | i :: c => wbind (exec1 i w stk) (exec c)
  end.

(** ** Validation: the types on the stack after the code, if it is well typed *)

Definition tpop (t : vt) (ts : list vt) (k : list vt -> option (list vt)) : option (list vt) :=
  match ts with t' :: ts => if decide (t' = t) then k ts else None | [] => None end.

Definition check_plain (op : Z) (ts : list vt) : option (list vt) :=
  match unop op, binop op with
  | Some (t, r, _), _ => tpop t ts (fun ts => Some (r :: ts))
  | None, Some (t, r, _) => tpop t ts (fun ts => tpop t ts (fun ts => Some (r :: ts)))
  | None, None => if op =? 0x01 then Some ts else None
  end.

Definition check_var (op i : Z) (ts : list vt) : option (list vt) :=
  match op with
  | 0x20 => t ← ltype i; Some (t :: ts)
  | 0x21 => t ← ltype i; tpop t ts Some
  | 0x22 => t ← ltype i; tpop t ts (fun ts => Some (t :: ts))
  | 0x23 => t ← gtype i; Some (t :: ts)
  | 0x24 => t ← gtype i; tpop t ts Some
  | _ => None
  end.

Definition check_mem (op : Z) (ts : list vt) : option (list vt) :=
  match loadop op, storeop op with
  | Some (r, _, _), _ => tpop T32 ts (fun ts => Some (r :: ts))
  | None, Some (t, _) => tpop t ts (fun ts => tpop T32 ts Some)
  | None, None => None
  end.

Fixpoint check1 (i : winstr) (ts : list vt) {struct i} : option (list vt) :=
  let chk := fix chk (c : list winstr) (ts : list vt) : option (list vt) :=
    match c with [] => Some ts | i :: c => ts ← check1 i ts; chk c ts end in
  match i with
  | Plain op => check_plain op ts
  | Var op i => check_var op i ts
  | Const32 _ => Some (T32 :: ts)
  | Const64 _ => Some (T64 :: ts)
  | MemOp op _ _ => check_mem op ts
  | If bt th el =>
      tpop T32 ts (fun ts =>
        rs ← block_type bt;
        if decide (chk th [] = Some rs /\ chk el [] = Some rs) then Some (rs ++ ts) else None)
  end.

Fixpoint check (c : list winstr) (ts : list vt) : option (list vt) :=
  match c with [] => Some ts | i :: c => ts ← check1 i ts; check c ts end.

(** ** Validated code is never stuck *)

(** Induction over instructions and the lists inside them. *)
Lemma winstr_list_ind (P : winstr -> Prop) :
  (forall op, P (Plain op)) -> (forall op i, P (Var op i)) -> (forall v, P (Const32 v)) -> (forall v, P (Const64 v)) ->
  (forall op a off, P (MemOp op a off)) -> (forall bt th el, Forall P th -> Forall P el -> P (If bt th el)) ->
  forall i, P i.
Proof.
  intros HP HV H32 H64 HM HI. fix F 1. intros [op | op i | v | v | op a off | bt th el]; [done .. |]. apply HI.
  - induction th as [| i th IH]; constructor; [apply F | exact IH].
  - induction el as [| i el IH]; constructor; [apply F | exact IH].
Qed.

(** The inner loops of [exec1] and [check1] are [exec] and [check]. *)
Lemma exec1_if bt th el w stk : exec1 (If bt th el) w stk =
  pop T32 stk (fun c stk => wbind (if c =? 0 then exec el w [] else exec th w []) (fun w rs =>
    if decide (Some (type_of <$> rs) = block_type bt) then WOk w (rs ++ stk) else WStuck)).
Proof. done. Qed.

Lemma check1_if bt th el ts : check1 (If bt th el) ts =
  tpop T32 ts (fun ts => rs ← block_type bt;
    if decide (check th [] = Some rs /\ check el [] = Some rs) then Some (rs ++ ts) else None).
Proof. done. Qed.

(** What validation promises of a run that ends in [r] from a stack below [ts']. *)
Definition well_ends (ts : list vt) (r : wres) : Prop :=
  match r with WOk _ stk => type_of <$> stk = ts | WTrap => True | WStuck => False end.

Lemma type_of_mk t z : type_of (mk t z) = t.
Proof. by destruct t. Qed.

Lemma pop_sound t stk ts' kt k :
  tpop t (type_of <$> stk) kt = Some ts' ->
  (forall a stk', type_of <$> stk = t :: (type_of <$> stk') -> kt (type_of <$> stk') = Some ts' -> well_ends ts' (k a stk')) ->
  well_ends ts' (pop t stk k).
Proof.
  destruct stk as [| v stk]; cbn [tpop pop fmap list_fmap]; [done |]. case_decide; [| done].
  intros E Hk. apply Hk; [by subst | done].
Qed.

Ltac pop_tac := eapply pop_sound; [eassumption |]; cbv beta;
  let E := fresh "Ep" in let a := fresh "a" in let s := fresh "s" in intros a s _ E.

Lemma plain_sound op w stk ts' : check_plain op (type_of <$> stk) = Some ts' -> well_ends ts' (exec_plain op w stk).
Proof.
  unfold check_plain, exec_plain. destruct (unop op) as [[[t r] f] |].
  { intros E. pop_tac. injection Ep as <-. cbn. by rewrite type_of_mk. }
  destruct (binop op) as [[[t r] f] |].
  { intros E. pop_tac. pop_tac. injection Ep0 as <-. destruct (f _ _); cbn; [by rewrite type_of_mk | done]. }
  destruct (op =? 1); [| done]. by intros [= <-].
Qed.

Lemma var_sound op i w stk ts' : check_var op i (type_of <$> stk) = Some ts' -> well_ends ts' (exec_var op i w stk).
Proof.
  unfold check_var, exec_var. repeat case_match; try done;
    match goal with |- context [ltype i] => destruct (ltype i) as [t |] | _ => destruct (gtype i) as [t |] end; cbn; try done;
    try (intros [= <-]; cbn; by rewrite type_of_mk); intros E; pop_tac; injection Ep as <-; cbn; by rewrite ?type_of_mk.
Qed.

Lemma mem_sound op off w stk ts' : check_mem op (type_of <$> stk) = Some ts' -> well_ends ts' (exec_mem op off w stk).
Proof.
  unfold check_mem, exec_mem. destruct (loadop op) as [[[r n] ext] |].
  { intros E. pop_tac. injection Ep as <-. destruct (load _ _ _); cbn; [by rewrite type_of_mk | done]. }
  destruct (storeop op) as [[t n] |]; [| done]. intros E. pop_tac. pop_tac. injection Ep0 as <-.
  by destruct (store _ _ _ _).
Qed.

Definition sound1 (i : winstr) : Prop :=
  forall w stk ts', check1 i (type_of <$> stk) = Some ts' -> well_ends ts' (exec1 i w stk).

Lemma exec_sound_list c : Forall sound1 c ->
  forall w stk ts', check c (type_of <$> stk) = Some ts' -> well_ends ts' (exec c w stk).
Proof.
  induction 1 as [| i c Hi _ IH]; intros w stk ts'; cbn [check exec]; [by intros [= <-] |].
  destruct (check1 i _) as [ts1 |] eqn:E; cbn; [| done]. intros Ec.
  specialize (Hi w stk _ E). destruct (exec1 i w stk) as [w1 stk1 | |]; cbn in *; [| done | done].
  apply IH. by rewrite Hi.
Qed.

Lemma exec1_sound i : sound1 i.
Proof.
  induction i as [op | op i | v | v | op a off | bt th el IHth IHel] using winstr_list_ind; intros w stk ts'.
  - apply plain_sound.
  - apply var_sound.
  - by intros [= <-].
  - by intros [= <-].
  - apply mem_sound.
  - rewrite check1_if, exec1_if. intros E. pop_tac.
    destruct (block_type bt) as [rs |] eqn:Eb; cbn in Ep; [| done]. case_decide as Hc; [| done]. injection Ep as <-.
    assert (Hr : well_ends rs (if a =? 0 then exec el w [] else exec th w [])).
    { destruct Hc as [Hth Hel]. destruct (a =? 0); by apply exec_sound_list. }
    destruct (if a =? 0 then _ else _) as [w1 rs1 | |]; cbn in *; [| done | done].
    rewrite decide_True by (by rewrite Hr). cbn. by rewrite fmap_app, Hr.
Qed.

(** Code that validates ends with the types it promises or traps. *)
Lemma exec_sound c w stk ts' : check c (type_of <$> stk) = Some ts' -> well_ends ts' (exec c w stk).
Proof. apply exec_sound_list, Forall_true, exec1_sound. Qed.

(** ** Running code in pieces *)

Lemma wexec_app c1 c2 w stk : exec (c1 ++ c2) w stk = wbind (exec c1 w stk) (exec c2).
Proof.
  revert w stk. induction c1 as [| i c1 IH]; intros w stk; [done |]. cbn [app exec].
  destruct (exec1 i w stk); cbn; [apply IH | done | done].
Qed.

Lemma check_app c1 c2 ts : check (c1 ++ c2) ts = (check c1 ts ≫= check c2).
Proof.
  revert ts. induction c1 as [| i c1 IH]; intros ts; [done |]. cbn [app check].
  destruct (check1 i ts); cbn; [apply IH | done].
Qed.

End Exec.
