(* ===== verification/WasmOps.v ===== *)
(** * Emission of the arithmetic

    The straight-line half of tcg/wasm32/tcg-target.c.inc: for every operation
    [tcg_out_op] and its neighbours write interpreter words and WebAssembly side by
    side.  [tcg_wasm_out_op_x] of the source is [op_x] here, [tcg_wasm_out_x] is
    [out_x], [tcg_tci_out_x] is [tci_x] and [tcg_out_x] is [both_x].

    The emitter remembers whether the 32-bit copy of the [env] register is in its
    local ([env_cached]) and which registers have been written ([regs_written]). *)
From S2P Require Import Prelude BitOps HostUtils Memory TcgCond Opcodes TciDecode Wasm.

Record est := { env_cached : bool; regs_written : Z }.

Definition set_cached (b : bool) (e : est) : est := {| env_cached := b; regs_written := regs_written e |}.

(** An emitter appends instructions and changes the emitter's state. *)
Definition E : Type := est -> est * list winstr.

Definition out (c : list winstr) : E := fun e => (e, c).
Definition op (b : Z) : E := out [Plain b].
Definition nothing : E := out [].

Definition andthen (a b : E) : E := fun e =>
  let '(e, c1) := a e in let '(e, c2) := b e in (e, c1 ++ c2).

Definition emits (l : list E) : E := foldr andthen nothing l.

(** [if] with a result type, [else], [end]. *)
Definition if_else (bt : Z) (th el : E) : E := fun e =>
  let '(e, c1) := th e in let '(e, c2) := el e in (e, [If bt c1 c2]).

Definition TCG_REG_TMP : Z := 13.
Definition TCG_REG_R14 : Z := 14.
Definition TCG_REG_R15 : Z := 15.
Definition TMP32_LOCAL_ENV_IDX : Z := 1.
Definition TMP32_LOCAL_0_IDX : Z := 2.
Definition TMP64_0_IDX : Z := 3.
Definition TMP64_2_IDX : Z := 5.
Definition TMP64_4_IDX : Z := 7.
Definition REG_LOCAL_BASE : Z := 8.
Definition tcg_target_reg_index (r : Z) : Z := r.

(** ** Instructions *)

Definition op_i32_eqz := op 0x45.
Definition op_i32_eq := op 0x46.
Definition op_i32_and := op 0x71.
Definition op_i32_or := op 0x72.
Definition op_i32_shl := op 0x74.
Definition op_i32_shr_s := op 0x75.
Definition op_i32_shr_u := op 0x76.
Definition op_i32_rotl := op 0x77.
Definition op_i32_rotr := op 0x78.
Definition op_i32_clz := op 0x67.
Definition op_i32_ctz := op 0x68.
Definition op_i32_popcnt := op 0x69.
Definition op_i32_add := op 0x6a.
Definition op_i32_ne := op 0x47.
Definition op_i64_eqz := op 0x50.
Definition op_i64_eq := op 0x51.
Definition op_i64_and := op 0x83.
Definition op_i64_or := op 0x84.
Definition op_i64_xor := op 0x85.
Definition op_i64_shl := op 0x86.
Definition op_i64_shr_s := op 0x87.
Definition op_i64_shr_u := op 0x88.
Definition op_i64_rotl := op 0x89.
Definition op_i64_rotr := op 0x8a.
Definition op_i64_clz := op 0x79.
Definition op_i64_ctz := op 0x7a.
Definition op_i64_popcnt := op 0x7b.
Definition op_i64_add := op 0x7c.
Definition op_i64_sub := op 0x7d.
Definition op_i64_mul := op 0x7e.
Definition op_i64_div_s := op 0x7f.
Definition op_i64_div_u := op 0x80.
Definition op_i64_rem_s := op 0x81.
Definition op_i64_rem_u := op 0x82.
Definition op_i64_le_u := op 0x58.
Definition op_i64_lt_u := op 0x54.
Definition op_i64_gt_u := op 0x56.
Definition op_i32_wrap_i64 := op 0xa7.
Definition op_i64_extend_i32_u := op 0xad.
Definition op_i64_extend_i32_s := op 0xac.
Definition op_i64_extend8_s := op 0xc2.
Definition op_i64_extend16_s := op 0xc3.

Definition op_local_get (i : Z) : E := out [Var 0x20 i].
Definition op_local_set (i : Z) : E := out [Var 0x21 i].
Definition op_local_tee (i : Z) : E := out [Var 0x22 i].
Definition op_global_get (i : Z) : E := out [Var 0x23 i].
Definition op_global_set (i : Z) : E := fun e =>
  (if i =? tcg_target_reg_index TCG_REG_R14 then set_cached false e else e, [Var 0x24 i]).

Definition op_i32_const (v : Z) : E := out [Const32 v].
Definition op_i64_const (v : Z) : E := out [Const64 v].

Definition op_loadstore (instr a o : Z) : E := out [MemOp instr a o].
Definition op_i64_store := op_loadstore 0x37.
Definition op_i32_store := op_loadstore 0x36.
Definition op_i64_store8 := op_loadstore 0x3c.
Definition op_i64_store16 := op_loadstore 0x3d.
Definition op_i64_store32 := op_loadstore 0x3e.
Definition op_i64_load := op_loadstore 0x29.
Definition op_i32_load := op_loadstore 0x28.
Definition op_i64_load8_s := op_loadstore 0x30.
Definition op_i64_load8_u := op_loadstore 0x31.
Definition op_i64_load16_s := op_loadstore 0x32.
Definition op_i64_load16_u := op_loadstore 0x33.
Definition op_i64_load32_u := op_loadstore 0x35.
Definition op_i64_load32_s := op_loadstore 0x34.

Definition op_not : E := emits [op_i64_const (-1); op_i64_xor].

(** The instruction of a condition, 32- and 64-bit. *)
Definition tcg_cond_to_inst (c : Z) : Z * Z :=
  if c =? TCG_COND_EQ then (0x46, 0x51)
  else if c =? TCG_COND_NE then (0x47, 0x52)
  else if c =? TCG_COND_LT then (0x48, 0x53)
  else if c =? TCG_COND_GE then (0x4e, 0x59)
  else if c =? TCG_COND_LE then (0x4c, 0x57)
  else if c =? TCG_COND_GT then (0x4a, 0x55)
  else if c =? TCG_COND_LTU then (0x49, 0x54)
  else if c =? TCG_COND_GEU then (0x4f, 0x5a)
  else if c =? TCG_COND_LEU then (0x4d, 0x58)
  else if c =? TCG_COND_GTU then (0x4b, 0x56)
  else (0, 0).

Inductive TCGType := TCG_TYPE_I32 | TCG_TYPE_I64.

Section Emit.
(** The tunable [regloc]: registers in locals rather than globals. *)
Context (wasm_reg_locals : bool).

(** ** Registers *)

Definition op_global_get_r (r0 : Z) : E :=
  if wasm_reg_locals then op_local_get (REG_LOCAL_BASE + tcg_target_reg_index r0)
  else op_global_get (tcg_target_reg_index r0).

Definition note_written (r0 : Z) : E := fun e =>
  ({| env_cached := env_cached e; regs_written := Z.lor (regs_written e) (u32 (Z.shiftl 1 (tcg_target_reg_index r0))) |}, []).

Definition op_global_set_r (r0 : Z) : E :=
  if wasm_reg_locals then emits [note_written r0; op_local_set (REG_LOCAL_BASE + tcg_target_reg_index r0)]
  else op_global_set (tcg_target_reg_index r0).

Definition op_global_get_r_i32 (r0 : Z) : E := fun e =>
  if r0 =? TCG_REG_R14 then
    if negb (env_cached e) then
      let '(e, c) := emits [op_global_get_r r0; op_i32_wrap_i64; op_local_tee TMP32_LOCAL_ENV_IDX] e in
      (set_cached true e, c)
    else op_local_get TMP32_LOCAL_ENV_IDX e
  else emits [op_global_get_r r0; op_i32_wrap_i64] e.

(** The registers spilled before a call that may unwind: all written ones but
    [env] and the stack pointer. *)
Fixpoint spill_loop (fuel : nat) (m i : Z) : E :=
  match fuel with
  | O => nothing
  | S fuel =>
      if m =? 0 then nothing
      else emits [(if Z.testbit m 0 then emits [op_local_get (REG_LOCAL_BASE + i); op_global_set i] else nothing);
                  spill_loop fuel (Z.shiftr m 1) (i + 1)]
  end.

Definition out_spill_regs : E := fun e =>
  if wasm_reg_locals then
    let keep := Z.lor (Z.shiftl 1 (tcg_target_reg_index TCG_REG_R14)) (Z.shiftl 1 (tcg_target_reg_index TCG_REG_R15)) in
    spill_loop 32 (Z.land (regs_written e) (unot 32 keep)) 0 e
  else nothing e.

(** ** Arithmetic *)

Definition op_set_r_as_i64 (al ah : Z) : E :=
  emits [op_local_set TMP64_4_IDX;
         op_local_get TMP64_4_IDX; op_i64_const 0xffffffff; op_i64_and; op_global_set_r al;
         op_local_get TMP64_4_IDX; op_i64_const 32; op_i64_shr_u; op_i64_const 0xffffffff; op_i64_and; op_global_set_r ah].

Definition op_cond_i64 (cond arg1 arg2 : Z) : E :=
  emits [op_global_get_r arg1; op_global_get_r arg2; op (snd (tcg_cond_to_inst cond))].

Definition op_cond_i32 (cond arg1 arg2 : Z) : E :=
  emits [op_global_get_r arg1; op_i32_wrap_i64; op_global_get_r arg2; op_i32_wrap_i64; op (fst (tcg_cond_to_inst cond))].

Definition out_i64_calc (o : E) (ret arg1 arg2 : Z) : E :=
  emits [op_global_get_r arg1; op_global_get_r arg2; o; op_global_set_r ret].

(** Both operands sign extended from 32 bits. *)
Definition calc_s32 (o : E) (ret arg1 arg2 : Z) : E :=
  emits [op_global_get_r arg1; op_i32_wrap_i64; op_i64_extend_i32_s;
         op_global_get_r arg2; op_i32_wrap_i64; op_i64_extend_i32_s; o; op_global_set_r ret].

(** Both operands masked. *)
Definition calc_u32 (m1 m2 : Z) (o : E) (ret arg1 arg2 : Z) : E :=
  emits [op_global_get_r arg1; op_i64_const m1; op_i64_and;
         op_global_get_r arg2; op_i64_const m2; op_i64_and; o; op_global_set_r ret].

Definition out_rem_s (type : TCGType) (ret arg1 arg2 : Z) : E :=
  match type with
  | TCG_TYPE_I32 => calc_s32 op_i64_rem_s ret arg1 arg2
  | TCG_TYPE_I64 => out_i64_calc op_i64_rem_s ret arg1 arg2
  end.

Definition out_rem_u (type : TCGType) (ret arg1 arg2 : Z) : E :=
  match type with
  | TCG_TYPE_I32 => calc_u32 0xffffffff 0xffffffff op_i64_rem_u ret arg1 arg2
  | TCG_TYPE_I64 => out_i64_calc op_i64_rem_u ret arg1 arg2
  end.

Definition out_div_s (type : TCGType) (ret arg1 arg2 : Z) : E :=
  match type with
  | TCG_TYPE_I32 => calc_s32 op_i64_div_s ret arg1 arg2
  | TCG_TYPE_I64 => out_i64_calc op_i64_div_s ret arg1 arg2
  end.

Definition out_div_u (type : TCGType) (ret arg1 arg2 : Z) : E :=
  match type with
  | TCG_TYPE_I32 => calc_u32 0xffffffff 0xffffffff op_i64_div_u ret arg1 arg2
  | TCG_TYPE_I64 => out_i64_calc op_i64_div_u ret arg1 arg2
  end.

Definition out_shl (type : TCGType) (ret arg1 arg2 : Z) : E :=
  match type with
  | TCG_TYPE_I32 => calc_u32 0xffffffff 31 op_i64_shl ret arg1 arg2
  | TCG_TYPE_I64 => out_i64_calc op_i64_shl ret arg1 arg2
  end.

Definition out_shr_u (type : TCGType) (ret arg1 arg2 : Z) : E :=
  match type with
  | TCG_TYPE_I32 => calc_u32 0xffffffff 31 op_i64_shr_u ret arg1 arg2
  | TCG_TYPE_I64 => out_i64_calc op_i64_shr_u ret arg1 arg2
  end.

Definition out_shr_s (type : TCGType) (ret arg1 arg2 : Z) : E :=
  match type with
  | TCG_TYPE_I32 =>
      emits [op_global_get_r arg1; op_i32_wrap_i64; op_i64_extend_i32_s;
             op_global_get_r arg2; op_i64_const 31; op_i64_and; op_i64_shr_s; op_global_set_r ret]
  | TCG_TYPE_I64 => out_i64_calc op_i64_shr_s ret arg1 arg2
  end.

Definition i32_rot (o : E) (ret arg1 arg2 : Z) : E :=
  emits [op_global_get_r arg1; op_i32_wrap_i64; op_global_get_r arg2; op_i32_wrap_i64; o;
         op_i64_extend_i32_s; op_global_set_r ret].
Definition out_i32_rotl := i32_rot op_i32_rotl.
Definition out_i32_rotr := i32_rot op_i32_rotr.

(** Leading and trailing zeros: [arg2] when [arg1] is zero. *)
Definition count64 (o : E) (ret arg1 arg2 : Z) : E :=
  emits [op_global_get_r arg1; op_i64_eqz;
         if_else 0x7e (op_global_get_r arg2) (emits [op_global_get_r arg1; o]);
         op_global_set_r ret].
Definition out_clz64 := count64 op_i64_clz.
Definition out_ctz64 := count64 op_i64_ctz.

Definition count32 (o : E) (ret arg1 arg2 : Z) : E :=
  emits [op_global_get_r arg1; op_i64_eqz;
         if_else 0x7f (emits [op_global_get_r arg2; op_i32_wrap_i64])
                      (emits [op_global_get_r arg1; op_i32_wrap_i64; o]);
         op_i64_extend_i32_s; op_global_set_r ret].
Definition out_clz32 := count32 op_i32_clz.
Definition out_ctz32 := count32 op_i32_ctz.

Definition out_not (ret arg : Z) : E := emits [op_global_get_r arg; op_not; op_global_set_r ret].
Definition out_andc (ret arg1 arg2 : Z) : E :=
  emits [op_global_get_r arg1; op_global_get_r arg2; op_not; op_i64_and; op_global_set_r ret].
Definition out_orc (ret arg1 arg2 : Z) : E :=
  emits [op_global_get_r arg1; op_global_get_r arg2; op_not; op_i64_or; op_global_set_r ret].
Definition out_eqv (ret arg1 arg2 : Z) : E :=
  emits [op_global_get_r arg1; op_global_get_r arg2; op_i64_xor; op_not; op_global_set_r ret].
Definition out_nand (ret arg1 arg2 : Z) : E :=
  emits [op_global_get_r arg1; op_global_get_r arg2; op_i64_and; op_not; op_global_set_r ret].
Definition out_nor (ret arg1 arg2 : Z) : E :=
  emits [op_global_get_r arg1; op_global_get_r arg2; op_i64_or; op_not; op_global_set_r ret].
Definition out_neg (ret arg : Z) : E :=
  emits [op_global_get_r arg; op_not; op_i64_const 1; op_i64_add; op_global_set_r ret].

(** ** Host memory *)

(** The base address, and the part of the offset the instruction carries. *)
Definition out_base (base offset : Z) : E :=
  emits [op_global_get_r_i32 base;
         if s32 offset <? 0 then emits [op_i32_const (s32 offset); op_i32_add] else nothing].
Definition rest_offset (offset : Z) : Z := if s32 offset <? 0 then 0 else u32 offset.

Definition ld_with (o : Z -> Z -> E) (val base offset : Z) : E :=
  emits [out_base base offset; o 0 (rest_offset offset); op_global_set_r val].
Definition st_with (o : Z -> Z -> E) (val base offset : Z) : E :=
  emits [out_base base offset; op_global_get_r val; o 0 (rest_offset offset)].

Definition out_ld (type : TCGType) : Z -> Z -> Z -> E :=
  ld_with match type with TCG_TYPE_I32 => op_i64_load32_u | TCG_TYPE_I64 => op_i64_load end.
Definition out_ld8s := ld_with op_i64_load8_s.
Definition out_ld8u := ld_with op_i64_load8_u.
Definition out_ld16s := ld_with op_i64_load16_s.
Definition out_ld16u := ld_with op_i64_load16_u.
Definition out_ld32s := ld_with op_i64_load32_s.
Definition out_ld32u := ld_with op_i64_load32_u.
Definition out_st (type : TCGType) : Z -> Z -> Z -> E :=
  st_with match type with TCG_TYPE_I32 => op_i64_store32 | TCG_TYPE_I64 => op_i64_store end.
Definition out_st8 := st_with op_i64_store8.
Definition out_st16 := st_with op_i64_store16.
Definition out_st32 := st_with op_i64_store32.

(** ** Moves and extensions *)

Definition out_mov (type : TCGType) (ret arg : Z) : E :=
  match type with
  | TCG_TYPE_I32 => emits [op_global_get_r arg; op_i32_wrap_i64; op_i64_extend_i32_u; op_global_set_r ret]
  | TCG_TYPE_I64 => emits [op_global_get_r arg; op_global_set_r ret]
  end.

Definition out_movi (type : TCGType) (ret arg : Z) : E :=
  emits [op_i64_const (match type with TCG_TYPE_I32 => s32 arg | TCG_TYPE_I64 => arg end); op_global_set_r ret].

Definition out_ext8s (rd rs : Z) : E := emits [op_global_get_r rs; op_i64_extend8_s; op_global_set_r rd].
Definition out_ext16s (rd rs : Z) : E := emits [op_global_get_r rs; op_i64_extend16_s; op_global_set_r rd].
Definition out_masked (m rd rs : Z) : E := emits [op_global_get_r rs; op_i64_const m; op_i64_and; op_global_set_r rd].
Definition out_ext8u := out_masked 0xff.
Definition out_ext16u := out_masked 0xffff.
Definition out_ext32u := out_masked 0xffffffff.
Definition out_ext32s (rd rs : Z) : E :=
  emits [op_global_get_r rs; op_i32_wrap_i64; op_i64_extend_i32_s; op_global_set_r rd].
Definition out_exts_i32_i64 := out_ext32s.
Definition out_extu_i32_i64 := out_ext32u.
Definition out_extrl_i64_i32 := out_masked 0xffffffff.

Definition out_setcond_i32 (cond ret arg1 arg2 : Z) : E :=
  emits [op_cond_i32 cond arg1 arg2; op_i64_extend_i32_u; op_global_set_r ret].
Definition out_setcond_i64 (cond ret arg1 arg2 : Z) : E :=
  emits [op_cond_i64 cond arg1 arg2; op_i64_extend_i32_u; op_global_set_r ret].

Definition out_movcond_i32 (cond ret c1 c2 v1 v2 : Z) : E :=
  emits [op_cond_i32 cond c1 c2; if_else 0x7e (op_global_get_r v1) (op_global_get_r v2); op_global_set_r ret].
Definition out_movcond_i64 (cond ret c1 c2 v1 v2 : Z) : E :=
  emits [op_cond_i64 cond c1 c2; if_else 0x7e (op_global_get_r v1) (op_global_get_r v2); op_global_set_r ret].

(** ** Double words *)

Definition out_add2 (retl reth al ah bl bh : Z) : E :=
  emits [op_global_get_r ah; op_global_get_r bh; op_i64_add;
         op_global_get_r al; op_global_get_r bl; op_i64_add;
         if (al =? retl) && (bl =? retl) then
           emits [op_local_set TMP64_0_IDX; op_local_get TMP64_0_IDX; op_global_get_r al; op_i64_lt_u; op_i64_extend_i32_s;
                  op_local_get TMP64_0_IDX; op_global_set_r retl]
         else
           emits [op_global_set_r retl; op_global_get_r retl; op_global_get_r (if al =? retl then bl else al);
                  op_i64_lt_u; op_i64_extend_i32_s];
         op_i64_add; op_global_set_r reth].

Definition out_sub2 (retl reth al ah bl bh : Z) : E :=
  emits [op_global_get_r ah; op_global_get_r bh; op_i64_sub;
         op_global_get_r al; op_global_get_r bl; op_i64_sub;
         if al =? retl then
           emits [op_local_set TMP64_0_IDX; op_local_get TMP64_0_IDX; op_global_get_r al; op_i64_gt_u;
                  op_local_get TMP64_0_IDX; op_global_set_r retl]
         else emits [op_global_set_r retl; op_global_get_r retl; op_global_get_r al; op_i64_gt_u];
         op_i64_sub; op_global_set_r reth].

Definition out_mulu2_i32 (retl reth arg1 arg2 : Z) : E :=
  emits [op_global_get_r arg1; op_global_get_r arg2; op_i64_mul; op_set_r_as_i64 retl reth].
Definition out_muls2_i32 (retl reth arg1 arg2 : Z) : E :=
  emits [op_global_get_r arg1; op_global_get_r arg2; op_i64_mul; op_set_r_as_i64 retl reth].

Definition out_ctpop_i32 (dest src : Z) : E :=
  emits [op_global_get_r src; op_i32_wrap_i64; op_i32_popcnt; op_global_set_r dest].
Definition out_ctpop_i64 (dest src : Z) : E := emits [op_global_get_r src; op_i64_popcnt; op_global_set_r dest].

(** ** Bit fields *)

(** [((1 << len) - 1) << pos] in 32- and 64-bit signed arithmetic. *)
Definition field_mask (w pos len : Z) : Z := sw w (Z.shiftl (sw w (sw w (Z.shiftl 1 len) - 1)) pos).

Definition out_deposit_i32 (dest arg1 arg2 pos len : Z) : E :=
  let mask := field_mask 32 pos len in
  emits [op_global_get_r arg1; op_i32_wrap_i64; op_i32_const (Z.lnot mask); op_i32_and;
         op_global_get_r arg2; op_i32_wrap_i64; op_i32_const pos; op_i32_shl; op_i32_const mask; op_i32_and;
         op_i32_or; op_i64_extend_i32_u; op_global_set_r dest].

Definition out_deposit_i64 (dest arg1 arg2 pos len : Z) : E :=
  let mask := field_mask 64 pos len in
  emits [op_global_get_r arg1; op_i64_const (Z.lnot mask); op_i64_and;
         op_global_get_r arg2; op_i64_const pos; op_i64_shl; op_i64_const mask; op_i64_and;
         op_i64_or; op_global_set_r dest].

Definition out_extract (dest arg1 pos len : Z) (type : TCGType) (sign : bool) : E :=
  let rs := match type with TCG_TYPE_I32 => 32 - len | TCG_TYPE_I64 => 64 - len end in
  let sl := rs - pos in
  emits [op_global_get_r arg1;
         if 0 <? sl then emits [op_i64_const sl; op_i64_shl] else nothing;
         op_i64_const rs; (if sign then op_i64_shr_s else op_i64_shr_u); op_global_set_r dest].

(** ** Byte swaps *)

Definition TCG_BSWAP_OS : Z := 4.
Definition has_flag (flags f : Z) : bool := negb (Z.land flags f =? 0).

Definition out_bswap64 (dest src flags : Z) : E :=
  let part mask o n := emits [op_local_get TMP64_0_IDX; op_i64_const mask; op_i64_and; op_i64_const n; o] in
  emits [op_global_get_r src; op_i64_const 32; op_i64_rotr; op_local_set TMP64_0_IDX;
         part 0xff000000ff000000 op_i64_shr_u 24; part 0x00ff000000ff0000 op_i64_shr_u 8; op_i64_or;
         part 0x0000ff000000ff00 op_i64_shl 8; part 0x000000ff000000ff op_i64_shl 24; op_i64_or;
         op_i64_or; op_global_set_r dest].

Definition out_bswap32 (dest src flags : Z) : E :=
  emits [op_global_get_r src; op_i32_wrap_i64; op_local_set TMP32_LOCAL_0_IDX;
         op_local_get TMP32_LOCAL_0_IDX; op_i32_const 16; op_i32_rotr; op_local_set TMP32_LOCAL_0_IDX;
         op_local_get TMP32_LOCAL_0_IDX; op_i32_const 0xff00ff00; op_i32_and; op_i32_const 8; op_i32_shr_u;
         op_local_get TMP32_LOCAL_0_IDX; op_i32_const 0x00ff00ff; op_i32_and; op_i32_const 8; op_i32_shl;
         op_i32_or; op_i64_extend_i32_u; op_global_set_r dest].

Definition out_bswap16 (dest src flags : Z) : E :=
  emits [op_global_get_r src; op_i32_wrap_i64; op_local_set TMP32_LOCAL_0_IDX;
         op_local_get TMP32_LOCAL_0_IDX; op_i32_const 8; op_i32_rotr; op_local_set TMP32_LOCAL_0_IDX;
         op_local_get TMP32_LOCAL_0_IDX; op_i32_const 0x000000ff; op_i32_and;
         op_local_get TMP32_LOCAL_0_IDX; op_i32_const 0xff000000; op_i32_and; op_i32_const 16;
         (if has_flag flags TCG_BSWAP_OS then op_i32_shr_s else op_i32_shr_u);
         op_i32_or; op_i64_extend_i32_u; op_global_set_r dest].

(** ** Interpreter words *)

End Emit.

(** A word, or one whose displacement will be pointed at a pool entry. *)
Inductive tword := W (insn : Z) | WPool (insn value : Z).

Definition tci_movi (type : TCGType) (ret arg : Z) : list tword :=
  let arg := match type with TCG_TYPE_I32 => s32 arg | TCG_TYPE_I64 => arg end in
  if arg =? sextract32 (u32 arg) 0 20 then [W (emit INDEX_op_tci_movi (O_ri ret arg))]
  else [WPool (emit INDEX_op_tci_movl (O_r ret)) arg].

(** [TCG_TYPE_PTR] is the 32-bit type; the offset is a pointer difference. *)
Definition tci_ldst (opc : TCGOpcode) (val base offset : Z) : list tword :=
  if negb (offset =? sextract32 (u32 offset) 0 16) then
    tci_movi TCG_TYPE_I32 TCG_REG_TMP offset ++
    [W (emit INDEX_op_add_i64 (O_rrr TCG_REG_TMP TCG_REG_TMP base));
     W (emit opc (O_rrs val TCG_REG_TMP 0))]
  else [W (emit opc (O_rrs val base offset))].

(** ** One operation: its words and its instructions *)

Section Both.
Context (wasm_reg_locals : bool).

Definition both : Type := list tword * E.

Definition rrr (opc : TCGOpcode) (f : Z -> Z -> Z -> E) (args : list Z) : both :=
  let '(r0, r1, r2) := (args !!! 0%nat, args !!! 1%nat, args !!! 2%nat) in
  ([W (emit opc (O_rrr r0 r1 r2))], f r0 r1 r2).

Definition rr (opc : TCGOpcode) (f : Z -> Z -> E) (args : list Z) : both :=
  ([W (emit opc (O_rr (args !!! 0%nat) (args !!! 1%nat)))], f (args !!! 0%nat) (args !!! 1%nat)).

Definition ldst (opc : TCGOpcode) (f : Z -> Z -> Z -> E) (args : list Z) : both :=
  let '(val, base, offset) := (args !!! 0%nat, args !!! 1%nat, args !!! 2%nat) in
  (tci_ldst opc val base offset, f val base offset).

Definition rrrbb (opc : TCGOpcode) (f : Z -> Z -> Z -> Z -> Z -> E) (args : list Z) : both :=
  let '(r0, r1, r2, pos, len) := (args !!! 0%nat, args !!! 1%nat, args !!! 2%nat, args !!! 3%nat, args !!! 4%nat) in
  ([W (emit opc (O_rrrbb r0 r1 r2 pos len))], f r0 r1 r2 pos len).

Definition rrbb (opc : TCGOpcode) (f : Z -> Z -> Z -> Z -> E) (args : list Z) : both :=
  let '(r0, r1, pos, len) := (args !!! 0%nat, args !!! 1%nat, args !!! 2%nat, args !!! 3%nat) in
  ([W (emit opc (O_rrbb r0 r1 pos len))], f r0 r1 pos len).

Definition rrrrrr (opc : TCGOpcode) (f : Z -> Z -> Z -> Z -> Z -> Z -> E) (args : list Z) : both :=
  let '(r0, r1, r2, r3, r4, r5) :=
    (args !!! 0%nat, args !!! 1%nat, args !!! 2%nat, args !!! 3%nat, args !!! 4%nat, args !!! 5%nat) in
  ([W (emit opc (O_rrrrrr r0 r1 r2 r3 r4 r5))], f r0 r1 r2 r3 r4 r5).

Definition rrrr (opc : TCGOpcode) (f : Z -> Z -> Z -> Z -> E) (args : list Z) : both :=
  let '(r0, r1, r2, r3) := (args !!! 0%nat, args !!! 1%nat, args !!! 2%nat, args !!! 3%nat) in
  ([W (emit opc (O_rrrr r0 r1 r2 r3))], f r0 r1 r2 r3).

Definition setcond (opc : TCGOpcode) (f : Z -> Z -> Z -> Z -> E) (args : list Z) : both :=
  let '(ret, arg1, arg2, cond) := (args !!! 0%nat, args !!! 1%nat, args !!! 2%nat, args !!! 3%nat) in
  ([W (emit opc (O_rrrc ret arg1 arg2 cond))], f cond ret arg1 arg2).

Definition movcond (opc : TCGOpcode) (f : Z -> Z -> Z -> Z -> Z -> Z -> E) (args : list Z) : both :=
  let '(ret, c1, c2, v1, v2, cond) :=
    (args !!! 0%nat, args !!! 1%nat, args !!! 2%nat, args !!! 3%nat, args !!! 4%nat, args !!! 5%nat) in
  ([W (emit opc (O_rrrrrc ret c1 c2 v1 v2 cond))], f cond ret c1 c2 v1 v2).

(** Byte swaps with a sign extension after them when the flags ask for it. *)
Definition bswap (opc : TCGOpcode) (f : Z -> Z -> Z -> E) (ext : option (TCGOpcode * (Z -> Z -> E))) (args : list Z) : both :=
  let '(dest, src, flags) := (args !!! 0%nat, args !!! 1%nat, args !!! 2%nat) in
  match ext with
  | Some (eopc, g) =>
      if has_flag flags TCG_BSWAP_OS then
        ([W (emit opc (O_rr dest src)); W (emit eopc (O_rr dest dest))], emits [f dest src flags; g dest dest])
      else ([W (emit opc (O_rr dest src))], f dest src flags)
  | None => ([W (emit opc (O_rr dest src))], f dest src flags)
  end.

(** [tcg_out_op], without branches, exits and guest accesses, and the cases
    [tcg_reg_alloc_op] of tcg/tcg.c sends to [tcg_out_ext8s] and its neighbours;
    moves are [tcg_out_mov] and [tcg_out_movi]. *)
Definition emit_op (opc : TCGOpcode) (args : list Z) : option both :=
  let rl := wasm_reg_locals in
  let I32 := TCG_TYPE_I32 in
  let I64 := TCG_TYPE_I64 in
  match opc with
  | INDEX_op_setcond_i32 => Some (setcond opc (out_setcond_i32 rl) args)
  | INDEX_op_setcond_i64 => Some (setcond opc (out_setcond_i64 rl) args)
  | INDEX_op_movcond_i32 => Some (movcond opc (out_movcond_i32 rl) args)
  | INDEX_op_movcond_i64 => Some (movcond opc (out_movcond_i64 rl) args)
  | INDEX_op_ld_i64 => Some (ldst opc (out_ld rl I64) args)
  | INDEX_op_ld8s_i32 | INDEX_op_ld8s_i64 => Some (ldst opc (out_ld8s rl) args)
  | INDEX_op_ld8u_i32 | INDEX_op_ld8u_i64 => Some (ldst opc (out_ld8u rl) args)
  | INDEX_op_ld16s_i32 | INDEX_op_ld16s_i64 => Some (ldst opc (out_ld16s rl) args)
  | INDEX_op_ld16u_i32 | INDEX_op_ld16u_i64 => Some (ldst opc (out_ld16u rl) args)
  | INDEX_op_ld32u_i64 => Some (ldst opc (out_ld32u rl) args)
  | INDEX_op_ld_i32 | INDEX_op_ld32s_i64 => Some (ldst opc (out_ld32s rl) args)
  | INDEX_op_st_i64 => Some (ldst opc (out_st rl I64) args)
  | INDEX_op_st8_i32 | INDEX_op_st8_i64 => Some (ldst opc (out_st8 rl) args)
  | INDEX_op_st16_i32 | INDEX_op_st16_i64 => Some (ldst opc (out_st16 rl) args)
  | INDEX_op_st_i32 | INDEX_op_st32_i64 => Some (ldst opc (out_st32 rl) args)
  | INDEX_op_add_i32 | INDEX_op_add_i64 => Some (rrr opc (out_i64_calc rl op_i64_add) args)
  | INDEX_op_sub_i32 | INDEX_op_sub_i64 => Some (rrr opc (out_i64_calc rl op_i64_sub) args)
  | INDEX_op_mul_i32 | INDEX_op_mul_i64 => Some (rrr opc (out_i64_calc rl op_i64_mul) args)
  | INDEX_op_and_i32 | INDEX_op_and_i64 => Some (rrr opc (out_i64_calc rl op_i64_and) args)
  | INDEX_op_or_i32 | INDEX_op_or_i64 => Some (rrr opc (out_i64_calc rl op_i64_or) args)
  | INDEX_op_xor_i32 | INDEX_op_xor_i64 => Some (rrr opc (out_i64_calc rl op_i64_xor) args)
  | INDEX_op_shl_i32 => Some (rrr opc (out_shl rl I32) args)
  | INDEX_op_shl_i64 => Some (rrr opc (out_shl rl I64) args)
  | INDEX_op_shr_i32 => Some (rrr opc (out_shr_u rl I32) args)
  | INDEX_op_shr_i64 => Some (rrr opc (out_shr_u rl I64) args)
  | INDEX_op_sar_i32 => Some (rrr opc (out_shr_s rl I32) args)
  | INDEX_op_sar_i64 => Some (rrr opc (out_shr_s rl I64) args)
  | INDEX_op_rotl_i32 => Some (rrr opc (out_i32_rotl rl) args)
  | INDEX_op_rotl_i64 => Some (rrr opc (out_i64_calc rl op_i64_rotl) args)
  | INDEX_op_rotr_i32 => Some (rrr opc (out_i32_rotr rl) args)
  | INDEX_op_rotr_i64 => Some (rrr opc (out_i64_calc rl op_i64_rotr) args)
  | INDEX_op_div_i32 => Some (rrr opc (out_div_s rl I32) args)
  | INDEX_op_div_i64 => Some (rrr opc (out_div_s rl I64) args)
  | INDEX_op_divu_i32 => Some (rrr opc (out_div_u rl I32) args)
  | INDEX_op_divu_i64 => Some (rrr opc (out_div_u rl I64) args)
  | INDEX_op_rem_i32 => Some (rrr opc (out_rem_s rl I32) args)
  | INDEX_op_rem_i64 => Some (rrr opc (out_rem_s rl I64) args)
  | INDEX_op_remu_i32 => Some (rrr opc (out_rem_u rl I32) args)
  | INDEX_op_remu_i64 => Some (rrr opc (out_rem_u rl I64) args)
  | INDEX_op_andc_i32 | INDEX_op_andc_i64 => Some (rrr opc (out_andc rl) args)
  | INDEX_op_orc_i32 | INDEX_op_orc_i64 => Some (rrr opc (out_orc rl) args)
  | INDEX_op_eqv_i32 | INDEX_op_eqv_i64 => Some (rrr opc (out_eqv rl) args)
  | INDEX_op_nand_i32 | INDEX_op_nand_i64 => Some (rrr opc (out_nand rl) args)
  | INDEX_op_nor_i32 | INDEX_op_nor_i64 => Some (rrr opc (out_nor rl) args)
  | INDEX_op_clz_i32 => Some (rrr opc (out_clz32 rl) args)
  | INDEX_op_clz_i64 => Some (rrr opc (out_clz64 rl) args)
  | INDEX_op_ctz_i32 => Some (rrr opc (out_ctz32 rl) args)
  | INDEX_op_ctz_i64 => Some (rrr opc (out_ctz64 rl) args)
  | INDEX_op_neg_i32 | INDEX_op_neg_i64 => Some (rr opc (out_neg rl) args)
  | INDEX_op_not_i32 | INDEX_op_not_i64 => Some (rr opc (out_not rl) args)
  | INDEX_op_ctpop_i32 => Some (rr opc (out_ctpop_i32 rl) args)
  | INDEX_op_ctpop_i64 => Some (rr opc (out_ctpop_i64 rl) args)
  | INDEX_op_add2_i32 | INDEX_op_add2_i64 => Some (rrrrrr opc (out_add2 rl) args)
  | INDEX_op_sub2_i32 | INDEX_op_sub2_i64 => Some (rrrrrr opc (out_sub2 rl) args)
  | INDEX_op_mb => Some ([W (Emit.op_v opc)], op 0x01)
  | INDEX_op_extract_i32 => Some (rrbb opc (fun d a pos len => out_extract rl d a pos len I32 false) args)
  | INDEX_op_extract_i64 => Some (rrbb opc (fun d a pos len => out_extract rl d a pos len I64 false) args)
  | INDEX_op_sextract_i32 => Some (rrbb opc (fun d a pos len => out_extract rl d a pos len I32 true) args)
  | INDEX_op_sextract_i64 => Some (rrbb opc (fun d a pos len => out_extract rl d a pos len I64 true) args)
  | INDEX_op_deposit_i32 => Some (rrrbb opc (out_deposit_i32 rl) args)
  | INDEX_op_deposit_i64 => Some (rrrbb opc (out_deposit_i64 rl) args)
  | INDEX_op_bswap16_i32 => Some (bswap opc (out_bswap16 rl) (Some (INDEX_op_ext16s_i32, out_ext16s rl)) args)
  | INDEX_op_bswap16_i64 => Some (bswap opc (out_bswap16 rl) (Some (INDEX_op_ext16s_i64, out_ext16s rl)) args)
  | INDEX_op_bswap32_i32 => Some (bswap opc (out_bswap32 rl) None args)
  | INDEX_op_bswap32_i64 => Some (bswap opc (out_bswap32 rl) (Some (INDEX_op_ext32s_i64, out_ext32s rl)) args)
  | INDEX_op_bswap64_i64 => Some (bswap opc (out_bswap64 rl) None args)
  | INDEX_op_muls2_i32 => Some (rrrr opc (out_muls2_i32 rl) args)
  | INDEX_op_mulu2_i32 => Some (rrrr opc (out_mulu2_i32 rl) args)
  | INDEX_op_ext8s_i32 | INDEX_op_ext8s_i64 => Some (rr opc (out_ext8s rl) args)
  | INDEX_op_ext8u_i32 | INDEX_op_ext8u_i64 => Some (rr INDEX_op_ext8u_i64 (out_ext8u rl) args)
  | INDEX_op_ext16s_i32 | INDEX_op_ext16s_i64 => Some (rr opc (out_ext16s rl) args)
  | INDEX_op_ext16u_i32 | INDEX_op_ext16u_i64 => Some (rr INDEX_op_ext16u_i64 (out_ext16u rl) args)
  | INDEX_op_ext32s_i64 => Some (rr INDEX_op_ext32s_i64 (out_ext32s rl) args)
  | INDEX_op_ext32u_i64 => Some (rr INDEX_op_ext32u_i64 (out_ext32u rl) args)
  | INDEX_op_ext_i32_i64 => Some (rr INDEX_op_ext32s_i64 (out_exts_i32_i64 rl) args)
  | INDEX_op_extu_i32_i64 => Some (rr INDEX_op_ext32u_i64 (out_extu_i32_i64 rl) args)
  | INDEX_op_extrl_i64_i32 => Some (rr INDEX_op_mov_i32 (out_extrl_i64_i32 rl) args)
  | INDEX_op_mov_i32 => Some (rr opc (out_mov rl I32) args)
  | INDEX_op_mov_i64 => Some (rr opc (out_mov rl I64) args)
  | _ => None
  end.

(** [tcg_out_movi]. *)
Definition emit_movi (type : TCGType) (ret arg : Z) : both := (tci_movi type ret arg, out_movi wasm_reg_locals type ret arg).

End Both.
