(* ===== verification/WasmRun.v ===== *)
(** * What the emitted code computes

    Symbolic execution of the instruction sequences of WasmOps: for each emitter,
    the registers it writes as functions of the registers it reads, whatever the
    temporaries hold, with registers in locals or in globals.  The cached copy of
    [env] stays right along the way. *)
From S2P Require Import Prelude BitOps HostUtils Memory TcgCond Opcodes TciDecode Tune TbHeader Tci Wasm WasmOps.

Definition reg_ok (r : Z) : Prop := 0 <= r < 16 /\ r <> TCG_REG_TMP.

Section Run.
Context (rl : bool).
Implicit Type (e : est) (w : wst) (stk : list val).

(** ** Registers and temporaries of the function *)

Definition rget (w : wst) (r : Z) : Z :=
  if rl then locs w !!! Z.to_nat (REG_LOCAL_BASE + r) else globs w !!! Z.to_nat r.
Definition rset (r v : Z) (w : wst) : wst :=
  if rl then set_loc (REG_LOCAL_BASE + r) v w else set_glob r v w.
Definition tmp (w : wst) (i : Z) : Z := locs w !!! Z.to_nat i.

Definition wf (w : wst) : Prop := (length (locs w) = if rl then 25 else 8)%nat /\ length (globs w) = 17%nat.

Lemma wf_rset r v w : wf w -> wf (rset r v w).
Proof. unfold wf, rset. destruct rl; cbn; by rewrite length_insert. Qed.

Lemma wf_loc i v w : wf w -> wf (set_loc i v w).
Proof. unfold wf. cbn. by rewrite length_insert. Qed.

Lemma wf_mem m w : wf w -> wf (set_wmem m w).
Proof. done. Qed.

Lemma rget_rset r r' v w : wf w -> 0 <= r < 16 -> 0 <= r' < 16 -> rget (rset r v w) r' = if r =? r' then v else rget w r'.
Proof.
  intros [Hl Hg] Hr Hr'. unfold rget, rset, REG_LOCAL_BASE. destruct rl; cbn; destruct (Z.eqb_spec r r') as [-> | Hn].
  - apply lookup_total_insert_eq. lia.
  - apply lookup_total_insert_ne. lia.
  - apply lookup_total_insert_eq. lia.
  - apply lookup_total_insert_ne. lia.
Qed.

Lemma rget_loc i r v w : 0 <= i <= 7 -> 0 <= r < 16 -> rget (set_loc i v w) r = rget w r.
Proof. intros Hi Hr. unfold rget, REG_LOCAL_BASE. destruct rl; [| done]. apply lookup_total_insert_ne. lia. Qed.

Lemma tmp_loc i j v w : wf w -> 0 <= i <= 7 -> 0 <= j <= 7 -> tmp (set_loc i v w) j = if i =? j then v else tmp w j.
Proof.
  intros [Hl _] Hi Hj. unfold tmp, set_loc. cbn. destruct (Z.eqb_spec i j) as [-> | Hn].
  - apply lookup_total_insert_eq. destruct rl; lia.
  - apply lookup_total_insert_ne. lia.
Qed.

Lemma tmp_rset i r v w : 0 <= i <= 7 -> 0 <= r < 16 -> tmp (rset r v w) i = tmp w i.
Proof. intros Hi Hr. unfold tmp, rset, REG_LOCAL_BASE. destruct rl; [| done]. apply lookup_total_insert_ne. lia. Qed.

(** ** Running emitted code *)

(** The cached copy of [env] is the register's low half. *)
Definition cache_ok (e : est) (w : wst) : Prop := env_cached e = true -> tmp w TMP32_LOCAL_ENV_IDX = u32 (rget w TCG_REG_R14).

(** Emitted in state [e], the code takes [w] and [stk] to [w'] and [stk'], and the
    cache stays right. *)
Definition runs (a : E) (e : est) (w : wst) (stk : list val) (w' : wst) (stk' : list val) : Prop :=
  exec rl (snd (a e)) w stk = WOk w' stk' /\ (cache_ok e w -> cache_ok (fst (a e)) w').

Lemma runs_cache a e w stk w' stk' : runs a e w stk w' stk' -> cache_ok e w -> cache_ok (fst (a e)) w'.
Proof. by intros []. Qed.

Lemma runs_exec a e w stk w' stk' : runs a e w stk w' stk' -> exec rl (snd (a e)) w stk = WOk w' stk'.
Proof. by intros []. Qed.

Lemma runs_andthen a b e w stk w1 stk1 w2 stk2 :
  runs a e w stk w1 stk1 -> runs b (fst (a e)) w1 stk1 w2 stk2 -> runs (andthen a b) e w stk w2 stk2.
Proof.
  unfold runs, andthen. destruct (a e) as [e1 c1]. cbn. intros [E1 C1]. destruct (b e1) as [e2 c2]. cbn.
  intros [E2 C2]. rewrite wexec_app, E1. cbn. split; [done |]. tauto.
Qed.

Lemma runs_cons a l e w stk w1 stk1 w2 stk2 :
  runs a e w stk w1 stk1 -> runs (emits l) (fst (a e)) w1 stk1 w2 stk2 -> runs (emits (a :: l)) e w stk w2 stk2.
Proof. apply runs_andthen. Qed.

Lemma runs_nil e w stk : runs (emits []) e w stk w stk.
Proof. split; [done |]. done. Qed.

Lemma runs_out c e w stk w' stk' :
  exec rl c w stk = WOk w' stk' -> (cache_ok e w -> cache_ok e w') -> runs (out c) e w stk w' stk'.
Proof. done. Qed.

(** Instructions that only touch the stack. *)
Lemma runs_pure c e w stk stk' : exec rl c w stk = WOk w stk' -> runs (out c) e w stk w stk'.
Proof. intros H. by apply runs_out. Qed.

Lemma runs_get r e w stk : 0 <= r < 16 -> runs (op_global_get_r rl r) e w stk w (V64 (rget w r) :: stk).
Proof.
  intros Hr. unfold op_global_get_r, rget, REG_LOCAL_BASE, tcg_target_reg_index. destruct rl eqn:Erl.
  - apply runs_pure. unfold op_local_get, out. cbn [exec exec1 wbind]. unfold exec_var, typed, ltype.
    rewrite Erl. destruct (Z.leb_spec (8 + r) 2), (Z.leb_spec 0 (8 + r)), (Z.leb_spec 3 (8 + r)), (Z.leb_spec (8 + r) 24); try lia. done.
  - apply runs_pure. cbn [exec exec1 wbind]. unfold exec_var, typed, gtype.
    destruct (Z.leb_spec 0 r), (Z.leb_spec r 16); try lia. done.
Qed.

Lemma runs_set r v e w stk : 0 <= r < 16 -> r <> TCG_REG_R14 -> wf w ->
  runs (op_global_set_r rl r) e w (V64 v :: stk) (rset r v w) stk.
Proof.
  intros Hr Hn Hw. assert (Hc : cache_ok e w -> forall b, cache_ok {| env_cached := env_cached e; regs_written := b |} (rset r v w)).
  { unfold cache_ok, TMP32_LOCAL_ENV_IDX, TCG_REG_R14 in *. intros H b E. rewrite tmp_rset, rget_rset by (done || lia).
    rewrite (proj2 (Z.eqb_neq _ _)) by done. by apply H. }
  unfold op_global_set_r, REG_LOCAL_BASE, tcg_target_reg_index. unfold rset in *. destruct rl eqn:Erl.
  - split; [| intros H; by apply Hc]. cbn [emits foldr andthen note_written op_local_set out nothing snd app exec exec1 wbind].
    unfold exec_var, typed, ltype, set_loc, REG_LOCAL_BASE. rewrite Erl.
    destruct (Z.leb_spec (8 + r) 2), (Z.leb_spec 0 (8 + r)), (Z.leb_spec 3 (8 + r)), (Z.leb_spec (8 + r) 24); try lia. done.
  - split.
    + unfold op_global_set, tcg_target_reg_index. cbn [snd exec exec1 wbind]. unfold exec_var, typed, gtype.
      destruct (Z.leb_spec 0 r), (Z.leb_spec r 16); try lia. done.
    + intros H. unfold op_global_set, tcg_target_reg_index. rewrite (proj2 (Z.eqb_neq _ _)) by done.
      destruct e. by apply Hc.
Qed.

(** Temporaries: locals 2 (32-bit) and 3 to 7. *)
Lemma ltype_tmp i : 0 <= i <= 7 -> ltype rl i = Some (if i <=? 2 then T32 else T64).
Proof.
  intros Hi. unfold ltype. destruct (Z.leb_spec 0 i), (Z.leb_spec i 2), (Z.leb_spec 3 i); try lia; [done |]. cbn.
  destruct rl; [destruct (Z.leb_spec i 24) | destruct (Z.leb_spec i 7)]; try lia; done.
Qed.

Lemma runs_tget i e w stk : 0 <= i <= 7 ->
  runs (op_local_get i) e w stk w (mk (if i <=? 2 then T32 else T64) (tmp w i) :: stk).
Proof. intros Hi. apply runs_pure. cbn [exec exec1 wbind]. unfold exec_var, typed. by rewrite ltype_tmp. Qed.

Lemma cache_loc i v e w : wf w -> 2 <= i <= 7 -> cache_ok e w -> cache_ok e (set_loc i v w).
Proof.
  unfold cache_ok, TMP32_LOCAL_ENV_IDX, TCG_REG_R14. intros Hw Hi H E. rewrite tmp_loc, rget_loc by (done || lia).
  rewrite (proj2 (Z.eqb_neq _ _)) by lia. by apply H.
Qed.

Lemma runs_tset i v e w stk : wf w -> 2 <= i <= 7 ->
  runs (op_local_set i) e w (mk (if i <=? 2 then T32 else T64) v :: stk) (set_loc i v w) stk.
Proof.
  intros Hw Hi. apply runs_out; [| by apply cache_loc]. cbn [exec exec1 wbind]. unfold exec_var, typed.
  rewrite ltype_tmp by lia. destruct (i <=? 2); done.
Qed.

Lemma runs_ttee i v e w stk : wf w -> 2 <= i <= 7 ->
  runs (op_local_tee i) e w (mk (if i <=? 2 then T32 else T64) v :: stk) (set_loc i v w)
       (mk (if i <=? 2 then T32 else T64) v :: stk).
Proof.
  intros Hw Hi. apply runs_out; [| by apply cache_loc]. cbn [exec exec1 wbind]. unfold exec_var, typed.
  rewrite ltype_tmp by lia. destruct (i <=? 2); done.
Qed.

(** The base register as a 32-bit address, through the cache when it is [env]. *)
Lemma runs_get_i32 r e w stk : 0 <= r < 16 -> wf w -> cache_ok e w -> exists w',
  runs (op_global_get_r_i32 rl r) e w stk w' (V32 (u32 (rget w r)) :: stk) /\
  wf w' /\ wmem w' = wmem w /\ (forall r', 0 <= r' < 16 -> rget w' r' = rget w r').
Proof.
  intros Hr Hw Hc.
  assert (Hg : runs (emits [op_global_get_r rl r; op_i32_wrap_i64]) e w stk w (V32 (u32 (rget w r)) :: stk)).
  { eapply runs_cons; [by apply runs_get |]. eapply runs_cons; [by apply runs_pure | apply runs_nil]. }
  unfold op_global_get_r_i32. destruct (Z.eqb_spec r TCG_REG_R14) as [-> | Hn].
  2: { by exists w. }
  destruct (env_cached e) eqn:Ec.
  - exists w. split_and!; try done. unfold runs. rewrite Ec. cbn [negb].
    pose proof (runs_tget TMP32_LOCAL_ENV_IDX e w stk ltac:(unfold TMP32_LOCAL_ENV_IDX; lia)) as [Ht1 Ht2].
    split; [rewrite Ht1; cbn; by rewrite Hc | done].
  - exists (set_loc TMP32_LOCAL_ENV_IDX (u32 (rget w TCG_REG_R14)) w).
    split_and!; [| by apply wf_loc | done | intros; by apply rget_loc].
    unfold runs. rewrite Ec. cbn [negb].
    change (emits [op_global_get_r rl TCG_REG_R14; op_i32_wrap_i64; op_local_tee TMP32_LOCAL_ENV_IDX])
      with (andthen (op_global_get_r rl TCG_REG_R14) (andthen op_i32_wrap_i64 (andthen (op_local_tee TMP32_LOCAL_ENV_IDX) nothing))).
    unfold andthen at 1 3. destruct (runs_get TCG_REG_R14 e w stk Hr) as [Hg1 _].
    assert (Ee : fst (op_global_get_r rl TCG_REG_R14 e) = e) by (unfold op_global_get_r; by destruct rl).
    destruct (op_global_get_r rl TCG_REG_R14 e) as [e1 c1]. cbn in Ee, Hg1. subst e1.
    cbn [andthen op_i32_wrap_i64 op op_local_tee out nothing snd fst app].
    split.
    + rewrite wexec_app, Hg1. cbn [wbind exec exec1]. unfold exec_var, typed. cbn [exec_plain unop pop type_of decide]. by rewrite ltype_tmp by (unfold TMP32_LOCAL_ENV_IDX; lia).
    + intros _ _. unfold TMP32_LOCAL_ENV_IDX, TCG_REG_R14 in *. rewrite tmp_loc, rget_loc by (done || lia). done.
Qed.

(** ** Instructions *)

Ltac pure_op := by apply runs_pure.

Lemma runs_i64_add e w stk a b : runs op_i64_add e w (V64 b :: V64 a :: stk) w (V64 (u64 (a + b)) :: stk).
Proof. pure_op. Qed.
Lemma runs_i64_sub e w stk a b : runs op_i64_sub e w (V64 b :: V64 a :: stk) w (V64 (u64 (a - b)) :: stk).
Proof. pure_op. Qed.
Lemma runs_i64_mul e w stk a b : runs op_i64_mul e w (V64 b :: V64 a :: stk) w (V64 (u64 (a * b)) :: stk).
Proof. pure_op. Qed.
Lemma runs_i64_and e w stk a b : runs op_i64_and e w (V64 b :: V64 a :: stk) w (V64 (Z.land a b) :: stk).
Proof. pure_op. Qed.
Lemma runs_i64_or e w stk a b : runs op_i64_or e w (V64 b :: V64 a :: stk) w (V64 (Z.lor a b) :: stk).
Proof. pure_op. Qed.
Lemma runs_i64_xor e w stk a b : runs op_i64_xor e w (V64 b :: V64 a :: stk) w (V64 (Z.lxor a b) :: stk).
Proof. pure_op. Qed.
Lemma runs_i64_shl e w stk a b : runs op_i64_shl e w (V64 b :: V64 a :: stk) w (V64 (u64 (Z.shiftl a (b mod 64))) :: stk).
Proof. pure_op. Qed.
Lemma runs_i64_shr_s e w stk a b : runs op_i64_shr_s e w (V64 b :: V64 a :: stk) w (V64 (u64 (Z.shiftr (s64 a) (b mod 64))) :: stk).
Proof. pure_op. Qed.
Lemma runs_i64_shr_u e w stk a b : runs op_i64_shr_u e w (V64 b :: V64 a :: stk) w (V64 (Z.shiftr a (b mod 64)) :: stk).
Proof. pure_op. Qed.
Lemma runs_i64_rotl e w stk a b : runs op_i64_rotl e w (V64 b :: V64 a :: stk) w (V64 (wrotl 64 a b) :: stk).
Proof. pure_op. Qed.
Lemma runs_i64_rotr e w stk a b : runs op_i64_rotr e w (V64 b :: V64 a :: stk) w (V64 (wrotr 64 a b) :: stk).
Proof. pure_op. Qed.
Lemma runs_i32_add e w stk a b : runs op_i32_add e w (V32 b :: V32 a :: stk) w (V32 (u32 (a + b)) :: stk).
Proof. pure_op. Qed.
Lemma runs_i32_and e w stk a b : runs op_i32_and e w (V32 b :: V32 a :: stk) w (V32 (Z.land a b) :: stk).
Proof. pure_op. Qed.
Lemma runs_i32_or e w stk a b : runs op_i32_or e w (V32 b :: V32 a :: stk) w (V32 (Z.lor a b) :: stk).
Proof. pure_op. Qed.
Lemma runs_i32_shl e w stk a b : runs op_i32_shl e w (V32 b :: V32 a :: stk) w (V32 (u32 (Z.shiftl a (b mod 32))) :: stk).
Proof. pure_op. Qed.
Lemma runs_i32_shr_s e w stk a b : runs op_i32_shr_s e w (V32 b :: V32 a :: stk) w (V32 (u32 (Z.shiftr (s32 a) (b mod 32))) :: stk).
Proof. pure_op. Qed.
Lemma runs_i32_shr_u e w stk a b : runs op_i32_shr_u e w (V32 b :: V32 a :: stk) w (V32 (Z.shiftr a (b mod 32)) :: stk).
Proof. pure_op. Qed.
Lemma runs_i32_rotl e w stk a b : runs op_i32_rotl e w (V32 b :: V32 a :: stk) w (V32 (wrotl 32 a b) :: stk).
Proof. pure_op. Qed.
Lemma runs_i32_rotr e w stk a b : runs op_i32_rotr e w (V32 b :: V32 a :: stk) w (V32 (wrotr 32 a b) :: stk).
Proof. pure_op. Qed.
Lemma runs_i64_lt_u e w stk a b : runs op_i64_lt_u e w (V64 b :: V64 a :: stk) w (V32 (b2z (a <? b)) :: stk).
Proof. pure_op. Qed.
Lemma runs_i64_gt_u e w stk a b : runs op_i64_gt_u e w (V64 b :: V64 a :: stk) w (V32 (b2z (b <? a)) :: stk).
Proof. pure_op. Qed.
Lemma runs_i64_eq e w stk a b : runs op_i64_eq e w (V64 b :: V64 a :: stk) w (V32 (b2z (a =? b)) :: stk).
Proof. pure_op. Qed.
Lemma runs_i32_wrap_i64 e w stk a : runs op_i32_wrap_i64 e w (V64 a :: stk) w (V32 (u32 a) :: stk).
Proof. pure_op. Qed.
Lemma runs_i64_extend_i32_u e w stk a : runs op_i64_extend_i32_u e w (V32 a :: stk) w (V64 (a) :: stk).
Proof. pure_op. Qed.
Lemma runs_i64_extend_i32_s e w stk a : runs op_i64_extend_i32_s e w (V32 a :: stk) w (V64 (u64 (s32 a)) :: stk).
Proof. pure_op. Qed.
Lemma runs_i64_extend8_s e w stk a : runs op_i64_extend8_s e w (V64 a :: stk) w (V64 (u64 (s8 a)) :: stk).
Proof. pure_op. Qed.
Lemma runs_i64_extend16_s e w stk a : runs op_i64_extend16_s e w (V64 a :: stk) w (V64 (u64 (s16 a)) :: stk).
Proof. pure_op. Qed.
Lemma runs_i64_eqz e w stk a : runs op_i64_eqz e w (V64 a :: stk) w (V32 (b2z (a =? 0)) :: stk).
Proof. pure_op. Qed.
Lemma runs_i32_eqz e w stk a : runs op_i32_eqz e w (V32 a :: stk) w (V32 (b2z (a =? 0)) :: stk).
Proof. pure_op. Qed.
Lemma runs_i64_clz e w stk a : runs op_i64_clz e w (V64 a :: stk) w (V64 (wclz 64 a) :: stk).
Proof. pure_op. Qed.
Lemma runs_i64_ctz e w stk a : runs op_i64_ctz e w (V64 a :: stk) w (V64 (wctz 64 a) :: stk).
Proof. pure_op. Qed.
Lemma runs_i64_popcnt e w stk a : runs op_i64_popcnt e w (V64 a :: stk) w (V64 (builtin_popcount a) :: stk).
Proof. pure_op. Qed.
Lemma runs_i32_clz e w stk a : runs op_i32_clz e w (V32 a :: stk) w (V32 (wclz 32 a) :: stk).
Proof. pure_op. Qed.
Lemma runs_i32_ctz e w stk a : runs op_i32_ctz e w (V32 a :: stk) w (V32 (wctz 32 a) :: stk).
Proof. pure_op. Qed.

Lemma runs_i64_const v e w stk : runs (op_i64_const v) e w stk w (V64 (u64 v) :: stk).
Proof. pure_op. Qed.
Lemma runs_i32_const v e w stk : runs (op_i32_const v) e w stk w (V32 (u32 v) :: stk).
Proof. pure_op. Qed.
Lemma runs_nothing e w stk : runs nothing e w stk w stk.
Proof. pure_op. Qed.

(** Divisions trap when there is no quotient. *)
Lemma runs_div b f e w stk x y v : unop b = None -> binop b = Some (T64, T64, f) -> f x y = Some v ->
  runs (op b) e w (V64 y :: V64 x :: stk) w (V64 v :: stk).
Proof. intros Hu Hb Hv. apply runs_pure. cbn [exec exec1 wbind]. unfold exec_plain. rewrite Hu, Hb. cbn. by rewrite Hv. Qed.

(** Comparisons compute what the interpreter's comparison computes. *)
Lemma runs_cond64 c e w stk a b r : tci_compare64 a b c = Some r ->
  runs (op (snd (tcg_cond_to_inst c))) e w (V64 b :: V64 a :: stk) w (V32 (b2z r) :: stk).
Proof.
  intros Hr. apply runs_pure. assert (Hc : c ∈ comparison_conds) by (apply (compare64_defined a b); by eexists).
  revert Hr. cond_cases Hc; cond_eval; intros [= <-]; done.
Qed.

Lemma runs_cond32 c e w stk a b r : tci_compare32 a b c = Some r ->
  runs (op (fst (tcg_cond_to_inst c))) e w (V32 b :: V32 a :: stk) w (V32 (b2z r) :: stk).
Proof.
  intros Hr. apply runs_pure. assert (Hc : c ∈ comparison_conds) by (apply (compare32_defined a b); by eexists).
  revert Hr. cond_cases Hc; cond_eval; intros [= <-]; done.
Qed.

(** A branch that leaves one value and touches nothing else. *)
Lemma runs_if bt th el e w stk (c : bool) v :
  (c = true -> runs th e w [] w [v]) -> (c = false -> forall e, runs el e w [] w [v]) ->
  Some [type_of v] = block_type bt -> (forall e, fst (th e) = e) -> (forall e, fst (el e) = e) ->
  runs (if_else bt th el) e w (V32 (b2z c) :: stk) w (v :: stk).
Proof.
  intros Hth Hel Hbt Eth Eel. unfold runs, if_else. unfold runs in Hth, Hel. specialize (Eth e).
  destruct (th e) as [e1 c1]. cbn in Eth. subst e1. specialize (Hel) as Hel. specialize (Eel e).
  specialize (fun H => Hel H e) as Hel'. destruct (el e) as [e2 c2]. cbn in Eel. subst e2. cbn [fst snd] in *.
  split; [| done]. cbn [exec]. rewrite exec1_if.
  assert (Hr : (if b2z c =? 0 then exec rl c2 w [] else exec rl c1 w []) = WOk w [v]).
  { destruct c; cbn; [by apply Hth | by apply Hel']. }
  unfold pop, type_of at 1. rewrite decide_True by done. cbn [raw]. rewrite Hr. cbn [wbind fmap list_fmap].
  by rewrite decide_True by done.
Qed.

(** ** What an operation's code computes *)

(** The value of register [r] after the writes [us], the last one first. *)
Fixpoint look (us : list (Z * Z)) (r d : Z) : Z :=
  match us with [] => d | (r', v) :: us => if r' =? r then v else look us r d end.

Record upd (us : list (Z * Z)) (w w' : wst) : Prop := {
  upd_wf : wf w';
  upd_mem : wmem w' = wmem w;
  upd_regs : forall r, 0 <= r < 16 -> rget w' r = look us r (rget w r)
}.

Definition computes (a : E) (e : est) (w : wst) (us : list (Z * Z)) : Prop :=
  exists w', runs a e w [] w' [] /\ upd us w w'.

Definition in_reg (r : Z) : Prop := 0 <= r < 16.
Definition out_reg (r : Z) : Prop := 0 <= r < 16 /\ r <> TCG_REG_R14.

Lemma upd_set r v us w w' : in_reg r -> upd us w w' -> upd ((r, v) :: us) w (rset r v w').
Proof.
  intros Hr [Hw Hm Hg]. split.
  - by apply wf_rset.
  - rewrite <- Hm. unfold rset. by destruct rl.
  - intros r' Hr'. rewrite rget_rset by done. cbn. destruct (r =? r'); [done |]. by apply Hg.
Qed.

Lemma upd_loc i v us w w' : 0 <= i <= 7 -> upd us w w' -> upd us w (set_loc i v w').
Proof.
  intros Hi [Hw Hm Hg]. split; [by apply wf_loc | done |]. intros r Hr. rewrite rget_loc by done. by apply Hg.
Qed.

Lemma upd_refl w : wf w -> upd [] w w.
Proof. by split. Qed.

End Run.

#[global] Opaque runs.

Create HintDb wrun.
#[export] Hint Resolve wf_rset wf_loc upd_refl upd_set upd_loc : wrun.
#[export] Hint Extern 1 (Z.le _ _ /\ _) => (unfold in_reg, out_reg, TMP64_0_IDX, TMP64_4_IDX, TMP64_2_IDX, TMP32_LOCAL_0_IDX in *; lia) : wrun.
#[export] Hint Extern 1 (in_reg _) => (unfold in_reg, out_reg in *; lia) : wrun.

Ltac regs_lia := unfold in_reg, out_reg, TMP64_0_IDX, TMP64_2_IDX, TMP64_4_IDX, TMP32_LOCAL_0_IDX, TCG_REG_R14 in *; lia.

(** One instruction of an emitted sequence. *)
Ltac wrun1 :=
  first
  [ apply runs_get; regs_lia
  | apply runs_set; [regs_lia | regs_lia | eauto 8 with wrun]
  | apply (runs_tget _ TMP64_0_IDX); regs_lia
  | apply (runs_tget _ TMP64_4_IDX); regs_lia
  | apply (runs_tget _ TMP32_LOCAL_0_IDX); regs_lia
  | apply (runs_tset _ TMP64_0_IDX); [eauto 8 with wrun | regs_lia]
  | apply (runs_tset _ TMP64_4_IDX); [eauto 8 with wrun | regs_lia]
  | apply (runs_tset _ TMP32_LOCAL_0_IDX); [eauto 8 with wrun | regs_lia]
  | apply runs_i64_const | apply runs_i32_const | apply runs_nothing
  | apply runs_i32_wrap_i64 | apply runs_i64_extend_i32_u | apply runs_i64_extend_i32_s
  | apply runs_i64_extend8_s | apply runs_i64_extend16_s | apply runs_i64_eqz
  | apply runs_i64_and | apply runs_i64_or | apply runs_i64_xor | apply runs_i64_add | apply runs_i64_sub | apply runs_i64_mul
  | apply runs_i64_shl | apply runs_i64_shr_s | apply runs_i64_shr_u | apply runs_i64_rotl | apply runs_i64_rotr
  | apply runs_i64_lt_u | apply runs_i64_gt_u | apply runs_i64_eq
  | apply runs_i32_and | apply runs_i32_or | apply runs_i32_shl | apply runs_i32_shr_s | apply runs_i32_shr_u
  | apply runs_i32_rotl | apply runs_i32_rotr | apply runs_i32_add
  | apply runs_i64_clz | apply runs_i64_ctz | apply runs_i64_popcnt | apply runs_i32_clz | apply runs_i32_ctz
  | eassumption ].

Ltac wruns := repeat (eapply runs_cons; [wrun1 |]); try apply runs_nil.

Section Compute.
Context (rl : bool) (e : est) (w : wst) (Hw : wf rl w).
Context (ret a1 a2 : Z) (Hret : out_reg ret) (H1 : in_reg a1) (H2 : in_reg a2).
Abbreviation R := (rget rl w).

Definition bin_runs (o : E) (x y v : Z) : Prop :=
  forall e stk, runs rl o e w (V64 y :: V64 x :: stk) w (V64 v :: stk).

Ltac compute_with Ho := eexists; split; [repeat (eapply runs_cons; [first [wrun1 | apply Ho] |]); apply runs_nil | eauto 12 with wrun].

Lemma calc_computes o v : bin_runs o (R a1) (R a2) v -> computes rl (out_i64_calc rl o ret a1 a2) e w [(ret, v)].
Proof. intros Ho. compute_with Ho. Qed.

Lemma calc_s32_computes o v : bin_runs o (u64 (s32 (u32 (R a1)))) (u64 (s32 (u32 (R a2)))) v ->
  computes rl (calc_s32 rl o ret a1 a2) e w [(ret, v)].
Proof. intros Ho. compute_with Ho. Qed.

Lemma calc_u32_computes m1 m2 o v : bin_runs o (Z.land (R a1) (u64 m1)) (Z.land (R a2) (u64 m2)) v ->
  computes rl (calc_u32 rl m1 m2 o ret a1 a2) e w [(ret, v)].
Proof. intros Ho. compute_with Ho. Qed.

Lemma sar32_computes : computes rl (out_shr_s rl TCG_TYPE_I32 ret a1 a2) e w
  [(ret, u64 (Z.shiftr (s64 (u64 (s32 (u32 (R a1))))) (Z.land (R a2) (u64 31) mod 64)))].
Proof. compute_with I. Qed.

Lemma rotl32_computes : computes rl (out_i32_rotl rl ret a1 a2) e w [(ret, u64 (s32 (wrotl 32 (u32 (R a1)) (u32 (R a2)))))].
Proof. compute_with I. Qed.

Lemma rotr32_computes : computes rl (out_i32_rotr rl ret a1 a2) e w [(ret, u64 (s32 (wrotr 32 (u32 (R a1)) (u32 (R a2)))))].
Proof. compute_with I. Qed.

Lemma get_keeps r e0 : fst (op_global_get_r rl r e0) = e0.
Proof. unfold op_global_get_r. by destruct rl. Qed.

Lemma get2_keeps r b e0 : fst (emits [op_global_get_r rl r; op b] e0) = e0.
Proof.
  cbn [emits foldr]. unfold andthen, nothing, op, out. pose proof (get_keeps r e0) as E.
  destruct (op_global_get_r rl r e0). cbn in *. by subst.
Qed.

Lemma get3_keeps r b b' e0 : fst (emits [op_global_get_r rl r; op b; op b'] e0) = e0.
Proof.
  cbn [emits foldr]. unfold andthen, nothing, op, out. pose proof (get_keeps r e0) as E.
  destruct (op_global_get_r rl r e0). cbn in *. by subst.
Qed.

Lemma count64_computes b f : unop b = Some (T64, T64, f) ->
  computes rl (count64 rl (op b) ret a1 a2) e w [(ret, if R a1 =? 0 then R a2 else f (R a1))].
Proof.
  intros Hb. eexists. split; [| eauto 8 with wrun]. eapply runs_cons; [wrun1 |]. eapply runs_cons; [wrun1 |].
  eapply runs_cons; [| wruns]. apply runs_if.
  - intros ->. wrun1.
  - intros -> e0. eapply runs_cons; [wrun1 |]. eapply runs_cons; [| apply runs_nil]. apply runs_pure.
    cbn [exec exec1 wbind]. unfold exec_plain. rewrite Hb. done.
  - done.
  - apply get_keeps.
  - apply get2_keeps.
Qed.

Lemma count32_computes b f : unop b = Some (T32, T32, f) ->
  computes rl (count32 rl (op b) ret a1 a2) e w [(ret, u64 (s32 (if R a1 =? 0 then u32 (R a2) else f (u32 (R a1)))))].
Proof.
  intros Hb. eexists. split; [| eauto 8 with wrun]. eapply runs_cons; [wrun1 |]. eapply runs_cons; [wrun1 |].
  eapply runs_cons; [| wruns]. apply (runs_if rl 0x7f _ _ _ _ _ _ (V32 (if R a1 =? 0 then u32 (R a2) else f (u32 (R a1))))).
  - intros ->. wruns.
  - intros -> e0. do 2 (eapply runs_cons; [wrun1 |]). eapply runs_cons; [| apply runs_nil]. apply runs_pure.
    cbn [exec exec1 wbind]. unfold exec_plain. rewrite Hb. done.
  - done.
  - apply get2_keeps.
  - apply get3_keeps.
Qed.

Lemma not_runs e0 stk x : runs rl op_not e0 w (V64 x :: stk) w (V64 (Z.lxor x (u64 (-1))) :: stk).
Proof. unfold op_not. wruns. Qed.

Lemma not_computes : computes rl (out_not rl ret a1) e w [(ret, Z.lxor (R a1) (u64 (-1)))].
Proof. compute_with not_runs. Qed.
Lemma andc_computes : computes rl (out_andc rl ret a1 a2) e w [(ret, Z.land (R a1) (Z.lxor (R a2) (u64 (-1))))].
Proof. compute_with not_runs. Qed.
Lemma orc_computes : computes rl (out_orc rl ret a1 a2) e w [(ret, Z.lor (R a1) (Z.lxor (R a2) (u64 (-1))))].
Proof. compute_with not_runs. Qed.
Lemma eqv_computes : computes rl (out_eqv rl ret a1 a2) e w [(ret, Z.lxor (Z.lxor (R a1) (R a2)) (u64 (-1)))].
Proof. compute_with not_runs. Qed.
Lemma nand_computes : computes rl (out_nand rl ret a1 a2) e w [(ret, Z.lxor (Z.land (R a1) (R a2)) (u64 (-1)))].
Proof. compute_with not_runs. Qed.
Lemma nor_computes : computes rl (out_nor rl ret a1 a2) e w [(ret, Z.lxor (Z.lor (R a1) (R a2)) (u64 (-1)))].
Proof. compute_with not_runs. Qed.
Lemma neg_computes : computes rl (out_neg rl ret a1) e w [(ret, u64 (Z.lxor (R a1) (u64 (-1)) + u64 1))].
Proof. compute_with not_runs. Qed.

Lemma mov_computes t : computes rl (out_mov rl t ret a1) e w [(ret, match t with TCG_TYPE_I32 => u32 (R a1) | TCG_TYPE_I64 => R a1 end)].
Proof. destruct t; compute_with I. Qed.
Lemma movi_computes t v : computes rl (out_movi rl t ret v) e w [(ret, u64 (match t with TCG_TYPE_I32 => s32 v | TCG_TYPE_I64 => v end))].
Proof. compute_with I. Qed.
Lemma ext8s_computes : computes rl (out_ext8s rl ret a1) e w [(ret, u64 (s8 (R a1)))].
Proof. compute_with I. Qed.
Lemma ext16s_computes : computes rl (out_ext16s rl ret a1) e w [(ret, u64 (s16 (R a1)))].
Proof. compute_with I. Qed.
Lemma ext32s_computes : computes rl (out_ext32s rl ret a1) e w [(ret, u64 (s32 (u32 (R a1))))].
Proof. compute_with I. Qed.
Lemma masked_computes m : computes rl (out_masked rl m ret a1) e w [(ret, Z.land (R a1) (u64 m))].
Proof. compute_with I. Qed.
Lemma ctpop64_computes : computes rl (out_ctpop_i64 rl ret a1) e w [(ret, builtin_popcount (R a1))].
Proof. compute_with I. Qed.

(** Comparisons. *)
Lemma cond64_runs c e0 stk r : tci_compare64 (R a1) (R a2) c = Some r ->
  runs rl (op_cond_i64 rl c a1 a2) e0 w stk w (V32 (b2z r) :: stk).
Proof. intros Hr. unfold op_cond_i64. do 2 (eapply runs_cons; [wrun1 |]). eapply runs_cons; [by apply runs_cond64 | apply runs_nil]. Qed.

Lemma cond32_runs c e0 stk r : tci_compare32 (u32 (R a1)) (u32 (R a2)) c = Some r ->
  runs rl (op_cond_i32 rl c a1 a2) e0 w stk w (V32 (b2z r) :: stk).
Proof. intros Hr. unfold op_cond_i32. do 4 (eapply runs_cons; [wrun1 |]). eapply runs_cons; [by apply runs_cond32 | apply runs_nil]. Qed.

Lemma setcond64_computes c r : tci_compare64 (R a1) (R a2) c = Some r ->
  computes rl (out_setcond_i64 rl c ret a1 a2) e w [(ret, b2z r)].
Proof. intros Hr. eexists. split; [eapply runs_cons; [by apply cond64_runs | wruns] | eauto with wrun]. Qed.

Lemma setcond32_computes c r : tci_compare32 (u32 (R a1)) (u32 (R a2)) c = Some r ->
  computes rl (out_setcond_i32 rl c ret a1 a2) e w [(ret, b2z r)].
Proof. intros Hr. eexists. split; [eapply runs_cons; [by apply cond32_runs | wruns] | eauto with wrun]. Qed.

Lemma select_runs e0 stk v1 v2 (b : bool) : in_reg v1 -> in_reg v2 ->
  runs rl (if_else 0x7e (op_global_get_r rl v1) (op_global_get_r rl v2)) e0 w (V32 (b2z b) :: stk) w (V64 (R (if b then v1 else v2)) :: stk).
Proof.
  intros Hv1 Hv2. apply runs_if; [intros ->; wrun1 | intros -> ?; wrun1 | done | apply get_keeps | apply get_keeps].
Qed.

Lemma movcond64_computes c r v1 v2 : in_reg v1 -> in_reg v2 -> tci_compare64 (R a1) (R a2) c = Some r ->
  computes rl (out_movcond_i64 rl c ret a1 a2 v1 v2) e w [(ret, R (if r then v1 else v2))].
Proof.
  intros Hv1 Hv2 Hr. eexists. split; [| eauto with wrun]. eapply runs_cons; [by apply cond64_runs |].
  eapply runs_cons; [by apply select_runs | wruns].
Qed.

Lemma movcond32_computes c r v1 v2 : in_reg v1 -> in_reg v2 -> tci_compare32 (u32 (R a1)) (u32 (R a2)) c = Some r ->
  computes rl (out_movcond_i32 rl c ret a1 a2 v1 v2) e w [(ret, R (if r then v1 else v2))].
Proof.
  intros Hv1 Hv2 Hr. eexists. split; [| eauto with wrun]. eapply runs_cons; [by apply cond32_runs |].
  eapply runs_cons; [by apply select_runs | wruns].
Qed.

(** Double words. *)
Lemma mul2_computes reth : out_reg reth -> let p := u64 (R a1 * R a2) in
  computes rl (out_mulu2_i32 rl ret reth a1 a2) e w
    [(reth, Z.land (Z.shiftr p (u64 32 mod 64)) (u64 0xffffffff)); (ret, Z.land p (u64 0xffffffff))].
Proof.
  intros Hh p. eexists. split.
  - do 3 (eapply runs_cons; [wrun1 |]). eapply runs_cons; [| apply runs_nil]. unfold op_set_r_as_i64. wruns.
  - rewrite !(tmp_rset rl), !(tmp_loc rl) by (eauto with wrun || regs_lia). cbn [Z.eqb TMP64_4_IDX Pos.eqb]. eauto 12 with wrun.
Qed.

Lemma deposit32_computes pos len : let mask := field_mask 32 pos len in
  computes rl (out_deposit_i32 rl ret a1 a2 pos len) e w
    [(ret, Z.lor (Z.land (u32 (R a1)) (u32 (Z.lnot mask)))
                 (Z.land (u32 (Z.shiftl (u32 (R a2)) (u32 pos mod 32))) (u32 mask)))].
Proof. intros mask. compute_with I. Qed.

Lemma deposit64_computes pos len : let mask := field_mask 64 pos len in
  computes rl (out_deposit_i64 rl ret a1 a2 pos len) e w
    [(ret, Z.lor (Z.land (R a1) (u64 (Z.lnot mask))) (Z.land (u64 (Z.shiftl (R a2) (u64 pos mod 64))) (u64 mask)))].
Proof. intros mask. compute_with I. Qed.

Lemma extract64_computes pos len (sign : bool) : let rs := 64 - len in let sl := rs - pos in
  let x := if 0 <? sl then u64 (Z.shiftl (R a1) (u64 sl mod 64)) else R a1 in
  computes rl (out_extract rl ret a1 pos len TCG_TYPE_I64 sign) e w
    [(ret, if sign then u64 (Z.shiftr (s64 x) (u64 rs mod 64)) else Z.shiftr x (u64 rs mod 64))].
Proof.
  intros rs sl x. eexists. split; [| eauto with wrun]. unfold out_extract. fold rs. fold sl. eapply runs_cons; [wrun1 |].
  eapply (runs_cons _ _ _ _ _ _ w [V64 x]).
  { unfold x. destruct (0 <? sl); wruns. }
  destruct sign; wruns.
Qed.

(** Byte swaps, as they are computed from the rotated word. *)
Lemma bswap64_computes flags : let t := wrotr 64 (R a1) (u64 32) in
  computes rl (out_bswap64 rl ret a1 flags) e w
    [(ret, Z.lor (Z.lor (Z.shiftr (Z.land t (u64 0xff000000ff000000)) (u64 24 mod 64))
                        (Z.shiftr (Z.land t (u64 0x00ff000000ff0000)) (u64 8 mod 64)))
                 (Z.lor (u64 (Z.shiftl (Z.land t (u64 0x0000ff000000ff00)) (u64 8 mod 64)))
                        (u64 (Z.shiftl (Z.land t (u64 0x000000ff000000ff)) (u64 24 mod 64)))))].
Proof.
  intros t. set (w1 := set_loc TMP64_0_IDX t w).
  assert (Hp : forall mask n o v, (forall e stk, runs rl o e w1 (V64 (u64 n) :: V64 (Z.land t (u64 mask)) :: stk) w1 (V64 v :: stk)) ->
    forall e stk, runs rl (emits [op_local_get TMP64_0_IDX; op_i64_const mask; op_i64_and; op_i64_const n; o]) e w1 stk w1 (V64 v :: stk)).
  { intros mask n o v Ho e0 stk. eapply runs_cons; [wrun1 |]. unfold w1 at 2. rewrite (tmp_loc rl) by (done || regs_lia).
    rewrite Z.eqb_refl. do 3 (eapply runs_cons; [wrun1 |]). eapply runs_cons; [apply Ho | apply runs_nil]. }
  exists (rset rl ret (Z.lor (Z.lor (Z.shiftr (Z.land t (u64 0xff000000ff000000)) (u64 24 mod 64))
                        (Z.shiftr (Z.land t (u64 0x00ff000000ff0000)) (u64 8 mod 64)))
                 (Z.lor (u64 (Z.shiftl (Z.land t (u64 0x0000ff000000ff00)) (u64 8 mod 64)))
                        (u64 (Z.shiftl (Z.land t (u64 0x000000ff000000ff)) (u64 24 mod 64))))) w1).
  split; [| unfold w1; eauto with wrun]. unfold out_bswap64. cbv zeta. do 4 (eapply runs_cons; [wrun1 |]). fold t. fold w1.
  eapply runs_cons; [apply Hp; intros; wrun1 |]. eapply runs_cons; [apply Hp; intros; wrun1 |]. eapply runs_cons; [wrun1 |].
  eapply runs_cons; [apply Hp; intros; wrun1 |]. eapply runs_cons; [apply Hp; intros; wrun1 |].
  do 2 (eapply runs_cons; [wrun1 |]). eapply runs_cons; [| apply runs_nil]. apply runs_set; [regs_lia | regs_lia | by apply wf_loc].
Qed.

(** The second half of a swap reads the rotated word from its temporary. *)
Lemma tmp32_runs v e0 stk : runs rl (op_local_get TMP32_LOCAL_0_IDX) e0 (set_loc TMP32_LOCAL_0_IDX v w) stk
  (set_loc TMP32_LOCAL_0_IDX v w) (V32 v :: stk).
Proof.
  pose proof (runs_tget rl TMP32_LOCAL_0_IDX e0 (set_loc TMP32_LOCAL_0_IDX v w) stk ltac:(regs_lia)) as Hg.
  rewrite (tmp_loc rl), Z.eqb_refl in Hg by (done || regs_lia). exact Hg.
Qed.

Lemma set_loc_twice i u v : set_loc i v (set_loc i u w) = set_loc i v w.
Proof. unfold set_loc. cbn. by rewrite list_insert_insert_eq. Qed.

(** Loads the register, rotated right by [n], into the 32-bit temporary. *)
Lemma rot_runs n l e0 w' : let t := wrotr 32 (u32 (R a1)) (u32 n) in
  (forall e1, runs rl (emits l) e1 (set_loc TMP32_LOCAL_0_IDX t w) [] w' []) ->
  runs rl (emits (op_global_get_r rl a1 :: op_i32_wrap_i64 :: op_local_set TMP32_LOCAL_0_IDX :: op_local_get TMP32_LOCAL_0_IDX ::
                  op_i32_const n :: op_i32_rotr :: op_local_set TMP32_LOCAL_0_IDX :: l)) e0 w [] w' [].
Proof.
  intros t Hl. do 3 (eapply runs_cons; [wrun1 |]). eapply runs_cons; [apply tmp32_runs |].
  do 2 (eapply runs_cons; [wrun1 |]). eapply runs_cons; [| apply Hl].
  rewrite <- (set_loc_twice TMP32_LOCAL_0_IDX (u32 (R a1)) t). unfold t.
  apply (runs_tset rl TMP32_LOCAL_0_IDX); [by apply wf_loc | regs_lia].
Qed.

Ltac swap_with := eexists; split;
  [apply rot_runs; intros; repeat (eapply runs_cons; [first [apply tmp32_runs | wrun1] |]); apply runs_nil | eauto 8 with wrun].

Lemma bswap32_computes flags : let t := wrotr 32 (u32 (R a1)) (u32 16) in
  computes rl (out_bswap32 rl ret a1 flags) e w
    [(ret, Z.lor (Z.shiftr (Z.land t (u32 0xff00ff00)) (u32 8 mod 32))
                 (u32 (Z.shiftl (Z.land t (u32 0x00ff00ff)) (u32 8 mod 32))))].
Proof. intros t. swap_with. Qed.

Lemma bswap16_computes flags : let t := wrotr 32 (u32 (R a1)) (u32 8) in let x := Z.land t (u32 0xff000000) in
  computes rl (out_bswap16 rl ret a1 flags) e w
    [(ret, Z.lor (Z.land t (u32 0x000000ff))
                 (if has_flag flags TCG_BSWAP_OS then u32 (Z.shiftr (s32 x) (u32 16 mod 32)) else Z.shiftr x (u32 16 mod 32)))].
Proof. intros t x. unfold out_bswap16. destruct (has_flag flags TCG_BSWAP_OS); swap_with. Qed.

End Compute.

(** ** Additions of double words *)

Section Double.
Context (rl : bool) (e : est) (w : wst) (Hw : wf rl w).
Context (retl reth al ah bl bh : Z) (Hl : out_reg retl) (Hh : out_reg reth).
Context (Hal : in_reg al) (Hah : in_reg ah) (Hbl : in_reg bl) (Hbh : in_reg bh).
Abbreviation R := (rget rl w).

Definition carry_reg : Z := if al =? retl then if bl =? retl then al else bl else al.

Lemma add2_computes : let T1 := u64 (R al + R bl) in
  computes rl (out_add2 rl retl reth al ah bl bh) e w
    [(reth, u64 (u64 (R ah + R bh) + u64 (s32 (b2z (T1 <? R carry_reg))))); (retl, T1)].
Proof.
  intros T1. unfold out_add2, carry_reg. set (C := u64 (R ah + R bh)).
  assert (Hset : forall r e0 stk, in_reg r -> runs rl (op_global_get_r rl r) e0 (rset rl retl T1 w) stk (rset rl retl T1 w)
                   (V64 (if retl =? r then T1 else R r) :: stk)).
  { intros r e0 stk Hr. rewrite <- (rget_rset rl retl r T1 w) by (done || regs_lia). by apply runs_get. }
  destruct (Z.eqb_spec al retl) as [Ea | Ea], (Z.eqb_spec bl retl) as [Eb | Eb]; cbn [andb]; cbv iota.
  1: { eexists. split; [do 6 (eapply runs_cons; [wrun1 |]) |]. 
       - eapply runs_cons; [do 7 (eapply runs_cons; [wrun1 |]); apply runs_nil |]. do 2 (eapply runs_cons; [wrun1 |]). apply runs_nil.
       - rewrite (tmp_loc rl), Z.eqb_refl, (rget_loc rl) by (done || regs_lia). fold T1 C. eauto 12 with wrun. }
  all: eexists; split; [do 6 (eapply runs_cons; [wrun1 |]); eapply runs_cons;
    [eapply runs_cons; [wrun1 |]; do 2 (eapply runs_cons; [apply Hset; regs_lia |]); do 2 (eapply runs_cons; [wrun1 |]); apply runs_nil |];
    do 2 (eapply runs_cons; [wrun1 |]); apply runs_nil |].
  all: fold T1 C; rewrite Z.eqb_refl, (proj2 (Z.eqb_neq _ _)) by congruence; eauto 12 with wrun.
Qed.
End Double.

(** ** Host memory *)

(** The address a load or store with [offset] goes to. *)
Definition eaddr (b offset : Z) : Z :=
  if s32 offset <? 0 then u32 (u32 b + u32 (s32 offset)) else u32 b + u32 offset.

Section HostMem.
Context (rl : bool) (e : est) (w : wst) (Hw : wf rl w) (Hc : cache_ok rl e w).
Context (val base offset : Z) (Hbase : in_reg base).
Abbreviation R := (rget rl w).

Lemma base_runs stk : exists w' a, runs rl (out_base rl base offset) e w stk w' (V32 a :: stk) /\
  a + rest_offset offset = eaddr (R base) offset /\
  wf rl w' /\ wmem w' = wmem w /\ (forall r, 0 <= r < 16 -> rget rl w' r = R r).
Proof.
  destruct (runs_get_i32 rl base e w stk Hbase Hw Hc) as (w' & Hr & Hw' & Hm & Hg).
  unfold rest_offset, eaddr, out_base. destruct (s32 offset <? 0).
  - exists w', (u32 (u32 (R base) + u32 (s32 offset))). split_and!; try done; [| lia].
    eapply runs_cons; [exact Hr |]. eapply runs_cons; [| apply runs_nil]. wruns.
  - exists w', (u32 (R base)). split_and!; try done. eapply runs_cons; [exact Hr |]. wruns.
Qed.

Lemma ld_computes b n ext v : out_reg val -> loadop b = Some (T64, n, ext) ->
  load n (wmem w) (eaddr (R base) offset) = Some v ->
  computes rl (ld_with rl (op_loadstore b) val base offset) e w [(val, ext v)].
Proof.
  intros Hv Hb Hl. destruct (base_runs []) as (w' & a & Hr & Ha & Hw' & Hm & Hg).
  exists (rset rl val (ext v) w'). split.
  - eapply runs_cons; [exact Hr |]. eapply runs_cons; [| wruns]. apply runs_pure. cbn [exec exec1 wbind]. unfold exec_mem.
    rewrite Hb. cbn. by rewrite Ha, Hm, Hl.
  - split.
    + by apply wf_rset.
    + rewrite <- Hm. unfold rset. by destruct rl.
    + intros r Hr'. rewrite rget_rset by (done || regs_lia). cbn. by rewrite Hg.
Qed.

Lemma st_computes b n m : in_reg val -> loadop b = None -> storeop b = Some (T64, n) ->
  store n (wmem w) (eaddr (R base) offset) (R val) = Some m -> exists w',
  runs rl (st_with rl (op_loadstore b) val base offset) e w [] w' [] /\
  wf rl w' /\ wmem w' = m /\ (forall r, 0 <= r < 16 -> rget rl w' r = R r).
Proof.
  intros Hv Hn Hb Hl. destruct (base_runs []) as (w' & a & Hr & Ha & Hw' & Hm & Hg).
  exists (set_wmem m w'). split_and!; try done.
  eapply runs_cons; [exact Hr |]. eapply runs_cons; [wrun1 |]. eapply runs_cons; [| apply runs_nil].
  apply runs_out; [| done]. cbn [exec exec1 wbind]. unfold exec_mem. rewrite Hn, Hb. cbn.
  by rewrite Hg, Ha, Hm, Hl by done.
Qed.

End HostMem.
