(* ===== verification/WordRel.v ===== *)
(** * Values of 32- and 64-bit type in 64-bit registers

    A register that holds a 32-bit value may hold anything in its upper half, in the
    interpreter and in compiled code, and not the same thing in both: two registers
    agree at 32 bits when their low halves are equal.  The lemmas say which
    computations of the two sides agree when their operands do. *)
From S2P Require Import Prelude BitOps HostUtils Memory TcgCond Wasm WasmOps.

(** What is known of a register: the low halves agree, they agree and the compiled
    register is zero-extended, or all 64 bits agree. *)
Inductive rty := Any32 | Zx32 | Full64.

Definition rel (t : rty) (a b : Z) : Prop :=
  match t with Any32 => u32 a = u32 b | Zx32 => u32 a = u32 b /\ is_u 32 a | Full64 => a = b end.

Lemma rel_weaken t a b : rel t a b -> u32 a = u32 b.
Proof. destruct t; cbn; [done | tauto | congruence]. Qed.

(** A zero-extended result, on both sides the same. *)
Lemma rel_same t a : is_u 32 a -> rel t a a.
Proof. by destruct t. Qed.

(** ** Equality of low halves *)

Lemma u32_bits a b : u32 a = u32 b <-> forall i, 0 <= i < 32 -> Z.testbit a i = Z.testbit b i.
Proof.
  split.
  - intros H i Hi. pose proof (f_equal (fun z => Z.testbit z i) H) as Hb. cbn in Hb. rewrite !testbit_uw in Hb by lia.
    rewrite (proj2 (Z.ltb_lt _ _)) in Hb by lia. exact Hb.
  - intros H. apply Z.bits_inj'. intros i Hi. rewrite !testbit_uw by lia. destruct (Z.ltb_spec i 32); [| done]. cbn. apply H. lia.
Qed.

Lemma u32_u64 a : u32 (u64 a) = u32 a.
Proof. apply uw_uw_le. lia. Qed.

Lemma u32_add a a' b b' : u32 a = u32 a' -> u32 b = u32 b' -> u32 (a + b) = u32 (a' + b').
Proof. intros H1 H2. rewrite <- uw_add_idemp_l, <- uw_add_idemp_r, H1, H2, uw_add_idemp_l, uw_add_idemp_r. done. Qed.

Lemma u32_sub a a' b b' : u32 a = u32 a' -> u32 b = u32 b' -> u32 (a - b) = u32 (a' - b').
Proof. intros H1 H2. rewrite <- uw_sub_idemp_l, <- uw_sub_idemp_r, H1, H2, uw_sub_idemp_l, uw_sub_idemp_r. done. Qed.

Lemma u32_mul a a' b b' : u32 a = u32 a' -> u32 b = u32 b' -> u32 (a * b) = u32 (a' * b').
Proof. intros H1 H2. rewrite <- uw_mul_idemp_l, <- uw_mul_idemp_r, H1, H2, uw_mul_idemp_l, uw_mul_idemp_r. done. Qed.

Lemma u32_land a a' b b' : u32 a = u32 a' -> u32 b = u32 b' -> u32 (Z.land a b) = u32 (Z.land a' b').
Proof. rewrite !u32_bits. intros H1 H2 i Hi. by rewrite !Z.land_spec, H1, H2. Qed.

Lemma u32_lor a a' b b' : u32 a = u32 a' -> u32 b = u32 b' -> u32 (Z.lor a b) = u32 (Z.lor a' b').
Proof. rewrite !u32_bits. intros H1 H2 i Hi. by rewrite !Z.lor_spec, H1, H2. Qed.

Lemma u32_lxor a a' b b' : u32 a = u32 a' -> u32 b = u32 b' -> u32 (Z.lxor a b) = u32 (Z.lxor a' b').
Proof. rewrite !u32_bits. intros H1 H2 i Hi. by rewrite !Z.lxor_spec, H1, H2. Qed.

Lemma u32_unot a a' : u32 a = u32 a' -> u32 (unot 64 a) = u32 (unot 64 a').
Proof.
  unfold unot. rewrite !u32_u64, !u32_bits. intros H i Hi. rewrite !Z.lnot_spec by lia. by rewrite H.
Qed.

Create HintDb u32.
#[export] Hint Resolve u32_add u32_sub u32_mul u32_land u32_lor u32_lxor u32_unot : u32.

Lemma s32_u32 a a' : u32 a = u32 a' -> s32 a = s32 a'.
Proof. intros H. by rewrite <- (sw_uw 32 a), <- (sw_uw 32 a'), H by lia. Qed.

Lemma s32_of_u32 a : s32 (u32 a) = s32 a.
Proof. apply sw_uw. lia. Qed.

(** Narrower readings see only the low half. *)
Lemma uw_u32 n a a' : 0 <= n <= 32 -> u32 a = u32 a' -> uw n a = uw n a'.
Proof. intros Hn H. rewrite <- (uw_uw_le n 32 a), <- (uw_uw_le n 32 a'), H by lia. done. Qed.

Lemma sw_u32 n a a' : 0 < n <= 32 -> u32 a = u32 a' -> sw n a = sw n a'.
Proof. intros Hn H. rewrite <- (sw_uw n a), <- (sw_uw n a'), (uw_u32 n a a') by (done || lia). done. Qed.

(** ** Masks and shift counts *)

Lemma land_ones_uw n a : 0 <= n -> Z.land a (2 ^ n - 1) = uw n a.
Proof. intros Hn. rewrite <- ones_uw by lia. rewrite Z.land_ones by lia. done. Qed.

Lemma land_mask32 a : Z.land a (u64 0xffffffff) = u32 a.
Proof. exact (land_ones_uw 32 a ltac:(lia)). Qed.

Lemma land_mask16 a : Z.land a (u64 0xffff) = u16 a.
Proof. exact (land_ones_uw 16 a ltac:(lia)). Qed.

Lemma land_mask8 a : Z.land a (u64 0xff) = u8 a.
Proof. exact (land_ones_uw 8 a ltac:(lia)). Qed.

Lemma land_31 a : Z.land a 31 = a mod 32.
Proof. exact (land_ones_uw 5 a ltac:(lia)). Qed.

Lemma count31 a : Z.land a (u64 31) mod 64 = Z.land a 31.
Proof.
  change (u64 31) with 31. rewrite land_31. pose proof (Z.mod_pos_bound a 32 ltac:(lia)). apply Z.mod_small. lia.
Qed.

Lemma count31_u32 a a' : u32 a = u32 a' -> Z.land a 31 = Z.land a' 31.
Proof. intros H. rewrite !land_31. exact (uw_u32 5 a a' ltac:(lia) H). Qed.

Lemma lxor_m1 a : is_u 64 a -> Z.lxor a (u64 (-1)) = unot 64 a.
Proof.
  intros Ha. change (u64 (-1)) with (Z.ones 64). unfold unot. apply Z.bits_inj'. intros i Hi.
  rewrite Z.lxor_spec, testbit_ones, testbit_uw, Z.lnot_spec by lia. destruct (Z.ltb_spec i 64); cbn; [by destruct (Z.testbit a i) |].
  by rewrite (testbit_is_u 64 a).
Qed.

Lemma unot_range a : is_u 64 (unot 64 a).
Proof. apply uw_range. lia. Qed.

Lemma neg_unot a : is_u 64 a -> u64 (unot 64 a + u64 1) = u64 (- a).
Proof. intros Ha. unfold unot. rewrite uw_add_idemp_l, uw_add_idemp_r. f_equal. unfold Z.lnot. lia. Qed.

(** ** Rotations *)

Lemma rot_land w b : w ∈ [8; 16; 32; 64] -> Z.land (Z.land b (w - 1)) (w - 1) = Z.land b (w - 1) /\ b mod w = Z.land b (w - 1).
Proof.
  intros Hw. rewrite <- Z.land_assoc, Z.land_diag. split; [done |]. assert (exists k, 0 <= k /\ w = 2 ^ k) as (k & Hk & ->).
  { rewrite !elem_of_cons, elem_of_nil in Hw. destruct Hw as [-> | [-> | [-> | [-> | []]]]]; [exists 3 | exists 4 | exists 5 | exists 6]; lia. }
  rewrite land_ones_uw by lia. done.
Qed.

Lemma wrotl_rolw w a b : w ∈ [8; 16; 32; 64] -> is_u w a -> wrotl w a b = rolw w a (Z.land b (w - 1)).
Proof.
  intros Hw Ha. destruct (rot_counts w (Z.land b (w - 1)) Hw) as [Hn He]. destruct (rot_land w b Hw) as [E1 E2].
  cbv zeta in *. unfold wrotl, rolw. rewrite He, E1, E2 in *. destruct (Z.eqb_spec (Z.land b (w - 1)) 0) as [-> | Hz]; [| done].
  rewrite Z.shiftl_0_r, Z.shiftr_0_r, Z.sub_0_r, uw_small, Z.lor_diag by done.
  apply Z.bits_inj'. intros i Hi. rewrite Z.lor_spec, Z.shiftr_spec by lia.
  rewrite (testbit_is_u w a (i + w)) by (done || (pose proof (rot_width_pos w Hw); lia)). by rewrite orb_false_r.
Qed.

Lemma wrotr_rorw w a b : w ∈ [8; 16; 32; 64] -> is_u w a -> wrotr w a b = rorw w a (Z.land b (w - 1)).
Proof.
  intros Hw Ha. destruct (rot_counts w (Z.land b (w - 1)) Hw) as [Hn He]. destruct (rot_land w b Hw) as [E1 E2].
  cbv zeta in *. unfold wrotr, rorw. rewrite He, E1, E2 in *. destruct (Z.eqb_spec (Z.land b (w - 1)) 0) as [-> | Hz]; [| done].
  rewrite Z.shiftl_0_r, Z.shiftr_0_r, Z.sub_0_r, (uw_small w a), Z.lor_diag by done.
  replace (uw w (Z.shiftl a w)) with 0; [by rewrite Z.lor_0_r |]. pose proof (rot_width_pos w Hw).
  symmetry. apply Z.bits_inj'. intros i Hi. rewrite testbit_uw, testbit_shiftl, Z.testbit_0_l by lia.
  destruct (Z.ltb_spec i w); [| done]. by rewrite Z.testbit_neg_r by lia.
Qed.

(** The carry out of an addition can be read against either operand. *)
Lemma add_carry_comm a b : is_u 64 a -> is_u 64 b -> (u64 (a + b) <? b) = (u64 (a + b) <? a).
Proof.
  unfold is_u. intros Ha Hb. destruct (Z.lt_ge_cases (a + b) (2 ^ 64)).
  - rewrite uw_small by (unfold is_u; lia). destruct (Z.ltb_spec (a + b) b), (Z.ltb_spec (a + b) a); lia.
  - replace (u64 (a + b)) with (a + b - 2 ^ 64); [destruct (Z.ltb_spec (a + b - 2 ^ 64) b), (Z.ltb_spec (a + b - 2 ^ 64) a); lia |].
    unfold uw. rewrite <- (Z.mod_small (a + b - 2 ^ 64) (2 ^ 64)) by lia. rewrite <- (Z_mod_plus_full (a + b - 2 ^ 64) 1). f_equal. lia.
Qed.

(** ** Divisions of sign-extended operands *)

Lemma s64_s32 a : s64 (u64 (s32 (u32 a))) = s32 a.
Proof. rewrite sw_uw, s32_of_u32 by lia. apply sw_small; [lia |]. pose proof (sw_range 32 a ltac:(lia)). unfold is_s in *. lia. Qed.

Lemma sdiv_wide a b v : is_s 32 a -> is_s 32 b -> sdiv 32 a b = Some v -> sdiv 64 a b = Some v.
Proof.
  unfold sdiv, is_s. intros Ha Hb. destruct (Z.eqb_spec b 0); cbn [orb]; [done |].
  destruct (Z.eqb_spec a (- 2 ^ (64 - 1))); [lia |]. cbn [andb]. by destruct (_ && _).
Qed.

Lemma srem_wide a b : srem 32 a b = srem 64 a b.
Proof. done. Qed.

Lemma udiv_range w a b v : is_u w a -> is_u w b -> udiv a b = Some v -> is_u w v.
Proof.
  unfold udiv, is_u. intros Ha Hb. destruct (Z.eqb_spec b 0); [done |]. intros [= <-].
  split; [apply Z.div_pos; lia |]. apply Z.div_lt_upper_bound; nia.
Qed.

Lemma urem_range w a b v : is_u w a -> is_u w b -> urem a b = Some v -> is_u w v.
Proof.
  unfold urem, is_u. intros Ha Hb. destruct (Z.eqb_spec b 0); [done |]. intros [= <-].
  pose proof (Z.mod_pos_bound a b ltac:(lia)). lia.
Qed.

(** ** Bit fields *)

Lemma field_mask_ones w pos len : 0 < w -> 0 <= pos -> 0 < len < w -> uw w (field_mask w pos len) = uw w (Z.shiftl (Z.ones len) pos).
Proof.
  intros Hw Hp Hl. unfold field_mask. rewrite uw_sw by lia. apply Z.bits_inj'. intros i Hi.
  rewrite !testbit_uw, !testbit_shiftl by lia. destruct (Z.ltb_spec i w); [cbn | done].
  destruct (Z.lt_ge_cases (i - pos) 0); [by rewrite !Z.testbit_neg_r by lia |].
  assert (E : uw w (sw w (sw w (Z.shiftl 1 len) - 1)) = uw w (Z.ones len)).
  { rewrite uw_sw by lia. rewrite <- uw_sub_idemp_l, uw_sw, uw_sub_idemp_l by lia.
    by rewrite Z.shiftl_1_l, ones_uw by lia. }
  pose proof (f_equal (fun z => Z.testbit z (i - pos)) E) as Eb. cbn in Eb. rewrite !testbit_uw in Eb by lia.
  rewrite (proj2 (Z.ltb_lt _ _)) in Eb by lia. exact Eb.
Qed.

Lemma deposit_same w a b pos len : 0 < w -> is_u w a -> is_u w b -> is_u w pos -> bitfield_ok w pos len = true -> len < w ->
  Z.lor (Z.land a (uw w (Z.lnot (field_mask w pos len)))) (Z.land (uw w (Z.shiftl b (uw w pos mod w))) (uw w (field_mask w pos len)))
  = Field.deposit w a pos len b.
Proof.
  intros Hw Ha Hb Hp Hok Hl. pose proof Hok as Hf. apply bitfield_ok_spec in Hf as (? & ? & ?).
  apply Z.bits_inj'. intros i Hi. rewrite deposit_spec by done.
  assert (Em : Z.testbit (uw w (field_mask w pos len)) i = (pos <=? i) && (i <? pos + len) && (i <? w)).
  { rewrite field_mask_ones by lia. rewrite testbit_uw, testbit_shiftl by lia.
    destruct (Z.ltb_spec i w), (Z.leb_spec pos i), (Z.ltb_spec i (pos + len)); cbn; try done;
      try (rewrite testbit_ones by lia; apply Z.ltb_lt; lia); try (rewrite testbit_ones by lia; apply Z.ltb_ge; lia);
      by rewrite Z.testbit_neg_r by lia. }
  assert (En : Z.testbit (uw w (Z.lnot (field_mask w pos len))) i = (i <? w) && negb (Z.testbit (uw w (field_mask w pos len)) i)).
  { rewrite !testbit_uw, Z.lnot_spec by lia. by destruct (i <? w). }
  rewrite Z.lor_spec, !Z.land_spec, En, Em. rewrite (uw_small w pos), (Z.mod_small pos w) by (unfold is_u in *; lia || done).
  rewrite testbit_uw, testbit_shiftl by lia.
  assert (Hz : w <= i -> Z.testbit a i = false) by (intros; by apply (testbit_is_u w)).
  destruct (Z.ltb_spec i w), (Z.leb_spec pos i), (Z.ltb_spec i (pos + len)); cbn; rewrite ?Hz by lia; try lia; btauto.
Qed.

Lemma shift_count64 n : 0 <= n < 64 -> u64 n mod 64 = n.
Proof. intros Hn. rewrite uw_small by (unfold is_u; lia). apply Z.mod_small. lia. Qed.

Lemma extract_same a pos len : is_u 64 a -> bitfield_ok 64 pos len = true ->
  let rs := 64 - len in let sl := rs - pos in
  let x := if 0 <? sl then u64 (Z.shiftl a (u64 sl mod 64)) else a in
  Z.shiftr x (u64 rs mod 64) = extract64 a pos len /\ u64 (Z.shiftr (s64 x) (u64 rs mod 64)) = u64 (sextract64 a pos len).
Proof.
  intros Ha Hok rs sl x. pose proof Hok as Hf. apply bitfield_ok_spec in Hf as (? & ? & ?).
  rewrite shift_count64 by (unfold rs; lia).
  assert (Hz : forall i, 64 <= i -> Z.testbit a i = false) by (intros; by apply (testbit_is_u 64)).
  assert (Hx : forall i, 0 <= i < 64 -> Z.testbit x i = Z.testbit a (i - sl)).
  { intros i Hi. unfold x. destruct (Z.ltb_spec 0 sl).
    - rewrite shift_count64 by (unfold sl, rs; lia). rewrite testbit_uw, testbit_shiftl by lia. by rewrite (proj2 (Z.ltb_lt i 64)) by lia.
    - replace sl with 0 by (unfold sl, rs in *; lia). by rewrite Z.sub_0_r. }
  assert (Hxz : forall i, 64 <= i -> Z.testbit x i = false).
  { intros i Hi. unfold x. destruct (0 <? sl); [| by apply Hz]. rewrite testbit_uw by lia. by rewrite (proj2 (Z.ltb_ge i 64)) by lia. }
  unfold extract64, sextract64. rewrite extract_uw, sextract_sw by done. split.
  - apply Z.bits_inj'. intros i Hi. rewrite testbit_shiftr, testbit_uw, testbit_shiftr by lia. unfold sl, rs in *.
    destruct (Z.ltb_spec i len); [rewrite Hx by lia; cbn; f_equal; lia | by rewrite Hxz by lia].
  - f_equal. apply Z.bits_inj'. intros i Hi. rewrite testbit_shiftr, !testbit_sw, testbit_shiftr by lia. unfold sl, rs in *.
    rewrite Hx by lia. f_equal. lia.
Qed.

(** ** Byte swaps *)

(** Both sides at one concrete bit position: constants are looked up, positions of the word computed. *)
Ltac bit_at :=
  repeat match goal with
  | |- context [Z.ltb ?a ?b] => let c := eval vm_compute in (Z.ltb a b) in progress change (Z.ltb a b) with c; cbn [andb]
  | |- context [Z.testbit ?x ?i] => let j := eval vm_compute in i in progress change (Z.testbit x i) with (Z.testbit x j)
  | |- context [Z.testbit (Zpos ?c) ?i] => let b := eval vm_compute in (Z.testbit (Zpos c) i) in change (Z.testbit (Zpos c) i) with b
  | |- context [Z.testbit ?x (Zneg ?i)] => rewrite (Z.testbit_neg_r x (Zneg i)) by lia
  | |- context [Z.testbit (Z.lor ?x ?y) ?i] => rewrite (Z.lor_spec x y i)
  | |- context [Z.testbit (Z.land ?x ?y) ?i] => rewrite (Z.land_spec x y i)
  | |- context [Z.testbit (uw ?w ?x) ?i] => rewrite (testbit_uw w x i) by lia
  | |- context [Z.testbit (sw ?w ?x) ?i] => rewrite (testbit_sw w x i) by lia
  | |- context [Z.testbit (Z.shiftl ?x ?y) ?i] => rewrite (testbit_shiftl x y i) by lia
  | |- context [Z.testbit (Z.shiftr ?x ?y) ?i] => rewrite (testbit_shiftr x y i) by lia
  end.

Ltac each_bit := cbn [seq]; repeat (apply Forall_cons_2; [abstract (bit_at; btauto) |]); apply Forall_nil_2.

Lemma rev_bytes n l : little_endian_to_Z n (reverse l) = little_endian_to_Z n (rev l).
Proof. unfold reverse. by rewrite rev_append_rev, app_nil_r. Qed.

Lemma bswap16_expr x : bswap16 x = Z.lor (Z.land (Z.shiftr (u16 x) 8) 255) (Z.shiftl (Z.land (u16 x) 255) 8).
Proof.
  unfold bswap16, bswap_bytes. rewrite rev_bytes. 
  change (Z_to_little_endian 2 8 (u16 x)) with [Z.land (u16 x) 255; Z.land (Z.shiftr (u16 x) 8) 255].
  cbn -[Z.lor Z.shiftl Z.land Z.shiftr]. by rewrite Z.shiftl_0_l, Z.lor_0_r.
Qed.

Lemma bits_below n a b : is_u (Z.of_nat n) a -> is_u (Z.of_nat n) b ->
  Forall (fun i => Z.testbit a (Z.of_nat i) = Z.testbit b (Z.of_nat i)) (seq 0 n) -> a = b.
Proof.
  intros Ha Hb H. apply Z.bits_inj'. intros i Hi. destruct (Z.ltb_spec i (Z.of_nat n)).
  - rewrite Forall_forall in H. specialize (H (Z.to_nat i)). rewrite Z2Nat.id in H by lia. apply H.
    apply in_seq. lia.
  - by rewrite !(testbit_is_u (Z.of_nat n)) by (done || lia).
Qed.

Lemma wrotr_const w a b n : b mod w = n -> wrotr w a b = Z.lor (Z.shiftr a n) (uw w (Z.shiftl a (w - n))).
Proof. intros <-. done. Qed.

Lemma bswap16_swapped a flag : let t := wrotr 32 (u32 a) (u32 8) in let x := Z.land t (u32 0xff000000) in
  u16 (Z.lor (Z.land t (u32 0x000000ff)) (if (flag : bool) then u32 (Z.shiftr (s32 x) (u32 16 mod 32)) else Z.shiftr x (u32 16 mod 32))) = bswap16 a.
Proof.
  intros t x. subst x t. rewrite (wrotr_const 32 _ _ 8) by done. rewrite bswap16_expr.
  change (u32 16 mod 32) with 16. change (u32 4278190080) with 4278190080. change (u32 255) with 255.
  apply (bits_below 16); [apply uw_range; lia | rewrite <- bswap16_expr; apply (bswap_bytes_range 2); lia |].
  destruct flag; each_bit.
Qed.

Lemma le_bytes4 x : let s := fun y => Z.shiftr y 8 in
  Z_to_little_endian 4 8 x = [Z.land x 255; Z.land (s x) 255; Z.land (s (s x)) 255; Z.land (s (s (s x))) 255].
Proof. reflexivity. Qed.

Lemma le_bytes8 x : let s := fun y => Z.shiftr y 8 in
  Z_to_little_endian 8 8 x = Z_to_little_endian 4 8 x ++ Z_to_little_endian 4 8 (s (s (s (s x)))).
Proof. reflexivity. Qed.

Lemma bswap32_swapped a : let t := wrotr 32 (u32 a) (u32 16) in
  Z.lor (Z.shiftr (Z.land t (u32 0xff00ff00)) (u32 8 mod 32)) (u32 (Z.shiftl (Z.land t (u32 0x00ff00ff)) (u32 8 mod 32))) = bswap32 a.
Proof.
  intros t. subst t. rewrite (wrotr_const 32 _ _ 16) by done.
  change (u32 8 mod 32) with 8. change (u32 0xff00ff00) with 0xff00ff00. change (u32 0x00ff00ff) with 0x00ff00ff.
  apply (bits_below 32); [| apply (bswap_bytes_range 4); lia |].
  { apply lor_is_u; [lia | | apply uw_range; lia]. apply shiftr_is_u; [lia | lia |]. apply land_is_u_r; [lia|]. done. }
  unfold bswap32, bswap_bytes. rewrite rev_bytes, le_bytes4. cbn -[Z.lor Z.shiftl Z.land Z.shiftr Z.testbit uw seq].
  rewrite Z.shiftl_0_l, Z.lor_0_r. rewrite ?Z.shiftr_shiftr by lia. each_bit.
Qed.

Lemma bswap64_swapped a : is_u 64 a -> let t := wrotr 64 a (u64 32) in
  Z.lor (Z.lor (Z.shiftr (Z.land t (u64 0xff000000ff000000)) (u64 24 mod 64))
               (Z.shiftr (Z.land t (u64 0x00ff000000ff0000)) (u64 8 mod 64)))
        (Z.lor (u64 (Z.shiftl (Z.land t (u64 0x0000ff000000ff00)) (u64 8 mod 64)))
               (u64 (Z.shiftl (Z.land t (u64 0x000000ff000000ff)) (u64 24 mod 64)))) = bswap64 a.
Proof.
  intros Ha t. subst t. rewrite (wrotr_const 64 _ _ 32) by done.
  change (u64 8 mod 64) with 8. change (u64 24 mod 64) with 24. change (u64 0xff000000ff000000) with 0xff000000ff000000.
  change (u64 0x00ff000000ff0000) with 0x00ff000000ff0000. change (u64 0x0000ff000000ff00) with 0x0000ff000000ff00.
  change (u64 0x000000ff000000ff) with 0x000000ff000000ff.
  unfold bswap64. rewrite <- (uw_small 64 a) by done. rewrite uw_idemp by lia.
  apply (bits_below 64); [| apply (bswap_bytes_range 8); lia |].
  { repeat (apply lor_is_u; [lia | |]); try (apply uw_range; lia); (apply shiftr_is_u; [lia | lia |]); (apply land_is_u_r; [lia|]); done. }
  unfold bswap_bytes. rewrite rev_bytes, le_bytes8, !le_bytes4. cbn -[Z.lor Z.shiftl Z.land Z.shiftr Z.testbit uw seq].
  rewrite Z.shiftl_0_l, Z.lor_0_r. rewrite ?Z.shiftr_shiftr by lia. each_bit.
Qed.

(** ** Memory accesses *)

(** A store of [n] bytes sees only the low [8 n] bits. *)
Lemma store_uw n m a v v' : uw (8 * Z.of_nat n) v = uw (8 * Z.of_nat n) v' -> store n m a v = store n m a v'.
Proof.
  revert m a v v'. induction n as [| n IH]; intros m a v v' E; [done |]. cbn [store].
  assert (E8 : v mod 256 = v' mod 256).
  { change 256 with (2 ^ 8). change (uw 8 v = uw 8 v'). rewrite <- (uw_uw_le 8 (8 * Z.of_nat (S n)) v), E by lia. by rewrite uw_uw_le by lia. }
  rewrite E8. destruct (m !! a); cbn; [| done]. apply IH. 
  change 256 with (2 ^ 8). rewrite <- !Z.shiftr_div_pow2 by lia. apply Z.bits_inj'. intros i Hi.
  pose proof (f_equal (fun z => Z.testbit z (i + 8)) E) as Eb. cbn beta in Eb. rewrite !testbit_uw in Eb by lia.
  rewrite !testbit_uw, !testbit_shiftr by lia. replace (i + 8 <? 8 * Z.of_nat (S n)) with (i <? 8 * Z.of_nat n) in Eb; [done |].
  destruct (Z.ltb_spec i (8 * Z.of_nat n)), (Z.ltb_spec (i + 8) (8 * Z.of_nat (S n))); lia.
Qed.
