(* ===== verification/WasmSim.v ===== *)
(** * Compiled operations do what interpreted ones do

    Every operation outside control flow is emitted twice, as interpreter words and
    as WebAssembly.  The two machines are related register by register, by what the
    type of a register promises; from related states, an operation the interpreter
    completes is completed by the compiled code, in related states. *)
From S2P Require Import Prelude BitOps HostUtils Memory TcgCond Opcodes TciDecode Tune TbHeader Tci TciHot TciEquiv.
From S2P Require Import Wasm WasmOps WasmRun WordRel.

(** ** Words in memory *)

(** A pool word is patched, like a branch, with the address of its 64-bit entry. *)
Definition word_at (m : mem) (pc : Z) (t : tword) : Prop :=
  match t with
  | W insn => load 4 m pc = Some insn
  | WPool insn v => exists ptr insn', Emit.patch_reloc insn pc ptr = Some insn' /\ is_u 32 ptr /\
      load 4 m pc = Some insn' /\ load 8 m ptr = Some (u64 v)
  end.

Fixpoint code_at (m : mem) (pc : Z) (ws : list tword) : Prop :=
  match ws with [] => True | t :: ws => word_at m pc t /\ code_at m (u32 (pc + 4)) ws end.

(** ** Typing of registers *)

Definition rtypes : Type := Z -> rty.

Definition retype (r : Z) (t : rty) (G : rtypes) : rtypes := fun r' => if r =? r' then t else G r'.

Definition fits (need have : rty) : bool :=
  match need, have with Any32, _ | Zx32, Zx32 | Full64, Full64 => true | _, _ => false end.

Lemma fits_rel need have a b : fits need have = true -> rel have a b -> rel need a b.
Proof. destruct need, have; try done; cbn; intros _; [tauto | by intros ->]. Qed.

(** The types an operation gives its outputs and needs of its inputs.  The argument
    list starts with the outputs, then the inputs.  Operations whose compiled code is
    wrong or does not validate have none. *)
Definition op_sig (opc : TCGOpcode) : option (list rty * list rty) :=
  match opc with
  | INDEX_op_mb => Some ([], [])
  | INDEX_op_setcond_i32 => Some ([Zx32], [Any32; Any32])
  | INDEX_op_setcond_i64 => Some ([Full64], [Full64; Full64])
  | INDEX_op_movcond_i32 => Some ([Any32], [Any32; Any32; Any32; Any32])
  | INDEX_op_movcond_i64 => Some ([Full64], [Full64; Full64; Full64; Full64])
  | INDEX_op_ld_i32 | INDEX_op_ld8s_i32 | INDEX_op_ld16s_i32 => Some ([Any32], [Any32])
  | INDEX_op_ld8u_i32 | INDEX_op_ld16u_i32 => Some ([Zx32], [Any32])
  | INDEX_op_ld8s_i64 | INDEX_op_ld8u_i64 | INDEX_op_ld16s_i64 | INDEX_op_ld16u_i64
  | INDEX_op_ld32s_i64 | INDEX_op_ld32u_i64 | INDEX_op_ld_i64 => Some ([Full64], [Any32])
  | INDEX_op_st8_i32 | INDEX_op_st16_i32 | INDEX_op_st_i32
  | INDEX_op_st8_i64 | INDEX_op_st16_i64 | INDEX_op_st32_i64 => Some ([], [Any32; Any32])
  | INDEX_op_st_i64 => Some ([], [Full64; Any32])
  | INDEX_op_add_i32 | INDEX_op_sub_i32 | INDEX_op_mul_i32 | INDEX_op_and_i32 | INDEX_op_or_i32 | INDEX_op_xor_i32
  | INDEX_op_andc_i32 | INDEX_op_orc_i32 | INDEX_op_eqv_i32 | INDEX_op_nand_i32 | INDEX_op_nor_i32
  | INDEX_op_shl_i32 | INDEX_op_shr_i32 | INDEX_op_sar_i32 | INDEX_op_rotl_i32 | INDEX_op_rotr_i32
  | INDEX_op_div_i32 | INDEX_op_divu_i32 | INDEX_op_rem_i32 | INDEX_op_remu_i32 => Some ([Any32], [Any32; Any32])
  | INDEX_op_add_i64 | INDEX_op_sub_i64 | INDEX_op_mul_i64 | INDEX_op_and_i64 | INDEX_op_or_i64 | INDEX_op_xor_i64
  | INDEX_op_andc_i64 | INDEX_op_orc_i64 | INDEX_op_eqv_i64 | INDEX_op_nand_i64 | INDEX_op_nor_i64
  | INDEX_op_shl_i64 | INDEX_op_shr_i64 | INDEX_op_sar_i64 | INDEX_op_rotl_i64 | INDEX_op_rotr_i64
  | INDEX_op_div_i64 | INDEX_op_divu_i64 | INDEX_op_rem_i64 | INDEX_op_remu_i64
  | INDEX_op_clz_i64 | INDEX_op_ctz_i64 | INDEX_op_deposit_i64 => Some ([Full64], [Full64; Full64])
  | INDEX_op_clz_i32 | INDEX_op_ctz_i32 => Some ([Any32], [Zx32; Any32])
  | INDEX_op_deposit_i32 => Some ([Zx32], [Any32; Any32])
  | INDEX_op_not_i32 | INDEX_op_neg_i32 => Some ([Any32], [Any32])
  | INDEX_op_not_i64 | INDEX_op_neg_i64 | INDEX_op_ctpop_i64 | INDEX_op_mov_i64
  | INDEX_op_extract_i64 | INDEX_op_sextract_i64 | INDEX_op_bswap64_i64 => Some ([Full64], [Full64])
  | INDEX_op_mov_i32 | INDEX_op_extrl_i64_i32
  | INDEX_op_ext8u_i32 | INDEX_op_ext16u_i32 | INDEX_op_bswap32_i32 => Some ([Zx32], [Any32])
  | INDEX_op_ext8s_i32 | INDEX_op_ext16s_i32 | INDEX_op_bswap16_i32 => Some ([Any32], [Any32])
  | INDEX_op_ext8s_i64 | INDEX_op_ext16s_i64 | INDEX_op_ext32s_i64 | INDEX_op_ext8u_i64 | INDEX_op_ext16u_i64
  | INDEX_op_ext32u_i64 | INDEX_op_ext_i32_i64 | INDEX_op_extu_i32_i64
  | INDEX_op_bswap16_i64 | INDEX_op_bswap32_i64 => Some ([Full64], [Any32])
  | INDEX_op_add2_i64 => Some ([Full64; Full64], [Full64; Full64; Full64; Full64])
  | INDEX_op_mulu2_i32 => Some ([Zx32; Zx32], [Zx32; Zx32])
  | _ => None
  end.

Definition below (n x : Z) : bool := (0 <=? x) && (x <? n).

(** The immediates after the registers: a condition, an offset, a bit field, the
    flags of a swap, the kind of a barrier. *)
Definition imms_ok (opc : TCGOpcode) (imms : list Z) : bool :=
  match opc with
  | INDEX_op_setcond_i32 | INDEX_op_setcond_i64 | INDEX_op_movcond_i32 | INDEX_op_movcond_i64 =>
      match imms with [c] => below 16 c | _ => false end
  | INDEX_op_ld_i32 | INDEX_op_ld8s_i32 | INDEX_op_ld16s_i32 | INDEX_op_ld8u_i32 | INDEX_op_ld16u_i32
  | INDEX_op_ld8s_i64 | INDEX_op_ld8u_i64 | INDEX_op_ld16s_i64 | INDEX_op_ld16u_i64
  | INDEX_op_ld32s_i64 | INDEX_op_ld32u_i64 | INDEX_op_ld_i64
  | INDEX_op_st8_i32 | INDEX_op_st16_i32 | INDEX_op_st_i32
  | INDEX_op_st8_i64 | INDEX_op_st16_i64 | INDEX_op_st32_i64 | INDEX_op_st_i64 =>
      match imms with [ofs] => below (2 ^ 32) (ofs + 2 ^ 31) | _ => false end
  | INDEX_op_deposit_i32 => match imms with [pos; len] => below 64 pos && below 32 len | _ => false end
  | INDEX_op_deposit_i64 | INDEX_op_extract_i64 | INDEX_op_sextract_i64 =>
      match imms with [pos; len] => below 64 pos && below 64 len | _ => false end
  | INDEX_op_mb | INDEX_op_bswap16_i32 | INDEX_op_bswap32_i32 | INDEX_op_bswap16_i64 | INDEX_op_bswap32_i64 | INDEX_op_bswap64_i64 =>
      match imms with [_] => true | _ => false end
  | _ => match imms with [] => true | _ => false end
  end.

Definition reg_okb (r : Z) : bool := below 16 r && negb (r =? TCG_REG_TMP).

Fixpoint all_fit (G : rtypes) (needs : list rty) (rs : list Z) : bool :=
  match needs, rs with
  | [], [] => true
  | t :: needs, r :: rs => reg_okb r && fits t (G r) && all_fit G needs rs
  | _, _ => false
  end.

Fixpoint outs_ok (n : nat) (rs : list Z) : bool :=
  match n, rs with
  | O, [] => true
  | S n, r :: rs => reg_okb r && negb (r =? TCG_REG_R14) && negb (bool_decide (r ∈ rs)) && outs_ok n rs
  | _, _ => false
  end.

(** The operation and its arguments are well-formed, and well-typed in [G]. *)
Definition op_ok (G : rtypes) (opc : TCGOpcode) (args : list Z) : bool :=
  match op_sig opc with
  | None => false
  | Some (outs, ins) =>
      let '(o, i) := (length outs, length ins) in
      outs_ok o (take o args) && all_fit G ins (take i (drop o args)) && imms_ok opc (drop (o + i) args)
  end.

Definition op_result (G : rtypes) (opc : TCGOpcode) (args : list Z) : rtypes :=
  match op_sig opc with
  | None => G
  | Some (outs, _) => foldl (fun G '(r, t) => retype r t G) G (zip args outs)
  end.

(** A host access with a positive offset stays below 4 GiB. *)
Definition no_wrap {WT} (st : tci_state WT) (base ofs : Z) : bool := (ofs <? 0) || (u32 (rd st base) + ofs <? 2 ^ 32).

Definition op_pre {WT} (st : tci_state WT) (opc : TCGOpcode) (args : list Z) : bool :=
  match opc with
  | INDEX_op_ld_i32 | INDEX_op_ld8s_i32 | INDEX_op_ld16s_i32 | INDEX_op_ld8u_i32 | INDEX_op_ld16u_i32
  | INDEX_op_ld8s_i64 | INDEX_op_ld8u_i64 | INDEX_op_ld16s_i64 | INDEX_op_ld16u_i64
  | INDEX_op_ld32s_i64 | INDEX_op_ld32u_i64 | INDEX_op_ld_i64
  | INDEX_op_st8_i32 | INDEX_op_st16_i32 | INDEX_op_st_i32
  | INDEX_op_st8_i64 | INDEX_op_st16_i64 | INDEX_op_st32_i64 | INDEX_op_st_i64 => no_wrap st (args !!! 1%nat) (args !!! 2%nat)
  | _ => true
  end.

Lemma below_spec n x : below n x = true <-> 0 <= x < n.
Proof. unfold below. rewrite andb_true_iff, Z.leb_le, Z.ltb_lt. done. Qed.

Lemma reg_okb_spec r : reg_okb r = true <-> reg_ok r.
Proof. unfold reg_okb, reg_ok. rewrite andb_true_iff, below_spec, negb_true_iff, Z.eqb_neq. done. Qed.

Lemma reg_ok_in r : reg_ok r -> in_reg r.
Proof. by intros []. Qed.

Lemma reg_ok_u4 r : reg_ok r -> is_u 4 r.
Proof. unfold reg_ok, is_u. lia. Qed.

#[local] Hint Resolve reg_ok_in reg_ok_u4 : core.

(** An output register: not the temporary, not [env]. *)
Definition dst (r : Z) : Prop := reg_ok r /\ r <> TCG_REG_R14.

Lemma dst_out r : dst r -> out_reg r.
Proof. intros [[] ?]. done. Qed.

Lemma dst_reg r : dst r -> reg_ok r.
Proof. by intros []. Qed.

#[local] Hint Resolve dst_out dst_reg : core.

(** An input register whose type fits. *)
Definition src (G : rtypes) (t : rty) (r : Z) : Prop := reg_ok r /\ fits t (G r) = true.

Lemma src_reg G t r : src G t r -> reg_ok r.
Proof. by intros []. Qed.

#[local] Hint Resolve src_reg : core.

(** The arguments of a well-formed operation, by its signature. *)
Lemma outs_ok_spec n rs : outs_ok n rs = true -> length rs = n /\ Forall dst rs /\ NoDup rs.
Proof.
  revert n. induction rs as [| r rs IH]; intros [| n]; cbn; try done; [repeat constructor |].
  rewrite !andb_true_iff, !negb_true_iff, reg_okb_spec, Z.eqb_neq, bool_decide_eq_false. intros [[[Hr Hn] Hi] Ho].
  apply IH in Ho as (<- & Hf & Hd). split_and!; by constructor.
Qed.

Lemma all_fit_spec G needs rs : all_fit G needs rs = true -> Forall2 (src G) needs rs.
Proof.
  revert rs. induction needs as [| t needs IH]; intros [| r rs]; cbn; try done.
  rewrite !andb_true_iff, reg_okb_spec. intros [[Hr Hf] Ha]. constructor; [done | by apply IH].
Qed.

Lemma op_ok_spec G opc args outs ins : op_sig opc = Some (outs, ins) -> op_ok G opc args = true ->
  exists ro ri ims, args = ro ++ ri ++ ims /\ length ro = length outs /\ Forall dst ro /\ NoDup ro /\
    Forall2 (src G) ins ri /\ imms_ok opc ims = true.
Proof.
  intros Hs. unfold op_ok. rewrite Hs, !andb_true_iff. intros [[Ho Hi] Him].
  apply outs_ok_spec in Ho as (Hl & Hd & Hn). apply all_fit_spec in Hi.
  exists (take (length outs) args), (take (length ins) (drop (length outs) args)), (drop (length outs + length ins) args).
  split_and!; try done. by rewrite <- drop_drop, !take_drop.
Qed.

(** Names the registers [r], [r0], ... of an operation of known signature. *)
Ltac op_inv Hs Hok ims Him :=
  let ro := fresh in let ri := fresh in let Hl := fresh in let Hd := fresh in let Hi := fresh in let Hn := fresh "Hnd" in
  apply (op_ok_spec _ _ _ _ _ Hs) in Hok as (ro & ri & ims & -> & Hl & Hd & Hn & Hi & Him);
  repeat (let r := fresh "r" in destruct ro as [| r ro]; cbn [length] in Hl; try discriminate); clear Hl;
  repeat (apply Forall2_cons_inv_l in Hi; let r := fresh "r" in destruct Hi as (r & ? & ?Hsrc & Hi & ->));
  apply Forall2_nil_inv_l in Hi as ->;
  repeat (apply Forall_cons_1 in Hd; let Hx := fresh "Hdst" in destruct Hd as [Hx Hd]); clear Hd; cbn [app].

Section Exact.
Context {WT : Type} `{!Helpers WT}.
Context (cfg : tci_cfg) (rl : bool).
Implicit Type st : tci_state WT.

Record related (G : rtypes) (e : est) (w : wst) st : Prop := {
  rel_wf : wf rl w;
  rel_cache : cache_ok rl e w;
  rel_mem : wmem w = tmem st;
  rel_bytes : mem_wf (tmem st);
  rel_len : length (regs st) = 16%nat;
  rel_wu : forall r, in_reg r -> is_u 64 (rget rl w r);
  rel_su : forall r, in_reg r -> is_u 64 (rd st r);
  rel_regs : forall r, reg_ok r -> rel (G r) (rget rl w r) (rd st r)
}.

(** ** Register writes on both sides *)

(** A write of both machines: register, type, compiled value, interpreted value. *)
Record write := { w_reg : Z; w_ty : rty; w_cval : Z; w_ival : Z }.

Definition write_ok (x : write) : Prop :=
  reg_ok (w_reg x) /\ rel (w_ty x) (w_cval x) (w_ival x) /\ is_u 64 (w_cval x) /\ is_u 64 (w_ival x).

Definition cwrites (xs : list write) : list (Z * Z) := (fun x => (w_reg x, w_cval x)) <$> xs.
Definition iwrites (xs : list write) st : tci_state WT := foldr (fun x => wr (w_reg x) (w_ival x)) st xs.
Definition twrites (xs : list write) (G : rtypes) : rtypes := foldr (fun x => retype (w_reg x) (w_ty x)) G xs.

Lemma rd_wr st r r' v : length (regs st) = 16%nat -> in_reg r -> in_reg r' -> rd (wr r v st) r' = if r =? r' then v else rd st r'.
Proof.
  intros Hl Hr Hr'. unfold rd, wr, in_reg in *. cbn. destruct (Z.eqb_spec r r') as [-> | Hn].
  - apply lookup_total_insert_eq. lia.
  - apply lookup_total_insert_ne. lia.
Qed.

Lemma iwrites_frame xs st : length (regs (iwrites xs st)) = length (regs st) /\ tmem (iwrites xs st) = tmem st.
Proof. induction xs as [| x xs [IH1 IH2]]; cbn; [done |]. by rewrite length_insert. Qed.

(** Equal writes on both sides leave related registers. *)
Lemma writes_regs G xs st (f : Z -> Z) : Forall write_ok xs -> length (regs st) = 16%nat ->
  (forall r, in_reg r -> is_u 64 (f r)) -> (forall r, in_reg r -> is_u 64 (rd st r)) ->
  (forall r, reg_ok r -> rel (G r) (f r) (rd st r)) ->
  let g r := look (cwrites xs) r (f r) in let st' := iwrites xs st in
  (forall r, in_reg r -> is_u 64 (g r)) /\ (forall r, in_reg r -> is_u 64 (rd st' r)) /\
  (forall r, reg_ok r -> rel (twrites xs G r) (g r) (rd st' r)).
Proof.
  intros Hxs Hl Hc Hi Hr g st'. subst g st'. induction Hxs as [| x xs (Hx & Hrel & Hxc & Hxi) Hxs (IHc & IHi & IHr)]; [done |]. cbn.
  assert (Hw : forall r, in_reg r -> rd (wr (w_reg x) (w_ival x) (iwrites xs st)) r = if w_reg x =? r then w_ival x else rd (iwrites xs st) r).
  { intros r Hr'. apply rd_wr; [by rewrite (proj1 (iwrites_frame xs st)) | by apply reg_ok_in | done]. }
  split_and!; intros r Hr'; [| rewrite Hw by done | rewrite Hw by (by apply reg_ok_in); unfold retype]; destruct (w_reg x =? r); auto; by apply IHr.
Qed.

(** ** One operation *)

(** From related states, if the interpreter goes on then the code runs to related
    states; the interpreter is then at [pc]. *)
Definition matches (G G' : rtypes) (a : E) (e : est) (w : wst) (o : outcome WT) (pc : Z) : Prop :=
  forall pc' st', o = Next pc' st' ->
  pc' = pc /\ exists w', runs rl a e w [] w' [] /\ related G' (fst (a e)) w' st'.

Lemma matches_writes G xs a e w st pc : related G e w st -> Forall write_ok xs -> computes rl a e w (cwrites xs) ->
  matches G (twrites xs G) a e w (Next pc (iwrites xs st)) pc.
Proof.
  intros [Hwf Hca Hm Hb Hl Hwu Hsu Hr] Hxs (w' & Hrun & [Hwf' Hm' Hg]) pc' st' [= <- <-]. split; [done |]. exists w'. split; [done |].
  destruct (iwrites_frame xs st) as [El Em]. destruct (writes_regs G xs st (rget rl w) Hxs Hl Hwu Hsu Hr) as (Hc & Hi & Hr').
  split; rewrite ?Em; try done.
  - by apply (runs_cache _ _ _ _ _ _ _ Hrun).
  - congruence.
  - congruence.
  - intros r Hr0. rewrite Hg by done. by apply Hc.
  - intros r Hr0. rewrite Hg by (by apply reg_ok_in). by apply Hr'.
Qed.

(** The operation [opc] with [args], emitted as [b]: from related states at its words,
    when the interpreter gets through them, the compiled code runs to related states. *)
Definition op_correct (G : rtypes) (opc : TCGOpcode) (args : list Z) (b : list tword * E) : Prop :=
  forall e w st pc pc' st', related G e w st -> code_at (tmem st) pc (fst b) -> op_pre st opc args = true ->
  steps cfg (length (fst b)) pc st = Some (pc', st') ->
  pc' = u32 (pc + 4 * Z.of_nat (length (fst b))) /\
  exists w', runs rl (snd b) e w [] w' [] /\ related (op_result G opc args) (fst (snd b e)) w' st'.

Lemma step_word opc o pc st : load 4 (tmem st) pc = Some (emit opc o) ->
  Full.step cfg false pc st = Full.exec cfg false opc (emit opc o) (u32 (pc + 4)) st.
Proof. intros Hl. unfold Full.step, ld. by rewrite Hl, emit_opc, opcode_of_num_of. Qed.

Lemma correct_word G opc args tc o a :
  (forall e w st pc, related G e w st -> op_pre st opc args = true ->
   matches G (op_result G opc args) a e w (Full.exec cfg false tc (emit tc o) pc st) pc) ->
  op_correct G opc args ([W (emit tc o)], a).
Proof.
  intros Hm e w st pc pc' st' Hr [Hc _] Hp. cbn. rewrite (step_word tc o) by done.
  destruct (Full.exec _ _ _ _ _ _) as [pc1 st1 |] eqn:Ex; [| done]. intros [= <- <-]. by apply (Hm e w st _ Hr Hp).
Qed.

(** One result. *)
Lemma matches_retype G r0 t0 a e w st pc cv iv : related G e w st -> dst r0 -> computes rl a e w [(r0, cv)] ->
  rel t0 cv iv -> is_u 64 cv -> is_u 64 iv -> matches G (retype r0 t0 G) a e w (Next pc (wr r0 iv st)) pc.
Proof.
  intros Hr Hd Hc Hv Hcu Hiu.
  apply (matches_writes G [{| w_reg := r0; w_ty := t0; w_cval := cv; w_ival := iv |}]); [done | | done].
  apply Forall_singleton. unfold write_ok. cbn. auto.
Qed.

Lemma op_result1 G opc t0 ins r0 ims : op_sig opc = Some ([t0], ins) -> op_result G opc (r0 :: ims) = retype r0 t0 G.
Proof. intros Hs. unfold op_result. rewrite Hs. by destruct ims. Qed.

Lemma matches_write G opc args r0 t0 ins ims a e w st pc cv iv : related G e w st ->
  op_sig opc = Some ([t0], ins) -> args = r0 :: ims -> dst r0 -> computes rl a e w [(r0, cv)] ->
  rel t0 cv iv -> is_u 64 cv -> is_u 64 iv ->
  matches G (op_result G opc args) a e w (Next pc (wr r0 iv st)) pc.
Proof. intros Hr Hs -> **. rewrite (op_result1 _ _ _ _ _ _ Hs). by apply (matches_retype _ _ _ _ _ _ _ _ cv). Qed.

(** Two operands, one result; a division may have no result. *)
Definition bin_value (t0 t1 t2 : rty) (g : Z -> Z -> Z) (f : Z -> Z -> option Z) : Prop :=
  forall a a' b b' v, is_u 64 a -> is_u 64 a' -> is_u 64 b -> is_u 64 b' -> rel t1 a a' -> rel t2 b b' -> f a' b' = Some v ->
  rel t0 (g a b) v /\ is_u 64 (g a b) /\ is_u 64 v.

Lemma src_rel G e w st t r : related G e w st -> src G t r -> rel t (rget rl w r) (rd st r).
Proof. intros Hr [Hk Hf]. apply (fits_rel _ _ _ _ Hf). by apply Hr. Qed.

Lemma rrr_div_correct G opc c g f t0 t1 t2 args : op_sig opc = Some ([t0], [t1; t2]) ->
  (forall ims, imms_ok opc ims = match ims with [] => true | _ => false end) ->
  (forall insn pc st, Full.exec cfg false opc insn pc st =
     let '(r0, r1, r2) := tci_args_rrr insn in quo (f (rd st r1) (rd st r2)) (fun v => Next pc (wr r0 v st))) ->
  (forall e w r0 r1 r2 a' b' v, wf rl w -> out_reg r0 -> in_reg r1 -> in_reg r2 -> 
     rel t1 (rget rl w r1) a' -> rel t2 (rget rl w r2) b' -> f a' b' = Some v ->
     computes rl (c r0 r1 r2) e w [(r0, g (rget rl w r1) (rget rl w r2))]) ->
  bin_value t0 t1 t2 g f -> op_ok G opc args = true -> op_correct G opc args (rrr opc c args).
Proof.
  intros Hs Hi Hx Hc Hv Hok. op_inv Hs Hok ims Him. rewrite Hi in Him. destruct ims; [| done].
  change (rrr opc c [r; r0; r1]) with ([W (emit opc (O_rrr r r0 r1))], c r r0 r1).
  apply correct_word. intros e w st pc Hr _. rewrite Hx. cbn [emit]. rewrite decode_rrr by eauto.
  destruct (f (rd st r0) (rd st r1)) as [v |] eqn:Ef; [| by intros ? ?]. cbn [quo].
  destruct (Hv (rget rl w r0) (rd st r0) (rget rl w r1) (rd st r1) v) as (Hrel & Hcu & Hiu); eauto using src_rel; try (apply Hr; eauto).
  eapply matches_write; [done | done | done | done | eapply Hc; eauto using src_rel; apply Hr | done | done | done].
Qed.

Definition bin_total (t0 t1 t2 : rty) (g f : Z -> Z -> Z) : Prop :=
  forall a a' b b', is_u 64 a -> is_u 64 a' -> is_u 64 b -> is_u 64 b' -> rel t1 a a' -> rel t2 b b' ->
  rel t0 (g a b) (f a' b') /\ is_u 64 (g a b) /\ is_u 64 (f a' b').

Lemma rrr_correct G opc c g f t0 t1 t2 args : op_sig opc = Some ([t0], [t1; t2]) ->
  (forall ims, imms_ok opc ims = match ims with [] => true | _ => false end) ->
  (forall insn pc st, Full.exec cfg false opc insn pc st = Full.do_rrr f insn pc st) ->
  (forall e w r0 r1 r2, wf rl w -> out_reg r0 -> in_reg r1 -> in_reg r2 -> 
     computes rl (c r0 r1 r2) e w [(r0, g (rget rl w r1) (rget rl w r2))]) ->
  bin_total t0 t1 t2 g f -> op_ok G opc args = true -> op_correct G opc args (rrr opc c args).
Proof.
  intros Hs Hi Hx Hc Hv. apply (rrr_div_correct G opc c g (fun a b => Some (f a b)) t0 t1 t2); auto.
  intros a a' b b' v ? ? ? ? ? ? [= <-]. by apply Hv.
Qed.

Lemma div_correct G opc c g f t args : op_sig opc = Some ([t], [t; t]) ->
  (forall ims, imms_ok opc ims = match ims with [] => true | _ => false end) ->
  (forall insn pc st, Full.exec cfg false opc insn pc st = Full.do_div f insn pc st) ->
  (forall e w r0 r1 r2 a' b' v, wf rl w -> out_reg r0 -> in_reg r1 -> in_reg r2 ->
     rel t (rget rl w r1) a' -> rel t (rget rl w r2) b' -> f a' b' = Some v ->
     computes rl (c r0 r1 r2) e w [(r0, g (rget rl w r1) (rget rl w r2))]) ->
  bin_value t t t g (fun a b => u64 <$> f a b) -> op_ok G opc args = true -> op_correct G opc args (rrr opc c args).
Proof.
  intros Hs Hi Hx Hc Hv. apply (rrr_div_correct G opc c g (fun a b => u64 <$> f a b) t t t); auto.
  - intros insn pc st. rewrite Hx. unfold Full.do_div. destruct (tci_args_rrr insn) as [[r0 r1] r2]. by destruct (f _ _).
  - intros e w r0 r1 r2 a' b' v. destruct (f a' b') eqn:E; [| done]. intros. by eapply Hc.
Qed.

Definition un_total (t0 t1 : rty) (g f : Z -> Z) : Prop :=
  forall a a', is_u 64 a -> is_u 64 a' -> rel t1 a a' -> rel t0 (g a) (f a') /\ is_u 64 (g a) /\ is_u 64 (f a').

Lemma rr_matches G tc c g f t0 t1 r r0 e w st pc : 
  (forall insn pc st, Full.exec cfg false tc insn pc st = Full.do_rr f insn pc st) ->
  (forall e w, wf rl w -> computes rl (c r r0) e w [(r, g (rget rl w r0))]) ->
  un_total t0 t1 g f -> dst r -> src G t1 r0 -> related G e w st ->
  matches G (retype r t0 G) (c r r0) e w (Full.exec cfg false tc (emit tc (O_rr r r0)) pc st) pc.
Proof.
  intros Hx Hc Hv Hd Hsrc Hr. rewrite Hx. unfold Full.do_rr. cbn [emit]. rewrite decode_rr by eauto.
  destruct (Hv (rget rl w r0) (rd st r0)) as (Hrel & Hcu & Hiu); eauto using src_rel; try (apply Hr; eauto).
  eapply matches_retype; eauto. eapply Hc; eauto. apply Hr.
Qed.

Lemma rr_correct G opc tc c g f t0 t1 args : op_sig opc = Some ([t0], [t1]) ->
  (forall ims, imms_ok opc ims = match ims with [] => true | _ => false end) ->
  (forall insn pc st, Full.exec cfg false tc insn pc st = Full.do_rr f insn pc st) ->
  (forall e w r0 r1, wf rl w -> out_reg r0 -> in_reg r1 -> computes rl (c r0 r1) e w [(r0, g (rget rl w r1))]) ->
  un_total t0 t1 g f -> op_ok G opc args = true -> op_correct G opc args (rr tc c args).
Proof.
  intros Hs Hi Hx Hc Hv Hok. op_inv Hs Hok ims Him. rewrite Hi in Him. destruct ims; [| done].
  change (rr tc c [r; r0]) with ([W (emit tc (O_rr r r0))], c r r0).
  apply correct_word. intros e w st pc Hr _. rewrite (op_result1 _ _ _ _ _ _ Hs). eapply rr_matches; eauto.
Qed.

Lemma rrbb_correct G opc c g f args : op_sig opc = Some ([Full64], [Full64]) ->
  (forall ims, imms_ok opc ims = match ims with [pos; len] => below 64 pos && below 64 len | _ => false end) ->
  (forall insn pc st, Full.exec cfg false opc insn pc st = let '(r0, r1, pos, len) := tci_args_rrbb insn in
     asserting (bitfield_ok 64 pos len) (Next pc (wr r0 (f (rd st r1) pos len) st))) ->
  (forall e w r0 r1 pos len, wf rl w -> out_reg r0 -> in_reg r1 -> computes rl (c r0 r1 pos len) e w [(r0, g (rget rl w r1) pos len)]) ->
  (forall a pos len, is_u 64 a -> bitfield_ok 64 pos len = true -> g a pos len = f a pos len /\ is_u 64 (f a pos len)) ->
  op_ok G opc args = true -> op_correct G opc args (rrbb opc c args).
Proof.
  intros Hs Hi Hx Hc Hv Hok. op_inv Hs Hok ims Him. rewrite Hi in Him. destruct ims as [| pos [| len []]]; try done.
  apply andb_true_iff in Him as [Hp Hl]. rewrite below_spec in Hp, Hl.
  change (rrbb opc c [r; r0; pos; len]) with ([W (emit opc (O_rrbb r r0 pos len))], c r r0 pos len).
  apply correct_word. intros e w st pc Hr _. rewrite Hx. cbn [emit]. rewrite decode_rrbb by eauto.
  unfold asserting. destruct (bitfield_ok 64 pos len) eqn:Hb; [| by intros ? ?].
  pose proof (src_rel _ _ _ _ _ _ Hr Hsrc) as E. cbn in E. destruct (Hv (rd st r0) pos len) as [Ev Hu]; [apply Hr; eauto | done |].
  eapply (matches_write _ _ _ _ _ _ _ _ _ _ _ _ (g (rget rl w r0) pos len)); eauto; [apply Hc; eauto; apply Hr | | ]; by rewrite E, Ev.
Qed.

Lemma rrrbb_correct G opc c g f n t args : op_sig opc = Some ([t], [match t with Full64 => Full64 | _ => Any32 end; match t with Full64 => Full64 | _ => Any32 end]) ->
  n <= 64 ->
  (forall ims, imms_ok opc ims = match ims with [pos; len] => below 64 pos && below n len | _ => false end) ->
  (forall insn pc st, Full.exec cfg false opc insn pc st = let '(r0, r1, r2, pos, len) := tci_args_rrrbb insn in
     asserting (bitfield_ok n pos len) (Next pc (wr r0 (f (rd st r1) (rd st r2) pos len) st))) ->
  (forall e w r0 r1 r2 pos len, wf rl w -> out_reg r0 -> in_reg r1 -> in_reg r2 ->
     computes rl (c r0 r1 r2 pos len) e w [(r0, g (rget rl w r1) (rget rl w r2) pos len)]) ->
  (forall a a' b b' pos len, is_u 64 a -> is_u 64 b -> rel (match t with Full64 => Full64 | _ => Any32 end) a a' ->
     rel (match t with Full64 => Full64 | _ => Any32 end) b b' -> bitfield_ok n pos len = true -> len < n ->
     rel t (g a b pos len) (f a' b' pos len) /\ is_u 64 (g a b pos len) /\ is_u 64 (f a' b' pos len)) ->
  op_ok G opc args = true -> op_correct G opc args (rrrbb opc c args).
Proof.
  intros Hs Hn Hi Hx Hc Hv Hok. op_inv Hs Hok ims Him. rewrite Hi in Him. destruct ims as [| pos [| len []]]; try done.
  apply andb_true_iff in Him as [Hp Hl]. rewrite below_spec in Hp, Hl.
  change (rrrbb opc c [r; r0; r1; pos; len]) with ([W (emit opc (O_rrrbb r r0 r1 pos len))], c r r0 r1 pos len).
  apply correct_word. intros e w st pc Hr _. rewrite Hx. cbn [emit]. rewrite decode_rrrbb by (eauto; unfold is_u; lia).
  unfold asserting. destruct (bitfield_ok n pos len) eqn:Hb; [| by intros ? ?].
  destruct (Hv (rget rl w r0) (rd st r0) (rget rl w r1) (rd st r1) pos len) as (Hrel & Hcu & Hiu); eauto using src_rel; try lia; try (apply Hr; eauto).
  eapply matches_write; eauto. eapply Hc; eauto. apply Hr.
Qed.

(** Comparisons: at 32 bits on the low halves, at 64 bits on the registers. *)
Definition same_cond (t : rty) (C : Z -> Z -> Z -> option bool) : Prop :=
  forall a a' b b' c, rel t a a' -> rel t b b' -> C a b c = C a' b' c.

Lemma setcond_correct G opc c C t0 t args : op_sig opc = Some ([t0], [t; t]) ->
  (forall ims, imms_ok opc ims = match ims with [cond] => below 16 cond | _ => false end) ->
  (forall insn pc st, Full.exec cfg false opc insn pc st = let '(r0, r1, r2, cond) := tci_args_rrrc insn in
     cmp (C (rd st r1) (rd st r2) cond) (fun b => Next pc (wr r0 (b2z b) st))) ->
  (forall e w r0 r1 r2 cond b, wf rl w -> out_reg r0 -> in_reg r1 -> in_reg r2 -> C (rget rl w r1) (rget rl w r2) cond = Some b ->
     computes rl (c cond r0 r1 r2) e w [(r0, b2z b)]) ->
  same_cond t C -> op_ok G opc args = true -> op_correct G opc args (setcond opc c args).
Proof.
  intros Hs Hi Hx Hc HC Hok. op_inv Hs Hok ims Him. rewrite Hi in Him. destruct ims as [| cond []]; try done.
  rewrite below_spec in Him. change (setcond opc c [r; r0; r1; cond]) with ([W (emit opc (O_rrrc r r0 r1 cond))], c cond r r0 r1).
  apply correct_word. intros e w st pc Hr _. rewrite Hx. cbn [emit]. rewrite decode_rrrc by eauto.
  rewrite <- (HC (rget rl w r0) _ (rget rl w r1)) by (eapply src_rel; eauto).
  destruct (C _ _ cond) as [b |] eqn:Eb; [| by intros ? ?]. cbn [cmp].
  assert (is_u 32 (b2z b)) by (destruct b; split; done).
  eapply matches_write; eauto; [| by apply rel_same | |]; [| unfold is_u in *; lia..]. eapply Hc; eauto. apply Hr.
Qed.

Lemma movcond_correct G opc c C t args : op_sig opc = Some ([t], [t; t; t; t]) ->
  (forall ims, imms_ok opc ims = match ims with [cond] => below 16 cond | _ => false end) ->
  (forall insn pc st, Full.exec cfg false opc insn pc st = let '(r0, r1, r2, r3, r4, cond) := tci_args_rrrrrc insn in
     cmp (C (rd st r1) (rd st r2) cond) (fun b => Next pc (wr r0 (rd st (if b : bool then r3 else r4)) st))) ->
  (forall e w r0 r1 r2 r3 r4 cond b, wf rl w -> out_reg r0 -> in_reg r1 -> in_reg r2 -> in_reg r3 -> in_reg r4 ->
     C (rget rl w r1) (rget rl w r2) cond = Some b -> computes rl (c cond r0 r1 r2 r3 r4) e w [(r0, rget rl w (if b : bool then r3 else r4))]) ->
  same_cond t C -> op_ok G opc args = true -> op_correct G opc args (movcond opc c args).
Proof.
  intros Hs Hi Hx Hc HC Hok. op_inv Hs Hok ims Him. rewrite Hi in Him. destruct ims as [| cond []]; try done. rewrite below_spec in Him.
  change (movcond opc c [r; r0; r1; r2; r3; cond]) with ([W (emit opc (O_rrrrrc r r0 r1 r2 r3 cond))], c cond r r0 r1 r2 r3).
  apply correct_word. intros e w st pc Hr _. rewrite Hx. cbn [emit]. rewrite decode_rrrrrc by eauto.
  rewrite <- (HC (rget rl w r0) _ (rget rl w r1)) by (eapply src_rel; eauto).
  destruct (C _ _ cond) as [b |] eqn:Eb; [| by intros ? ?]. cbn [cmp].
  eapply (matches_write _ _ _ _ _ _ _ _ _ _ _ _ (rget rl w (if b then r2 else r3))); eauto.
  - eapply Hc; eauto. apply Hr.
  - destruct b; eauto using src_rel.
  - apply Hr. destruct b; eauto.
  - apply Hr. destruct b; eauto.
Qed.

(** Two results. *)
Lemma matches_write2 G opc r0 r1 ims t ins a e w st pc cl ch il ih : related G e w st ->
  op_sig opc = Some ([t; t], ins) -> dst r0 -> dst r1 -> computes rl a e w [(r1, ch); (r0, cl)] ->
  rel t cl il -> rel t ch ih -> is_u 64 cl -> is_u 64 ch -> is_u 64 il -> is_u 64 ih ->
  matches G (op_result G opc (r0 :: r1 :: ims)) a e w (Next pc (wr r1 ih (wr r0 il st))) pc.
Proof.
  intros Hr Hs Hd0 Hd1 Hc **. unfold op_result. rewrite Hs. 
  replace (zip (r0 :: r1 :: ims) [t; t]) with [(r0, t); (r1, t)] by (by destruct ims).
  apply (matches_writes G [{| w_reg := r1; w_ty := t; w_cval := ch; w_ival := ih |}; {| w_reg := r0; w_ty := t; w_cval := cl; w_ival := il |}]); [done | | done].
  apply Forall_cons_2; [| apply Forall_singleton]; unfold write_ok; cbn; auto.
Qed.

Lemma add2_correct G args : op_ok G INDEX_op_add2_i64 args = true ->
  op_correct G INDEX_op_add2_i64 args (rrrrrr INDEX_op_add2_i64 (out_add2 rl) args).
Proof.
  intros Hok. pose proof (eq_refl : op_sig INDEX_op_add2_i64 = Some ([Full64; Full64], [Full64; Full64; Full64; Full64])) as Hs.
  op_inv Hs Hok ims Him. destruct ims; [| done].
  change (rrrrrr ?o ?c [r; r0; r1; r2; r3; r4]) with ([W (emit o (O_rrrrrr r r0 r1 r2 r3 r4))], c r r0 r1 r2 r3 r4).
  apply correct_word. intros e w st pc Hr _. change (Full.exec cfg false INDEX_op_add2_i64 ?i pc st) with
    (let '(r0, r1, r2, r3, r4, r5) := tci_args_rrrrrr i in let T1 := u64 (rd st r2 + rd st r4) in
     let T2 := u64 (rd st r3 + rd st r5 + b2z (T1 <? rd st r2)) in Next pc (wr r1 T2 (wr r0 T1 st))).
  cbn [emit]. rewrite decode_rrrrrr by eauto. cbv zeta.
  pose proof (src_rel _ _ _ _ _ _ Hr Hsrc) as E1. pose proof (src_rel _ _ _ _ _ _ Hr Hsrc0) as E2.
  pose proof (src_rel _ _ _ _ _ _ Hr Hsrc1) as E3. pose proof (src_rel _ _ _ _ _ _ Hr Hsrc2) as E4. cbn in E1, E2, E3, E4.
  eapply matches_write2; [done | done | done | done | apply add2_computes; eauto; apply Hr | ..]; try (apply uw_range; lia); cbn; rewrite ?E1, ?E2, ?E3, ?E4; [done |].
  rewrite uw_add_idemp_l, uw_add_idemp_r. do 2 f_equal.
  assert (U1 : is_u 64 (rd st r1)) by (apply Hr; eauto). assert (U3 : is_u 64 (rd st r3)) by (apply Hr; eauto).
  assert (Ec : (u64 (rd st r1 + rd st r3) <? rget rl w (carry_reg r r1 r3)) = (u64 (rd st r1 + rd st r3) <? rd st r1)).
  { unfold carry_reg. repeat case_match; rewrite ?E1, ?E3; try done. apply add_carry_comm; done. }
  rewrite Ec. by destruct (u64 (rd st r1 + rd st r3) <? rd st r1).
Qed.

Lemma mulu2_correct G args : op_ok G INDEX_op_mulu2_i32 args = true ->
  op_correct G INDEX_op_mulu2_i32 args (rrrr INDEX_op_mulu2_i32 (out_mulu2_i32 rl) args).
Proof.
  intros Hok. pose proof (eq_refl : op_sig INDEX_op_mulu2_i32 = Some ([Zx32; Zx32], [Zx32; Zx32])) as Hs.
  op_inv Hs Hok ims Him. destruct ims; [| done].
  change (rrrr ?o ?c [r; r0; r1; r2]) with ([W (emit o (O_rrrr r r0 r1 r2))], c r r0 r1 r2).
  apply correct_word. intros e w st pc Hr _. change (Full.exec cfg false INDEX_op_mulu2_i32 ?i pc st) with
    (let '(r0, r1, r2, r3) := tci_args_rrrr i in
     Next pc (tci_write_reg64 r1 r0 (u64 (u32 (rd st r2) * u32 (rd st r3))) st)).
  cbn [emit]. rewrite decode_rrrr by eauto. unfold tci_write_reg64.
  destruct (src_rel _ _ _ _ _ _ Hr Hsrc) as [E1 U1]. destruct (src_rel _ _ _ _ _ _ Hr Hsrc0) as [E2 U2].
  rewrite (uw_small 32 (rget rl w r1)) in E1 by done. rewrite (uw_small 32 (rget rl w r2)) in E2 by done. set (p := u64 (u32 (rd st r1) * u32 (rd st r2))).
  assert (Hp : is_u 64 p) by (apply uw_range; lia).
  assert (Hh : is_u 32 (Z.shiftr p 32)).
  { unfold is_u in *. rewrite Z.shiftr_div_pow2 by lia. split; [apply Z.div_pos; lia |]. apply Z.div_lt_upper_bound; lia. }
  pose proof (uw_range 32 p ltac:(lia)) as Hlo.
  eapply (matches_write2 _ _ _ _ _ _ _ _ _ _ _ _ (u32 p) (Z.shiftr p 32)); [done | done | done | done | | by apply rel_same | by apply rel_same | unfold is_u in *; lia..].
  pose proof (mul2_computes rl e w (rel_wf _ _ _ _ Hr) r r1 r2 ltac:(eauto) ltac:(eauto) ltac:(eauto) r0 ltac:(eauto)) as Hm.
  cbv zeta in Hm. rewrite E1, E2, !land_mask32 in Hm. fold p in Hm. change (u64 32 mod 64) with 32 in Hm.
  by rewrite (uw_small 32 (Z.shiftr p 32)) in Hm.
Qed.

Lemma mb_correct G args : op_ok G INDEX_op_mb args = true ->
  op_correct G INDEX_op_mb args ([W (Emit.op_v INDEX_op_mb)], op 0x01).
Proof.
  intros _ e w st pc pc' st' Hr [Hc _] _. cbn. unfold Full.step, ld. rewrite Hc.
  change (opcode_of_num (tci_opc (Emit.op_v INDEX_op_mb))) with (Some INDEX_op_mb). cbn. intros [= <- <-]. split; [done |].
  exists w. split; [by apply runs_pure |]. by destruct args.
Qed.

(** ** Byte swaps, with a sign extension of the result *)

Lemma wr_wr r a b st : wr r a (wr r b st) = wr r a st.
Proof. unfold wr, set_regs. cbn. by rewrite list_insert_insert_eq. Qed.

(** An operation on [r0] into [r], then one on [r] in place. *)
Lemma rr_rr_correct G opc tc1 tc2 a1 a2 g1 g2 f1 f2 t0 t1 r r0 ims : op_sig opc = Some ([t0], [t1]) ->
  (forall insn pc st, Full.exec cfg false tc1 insn pc st = Full.do_rr f1 insn pc st) ->
  (forall insn pc st, Full.exec cfg false tc2 insn pc st = Full.do_rr f2 insn pc st) ->
  (forall e w, wf rl w -> computes rl a1 e w [(r, g1 (rget rl w r0))]) ->
  (forall e w, wf rl w -> computes rl a2 e w [(r, g2 (rget rl w r))]) ->
  un_total t0 t1 (fun a => g2 (g1 a)) (fun a => f2 (f1 a)) -> dst r -> src G t1 r0 ->
  op_correct G opc (r :: r0 :: ims) ([W (emit tc1 (O_rr r r0)); W (emit tc2 (O_rr r r))], emits [a1; a2]).
Proof.
  intros Hs Hx1 Hx2 Hc1 Hc2 Hv Hd Hsrc e w st pc pc' st' Hr (Hw1 & Hw2 & _) _. cbn [fst snd length steps].
  rewrite (step_word tc1 (O_rr r r0)), Hx1 by done. unfold Full.do_rr at 1. cbn [emit]. rewrite decode_rr by eauto.
  rewrite (step_word tc2 (O_rr r r)), Hx2 by done. unfold Full.do_rr. cbn [emit]. rewrite decode_rr by eauto.
  rewrite wr_wr, rd_wr, Z.eqb_refl by (first [apply Hr | eauto]). intros [= <- <-].
  destruct (Hv (rget rl w r0) (rd st r0)) as (Hrel & Hcu & Hiu); eauto using src_rel; try (apply Hr; eauto).
  assert (Hc : computes rl (emits [a1; a2]) e w [(r, g2 (g1 (rget rl w r0)))]).
  { destruct (Hc1 e w (rel_wf _ _ _ _ Hr)) as (w1 & R1 & U1). destruct (Hc2 (fst (a1 e)) w1 (upd_wf _ _ _ _ U1)) as (w2 & R2 & U2).
    exists w2. split; [eapply runs_cons; [done |]; eapply runs_cons; [done | apply runs_nil] |].
    destruct U1 as [_ M1 G1], U2 as [Hwf M2 G2]. split; [done | congruence |]. intros r' Hr'. rewrite G2, (G1 r) by (done || apply reg_ok_in; eauto). cbn.
    rewrite Z.eqb_refl. destruct (r =? r') eqn:E; [done |]. rewrite G1 by done. cbn. by rewrite E. }
  edestruct (matches_retype G r t0 _ e w st 0 _ _ Hr Hd Hc Hrel Hcu Hiu _ _ eq_refl) as (_ & w' & R & Hr').
  split; [rewrite uw_add_idemp_l; cbn; f_equal; lia |]. exists w'. split; [done |]. by rewrite (op_result1 _ _ _ _ _ _ Hs).
Qed.

Lemma bswap_correct G opc c (ext : option (TCGOpcode * (Z -> Z -> E))) g f t0 t1 args : op_sig opc = Some ([t0], [t1]) ->
  (forall ims, imms_ok opc ims = match ims with [_] => true | _ => false end) ->
  (forall insn pc st, Full.exec cfg false opc insn pc st = Full.do_rr f insn pc st) ->
  (forall e w r0 r1 flags, wf rl w -> out_reg r0 -> in_reg r1 -> 
     computes rl (c r0 r1 flags) e w [(r0, g (has_flag flags TCG_BSWAP_OS) (rget rl w r1))]) ->
  (un_total t0 t1 (g false) f) ->
  match ext with
  | None => un_total t0 t1 (g true) f
  | Some (eopc, ce) => exists g2 f2, un_total t0 t1 (fun a => g2 (g true a)) (fun a => f2 (f a)) /\
      (forall insn pc st, Full.exec cfg false eopc insn pc st = Full.do_rr f2 insn pc st) /\
      (forall e w r, wf rl w -> out_reg r -> computes rl (ce r r) e w [(r, g2 (rget rl w r))])
  end -> op_ok G opc args = true -> op_correct G opc args (bswap opc c ext args).
Proof.
  intros Hs Hi Hx Hc Hf Ht Hok. op_inv Hs Hok ims Him. rewrite Hi in Him. destruct ims as [| flags []]; try done.
  assert (H1 : un_total t0 t1 (g (has_flag flags TCG_BSWAP_OS)) f -> 
    op_correct G opc [r; r0; flags] ([W (emit opc (O_rr r r0))], c r r0 flags)).
  { intros Hv. apply correct_word. intros e w st pc Hr _. rewrite (op_result1 _ _ _ _ _ _ Hs).
    apply (rr_matches G opc (fun r r0 => c r r0 flags) (g (has_flag flags TCG_BSWAP_OS)) f t0 t1); eauto. }
  unfold bswap. cbn [lookup_total list_lookup_total]. destruct ext as [[eopc ce] |].
  - destruct Ht as (g2 & f2 & Hv & Hx2 & Hc2).
    destruct (has_flag flags TCG_BSWAP_OS) eqn:Efl; [| by apply H1].
    apply (rr_rr_correct G opc opc eopc _ _ (g true) g2 f f2 t0 t1); eauto. intros e w Hw. rewrite <- Efl. apply Hc; eauto.
  - apply H1. by destruct (has_flag flags TCG_BSWAP_OS).
Qed.

(** ** Host loads and stores *)

(** The interpreter's temporary register is free in compiled code. *)
Lemma related_tmp G e w st v : is_u 64 v -> related G e w st -> related G e w (wr TCG_REG_TMP v st).
Proof.
  intros Hv [Hwf Hca Hm Hb Hl Hwu Hsu Hr]. assert (Ht : in_reg TCG_REG_TMP) by (split; done). split; try done.
  - cbn. by rewrite length_insert.
  - intros r Hr0. rewrite rd_wr by done. destruct (_ =? r); [done | by apply Hsu].
  - intros r [Hr0 Hn]. rewrite rd_wr by done. rewrite (proj2 (Z.eqb_neq _ _)) by done. by apply Hr.
Qed.

(** A constant in a register, from the word or from the pool. *)
Definition movi_value (type : TCGType) (arg : Z) : Z := match type with TCG_TYPE_I32 => s32 arg | TCG_TYPE_I64 => arg end.

Lemma movi_one type r arg : length (tci_movi type r arg) = 1%nat.
Proof. unfold tci_movi. by case_match. Qed.

Lemma movi_step type r arg pc st pc' st' : is_u 4 r -> code_at (tmem st) pc (tci_movi type r arg) ->
  steps cfg 1 pc st = Some (pc', st') -> pc' = u32 (pc + 4) /\ st' = wr r (u64 (movi_value type arg)) st.
Proof.
  intros Hr. unfold tci_movi. fold (movi_value type arg). set (v := movi_value type arg).
  destruct (Z.eqb_spec v (sextract32 (u32 v) 0 20)) as [E | E]; intros [Hc _]; cbn [steps].
  - rewrite (step_word INDEX_op_tci_movi (O_ri r v)) by done.
    assert (is_s 20 v) by (rewrite sextract_low in E by eauto with words; rewrite E; eauto with words).
    change (Full.exec cfg false INDEX_op_tci_movi ?i ?pc st) with (let '(r0, t1) := tci_args_ri i in Next pc (wr r0 t1 st)).
    cbn [emit]. rewrite decode_ri by done. by intros [= <- <-].
  - destruct Hc as (ptr & insn' & Hp & Hu & Hl & Hv). destruct (patch_reloc_fields _ _ _ _ (emit_is_u _ _) Hp) as (Hd & Hrl & Hopc).
    unfold Full.step, ld. rewrite Hl, Hopc, emit_opc, opcode_of_num_of.
    change (Full.exec cfg false INDEX_op_tci_movl ?i ?pc st) with (let '(r0, ptr) := tci_args_rl i pc in ld 8 st ptr (fun v => Next pc (wr r0 v st))).
    assert (Hrl' : tci_args_rl insn' (u32 (pc + 4)) = (r, ptr)).
    { unfold tci_args_rl. rewrite Hd, uw_add_idemp_r, Z.add_comm, target_of_disp by done. f_equal. etransitivity; [exact Hrl |]. by apply decode_r. }
    rewrite Hrl'. unfold ld. rewrite Hv. by intros [= <- <-].
Qed.

(** The constant is the same on both sides, all 64 bits of it. *)
Lemma movi_correct G type r arg e w st pc pc' st' : dst r -> related G e w st ->
  code_at (tmem st) pc (tci_movi type r arg) -> steps cfg (length (tci_movi type r arg)) pc st = Some (pc', st') ->
  pc' = u32 (pc + 4 * Z.of_nat (length (tci_movi type r arg))) /\
  exists w', runs rl (out_movi rl type r arg) e w [] w' [] /\ related (retype r Full64 G) (fst (out_movi rl type r arg e)) w' st'.
Proof.
  intros Hd Hr Hc Hs. rewrite movi_one in *. destruct (movi_step _ _ _ _ _ _ _ (reg_ok_u4 _ (dst_reg _ Hd)) Hc Hs) as [-> ->].
  apply (matches_retype G r Full64 (out_movi rl type r arg) e w st (u32 (pc + 4)) (u64 (movi_value type arg)) (u64 (movi_value type arg)) Hr Hd);
    [apply movi_computes; auto; apply Hr | done | eauto with words | eauto with words | done].
Qed.

Lemma ldst_steps opc val base ofs pc st pc' st' (F : Z -> Z -> Z -> tci_state WT -> outcome WT) :
  (forall insn pc st, Full.exec cfg false opc insn pc st = let '(r0, r1, ofs) := tci_args_rrs insn in F r0 (u32 (rd st r1 + ofs)) pc st) ->
  reg_ok val -> reg_ok base -> is_s 32 ofs -> length (regs st) = 16%nat ->
  (forall r, in_reg r -> is_u 64 (rd st r)) -> code_at (tmem st) pc (tci_ldst opc val base ofs) ->
  steps cfg (length (tci_ldst opc val base ofs)) pc st = Some (pc', st') ->
  exists v, is_u 64 v /\ F val (u32 (rd st base + ofs)) (u32 (pc + 4 * Z.of_nat (length (tci_ldst opc val base ofs)))) (wr TCG_REG_TMP v st) = Next pc' st'.
Proof.
  intros Hx Hval Hbase Hofs Hl Hu Hc Hst. unfold tci_ldst in *. destruct (Z.eqb_spec ofs (sextract32 (u32 ofs) 0 16)) as [E | E]; cbn [negb] in *.
  - destruct Hc as [Hc _]. cbn [steps length] in *. rewrite (step_word opc (O_rrs val base ofs)) in Hst by done. rewrite Hx in Hst.
    assert (is_s 16 ofs) by (unfold sextract32 in E; rewrite sextract_sw, Z.shiftr_0_r in E by done; rewrite E; eauto with words).
    cbn [emit] in Hst. rewrite decode_rrs in Hst by eauto.
    exists (rd st TCG_REG_TMP). split; [apply Hu; split; done |]. rewrite wr_id. change (4 * Z.of_nat 1) with 4. 
    destruct (F _ _ _ _); [congruence | done].
  - set (m1 := tci_movi TCG_TYPE_I32 TCG_REG_TMP ofs) in *. assert (Ht : in_reg TCG_REG_TMP) by (split; done).
    assert (Hlen : length m1 = 1%nat) by apply movi_one.
    destruct m1 as [| t []] eqn:Em; try done. cbn [app length] in *. destruct Hc as (Hc1 & Hc2 & Hc3 & _).
    change 3%nat with (1 + 2)%nat in Hst. destruct (steps cfg 1 pc st) as [[pc1 st1] |] eqn:E1.
    2: { exfalso. cbn in E1, Hst. by destruct (Full.step cfg false pc st). }
    rewrite (steps_app cfg _ _ _ _ _ _ E1) in Hst.
    destruct (movi_step TCG_TYPE_I32 TCG_REG_TMP ofs pc st pc1 st1) as (-> & ->); [split; done | by fold m1; rewrite Em | done |]. cbn [movi_value] in Hst.
    cbn [steps] in Hst. rewrite (step_word INDEX_op_add_i64 (O_rrr TCG_REG_TMP TCG_REG_TMP base)) in Hst by done.
    change (Full.exec cfg false INDEX_op_add_i64 ?i ?pc ?st) with (Full.do_rrr (fun a b => u64 (a + b)) i pc st) in Hst.
    unfold Full.do_rrr in Hst. cbn [emit] in Hst. rewrite decode_rrr in Hst by (eauto; split; done).
    rewrite wr_wr, !rd_wr, Z.eqb_refl, (proj2 (Z.eqb_neq _ _)) in Hst by (eauto; by destruct Hbase).
    rewrite (step_word opc (O_rrs val TCG_REG_TMP 0)), Hx in Hst by done. cbn [emit] in Hst. rewrite decode_rrs in Hst by (eauto; split; done).
    rewrite rd_wr, Z.eqb_refl in Hst by eauto.
    exists (u64 (u64 (s32 ofs) + rd st base)). split; [eauto with words |].
    replace (u32 (u64 (u64 (s32 ofs) + rd st base) + 0)) with (u32 (rd st base + ofs)) in Hst.
    2: { rewrite Z.add_0_r, u32_u64, (Z.add_comm (rd st base)). apply u32_add; [| done]. by rewrite u32_u64, uw_sw by lia. }
    replace (u32 (u32 (u32 (pc + 4) + 4) + 4)) with (u32 (pc + 4 * Z.of_nat 3)) in Hst
      by (rewrite uw_add_idemp_l, <- (Z.add_assoc (u32 _)), uw_add_idemp_l; f_equal; lia).
    destruct (F _ _ _ _); [congruence | done].
Qed.

Lemma eaddr_exact b b' ofs : u32 b = u32 b' -> is_s 32 ofs -> (ofs <? 0) || (u32 b' + ofs <? 2 ^ 32) = true -> eaddr b ofs = u32 (b' + ofs).
Proof.
  intros Hb Ho Hn. unfold eaddr. rewrite sw_small by (done || lia). destruct (Z.ltb_spec ofs 0).
  - rewrite uw_add_idemp_l, uw_add_idemp_r. by apply u32_add.
  - cbn in Hn. apply Z.ltb_lt in Hn. unfold is_s in Ho. rewrite Hb, (uw_small 32 ofs) by (unfold is_u; lia).
    rewrite <- uw_add_idemp_l. rewrite (uw_small 32 (u32 b' + ofs)); [done |]. pose proof (uw_range 32 b' ltac:(lia)). unfold is_u in *. lia.
Qed.

Definition is_ldst (opc : TCGOpcode) : Prop :=
  (forall st args, op_pre st opc args = no_wrap (WT := WT) st (args !!! 1%nat) (args !!! 2%nat)) /\
  (forall ims, imms_ok opc ims = match ims with [ofs] => below (2 ^ 32) (ofs + 2 ^ 31) | _ => false end).

Lemma ld_correct G opc b n ext cext t0 args : is_ldst opc -> op_sig opc = Some ([t0], [Any32]) ->
  (forall insn pc st, Full.exec cfg false opc insn pc st = Full.do_ld n ext insn pc st) ->
  loadop b = Some (T64, n, cext) ->
  (forall v, is_u (8 * Z.of_nat n) v -> rel t0 (cext v) (ext v) /\ is_u 64 (cext v) /\ is_u 64 (ext v)) ->
  op_ok G opc args = true -> op_correct G opc args (ldst opc (ld_with rl (op_loadstore b)) args).
Proof.
  intros [Hp Hi] Hs Hx Hb Hv Hok. op_inv Hs Hok ims Him. rewrite Hi in Him. destruct ims as [| ofs []]; try done. rewrite below_spec in Him.
  assert (Hofs : is_s 32 ofs) by (unfold is_s; lia).
  change (ldst opc ?c [r; r0; ofs]) with (tci_ldst opc r r0 ofs, c r r0 ofs).
  intros e w st pc pc' st' Hr Hc Hpre Hst. rewrite Hp in Hpre. cbn [lookup_total list_lookup_total fst snd] in *.
  destruct (ldst_steps opc r r0 ofs pc st pc' st' (fun r0 a pc st => ld n st a (fun v => Next pc (wr r0 (ext v) st)))) as (v & Hvu & HF);
    eauto; try (apply Hr). 
  assert (Hr1 := related_tmp G e w st v Hvu Hr). unfold ld in HF. change (tmem (wr _ _ st)) with (tmem st) in HF.
  destruct (load n (tmem st) (u32 (rd st r0 + ofs))) as [x |] eqn:El; [| done].
  destruct (Hv x) as (Hrel & Hcu & Hiu); [eapply load_range; [apply Hr | done] |].
  rewrite (op_result1 _ _ _ _ _ _ Hs). revert HF. apply (matches_retype G r t0 _ e w _ _ (cext x)); eauto.
  eapply ld_computes; eauto; try (apply Hr).
  rewrite (rel_mem _ _ _ _ Hr), (eaddr_exact _ (rd st r0)); eauto. exact (src_rel _ _ _ _ _ _ Hr Hsrc).
Qed.

Lemma st_correct G opc b n t args : is_ldst opc -> op_sig opc = Some ([], [t; Any32]) ->
  (forall insn pc st, Full.exec cfg false opc insn pc st = Full.do_st n insn pc st) ->
  loadop b = None -> storeop b = Some (T64, n) ->
  (forall a a', rel t a a' -> uw (8 * Z.of_nat n) a = uw (8 * Z.of_nat n) a') ->
  op_ok G opc args = true -> op_correct G opc args (ldst opc (st_with rl (op_loadstore b)) args).
Proof.
  intros [Hp Hi] Hs Hx Hbl Hb Hv Hok. op_inv Hs Hok ims Him. rewrite Hi in Him. destruct ims as [| ofs []]; try done. rewrite below_spec in Him.
  assert (Hofs : is_s 32 ofs) by (unfold is_s; lia).
  change (ldst opc ?c [r; r0; ofs]) with (tci_ldst opc r r0 ofs, c r r0 ofs).
  intros e w st pc pc' st' Hr Hc Hpre Hst. rewrite Hp in Hpre. cbn [lookup_total list_lookup_total fst snd] in *.
  destruct (ldst_steps opc r r0 ofs pc st pc' st' (fun r0 a pc st => sto n st a (rd st r0) (Next pc))) as (v & Hvu & HF); eauto; try (apply Hr).
  assert (Hr1 := related_tmp G e w st v Hvu Hr). unfold sto in HF. change (tmem (wr _ _ st)) with (tmem st) in HF.
  replace (rd (wr TCG_REG_TMP v st) r) with (rd st r) in HF.
  2: { rewrite rd_wr by (eauto; first [apply Hr | split; done]). destruct (Z.eqb_spec TCG_REG_TMP r) as [<- |]; [| done]. by destruct (src_reg _ _ _ Hsrc). }
  destruct (store n (tmem st) (u32 (rd st r0 + ofs)) (rd st r)) as [m |] eqn:El; [| done]. injection HF as <- <-. split; [done |].
  destruct (st_computes rl e w (rel_wf _ _ _ _ Hr) (rel_cache _ _ _ _ Hr) r r0 ofs ltac:(eauto) b n m) as (w' & R & Hwf & Hm & Hg); eauto.
  { rewrite (rel_mem _ _ _ _ Hr), (eaddr_exact _ (rd st r0)); eauto; [| exact (src_rel _ _ _ _ _ _ Hr Hsrc0)]. 
    rewrite (store_uw _ _ _ _ (rd st r)); [done |]. apply Hv. exact (src_rel _ _ _ _ _ _ Hr Hsrc). }
  exists w'. split; [done |]. unfold op_result. rewrite Hs. cbn [zip foldl]. destruct Hr1 as [? ? ? ? ? ? ? ?].
  split; cbn; try done.
  - by apply (runs_cache _ _ _ _ _ _ _ R).
  - eapply store_wf; [apply Hr | done].
  - intros r' Hr'. rewrite Hg by done. auto.
  - intros r' Hr'. rewrite Hg by (by apply reg_ok_in). auto.
Qed.

End Exact.
