(* ===== verification/WasmExact.v ===== *)
(** * Every compiled operation, one by one

    The values: what compiled code leaves in a register against what the interpreter
    leaves there, operation by operation; then the theorems on single operations, on
    straight-line code and on validation, and the operations that are compiled wrong. *)
From S2P Require Import Prelude BitOps HostUtils Memory TcgCond Opcodes TciDecode Tune TbHeader Tci TciHot TciEquiv.
From S2P Require Import Wasm WasmOps WasmRun WordRel WasmSim.

(** ** Ranges *)

Lemma u32_is_u64 a : is_u 32 a -> is_u 64 a.
Proof. unfold is_u. lia. Qed.

Lemma ctz_range a : 0 <= a -> 0 <= builtin_ctz a <= a.
Proof.
  destruct a as [| p |]; cbn; [lia | intros _ | lia]. assert (0 <= pos_ctz p < Zpos p); [| lia]. 
  induction p as [p IH | p IH |]; cbn [pos_ctz]; lia.
Qed.

Lemma popcount_range a : 0 <= a -> 0 <= builtin_popcount a <= a.
Proof.
  destruct a as [| p |]; cbn; [lia | intros _ | lia]. assert (0 <= pos_popcount p <= Zpos p); [| lia]. 
  induction p as [p IH | p IH |]; cbn [pos_popcount]; lia.
Qed.

Lemma clz_range w a : 0 < w -> is_u w a -> a <> 0 -> 0 <= w - 1 - Z.log2 a < w.
Proof.
  unfold is_u. intros Hw Ha Hn. pose proof (Z.log2_nonneg a). assert (Z.log2 a < w) by (apply Z.log2_lt_pow2; lia). lia.
Qed.

(** ** Binary operations *)

(** The same 64-bit operation on both sides, whose low half depends on low halves. *)
Lemma cong_total t g f : t <> Zx32 ->
  (forall a b, is_u 64 a -> is_u 64 b -> g a b = f a b /\ is_u 64 (f a b)) ->
  (forall a a' b b', u32 a = u32 a' -> u32 b = u32 b' -> u32 (f a b) = u32 (f a' b')) ->
  bin_total t t t g f.
Proof.
  intros Ht Hgf Hc a a' b b' Ha Ha' Hb Hb' Ra Rb. destruct (Hgf a b Ha Hb) as [-> Hu]. destruct (Hgf a' b' Ha' Hb') as [_ Hu'].
  split; [| done]. destruct t; cbn in *; [auto | done | by rewrite Ra, Rb].
Qed.

(** Operations on full registers, equal as functions. *)
Lemma full_total g f : (forall a b, is_u 64 a -> is_u 64 b -> g a b = f a b /\ is_u 64 (f a b)) ->
  bin_total Full64 Full64 Full64 g f.
Proof. intros Hgf a a' b b' Ha Ha' Hb Hb' Ra Rb. cbn in *. subst. by destruct (Hgf a' b') as [-> ?]. Qed.

(** 32-bit operations, whatever is in the upper halves. *)
Lemma low_total g f : (forall a a' b b', u32 a = u32 a' -> u32 b = u32 b' -> u32 (g a b) = u32 (f a' b')) ->
  (forall a b, is_u 64 a -> is_u 64 b -> is_u 64 (g a b) /\ is_u 64 (f a b)) -> bin_total Any32 Any32 Any32 g f.
Proof.
  intros Hc Hu a a' b b' Ha Ha' Hb Hb' Ra Rb. split; [by apply Hc |]. 
  by destruct (Hu a b), (Hu a' b').
Qed.

Lemma value_add t : t <> Zx32 -> bin_total t t t (fun a b => u64 (a + b)) (fun a b => u64 (a + b)).
Proof. intros Ht. apply cong_total; [done | split; eauto with words |]. intros. rewrite !u32_u64. auto with u32. Qed.

Lemma value_sub t : t <> Zx32 -> bin_total t t t (fun a b => u64 (a - b)) (fun a b => u64 (a - b)).
Proof. intros Ht. apply cong_total; [done | split; eauto with words |]. intros. rewrite !u32_u64. auto with u32. Qed.

Lemma value_mul t : t <> Zx32 -> bin_total t t t (fun a b => u64 (a * b)) (fun a b => u64 (a * b)).
Proof. intros Ht. apply cong_total; [done | split; eauto with words |]. intros. rewrite !u32_u64. auto with u32. Qed.

Lemma value_and t : t <> Zx32 -> bin_total t t t Z.land Z.land.
Proof. intros Ht. apply cong_total; [done | split; [done | by apply land_is_u_l] | auto with u32]. Qed.

Lemma value_or t : t <> Zx32 -> bin_total t t t Z.lor Z.lor.
Proof. intros Ht. apply cong_total; [done | split; [done | by apply lor_is_u] | auto with u32]. Qed.

Lemma value_xor t : t <> Zx32 -> bin_total t t t Z.lxor Z.lxor.
Proof. intros Ht. apply cong_total; [done | split; [done | by apply lxor_is_u] | auto with u32]. Qed.

Lemma value_andc t : t <> Zx32 -> bin_total t t t (fun a b => Z.land a (Z.lxor b (u64 (-1)))) (fun a b => Z.land a (unot 64 b)).
Proof.
  intros Ht. apply cong_total; [done | | auto with u32]. intros a b Ha Hb. rewrite lxor_m1 by done. split; [done |].
  by apply land_is_u_l.
Qed.

Lemma value_orc t : t <> Zx32 -> bin_total t t t (fun a b => Z.lor a (Z.lxor b (u64 (-1)))) (fun a b => Z.lor a (unot 64 b)).
Proof.
  intros Ht. apply cong_total; [done | | auto with u32]. intros a b Ha Hb. rewrite lxor_m1 by done. split; [done |].
  apply lor_is_u; [lia | done | apply unot_range].
Qed.

Lemma value_eqv t : t <> Zx32 -> bin_total t t t (fun a b => Z.lxor (Z.lxor a b) (u64 (-1))) (fun a b => unot 64 (Z.lxor a b)).
Proof.
  intros Ht. apply cong_total; [done | | auto with u32]. intros a b Ha Hb. rewrite lxor_m1 by (by apply lxor_is_u). auto using unot_range.
Qed.

Lemma value_nand t : t <> Zx32 -> bin_total t t t (fun a b => Z.lxor (Z.land a b) (u64 (-1))) (fun a b => unot 64 (Z.land a b)).
Proof.
  intros Ht. apply cong_total; [done | | auto with u32]. intros a b Ha Hb. rewrite lxor_m1 by (by apply land_is_u_l). auto using unot_range.
Qed.

Lemma value_nor t : t <> Zx32 -> bin_total t t t (fun a b => Z.lxor (Z.lor a b) (u64 (-1))) (fun a b => unot 64 (Z.lor a b)).
Proof.
  intros Ht. apply cong_total; [done | | auto with u32]. intros a b Ha Hb. rewrite lxor_m1 by (by apply lor_is_u). auto using unot_range.
Qed.

(** ** Shifts and rotations *)

Lemma count63 b : b mod 64 = Z.land b 63.
Proof. symmetry. exact (land_ones_uw 6 b ltac:(lia)). Qed.

Lemma u32_s32 a : u32 (u64 (s32 a)) = u32 a.
Proof. by rewrite u32_u64, uw_sw by lia. Qed.

Lemma value_shl64 : bin_total Full64 Full64 Full64 (fun a b => u64 (Z.shiftl a (b mod 64))) (fun a b => u64 (Z.shiftl a (Z.land b 63))).
Proof. apply full_total. intros. rewrite count63. split; eauto with words. Qed.

Lemma value_shr64 : bin_total Full64 Full64 Full64 (fun a b => Z.shiftr a (b mod 64)) (fun a b => Z.shiftr a (Z.land b 63)).
Proof.
  apply full_total. intros a b Ha Hb. rewrite count63. split; [done |]. apply shiftr_is_u; [lia | | done]. apply Z.land_nonneg. lia.
Qed.

Lemma value_sar64 : bin_total Full64 Full64 Full64 (fun a b => u64 (Z.shiftr (s64 a) (b mod 64))) (fun a b => u64 (Z.shiftr (s64 a) (Z.land b 63))).
Proof. apply full_total. intros. rewrite count63. split; eauto with words. Qed.

Lemma value_shl32 : bin_total Any32 Any32 Any32
  (fun a b => u64 (Z.shiftl (Z.land a (u64 0xffffffff)) (Z.land b (u64 31) mod 64))) (fun a b => u32 (Z.shiftl (u32 a) (Z.land b 31))).
Proof.
  apply low_total.
  - intros a a' b b' Ha Hb. by rewrite count31, land_mask32, Ha, (count31_u32 b b'), u32_u64, uw_idemp by (done || lia).
  - intros. split; [eauto with words |]. apply u32_is_u64. eauto with words.
Qed.

Lemma value_shr32 : bin_total Any32 Any32 Any32
  (fun a b => Z.shiftr (Z.land a (u64 0xffffffff)) (Z.land b (u64 31) mod 64)) (fun a b => Z.shiftr (u32 a) (Z.land b 31)).
Proof.
  apply low_total.
  - intros a a' b b' Ha Hb. by rewrite count31, land_mask32, Ha, (count31_u32 b b').
  - intros a b Ha Hb. rewrite count31, land_mask32. assert (is_u 64 (Z.shiftr (u32 a) (Z.land b 31))); [| done].
    apply u32_is_u64, shiftr_is_u; [lia | apply Z.land_nonneg; lia | eauto with words].
Qed.

Lemma value_sar32 : bin_total Any32 Any32 Any32
  (fun a b => u64 (Z.shiftr (s64 (u64 (s32 (u32 a)))) (Z.land b (u64 31) mod 64))) (fun a b => u64 (Z.shiftr (s32 a) (Z.land b 31))).
Proof.
  apply low_total; [| split; eauto with words].
  intros a a' b b' Ha Hb. by rewrite s64_s32, count31, (count31_u32 b b'), (s32_u32 a a').
Qed.

Lemma rot32_counts b b' : u32 b = u32 b' -> Z.land (u32 b) 31 = Z.land b' 31.
Proof. intros E. apply count31_u32. by rewrite uw_idemp by lia. Qed.

Lemma value_rotl32 : bin_total Any32 Any32 Any32 (fun a b => u64 (s32 (wrotl 32 (u32 a) (u32 b)))) (fun a b => rol32 (u32 a) (Z.land b 31)).
Proof.
  assert (H32 : 32 ∈ [8; 16; 32; 64]) by set_solver. apply low_total.
  - intros a a' b b' Ha Hb. rewrite u32_s32, wrotl_rolw by (done || apply uw_range; lia). change (32 - 1) with 31.
    by rewrite (rot32_counts b b'), Ha.
  - intros. split; [eauto with words |]. apply u32_is_u64, rolw_range; [done | apply uw_range; lia].
Qed.

Lemma value_rotr32 : bin_total Any32 Any32 Any32 (fun a b => u64 (s32 (wrotr 32 (u32 a) (u32 b)))) (fun a b => ror32 (u32 a) (Z.land b 31)).
Proof.
  assert (H32 : 32 ∈ [8; 16; 32; 64]) by set_solver. apply low_total.
  - intros a a' b b' Ha Hb. rewrite u32_s32, wrotr_rorw by (done || apply uw_range; lia). change (32 - 1) with 31.
    by rewrite (rot32_counts b b'), Ha.
  - intros. split; [eauto with words |]. apply u32_is_u64, rorw_range; [done | apply uw_range; lia].
Qed.

Lemma value_rotl64 : bin_total Full64 Full64 Full64 (wrotl 64) (fun a b => rol64 a (Z.land b 63)).
Proof.
  assert (H64 : 64 ∈ [8; 16; 32; 64]) by set_solver. apply full_total. intros a b Ha Hb. rewrite wrotl_rolw by done.
  split; [done |]. by apply rolw_range.
Qed.

Lemma value_rotr64 : bin_total Full64 Full64 Full64 (wrotr 64) (fun a b => ror64 a (Z.land b 63)).
Proof.
  assert (H64 : 64 ∈ [8; 16; 32; 64]) by set_solver. apply full_total. intros a b Ha Hb. rewrite wrotr_rorw by done.
  split; [done |]. by apply rorw_range.
Qed.

(** ** Counts of zeros *)

Lemma value_count64 (wc c : Z -> Z) : (forall a, is_u 64 a -> a <> 0 -> wc a = c a /\ is_u 64 (c a)) ->
  bin_total Full64 Full64 Full64 (fun a b => if a =? 0 then b else wc a) (fun a b => if a =? 0 then b else c a).
Proof. intros Hc. apply full_total. intros a b Ha Hb. destruct (Z.eqb_spec a 0); [done | by apply Hc]. Qed.

Lemma value_count32 (wc c : Z -> Z) : (forall a, is_u 32 a -> a <> 0 -> wc a = c a /\ is_u 64 (c a)) ->
  bin_total Any32 Zx32 Any32 (fun a b => u64 (s32 (if a =? 0 then u32 b else wc (u32 a)))) (fun a b => if u32 a =? 0 then b else c (u32 a)).
Proof.
  intros Hc a a' b b' Ha Ha' Hb Hb' [Ra Ua] Rb. cbn in *. rewrite u32_s32, <- Ra, (uw_small 32 a) by done.
  destruct (Z.eqb_spec a 0) as [-> | Hn]; [rewrite uw_idemp by lia; eauto with words |].
  destruct (Hc a Ua Hn) as [-> Hu]. eauto with words.
Qed.

Lemma clz_value w a : w = 32 \/ w = 64 -> is_u w a -> a <> 0 ->
  wclz w a = builtin_clz w a /\ is_u 64 (builtin_clz w a).
Proof.
  intros Hw Ha Hn. unfold wclz, builtin_clz. rewrite (proj2 (Z.eqb_neq _ _)) by done. split; [done |].
  pose proof (clz_range w a ltac:(lia) Ha Hn). unfold is_u. lia.
Qed.

Lemma value_clz64 : bin_total Full64 Full64 Full64 (fun a b => if a =? 0 then b else wclz 64 a) (fun a b => if a =? 0 then b else clz64 a).
Proof.
  apply value_count64. intros a Ha Hn. unfold clz64. rewrite (proj2 (Z.eqb_neq a 0)) by done. apply clz_value; auto.
Qed.

Lemma value_ctz64 : bin_total Full64 Full64 Full64 (fun a b => if a =? 0 then b else wctz 64 a) (fun a b => if a =? 0 then b else ctz64 a).
Proof.
  apply value_count64. intros a Ha Hn. split; [done |]. unfold ctz64. rewrite (proj2 (Z.eqb_neq a 0)) by done.
  unfold is_u in *. pose proof (ctz_range a ltac:(lia)). lia.
Qed.

Lemma value_clz32 : bin_total Any32 Zx32 Any32
  (fun a b => u64 (s32 (if a =? 0 then u32 b else wclz 32 (u32 a)))) (fun a b => if u32 a =? 0 then b else clz32 (u32 a)).
Proof.
  apply value_count32. intros a Ha Hn. unfold clz32. rewrite (proj2 (Z.eqb_neq a 0)) by done. apply clz_value; auto.
Qed.

Lemma value_ctz32 : bin_total Any32 Zx32 Any32
  (fun a b => u64 (s32 (if a =? 0 then u32 b else wctz 32 (u32 a)))) (fun a b => if u32 a =? 0 then b else ctz32 (u32 a)).
Proof.
  apply value_count32. intros a Ha Hn. split; [done |]. unfold ctz32. rewrite (proj2 (Z.eqb_neq a 0)) by done.
  unfold is_u in *. pose proof (ctz_range a ltac:(lia)). lia.
Qed.

(** ** Divisions *)

(** The quotient the 64-bit instruction leaves, on the operands it is given. *)
Definition quot_s (d : Z -> Z -> Z -> option Z) (x y : Z) : Z := default 0 (u64 <$> d 64 (s64 x) (s64 y)).
Definition quot_u (d : Z -> Z -> option Z) (x y : Z) : Z := default 0 (d x y).

Lemma value_div64 d : bin_value Full64 Full64 Full64 (quot_s d) (fun a b => u64 <$> d 64 (s64 a) (s64 b)).
Proof.
  intros a a' b b' v Ha Ha' Hb Hb' -> -> Hv. unfold quot_s. rewrite Hv. cbn.
  apply fmap_Some in Hv as (q & _ & ->). eauto with words.
Qed.

Lemma value_div32 d : (forall a b v, is_s 32 a -> is_s 32 b -> d 32 a b = Some v -> d 64 a b = Some v) ->
  bin_value Any32 Any32 Any32 (fun a b => quot_s d (u64 (s32 (u32 a))) (u64 (s32 (u32 b)))) (fun a b => u64 <$> d 32 (s32 a) (s32 b)).
Proof.
  intros Hd a a' b b' v Ha Ha' Hb Hb' Ra Rb Hv. unfold quot_s. rewrite !s64_s32, (s32_u32 a a'), (s32_u32 b b') by done.
  apply fmap_Some in Hv as (q & Hq & ->). apply Hd in Hq; [| eauto with words ..]. rewrite Hq. cbn. eauto with words.
Qed.

Lemma value_divu64 d : (forall a b v, is_u 64 a -> is_u 64 b -> d a b = Some v -> is_u 64 v) ->
  bin_value Full64 Full64 Full64 (quot_u d) (fun a b => u64 <$> d a b).
Proof.
  intros Hd a a' b b' v Ha Ha' Hb Hb' -> -> Hv. unfold quot_u. apply fmap_Some in Hv as (q & Hq & ->). rewrite Hq. cbn.
  apply Hd in Hq; [| done | done]. rewrite uw_small by done. done.
Qed.

Lemma value_divu32 d : (forall a b v, is_u 32 a -> is_u 32 b -> d a b = Some v -> is_u 32 v) ->
  bin_value Any32 Any32 Any32 (fun a b => quot_u d (Z.land a (u64 0xffffffff)) (Z.land b (u64 0xffffffff))) (fun a b => u64 <$> d (u32 a) (u32 b)).
Proof.
  intros Hd a a' b b' v Ha Ha' Hb Hb' Ra Rb Hv. cbn in Ra, Rb. unfold quot_u. rewrite !land_mask32, Ra, Rb.
  apply fmap_Some in Hv as (q & Hq & ->). rewrite Hq. cbn. apply Hd in Hq; [| eauto with words ..].
  rewrite (uw_small 64 q) by (by apply u32_is_u64). auto using u32_is_u64.
Qed.

(** ** Unary operations *)

(** Both sides read the low half and leave the same value. *)
Lemma low_un t g f : (forall a a', u32 a = u32 a' -> g a = f a') -> (forall a, match t with Zx32 => is_u 32 (g a) | _ => is_u 64 (g a) end) ->
  un_total t Any32 g f.
Proof.
  intros Hgf Hu a a' Ha Ha' Ra. cbn in Ra. rewrite <- (Hgf a a' Ra). specialize (Hu a).
  destruct t; cbn; auto using u32_is_u64.
Qed.

Lemma full_un g f : (forall a, is_u 64 a -> g a = f a /\ is_u 64 (f a)) -> un_total Full64 Full64 g f.
Proof. intros Hgf a a' Ha Ha' Ra. cbn in *. subst. by destruct (Hgf a') as [-> ?]. Qed.

Lemma cong_un t g f : t <> Zx32 -> (forall a, is_u 64 a -> g a = f a /\ is_u 64 (f a)) ->
  (forall a a', u32 a = u32 a' -> u32 (f a) = u32 (f a')) -> un_total t t g f.
Proof.
  intros Ht Hgf Hc a a' Ha Ha' Ra. destruct (Hgf a Ha) as [-> Hu]. destruct (Hgf a' Ha') as [_ Hu']. 
  split; [| done]. destruct t; cbn in *; [auto | done | by rewrite Ra].
Qed.

Lemma value_not t : t <> Zx32 -> un_total t t (fun a => Z.lxor a (u64 (-1))) (unot 64).
Proof. intros Ht. apply cong_un; [done | | auto with u32]. intros a Ha. rewrite lxor_m1 by done. auto using unot_range. Qed.

Lemma value_neg t : t <> Zx32 -> un_total t t (fun a => u64 (Z.lxor a (u64 (-1)) + u64 1)) (fun a => u64 (- a)).
Proof.
  intros Ht. apply cong_un; [done | |].
  - intros a Ha. rewrite lxor_m1, neg_unot by done. eauto with words.
  - intros a a' E. rewrite !u32_u64. change (- a) with (0 - a). change (- a') with (0 - a'). auto with u32.
Qed.

Lemma value_ctpop : un_total Full64 Full64 builtin_popcount ctpop64.
Proof.
  apply full_un. intros a Ha. split; [done |]. unfold is_u, ctpop64 in *. pose proof (popcount_range a ltac:(lia)). lia.
Qed.

Lemma value_mov32 : un_total Zx32 Any32 u32 (fun a => a).
Proof. intros a a' Ha Ha' Ra. cbn in *. rewrite uw_idemp by lia. split_and!; eauto with words. apply u32_is_u64; eauto with words. Qed.

Lemma value_exts n t : t <> Zx32 -> 0 < n <= 32 -> un_total t Any32 (fun a => u64 (sw n a)) (fun a => u64 (sw n a)).
Proof. intros Ht Hn. apply low_un; [intros a a' E; by rewrite (sw_u32 n a a') |]. intros a. destruct t; eauto with words; done. Qed.

Lemma value_ext32s : un_total Full64 Any32 (fun a => u64 (s32 (u32 a))) (fun a => u64 (s32 a)).
Proof. apply low_un; [| eauto with words]. intros a a' E. by rewrite s32_of_u32, (s32_u32 a a'). Qed.

Lemma value_extu n t m : 0 <= n <= 32 -> (forall a, Z.land a (u64 m) = uw n a) -> un_total t Any32 (fun a => Z.land a (u64 m)) (uw n).
Proof.
  intros Hn Hm. apply low_un; [intros a a' E; rewrite Hm; by apply uw_u32 |]. intros a. rewrite Hm.
  pose proof (uw_range n a ltac:(lia)) as Hu. assert (2 ^ n <= 2 ^ 32) by (apply Z.pow_le_mono_r; lia).
  destruct t; unfold is_u in *; lia.
Qed.

Lemma value_bswap32 t : un_total t Any32 (fun a => let t := wrotr 32 (u32 a) (u32 16) in
    Z.lor (Z.shiftr (Z.land t (u32 0xff00ff00)) (u32 8 mod 32)) (u32 (Z.shiftl (Z.land t (u32 0x00ff00ff)) (u32 8 mod 32)))) bswap32.
Proof.
  apply low_un; intros a; rewrite bswap32_swapped.
  - intros a' E. unfold bswap32. by rewrite E.
  - pose proof (bswap_bytes_range 4 (u32 a) ltac:(lia)) as Hu. fold (bswap32 a) in Hu. destruct t; auto using u32_is_u64.
Qed.

(** The swapped half-word, sign-extended to 32 bits when the flags ask for it. *)
Definition swap16 (os : bool) (a : Z) : Z :=
  let t := wrotr 32 (u32 a) (u32 8) in let x := Z.land t (u32 0xff000000) in
  Z.lor (Z.land t (u32 0x000000ff)) (if os then u32 (Z.shiftr (s32 x) (u32 16 mod 32)) else Z.shiftr x (u32 16 mod 32)).

Lemma swap16_low os a : u16 (swap16 os a) = bswap16 a.
Proof. apply bswap16_swapped. Qed.

Lemma swap16_plain a : swap16 false a = bswap16 a.
Proof.
  rewrite <- (swap16_low false a), uw_small; [done |]. unfold swap16. change (u32 16 mod 32) with 16.
  apply lor_is_u; [lia | apply land_is_u_r; [lia | done] |].
  assert (H : is_u 32 (Z.land (wrotr 32 (u32 a) (u32 8)) (u32 0xff000000))) by (by apply land_is_u_r).
  unfold is_u in *. rewrite Z.shiftr_div_pow2 by lia. split; [apply Z.div_pos; lia | apply Z.div_lt_upper_bound; lia].
Qed.

Lemma bswap16_range a : is_u 16 (bswap16 a).
Proof. apply (bswap_bytes_range 2). lia. Qed.

Lemma value_bswap16 t : un_total t Any32 (swap16 false) bswap16.
Proof.
  apply low_un; intros a; rewrite swap16_plain.
  - intros a' E. unfold bswap16. by rewrite (uw_u32 16 a a').
  - pose proof (bswap16_range a) as Hu. destruct t; unfold is_u in *; lia.
Qed.

Lemma value_bswap16s t : t <> Zx32 -> un_total t Any32 (fun a => u64 (s16 (swap16 true a))) (fun a => u64 (s16 (bswap16 a))).
Proof.
  intros Ht. apply low_un; [| intros; destruct t; eauto with words; done].
  intros a a' E. rewrite <- (sw_uw 16 (swap16 _ _)), swap16_low by lia. unfold bswap16. by rewrite (uw_u32 16 a a').
Qed.

Lemma value_bswap32s : un_total Full64 Any32 (fun a => u64 (s32 (u32 (let t := wrotr 32 (u32 a) (u32 16) in
    Z.lor (Z.shiftr (Z.land t (u32 0xff00ff00)) (u32 8 mod 32)) (u32 (Z.shiftl (Z.land t (u32 0x00ff00ff)) (u32 8 mod 32)))))))
  (fun a => u64 (s32 (bswap32 a))).
Proof.
  apply low_un; [| eauto with words]. intros a a' E. rewrite bswap32_swapped, s32_of_u32. unfold bswap32. by rewrite E.
Qed.

(** ** Bit fields *)

Lemma value_deposit32 a a' b b' pos len : is_u 64 a -> is_u 64 b -> rel Any32 a a' -> rel Any32 b b' ->
  bitfield_ok 32 pos len = true -> len < 32 ->
  let v := Z.lor (Z.land (u32 a) (u32 (Z.lnot (field_mask 32 pos len))))
                 (Z.land (u32 (Z.shiftl (u32 b) (u32 pos mod 32))) (u32 (field_mask 32 pos len))) in
  let v' := deposit32 (u32 a') pos len (u32 b') in rel Zx32 v v' /\ is_u 64 v /\ is_u 64 v'.
Proof.
  intros Ha Hb Ra Rb Hok Hl. cbn in Ra, Rb. pose proof Hok as Hf. apply bitfield_ok_spec in Hf.
  rewrite Ra, Rb, deposit_same by (done || (unfold is_u; lia) || apply uw_range; lia). cbv zeta. unfold deposit32.
  assert (is_u 32 (Field.deposit 32 (u32 a') pos len (u32 b'))) by (apply deposit_range; [done | apply uw_range; lia]).
  split_and!; [by apply rel_same | by apply u32_is_u64 ..].
Qed.

Lemma value_deposit64 a a' b b' pos len : is_u 64 a -> is_u 64 b -> rel Full64 a a' -> rel Full64 b b' ->
  bitfield_ok 64 pos len = true -> len < 64 ->
  let v := Z.lor (Z.land a (u64 (Z.lnot (field_mask 64 pos len))))
                 (Z.land (u64 (Z.shiftl b (u64 pos mod 64))) (u64 (field_mask 64 pos len))) in
  let v' := deposit64 a' pos len b' in rel Full64 v v' /\ is_u 64 v /\ is_u 64 v'.
Proof.
  intros Ha Hb Ra Rb Hok Hl. cbn in Ra, Rb. subst. pose proof Hok as Hf. apply bitfield_ok_spec in Hf.
  rewrite deposit_same by (done || (unfold is_u; lia)). cbv zeta. unfold deposit64.
  assert (is_u 64 (Field.deposit 64 a' pos len b')) by (by apply deposit_range). done.
Qed.

Definition extract_val (sign : bool) (a pos len : Z) : Z :=
  let rs := 64 - len in let sl := rs - pos in
  let x := if 0 <? sl then u64 (Z.shiftl a (u64 sl mod 64)) else a in
  if sign then u64 (Z.shiftr (s64 x) (u64 rs mod 64)) else Z.shiftr x (u64 rs mod 64).

Lemma value_extract a pos len : is_u 64 a -> bitfield_ok 64 pos len = true ->
  extract_val false a pos len = extract64 a pos len /\ is_u 64 (extract64 a pos len).
Proof.
  intros Ha Hok. destruct (extract_same a pos len Ha Hok) as [E _]. split; [exact E |].
  pose proof (extract_range 64 a pos len Hok) as Hr. apply bitfield_ok_spec in Hok. unfold extract64, is_u in *.
  assert (2 ^ len <= 2 ^ 64) by (apply Z.pow_le_mono_r; lia). lia.
Qed.

Lemma value_sextract a pos len : is_u 64 a -> bitfield_ok 64 pos len = true ->
  extract_val true a pos len = u64 (sextract64 a pos len) /\ is_u 64 (u64 (sextract64 a pos len)).
Proof. intros Ha Hok. destruct (extract_same a pos len Ha Hok) as [_ E]. split; [exact E | eauto with words]. Qed.

(** ** The case analysis *)

Section All.
Context {WT : Type} `{!Helpers WT}.
Context (cfg : tci_cfg) (rl : bool).
Abbreviation op_correct := (op_correct cfg rl).

(** A binary operation: the compiled value, why the code leaves it, why it is right. *)
Ltac by_rrr g run val := eapply (rrr_correct cfg rl _ _ _ g); [reflexivity | by intros | by intros | intros; run | apply val; try done | done].
Ltac by_calc g run val := by_rrr g ltac:(apply calc_computes; [done .. |]; intros ? ?; apply run) val.
Ltac by_calc_u32 g run val := by_rrr g ltac:(apply calc_u32_computes; [done .. |]; intros ? ?; apply run) val.
Ltac by_rr g run val := eapply (rr_correct cfg rl _ _ _ _ g); [reflexivity | by intros | by intros | intros; by apply run | val | done].
Ltac by_mov g run val :=
  eapply (rr_correct cfg rl _ _ _ _ g (fun a => a)); [reflexivity | by intros | by intros | intros; by apply run | val | done].

(** One goal for each operation of a list, its emission unfolded. *)
Ltac each_op He Hin := repeat (apply elem_of_cons in Hin as [-> | Hin]); [injection He as <- .. | by apply elem_of_nil in Hin].

Lemma arith_correct G opc args b : op_ok G opc args = true -> emit_op rl opc args = Some b ->
  opc ∈ [INDEX_op_add_i32; INDEX_op_add_i64; INDEX_op_sub_i32; INDEX_op_sub_i64; INDEX_op_mul_i32; INDEX_op_mul_i64;
         INDEX_op_and_i32; INDEX_op_and_i64; INDEX_op_or_i32; INDEX_op_or_i64; INDEX_op_xor_i32; INDEX_op_xor_i64] ->
  op_correct G opc args b.
Proof.
  intros Hok He Hin. each_op He Hin.
  1,2: by_calc (fun a b => u64 (a + b)) runs_i64_add value_add.
  1,2: by_calc (fun a b => u64 (a - b)) runs_i64_sub value_sub.
  1,2: by_calc (fun a b => u64 (a * b)) runs_i64_mul value_mul.
  1,2: by_calc Z.land runs_i64_and value_and.
  1,2: by_calc Z.lor runs_i64_or value_or.
  1,2: by_calc Z.lxor runs_i64_xor value_xor.
Qed.

Lemma logic_correct G opc args b : op_ok G opc args = true -> emit_op rl opc args = Some b ->
  opc ∈ [INDEX_op_andc_i32; INDEX_op_andc_i64; INDEX_op_orc_i32; INDEX_op_orc_i64; INDEX_op_eqv_i32; INDEX_op_eqv_i64;
         INDEX_op_nand_i32; INDEX_op_nand_i64; INDEX_op_nor_i32; INDEX_op_nor_i64;
         INDEX_op_not_i32; INDEX_op_not_i64; INDEX_op_neg_i32; INDEX_op_neg_i64] ->
  op_correct G opc args b.
Proof.
  intros Hok He Hin. each_op He Hin.
  1,2: by_rrr (fun a b => Z.land a (Z.lxor b (u64 (-1)))) ltac:(by apply andc_computes) value_andc.
  1,2: by_rrr (fun a b => Z.lor a (Z.lxor b (u64 (-1)))) ltac:(by apply orc_computes) value_orc.
  1,2: by_rrr (fun a b => Z.lxor (Z.lxor a b) (u64 (-1))) ltac:(by apply eqv_computes) value_eqv.
  1,2: by_rrr (fun a b => Z.lxor (Z.land a b) (u64 (-1))) ltac:(by apply nand_computes) value_nand.
  1,2: by_rrr (fun a b => Z.lxor (Z.lor a b) (u64 (-1))) ltac:(by apply nor_computes) value_nor.
  1,2: by_rr (fun a => Z.lxor a (u64 (-1))) not_computes ltac:(by apply value_not).
  1,2: by_rr (fun a => u64 (Z.lxor a (u64 (-1)) + u64 1)) neg_computes ltac:(by apply value_neg).
Qed.

Lemma shift_correct G opc args b : op_ok G opc args = true -> emit_op rl opc args = Some b ->
  opc ∈ [INDEX_op_shl_i32; INDEX_op_shl_i64; INDEX_op_shr_i32; INDEX_op_shr_i64; INDEX_op_sar_i32; INDEX_op_sar_i64;
         INDEX_op_rotl_i32; INDEX_op_rotl_i64; INDEX_op_rotr_i32; INDEX_op_rotr_i64;
         INDEX_op_clz_i32; INDEX_op_clz_i64; INDEX_op_ctz_i32; INDEX_op_ctz_i64] ->
  op_correct G opc args b.
Proof.
  intros Hok He Hin. each_op He Hin.
  - by_calc_u32 (fun a b => u64 (Z.shiftl (Z.land a (u64 0xffffffff)) (Z.land b (u64 31) mod 64))) runs_i64_shl value_shl32.
  - by_calc (fun a b => u64 (Z.shiftl a (b mod 64))) runs_i64_shl value_shl64.
  - by_calc_u32 (fun a b => Z.shiftr (Z.land a (u64 0xffffffff)) (Z.land b (u64 31) mod 64)) runs_i64_shr_u value_shr32.
  - by_calc (fun a b => Z.shiftr a (b mod 64)) runs_i64_shr_u value_shr64.
  - by_rrr (fun a b => u64 (Z.shiftr (s64 (u64 (s32 (u32 a)))) (Z.land b (u64 31) mod 64))) ltac:(by apply sar32_computes) value_sar32.
  - by_calc (fun a b => u64 (Z.shiftr (s64 a) (b mod 64))) runs_i64_shr_s value_sar64.
  - by_rrr (fun a b => u64 (s32 (wrotl 32 (u32 a) (u32 b)))) ltac:(by apply rotl32_computes) value_rotl32.
  - by_calc (wrotl 64) runs_i64_rotl value_rotl64.
  - by_rrr (fun a b => u64 (s32 (wrotr 32 (u32 a) (u32 b)))) ltac:(by apply rotr32_computes) value_rotr32.
  - by_calc (wrotr 64) runs_i64_rotr value_rotr64.
  - by_rrr (fun a b => u64 (s32 (if a =? 0 then u32 b else wclz 32 (u32 a)))) ltac:(by apply count32_computes) value_clz32.
  - by_rrr (fun a b => if a =? 0 then b else wclz 64 a) ltac:(by apply count64_computes) value_clz64.
  - by_rrr (fun a b => u64 (s32 (if a =? 0 then u32 b else wctz 32 (u32 a)))) ltac:(by apply count32_computes) value_ctz32.
  - by_rrr (fun a b => if a =? 0 then b else wctz 64 a) ltac:(by apply count64_computes) value_ctz64.
Qed.

(** A division: [comp] reduces it to the instruction, which has a result when the interpreter has one. *)
Ltac by_div g comp val has :=
  eapply (div_correct cfg rl _ _ _ g);
    [reflexivity | by intros | by intros | intros ? ? ? ? ? ? ? ? ? ? ? ? R1 R2 Hq; apply comp; [done .. |]; intros ? ?;
     eapply runs_div; [reflexivity | reflexivity | has R1 R2 Hq] | val | done].

Lemma div64_result d a b v x y : d 64 (s64 a) (s64 b) = Some v -> x = a -> y = b -> u64 <$> d 64 (s64 x) (s64 y) = Some (quot_s d x y).
Proof. intros Hd -> ->. unfold quot_s. by rewrite Hd. Qed.

Lemma div32_result d a b v x y : (forall a b v, is_s 32 a -> is_s 32 b -> d 32 a b = Some v -> d 64 a b = Some v) ->
  d 32 (s32 a) (s32 b) = Some v -> u32 x = u32 a -> u32 y = u32 b ->
  u64 <$> d 64 (s64 (u64 (s32 (u32 x)))) (s64 (u64 (s32 (u32 y)))) = Some (quot_s d (u64 (s32 (u32 x))) (u64 (s32 (u32 y)))).
Proof.
  intros Hw Hd E1 E2. unfold quot_s. rewrite !s64_s32, (s32_u32 x a), (s32_u32 y b) by done. by rewrite (Hw _ _ v) by (done || eauto with words).
Qed.

Lemma divu_result d a b v x y : d a b = Some v -> x = a -> y = b -> d x y = Some (quot_u d x y).
Proof. intros Hd -> ->. unfold quot_u. by rewrite Hd. Qed.

Lemma divu32_result d a b v x y : d (u32 a) (u32 b) = Some v -> u32 x = u32 a -> u32 y = u32 b ->
  d (Z.land x (u64 0xffffffff)) (Z.land y (u64 0xffffffff)) = Some (quot_u d (Z.land x (u64 0xffffffff)) (Z.land y (u64 0xffffffff))).
Proof. rewrite !land_mask32. intros Hd E1 E2. by eapply divu_result. Qed.

Lemma div_ops_correct G opc args b : op_ok G opc args = true -> emit_op rl opc args = Some b ->
  opc ∈ [INDEX_op_div_i32; INDEX_op_div_i64; INDEX_op_rem_i32; INDEX_op_rem_i64;
         INDEX_op_divu_i32; INDEX_op_divu_i64; INDEX_op_remu_i32; INDEX_op_remu_i64] ->
  op_correct G opc args b.
Proof.
  intros Hok He Hin. each_op He Hin.
  - by_div (fun a b => quot_s sdiv (u64 (s32 (u32 a))) (u64 (s32 (u32 b)))) calc_s32_computes
      ltac:(apply value_div32, sdiv_wide) ltac:(fun R1 R2 Hq => exact (div32_result _ _ _ _ _ _ sdiv_wide Hq R1 R2)).
  - by_div (quot_s sdiv) calc_computes ltac:(apply value_div64) ltac:(fun R1 R2 Hq => exact (div64_result _ _ _ _ _ _ Hq R1 R2)).
  - by_div (fun a b => quot_s srem (u64 (s32 (u32 a))) (u64 (s32 (u32 b)))) calc_s32_computes
      ltac:(by apply value_div32) ltac:(fun R1 R2 Hq => exact (div32_result srem _ _ _ _ _ (fun _ _ _ _ _ H => H) Hq R1 R2)).
  - by_div (quot_s srem) calc_computes ltac:(apply value_div64) ltac:(fun R1 R2 Hq => exact (div64_result _ _ _ _ _ _ Hq R1 R2)).
  - by_div (fun a b => quot_u udiv (Z.land a (u64 0xffffffff)) (Z.land b (u64 0xffffffff))) calc_u32_computes
      ltac:(apply value_divu32, udiv_range) ltac:(fun R1 R2 Hq => exact (divu32_result _ _ _ _ _ _ Hq R1 R2)).
  - by_div (quot_u udiv) calc_computes ltac:(apply value_divu64, udiv_range) ltac:(fun R1 R2 Hq => exact (divu_result _ _ _ _ _ _ Hq R1 R2)).
  - by_div (fun a b => quot_u urem (Z.land a (u64 0xffffffff)) (Z.land b (u64 0xffffffff))) calc_u32_computes
      ltac:(apply value_divu32, urem_range) ltac:(fun R1 R2 Hq => exact (divu32_result _ _ _ _ _ _ Hq R1 R2)).
  - by_div (quot_u urem) calc_computes ltac:(apply value_divu64, urem_range) ltac:(fun R1 R2 Hq => exact (divu_result _ _ _ _ _ _ Hq R1 R2)).
Qed.

Lemma ext_correct G opc args b : op_ok G opc args = true -> emit_op rl opc args = Some b ->
  opc ∈ [INDEX_op_mov_i32; INDEX_op_mov_i64; INDEX_op_extrl_i64_i32; INDEX_op_ctpop_i64;
         INDEX_op_ext8s_i32; INDEX_op_ext8s_i64; INDEX_op_ext16s_i32; INDEX_op_ext16s_i64; INDEX_op_ext32s_i64; INDEX_op_ext_i32_i64;
         INDEX_op_ext8u_i32; INDEX_op_ext8u_i64; INDEX_op_ext16u_i32; INDEX_op_ext16u_i64; INDEX_op_ext32u_i64; INDEX_op_extu_i32_i64] ->
  op_correct G opc args b.
Proof.
  intros Hok He Hin. each_op He Hin.
  - by_mov (uw 32) mov_computes ltac:(apply value_mov32).
  - by_mov (fun a : Z => a) mov_computes ltac:(by apply full_un).
  - by_mov (fun a => Z.land a (u64 0xffffffff)) masked_computes ltac:(intros a a' ? ?; rewrite land_mask32; by apply value_mov32).
  - by_rr builtin_popcount ctpop64_computes ltac:(apply value_ctpop).
  - by_rr (fun a => u64 (s8 a)) ext8s_computes ltac:(by apply value_exts).
  - by_rr (fun a => u64 (s8 a)) ext8s_computes ltac:(by apply value_exts).
  - by_rr (fun a => u64 (s16 a)) ext16s_computes ltac:(by apply value_exts).
  - by_rr (fun a => u64 (s16 a)) ext16s_computes ltac:(by apply value_exts).
  - by_rr (fun a => u64 (s32 (u32 a))) ext32s_computes ltac:(apply value_ext32s).
  - by_rr (fun a => u64 (s32 (u32 a))) ext32s_computes ltac:(apply value_ext32s).
  - by_rr (fun a => Z.land a (u64 0xff)) masked_computes ltac:(apply value_extu; [lia | apply land_mask8]).
  - by_rr (fun a => Z.land a (u64 0xff)) masked_computes ltac:(apply value_extu; [lia | apply land_mask8]).
  - by_rr (fun a => Z.land a (u64 0xffff)) masked_computes ltac:(apply value_extu; [lia | apply land_mask16]).
  - by_rr (fun a => Z.land a (u64 0xffff)) masked_computes ltac:(apply value_extu; [lia | apply land_mask16]).
  - by_rr (fun a => Z.land a (u64 0xffffffff)) masked_computes ltac:(apply value_extu; [lia | apply land_mask32]).
  - by_rr (fun a => Z.land a (u64 0xffffffff)) masked_computes ltac:(apply value_extu; [lia | apply land_mask32]).
Qed.

Lemma cond_correct G opc args b : op_ok G opc args = true -> emit_op rl opc args = Some b ->
  opc ∈ [INDEX_op_setcond_i32; INDEX_op_setcond_i64; INDEX_op_movcond_i32; INDEX_op_movcond_i64] -> op_correct G opc args b.
Proof.
  assert (H32 : same_cond Any32 (fun a b => tci_compare32 (u32 a) (u32 b))) by (intros a a' b' b'' c E1 E2; cbn in *; by rewrite E1, E2).
  assert (H64 : same_cond Full64 tci_compare64) by (intros a a' b' b'' c E1 E2; cbn in *; by subst).
  intros Hok He Hin. each_op He Hin.
  - eapply (setcond_correct cfg rl _ _ _ (fun a b => tci_compare32 (u32 a) (u32 b)));
      [reflexivity | by intros | by intros | intros; by apply setcond32_computes | done | done].
  - eapply (setcond_correct cfg rl _ _ _ tci_compare64);
      [reflexivity | by intros | by intros | intros; by apply setcond64_computes | done | done].
  - eapply (movcond_correct cfg rl _ _ _ (fun a b => tci_compare32 (u32 a) (u32 b)));
      [reflexivity | by intros | by intros | intros; by apply movcond32_computes | done | done].
  - eapply (movcond_correct cfg rl _ _ _ tci_compare64);
      [reflexivity | by intros | by intros | intros; by apply movcond64_computes | done | done].
Qed.

Lemma field_correct G opc args b : op_ok G opc args = true -> emit_op rl opc args = Some b ->
  opc ∈ [INDEX_op_deposit_i32; INDEX_op_deposit_i64; INDEX_op_extract_i64; INDEX_op_sextract_i64] -> op_correct G opc args b.
Proof.
  intros Hok He Hin. each_op He Hin.
  - eapply (rrrbb_correct cfg rl _ _ _ (fun a b pos len => Z.lor (Z.land (u32 a) (u32 (Z.lnot (field_mask 32 pos len))))
      (Z.land (u32 (Z.shiftl (u32 b) (u32 pos mod 32))) (u32 (field_mask 32 pos len)))) (fun a b pos len => deposit32 (u32 a) pos len (u32 b)) 32 Zx32);
      [reflexivity | lia | by intros | by intros | intros; by apply deposit32_computes | apply value_deposit32 | done].
  - eapply (rrrbb_correct cfg rl _ _ _ (fun a b pos len => Z.lor (Z.land a (u64 (Z.lnot (field_mask 64 pos len))))
      (Z.land (u64 (Z.shiftl b (u64 pos mod 64))) (u64 (field_mask 64 pos len)))) (fun a b pos len => deposit64 a pos len b) 64 Full64);
      [reflexivity | lia | by intros | by intros | intros; by apply deposit64_computes | apply value_deposit64 | done].
  - eapply (rrbb_correct cfg rl _ _ _ (extract_val false) extract64);
      [reflexivity | by intros | by intros | intros; by apply extract64_computes | apply value_extract | done].
  - eapply (rrbb_correct cfg rl _ _ _ (extract_val true) (fun a pos len => u64 (sextract64 a pos len)));
      [reflexivity | by intros | by intros | intros; by apply extract64_computes | apply value_sextract | done].
Qed.

Lemma swap_correct G opc args b : op_ok G opc args = true -> emit_op rl opc args = Some b ->
  opc ∈ [INDEX_op_bswap16_i32; INDEX_op_bswap16_i64; INDEX_op_bswap32_i32; INDEX_op_bswap32_i64; INDEX_op_bswap64_i64] ->
  op_correct G opc args b.
Proof.
  intros Hok He Hin. each_op He Hin.
  1,2: eapply (bswap_correct cfg rl _ _ _ _ swap16);
    [reflexivity | by intros | by intros | intros; by apply bswap16_computes | apply value_bswap16 | | done];
    exists (fun a => u64 (s16 a)), (fun a => u64 (s16 a)); split_and!; [by apply value_bswap16s | by intros | intros ? ? ? ? Ho; apply ext16s_computes; [done | done | apply Ho]].
  - eapply (bswap_correct cfg rl _ _ _ _ (fun _ a => let t := wrotr 32 (u32 a) (u32 16) in
      Z.lor (Z.shiftr (Z.land t (u32 0xff00ff00)) (u32 8 mod 32)) (u32 (Z.shiftl (Z.land t (u32 0x00ff00ff)) (u32 8 mod 32)))));
      [reflexivity | by intros | by intros | intros; by apply bswap32_computes | apply value_bswap32 | apply value_bswap32 | done].
  - eapply (bswap_correct cfg rl _ _ _ _ (fun _ a => let t := wrotr 32 (u32 a) (u32 16) in
      Z.lor (Z.shiftr (Z.land t (u32 0xff00ff00)) (u32 8 mod 32)) (u32 (Z.shiftl (Z.land t (u32 0x00ff00ff)) (u32 8 mod 32)))));
      [reflexivity | by intros | by intros | intros; by apply bswap32_computes | apply value_bswap32 | | done].
    exists (fun a => u64 (s32 (u32 a))), (fun a => u64 (s32 a)). split_and!; [apply value_bswap32s | by intros | intros ? ? ? ? Ho; apply ext32s_computes; [done | done | apply Ho]].
  - eapply (bswap_correct cfg rl _ _ _ _ (fun _ a => let t := wrotr 64 a (u64 32) in
      Z.lor (Z.lor (Z.shiftr (Z.land t (u64 0xff000000ff000000)) (u64 24 mod 64)) (Z.shiftr (Z.land t (u64 0x00ff000000ff0000)) (u64 8 mod 64)))
            (Z.lor (u64 (Z.shiftl (Z.land t (u64 0x0000ff000000ff00)) (u64 8 mod 64))) (u64 (Z.shiftl (Z.land t (u64 0x000000ff000000ff)) (u64 24 mod 64))))));
      [reflexivity | by intros | by intros | intros; by apply bswap64_computes | | | done];
      apply full_un; intros a Ha; rewrite bswap64_swapped by done; split; [done | apply (bswap_bytes_range 8); lia | done | apply (bswap_bytes_range 8); lia].
Qed.

(** A load of [n] bytes, extended alike or zero-extended. *)
Lemma loaded_sext n k v t : 0 < k <= 32 -> t <> Zx32 -> is_u n v -> rel t (u64 (sw k v)) (u64 (sw k v)) /\ is_u 64 (u64 (sw k v)) /\ is_u 64 (u64 (sw k v)).
Proof. intros. destruct t; cbn; eauto with words; done. Qed.

Lemma loaded_zext n v t : 0 <= n <= 32 -> is_u n v -> rel t v v /\ is_u 64 v /\ is_u 64 v.
Proof.
  intros Hn Hv. assert (2 ^ n <= 2 ^ 32) by (apply Z.pow_le_mono_r; lia). assert (is_u 32 v) by (unfold is_u in *; lia).
  auto using rel_same, u32_is_u64.
Qed.

Ltac by_ld ext val := eapply (ld_correct cfg rl _ _ _ _ _ ext); [by split | reflexivity | by intros | reflexivity | intros; val | done].
Ltac by_st val := eapply (st_correct cfg rl); [by split | reflexivity | by intros | reflexivity | reflexivity | intros; val | done].

Lemma ld_ops_correct G opc args b : op_ok G opc args = true -> emit_op rl opc args = Some b ->
  opc ∈ [INDEX_op_ld8s_i32; INDEX_op_ld8s_i64; INDEX_op_ld16s_i32; INDEX_op_ld16s_i64; INDEX_op_ld32s_i64;
         INDEX_op_ld8u_i32; INDEX_op_ld8u_i64; INDEX_op_ld16u_i32; INDEX_op_ld16u_i64; INDEX_op_ld32u_i64;
         INDEX_op_ld_i32; INDEX_op_ld_i64] -> op_correct G opc args b.
Proof.
  intros Hok He Hin. each_op He Hin.
  1,2: by_ld (fun v => u64 (s8 v)) ltac:(by eapply loaded_sext).
  1,2: by_ld (fun v => u64 (s16 v)) ltac:(by eapply loaded_sext).
  - by_ld (fun v => u64 (s32 v)) ltac:(by eapply loaded_sext).
  - by_ld (fun v : Z => v) ltac:(by apply (loaded_zext 8)).
  - by_ld (fun v : Z => v) ltac:(by apply (loaded_zext 8)).
  - by_ld (fun v : Z => v) ltac:(by apply (loaded_zext 16)).
  - by_ld (fun v : Z => v) ltac:(by apply (loaded_zext 16)).
  - by_ld (fun v : Z => v) ltac:(by apply (loaded_zext 32)).
  - by_ld (fun v => u64 (s32 v)) ltac:(cbn; rewrite u32_s32; eauto using u32_is_u64 with words).
  - by_ld (fun v : Z => v) ltac:(done).
Qed.

Lemma st_ops_correct G opc args b : op_ok G opc args = true -> emit_op rl opc args = Some b ->
  opc ∈ [INDEX_op_st8_i32; INDEX_op_st8_i64; INDEX_op_st16_i32; INDEX_op_st16_i64; INDEX_op_st_i32; INDEX_op_st32_i64; INDEX_op_st_i64] ->
  op_correct G opc args b.
Proof.
  intros Hok He Hin. each_op He Hin; [by_st ltac:(by apply uw_u32) .. | by_st ltac:(cbn in *; by subst)].
Qed.

Ltac in_list := apply (bool_decide_unpack _); vm_compute; exact I.

(** Every operation with a signature is emitted right. *)
Lemma emit_correct G opc args b : op_ok G opc args = true -> emit_op rl opc args = Some b -> op_correct G opc args b.
Proof.
  intros Hok He. assert (Hs : op_sig opc <> None) by (intros E; unfold op_ok in Hok; by rewrite E in Hok).
  destruct opc; try (exfalso; apply Hs; reflexivity); clear Hs;
    first [ apply (arith_correct _ _ _ _ Hok He); in_list
          | apply (logic_correct _ _ _ _ Hok He); in_list
          | apply (shift_correct _ _ _ _ Hok He); in_list
          | apply (div_ops_correct _ _ _ _ Hok He); in_list
          | apply (ext_correct _ _ _ _ Hok He); in_list
          | apply (cond_correct _ _ _ _ Hok He); in_list
          | apply (field_correct _ _ _ _ Hok He); in_list
          | apply (swap_correct _ _ _ _ Hok He); in_list
          | apply (ld_ops_correct _ _ _ _ Hok He); in_list
          | apply (st_ops_correct _ _ _ _ Hok He); in_list
          | injection He as <-; lazymatch type of Hok with
            | op_ok _ INDEX_op_add2_i64 _ = _ => exact (add2_correct cfg rl G args Hok)
            | op_ok _ INDEX_op_mulu2_i32 _ = _ => exact (mulu2_correct cfg rl G args Hok)
            | op_ok _ INDEX_op_mb _ = _ => exact (mb_correct cfg rl G args Hok)
            end ].
Qed.

End All.
