(* ===== verification/WasmStraight.v ===== *)
(** * Straight-line code

    Operations and constants in a row: their words and their instructions are those
    of each in turn, and so is what they do. *)
From S2P Require Import Prelude BitOps HostUtils Memory TcgCond Opcodes TciDecode Tune TbHeader Tci TciHot TciEquiv.
From S2P Require Import Wasm WasmOps WasmRun WordRel WasmSim WasmExact.

(** An operation, or a constant loaded into a register. *)
Inductive item := IOp (opc : TCGOpcode) (args : list Z) | IMovi (type : TCGType) (ret arg : Z).

Definition emit_item (rl : bool) (i : item) : option (list tword * E) :=
  match i with
  | IOp opc args => emit_op rl opc args
  | IMovi type ret arg => Some (emit_movi rl type ret arg)
  end.

Fixpoint emit_items (rl : bool) (l : list item) : option (list tword * E) :=
  match l with
  | [] => Some ([], nothing)
  | i :: l =>
      match emit_item rl i, emit_items rl l with
      | Some (ws, a), Some (ws', a') => Some (ws ++ ws', andthen a a')
      | _, _ => None
      end
  end.

(** Types after an item; a constant is the same on both sides. *)
Definition item_ok (G : rtypes) (i : item) : bool :=
  match i with
  | IOp opc args => op_ok G opc args
  | IMovi _ ret _ => outs_ok 1 [ret]
  end.

Definition item_result (G : rtypes) (i : item) : rtypes :=
  match i with IOp opc args => op_result G opc args | IMovi _ ret _ => retype ret Full64 G end.

Fixpoint items_ok (G : rtypes) (l : list item) : bool :=
  match l with [] => true | i :: l => item_ok G i && items_ok (item_result G i) l end.

Fixpoint items_result (G : rtypes) (l : list item) : rtypes :=
  match l with [] => G | i :: l => items_result (item_result G i) l end.

Section Straight.
Context {WT : Type} `{!Helpers WT}.
Context (cfg : tci_cfg) (rl : bool).
Implicit Type st : tci_state WT.

Definition item_pre st (i : item) : bool := match i with IOp opc args => op_pre st opc args | IMovi _ _ _ => true end.

(** Along the run each item's words are in memory when it is reached, and its host
    accesses do not wrap around. *)
Fixpoint intact (l : list item) (pc : Z) st : Prop :=
  match l with
  | [] => True
  | i :: l =>
      match emit_item rl i with
      | Some (ws, _) =>
          code_at (tmem st) pc ws /\ item_pre st i = true /\
          match steps cfg (length ws) pc st with Some (pc', st') => intact l pc' st' | None => True end
      | None => False
      end
  end.

Lemma item_correct G i ws a e w st pc pc' st' : item_ok G i = true -> emit_item rl i = Some (ws, a) ->
  related rl G e w st -> code_at (tmem st) pc ws -> item_pre st i = true -> steps cfg (length ws) pc st = Some (pc', st') ->
  pc' = u32 (pc + 4 * Z.of_nat (length ws)) /\
  exists w', runs rl a e w [] w' [] /\ related rl (item_result G i) (fst (a e)) w' st'.
Proof.
  destruct i as [opc args | type ret arg]; cbn [item_ok emit_item item_pre item_result].
  - intros Hok He Hr Hc Hp Hs. exact (emit_correct cfg rl G opc args (ws, a) Hok He e w st pc pc' st' Hr Hc Hp Hs).
  - intros Hok [= <- <-] Hr Hc _ Hs. apply outs_ok_spec in Hok as (_ & Hd & _). apply (Forall_singleton dst ret) in Hd.
    exact (movi_correct cfg rl G type ret arg e w st pc pc' st' Hd Hr Hc Hs).
Qed.

Lemma steps_split k1 k2 pc st r : steps cfg (k1 + k2) pc st = Some r ->
  exists pc1 st1, steps cfg k1 pc st = Some (pc1, st1) /\ steps cfg k2 pc1 st1 = Some r.
Proof.
  intros H. destruct (steps cfg k1 pc st) as [[pc1 st1] |] eqn:E.
  - exists pc1, st1. split; [done |]. by rewrite (steps_app _ _ _ _ _ _ _ E) in H.
  - exfalso. revert pc st E H. induction k1 as [| k IH]; intros pc st; cbn; [done |]. destruct (Full.step _ _ _ _); [apply IH | done].
Qed.

Lemma items_correct l : forall G ws a e w st pc pc' st', items_ok G l = true -> emit_items rl l = Some (ws, a) ->
  related rl G e w st -> intact l pc st -> steps cfg (length ws) pc st = Some (pc', st') ->
  exists w', runs rl a e w [] w' [] /\ related rl (items_result G l) (fst (a e)) w' st'.
Proof.
  induction l as [| i l IH]; intros G ws a e w st pc pc' st' Hok He Hr Hi Hs; cbn in *.
  - injection He as <- <-. injection Hs as <- <-. exists w. split; [apply runs_nothing | done].
  - apply andb_true_iff in Hok as [Hok Hoks]. destruct (emit_item rl i) as [[ws1 a1] |] eqn:E1; [| done].
    destruct (emit_items rl l) as [[ws2 a2] |] eqn:E2; [| done]. injection He as <- <-. destruct Hi as (Hc & Hp & Hi).
    rewrite length_app in Hs. apply steps_split in Hs as (pc1 & st1 & Hs1 & Hs2). rewrite Hs1 in Hi.
    destruct (item_correct G i ws1 a1 e w st pc pc1 st1) as (-> & w1 & R1 & Hr1); try done.
    destruct (IH _ _ _ _ _ _ _ _ _ Hoks eq_refl Hr1 Hi Hs2) as (w2 & R2 & Hr2). exists w2.
    split; [by eapply runs_andthen |]. unfold andthen. destruct (a1 e) as [e1 c1]. cbn in *. by destruct (a2 e1).
Qed.

(** C3: straight-line code of any length, of constants and of the operations [op_sig]
    types: every one [emit_op] compiles but [extract_i32], [sextract_i32], [add2_i32],
    [sub2_i32], [sub2_i64], [muls2_i32] and [ctpop_i32].  [op_ok] asks for a
    zero-extended operand of the 32-bit counts of zeros and of [mulu2_i32], and for
    64-bit operands of 64-bit operations.  If the interpreter gets through the words, the
    WebAssembly emitted beside them runs to its end from any related state, leaves the
    same memory, and leaves every register as its type promises: all 64 bits of a
    64-bit result, the low 32 bits of a 32-bit one. *)
Theorem straight_exact G l ws a e w st pc pc' st' : items_ok G l = true -> emit_items rl l = Some (ws, a) ->
  related rl G e w st -> intact l pc st -> steps cfg (length ws) pc st = Some (pc', st') ->
  exists w', exec rl (snd (a e)) w [] = WOk w' [] /\ wmem w' = tmem st' /\
    forall r, reg_ok r -> rel (items_result G l r) (rget rl w' r) (rd st' r).
Proof.
  intros Hok He Hr Hi Hs. destruct (items_correct l G ws a e w st pc pc' st' Hok He Hr Hi Hs) as (w' & R & Hr').
  exists w'. split; [by apply runs_exec | split; apply Hr'].
Qed.

End Straight.

(** ** A concrete run *)

(** [word_at] by evaluation: the pool entry is where the word points. *)
Definition word_atb (m : mem) (pc : Z) (t : tword) : bool :=
  match t with
  | W insn => bool_decide (load 4 m pc = Some insn)
  | WPool insn v =>
      match load 4 m pc with
      | Some insn' =>
          let ptr := snd (tci_args_rl insn' (u32 (pc + 4))) in
          bool_decide (Emit.patch_reloc insn pc ptr = Some insn') && bool_decide (load 8 m ptr = Some (u64 v))
      | None => false
      end
  end.

Fixpoint code_atb (m : mem) (pc : Z) (ws : list tword) : bool :=
  match ws with [] => true | t :: ws => word_atb m pc t && code_atb m (u32 (pc + 4)) ws end.

Lemma code_atb_sound m ws : forall pc, code_atb m pc ws = true -> code_at m pc ws.
Proof.
  induction ws as [| t ws IH]; intros pc; cbn; [done |]. rewrite andb_true_iff. intros [Ht Hw]. split; [| by apply IH].
  destruct t as [insn | insn v]; unfold word_at, word_atb in *; [by apply bool_decide_eq_true in Ht |]. cbv zeta in Ht.
  destruct (load 4 m pc) as [insn' |]; [| done]. apply andb_true_iff in Ht as [H1 H2]. apply bool_decide_eq_true in H1, H2.
  exists (snd (tci_args_rl insn' (u32 (pc + 4)))), insn'. split_and!; [done | | done | done]. unfold tci_args_rl. eauto with words.
Qed.

Section Intactb.
Context {WT : Type} `{!Helpers WT}.
Context (cfg : tci_cfg) (rl : bool).

Fixpoint intactb (l : list item) (pc : Z) (st : tci_state WT) : bool :=
  match l with
  | [] => true
  | i :: l =>
      match emit_item rl i with
      | Some (ws, _) =>
          code_atb (tmem st) pc ws && item_pre st i &&
          match steps cfg (length ws) pc st with Some (pc', st') => intactb l pc' st' | None => true end
      | None => false
      end
  end.

Lemma intactb_sound l : forall pc st, intactb l pc st = true -> intact cfg rl l pc st.
Proof.
  induction l as [| i l IH]; intros pc st; cbn; [done |]. destruct (emit_item rl i) as [[ws a] |]; [| done].
  rewrite !andb_true_iff. intros [[Hc Hp] Hi]. split_and!; [by apply code_atb_sound | done |].
  destruct (steps cfg (length ws) pc st) as [[pc' st'] |]; [by apply IH | done].
Qed.
End Intactb.

Module StraightDemo.
(** A constant from the pool, a load, arithmetic, a byte swap, a comparison, a store
    and a bit field. *)
Definition code : list item :=
  [IMovi TCG_TYPE_I64 1 0x123456789abcdef; IOp INDEX_op_ld_i64 [2; 14; 16]; IOp INDEX_op_add_i64 [3; 1; 2];
   IOp INDEX_op_bswap32_i32 [4; 3; 0]; IOp INDEX_op_setcond_i64 [5; 3; 1; TCG_COND_LTU];
   IOp INDEX_op_st_i32 [4; 14; 24]; IOp INDEX_op_sextract_i64 [6; 3; 8; 16]].

Definition words : list tword := match emit_items true code with Some (ws, _) => ws | None => [] end.
Definition instrs : list winstr := match emit_items true code with Some (_, a) => snd (a {| env_cached := false; regs_written := 0 |}) | None => [] end.

(** The words at 256, the pool at 320, [env] at 4096. *)
Definition raw : list Z :=
  (fun t => match t with W i => i | WPool i _ => default 0 (Emit.patch_reloc i 256 320) end) <$> words.
Definition memory : mem :=
  Demo.put_words (Demo.put_words (Demo.put_words ∅ 256 raw) 320 [0x89abcdef; 0x1234567]) 4096 [0; 0; 0; 0; 0x11111111; 0x22222222; 0; 0].

Definition registers : list Z := [0; 0; 0; 0; 0; 0; 0; 0; 0; 0; 0; 0; 0; 0; 4096; 8192].
Definition start : tci_state unit :=
  {| regs := registers; ctx_tb_ptr := 0; tci_tb_ptr := 0; bb_cold_ptr := 0; bb_resume_ptr := 0; bb_fast_tci_depth := 0;
     bb_force_slow_tci := 0; tmem := memory; world := tt |}.
Definition wstart : wst := {| locs := [0; 0; 0; 0; 0; 0; 0; 0] ++ registers ++ [0]; globs := replicate 17 0; wmem := memory |}.

Lemma put_words_wf ws : forall m a, mem_wf m -> mem_wf (Demo.put_words m a ws).
Proof.
  induction ws as [| x ws IH]; intros m a Hm; [done |]. cbn. apply IH. intros p b.
  assert (Hb : forall y, is_u 8 (y mod 256)) by (intros y; apply (uw_range 8); lia).
  rewrite !lookup_insert. repeat case_decide; try (intros [= <-]; apply Hb). apply Hm.
Qed.

Lemma start_related : related true (fun _ => Full64) {| env_cached := false; regs_written := 0 |} wstart start.
Proof.
  assert (Hz : forall r, in_reg r -> rget true wstart r = rd start r /\ is_u 64 (rd start r)).
  { intros r Hr. unfold in_reg in Hr.
    assert (Hc : r ∈ seqZ 0 16) by (apply elem_of_seqZ; lia).
    assert (Ha : Forall (fun r => rget true wstart r = rd start r /\ is_u 64 (rd start r)) (seqZ 0 16)).
    { cbn [seqZ seq fmap list_fmap Z.to_nat Pos.to_nat Pos.iter_op Nat.add]. repeat (apply Forall_cons_2; [split; [reflexivity | split; reflexivity || discriminate] |]). apply Forall_nil_2. }
    rewrite Forall_forall in Ha. apply Ha. by apply list_elem_of_In. }
  split; try done.
  - repeat apply put_words_wf. by intros ? ?.
  - intros r Hr. destruct (Hz r Hr) as [-> ?]. done.
  - intros r Hr. by apply Hz.
  - intros r [Hr _]. by apply Hz.
Qed.

End StraightDemo.

(** The emission of the demo, split into words and instructions. *)
Lemma demo_emitted : exists a, emit_items true StraightDemo.code = Some (StraightDemo.words, a) /\
  snd (a {| env_cached := false; regs_written := 0 |}) = StraightDemo.instrs.
Proof. eexists. split; reflexivity. Qed.

Lemma demo_intact : intact Demo.cfg true StraightDemo.code 256 StraightDemo.start.
Proof. apply intactb_sound. vm_compute. reflexivity. Qed.

Definition demo_end : option (Z * tci_state unit) := steps Demo.cfg (length StraightDemo.words) 256 StraightDemo.start.

Lemma demo_ends : is_Some demo_end.
Proof. apply (bool_decide_unpack (is_Some demo_end)). vm_compute. exact I. Qed.

Lemma straight_exact_witness : exists w' pc' st', demo_end = Some (pc', st') /\
  exec true StraightDemo.instrs StraightDemo.wstart [] = WOk w' [] /\ wmem w' = tmem st' /\ rget true w' 6 = rd st' 6.
Proof.
  destruct demo_ends as [[pc' st'] Hend]. destruct demo_emitted as (a & Ha & Hi).
  destruct (straight_exact Demo.cfg true (fun _ => Full64) StraightDemo.code StraightDemo.words a
              {| env_cached := false; regs_written := 0 |} StraightDemo.wstart StraightDemo.start 256 pc' st'
              eq_refl Ha StraightDemo.start_related demo_intact Hend) as (w' & He & Hm & Hr).
  exists w', pc', st'. split; [exact Hend |]. split; [rewrite <- Hi; exact He |]. split; [exact Hm |].
  apply (Hr 6). split; [split; [discriminate | reflexivity] | discriminate].
Defined.
