(* ===== verification/WasmValid.v ===== *)
(** * Validation of compiled operations

    WebAssembly code runs only after it has been validated: every instruction finds
    operands of its types.  Which operations are compiled to code that validates. *)
From S2P Require Import Prelude BitOps HostUtils Memory TcgCond Opcodes TciDecode Tune TbHeader Tci TciHot TciEquiv.
From S2P Require Import Wasm WasmOps WasmRun WordRel WasmSim.

Section Valid.
Context (rl : bool).

(** Whatever the emitter's state, the code takes a stack of types [ts] to [ts']. *)
Definition checks (a : E) (ts ts' : list vt) : Prop := forall e, check rl (snd (a e)) ts = Some ts'.

Lemma snd_andthen a b e : snd (andthen a b e) = snd (a e) ++ snd (b (fst (a e))).
Proof. unfold andthen. destruct (a e) as [e1 c1]. cbn. by destruct (b e1). Qed.

Lemma checks_andthen a b ts ts1 ts2 : checks a ts ts1 -> checks b ts1 ts2 -> checks (andthen a b) ts ts2.
Proof. intros Ha Hb e. rewrite snd_andthen, check_app, Ha. apply Hb. Qed.

Lemma checks_cons a l ts ts1 ts2 : checks a ts ts1 -> checks (emits l) ts1 ts2 -> checks (emits (a :: l)) ts ts2.
Proof. apply checks_andthen. Qed.

Lemma checks_nil ts : checks (emits []) ts ts.
Proof. done. Qed.

Lemma checks_get r ts : in_reg r -> checks (op_global_get_r rl r) ts (T64 :: ts).
Proof.
  intros Hr e. unfold op_global_get_r, REG_LOCAL_BASE, tcg_target_reg_index, in_reg in *. destruct rl; cbn; unfold ltype, gtype.
  - destruct (Z.leb_spec (8 + r) 2), (Z.leb_spec 0 (8 + r)), (Z.leb_spec 3 (8 + r)), (Z.leb_spec (8 + r) 24); try lia. done.
  - destruct (Z.leb_spec 0 r), (Z.leb_spec r 16); try lia. done.
Qed.

Lemma checks_set r ts : in_reg r -> checks (op_global_set_r rl r) (T64 :: ts) ts.
Proof.
  intros Hr e. unfold op_global_set_r, REG_LOCAL_BASE, tcg_target_reg_index, in_reg in *. destruct rl; cbn; unfold ltype, gtype.
  - destruct (Z.leb_spec (8 + r) 2), (Z.leb_spec 0 (8 + r)), (Z.leb_spec 3 (8 + r)), (Z.leb_spec (8 + r) 24); try lia. done.
  - destruct (Z.leb_spec 0 r), (Z.leb_spec r 16); try lia. done.
Qed.

Lemma checks_if bt th el ts t : block_type bt = Some [t] -> checks th [] [t] -> checks el [] [t] ->
  checks (if_else bt th el) (T32 :: ts) (t :: ts).
Proof.
  intros Hb Hth Hel e. unfold if_else. specialize (Hth e). destruct (th e) as [e1 c1]. specialize (Hel e1). destruct (el e1) as [e2 c2].
  cbn [fst snd check] in *. rewrite check1_if. unfold tpop. rewrite decide_True by done.
  rewrite Hb. cbn [mbind option_bind]. by rewrite decide_True.
Qed.

(** Temporaries. *)
Lemma checks_tget i ts : 0 <= i <= 7 -> checks (op_local_get i) ts ((if i <=? 2 then T32 else T64) :: ts).
Proof. intros Hi e. cbn. by rewrite ltype_tmp. Qed.

Lemma checks_tset i ts : 0 <= i <= 7 -> checks (op_local_set i) ((if i <=? 2 then T32 else T64) :: ts) ts.
Proof. intros Hi e. cbn. rewrite ltype_tmp by done. cbn. by rewrite decide_True. Qed.

Lemma checks_get_i32 r ts : in_reg r -> checks (op_global_get_r_i32 rl r) ts (T32 :: ts).
Proof.
  intros Hr e. unfold op_global_get_r_i32. pose proof (checks_get r ts Hr e) as Hg. 
  destruct (r =? TCG_REG_R14); [destruct (negb (env_cached e)) |].
  - cbn [emits foldr]. unfold andthen, op_i32_wrap_i64, op_local_tee, op, out, nothing. destruct (op_global_get_r rl r e) as [e1 c1]. cbn in *.
    rewrite check_app, Hg. cbn. by destruct rl.
  - by destruct rl.
  - cbn [emits foldr]. unfold andthen, op_i32_wrap_i64, op, out, nothing. destruct (op_global_get_r rl r e) as [e1 c1]. cbn in *.
    by rewrite check_app, Hg.
Qed.

(** The comparison of a condition. *)
Lemma checks_cond c ts : c ∈ comparison_conds ->
  checks (op (fst (tcg_cond_to_inst c))) (T32 :: T32 :: ts) (T32 :: ts) /\ checks (op (snd (tcg_cond_to_inst c))) (T64 :: T64 :: ts) (T32 :: ts).
Proof. intros Hc. cond_cases Hc; split; intros e; reflexivity. Qed.

(** Code that finds an operand of the wrong type. *)
Definition refuses (a : E) (ts : list vt) : Prop := forall e, check rl (snd (a e)) ts = None.

Lemma refuses_cons a l ts ts1 : checks a ts ts1 -> refuses (emits l) ts1 -> refuses (emits (a :: l)) ts.
Proof. intros Ha Hl e. cbn [emits foldr]. rewrite snd_andthen, check_app, Ha. apply Hl. Qed.

Lemma refuses_head a l ts : refuses a ts -> refuses (emits (a :: l)) ts.
Proof. intros Ha e. cbn [emits foldr]. by rewrite snd_andthen, check_app, Ha. Qed.

End Valid.

(** Types an instruction sequence, entering its pieces and both arms of its tests. *)
Ltac chk :=
  lazymatch goal with
  | |- checks _ (emits []) _ _ => apply checks_nil
  | |- checks _ (emits (_ :: _)) _ _ => eapply checks_cons; [chk | chk]
  | |- checks _ (op_global_get_r _ _) _ _ => apply checks_get; repeat case_match; assumption
  | |- checks _ (op_global_set_r _ _) _ _ => apply checks_set; assumption
  | |- checks _ (op_global_get_r_i32 _ _) _ _ => apply checks_get_i32; assumption
  | |- checks _ (op_local_get ?i) _ _ => apply (checks_tget _ i); split; discriminate
  | |- checks _ (op_local_set ?i) _ _ => apply (checks_tset _ i); split; discriminate
  | |- checks _ (if_else _ _ _) _ _ => eapply checks_if; [reflexivity | chk | chk]
  | |- checks _ (op (fst (tcg_cond_to_inst _))) _ _ => apply checks_cond; assumption
  | |- checks _ (op (snd (tcg_cond_to_inst _))) _ _ => apply checks_cond; assumption
  | |- checks _ (match ?b with true => _ | false => _ end) _ _ => destruct b; chk
  | |- _ => intros ?; reflexivity
  end.

Section Ops.
Context (rl : bool) (ret a1 a2 : Z) (Hret : in_reg ret) (H1 : in_reg a1) (H2 : in_reg a2).

Lemma calc_checks o : checks rl o [T64; T64] [T64] -> checks rl (out_i64_calc rl o ret a1 a2) [] [] /\
  checks rl (calc_s32 rl o ret a1 a2) [] [] /\ forall m1 m2, checks rl (calc_u32 rl m1 m2 o ret a1 a2) [] [].
Proof. intros Ho. split_and!; intros; repeat (eapply checks_cons; [first [exact Ho | chk] |]); apply checks_nil. Qed.

Lemma bswap64_checks flags : checks rl (out_bswap64 rl ret a1 flags) [] [].
Proof. unfold out_bswap64. cbv zeta. chk. Qed.

Lemma bswap32_checks flags : checks rl (out_bswap32 rl ret a1 flags) [] [].
Proof. unfold out_bswap32. chk. Qed.

Lemma bswap16_checks flags : checks rl (out_bswap16 rl ret a1 flags) [] [].
Proof. unfold out_bswap16. chk. Qed.

End Ops.

(** ** The theorem *)

(** The registers among the arguments come first, outputs and inputs. *)
Definition op_regs (opc : TCGOpcode) : nat := Z.to_nat (nb_oargs (tcg_op_defs opc) + nb_iargs (tcg_op_defs opc)).

Definition cond_of (opc : TCGOpcode) (args : list Z) : option Z :=
  match opc with
  | INDEX_op_setcond_i32 | INDEX_op_setcond_i64 => Some (args !!! 3%nat)
  | INDEX_op_movcond_i32 | INDEX_op_movcond_i64 => Some (args !!! 5%nat)
  | _ => None
  end.

Record args_ok (opc : TCGOpcode) (args : list Z) : Prop := {
  ao_len : (op_regs opc <= length args)%nat;
  ao_regs : Forall in_reg (take (op_regs opc) args);
  ao_cond : forall c, cond_of opc args = Some c -> c ∈ comparison_conds
}.

Definition ill_typed : list TCGOpcode := [INDEX_op_sub2_i32; INDEX_op_sub2_i64; INDEX_op_ctpop_i32].

Lemma arg_reg opc args i : args_ok opc args -> (i < op_regs opc)%nat -> in_reg (args !!! i).
Proof.
  intros [Hl Hr _] Hi. rewrite Forall_lookup in Hr. apply (Hr i). rewrite lookup_take_lt by done.
  apply list_lookup_lookup_total_lt. lia.
Qed.

Ltac unfold_out :=
  unfold rrr, rr, ldst, rrrbb, rrbb, rrrrrr, rrrr, setcond, movcond,
    out_setcond_i32, out_setcond_i64, out_movcond_i32, out_movcond_i64, op_cond_i32, op_cond_i64,
    out_ld, out_ld8s, out_ld8u, out_ld16s, out_ld16u, out_ld32s, out_ld32u, out_st, out_st8, out_st16, out_st32, ld_with, st_with, out_base,
    out_shl, out_shr_u, out_shr_s, out_div_s, out_div_u, out_rem_s, out_rem_u, calc_s32, calc_u32, out_i64_calc,
    out_i32_rotl, out_i32_rotr, i32_rot, out_andc, out_orc, out_eqv, out_nand, out_nor, out_not, out_neg, op_not,
    out_clz32, out_clz64, out_ctz32, out_ctz64, count32, count64, out_ctpop_i64, out_add2, out_mulu2_i32, out_muls2_i32, op_set_r_as_i64,
    out_extract, out_deposit_i32, out_deposit_i64, out_exts_i32_i64, out_extu_i32_i64, out_ext8s, out_ext16s, out_ext32s, out_ext8u, out_ext16u, out_ext32u,
    out_extrl_i64_i32, out_masked, out_mov.

Section Validates.
Context (rl : bool).

Lemma swap_checks opc c ext args : in_reg (args !!! 0%nat) -> in_reg (args !!! 1%nat) ->
  (forall d s flags, in_reg d -> in_reg s -> checks rl (c d s flags) [] []) ->
  (forall eopc ce, ext = Some (eopc, ce) -> forall d, in_reg d -> checks rl (ce d d) [] []) ->
  checks rl (snd (bswap opc c ext args)) [] [].
Proof.
  intros H0 H1 Hc Hx. unfold bswap. destruct ext as [[eopc ce] |]; [| by apply Hc].
  destruct (has_flag _ _); [| by apply Hc]. eapply checks_cons; [by apply Hc |]. eapply checks_cons; [by eapply Hx | apply checks_nil].
Qed.

Ltac swap_op := apply swap_checks; [assumption | assumption |
  intros; lazymatch goal with
  | |- checks _ (out_bswap64 _ _ _ _) _ _ => by apply bswap64_checks
  | |- checks _ (out_bswap32 _ _ _ _) _ _ => by apply bswap32_checks
  | |- _ => by apply bswap16_checks
  end | intros ? ? [= <- <-] ? ?; unfold_out; chk].

Lemma sub2_refuses rl' rh al ah bl bh : Forall in_reg [rl'; rh; al; ah; bl; bh] -> refuses rl (out_sub2 rl rl' rh al ah bl bh) [].
Proof.
  intros H. repeat (apply Forall_cons_1 in H as [? H]). unfold out_sub2. repeat (eapply refuses_cons; [chk |]). apply refuses_head. by intros e.
Qed.

Lemma ctpop32_refuses d s : in_reg d -> in_reg s -> refuses rl (out_ctpop_i32 rl d s) [].
Proof.
  intros Hd Hs. unfold out_ctpop_i32. do 3 (eapply refuses_cons; [chk |]). apply refuses_head. intros e.
  unfold op_global_set_r, REG_LOCAL_BASE, tcg_target_reg_index, in_reg in *. destruct rl; cbn; unfold ltype, gtype.
  - destruct (Z.leb_spec (8 + d) 2), (Z.leb_spec 0 (8 + d)), (Z.leb_spec 3 (8 + d)), (Z.leb_spec (8 + d) 24); try lia. done.
  - destruct (Z.leb_spec 0 d), (Z.leb_spec d 16); try lia. done.
Qed.

Lemma emit_checks opc args b : args_ok opc args -> emit_op rl opc args = Some b -> opc ∉ ill_typed -> checks rl (snd b) [] [].
Proof.
  intros Ha He Hn.
  assert (R0 := arg_reg opc args 0 Ha). assert (R1 := arg_reg opc args 1 Ha). assert (R2 := arg_reg opc args 2 Ha).
  assert (R3 := arg_reg opc args 3 Ha). assert (R4 := arg_reg opc args 4 Ha). assert (R5 := arg_reg opc args 5 Ha).
  assert (Hc := ao_cond _ _ Ha). clear Ha.
  destruct opc; try discriminate He; injection He as <-.
  all: cbn [op_regs tcg_op_defs DEF nb_oargs nb_iargs] in *.
  all: try (exfalso; apply Hn; apply (bool_decide_unpack _); vm_compute; exact I).
  all: try specialize (R0 ltac:(vm_compute; lia)); try specialize (R1 ltac:(vm_compute; lia)); try specialize (R2 ltac:(vm_compute; lia)).
  all: try specialize (R3 ltac:(vm_compute; lia)); try specialize (R4 ltac:(vm_compute; lia)); try specialize (R5 ltac:(vm_compute; lia)).
  all: try specialize (Hc _ eq_refl).
  all: lazymatch goal with |- checks _ (snd (bswap _ _ _ _)) _ _ => swap_op | |- _ => unfold_out; cbv beta iota zeta; cbn [snd]; chk end.
Qed.

End Validates.

Section Theorems.
Context (rl : bool).

(** C22: every operation but three is compiled to code that validates, with its registers
    in locals or in globals and whatever the emitter has cached, so that running it
    ends with an empty stack or traps; the code of [sub2] and of the 32-bit population
    count does not validate, and a module that contains it cannot be loaded. *)
Theorem emit_validates opc args b e : args_ok opc args -> emit_op rl opc args = Some b ->
  check rl (snd (snd b e)) [] = (if bool_decide (opc ∈ ill_typed) then None else Some []) /\
  (opc ∉ ill_typed -> forall w, match exec rl (snd (snd b e)) w [] with WOk _ stk => stk = [] | WTrap => True | WStuck => False end).
Proof.
  intros Ha He. destruct (decide (opc ∈ ill_typed)) as [Hi | Hn].
  - rewrite bool_decide_eq_true_2 by done. split; [| done]. pose proof (fun i => arg_reg opc args i Ha) as Hr.
    unfold ill_typed in Hi. rewrite !elem_of_cons, elem_of_nil in Hi. destruct Hi as [-> | [-> | [-> | []]]]; injection He as <-.
    1,2: apply sub2_refuses; repeat (apply Forall_cons_2; [apply Hr; vm_compute; lia |]); apply Forall_nil_2.
    apply ctpop32_refuses; apply Hr; vm_compute; lia.
  - rewrite bool_decide_eq_false_2 by done. pose proof (emit_checks rl opc args b Ha He Hn e) as Hc. split; [done |]. intros _ w.
    pose proof (exec_sound rl _ w [] [] Hc) as Hs. destruct (exec _ _ _ _) as [w' stk | |]; [| done | done]. cbn in Hs. by destruct stk.
Qed.

End Theorems.

Lemma double_args_ok opc : opc ∈ [INDEX_op_add2_i64; INDEX_op_sub2_i64] -> args_ok opc [0; 1; 2; 3; 4; 5].
Proof.
  intros Ho. rewrite !elem_of_cons, elem_of_nil in Ho.
  split; [destruct Ho as [-> | [-> | []]]; vm_compute; lia | | destruct Ho as [-> | [-> | []]]; by intros c].
  apply Forall_take. repeat (apply Forall_cons_2; [split; [discriminate | reflexivity] |]). apply Forall_nil_2.
Qed.

Lemma emit_validates_witness :
  check true (snd (out_add2 true 0 1 2 3 4 5 {| env_cached := false; regs_written := 0 |})) [] = Some [] /\
  check true (snd (out_sub2 true 0 1 2 3 4 5 {| env_cached := false; regs_written := 0 |})) [] = None.
Proof.
  split.
  - exact (proj1 (emit_validates true INDEX_op_add2_i64 [0; 1; 2; 3; 4; 5] _ {| env_cached := false; regs_written := 0 |}
             (double_args_ok INDEX_op_add2_i64 ltac:(apply (bool_decide_unpack _); vm_compute; exact I)) eq_refl)).
  - exact (proj1 (emit_validates true INDEX_op_sub2_i64 [0; 1; 2; 3; 4; 5] _ {| env_cached := false; regs_written := 0 |}
             (double_args_ok INDEX_op_sub2_i64 ltac:(apply (bool_decide_unpack _); vm_compute; exact I)) eq_refl)).
Defined.
