(* ===== verification/WasmWrong.v ===== *)
(** * Operations compiled to something else

    The 32-bit operations whose compiled form does not leave the interpreter's low
    half: the signed double-word product (the unsigned one is emitted), bit fields
    (shifted out of a 64-bit word instead of a 32-bit one), the double-word addition
    (whose carry is taken out of bit 63) and the counts of zeros (whose operand is
    tested at 64 bits).  Each theorem says exactly when the two agree. *)
From S2P Require Import Prelude BitOps HostUtils Memory TcgCond Opcodes TciDecode Tune TbHeader Tci TciHot TciEquiv.
From S2P Require Import Wasm WasmOps WasmRun WordRel WasmSim WasmExact.

(** ** The signed double-word product *)

Lemma high_word x : Z.shiftr (u64 x) 32 = u32 (x / 2 ^ 32).
Proof.
  rewrite <- Z.shiftr_div_pow2 by lia. apply Z.bits_inj'. intros i Hi. rewrite testbit_shiftr, !testbit_uw, testbit_shiftr by lia.
  destruct (Z.ltb_spec (i + 32) 64), (Z.ltb_spec i 32); (done || lia).
Qed.

(** The high word of an unsigned product against that of the signed one. *)
Lemma signed_high a b : is_u 32 a -> is_u 32 b ->
  Z.shiftr (u64 (a * b)) 32 = u32 (Z.shiftr (u64 (s32 a * s32 b)) 32 + ((if s32 a <? 0 then b else 0) + (if s32 b <? 0 then a else 0))).
Proof.
  intros Ha Hb. rewrite !high_word, uw_add_idemp_l. 
  assert (Hs : forall x, is_u 32 x -> exists k, s32 x = x - k * 2 ^ 32 /\ (forall y, (if s32 x <? 0 then y else 0) = k * y)).
  { intros x Hx. rewrite sw_cases by (done || lia). unfold is_u in Hx. destruct (Z.ltb_spec x (2 ^ (32 - 1))).
    - exists 0. split; [lia |]. intros y. destruct (Z.ltb_spec x 0); lia.
    - exists 1. split; [lia |]. intros y. destruct (Z.ltb_spec (x - 2 ^ 32) 0); lia. }
  destruct (Hs a Ha) as (A & EA & FA). destruct (Hs b Hb) as (B & EB & FB). rewrite FA, FB, EA, EB.
  replace ((a - A * 2 ^ 32) * (b - B * 2 ^ 32)) with (a * b + (A * B * 2 ^ 32 - (A * b + B * a)) * 2 ^ 32) by lia.
  rewrite Z.div_add by lia. replace (a * b / 2 ^ 32 + (A * B * 2 ^ 32 - (A * b + B * a)) + (A * b + B * a)) with (a * b / 2 ^ 32 + A * B * 2 ^ 32) by lia.
  unfold uw. by rewrite Z.mod_add by lia.
Qed.

(** C36: the signed 32-bit double-word product is compiled to the unsigned one.  From
    zero-extended operands [a] and [b], the code leaves the right low word; the high
    word exceeds the interpreter's by [b] when [a] is negative and by [a] when [b] is,
    so that it is right exactly when these add up to nothing. *)
Theorem muls2_high {WT : Type} `{!Helpers WT} cfg (st : tci_state WT) pc rl retl reth a1 a2 e w :
  wf rl w -> out_reg retl -> out_reg reth -> in_reg a1 -> in_reg a2 -> retl <> reth -> length (regs st) = 16%nat ->
  is_u 32 (rget rl w a1) -> is_u 32 (rget rl w a2) -> rd st a1 = rget rl w a1 -> rd st a2 = rget rl w a2 ->
  let a := rget rl w a1 in let b := rget rl w a2 in
  let error := u32 ((if s32 a <? 0 then b else 0) + (if s32 b <? 0 then a else 0)) in
  exists w' st', exec rl (snd (out_muls2_i32 rl retl reth a1 a2 e)) w [] = WOk w' [] /\
    Full.exec cfg false INDEX_op_muls2_i32 (emit INDEX_op_muls2_i32 (O_rrrr retl reth a1 a2)) pc st = Next pc st' /\
    rget rl w' retl = rd st' retl /\ rget rl w' reth = u32 (rd st' reth + error) /\
    (rget rl w' reth = rd st' reth <-> error = 0).
Proof.
  intros Hw Hl Hh H1 H2 Hne Hlen U1 U2 E1 E2 a b error.
  destruct (mul2_computes rl e w Hw retl a1 a2 Hl H1 H2 reth Hh) as (w' & R & [_ _ Hg]). fold a b in Hg.
  exists w', (tci_write_reg64 reth retl (u64 (s32 a * s32 b)) st). split; [exact (runs_exec _ _ _ _ _ _ _ R) |].
  set (st' := tci_write_reg64 reth retl (u64 (s32 a * s32 b)) st). split.
  { change (Full.exec cfg false INDEX_op_muls2_i32 ?i pc st) with (let '(r0, r1, r2, r3) := tci_args_rrrr i in
      Next pc (tci_write_reg64 r1 r0 (u64 (s32 (rd st r2) * s32 (rd st r3))) st)).
    assert (Hu4 : forall r, in_reg r -> is_u 4 r) by done.
    cbn [emit]. rewrite decode_rrrr by (apply Hu4; first [assumption | apply Hl | apply Hh]). by rewrite E1, E2. }
  assert (El : rd st' retl = u32 (s32 a * s32 b)).
  { unfold st', tci_write_reg64. rewrite rd_wr, (proj2 (Z.eqb_neq reth retl)), rd_wr, Z.eqb_refl by (done || apply Hl || apply Hh || (cbn; by rewrite length_insert) || congruence).
    apply u32_u64. }
  assert (Eh : rd st' reth = Z.shiftr (u64 (s32 a * s32 b)) 32).
  { unfold st', tci_write_reg64. by rewrite rd_wr, Z.eqb_refl by (apply Hh || (cbn; by rewrite length_insert)). }
  rewrite El, Eh, !Hg by (apply Hl || apply Hh). cbn. rewrite Z.eqb_refl, (proj2 (Z.eqb_neq reth retl)), Z.eqb_refl, !land_mask32 by congruence.
  change (u64 32 mod 64) with 32. rewrite signed_high by done. set (h := Z.shiftr (u64 (s32 a * s32 b)) 32).
  rewrite uw_idemp by lia. unfold error. rewrite uw_add_idemp_r. split_and!; [| done |].
  - rewrite u32_u64. symmetry. apply u32_mul; by rewrite uw_sw by lia.
  - assert (Hu : is_u 32 h) by (unfold h; rewrite high_word; eauto with words). fold error. rewrite <- uw_add_idemp_r. fold error.
    assert (He : is_u 32 error) by (apply uw_range; lia). unfold is_u in *. unfold uw. split.
    + intros E. pose proof (Z.div_mod (h + error) (2 ^ 32) ltac:(lia)). rewrite E in *. nia.
    + intros ->. rewrite Z.add_0_r. apply Z.mod_small. lia.
Qed.

Lemma muls2_high_witness :
  let w := {| locs := [0; 0; 0; 0; 0; 0; 0; 0; 0; 0; 0xffffffff; 3; 0; 0; 0; 0; 0; 0; 0; 0; 0; 0; 0; 0; 0]; globs := replicate 17 0; wmem := ∅ |} in
  exists w', exec true (snd (out_muls2_i32 true 0 1 2 3 {| env_cached := false; regs_written := 0 |})) w [] = WOk w' [] /\
    rget true w' 1 = 2.
Proof.
  intros w.
  destruct (muls2_high Demo.cfg {| regs := [0; 0; 0xffffffff; 3; 0; 0; 0; 0; 0; 0; 0; 0; 0; 0; 0; 0]; ctx_tb_ptr := 0; tci_tb_ptr := 0; bb_cold_ptr := 0;
      bb_resume_ptr := 0; bb_fast_tci_depth := 0; bb_force_slow_tci := 0; tmem := ∅; world := tt |} 0
      true 0 1 2 3 {| env_cached := false; regs_written := 0 |} w) as (w' & st' & Hx & Hi & _ & Hh & _);
    try (vm_compute; repeat split; done).
  exists w'. split; [exact Hx |]. rewrite Hh. vm_compute in Hi. injection Hi as <-. vm_compute. reflexivity.
Defined.

(** ** Bit fields at 32 bits *)

(** What the code of [extract_i32] and [sextract_i32] computes from the register. *)
Definition extract32_val (sign : bool) (a pos len : Z) : Z :=
  let rs := 32 - len in let sl := rs - pos in
  let x := if 0 <? sl then u64 (Z.shiftl a (u64 sl mod 64)) else a in
  if sign then u64 (Z.shiftr (s64 x) (u64 rs mod 64)) else Z.shiftr x (u64 rs mod 64).

Lemma extract32_computes rl e w ret a1 pos len (sign : bool) : wf rl w -> out_reg ret -> in_reg a1 ->
  computes rl (out_extract rl ret a1 pos len TCG_TYPE_I32 sign) e w [(ret, extract32_val sign (rget rl w a1) pos len)].
Proof.
  intros Hw Hret H1. eexists. split; [| unfold extract32_val; eauto with wrun].
  unfold out_extract. set (rs := 32 - len). set (sl := rs - pos).
  set (x := if 0 <? sl then u64 (Z.shiftl (rget rl w a1) (u64 sl mod 64)) else rget rl w a1).
  eapply runs_cons; [wrun1 |]. eapply (runs_cons _ _ _ _ _ _ w [V64 x]).
  { unfold x. destruct (0 <? sl); wruns. }
  destruct sign; wruns.
Qed.

(** The low half is the register from bit [pos] on: the bits above the field are kept. *)
Lemma extract32_low sign a pos len : bitfield_ok 32 pos len = true -> u32 (extract32_val sign a pos len) = u32 (Z.shiftr a pos).
Proof.
  intros Hok. apply bitfield_ok_spec in Hok as (? & ? & ?). unfold extract32_val. set (rs := 32 - len). set (sl := rs - pos).
  rewrite (shift_count64 rs) by (unfold rs; lia).
  set (x := if 0 <? sl then u64 (Z.shiftl a (u64 sl mod 64)) else a).
  assert (Hx : forall i, 0 <= i < 64 -> Z.testbit x i = Z.testbit a (i - sl)).
  { intros i Hi. unfold x. destruct (Z.ltb_spec 0 sl).
    - rewrite shift_count64 by (unfold sl, rs; lia). rewrite testbit_uw, testbit_shiftl by lia. by rewrite (proj2 (Z.ltb_lt i 64)) by lia.
    - replace sl with 0 by (unfold sl, rs in *; lia). by rewrite Z.sub_0_r. }
  apply Z.bits_inj'. intros i Hi. rewrite !testbit_uw by lia. destruct (Z.ltb_spec i 32); [cbn | done].
  assert (Hs : Z.testbit x (i + rs) = Z.testbit (Z.shiftr a pos) i).
  { rewrite Hx, testbit_shiftr by (unfold rs; lia). f_equal. unfold sl. lia. }
  rewrite <- Hs. destruct sign.
  - rewrite testbit_uw, testbit_shiftr, testbit_sw by lia. rewrite (proj2 (Z.ltb_lt i 64)) by lia. cbn. f_equal. unfold rs. lia.
  - by rewrite testbit_shiftr by lia.
Qed.

(** ** The carry of the double-word addition *)

Lemma carry_lost a b c : is_u 64 a -> is_u 64 b -> c = a \/ c = b -> (u64 (a + b) <? c) = (2 ^ 64 <=? a + b).
Proof.
  unfold is_u, uw. intros Ha Hb Hc. destruct (Z.leb_spec (2 ^ 64) (a + b)).
  - rewrite <- (Z.mod_add (a + b) (-1)), Z.mod_small by lia. destruct Hc as [-> | ->]; apply Z.ltb_lt; lia.
  - rewrite Z.mod_small by lia. destruct Hc as [-> | ->]; apply Z.ltb_ge; lia.
Qed.

(** The high word of the 32-bit sum: its halves and the carry out of bit 31. *)
Lemma sum_high ah al bh bl : let T1 := tci_uint64 (u32 ah) (u32 al) in let T2 := tci_uint64 (u32 bh) (u32 bl) in
  u32 (Z.shiftr (u64 (T1 + T2)) 32) = u32 (ah + bh + b2z (2 ^ 32 <=? u32 al + u32 bl)).
Proof.
  intros T1 T2. rewrite high_word, uw_idemp by lia.
  assert (Hd : forall h l, tci_uint64 (u32 h) (u32 l) = u32 h * 2 ^ 32 + u32 l).
  { intros h l. unfold tci_uint64. pose proof (uw_range 32 h ltac:(lia)). pose proof (uw_range 32 l ltac:(lia)). unfold is_u in *.
    rewrite Z.shiftl_mul_pow2 by lia. rewrite (uw_small 64 (_ * _)), uw_small by (unfold is_u; lia). done. }
  unfold T1, T2. rewrite !Hd.
  replace (u32 ah * 2 ^ 32 + u32 al + (u32 bh * 2 ^ 32 + u32 bl)) with (u32 al + u32 bl + (u32 ah + u32 bh) * 2 ^ 32) by lia.
  rewrite Z.div_add by lia.
  assert (Hc : (u32 al + u32 bl) / 2 ^ 32 = b2z (2 ^ 32 <=? u32 al + u32 bl)).
  { pose proof (uw_range 32 al ltac:(lia)). pose proof (uw_range 32 bl ltac:(lia)). unfold is_u in *. destruct (Z.leb_spec (2 ^ 32) (u32 al + u32 bl)); cbn.
    - symmetry. apply (Z.div_unique _ _ _ (u32 al + u32 bl - 2 ^ 32)); lia.
    - apply Z.div_small. lia. }
  rewrite Hc, <- (uw_add_idemp_l 32 (ah + bh)), <- (uw_add_idemp_l 32 ah), <- (uw_add_idemp_r 32 (u32 ah)), uw_add_idemp_l. f_equal. lia.
Qed.

(** ** When the low halves agree *)

(** The arguments of a bit field, a double-word addition or a count of zeros at 32 bits
    (no other operation has any), and the register of its result, the high one of an
    addition. *)
Definition wrong_args (opc : TCGOpcode) (args : list Z) : Prop :=
  match opc, args with
  | (INDEX_op_extract_i32 | INDEX_op_sextract_i32), [ret; a; pos; len] => out_reg ret /\ in_reg a /\ bitfield_ok 32 pos len = true
  | INDEX_op_add2_i32, [retl; reth; al; ah; bl; bh] =>
      out_reg retl /\ out_reg reth /\ retl <> reth /\ in_reg al /\ in_reg ah /\ in_reg bl /\ in_reg bh
  | (INDEX_op_clz_i32 | INDEX_op_ctz_i32), [ret; a; b] => out_reg ret /\ in_reg a /\ in_reg b
  | _, _ => False
  end.

Definition wrong_reg (opc : TCGOpcode) (args : list Z) : Z :=
  match opc with INDEX_op_add2_i32 => args !!! 1%nat | _ => args !!! 0%nat end.

(** The condition on the operands [R r]: the bits of the register above the field, up to
    [pos + 31], are zero, or copies of the field's last bit; the sums carry out of
    bit 31 and out of bit 63 alike; the word is zero at 64 bits if it is at 32, or the
    value for zero is 32 anyway. *)
Definition agrees (opc : TCGOpcode) (args : list Z) (R : Z -> Z) : bool :=
  match opc, args with
  | INDEX_op_extract_i32, [_; a; pos; len] => u32 (Z.shiftr (R a) pos) <? 2 ^ len
  | INDEX_op_sextract_i32, [_; a; pos; len] =>
      let x := s32 (Z.shiftr (R a) pos) in (- 2 ^ (len - 1) <=? x) && (x <? 2 ^ (len - 1))
  | INDEX_op_add2_i32, [_; _; al; _; bl; _] => Bool.eqb (2 ^ 64 <=? R al + R bl) (2 ^ 32 <=? u32 (R al) + u32 (R bl))
  | (INDEX_op_clz_i32 | INDEX_op_ctz_i32), [_; a; b] => (R a =? 0) || negb (u32 (R a) =? 0) || (u32 (R b) =? 32)
  | _, _ => false
  end.

(** ** The values compared *)

Lemma extract_iff a pos len : bitfield_ok 32 pos len = true ->
  u32 (extract32_val false a pos len) = u32 (extract32 (u32 a) pos len) <-> u32 (Z.shiftr a pos) < 2 ^ len.
Proof.
  intros Hok. rewrite extract32_low by done. unfold extract32. rewrite extract_uw by done. apply bitfield_ok_spec in Hok as (? & ? & ?).
  assert (E : u32 (uw len (Z.shiftr (u32 a) pos)) = uw len (u32 (Z.shiftr a pos))).
  { apply Z.bits_inj'. intros i Hi. rewrite !testbit_uw, !testbit_shiftr, testbit_uw by lia.
    destruct (Z.ltb_spec i 32), (Z.ltb_spec i len), (Z.ltb_spec (i + pos) 32); (done || lia). }
  rewrite E. set (x := u32 (Z.shiftr a pos)). assert (Hx : is_u 32 x) by (apply uw_range; lia). unfold is_u in Hx. split.
  - intros ->. apply uw_range. lia.
  - intros Hlt. symmetry. apply uw_small. unfold is_u. lia.
Qed.

Lemma sextract_iff a pos len : bitfield_ok 32 pos len = true ->
  u32 (extract32_val true a pos len) = u32 (u64 (sextract32 (u32 a) pos len)) <-> is_s len (s32 (Z.shiftr a pos)).
Proof.
  intros Hok. rewrite extract32_low, u32_u64 by done. unfold sextract32. rewrite sextract_sw by done.
  apply bitfield_ok_spec in Hok as (? & ? & ?). set (x := Z.shiftr a pos).
  assert (E : sw len (Z.shiftr (u32 a) pos) = sw len x).
  { rewrite <- (sw_uw len x), <- (sw_uw len) by lia. f_equal. apply Z.bits_inj'. intros i Hi. unfold x. rewrite !testbit_uw, !testbit_shiftr, testbit_uw by lia.
    destruct (Z.ltb_spec i len), (Z.ltb_spec (i + pos) 32); (done || lia). }
  assert (Hs : is_s len (sw len x)) by (apply sw_range; lia).
  assert (Hp : 2 ^ (len - 1) <= 2 ^ 31) by (apply Z.pow_le_mono_r; lia).
  rewrite E. split.
  - intros H2. apply s32_u32 in H2. rewrite H2, sw_small; [done | lia | unfold is_s in *; lia].
  - intros H2. rewrite <- (uw_sw 32 x) by lia. f_equal. rewrite <- (sw_small len (s32 x)) by (done || lia).
    apply (sw_u32 len); [lia |]. by rewrite uw_sw by lia.
Qed.

Lemma add2_iff h (c c' : bool) : u32 (u64 (u64 h + u64 (s32 (b2z c)))) = u32 (h + b2z c') <-> c = c'.
Proof.
  rewrite uw_add_idemp_l, uw_add_idemp_r, u32_u64. replace (s32 (b2z c)) with (b2z c) by (by destruct c). split; [| by intros ->].
  intros E. rewrite <- (uw_add_idemp_l 32 h (b2z c)), <- (uw_add_idemp_l 32 h (b2z c')) in E.
  pose proof (uw_range 32 h ltac:(lia)) as Hr. unfold is_u, uw in *. set (x := h mod 2 ^ 32) in *. destruct c, c'; cbn in E; try done.
  all: exfalso; rewrite Z.add_0_r, (Z.mod_small x) in E by done; destruct (Z.eq_dec (x + 1) (2 ^ 32)) as [E1 | E1];
    [rewrite E1, Z.mod_same in E by lia; lia | rewrite Z.mod_small in E by lia; lia].
Qed.

Lemma count_iff (f : Z -> Z) a b : f 0 = 32 -> is_u 64 a ->
  u32 (u64 (s32 (if a =? 0 then u32 b else f (u32 a)))) = u32 (if u32 a =? 0 then b else f (u32 a)) <->
  (a =? 0) || negb (u32 a =? 0) || (u32 b =? 32) = true.
Proof.
  intros Hf Ha. rewrite u32_u64, uw_sw by lia. destruct (Z.eqb_spec a 0) as [-> | Hn].
  - cbn. rewrite uw_idemp by lia. done.
  - destruct (Z.eqb_spec (u32 a) 0) as [E | E]; cbn; [| done]. rewrite E, Hf, Z.eqb_eq. by split.
Qed.

(** The two results of one operation, compiled and interpreted from registers that agree. *)
Section Results.
Context {WT : Type} `{!Helpers WT}.
Context (cfg : tci_cfg) (rl : bool) (e : est) (w : wst) (st : tci_state WT) (pc : Z).
Context (Hw : wf rl w) (Hlen : length (regs st) = 16%nat) (Hregs : forall r, in_reg r -> rd st r = rget rl w r).
Context (Hu : forall r, in_reg r -> is_u 64 (rget rl w r)).

Definition results (opc : TCGOpcode) (args : list Z) (c i : Z) : Prop :=
  exists insn a w' st', emit_op rl opc args = Some ([W insn], a) /\ exec rl (snd (a e)) w [] = WOk w' [] /\
    Full.exec cfg false opc insn pc st = Next pc st' /\ rget rl w' (wrong_reg opc args) = c /\ rd st' (wrong_reg opc args) = i.

Lemma results_intro opc args insn a us st' c i : emit_op rl opc args = Some ([W insn], a) -> computes rl a e w us ->
  Full.exec cfg false opc insn pc st = Next pc st' -> in_reg (wrong_reg opc args) ->
  look us (wrong_reg opc args) (rget rl w (wrong_reg opc args)) = c -> rd st' (wrong_reg opc args) = i -> results opc args c i.
Proof.
  intros He (w' & Hr & [_ _ Hg]) Hx Hreg <- Hi. exists insn, a, w', st'.
  split_and!; [done | exact (runs_exec _ _ _ _ _ _ _ Hr) | done | by apply Hg | done].
Qed.

Lemma rd_written r v (st' : tci_state WT) : length (regs st') = 16%nat -> in_reg r -> rd (wr r v st') r = v.
Proof. intros Hl Hr. by rewrite rd_wr, Z.eqb_refl by (done || apply Hr). Qed.

Lemma look_head r v us d : look ((r, v) :: us) r d = v.
Proof. cbn. by rewrite Z.eqb_refl. Qed.

Lemma extract_results (sign : bool) ret a pos len : out_reg ret -> in_reg a -> bitfield_ok 32 pos len = true ->
  results (if sign then INDEX_op_sextract_i32 else INDEX_op_extract_i32) [ret; a; pos; len] (extract32_val sign (rget rl w a) pos len)
    (if sign then u64 (sextract32 (u32 (rget rl w a)) pos len) else extract32 (u32 (rget rl w a)) pos len).
Proof.
  intros Hret Ha Hok. pose proof (extract32_computes rl e w ret a pos len sign Hw Hret Ha) as Hc.
  assert (Hf : 0 <= pos /\ 0 < len /\ len <= 32 - pos) by by apply bitfield_ok_spec.
  assert (Hd : forall op, tci_args_rrbb (Emit.op_rrbb op ret a pos len) = (ret, a, pos, len)).
  { intros op. apply decode_rrbb; [apply Hret | apply Ha | |]; unfold is_u; lia. }
  destruct sign; (eapply results_intro; [reflexivity | exact Hc | | apply Hret | apply look_head | rewrite <- Hregs by done; apply rd_written; [done | apply Hret]]).
  - change (Full.exec cfg false INDEX_op_sextract_i32 ?i pc st) with (let '(r0, r1, pos, len) := tci_args_rrbb i in
      asserting (bitfield_ok 32 pos len) (Next pc (wr r0 (u64 (sextract32 (u32 (rd st r1)) pos len)) st))).
    cbn [emit]. by rewrite Hd, Hok.
  - change (Full.exec cfg false INDEX_op_extract_i32 ?i pc st) with (let '(r0, r1, pos, len) := tci_args_rrbb i in
      asserting (bitfield_ok 32 pos len) (Next pc (wr r0 (extract32 (u32 (rd st r1)) pos len) st))).
    cbn [emit]. by rewrite Hd, Hok.
Qed.

Lemma add2_results retl reth al ah bl bh : out_reg retl -> out_reg reth -> retl <> reth ->
  in_reg al -> in_reg ah -> in_reg bl -> in_reg bh ->
  let T x y := tci_uint64 (u32 (rget rl w x)) (u32 (rget rl w y)) in
  results INDEX_op_add2_i32 [retl; reth; al; ah; bl; bh]
    (u64 (u64 (rget rl w ah + rget rl w bh) + u64 (s32 (b2z (2 ^ 64 <=? rget rl w al + rget rl w bl)))))
    (Z.shiftr (u64 (T ah al + T bh bl)) 32).
Proof.
  intros Hl Hh Hne Hal Hah Hbl Hbh T.
  pose proof (add2_computes rl e w Hw retl reth al ah bl bh Hl Hh Hal Hah Hbl Hbh) as Hc. cbv zeta in Hc.
  rewrite (carry_lost (rget rl w al) (rget rl w bl)) in Hc by (auto; unfold carry_reg; repeat case_match; auto).
  eapply results_intro; [reflexivity | exact Hc | | apply Hh | apply look_head |].
  - change (Full.exec cfg false INDEX_op_add2_i32 ?i pc st) with (let '(r0, r1, r2, r3, r4, r5) := tci_args_rrrrrr i in
      Next pc (tci_write_reg64 r1 r0 (u64 (tci_uint64 (u32 (rd st r3)) (u32 (rd st r2)) + tci_uint64 (u32 (rd st r5)) (u32 (rd st r4)))) st)).
    assert (Hu4 : forall r, in_reg r -> is_u 4 r) by done.
    cbn [emit]. by rewrite decode_rrrrrr by (apply Hu4; first [assumption | apply Hl | apply Hh]).
  - unfold T. rewrite <- !Hregs by done. unfold tci_write_reg64. apply rd_written; [cbn; by rewrite length_insert | apply Hh].
Qed.

Lemma count_results (lead : bool) ret a b : out_reg ret -> in_reg a -> in_reg b ->
  let opc := if lead then INDEX_op_clz_i32 else INDEX_op_ctz_i32 in
  let f := if lead then clz32 else ctz32 in
  results opc [ret; a; b] (u64 (s32 (if rget rl w a =? 0 then u32 (rget rl w b) else f (u32 (rget rl w a)))))
    (if u32 (rget rl w a) =? 0 then rget rl w b else f (u32 (rget rl w a))).
Proof.
  intros Hret Ha Hb opc f.
  assert (Hd : forall op, tci_args_rrr (Emit.op_rrr op ret a b) = (ret, a, b)) by (intros; apply decode_rrr; [apply Hret | apply Ha | apply Hb]).
  unfold opc, f. clear opc f. rewrite <- !Hregs by done. destruct lead.
  - eapply results_intro; [reflexivity | apply count32_computes; [done | apply Hret | done | done | reflexivity] | | apply Hret | |].
    + change (Full.exec cfg false INDEX_op_clz_i32 ?i pc st) with
        (Full.do_rrr (fun a b => if u32 a =? 0 then b else clz32 (u32 a)) i pc st). unfold Full.do_rrr. cbn [emit]. by rewrite Hd.
    + rewrite <- !Hregs by done. apply look_head.
    + apply rd_written; [done | apply Hret].
  - eapply results_intro; [reflexivity | apply count32_computes; [done | apply Hret | done | done | reflexivity] | | apply Hret | |].
    + change (Full.exec cfg false INDEX_op_ctz_i32 ?i pc st) with
        (Full.do_rrr (fun a b => if u32 a =? 0 then b else ctz32 (u32 a)) i pc st). unfold Full.do_rrr. cbn [emit]. by rewrite Hd.
    + rewrite <- !Hregs by done. apply look_head.
    + apply rd_written; [done | apply Hret].
Qed.

(** C37: the 32-bit bit-field extractions, the 32-bit double-word addition and the 32-bit
    counts of zeros, run from any registers the compiled code and the interpreter
    share: both run to the end, and the low 32 bits of the result's register agree
    exactly when [agrees] holds of the operands. *)
Theorem miscompiled opc args : wrong_args opc args ->
  exists c i, results opc args c i /\ (u32 c = u32 i <-> agrees opc args (rget rl w) = true).
Proof.
  intros Ha. destruct opc; try done.
  - destruct args as [| ret [| a [| pos [| len []]]]]; try done. destruct Ha as (H1 & H2 & H3).
    eexists _, _. split; [exact (extract_results false ret a pos len H1 H2 H3) |]. rewrite extract_iff by done. cbn. by rewrite Z.ltb_lt.
  - destruct args as [| ret [| a [| pos [| len []]]]]; try done. destruct Ha as (H1 & H2 & H3).
    eexists _, _. split; [exact (extract_results true ret a pos len H1 H2 H3) |]. rewrite sextract_iff by done. cbn.
    by rewrite andb_true_iff, Z.leb_le, Z.ltb_lt.
  - destruct args as [| retl [| reth [| al [| ah [| bl [| bh []]]]]]]; try done. destruct Ha as (H1 & H2 & H3 & H4 & H5 & H6 & H7).
    eexists _, _. split; [exact (add2_results retl reth al ah bl bh H1 H2 H3 H4 H5 H6 H7) |]. cbv beta zeta. rewrite sum_high, add2_iff. cbn.
    symmetry. apply eqb_true_iff.
  - destruct args as [| ret [| a [| b []]]]; try done. destruct Ha as (H1 & H2 & H3).
    eexists _, _. split; [exact (count_results true ret a b H1 H2 H3) |]. apply count_iff; auto.
  - destruct args as [| ret [| a [| b []]]]; try done. destruct Ha as (H1 & H2 & H3).
    eexists _, _. split; [exact (count_results false ret a b H1 H2 H3) |]. apply count_iff; auto.
Qed.
End Results.

(** A carry out of bit 31, and a field of eight bits below other bits. *)
Module WrongDemo.
Definition registers : list Z := [0; 0; 0xffffffff; 0; 1; 0; 0xff1234; 0; 0; 0; 0; 0; 0; 0; 0; 0].
Definition e0 : est := {| env_cached := false; regs_written := 0 |}.
Definition compiled : wst := {| locs := replicate 8 0 ++ registers ++ [0]; globs := replicate 17 0; wmem := ∅ |}.
Definition interpreted : tci_state unit :=
  {| regs := registers; ctx_tb_ptr := 0; tci_tb_ptr := 0; bb_cold_ptr := 0; bb_resume_ptr := 0; bb_fast_tci_depth := 0;
     bb_force_slow_tci := 0; tmem := ∅; world := tt |}.

Lemma registers_agree r : in_reg r -> rd interpreted r = rget true compiled r /\ is_u 64 (rget true compiled r).
Proof.
  intros Hr. unfold in_reg in Hr. assert (Hc : r ∈ seqZ 0 16) by (apply elem_of_seqZ; lia).
  assert (Ha : Forall (fun r => rd interpreted r = rget true compiled r /\ is_u 64 (rget true compiled r)) (seqZ 0 16)).
  { cbn [seqZ seq fmap list_fmap Z.to_nat Pos.to_nat Pos.iter_op Nat.add]. repeat (apply Forall_cons_2; [split; [reflexivity | split; reflexivity || discriminate] |]). apply Forall_nil_2. }
  rewrite Forall_forall in Ha. apply Ha. by apply list_elem_of_In.
Qed.

Definition differs (opc : TCGOpcode) (args : list Z) : Prop :=
  exists c i, results Demo.cfg true e0 compiled interpreted 0 opc args c i /\ u32 c <> u32 i.
End WrongDemo.

Lemma miscompiled_witness :
  WrongDemo.differs INDEX_op_add2_i32 [0; 1; 2; 3; 4; 5] /\ WrongDemo.differs INDEX_op_extract_i32 [0; 6; 8; 8].
Proof.
  assert (Ha : forall r, in_reg r -> rd WrongDemo.interpreted r = rget true WrongDemo.compiled r) by (intros; by apply WrongDemo.registers_agree).
  assert (Hu : forall r, in_reg r -> is_u 64 (rget true WrongDemo.compiled r)) by (intros; by apply WrongDemo.registers_agree).
  split.
  - destruct (miscompiled Demo.cfg true WrongDemo.e0 WrongDemo.compiled WrongDemo.interpreted 0 (conj eq_refl eq_refl) eq_refl Ha Hu
      INDEX_op_add2_i32 [0; 1; 2; 3; 4; 5]) as (c & i & Hr & Hiff); [repeat split; done |].
    exists c, i. split; [exact Hr |]. rewrite Hiff. vm_compute. discriminate.
  - destruct (miscompiled Demo.cfg true WrongDemo.e0 WrongDemo.compiled WrongDemo.interpreted 0 (conj eq_refl eq_refl) eq_refl Ha Hu
      INDEX_op_extract_i32 [0; 6; 8; 8]) as (c & i & Hr & Hiff); [repeat split; done |].
    exists c, i. split; [exact Hr |]. rewrite Hiff. vm_compute. discriminate.
Defined.
