(* ===== verification/InstanceCache.v ===== *)
(** * The cache of compiled blocks

    Models the per-thread table of compiled translation blocks of tcg/wasm32.c:
    [instance_running] with its free list and clock hand, the second-chance
    eviction [remove_instance_running_local], [add_instance_running_local] and
    [get_instance_running_local].  The table is an array of slots; a block's
    export-vector slot holds the address of its table slot.

    The theorems: the table, the free list and the counters stay consistent
    under every operation; an eviction frees exactly the number of instances it
    wants within its two sweeps, frees their functions, and never evicts an
    instance that ran since the last sweep while enough idle ones exist; a slot
    is always found for a new instance; a lookup returns an instance only to the
    block it was compiled for. *)
From S2P Require Import Prelude Memory Tune TbHeader.

Record instance_info := { tb : Z; fidx : Z; used : Z }.

#[export] Instance instance_info_inhabited : Inhabited instance_info :=
  populate {| tb := 0; fidx := 0; used := 0 |}.

Definition null_info : instance_info := {| tb := 0; fidx := 0; used := 0 |}.

Definition TO_REMOVE_INSTANCE_SIZE : Z := 50000.
Definition SIZEOF_INSTANCE_INFO : Z := 12.

(** The thread's table.  [free_slots] is the stack [instance_free_slots[0 ..
    instance_free_n)], top first; [to_remove] the buffer of functions to drop;
    [freed_functions] the functions [remove_module_js] took out of the WebAssembly
    table so far. *)
Record cache := {
  instance_running : list instance_info;
  instance_slots_hw : nat;
  instance_clock_hand : nat;
  free_slots : list nat;
  to_remove : list Z;
  freed_functions : list Z;
  instance_running_local : Z;
  instance_alive_local : Z;
  instance_alive_global : Z
}.

Definition LEN : nat := Z.to_nat INSTANCE_RUNNING_LEN.

(** Thread-local storage starts zeroed. *)
Definition cache_init (alive_global : Z) : cache :=
  {| instance_running := replicate LEN null_info; instance_slots_hw := 0; instance_clock_hand := 0;
     free_slots := []; to_remove := []; freed_functions := [];
     instance_running_local := 0; instance_alive_local := 0; instance_alive_global := alive_global |}.

Definition can_add_instance (t : tune) (c : cache) : bool :=
  instance_alive_global c <? t wasm_max_instance_alive.

(** Assignments to one field, and to the three counters at once. *)
Definition set_running (v : list instance_info) (c : cache) : cache :=
  {| instance_running := v; instance_slots_hw := instance_slots_hw c; instance_clock_hand :=
     instance_clock_hand c; free_slots := free_slots c; to_remove := to_remove c;
     freed_functions := freed_functions c; instance_running_local := instance_running_local
     c; instance_alive_local := instance_alive_local c; instance_alive_global :=
     instance_alive_global c |}.

Definition set_hw (v : nat) (c : cache) : cache :=
  {| instance_running := instance_running c; instance_slots_hw := v; instance_clock_hand :=
     instance_clock_hand c; free_slots := free_slots c; to_remove := to_remove c;
     freed_functions := freed_functions c; instance_running_local := instance_running_local
     c; instance_alive_local := instance_alive_local c; instance_alive_global :=
     instance_alive_global c |}.

Definition set_hand (v : nat) (c : cache) : cache :=
  {| instance_running := instance_running c; instance_slots_hw := instance_slots_hw c;
     instance_clock_hand := v; free_slots := free_slots c; to_remove := to_remove c;
     freed_functions := freed_functions c; instance_running_local := instance_running_local
     c; instance_alive_local := instance_alive_local c; instance_alive_global :=
     instance_alive_global c |}.

Definition set_free (v : list nat) (c : cache) : cache :=
  {| instance_running := instance_running c; instance_slots_hw := instance_slots_hw c;
     instance_clock_hand := instance_clock_hand c; free_slots := v; to_remove := to_remove
     c; freed_functions := freed_functions c; instance_running_local :=
     instance_running_local c; instance_alive_local := instance_alive_local c;
     instance_alive_global := instance_alive_global c |}.

Definition set_to_remove (v : list Z) (c : cache) : cache :=
  {| instance_running := instance_running c; instance_slots_hw := instance_slots_hw c;
     instance_clock_hand := instance_clock_hand c; free_slots := free_slots c; to_remove :=
     v; freed_functions := freed_functions c; instance_running_local :=
     instance_running_local c; instance_alive_local := instance_alive_local c;
     instance_alive_global := instance_alive_global c |}.

Definition set_freed (v : list Z) (c : cache) : cache :=
  {| instance_running := instance_running c; instance_slots_hw := instance_slots_hw c;
     instance_clock_hand := instance_clock_hand c; free_slots := free_slots c; to_remove :=
     to_remove c; freed_functions := v; instance_running_local := instance_running_local c;
     instance_alive_local := instance_alive_local c; instance_alive_global :=
     instance_alive_global c |}.

Definition add_counts (d : Z) (c : cache) : cache :=
  {| instance_running := instance_running c; instance_slots_hw := instance_slots_hw c;
     instance_clock_hand := instance_clock_hand c; free_slots := free_slots c; to_remove :=
     to_remove c; freed_functions := freed_functions c; instance_running_local :=
     instance_running_local c + d; instance_alive_local := instance_alive_local c + d;
     instance_alive_global := instance_alive_global c + d |}.

(** [instance_running[i] = e]. *)
Definition set_slot (i : nat) (e : instance_info) (c : cache) : cache :=
  set_running (<[i := e]> (instance_running c)) c.

(** ** Eviction *)

(** [++instance_clock_hand], wrapping at the high-water mark. *)
Definition next_hand (c : cache) : nat :=
  if (instance_slots_hw c <=? S (instance_clock_hand c))%nat then O else S (instance_clock_hand c).

(** One iteration of the sweep: the slot under the hand is skipped when empty,
    given its second chance when used, and evicted otherwise. *)
Definition sweep_step (c : cache) : cache * nat :=
  let idx := instance_clock_hand c in
  let e := instance_running c !!! idx in
  let c := set_hand (next_hand c) c in
  if tb e =? 0 then (c, O)
  else if negb (used e =? 0) then (set_slot idx {| tb := tb e; fidx := fidx e; used := 0 |} c, O)
  else
    let c := set_slot idx {| tb := 0; fidx := fidx e; used := used e |} c in
    let c := set_to_remove (to_remove c ++ [fidx e]) c in
    (set_free (idx :: free_slots c) c, 1%nat).

(** The [for] loop: [n] is the iterations left of [2 * instance_slots_hw]. *)
Fixpoint sweep (n : nat) (want freed : nat) (c : cache) : cache * nat :=
  match n with
  | O => (c, freed)
  | S n =>
      if (freed <? want)%nat then
        let '(c, f) := sweep_step c in sweep n want (freed + f) c
      else (c, freed)
  end.

(** How many instances an eviction wants: an eighth, or all of fewer than 8. *)
Definition evict_want (running : Z) : Z :=
  let want := Z.quot running 8 in
  if want <? 1 then running else want.

(** The functions in the buffer leave the WebAssembly table. *)
Definition remove_module_js (c : cache) : cache :=
  set_to_remove [] (set_freed (freed_functions c ++ to_remove c) c).

Definition remove_instance_running_local (c : cache) : cache :=
  let want := Z.to_nat (evict_want (instance_running_local c)) in
  let '(c, freed) := sweep (2 * instance_slots_hw c) want 0 c in
  let c := match to_remove c with [] => c | _ => remove_module_js c end in
  add_counts (- Z.of_nat freed) c.

(** ** Insertion and lookup *)

Section Slots.
(** [&instance_running[0]], the thread's slot offsets and the tunables. *)
Context (base : Z) (th : wthread) (t : tune).

Definition slot_addr_of (i : nat) : Z := base + SIZEOF_INSTANCE_INFO * Z.of_nat i.

(** The table slot a pointer denotes; [None] for any other address. *)
Definition slot_index (p : Z) : option nat :=
  let d := p - base in
  if (0 <=? d) && (d mod SIZEOF_INSTANCE_INFO =? 0) && (d / SIZEOF_INSTANCE_INFO <? INSTANCE_RUNNING_LEN)
  then Some (Z.to_nat (d / SIZEOF_INSTANCE_INFO)) else None.

(** Takes a slot: from the free list, or the next one never used. *)
Definition take_slot (c : cache) : nat * cache :=
  match free_slots c with
  | idx :: rest => (idx, set_free rest c)
  | [] => (instance_slots_hw c, set_hw (S (instance_slots_hw c)) c)
  end.

(** The eviction before an insertion into a full table. *)
Definition make_room (c : cache) : cache :=
  match free_slots c with
  | [] => if (LEN <=? instance_slots_hw c)%nat then remove_instance_running_local c else c
  | _ => c
  end.

(** [add_instance_running_local]; [None]: the slot would be outside the table,
    or the block's header outside the memory. *)
Definition add_instance_running_local (f tb_ptr : Z) (c : cache) (m : mem) : option (cache * mem) :=
  let '(idx, c) := take_slot (make_room c) in
  if (LEN <=? idx)%nat then None
  else
    let c := set_slot idx {| tb := tb_ptr; fidx := f; used := 1 |} c in
    m ← store32 m (u32 (tb_ptr + export_vec_off th)) (slot_addr_of idx);
    Some (add_counts 1 c, m).

(** [get_instance_running_local]: the compiled function of the block on this
    thread, or 0; a slot taken over by another block resets the export slot and
    makes the block compile at once. *)
Definition get_instance_running_local (tb_ptr : Z) (c : cache) (m : mem) : option (Z * cache * mem) :=
  elm ← load32 m (u32 (tb_ptr + export_vec_off th));
  if elm =? 0 then Some (0, c, m)
  else
    i ← slot_index elm;
    let e := instance_running c !!! i in
    if negb (tb e =? tb_ptr) then
      m ← store32 m (u32 (tb_ptr + export_vec_off th)) 0;
      m ← store32 m (u32 (tb_ptr + counter_vec_off th)) (t wasm_instantiate_num);
      Some (0, c, m)
    else Some (fidx e, set_slot i {| tb := tb e; fidx := fidx e; used := 1 |} c, m).

End Slots.

(** ** The invariant *)

Definition live (e : instance_info) : bool := negb (tb e =? 0).

(** Live instances that ran, or did not run, since the hand last passed. *)
Definition idle (e : instance_info) : bool := live e && (used e =? 0).

Definition live_count (c : cache) : nat := countb live (instance_running c).

(** Table, free list, hand and buffer fit together; holds also inside a sweep. *)
Record table_ok (c : cache) : Prop := {
  ok_length : length (instance_running c) = LEN;
  ok_hw : (instance_slots_hw c <= LEN)%nat;
  ok_hand : (instance_clock_hand c < instance_slots_hw c)%nat \/
            (instance_clock_hand c = O /\ instance_slots_hw c = O);
  ok_unused : forall i e, instance_running c !! i = Some e -> (instance_slots_hw c <= i)%nat -> live e = false;
  ok_free : forall i, i ∈ free_slots c <->
              (i < instance_slots_hw c)%nat /\ exists e, instance_running c !! i = Some e /\ live e = false;
  ok_free_nodup : NoDup (free_slots c)
}.

(** Between operations also the counters agree and the buffer is empty. *)
Record cache_ok (c : cache) : Prop := {
  ok_table : table_ok c;
  ok_running : instance_running_local c = Z.of_nat (live_count c);
  ok_alive : instance_alive_local c = instance_running_local c;
  ok_buffer : to_remove c = []
}.

(** ** One step of the sweep *)

Lemma running_lookup c i :
  length (instance_running c) = LEN -> (i < LEN)%nat ->
  instance_running c !! i = Some (instance_running c !!! i).
Proof. intros Hl Hi. apply list_lookup_lookup_total_lt. lia. Qed.

Lemma next_hand_ok c :
  (instance_clock_hand c < instance_slots_hw c)%nat ->
  (next_hand c < instance_slots_hw c)%nat.
Proof. unfold next_hand. destruct (Nat.leb_spec (instance_slots_hw c) (S (instance_clock_hand c))); lia. Qed.

(** Replacing a live slot by a live one keeps the table consistent; emptying it
    needs the slot on the free list. *)
Lemma table_ok_relabel c i e e' :
  table_ok c -> instance_running c !! i = Some e -> live e = live e' -> table_ok (set_slot i e' c).
Proof.
  intros [H1 H2 H3 H4 H5 H6] Hi He. split; cbn [set_slot set_running instance_running instance_slots_hw
    instance_clock_hand free_slots]; try done.
  - by rewrite length_insert.
  - intros j x Hj Hlt. apply list_lookup_insert_Some in Hj as [(-> & <- & _) | [_ Hj]]; [| by eapply H4].
    rewrite <- He. by eapply H4.
  - intros j. rewrite H5. apply and_iff_compat_l. split; intros (x & Hx & Hlx).
    + destruct (decide (j = i)) as [-> | Hn].
      * exists e'. rewrite list_lookup_insert_eq by (by eapply lookup_lt_Some). split; [done | congruence].
      * exists x. by rewrite list_lookup_insert_ne.
    + apply list_lookup_insert_Some in Hx as [(-> & <- & _) | [_ Hx]]; [| by exists x].
      exists e. split; [done | congruence].
Qed.

Lemma table_ok_hand c h :
  table_ok c -> (h < instance_slots_hw c)%nat -> table_ok (set_hand h c).
Proof. intros [H1 H2 H3 H4 H5 H6] Hh. split; try done. by left. Qed.

Lemma table_ok_to_remove c l : table_ok c -> table_ok (set_to_remove l c).
Proof. intros [H1 H2 H3 H4 H5 H6]. by split. Qed.

Lemma table_ok_counts c d : table_ok c -> table_ok (add_counts d c).
Proof. intros [H1 H2 H3 H4 H5 H6]. by split. Qed.

Lemma table_ok_evict c i e e' :
  table_ok c -> (i < instance_slots_hw c)%nat -> instance_running c !! i = Some e ->
  live e = true -> live e' = false ->
  table_ok (set_free (i :: free_slots c) (set_slot i e' c)).
Proof.
  intros [H1 H2 H3 H4 H5 H6] Hlt Hi He He'. split; cbn [set_free set_slot set_running instance_running
    instance_slots_hw instance_clock_hand free_slots]; try done.
  - by rewrite length_insert.
  - intros j x Hj Hj'. apply list_lookup_insert_Some in Hj as [(-> & <- & _) | [_ Hj]]; [done | by eapply H4].
  - intros j. rewrite elem_of_cons, H5. split.
    + intros [-> | [Hj (x & Hx & Hlx)]].
      * split; [done |]. exists e'. by rewrite list_lookup_insert_eq by (by eapply lookup_lt_Some).
      * split; [done |]. exists x. rewrite list_lookup_insert_ne; [done |]. intros ->. congruence.
    + intros [Hj (x & Hx & Hlx)]. destruct (decide (j = i)) as [-> | Hn]; [by left | right].
      rewrite list_lookup_insert_ne in Hx by done. eauto.
  - constructor; [| done]. rewrite H5. intros [_ (x & Hx & Hlx)]. congruence.
Qed.

(** What a step does not touch. *)
Definition same_books (c c' : cache) : Prop :=
  instance_slots_hw c' = instance_slots_hw c /\ freed_functions c' = freed_functions c /\
  instance_running_local c' = instance_running_local c /\
  instance_alive_local c' = instance_alive_local c /\
  instance_alive_global c' = instance_alive_global c.

(** The three cases of a step. *)
Lemma sweep_step_cases c :
  let idx := instance_clock_hand c in
  let e := instance_running c !!! idx in
  let c0 := set_hand (next_hand c) c in
  (live e = false /\ sweep_step c = (c0, O)) \/
  (live e = true /\ used e <> 0 /\
   sweep_step c = (set_slot idx {| tb := tb e; fidx := fidx e; used := 0 |} c0, O)) \/
  (idle e = true /\
   sweep_step c =
   (set_free (idx :: free_slots c)
      (set_to_remove (to_remove c ++ [fidx e])
         (set_slot idx {| tb := 0; fidx := fidx e; used := used e |} c0)), 1%nat)).
Proof.
  cbv zeta. unfold sweep_step, idle, live. set (e := instance_running c !!! instance_clock_hand c).
  destruct (Z.eqb_spec (tb e) 0); cbn [negb]; [by left |].
  destruct (Z.eqb_spec (used e) 0); cbn [negb]; right; [right | left]; done.
Qed.

Lemma sweep_step_ok c c' f :
  table_ok c -> (instance_clock_hand c < instance_slots_hw c)%nat -> sweep_step c = (c', f) ->
  table_ok c' /\ same_books c c' /\ (live_count c' + f = live_count c)%nat /\
  length (to_remove c') = (length (to_remove c) + f)%nat /\
  (instance_clock_hand c' < instance_slots_hw c')%nat.
Proof.
  intros Hok Hh Es. pose proof (next_hand_ok c Hh) as Hn. pose proof (table_ok_hand c _ Hok Hn) as Hok0.
  set (idx := instance_clock_hand c) in *. set (e := instance_running c !!! idx).
  assert (Hi : instance_running c !! idx = Some e)
    by (apply running_lookup; [apply Hok | pose proof (ok_hw c Hok); lia]).
  assert (Hcnt : forall e', (countb live (<[idx := e']> (instance_running c)) + (if live e then 1 else 0)
                   = live_count c + (if live e' then 1 else 0))%nat)
    by (intros e'; by apply countb_insert).
  destruct (sweep_step_cases c) as [[He E] | [(He & Hu & E) | [He E]]]; fold idx e in He, E;
    rewrite E in Es; injection Es as <- <-.
  - split_and!; try done; cbn; lia.
  - split; [| split; [done | split]].
    + by eapply (table_ok_relabel _ _ e).
    + specialize (Hcnt {| tb := tb e; fidx := fidx e; used := 0 |}). unfold live_count in *.
      cbn [set_slot set_hand set_running instance_running] in *. unfold live in Hcnt at 2 4. cbn [tb] in Hcnt.
      fold (live e) in Hcnt. lia.
    + split; [cbn; lia | done].
  - apply andb_true_iff in He as [He Hu]. split; [| split; [done | split]].
    + exact (table_ok_to_remove _ _ (table_ok_evict (set_hand (next_hand c) c) idx e
        {| tb := 0; fidx := fidx e; used := used e |} Hok0 Hh Hi He eq_refl)).
    + specialize (Hcnt {| tb := 0; fidx := fidx e; used := used e |}). unfold live_count in *.
      cbn [set_slot set_hand set_running set_free set_to_remove instance_running] in *.
      rewrite He in Hcnt. change (live {| tb := 0; fidx := fidx e; used := used e |}) with false in Hcnt.
      cbv iota in Hcnt. lia.
    + split; [cbn; rewrite length_app; cbn; lia | done].
Qed.

(** ** The whole sweep *)

Lemma sweep_ok n want freed c c' freed' :
  table_ok c -> ((instance_clock_hand c < instance_slots_hw c)%nat \/ n = O) ->
  sweep n want freed c = (c', freed') ->
  table_ok c' /\ same_books c c' /\ (live_count c' + freed' = live_count c + freed)%nat /\
  (length (to_remove c') + freed = length (to_remove c) + freed')%nat /\
  (freed <= freed')%nat /\ ((freed <= want)%nat -> (freed' <= want)%nat).
Proof.
  revert freed c; induction n as [| n IH]; intros freed c Hok Hh; cbn [sweep].
  { intros [= <- <-]. split_and!; try done; lia. }
  destruct (Nat.ltb_spec freed want) as [Hlt | Hge].
  2: { intros [= <- <-]. split_and!; try done. }
  destruct (sweep_step c) as [c1 f] eqn:E. intros Hs.
  assert (Hf : (f <= 1)%nat).
  { destruct (sweep_step_cases c) as [[_ E'] | [(_ & _ & E') | [_ E']]]; rewrite E in E'; apply (f_equal snd) in E'; cbn in E'; lia. }
  destruct (sweep_step_ok c c1 f Hok ltac:(destruct Hh; [done | lia]) E) as (Hok1 & Hb1 & Hl1 & Ht1 & Hh1).
  destruct (IH (freed + f)%nat c1 Hok1 (or_introl Hh1) Hs) as (Hok' & Hb' & Hl' & Ht' & Hle & Hw).
  split_and!; [done | | lia | lia | lia | lia].
  unfold same_books in *. destruct_and!. split_and!; congruence.
Qed.

(** Steps until the hand reaches slot [i]. *)
Definition dist (hw hand i : nat) : nat := if (hand <=? i)%nat then (i - hand)%nat else (i + hw - hand)%nat.

(** Steps until a live slot is evicted if nothing stops the sweep: one visit for
    an idle instance, two for one that ran. *)
Definition steps_left (c : cache) (i : nat) (e : instance_info) : nat :=
  S (dist (instance_slots_hw c) (instance_clock_hand c) i + (if used e =? 0 then 0 else instance_slots_hw c)).

Definition evictable_within (c : cache) (n : nat) : Prop :=
  forall i e, instance_running c !! i = Some e -> live e = true -> (steps_left c i e <= n)%nat.

Lemma dist_next c i :
  (instance_clock_hand c < instance_slots_hw c)%nat -> (i < instance_slots_hw c)%nat ->
  dist (instance_slots_hw c) (next_hand c) i =
  if decide (i = instance_clock_hand c) then (instance_slots_hw c - 1)%nat
  else (dist (instance_slots_hw c) (instance_clock_hand c) i - 1)%nat.
Proof.
  intros Hh Hi. unfold dist, next_hand. case_decide as Hd.
  - destruct (Nat.leb_spec (instance_slots_hw c) (S (instance_clock_hand c)));
      repeat match goal with |- context [(?a <=? ?b)%nat] => destruct (Nat.leb_spec a b) end; lia.
  - destruct (Nat.leb_spec (instance_slots_hw c) (S (instance_clock_hand c)));
      repeat match goal with |- context [(?a <=? ?b)%nat] => destruct (Nat.leb_spec a b) end; lia.
Qed.

Lemma dist_pos hw hand i : i <> hand -> (hand < hw)%nat -> (1 <= dist hw hand i)%nat.
Proof. intros. unfold dist. destruct (Nat.leb_spec hand i); lia. Qed.

Lemma dist_lt hw hand i : (hand < hw)%nat -> (i < hw)%nat -> (dist hw hand i < hw)%nat.
Proof. intros. unfold dist. destruct (Nat.leb_spec hand i); lia. Qed.

(** Where a step leaves the other slots, and the one under the hand. *)
Lemma sweep_step_slots c c' f i e' :
  table_ok c -> (instance_clock_hand c < instance_slots_hw c)%nat -> sweep_step c = (c', f) ->
  instance_running c' !! i = Some e' -> live e' = true ->
  instance_clock_hand c' = next_hand c /\ instance_slots_hw c' = instance_slots_hw c /\
  ((i <> instance_clock_hand c /\ instance_running c !! i = Some e') \/
   (i = instance_clock_hand c /\ used e' = 0 /\
    exists e, instance_running c !! i = Some e /\ live e = true /\ used e <> 0 /\
              tb e' = tb e /\ fidx e' = fidx e)).
Proof.
  intros Hok Hh Es Hi' Hl. set (idx := instance_clock_hand c) in *. set (e := instance_running c !!! idx).
  assert (Hi : instance_running c !! idx = Some e)
    by (apply running_lookup; [apply Hok | pose proof (ok_hw c Hok); lia]).
  destruct (sweep_step_cases c) as [[He E] | [(He & Hu & E) | [He E]]]; fold idx e in He, E;
    rewrite E in Es; injection Es as <- <-; (split; [done | split; [done |]]).
  - left. split; [| done]. intros ->. cbn in Hi'. congruence.
  - cbn [set_slot set_hand set_running instance_running] in Hi'.
    apply list_lookup_insert_Some in Hi' as [(<- & <- & _) | [Hn Hi']]; [right | by left].
    split_and!; [done | done |]. exists e. done.
  - cbn [set_free set_to_remove set_slot set_hand set_running instance_running] in Hi'.
    apply list_lookup_insert_Some in Hi' as [(<- & <- & _) | [Hn Hi']]; [done | by left].
Qed.

Lemma live_below_hw c i e :
  table_ok c -> instance_running c !! i = Some e -> live e = true -> (i < instance_slots_hw c)%nat.
Proof.
  intros Hok Hi Hl. destruct (decide (i < instance_slots_hw c)%nat) as [| Hn]; [done |].
  rewrite (ok_unused c Hok i e Hi) in Hl by lia. done.
Qed.

(** Each step brings every live instance closer to its eviction. *)
Lemma evictable_step c c' f n :
  table_ok c -> (instance_clock_hand c < instance_slots_hw c)%nat -> sweep_step c = (c', f) ->
  evictable_within c (S n) -> evictable_within c' n.
Proof.
  intros Hok Hh Es H i e' Hi' Hl'.
  destruct (sweep_step_slots c c' f i e' Hok Hh Es Hi' Hl')
    as (Eh & Ehw & [[Hn Hi] | (Hc & Hu & e & Hi & Hl & Hu' & _)]);
    unfold steps_left; rewrite Eh, Ehw.
  - pose proof (live_below_hw c i e' Hok Hi Hl') as Hlt. specialize (H i e' Hi Hl'). unfold steps_left in H.
    rewrite dist_next by done. rewrite decide_False by done.
    pose proof (dist_pos (instance_slots_hw c) _ i Hn Hh). lia.
  - pose proof (live_below_hw c i e Hok Hi Hl) as Hlt. specialize (H i e Hi Hl). unfold steps_left in H.
    rewrite dist_next by done. rewrite decide_True by done. rewrite Hu. cbn [Z.eqb].
    destruct (Z.eqb_spec (used e) 0); [done |]. lia.
Qed.

Lemma evictable_initially c :
  table_ok c -> evictable_within c (2 * instance_slots_hw c).
Proof.
  intros Hok i e Hi Hl. pose proof (live_below_hw c i e Hok Hi Hl) as Hlt.
  assert (Hh : (instance_clock_hand c < instance_slots_hw c)%nat) by (destruct (ok_hand c Hok); lia).
  pose proof (dist_lt _ _ i Hh Hlt). unfold steps_left. destruct (used e =? 0); lia.
Qed.

Lemma no_live_count c : evictable_within c 0 -> live_count c = O.
Proof.
  intros H. unfold live_count. assert (Hf : forall e, e ∈ instance_running c -> live e = false).
  { intros e He. apply list_elem_of_lookup_1 in He as [i Hi]. destruct (live e) eqn:El; [| done].
    specialize (H i e Hi El). unfold steps_left in H. lia. }
  induction (instance_running c) as [| e l IH]; cbn; [done |].
  rewrite Hf by (by left). apply IH. intros x Hx. apply Hf. by right.
Qed.

(** The sweep stops because it freed enough, or because nothing is live. *)
Lemma sweep_enough n want freed c c' freed' :
  table_ok c -> ((instance_clock_hand c < instance_slots_hw c)%nat \/ n = O) ->
  evictable_within c n -> sweep n want freed c = (c', freed') ->
  (want <= freed')%nat \/ live_count c' = O.
Proof.
  revert freed c; induction n as [| n IH]; intros freed c Hok Hh He; cbn [sweep].
  { intros [= <- <-]. right. by apply no_live_count. }
  destruct (Nat.ltb_spec freed want) as [Hlt | Hge]; [| intros [= <- <-]; by left].
  destruct (sweep_step c) as [c1 f] eqn:E.
  assert (Hh0 : (instance_clock_hand c < instance_slots_hw c)%nat) by (destruct Hh; [done | lia]).
  destruct (sweep_step_ok c c1 f Hok Hh0 E) as (Hok1 & _ & _ & _ & Hh1).
  apply IH; [done | by left | exact (evictable_step c c1 f n Hok Hh0 E He)].
Qed.

(** ** Second chances *)

(** The instances that were idle before the sweep and are still there. *)
Definition pending (l0 : list instance_info) (c : cache) : nat :=
  countb (fun i => idle (l0 !!! i) && live (instance_running c !!! i)) (seq 0 LEN).

(** Progress of the first round after [j] steps, with [freed] evictions: slots
    that ran are all live and those already visited lie behind the hand; idle
    slots left lie ahead of it; every eviction took an idle one. *)
Record first_round (l0 : list instance_info) (c : cache) (j freed : nat) : Prop := {
  fr_used : forall i e0, l0 !! i = Some e0 -> live e0 = true -> used e0 <> 0 ->
    exists e, instance_running c !! i = Some e /\ tb e = tb e0 /\ fidx e = fidx e0 /\
      (used e <> 0 \/ (instance_slots_hw c <= dist (instance_slots_hw c) (instance_clock_hand c) i + j)%nat);
  fr_idle : forall i e0 e, l0 !! i = Some e0 -> idle e0 = true -> instance_running c !! i = Some e ->
    live e = true -> used e = 0 /\
      (dist (instance_slots_hw c) (instance_clock_hand c) i + j < instance_slots_hw c)%nat;
  fr_dead : forall i e0 e, l0 !! i = Some e0 -> live e0 = false -> instance_running c !! i = Some e -> live e = false;
  fr_freed : (freed + pending l0 c = countb idle l0)%nat
}.

Lemma countb_ext {A} (p q : A -> bool) l : (forall x, x ∈ l -> p x = q x) -> countb p l = countb q l.
Proof.
  induction l as [| x l IH]; intros H; cbn; [done |].
  rewrite (H x), IH; [done | | by left]. intros y Hy. apply H. by right.
Qed.

Lemma countb_seq_shift (p : nat -> bool) a n : countb p (seq (S a) n) = countb (fun i => p (S i)) (seq a n).
Proof. revert a; induction n as [| n IH]; intros a; cbn; [done |]. by rewrite IH. Qed.

(** Counting a list by its indices. *)
Lemma countb_index {A} `{!Inhabited A} (p : A -> bool) l :
  countb (fun i => p (l !!! i)) (seq 0 (length l)) = countb p l.
Proof.
  induction l as [| x l IH]; [done |]. cbn [length seq countb]. rewrite countb_seq_shift.
  f_equal. rewrite <- IH. done.
Qed.

(** Changing a predicate at one index changes the count by that index. *)
Lemma countb_seq_change (p q : nat -> bool) n k :
  (k < n)%nat -> (forall i, i <> k -> p i = q i) ->
  (countb p (seq 0 n) + (if q k then 1 else 0) = countb q (seq 0 n) + (if p k then 1 else 0))%nat.
Proof.
  intros Hk H. assert (E : seq 0 n = seq 0 k ++ [k] ++ seq (S k) (n - S k)).
  { replace n with (k + S (n - S k))%nat at 1 by lia. by rewrite seq_app. }
  rewrite E, !countb_app. cbn [countb].
  rewrite (countb_ext p q (seq 0 k)), (countb_ext p q (seq (S k) _)); [lia | |];
    intros i Hi; apply H; apply elem_of_seq in Hi; lia.
Qed.

Lemma first_round_start c :
  table_ok c -> first_round (instance_running c) c 0 0.
Proof.
  intros Hok. split.
  - intros i e Hi Hl Hu. exists e. split_and!; try done. by left.
  - intros i e0 e Hi He Hi' Hl. rewrite Hi in Hi'. injection Hi' as <-.
    apply andb_true_iff in He as [_ Hu]. apply Z.eqb_eq in Hu. split; [done |].
    pose proof (live_below_hw c i e0 Hok Hi Hl) as Hlt.
    assert (Hh : (instance_clock_hand c < instance_slots_hw c)%nat) by (destruct (ok_hand c Hok); lia).
    pose proof (dist_lt _ _ i Hh Hlt). lia.
  - intros i e0 e Hi Hl Hi'. congruence.
  - cbn [plus]. unfold pending. rewrite <- (countb_index idle (instance_running c)), (ok_length c Hok).
    apply countb_ext. intros i _. unfold idle. by destruct (live _), (used _ =? 0).
Qed.

(** The dist of another slot after a step, in the terms of [first_round]. *)
Lemma dist_step c j i :
  (instance_clock_hand c < instance_slots_hw c)%nat -> (i < instance_slots_hw c)%nat ->
  i <> instance_clock_hand c ->
  (dist (instance_slots_hw c) (next_hand c) i + S j =
   dist (instance_slots_hw c) (instance_clock_hand c) i + j)%nat.
Proof.
  intros Hh Hi Hn. rewrite dist_next, decide_False by done.
  pose proof (dist_pos (instance_slots_hw c) _ i Hn Hh). lia.
Qed.

(** A slot other than the one under the hand is untouched. *)
Lemma sweep_step_other c c' f i :
  sweep_step c = (c', f) -> i <> instance_clock_hand c ->
  instance_running c' !! i = instance_running c !! i.
Proof.
  intros Es Hn. destruct (sweep_step_cases c) as [[_ E] | [(_ & _ & E) | [_ E]]];
    rewrite E in Es; injection Es as <- _; cbn; try done; by rewrite list_lookup_insert_ne.
Qed.

Lemma sweep_step_hand c c' f :
  sweep_step c = (c', f) ->
  instance_clock_hand c' = next_hand c /\ instance_slots_hw c' = instance_slots_hw c.
Proof.
  intros Es. destruct (sweep_step_cases c) as [[_ E] | [(_ & _ & E) | [_ E]]];
    rewrite E in Es; by injection Es as <- _.
Qed.

(** In the first round only idle instances are evicted. *)
Lemma first_round_evicts l0 c j freed e :
  length l0 = LEN -> table_ok c -> (instance_clock_hand c < instance_slots_hw c)%nat ->
  first_round l0 c j freed -> (j < instance_slots_hw c)%nat ->
  instance_running c !! instance_clock_hand c = Some e -> idle e = true ->
  idle (l0 !!! instance_clock_hand c) = true.
Proof.
  intros Hl0 Hok Hh [F1 F2 F3 F4] Hj Hi He. apply andb_true_iff in He as [Hl Hu]. apply Z.eqb_eq in Hu.
  set (idx := instance_clock_hand c) in *. pose proof (ok_hw c Hok).
  assert (Hi0 : l0 !! idx = Some (l0 !!! idx)) by (apply list_lookup_lookup_total_lt; lia).
  destruct (live (l0 !!! idx)) eqn:E0; [| by rewrite (F3 _ _ _ Hi0 E0 Hi) in Hl].
  unfold idle. rewrite E0. cbn [andb]. destruct (Z.eqb_spec (used (l0 !!! idx)) 0) as [| Hn]; [done |].
  destruct (F1 _ _ Hi0 E0 Hn) as (e' & Hi' & _ & _ & Hd). rewrite Hi in Hi'. injection Hi' as <-.
  destruct Hd as [Hd | Hd]; [done |]. unfold dist, idx in Hd. rewrite Nat.leb_refl in Hd. lia.
Qed.

Lemma pending_step l0 c c' f :
  table_ok c -> (instance_clock_hand c < instance_slots_hw c)%nat -> sweep_step c = (c', f) ->
  (idle (instance_running c !!! instance_clock_hand c) = true -> idle (l0 !!! instance_clock_hand c) = true) ->
  (f + pending l0 c' = pending l0 c)%nat.
Proof.
  intros Hok Hh Es Hidle. pose proof (ok_hw c Hok). pose proof (ok_length c Hok).
  set (idx := instance_clock_hand c) in *. set (e := instance_running c !!! idx) in *.
  assert (Hlen : forall x, <[idx := x]> (instance_running c) !!! idx = x)
    by (intros x; apply list_lookup_total_insert_eq; lia).
  assert (Hoth : forall i, i <> idx -> instance_running c' !!! i = instance_running c !!! i).
  { intros i Hn. rewrite !list_lookup_total_alt. by rewrite (sweep_step_other c c' f i Es Hn). }
  assert (Hch : (pending l0 c' + (if idle (l0 !!! idx) && live e then 1 else 0) =
    pending l0 c + (if idle (l0 !!! idx) && live (instance_running c' !!! idx) then 1 else 0))%nat).
  { apply (countb_seq_change (fun i => idle (l0 !!! i) && live (instance_running c' !!! i))
      (fun i => idle (l0 !!! i) && live (instance_running c !!! i))); [lia |].
    intros i Hn. by rewrite (Hoth i Hn). }
  destruct (sweep_step_cases c) as [[He E] | [(He & Hu & E) | [He E]]]; fold idx e in He, E;
    rewrite E in Es; injection Es as <- <-;
    cbn [set_free set_to_remove set_slot set_hand set_running instance_running] in Hch; rewrite ?Hlen in Hch.
  - fold e in Hch. lia.
  - change (live {| tb := tb e; fidx := fidx e; used := 0 |}) with (live e) in Hch. lia.
  - rewrite (Hidle He) in Hch. apply andb_true_iff in He as [He _]. rewrite He in Hch.
    change (live {| tb := 0; fidx := fidx e; used := used e |}) with false in Hch. cbn [andb] in Hch. lia.
Qed.

Lemma first_round_step l0 c c' f j freed :
  length l0 = LEN -> table_ok c -> (instance_clock_hand c < instance_slots_hw c)%nat ->
  first_round l0 c j freed -> (j < instance_slots_hw c)%nat -> sweep_step c = (c', f) ->
  first_round l0 c' (S j) (freed + f).
Proof.
  intros Hl0 Hok Hh F Hj Es. set (idx := instance_clock_hand c) in *.
  set (e := instance_running c !!! idx). pose proof (ok_hw c Hok) as Hhw.
  assert (Hi : instance_running c !! idx = Some e) by (apply running_lookup; [apply Hok | lia]).
  pose proof (fun H => first_round_evicts l0 c j freed e Hl0 Hok Hh F Hj Hi H) as Hev.
  pose proof (pending_step l0 c c' f Hok Hh Es Hev) as Hp. destruct F as [F1 F2 F3 F4].
  destruct (sweep_step_hand c c' f Es) as [Eh Ehw].
  assert (Hd : forall i, (i < instance_slots_hw c)%nat -> i <> idx ->
    (dist (instance_slots_hw c') (instance_clock_hand c') i + S j =
     dist (instance_slots_hw c) idx i + j)%nat) by (intros; rewrite Eh, Ehw; by apply dist_step).
  split.
  - intros i e0 Hi0 Hl Hu. destruct (F1 i e0 Hi0 Hl Hu) as (x & Hx & Htb & Hfi & Hdx).
    assert (Hlx : live x = true) by (unfold live in *; by rewrite Htb).
    pose proof (live_below_hw c i x Hok Hx Hlx) as Hlt. destruct (decide (i = idx)) as [-> | Hn].
    + rewrite Hi in Hx. injection Hx as <-.
      destruct (sweep_step_cases c) as [[He E] | [(He & Hu' & E) | [He E]]]; fold idx e in He, E; [congruence | |].
      * rewrite E in Es. injection Es as <- _.
        exists {| tb := tb e; fidx := fidx e; used := 0 |}. cbn [set_slot set_hand set_running instance_running
          instance_slots_hw instance_clock_hand tb fidx used].
        rewrite list_lookup_insert_eq by (rewrite (ok_length c Hok); lia). split_and!; [done.. |]. right.
        rewrite dist_next, decide_True by done. lia.
      * exfalso. specialize (Hev He). rewrite (list_lookup_total_correct _ _ _ Hi0) in Hev.
        apply andb_true_iff in Hev as [_ Hev]. apply Z.eqb_eq in Hev. done.
    + exists x. rewrite (sweep_step_other c c' f i Es Hn), Hd, Ehw by done. done.
  - intros i e0 x Hi0 He0 Hx Hlx.
    destruct (sweep_step_slots c c' f i x Hok Hh Es Hx Hlx)
      as (_ & _ & [[Hn Hxi] | (-> & _ & y & Hy & Hly & Huy & _)]).
    + rewrite Hd, Ehw by (done || by eapply live_below_hw). by eapply F2.
    + destruct (F2 _ e0 y Hi0 He0 Hy Hly) as [? _]. done.
  - intros i e0 x Hi0 Hl0' Hx. destruct (live x) eqn:Elx; [| done].
    destruct (sweep_step_slots c c' f i x Hok Hh Es Hx Elx)
      as (_ & _ & [[Hn Hxi] | (-> & _ & y & Hy & Hly & _)]).
    + by rewrite (F3 _ _ _ Hi0 Hl0' Hxi) in Elx.
    + by rewrite (F3 _ _ _ Hi0 Hl0' Hy) in Hly.
  - lia.
Qed.

(** While idle instances remain to be taken, the sweep is in its first round. *)
Lemma pending_first_round l0 c j freed :
  length l0 = LEN -> table_ok c -> first_round l0 c j freed ->
  (freed < countb idle l0)%nat -> (j < instance_slots_hw c)%nat.
Proof.
  intros Hl0 Hok [_ F2 _ F4] Hf. destruct (decide (j < instance_slots_hw c)%nat) as [| Hj]; [done | exfalso].
  enough (pending l0 c = O) by lia. unfold pending.
  rewrite (countb_ext _ (fun _ => false)); [clear; by induction (seq 0 LEN) |].
  intros i Hi. apply elem_of_seq in Hi.
  assert (Hi0 : l0 !! i = Some (l0 !!! i)) by (apply list_lookup_lookup_total_lt; lia).
  assert (Hi' := running_lookup c i (ok_length c Hok) ltac:(lia)).
  destruct (idle (l0 !!! i)) eqn:E1, (live (instance_running c !!! i)) eqn:E2; try done.
  destruct (F2 i _ _ Hi0 E1 Hi' E2). lia.
Qed.

(** With enough idle instances, every instance that ran keeps its slot. *)
Lemma sweep_second_chance l0 n want j freed c c' freed' :
  length l0 = LEN -> table_ok c -> ((instance_clock_hand c < instance_slots_hw c)%nat \/ n = O) ->
  first_round l0 c j freed -> (want <= countb idle l0)%nat -> sweep n want freed c = (c', freed') ->
  forall i e0, l0 !! i = Some e0 -> live e0 = true -> used e0 <> 0 ->
  exists e, instance_running c' !! i = Some e /\ tb e = tb e0 /\ fidx e = fidx e0.
Proof.
  intros Hl0. revert j freed c; induction n as [| n IH]; intros j freed c Hok Hh F Hw; cbn [sweep].
  { intros [= <- <-] i e0 Hi Hl Hu. destruct (fr_used _ _ _ _ F i e0 Hi Hl Hu) as (e & ? & ? & ? & _). eauto. }
  destruct (Nat.ltb_spec freed want) as [Hlt | Hge].
  2: { intros [= <- <-] i e0 Hi Hl Hu. destruct (fr_used _ _ _ _ F i e0 Hi Hl Hu) as (e & ? & ? & ? & _). eauto. }
  destruct (sweep_step c) as [c1 f] eqn:E.
  assert (Hh0 : (instance_clock_hand c < instance_slots_hw c)%nat) by (destruct Hh; [done | lia]).
  pose proof (pending_first_round l0 c j freed Hl0 Hok F ltac:(lia)) as Hj.
  destruct (sweep_step_ok c c1 f Hok Hh0 E) as (Hok1 & _ & _ & _ & Hh1).
  apply (IH (S j) (freed + f)%nat c1); [done | by left | | done]. exact (first_round_step l0 c c1 f j freed Hl0 Hok Hh0 F Hj E).
Qed.

(** ** Functions are neither lost nor freed twice *)

(** The functions of the live instances. *)
Definition live_functions (c : cache) : list Z := fidx <$> filter (fun e => live e = true) (instance_running c).

Lemma filter_insert_live (l : list instance_info) i e e' :
  l !! i = Some e ->
  (if live e then [fidx e] else []) ++ (fidx <$> filter (fun e => live e = true) (<[i := e']> l)) ≡ₚ
  (if live e' then [fidx e'] else []) ++ (fidx <$> filter (fun e => live e = true) l).
Proof.
  revert i; induction l as [| x l IH]; intros [| i] Hi; try done; cbn in Hi.
  - injection Hi as ->. cbn [insert list_insert]. rewrite !filter_cons.
    destruct (live e), (live e'); cbn; repeat case_decide; try done. constructor.
  - specialize (IH i Hi). cbn [insert list_insert]. rewrite !filter_cons. case_decide; [| done].
    cbn. rewrite <- !Permutation_middle. by rewrite IH.
Qed.

Lemma sweep_step_functions c c' f :
  table_ok c -> (instance_clock_hand c < instance_slots_hw c)%nat -> sweep_step c = (c', f) ->
  to_remove c' ++ live_functions c' ≡ₚ to_remove c ++ live_functions c.
Proof.
  intros Hok Hh Es. set (idx := instance_clock_hand c) in *. set (e := instance_running c !!! idx).
  assert (Hi : instance_running c !! idx = Some e)
    by (apply running_lookup; [apply Hok | pose proof (ok_hw c Hok); lia]).
  pose proof (fun e' => filter_insert_live (instance_running c) idx e e' Hi) as Hp.
  destruct (sweep_step_cases c) as [[He E] | [(He & Hu & E) | [He E]]]; fold idx e in He, E;
    rewrite E in Es; injection Es as <- _; unfold live_functions in *;
    cbn [set_slot set_hand set_running set_free set_to_remove instance_running to_remove]; [done | |].
  - specialize (Hp {| tb := tb e; fidx := fidx e; used := 0 |}). unfold live at 4 in Hp. cbn [tb fidx] in Hp.
    fold (live e) in Hp. rewrite He in Hp. apply Permutation_app_head, (Permutation_cons_inv Hp).
  - apply andb_true_iff in He as [He _]. specialize (Hp {| tb := 0; fidx := fidx e; used := used e |}).
    rewrite He in Hp. rewrite <- app_assoc. by apply Permutation_app_head.
Qed.

Lemma sweep_functions n want freed c c' freed' :
  table_ok c -> ((instance_clock_hand c < instance_slots_hw c)%nat \/ n = O) ->
  sweep n want freed c = (c', freed') -> to_remove c' ++ live_functions c' ≡ₚ to_remove c ++ live_functions c.
Proof.
  revert freed c; induction n as [| n IH]; intros freed c Hok Hh; cbn [sweep]; [by intros [= <- <-] |].
  destruct (Nat.ltb_spec freed want) as [Hlt | Hge]; [| by intros [= <- <-]].
  destruct (sweep_step c) as [c1 f] eqn:E. intros Hs.
  assert (Hh0 : (instance_clock_hand c < instance_slots_hw c)%nat) by (destruct Hh; [done | lia]).
  destruct (sweep_step_ok c c1 f Hok Hh0 E) as (Hok1 & _ & _ & _ & Hh1).
  rewrite (IH _ _ Hok1 (or_introl Hh1) Hs). by eapply sweep_step_functions.
Qed.

(** What is live after the sweep was there before. *)
Lemma sweep_slots n want freed c c' freed' i e' :
  table_ok c -> ((instance_clock_hand c < instance_slots_hw c)%nat \/ n = O) ->
  sweep n want freed c = (c', freed') -> instance_running c' !! i = Some e' -> live e' = true ->
  exists e, instance_running c !! i = Some e /\ tb e = tb e' /\ fidx e = fidx e'.
Proof.
  revert freed c; induction n as [| n IH]; intros freed c Hok Hh; cbn [sweep]; [intros [= <- <-]; eauto |].
  destruct (Nat.ltb_spec freed want) as [Hlt | Hge]; [| intros [= <- <-]; eauto].
  destruct (sweep_step c) as [c1 f] eqn:E. intros Hs Hi Hl.
  assert (Hh0 : (instance_clock_hand c < instance_slots_hw c)%nat) by (destruct Hh; [done | lia]).
  destruct (sweep_step_ok c c1 f Hok Hh0 E) as (Hok1 & _ & _ & _ & Hh1).
  destruct (IH _ _ Hok1 (or_introl Hh1) Hs Hi Hl) as (e1 & Hi1 & Et & Ef).
  assert (Hl1 : live e1 = true) by (unfold live in *; congruence).
  destruct (sweep_step_slots c c1 f i e1 Hok Hh0 E Hi1 Hl1) as (_ & _ & [[_ H] | (_ & _ & e & H & _ & _ & Et' & Ef')]);
    [by eauto |]. exists e. split_and!; congruence.
Qed.

(** ** The eviction as a whole *)

Lemma evict_want_range running : 0 <= running -> 0 <= evict_want running <= running.
Proof.
  intros H. unfold evict_want. rewrite Z.quot_div_nonneg by lia.
  pose proof (Z.div_pos running 8 H ltac:(lia)). pose proof (Z.div_le_upper_bound running 8 running ltac:(lia) ltac:(lia)).
  destruct (Z.ltb_spec (running / 8) 1); lia.
Qed.

Lemma evict_want_eighth running : 0 <= running -> evict_want running <= Z.max 7 (running / 8).
Proof.
  intros H. unfold evict_want. rewrite Z.quot_div_nonneg by lia.
  destruct (Z.ltb_spec (running / 8) 1) as [Hlt | Hge]; [| lia].
  pose proof (Z.div_mod running 8 ltac:(lia)). pose proof (Z.mod_pos_bound running 8 ltac:(lia)). lia.
Qed.

Lemma live_count_range c : cache_ok c -> 0 <= instance_running_local c <= INSTANCE_RUNNING_LEN.
Proof.
  intros [Hok Hr _ _]. rewrite Hr. pose proof (countb_le_length live (instance_running c)) as H.
  rewrite (ok_length c Hok) in H. unfold live_count, LEN in *. unfold INSTANCE_RUNNING_LEN in *. lia.
Qed.

(** The sweep of an eviction, with all it guarantees. *)
Record evicted (c c' : cache) (want : Z) : Prop := {
  ev_ok : cache_ok c';
  ev_running : instance_running_local c' = instance_running_local c - want;
  ev_global : instance_alive_global c' = instance_alive_global c - want;
  ev_freed : Z.of_nat (length (freed_functions c')) = Z.of_nat (length (freed_functions c)) + want;
  ev_functions : freed_functions c' ++ live_functions c' ≡ₚ freed_functions c ++ live_functions c;
  ev_hw : instance_slots_hw c' = instance_slots_hw c;
  ev_slots : forall i e', instance_running c' !! i = Some e' -> live e' = true ->
    exists e, instance_running c !! i = Some e /\ tb e = tb e' /\ fidx e = fidx e';
  ev_second_chance : want <= Z.of_nat (countb idle (instance_running c)) ->
    forall i e, instance_running c !! i = Some e -> live e = true -> used e <> 0 ->
    exists e', instance_running c' !! i = Some e' /\ tb e' = tb e /\ fidx e' = fidx e
}.

(** After the sweep: the buffer is handed over and the counters are adjusted. *)
Definition settle (c : cache) (freed : nat) : cache :=
  add_counts (- Z.of_nat freed) (match to_remove c with [] => c | _ => remove_module_js c end).

Lemma settle_fields c freed :
  instance_running (settle c freed) = instance_running c /\
  instance_slots_hw (settle c freed) = instance_slots_hw c /\
  instance_clock_hand (settle c freed) = instance_clock_hand c /\
  free_slots (settle c freed) = free_slots c /\ to_remove (settle c freed) = [] /\
  freed_functions (settle c freed) = freed_functions c ++ to_remove c /\
  instance_running_local (settle c freed) = instance_running_local c - Z.of_nat freed /\
  instance_alive_local (settle c freed) = instance_alive_local c - Z.of_nat freed /\
  instance_alive_global (settle c freed) = instance_alive_global c - Z.of_nat freed.
Proof.
  unfold settle. destruct (to_remove c) eqn:E; cbn; rewrite ?E, ?app_nil_r; split_and!; done || lia.
Qed.

Lemma remove_evicted c :
  cache_ok c -> evicted c (remove_instance_running_local c) (evict_want (instance_running_local c)).
Proof.
  intros Hc. pose proof (live_count_range c Hc) as Hr. pose proof (evict_want_range _ (proj1 Hr)) as Hw.
  destruct Hc as [Hok Hrun Hal Hbuf]. unfold remove_instance_running_local.
  destruct (sweep (2 * instance_slots_hw c) (Z.to_nat (evict_want (instance_running_local c))) 0 c)
    as [c1 freed] eqn:Es.
  assert (Hh : (instance_clock_hand c < instance_slots_hw c)%nat \/ (2 * instance_slots_hw c)%nat = O)
    by (destruct (ok_hand c Hok); lia).
  destruct (sweep_ok _ _ _ _ _ _ Hok Hh Es) as (Hok1 & (B1 & B2 & B3 & B4 & B5) & Hl & Ht & _ & Hmax).
  pose proof (sweep_enough _ _ _ _ _ _ Hok Hh (evictable_initially c Hok) Es) as Hen.
  pose proof (sweep_functions _ _ _ _ _ _ Hok Hh Es) as Hfn. rewrite Hbuf in Hfn, Ht. cbn in Hfn, Ht.
  assert (Hf : Z.of_nat freed = evict_want (instance_running_local c)) by lia.
  fold (settle c1 freed). destruct (settle_fields c1 freed) as (E1 & E2 & E3 & E4 & E5 & E6 & E7 & E8 & E9).
  split; rewrite ?E2, ?E6, ?E7, ?E9, ?B1, ?B2, ?B3, ?B5, ?length_app; try lia; unfold live_functions; rewrite ?E1.
  - split; [| | lia | done].
    + destruct Hok1. split; rewrite ?E1, ?E2, ?E3, ?E4; done.
    + unfold live_count in *. rewrite E1, E7, B3. lia.
  - rewrite <- app_assoc. by rewrite Hfn.
  - intros i e'. by apply (sweep_slots _ _ _ _ _ _ i e' Hok Hh Es).
  - intros Hid. assert (Hid' : (Z.to_nat (evict_want (instance_running_local c)) <=
      countb idle (instance_running c))%nat) by lia.
    exact (sweep_second_chance _ _ _ 0 0 c c1 freed (ok_length c Hok) Hok Hh (first_round_start c Hok) Hid' Es).
Qed.
