(* ===== verification/CacheCoherence.v ===== *)
(** * The cache of compiled blocks between operations

    [InstanceCache] models the operations of the per-thread table of compiled
    blocks (tcg/wasm32.c); this file shows what they give together.  An insertion
    always finds a slot; the functions in the WebAssembly table are exactly those
    of the live instances; and along every sequence of code generation, flushes,
    insertions, lookups and evictions, with other threads writing elsewhere, a
    lookup returns only the function added last for the block that is now at that
    address. *)
From S2P Require Import Prelude Memory Tune TbHeader InstanceCache.

(** ** Insertion *)

Lemma countb_lt_exists {A} (p : A -> bool) l :
  (countb p l < length l)%nat -> exists i x, l !! i = Some x /\ p x = false.
Proof.
  induction l as [| y l IH]; cbn; [lia |]. destruct (p y) eqn:E; intros H.
  - destruct IH as (i & x & Hi & Hx); [lia |]. by exists (S i), x.
  - by exists O, y.
Qed.

(** [c'] has only instances of [c]. *)
Definition slots_from (c c' : cache) : Prop :=
  forall i e', instance_running c' !! i = Some e' -> live e' = true ->
  exists e, instance_running c !! i = Some e /\ tb e = tb e' /\ fidx e = fidx e'.

(** The compiled functions that are in the WebAssembly table or were taken out. *)
Definition functions (c : cache) : list Z := freed_functions c ++ live_functions c.

(** After [make_room] there is a slot to take. *)
Lemma make_room_ok c :
  cache_ok c ->
  cache_ok (make_room c) /\ slots_from c (make_room c) /\ functions (make_room c) ≡ₚ functions c /\
  (free_slots (make_room c) <> [] \/ (instance_slots_hw (make_room c) < LEN)%nat).
Proof.
  intros Hc. unfold make_room. assert (Hid : slots_from c c) by (intros i e' Hi _; by exists e').
  destruct (free_slots c) as [| x l] eqn:Ef; [| split_and!; try done; left; congruence].
  destruct (Nat.leb_spec LEN (instance_slots_hw c)) as [Hhw | Hhw]; [| by split_and!; try right].
  pose proof (remove_evicted c Hc) as Hev.
  generalize dependent (remove_instance_running_local c). intros c' [[H1 H2 H3 H4] Hrun _ _ Hfn Ehw Hsl _].
  split_and!; [done.. |]. left.
  destruct Hc as [Hok Hr _ _]. pose proof (ok_hw c Hok).
  assert (Hall : live_count c = LEN).
  { pose proof (countb_le_length live (instance_running c)) as Hle. rewrite (ok_length c Hok) in Hle.
    destruct (decide (live_count c = LEN)) as [| Hn]; [done | exfalso].
    destruct (countb_lt_exists live (instance_running c)) as (i & x & Hi & Hx).
    { rewrite (ok_length c Hok). unfold live_count in *. lia. }
    pose proof (lookup_lt_Some _ _ _ Hi) as Hlt. rewrite (ok_length c Hok) in Hlt.
    assert (Hin : i ∈ free_slots c) by (apply (ok_free c Hok); split; [lia | by exists x]).
    rewrite Ef in Hin. by apply elem_of_nil in Hin. }
  assert (HL : Z.of_nat LEN = 65536) by (unfold LEN, INSTANCE_RUNNING_LEN; lia).
  rewrite Hr, Hall, HL in Hrun. change (evict_want 65536) with 8192 in Hrun.
  destruct (countb_lt_exists live (instance_running c')) as (i & x & Hi & Hx).
  { rewrite (ok_length c' H1). unfold live_count in H2. lia. }
  clear HL Hall Hrun.
  pose proof (lookup_lt_Some _ _ _ Hi) as Hlt. rewrite (ok_length c' H1) in Hlt.
  assert (Hin : i ∈ free_slots c') by (apply (ok_free c' H1); split; [lia | by exists x]).
  intros E. rewrite E in Hin. by apply elem_of_nil in Hin.
Qed.

(** Filling a slot that was taken. *)
Lemma take_slot_ok c e :
  cache_ok c -> live e = true -> (free_slots c <> [] \/ (instance_slots_hw c < LEN)%nat) ->
  let '(idx, c1) := take_slot c in
  (idx < LEN)%nat /\ table_ok (set_slot idx e c1) /\
  (exists e0, instance_running c !! idx = Some e0 /\ live e0 = false) /\
  instance_running c1 = instance_running c /\ to_remove c1 = to_remove c /\
  freed_functions c1 = freed_functions c /\ instance_running_local c1 = instance_running_local c /\
  instance_alive_local c1 = instance_alive_local c.
Proof.
  intros [[H1 H2 H3 H4 H5 H6] _ _ _] He Hs. unfold take_slot.
  destruct (free_slots c) as [| idx rest] eqn:Ef.
  - destruct Hs as [| Hs]; [done |]. set (hw := instance_slots_hw c) in *.
    assert (Hi : is_Some (instance_running c !! hw)) by (apply lookup_lt_is_Some; lia).
    destruct Hi as [e0 Hi]. pose proof (H4 hw e0 Hi ltac:(lia)) as Hl0.
    split_and!; try done; [| by exists e0].
    split; cbn [set_slot set_running set_hw instance_running instance_slots_hw instance_clock_hand free_slots]; fold hw.
    + by rewrite length_insert.
    + lia.
    + destruct H3; lia.
    + intros j x Hj Hlt. rewrite list_lookup_insert_ne in Hj by lia. apply (H4 j x Hj). lia.
    + intros j. rewrite Ef. rewrite H5. split.
      * intros [Hj (x & Hx & Hlx)]. split; [lia |]. exists x. by rewrite list_lookup_insert_ne by lia.
      * intros [Hj (x & Hx & Hlx)]. destruct (decide (j = hw)) as [-> | Hn].
        -- rewrite list_lookup_insert_eq in Hx by lia. congruence.
        -- rewrite list_lookup_insert_ne in Hx by done. split; [lia | by exists x].
    + rewrite Ef. constructor.
  - assert (Hin : idx ∈ idx :: rest) by (by left). apply H5 in Hin as [Hlt (e0 & Hi & Hl0)].
    inversion H6 as [| ? ? Hnin Hnd]; subst.
    split_and!; try done; [lia | | by exists e0].
    split; cbn [set_slot set_running set_free instance_running instance_slots_hw instance_clock_hand free_slots]; try done.
    + by rewrite length_insert.
    + intros j x Hj Hj'. rewrite list_lookup_insert_ne in Hj by lia. by apply (H4 j x Hj).
    + intros j. specialize (H5 j). rewrite elem_of_cons in H5. split.
      * intros Hj. destruct (proj1 H5 (or_intror Hj)) as [Hjl (x & Hx & Hlx)]. split; [done |].
        exists x. rewrite list_lookup_insert_ne; [done |]. by intros ->.
      * intros [Hjl (x & Hx & Hlx)]. destruct (decide (j = idx)) as [-> | Hn].
        -- rewrite list_lookup_insert_eq in Hx by (by eapply lookup_lt_Some). congruence.
        -- rewrite list_lookup_insert_ne in Hx by done.
           destruct (proj2 H5 (conj Hjl (ex_intro _ x (conj Hx Hlx)))); [done | done].
Qed.

(** [add_instance_running_local] with all it guarantees. *)
Record added (base : Z) (th : wthread) (f b : Z) (c : cache) (m : mem) (c' : cache) (m' : mem) (idx : nat) : Prop := {
  ad_ok : cache_ok c';
  ad_idx : (idx < LEN)%nat;
  ad_slot : instance_running c' !! idx = Some {| tb := b; fidx := f; used := 1 |};
  ad_store : store32 m (u32 (b + export_vec_off th)) (slot_addr_of base idx) = Some m';
  ad_others : forall i e', i <> idx -> instance_running c' !! i = Some e' -> live e' = true ->
    exists e, instance_running c !! i = Some e /\ tb e = tb e' /\ fidx e = fidx e';
  ad_functions : functions c' ≡ₚ f :: functions c
}.

Lemma add_added base th f b c m :
  cache_ok c -> b <> 0 -> mapped m (u32 (b + export_vec_off th)) 4 ->
  exists c' m' idx, add_instance_running_local base th f b c m = Some (c', m') /\
    added base th f b c m c' m' idx.
Proof.
  intros Hc Hb Hm. destruct (make_room_ok c Hc) as (Hc1 & Hsl & Hfn & Hroom).
  unfold add_instance_running_local. generalize dependent (make_room c). intros c1 Hc1 Hsl Hfn Hroom.
  set (e := {| tb := b; fidx := f; used := 1 |}).
  assert (He : live e = true) by (unfold live, e; cbn [tb]; by apply negb_true_iff, Z.eqb_neq).
  pose proof (take_slot_ok c1 e Hc1 He Hroom) as Ht. destruct (take_slot c1) as [idx c2].
  destruct Ht as (Hlt & Htab & (e0 & Hi & Hl0) & E1 & E2 & E3 & E4 & E5).
  destruct (Nat.leb_spec LEN idx) as [Hle | _]; [lia |].
  destruct (proj2 (store_is_Some 4 m _ (slot_addr_of base idx)) Hm) as [m' Hst]. rewrite Hst. cbn [mbind option_bind].
  exists (add_counts 1 (set_slot idx e c2)), m', idx. split; [done |].
  assert (Hlen : (idx < length (instance_running c1))%nat) by (by eapply lookup_lt_Some).
  split; [split | done | | done | |].
  - by apply table_ok_counts.
  - destruct Hc1 as [_ Hr _ _]. unfold live_count in *.
    cbn [add_counts set_slot set_running instance_running instance_running_local]. rewrite E1, E4, Hr.
    pose proof (countb_insert live (instance_running c1) idx e e0 Hi) as Hcnt. rewrite He, Hl0 in Hcnt.
    cbv iota in Hcnt. lia.
  - destruct Hc1 as [_ _ Ha _]. cbn [add_counts set_slot set_running instance_alive_local instance_running_local]. lia.
  - destruct Hc1 as [_ _ _ Hb']. cbn. congruence.
  - cbn [add_counts set_slot set_running instance_running]. rewrite E1. by apply list_lookup_insert_eq.
  - intros i e' Hn Hi' Hl'. cbn [add_counts set_slot set_running instance_running] in Hi'.
    rewrite E1, list_lookup_insert_ne in Hi' by done. by apply Hsl.
  - rewrite <- Hfn. unfold functions, live_functions.
    cbn [add_counts set_slot set_running instance_running freed_functions]. rewrite E1, E3.
    pose proof (filter_insert_live (instance_running c1) idx e0 e Hi) as Hp. rewrite He, Hl0 in Hp. cbn [app] in Hp.
    rewrite Hp. cbn [app fidx e]. by rewrite Permutation_middle.
Qed.

(** ** Lookup *)

Lemma slot_index_addr base i : (i < LEN)%nat -> slot_index base (slot_addr_of base i) = Some i.
Proof.
  intros Hi. unfold slot_index, slot_addr_of, SIZEOF_INSTANCE_INFO.
  replace (base + 12 * Z.of_nat i - base) with (Z.of_nat i * 12) by lia.
  rewrite Z.mod_mul, Z.div_mul by lia. assert (Z.of_nat i < INSTANCE_RUNNING_LEN) by (unfold LEN in Hi; lia).
  rewrite (proj2 (Z.leb_le 0 _)), (proj2 (Z.ltb_lt _ _)) by lia. cbn [Z.eqb andb]. by rewrite Nat2Z.id.
Qed.

Lemma slot_index_lt base p i : slot_index base p = Some i -> (i < LEN)%nat.
Proof.
  unfold slot_index. set (d := p - base). destruct (Z.leb_spec 0 d); [| done].
  destruct (Z.eqb_spec (d mod SIZEOF_INSTANCE_INFO) 0); [| done].
  destruct (Z.ltb_spec (d / SIZEOF_INSTANCE_INFO) INSTANCE_RUNNING_LEN); [| done]. cbn [andb]. intros [= <-].
  assert (0 <= d / SIZEOF_INSTANCE_INFO) by (apply Z.div_pos; unfold SIZEOF_INSTANCE_INFO; lia). unfold LEN. lia.
Qed.

(** Marking an instance used changes nothing else. *)
Lemma mark_used_ok c i e v :
  cache_ok c -> instance_running c !! i = Some e ->
  let c' := set_slot i {| tb := tb e; fidx := fidx e; used := v |} c in
  cache_ok c' /\ slots_from c c' /\ functions c' ≡ₚ functions c.
Proof.
  intros [Hok Hr Ha Hb] Hi. set (e' := {| tb := tb e; fidx := fidx e; used := v |}).
  assert (El : live e' = live e) by done. split_and!.
  - split; [by apply (table_ok_relabel c i e) | | done | done].
    pose proof (countb_insert live (instance_running c) i e' e Hi) as Hcnt. rewrite El in Hcnt.
    unfold live_count in *. cbn [set_slot set_running instance_running instance_running_local]. lia.
  - intros j x Hj Hl. cbn [set_slot set_running instance_running] in Hj.
    apply list_lookup_insert_Some in Hj as [(-> & <- & _) | [_ Hj]]; eauto.
  - unfold functions, live_functions. cbn [set_slot set_running instance_running freed_functions].
    apply Permutation_app_head. pose proof (filter_insert_live (instance_running c) i e e' Hi) as Hp.
    rewrite El in Hp. destruct (live e); [by apply Permutation_cons_inv in Hp | done].
Qed.

(** ** The initial table *)

Lemma countb_replicate {A} (p : A -> bool) n x : p x = false -> countb p (replicate n x) = O.
Proof. intros H. induction n as [| n IH]; cbn; [done |]. by rewrite H. Qed.

Lemma cache_init_ok alive : cache_ok (cache_init alive).
Proof.
  split; [split | | done | done]; cbn [cache_init instance_running instance_slots_hw instance_clock_hand free_slots
    instance_running_local].
  - apply length_replicate.
  - lia.
  - by right.
  - intros i e Hi _. apply lookup_replicate in Hi as [-> _]. done.
  - intros i. rewrite elem_of_nil. split; [done | lia].
  - constructor.
  - unfold live_count. cbn [cache_init instance_running]. rewrite countb_replicate; done.
Qed.

(** ** Coherence *)

(** The thread's table, the memory, and for every current block the function last
    added for it since its code was generated. *)
Record world := { w_cache : cache; w_mem : mem; w_blocks : gmap Z (option Z) }.

Section Coherence.
Context (base : Z) (th : wthread) (t : tune).
Context (Hth : thread_ok th) (Hcores : all_cores_num th < 2 ^ 24).
Context (Hbase : 0 < base /\ base + SIZEOF_INSTANCE_INFO * INSTANCE_RUNNING_LEN <= 2 ^ 32).

Let hsize : Z := header_size (all_cores_num th).

Definition headers_disjoint (b b' : Z) : Prop :=
  b + header_size (all_cores_num th) <= b' \/ b' + header_size (all_cores_num th) <= b.

(** What happens on the thread, one operation at a time.  [ws_other] is any write
    by this or another thread that leaves this thread's export slots alone, the
    counters of the blocks among them. *)
Inductive wstep : world -> world -> Prop :=
  | ws_generate c m g b p m' :
      g !! b = None -> (forall b', is_Some (g !! b') -> headers_disjoint b b') ->
      0 < b -> b + header_size (all_cores_num th) + 4 <= 2 ^ 32 ->
      mapped m b (Z.to_nat (header_size (all_cores_num th) + 4)) ->
      tb_header_out (all_cores_num th) b m = Some (p, m') ->
      wstep {| w_cache := c; w_mem := m; w_blocks := g |} {| w_cache := c; w_mem := m'; w_blocks := <[b := None]> g |}
  | ws_flush c m g :
      wstep {| w_cache := c; w_mem := m; w_blocks := g |} {| w_cache := c; w_mem := m; w_blocks := ∅ |}
  | ws_evict c m g :
      wstep {| w_cache := c; w_mem := m; w_blocks := g |}
            {| w_cache := remove_instance_running_local c; w_mem := m; w_blocks := g |}
  | ws_add c m g b o f c' m' :
      g !! b = Some o -> add_instance_running_local base th f b c m = Some (c', m') ->
      wstep {| w_cache := c; w_mem := m; w_blocks := g |} {| w_cache := c'; w_mem := m'; w_blocks := <[b := Some f]> g |}
  | ws_lookup c m g b o r c' m' :
      g !! b = Some o -> get_instance_running_local base th t b c m = Some (r, c', m') ->
      wstep {| w_cache := c; w_mem := m; w_blocks := g |} {| w_cache := c'; w_mem := m'; w_blocks := g |}
  | ws_other c m g m' :
      (forall b, is_Some (g !! b) ->
         load32 m' (u32 (b + export_vec_off th)) = load32 m (u32 (b + export_vec_off th))) ->
      (forall p k, mapped m p k -> mapped m' p k) ->
      wstep {| w_cache := c; w_mem := m; w_blocks := g |} {| w_cache := c; w_mem := m'; w_blocks := g |}.

(** The export slot of block [b] is empty or points into the table, where only
    the function added last counts as the block's. *)
Definition block_inv (c : cache) (m : mem) (b : Z) (o : option Z) : Prop :=
  exists w, load32 m (u32 (b + export_vec_off th)) = Some w /\
    (w = 0 \/ exists i, slot_index base w = Some i /\
       (tb (instance_running c !!! i) = b -> o = Some (fidx (instance_running c !!! i)))).

Record coherent (w : world) : Prop := {
  co_cache : cache_ok (w_cache w);
  co_block : forall b o, w_blocks w !! b = Some o ->
    0 < b /\ header_mapped th (w_mem w) b /\ block_inv (w_cache w) (w_mem w) b o;
  co_disjoint : forall b b', is_Some (w_blocks w !! b) -> is_Some (w_blocks w !! b') -> b <> b' ->
    headers_disjoint b b'
}.

(** The thread's two slots lie in the header. *)
Lemma own_slot_bounds m b :
  header_mapped th m b ->
  u32 (b + export_vec_off th) = b + export_vec_off th /\ u32 (b + counter_vec_off th) = b + counter_vec_off th /\
  8 <= export_vec_off th /\ export_vec_off th + 4 <= counter_vec_off th /\ counter_vec_off th + 4 <= hsize.
Proof.
  intros (H0 & H1 & _). destruct Hth as (Hc & -> & ->). unfold hsize, header_size in *.
  split_and!; try lia; apply uw_small; unfold is_u; lia.
Qed.

Lemma header_mapped_mono m m' b :
  (forall p k, mapped m p k -> mapped m' p k) -> header_mapped th m b -> header_mapped th m' b.
Proof. intros H (H0 & H1 & H2). split_and!; auto. Qed.

Lemma own_mapped m b :
  header_mapped th m b -> mapped m (u32 (b + export_vec_off th)) 4 /\ mapped m (u32 (b + counter_vec_off th)) 4.
Proof.
  intros Hm. destruct (own_slot_bounds m b Hm) as (-> & -> & He & Hec & Hc). destruct Hm as (H0 & H1 & H2).
  unfold hsize in *. split; eapply mapped_sub; try apply H2; lia.
Qed.

Lemma block_inv_slots c c' m b o :
  table_ok c' -> slots_from c c' -> 0 < b -> block_inv c m b o -> block_inv c' m b o.
Proof.
  intros Hok Hs Hb (w & Hw & Hi). exists w. split; [done |]. destruct Hi as [-> | (i & Hi & Ho)]; [by left | right].
  exists i. split; [done |]. intros Ht. pose proof (slot_index_lt base w i Hi) as Hlt.
  pose proof (running_lookup c' i (ok_length c' Hok) Hlt) as Hl.
  destruct (Hs i _ Hl) as (e & He & Et & Ef); [unfold live; rewrite Ht; apply negb_true_iff, Z.eqb_neq; lia |].
  rewrite (list_lookup_total_correct _ _ _ He) in Ho. rewrite <- Ef. apply Ho. congruence.
Qed.

Lemma block_inv_mem c m m' b o :
  load32 m' (u32 (b + export_vec_off th)) = load32 m (u32 (b + export_vec_off th)) ->
  block_inv c m b o -> block_inv c m' b o.
Proof. intros E (w & Hw & Hi). exists w. rewrite E. done. Qed.

(** A store to one block's header leaves the other blocks alone. *)
Lemma other_block_load c m m' b b' a v o :
  header_mapped th m b -> header_mapped th m b' -> headers_disjoint b b' ->
  b <= a -> a + 4 <= b + hsize -> store32 m a v = Some m' ->
  block_inv c m b' o -> block_inv c m' b' o.
Proof.
  intros Hb Hb' Hd Hl Hh Hst. destruct (own_slot_bounds m b' Hb') as (E & _ & H1 & H2 & H3).
  apply block_inv_mem. rewrite E. apply (load_store_ne _ _ _ _ _ _ _ Hst).
  unfold headers_disjoint in Hd. fold hsize in Hd. lia.
Qed.

Lemma coherent_generate c m g b p m' :
  coherent {| w_cache := c; w_mem := m; w_blocks := g |} ->
  (forall b', is_Some (g !! b') -> headers_disjoint b b') ->
  0 < b -> b + header_size (all_cores_num th) + 4 <= 2 ^ 32 ->
  mapped m b (Z.to_nat (header_size (all_cores_num th) + 4)) ->
  tb_header_out (all_cores_num th) b m = Some (p, m') ->
  coherent {| w_cache := c; w_mem := m'; w_blocks := <[b := None]> g |}.
Proof.
  intros [Hc Hb Hd] Hdis Hpos Hle Hm Eh. cbn [w_cache w_mem w_blocks] in *.
  assert (Hcn : 0 <= all_cores_num th < 2 ^ 24) by (destruct Hth; lia).
  destruct (tb_header_out_fresh _ b m Hcn Hm) as (m1 & E1 & M1 & L1 & _ & _ & _ & Hz).
  rewrite Eh in E1. injection E1 as _ <-. split; cbn [w_cache w_mem w_blocks]; [done | |].
  - intros b' o Ho. apply lookup_insert_Some in Ho as [[<- <-] | [Hn Ho]].
    + assert (Hm' : header_mapped th m' b).
      { split_and!; [lia | lia |]. apply M1. unfold header_size in *. apply (mapped_sub m b _ _ _ Hm); lia. }
      split_and!; [done | done |]. exists 0. split; [| by left].
      rewrite (proj1 (own_slots th b Hth)). destruct Hth as (Hcur & _).
      rewrite (proj1 (slot_addr th m' b _ Hm' Hcur)). by apply Hz.
    + destruct (Hb b' o Ho) as (Hp & Hm' & Hi). split_and!; [done | by apply (header_mapped_mono m) |].
      destruct (own_slot_bounds m b' Hm') as (E & _ & H1 & H2 & H3). revert Hi. apply block_inv_mem. rewrite E.
      apply L1. specialize (Hdis b' ltac:(by eexists)). unfold headers_disjoint, hsize in *. lia.
  - intros b1 b2 H1 H2 Hne. rewrite lookup_insert in H1, H2. repeat case_decide; subst.
    all: try done; try (by apply Hdis); try (by apply Hd).
    pose proof (Hdis b1 H1). unfold headers_disjoint in *. tauto.
Qed.

Lemma coherent_evict c m g :
  coherent {| w_cache := c; w_mem := m; w_blocks := g |} ->
  coherent {| w_cache := remove_instance_running_local c; w_mem := m; w_blocks := g |}.
Proof.
  intros [Hc Hb Hd]. cbn [w_cache w_mem w_blocks] in *. pose proof (remove_evicted c Hc) as [Hok _ _ _ _ _ Hsl _].
  split; cbn [w_cache w_mem w_blocks]; [done | | done]. intros b o Ho. destruct (Hb b o Ho) as (Hp & Hm & Hi).
  split_and!; [done | done |]. apply (block_inv_slots c); [apply Hok | exact Hsl | done | done].
Qed.

Lemma coherent_add c m g b o f c' m' :
  coherent {| w_cache := c; w_mem := m; w_blocks := g |} ->
  g !! b = Some o -> add_instance_running_local base th f b c m = Some (c', m') ->
  coherent {| w_cache := c'; w_mem := m'; w_blocks := <[b := Some f]> g |}.
Proof.
  intros [Hc Hb Hd] Hg Ea. cbn [w_cache w_mem w_blocks] in *. destruct (Hb b o Hg) as (Hp & Hm & _).
  destruct (own_slot_bounds m b Hm) as (E & _ & X1 & X2 & X3).
  destruct (add_added base th f b c m Hc ltac:(lia) (proj1 (own_mapped m b Hm))) as (c1 & m1 & idx & Ea' & Had).
  rewrite Ea in Ea'. injection Ea' as <- <-. destruct Had as [Hok Hidx Hslot Hst Hoth _].
  assert (Hmono : forall p k, mapped m p k -> mapped m' p k) by (intros; by eapply store_mapped).
  split; cbn [w_cache w_mem w_blocks]; [done | |].
  - intros b' o' Ho. apply lookup_insert_Some in Ho as [[<- <-] | [Hn Ho]].
    + split_and!; [done | by apply (header_mapped_mono m) |]. exists (slot_addr_of base idx). split.
      * rewrite (load_store32_eq _ _ _ _ Hst). f_equal. apply uw_small. unfold is_u, slot_addr_of, LEN in *.
        unfold INSTANCE_RUNNING_LEN, SIZEOF_INSTANCE_INFO in *. lia.
      * right. exists idx. split; [by apply slot_index_addr |]. by rewrite (list_lookup_total_correct _ _ _ Hslot).
    + destruct (Hb b' o' Ho) as (Hp' & Hm' & Hi'). split_and!; [done | by apply (header_mapped_mono m) |].
      apply (other_block_load c' m m' b b' (u32 (b + export_vec_off th)) _ o' Hm Hm' (Hd b b' ltac:(by eexists) ltac:(by eexists) Hn)
        ltac:(lia) ltac:(lia) Hst).
      destruct Hi' as (w & Hw & Hi). exists w. split; [done |]. destruct Hi as [-> | (i & Hi & Hf)]; [by left | right].
      exists i. split; [done |]. intros Ht. destruct (decide (i = idx)) as [-> | Hni].
      { rewrite (list_lookup_total_correct _ _ _ Hslot) in Ht. cbn in Ht. congruence. }
      pose proof (slot_index_lt base w i Hi) as Hlt.
      pose proof (running_lookup c' i (ok_length c' (ok_table c' Hok)) Hlt) as Hl.
      destruct (Hoth i _ Hni Hl) as (e & He & Et & Ef); [unfold live; rewrite Ht; apply negb_true_iff, Z.eqb_neq; lia |].
      rewrite (list_lookup_total_correct _ _ _ He) in Hf. rewrite <- Ef. apply Hf. congruence.
  - intros b1 b2 H1 H2 Hne. apply Hd; [| | done];
      rewrite lookup_insert in H1, H2; repeat case_decide; subst; eauto.
Qed.

(** The three ways a lookup ends. *)
Lemma get_cases c m g b o :
  coherent {| w_cache := c; w_mem := m; w_blocks := g |} -> g !! b = Some o ->
  get_instance_running_local base th t b c m = Some (0, c, m) \/
  (exists m1 m2, get_instance_running_local base th t b c m = Some (0, c, m2) /\
     store32 m (u32 (b + export_vec_off th)) 0 = Some m1 /\
     store32 m1 (u32 (b + counter_vec_off th)) (t wasm_instantiate_num) = Some m2) \/
  (exists i e, instance_running c !! i = Some e /\ tb e = b /\ o = Some (fidx e) /\
     get_instance_running_local base th t b c m =
     Some (fidx e, set_slot i {| tb := tb e; fidx := fidx e; used := 1 |} c, m)).
Proof.
  intros [Hc Hb _] Hg. cbn [w_cache w_mem w_blocks] in *. destruct (Hb b o Hg) as (Hp & Hm & w & Hw & Hi).
  unfold get_instance_running_local. rewrite Hw. cbn [mbind option_bind].
  destruct (Z.eqb_spec w 0) as [-> | Hn]; [by left |]. destruct Hi as [| (i & Hi & Ho)]; [done |].
  rewrite Hi. cbn [mbind option_bind]. set (e := instance_running c !!! i) in *.
  destruct (Z.eqb_spec (tb e) b) as [Ht | Ht]; cbn [negb]; right; [right | left].
  - exists i, e. split_and!; [| done | by apply Ho | done].
    apply running_lookup; [apply Hc | by eapply slot_index_lt].
  - destruct (own_mapped m b Hm) as [He Hct].
    destruct (proj2 (store_is_Some 4 m _ 0) He) as [m1 E1].
    destruct (proj2 (store_is_Some 4 m1 (u32 (b + counter_vec_off th)) (t wasm_instantiate_num))) as [m2 E2].
    { by eapply store_mapped. }
    exists m1, m2. rewrite E1. cbn [mbind option_bind]. rewrite E2. done.
Qed.

Lemma coherent_lookup c m g b o r c' m' :
  coherent {| w_cache := c; w_mem := m; w_blocks := g |} ->
  g !! b = Some o -> get_instance_running_local base th t b c m = Some (r, c', m') ->
  coherent {| w_cache := c'; w_mem := m'; w_blocks := g |}.
Proof.
  intros Hco Hg Eg. pose proof Hco as [Hc Hb Hd]. cbn [w_cache w_mem w_blocks] in *.
  destruct (get_cases c m g b o Hco Hg) as [E | [(m1 & m2 & E & E1 & E2) | (i & e & Hi & _ & _ & E)]];
    rewrite E in Eg; injection Eg as _ <- <-; [done | |].
  - split; cbn [w_cache w_mem w_blocks]; [done | | done].
    assert (M1 : forall p k, mapped m p k -> mapped m1 p k) by (intros; by eapply store_mapped).
    assert (M2 : forall p k, mapped m1 p k -> mapped m2 p k) by (intros; by eapply store_mapped).
    destruct (Hb b o Hg) as (Hp & Hm & _). destruct (own_slot_bounds m b Hm) as (Ee & Ec & X1 & X2 & X3).
    intros b' o' Ho. destruct (Hb b' o' Ho) as (Hp' & Hm' & Hi').
    split_and!; [done | by apply (header_mapped_mono m); auto |].
    destruct (decide (b' = b)) as [-> | Hn].
    + exists 0. split; [| by left]. rewrite (load_store_ne _ 4 _ _ _ _ (u32 (b + export_vec_off th)) E2) by lia.
      apply (load_store32_eq _ _ _ _ E1).
    + assert (Hdis : headers_disjoint b b') by (apply Hd; [by eexists | by eexists | congruence]).
      apply (other_block_load c m1 m2 b b' (u32 (b + counter_vec_off th)) (t wasm_instantiate_num) o');
        [by apply (header_mapped_mono m) | by apply (header_mapped_mono m) | done | lia | lia | done |].
      by apply (other_block_load c m m1 b b' (u32 (b + export_vec_off th)) 0 o'); try done; lia.
  - destruct (mark_used_ok c i e 1 Hc Hi) as (Hok & Hsl & _). split; cbn [w_cache w_mem w_blocks]; [done | | done].
    intros b' o' Ho. destruct (Hb b' o' Ho) as (Hp' & Hm' & Hi'). split_and!; [done | done |].
    apply (block_inv_slots c); [apply Hok | done | done | done].
Qed.

Lemma coherent_no_blocks c m : cache_ok c -> coherent {| w_cache := c; w_mem := m; w_blocks := ∅ |}.
Proof.
  intros Hc. split; cbn [w_cache w_mem w_blocks]; [done | |].
  - intros b o Ho. by rewrite lookup_empty in Ho.
  - intros b b' [o Ho]. by rewrite lookup_empty in Ho.
Qed.

Lemma coherent_other c m g m' :
  coherent {| w_cache := c; w_mem := m; w_blocks := g |} ->
  (forall b, is_Some (g !! b) ->
     load32 m' (u32 (b + export_vec_off th)) = load32 m (u32 (b + export_vec_off th))) ->
  (forall p k, mapped m p k -> mapped m' p k) ->
  coherent {| w_cache := c; w_mem := m'; w_blocks := g |}.
Proof.
  intros [Hc Hb Hd] H1 H2. split; cbn [w_cache w_mem w_blocks] in *; [done | | done].
  intros b o Ho. destruct (Hb b o Ho) as (Hp & Hm & Hi). split_and!; [done | by apply (header_mapped_mono m) |].
  revert Hi. apply block_inv_mem. apply H1. by eexists.
Qed.

(** A store to the thread's counter of a current block. *)
Lemma coherent_counter c m g b o v m' :
  coherent {| w_cache := c; w_mem := m; w_blocks := g |} ->
  g !! b = Some o -> store32 m (u32 (b + counter_vec_off th)) v = Some m' ->
  coherent {| w_cache := c; w_mem := m'; w_blocks := g |}.
Proof.
  intros Hco Hg Hst. pose proof Hco as [Hc Hb Hd]. cbn [w_cache w_mem w_blocks] in *.
  destruct (Hb b o Hg) as (_ & Hm & _). destruct (own_slot_bounds m b Hm) as (_ & Ec & X1 & X2 & X3).
  apply (coherent_other c m); [done | | intros; by eapply store_mapped].
  intros b' [o' Hg']. destruct (Hb b' o' Hg') as (_ & Hm' & _).
  destruct (own_slot_bounds m b' Hm') as (Ee & _ & _).
  apply (load_store_ne _ _ _ _ _ _ _ Hst). rewrite Ec, Ee.
  destruct (decide (b' = b)) as [-> | Hn]; [lia |].
  specialize (Hd b b' ltac:(by eexists) ltac:(by eexists) ltac:(congruence)).
  unfold headers_disjoint, hsize in *. lia.
Qed.

Lemma wstep_coherent w w' : coherent w -> wstep w w' -> coherent w'.
Proof.
  intros Hco Hs. destruct Hs as [c m g b p m' H1 H2 H3 H4 H5 H6 | c m g | c m g | c m g b o f c' m' H1 H2
    | c m g b o r c' m' H1 H2 | c m g m' H1 H2].
  - by eapply coherent_generate.
  - apply coherent_no_blocks. apply Hco.
  - by apply coherent_evict.
  - by eapply coherent_add.
  - by eapply coherent_lookup.
  - by apply (coherent_other c m).
Qed.

(** A thread starts with its zeroed table, before any block is current for it. *)
Definition world_init (alive_global : Z) (m : mem) : world :=
  {| w_cache := cache_init alive_global; w_mem := m; w_blocks := ∅ |}.

Lemma reachable_coherent alive m w : rtc wstep (world_init alive m) w -> coherent w.
Proof.
  assert (Hi : coherent (world_init alive m)).
  { apply coherent_no_blocks, cache_init_ok. }
  intros Hr. revert Hi. induction Hr as [| w1 w2 w3 Hs _ IH]; [done |]. intros Hi. apply IH. by eapply wstep_coherent.
Qed.

End Coherence.

(** ** A concrete table *)

(** A table whose first slots hold [l] and whose hand is at its start. *)
Definition filled (l : list instance_info) : cache :=
  {| instance_running := l ++ replicate (LEN - length l) null_info; instance_slots_hw := length l;
     instance_clock_hand := 0; free_slots := []; to_remove := []; freed_functions := [];
     instance_running_local := Z.of_nat (length l); instance_alive_local := Z.of_nat (length l);
     instance_alive_global := Z.of_nat (length l) |}.

Lemma countb_all {A} (p : A -> bool) l : Forall (fun x => p x = true) l -> countb p l = length l.
Proof. induction 1 as [| x l Hx _ IH]; cbn; [done |]. by rewrite Hx, IH. Qed.

Lemma filled_ok l :
  Z.of_nat (length l) <= INSTANCE_RUNNING_LEN -> Forall (fun e => live e = true) l -> cache_ok (filled l).
Proof.
  intros Hl Hlive. assert (HL : (length l <= LEN)%nat) by (unfold LEN; lia).
  split; [split | | done | done]; cbn [filled instance_running instance_slots_hw instance_clock_hand free_slots
    instance_running_local].
  - rewrite length_app, length_replicate. lia.
  - done.
  - destruct l; cbn [length]; [by right | left; lia].
  - intros i e Hi Hle. rewrite lookup_app_r in Hi by done. apply lookup_replicate in Hi as [-> _]. done.
  - intros i. rewrite elem_of_nil. split; [done |]. intros [Hi (e & He & Hd)].
    rewrite lookup_app_l in He by done. rewrite Forall_lookup in Hlive. by rewrite (Hlive i e He) in Hd.
  - constructor.
  - unfold live_count. cbn [filled instance_running]. rewrite countb_app, countb_replicate by done.
    rewrite countb_all by done. lia.
Qed.

(** Sixteen instances, every other one run since the last sweep. *)
Definition sixteen : list instance_info :=
  (fun i => {| tb := 4096 * i; fidx := 100 + i; used := i mod 2 |}) <$> seqZ 1 16.

Lemma sixteen_ok : cache_ok (filled sixteen).
Proof. apply filled_ok; [by vm_compute | vm_compute; repeat constructor]. Qed.

(** ** The properties *)

(** C29: an eviction of a consistent table leaves it consistent and frees exactly
    the number of instances it aims for (an eighth, or all of fewer than eight)
    within its two sweeps; both counters and the list of freed functions change by
    exactly that number, and no compiled function is lost or freed twice. *)
Theorem remove_instance_exact c :
  cache_ok c ->
  let c' := remove_instance_running_local c in
  let want := evict_want (instance_running_local c) in
  cache_ok c' /\
  instance_running_local c' = instance_running_local c - want /\
  instance_alive_global c' = instance_alive_global c - want /\
  Z.of_nat (length (freed_functions c')) = Z.of_nat (length (freed_functions c)) + want /\
  freed_functions c' ++ live_functions c' ≡ₚ freed_functions c ++ live_functions c.
Proof. intros Hc. by destruct (remove_evicted c Hc). Qed.

Lemma remove_instance_exact_witness :
  instance_running_local (remove_instance_running_local (filled sixteen)) = 14 /\
  length (freed_functions (remove_instance_running_local (filled sixteen))) = 2%nat.
Proof.
  destruct (remove_instance_exact (filled sixteen) sixteen_ok) as (_ & H1 & _ & H2 & _).
  split; [exact H1 |]. change (evict_want (instance_running_local (filled sixteen))) with 2 in H2.
  cbn [filled freed_functions length] in H2. lia.
Defined.

(** second chance: as long as enough instances have not run since the last
    sweep, an eviction takes none that has: each keeps its slot, block and
    function. *)
Theorem eviction_spares_used c i e :
  cache_ok c -> evict_want (instance_running_local c) <= Z.of_nat (countb idle (instance_running c)) ->
  instance_running c !! i = Some e -> live e = true -> used e <> 0 ->
  exists e', instance_running (remove_instance_running_local c) !! i = Some e' /\
    tb e' = tb e /\ fidx e' = fidx e.
Proof. intros Hc Hw Hi Hl Hu. destruct (remove_evicted c Hc) as [_ _ _ _ _ _ _ H]. by apply (H Hw i e). Qed.

Lemma eviction_spares_used_witness :
  exists e', instance_running (remove_instance_running_local (filled sixteen)) !! 2%nat = Some e' /\
    tb e' = 12288 /\ fidx e' = 103.
Proof.
  apply (eviction_spares_used (filled sixteen) 2 {| tb := 12288; fidx := 103; used := 1 |} sixteen_ok).
  - change (evict_want (instance_running_local (filled sixteen))) with 2. cbn [filled instance_running].
    rewrite countb_app. change (countb idle sixteen) with 8%nat. lia.
  - reflexivity.
  - reflexivity.
  - discriminate.
Defined.

Lemma nodup_below_length (l : list nat) n : NoDup l -> (forall i, i ∈ l -> (i < n)%nat) -> (length l <= n)%nat.
Proof.
  intros Hnd Hb. assert (E : length (seq 0 n) = n) by apply length_seq. rewrite <- E.
  apply submseteq_length, NoDup_submseteq; [done |].
  intros i Hi. apply elem_of_seq. specialize (Hb i Hi). lia.
Qed.

(** no array of the cache is ever indexed outside its bounds by an eviction:
    after any number of iterations the clock hand is a table slot, the buffer of
    functions to remove holds at most an eighth of the table, far below its size,
    and the free list fits its array. *)
Theorem sweep_within_arrays c n :
  cache_ok c -> 0 < instance_running_local c ->
  let c' := fst (sweep n (Z.to_nat (evict_want (instance_running_local c))) 0 c) in
  Z.of_nat (instance_clock_hand c') < INSTANCE_RUNNING_LEN /\
  Z.of_nat (length (to_remove c')) <= 8192 < TO_REMOVE_INSTANCE_SIZE /\
  Z.of_nat (length (free_slots c')) <= INSTANCE_RUNNING_LEN.
Proof.
  intros Hc Hpos. cbv zeta. pose proof (live_count_range c Hc) as Hr.
  pose proof (evict_want_eighth _ (proj1 Hr)) as Hw. destruct Hc as [Hok Hrun _ Hb].
  destruct (sweep n (Z.to_nat (evict_want (instance_running_local c))) 0 c) as [c' freed] eqn:Es. cbn [fst].
  assert (Hh : (instance_clock_hand c < instance_slots_hw c)%nat).
  { destruct (ok_hand c Hok) as [| [_ Hz]]; [done | exfalso].
    assert (Hn : evictable_within c 0).
    { intros i e Hi Hl. pose proof (live_below_hw c i e Hok Hi Hl). lia. }
    apply no_live_count in Hn. lia. }
  destruct (sweep_ok _ _ _ _ _ _ Hok (or_introl Hh) Es) as (Hok' & _ & _ & Ht & _ & Hmax).
  rewrite Hb in Ht. cbn [length] in Ht. assert (HL : Z.of_nat LEN = INSTANCE_RUNNING_LEN) by (unfold LEN, INSTANCE_RUNNING_LEN; lia).
  pose proof (ok_hw c' Hok'). assert (Hd : instance_running_local c / 8 <= 8192).
  { apply Z.div_le_upper_bound; [lia |]. unfold INSTANCE_RUNNING_LEN in Hr. lia. }
  split_and!.
  - destruct (ok_hand c' Hok') as [| [-> _]]; [lia |]. unfold INSTANCE_RUNNING_LEN. lia.
  - lia.
  - unfold TO_REMOVE_INSTANCE_SIZE. lia.
  - enough (length (free_slots c') <= LEN)%nat by lia. apply nodup_below_length; [apply Hok' |].
    intros i Hi. apply (ok_free c' Hok') in Hi as [Hi _]. lia.
Qed.

Lemma sweep_within_arrays_witness :
  Z.of_nat (length (to_remove (fst (sweep 20 2 0 (filled sixteen))))) <= 8192.
Proof. destruct (sweep_within_arrays (filled sixteen) 20 sixteen_ok) as (_ & [H _] & _);
  [reflexivity | exact H]. Defined.

(** an insertion into a consistent table always finds a slot (evicting first
    when every slot is taken), keeps the table consistent, accounts for exactly the
    new function, and the block's next lookup on this thread returns it. *)
Theorem add_then_get base th t f b c m :
  thread_ok th -> cache_ok c -> header_mapped th m b -> 0 < b -> 0 < base ->
  base + SIZEOF_INSTANCE_INFO * INSTANCE_RUNNING_LEN <= 2 ^ 32 ->
  exists c' m', add_instance_running_local base th f b c m = Some (c', m') /\
    cache_ok c' /\
    freed_functions c' ++ live_functions c' ≡ₚ f :: freed_functions c ++ live_functions c /\
    exists c'', get_instance_running_local base th t b c' m' = Some (f, c'', m').
Proof.
  intros Hth Hc Hm Hb Hb0 Hb1.
  destruct (add_added base th f b c m Hc ltac:(lia) (proj1 (own_mapped th Hth m b Hm)))
    as (c' & m' & idx & E & [Hok Hidx Hslot Hst _ Hfn]).
  exists c', m'. split_and!; [done | done | exact Hfn |].
  unfold get_instance_running_local. rewrite (load_store32_eq _ _ _ _ Hst). cbn [mbind option_bind].
  assert (Hu : u32 (slot_addr_of base idx) = slot_addr_of base idx).
  { apply uw_small. unfold is_u, slot_addr_of, LEN, INSTANCE_RUNNING_LEN, SIZEOF_INSTANCE_INFO in *. lia. }
  rewrite Hu. destruct (Z.eqb_spec (slot_addr_of base idx) 0) as [Hz |].
  { unfold slot_addr_of, SIZEOF_INSTANCE_INFO in Hz. lia. }
  rewrite slot_index_addr by done. cbn [mbind option_bind]. rewrite (list_lookup_total_correct _ _ _ Hslot).
  cbn [tb fidx]. rewrite Z.eqb_refl. cbn [negb]. by eexists.
Qed.

(** The second of two threads, and a memory that holds one header at 4096. *)
Definition demo_thread : wthread :=
  {| cur_core_num := 1; all_cores_num := 2; export_vec_off := 12; counter_vec_off := 24 |}.

Definition demo_mem : mem := list_to_map ((fun i => (4096 + i, 255)) <$> seqZ 0 32).

Lemma demo_thread_ok : thread_ok demo_thread.
Proof. by vm_compute. Qed.

Lemma demo_mem_mapped : mapped demo_mem 4096 32.
Proof. apply mapped_dec_true. by vm_compute. Qed.

Lemma demo_header : header_mapped demo_thread demo_mem 4096.
Proof. split_and!; [done | done |]. apply (mapped_sub _ 4096 32); [apply demo_mem_mapped | done | done]. Qed.

Lemma add_then_get_witness :
  exists c' m', add_instance_running_local 8192 demo_thread 7 4096 (filled sixteen) demo_mem = Some (c', m') /\
    cache_ok c' /\ exists c'', get_instance_running_local 8192 demo_thread tune_default 4096 c' m' = Some (7, c'', m').
Proof.
  destruct (add_then_get 8192 demo_thread tune_default 7 4096 (filled sixteen) demo_mem demo_thread_ok sixteen_ok
    demo_header) as (c' & m' & H1 & H2 & _ & H3); [reflexivity | reflexivity | discriminate |].
  exists c', m'. split; [exact H1 | split; [exact H2 | exact H3]].
Defined.

(** C9: whatever sequence of code generation, cache flushes, evictions,
    insertions, lookups and writes by other threads led here, looking up a current
    block neither faults nor returns another block's function or an outdated one:
    it gives 0 or the function added last since the block's code was generated. *)
Theorem lookup_coherent base th t alive m w b o :
  thread_ok th -> all_cores_num th < 2 ^ 24 ->
  0 < base /\ base + SIZEOF_INSTANCE_INFO * INSTANCE_RUNNING_LEN <= 2 ^ 32 ->
  rtc (wstep base th t) (world_init alive m) w -> w_blocks w !! b = Some o ->
  exists r c' m', get_instance_running_local base th t b (w_cache w) (w_mem w) = Some (r, c', m') /\
    (r = 0 \/ o = Some r).
Proof.
  intros Hth Hcores Hbase Hr Ho. pose proof (reachable_coherent base th t Hth Hcores Hbase alive m w Hr) as Hco.
  destruct w as [c mm g]. cbn [w_cache w_mem w_blocks] in *.
  destruct (get_cases base th t Hth c mm g b o Hco Ho) as [E | [(m1 & m2 & E & _) | (i & e & _ & _ & -> & E)]];
    rewrite E; eauto 6.
Qed.

(** The world after the code of a block was generated at 4096. *)
Lemma demo_generated :
  exists m', rtc (wstep 8192 demo_thread tune_default) (world_init 0 demo_mem)
    {| w_cache := cache_init 0; w_mem := m'; w_blocks := <[4096 := None]> ∅ |}.
Proof.
  destruct (tb_header_out_fresh 2 4096 demo_mem) as (m' & E & _); [lia | |].
  { apply (mapped_sub _ 4096 32); [apply demo_mem_mapped | done | done]. }
  exists m'. eapply rtc_l; [| apply rtc_refl]. eapply (ws_generate 8192 demo_thread tune_default (cache_init 0) demo_mem).
  - apply lookup_empty.
  - intros b' [x Hx]. by rewrite lookup_empty in Hx.
  - done.
  - done.
  - apply (mapped_sub _ 4096 32); [apply demo_mem_mapped | done | done].
  - exact E.
Qed.

(** The world after a function was added for it. *)
Lemma demo_added :
  exists w, rtc (wstep 8192 demo_thread tune_default) (world_init 0 demo_mem) w /\
    w_blocks w !! 4096 = Some (Some 7).
Proof.
  destruct demo_generated as [m' Hr].
  pose proof (reachable_coherent 8192 demo_thread tune_default demo_thread_ok eq_refl ltac:(by vm_compute)
    0 demo_mem _ Hr) as [Hc Hb _].
  destruct (Hb 4096 None) as (_ & Hm & _); [apply lookup_insert_eq |]. cbn [w_cache w_mem] in Hc, Hm.
  destruct (add_added 8192 demo_thread 7 4096 (cache_init 0) m' Hc ltac:(done)
    (proj1 (own_mapped demo_thread demo_thread_ok m' 4096 Hm))) as (c1 & m1 & idx & Ea & _).
  eexists. split.
  - eapply rtc_r; [exact Hr |]. eapply ws_add; [apply lookup_insert_eq | exact Ea].
  - apply lookup_insert_eq.
Qed.

Lemma lookup_coherent_witness :
  exists w r c' m', w_blocks w !! 4096 = Some (Some 7) /\
    get_instance_running_local 8192 demo_thread tune_default 4096 (w_cache w) (w_mem w) = Some (r, c', m') /\
    (r = 0 \/ Some 7 = Some r).
Proof.
  destruct demo_added as (w & Hr & Ho). exists w.
  destruct (lookup_coherent 8192 demo_thread tune_default 0 demo_mem w 4096 (Some 7) demo_thread_ok)
    as (r & c' & m' & H1 & H2).
  - reflexivity.
  - split; [reflexivity | discriminate].
  - exact Hr.
  - exact Ho.
  - exists r, c', m'. split; [exact Ho | split; [exact H1 | exact H2]].
Defined.
