(* ===== verification/Dispatch.v ===== *)
(** * The dispatcher

    Models [tcg_qemu_tb_exec] of tcg/wasm32.c, the loop a vCPU thread runs for
    every chain of blocks: find the block's compiled function, or decide between
    interpreting and compiling it, run it, and go on with the block it leaves in
    [ctx.tb_ptr].  An iteration is [trysleep], then [choose] (everything up to the
    call of the interpreter or of the compiled function), then the run.

    The browser (compiling a module, yielding, the clock), the compiled functions
    and the re-translation of a block ([bb_tb_regen_wasm]) are the interface
    [Host]; what the theorems need of it is [HostLaws]. *)
From S2P Require Import Prelude Memory Tune TbHeader InstanceCache CacheCoherence Tci TciHot.

(** ** The interface to the browser and to compiled code *)

Class Host (W : Type) := {
  (** [instantiate_wasm(key, gen, share)]: the function's table index, 0 when the
      host refuses; reads the module at [ctx.tb_ptr] *)
  instantiate_wasm : Z -> Z -> bool -> tci_state W -> Z * tci_state W;
  (** [bb_tb_regen_wasm]: the scratch copy of the block with its module, or 0 *)
  bb_tb_regen_wasm : Z -> tci_state W -> Z * tci_state W;
  bb_tb_flush_gen : tci_state W -> Z;
  bb_share_has : Z -> Z -> tci_state W -> bool;
  (** a compiled function with the chain budget it may use; marks the instances
      it chains to as used *)
  run_compiled : Z -> Z -> cache -> tci_state W -> result W * cache;
  (** [bb_clock_ms] with the test [now - last > 5], and the two ways to yield *)
  clock : Type;
  bb_clock_ms : tci_state W -> clock;
  later_5ms : clock -> clock -> bool;
  bb_yield_js : tci_state W -> tci_state W;
  emscripten_sleep : tci_state W -> tci_state W
}.

Definition MAX_EXEC_NUM : Z := 50000.

(** ** The dispatcher's state *)

Record dispatch (W : Type) `{Host W} := {
  d_tci : tci_state W;
  d_cache : cache;
  d_max_alive : Z;              (* wasm_max_instance_alive *)
  d_exec_cnt : Z;
  d_share_posted : Z;
  d_share_seen : Z;
  d_share_last_yield : clock;
  d_garbage_collected : Z       (* instance_garbage_collected_local *)
}.

Arguments d_tci {W _}.
Arguments d_cache {W _}.
Arguments d_max_alive {W _}.
Arguments d_exec_cnt {W _}.
Arguments d_share_posted {W _}.
Arguments d_share_seen {W _}.
Arguments d_share_last_yield {W _}.
Arguments d_garbage_collected {W _}.

(** What an iteration does with the block. *)
Inductive choice := RunCompiled (fidx : Z) | Interpret.

Inductive dresult (W : Type) `{Host W} : Type :=
| DRet (v : Z) (d : dispatch W)
| DNext (d : dispatch W)
| DLongjmp (d : dispatch W)
| DAbort
| DTrap.

Arguments DRet {W _} v d.
Arguments DNext {W _} d.
Arguments DLongjmp {W _} d.
Arguments DAbort {W _}.
Arguments DTrap {W _}.

Section Dispatch.
Context {W : Type} `{!Helpers W} `{HH : !Host W}.
Context (cfg : tci_cfg) (base : Z).
Implicit Type d : dispatch W.

Definition set_d_tci (v : tci_state W) d : dispatch W :=
  {| d_tci := v; d_cache := d_cache d; d_max_alive := d_max_alive d; d_exec_cnt := d_exec_cnt d;
     d_share_posted := d_share_posted d; d_share_seen := d_share_seen d;
     d_share_last_yield := d_share_last_yield d; d_garbage_collected := d_garbage_collected d |}.

Definition set_d_cache (v : cache) d : dispatch W :=
  {| d_tci := d_tci d; d_cache := v; d_max_alive := d_max_alive d; d_exec_cnt := d_exec_cnt d;
     d_share_posted := d_share_posted d; d_share_seen := d_share_seen d;
     d_share_last_yield := d_share_last_yield d; d_garbage_collected := d_garbage_collected d |}.

Definition set_d_max_alive (v : Z) d : dispatch W :=
  {| d_tci := d_tci d; d_cache := d_cache d; d_max_alive := v; d_exec_cnt := d_exec_cnt d;
     d_share_posted := d_share_posted d; d_share_seen := d_share_seen d;
     d_share_last_yield := d_share_last_yield d; d_garbage_collected := d_garbage_collected d |}.

Definition set_d_exec_cnt (v : Z) d : dispatch W :=
  {| d_tci := d_tci d; d_cache := d_cache d; d_max_alive := d_max_alive d; d_exec_cnt := v;
     d_share_posted := d_share_posted d; d_share_seen := d_share_seen d;
     d_share_last_yield := d_share_last_yield d; d_garbage_collected := d_garbage_collected d |}.

Definition set_d_share_posted (v : Z) d : dispatch W :=
  {| d_tci := d_tci d; d_cache := d_cache d; d_max_alive := d_max_alive d; d_exec_cnt := d_exec_cnt d;
     d_share_posted := v; d_share_seen := d_share_seen d;
     d_share_last_yield := d_share_last_yield d; d_garbage_collected := d_garbage_collected d |}.

Definition set_d_share_seen (v : Z) (now : clock) d : dispatch W :=
  {| d_tci := d_tci d; d_cache := d_cache d; d_max_alive := d_max_alive d; d_exec_cnt := d_exec_cnt d;
     d_share_posted := d_share_posted d; d_share_seen := v;
     d_share_last_yield := now; d_garbage_collected := d_garbage_collected d |}.

Definition check_instance_garbage_collected d : dispatch W :=
  {| d_tci := d_tci d; d_cache := d_cache d; d_max_alive := d_max_alive d; d_exec_cnt := d_exec_cnt d;
     d_share_posted := d_share_posted d; d_share_seen := d_share_seen d;
     d_share_last_yield := d_share_last_yield d; d_garbage_collected := 0 |}.

(** The tunables with the live cap as it stands. *)
Definition cur_tune d : tune := set wasm_max_instance_alive (d_max_alive d) (cfg_tune cfg).

Definition sharing : bool := negb (cfg_tune cfg bb_share_on =? 0).

(** The memory after a store, as a step of the dispatcher. *)
Definition set_d_mem (m : mem) d : dispatch W := set_d_tci (set_mem m (d_tci d)) d.

(** ** Yielding *)

(** Takes in modules other vCPUs posted, when at least 8 are pending and the last
    time was more than 5 ms ago. *)
Definition take_posted d : dispatch W :=
  if sharing && (Z.land (d_exec_cnt d) 2047 =? 0) then
    let p := d_share_posted d in
    if 8 <=? u32 (p - d_share_seen d) then
      let now := bb_clock_ms (d_tci d) in
      if later_5ms now (d_share_last_yield d) then
        let d := set_d_share_seen p now d in
        set_d_tci (bb_yield_js (d_tci d)) d
      else d
    else d
  else d.

Definition trysleep d : dispatch W :=
  let d := take_posted d in
  let d := set_d_exec_cnt (s32 (d_exec_cnt d - 1)) d in
  if d_exec_cnt d =? 0 then
    let d := if can_add_instance (cur_tune d) (d_cache d) then d
             else check_instance_garbage_collected (set_d_tci (emscripten_sleep (d_tci d)) d) in
    set_d_exec_cnt MAX_EXEC_NUM d
  else d.

(** ** Compiling a block *)

(** Whether to post the compiled module to the other vCPUs. *)
Definition want_post d (live : Z) : option bool :=
  if sharing then tb_run_elsewhere (cfg_thread cfg) (tmem (d_tci d)) live else Some false.

Definition count_post (post : bool) (fidx : Z) d : dispatch W :=
  if post && (0 <? fidx) then set_d_share_posted (u32 (d_share_posted d + 1)) d else d.

(** The compile of the block at [ctx.tb_ptr]: take a module another vCPU compiled,
    or compile the module stored with the block, or, when there is none, one from
    a re-translation.  The result is the function, 0 (refused) or -1 (not
    re-translatable now). *)
Definition compile d : option (Z * dispatch W) :=
  let st := d_tci d in
  let m := tmem st in
  let t := ctx_tb_ptr st in
  off ← load32 m t;
  let body := u32 (t + off) in
  let gen := bb_tb_flush_gen st in
  let key := u32 t in
  if sharing && bb_share_has key gen st then
    let '(fidx, st) := instantiate_wasm key gen true st in
    Some (fidx, set_d_tci st d)
  else
    size ← load32 m (u32 (body - 4));
    module_size ← load32 m (u32 (body + size));
    if module_size =? 0 then
      let live := t in
      let '(copy, st) := bb_tb_regen_wasm live st in
      let d := set_d_tci st d in
      if copy =? 0 then Some (-1, d)
      else
        let d := set_d_tci (set_ctx_tb_ptr copy (d_tci d)) d in
        post ← want_post d live;
        let '(fidx, st) := instantiate_wasm key gen post (d_tci d) in
        let d := set_d_tci (set_ctx_tb_ptr live st) d in
        Some (fidx, count_post post fidx d)
    else
      post ← want_post d t;
      let '(fidx, st) := instantiate_wasm key gen post st in
      Some (fidx, count_post post fidx (set_d_tci st d)).

(** The host refused to compile: settle the cap just under the live count, but
    not under the default. *)
Definition settle_cap d : dispatch W :=
  let alive := instance_alive_global (d_cache d) in
  let cap := Z.max MAX_INSTANCE_ALIVE (alive - Z.quot alive 8) in
  if cap <? d_max_alive d then set_d_max_alive cap d else d.

(** ** One iteration *)

Definition tb_counter_ptr d : Z := u32 (ctx_tb_ptr (d_tci d) + counter_vec_off (cfg_thread cfg)).

Definition store_counter (v : Z) (ptr : Z) d : option (dispatch W) :=
  m ← store32 (tmem (d_tci d)) ptr v; Some (set_d_mem m d).

(** What follows a compile. *)
Definition after_compile (fidx counter_ptr : Z) d : option (choice * dispatch W) :=
  if fidx =? -1 then
    d ← store_counter 0 counter_ptr d;
    Some (Interpret, d)
  else if 0 <? fidx then
    '(c, m) ← add_instance_running_local base (cfg_thread cfg) fidx (ctx_tb_ptr (d_tci d)) (d_cache d) (tmem (d_tci d));
    Some (RunCompiled fidx, set_d_cache c (set_d_mem m d))
  else
    let d := settle_cap d in
    d ← store_counter 0 counter_ptr d;
    Some (Interpret, set_d_cache (remove_instance_running_local (d_cache d)) d).

(** Everything before the block runs. *)
Definition choose d : option (choice * dispatch W) :=
  let th := cfg_thread cfg in
  let tb := ctx_tb_ptr (d_tci d) in
  let counter_ptr := tb_counter_ptr d in
  '(fidx, c, m) ← get_instance_running_local base th (cur_tune d) tb (d_cache d) (tmem (d_tci d));
  let d := set_d_cache c (set_d_mem m d) in
  if 0 <? fidx then Some (RunCompiled fidx, d)
  else
    cnt ← load32 m counter_ptr;
    tci ← tb_wants_tci (cur_tune d) th m (s32 cnt) tb;
    if tci : bool then
      d ← store_counter (cnt + 1) counter_ptr d;
      Some (Interpret, d)
    else if negb (can_add_instance (cur_tune d) (d_cache d)) then
      Some (Interpret, check_instance_garbage_collected (set_d_cache (remove_instance_running_local (d_cache d)) d))
    else
      '(fidx, d) ← compile d;
      after_compile fidx counter_ptr d.

(** The run of the block and the end of the iteration. *)
Definition finish (r : result W) d : dresult W :=
  match r with
  | Ret v st => if ctx_tb_ptr st =? 0 then DRet v (set_d_tci st d) else DNext (set_d_tci st d)
  | Longjmp st => DLongjmp (set_d_tci st d)
  | Abort => DAbort
  | Trap => DTrap
  end.

Definition dispatch_iter (fuel : nat) d : option (dresult W) :=
  match choose (trysleep d) with
  | None => Some DTrap
  | Some (RunCompiled fidx, d) =>
      let '(r, c) := run_compiled fidx (cfg_tune cfg wasm_chain_budget) (d_cache d) (d_tci d) in
      Some (finish r (set_d_cache c d))
  | Some (Interpret, d) =>
      r ← tci_exec cfg fuel (d_tci d);
      Some (finish r d)
  end.

(** [tcg_qemu_tb_exec(env, v_tb_ptr)]; [None]: out of fuel. *)
Fixpoint dispatch_loop (fuel : nat) d : option (dresult W) :=
  match fuel with
  | O => None
  | S fuel =>
      r ← dispatch_iter fuel d;
      match r with DNext d => dispatch_loop fuel d | r => Some r end
  end.

Definition tcg_qemu_tb_exec (fuel : nat) (v_tb_ptr : Z) d : option (dresult W) :=
  dispatch_loop fuel (set_d_tci (set_ctx_tb_ptr v_tb_ptr (d_tci d)) d).

End Dispatch.

(** ** What the host keeps *)

(** Compiling reads the module and writes nothing; re-translating a block writes
    only the thread's scratch buffer [[scratch_lo, scratch_hi)].  Neither moves
    [ctx.tb_ptr]. *)
Class HostLaws (W : Type) `{Host W} := {
  scratch_lo : Z;
  scratch_hi : Z;
  instantiate_mem : forall key gen share st,
    tmem (snd (instantiate_wasm key gen share st)) = tmem st;
  instantiate_ptr : forall key gen share st,
    ctx_tb_ptr (snd (instantiate_wasm key gen share st)) = ctx_tb_ptr st;
  regen_ptr : forall tb st, ctx_tb_ptr (snd (bb_tb_regen_wasm tb st)) = ctx_tb_ptr st;
  regen_load : forall tb st p k, p + Z.of_nat k <= scratch_lo \/ scratch_hi <= p ->
    load k (tmem (snd (bb_tb_regen_wasm tb st))) p = load k (tmem st) p;
  regen_mapped : forall tb st p k,
    mapped (tmem st) p k -> mapped (tmem (snd (bb_tb_regen_wasm tb st))) p k
}.

Section Properties.
Context {W : Type} `{!Helpers W} `{HH : !Host W} `{!HostLaws W}.
Context (cfg : tci_cfg) (base : Z).
Implicit Type d : dispatch W.

Abbreviation th := (cfg_thread cfg).

(** What a compile leaves alone: the table, the cap and, outside the scratch
    buffer, the memory. *)
Record compile_frame d d' : Prop := {
  cf_cache : d_cache d' = d_cache d;
  cf_max : d_max_alive d' = d_max_alive d;
  cf_ptr : ctx_tb_ptr (d_tci d') = ctx_tb_ptr (d_tci d);
  cf_load : forall p k, p + Z.of_nat k <= scratch_lo \/ scratch_hi <= p ->
    load k (tmem (d_tci d')) p = load k (tmem (d_tci d)) p;
  cf_mapped : forall p k, mapped (tmem (d_tci d)) p k -> mapped (tmem (d_tci d')) p k
}.

Lemma count_post_frame d d' post f : compile_frame d d' -> compile_frame d (count_post post f d').
Proof. intros [H1 H2 H3 H4 H5]. unfold count_post. destruct (post && (0 <? f)); by split. Qed.

Lemma instantiate_frame d key gen post :
  compile_frame d (set_d_tci (snd (instantiate_wasm key gen post (d_tci d))) d).
Proof.
  split; cbn [set_d_tci d_cache d_max_alive d_tci]; try done; rewrite ?instantiate_ptr, ?instantiate_mem; done.
Qed.

Lemma compile_keeps d f d' : compile cfg d = Some (f, d') -> compile_frame d d'.
Proof.
  unfold compile. destruct (load32 _ (ctx_tb_ptr (d_tci d))) as [off |]; [cbn [mbind option_bind] | done].
  set (gen := bb_tb_flush_gen (d_tci d)). set (key := u32 (ctx_tb_ptr (d_tci d))).
  destruct (sharing cfg && bb_share_has key gen (d_tci d)).
  { pose proof (instantiate_frame d key gen true) as Hf. destruct (instantiate_wasm key gen true (d_tci d)) as [x st].
    by intros [= <- <-]. }
  destruct (load32 _ (u32 (u32 _ - 4))) as [size |]; [cbn [mbind option_bind] | done].
  destruct (load32 _ (u32 (u32 _ + size))) as [msize |]; [cbn [mbind option_bind] | done].
  destruct (Z.eqb_spec msize 0) as [_ | _].
  - pose proof (regen_ptr (ctx_tb_ptr (d_tci d)) (d_tci d)) as Hp.
    pose proof (regen_load (ctx_tb_ptr (d_tci d)) (d_tci d)) as Hl.
    pose proof (regen_mapped (ctx_tb_ptr (d_tci d)) (d_tci d)) as Hm.
    destruct (bb_tb_regen_wasm _ _) as [copy st]. cbn [snd] in *.
    destruct (Z.eqb_spec copy 0) as [_ | _]; [by intros [= <- <-] |].
    destruct (want_post _ _ _) as [post |]; [cbn [mbind option_bind] | done].
    pose proof (instantiate_mem key gen post (set_ctx_tb_ptr copy st)) as Hi.
    cbn [set_d_tci d_tci]. destruct (instantiate_wasm key gen post _) as [x st']. cbn [snd] in *.
    intros [= <- <-]. apply count_post_frame. split; try done; cbn [set_d_tci set_ctx_tb_ptr d_tci tmem]; by rewrite Hi.
  - destruct (want_post _ _ _) as [post |]; [cbn [mbind option_bind] | done].
    pose proof (instantiate_frame d key gen post) as Hf. destruct (instantiate_wasm key gen post (d_tci d)) as [x st].
    intros [= <- <-]. by apply count_post_frame.
Qed.

(** ** The live cap *)

Lemma settle_cap_spec d :
  let d' := settle_cap d in
  d_tci d' = d_tci d /\ d_cache d' = d_cache d /\
  d_max_alive d' <= d_max_alive d /\ (d_max_alive d' = d_max_alive d \/ MAX_INSTANCE_ALIVE <= d_max_alive d').
Proof.
  unfold settle_cap. cbv zeta. destruct (Z.ltb_spec (Z.max MAX_INSTANCE_ALIVE
    (instance_alive_global (d_cache d) - Z.quot (instance_alive_global (d_cache d)) 8)) (d_max_alive d)) as [Hl | _].
  - cbn [set_d_max_alive d_tci d_cache d_max_alive]. split_and!; [done | done | lia | right; lia].
  - split_and!; [done | done | lia | by left].
Qed.

Lemma get_counts base' th' t b c m r c' m' :
  get_instance_running_local base' th' t b c m = Some (r, c', m') ->
  instance_alive_global c' = instance_alive_global c.
Proof.
  unfold get_instance_running_local. destruct (load32 m _) as [e |]; [cbn [mbind option_bind] | done].
  destruct (Z.eqb_spec e 0); [by intros [= <- <- <-] |]. destruct (slot_index base' e) as [i |]; [cbn [mbind option_bind] | done].
  destruct (negb _); [| by intros [= <- <- <-]].
  destruct (store32 m _ _) as [m1 |]; [cbn [mbind option_bind] | done].
  destruct (store32 m1 _ _) as [m2 |]; [cbn [mbind option_bind] | done]. by intros [= <- <- <-].
Qed.

Lemma add_counts_up base' th' f b c m c' m' :
  cache_ok c -> add_instance_running_local base' th' f b c m = Some (c', m') ->
  instance_alive_global c' <= instance_alive_global c + 1.
Proof.
  intros Hc. unfold add_instance_running_local.
  assert (Hr : instance_alive_global (make_room c) <= instance_alive_global c).
  { unfold make_room. destruct (free_slots c); [| done]. destruct (LEN <=? instance_slots_hw c)%nat; [| done].
    pose proof (live_count_range c Hc) as [H0 _]. pose proof (evict_want_range _ H0).
    pose proof (ev_global _ _ _ (remove_evicted c Hc)). lia. }
  generalize dependent (make_room c). intros c1 Hr.
  assert (Ht : instance_alive_global (snd (take_slot c1)) = instance_alive_global c1)
    by (unfold take_slot; by destruct (free_slots c1)).
  destruct (take_slot c1) as [idx c2]. cbn [snd] in Ht. destruct (LEN <=? idx)%nat; [done |].
  destruct (store32 m _ _) as [m1 |]; [cbn [mbind option_bind] | done]. intros [= <- <-].
  cbn [add_counts set_slot set_running instance_alive_global]. lia.
Qed.

(** ** The right code runs *)

Context (Hth : thread_ok th) (Hbase : 0 < base /\ base + SIZEOF_INSTANCE_INFO * INSTANCE_RUNNING_LEN <= 2 ^ 32).

(** The table and the headers of the current blocks agree, and the headers are
    not in the scratch buffer. *)
Definition dispatch_ok d (g : gmap Z (option Z)) : Prop :=
  coherent base th {| w_cache := d_cache d; w_mem := tmem (d_tci d); w_blocks := g |} /\
  forall b, is_Some (g !! b) -> b + header_size (all_cores_num th) <= scratch_lo \/ scratch_hi <= b.

Lemma store_counter_ok d d' g b o v :
  dispatch_ok d g -> g !! b = Some o ->
  store_counter v (u32 (b + counter_vec_off th)) d = Some d' ->
  dispatch_ok d' g /\ d_cache d' = d_cache d /\ d_max_alive d' = d_max_alive d /\
  load32 (tmem (d_tci d')) (u32 (b + counter_vec_off th)) = Some (u32 v).
Proof.
  intros [Hco Hs] Hg. unfold store_counter. destruct (store32 _ _ v) as [m' |] eqn:Est; [cbn [mbind option_bind] | done].
  intros [= <-]. cbn [set_d_mem set_d_tci set_mem d_cache d_max_alive d_tci tmem].
  split_and!; [| done | done | exact (load_store32_eq _ _ _ _ Est)].
  split; [| done]. exact (coherent_counter base th Hth _ _ g b o v m' Hco Hg Est).
Qed.

Lemma compile_ok d d' g f : dispatch_ok d g -> compile cfg d = Some (f, d') -> dispatch_ok d' g.
Proof.
  intros [Hco Hs] Ec. destruct (compile_keeps d f d' Ec) as [H1 H2 H3 H4 H5]. split; [| done]. rewrite H1.
  apply (coherent_other base th _ (tmem (d_tci d))); [done | | done].
  intros b Hb. pose proof Hb as [o Ho]. destruct Hco as [_ Hblk _]. destruct (Hblk b o Ho) as (_ & Hm & _).
  destruct (own_slot_bounds th Hth _ b Hm) as (Ee & _ & X1 & X2 & X3). apply H4. rewrite Ee.
  specialize (Hs b Hb). cbn [Z.of_nat]. lia.
Qed.

(** The size of the module stored with the block, as [compile] reads it. *)
Definition stored_module_size (m : mem) (tb : Z) : option Z :=
  off ← load32 m tb;
  size ← load32 m (u32 (u32 (tb + off) - 4));
  load32 m (u32 (u32 (tb + off) + size)).

(** [f] is what the host answers to the compile of block [tb] from state [st], under
    this block's key and the current generation: a module another vCPU posted; the
    module stored with the block; or, none being stored, the module of the scratch
    copy a re-translation of this block gave. *)
Definition compiled_for (tb : Z) (st : tci_state W) (f : Z) : Prop :=
  let answer post st0 := fst (instantiate_wasm (u32 tb) (bb_tb_flush_gen st) post st0) in
  (sharing cfg = true /\ bb_share_has (u32 tb) (bb_tb_flush_gen st) st = true /\ f = answer true st) \/
  (exists post size, stored_module_size (tmem st) tb = Some size /\ size <> 0 /\ f = answer post st) \/
  (exists post copy st1, stored_module_size (tmem st) tb = Some 0 /\ bb_tb_regen_wasm tb st = (copy, st1) /\ copy <> 0 /\
     f = answer post (set_ctx_tb_ptr copy st1)).

Lemma compile_answer d f d' : compile cfg d = Some (f, d') -> f <> -1 -> compiled_for (ctx_tb_ptr (d_tci d)) (d_tci d) f.
Proof.
  unfold compile, compiled_for, stored_module_size. set (tb := ctx_tb_ptr (d_tci d)). set (st := d_tci d).
  destruct (load32 _ tb) as [off |]; [cbn [mbind option_bind] | done].
  destruct (sharing cfg && _) eqn:Es.
  { apply andb_true_iff in Es as [Es1 Es2]. destruct (instantiate_wasm _ _ true st) as [x st'] eqn:Ei. intros [= <- <-] _.
    left. split_and!; [done | done |]. cbv beta zeta. by rewrite ?Ei. }
  destruct (load32 _ (u32 (u32 _ - 4))) as [size |]; [cbn [mbind option_bind] | done].
  destruct (load32 _ (u32 (u32 _ + size))) as [msize |]; [cbn [mbind option_bind] | done].
  destruct (Z.eqb_spec msize 0) as [-> | Hn].
  - destruct (bb_tb_regen_wasm tb st) as [copy st1]. destruct (Z.eqb_spec copy 0); [by intros [= <- _] |].
    destruct (want_post _ _ _) as [post |]; [cbn [mbind option_bind] | done]. cbn [set_d_tci d_tci].
    destruct (instantiate_wasm _ _ post _) as [x st'] eqn:Ei. intros [= <- _] _. right. right.
    exists post, copy, st1. split_and!; [done | done | done |]. cbv beta zeta. by rewrite ?Ei.
  - destruct (want_post _ _ _) as [post |]; [cbn [mbind option_bind] | done].
    destruct (instantiate_wasm _ _ post _) as [x st'] eqn:Ei. intros [= <- _] _. right. left.
    exists post, msize. split_and!; [done | done |]. cbv beta zeta. by rewrite ?Ei.
Qed.

(** What follows a compile that answered [f]: the function is entered for this block
    and run if there is one. *)
Definition entered (ch : choice) (tb f : Z) (g g' : gmap Z (option Z)) : Prop :=
  match ch with
  | Interpret => g' = g
  | RunCompiled f' => f' = f /\ 0 < f /\ g' = <[tb := Some f]> g
  end.

(** What [choose] gives: a compiled function only if it is the block's, entered before,
    or the host's answer to the compile of this block from the state [st] the lookup
    left. *)
Definition choice_ok (ch : choice) (tb : Z) (st : tci_state W) (o : option Z) (g g' : gmap Z (option Z)) : Prop :=
  match ch with
  | Interpret => g' = g
  | RunCompiled f => 0 < f /\ ((o = Some f /\ g' = g) \/ (compiled_for tb st f /\ g' = <[tb := Some f]> g))
  end.

Lemma after_compile_ok d d' g o f ch :
  dispatch_ok d g -> g !! ctx_tb_ptr (d_tci d) = Some o ->
  after_compile cfg base f (tb_counter_ptr cfg d) d = Some (ch, d') ->
  exists g', dispatch_ok d' g' /\ entered ch (ctx_tb_ptr (d_tci d)) f g g'.
Proof.
  intros Hd Hg. unfold after_compile, tb_counter_ptr. set (tb := ctx_tb_ptr (d_tci d)) in *. destruct (f =? -1).
  { destruct (store_counter 0 _ d) as [d1 |] eqn:E; [cbn [mbind option_bind] | done]. intros [= <- <-].
    exists g. split; [| done]. by apply (store_counter_ok d d1 g tb o 0). }
  destruct (Z.ltb_spec 0 f).
  { destruct (add_instance_running_local base th f tb (d_cache d) (tmem (d_tci d))) as [[c m] |] eqn:E;
      [cbn [mbind option_bind] | done]. intros [= <- <-]. exists (<[tb := Some f]> g). destruct Hd as [Hco Hs].
    split; [split |].
    - exact (coherent_add base th Hth Hbase _ _ g tb o f c m Hco Hg E).
    - intros b Hb. apply Hs. rewrite lookup_insert in Hb. case_decide; subst; eauto.
    - done. }
  destruct (settle_cap_spec d) as (E1 & E2 & _ & _). generalize dependent (settle_cap d). intros d1 E1 E2.
  destruct (store_counter 0 _ d1) as [d2 |] eqn:E; [cbn [mbind option_bind] | done]. intros [= <- <-].
  assert (Hd1 : dispatch_ok d1 g) by (unfold dispatch_ok; by rewrite E1, E2).
  destruct (store_counter_ok d1 d2 g tb o 0 Hd1 Hg E) as ([Hco Hs] & _). exists g. split; [| done].
  split; [| done]. by apply coherent_evict.
Qed.

Lemma choose_ok d d' g o ch :
  dispatch_ok d g -> g !! ctx_tb_ptr (d_tci d) = Some o -> choose cfg base d = Some (ch, d') ->
  exists g' f c m, dispatch_ok d' g' /\
    get_instance_running_local base th (cur_tune cfg d) (ctx_tb_ptr (d_tci d)) (d_cache d) (tmem (d_tci d)) = Some (f, c, m) /\
    choice_ok ch (ctx_tb_ptr (d_tci d)) (set_mem m (d_tci d)) o g g'.
Proof.
  intros [Hco Hs] Hg. unfold choose. unfold tb_counter_ptr. set (tb := ctx_tb_ptr (d_tci d)) in *.
  pose proof (get_cases base th (cur_tune cfg d) Hth _ _ g tb o Hco Hg) as Hcases.
  destruct (get_instance_running_local base th (cur_tune cfg d) tb (d_cache d) (tmem (d_tci d))) as [[[f c] m] |] eqn:Eg;
    [cbn [mbind option_bind] | done].
  pose proof (coherent_lookup base th _ Hth _ _ g tb o f c m Hco Hg Eg) as Hco1.
  assert (Hf : 0 < f -> o = Some f).
  { intros Hf. destruct Hcases as [H | [(m1 & m2 & H & _) | (i & e & _ & _ & -> & H)]]; injection H as -> _; [lia | lia | done]. }
  set (d1 := set_d_cache c (set_d_mem m d)). assert (Hd1 : dispatch_ok d1 g) by done.
  intros Hch. cut (exists g', dispatch_ok d' g' /\ choice_ok ch tb (set_mem m (d_tci d)) o g g').
  { intros (g' & H1 & H2). by exists g', f, c, m. }
  revert Hch. destruct (Z.ltb_spec 0 f) as [Hpos | _].
  { intros [= <- <-]. exists g. split; [done |]. split; [done | left]. split; [by apply Hf | done]. }
  destruct (load32 m _) as [cnt |]; [cbn [mbind option_bind] | done].
  destruct (tb_wants_tci _ _ _ _ _) as [[] |]; [| | done]; cbn [mbind option_bind].
  { destruct (store_counter (cnt + 1) _ d1) as [d2 |] eqn:E; [cbn [mbind option_bind] | done]. intros [= <- <-].
    exists g. split; [| done]. by apply (store_counter_ok d1 d2 g tb o (cnt + 1)). }
  destruct (can_add_instance (cur_tune cfg d1) (d_cache d1)); cbn [negb].
  2: { intros [= <- <-]. exists g. split; [| done]. split; [| done]. destruct Hd1 as [Hc _]. by apply coherent_evict. }
  destruct (compile cfg d1) as [[f2 d2] |] eqn:Ec; [cbn [mbind option_bind] | done]. intros Ea.
  pose proof (cf_ptr _ _ (compile_keeps d1 f2 d2 Ec)) as Ep. change (ctx_tb_ptr (d_tci d1)) with tb in Ep.
  rewrite <- Ep in Ea. destruct (after_compile_ok d2 d' g o f2 ch) as (g' & Hd' & He); [by apply (compile_ok d1 d2 g f2) | by rewrite Ep | exact Ea |].
  exists g'. split; [done |]. rewrite Ep in He. destruct ch as [f' |]; cbn in He |- *; [| done]. destruct He as (-> & Hp & ->).
  split; [done | right]. split; [| done]. exact (compile_answer d1 f2 d2 Ec ltac:(lia)).
Qed.

(** ** The cap and the counters *)

(** The cap only falls, never below the default; live instances grow only while
    under it. *)
Definition cap_kept d d' : Prop :=
  d_max_alive d' <= d_max_alive d /\
  (d_max_alive d' = d_max_alive d \/ MAX_INSTANCE_ALIVE <= d_max_alive d') /\
  instance_alive_global (d_cache d') <= Z.max (instance_alive_global (d_cache d)) (d_max_alive d).

Lemma evict_global c : cache_ok c -> instance_alive_global (remove_instance_running_local c) <= instance_alive_global c.
Proof.
  intros Hc. pose proof (live_count_range c Hc) as [H0 _]. pose proof (evict_want_range _ H0).
  pose proof (ev_global _ _ _ (remove_evicted c Hc)). lia.
Qed.

Lemma store_counter_fields v p d d' :
  store_counter v p d = Some d' -> d_cache d' = d_cache d /\ d_max_alive d' = d_max_alive d.
Proof.
  unfold store_counter. destruct (store32 _ _ _); [cbn [mbind option_bind] | done]. by intros [= <-].
Qed.

Lemma after_compile_cap d d' f p ch :
  cache_ok (d_cache d) -> instance_alive_global (d_cache d) < d_max_alive d ->
  after_compile cfg base f p d = Some (ch, d') -> cap_kept d d'.
Proof.
  intros Hc Hlt. unfold after_compile, cap_kept. destruct (f =? -1).
  { destruct (store_counter 0 _ d) as [d1 |] eqn:E; [cbn [mbind option_bind] | done]. intros [= <- <-].
    destruct (store_counter_fields _ _ _ _ E) as [-> ->]. split_and!; [lia | by left | lia]. }
  destruct (0 <? f).
  { destruct (add_instance_running_local _ _ _ _ _ _) as [[c m] |] eqn:E; [cbn [mbind option_bind] | done].
    intros [= <- <-]. cbn [set_d_cache set_d_mem set_d_tci d_max_alive d_cache].
    pose proof (add_counts_up _ _ _ _ _ _ _ _ Hc E). split_and!; [lia | by left | lia]. }
  destruct (settle_cap_spec d) as (E1 & E2 & H1 & H2). generalize dependent (settle_cap d). intros d1 E1 E2 H1 H2.
  destruct (store_counter 0 _ d1) as [d2 |] eqn:E; [cbn [mbind option_bind] | done]. intros [= <- <-].
  destruct (store_counter_fields _ _ _ _ E) as [F1 F2]. cbn [set_d_cache d_max_alive d_cache]. rewrite F1, F2, E2.
  pose proof (evict_global (d_cache d) Hc). split_and!; [lia | done | lia].
Qed.

Lemma choose_cap d d' g o ch :
  dispatch_ok d g -> g !! ctx_tb_ptr (d_tci d) = Some o -> choose cfg base d = Some (ch, d') -> cap_kept d d'.
Proof.
  intros [Hco Hs] Hg. unfold choose. set (tb := ctx_tb_ptr (d_tci d)) in *.
  destruct (get_instance_running_local base th (cur_tune cfg d) tb (d_cache d) (tmem (d_tci d))) as [[[f c] m] |] eqn:Eg;
    [cbn [mbind option_bind] | done].
  pose proof (coherent_lookup base th _ Hth _ _ g tb o f c m Hco Hg Eg) as [Hc1 _ _]. cbn [w_cache] in Hc1.
  pose proof (get_counts _ _ _ _ _ _ _ _ _ Eg) as Hal. unfold cap_kept.
  set (d1 := set_d_cache c (set_d_mem m d)). change (d_max_alive d) with (d_max_alive d1).
  destruct (0 <? f). { intros [= <- <-]. cbn [d_cache d1 set_d_cache]. split_and!; [lia | by left | lia]. }
  destruct (load32 m _) as [cnt |]; [cbn [mbind option_bind] | done].
  destruct (tb_wants_tci _ _ _ _ _) as [[] |]; [| | done]; cbn [mbind option_bind].
  { destruct (store_counter (cnt + 1) _ d1) as [d2 |] eqn:E; [cbn [mbind option_bind] | done]. intros [= <- <-].
    destruct (store_counter_fields _ _ _ _ E) as [-> ->]. cbn [d_cache d1 set_d_cache]. split_and!; [lia | by left | lia]. }
  unfold can_add_instance, cur_tune, set. rewrite decide_True by done.
  destruct (Z.ltb_spec (instance_alive_global (d_cache d1)) (d_max_alive d1)) as [Hlt | _]; cbn [negb].
  2: { intros [= <- <-]. cbn [check_instance_garbage_collected set_d_cache d_max_alive d_cache d1].
       pose proof (evict_global c Hc1). split_and!; [lia | by left | lia]. }
  destruct (compile cfg d1) as [[f2 d2] |] eqn:Ec; [cbn [mbind option_bind] | done]. intros Ea.
  destruct (compile_keeps d1 f2 d2 Ec) as [E1 E2 _ _ _].
  apply after_compile_cap in Ea as (A1 & A2 & A3); rewrite ?E1, ?E2 in *; [| done | done].
  cbn [d_cache d1 set_d_cache] in *. split_and!; [done | done | lia].
Qed.

(** ** The dispatcher never faults *)

(** The words a compile reads of the block: the offset of its code, the code's
    size before it and the module's size after it, all outside the two vectors
    and the scratch buffer. *)
Definition module_words (m : mem) (tb : Z) : Prop :=
  exists off size w,
    load32 m tb = Some off /\
    tb + header_size (all_cores_num th) <= u32 (u32 (tb + off) - 4) /\
    load32 m (u32 (u32 (tb + off) - 4)) = Some size /\
    tb + header_size (all_cores_num th) <= u32 (u32 (tb + off) + size) /\
    load32 m (u32 (u32 (tb + off) + size)) = Some w.

Lemma module_words_store m m' a v tb :
  tb + 4 <= a -> a + 4 <= tb + header_size (all_cores_num th) -> store32 m a v = Some m' ->
  module_words m tb -> module_words m' tb.
Proof.
  intros Ha Hb Hst (off & size & w & H1 & H2 & H3 & H4 & H5). exists off, size, w.
  rewrite !(load_store_ne _ _ _ _ _ _ _ Hst) by lia. done.
Qed.

Lemma compile_total d g o :
  dispatch_ok d g -> g !! ctx_tb_ptr (d_tci d) = Some o ->
  module_words (tmem (d_tci d)) (ctx_tb_ptr (d_tci d)) -> is_Some (compile cfg d).
Proof.
  intros [Hco Hs] Hg (off & size & w & H1 & _ & H3 & _ & H5). unfold compile.
  set (tb := ctx_tb_ptr (d_tci d)) in *. destruct Hco as [_ Hb _]. destruct (Hb tb o Hg) as (_ & Hm & _). cbn [w_mem] in Hm.
  rewrite H1. cbn [mbind option_bind].
  destruct (sharing cfg && _); [by destruct (instantiate_wasm _ _ _ _) |].
  rewrite H3. cbn [mbind option_bind]. rewrite H5. cbn [mbind option_bind].
  assert (Hpost : forall d', mapped (tmem (d_tci d')) tb (Z.to_nat (header_size (all_cores_num th))) ->
    is_Some (want_post cfg d' tb)).
  { intros d' Hm'. unfold want_post. destruct (sharing cfg); [| done]. apply tb_run_elsewhere_total.
    destruct Hm as (Y1 & Y2 & _). by split_and!. }
  destruct (w =? 0).
  - pose proof (regen_mapped tb (d_tci d)) as Hmm. destruct (bb_tb_regen_wasm tb (d_tci d)) as [copy st]. cbn [snd] in Hmm.
    destruct (copy =? 0); [done |].
    destruct (Hpost (set_d_tci (set_ctx_tb_ptr copy (d_tci (set_d_tci st d))) (set_d_tci st d))) as [post ->].
    { apply Hmm, Hm. }
    cbn [mbind option_bind]. by destruct (instantiate_wasm _ _ _ _).
  - destruct (Hpost d ltac:(apply Hm)) as [post ->]. cbn [mbind option_bind]. by destruct (instantiate_wasm _ _ _ _).
Qed.

Lemma store_counter_total d g b o v :
  dispatch_ok d g -> g !! b = Some o -> is_Some (store_counter v (u32 (b + counter_vec_off th)) d).
Proof.
  intros [[_ Hb _] _] Hg. destruct (Hb b o Hg) as (_ & Hm & _). cbn [w_mem] in Hm. unfold store_counter.
  destruct (proj2 (store_is_Some 4 _ _ v) (proj2 (own_mapped th Hth _ b Hm))) as [m ->]. done.
Qed.

Lemma after_compile_total d g o f :
  dispatch_ok d g -> g !! ctx_tb_ptr (d_tci d) = Some o ->
  is_Some (after_compile cfg base f (tb_counter_ptr cfg d) d).
Proof.
  intros Hd Hg. unfold after_compile, tb_counter_ptr. set (tb := ctx_tb_ptr (d_tci d)) in *. destruct (f =? -1).
  { destruct (store_counter_total d g tb o 0 Hd Hg) as [d' ->]. done. }
  destruct (0 <? f).
  { destruct Hd as [[Hc Hb _] _]. destruct (Hb tb o Hg) as (Hp & Hm & _). cbn [w_mem w_cache] in *.
    destruct (add_added base th f tb _ _ Hc ltac:(lia) (proj1 (own_mapped th Hth _ tb Hm))) as (c & m & i & -> & _). done. }
  destruct (settle_cap_spec d) as (E1 & E2 & _ & _). generalize dependent (settle_cap d). intros d1 E1 E2.
  destruct (store_counter_total d1 g tb o 0) as [d' ->]; [unfold dispatch_ok; by rewrite E1, E2 | done | done].
Qed.

Lemma choose_total d g o :
  dispatch_ok d g -> g !! ctx_tb_ptr (d_tci d) = Some o ->
  module_words (tmem (d_tci d)) (ctx_tb_ptr (d_tci d)) -> is_Some (choose cfg base d).
Proof.
  intros [Hco Hs] Hg Hmw. unfold choose, tb_counter_ptr. set (tb := ctx_tb_ptr (d_tci d)) in *.
  assert (Hg' : exists r c m, get_instance_running_local base th (cur_tune cfg d) tb (d_cache d) (tmem (d_tci d)) =
    Some (r, c, m) /\ module_words m tb).
  { pose proof Hco as [_ Hb _]. destruct (Hb tb o Hg) as (_ & Hm & _). cbn [w_mem] in Hm.
    destruct (own_slot_bounds th Hth _ tb Hm) as (Ee & Ec & X1 & X2 & X3).
    destruct (get_cases base th (cur_tune cfg d) Hth _ _ g tb o Hco Hg)
      as [H | [(m1 & m2 & H & S1 & S2) | (i & e & _ & _ & _ & H)]]; rewrite H; eauto 6.
    do 3 eexists. split; [done |]. apply (module_words_store m1 m2 _ _ tb) in S2; [done | lia | lia |].
    apply (module_words_store _ m1 _ _ tb) in S1; [done | lia | lia | done]. }
  destruct Hg' as (f & c & m & Eg & Hmw'). rewrite Eg. cbn [mbind option_bind].
  pose proof (coherent_lookup base th _ Hth _ _ g tb o f c m Hco Hg Eg) as Hco1.
  set (d1 := set_d_cache c (set_d_mem m d)). assert (Hd1 : dispatch_ok d1 g) by done.
  destruct (0 <? f); [done |]. pose proof Hco1 as [_ Hb1 _]. destruct (Hb1 tb o Hg) as (_ & Hm1 & _). cbn [w_mem] in Hm1.
  destruct (proj2 (load_is_Some 4 m _) (proj2 (own_mapped th Hth m tb Hm1))) as [cnt ->]. cbn [mbind option_bind].
  destruct (tb_wants_tci_total (cur_tune cfg d1) th m (s32 cnt) tb Hm1) as [[] ->]; cbn [mbind option_bind].
  { destruct (store_counter_total d1 g tb o (cnt + 1) Hd1 Hg) as [d' ->]. done. }
  destruct (negb _); [done |]. destruct (compile_total d1 g o Hd1 Hg Hmw') as [[f2 d2] Ec]. rewrite Ec. cbn [mbind option_bind].
  pose proof (cf_ptr _ _ (compile_keeps d1 f2 d2 Ec)) as Ep. change (ctx_tb_ptr (d_tci d1)) with tb in Ep.
  rewrite <- Ep. apply (after_compile_total d2 g o); [by apply (compile_ok d1 d2 g f2) | by rewrite Ep].
Qed.

End Properties.

(** ** A concrete dispatcher *)

Module Demo.

#[global] Instance helpers : Helpers unit := {
  lookup_tb_ptr_func := 5;
  helper_lookup_tb_ptr _ h := HRet 0 (h_mem h) tt;
  helper_call _ _ _ h := HRet 9 (h_mem h) tt;
  helper_ret_i128 _ _ _ _ h := HRet (0, 0) (h_mem h) tt;
  helper_arg_i128 _ _ _ _ _ h := HRet tt (h_mem h) tt;
  ffi_call _ _ _ _ _ h := HRet tt (h_mem h) tt;
  cif_sizes _ := [];
  helper_ld_mmu _ _ _ _ _ h := HRet 0 (h_mem h) tt;
  helper_st_mmu _ _ _ _ _ _ h := HRet tt (h_mem h) tt
}.

(** A host that compiles every block to function 7. *)
#[global] Instance host : Host unit := {
  instantiate_wasm _ _ _ st := (7, st);
  bb_tb_regen_wasm _ st := (0, st);
  bb_tb_flush_gen _ := 0;
  bb_share_has _ _ _ := false;
  run_compiled _ _ c st := (Ret 0 (set_ctx_tb_ptr 0 st), c);
  clock := Z;
  bb_clock_ms _ := 0;
  later_5ms now last := 5 <? now - last;
  bb_yield_js st := st;
  emscripten_sleep st := st
}.

#[global] Instance host_laws : HostLaws unit := {
  scratch_lo := 0; scratch_hi := 0;
  instantiate_mem _ _ _ _ := eq_refl; instantiate_ptr _ _ _ _ := eq_refl; regen_ptr _ _ := eq_refl;
  regen_load _ _ _ _ _ := eq_refl; regen_mapped _ _ _ _ H := H
}.

Definition cfg : tci_cfg :=
  {| cfg_env := 65536; cfg_stack := 131072; cfg_thread := demo_thread; cfg_tune := tune_default |}.

(** A block at 4096: code at offset 32, a counter at 65536, a stored module. *)
Definition memory : mem :=
  <[4096 := 32]> (<[4122 := 1]> (<[4128 := 4]> (list_to_map ((fun i => (4096 + i, 0)) <$> seqZ 0 48)))).

Definition start : dispatch unit :=
  {| d_tci := {| regs := replicate 16 0; ctx_tb_ptr := 4096; tci_tb_ptr := 0; bb_cold_ptr := 0;
                 bb_resume_ptr := 0; bb_fast_tci_depth := 0; bb_force_slow_tci := 0;
                 tmem := memory; world := tt |};
     d_cache := cache_init 0; d_max_alive := MAX_INSTANCE_ALIVE; d_exec_cnt := MAX_EXEC_NUM;
     d_share_posted := 0; d_share_seen := 0; d_share_last_yield := 0; d_garbage_collected := 0 |}.

Lemma start_ok : dispatch_ok cfg 8192 start (<[4096 := None]> ∅).
Proof.
  split.
  - split; cbn [w_cache w_mem w_blocks start d_cache d_tci tmem].
    + apply cache_init_ok.
    + intros b o Ho. apply lookup_insert_Some in Ho as [[<- <-] | [_ Ho]]; [| by rewrite lookup_empty in Ho].
      split_and!; [done | |].
      * split_and!; [done | done |]. apply mapped_dec_true. by vm_compute.
      * exists 0. split; [by vm_compute | by left].
    + intros b b' Hb Hb' Hn. rewrite lookup_insert in Hb, Hb'. repeat case_decide; try congruence;
        rewrite lookup_empty in *; by destruct Hb, Hb'.
  - intros b [o Ho]. apply lookup_insert_Some in Ho as [[<- <-] | [_ Ho]]; [by right | by rewrite lookup_empty in Ho].
Qed.

Lemma start_module : module_words cfg memory 4096.
Proof. exists 32, 0, 4. by vm_compute. Qed.

End Demo.

(** ** The properties *)

(** C16: what an iteration of the dispatcher does before the block runs never faults
    on a current block and keeps the table of compiled blocks and the block headers
    consistent.  If it chooses a compiled function, then either the table had it for
    this block, and the table is as before; or it is what the host answered to the
    compile of this block, asked under the block's own key and generation for a posted
    module, for the block's stored module or for the module of its re-translation,
    and it is now entered for this block and no other. *)
Theorem dispatcher_runs_own_code {W} `{!Helpers W} `{HH : !Host W} `{!HostLaws W} cfg base (d : dispatch W) g o :
  thread_ok (cfg_thread cfg) -> 0 < base /\ base + SIZEOF_INSTANCE_INFO * INSTANCE_RUNNING_LEN <= 2 ^ 32 ->
  dispatch_ok cfg base d g -> g !! ctx_tb_ptr (d_tci d) = Some o ->
  module_words cfg (tmem (d_tci d)) (ctx_tb_ptr (d_tci d)) ->
  let tb := ctx_tb_ptr (d_tci d) in
  exists ch d' g' f0 c m, choose cfg base d = Some (ch, d') /\ dispatch_ok cfg base d' g' /\
    get_instance_running_local base (cfg_thread cfg) (cur_tune cfg d) tb (d_cache d) (tmem (d_tci d)) = Some (f0, c, m) /\
    match ch with
    | Interpret => g' = g
    | RunCompiled f => 0 < f /\
        ((o = Some f /\ g' = g) \/ (compiled_for cfg tb (set_mem m (d_tci d)) f /\ g' = <[tb := Some f]> g))
    end.
Proof.
  intros Hth Hb Hd Hg Hm tb. destruct (choose_total cfg base Hth d g o Hd Hg Hm) as [[ch d'] E].
  destruct (choose_ok cfg base Hth Hb d d' g o ch Hd Hg E) as (g' & f & c & m & H1 & H2 & H3). by exists ch, d', g', f, c, m.
Qed.

Lemma dispatcher_runs_own_code_witness :
  exists ch d' g' f0 c m, choose Demo.cfg 8192 Demo.start = Some (ch, d') /\ dispatch_ok Demo.cfg 8192 d' g' /\
    get_instance_running_local 8192 demo_thread (cur_tune Demo.cfg Demo.start) 4096 (cache_init 0) Demo.memory = Some (f0, c, m) /\
    match ch with
    | Interpret => g' = <[4096 := None]> ∅
    | RunCompiled f => 0 < f /\
        ((None = Some f /\ g' = <[4096 := None]> ∅) \/
         (compiled_for Demo.cfg 4096 (set_mem m (d_tci Demo.start)) f /\ g' = <[4096 := Some f]> (<[4096 := None]> ∅)))
    end.
Proof.
  apply (dispatcher_runs_own_code Demo.cfg 8192 Demo.start (<[4096 := None]> ∅) None).
  - exact demo_thread_ok.
  - split; [reflexivity | discriminate].
  - exact Demo.start_ok.
  - reflexivity.
  - exact Demo.start_module.
Defined.

(** The dispatcher's choice only lowers the live cap, never below the default of
    15000, and lets the number of live instances grow only while it is under the cap. *)
Theorem dispatcher_keeps_cap {W} `{!Helpers W} `{HH : !Host W} `{!HostLaws W} cfg base (d d' : dispatch W) g o ch :
  thread_ok (cfg_thread cfg) -> dispatch_ok cfg base d g -> g !! ctx_tb_ptr (d_tci d) = Some o ->
  choose cfg base d = Some (ch, d') ->
  d_max_alive d' <= d_max_alive d /\
  (d_max_alive d' = d_max_alive d \/ MAX_INSTANCE_ALIVE <= d_max_alive d') /\
  instance_alive_global (d_cache d') <= Z.max (instance_alive_global (d_cache d)) (d_max_alive d).
Proof. intros Hth Hd Hg E. exact (choose_cap cfg base Hth d d' g o ch Hd Hg E). Qed.

Lemma dispatcher_keeps_cap_witness :
  exists ch d', choose Demo.cfg 8192 Demo.start = Some (ch, d') /\ d_max_alive d' <= 15000.
Proof.
  destruct (choose_total Demo.cfg 8192 demo_thread_ok Demo.start (<[4096 := None]> ∅) None Demo.start_ok eq_refl
    Demo.start_module) as [[ch d'] E].
  exists ch, d'. split; [exact E |].
  exact (proj1 (dispatcher_keeps_cap Demo.cfg 8192 Demo.start d' (<[4096 := None]> ∅) None ch demo_thread_ok
    Demo.start_ok eq_refl E)).
Defined.
