(* ===== verification/RepBulk.v ===== *)
(** * Bulk REP MOVS / REP STOS

    Models [helper_rep_bulk] and [rep_bulk_fill] of target/i386/tcg/mem_helper.c
    (many iterations of a string instruction in one call) and the code that
    target/i386/tcg/translate.c generates around them: [gen_lea_v_seg],
    [gen_movs], [gen_stos], [gen_rep_bulk] and [gen_repz].

    The theorems: a call of the helper is exactly some number of single
    iterations, registers and memory included, for overlapping copies too; and a
    whole REP instruction with the helper ends in the same state as without it,
    or stops at the same iteration with the same state.

    Host memory is a map from addresses to bytes.  Which guest addresses are plain
    RAM for a load or a store, and where, is [tlb_vaddr_to_host] (an interface
    here; its law is that a page is contiguous).  An iteration that touches
    anything else (MMIO, a page not mapped, one under dirty tracking) is the
    interface's [slow_iter], which may fault. *)
From S2P Require Import Prelude.

Abbreviation mem := (gmap Z Z).

Definition TARGET_PAGE_SIZE : Z := 4096.
Definition MO_8 : Z := 0.
Definition MO_16 : Z := 1.
Definition MO_32 : Z := 2.
Definition MO_64 : Z := 3.

Inductive access := MMU_DATA_LOAD | MMU_DATA_STORE.

(** The registers a string instruction uses, the host memory, the rest. *)
Record xstate (W : Type) := {
  ECX : Z; EDI : Z; ESI : Z; EAX : Z; df : Z;
  hostmem : mem;
  xworld : W
}.

Arguments ECX {W}.
Arguments EDI {W}.
Arguments ESI {W}.
Arguments EAX {W}.
Arguments df {W}.
Arguments hostmem {W}.
Arguments xworld {W}.

(** The decoded instruction: element size, address size, MOVS or STOS, the mode,
    and the segments ([DisasContext]). *)
Record insn := {
  ot : Z;                       (* MemOp of an element *)
  aflag : Z;                    (* MO_32 or MO_64 *)
  movs : bool;
  code64 : bool;
  addseg : bool;
  ds_base : Z;
  es_base : Z;
  override : option Z;          (* base of the overriding segment *)
  mem_index : Z
}.

(** The helper's last argument as [gen_rep_bulk] packs it, and the instruction as
    the helper unpacks it (it uses nothing of the segments). *)
Definition rep_bulk_info (I : insn) : Z :=
  Z.lor (Z.lor (Z.lor (Z.lor (ot I) (Z.shiftl (aflag I) 2)) (Z.shiftl (b2z (movs I)) 4))
           (Z.shiftl (b2z (code64 I)) 5)) (Z.shiftl (mem_index I) 8).

Definition unpack_info (info : Z) : insn :=
  {| ot := Z.land info 3; aflag := Z.land (Z.shiftr info 2) 3;
     movs := negb (Z.land info 16 =? 0); code64 := negb (Z.land info 32 =? 0);
     addseg := false; ds_base := 0; es_base := 0; override := None;
     mem_index := Z.land (Z.shiftr info 8) 0xff |}.

Class Mmu (W : Type) := {
  tlb_vaddr_to_host : W -> access -> Z -> Z -> option Z;
  slow_iter : insn -> xstate W -> option (xstate W)
}.

(** ** Memory *)

Definition get (m : mem) (a : Z) (n : nat) : list Z := (fun i => m !!! (a + Z.of_nat i)) <$> seq 0 n.

Fixpoint put (m : mem) (a : Z) (bs : list Z) : mem :=
  match bs with
  | [] => m
  | b :: bs => put (<[a := b]> m) (a + 1) bs
  end.

(** The [n] low bytes of [v], low byte first. *)
Definition bytes_of (v : Z) (n : nat) : list Z := (fun i => (v / 256 ^ Z.of_nat i) mod 256) <$> seq 0 n.

Definition memset (m : mem) (d v n : Z) : mem := put m d (replicate (Z.to_nat n) (u8 v)).
Definition memmove (m : mem) (d s n : Z) : mem := put m d (get m s (Z.to_nat n)).

(** [for (i = 0; i < bytes; i += size) st_le_p(d + i, v)], [k] elements left. *)
Fixpoint fill_loop (k : nat) (size : Z) (v : Z) (m : mem) (d : Z) : mem :=
  match k with
  | O => m
  | S k => fill_loop k size v (put m d (bytes_of v (Z.to_nat size))) (d + size)
  end.

Definition rep_bulk_fill (m : mem) (d v ot n : Z) : mem :=
  let bytes := Z.shiftl n ot in
  let rep8 := u64 (u8 v * 0x0101010101010101) in
  let mask := if ot =? MO_64 then u64 (Z.lnot 0) else u64 (Z.shiftl 1 (Z.shiftl 8 ot) - 1) in
  if Z.land v mask =? Z.land rep8 mask then memset m d v bytes
  else
    let size := if ot =? MO_16 then 2 else if ot =? MO_32 then 4 else 8 in
    fill_loop (Z.to_nat ((bytes + size - 1) / size)) size v m d.

(** ** One iteration *)

Section Iter.
Context {W : Type} `{!Mmu W} (I : insn).
Implicit Type st : xstate W.

Definition amask : Z := if aflag I =? MO_64 then u64 (Z.lnot 0) else 0xffffffff.

(** [gen_lea_v_seg] for 32- and 64-bit addressing. *)
Definition lea_v_seg (a0 def_base : Z) (ovr : option Z) : Z :=
  if aflag I =? MO_64 then
    match ovr with
    | None => a0
    | Some seg => u64 (a0 + seg)
    end
  else
    let ovr := match ovr with Some seg => Some seg | None => if addseg I then Some def_base else None end in
    match ovr with
    | None => u32 a0
    | Some seg => if code64 I then u64 (u32 a0 + seg) else u32 (u64 (a0 + seg))
    end.

Definition A0_ESI st : Z := lea_v_seg (ESI st) (ds_base I) (override I).
Definition A0_EDI st : Z := lea_v_seg (EDI st) (es_base I) None.

(** [gen_op_add_reg_im] and [gen_op_add_reg_T0]: the sum at the address size. *)
Definition add_reg (r v : Z) : Z := Z.land (u64 (r + v)) amask.

(** The host addresses of the [n] bytes at [a], when all of them are plain RAM. *)
Definition hosts st (acc : access) (a : Z) (n : nat) : option (list Z) :=
  mapM (fun i => tlb_vaddr_to_host (xworld st) acc (u64 (a + Z.of_nat i)) (mem_index I)) (seq 0 n).

Fixpoint scatter (m : mem) (hs bs : list Z) : mem :=
  match hs, bs with
  | h :: hs, b :: bs => scatter (<[h := b]> m) hs bs
  | _, _ => m
  end.

Definition esize : nat := Z.to_nat (Z.shiftl 1 (ot I)).

(** The access of an iteration, when it touches only plain RAM. *)
Definition ram_access st : option mem :=
  if movs I then
    hs ← hosts st MMU_DATA_LOAD (A0_ESI st) esize;
    hd ← hosts st MMU_DATA_STORE (A0_EDI st) esize;
    Some (scatter (hostmem st) hd ((fun h => hostmem st !!! h) <$> hs))
  else
    hd ← hosts st MMU_DATA_STORE (A0_EDI st) esize;
    Some (scatter (hostmem st) hd (bytes_of (EAX st) esize)).

(** [gen_movs] or [gen_stos], then the count. *)
Definition rep_iter st : option (xstate W) :=
  match ram_access st with
  | Some m =>
      let step := Z.shiftl (df st) (ot I) in
      Some {| ECX := add_reg (ECX st) (-1); EDI := add_reg (EDI st) step;
              ESI := if movs I then add_reg (ESI st) step else ESI st;
              EAX := EAX st; df := df st; hostmem := m; xworld := xworld st |}
  | None => slow_iter I st
  end.

(** ** The helper *)

(** The [while] loop: [done], the two addresses, the memory. *)
Fixpoint bulk_loop (chunks : nat) (lim : Z) st (done dst src : Z) (m : mem) : Z * mem :=
  match chunks with
  | O => (done, m)
  | S chunks =>
      if lim <=? done then (done, m)
      else
        let n := lim - done in
        let n := Z.min n (Z.shiftr (TARGET_PAGE_SIZE - dst mod TARGET_PAGE_SIZE) (ot I)) in
        let n := if movs I then Z.min n (Z.shiftr (TARGET_PAGE_SIZE - src mod TARGET_PAGE_SIZE) (ot I)) else n in
        if n =? 0 then (done, m)
        else
          let next n m := bulk_loop chunks lim st (done + n) (u64 (dst + Z.shiftl n (ot I)))
                            (if movs I then u64 (src + Z.shiftl n (ot I)) else src) m in
          if movs I then
            match tlb_vaddr_to_host (xworld st) MMU_DATA_LOAD src (mem_index I) with
            | None => (done, m)
            | Some hs =>
                match tlb_vaddr_to_host (xworld st) MMU_DATA_STORE dst (mem_index I) with
                | None => (done, m)
                | Some hd =>
                    if (hs <? hd) && (hd <? hs + Z.shiftl n (ot I)) then
                      let n := Z.min n (Z.shiftr (hd - hs) (ot I)) in
                      if n =? 0 then (done, m) else next n (memmove m hd hs (Z.shiftl n (ot I)))
                    else next n (memmove m hd hs (Z.shiftl n (ot I)))
                end
            end
          else
            match tlb_vaddr_to_host (xworld st) MMU_DATA_STORE dst (mem_index I) with
            | None => (done, m)
            | Some hd => next n (rep_bulk_fill m hd (EAX st) (ot I) n)
            end
  end.

(** How many iterations stay clear of the 4 GiB wrap. *)
Definition bulk_limit st (cnt dst src : Z) : Z :=
  let upto x := Z.shiftr (0x100000000 - x) (ot I) in
  if aflag I =? MO_64 then cnt
  else
    let lim := Z.min cnt (upto (Z.land (EDI st) 0xffffffff)) in
    let lim := if movs I then Z.min lim (upto (Z.land (ESI st) 0xffffffff)) else lim in
    if code64 I then lim
    else
      let lim := Z.min lim (upto (u32 dst)) in
      if movs I then Z.min lim (upto (u32 src)) else lim.

Definition rep_bulk_body st (dst src : Z) : xstate W :=
  let cnt := Z.land (ECX st) amask in
  if negb (df st =? 1) || (cnt =? 0) then st
  else
    let '(done, m) := bulk_loop 64 (bulk_limit st cnt dst src) st 0 dst src (hostmem st) in
    if done =? 0 then {| ECX := ECX st; EDI := EDI st; ESI := ESI st; EAX := EAX st; df := df st;
                         hostmem := m; xworld := xworld st |}
    else {| ECX := Z.land (u64 (ECX st - done)) amask;
            EDI := Z.land (u64 (EDI st + Z.shiftl done (ot I))) amask;
            ESI := if movs I then Z.land (u64 (ESI st + Z.shiftl done (ot I))) amask else ESI st;
            EAX := EAX st; df := df st; hostmem := m; xworld := xworld st |}.

End Iter.

(** ** The whole instruction *)

Section Rep.
Context {W : Type} `{!Mmu W} (I : insn).
Implicit Type st : xstate W.

(** How a REP instruction leaves the block: finished, or stopped at an iteration
    that faults, with the state before it. *)
Inductive rep_result := Finished (st : xstate W) | Faulted (st : xstate W).

(** [gen_repz] without the helper; each iteration jumps back to the instruction. *)
Fixpoint rep_plain (fuel : nat) st : option rep_result :=
  match fuel with
  | O => None
  | S fuel =>
      if Z.land (ECX st) (amask I) =? 0 then Some (Finished st)
      else match rep_iter I st with
           | Some st => rep_plain fuel st
           | None => Some (Faulted st)
           end
  end.

Definition helper_rep_bulk st (dst src info : Z) : xstate W := rep_bulk_body (unpack_info info) st dst src.

(** [gen_rep_bulk]: the addresses are computed, then the helper is called. *)
Definition rep_bulk st : xstate W :=
  helper_rep_bulk st (A0_EDI I st) (if movs I then A0_ESI I st else 0) (rep_bulk_info I).

(** [gen_repz] with the helper. *)
Fixpoint rep_with_bulk (fuel : nat) st : option rep_result :=
  match fuel with
  | O => None
  | S fuel =>
      if Z.land (ECX st) (amask I) =? 0 then Some (Finished st)
      else
        let st := rep_bulk st in
        if Z.land (ECX st) (amask I) =? 0 then Some (Finished st)
        else match rep_iter I st with
             | Some st => rep_with_bulk fuel st
             | None => Some (Faulted st)
             end
  end.

End Rep.

(** ** Memory *)

Lemma put_lookup_ne m a bs p :
  p < a \/ a + Z.of_nat (length bs) <= p -> put m a bs !! p = m !! p.
Proof.
  revert m a; induction bs as [| b bs IH]; intros m a Hp; cbn [put length] in *; [done |].
  rewrite IH by lia. by rewrite lookup_insert_ne by lia.
Qed.

Lemma put_app m a bs cs : put m a (bs ++ cs) = put (put m a bs) (a + Z.of_nat (length bs)) cs.
Proof.
  revert m a; induction bs as [| b bs IH]; intros m a; cbn [app put length]; [by rewrite Z.add_0_r |].
  rewrite IH. f_equal. lia.
Qed.

Lemma get_length m a n : length (get m a n) = n.
Proof. unfold get. by rewrite length_fmap, length_seq. Qed.

Lemma get_app m a n k : get m a (n + k) = get m a n ++ get m (a + Z.of_nat n) k.
Proof.
  unfold get. rewrite seq_app, fmap_app. f_equal. replace (0 + n)%nat with (n + 0)%nat by lia.
  rewrite <- (fmap_add_seq n 0 k), <- list_fmap_compose. apply list_fmap_ext. intros i j _. cbn. f_equal. lia.
Qed.

Lemma get_put_ne m a bs p n :
  p + Z.of_nat n <= a \/ a + Z.of_nat (length bs) <= p -> get (put m a bs) p n = get m p n.
Proof.
  intros Hp. unfold get. apply list_fmap_ext. intros i j Hj. apply lookup_seq in Hj as [-> Hi].
  rewrite !lookup_total_alt. f_equal. apply put_lookup_ne. lia.
Qed.

(** [n] elements of [sz] bytes copied one by one. *)
Fixpoint copy_elems (n sz : nat) (m : mem) (hd hs : Z) : mem :=
  match n with
  | O => m
  | S n => copy_elems n sz (put m hd (get m hs sz)) (hd + Z.of_nat sz) (hs + Z.of_nat sz)
  end.

(** Without a forward overlap [memmove] is the element-wise copy. *)
Lemma memmove_elems n sz m hd hs :
  hd <= hs \/ hs + Z.of_nat (n * sz) <= hd ->
  copy_elems n sz m hd hs = put m hd (get m hs (n * sz)).
Proof.
  revert m hd hs; induction n as [| n IH]; intros m hd hs Ho; [done |]. cbn [copy_elems].
  rewrite IH by lia. replace (S n * sz)%nat with (sz + n * sz)%nat by lia.
  rewrite get_app, put_app, get_length. f_equal. apply get_put_ne. rewrite get_length. lia.
Qed.

(** [n] elements stored one by one. *)
Fixpoint store_elems (n : nat) (bs : list Z) (m : mem) (hd : Z) : mem :=
  match n with
  | O => m
  | S n => store_elems n bs (put m hd bs) (hd + Z.of_nat (length bs))
  end.

Lemma bytes_of_length v n : length (bytes_of v n) = n.
Proof. unfold bytes_of. by rewrite length_fmap, length_seq. Qed.

Lemma fill_loop_elems k size v m d :
  0 <= size -> fill_loop k size v m d = store_elems k (bytes_of v (Z.to_nat size)) m d.
Proof.
  intros Hs. revert m d; induction k as [| k IH]; intros m d; cbn [fill_loop store_elems]; [done |].
  rewrite IH, bytes_of_length. f_equal. lia.
Qed.

Lemma store_elems_replicate n k b m d :
  store_elems n (replicate k b) m d = put m d (replicate (n * k) b).
Proof.
  revert m d; induction n as [| n IH]; intros m d; cbn [store_elems]; [done |].
  rewrite IH. replace (S n * k)%nat with (k + n * k)%nat by lia. by rewrite replicate_add, put_app.
Qed.

Lemma byte_uw v i : 0 <= i -> (v / 256 ^ i) mod 256 = uw 8 (Z.shiftr v (8 * i)).
Proof. intros Hi. unfold uw. rewrite Z.shiftr_div_pow2 by lia. by rewrite Z.pow_mul_r by lia. Qed.

Lemma bytes_of_uw v n : bytes_of (uw (8 * Z.of_nat n) v) n = bytes_of v n.
Proof.
  unfold bytes_of. apply list_fmap_ext. intros i j Hj. apply lookup_seq in Hj as [-> Hi].
  rewrite !byte_uw by lia. bitblast.
Qed.

Lemma rep8_bytes b :
  0 <= b < 256 ->
  bytes_of (u64 (b * 0x0101010101010101)) 1 = replicate 1 b /\ bytes_of (u64 (b * 0x0101010101010101)) 2 = replicate 2 b /\
  bytes_of (u64 (b * 0x0101010101010101)) 4 = replicate 4 b /\ bytes_of (u64 (b * 0x0101010101010101)) 8 = replicate 8 b.
Proof.
  intros Hb.
  assert (H : forallb (fun b => forallb (fun n => bool_decide (bytes_of (u64 (b * 0x0101010101010101)) n = replicate n b))
    [1; 2; 4; 8]%nat) (seqZ 0 256) = true) by by vm_compute.
  rewrite forallb_forall in H. specialize (H b). cbn [forallb] in H.
  rewrite !andb_true_iff, !bool_decide_eq_true in H. destruct H as (H1 & H2 & H3 & H4 & _); [| done].
  apply list_elem_of_In, elem_of_seqZ. lia.
Qed.

Lemma fill_loop_all n k v m d :
  0 <= n -> 0 < k ->
  fill_loop (Z.to_nat ((n * k + k - 1) / k)) k v m d = store_elems (Z.to_nat n) (bytes_of v (Z.to_nat k)) m d.
Proof.
  intros Hn Hk. rewrite fill_loop_elems by lia. f_equal. f_equal.
  replace (n * k + k - 1) with (k - 1 + n * k) by lia. rewrite Z.div_add, Z.div_small by lia. lia.
Qed.

Lemma rep_bulk_fill_elems m d v ot n :
  0 <= ot <= 3 -> 0 <= n ->
  rep_bulk_fill m d v ot n = store_elems (Z.to_nat n) (bytes_of v (Z.to_nat (2 ^ ot))) m d.
Proof.
  intros Hot Hn. destruct (rep8_bytes (u8 v)) as (R1 & R2 & R4 & R8); [apply uw_range; lia |].
  assert (Hset : forall k w, w = 8 * Z.of_nat k -> Z.land v (Z.ones w) = Z.land (u64 (u8 v * 0x0101010101010101)) (Z.ones w) ->
    bytes_of (u64 (u8 v * 0x0101010101010101)) k = replicate k (u8 v) ->
    memset m d v (n * Z.of_nat k) = store_elems (Z.to_nat n) (bytes_of v k) m d).
  { intros k w -> E R. rewrite !Z.land_ones in E by lia. fold (uw (8 * Z.of_nat k) v) in E.
    fold (uw (8 * Z.of_nat k) (u64 (u8 v * 0x0101010101010101))) in E.
    rewrite <- (bytes_of_uw v), E, bytes_of_uw, R, store_elems_replicate. unfold memset. do 2 f_equal. lia. }
  unfold rep_bulk_fill. rewrite (Z.shiftl_mul_pow2 n ot) by lia.
  assert (Hc : ot = 0 \/ ot = 1 \/ ot = 2 \/ ot = 3) by lia.
  destruct Hc as [-> | [-> | [-> | ->]]]; cbn [Z.eqb Pos.eqb MO_64 MO_16 MO_32].
  - change (u64 (Z.shiftl 1 (Z.shiftl 8 0) - 1)) with (Z.ones 8).
    destruct (Z.eqb_spec (Z.land v (Z.ones 8)) (Z.land (u64 (u8 v * 0x0101010101010101)) (Z.ones 8))) as [E | E].
    + exact (Hset 1%nat 8 eq_refl E R1).
    + destruct E. rewrite !Z.land_ones by lia. change (v mod 2 ^ 8) with (u8 v).
      change (u64 (u8 v * 0x0101010101010101) mod 2 ^ 8) with (u8 (u64 (u8 v * 0x0101010101010101))).
      pose proof (f_equal (fun l => l !!! 0%nat) R1) as Hb. cbn in Hb. rewrite Z.div_1_r in Hb. symmetry. exact Hb.
  - change (u64 (Z.shiftl 1 (Z.shiftl 8 1) - 1)) with (Z.ones 16).
    case (Z.eqb_spec (Z.land v (Z.ones 16))); [intros E; exact (Hset 2%nat 16 eq_refl E R2) | intros _].
    exact (fill_loop_all n 2 v m d Hn ltac:(lia)).
  - change (u64 (Z.shiftl 1 (Z.shiftl 8 2) - 1)) with (Z.ones 32).
    case (Z.eqb_spec (Z.land v (Z.ones 32))); [intros E; exact (Hset 4%nat 32 eq_refl E R4) | intros _].
    exact (fill_loop_all n 4 v m d Hn ltac:(lia)).
  - change (u64 (Z.lnot 0)) with (Z.ones 64).
    case (Z.eqb_spec (Z.land v (Z.ones 64))); [intros E; exact (Hset 8%nat 64 eq_refl E R8) | intros _].
    exact (fill_loop_all n 8 v m d Hn ltac:(lia)).
Qed.

(** ** The helper's argument *)

Definition insn_ok (I : insn) : Prop :=
  0 <= ot I <= 3 /\ (aflag I = MO_32 \/ aflag I = MO_64) /\ 0 <= mem_index I < 256.

Lemma unpack_packed I :
  insn_ok I ->
  let J := unpack_info (rep_bulk_info I) in
  ot J = ot I /\ aflag J = aflag I /\ movs J = movs I /\ code64 J = code64 I /\ mem_index J = mem_index I.
Proof.
  intros (Hot & Ha & Hm). cbv zeta. cbn [unpack_info ot aflag movs code64 mem_index]. unfold rep_bulk_info.
  assert (Hot4 : exists o, In o [0; 1; 2; 3] /\ ot I = o) by (exists (ot I); cbn; lia). destruct Hot4 as (o & Ho & ->).
  assert (Ha4 : exists a, In a [2; 3] /\ aflag I = a) by (exists (aflag I); unfold MO_32, MO_64 in Ha; cbn; lia).
  destruct Ha4 as (a & Ha' & ->).
  assert (H : forallb (fun o => forallb (fun a => forallb (fun b => forallb (fun c => forallb (fun i =>
    let info := Z.lor (Z.lor (Z.lor (Z.lor o (Z.shiftl a 2)) (Z.shiftl (b2z b) 4)) (Z.shiftl (b2z c) 5)) (Z.shiftl i 8) in
    (Z.land info 3 =? o) && (Z.land (Z.shiftr info 2) 3 =? a) && eqb (negb (Z.land info 16 =? 0)) b &&
    eqb (negb (Z.land info 32 =? 0)) c && (Z.land (Z.shiftr info 8) 0xff =? i))
    (seqZ 0 256)) [false; true]) [false; true]) [2; 3]) [0; 1; 2; 3] = true) by (by vm_compute).
  rewrite forallb_forall in H. specialize (H o Ho). rewrite forallb_forall in H. specialize (H a Ha').
  rewrite forallb_forall in H. specialize (H (movs I) ltac:(destruct (movs I); cbn; auto)).
  rewrite forallb_forall in H. specialize (H (code64 I) ltac:(destruct (code64 I); cbn; auto)).
  rewrite forallb_forall in H. specialize (H (mem_index I)).
  cbv zeta in H. rewrite !andb_true_iff, !Z.eqb_eq, !eqb_true_iff in H.
  destruct H as [[[[H1 H2] H3] H4] H5]; [apply list_elem_of_In, elem_of_seqZ; lia | done].
Qed.

Section Bulk.
Context {W : Type} `{!Mmu W}.
Implicit Type st : xstate W.

(** The helper looks at nothing else of the instruction. *)
Lemma rep_bulk_body_ext I J st dst src :
  ot J = ot I -> aflag J = aflag I -> movs J = movs I -> code64 J = code64 I -> mem_index J = mem_index I ->
  rep_bulk_body J st dst src = rep_bulk_body I st dst src.
Proof.
  intros E1 E2 E3 E4 E5.
  assert (Hl : forall c lim k d s m, bulk_loop J c lim st k d s m = bulk_loop I c lim st k d s m).
  { induction c as [| c IH]; intros lim k d s m; cbn [bulk_loop]; [done |].
    rewrite E1, E3, E5. repeat case_match; rewrite ?IH; done. }
  unfold rep_bulk_body, amask, bulk_limit. rewrite Hl, E1, E2, E3, E4. done.
Qed.

End Bulk.

(** ** Laws of the MMU *)

Definition regs_ok {W} (st : xstate W) : Prop :=
  is_u 64 (ECX st) /\ is_u 64 (EDI st) /\ is_u 64 (ESI st).

(** A page of plain RAM is contiguous in host memory; an iteration on the slow
    path leaves 64-bit registers. *)
Class MmuLaws (W : Type) `{!Mmu W} := {
  tlb_page : forall (w : W) acc v i idx h,
    is_u 64 v -> tlb_vaddr_to_host w acc v idx = Some h -> 0 <= i ->
    v mod TARGET_PAGE_SIZE + i < TARGET_PAGE_SIZE -> tlb_vaddr_to_host w acc (v + i) idx = Some (h + i);
  slow_regs : forall I (st st' : xstate W), slow_iter I st = Some st' -> regs_ok st -> regs_ok st'
}.

Section Refine.
Context {W : Type} `{!Mmu W} `{!MmuLaws W} (I : insn) (HI : insn_ok I).
Implicit Type st : xstate W.

Abbreviation sz := (2 ^ ot I).

Lemma sz_range : 1 <= sz <= 8.
Proof.
  destruct HI as (Ho & _). assert (ot I = 0 \/ ot I = 1 \/ ot I = 2 \/ ot I = 3) as [-> | [-> | [-> | ->]]] by lia; lia.
Qed.

Lemma shl_ot n : Z.shiftl n (ot I) = n * sz.
Proof. destruct HI as (Ho & _). by rewrite Z.shiftl_mul_pow2 by lia. Qed.

Lemma shr_ot n : Z.shiftr n (ot I) = n / sz.
Proof. destruct HI as (Ho & _). by rewrite Z.shiftr_div_pow2 by lia. Qed.

Lemma esize_sz : Z.of_nat (esize I) = sz.
Proof. unfold esize. rewrite shl_ot. pose proof sz_range. lia. Qed.

(** Width of the address registers. *)
Definition aw : Z := if aflag I =? MO_64 then 64 else 32.

Lemma aw_cases : aw = 64 /\ aflag I = MO_64 \/ aw = 32 /\ aflag I = MO_32.
Proof. destruct HI as (_ & [E | E] & _); unfold aw; rewrite E; cbn; tauto. Qed.

Lemma land_amask x : Z.land x (amask I) = uw aw x.
Proof.
  unfold amask, aw. destruct (aflag I =? MO_64).
  - change (u64 (Z.lnot 0)) with (Z.ones 64). by apply Z.land_ones.
  - change 0xffffffff with (Z.ones 32). by apply Z.land_ones.
Qed.

Lemma uw_aw_u64 x : uw aw (u64 x) = uw aw x.
Proof. apply uw_uw_le. destruct aw_cases as [[-> _] | [-> _]]; lia. Qed.

Lemma add_reg_uw r v : add_reg I r v = uw aw (r + v).
Proof. unfold add_reg. by rewrite land_amask, uw_aw_u64. Qed.

(** A register that started as [r0] after [k] steps of [v]. *)
Definition stepped (r0 k v : Z) : Z := if k =? 0 then r0 else uw aw (r0 + k * v).

Lemma stepped_next r0 k v : 0 <= k -> add_reg I (stepped r0 k v) v = stepped r0 (k + 1) v.
Proof.
  intros Hk. rewrite add_reg_uw. unfold stepped. destruct (Z.eqb_spec (k + 1) 0); [lia |].
  destruct (Z.eqb_spec k 0) as [-> | _]; [f_equal; lia |]. rewrite uw_add_idemp_l. f_equal. lia.
Qed.

Lemma stepped_uw r0 k v : uw aw (stepped r0 k v) = uw aw (r0 + k * v).
Proof.
  unfold stepped. destruct (Z.eqb_spec k 0) as [-> | _]; [f_equal; lia |].
  apply uw_idemp. destruct aw_cases as [[-> _] | [-> _]]; lia.
Qed.

(** The state after [k] iterations from [st], with memory [m]. *)
Definition after (st : xstate W) (k : Z) (m : mem) : xstate W :=
  {| ECX := stepped (ECX st) k (-1); EDI := stepped (EDI st) k sz;
     ESI := if movs I then stepped (ESI st) k sz else ESI st;
     EAX := EAX st; df := df st; hostmem := m; xworld := xworld st |}.

(** ** Addresses *)

(** The limit keeps an address register [r] and its linear address [a] below
    4 GiB for [lim] elements. *)
Definition within (lim r a : Z) : Prop :=
  aflag I = MO_32 -> u32 r + lim * sz <= 2 ^ 32 /\ (code64 I = false -> u32 a + lim * sz <= 2 ^ 32).

Lemma lea_stepped r0 def_base ovr k lim :
  is_u 64 r0 -> 0 <= k < lim -> within lim r0 (lea_v_seg I r0 def_base ovr) ->
  lea_v_seg I (stepped r0 k sz) def_base ovr = u64 (lea_v_seg I r0 def_base ovr + k * sz).
Proof.
  intros Hr Hk Hw. pose proof sz_range as Hs. pose proof (stepped_uw r0 k sz) as Hst.
  unfold lea_v_seg in *. destruct aw_cases as [[Ea Ef] | [Ea Ef]]; rewrite Ea in Hst; rewrite Ef in *;
    cbn [Z.eqb Pos.eqb MO_64 MO_32] in *.
  - assert (E : stepped r0 k sz = u64 (r0 + k * sz)).
    { unfold stepped. rewrite Ea. destruct (Z.eqb_spec k 0) as [-> | _]; [| done].
      rewrite Z.mul_0_l, Z.add_0_r. by rewrite uw_small. }
    destruct ovr as [seg |]; rewrite E; [| done].
    rewrite !uw_add_idemp_l. f_equal. lia.
  - destruct (Hw Ef) as [H1 H2]. clear Hw.
    assert (Hlow : u32 (stepped r0 k sz) = u32 r0 + k * sz).
    { rewrite Hst. rewrite <- uw_add_idemp_l. apply uw_small. unfold is_u.
      pose proof (uw_range 32 r0 ltac:(lia)) as [? _]. nia. }
    assert (H64 : is_u 64 (u32 r0 + k * sz)).
    { pose proof (uw_range 32 r0 ltac:(lia)) as [? _]. unfold is_u. nia. }
    set (o := match ovr with Some seg => Some seg | None => if addseg I then Some def_base else None end) in *.
    destruct o as [seg |]; [destruct (code64 I) |].
    + rewrite Hlow. rewrite uw_add_idemp_l. f_equal. lia.
    + specialize (H2 eq_refl). rewrite !uw_uw_le in * by lia.
      rewrite <- (uw_add_idemp_l 32 (stepped r0 k sz) seg). rewrite Hlow.
      rewrite <- (uw_add_idemp_l 32 r0 seg) in H2 |- *.
      set (a := uw 32 (uw 32 r0 + seg)) in *. pose proof (uw_range 32 (uw 32 r0 + seg) ltac:(lia)) as [? _].
      replace (uw 32 r0 + k * sz + seg) with (uw 32 r0 + seg + k * sz) by lia.
      rewrite <- uw_add_idemp_l. fold a. rewrite !uw_small; [done | unfold is_u; nia | unfold is_u; nia].
    + rewrite Hlow. symmetry. by apply uw_small.
Qed.

(** ** One page *)

Lemma hosts_page st acc a n h :
  is_u 64 a -> tlb_vaddr_to_host (xworld st) acc a (mem_index I) = Some h ->
  a mod TARGET_PAGE_SIZE + Z.of_nat n <= TARGET_PAGE_SIZE ->
  hosts I st acc a n = Some ((fun i => h + Z.of_nat i) <$> seq 0 n).
Proof.
  intros Ha Ht Hp. unfold hosts. apply mapM_Some. apply Forall2_fmap_r, Forall2_same_length_lookup.
  split; [done |]. intros i x y Hx Hy. rewrite Hx in Hy. injection Hy as <-. apply lookup_seq in Hx as [-> Hi].
  cbn [plus]. unfold TARGET_PAGE_SIZE in *. destruct Ha as [Ha0 Ha1].
  assert (Hlt : a + Z.of_nat i < 2 ^ 64).
  { pose proof (Z.div_mod a 4096 ltac:(lia)). assert (a / 4096 < 2 ^ 52) by (apply Z.div_lt_upper_bound; lia). lia. }
  rewrite uw_small by (unfold is_u; lia). apply tlb_page; [by split | done | lia | unfold TARGET_PAGE_SIZE; lia].
Qed.

Lemma scatter_put m h n bs :
  length bs = n -> scatter m ((fun i => h + Z.of_nat i) <$> seq 0 n) bs = put m h bs.
Proof.
  revert m h n; induction bs as [| b bs IH]; intros m h n Hn; cbn [length] in Hn; subst n; [done |].
  cbn [seq fmap list_fmap scatter put]. rewrite Z.add_0_r. rewrite <- (IH _ (h + 1) (length bs) eq_refl). f_equal.
  rewrite <- (fmap_S_seq 0), <- list_fmap_compose. apply list_fmap_ext. intros i x _. cbn. lia.
Qed.

Lemma get_fmap m h n : (fun a => m !!! a) <$> ((fun i => h + Z.of_nat i) <$> seq 0 n) = get m h n.
Proof. unfold get. by rewrite <- list_fmap_compose. Qed.

(** The element at [dst] (and [src]) is inside one page of plain RAM at [hd] (and
    [hs]). *)
Definition at_host st (dst src hd hs : Z) : Prop :=
  is_u 64 dst /\ tlb_vaddr_to_host (xworld st) MMU_DATA_STORE dst (mem_index I) = Some hd /\
  (movs I = true -> is_u 64 src /\ tlb_vaddr_to_host (xworld st) MMU_DATA_LOAD src (mem_index I) = Some hs).

Definition page_left (dst src k : Z) : Prop :=
  dst mod TARGET_PAGE_SIZE + k * sz <= TARGET_PAGE_SIZE /\
  (movs I = true -> src mod TARGET_PAGE_SIZE + k * sz <= TARGET_PAGE_SIZE).

(** What one element does to the memory. *)
Definition elem st (m : mem) (hd hs : Z) : mem :=
  put m hd (if movs I then get m hs (esize I) else bytes_of (EAX st) (esize I)).

Lemma rep_iter_after st k m dst src hd hs :
  0 <= k -> df st = 1 ->
  A0_EDI I (after st k m) = dst -> (movs I = true -> A0_ESI I (after st k m) = src) ->
  at_host st dst src hd hs -> page_left dst src 1 ->
  rep_iter I (after st k m) = Some (after st (k + 1) (elem st m hd hs)).
Proof.
  intros Hk Hdf Ed Es (Ud & Td & Hs) (Pd & Ps). pose proof esize_sz as Hsz. unfold rep_iter, ram_access.
  rewrite Ed. rewrite (hosts_page (after st k m) MMU_DATA_STORE dst (esize I) hd Ud Td) by lia.
  assert (Hfin : forall mm, {| ECX := add_reg I (ECX (after st k m)) (-1); EDI := add_reg I (EDI (after st k m)) (Z.shiftl (df (after st k m)) (ot I));
      ESI := if movs I then add_reg I (ESI (after st k m)) (Z.shiftl (df (after st k m)) (ot I)) else ESI (after st k m);
      EAX := EAX (after st k m); df := df (after st k m); hostmem := mm; xworld := xworld (after st k m) |} = after st (k + 1) mm).
  { intros mm. unfold after. cbn [ECX EDI ESI EAX df xworld]. rewrite Hdf, shl_ot, Z.mul_1_l.
    rewrite !stepped_next by done. destruct (movs I); [rewrite !stepped_next by done |]; done. }
  unfold elem. destruct (movs I) eqn:Em.
  - destruct (Hs eq_refl) as [Us Ts]. rewrite (Es eq_refl).
    rewrite (hosts_page (after st k m) MMU_DATA_LOAD src (esize I) hs Us Ts) by (specialize (Ps eq_refl); lia).
    cbn [mbind option_bind]. rewrite Hfin. cbn [hostmem after]. rewrite get_fmap.
    rewrite scatter_put by apply get_length. done.
  - cbn [mbind option_bind]. rewrite Hfin. cbn [hostmem after EAX]. rewrite scatter_put by apply bytes_of_length. done.
Qed.

(** ** Chunks *)

(** [n] iterations of the REP instruction, none of them after the count is 0. *)
Fixpoint iters (n : nat) st : option (xstate W) :=
  match n with
  | O => Some st
  | S n =>
      if Z.land (ECX st) (amask I) =? 0 then None
      else st ← rep_iter I st; iters n st
  end.

Lemma iters_app n k st st' : iters n st = Some st' -> iters (n + k) st = iters k st'.
Proof.
  revert st; induction n as [| n IH]; intros st; cbn [iters plus]; [by intros [= ->] |].
  destruct (_ =? 0); [done |]. destruct (rep_iter I st) as [st1 |]; cbn [mbind option_bind]; [apply IH | done].
Qed.

Fixpoint elems (n : nat) st (m : mem) (hd hs : Z) : mem :=
  match n with
  | O => m
  | S n => elems n st (elem st m hd hs) (hd + sz) (hs + sz)
  end.

Lemma elems_movs n st m hd hs : movs I = true -> elems n st m hd hs = copy_elems n (esize I) m hd hs.
Proof.
  intros Em. revert m hd hs; induction n as [| n IH]; intros m hd hs; cbn [elems copy_elems]; [done |].
  rewrite IH. unfold elem. rewrite Em. by rewrite esize_sz.
Qed.

Lemma elems_stos n st m hd hs :
  movs I = false -> elems n st m hd hs = store_elems n (bytes_of (EAX st) (esize I)) m hd.
Proof.
  intros Em. revert m hd hs; induction n as [| n IH]; intros m hd hs; cbn [elems store_elems]; [done |].
  rewrite IH. unfold elem. rewrite Em, bytes_of_length. by rewrite esize_sz.
Qed.

Lemma page_advance a k :
  is_u 64 a -> 0 <= k -> a mod TARGET_PAGE_SIZE + k < TARGET_PAGE_SIZE ->
  u64 (a + k) = a + k /\ (a + k) mod TARGET_PAGE_SIZE = a mod TARGET_PAGE_SIZE + k.
Proof.
  unfold is_u, TARGET_PAGE_SIZE. intros [Ha0 Ha1] Hk Hp. pose proof (Z.div_mod a 4096 ltac:(lia)) as Hdm.
  pose proof (Z.mod_pos_bound a 4096 ltac:(lia)). split.
  - apply uw_small. unfold is_u. assert (a / 4096 < 2 ^ 52) by (apply Z.div_lt_upper_bound; lia). lia.
  - rewrite Hdm at 1. replace (4096 * (a / 4096) + a mod 4096 + k) with (a mod 4096 + k + a / 4096 * 4096) by lia.
    rewrite Z.mod_add by lia. apply Z.mod_small. lia.
Qed.

Lemma at_host_next st dst src hd hs n :
  at_host st dst src hd hs -> page_left dst src (Z.of_nat (S (S n))) ->
  at_host st (u64 (dst + sz)) (u64 (src + sz)) (hd + sz) (hs + sz) /\
  page_left (u64 (dst + sz)) (u64 (src + sz)) (Z.of_nat (S n)).
Proof.
  intros (Ud & Td & Hs) (Pd & Ps). pose proof sz_range as Hz.
  assert (Hdlt : dst mod TARGET_PAGE_SIZE + sz < TARGET_PAGE_SIZE) by nia.
  destruct (page_advance dst sz Ud ltac:(lia) Hdlt) as [E1 E2].
  assert (Hsrc : movs I = true -> is_u 64 (u64 (src + sz)) /\
    tlb_vaddr_to_host (xworld st) MMU_DATA_LOAD (u64 (src + sz)) (mem_index I) = Some (hs + sz) /\
    u64 (src + sz) mod TARGET_PAGE_SIZE + Z.of_nat (S n) * sz <= TARGET_PAGE_SIZE).
  { intros Em. specialize (Ps Em). destruct (Hs Em) as [Us Ts].
    assert (Hslt : src mod TARGET_PAGE_SIZE + sz < TARGET_PAGE_SIZE) by nia.
    destruct (page_advance src sz Us ltac:(lia) Hslt) as [F1 F2]. split_and!; [by apply uw_range | |].
    - rewrite F1. by apply tlb_page; try lia.
    - rewrite F1, F2. nia. }
  split; split.
  - by apply uw_range.
  - split; [rewrite E1; by apply tlb_page; try lia |]. intros Em. by destruct (Hsrc Em) as (? & ? & _).
  - rewrite E1, E2. nia.
  - intros Em. by destruct (Hsrc Em) as (_ & _ & ?).
Qed.

Section Call.
Context (st : xstate W) (lim : Z) (Hregs : regs_ok st) (Hdf : df st = 1).
Context (Hcnt : lim <= Z.land (ECX st) (amask I)).
Context (Hdst : within lim (EDI st) (A0_EDI I st)).
Context (Hsrc : movs I = true -> within lim (ESI st) (A0_ESI I st)).

Definition dst_at (k : Z) : Z := u64 (A0_EDI I st + k * sz).
Definition src_at (k : Z) : Z := u64 (A0_ESI I st + k * sz).

Lemma dst_next k : u64 (dst_at k + sz) = dst_at (k + 1).
Proof. unfold dst_at. rewrite uw_add_idemp_l. f_equal. lia. Qed.

Lemma src_next k : u64 (src_at k + sz) = src_at (k + 1).
Proof. unfold src_at. rewrite uw_add_idemp_l. f_equal. lia. Qed.

Lemma A0_after k m :
  0 <= k < lim ->
  A0_EDI I (after st k m) = dst_at k /\ (movs I = true -> A0_ESI I (after st k m) = src_at k).
Proof.
  intros Hk. destruct Hregs as (_ & Hd & Hs). split; [| intros Em].
  - unfold A0_EDI. cbn [after EDI]. by apply (lea_stepped _ _ _ k lim).
  - unfold A0_ESI. cbn [after ESI]. rewrite Em. apply (lea_stepped _ _ _ k lim); [done | done | by apply Hsrc].
Qed.

(** The count is not used up before the limit. *)
Lemma count_after k m : 0 <= k < lim -> (Z.land (ECX (after st k m)) (amask I) =? 0) = false.
Proof.
  intros Hk. rewrite land_amask in *. cbn [after ECX]. rewrite stepped_uw. apply Z.eqb_neq.
  assert (Haw : 0 <= aw) by (destruct aw_cases as [[-> _] | [-> _]]; lia).
  pose proof (uw_range aw (ECX st) Haw) as [H0 H1].
  rewrite <- uw_add_idemp_l, uw_small; unfold is_u; lia.
Qed.

Lemma chunk_iters n k m hd hs :
  0 <= k -> k + Z.of_nat n <= lim ->
  ((0 < n)%nat -> at_host st (dst_at k) (src_at k) hd hs) -> page_left (dst_at k) (src_at k) (Z.of_nat n) ->
  iters n (after st k m) = Some (after st (k + Z.of_nat n) (elems n st m hd hs)).
Proof.
  revert k m hd hs; induction n as [| n IH]; intros k m hd hs Hk Hl Hat Hp; cbn [iters elems].
  { by rewrite Z.add_0_r. }
  specialize (Hat ltac:(lia)). destruct (A0_after k m ltac:(lia)) as [Ed Es]. pose proof sz_range as Hz.
  rewrite count_after by lia.
  rewrite (rep_iter_after st k m (dst_at k) (src_at k) hd hs Hk Hdf Ed Es Hat).
  2: { destruct Hp as [P1 P2]. split; [nia |]. intros Em. specialize (P2 Em). nia. }
  cbn [mbind option_bind]. replace (k + Z.of_nat (S n)) with (k + 1 + Z.of_nat n) by lia.
  destruct n as [| n]; [cbn [iters elems]; by rewrite Z.add_0_r |].
  destruct (at_host_next st _ _ hd hs n Hat Hp) as [Hat' Hp']. rewrite dst_next, src_next in Hat', Hp'.
  apply IH; [lia | lia | done | done].
Qed.

(** ** The loop of the helper *)

Lemma memmove_chunk n m hd hs :
  movs I = true -> 0 <= n -> hd <= hs \/ hs + n * sz <= hd ->
  memmove m hd hs (Z.shiftl n (ot I)) = elems (Z.to_nat n) st m hd hs.
Proof.
  intros Em Hn Ho. pose proof esize_sz as Hs. assert (E : Z.of_nat (Z.to_nat n * esize I) = n * sz) by nia.
  rewrite elems_movs, memmove_elems by (done || lia). unfold memmove. rewrite shl_ot, <- E, Nat2Z.id. done.
Qed.

Lemma fill_chunk n m hd hs :
  movs I = false -> 0 <= n -> rep_bulk_fill m hd (EAX st) (ot I) n = elems (Z.to_nat n) st m hd hs.
Proof.
  intros Em Hn. rewrite elems_stos by done. destruct HI as (Ho & _). rewrite rep_bulk_fill_elems by done.
  pose proof esize_sz as Hs. f_equal. f_equal. lia.
Qed.

Lemma page_count a x n : n <= x / sz -> 0 <= n -> x = TARGET_PAGE_SIZE - a mod TARGET_PAGE_SIZE ->
  a mod TARGET_PAGE_SIZE + n * sz <= TARGET_PAGE_SIZE.
Proof. intros Hn H0 ->. pose proof sz_range. pose proof (Z.mul_div_le (TARGET_PAGE_SIZE - a mod TARGET_PAGE_SIZE) sz ltac:(lia)). nia. Qed.

Lemma dst_shift k n : u64 (dst_at k + Z.shiftl n (ot I)) = dst_at (k + n).
Proof. unfold dst_at. rewrite shl_ot, uw_add_idemp_l. f_equal. lia. Qed.

Lemma src_shift k n : u64 (src_at k + Z.shiftl n (ot I)) = src_at (k + n).
Proof. unfold src_at. rewrite shl_ot, uw_add_idemp_l. f_equal. lia. Qed.

Lemma dst_at_u k : is_u 64 (dst_at k).
Proof. by apply uw_range. Qed.

Lemma src_at_u k : is_u 64 (src_at k).
Proof. by apply uw_range. Qed.

(** What the loop promises from [k] iterations on. *)
Definition loop_post (k : Z) (m : mem) (r : Z * mem) : Prop :=
  exists n, fst r = k + Z.of_nat n /\ fst r <= lim /\
            iters n (after st k m) = Some (after st (fst r) (snd r)).

Lemma loop_stop k m : k <= lim -> loop_post k m (k, m).
Proof. intros Hk. exists O. cbn [fst snd iters]. by rewrite Z.add_0_r. Qed.

Lemma loop_chunk k n m hd hs r :
  0 <= k -> 0 < n -> k + n <= lim -> at_host st (dst_at k) (src_at k) hd hs ->
  page_left (dst_at k) (src_at k) n -> loop_post (k + n) (elems (Z.to_nat n) st m hd hs) r -> loop_post k m r.
Proof.
  intros Hk Hn Hl Hat Hp (n' & E1 & E2 & E3). exists (Z.to_nat n + n')%nat. split_and!; [lia | done |].
  assert (En : Z.of_nat (Z.to_nat n) = n) by lia.
  rewrite (iters_app (Z.to_nat n) n' _ (after st (k + n) (elems (Z.to_nat n) st m hd hs))); [done |].
  rewrite (chunk_iters (Z.to_nat n) k m hd hs) by (rewrite ?En; (done || lia)). by rewrite En.
Qed.

Lemma bulk_loop_post chunks k m src :
  0 <= k <= lim -> (movs I = true -> src = src_at k) ->
  loop_post k m (bulk_loop I chunks lim st k (dst_at k) src m).
Proof.
  pose proof loop_chunk as Hlc. pose proof memmove_chunk as Hmc. pose proof fill_chunk as Hfc.
  revert k m src; induction chunks as [| chunks IH]; intros k m src Hk Hs; cbn [bulk_loop]; [apply loop_stop; lia |].
  destruct (Z.leb_spec lim k) as [| Hlt]; [apply loop_stop; lia |].
  rewrite !shr_ot. set (nd := (TARGET_PAGE_SIZE - dst_at k mod TARGET_PAGE_SIZE) / sz).
  pose proof sz_range as Hz. assert (Hpm : forall a, 0 <= a mod TARGET_PAGE_SIZE < TARGET_PAGE_SIZE)
    by (intros a; apply Z.mod_pos_bound; unfold TARGET_PAGE_SIZE; lia).
  assert (Hnd : 0 <= nd) by (apply Z.div_pos; [pose proof (Hpm (dst_at k)); lia | lia]).
  destruct (movs I) eqn:Em.
  - rewrite (Hs eq_refl). set (ns := (TARGET_PAGE_SIZE - src_at k mod TARGET_PAGE_SIZE) / sz).
    assert (Hns : 0 <= ns) by (apply Z.div_pos; [pose proof (Hpm (src_at k)); lia | lia]).
    set (n := Z.min (Z.min (lim - k) nd) ns). destruct (Z.eqb_spec n 0) as [| Hn0]; [apply loop_stop; lia |].
    destruct (tlb_vaddr_to_host _ MMU_DATA_LOAD _ _) as [hs |] eqn:Ts; [| apply loop_stop; lia].
    destruct (tlb_vaddr_to_host _ MMU_DATA_STORE _ _) as [hd |] eqn:Td; [| apply loop_stop; lia].
    assert (Hat : at_host st (dst_at k) (src_at k) hd hs).
    { split_and!; [apply dst_at_u | done | intros _; split; [apply src_at_u | done]]. }
    assert (Hgo : forall n', 0 < n' <= n -> hd <= hs \/ hs + n' * sz <= hd ->
      loop_post k m (bulk_loop I chunks lim st (k + n') (u64 (dst_at k + Z.shiftl n' (ot I)))
        (u64 (src_at k + Z.shiftl n' (ot I))) (memmove m hd hs (Z.shiftl n' (ot I))))).
    { intros n' Hn' Ho. apply (Hlc k n' m hd hs); [lia | lia | lia | done | |].
      - split; [refine (page_count (dst_at k) _ n' _ _ eq_refl); [fold nd; lia | lia] |].
        intros _. refine (page_count (src_at k) _ n' _ _ eq_refl); [fold ns; lia | lia].
      - rewrite dst_shift, src_shift, <- Hmc by (done || lia). apply IH; [lia | done]. }
    destruct (Z.ltb_spec hs hd) as [Hlt1 | Hge1]; cbn [andb]; [| apply Hgo; [lia | left; lia]].
    destruct (Z.ltb_spec hd (hs + Z.shiftl n (ot I))) as [Hlt2 | Hge2].
    2: { apply Hgo; [lia |]. rewrite shl_ot in Hge2. by right. }
    rewrite (shr_ot (hd - hs)). set (n2 := Z.min n ((hd - hs) / sz)).
    assert (0 <= (hd - hs) / sz) by (apply Z.div_pos; lia).
    destruct (Z.eqb_spec n2 0) as [| Hn2]; [apply loop_stop; lia |]. apply Hgo; [lia |]. right.
    pose proof (Z.mul_div_le (hd - hs) sz ltac:(lia)). nia.
  - set (n := Z.min (lim - k) nd). destruct (Z.eqb_spec n 0) as [| Hn0]; [apply loop_stop; lia |].
    destruct (tlb_vaddr_to_host _ MMU_DATA_STORE _ _) as [hd |] eqn:Td; [| apply loop_stop; lia].
    apply (Hlc k n m hd 0); [lia | lia | lia | | |].
    + split_and!; [apply dst_at_u | done | congruence].
    + split; [refine (page_count (dst_at k) _ n _ _ eq_refl); [fold nd; lia | lia] | congruence].
    + rewrite dst_shift, (Hfc n m hd 0) by (done || lia). apply IH; [lia | congruence].
Qed.

End Call.

(** ** The helper *)

Lemma lea_u a0 def_base ovr : is_u 64 a0 -> is_u 64 (lea_v_seg I a0 def_base ovr).
Proof.
  intros Ha. assert (H32 : forall x, is_u 64 (u32 x)).
  { intros x. pose proof (uw_range 32 x ltac:(lia)) as [? ?]. unfold is_u in *. lia. }
  unfold lea_v_seg. repeat case_match; try done; try (by apply uw_range); apply H32.
Qed.

Lemma bulk_limit_spec st cnt dst src :
  0 <= cnt ->
  let lim := bulk_limit I st cnt dst src in
  0 <= lim <= cnt /\ within lim (EDI st) dst /\ (movs I = true -> within lim (ESI st) src).
Proof.
  intros Hc. cbv zeta. unfold bulk_limit, within. pose proof sz_range as Hz.
  assert (HL : forall x, Z.land x 0xffffffff = u32 x)
    by (intros x; change 0xffffffff with (Z.ones 32); by apply Z.land_ones).
  rewrite !HL, !shr_ot.
  assert (Hup : forall x l, l <= (0x100000000 - u32 x) / sz -> u32 x + l * sz <= 2 ^ 32).
  { intros x l Hl. pose proof (Z.mul_div_le (0x100000000 - u32 x) sz ltac:(lia)). nia. }
  assert (Hup0 : forall x, 0 <= (0x100000000 - u32 x) / sz).
  { intros x. pose proof (uw_range 32 x ltac:(lia)) as [? ?]. apply Z.div_pos; [lia | lia]. }
  pose proof (Hup0 (EDI st)). pose proof (Hup0 (ESI st)). pose proof (Hup0 dst). pose proof (Hup0 src).
  destruct aw_cases as [[_ ->] | [_ ->]]; cbn [Z.eqb Pos.eqb MO_64 MO_32].
  - split_and!; [lia | lia | done | done].
  - destruct (movs I), (code64 I);
      (split; [lia | split; [intros _; split; [apply Hup; lia | first [done | intros _; apply Hup; lia]] |
        first [done | intros _ _; split; [apply Hup; lia | first [done | intros _; apply Hup; lia]]]]]).
Qed.

Lemma after_0 st m : after st 0 m =
  {| ECX := ECX st; EDI := EDI st; ESI := ESI st; EAX := EAX st; df := df st; hostmem := m; xworld := xworld st |}.
Proof. unfold after, stepped. cbn [Z.eqb]. by destruct (movs I). Qed.

Lemma rep_bulk_iters st :
  regs_ok st -> exists n, Z.of_nat n <= Z.land (ECX st) (amask I) /\ iters n st = Some (rep_bulk I st).
Proof.
  intros Hr. unfold rep_bulk, helper_rep_bulk. destruct (unpack_packed I HI) as (E1 & E2 & E3 & E4 & E5).
  rewrite (rep_bulk_body_ext I _ st _ _ E1 E2 E3 E4 E5). unfold rep_bulk_body.
  set (cnt := Z.land (ECX st) (amask I)). set (src := if movs I then A0_ESI I st else 0).
  assert (Hcnt : 0 <= cnt).
  { unfold cnt. rewrite land_amask. apply uw_nonneg. destruct aw_cases as [[-> _] | [-> _]]; lia. }
  destruct (Z.eqb_spec (df st) 1) as [Hdf | _]; [| exists O; done].
  destruct (Z.eqb_spec cnt 0) as [| Hc0]; [exists O; done |]. cbn [negb orb].
  destruct (bulk_limit_spec st cnt (A0_EDI I st) src Hcnt) as (Hl & Hd & Hs).
  set (lim := bulk_limit I st cnt (A0_EDI I st) src) in *.
  assert (Hs' : movs I = true -> within lim (ESI st) (A0_ESI I st))
    by (intros Em; specialize (Hs Em); unfold src in Hs; by rewrite Em in Hs).
  destruct Hr as (Rc & Rd & Rs).
  assert (Ed : A0_EDI I st = dst_at st 0).
  { unfold dst_at. rewrite Z.mul_0_l, Z.add_0_r. symmetry. apply uw_small. by apply lea_u. }
  assert (Es : movs I = true -> src = src_at st 0).
  { intros Em. unfold src, src_at. rewrite Em, Z.mul_0_l, Z.add_0_r. symmetry. apply uw_small. by apply lea_u. }
  rewrite Ed.
  destruct (bulk_loop_post st lim (conj Rc (conj Rd Rs)) Hdf (proj2 Hl) Hd Hs' 64 0 (hostmem st) src ltac:(lia) Es)
    as (n & F1 & F2 & F3).
  destruct (bulk_loop I 64 lim st 0 (dst_at st 0) src (hostmem st)) as [k m]. cbn [fst snd] in *.
  exists n. split; [lia |]. rewrite after_0 in F3. destruct st. cbn [ECX EDI ESI EAX df hostmem xworld] in *. rewrite F3. f_equal.
  rewrite !land_amask, !uw_aw_u64, shl_ot. unfold after, stepped. cbn [ECX EDI ESI EAX df hostmem xworld].
  destruct (Z.eqb_spec k 0); [by destruct (movs I) |].
  replace (ECX0 + k * -1) with (ECX0 - k) by lia. by destruct (movs I).
Qed.

(** ** With and without the helper *)

Lemma rep_iter_regs st st' : regs_ok st -> rep_iter I st = Some st' -> regs_ok st'.
Proof.
  intros Hr. unfold rep_iter. destruct (ram_access I st) as [m |]; [| intros E; by eapply slow_regs].
  intros [= <-]. destruct Hr as (Hc & Hd & Hs).
  assert (Ha : forall r v, is_u 64 (add_reg I r v)).
  { intros r v. rewrite add_reg_uw. destruct aw_cases as [[-> _] | [-> _]].
    - by apply uw_range.
    - pose proof (uw_range 32 (r + v) ltac:(lia)) as [? ?]. unfold is_u. lia. }
  split_and!; cbn [ECX EDI ESI]; [apply Ha | apply Ha |]. destruct (movs I); [apply Ha | done].
Qed.

Lemma iters_regs n st st' : regs_ok st -> iters n st = Some st' -> regs_ok st'.
Proof.
  revert st; induction n as [| n IH]; intros st Hr; cbn [iters]; [by intros [= <-] |].
  destruct (_ =? 0); [done |]. destruct (rep_iter I st) as [st1 |] eqn:E; cbn [mbind option_bind]; [| done].
  apply IH. by apply (rep_iter_regs st).
Qed.

Lemma rep_plain_iters n f st st' : iters n st = Some st' -> rep_plain I (n + f) st = rep_plain I f st'.
Proof.
  revert st; induction n as [| n IH]; intros st; cbn [iters plus rep_plain]; [by intros [= <-] |].
  destruct (_ =? 0); [done |]. destruct (rep_iter I st) as [st1 |]; cbn [mbind option_bind]; [apply IH | done].
Qed.

Lemma rep_plain_short n f st st' : (f <= n)%nat -> iters n st = Some st' -> rep_plain I f st = None.
Proof.
  revert f st; induction n as [| n IH]; intros [| f] st Hf; cbn [iters rep_plain]; try done; [lia |].
  destruct (_ =? 0); [done |]. destruct (rep_iter I st) as [st1 |]; cbn [mbind option_bind]; [apply IH; lia | done].
Qed.

Lemma rep_with_bulk_mono f f' st r : (f <= f')%nat -> rep_with_bulk I f st = Some r -> rep_with_bulk I f' st = Some r.
Proof.
  revert f' st; induction f as [| f IH]; intros [| f'] st Hf; cbn [rep_with_bulk]; try done; [lia |].
  destruct (_ =? 0); [done |]. destruct (_ =? 0); [done |]. destruct (rep_iter I (rep_bulk I st)); [apply IH; lia | done].
Qed.

Lemma plain_to_bulk f st r : regs_ok st -> rep_plain I f st = Some r -> rep_with_bulk I f st = Some r.
Proof.
  revert st; induction f as [f IH] using lt_wf_ind; intros st Hr Hp.
  destruct f as [| f]; [done |]. cbn [rep_with_bulk]. destruct (Z.land (ECX st) (amask I) =? 0) eqn:E0.
  { cbn [rep_plain] in Hp. by rewrite E0 in Hp. }
  destruct (rep_bulk_iters st Hr) as (n & _ & Hn). pose proof (iters_regs n st _ Hr Hn) as Hr'.
  set (st1 := rep_bulk I st) in *.
  destruct (decide (S f <= n)%nat) as [Hle | Hgt]; [by rewrite (rep_plain_short n (S f) st st1 Hle Hn) in Hp |].
  replace (S f) with (n + S (f - n))%nat in Hp by lia. rewrite (rep_plain_iters n _ st st1 Hn) in Hp.
  cbn [rep_plain] in Hp. destruct (Z.land (ECX st1) (amask I) =? 0); [done |].
  destruct (rep_iter I st1) as [st2 |] eqn:E2; [| done].
  apply (rep_with_bulk_mono (f - n)); [lia |]. apply IH; [lia | by apply (rep_iter_regs st1) | done].
Qed.

Lemma bulk_to_plain f st r : regs_ok st -> rep_with_bulk I f st = Some r -> exists f', rep_plain I f' st = Some r.
Proof.
  revert st; induction f as [| f IH]; intros st Hr; cbn [rep_with_bulk]; [done |].
  destruct (Z.land (ECX st) (amask I) =? 0) eqn:E0.
  { intros [= <-]. exists 1%nat. cbn [rep_plain]. by rewrite E0. }
  destruct (rep_bulk_iters st Hr) as (n & _ & Hn). pose proof (iters_regs n st _ Hr Hn) as Hr'.
  set (st1 := rep_bulk I st) in *. destruct (Z.land (ECX st1) (amask I) =? 0) eqn:E1.
  { intros [= <-]. exists (n + 1)%nat. rewrite (rep_plain_iters n _ st st1 Hn). cbn [rep_plain]. by rewrite E1. }
  destruct (rep_iter I st1) as [st2 |] eqn:E2.
  - intros Hb. destruct (IH st2 (rep_iter_regs st1 st2 Hr' E2) Hb) as [f' Hf']. exists (n + S f')%nat.
    rewrite (rep_plain_iters n _ st st1 Hn). cbn [rep_plain]. by rewrite E1, E2.
  - intros [= <-]. exists (n + 1)%nat. rewrite (rep_plain_iters n _ st st1 Hn). cbn [rep_plain]. by rewrite E1, E2.
Qed.

End Refine.

(** ** A concrete machine *)

Module RepDemo.

(** 16 KiB of RAM mapped to itself; everything else faults. *)
#[global] Instance mmu : Mmu unit := {
  tlb_vaddr_to_host _ _ v _ := if v <? 16384 then Some v else None;
  slow_iter _ _ := None
}.

#[global] Instance mmu_laws : MmuLaws unit.
Proof.
  split; [| done]. intros w acc v i idx h _. cbn. unfold TARGET_PAGE_SIZE.
  destruct (Z.ltb_spec v 16384) as [Hv | _]; [| done]. intros [= <-] Hi Hp.
  pose proof (Z.div_mod v 4096 ltac:(lia)). assert (v / 4096 < 4) by (apply Z.div_lt_upper_bound; lia).
  destruct (Z.ltb_spec (v + i) 16384); [done | lia].
Qed.

(** REP MOVSB in 64-bit code. *)
Definition movsb : insn :=
  {| ot := MO_8; aflag := MO_64; movs := true; code64 := true; addseg := false; ds_base := 0; es_base := 0;
     override := None; mem_index := 2 |}.

Lemma movsb_ok : insn_ok movsb.
Proof. split_and!; try done. by right. Qed.

(** Six bytes from 100 to 102: the copy repeats the two bytes at 100. *)
Definition start : xstate unit :=
  {| ECX := 6; EDI := 102; ESI := 100; EAX := 0; df := 1;
     hostmem := <[100 := 7]> (<[101 := 8]> ∅); xworld := tt |}.

Lemma start_regs : regs_ok start.
Proof. by vm_compute. Qed.

End RepDemo.

(** ** The properties *)

(** C26: one call of the bulk helper is exactly some number of single iterations of
    the REP MOVS / REP STOS instruction (never more than the count allows): same
    registers, same memory, also when source and destination overlap. *)
Theorem rep_bulk_exact {W} `{!Mmu W} `{!MmuLaws W} I (st : xstate W) :
  insn_ok I -> regs_ok st ->
  exists n, Z.of_nat n <= Z.land (ECX st) (amask I) /\ iters I n st = Some (rep_bulk I st).
Proof. intros HI. exact (rep_bulk_iters I HI st). Qed.

Lemma rep_bulk_exact_witness :
  (exists n, Z.of_nat n <= 6 /\ iters RepDemo.movsb n RepDemo.start = Some (rep_bulk RepDemo.movsb RepDemo.start)) /\
  ECX (rep_bulk RepDemo.movsb RepDemo.start) = 0 /\
  get (hostmem (rep_bulk RepDemo.movsb RepDemo.start)) 102 6 = [7; 8; 7; 8; 7; 8].
Proof.
  split; [| vm_compute; done].
  exact (rep_bulk_exact RepDemo.movsb RepDemo.start RepDemo.movsb_ok RepDemo.start_regs).
Defined.

(** C10: a REP MOVS / REP STOS instruction ends with the bulk helper exactly as
    without it: finished in the same state, or stopped at the same iteration that
    faults, with the same registers and memory. *)
Theorem rep_same_result {W} `{!Mmu W} `{!MmuLaws W} I (st : xstate W) r :
  insn_ok I -> regs_ok st ->
  (exists fuel, rep_plain I fuel st = Some r) <-> (exists fuel, rep_with_bulk I fuel st = Some r).
Proof.
  intros HI Hr. split; intros [f Hf].
  - exists f. by apply plain_to_bulk.
  - by apply (bulk_to_plain I HI f).
Qed.

Lemma rep_same_result_witness :
  exists fuel, rep_with_bulk RepDemo.movsb fuel RepDemo.start = Some (Finished (rep_bulk RepDemo.movsb RepDemo.start)).
Proof.
  apply (rep_same_result RepDemo.movsb RepDemo.start _ RepDemo.movsb_ok RepDemo.start_regs).
  exists 7%nat. vm_compute. reflexivity.
Defined.
