(* ===== verification/Tlb.v ===== *)
(** * The softmmu TLB

    accel/tcg/cputlb.c: per MMU mode a direct-mapped table of entries the generated
    code compares addresses with, a fully associative victim table of 8 entries, the
    region covered by large pages, and the use counter that drives resizing.  Guest
    addresses are 64-bit, host addresses and sizes 32-bit, pages 4 KiB. *)
From S2P Require Import Prelude BitOps HostUtils.

(** ** Constants *)

Definition TARGET_PAGE_BITS : Z := 12.
Definition TARGET_PAGE_SIZE : Z := Z.shiftl 1 TARGET_PAGE_BITS.
Definition TARGET_PAGE_MASK : Z := u64 (- TARGET_PAGE_SIZE).

Definition TLB_INVALID_MASK : Z := Z.shiftl 1 (TARGET_PAGE_BITS - 1).
Definition TLB_NOTDIRTY : Z := Z.shiftl 1 (TARGET_PAGE_BITS - 2).
Definition TLB_MMIO : Z := Z.shiftl 1 (TARGET_PAGE_BITS - 3).
Definition TLB_DISCARD_WRITE : Z := Z.shiftl 1 (TARGET_PAGE_BITS - 4).
Definition TLB_FORCE_SLOW : Z := Z.shiftl 1 (TARGET_PAGE_BITS - 5).
Definition TLB_FLAGS_MASK : Z :=
  Z.lor TLB_INVALID_MASK (Z.lor TLB_NOTDIRTY (Z.lor TLB_MMIO (Z.lor TLB_FORCE_SLOW TLB_DISCARD_WRITE))).
Definition TLB_BSWAP : Z := 1.
Definition TLB_WATCHPOINT : Z := 2.
Definition TLB_SLOW_FLAGS_MASK : Z := Z.lor TLB_BSWAP TLB_WATCHPOINT.

Definition CPU_TLB_ENTRY_BITS : Z := 5.
Definition CPU_TLB_DYN_MIN_BITS : Z := 6.
Definition CPU_TLB_DYN_DEFAULT_BITS : Z := 8.
Definition CPU_TLB_DYN_MAX_BITS : Z := 32 - TARGET_PAGE_BITS.
Definition NB_MMU_MODES : Z := 16.
Definition CPU_VTLB_SIZE : nat := 8.
Definition ALL_MMUIDX_BITS : Z := Z.shiftl 1 NB_MMU_MODES - 1.

Definition PAGE_READ : Z := 1.
Definition PAGE_WRITE : Z := 2.
Definition PAGE_EXEC : Z := 4.
Definition PAGE_WRITE_INV : Z := 0x20.
Definition BP_MEM_READ : Z := 1.
Definition BP_MEM_WRITE : Z := 2.

(** ** Data *)

Inductive MMUAccessType := MMU_DATA_LOAD | MMU_DATA_STORE | MMU_INST_FETCH.

(** An entry: three comparators and the distance to the host address. *)
Record CPUTLBEntry := { addr_read : Z; addr_write : Z; addr_code : Z; addend : Z }.

Definition tlb_read_idx (e : CPUTLBEntry) (t : MMUAccessType) : Z :=
  match t with MMU_DATA_LOAD => addr_read e | MMU_DATA_STORE => addr_write e | MMU_INST_FETCH => addr_code e end.

(** [memset(e, -1, sizeof *e)]. *)
Definition cleared : CPUTLBEntry :=
  {| addr_read := u64 (-1); addr_write := u64 (-1); addr_code := u64 (-1); addend := u32 (-1) |}.

Record MemTxAttrs := { byte_swap : bool; other_attrs : Z }.

Record slow := { sf_read : Z; sf_write : Z; sf_code : Z }.
Definition slow_idx (s : slow) (t : MMUAccessType) : Z :=
  match t with MMU_DATA_LOAD => sf_read s | MMU_DATA_STORE => sf_write s | MMU_INST_FETCH => sf_code s end.

(** What generated code does not read. *)
Record CPUTLBEntryFull := {
  xlat_section : Z; phys_addr : Z; attrs : MemTxAttrs; prot : Z; lg_page_size : Z; slow_flags : slow }.

(** [tlb.d[i]] and [tlb.f[i]] of one mode. *)
Record tlbm := {
  large_page_addr : Z;
  large_page_mask : Z;
  window_begin_ns : Z;
  window_max_entries : Z;
  n_used_entries : Z;
  vindex : Z;
  vtable : list CPUTLBEntry;
  vfulltlb : list CPUTLBEntryFull;
  fulltlb : list CPUTLBEntryFull;
  fmask : Z;
  table : list CPUTLBEntry
}.

Definition set_large (a m : Z) (t : tlbm) : tlbm :=
  {| large_page_addr := a; large_page_mask := m; window_begin_ns := window_begin_ns t; window_max_entries := window_max_entries t;
     n_used_entries := n_used_entries t; vindex := vindex t; vtable := vtable t; vfulltlb := vfulltlb t; fulltlb := fulltlb t;
     fmask := fmask t; table := table t |}.
Definition set_window (ns mx : Z) (t : tlbm) : tlbm :=
  {| large_page_addr := large_page_addr t; large_page_mask := large_page_mask t; window_begin_ns := ns; window_max_entries := mx;
     n_used_entries := n_used_entries t; vindex := vindex t; vtable := vtable t; vfulltlb := vfulltlb t; fulltlb := fulltlb t;
     fmask := fmask t; table := table t |}.
Definition set_used (n : Z) (t : tlbm) : tlbm :=
  {| large_page_addr := large_page_addr t; large_page_mask := large_page_mask t; window_begin_ns := window_begin_ns t;
     window_max_entries := window_max_entries t; n_used_entries := n; vindex := vindex t; vtable := vtable t; vfulltlb := vfulltlb t;
     fulltlb := fulltlb t; fmask := fmask t; table := table t |}.
Definition set_victims (v : Z) (es : list CPUTLBEntry) (fs : list CPUTLBEntryFull) (t : tlbm) : tlbm :=
  {| large_page_addr := large_page_addr t; large_page_mask := large_page_mask t; window_begin_ns := window_begin_ns t;
     window_max_entries := window_max_entries t; n_used_entries := n_used_entries t; vindex := v; vtable := es; vfulltlb := fs;
     fulltlb := fulltlb t; fmask := fmask t; table := table t |}.
Definition set_table (m : Z) (es : list CPUTLBEntry) (fs : list CPUTLBEntryFull) (t : tlbm) : tlbm :=
  {| large_page_addr := large_page_addr t; large_page_mask := large_page_mask t; window_begin_ns := window_begin_ns t;
     window_max_entries := window_max_entries t; n_used_entries := n_used_entries t; vindex := vindex t; vtable := vtable t;
     vfulltlb := vfulltlb t; fulltlb := fs; fmask := m; table := es |}.

(** ** Addressing *)

Definition tlb_n_entries (t : tlbm) : Z := u32 (Z.shiftr (fmask t) CPU_TLB_ENTRY_BITS + 1).
Definition sizeof_tlb (t : tlbm) : Z := u32 (fmask t + Z.shiftl 1 CPU_TLB_ENTRY_BITS).

Definition tlb_index (t : tlbm) (addr : Z) : Z :=
  u32 (Z.land (Z.shiftr addr TARGET_PAGE_BITS) (Z.shiftr (fmask t) CPU_TLB_ENTRY_BITS)).

Definition tlb_hit_page (tlb_addr addr : Z) : bool := addr =? Z.land tlb_addr (Z.lor TARGET_PAGE_MASK TLB_INVALID_MASK).
Definition tlb_hit (tlb_addr addr : Z) : bool := tlb_hit_page tlb_addr (Z.land addr TARGET_PAGE_MASK).

(** [table[index]]; an index outside the table is undefined. *)
Definition tlb_entry (t : tlbm) (addr : Z) : option CPUTLBEntry := table t !! Z.to_nat (tlb_index t addr).

(** ** Resizing and whole flushes *)

(** What the allocator answers while one mode is flushed: whether both tables of a
    size can be had, and what fresh memory holds. *)
Record heap := { fits : Z -> bool; junk_entry : nat -> CPUTLBEntry; junk_full : nat -> CPUTLBEntryFull }.

Definition tlb_window_reset (ns max_entries : Z) (t : tlbm) : tlbm := set_window ns max_entries t.

Definition mask_of (size : Z) : Z := u32 (Z.shiftl (u32 (size - 1)) CPU_TLB_ENTRY_BITS).

(** [g_try_new] of both tables, halving the size until it succeeds; [None] is [abort]. *)
Fixpoint try_sizes (fuel : nat) (h : heap) (new_size : Z) : option Z :=
  if fits h new_size then Some new_size
  else if new_size =? Z.shiftl 1 CPU_TLB_DYN_MIN_BITS then None
  else match fuel with
       | O => None
       | S k => try_sizes k h (Z.max (Z.shiftr new_size 1) (Z.shiftl 1 CPU_TLB_DYN_MIN_BITS))
       end.

Definition fresh_tables (h : heap) (size : Z) (t : tlbm) : tlbm :=
  set_table (mask_of size) (junk_entry h <$> seq 0 (Z.to_nat size)) (junk_full h <$> seq 0 (Z.to_nat size)) t.

(** The size the use rate of the window asks for. *)
Definition wanted_size (old_size wmax : Z) (window_expired : bool) : option Z :=
  rate ← udiv (u32 (wmax * 100)) old_size;
  if 70 <? rate then Some (Z.min (u32 (Z.shiftl old_size 1)) (Z.shiftl 1 CPU_TLB_DYN_MAX_BITS))
  else if (rate <? 30) && window_expired then
    let ceil := u32 (pow2ceil wmax) in
    expected_rate ← udiv (u32 (wmax * 100)) ceil;
    let ceil := if 70 <? expected_rate then u32 (ceil * 2) else ceil in
    Some (Z.max ceil (Z.shiftl 1 CPU_TLB_DYN_MIN_BITS))
  else Some old_size.

Definition tlb_mmu_resize_locked (h : heap) (now : Z) (t : tlbm) : option tlbm :=
  let old_size := tlb_n_entries t in
  let window_expired := window_begin_ns t + 100 * 1000 * 1000 <? now in
  let wmax := if window_max_entries t <? n_used_entries t then n_used_entries t else window_max_entries t in
  let t := set_window (window_begin_ns t) wmax t in
  new_size ← wanted_size old_size wmax window_expired;
  if new_size =? old_size then
    Some (if window_expired then tlb_window_reset now (n_used_entries t) t else t)
  else
    let t := tlb_window_reset now 0 t in
    size ← try_sizes 32 h new_size;
    Some (fresh_tables h size t).

(** [memset(es, -1, 32 * k)]. *)
Definition memset_entries (k : nat) (es : list CPUTLBEntry) : list CPUTLBEntry :=
  replicate k cleared ++ drop k es.

Definition tlb_mmu_flush_locked (t : tlbm) : tlbm :=
  let t := set_used 0 t in
  let t := set_large (u64 (-1)) (u64 (-1)) t in
  let t := set_table (fmask t) (memset_entries (Z.to_nat (sizeof_tlb t / 32)) (table t)) (fulltlb t) t in
  set_victims 0 (memset_entries CPU_VTLB_SIZE (vtable t)) (vfulltlb t) t.

Definition tlb_flush_one_mmuidx_locked (h : heap) (now : Z) (t : tlbm) : option tlbm :=
  t ← tlb_mmu_resize_locked h now t;
  Some (tlb_mmu_flush_locked t).

Definition tlb_mmu_init (h : heap) (now : Z) (t : tlbm) : option tlbm :=
  let n_entries := Z.shiftl 1 CPU_TLB_DYN_DEFAULT_BITS in
  let t := tlb_window_reset now 0 t in
  let t := set_used 0 t in
  if fits h n_entries then Some (tlb_mmu_flush_locked (fresh_tables h n_entries t)) else None.

Definition tlb_n_used_entries_inc (t : tlbm) : tlbm := set_used (u32 (n_used_entries t + 1)) t.
Definition tlb_n_used_entries_dec (t : tlbm) : tlbm := set_used (u32 (n_used_entries t - 1)) t.

(** ** Flushing pages *)

Definition tlb_hit_page_mask_anyprot (e : CPUTLBEntry) (page mask : Z) : bool :=
  let page := Z.land page mask in
  let mask := Z.land mask (Z.lor TARGET_PAGE_MASK TLB_INVALID_MASK) in
  (page =? Z.land (addr_read e) mask) || (page =? Z.land (addr_write e) mask) || (page =? Z.land (addr_code e) mask).

Definition tlb_hit_page_anyprot (e : CPUTLBEntry) (page : Z) : bool := tlb_hit_page_mask_anyprot e page (u64 (-1)).

Definition tlb_entry_is_empty (e : CPUTLBEntry) : bool :=
  (addr_read e =? u64 (-1)) && (addr_write e =? u64 (-1)) && (addr_code e =? u64 (-1)).

Definition tlb_flush_entry_mask_locked (e : CPUTLBEntry) (page mask : Z) : CPUTLBEntry * bool :=
  if tlb_hit_page_mask_anyprot e page mask then (cleared, true) else (e, false).

(** The victim loop: every flushed victim decrements the use counter. *)
Definition tlb_flush_vtlb_page_mask_locked (page mask : Z) (t : tlbm) : tlbm :=
  let flushed := (fun e => tlb_flush_entry_mask_locked e page mask) <$> vtable t in
  let t := set_victims (vindex t) (fst <$> flushed) (vfulltlb t) t in
  Nat.iter (length (filter (fun r => snd r = true) flushed)) tlb_n_used_entries_dec t.

Definition tlb_flush_vtlb_page_locked (page : Z) (t : tlbm) : tlbm := tlb_flush_vtlb_page_mask_locked page (u64 (-1)) t.

(** One page: its slot of the table and the victims. *)
Definition flush_slot (page mask : Z) (t : tlbm) : option tlbm :=
  e ← tlb_entry t page;
  let '(e', hit) := tlb_flush_entry_mask_locked e page mask in
  let t := set_table (fmask t) (<[Z.to_nat (tlb_index t page) := e']> (table t)) (fulltlb t) t in
  let t := if hit then tlb_n_used_entries_dec t else t in
  Some (tlb_flush_vtlb_page_mask_locked page mask t).

Definition tlb_flush_page_locked (h : heap) (now page : Z) (t : tlbm) : option tlbm :=
  if Z.land page (large_page_mask t) =? large_page_addr t
  then tlb_flush_one_mmuidx_locked h now t
  else flush_slot page (u64 (-1)) t.

(** [for (i = 0; i < len; i += TARGET_PAGE_SIZE)] of the range flush. *)
Fixpoint flush_pages (n : nat) (page mask : Z) (t : tlbm) : option tlbm :=
  match n with
  | O => Some t
  | S k => t ← flush_slot page mask t; flush_pages k (u64 (page + TARGET_PAGE_SIZE)) mask t
  end.

Definition tlb_flush_range_locked (h : heap) (now addr len bits : Z) (t : tlbm) : option tlbm :=
  let mask := Z.shiftr (u64 (-1)) (64 - bits) in
  if (mask <? fmask t) || (fmask t <? len) then tlb_flush_one_mmuidx_locked h now t
  else if Z.land (u64 (addr + len - 1)) (large_page_mask t) =? large_page_addr t
  then tlb_flush_one_mmuidx_locked h now t
  else flush_pages (Z.to_nat ((len + TARGET_PAGE_SIZE - 1) / TARGET_PAGE_SIZE)) addr mask t.

(** ** Dirty tracking *)

Definition set_addr_write (a : Z) (e : CPUTLBEntry) : CPUTLBEntry :=
  {| addr_read := addr_read e; addr_write := a; addr_code := addr_code e; addend := addend e |}.

(** The comparator is truncated to [uintptr_t] here. *)
Definition tlb_reset_dirty_range_locked (start length : Z) (e : CPUTLBEntry) : CPUTLBEntry :=
  let addr := u32 (addr_write e) in
  if Z.land addr (Z.lor TLB_INVALID_MASK (Z.lor TLB_MMIO (Z.lor TLB_DISCARD_WRITE TLB_NOTDIRTY))) =? 0 then
    let addr := u32 (Z.land addr TARGET_PAGE_MASK) in
    let addr := u32 (addr + addend e) in
    if u32 (addr - start) <? length then set_addr_write (Z.lor (addr_write e) TLB_NOTDIRTY) e else e
  else e.

Definition reset_dirty_mode (start length : Z) (t : tlbm) : tlbm :=
  let n := Z.to_nat (tlb_n_entries t) in
  let f := tlb_reset_dirty_range_locked start length in
  let t := set_table (fmask t) ((f <$> take n (table t)) ++ drop n (table t)) (fulltlb t) t in
  set_victims (vindex t) (f <$> vtable t) (vfulltlb t) t.

Definition tlb_set_dirty1_locked (addr : Z) (e : CPUTLBEntry) : CPUTLBEntry :=
  if addr_write e =? Z.lor addr TLB_NOTDIRTY then set_addr_write addr e else e.

Definition set_dirty_mode (addr : Z) (t : tlbm) : option tlbm :=
  e ← tlb_entry t addr;
  let t := set_table (fmask t) (<[Z.to_nat (tlb_index t addr) := tlb_set_dirty1_locked addr e]> (table t)) (fulltlb t) t in
  Some (set_victims (vindex t) (tlb_set_dirty1_locked addr <$> vtable t) (vfulltlb t) t).

(** ** Filling *)

(** The loop that widens the region until it holds both addresses. *)
Fixpoint widen (fuel : nat) (lp_addr addr lp_mask : Z) : Z :=
  if Z.land (Z.lxor lp_addr addr) lp_mask =? 0 then lp_mask
  else match fuel with
       | O => lp_mask
       | S k => widen k lp_addr addr (u64 (Z.shiftl lp_mask 1))
       end.

Definition tlb_add_large_page (addr size : Z) (t : tlbm) : tlbm :=
  let lp_addr := large_page_addr t in
  let lp_mask := unot 64 (u64 (size - 1)) in
  if lp_addr =? u64 (-1) then set_large (Z.land addr lp_mask) lp_mask t
  else
    let lp_mask := widen 64 lp_addr addr (Z.land lp_mask (large_page_mask t)) in
    set_large (Z.land lp_addr lp_mask) lp_mask t.

(** The comparator and the slow flags of one access type. *)
Definition tlb_set_compare (address flags : Z) (enable : bool) : Z * Z :=
  if enable then
    let address := Z.lor address (Z.land flags TLB_FLAGS_MASK) in
    let flags := Z.land flags TLB_SLOW_FLAGS_MASK in
    (if flags =? 0 then address else Z.lor address TLB_FORCE_SLOW, flags)
  else (u64 (-1), 0).

(** What the memory API answers for the page: the section found
    ([address_space_translate_for_iotlb]), its region, the dirty bitmap and the
    watchpoints. *)
Record backing := {
  sec_size : Z; sec_xlat : Z; sec_prot : Z; is_ram : bool; is_romd : bool; ram_ptr : Z; ram_addr : Z;
  sec_readonly : bool; is_clean : bool; section_iotlb : Z; wp_flags : Z }.

Definition addend_of (b : backing) : Z := if is_ram b || is_romd b then u32 (ram_ptr b + sec_xlat b) else 0.

Definition or_if (c : bool) (flag x : Z) : Z := if c then Z.lor x flag else x.

(** [read_flags] and [write_flags] before the watchpoints. *)
Definition page_flags (full : CPUTLBEntryFull) (b : backing) : Z * Z :=
  let read_flags := or_if (lg_page_size full <? TARGET_PAGE_BITS) TLB_INVALID_MASK 0 in
  let read_flags := or_if (byte_swap (attrs full)) TLB_BSWAP read_flags in
  let write_flags := read_flags in
  if is_ram b then
    let writable := negb (Z.land (sec_prot b) PAGE_WRITE =? 0) in
    let write_flags :=
      if writable then
        if sec_readonly b then Z.lor write_flags TLB_DISCARD_WRITE
        else or_if (is_clean b) TLB_NOTDIRTY write_flags
      else write_flags in
    (read_flags, write_flags)
  else
    let write_flags := Z.lor write_flags TLB_MMIO in
    (if is_romd b then read_flags else write_flags, write_flags).

Definition iotlb_of (b : backing) : Z :=
  if is_ram b then u64 (ram_addr b + sec_xlat b) else u64 (section_iotlb b + sec_xlat b).

(** The entry pair the fill writes. *)
Definition new_entry (addr_page : Z) (full : CPUTLBEntryFull) (b : backing) : CPUTLBEntry * CPUTLBEntryFull :=
  let '(read_flags, write_flags) := page_flags full b in
  let has p := negb (Z.land (sec_prot b) p =? 0) in
  let '(code, sf_c) := tlb_set_compare addr_page read_flags (has PAGE_EXEC) in
  let read_flags := or_if (negb (Z.land (wp_flags b) BP_MEM_READ =? 0)) TLB_WATCHPOINT read_flags in
  let '(read, sf_r) := tlb_set_compare addr_page read_flags (has PAGE_READ) in
  let write_flags := or_if (has PAGE_WRITE_INV) TLB_INVALID_MASK write_flags in
  let write_flags := or_if (negb (Z.land (wp_flags b) BP_MEM_WRITE =? 0)) TLB_WATCHPOINT write_flags in
  let '(write, sf_w) := tlb_set_compare addr_page write_flags (has PAGE_WRITE) in
  ({| addr_read := read; addr_write := write; addr_code := code; addend := u32 (addend_of b - addr_page) |},
   {| xlat_section := u64 (iotlb_of b - addr_page); phys_addr := Z.land (phys_addr full) TARGET_PAGE_MASK;
      attrs := attrs full; prot := prot full; lg_page_size := lg_page_size full;
      slow_flags := {| sf_read := sf_r; sf_write := sf_w; sf_code := sf_c |} |}).

(** Only an entry of a different page is kept, as a victim. *)
Definition evict (index : nat) (te : CPUTLBEntry) (addr_page : Z) (t : tlbm) : option tlbm :=
  if negb (tlb_hit_page_anyprot te addr_page) && negb (tlb_entry_is_empty te) then
    f ← fulltlb t !! index;
    let vidx := Z.to_nat (vindex t mod 8) in
    let t := set_victims (u32 (vindex t + 1)) (<[vidx := te]> (vtable t)) (<[vidx := f]> (vfulltlb t)) t in
    Some (tlb_n_used_entries_dec t)
  else Some t.

(** The fill of one mode; [None] where an assertion fails. *)
Definition set_page_mode (addr : Z) (full : CPUTLBEntryFull) (b : backing) (t : tlbm) : option tlbm :=
  let small := lg_page_size full <=? TARGET_PAGE_BITS in
  if negb small && (64 <=? lg_page_size full) then None else
  let t := if small then t else tlb_add_large_page addr (Z.shiftl 1 (lg_page_size full)) t in
  let addr_page := Z.land addr TARGET_PAGE_MASK in
  if sec_size b <? TARGET_PAGE_SIZE then None else
  if is_ram b && negb (Z.land (iotlb_of b) (unot 64 TARGET_PAGE_MASK) =? 0) then None else
  let index := Z.to_nat (tlb_index t addr_page) in
  te ← tlb_entry t addr_page;
  let t := tlb_flush_vtlb_page_locked addr_page t in
  t ← evict index te addr_page t;
  let '(tn, fn) := new_entry addr_page full b in
  let t := set_table (fmask t) (<[index := tn]> (table t)) (<[index := fn]> (fulltlb t)) t in
  Some (tlb_n_used_entries_inc t).

(** ** The victim table *)

(** The first victim whose comparator is the page is swapped with the main entry. *)
Definition victim_tlb_hit (index : nat) (access_type : MMUAccessType) (page : Z) (t : tlbm) : option (tlbm * bool) :=
  match list_find (fun e => tlb_read_idx e access_type = page) (vtable t) with
  | Some (vidx, v) =>
      e ← table t !! index;
      f1 ← fulltlb t !! index;
      f2 ← vfulltlb t !! vidx;
      let t := set_table (fmask t) (<[index := v]> (table t)) (<[index := f2]> (fulltlb t)) t in
      Some (set_victims (vindex t) (<[vidx := e]> (vtable t)) (<[vidx := f1]> (vfulltlb t)) t, true)
  | None => Some (t, false)
  end.

(** ** The jump cache *)

Definition TB_JMP_CACHE_BITS : Z := 14.
Definition TB_JMP_CACHE_SIZE : Z := Z.shiftl 1 TB_JMP_CACHE_BITS.
Definition TB_JMP_PAGE_BITS : Z := TB_JMP_CACHE_BITS / 2.
Definition TB_JMP_PAGE_SIZE : Z := Z.shiftl 1 TB_JMP_PAGE_BITS.
Definition TB_JMP_ADDR_MASK : Z := TB_JMP_PAGE_SIZE - 1.
Definition TB_JMP_PAGE_MASK : Z := TB_JMP_CACHE_SIZE - TB_JMP_PAGE_SIZE.

Definition hash_mix (pc : Z) : Z := Z.lxor pc (Z.shiftr pc (TARGET_PAGE_BITS - TB_JMP_PAGE_BITS)).

Definition tb_jmp_cache_hash_page (pc : Z) : Z :=
  u32 (Z.land (Z.shiftr (hash_mix pc) (TARGET_PAGE_BITS - TB_JMP_PAGE_BITS)) TB_JMP_PAGE_MASK).

Definition tb_jmp_cache_hash_func (pc : Z) : Z :=
  u32 (Z.lor (Z.land (Z.shiftr (hash_mix pc) (TARGET_PAGE_BITS - TB_JMP_PAGE_BITS)) TB_JMP_PAGE_MASK)
             (Z.land (hash_mix pc) TB_JMP_ADDR_MASK)).

(** The cache as the slots that hold a block; [None] before it is allocated. *)
Abbreviation jmp_cache := (option (gmap Z Z)).

Fixpoint clear_slots (n : nat) (i : Z) (m : gmap Z Z) : gmap Z Z :=
  match n with O => m | S k => clear_slots k (i + 1) (delete i m) end.

Definition tb_jmp_cache_clear_page (page_addr : Z) (jc : jmp_cache) : jmp_cache :=
  clear_slots (Z.to_nat TB_JMP_PAGE_SIZE) (tb_jmp_cache_hash_page page_addr) <$> jc.

Definition tcg_flush_jmp_cache (jc : jmp_cache) : jmp_cache := clear_slots (Z.to_nat TB_JMP_CACHE_SIZE) 0 <$> jc.

(** ** A vCPU *)

Record cpu := {
  modes : list tlbm;
  dirty : Z;
  full_flush_count : Z;
  part_flush_count : Z;
  elide_flush_count : Z;
  tb_jmp_cache : jmp_cache
}.

Definition with_modes (ms : list tlbm) (c : cpu) : cpu :=
  {| modes := ms; dirty := dirty c; full_flush_count := full_flush_count c; part_flush_count := part_flush_count c;
     elide_flush_count := elide_flush_count c; tb_jmp_cache := tb_jmp_cache c |}.
Definition with_dirty (d : Z) (c : cpu) : cpu :=
  {| modes := modes c; dirty := d; full_flush_count := full_flush_count c; part_flush_count := part_flush_count c;
     elide_flush_count := elide_flush_count c; tb_jmp_cache := tb_jmp_cache c |}.
Definition with_counts (f p e : Z) (c : cpu) : cpu :=
  {| modes := modes c; dirty := dirty c; full_flush_count := f; part_flush_count := p; elide_flush_count := e;
     tb_jmp_cache := tb_jmp_cache c |}.
Definition with_jc (jc : jmp_cache) (c : cpu) : cpu :=
  {| modes := modes c; dirty := dirty c; full_flush_count := full_flush_count c; part_flush_count := part_flush_count c;
     elide_flush_count := elide_flush_count c; tb_jmp_cache := jc |}.

(** An operation on [tlb.d[i]] and [tlb.f[i]]. *)
Definition on_mode (i : nat) (f : tlbm -> option tlbm) (c : cpu) : option cpu :=
  t ← modes c !! i;
  t' ← f t;
  Some (with_modes (<[i := t']> (modes c)) c).

(** A zeroed descriptor, as the CPU object is allocated. *)
Definition zero_entry : CPUTLBEntry := {| addr_read := 0; addr_write := 0; addr_code := 0; addend := 0 |}.
Definition zero_full : CPUTLBEntryFull :=
  {| xlat_section := 0; phys_addr := 0; attrs := {| byte_swap := false; other_attrs := 0 |}; prot := 0; lg_page_size := 0;
     slow_flags := {| sf_read := 0; sf_write := 0; sf_code := 0 |} |}.
Definition zero_mode : tlbm :=
  {| large_page_addr := 0; large_page_mask := 0; window_begin_ns := 0; window_max_entries := 0; n_used_entries := 0; vindex := 0;
     vtable := replicate CPU_VTLB_SIZE zero_entry; vfulltlb := replicate CPU_VTLB_SIZE zero_full; fulltlb := []; fmask := 0;
     table := [] |}.
Definition zero_cpu (jc : jmp_cache) : cpu :=
  {| modes := replicate (Z.to_nat NB_MMU_MODES) zero_mode; dirty := 0; full_flush_count := 0; part_flush_count := 0;
     elide_flush_count := 0; tb_jmp_cache := jc |}.

(** A loop over modes, from mode [i] on. *)
Fixpoint for_modes (n i : nat) (f : nat -> cpu -> option cpu) (c : cpu) : option cpu :=
  match n with O => Some c | S k => c ← f i c; for_modes k (S i) f c end.

Definition all_modes (f : nat -> cpu -> option cpu) (c : cpu) : option cpu := for_modes (Z.to_nat NB_MMU_MODES) 0 f c.

Definition tlb_init (h : heap) (now : Z) (c : cpu) : option cpu :=
  all_modes (fun i => on_mode i (tlb_mmu_init h now)) (with_dirty 0 c).

(** [for (work = to_clean; work != 0; work &= work - 1)]. *)
Fixpoint flush_work (fuel : nat) (h : heap) (now work : Z) (c : cpu) : option cpu :=
  if work =? 0 then Some c
  else match fuel with
       | O => None
       | S k =>
           c ← on_mode (Z.to_nat (ctz32 work)) (tlb_flush_one_mmuidx_locked h now) c;
           flush_work k h now (Z.land work (uw 16 (work - 1))) c
       end.

Definition tlb_flush_by_mmuidx_async_work (h : heap) (now asked : Z) (c : cpu) : option cpu :=
  let all_dirty := dirty c in
  let to_clean := Z.land asked all_dirty in
  let all_dirty := Z.land all_dirty (unot 16 to_clean) in
  c ← flush_work 16 h now to_clean (with_dirty all_dirty c);
  let c := with_jc (tcg_flush_jmp_cache (tb_jmp_cache c)) c in
  Some (if to_clean =? ALL_MMUIDX_BITS
        then with_counts (u32 (full_flush_count c + 1)) (part_flush_count c) (elide_flush_count c) c
        else
          let part := u32 (part_flush_count c + ctpop16 to_clean) in
          let elide := if to_clean =? asked then elide_flush_count c
                       else u32 (elide_flush_count c + ctpop16 (Z.land asked (unot 16 to_clean))) in
          with_counts (full_flush_count c) part elide c).

Definition tlb_flush (h : heap) (now : Z) (c : cpu) : option cpu := tlb_flush_by_mmuidx_async_work h now ALL_MMUIDX_BITS c.

Definition asked_mode (idxmap : Z) (i : nat) : bool := Z.testbit idxmap (Z.of_nat i).

Definition tlb_flush_page_by_mmuidx_async_0 (h : heap) (now addr idxmap : Z) (c : cpu) : option cpu :=
  c ← all_modes (fun i c => if asked_mode idxmap i then on_mode i (tlb_flush_page_locked h now addr) c else Some c) c;
  let jc := tb_jmp_cache_clear_page (u64 (addr - TARGET_PAGE_SIZE)) (tb_jmp_cache c) in
  Some (with_jc (tb_jmp_cache_clear_page addr jc) c).

Definition tlb_flush_page_by_mmuidx (h : heap) (now addr idxmap : Z) (c : cpu) : option cpu :=
  tlb_flush_page_by_mmuidx_async_0 h now (Z.land addr TARGET_PAGE_MASK) idxmap c.

(** The map packed in the page offset, for another CPU. *)
Definition pack_flush (addr idxmap : Z) : Z := Z.lor (Z.land addr TARGET_PAGE_MASK) idxmap.
Definition tlb_flush_page_by_mmuidx_async_1 (h : heap) (now data : Z) (c : cpu) : option cpu :=
  tlb_flush_page_by_mmuidx_async_0 h now (Z.land data TARGET_PAGE_MASK) (uw 16 (Z.land data (unot 64 TARGET_PAGE_MASK))) c.

(** The pages of the jump cache a range flush clears, the one before it included. *)
Fixpoint clear_pages (n : nat) (addr : Z) (jc : jmp_cache) : jmp_cache :=
  match n with
  | O => jc
  | S k => clear_pages k (u64 (addr + TARGET_PAGE_SIZE)) (tb_jmp_cache_clear_page addr jc)
  end.

Definition tlb_flush_range_by_mmuidx_async_0 (h : heap) (now addr len idxmap bits : Z) (c : cpu) : option cpu :=
  c ← all_modes (fun i c => if asked_mode idxmap i then on_mode i (tlb_flush_range_locked h now addr len bits) c else Some c) c;
  Some (if TARGET_PAGE_SIZE * TB_JMP_CACHE_SIZE <=? len
        then with_jc (tcg_flush_jmp_cache (tb_jmp_cache c)) c
        else with_jc (clear_pages (Z.to_nat (len / TARGET_PAGE_SIZE + 1)) (u64 (addr - TARGET_PAGE_SIZE)) (tb_jmp_cache c)) c).

Definition tlb_flush_range_by_mmuidx (h : heap) (now addr len idxmap bits : Z) (c : cpu) : option cpu :=
  if (64 <=? bits) && (len <=? TARGET_PAGE_SIZE) then tlb_flush_page_by_mmuidx h now addr idxmap c
  else if bits <? TARGET_PAGE_BITS then tlb_flush_by_mmuidx_async_work h now idxmap c
  else tlb_flush_range_by_mmuidx_async_0 h now (Z.land addr TARGET_PAGE_MASK) len idxmap bits c.

Definition tlb_reset_dirty (start1 length : Z) (c : cpu) : option cpu :=
  all_modes (fun i => on_mode i (fun t => Some (reset_dirty_mode (u32 start1) (u32 length) t))) c.

(** The two loops of the source touch disjoint parts of a mode. *)
Definition tlb_set_dirty (addr : Z) (c : cpu) : option cpu :=
  all_modes (fun i => on_mode i (set_dirty_mode (Z.land addr TARGET_PAGE_MASK))) c.

Definition tlb_set_page_full (mmu_idx : nat) (addr : Z) (full : CPUTLBEntryFull) (b : backing) (c : cpu) : option cpu :=
  on_mode mmu_idx (set_page_mode addr full b) (with_dirty (Z.lor (dirty c) (Z.shiftl 1 (Z.of_nat mmu_idx))) c).

Definition tlb_set_page_with_attrs (mmu_idx : nat) (addr paddr : Z) (a : MemTxAttrs) (prot size : Z) (b : backing) (c : cpu) :
  option cpu :=
  if negb (is_power_of_2 size) then None else
  tlb_set_page_full mmu_idx addr
    {| xlat_section := 0; phys_addr := paddr; attrs := a; prot := prot; lg_page_size := ctz64 size;
       slow_flags := {| sf_read := 0; sf_write := 0; sf_code := 0 |} |} b c.
