(* ===== verification/TlbCoherence.v ===== *)
(** * The TLB holds only current translations

    The state of Tlb.v is compared with an abstract TLB that remembers every fill not
    flushed since: a finite map from guest pages to fills, from which a page flush
    removes every fill whose guest page, of any size, contains the flushed address. *)
From S2P Require Import Prelude BitOps HostUtils Bitmap Tlb.

(** ** Masks of high ones *)

(** [hm k] is [~(2^k - 1)] on 64 bits. *)
Definition hm (k : Z) : Z := u64 (- 2 ^ k).

Lemma hm_bits k i : 0 <= k -> 0 <= i -> Z.testbit (hm k) i = (k <=? i) && (i <? 64).
Proof.
  intros Hk Hi. unfold hm. rewrite testbit_uw by lia. rewrite andb_comm. f_equal.
  replace (- 2 ^ k) with (Z.lnot (Z.ones k)) by (rewrite ones_uw by lia; unfold Z.lnot; lia).
  rewrite Z.lnot_spec, testbit_ones by lia. by destruct (Z.ltb_spec i k), (Z.leb_spec k i); try lia.
Qed.

Lemma hm_land x k : is_u 64 x -> 0 <= k -> Z.land x (hm k) = x / 2 ^ k * 2 ^ k.
Proof.
  intros Hx Hk. rewrite <- Z.shiftl_mul_pow2, <- Z.shiftr_div_pow2 by lia.
  apply Z.bits_inj'; intros i Hi. rewrite Z.land_spec, hm_bits, testbit_shiftl by lia.
  destruct (Z.leb_spec k i).
  - rewrite testbit_shiftr by lia. replace (i - k + k) with i by lia.
    destruct (Z.ltb_spec i 64); [btauto|]. by rewrite (testbit_is_u 64 x) by (done || lia).
  - rewrite (Z.testbit_neg_r _ (i - k)) by lia. btauto.
Qed.

Lemma hm_meet a b : 0 <= a -> 0 <= b -> Z.land (hm a) (hm b) = hm (Z.max a b).
Proof.
  intros. apply Z.bits_inj'; intros i Hi. rewrite Z.land_spec, !hm_bits by lia.
  destruct (Z.leb_spec a i), (Z.leb_spec b i), (Z.leb_spec (Z.max a b) i), (Z.ltb_spec i 64); try lia; done.
Qed.

Lemma hm_shift k : 0 <= k -> u64 (Z.shiftl (hm k) 1) = hm (k + 1).
Proof.
  intros. apply Z.bits_inj'; intros i Hi. rewrite testbit_uw, testbit_shiftl, (hm_bits (k + 1)) by lia.
  destruct (Z.eq_dec i 0) as [->|].
  - rewrite Z.testbit_neg_r by lia. destruct (Z.leb_spec (k + 1) 0); [lia|done].
  - rewrite hm_bits by lia. destruct (Z.ltb_spec i 64), (Z.ltb_spec (i - 1) 64), (Z.leb_spec k (i - 1)), (Z.leb_spec (k + 1) i); try lia; done.
Qed.

Lemma hm_size k : 0 <= k < 64 -> unot 64 (u64 (Z.shiftl 1 k - 1)) = hm k.
Proof.
  intros. rewrite Z.shiftl_1_l. apply Z.bits_inj'; intros i Hi. unfold unot.
  rewrite testbit_uw, Z.lnot_spec, testbit_uw, <- ones_uw, testbit_ones, hm_bits by lia.
  destruct (Z.ltb_spec i 64), (Z.ltb_spec i k), (Z.leb_spec k i); try lia; done.
Qed.

Lemma hm_high k : 64 <= k -> hm k = 0.
Proof.
  intros. apply Z.bits_inj'; intros i Hi. rewrite hm_bits, Z.testbit_0_l by lia.
  destruct (Z.leb_spec k i), (Z.ltb_spec i 64); try lia; done.
Qed.

(** Agreeing above bit [k]. *)
Lemma hm_xor x y k : is_u 64 x -> is_u 64 y -> 0 <= k ->
  Z.land (Z.lxor x y) (hm k) = 0 <-> x / 2 ^ k = y / 2 ^ k.
Proof.
  intros Hx Hy Hk. rewrite <- !Z.shiftr_div_pow2 by lia. rewrite hm_land by (done || lia || (apply lxor_is_u; [lia|done|done])).
  rewrite <- Z.shiftr_div_pow2, Z.shiftr_lxor by lia.
  pose proof (pow2_pos k Hk). rewrite Z.mul_eq_0. split.
  - intros [E|E]; [by apply Z.lxor_eq in E | lia].
  - intros ->. left. apply Z.lxor_nilpotent.
Qed.

Lemma page_mask : TARGET_PAGE_MASK = hm 12.
Proof. reflexivity. Qed.
Lemma compare_mask : Z.lor TARGET_PAGE_MASK TLB_INVALID_MASK = hm 11.
Proof. reflexivity. Qed.

(** ** Pages and hits *)

Definition page (p : Z) : Prop := is_u 64 p /\ p mod 2 ^ 12 = 0.

Lemma page_of x : is_u 64 x -> page (Z.land x TARGET_PAGE_MASK).
Proof.
  intros Hx. rewrite page_mask. split; [apply land_is_u_l; [lia|done]|].
  rewrite hm_land by (done || lia). apply Z.mod_mul. lia.
Qed.

Lemma page_page p : page p -> Z.land p TARGET_PAGE_MASK = p.
Proof. intros [Hu H]. rewrite page_mask, hm_land by (done || lia). pose proof (Z.div_mod p (2 ^ 12)). lia. Qed.

Lemma page_eq x y : is_u 64 x -> is_u 64 y ->
  Z.land x TARGET_PAGE_MASK = Z.land y TARGET_PAGE_MASK <-> x / 2 ^ 12 = y / 2 ^ 12.
Proof. intros. rewrite page_mask, !hm_land by (done || lia). lia. Qed.

Lemma hit_page_iff a p : is_u 64 a -> tlb_hit_page a p = true <-> a / 2 ^ 11 * 2 ^ 11 = p.
Proof. intros. unfold tlb_hit_page. rewrite compare_mask, hm_land, Z.eqb_eq by (done || lia). lia. Qed.

(** The page a 64-bit comparator hits, whatever its flags below bit 11. *)
Lemma hit_unique p g p' : page p -> page p' -> is_u 12 g -> tlb_hit_page (p + g) p' = true -> p' = p.
Proof.
  intros [Hp H] [Hp' H'] Hg. unfold is_u in *.
  assert (is_u 64 (p + g)) by (unfold is_u; Z.div_mod_to_equations; lia).
  rewrite hit_page_iff by done. Z.div_mod_to_equations; lia.
Qed.

Lemma hit_m1 p : page p -> tlb_hit_page (u64 (-1)) p = false.
Proof.
  intros [Hp H]. apply not_true_iff_false. rewrite hit_page_iff by (by vm_compute).
  change (u64 (-1) / 2 ^ 11 * 2 ^ 11) with (2 ^ 64 - 2 ^ 11). intros <-. by vm_compute in H.
Qed.

Lemma page_or p g : page p -> is_u 12 g -> Z.lor p g = p + g.
Proof.
  intros [Hp H] Hg. symmetry. apply add_disjoint.
  apply Z.bits_inj'; intros i Hi. rewrite Z.land_spec, Z.testbit_0_l.
  destruct (Z.lt_ge_cases i 12).
  - rewrite <- (Z.mod_pow2_bits_low p 12), H, Z.testbit_0_l by lia. done.
  - rewrite (testbit_is_u 12 g) by done. btauto.
Qed.

(** What an entry answers. *)
Definition hits (e : CPUTLBEntry) (p : Z) : Prop := exists t, tlb_hit_page (tlb_read_idx e t) p = true.

Lemma hits_cleared p : page p -> ~ hits cleared p.
Proof. intros Hp [t H]. by destruct t; simpl in H; rewrite hit_m1 in H. Qed.

(** An entry that holds page [p] is flushed with every page that agrees with [p] under the mask. *)
Lemma hits_flushed e p q bits : page p -> 0 <= bits <= 64 ->
  hits e p -> Z.land p (Z.ones bits) = Z.land q (Z.ones bits) -> tlb_hit_page_mask_anyprot e q (Z.ones bits) = true.
Proof.
  intros Hp Hb [t Ht] E. unfold tlb_hit_page_mask_anyprot. rewrite compare_mask. rewrite <- E.
  assert (Ha : forall a, tlb_hit_page a p = true -> (Z.land p (Z.ones bits) =? Z.land a (Z.land (Z.ones bits) (hm 11))) = true).
  { intros a H. unfold tlb_hit_page in H. rewrite compare_mask, Z.eqb_eq in H. rewrite Z.eqb_eq, H.
    by rewrite <- !Z.land_assoc, (Z.land_comm (hm 11)). }
  destruct t; simpl in Ht; apply Ha in Ht; rewrite Ht; btauto.
Qed.

Lemma hits_anyprot e p : page p -> tlb_hit_page_anyprot e p = true <-> hits e p.
Proof.
  intros Hp. unfold tlb_hit_page_anyprot, tlb_hit_page_mask_anyprot. rewrite compare_mask.
  change (Z.land (u64 (-1)) (hm 11)) with (hm 11). change (u64 (-1)) with (Z.ones 64).
  rewrite Z.land_ones, Z.mod_small by (lia || apply Hp). unfold hits, tlb_hit_page. rewrite compare_mask, !orb_true_iff. split.
  - intros [[?|?]|?]; [by exists MMU_DATA_LOAD | by exists MMU_DATA_STORE | by exists MMU_INST_FETCH].
  - intros [[] ?]; auto.
Qed.

(** ** Fills *)

Record fill := { f_addr : Z; f_full : CPUTLBEntryFull; f_back : backing }.

Definition f_page (f : fill) : Z := Z.land (f_addr f) TARGET_PAGE_MASK.
Definition f_entry (f : fill) : CPUTLBEntry := fst (new_entry (f_page f) (f_full f) (f_back f)).
Definition f_info (f : fill) : CPUTLBEntryFull := snd (new_entry (f_page f) (f_full f) (f_back f)).
Definition f_lg (f : fill) : Z := lg_page_size (f_full f).

(** The guest page of the fill contains [q]. *)
Definition covers (f : fill) (q : Z) : bool :=
  let lg := Z.max TARGET_PAGE_BITS (f_lg f) in f_addr f / 2 ^ lg =? q / 2 ^ lg.

Lemma or_if_u12 c flag x : is_u 12 flag -> is_u 12 x -> is_u 12 (or_if c flag x).
Proof. intros. destruct c; simpl; [by apply lor_is_u | done]. Qed.

Lemma page_flags_u12 full b : is_u 12 (fst (page_flags full b)) /\ is_u 12 (snd (page_flags full b)).
Proof.
  unfold page_flags. set (r := or_if _ TLB_BSWAP _).
  assert (is_u 12 r) by (apply or_if_u12; [by vm_compute | apply or_if_u12; by vm_compute]).
  repeat case_goal; simpl; split; auto;
    first [done | apply or_if_u12; [by vm_compute | done] | apply lor_is_u; [lia | done | by vm_compute]].
Qed.

Lemma set_compare_spec p flags en : page p -> is_u 12 flags ->
  (en = false /\ fst (tlb_set_compare p flags en) = u64 (-1)) \/
  (en = true /\ exists g, is_u 12 g /\ fst (tlb_set_compare p flags en) = p + g).
Proof.
  intros Hp Hf. destruct en; [right; split; [done|] | by left]. simpl.
  assert (Hg : is_u 12 (Z.land flags TLB_FLAGS_MASK)) by (apply land_is_u_l; [lia | done]).
  case_goal; simpl.
  - eexists; split; [apply Hg | by apply page_or].
  - rewrite <- Z.lor_assoc. eexists. split; [| apply page_or; [done|]]; (apply lor_is_u; [lia | done | by vm_compute]).
Qed.

(** The comparators of a fill hit its page and no other. *)
Lemma f_entry_idx f t : is_u 64 (f_addr f) ->
  tlb_read_idx (f_entry f) t = u64 (-1) \/ exists g, is_u 12 g /\ tlb_read_idx (f_entry f) t = f_page f + g.
Proof.
  intros Hf. pose proof (page_of _ Hf) as Hp. fold (f_page f) in Hp.
  unfold f_entry, new_entry. destruct (page_flags_u12 (f_full f) (f_back f)) as [Hr Hw].
  destruct (page_flags (f_full f) (f_back f)) as [r w]. simpl in Hr, Hw.
  assert (Hwp : is_u 12 TLB_WATCHPOINT) by (by vm_compute). assert (Hiv : is_u 12 TLB_INVALID_MASK) by (by vm_compute).
  repeat match goal with |- context [tlb_set_compare ?p ?fl ?en] =>
    let Hs := fresh "Hs" in
    assert (Hs := set_compare_spec p fl en Hp ltac:(auto using or_if_u12)); destruct (tlb_set_compare p fl en) as [? ?] end.
  destruct t; simpl in *;
    match goal with
    | H : (_ /\ ?a = _) \/ _ |- ?a = _ \/ _ => destruct H as [[_ ?]|[_ ?]]; auto
    end.
Qed.

Lemma f_entry_u64 f t : is_u 64 (f_addr f) -> is_u 64 (tlb_read_idx (f_entry f) t).
Proof.
  intros Hf. destruct (f_entry_idx f t Hf) as [->|(g & Hg & ->)]; [by vm_compute|].
  destruct (page_of _ Hf) as [Hp Hm]. fold (f_page f) in *. unfold is_u in *. Z.div_mod_to_equations; lia.
Qed.

Lemma f_entry_hits f t p : is_u 64 (f_addr f) -> page p -> tlb_hit_page (tlb_read_idx (f_entry f) t) p = true -> p = f_page f.
Proof.
  intros Hf Hp. destruct (f_entry_idx f t Hf) as [->|(g & Hg & ->)]; [by rewrite hit_m1|].
  by apply hit_unique; [apply page_of| |].
Qed.

(** An entry of the table that came from the fill: only the dirty flag of the write
    comparator may have changed since. *)
Record represents (f : fill) (e : CPUTLBEntry) (fe : CPUTLBEntryFull) : Prop := {
  rep_info : fe = f_info f;
  rep_read : addr_read e = addr_read (f_entry f);
  rep_code : addr_code e = addr_code (f_entry f);
  rep_addend : addend e = addend (f_entry f);
  rep_write : Z.lor (addr_write e) TLB_NOTDIRTY = Z.lor (addr_write (f_entry f)) TLB_NOTDIRTY
}.

Lemma notdirty_hits a b p : Z.lor a TLB_NOTDIRTY = Z.lor b TLB_NOTDIRTY -> tlb_hit_page a p = tlb_hit_page b p.
Proof.
  intros H. unfold tlb_hit_page. f_equal. rewrite compare_mask.
  assert (Hx : forall x, Z.land x (hm 11) = Z.land (Z.lor x TLB_NOTDIRTY) (hm 11)).
  { intros x. rewrite Z.land_lor_distr_l. change (Z.land TLB_NOTDIRTY (hm 11)) with 0. by rewrite Z.lor_0_r. }
  by rewrite (Hx a), (Hx b), H.
Qed.

Lemma represents_hit f e fe t p : represents f e fe ->
  tlb_hit_page (tlb_read_idx e t) p = tlb_hit_page (tlb_read_idx (f_entry f) t) p.
Proof. intros []. destruct t; simpl; [by rewrite rep_read0 | by apply notdirty_hits | by rewrite rep_code0]. Qed.

Lemma represents_hits f e fe p : is_u 64 (f_addr f) -> page p -> represents f e fe -> hits e p -> p = f_page f.
Proof. intros Hf Hp Hr [t Ht]. rewrite (represents_hit f e fe) in Ht by done. by eapply f_entry_hits. Qed.

(** ** The coherence invariant of one mode *)

(** The fill lies in the region that forces whole flushes, unless its page is small. *)
Definition in_region (la lm : Z) (f : fill) : Prop :=
  f_lg f <= 12 \/ exists k, 12 < f_lg f <= k /\ k <= 64 /\ lm = hm k /\ f_addr f / 2 ^ k * 2 ^ k = la.

(** Whatever page an entry answers for is a current translation. *)
Definition holds (A : gmap Z fill) (la lm : Z) (e : CPUTLBEntry) (fe : CPUTLBEntryFull) (p : Z) : Prop :=
  exists f, A !! p = Some f /\ is_u 64 (f_addr f) /\ represents f e fe /\ in_region la lm f.

Definition shape (t : tlbm) : Prop :=
  exists k, 6 <= k <= 26 /\ fmask t = (2 ^ k - 1) * 32
    /\ Z.of_nat (length (table t)) = 2 ^ k /\ Z.of_nat (length (fulltlb t)) = 2 ^ k
    /\ length (vtable t) = CPU_VTLB_SIZE /\ length (vfulltlb t) = CPU_VTLB_SIZE
    /\ is_u 32 (n_used_entries t) /\ is_u 32 (window_max_entries t).

Record coherent (A : gmap Z fill) (t : tlbm) : Prop := {
  co_shape : shape t;
  co_region : is_u 64 (large_page_addr t) /\ exists k, 0 <= k <= 64 /\ large_page_mask t = hm k;
  co_main : forall i e fe p, table t !! i = Some e -> fulltlb t !! i = Some fe -> page p -> hits e p ->
    holds A (large_page_addr t) (large_page_mask t) e fe p /\ Z.to_nat (tlb_index t p) = i;
  co_victim : forall i e fe p, vtable t !! i = Some e -> vfulltlb t !! i = Some fe -> page p -> hits e p ->
    holds A (large_page_addr t) (large_page_mask t) e fe p
}.

Lemma holds_page A la lm e fe p : page p -> hits e p -> holds A la lm e fe p ->
  exists f, A !! p = Some f /\ f_page f = p /\ is_u 64 (f_addr f) /\ represents f e fe /\ in_region la lm f.
Proof. intros Hp Hh (f & Hf & Hu & Hr & Hg). exists f. split_and!; try done. symmetry. by eapply represents_hits. Qed.

Lemma holds_unique A la lm e fe p p' : page p -> page p' -> hits e p -> hits e p' -> holds A la lm e fe p -> p = p'.
Proof. intros Hp Hp' H H' (f & _ & Hu & Hr & _). by rewrite (represents_hits f e fe p), (represents_hits f e fe p'). Qed.

(** ** Sizes and indices *)

Lemma mask_geometry t k : 6 <= k <= 26 -> fmask t = (2 ^ k - 1) * 32 ->
  tlb_n_entries t = 2 ^ k /\ sizeof_tlb t = 2 ^ k * 32 /\ (forall p, tlb_index t p = (p / 2 ^ 12) mod 2 ^ k).
Proof.
  intros Hk Hm. assert (Hb : 2 ^ k <= 2 ^ 26) by (apply Z.pow_le_mono_r; lia). pose proof (pow2_pos k ltac:(lia)).
  assert (Hs : Z.shiftr (fmask t) CPU_TLB_ENTRY_BITS = 2 ^ k - 1).
  { rewrite Hm. unfold CPU_TLB_ENTRY_BITS. rewrite Z.shiftr_div_pow2 by lia. apply Z.div_mul. lia. }
  split_and!.
  - unfold tlb_n_entries. rewrite Hs, uw_small by (unfold is_u; lia). lia.
  - unfold sizeof_tlb. rewrite Hm. change (Z.shiftl 1 CPU_TLB_ENTRY_BITS) with 32. rewrite uw_small by (unfold is_u; lia). lia.
  - intros p. unfold tlb_index. rewrite Hs, <- ones_uw, Z.land_ones by lia.
    unfold TARGET_PAGE_BITS. rewrite Z.shiftr_div_pow2 by lia. apply uw_small.
    pose proof (Z.mod_pos_bound (p / 2 ^ 12) (2 ^ k)). unfold is_u. lia.
Qed.

Lemma index_in_table t p : shape t -> exists e fe,
  table t !! Z.to_nat (tlb_index t p) = Some e /\ fulltlb t !! Z.to_nat (tlb_index t p) = Some fe.
Proof.
  intros (k & Hk & Hm & Ht & Hf & _). destruct (mask_geometry t k Hk Hm) as (_ & _ & Hi). rewrite Hi.
  pose proof (Z.mod_pos_bound (p / 2 ^ 12) (2 ^ k) ltac:(apply pow2_pos; lia)).
  destruct (lookup_lt_is_Some_2 (table t) (Z.to_nat ((p / 2 ^ 12) mod 2 ^ k))) as [e He]; [lia|].
  destruct (lookup_lt_is_Some_2 (fulltlb t) (Z.to_nat ((p / 2 ^ 12) mod 2 ^ k))) as [fe Hfe]; [lia|]. eauto.
Qed.

Lemma index_page t a : is_u 64 a -> tlb_index t (Z.land a TARGET_PAGE_MASK) = tlb_index t a.
Proof.
  intros Ha. unfold tlb_index. do 2 f_equal. rewrite page_mask, hm_land by (done || lia).
  unfold TARGET_PAGE_BITS. rewrite !Z.shiftr_div_pow2 by lia. apply Z.div_mul. lia.
Qed.

Lemma index_agree t p q bits : shape t -> 38 <= bits <= 64 ->
  Z.land p (Z.ones bits) = Z.land q (Z.ones bits) -> tlb_index t p = tlb_index t q.
Proof.
  intros (k & Hk & Hm & _) Hb E. destruct (mask_geometry t k Hk Hm) as (_ & _ & Hi). rewrite !Hi.
  rewrite !Z.land_ones in E by lia.
  assert (Hx : forall x, (x / 2 ^ 12) mod 2 ^ k = (x mod 2 ^ bits / 2 ^ 12) mod 2 ^ k).
  { intros x. apply Z.bits_inj'; intros i ?. rewrite !Z.testbit_mod_pow2 by lia. destruct (Z.ltb_spec i k); [|done]. simpl.
    rewrite <- !Z.shiftr_div_pow2, !Z.shiftr_spec, Z.testbit_mod_pow2 by lia. destruct (Z.ltb_spec (i + 12) bits); [done|lia]. }
  by rewrite (Hx p), (Hx q), E.
Qed.

(** ** Whole flushes *)

(** Nothing in the tables answers. *)
Definition silent (t : tlbm) : Prop :=
  (forall e p, e ∈ table t -> page p -> ~ hits e p) /\ (forall e p, e ∈ vtable t -> page p -> ~ hits e p).

Lemma silent_coherent A t : shape t -> silent t ->
  is_u 64 (large_page_addr t) -> (exists k, 0 <= k <= 64 /\ large_page_mask t = hm k) -> coherent A t.
Proof.
  intros Hs [Hm Hv] Hr Hk. split; [done | by split | |].
  - intros i e fe p He _ Hp Hh. by destruct (Hm e p (list_elem_of_lookup_2 _ _ _ He) Hp).
  - intros i e fe p He _ Hp Hh. by destruct (Hv e p (list_elem_of_lookup_2 _ _ _ He) Hp).
Qed.

Lemma memset_all n es : length es = n -> memset_entries n es = replicate n cleared.
Proof. intros <-. unfold memset_entries. by rewrite drop_all, app_nil_r. Qed.

Lemma replicate_silent n e p : e ∈ replicate n cleared -> page p -> ~ hits e p.
Proof. intros He. apply elem_of_replicate in He as [-> _]. apply hits_cleared. Qed.

Lemma flush_locked_ok t : shape t -> shape (tlb_mmu_flush_locked t) /\ silent (tlb_mmu_flush_locked t).
Proof.
  intros (k & Hk & Hm & Ht & Hf & Hv & Hvf & Hu & Hw). destruct (mask_geometry t k Hk Hm) as (_ & Hsz & _).
  assert (Hn : Z.to_nat (sizeof_tlb t / 32) = length (table t)) by (rewrite Hsz, Z.div_mul by lia; lia).
  unfold tlb_mmu_flush_locked; simpl. unfold sizeof_tlb in *; simpl. rewrite Hn.
  rewrite (memset_all _ (table t)), (memset_all CPU_VTLB_SIZE) by done. split.
  - exists k. simpl. rewrite length_replicate. done.
  - split; intros e p; [apply (replicate_silent (length (table t))) | apply (replicate_silent CPU_VTLB_SIZE)].
Qed.

(** Fresh tables have the size their mask says, when they fit in the address space. *)
Definition heap_ok (h : heap) : Prop := forall s, fits h s = true -> s <= 2 ^ 26.

Lemma fresh_shape h k t : 6 <= k <= 26 -> length (vtable t) = CPU_VTLB_SIZE -> length (vfulltlb t) = CPU_VTLB_SIZE ->
  is_u 32 (n_used_entries t) -> is_u 32 (window_max_entries t) -> shape (fresh_tables h (2 ^ k) t).
Proof.
  intros Hk Hv Hf Hu Hw. assert (2 ^ k <= 2 ^ 26) by (apply Z.pow_le_mono_r; lia). pose proof (pow2_pos k ltac:(lia)).
  exists k. simpl. rewrite !length_fmap, !length_seq. unfold mask_of, CPU_TLB_ENTRY_BITS.
  rewrite Z.shiftl_mul_pow2, !uw_small by (unfold is_u; rewrite ?uw_small by (unfold is_u; lia); lia).
  split_and!; (done || lia).
Qed.

(** ** Sizes a flush may choose *)

Lemma pow2ceil_spec v : is_u 32 v -> exists j, 0 <= j <= 32 /\ pow2ceil v = 2 ^ j
  /\ (1 < v -> v <= 2 ^ j <= 2 * (v - 1)) /\ (v <= 1 -> j = 0).
Proof.
  intros Hv. unfold is_u in Hv. destruct (Z.eq_dec v 0) as [->|H0]; [by exists 0|].
  destruct (Z.eq_dec v 1) as [->|H1]; [by exists 0|].
  unfold pow2ceil. rewrite uw_small by (unfold is_u; lia).
  destruct (clz64_normalises (v - 1)) as [Hc Hn]; [lia|]. set (n := clz64 (v - 1)) in *.
  assert (H32 : 32 <= n).
  { destruct (Z.le_gt_cases 32 n); [done|]. assert (2 ^ n <= 2 ^ 31) by (apply Z.pow_le_mono_r; lia). nia. }
  rewrite (proj2 (Z.eqb_neq n 0)) by lia. exists (64 - n).
  assert (E : Z.shiftr 0x8000000000000000 (n - 1) = 2 ^ (64 - n)).
  { rewrite Z.shiftr_div_pow2 by lia. change 0x8000000000000000 with (2 ^ 63).
    replace (64 - n) with (63 - (n - 1)) by lia. symmetry. apply Z.pow_sub_r; lia. }
  split_and!; [lia | lia | exact E | | lia].
  assert (Hp : 2 ^ 64 = 2 ^ (64 - n) * 2 ^ n) by (rewrite <- Z.pow_add_r by lia; f_equal; lia).
  intros _. change (2 ^ 63) with (2 ^ 64 / 2) in Hn. pose proof (pow2_pos n ltac:(lia)).
  assert (2 ^ 64 = 2 * (2 ^ 64 / 2)) by done. nia.
Qed.

Lemma pow2_max a b : 0 <= a -> 0 <= b -> Z.max (2 ^ a) (2 ^ b) = 2 ^ Z.max a b.
Proof.
  intros. destruct (Z.le_gt_cases a b).
  - rewrite (Z.max_r a b), Z.max_r by (lia || apply Z.pow_le_mono_r; lia). done.
  - rewrite (Z.max_l a b), Z.max_l by (lia || apply Z.pow_le_mono_r; lia). done.
Qed.

Lemma pow2_min a b : 0 <= a -> 0 <= b -> Z.min (2 ^ a) (2 ^ b) = 2 ^ Z.min a b.
Proof.
  intros. destruct (Z.le_gt_cases a b).
  - rewrite (Z.min_l a b), Z.min_l by (lia || apply Z.pow_le_mono_r; lia). done.
  - rewrite (Z.min_r a b), Z.min_r by (lia || apply Z.pow_le_mono_r; lia). done.
Qed.

(** The power of two after doubling in [size_t], or the minimum when it wraps. *)
Lemma doubled j : 0 <= j <= 32 -> exists i, 0 <= i < 33 /\ Z.max (u32 (2 ^ j * 2)) 64 = 2 ^ Z.max i 6.
Proof.
  intros Hj. destruct (Z.le_gt_cases 31 j).
  - exists 0. split; [lia|]. assert (j = 31 \/ j = 32) as [-> | ->] by lia; reflexivity.
  - exists (j + 1). split; [lia|].
    assert (2 ^ j <= 2 ^ 30) by (apply Z.pow_le_mono_r; lia). pose proof (pow2_pos j ltac:(lia)).
    rewrite uw_small by (unfold is_u; lia). replace (2 ^ j * 2) with (2 ^ (j + 1)) by (rewrite Z.pow_add_r by lia; lia).
    change 64 with (2 ^ 6). by rewrite pow2_max by lia.
Qed.

Lemma wanted_size_pow2 k wmax ex s : 6 <= k <= 26 -> is_u 32 wmax ->
  wanted_size (2 ^ k) wmax ex = Some s -> exists j, 6 <= j < 33 /\ s = 2 ^ j.
Proof.
  intros Hk Hw. assert (2 ^ k <= 2 ^ 26) by (apply Z.pow_le_mono_r; lia). pose proof (pow2_pos k ltac:(lia)).
  unfold wanted_size. destruct (udiv _ (2 ^ k)) as [rate|]; simpl; [|done].
  case_goal; [|case_goal].
  - intros [= <-]. rewrite Z.shiftl_mul_pow2, uw_small by (lia || unfold is_u; lia).
    replace (2 ^ k * 2 ^ 1) with (2 ^ (k + 1)) by (rewrite Z.pow_add_r by lia; lia).
    change (Z.shiftl 1 CPU_TLB_DYN_MAX_BITS) with (2 ^ 20). rewrite pow2_min by lia. exists (Z.min (k + 1) 20). split; [lia|done].
  - destruct (pow2ceil_spec wmax Hw) as (j & Hj & -> & _ & _). destruct (udiv _ (u32 (2 ^ j))) as [er|] eqn:Ed; simpl; [|done].
    intros [= <-]. change (Z.shiftl 1 CPU_TLB_DYN_MIN_BITS) with 64. case_goal.
    + rewrite uw_mul_idemp_l. destruct (doubled j Hj) as (i & Hi & ->). exists (Z.max i 6). split; [lia|done].
    + destruct (Z.eq_dec j 32) as [->|]; [by vm_compute in Ed|].
      assert (2 ^ j <= 2 ^ 31) by (apply Z.pow_le_mono_r; lia). pose proof (pow2_pos j ltac:(lia)).
      rewrite uw_small by (unfold is_u; lia). change 64 with (2 ^ 6). rewrite pow2_max by lia.
      exists (Z.max j 6). split; [lia|done].
  - intros [= <-]. exists k. split; [lia|done].
Qed.

(** The allocation loop ends at a power of two that fits. *)
Lemma try_sizes_pow2 fuel h j s : 6 <= j -> try_sizes fuel h (2 ^ j) = Some s ->
  exists i, 6 <= i <= j /\ s = 2 ^ i /\ fits h s = true.
Proof.
  revert j. induction fuel as [|fuel IH]; intros j Hj; simpl.
  - case_goal; [|by case_goal]. intros [= <-]. exists j. split; [lia|done].
  - case_goal; [intros [= <-]; exists j; split; [lia|done]|]. case_goal; [done|].
    change (Z.shiftl 1 CPU_TLB_DYN_MIN_BITS) with (2 ^ 6) in *.
    destruct (Z.eq_dec j 6) as [->|]; [done|].
    rewrite Z.shiftr_div_pow2 by lia. replace (2 ^ j / 2 ^ 1) with (2 ^ (j - 1)) by (apply Z.pow_sub_r; lia).
    rewrite Z.max_l by (apply Z.pow_le_mono_r; lia). intros (i & Hi & H)%IH; [|lia]. exists i. split; [lia|done].
Qed.

#[local] Arguments try_sizes : simpl never.

Lemma shape_window ns m t : shape t -> is_u 32 m -> shape (set_window ns m t).
Proof.
  intros (k & Hk & Hm & Ht & Hf & Hv & Hvf & Hu & Hw) Hb. exists k.
  exact (conj Hk (conj Hm (conj Ht (conj Hf (conj Hv (conj Hvf (conj Hu Hb))))))).
Qed.

Lemma resize_shape h now t t' : heap_ok h -> shape t -> tlb_mmu_resize_locked h now t = Some t' -> shape t'.
Proof.
  intros Hh Hs. pose proof Hs as (k & Hk & Hm & Ht & Hf & Hv & Hvf & Hu & Hw).
  destruct (mask_geometry t k Hk Hm) as (Hn & _). unfold tlb_mmu_resize_locked. rewrite Hn.
  set (wm := if window_max_entries t <? n_used_entries t then _ else _).
  assert (Hwm : is_u 32 wm) by (unfold wm; by case_goal).
  destruct (wanted_size (2 ^ k) wm _) as [s|] eqn:Ew; simpl; [|done].
  destruct (wanted_size_pow2 _ _ _ _ Hk Hwm Ew) as (j & Hj & ->). case_goal.
  - intros [= <-]. assert (Hs' := shape_window (window_begin_ns t) wm t Hs Hwm). case_goal; [by apply shape_window | exact Hs'].
  - destruct (try_sizes 32 h (2 ^ j)) as [s|] eqn:Es; [|done]. intros [= <-].
    destruct (try_sizes_pow2 32 h j s (proj1 Hj) Es) as (i & Hi & -> & Hfit). apply Hh in Hfit.
    apply Z.pow_le_mono_r_iff in Hfit; [|lia..]. 
    apply fresh_shape; [lia | exact Hv | exact Hvf | exact Hu | unfold is_u; simpl; lia].
Qed.

Lemma flush_one_ok h now t t' : heap_ok h -> shape t -> tlb_flush_one_mmuidx_locked h now t = Some t' ->
  shape t' /\ silent t' /\ forall A, coherent A t'.
Proof.
  intros Hh Hs. unfold tlb_flush_one_mmuidx_locked. destruct (tlb_mmu_resize_locked h now t) as [u|] eqn:E; simpl; [|done].
  intros [= <-]. destruct (flush_locked_ok u (resize_shape _ _ _ _ Hh Hs E)). split_and!; [done..|].
  intros A. apply silent_coherent; [done..| by vm_compute | exists 0]. by vm_compute.
Qed.

(** ** Operations that clear entries or change their dirty flag *)

Definition same_but_dirty (e e' : CPUTLBEntry) : Prop :=
  addr_read e' = addr_read e /\ addr_code e' = addr_code e /\ addend e' = addend e
  /\ Z.lor (addr_write e') TLB_NOTDIRTY = Z.lor (addr_write e) TLB_NOTDIRTY.

Lemma same_refl e : same_but_dirty e e.
Proof. done. Qed.

Lemma same_hits e e' p : same_but_dirty e e' -> hits e' p <-> hits e p.
Proof.
  intros (Hr & Hc & _ & Hw). split; intros [[] Ht]; simpl in Ht;
    [exists MMU_DATA_LOAD | exists MMU_DATA_STORE | exists MMU_INST_FETCH
    | exists MMU_DATA_LOAD | exists MMU_DATA_STORE | exists MMU_INST_FETCH]; simpl; rewrite <- Ht; try congruence;
    by apply notdirty_hits.
Qed.

Lemma same_represents f e e' fe : same_but_dirty e e' -> represents f e fe -> represents f e' fe.
Proof. intros (Hr & Hc & Ha & Hw) []. split; congruence. Qed.

(** [t'] keeps entries of [t], or silences them; [A'] keeps what stays. *)
Definition kept (A A' : gmap Z fill) (es es' : list CPUTLBEntry) : Prop :=
  forall i e' p, es' !! i = Some e' -> page p -> hits e' p ->
    exists e, es !! i = Some e /\ same_but_dirty e e' /\ forall f, A !! p = Some f -> A' !! p = Some f.

Lemma coherent_kept A A' t t' : coherent A t -> shape t' -> fmask t' = fmask t ->
  large_page_addr t' = large_page_addr t -> large_page_mask t' = large_page_mask t ->
  fulltlb t' = fulltlb t -> vfulltlb t' = vfulltlb t ->
  kept A A' (table t) (table t') -> kept A A' (vtable t) (vtable t') -> coherent A' t'.
Proof.
  intros [Hs Hr Hm Hv] Hs' Hf Hla Hlm Hfu Hvf Hkm Hkv.
  assert (Hh : forall e e' fe p, same_but_dirty e e' -> (forall f, A !! p = Some f -> A' !! p = Some f) ->
            holds A (large_page_addr t) (large_page_mask t) e fe p -> holds A' (large_page_addr t) (large_page_mask t) e' fe p).
  { intros e e' fe p He HA (f & Ha & Hu & Hp & Hg). exists f. split_and!; auto. by eapply same_represents. }
  split; rewrite ?Hla, ?Hlm, ?Hfu, ?Hvf; [done | done | |].
  - intros i e' fe p He' Hfe Hp Hh'. destruct (Hkm i e' p He' Hp Hh') as (e & He & Hsd & HA).
    rewrite (same_hits e e') in Hh' by done. destruct (Hm i e fe p He Hfe Hp Hh') as [H1 H2]. split; [by eapply Hh|].
    unfold tlb_index in *. by rewrite Hf.
  - intros i e' fe p He' Hfe Hp Hh'. destruct (Hkv i e' p He' Hp Hh') as (e & He & Hsd & HA).
    rewrite (same_hits e e') in Hh' by done. eapply Hh; eauto.
Qed.

Lemma kept_map A A' es g : (forall e p, page p -> hits (g e) p -> same_but_dirty e (g e) /\ forall f, A !! p = Some f -> A' !! p = Some f) ->
  kept A A' es (g <$> es).
Proof.
  intros Hg i e' p He' Hp Hh. rewrite list_lookup_fmap in He'.
  destruct (es !! i) as [e|]; simplify_eq/=. exists e. split; [done|]. by apply Hg.
Qed.

(** The abstract TLB without the pages that agree with [q] under the mask. *)
Definition without (q mask : Z) (A : gmap Z fill) : gmap Z fill :=
  filter (fun pf => Z.land (fst pf) mask <> Z.land q mask) A.

Lemma without_keeps A q mask p f : Z.land p mask <> Z.land q mask -> A !! p = Some f -> without q mask A !! p = Some f.
Proof. intros Hn Hf. by apply map_lookup_filter_Some_2. Qed.

(** One entry after its slot is flushed. *)
Definition flushed (q bits : Z) (e : CPUTLBEntry) : CPUTLBEntry := fst (tlb_flush_entry_mask_locked e q (Z.ones bits)).

Lemma flushed_hits q bits e p : 0 <= bits <= 64 -> page p -> hits (flushed q bits e) p ->
  flushed q bits e = e /\ Z.land p (Z.ones bits) <> Z.land q (Z.ones bits).
Proof.
  intros Hb Hp. unfold flushed, tlb_flush_entry_mask_locked. case_goal; simpl; [by intros ?%hits_cleared|].
  intros Hh. split; [done|]. intros E. by rewrite (hits_flushed e p q bits) in Heqb.
Qed.

Lemma iter_dec_eq n t : exists u, Nat.iter n tlb_n_used_entries_dec t = set_used u t /\ (is_u 32 (n_used_entries t) -> is_u 32 u).
Proof.
  induction n as [|n (u & IH & Hu)]; simpl.
  - exists (n_used_entries t). split; [by destruct t | done].
  - rewrite IH. eexists. split; [reflexivity|]. intros _. apply uw_range. lia.
Qed.

Lemma vtlb_flush_eq q bits t : exists u, (is_u 32 (n_used_entries t) -> is_u 32 u) /\
  tlb_flush_vtlb_page_mask_locked q (Z.ones bits) t =
  set_used u (set_victims (vindex t) (flushed q bits <$> vtable t) (vfulltlb t) t).
Proof.
  unfold tlb_flush_vtlb_page_mask_locked. rewrite <- list_fmap_compose.
  destruct (iter_dec_eq (length (filter (fun r => snd r = true) ((fun e => tlb_flush_entry_mask_locked e q (Z.ones bits)) <$> vtable t)))
    (set_victims (vindex t) (flushed q bits <$> vtable t) (vfulltlb t) t)) as (u & E & Hu).
  exists u. split; [exact Hu | exact E].
Qed.

Lemma shape_same t t' : shape t -> fmask t' = fmask t -> length (table t') = length (table t) ->
  length (fulltlb t') = length (fulltlb t) -> length (vtable t') = length (vtable t) -> length (vfulltlb t') = length (vfulltlb t) ->
  (is_u 32 (n_used_entries t) -> is_u 32 (n_used_entries t')) -> window_max_entries t' = window_max_entries t -> shape t'.
Proof.
  intros (k & Hk & Hm & Ht & Hf & Hv & Hvf & Hu & Hw) E1 E2 E3 E4 E5 E6 E7. exists k.
  rewrite E1, E2, E3, E4, E5, E7. auto 10.
Qed.

(** A slot flush as one update of the state. *)
Lemma flush_slot_eq q bits t t' : flush_slot q (Z.ones bits) t = Some t' ->
  exists e u, tlb_entry t q = Some e /\ (is_u 32 (n_used_entries t) -> is_u 32 u) /\
  t' = set_used u (set_victims (vindex t) (flushed q bits <$> vtable t) (vfulltlb t)
         (set_table (fmask t) (<[Z.to_nat (tlb_index t q) := flushed q bits e]> (table t)) (fulltlb t) t)).
Proof.
  unfold flush_slot. destruct (tlb_entry t q) as [e|]; [|done]. cbn [mbind option_bind].
  destruct (tlb_flush_entry_mask_locked e q (Z.ones bits)) as [e' hit] eqn:Ee.
  assert (He : flushed q bits e = e') by (unfold flushed; by rewrite Ee).
  set (t1 := set_table _ _ _ t). intros [= <-].
  destruct (vtlb_flush_eq q bits (if hit then tlb_n_used_entries_dec t1 else t1)) as (u & Hu & ->).
  exists e, u. rewrite He. split_and!; [done | | by destruct hit].
  intros H. apply Hu. destruct hit; [apply uw_range; lia | done].
Qed.

Lemma flush_slot_ok A q bits t t' : 38 <= bits <= 64 -> coherent A t -> flush_slot q (Z.ones bits) t = Some t' ->
  coherent (without q (Z.ones bits) A) t' /\ large_page_addr t' = large_page_addr t /\ large_page_mask t' = large_page_mask t.
Proof.
  intros Hb Hc (e & u & He & Hu & ->)%flush_slot_eq. split; [|done].
  apply (coherent_kept A _ t); try done.
  - apply (shape_same t); [apply Hc | ..]; simpl; rewrite ?length_insert, ?length_fmap; done.
  - simpl. intros i e' p He' Hp Hh. destruct (decide (i = Z.to_nat (tlb_index t q))) as [->|Hi].
    + rewrite list_lookup_insert_eq in He' by (by eapply lookup_lt_Some). injection He' as <-.
      destruct (flushed_hits q bits e p ltac:(lia) Hp Hh) as [-> Hn]. exists e. split_and!; [done..|].
      intros f. by apply without_keeps.
    + rewrite list_lookup_insert_ne in He' by done. exists e'. split_and!; [done..|]. intros f. apply without_keeps.
      intros E. apply Hi. rewrite <- (index_agree t p q bits) by (done || apply Hc).
      destruct (lookup_lt_is_Some_2 (fulltlb t) i) as [fe' Hfe'].
      { destruct (co_shape _ _ Hc) as (k & _ & _ & Ht & Hf & _). apply lookup_lt_Some in He'. lia. }
      by destruct (co_main _ _ Hc i e' fe' p He' Hfe' Hp Hh).
  - apply kept_map. intros e' p Hp Hh. destruct (flushed_hits q bits e' p ltac:(lia) Hp Hh) as [-> Hn].
    split; [done|]. intros f. by apply without_keeps.
Qed.

(** The abstract TLB without the fills whose guest page contains [q]. *)
Definition flush_fills (q : Z) (A : gmap Z fill) : gmap Z fill := filter (fun pf => covers (snd pf) q = false) A.

(** Coherence is about the pages the tables still answer for. *)
Lemma coherent_answers A A' t : coherent A t ->
  (forall p f e fe, page p -> A !! p = Some f -> f_page f = p -> is_u 64 (f_addr f) -> represents f e fe ->
     in_region (large_page_addr t) (large_page_mask t) f -> A' !! p = Some f) -> coherent A' t.
Proof.
  intros Hc HA.
  assert (Hh : forall e fe p, page p -> hits e p -> holds A (large_page_addr t) (large_page_mask t) e fe p ->
            holds A' (large_page_addr t) (large_page_mask t) e fe p).
  { intros e fe p Hp Hh H. destruct (holds_page _ _ _ _ _ _ Hp Hh H) as (f & Ha & Hpf & Hu & Hr & Hg).
    exists f. split_and!; eauto. }
  split; [apply Hc | apply Hc | |].
  - intros i e fe p He Hfe Hp Hhp. destruct (co_main _ _ Hc i e fe p He Hfe Hp Hhp). auto.
  - intros i e fe p He Hfe Hp Hhp. pose proof (co_victim _ _ Hc i e fe p He Hfe Hp Hhp). auto.
Qed.

Lemma ones_m1 : u64 (-1) = Z.ones 64.
Proof. reflexivity. Qed.

Lemma flush_page_ok h now A q t t' : heap_ok h -> page q -> coherent A t ->
  tlb_flush_page_locked h now q t = Some t' -> coherent (flush_fills q A) t'.
Proof.
  intros Hh Hq Hc. unfold tlb_flush_page_locked. rewrite ones_m1. destruct (Z.eqb_spec (Z.land q (large_page_mask t)) (large_page_addr t)) as [|Hreg].
  - intros H. by apply (flush_one_ok h now t t' Hh); [apply Hc|].
  - intros H. destruct (flush_slot_ok A q 64 t t' ltac:(lia) Hc H) as (Hc' & Hla & Hlm).
    eapply coherent_answers; [exact Hc'|]. rewrite Hla, Hlm. intros p f e fe Hp Hf Hpf Hu Hr Hg.
    apply map_lookup_filter_Some in Hf as [Hf Hn]. simpl in Hn. apply map_lookup_filter_Some_2; [done|]. simpl.
    unfold covers. apply Z.eqb_neq. intros E. destruct Hg as [Hsm | (k & Hk & Hk64 & Hm & Ha)].
    + apply Hn. f_equal. rewrite <- Hpf, <- (page_page q Hq). apply page_eq; [done | apply Hq |].
      by rewrite Z.max_l in E by (unfold TARGET_PAGE_BITS; lia).
    + apply Hreg. rewrite Hm, hm_land by (apply Hq || lia). rewrite <- Ha. f_equal.
      rewrite Z.max_r in E by (unfold TARGET_PAGE_BITS; lia). replace k with (f_lg f + (k - f_lg f)) by lia.
      rewrite Z.pow_add_r, <- !Z.div_div by (lia || apply pow2_pos; lia). by rewrite E.
Qed.

(** ** Ranges *)

(** The abstract TLB without the pages of a range of [n] pages from [q]. *)
Fixpoint span_fills (n : nat) (q mask : Z) (A : gmap Z fill) : gmap Z fill :=
  match n with O => A | S k => span_fills k (u64 (q + TARGET_PAGE_SIZE)) mask (without q mask A) end.

Lemma flush_pages_ok A bits n q t t' : 38 <= bits <= 64 -> coherent A t -> flush_pages n q (Z.ones bits) t = Some t' ->
  coherent (span_fills n q (Z.ones bits) A) t' /\ large_page_addr t' = large_page_addr t /\ large_page_mask t' = large_page_mask t.
Proof.
  intros Hb. revert A q t. induction n as [|n IH]; intros A q t Hc; simpl; [by intros [= <-]|].
  destruct (flush_slot q (Z.ones bits) t) as [u|] eqn:E; simpl; [|done]. intros H.
  destruct (flush_slot_ok A q bits t u Hb Hc E) as (Hc1 & <- & <-). by apply IH.
Qed.

Definition range_pages (len : Z) : nat := Z.to_nat ((len + TARGET_PAGE_SIZE - 1) / TARGET_PAGE_SIZE).

(** [MAKE_64BIT_MASK(0, bits)]. *)
Lemma range_mask bits : 0 <= bits <= 64 -> Z.shiftr (u64 (-1)) (64 - bits) = Z.ones bits.
Proof.
  intros Hb. rewrite ones_m1. apply Z.bits_inj'; intros i Hi. rewrite Z.shiftr_spec, !testbit_ones by lia.
  destruct (Z.ltb_spec (i + (64 - bits)) 64), (Z.ltb_spec i bits); lia || done.
Qed.

(** What a range flush leaves: the pages of the span are gone, and so are the guest pages
    larger than a target page that contain the last byte of the range. *)
Definition range_fills (addr len bits : Z) (A : gmap Z fill) : gmap Z fill :=
  filter (fun pf => f_lg (snd pf) <= TARGET_PAGE_BITS \/ covers (snd pf) (u64 (addr + len - 1)) = false)
    (span_fills (range_pages len) addr (Z.ones bits) A).

Lemma flush_range_ok h now A addr len bits t t' : heap_ok h -> 38 <= bits <= 64 -> coherent A t ->
  tlb_flush_range_locked h now addr len bits t = Some t' -> coherent (range_fills addr len bits A) t'.
Proof.
  intros Hh Hb Hc. unfold tlb_flush_range_locked.
  rewrite range_mask by lia. case_goal; [intros H; by apply (flush_one_ok h now t t' Hh); [apply Hc|]|].
  set (q := u64 (addr + len - 1)). assert (Hq : is_u 64 q) by (apply uw_range; lia).
  destruct (Z.eqb_spec (Z.land q (large_page_mask t)) (large_page_addr t)) as [|Hreg]; [intros H; by apply (flush_one_ok h now t t' Hh); [apply Hc|]|].
  intros H. destruct (flush_pages_ok A bits _ addr t t' Hb Hc H) as (Hc' & Hla & Hlm).
  eapply coherent_answers; [exact Hc'|]. rewrite Hla, Hlm. intros p f e fe Hp Hf Hpf Hu Hr Hg.
  apply map_lookup_filter_Some_2; [done|]. simpl. fold q. destruct Hg as [Hsm | (k & Hk & Hk64 & Hm & Ha)]; [by left | right].
  unfold covers. apply Z.eqb_neq. intros E. apply Hreg. rewrite Hm, hm_land by (done || lia). rewrite <- Ha. f_equal.
  rewrite Z.max_r in E by (unfold TARGET_PAGE_BITS; lia). replace k with (f_lg f + (k - f_lg f)) by lia.
  rewrite Z.pow_add_r, <- !Z.div_div by (lia || apply pow2_pos; lia). by rewrite E.
Qed.

(** ** Dirty tracking *)

Lemma lor_twice a b : Z.lor (Z.lor a b) b = Z.lor a b.
Proof. by rewrite <- Z.lor_assoc, Z.lor_diag. Qed.

Lemma reset_dirty_same s l e : same_but_dirty e (tlb_reset_dirty_range_locked s l e).
Proof. unfold tlb_reset_dirty_range_locked. repeat case_goal; try done. unfold same_but_dirty; simpl. by rewrite lor_twice. Qed.

Lemma set_dirty1_same a e : same_but_dirty e (tlb_set_dirty1_locked a e).
Proof.
  unfold tlb_set_dirty1_locked. case_goal; [|done]. apply Z.eqb_eq in Heqb. unfold same_but_dirty; simpl.
  by rewrite Heqb, lor_twice.
Qed.

Lemma reset_table s l t : shape t -> table (reset_dirty_mode s l t) = tlb_reset_dirty_range_locked s l <$> table t.
Proof.
  intros (k & Hk & Hm & Ht & _). destruct (mask_geometry t k Hk Hm) as (Hn & _).
  simpl. rewrite Hn, take_ge, drop_ge, app_nil_r by lia. done.
Qed.

Lemma reset_dirty_ok A s l t : coherent A t -> coherent A (reset_dirty_mode s l t).
Proof.
  intros Hc. apply (coherent_kept A _ t); try done.
  - apply (shape_same t); [apply Hc | done | ..]; rewrite ?reset_table by apply Hc; simpl; rewrite ?length_fmap; done.
  - rewrite reset_table by apply Hc. apply kept_map. intros e p _ _. split; [apply reset_dirty_same | done].
  - apply kept_map. intros e p _ _. split; [apply reset_dirty_same | done].
Qed.

Lemma set_dirty_ok A a t t' : coherent A t -> set_dirty_mode a t = Some t' -> coherent A t'.
Proof.
  intros Hc. unfold set_dirty_mode. destruct (tlb_entry t a) as [e|] eqn:E; simpl; [|done]. intros [= <-].
  apply (coherent_kept A _ t); try done; simpl.
  - apply (shape_same t); [apply Hc | ..]; simpl; rewrite ?length_insert, ?length_fmap; done.
  - intros i e' p He' Hp Hh. destruct (decide (i = Z.to_nat (tlb_index t a))) as [->|Hi].
    + rewrite list_lookup_insert_eq in He' by (by eapply lookup_lt_Some). injection He' as <-.
      exists e. split_and!; [done | apply set_dirty1_same | done].
    + rewrite list_lookup_insert_ne in He' by done. by exists e'.
  - apply kept_map. intros e' p _ _. split; [apply set_dirty1_same | done].
Qed.

(** ** Large pages *)

Lemma hm_val k : 0 <= k <= 64 -> hm k = 2 ^ 64 - 2 ^ k.
Proof.
  intros Hk. unfold hm, uw. assert (2 ^ k <= 2 ^ 64) by (apply Z.pow_le_mono_r; lia). pose proof (pow2_pos k ltac:(lia)).
  symmetry. apply (Z.mod_unique_pos _ _ (-1)); lia.
Qed.

Lemma hm_inj a b : 0 <= a <= 64 -> 0 <= b <= 64 -> hm a = hm b -> a = b.
Proof. intros Ha Hb. rewrite !hm_val by done. intros E. apply (Z.pow_inj_r 2); lia. Qed.

(** The widening loop stops at a mask under which both addresses agree. *)
Lemma widen_ok fuel la a k : is_u 64 la -> is_u 64 a -> 0 <= k <= 64 -> 64 - k <= Z.of_nat fuel ->
  exists k', k <= k' <= 64 /\ widen fuel la a (hm k) = hm k' /\ la / 2 ^ k' = a / 2 ^ k'.
Proof.
  intros Hl Ha. revert k. induction fuel as [|fuel IH]; intros k Hk Hf; simpl.
  - replace k with 64 by lia. exists 64. unfold is_u in *. rewrite !Z.div_small by lia. split_and!; [lia..| by case_goal | done].
  - destruct (Z.eqb_spec (Z.land (Z.lxor la a) (hm k)) 0) as [E|E].
    + exists k. split_and!; [lia..| done |]. apply hm_xor; [done..| lia | done].
    + destruct (Z.eq_dec k 64) as [->|]; [by rewrite (hm_high 64), Z.land_0_r in E by lia|].
      rewrite hm_shift by lia. destruct (IH (k + 1)) as (k' & Hk' & H); [lia..|]. exists k'. split; [lia|done].
Qed.

Lemma div_mul_coarser x a b : 0 <= a <= b -> x / 2 ^ a * 2 ^ a / 2 ^ b = x / 2 ^ b.
Proof.
  intros H. replace b with (a + (b - a)) by lia. rewrite Z.pow_add_r, <- !Z.div_div by (lia || apply pow2_pos; lia).
  rewrite Z.div_mul by (apply Z.pow_nonzero; lia). done.
Qed.

Lemma add_large_ok addr lg t : is_u 64 addr -> 12 < lg < 64 -> is_u 64 (large_page_addr t) ->
  (exists k, 0 <= k <= 64 /\ large_page_mask t = hm k) ->
  exists la k, tlb_add_large_page addr (Z.shiftl 1 lg) t = set_large la (hm k) t
    /\ is_u 64 la /\ lg <= k <= 64 /\ addr / 2 ^ k * 2 ^ k = la
    /\ forall f, in_region (large_page_addr t) (large_page_mask t) f -> in_region la (hm k) f.
Proof.
  intros Ha Hlg Hl (k0 & Hk0 & Hm0). unfold tlb_add_large_page. rewrite (hm_size lg) by lia. case_goal.
  - apply Z.eqb_eq in Heqb. exists (Z.land addr (hm lg)), lg. rewrite hm_land by (done || lia).
    split_and!; [done | | lia | lia | done |].
    { rewrite <- hm_land by (done || lia). apply land_is_u_l; [lia|done]. }
    intros f [?|(k & Hk & Hk64 & Hmk & Hla)]; [by left|]. exfalso. rewrite Heqb in Hla.
    replace k with (1 + (k - 1)) in Hla by lia. rewrite Z.pow_add_r in Hla by lia.
    change (u64 (-1)) with (2 * (2 ^ 63) - 1) in Hla. lia.
  - rewrite Hm0, (hm_meet lg k0) by lia.
    destruct (widen_ok 64 (large_page_addr t) addr (Z.max lg k0)) as (k & Hk & -> & E); [done..|lia|lia|].
    exists (Z.land (large_page_addr t) (hm k)), k. rewrite hm_land by (done || lia). split_and!; [done | | lia | lia | by rewrite E |].
    { rewrite <- hm_land by (done || lia). apply land_is_u_l; [lia|done]. }
    intros f [?|(kf & Hkf & Hk64 & Hmk & Hla)]; [by left|]. right. exists k. rewrite <- Hla.
    apply hm_inj in Hmk; [|lia..]. subst k0.
    rewrite div_mul_coarser by lia. split_and!; (done || lia).
Qed.

(** ** Fills *)

Lemma coherent_region A t la k : coherent A t -> is_u 64 la -> 0 <= k <= 64 ->
  (forall f, in_region (large_page_addr t) (large_page_mask t) f -> in_region la (hm k) f) ->
  coherent A (set_large la (hm k) t).
Proof.
  intros Hc Hl Hk HR.
  assert (Hh : forall e fe p, holds A (large_page_addr t) (large_page_mask t) e fe p -> holds A la (hm k) e fe p).
  { intros e fe p (f & ? & ? & ? & Hg). exists f. auto. }
  split; simpl; [apply Hc | by eauto | |].
  - intros i e fe p He Hfe Hp Hhp. destruct (co_main _ _ Hc i e fe p He Hfe Hp Hhp). auto.
  - intros i e fe p He Hfe Hp Hhp. pose proof (co_victim _ _ Hc i e fe p He Hfe Hp Hhp). auto.
Qed.

(** The victims after an eviction: old ones, or the evicted entry, of another page. *)
Lemma evict_eq i te p t t' : shape t -> page p -> evict i te p t = Some t' ->
  exists u vi vt vf, t' = set_used u (set_victims vi vt vf t) /\ length vt = length (vtable t) /\ length vf = length (vfulltlb t)
    /\ (is_u 32 (n_used_entries t) -> is_u 32 u)
    /\ forall j e fe, vt !! j = Some e -> vf !! j = Some fe ->
        (vtable t !! j = Some e /\ vfulltlb t !! j = Some fe) \/ (e = te /\ fulltlb t !! i = Some fe /\ ~ hits te p).
Proof.
  intros (k & _ & _ & _ & _ & Hv & Hvf & _) Hp. unfold evict. case_goal.
  - apply andb_true_iff in Heqb as [Hn _]. apply negb_true_iff in Hn.
    destruct (fulltlb t !! i) as [f|] eqn:Ef; simpl; [|done]. intros [= <-].
    eexists _, _, _, _. split; [reflexivity|]. rewrite !length_insert. split_and!; [done..| |].
    { intros _. apply uw_range. lia. }
    assert (Hx : (Z.to_nat (vindex t mod 8) < 8)%nat) by (pose proof (Z.mod_pos_bound (vindex t) 8); lia).
    intros j e fe. destruct (decide (j = Z.to_nat (vindex t mod 8))) as [->|Hj].
    + rewrite !list_lookup_insert_eq by (rewrite ?Hv, ?Hvf; exact Hx). intros [= <-] [= <-]. right. split_and!; [done..|].
      rewrite <- hits_anyprot by done. by rewrite Hn.
    + rewrite !list_lookup_insert_ne by done. auto.
  - intros [= <-]. exists (n_used_entries t), (vindex t), (vtable t), (vfulltlb t). split_and!; try done; [by destruct t|].
    auto.
Qed.

Lemma fill_tables_ok A f t t1 t2 : coherent A t -> is_u 64 (f_addr f) ->
  in_region (large_page_addr t) (large_page_mask t) f ->
  forall te, tlb_entry t (f_page f) = Some te -> t1 = tlb_flush_vtlb_page_locked (f_page f) t ->
  evict (Z.to_nat (tlb_index t (f_page f))) te (f_page f) t1 = Some t2 ->
  let i := Z.to_nat (tlb_index t (f_page f)) in
  coherent (<[f_page f := f]> A) (tlb_n_used_entries_inc (set_table (fmask t2) (<[i := f_entry f]> (table t2)) (<[i := f_info f]> (fulltlb t2)) t2)).
Proof.
  intros Hc Hu Hg te Hte ->. pose proof (page_of _ Hu) as Hpp. fold (f_page f) in Hpp.
  unfold tlb_flush_vtlb_page_locked. rewrite ones_m1.
  destruct (vtlb_flush_eq (f_page f) 64 t) as (u1 & Hu1 & ->). set (i := Z.to_nat (tlb_index t (f_page f))). intros Hev.
  apply evict_eq in Hev as (u & vi & vt & vf & -> & Hlt & Hlf & Huu & Hvic); [|apply (shape_same t); [apply Hc|..]; simpl; rewrite ?length_fmap; done|done].
  simpl in *. rewrite length_fmap in Hlt.
  split; simpl.
  - apply (shape_same t); [apply Hc|..]; simpl; rewrite ?length_insert; try done. intros _. apply uw_range; lia.
  - apply Hc.
  - intros j e fe p He Hfe Hp Hh. destruct (decide (j = i)) as [->|Hj].
    + rewrite list_lookup_insert_eq in He by (by eapply lookup_lt_Some). injection He as <-.
      destruct (index_in_table t (f_page f) (co_shape _ _ Hc)) as (e0 & fe0 & _ & Hfe0).
      rewrite (list_lookup_insert_eq (fulltlb t) i (f_info f) (lookup_lt_Some _ _ _ Hfe0)) in Hfe. injection Hfe as <-.
      destruct Hh as [ty Ht]. assert (p = f_page f) as -> by (by eapply f_entry_hits). split; [|done].
      exists f. rewrite lookup_insert_eq. by split_and!.
    + rewrite list_lookup_insert_ne in He by done. rewrite list_lookup_insert_ne in Hfe by done. destruct (co_main _ _ Hc j e fe p He Hfe Hp Hh) as [(f' & Hf' & Hr) Hi].
      split; [|done]. exists f'. rewrite lookup_insert_ne by (intros <-; by apply Hj). done.
  - intros j e fe p He Hfe Hp Hh. destruct (Hvic j e fe He Hfe) as [[He' Hfe']|(-> & Hfe' & Hn)].
    + rewrite list_lookup_fmap in He'. destruct (vtable t !! j) as [e0|] eqn:E0; simplify_eq/=.
      destruct (flushed_hits (f_page f) 64 e0 p ltac:(lia) Hp Hh) as [Heq Hn]. rewrite Heq in *.
      destruct (co_victim _ _ Hc j e0 fe p E0 Hfe' Hp Hh) as (f' & Hf' & Hr). exists f'.
      rewrite lookup_insert_ne by congruence. done.
    + destruct (co_main _ _ Hc _ te fe p Hte Hfe' Hp Hh) as [(f' & Hf' & Hr) _]. exists f'.
      rewrite lookup_insert_ne by congruence. done.
Qed.

Lemma set_page_ok A f t t' : coherent A t -> is_u 64 (f_addr f) ->
  set_page_mode (f_addr f) (f_full f) (f_back f) t = Some t' -> coherent (<[f_page f := f]> A) t'.
Proof.
  intros Hc Hu. unfold set_page_mode. fold (f_lg f). fold (f_page f).
  assert (Hreg : forall t1, t1 = (if f_lg f <=? TARGET_PAGE_BITS then t else tlb_add_large_page (f_addr f) (Z.shiftl 1 (f_lg f)) t) ->
    (negb (f_lg f <=? TARGET_PAGE_BITS) && (64 <=? f_lg f)) = false ->
    coherent A t1 /\ in_region (large_page_addr t1) (large_page_mask t1) f).
  { intros t1 -> Hlg. unfold TARGET_PAGE_BITS in *. destruct (Z.leb_spec (f_lg f) 12); [by split; [|left]|].
    destruct (Z.leb_spec 64 (f_lg f)); [done|]. destruct (co_region _ _ Hc) as [Hla Hlm].
    destruct (add_large_ok (f_addr f) (f_lg f) t) as (la & k & -> & Hl & Hk & Ha & HR); [done | lia | done | done |].
    split; [apply coherent_region; auto; lia|]. right. exists k. simpl. split_and!; (done || lia). }
  case_goal; [done|]. destruct (Hreg _ eq_refl eq_refl) as [Hc1 Hg]. clear Hreg.
  set (t1 := if f_lg f <=? TARGET_PAGE_BITS then t else _) in *.
  do 2 (case_goal; [done|]). destruct (tlb_entry t1 (f_page f)) as [te|] eqn:Ete; cbn [mbind option_bind]; [|done].
  destruct (evict _ te (f_page f) _) as [t2|] eqn:Eev; cbn [mbind option_bind]; [|done].
  destruct (new_entry (f_page f) (f_full f) (f_back f)) as [tn fn] eqn:En.
  replace tn with (f_entry f) by (unfold f_entry; by rewrite En). replace fn with (f_info f) by (unfold f_info; by rewrite En).
  intros [= <-]. by eapply fill_tables_ok.
Qed.

(** ** The victim table *)

Lemma victim_swap_ok A t ty p t' hit : coherent A t -> page p ->
  victim_tlb_hit (Z.to_nat (tlb_index t p)) ty p t = Some (t', hit) -> coherent A t' /\ fmask t' = fmask t.
Proof.
  intros Hc Hp. unfold victim_tlb_hit. destruct (list_find _ (vtable t)) as [[vi v]|] eqn:Ev; [|by intros [= <- <-]].
  apply list_find_Some in Ev as (Hv & Hcmp & _). set (i := Z.to_nat (tlb_index t p)).
  destruct (table t !! i) as [e|] eqn:Ee; cbn [mbind option_bind]; [|done].
  destruct (fulltlb t !! i) as [f1|] eqn:Ef1; cbn [mbind option_bind]; [|done].
  destruct (vfulltlb t !! vi) as [f2|] eqn:Ef2; cbn [mbind option_bind]; [|done].
  intros [= <- <-]. split; [|done].
  assert (Hvp : hits v p).
  { exists ty. unfold tlb_hit_page. rewrite Hcmp, compare_mask, hm_land by (apply Hp || lia). apply Z.eqb_eq.
    destruct Hp as [_ Hp]. Z.div_mod_to_equations; lia. }
  assert (Hvh : forall q, page q -> hits v q -> q = p).
  { intros q Hq Hh. eapply holds_unique; [exact Hq | exact Hp | done | done |]. by eapply (co_victim _ _ Hc vi). }
  split; simpl.
  - apply (shape_same t); [apply Hc|..]; simpl; rewrite ?length_insert; done.
  - apply Hc.
  - intros j e' fe q He Hfe Hq Hh. destruct (decide (j = i)) as [->|Hj].
    + rewrite list_lookup_insert_eq in He by (by eapply lookup_lt_Some). injection He as <-.
      rewrite list_lookup_insert_eq in Hfe by (by eapply lookup_lt_Some). injection Hfe as <-.
      rewrite (Hvh q Hq Hh). split; [by eapply (co_victim _ _ Hc vi) | done].
    + rewrite list_lookup_insert_ne in He by done. rewrite list_lookup_insert_ne in Hfe by done. by eapply (co_main _ _ Hc).
  - intros j e' fe q He Hfe Hq Hh. destruct (decide (j = vi)) as [->|Hj].
    + rewrite list_lookup_insert_eq in He by (by eapply lookup_lt_Some). injection He as <-.
      rewrite list_lookup_insert_eq in Hfe by (by eapply lookup_lt_Some). injection Hfe as <-.
      by destruct (co_main _ _ Hc i e f1 q Ee Ef1 Hq Hh).
    + rewrite list_lookup_insert_ne in He by done. rewrite list_lookup_insert_ne in Hfe by done. by eapply (co_victim _ _ Hc).
Qed.
