(* ===== verification/TlbOps.v ===== *)
(** * Operations of a vCPU's TLB

    Every operation of the TLB interface, on all MMU modes, keeps each mode coherent
    with its abstract TLB; a mode whose bit of [dirty] is clear answers nothing, so that
    a flush may skip it. *)
From S2P Require Import Prelude BitOps HostUtils Bitmap Tlb TlbCoherence.

(** ** Loops over the modes *)

(** [c'] differs from [c] in its modes only, mode [j] being rewritten by [R j]. *)
Definition modes_by (R : nat -> tlbm -> tlbm -> Prop) (c c' : cpu) : Prop :=
  c' = with_modes (modes c') c /\ length (modes c') = length (modes c)
  /\ forall j t t', modes c !! j = Some t -> modes c' !! j = Some t' -> R j t t'.

Lemma on_mode_by i g c c' : on_mode i g c = Some c' ->
  modes_by (fun j t t' => if decide (j = i) then g t = Some t' else t' = t) c c'.
Proof.
  unfold on_mode. destruct (modes c !! i) as [t|] eqn:Et; cbn [mbind option_bind]; [|done].
  destruct (g t) as [t1|] eqn:Eg; cbn [mbind option_bind]; [|done]. intros [= <-]. split_and!; [done | apply length_insert |].
  simpl. intros j u u' Hu Hu'. case_decide as Hj.
  - subst j. rewrite list_lookup_insert_eq in Hu' by (by eapply lookup_lt_Some). congruence.
  - rewrite list_lookup_insert_ne in Hu' by done. congruence.
Qed.

Lemma modes_by_trans R1 R2 R3 c1 c2 c3 : (forall j t1 t2 t3, R1 j t1 t2 -> R2 j t2 t3 -> R3 j t1 t3) ->
  modes_by R1 c1 c2 -> modes_by R2 c2 c3 -> modes_by R3 c1 c3.
Proof.
  intros HR (E1 & L1 & H1) (E2 & L2 & H2). split_and!; [rewrite E2, E1; done | congruence |].
  intros j t1 t3 Ht1 Ht3. destruct (lookup_lt_is_Some_2 (modes c2) j) as [t2 Ht2].
  { rewrite L1. by eapply lookup_lt_Some. }
  eauto.
Qed.

Lemma modes_by_refl (R : nat -> tlbm -> tlbm -> Prop) c : (forall j t, R j t t) -> modes_by R c c.
Proof. intros HR. split_and!; [by destruct c | done |]. intros j t t' H H'. simplify_eq. apply HR. Qed.

Lemma for_modes_by (asked : nat -> bool) g n i c c' :
  for_modes n i (fun i c => if asked i then on_mode i (g i) c else Some c) c = Some c' ->
  modes_by (fun j t t' => if decide (i <= j < i + n)%nat then (if asked j then g j t = Some t' else t' = t) else t' = t) c c'.
Proof.
  revert i c. induction n as [|n IH]; intros i c; simpl.
  - intros [= <-]. apply modes_by_refl. intros j t. by rewrite decide_False by lia.
  - destruct (asked i) eqn:Ea; cbn [mbind option_bind].
    + destruct (on_mode i (g i) c) as [c1|] eqn:E1; cbn [mbind option_bind]; [|done]. intros H.
      eapply modes_by_trans; [| by apply on_mode_by | by apply IH].
      intros j t1 t2 t3. cbv beta. repeat case_decide; try lia; subst; rewrite ?Ea; intros; subst; done.
    + intros H. apply IH in H as (E & L & H). split_and!; [done..|]. intros j t t' Ht Ht'.
      specialize (H j t t' Ht Ht'). repeat case_decide; try lia; try done. assert (j = i) by lia. by subst; rewrite Ea.
Qed.

Lemma all_modes_by (asked : nat -> bool) g c c' : length (modes c) = 16%nat ->
  all_modes (fun i c => if asked i then on_mode i (g i) c else Some c) c = Some c' ->
  modes_by (fun j t t' => if asked j then g j t = Some t' else t' = t) c c'.
Proof.
  intros Hl (E & L & H)%for_modes_by. split_and!; [done..|]. intros j t t' Ht Ht'. specialize (H j t t' Ht Ht').
  apply lookup_lt_Some in Ht. change (Z.to_nat NB_MMU_MODES) with 16%nat in H. by rewrite decide_True in H by lia.
Qed.

(** ** The loop over the set bits of a map *)

Lemma clear_lowest x j : 0 < x -> 0 <= j ->
  Z.testbit (Z.land x (x - 1)) j = Z.testbit x j && negb (j =? builtin_ctz x).
Proof.
  intros Hx Hj. destruct (builtin_ctz_spec x Hx) as (H0 & Hc & Hl). set (k := builtin_ctz x) in *.
  rewrite Z.land_spec. destruct (Z.eqb_spec j k) as [->|Hne]; simpl.
  - rewrite Hc. simpl. rewrite andb_false_r || idtac.
    assert (Hm : x mod 2 ^ k = 0).
    { apply Z.bits_inj'; intros i Hi. rewrite Z.testbit_mod_pow2, Z.testbit_0_l by lia.
      destruct (Z.ltb_spec i k); [simpl; apply Hl; lia | done]. }
    pose proof (pow2_pos k H0). apply Z.testbit_true in Hc; [|done].
    destruct (Z.testbit (x - 1) k) eqn:E; [|done]. apply Z.testbit_true in E; [|done].
    replace ((x - 1) / 2 ^ k) with (x / 2 ^ k - 1) in E; [Z.div_mod_to_equations; lia|].
    apply (Z.div_unique_pos _ _ _ (2 ^ k - 1)); [lia|]. pose proof (Z.div_mod x (2 ^ k)). lia.
  - rewrite andb_true_r. destruct (Z.lt_ge_cases j k) as [Hlt|Hge]; [by rewrite Hl by lia|].
    assert (Hm : x mod 2 ^ j <> 0).
    { intros Hm. assert (E : Z.testbit (x mod 2 ^ j) k = true) by (rewrite Z.mod_pow2_bits_low by lia; done).
      by rewrite Hm, Z.testbit_0_l in E. }
    replace (Z.testbit (x - 1) j) with (Z.testbit x j); [btauto|]. rewrite !Z.testbit_odd, !Z.shiftr_div_pow2 by lia. f_equal.
    apply (Z.div_unique_pos _ _ _ (x mod 2 ^ j - 1)); pose proof (Z.mod_pos_bound x (2 ^ j) ltac:(apply pow2_pos; lia));
      pose proof (Z.div_mod x (2 ^ j)); lia.
Qed.

Lemma flush_work_by fuel h now work c c' : is_u 16 work -> flush_work fuel h now work c = Some c' ->
  modes_by (fun j t t' => if asked_mode work j then tlb_flush_one_mmuidx_locked h now t = Some t' else t' = t) c c'.
Proof.
  revert work c. induction fuel as [|fuel IH]; intros work c Hw; simpl.
  - case_goal; [|done]. intros [= <-]. apply Z.eqb_eq in Heqb as ->.
    apply modes_by_refl. intros j t. unfold asked_mode. by rewrite Z.testbit_0_l.
  - destruct (Z.eqb_spec work 0) as [->|H0]; [intros [= <-]; apply modes_by_refl; intros j t; unfold asked_mode; by rewrite Z.testbit_0_l|].
    assert (Hpos : 0 < work < 2 ^ 16) by (unfold is_u in Hw; lia).
    rewrite uw_small by (unfold is_u; lia). unfold ctz32. rewrite (proj2 (Z.eqb_neq work 0) H0).
    destruct (builtin_ctz_spec work ltac:(lia)) as (Hc0 & Hcb & _).
    destruct (on_mode _ _ c) as [c1|] eqn:E1; cbn [mbind option_bind]; [|done]. intros H.
    eapply modes_by_trans; [| by apply on_mode_by | apply (IH _ _ (land_is_u_l 16 _ _ ltac:(lia) Hw) H)].
    intros j t1 t2 t3. cbv beta. unfold asked_mode. rewrite clear_lowest by lia. case_decide as Hj.
    + subst j. rewrite Z2Nat.id, Hcb, Z.eqb_refl by done. simpl. by intros ? ->.
    + rewrite (proj2 (Z.eqb_neq _ _)) by lia. rewrite andb_true_r. by intros ->.
Qed.

(** Sixteen rounds are enough for sixteen modes. *)
Lemma flush_work_total fuel h now work c : is_u 16 work -> length (modes c) = 16%nat ->
  (forall j, 0 <= j -> Z.testbit work j = true -> 16 - Z.of_nat fuel <= j) ->
  (forall j t, modes c !! j = Some t -> asked_mode work j = true -> is_Some (tlb_flush_one_mmuidx_locked h now t)) ->
  is_Some (flush_work fuel h now work c).
Proof.
  revert work c. induction fuel as [|fuel IH]; intros work c Hw Hl Hb Hf; simpl.
  - destruct (Z.eqb_spec work 0) as [->|H0]; [by eexists|]. exfalso. assert (0 < work < 2 ^ 16) by (unfold is_u in Hw; lia).
    destruct (builtin_ctz_spec work ltac:(lia)) as (Hc0 & Hcb & _). specialize (Hb _ Hc0 Hcb).
    by rewrite (testbit_is_u 16) in Hcb by (done || lia).
  - destruct (Z.eqb_spec work 0) as [->|H0]; [by eexists|].
    assert (Hpos : 0 < work < 2 ^ 16) by (unfold is_u in Hw; lia).
    rewrite uw_small by (unfold is_u; lia). unfold ctz32. rewrite (proj2 (Z.eqb_neq work 0) H0).
    destruct (builtin_ctz_spec work ltac:(lia)) as (Hc0 & Hcb & Hlow). set (k := builtin_ctz work) in *.
    assert (Hk : k < 16) by (destruct (Z.lt_ge_cases k 16); [done|]; by rewrite (testbit_is_u 16) in Hcb by done).
    destruct (lookup_lt_is_Some_2 (modes c) (Z.to_nat k)) as [t Ht]; [lia|].
    destruct (Hf (Z.to_nat k) t Ht) as [t' Ht']; [unfold asked_mode; by rewrite Z2Nat.id|].
    unfold on_mode. rewrite Ht. cbn [mbind option_bind]. rewrite Ht'. cbn [mbind option_bind].
    apply IH; [by apply land_is_u_l | by simpl; rewrite length_insert | |].
    + intros j Hj. rewrite clear_lowest by lia. fold k. intros [Hj1 Hj2%negb_true_iff]%andb_true_iff.
      apply Z.eqb_neq in Hj2. pose proof (Hb k Hc0 Hcb). destruct (Z.lt_ge_cases j k); [by rewrite Hlow in Hj1 by lia | lia].
    + simpl. intros j u. unfold asked_mode. rewrite clear_lowest by lia. fold k. intros Hu [Hj1 Hj2%negb_true_iff]%andb_true_iff.
      apply Z.eqb_neq in Hj2. rewrite list_lookup_insert_ne in Hu by lia. by eapply Hf.
Qed.

(** ** The interface and its abstract meaning *)

Inductive op :=
  | OpFill (m : nat) (f : fill)
  | OpFlush (h : heap) (now asked : Z)
  | OpFlushPage (h : heap) (now addr idxmap : Z)
  | OpFlushRange (h : heap) (now addr len idxmap bits : Z)
  | OpResetDirty (start len : Z)
  | OpSetDirty (addr : Z)
  | OpVictim (m : nat) (ty : MMUAccessType) (addr : Z).

Definition run_op (o : op) (c : cpu) : option cpu :=
  match o with
  | OpFill m f => tlb_set_page_full m (f_addr f) (f_full f) (f_back f) c
  | OpFlush h now asked => tlb_flush_by_mmuidx_async_work h now asked c
  | OpFlushPage h now addr idxmap => tlb_flush_page_by_mmuidx h now addr idxmap c
  | OpFlushRange h now addr len idxmap bits => tlb_flush_range_by_mmuidx h now addr len idxmap bits c
  | OpResetDirty start len => tlb_reset_dirty start len c
  | OpSetDirty addr => tlb_set_dirty addr c
  | OpVictim m ty addr =>
      on_mode m (fun t => fst <$> victim_tlb_hit (Z.to_nat (tlb_index t addr)) ty (Z.land addr TARGET_PAGE_MASK) t) c
  end.

(** Arguments at their C widths, heaps inside the 32-bit address space, and for range
    flushes enough significant bits to tell the entries of a table apart. *)
Definition op_ok (o : op) : Prop :=
  match o with
  | OpFill m f => (m < 16)%nat /\ is_u 64 (f_addr f)
  | OpFlush h now asked => heap_ok h /\ is_u 16 asked
  | OpFlushPage h now addr idxmap => heap_ok h /\ is_u 64 addr /\ is_u 16 idxmap
  | OpFlushRange h now addr len idxmap bits =>
      heap_ok h /\ is_u 64 addr /\ is_u 64 len /\ is_u 16 idxmap /\ (0 <= bits < 12 \/ 38 <= bits <= 64)
  | OpResetDirty _ _ => True
  | OpSetDirty addr => is_u 64 addr
  | OpVictim m ty addr => is_u 64 addr
  end.

Abbreviation atlb := (list (gmap Z fill)).

Definition on_asked (idxmap : Z) (g : gmap Z fill -> gmap Z fill) (As : atlb) : atlb :=
  imap (fun i A => if asked_mode idxmap i then g A else A) As.

Definition spec_op (o : op) (As : atlb) : atlb :=
  match o with
  | OpFill m f => alter (insert (f_page f) f) m As
  | OpFlush h now asked => on_asked asked (fun _ => ∅) As
  | OpFlushPage h now addr idxmap => on_asked idxmap (flush_fills (Z.land addr TARGET_PAGE_MASK)) As
  | OpFlushRange h now addr len idxmap bits =>
      on_asked idxmap
        (fun A => if (64 <=? bits) && (len <=? TARGET_PAGE_SIZE) then flush_fills (Z.land addr TARGET_PAGE_MASK) A
                  else if bits <? TARGET_PAGE_BITS then ∅
                  else range_fills (Z.land addr TARGET_PAGE_MASK) len bits A) As
  | _ => As
  end.

Record cpu_ok (As : atlb) (c : cpu) : Prop := {
  ok_len : length (modes c) = 16%nat /\ length As = 16%nat;
  ok_dirty : is_u 16 (dirty c);
  ok_modes : forall i A t, As !! i = Some A -> modes c !! i = Some t -> coherent A t;
  ok_clean : forall i t, modes c !! i = Some t -> Z.testbit (dirty c) (Z.of_nat i) = false -> coherent ∅ t
}.

(** What an operation on the modes must do to keep the invariant: each mode coherent
    with its new abstract TLB, and empty modes empty. *)
Lemma modes_by_ok As As' c c' (R : nat -> tlbm -> tlbm -> Prop) : cpu_ok As c -> modes_by R c c' -> length As' = length As ->
  (forall j A A' t t', As !! j = Some A -> As' !! j = Some A' -> (j < 16)%nat -> coherent A t -> R j t t' -> coherent A' t') ->
  (forall j t t', (j < 16)%nat -> coherent ∅ t -> R j t t' -> coherent ∅ t') -> cpu_ok As' c'.
Proof.
  intros [[L1 L2] Hd Hm Hc] (E & L & HR) LA HA H0. rewrite E. split; simpl.
  - split; congruence.
  - done.
  - intros i A' t' HA' Ht'. pose proof (lookup_lt_Some _ _ _ Ht').
    destruct (lookup_lt_is_Some_2 (modes c) i) as [t Ht]; [lia|]. destruct (lookup_lt_is_Some_2 As i) as [A HAi]; [lia|].
    eapply HA; eauto. lia.
  - intros i t' Ht' Hb. pose proof (lookup_lt_Some _ _ _ Ht').
    destruct (lookup_lt_is_Some_2 (modes c) i) as [t Ht]; [lia|]. eapply H0; [| by eapply Hc | by eapply HR]. lia.
Qed.

Lemma on_asked_lookup idxmap g As j A : on_asked idxmap g As !! j = Some A ->
  exists A0, As !! j = Some A0 /\ A = if asked_mode idxmap j then g A0 else A0.
Proof. unfold on_asked. rewrite list_lookup_imap. destruct (As !! j) as [A0|]; simpl; [|done]. intros [= <-]. by eexists. Qed.

(** A loop over the asked modes of a coherence-preserving operation. *)
Lemma asked_ok As c c' idxmap g (fs : gmap Z fill -> gmap Z fill) : cpu_ok As c ->
  all_modes (fun i c => if asked_mode idxmap i then on_mode i g c else Some c) c = Some c' ->
  (forall A t t', coherent A t -> g t = Some t' -> coherent (fs A) t') -> fs ∅ = ∅ ->
  cpu_ok (on_asked idxmap fs As) c'.
Proof.
  intros Hok H Hg H0. pose proof (ok_len _ _ Hok) as [L1 L2]. apply (all_modes_by _ (fun _ => g)) in H; [|done].
  eapply modes_by_ok; [done | exact H | by unfold on_asked; rewrite length_imap | |].
  - intros j A A' t t' HA (A0 & HA0 & ->)%on_asked_lookup _ Hc HR. simplify_eq. cbv beta in HR. case_goal; [by eapply Hg | by subst].
  - intros j t t' _ Hc HR. cbv beta in HR. destruct (asked_mode idxmap j); [|by subst]. rewrite <- H0. by eapply Hg.
Qed.

Lemma with_jc_ok As jc c : cpu_ok As c -> cpu_ok As (with_jc jc c).
Proof. intros []. by split. Qed.

Lemma with_counts_ok As f p e c : cpu_ok As c -> cpu_ok As (with_counts f p e c).
Proof. intros []. by split. Qed.

Lemma flush_fills_empty q : flush_fills q ∅ = ∅.
Proof. apply map_filter_empty. Qed.

Lemma span_fills_empty n q mask : span_fills n q mask ∅ = ∅.
Proof. revert q. induction n as [|n IH]; intros q; [done|]. simpl. unfold without. by rewrite map_filter_empty. Qed.

Lemma range_fills_empty addr len bits : range_fills addr len bits ∅ = ∅.
Proof. unfold range_fills. rewrite span_fills_empty. apply map_filter_empty. Qed.

Lemma fill_ok As m f c c' : cpu_ok As c -> op_ok (OpFill m f) -> run_op (OpFill m f) c = Some c' ->
  cpu_ok (spec_op (OpFill m f) As) c'.
Proof.
  intros [[L1 L2] Hd Hm Hc] [H16 Hu]. simpl. unfold tlb_set_page_full. set (d := Z.lor _ _). intros H.
  apply on_mode_by in H as (E & L & HR). simpl in L, HR. rewrite E.
  assert (Hbit : forall i, 0 <= i -> Z.testbit d i = Z.testbit (dirty c) i || (i =? Z.of_nat m)).
  { intros i Hi. unfold d. rewrite Z.lor_spec, Z.shiftl_1_l, Z.pow2_bits_eqb by lia. by rewrite (Z.eqb_sym i). }
  split; simpl.
  - rewrite length_alter. split; congruence.
  - apply is_u_bits; [lia|]. intros i Hi. rewrite Hbit, (testbit_is_u 16) by (done || lia). by apply Z.eqb_neq; lia.
  - intros i A t' HA Ht'. pose proof (lookup_lt_Some _ _ _ Ht').
    destruct (lookup_lt_is_Some_2 (modes c) i) as [t Ht]; [lia|]. specialize (HR i t t' Ht Ht'). case_decide as Hi.
    + subst i. rewrite list_lookup_alter_eq in HA. destruct (As !! m) as [A0|] eqn:EA; simpl in HA; [|done]. injection HA as <-.
      eapply set_page_ok; [by eapply Hm | done | done].
    + rewrite list_lookup_alter_ne in HA by done. subst t'. by eapply Hm.
  - intros i t' Ht'. rewrite Hbit by lia. intros [Hi1 Hi2]%orb_false_iff. apply Z.eqb_neq in Hi2.
    pose proof (lookup_lt_Some _ _ _ Ht'). destruct (lookup_lt_is_Some_2 (modes c) i) as [t Ht]; [lia|].
    specialize (HR i t t' Ht Ht'). rewrite decide_False in HR by lia. subst. by eapply Hc.
Qed.

Lemma flush_ok As h now asked c c' : cpu_ok As c -> op_ok (OpFlush h now asked) -> run_op (OpFlush h now asked) c = Some c' ->
  cpu_ok (spec_op (OpFlush h now asked) As) c'.
Proof.
  intros [[L1 L2] Hd Hm Hc] [Hh Ha]. simpl. unfold tlb_flush_by_mmuidx_async_work. set (tc := Z.land asked (dirty c)).
  destruct (flush_work _ _ _ _ _) as [c1|] eqn:E1; cbn [mbind option_bind]; [|done]. intros [= <-].
  apply flush_work_by in E1 as (E & L & HR); [|by apply land_is_u_l]. simpl in L, HR.
  assert (Hok : cpu_ok (on_asked asked (fun _ => ∅) As) c1);
    [|case_goal; by apply with_counts_ok, with_jc_ok].
  assert (Hbit : forall i, 0 <= i -> Z.testbit (Z.land (dirty c) (unot 16 tc)) i = Z.testbit (dirty c) i && negb (Z.testbit asked i)).
  { intros i Hi. unfold unot, tc. rewrite Z.land_spec, testbit_uw, Z.lnot_spec, Z.land_spec by lia.
    destruct (Z.ltb_spec i 16); [|rewrite (testbit_is_u 16 (dirty c)) by done; done].
    by destruct (Z.testbit (dirty c) i), (Z.testbit asked i). }
  assert (Hpre : forall i t', modes c1 !! i = Some t' -> exists t, modes c !! i = Some t /\
    (if asked_mode tc i then tlb_flush_one_mmuidx_locked h now t = Some t' else t' = t)).
  { intros i t' Ht'. pose proof (lookup_lt_Some _ _ _ Ht'). destruct (lookup_lt_is_Some_2 (modes c) i) as [t Ht]; [lia|].
    exists t. split; [done|]. by apply HR. }
  assert (Hempty : forall i t t' A, coherent A t -> modes c !! i = Some t ->
            (if asked_mode tc i then tlb_flush_one_mmuidx_locked h now t = Some t' else t' = t) ->
            asked_mode asked i = true -> coherent ∅ t').
  { intros i t t' A Hct Ht HR' Hi. unfold asked_mode, tc in *. rewrite Z.land_spec, Hi in HR'. simpl in HR'.
    destruct (Z.testbit (dirty c) (Z.of_nat i)) eqn:Ed; [|subst; by eapply Hc].
    by apply (flush_one_ok h now t t' Hh); [apply Hct|]. }
  assert (Hex : forall i t, modes c !! i = Some t -> exists A, coherent A t).
  { intros i t Ht. pose proof (lookup_lt_Some _ _ _ Ht). destruct (lookup_lt_is_Some_2 As i) as [A HA]; [lia|]. eauto. }
  assert (Hkeep : forall i t t' : _, (if asked_mode tc i then tlb_flush_one_mmuidx_locked h now t = Some t' else t' = t) ->
            asked_mode asked i = false -> t' = t).
  { intros i t t' HR' Hi. unfold asked_mode, tc in *. by rewrite Z.land_spec, Hi in HR'. }
  rewrite E. split; simpl.
  - unfold on_asked. rewrite length_imap. split; congruence.
  - by apply land_is_u_l.
  - intros i A t' (A0 & HA0 & ->)%on_asked_lookup Ht'. destruct (Hpre i t' Ht') as (t & Ht & HR').
    destruct (asked_mode asked i) eqn:Ei; [by eapply Hempty; eauto|]. rewrite (Hkeep i t t') by done. by eapply Hm.
  - intros i t' Ht'. rewrite Hbit by lia. intros Hb. destruct (Hpre i t' Ht') as (t & Ht & HR'). destruct (Hex i t Ht) as [A HA].
    fold (asked_mode asked i) in Hb. destruct (asked_mode asked i) eqn:Ei; [by eapply Hempty|].
    rewrite (Hkeep i t t') by done. rewrite andb_true_r in Hb. by eapply Hc.
Qed.

Lemma flush_page_by_ok As h now addr idxmap c c' : cpu_ok As c -> heap_ok h -> is_u 64 addr ->
  tlb_flush_page_by_mmuidx h now addr idxmap c = Some c' ->
  cpu_ok (on_asked idxmap (flush_fills (Z.land addr TARGET_PAGE_MASK)) As) c'.
Proof.
  intros Hok Hh Ha. unfold tlb_flush_page_by_mmuidx, tlb_flush_page_by_mmuidx_async_0.
  destruct (all_modes _ c) as [c1|] eqn:E; cbn [mbind option_bind]; [|done]. intros [= <-]. apply with_jc_ok.
  eapply asked_ok; [done | exact E | | apply flush_fills_empty].
  intros A t t' Hc. by apply flush_page_ok; [|apply page_of|].
Qed.

Lemma flush_range_by_ok As h now addr len idxmap bits c c' : cpu_ok As c -> heap_ok h -> 38 <= bits <= 64 ->
  tlb_flush_range_by_mmuidx_async_0 h now addr len idxmap bits c = Some c' ->
  cpu_ok (on_asked idxmap (range_fills addr len bits) As) c'.
Proof.
  intros Hok Hh Hb. unfold tlb_flush_range_by_mmuidx_async_0.
  destruct (all_modes _ c) as [c1|] eqn:E; cbn [mbind option_bind]; [|done]. intros [= <-].
  assert (cpu_ok (on_asked idxmap (range_fills addr len bits) As) c1);
    [|case_goal; by apply with_jc_ok].
  eapply asked_ok; [done | exact E | | apply range_fills_empty]. intros A t t' Hc. by apply flush_range_ok.
Qed.

Lemma every_mode_ok As g c c' : cpu_ok As c -> all_modes (fun i => on_mode i g) c = Some c' ->
  (forall A t t', coherent A t -> g t = Some t' -> coherent A t') -> cpu_ok As c'.
Proof.
  intros Hok H Hg. pose proof (ok_len _ _ Hok) as [L1 _]. apply (all_modes_by (fun _ => true) (fun _ => g)) in H; [|done].
  eapply modes_by_ok; [done | exact H | done | |].
  - intros j A A' t t' HA HA' _ Hc HR. simplify_eq. by eapply Hg.
  - intros j t t' _ Hc HR. by eapply Hg.
Qed.

Lemma victim_op_ok A t ty addr t' : coherent A t -> is_u 64 addr ->
  fst <$> victim_tlb_hit (Z.to_nat (tlb_index t addr)) ty (Z.land addr TARGET_PAGE_MASK) t = Some t' -> coherent A t'.
Proof.
  intros Hc Ha. destruct (victim_tlb_hit _ _ _ _) as [[t1 hit]|] eqn:E; simpl; [|done]. intros [= <-].
  rewrite <- index_page in E by done. by destruct (victim_swap_ok A t ty _ t1 hit Hc (page_of _ Ha) E).
Qed.

(** Every operation keeps the invariant, with the abstract TLB its specification gives. *)
Lemma run_op_ok As o c c' : cpu_ok As c -> op_ok o -> run_op o c = Some c' -> cpu_ok (spec_op o As) c'.
Proof.
  intros Hok Ho. destruct o as [m f|h now asked|h now addr idxmap|h now addr len idxmap bits|start len|addr|m ty addr].
  - by apply fill_ok.
  - by apply flush_ok.
  - destruct Ho as (Hh & Ha & _). by apply flush_page_by_ok.
  - destruct Ho as (Hh & Ha & _ & Hi & Hb). simpl. unfold tlb_flush_range_by_mmuidx, TARGET_PAGE_BITS.
    destruct (_ && _) eqn:E1; [by apply flush_page_by_ok|]. destruct (Z.ltb_spec bits 12).
    + by apply (flush_ok As h now idxmap).
    + apply flush_range_by_ok; [done..|]. lia.
  - simpl. intros H. eapply every_mode_ok; [done | exact H |]. intros A t t' Hc [= <-]. by apply reset_dirty_ok.
  - simpl. intros H. eapply every_mode_ok; [done | exact H |]. intros A t t' Hc. by apply set_dirty_ok.
  - simpl. intros H%on_mode_by. eapply modes_by_ok; [done | exact H | done | |].
    + intros j A A' t t' HA HA' _ Hc HR. simplify_eq. cbv beta in HR. case_decide; [by eapply victim_op_ok | by subst].
    + intros j t t' _ Hc HR. cbv beta in HR. case_decide; [by eapply victim_op_ok | by subst].
Qed.

(** ** Runs *)

Fixpoint run_ops (os : list op) (c : cpu) : option cpu :=
  match os with [] => Some c | o :: os => c ← run_op o c; run_ops os c end.

Definition spec_ops (os : list op) (As : atlb) : atlb := foldl (fun As o => spec_op o As) As os.

Lemma run_ops_ok os As c c' : cpu_ok As c -> Forall op_ok os -> run_ops os c = Some c' -> cpu_ok (spec_ops os As) c'.
Proof.
  intros Hok Hos. revert As c Hok. induction Hos as [|o os Ho Hos IH]; intros As c Hok; simpl; [by intros [= <-]|].
  destruct (run_op o c) as [c1|] eqn:E; cbn [mbind option_bind]; [|done]. apply IH. by eapply run_op_ok.
Qed.

Definition empty_tlb : atlb := replicate 16 ∅.

Lemma init_ok h now jc c : tlb_init h now (zero_cpu jc) = Some c -> cpu_ok empty_tlb c.
Proof.
  intros H. apply (all_modes_by (fun _ => true) (fun _ => tlb_mmu_init h now)) in H as (E & L & HR); [|done].
  change (length (modes (with_dirty 0 (zero_cpu jc)))) with 16%nat in L.
  assert (Hall : forall i t', modes c !! i = Some t' -> forall A, coherent A t').
  { intros i t' Ht' A. pose proof (lookup_lt_Some _ _ _ Ht') as Hi. rewrite L in Hi.
    assert (HR' : tlb_mmu_init h now zero_mode = Some t') by (apply (HR i); [exact (lookup_replicate_2 16 zero_mode i Hi) | done]).
    unfold tlb_mmu_init in HR'. case_hyp HR'; [|done]. injection HR' as <-. change (Z.shiftl 1 CPU_TLB_DYN_DEFAULT_BITS) with (2 ^ 8).
    destruct (flush_locked_ok (fresh_tables h (2 ^ 8) (set_used 0 (tlb_window_reset now 0 zero_mode)))).
    { by apply fresh_shape. }
    apply silent_coherent; [done..| by vm_compute | exists 0; by vm_compute]. }
  rewrite E in *. split; simpl in *; [by rewrite L | by vm_compute | intros i A t _ Ht; by eapply Hall | intros i t Ht _; by eapply Hall].
Qed.
