(* ===== verification/TlbLookup.v ===== *)
(** * Looking a guest address up

    [mmu_lookup1] and [probe_access_internal] of accel/tcg/cputlb.c: the main table,
    then the victims, then the target's [tlb_fill].  The target's hook is a parameter:
    it leaves through [longjmp] ([None]) or performs TLB operations and says whether the
    page is mapped. *)
From S2P Require Import Prelude BitOps HostUtils Bitmap Tlb TlbCoherence TlbOps.

Section Lookup.
Context (walk : cpu -> Z -> Z -> MMUAccessType -> nat -> bool -> option (list op * bool)).

(** [cc->tcg_ops->tlb_fill]. *)
Definition fill_hook (c : cpu) (addr size : Z) (ty : MMUAccessType) (m : nat) (probe : bool) : option (cpu * bool) :=
  '(os, ok) ← walk c addr size ty m probe;
  c ← run_ops os c;
  Some (c, ok).

(** The static [tlb_fill]: a return without success fails its assertion. *)
Definition tlb_fill (c : cpu) (addr size : Z) (ty : MMUAccessType) (m : nat) : option cpu :=
  '(c, ok) ← fill_hook c addr size ty m false;
  if ok : bool then Some c else None.

Record MMULookupPageData := { l_full : Z; haddr : Z; l_addr : Z; l_flags : Z; l_size : Z }.

(** [mmu_lookup1]; [l_full] is the index of the entry [data->full] points to. *)
Definition mmu_lookup1 (c : cpu) (addr size : Z) (m : nat) (ty : MMUAccessType) :
  option (cpu * MMULookupPageData * bool) :=
  t ← modes c !! m;
  let index := tlb_index t addr in
  e ← tlb_entry t addr;
  let tlb_addr := tlb_read_idx e ty in
  '(c, maybe_resized, index, tlb_addr, e) ←
    (if tlb_hit tlb_addr addr then Some (c, false, index, tlb_addr, e)
     else
       '(t, found) ← victim_tlb_hit (Z.to_nat index) ty (Z.land addr TARGET_PAGE_MASK) t;
       let c := with_modes (<[m := t]> (modes c)) c in
       '(c, maybe_resized) ← (if found : bool then Some (c, false) else c ← tlb_fill c addr size ty m; Some (c, true));
       t ← modes c !! m;
       e ← tlb_entry t addr;
       Some (c, maybe_resized, tlb_index t addr, Z.land (tlb_read_idx e ty) (unot 64 TLB_INVALID_MASK), e));
  t ← modes c !! m;
  full ← fulltlb t !! Z.to_nat index;
  let flags := Z.lor (Z.land tlb_addr (Z.land TLB_FLAGS_MASK (unot 64 TLB_FORCE_SLOW))) (slow_idx (slow_flags full) ty) in
  Some (c, {| l_full := index; haddr := u32 (u32 addr + addend e); l_addr := addr; l_flags := flags; l_size := size |}, maybe_resized).

(** What a probe answers: flags, the host address ([None] for NULL) and the index of the
    full entry ([None] for NULL). *)
Record probed := { pr_flags : Z; phost : option Z; pfull : option Z }.

Definition is_fetch (ty : MMUAccessType) : bool := match ty with MMU_INST_FETCH => true | _ => false end.

Definition probe_access_internal (c : cpu) (addr fault_size : Z) (ty : MMUAccessType) (m : nat) (nonfault force_mmio : bool) :
  option (cpu * probed) :=
  t ← modes c !! m;
  let index := tlb_index t addr in
  e ← tlb_entry t addr;
  let tlb_addr := tlb_read_idx e ty in
  let page_addr := Z.land addr TARGET_PAGE_MASK in
  let flags := Z.land TLB_FLAGS_MASK (unot 32 TLB_FORCE_SLOW) in
  let finish c index tlb_addr e flags :=
    t ← modes c !! m;
    full ← fulltlb t !! Z.to_nat index;
    let flags := Z.lor (Z.land flags tlb_addr) (slow_idx (slow_flags full) ty) in
    if negb (Z.land flags (unot 32 (Z.lor TLB_WATCHPOINT TLB_NOTDIRTY)) =? 0) || negb (is_fetch ty) && force_mmio
    then Some (c, {| pr_flags := TLB_MMIO; phost := None; pfull := Some index |})
    else Some (c, {| pr_flags := flags; phost := Some (u32 (u32 addr + addend e)); pfull := Some index |}) in
  if tlb_hit_page tlb_addr page_addr then finish c index tlb_addr e flags
  else
    '(t, found) ← victim_tlb_hit (Z.to_nat index) ty page_addr t;
    let c := with_modes (<[m := t]> (modes c)) c in
    if found : bool then e ← tlb_entry t addr; finish c index (tlb_read_idx e ty) e flags
    else
      '(c, ok) ← fill_hook c addr fault_size ty m nonfault;
      if ok : bool then
        t ← modes c !! m;
        e ← tlb_entry t addr;
        finish c (tlb_index t addr) (tlb_read_idx e ty) e (Z.land flags (unot 32 TLB_INVALID_MASK))
      else Some (c, {| pr_flags := TLB_INVALID_MASK; phost := None; pfull := None |}).

(** [tlb_vaddr_to_host]. *)
Definition tlb_vaddr_to_host (c : cpu) (addr : Z) (ty : MMUAccessType) (m : nat) : option (cpu * option Z) :=
  '(c, r) ← probe_access_internal c addr 0 ty m true false;
  Some (c, if pr_flags r =? 0 then phost r else None).

End Lookup.

(** ** What the last fill installs *)

Lemma fill_installs f t t' : shape t -> is_u 64 (f_addr f) ->
  set_page_mode (f_addr f) (f_full f) (f_back f) t = Some t' ->
  tlb_entry t' (f_addr f) = Some (f_entry f) /\ fulltlb t' !! Z.to_nat (tlb_index t' (f_addr f)) = Some (f_info f).
Proof.
  intros Hs Hu. unfold set_page_mode. fold (f_lg f). fold (f_page f). case_goal; [done|].
  set (t1 := if f_lg f <=? TARGET_PAGE_BITS then t else _).
  assert (H1 : table t1 = table t /\ fulltlb t1 = fulltlb t /\ fmask t1 = fmask t)
    by (unfold t1, tlb_add_large_page; repeat case_goal; done).
  assert (Hs1 : shape t1) by (apply (shape_same t); try done; unfold t1, tlb_add_large_page; repeat case_goal; done).
  do 2 (case_goal; [done|]). destruct (tlb_entry t1 (f_page f)) as [te|] eqn:Ete; cbn [mbind option_bind]; [|done].
  unfold tlb_flush_vtlb_page_locked. rewrite ones_m1. destruct (vtlb_flush_eq (f_page f) 64 t1) as (u1 & _ & ->).
  destruct (evict _ te (f_page f) _) as [t2|] eqn:Eev; cbn [mbind option_bind]; [|done].
  assert (H2 : table t2 = table t1 /\ fulltlb t2 = fulltlb t1 /\ fmask t2 = fmask t1).
  { unfold evict in Eev. case_hyp Eev; [|by injection Eev as <-].
    destruct (fulltlb _ !! _); simpl in Eev; [by injection Eev as <- | done]. }
  destruct (new_entry (f_page f) (f_full f) (f_back f)) as [tn fn] eqn:En.
  replace tn with (f_entry f) by (unfold f_entry; by rewrite En). replace fn with (f_info f) by (unfold f_info; by rewrite En).
  intros [= <-]. destruct H2 as (Ht & Hf & Hm). unfold tlb_entry. simpl. rewrite Ht, Hf.
  assert (Hi : forall u : tlbm, fmask u = fmask t1 -> tlb_index u (f_addr f) = tlb_index t1 (f_page f)).
  { intros u E. unfold f_page. rewrite index_page by done. unfold tlb_index. by rewrite E. }
  rewrite !Hi by done. destruct (index_in_table t1 (f_page f) Hs1) as (e0 & fe0 & He0 & Hfe0).
  split; apply list_lookup_insert_eq; by eapply lookup_lt_Some.
Qed.

(** ** Answers *)

(** Equal, up to the dirty flag of a store. *)
Definition upto_dirty (ty : MMUAccessType) (a b : Z) : Prop :=
  match ty with MMU_DATA_STORE => Z.lor a TLB_NOTDIRTY = Z.lor b TLB_NOTDIRTY | _ => a = b end.

Definition FLAGS : Z := Z.land TLB_FLAGS_MASK (unot 64 TLB_FORCE_SLOW).

(** The flags of an access through the fill. *)
Definition flags_of (f : fill) (ty : MMUAccessType) : Z :=
  Z.lor (Z.land (Z.land (tlb_read_idx (f_entry f) ty) (unot 64 TLB_INVALID_MASK)) FLAGS) (slow_idx (slow_flags (f_info f)) ty).

(** The fill is the current translation of the address, and allows the access. *)
Definition current (As : atlb) (m : nat) (addr : Z) (ty : MMUAccessType) (f : fill) : Prop :=
  exists A, As !! m = Some A /\ A !! Z.land addr TARGET_PAGE_MASK = Some f /\ tlb_read_idx (f_entry f) ty <> u64 (-1).

(** The host address of a guest address in the fill's page. *)
Definition host_of (f : fill) (addr : Z) : Z := u32 (addend_of (f_back f) + addr mod 2 ^ 12).

Lemma upto_dirty_flags ty a b s : upto_dirty ty a b ->
  upto_dirty ty (Z.lor (Z.land a FLAGS) s) (Z.lor (Z.land b FLAGS) s).
Proof.
  destruct ty; simpl; try by intros ->. intros H.
  assert (Hx : forall x, Z.lor (Z.lor (Z.land x FLAGS) s) TLB_NOTDIRTY
                       = Z.lor (Z.lor (Z.land (Z.lor x TLB_NOTDIRTY) FLAGS) s) TLB_NOTDIRTY).
  { intros x. apply Z.bits_inj'; intros i _. rewrite !Z.lor_spec, !Z.land_spec, !Z.lor_spec. btauto. }
  by rewrite (Hx a), (Hx b), H.
Qed.

Lemma host_exact f e fe addr : represents f e fe -> is_u 64 addr -> is_u 64 (f_addr f) -> f_page f = Z.land addr TARGET_PAGE_MASK ->
  u32 (u32 addr + addend e) = host_of f addr.
Proof.
  intros [] Ha Hu Hp. rewrite rep_addend. unfold f_entry, new_entry.
  destruct (page_flags _ _) as [r w]. repeat (destruct (tlb_set_compare _ _ _)). simpl.
  rewrite Hp, page_mask, hm_land by (done || lia). rewrite uw_add_idemp_l, uw_add_idemp_r. unfold host_of. f_equal.
  pose proof (Z.div_mod addr (2 ^ 12)). lia.
Qed.

Lemma hit_no_invalid a addr : is_u 64 a -> is_u 64 addr -> tlb_hit a addr = true -> Z.land a (unot 64 TLB_INVALID_MASK) = a.
Proof.
  intros Hu Ha H. unfold tlb_hit in H. unfold tlb_hit_page in H. rewrite compare_mask, page_mask in H. apply Z.eqb_eq in H.
  apply Z.bits_inj'; intros i Hi. unfold unot. rewrite Z.land_spec, testbit_uw, Z.lnot_spec by lia.
  change TLB_INVALID_MASK with (2 ^ 11). rewrite Z.pow2_bits_eqb by lia.
  destruct (Z.ltb_spec i 64); [|rewrite (testbit_is_u 64) by done; done].
  destruct (Z.eqb_spec 11 i) as [<-|]; [|btauto].
  apply (f_equal (fun x => Z.testbit x 11)) in H. rewrite !Z.land_spec, !hm_bits in H by lia.
  change ((12 <=? 11) && (11 <? 64)) with false in H. change ((11 <=? 11) && (11 <? 64)) with true in H.
  rewrite andb_false_r, andb_true_r in H. by rewrite <- H.
Qed.

Lemma represents_u64 f e fe ty : is_u 64 (f_addr f) -> represents f e fe -> is_u 64 (tlb_read_idx e ty).
Proof.
  intros Hu []. pose proof (f_entry_u64 f ty Hu) as He. destruct ty; simpl in *; [by rewrite rep_read | | by rewrite rep_code].
  assert (Hw : is_u 64 (Z.lor (addr_write e) TLB_NOTDIRTY)) by (rewrite rep_write; apply lor_is_u; [lia | done | by vm_compute]).
  apply is_u_bits; [lia|]. intros i Hi. pose proof (testbit_is_u 64 _ i Hw Hi) as Hb. rewrite Z.lor_spec in Hb.
  by apply orb_false_iff in Hb as [Hb _].
Qed.

(** An entry of a coherent mode that hits an address answers with its current translation. *)
Lemma entry_answers A t i e fe addr ty : coherent A t -> is_u 64 addr ->
  table t !! i = Some e -> fulltlb t !! i = Some fe -> tlb_hit (tlb_read_idx e ty) addr = true ->
  exists f, A !! Z.land addr TARGET_PAGE_MASK = Some f /\ tlb_read_idx (f_entry f) ty <> u64 (-1) /\ fe = f_info f
    /\ u32 (u32 addr + addend e) = host_of f addr
    /\ upto_dirty ty (tlb_read_idx e ty) (Z.land (tlb_read_idx (f_entry f) ty) (unot 64 TLB_INVALID_MASK)).
Proof.
  intros Hc Ha He Hfe Hhit. pose proof (page_of _ Ha) as Hp.
  assert (Hh : hits e (Z.land addr TARGET_PAGE_MASK)) by (by exists ty).
  destruct (co_main _ _ Hc i e fe _ He Hfe Hp Hh) as [Hold _].
  destruct (holds_page _ _ _ _ _ _ Hp Hh Hold) as (f & Hf & Hpf & Hu & Hr & _). exists f.
  assert (Hhit' : tlb_hit (tlb_read_idx (f_entry f) ty) addr = true) by (unfold tlb_hit in *; by rewrite <- (represents_hit f e fe)).
  split_and!; [done | | apply Hr | by eapply host_exact |].
  - intros E. unfold tlb_hit in Hhit'. rewrite E, hit_m1 in Hhit' by done. done.
  - rewrite (hit_no_invalid _ addr) by (done || by apply f_entry_u64). destruct Hr. destruct ty; simpl; done.
Qed.

(** What a lookup returns is what its fill says. *)
Definition answered (f : fill) (ty : MMUAccessType) (addr : Z) (c : cpu) (m : nat) (d : MMULookupPageData) : Prop :=
  haddr d = host_of f addr /\ upto_dirty ty (l_flags d) (flags_of f ty)
  /\ exists t, modes c !! m = Some t /\ fulltlb t !! Z.to_nat (l_full d) = Some (f_info f).

(** The documented contract of [tlb_fill]: TLB operations only, and success means that
    the page was installed last, with the access allowed. *)
Definition walk_ok (walk : cpu -> Z -> Z -> MMUAccessType -> nat -> bool -> option (list op * bool)) : Prop :=
  forall c addr size ty m probe os ok, walk c addr size ty m probe = Some (os, ok) ->
    Forall op_ok os /\ (ok = true -> exists os' f, os = os' ++ [OpFill m f] /\ f_page f = Z.land addr TARGET_PAGE_MASK
                                 /\ tlb_read_idx (f_entry f) ty <> u64 (-1)).

Lemma run_ops_app os1 os2 c : run_ops (os1 ++ os2) c = (c ← run_ops os1 c; run_ops os2 c).
Proof. revert c. induction os1 as [|o os1 IH]; intros c; simpl; [done|]. by destruct (run_op o c); simpl. Qed.

Lemma spec_ops_app os1 os2 As : spec_ops (os1 ++ os2) As = spec_ops os2 (spec_ops os1 As).
Proof. apply foldl_app. Qed.

(** After a successful fill the entry of the address is the new one. *)
Lemma fill_hook_ok walk As c addr size ty m probe c' : walk_ok walk -> cpu_ok As c -> is_u 64 addr ->
  fill_hook walk c addr size ty m probe = Some (c', true) ->
  exists os f t, cpu_ok (spec_ops os As) c' /\ current (spec_ops os As) m addr ty f /\ modes c' !! m = Some t
    /\ tlb_entry t addr = Some (f_entry f) /\ fulltlb t !! Z.to_nat (tlb_index t addr) = Some (f_info f)
    /\ is_u 64 (f_addr f) /\ f_page f = Z.land addr TARGET_PAGE_MASK /\ walk c addr size ty m probe = Some (os, true).
Proof.
  intros Hw Hok Ha. unfold fill_hook. destruct (walk c addr size ty m probe) as [[os ok]|] eqn:Ew; simpl; [|done].
  destruct (run_ops os c) as [c1|] eqn:Er; cbn [mbind option_bind]; [|done]. intros [= <- ->].
  destruct (Hw _ _ _ _ _ _ _ _ Ew) as [Hos Hex]. destruct (Hex eq_refl) as (os' & f & -> & Hp & Hen).
  pose proof (run_ops_ok _ _ _ _ Hok Hos Er) as Hok1. apply Forall_app in Hos as [Hos' Hf]. apply (proj1 (Forall_singleton op_ok _)) in Hf.
  rewrite run_ops_app in Er. destruct (run_ops os' c) as [c2|] eqn:E2; cbn [mbind option_bind] in Er; [|done].
  pose proof (run_ops_ok _ _ _ _ Hok Hos' E2) as Hok2. destruct Hf as [Hm Hu].
  cbn [run_ops run_op] in Er. unfold tlb_set_page_full, on_mode in Er. simpl in Er.
  destruct (modes c2 !! m) as [t2|] eqn:Et2; simpl in Er; [|done].
  destruct (set_page_mode _ _ _ t2) as [t|] eqn:Es; simpl in Er; [|done]. injection Er as <-.
  destruct (lookup_lt_is_Some_2 (spec_ops os' As) m) as [A HA]; [by rewrite (proj2 (ok_len _ _ Hok2))|].
  destruct (fill_installs f t2 t) as [He Hfe]; [by apply (ok_modes _ _ Hok2 m A) | done | done |].
  assert (Hi : tlb_index t addr = tlb_index t (f_addr f)) by (rewrite <- (index_page t addr), <- Hp by done; by apply index_page).
  exists (os' ++ [OpFill m f]), f, t. split_and!; try done.
  - rewrite spec_ops_app. simpl. exists (<[f_page f := f]> A). rewrite list_lookup_alter_eq, HA, <- Hp, lookup_insert_eq. by split_and!.
  - simpl. apply list_lookup_insert_eq. by eapply lookup_lt_Some.
  - unfold tlb_entry in *. by rewrite Hi.
  - by rewrite Hi.
Qed.

Lemma victim_found i ty p t t' : victim_tlb_hit i ty p t = Some (t', true) ->
  exists e, table t' !! i = Some e /\ tlb_read_idx e ty = p /\ fmask t' = fmask t.
Proof.
  unfold victim_tlb_hit. destruct (list_find _ (vtable t)) as [[vi v]|] eqn:Ev; [|done].
  apply list_find_Some in Ev as (_ & Hcmp & _).
  destruct (table t !! i) as [e|] eqn:Ee; cbn [mbind option_bind]; [|done].
  destruct (fulltlb t !! i) as [f1|]; cbn [mbind option_bind]; [|done].
  destruct (vfulltlb t !! vi) as [f2|]; cbn [mbind option_bind]; [|done].
  intros [= <-]. exists v. split_and!; try done. simpl. apply list_lookup_insert_eq. by eapply lookup_lt_Some.
Qed.

Lemma victim_missed i ty p t t' : victim_tlb_hit i ty p t = Some (t', false) -> t' = t.
Proof.
  unfold victim_tlb_hit. destruct (list_find _ (vtable t)) as [[vi v]|]; [|by intros [= <-]].
  destruct (table t !! i); cbn [mbind option_bind]; [|done]. destruct (fulltlb t !! i); cbn [mbind option_bind]; [|done].
  by destruct (vfulltlb t !! vi).
Qed.

Lemma page_hits addr : is_u 64 addr -> tlb_hit (Z.land addr TARGET_PAGE_MASK) addr = true.
Proof.
  intros Ha. unfold tlb_hit, tlb_hit_page. rewrite compare_mask, page_mask, <- Z.land_assoc, hm_meet by lia. by apply Z.eqb_eq.
Qed.

(** A mode replaced by a coherent one. *)
Lemma swap_mode_ok As c m t t' : cpu_ok As c -> modes c !! m = Some t ->
  (forall A, coherent A t -> coherent A t') -> cpu_ok As (with_modes (<[m := t']> (modes c)) c).
Proof.
  intros [[L1 L2] Hd Hm Hc] Ht HA. assert ((m < length (modes c))%nat) by (by eapply lookup_lt_Some).
  split; simpl; [by rewrite length_insert | done | |].
  - intros i A u HAi Hu. destruct (decide (i = m)) as [->|Hi].
    + rewrite list_lookup_insert_eq in Hu by done. injection Hu as <-. eauto.
    + rewrite list_lookup_insert_ne in Hu by done. eauto.
  - intros i u Hu Hb. destruct (decide (i = m)) as [->|Hi].
    + rewrite list_lookup_insert_eq in Hu by done. injection Hu as <-. eauto.
    + rewrite list_lookup_insert_ne in Hu by done. eauto.
Qed.

(** The end of a lookup whose entry is known. *)
Lemma answered_by As c m t A addr size ty e fe : cpu_ok As c -> modes c !! m = Some t -> As !! m = Some A -> is_u 64 addr ->
  tlb_entry t addr = Some e -> fulltlb t !! Z.to_nat (tlb_index t addr) = Some fe -> tlb_hit (tlb_read_idx e ty) addr = true ->
  exists f, current As m addr ty f /\
    answered f ty addr c m {| l_full := tlb_index t addr; haddr := u32 (u32 addr + addend e); l_addr := addr;
      l_flags := Z.lor (Z.land (tlb_read_idx e ty) FLAGS) (slow_idx (slow_flags fe) ty); l_size := size |}.
Proof.
  intros Hok Ht HA Ha He Hfe Hhit. destruct (entry_answers A t _ e fe addr ty (ok_modes _ _ Hok m A t HA Ht) Ha He Hfe Hhit)
    as (f & Hf & Hen & -> & Hh & Hfl).
  exists f. split; [by exists A|]. split_and!; simpl; [done | | eauto].
  unfold flags_of. by apply upto_dirty_flags.
Qed.

(** The state after a victim was swapped in. *)
Lemma victim_case As c m t t1 addr ty : cpu_ok As c -> modes c !! m = Some t -> is_u 64 addr ->
  victim_tlb_hit (Z.to_nat (tlb_index t addr)) ty (Z.land addr TARGET_PAGE_MASK) t = Some (t1, true) ->
  cpu_ok As (with_modes (<[m := t1]> (modes c)) c) /\ modes (with_modes (<[m := t1]> (modes c)) c) !! m = Some t1
  /\ tlb_index t1 addr = tlb_index t addr
  /\ exists v, tlb_entry t1 addr = Some v /\ tlb_read_idx v ty = Z.land addr TARGET_PAGE_MASK
     /\ tlb_hit (tlb_read_idx v ty) addr = true /\ Z.land (tlb_read_idx v ty) (unot 64 TLB_INVALID_MASK) = tlb_read_idx v ty.
Proof.
  intros Hok Et Ha Ev. destruct (victim_found _ _ _ _ _ Ev) as (v & Hv & Hcmp & Hmask). rewrite <- index_page in Ev by done.
  assert (Hi : tlb_index t1 addr = tlb_index t addr) by (unfold tlb_index; by rewrite Hmask).
  assert (Hhit : tlb_hit (tlb_read_idx v ty) addr = true) by (rewrite Hcmp; by apply page_hits).
  split_and!; [| | done |].
  - apply (swap_mode_ok As c m t t1 Hok Et). intros A1 Hc1. by destruct (victim_swap_ok A1 t ty _ t1 true Hc1 (page_of _ Ha) Ev).
  - simpl. apply list_lookup_insert_eq. by eapply lookup_lt_Some.
  - exists v. split_and!; [unfold tlb_entry; by rewrite Hi | done | done |].
    apply (hit_no_invalid _ addr); [rewrite Hcmp; apply (page_of _ Ha) | done | done].
Qed.

Lemma represents_self f : represents f (f_entry f) (f_info f).
Proof. done. Qed.

Lemma same_modes c m t : modes c !! m = Some t -> with_modes (<[m := t]> (modes c)) c = c.
Proof. intros H. unfold with_modes. rewrite list_insert_id by done. by destruct c. Qed.

Lemma abstract_mode As c m t : cpu_ok As c -> modes c !! m = Some t -> exists A, As !! m = Some A.
Proof.
  intros Hok Ht. apply lookup_lt_is_Some_2. rewrite (proj2 (ok_len _ _ Hok)), <- (proj1 (ok_len _ _ Hok)).
  by eapply lookup_lt_Some.
Qed.

Lemma mmu_lookup1_ok walk As c addr size m ty c' d r : walk_ok walk -> cpu_ok As c -> is_u 64 addr ->
  mmu_lookup1 walk c addr size m ty = Some (c', d, r) ->
  exists os f, cpu_ok (spec_ops os As) c' /\ current (spec_ops os As) m addr ty f /\ answered f ty addr c' m d
    /\ (r = false -> os = []) /\ (os = [] \/ exists c0, walk c0 addr size ty m false = Some (os, true)).
Proof.
  intros Hw Hok Ha. unfold mmu_lookup1. destruct (modes c !! m) as [t|] eqn:Et; cbn [mbind option_bind]; [|done].
  destruct (abstract_mode As c m t Hok Et) as [A HA].
  destruct (tlb_entry t addr) as [e|] eqn:Ee; cbn [mbind option_bind]; [|done].
  destruct (tlb_hit (tlb_read_idx e ty) addr) eqn:Eh; cbn [mbind option_bind].
  { rewrite Et. cbn [mbind option_bind]. destruct (fulltlb t !! _) as [fe|] eqn:Ef; cbn [mbind option_bind]; [|done].
    intros [= <- <- <-]. destruct (answered_by As c m t A addr size ty e fe) as (f & Hcur & Hans); try done.
    exists [], f. split_and!; try done. by left. }
  destruct (victim_tlb_hit _ _ _ t) as [[t1 [|]]|] eqn:Ev; cbn [mbind option_bind]; [| |done].
  - destruct (victim_case As c m t t1 addr ty Hok Et Ha Ev) as (Hok1 & Hm1 & Hi & v & He1 & Hcmp & Hhit & Hni).
    rewrite Hm1. cbn [mbind option_bind]. rewrite He1. cbn [mbind option_bind]. rewrite Hm1. cbn [mbind option_bind].
    destruct (fulltlb t1 !! _) as [fe|] eqn:Ef; cbn [mbind option_bind]; [|done]. intros [= <- <- <-]. rewrite Hni.
    destruct (answered_by As _ m t1 A addr size ty v fe Hok1) as (f & Hcur & Hans); try done. exists [], f. split_and!; try done. by left.
  - apply victim_missed in Ev as ->. rewrite same_modes by done. unfold tlb_fill.
    destruct (fill_hook walk c addr size ty m false) as [[c1 [|]]|] eqn:Efill; cbn [mbind option_bind]; [|done..].
    destruct (fill_hook_ok walk As c addr size ty m false c1 Hw Hok Ha Efill) as (os & f & t1 & Hok1 & Hcur & Hm1 & He1 & Hfe & Hu & Hp & Hwalk).
    rewrite Hm1. cbn [mbind option_bind]. rewrite He1. cbn [mbind option_bind]. rewrite Hm1. cbn [mbind option_bind].
    rewrite Hfe. cbn [mbind option_bind]. intros [= <- <- <-]. exists os, f. split_and!; try done; [|by right; exists c].
    split_and!; simpl; [by eapply host_exact | | eauto]. by destruct ty.
Qed.

(** ** The lookup returns the current translation *)

(** C4: After any sequence of fills, flushes of modes, pages and ranges, dirty updates and
    victim swaps since [tlb_init], a lookup that returns has the host address, flags and
    full entry of the translation last filled for the page and not flushed since.  A page
    flush drops every translation whose guest page, of whatever size, contains the
    address.  A range flush (of fewer than 12 or at least 38 significant bits) drops the
    pages of the range and the large guest pages that contain its last byte; a large
    page that contains only its start is not dropped as a whole.  If the lookup had to
    fill, the translation is the one the target installed. *)
Theorem lookup_current walk h now jc c0 history c addr size m ty c' d resized :
  walk_ok walk -> tlb_init h now (zero_cpu jc) = Some c0 ->
  Forall op_ok history -> run_ops history c0 = Some c -> is_u 64 addr ->
  mmu_lookup1 walk c addr size m ty = Some (c', d, resized) ->
  exists os f, (resized = false -> os = [])
    /\ current (spec_ops (history ++ os) empty_tlb) m addr ty f /\ answered f ty addr c' m d.
Proof.
  intros Hw Hi Hh Hr Ha Hl. pose proof (run_ops_ok _ _ _ _ (init_ok _ _ _ _ Hi) Hh Hr) as Hok.
  destruct (mmu_lookup1_ok walk _ c addr size m ty c' d resized Hw Hok Ha Hl) as (os & f & _ & Hc & Hans & Hos & _).
  exists os, f. by rewrite spec_ops_app.
Qed.

Module LookupDemo.
Definition h0 : heap := {| fits := fun s => s <=? 2 ^ 20; junk_entry := fun _ => zero_entry; junk_full := fun _ => zero_full |}.

Definition ram_back (host : Z) : backing :=
  {| sec_size := TARGET_PAGE_SIZE; sec_xlat := 0; sec_prot := 7; is_ram := true; is_romd := false; ram_ptr := host; ram_addr := 0;
     sec_readonly := false; is_clean := false; section_iotlb := 0; wp_flags := 0 |}.

Definition ram_fill (addr host lg : Z) : fill :=
  {| f_addr := addr;
     f_full := {| xlat_section := 0; phys_addr := addr; attrs := {| byte_swap := false; other_attrs := 0 |}; prot := 7;
                  lg_page_size := lg; slow_flags := {| sf_read := 0; sf_write := 0; sf_code := 0 |} |};
     f_back := ram_back host |}.

(** Every page maps to the host address 0x100000 + its offset. *)
Definition flat_walk (c : cpu) (addr size : Z) (ty : MMUAccessType) (m : nat) (probe : bool) : option (list op * bool) :=
  if (0 <=? addr) && (addr <? 2 ^ 20) && (m <? 16)%nat
  then Some ([OpFill m (ram_fill addr (0x100000 + Z.land addr TARGET_PAGE_MASK) 12)], true) else None.

(** Two pages of the same slot, one evicted to the victims, one of a 2 MiB page, one flushed. *)
Definition history : list op :=
  [ OpFill 0 (ram_fill 0x5123 0x40000000 12); OpFill 0 (ram_fill 0x105000 0x50000000 12);
    OpFill 1 (ram_fill 0x201000 0x60000000 21); OpFill 0 (ram_fill 0x7000 0x70000000 12);
    OpFlushPage h0 5 0x7000 ALL_MMUIDX_BITS ].

Definition start : option cpu := tlb_init h0 0 (zero_cpu None).
Definition state : option cpu := c ← start; run_ops history c.
End LookupDemo.

Module LookupWitness.
Import LookupDemo.
Definition st0 : cpu := default (zero_cpu None) start.
Definition st1 : cpu := default (zero_cpu None) state.
(** The victim of page 0x5000 is swapped back in. *)
Definition looked : option (cpu * MMULookupPageData * bool) := mmu_lookup1 flat_walk st1 0x5040 4 0 MMU_DATA_LOAD.
Definition none : cpu * MMULookupPageData * bool :=
  (zero_cpu None, {| l_full := 0; haddr := 0; l_addr := 0; l_flags := 0; l_size := 0 |}, true).
Definition st2 : cpu := fst (fst (default none looked)).
Definition data : MMULookupPageData := snd (fst (default none looked)).
Definition resized : bool := snd (default none looked).
End LookupWitness.

Lemma ram_fill_idx addr host lg ty : is_u 64 addr -> 12 <= lg ->
  tlb_read_idx (f_entry (LookupDemo.ram_fill addr host lg)) ty = Z.land addr TARGET_PAGE_MASK.
Proof.
  intros Ha Hl. unfold f_entry, new_entry, page_flags, LookupDemo.ram_fill. simpl. unfold TARGET_PAGE_BITS.
  destruct (Z.ltb_spec lg 12); [lia|]. destruct ty; simpl; by rewrite Z.lor_0_r.
Qed.

Lemma flat_walk_ok : walk_ok LookupDemo.flat_walk.
Proof.
  intros c addr size ty m probe os ok. unfold LookupDemo.flat_walk. case_goal; [|done]. intros [= <- <-].
  apply andb_true_iff in Heqb as [[H0%Z.leb_le H1%Z.ltb_lt]%andb_true_iff Hm%Nat.ltb_lt].
  assert (Ha : is_u 64 addr) by (unfold is_u; lia). split.
  - apply Forall_singleton. by split.
  - intros _. eexists [], _. split_and!; [reflexivity | done |]. rewrite ram_fill_idx by (done || lia).
    rewrite page_mask, hm_land by (done || lia). change (u64 (-1)) with (2 ^ 64 - 1). Z.div_mod_to_equations; lia.
Qed.

Lemma h0_ok : heap_ok LookupDemo.h0.
Proof. intros s H%Z.leb_le. lia. Qed.

Lemma demo_history_ok : Forall op_ok LookupDemo.history.
Proof.
  unfold LookupDemo.history. repeat apply Forall_cons_2; [..| apply Forall_nil_2];
    repeat split; try apply h0_ok; try (by vm_compute); simpl; lia.
Qed.

Lemma demo_start : tlb_init LookupDemo.h0 0 (zero_cpu None) = Some LookupWitness.st0.
Proof. apply (some_default (zero_cpu None)). vm_compute. reflexivity. Qed.

(** Running operations from the start of the demonstrations. *)
Lemma demo_runs ops : is_some (c ← LookupDemo.start; run_ops ops c) = true ->
  run_ops ops LookupWitness.st0 = Some (default (zero_cpu None) (c ← LookupDemo.start; run_ops ops c)).
Proof. unfold LookupDemo.start. rewrite demo_start. cbn [mbind option_bind]. apply some_default. Qed.

Lemma demo_looked : mmu_lookup1 LookupDemo.flat_walk LookupWitness.st1 0x5040 4 0 MMU_DATA_LOAD =
  Some (LookupWitness.st2, LookupWitness.data, LookupWitness.resized).
Proof.
  unfold LookupWitness.st2, LookupWitness.data, LookupWitness.resized, LookupWitness.looked.
  apply some_triple. vm_compute. reflexivity.
Qed.

Lemma lookup_current_witness : LookupWitness.resized = false /\ haddr LookupWitness.data = 0x40000040 /\
  exists os f, (LookupWitness.resized = false -> os = [])
    /\ current (spec_ops (LookupDemo.history ++ os) empty_tlb) 0 0x5040 MMU_DATA_LOAD f
    /\ answered f MMU_DATA_LOAD 0x5040 LookupWitness.st2 0 LookupWitness.data.
Proof.
  split; [vm_compute; reflexivity|]. split; [vm_compute; reflexivity|].
  apply (lookup_current LookupDemo.flat_walk LookupDemo.h0 0 None LookupWitness.st0 LookupDemo.history LookupWitness.st1 0x5040 4 0
    MMU_DATA_LOAD LookupWitness.st2 LookupWitness.data LookupWitness.resized).
  - exact flat_walk_ok.
  - exact demo_start.
  - exact demo_history_ok.
  - apply (demo_runs LookupDemo.history). vm_compute. reflexivity.
  - by vm_compute.
  - exact demo_looked.
Defined.
