(* ===== verification/TlbSafety.v ===== *)
(** * What the TLB lets generated code do

    A filled page is found again; only plain RAM is reached without the slow path;
    resetting the dirty state diverts every write to the range; a page flush also drops
    the jump cache entries of the page; whole flushes succeed and keep the table sizes
    within their bounds; and the places where the code does less than it says. *)
From S2P Require Import Prelude BitOps HostUtils Bitmap Tlb TlbCoherence TlbOps TlbLookup.

(** ** Filled pages hit *)

Lemma last_fill history m f c0 c : run_ops (history ++ [OpFill m f]) c0 = Some c ->
  exists c1, run_ops history c0 = Some c1 /\ run_op (OpFill m f) c1 = Some c.
Proof.
  rewrite run_ops_app. destruct (run_ops history c0) as [c1|]; cbn [mbind option_bind]; [|done]. intros H. exists c1. split; [done|].
  cbn [run_ops] in H. destruct (run_op (OpFill m f) c1); cbn [mbind option_bind] in H; congruence.
Qed.

(** A page that was just filled is found again, without another fill: every access
    the fill allows, and whose comparator is not marked invalid, returns the host address
    in the filled page, the flags of the fill and its full entry. *)
Theorem filled_page_hits walk h now jc c0 history m f c addr size ty :
  tlb_init h now (zero_cpu jc) = Some c0 -> Forall op_ok (history ++ [OpFill m f]) ->
  run_ops (history ++ [OpFill m f]) c0 = Some c ->
  is_u 64 addr -> f_page f = Z.land addr TARGET_PAGE_MASK -> tlb_hit (tlb_read_idx (f_entry f) ty) addr = true ->
  exists t, modes c !! m = Some t /\ fulltlb t !! Z.to_nat (tlb_index t addr) = Some (f_info f) /\
  mmu_lookup1 walk c addr size m ty =
    Some (c, {| l_full := tlb_index t addr; haddr := host_of f addr; l_addr := addr; l_flags := flags_of f ty; l_size := size |}, false).
Proof.
  intros Hi Hh Hr Ha Hp Hhit. destruct (last_fill _ _ _ _ _ Hr) as (c1 & Hr1 & Hf).
  apply Forall_app in Hh as [Hh Hm]. apply (proj1 (Forall_singleton op_ok _)) in Hm as [Hm Hu].
  pose proof (run_ops_ok _ _ _ _ (init_ok _ _ _ _ Hi) Hh Hr1) as Hok.
  cbn [run_op] in Hf. unfold tlb_set_page_full, on_mode in Hf. simpl in Hf.
  destruct (modes c1 !! m) as [t1|] eqn:Et1; simpl in Hf; [|done].
  destruct (set_page_mode _ _ _ t1) as [t|] eqn:Es; simpl in Hf; [|done]. injection Hf as <-.
  destruct (abstract_mode _ _ _ _ Hok Et1) as [A HA].
  destruct (fill_installs f t1 t) as [He Hfe]; [by apply (ok_modes _ _ Hok m A) | done | done |].
  assert (Hix : tlb_index t addr = tlb_index t (f_addr f)) by (rewrite <- (index_page t addr), <- Hp by done; by apply index_page).
  assert (Hmt : modes (with_modes (<[m := t]> (modes c1)) (with_dirty (Z.lor (dirty c1) (Z.shiftl 1 (Z.of_nat m))) c1)) !! m = Some t)
    by (simpl; apply list_lookup_insert_eq; by eapply lookup_lt_Some).
  exists t. rewrite Hix. split_and!; [exact Hmt | done |].
  unfold mmu_lookup1. rewrite Hmt. cbn [mbind option_bind]. unfold tlb_entry in *. rewrite Hix, He. cbn [mbind option_bind].
  rewrite Hhit. cbn [mbind option_bind]. rewrite Hmt. cbn [mbind option_bind]. rewrite Hfe. cbn [mbind option_bind].
  rewrite (host_exact f (f_entry f) (f_info f)) by (done || apply represents_self). do 3 f_equal.
  unfold flags_of, FLAGS. by rewrite (hit_no_invalid _ addr) by (done || by apply f_entry_u64).
Qed.

Module FillDemo.
Import LookupDemo.
Definition history : list op := [OpFill 0 (ram_fill 0x5123 0x40000000 12)].
Definition f : fill := ram_fill 0x105000 0x50000000 12.
Definition state : option cpu := c ← start; run_ops (history ++ [OpFill 0 f]) c.
Definition st : cpu := default (zero_cpu None) state.
Definition no_walk (c : cpu) (addr size : Z) (ty : MMUAccessType) (m : nat) (probe : bool) : option (list op * bool) := None.
End FillDemo.

Lemma filled_page_hits_witness : exists t, modes FillDemo.st !! 0%nat = Some t
  /\ fulltlb t !! Z.to_nat (tlb_index t 0x105ffc) = Some (f_info FillDemo.f)
  /\ mmu_lookup1 FillDemo.no_walk FillDemo.st 0x105ffc 4 0 MMU_DATA_STORE =
    Some (FillDemo.st, {| l_full := tlb_index t 0x105ffc; haddr := host_of FillDemo.f 0x105ffc; l_addr := 0x105ffc;
      l_flags := flags_of FillDemo.f MMU_DATA_STORE; l_size := 4 |}, false).
Proof.
  apply (filled_page_hits FillDemo.no_walk LookupDemo.h0 0 None LookupWitness.st0 FillDemo.history 0 FillDemo.f FillDemo.st).
  - exact demo_start.
  - repeat apply Forall_cons_2; [..| apply Forall_nil_2]; (split; [lia | by vm_compute]).
  - apply (demo_runs (FillDemo.history ++ [OpFill 0 FillDemo.f])). vm_compute. reflexivity.
  - by vm_compute.
  - vm_compute. reflexivity.
  - vm_compute. reflexivity.
Defined.

(** ** Only plain RAM is reached without the slow path *)

Lemma compare_bit p x j : page p -> is_u 12 x -> 0 <= j < 12 -> Z.testbit (Z.lor p x) j = Z.testbit x j.
Proof.
  intros [Hu Hp] Hx Hj. rewrite Z.lor_spec. replace (Z.testbit p j) with false; [done|].
  symmetry. rewrite <- (Z.mod_pow2_bits_low p 12), Hp, Z.testbit_0_l by lia. done.
Qed.

(** A comparator equal to its page, but for the dirty flag, was enabled with no other flag. *)
Lemma compare_plain p fl en : page p -> is_u 12 fl ->
  Z.lor (fst (tlb_set_compare p fl en)) TLB_NOTDIRTY = Z.lor p TLB_NOTDIRTY ->
  en = true /\ Z.land fl (Z.lor (Z.land TLB_FLAGS_MASK (unot 64 TLB_NOTDIRTY)) TLB_SLOW_FLAGS_MASK) = 0.
Proof.
  intros Hp Hf H. destruct en.
  - split; [done|]. simpl in H. set (g := Z.land fl TLB_FLAGS_MASK) in *.
    assert (Hg : is_u 12 g) by (by apply land_is_u_l).
    assert (Hn : is_u 12 TLB_NOTDIRTY) by (by vm_compute). assert (Hs : is_u 12 TLB_FORCE_SLOW) by (by vm_compute).
    assert (Hbit : forall x j, Z.lor (Z.lor p x) TLB_NOTDIRTY = Z.lor p TLB_NOTDIRTY -> is_u 12 x -> 0 <= j < 12 -> j <> 10 ->
              Z.testbit x j = false).
    { intros x j E Hx Hj H10. apply (f_equal (fun y => Z.testbit y j)) in E. rewrite <- Z.lor_assoc in E.
      rewrite (compare_bit p (Z.lor x _)) in E by (try apply lor_is_u; done || lia). rewrite (compare_bit p) in E by (done || lia).
      change TLB_NOTDIRTY with (2 ^ 10) in E. rewrite Z.lor_spec, !Z.pow2_bits_false in E by lia. by rewrite orb_false_r in E. }
    destruct (Z.eqb_spec (Z.land fl TLB_SLOW_FLAGS_MASK) 0) as [E0|E0]; cbn [fst] in H.
    + rewrite Z.land_lor_distr_r, E0, Z.lor_0_r, Z.land_assoc. fold g. apply Z.bits_inj'; intros j Hj.
      rewrite Z.land_spec, Z.testbit_0_l. destruct (Z.le_gt_cases 12 j); [by rewrite (testbit_is_u 12 g) by done|].
      destruct (Z.eq_dec j 10) as [->|]; [by rewrite andb_comm|]. by rewrite (Hbit g j) by (done || lia).
    + rewrite <- (Z.lor_assoc p g) in H. assert (E := Hbit _ 7 H ltac:(by apply lor_is_u) ltac:(lia) ltac:(lia)).
      rewrite Z.lor_spec in E. by rewrite orb_comm in E.
  - exfalso. simpl in H. apply (f_equal (fun y => Z.testbit y 0)) in H.
    rewrite (compare_bit p) in H by (done || lia || by vm_compute). by vm_compute in H.
Qed.

Definition has (b : backing) (p : Z) : bool := negb (Z.land (sec_prot b) p =? 0).
Definition watched (b : backing) (p : Z) : bool := negb (Z.land (wp_flags b) p =? 0).

(** What a backing must be for an access to skip the slow path. *)
Definition plain (f : fill) (ty : MMUAccessType) : bool :=
  let b := f_back f in
  (12 <=? f_lg f) && negb (byte_swap (attrs (f_full f))) &&
  match ty with
  | MMU_DATA_LOAD => has b PAGE_READ && (is_ram b || is_romd b) && negb (watched b BP_MEM_READ)
  | MMU_INST_FETCH => has b PAGE_EXEC && (is_ram b || is_romd b)
  | MMU_DATA_STORE =>
      has b PAGE_WRITE && is_ram b && negb (sec_readonly b) && negb (has b PAGE_WRITE_INV) && negb (watched b BP_MEM_WRITE)
  end.

Lemma f_entry_plain f ty : is_u 64 (f_addr f) ->
  Z.lor (tlb_read_idx (f_entry f) ty) TLB_NOTDIRTY = Z.lor (f_page f) TLB_NOTDIRTY -> plain f ty = true.
Proof.
  intros Hu. pose proof (page_of _ Hu) as Hp. fold (f_page f) in Hp.
  unfold f_entry, new_entry, plain. fold (has (f_back f)). fold (watched (f_back f)).
  destruct (page_flags_u12 (f_full f) (f_back f)) as [Hr Hw]. rewrite (Z.leb_antisym (f_lg f) 12).
  destruct (page_flags (f_full f) (f_back f)) as [r w] eqn:E. cbn [fst snd] in Hr, Hw.
  assert (Hwp : is_u 12 TLB_WATCHPOINT) by (by vm_compute). assert (Hiv : is_u 12 TLB_INVALID_MASK) by (by vm_compute).
  pose proof (compare_plain (f_page f) r (has (f_back f) PAGE_EXEC) Hp Hr) as H1.
  pose proof (compare_plain (f_page f) (or_if (watched (f_back f) BP_MEM_READ) TLB_WATCHPOINT r) (has (f_back f) PAGE_READ) Hp
    ltac:(auto using or_if_u12)) as H2.
  pose proof (compare_plain (f_page f) (or_if (watched (f_back f) BP_MEM_WRITE) TLB_WATCHPOINT
    (or_if (has (f_back f) PAGE_WRITE_INV) TLB_INVALID_MASK w)) (has (f_back f) PAGE_WRITE) Hp ltac:(auto using or_if_u12)) as H3.
  unfold has, watched in *.
  repeat (destruct (tlb_set_compare _ _ _)). cbn [fst] in *. unfold page_flags in E. fold (f_lg f) in E. unfold TARGET_PAGE_BITS in E.
  destruct ty; simpl; intros H.
  - destruct (H2 H) as [-> Hf]. clear - E Hf. revert E Hf.
    destruct (f_lg f <? 12), (byte_swap (attrs (f_full f))), (is_ram (f_back f)), (is_romd (f_back f)); simpl; intros [= <- _]; destruct (negb _); vm_compute; congruence.
  - destruct (H3 H) as [Hen Hf]. clear - E Hf Hen. revert E Hf. rewrite Hen.
    generalize (negb (Z.land (sec_prot (f_back f)) PAGE_WRITE_INV =? 0)) (negb (Z.land (wp_flags (f_back f)) BP_MEM_WRITE =? 0)).
    intros wi wm.
    destruct (f_lg f <? 12), (byte_swap (attrs (f_full f))), (is_ram (f_back f)), (is_romd (f_back f)), (sec_readonly (f_back f)), (is_clean (f_back f)); simpl; intros [= _ <-];
      destruct wi, wm; vm_compute; congruence.
  - destruct (H1 H) as [-> Hf]. clear - E Hf. revert E Hf.
    destruct (f_lg f <? 12), (byte_swap (attrs (f_full f))), (is_ram (f_back f)), (is_romd (f_back f)); simpl; intros [= <- _]; vm_compute; congruence.
Qed.

(** The entry the generated code compares with, when it compares equal. *)
Lemma fast_entry A t addr e ty : coherent A t -> is_u 64 addr -> tlb_entry t addr = Some e ->
  tlb_read_idx e ty = Z.land addr TARGET_PAGE_MASK ->
  exists f, A !! Z.land addr TARGET_PAGE_MASK = Some f /\ tlb_read_idx (f_entry f) ty <> u64 (-1) /\ plain f ty = true
    /\ u32 (u32 addr + addend e) = u32 (ram_ptr (f_back f) + sec_xlat (f_back f) + addr mod 2 ^ 12).
Proof.
  intros Hc Ha He Hcmp. destruct (index_in_table t addr (co_shape _ _ Hc)) as (e0 & fe & _ & Hfe).
  assert (Hhit : tlb_hit (tlb_read_idx e ty) addr = true) by (rewrite Hcmp; by apply page_hits).
  assert (Hh : hits e (Z.land addr TARGET_PAGE_MASK)) by (by exists ty).
  destruct (co_main _ _ Hc _ e fe _ He Hfe (page_of _ Ha) Hh) as [Hold _].
  destruct (holds_page _ _ _ _ _ _ (page_of _ Ha) Hh Hold) as (f & Hf & Hpf & Hu & Hr & _). exists f.
  assert (Hpl : plain f ty = true).
  { apply f_entry_plain; [done|]. rewrite Hpf, <- Hcmp. destruct Hr. destruct ty; simpl; congruence. }
  split_and!; [done | | done |].
  - intros E. unfold tlb_hit in Hhit. rewrite (represents_hit f e fe), E, hit_m1 in Hhit by (done || by apply page_of). done.
  - rewrite (host_exact f e fe) by done. unfold host_of, addend_of.
    replace (is_ram (f_back f) || is_romd (f_back f)) with true; [by rewrite uw_add_idemp_l|].
    unfold plain in Hpl. symmetry. destruct ty; destruct (is_ram (f_back f)), (is_romd (f_back f)); try done;
      rewrite ?andb_false_r in Hpl; done.
Qed.

(** ** Loops over the modes return *)

Lemma for_modes_total (asked : nat -> bool) g n i c : (i + n <= length (modes c))%nat ->
  (forall j t, (i <= j)%nat -> modes c !! j = Some t -> asked j = true -> is_Some (g j t)) ->
  is_Some (for_modes n i (fun i c => if asked i then on_mode i (g i) c else Some c) c).
Proof.
  revert i c. induction n as [|n IH]; intros i c Hl Hg; simpl; [by eexists|].
  destruct (asked i) eqn:Ea; cbn [mbind option_bind].
  - destruct (lookup_lt_is_Some_2 (modes c) i) as [t Ht]; [lia|]. destruct (Hg i t (le_n _) Ht Ea) as [t' Ht'].
    unfold on_mode. rewrite Ht. cbn [mbind option_bind]. rewrite Ht'. cbn [mbind option_bind].
    apply IH; simpl; [rewrite length_insert; lia|]. intros j u Hj Hu. rewrite list_lookup_insert_ne in Hu by lia. apply Hg; [lia|done].
  - apply IH; [lia|]. intros j t Hj. apply Hg. lia.
Qed.

Lemma every_mode_total g c : length (modes c) = 16%nat -> (forall t, t ∈ modes c -> is_Some (g t)) ->
  is_Some (all_modes (fun i => on_mode i g) c).
Proof.
  intros Hl Hg. apply (for_modes_total (fun _ => true) (fun _ => g)); [rewrite Hl; by vm_compute|].
  intros j t _ Ht _. apply Hg. by eapply list_elem_of_lookup_2.
Qed.

(** ** Resetting the dirty state *)

Definition WRITE_SLOW : Z := Z.lor TLB_INVALID_MASK (Z.lor TLB_MMIO (Z.lor TLB_DISCARD_WRITE TLB_NOTDIRTY)).

(** The host address of the page the entry writes to. *)
Definition host_page (e : CPUTLBEntry) : Z := u32 (Z.land (addr_write e) TARGET_PAGE_MASK + addend e).

Lemma land_u32 x y : is_u 32 y -> Z.land (u32 x) y = Z.land x y.
Proof.
  intros Hy. apply Z.bits_inj'; intros i Hi. rewrite !Z.land_spec, testbit_uw by lia.
  destruct (Z.ltb_spec i 32); [done|]. rewrite (testbit_is_u 32 y) by done. btauto.
Qed.

Lemma u32_land_u32 x y : u32 (Z.land (u32 x) y) = u32 (Z.land x y).
Proof. apply Z.bits_inj'; intros i Hi. rewrite !testbit_uw, !Z.land_spec, testbit_uw by lia. by destruct (i <? 32). Qed.

Lemma reset_dirty_entry s l e : let e' := tlb_reset_dirty_range_locked s l e in
  Z.land (addr_write e') WRITE_SLOW = 0 -> l <= u32 (host_page e' - s).
Proof.
  unfold tlb_reset_dirty_range_locked. fold WRITE_SLOW. rewrite land_u32, u32_land_u32, uw_add_idemp_l by (by vm_compute).
  fold (host_page e). destruct (Z.eqb_spec (Z.land (addr_write e) WRITE_SLOW) 0); [|done].
  destruct (Z.ltb_spec (u32 (host_page e - s)) l); [|by intros _].
  simpl. intros H0. apply (f_equal (fun x => Z.testbit x 10)) in H0. rewrite Z.land_spec, Z.lor_spec in H0.
  change (Z.testbit TLB_NOTDIRTY 10) with true in H0. by rewrite orb_true_r in H0.
Qed.

(** C24: After [tlb_reset_dirty] of a host range, in every mode, every entry of the table
    and of the victims whose writes go straight to memory has its host page outside the
    range; the call returns whatever the TLB holds, and coherence is kept. *)
Theorem reset_dirty_protects h now jc c0 history c start len :
  tlb_init h now (zero_cpu jc) = Some c0 -> Forall op_ok history -> run_ops history c0 = Some c ->
  exists c', tlb_reset_dirty start len c = Some c' /\ cpu_ok (spec_ops history empty_tlb) c' /\
  forall m t e, modes c' !! m = Some t -> e ∈ table t \/ e ∈ vtable t ->
    Z.land (addr_write e) WRITE_SLOW = 0 -> u32 len <= u32 (host_page e - u32 start).
Proof.
  intros Hi Hh Hr. pose proof (run_ops_ok _ _ _ _ (init_ok _ _ _ _ Hi) Hh Hr) as Hok. pose proof (ok_len _ _ Hok) as [Hl _].
  destruct (every_mode_total (fun t => Some (reset_dirty_mode (u32 start) (u32 len) t)) c Hl) as [c' Hc']; [by eexists|].
  exists c'. split; [exact Hc'|]. split; [exact (run_op_ok _ (OpResetDirty start len) _ _ Hok I Hc')|].
  apply (all_modes_by (fun _ => true) (fun _ t => Some (reset_dirty_mode (u32 start) (u32 len) t))) in Hc' as (_ & L & HR); [|done].
  intros m t' e Ht'. destruct (lookup_lt_is_Some_2 (modes c) m) as [t Ht]; [rewrite <- L; by eapply lookup_lt_Some|].
  destruct (abstract_mode _ _ _ _ Hok Ht) as [A HA]. specialize (HR m t t' Ht Ht'). injection HR as <-.
  rewrite reset_table by apply (ok_modes _ _ Hok m A t HA Ht).
  intros [(e0 & -> & _)%list_elem_of_fmap|(e0 & -> & _)%list_elem_of_fmap]; apply reset_dirty_entry.
Qed.

Lemma reset_dirty_protects_witness : exists c', tlb_reset_dirty 0x50000000 0x1000 FillDemo.st = Some c'
  /\ cpu_ok (spec_ops (FillDemo.history ++ [OpFill 0 FillDemo.f]) empty_tlb) c' /\
  forall m t e, modes c' !! m = Some t -> e ∈ table t \/ e ∈ vtable t ->
    Z.land (addr_write e) WRITE_SLOW = 0 -> u32 0x1000 <= u32 (host_page e - u32 0x50000000).
Proof.
  apply (reset_dirty_protects LookupDemo.h0 0 None LookupWitness.st0).
  - exact demo_start.
  - repeat apply Forall_cons_2; [..| apply Forall_nil_2]; (split; [lia | by vm_compute]).
  - apply (demo_runs (FillDemo.history ++ [OpFill 0 FillDemo.f])). vm_compute. reflexivity.
Defined.

(** ** Whole flushes return, at a bounded size *)

(** A use counter that did not drift: at most 2^25 entries above or below zero, as a wrapped
    [size_t]. *)
Definition steady (n : Z) : Prop := 0 <= n <= 2 ^ 25 \/ 2 ^ 32 - 2 ^ 25 <= n < 2 ^ 32.

Lemma rate_wrapped k n : 6 <= k <= 20 -> 2 ^ 32 - 2 ^ 25 <= n < 2 ^ 32 -> 70 < u32 (n * 100) / 2 ^ k.
Proof.
  intros Hk Hn. assert (2 ^ k <= 2 ^ 20) by (apply Z.pow_le_mono_r; lia). pose proof (pow2_pos k ltac:(lia)).
  replace (u32 (n * 100)) with (n * 100 - 99 * 2 ^ 32).
  - apply Z.le_succ_l. apply Z.div_le_lower_bound; lia.
  - unfold uw. apply (Z.mod_unique_pos _ _ 99); lia.
Qed.

Lemma wanted_bounded k wm ex : 6 <= k <= 20 -> steady wm -> exists j, 6 <= j <= 20 /\ wanted_size (2 ^ k) wm ex = Some (2 ^ j).
Proof.
  intros Hk Hs. assert (Hb : 2 ^ k <= 2 ^ 20) by (apply Z.pow_le_mono_r; lia). pose proof (pow2_pos k ltac:(lia)).
  assert (Hdiv : forall a b, 0 < b -> udiv a b = Some (a / b)) by (intros a b Hb0; unfold udiv; by rewrite (proj2 (Z.eqb_neq b 0)) by lia).
  unfold wanted_size. rewrite (Hdiv _ (2 ^ k)) by done. cbn [mbind option_bind].
  assert (Hdouble : Z.min (u32 (Z.shiftl (2 ^ k) 1)) (Z.shiftl 1 CPU_TLB_DYN_MAX_BITS) = 2 ^ Z.min (k + 1) 20).
  { rewrite Z.shiftl_mul_pow2, uw_small by (lia || unfold is_u; lia).
    replace (2 ^ k * 2 ^ 1) with (2 ^ (k + 1)) by (rewrite Z.pow_add_r by lia; lia). apply (pow2_min (k + 1) 20); lia. }
  destruct (Z.ltb_spec 70 (u32 (wm * 100) / 2 ^ k)) as [H70|H70]; [exists (Z.min (k + 1) 20); rewrite Hdouble; split; [lia|done]|].
  destruct Hs as [Hs|Hs]; [|pose proof (rate_wrapped k wm Hk Hs); lia].
  rewrite uw_small in * by (unfold is_u; lia).
  destruct (Z.ltb_spec (wm * 100 / 2 ^ k) 30) as [H30|H30]; [|exists k; by split; [lia|]].
  destruct ex; [|exists k; by split; [lia|]]. cbn [andb].
  assert (Hwm : wm * 100 < 30 * 2 ^ k) by (pose proof (Z.div_mod (wm * 100) (2 ^ k)); pose proof (Z.mod_pos_bound (wm * 100) (2 ^ k)); nia).
  destruct (pow2ceil_spec wm) as (j & Hj & -> & Hc & Hc1); [unfold is_u; lia|]. pose proof (pow2_pos j ltac:(lia)).
  assert (Hjk : j < k).
  { destruct (Z.le_gt_cases wm 1); [rewrite Hc1 by lia; lia|]. apply (Z.pow_lt_mono_r_iff 2); lia. }
  assert (Hj1 : 2 ^ (j + 1) = 2 ^ j * 2) by (rewrite Z.pow_add_r by lia; lia).
  assert (2 ^ (j + 1) <= 2 ^ k) by (apply Z.pow_le_mono_r; lia).
  rewrite (uw_small 32 (2 ^ j)) by (unfold is_u; lia). rewrite Hdiv by done. cbn [mbind option_bind].
  change (Z.shiftl 1 CPU_TLB_DYN_MIN_BITS) with (2 ^ 6). case_goal.
  - rewrite uw_small, <- Hj1, pow2_max by (lia || unfold is_u; lia). exists (Z.max (j + 1) 6). split; [lia|done].
  - rewrite pow2_max by lia. exists (Z.max j 6). split; [lia|done].
Qed.

Lemma try_sizes_total fuel h j : 6 <= j -> j - 6 <= Z.of_nat fuel -> fits h 64 = true ->
  exists i, 6 <= i <= j /\ try_sizes fuel h (2 ^ j) = Some (2 ^ i).
Proof.
  intros Hj Hf H64. revert j Hj Hf. induction fuel as [|fuel IH]; intros j Hj Hf; simpl.
  - replace j with 6 by lia. change (2 ^ 6) with 64. rewrite H64. exists 6. by split; [lia|].
  - destruct (fits h (2 ^ j)) eqn:E; [exists j; by split; [lia|]|].
    change (Z.shiftl 1 CPU_TLB_DYN_MIN_BITS) with (2 ^ 6). destruct (Z.eq_dec j 6) as [->|]; [change (2 ^ 6) with 64 in E; congruence|].
    destruct (Z.eqb_spec (2 ^ j) (2 ^ 6)) as [Heq|_]; [apply Z.pow_inj_r in Heq; lia|].
    rewrite Z.shiftr_div_pow2 by lia. replace (2 ^ j / 2 ^ 1) with (2 ^ (j - 1)) by (apply Z.pow_sub_r; lia).
    rewrite Z.max_l by (apply Z.pow_le_mono_r; lia). destruct (IH (j - 1)) as (i & Hi & ->); [lia..|]. exists i. by split; [lia|].
Qed.

#[local] Arguments try_sizes : simpl never.

(** A mode that flushes within bounds. *)
Definition bounded (t : tlbm) : Prop := tlb_n_entries t <= 2 ^ 20 /\ steady (n_used_entries t) /\ steady (window_max_entries t).

Lemma flush_one_total h now t : shape t -> bounded t -> fits h 64 = true ->
  exists t' i, tlb_flush_one_mmuidx_locked h now t = Some t' /\ 6 <= i <= 20 /\ tlb_n_entries t' = 2 ^ i.
Proof.
  intros (k & Hk & Hm & _) (Hn & Hu & Hw) H64. destruct (mask_geometry t k Hk Hm) as (Hnk & _). rewrite Hnk in Hn.
  apply Z.pow_le_mono_r_iff in Hn; [|lia..]. unfold tlb_flush_one_mmuidx_locked, tlb_mmu_resize_locked. rewrite Hnk.
  set (wm := if window_max_entries t <? n_used_entries t then _ else _).
  set (ex := _ <? now). assert (Hwm : steady wm) by (unfold wm; by case_goal).
  destruct (wanted_bounded k wm ex ltac:(lia) Hwm) as (j & Hj & ->). cbn [mbind option_bind]. case_goal.
  - eexists _, k. split; [reflexivity|]. split; [lia|]. rewrite <- Hnk. by destruct ex.
  - destruct (try_sizes_total 32 h j ltac:(lia) ltac:(lia) H64) as (i & Hi & ->). cbn [mbind option_bind].
    eexists _, i. split; [reflexivity|]. split; [lia|].
    assert (2 ^ i <= 2 ^ 20) by (apply Z.pow_le_mono_r; lia). pose proof (pow2_pos i ltac:(lia)).
    apply (mask_geometry _ i); [lia|]. simpl. unfold mask_of, CPU_TLB_ENTRY_BITS.
    rewrite Z.shiftl_mul_pow2, !uw_small by (unfold is_u; rewrite ?uw_small by (unfold is_u; lia); lia). done.
Qed.

(** Coherence with the empty TLB is silence. *)
Lemma coherent_silent t : coherent ∅ t -> silent t.
Proof.
  intros Hc. destruct (co_shape _ _ Hc) as (k & _ & _ & Ht & Hf & Hv & Hvf & _).
  split; intros e p (i & He)%list_elem_of_lookup_1 Hp Hh; pose proof (lookup_lt_Some _ _ _ He).
  - destruct (lookup_lt_is_Some_2 (fulltlb t) i) as [fe Hfe]; [lia|].
    destruct (co_main _ _ Hc i e fe p He Hfe Hp Hh) as [(f & Hn & _) _]. by rewrite lookup_empty in Hn.
  - destruct (lookup_lt_is_Some_2 (vfulltlb t) i) as [fe Hfe]; [lia|].
    destruct (co_victim _ _ Hc i e fe p He Hfe Hp Hh) as (f & Hn & _). by rewrite lookup_empty in Hn.
Qed.

Lemma bounded_size t : shape t -> bounded t -> exists i, 6 <= i <= 20 /\ tlb_n_entries t = 2 ^ i.
Proof.
  intros (k & Hk & Hm & _) (Hn & _). destruct (mask_geometry t k Hk Hm) as (Hnk & _). rewrite Hnk in Hn.
  apply Z.pow_le_mono_r_iff in Hn; [|lia..]. exists k. by split; [lia|].
Qed.

(** C23: If the smallest table can be allocated, every table has at most 2^20 entries and
    the use and window counters are within 2^25 of zero (as wrapped 32-bit numbers, see
    [bounded]; [used_counter_wraps] shows how they drift), flushing any set of modes of a
    reachable state returns.  Every mode asked for is
    then empty, the others are as they were, all dirty bits asked for are clear, and every
    table has a power of two entries between 2^6 and 2^20. *)
Theorem flush_total h now jc c0 history c h1 now1 asked :
  tlb_init h now (zero_cpu jc) = Some c0 -> Forall op_ok history -> run_ops history c0 = Some c ->
  heap_ok h1 -> fits h1 64 = true -> is_u 16 asked -> (forall t, t ∈ modes c -> bounded t) ->
  exists c', tlb_flush_by_mmuidx_async_work h1 now1 asked c = Some c' /\ Z.land (dirty c') asked = 0 /\
  forall m t, modes c' !! m = Some t ->
    (exists i, 6 <= i <= 20 /\ tlb_n_entries t = 2 ^ i) /\
    (if asked_mode asked m then silent t else modes c !! m = Some t).
Proof.
  intros Hi Hh Hr Hh1 H64 Ha Hb. pose proof (run_ops_ok _ _ _ _ (init_ok _ _ _ _ Hi) Hh Hr) as Hok.
  assert (Hsh : forall m t, modes c !! m = Some t -> shape t /\ bounded t).
  { intros m t Ht. destruct (abstract_mode _ _ _ _ Hok Ht) as [A HA]. split; [apply (ok_modes _ _ Hok m A t HA Ht)|].
    apply Hb. by eapply list_elem_of_lookup_2. }
  unfold tlb_flush_by_mmuidx_async_work. set (tc := Z.land asked (dirty c)). assert (Htc : is_u 16 tc) by (by apply land_is_u_l).
  destruct (flush_work_total 16 h1 now1 tc (with_dirty (Z.land (dirty c) (unot 16 tc)) c)) as [c1 Hc1]; [done | apply Hok | lia | |].
  { intros j t Ht _. destruct (Hsh j t Ht) as [Hs Hbd]. destruct (flush_one_total h1 now1 t Hs Hbd H64) as (t' & i & -> & _). by eexists. }
  rewrite Hc1. cbn [mbind option_bind]. apply flush_work_by in Hc1 as (E & L & HR); [|done]. simpl in L, HR.
  eexists. split; [reflexivity|].
  match goal with |- context [if ?b then with_counts ?f ?p ?e ?x else ?y] => set (c' := if b then with_counts f p e x else y) end.
  assert (Ec : modes c' = modes c1 /\ dirty c' = dirty c1) by (unfold c'; by case_goal). destruct Ec as [-> ->].
  split.
  - rewrite E. simpl. apply Z.bits_inj'; intros i Hi'. unfold unot, tc. rewrite !Z.land_spec, testbit_uw, Z.lnot_spec, Z.land_spec, Z.testbit_0_l by lia.
    destruct (Z.ltb_spec i 16); [|by rewrite (testbit_is_u 16 asked), andb_false_r by done].
    by destruct (Z.testbit (dirty c) i), (Z.testbit asked i).
  - intros m t' Ht'. destruct (lookup_lt_is_Some_2 (modes c) m) as [t Ht]; [rewrite <- L; by eapply lookup_lt_Some|].
    destruct (Hsh m t Ht) as [Hs Hbd]. specialize (HR m t t' Ht Ht'). unfold asked_mode, tc in *. rewrite Z.land_spec in HR.
    destruct (Z.testbit asked (Z.of_nat m)) eqn:Em; simpl in HR.
    + destruct (Z.testbit (dirty c) (Z.of_nat m)) eqn:Ed.
      * destruct (flush_one_total h1 now1 t Hs Hbd H64) as (t2 & i & E2 & Hi2 & Hn2). rewrite HR in E2. injection E2 as <-.
        split; [by exists i|]. by apply (flush_one_ok h1 now1 t t' Hh1 Hs HR).
      * subst t'. split; [by apply bounded_size|]. apply coherent_silent. by apply (ok_clean _ _ Hok m t Ht Ed).
    + subst t'. split; [by apply bounded_size | done].
Qed.

Module BoundDemo.
Definition steadyb (n : Z) : bool := ((0 <=? n) && (n <=? 2 ^ 25)) || ((2 ^ 32 - 2 ^ 25 <=? n) && (n <? 2 ^ 32)).
Definition boundedb (t : tlbm) : bool :=
  (tlb_n_entries t <=? 2 ^ 20) && steadyb (n_used_entries t) && steadyb (window_max_entries t).
End BoundDemo.

Lemma steadyb_ok n : BoundDemo.steadyb n = true -> steady n.
Proof. unfold BoundDemo.steadyb, steady. rewrite orb_true_iff, !andb_true_iff, !Z.leb_le, Z.ltb_lt. lia. Qed.

Lemma boundedb_ok ts : forallb BoundDemo.boundedb ts = true -> forall t, t ∈ ts -> bounded t.
Proof.
  intros H t Ht. rewrite forallb_forall in H. specialize (H t (proj1 (list_elem_of_In _ _) Ht)).
  unfold BoundDemo.boundedb in H. apply andb_true_iff in H as [[H1 H2]%andb_true_iff H3]. apply Z.leb_le in H1.
  split_and!; [done | by apply steadyb_ok..].
Qed.

Lemma flush_total_witness : exists c', tlb_flush_by_mmuidx_async_work LookupDemo.h0 7 3 LookupWitness.st1 = Some c'
  /\ Z.land (dirty c') 3 = 0 /\ forall m t, modes c' !! m = Some t ->
    (exists i, 6 <= i <= 20 /\ tlb_n_entries t = 2 ^ i) /\
    (if asked_mode 3 m then silent t else modes LookupWitness.st1 !! m = Some t).
Proof.
  apply (flush_total LookupDemo.h0 0 None LookupWitness.st0 LookupDemo.history).
  - exact demo_start.
  - exact demo_history_ok.
  - apply (demo_runs (LookupDemo.history)). vm_compute. reflexivity.
  - exact h0_ok.
  - reflexivity.
  - by vm_compute.
  - apply boundedb_ok. vm_compute. reflexivity.
Defined.

(** ** The jump cache *)

#[local] Arguments clear_slots : simpl never.

Lemma clear_slots_lookup n i m k :
  clear_slots n i m !! k = if decide (i <= k < i + Z.of_nat n) then None else m !! k.
Proof.
  revert i m. induction n as [|n IH]; intros i m.
  - by rewrite decide_False by lia.
  - change (clear_slots (S n) i m) with (clear_slots n (i + 1) (delete i m)). rewrite IH. repeat case_decide; try lia; try done.
    + assert (k = i) as -> by lia. apply lookup_delete_eq.
    + apply lookup_delete_ne. lia.
Qed.

(** Blocks of one page hash into the 128 slots from the hash of the page. *)
Lemma hash_in_page pc p : is_u 64 pc -> is_u 64 p -> pc / 2 ^ 12 = p / 2 ^ 12 ->
  tb_jmp_cache_hash_page p <= tb_jmp_cache_hash_func pc < tb_jmp_cache_hash_page p + 128.
Proof.
  intros Hpc Hp E. unfold tb_jmp_cache_hash_page, tb_jmp_cache_hash_func.
  change (TARGET_PAGE_BITS - TB_JMP_PAGE_BITS) with 5. change TB_JMP_ADDR_MASK with (Z.ones 7).
  change TB_JMP_PAGE_MASK with (Z.shiftl (Z.ones 7) 7).
  set (g := Z.land (Z.shiftr (hash_mix p) 5) (Z.shiftl (Z.ones 7) 7)).
  assert (Hg : Z.land (Z.shiftr (hash_mix pc) 5) (Z.shiftl (Z.ones 7) 7) = g).
  { unfold g, hash_mix. change (TARGET_PAGE_BITS - TB_JMP_PAGE_BITS) with 5.
    apply Z.bits_inj'; intros i Hi. rewrite !Z.land_spec, !Z.shiftr_spec, !Z.lxor_spec, !Z.shiftr_spec, Z.shiftl_spec by lia.
    destruct (Z.lt_ge_cases i 7); [rewrite (Z.testbit_neg_r _ (i - 7)) by lia; btauto|].
    assert (Hb : forall j, 12 <= j -> Z.testbit pc j = Z.testbit p j).
    { intros j Hj. replace j with ((j - 12) + 12) by lia. rewrite <- !Z.div_pow2_bits by lia. by rewrite E. }
    by rewrite !Hb by lia. }
  rewrite Hg. rewrite Z.land_ones by lia. set (l := hash_mix pc mod 2 ^ 7). assert (Hl : 0 <= l < 2 ^ 7) by (apply Z.mod_pos_bound; lia).
  assert (Hgu : is_u 14 g) by (apply land_is_u_r; [lia | by vm_compute]). unfold is_u in Hgu.
  assert (Hd : Z.land g l = 0).
  { apply Z.bits_inj'; intros i Hi. unfold g. rewrite !Z.land_spec, Z.shiftl_spec, Z.testbit_0_l by lia.
    destruct (Z.lt_ge_cases i 7); [rewrite (Z.testbit_neg_r _ (i - 7)) by lia; btauto|].
    rewrite (testbit_is_u 7 l) by (done || lia). btauto. }
  rewrite <- (add_disjoint g l Hd). rewrite !uw_small by (unfold is_u; lia). lia.
Qed.

Lemma clear_page_lookup p m k : tb_jmp_cache_clear_page p (Some m) =
  Some (clear_slots (Z.to_nat TB_JMP_PAGE_SIZE) (tb_jmp_cache_hash_page p) m) /\
  clear_slots (Z.to_nat TB_JMP_PAGE_SIZE) (tb_jmp_cache_hash_page p) m !! k =
  if decide (tb_jmp_cache_hash_page p <= k < tb_jmp_cache_hash_page p + 128) then None else m !! k.
Proof. split; [done | apply clear_slots_lookup]. Qed.

(** The slots of the jump cache a page owns. *)
Definition slot_of (p k : Z) : Prop := tb_jmp_cache_hash_page p <= k < tb_jmp_cache_hash_page p + 128.

(** C25: After a page flush no block that starts in the page, or in the page before it, is
    left in the jump cache, for any hash collision; the slots of other pages keep what
    they hold. *)
Theorem page_flush_clears_jumps h now addr idxmap c c' m : length (modes c) = 16%nat -> tb_jmp_cache c = Some m ->
  is_u 64 addr -> tlb_flush_page_by_mmuidx h now addr idxmap c = Some c' ->
  let p := Z.land addr TARGET_PAGE_MASK in let q := u64 (p - TARGET_PAGE_SIZE) in
  exists m', tb_jmp_cache c' = Some m' /\
    (forall pc, is_u 64 pc -> Z.land pc TARGET_PAGE_MASK = p \/ Z.land pc TARGET_PAGE_MASK = q ->
       m' !! tb_jmp_cache_hash_func pc = None) /\
    (forall k, ~ slot_of p k -> ~ slot_of q k -> m' !! k = m !! k).
Proof.
  intros Hl Hjc Ha. unfold tlb_flush_page_by_mmuidx, tlb_flush_page_by_mmuidx_async_0.
  destruct (all_modes _ c) as [c1|] eqn:E; cbn [mbind option_bind]; [|done]. intros [= <-].
  apply (all_modes_by _ (fun _ => tlb_flush_page_locked h now (Z.land addr TARGET_PAGE_MASK))) in E as (E & _); [|done].
  rewrite E. cbn [tb_jmp_cache with_jc with_modes]. rewrite Hjc.
  set (p := Z.land addr TARGET_PAGE_MASK). set (q := u64 (p - TARGET_PAGE_SIZE)).
  destruct (page_of _ Ha) as [Hpu Hpm]. fold p in Hpu, Hpm.
  assert (Hqu : is_u 64 q) by (apply uw_range; lia).
  eexists. split; [reflexivity|]. split.
  - intros pc Hpc Hin.
    assert (Hpg : forall x, is_u 64 x -> x mod 2 ^ 12 = 0 -> Z.land pc TARGET_PAGE_MASK = x -> slot_of x (tb_jmp_cache_hash_func pc)).
    { intros x Hx Hx0 Ex. apply hash_in_page; [done..|]. apply page_eq; [done..|]. by rewrite Ex, page_page. }
    rewrite (proj2 (clear_page_lookup p _ _)). case_decide as H1; [done|]. rewrite (proj2 (clear_page_lookup q m _)).
    case_decide as H2; [done|]. exfalso. destruct Hin as [Hin|Hin]; [apply H1 | apply H2]; apply Hpg; try done.
    change (uw 12 q = 0). unfold q. rewrite uw_uw_le by lia. change TARGET_PAGE_SIZE with (2 ^ 12). unfold uw.
    Z.div_mod_to_equations; lia.
  - intros k Hp Hq. rewrite (proj2 (clear_page_lookup p _ _)), decide_False by done.
    by rewrite (proj2 (clear_page_lookup q m _)), decide_False.
Qed.

Module JumpDemo.
Definition pc : Z := 0x5678.
Definition cache : gmap Z Z := <[tb_jmp_cache_hash_func pc := 1]> (<[tb_jmp_cache_hash_func 0x9000 := 2]> ∅).
Definition st : cpu := with_jc (Some cache) FillDemo.st.
Definition st' : cpu := default (zero_cpu None) (tlb_flush_page_by_mmuidx LookupDemo.h0 9 0x5123 ALL_MMUIDX_BITS st).
End JumpDemo.

Lemma page_flush_clears_jumps_witness : exists m', tb_jmp_cache JumpDemo.st' = Some m' /\
    (forall pc, is_u 64 pc -> Z.land pc TARGET_PAGE_MASK = 0x5000 \/ Z.land pc TARGET_PAGE_MASK = u64 (0x5000 - TARGET_PAGE_SIZE) ->
       m' !! tb_jmp_cache_hash_func pc = None) /\
    (forall k, ~ slot_of 0x5000 k -> ~ slot_of (u64 (0x5000 - TARGET_PAGE_SIZE)) k -> m' !! k = JumpDemo.cache !! k).
Proof.
  apply (page_flush_clears_jumps LookupDemo.h0 9 0x5123 ALL_MMUIDX_BITS JumpDemo.st JumpDemo.st' JumpDemo.cache).
  - reflexivity.
  - reflexivity.
  - by vm_compute.
  - apply (some_default (zero_cpu None)). vm_compute. reflexivity.
Defined.

(** ** Two places where the code does less than it says *)

Module CountDemo.
Import LookupDemo.
(** Two pages of one slot are filled and flushed again: the second fill moved the first
    page to the victims and uncounted it. *)
Definition ops : list op :=
  [ OpFill 0 (ram_fill 0x5000 0x40000000 12); OpFill 0 (ram_fill 0x105000 0x50000000 12);
    OpFlushPage h0 1 0x5000 1; OpFlushPage h0 1 0x105000 1 ].
Definition st : cpu := default (zero_cpu None) (c ← start; run_ops ops c).
Definition flushed_st : cpu := default (zero_cpu None) (tlb_flush h0 2 st).
Definition used (c : cpu) : Z := default 0 (n_used_entries <$> modes c !! 0%nat).
Definition size (c : cpu) : Z := default 0 (tlb_n_entries <$> modes c !! 0%nat).
End CountDemo.

(** The use counter counts a victim down twice, when it is evicted and when it is
    flushed: an empty TLB is left with a counter of 2^32 - 1, which the next flush takes
    for a use rate above 70%, doubling the table. *)
Theorem used_counter_wraps :
  CountDemo.used CountDemo.st = 2 ^ 32 - 1 /\ CountDemo.size CountDemo.st = 256
  /\ forallb tlb_entry_is_empty (default [] (table <$> modes CountDemo.st !! 0%nat)) = true
  /\ CountDemo.size CountDemo.flushed_st = 512.
Proof. vm_compute. repeat split. Qed.

Module RangeDemo.
Import LookupDemo.
(** Two 4 KiB entries of one 2 MiB guest page, in a table grown to 512 entries. *)
Definition big (addr : Z) : fill := ram_fill addr (0x40000000 + addr) 21.
Definition history : list op := CountDemo.ops ++ [OpFlush h0 2 1; OpFill 0 (big 0x200000); OpFill 0 (big 0x3ff000)].
Definition start : cpu := default (zero_cpu None) (c ← start; run_ops history c).
(** A page flush, and a range flush of that page and the next one. *)
Definition by_page : cpu := default (zero_cpu None) (tlb_flush_page_by_mmuidx h0 5 0x3ff000 1 start).
Definition by_range : cpu := default (zero_cpu None) (tlb_flush_range_by_mmuidx h0 5 0x3ff000 0x2000 1 64 start).
(** Whether the TLB still answers for an address, without filling. *)
Definition answers (c : cpu) (addr : Z) : bool :=
  match mmu_lookup1 (fun _ _ _ _ _ _ => None) c addr 4 0 MMU_DATA_LOAD with Some _ => true | None => false end.
End RangeDemo.

(** [tlb_flush_range_locked] tests only the end of the range against the large pages.
    Two entries of one 2 MiB page are in the TLB; flushing the last 4 KiB of that page by
    [tlb_flush_page] drops both, flushing a range that starts with those 4 KiB and ends
    after the 2 MiB page leaves the other entry answering. *)
Theorem range_flush_misses_large :
  covers (RangeDemo.big 0x200000) 0x3ff000 = true
  /\ RangeDemo.answers RangeDemo.start 0x200000 = true /\ RangeDemo.answers RangeDemo.start 0x3ff000 = true
  /\ RangeDemo.answers RangeDemo.by_page 0x200000 = false /\ RangeDemo.answers RangeDemo.by_page 0x3ff000 = false
  /\ RangeDemo.answers RangeDemo.by_range 0x200000 = true /\ RangeDemo.answers RangeDemo.by_range 0x3ff000 = false.
Proof. vm_compute. repeat split. Qed.
