(* ===== verification/TlbDirty.v ===== *)
(** * Stores that skip the slow path

    Generated code stores straight to memory when the write comparator of an entry is
    exactly the page.  The comparator carries [TLB_NOTDIRTY] when the page was clean at
    the fill, until [tlb_set_dirty], and again after [tlb_reset_dirty] of its host
    page: so a store that skips the slow path goes to a page that is open, in the
    sense of a history of these three operations. *)
From S2P Require Import Prelude BitOps HostUtils Bitmap Tlb TlbCoherence TlbOps TlbLookup TlbSafety.

(** ** Open pages *)

(** The pages of each mode that stores may reach without the slow path. *)
Abbreviation opened := (list (gset Z)).

(** The host page of the fill lies in the range that is reset. *)
Definition in_reset (start len : Z) (f : fill) : bool := u32 (addend_of (f_back f) - u32 start) <? u32 len.

Definition stays_open (start len : Z) (A : gmap Z fill) (p : Z) : bool :=
  match A !! p with Some f => negb (in_reset start len f) | None => false end.

(** A fill opens its page unless the memory was clean; [tlb_set_dirty] opens the page in
    every mode; [tlb_reset_dirty] closes the pages whose translation lies in the range. *)
Definition opened_op (o : op) (As : atlb) (Ds : opened) : opened :=
  match o with
  | OpFill m f => alter (fun D => if is_clean (f_back f) then D ∖ {[f_page f]} else {[f_page f]} ∪ D) m Ds
  | OpSetDirty addr => (fun D => {[Z.land addr TARGET_PAGE_MASK]} ∪ D) <$> Ds
  | OpResetDirty start len => imap (fun i D => filter (fun p => stays_open start len (As !!! i) p = true) D) Ds
  | _ => Ds
  end.

Fixpoint opened_ops (os : list op) (As : atlb) (Ds : opened) : opened :=
  match os with
  | [] => Ds
  | o :: os => opened_ops os (spec_op o As) (opened_op o As Ds)
  end.

Definition none_opened : opened := replicate 16 ∅.

(** ** Entries that let stores through *)

Definition lets_store (t : tlbm) (p : Z) : Prop := exists e, (e ∈ table t \/ e ∈ vtable t) /\ addr_write e = p.

Lemma write_hits e p : page p -> addr_write e = p -> hits e p.
Proof.
  intros Hp E. exists MMU_DATA_STORE. cbn. rewrite E. pose proof (page_hits p (proj1 Hp)) as H. unfold tlb_hit in H. by rewrite !(page_page p Hp) in H.
Qed.

(** The translation such an entry came from. *)
Lemma lets_store_fill A t p : coherent A t -> page p -> forall e, (e ∈ table t \/ e ∈ vtable t) -> addr_write e = p ->
  exists f fe, A !! p = Some f /\ f_page f = p /\ is_u 64 (f_addr f) /\ represents f e fe.
Proof.
  intros Hc Hp e He E. pose proof (write_hits e p Hp E) as Hh.
  pose proof (co_shape _ _ Hc) as (k & _ & _ & Ht & Hf & Hv & Hvf & _).
  destruct He as [(i & Hi)%list_elem_of_lookup_1|(i & Hi)%list_elem_of_lookup_1]; pose proof (lookup_lt_Some _ _ _ Hi).
  - destruct (lookup_lt_is_Some_2 (fulltlb t) i) as [fe Hfe]; [lia|].
    destruct (co_main _ _ Hc i e fe p Hi Hfe Hp Hh) as [Hold _].
    destruct (holds_page _ _ _ _ _ _ Hp Hh Hold) as (f & ? & ? & ? & ? & _). by exists f, fe.
  - destruct (lookup_lt_is_Some_2 (vfulltlb t) i) as [fe Hfe]; [lia|].
    pose proof (co_victim _ _ Hc i e fe p Hi Hfe Hp Hh) as Hold.
    destruct (holds_page _ _ _ _ _ _ Hp Hh Hold) as (f & ? & ? & ? & ? & _). by exists f, fe.
Qed.

(** The write comparator of a fill is bare only if the memory was not clean. *)
Lemma fill_bare f : is_u 64 (f_addr f) -> addr_write (f_entry f) = f_page f -> is_clean (f_back f) = false.
Proof.
  intros Hu E. destruct (is_clean (f_back f)) eqn:Ec; [|done]. exfalso.
  pose proof (page_of _ Hu) as Hp. fold (f_page f) in Hp.
  assert (Hpl : plain f MMU_DATA_STORE = true) by (apply f_entry_plain; [done | cbn; by rewrite E]).
  unfold plain in Hpl. rewrite !andb_true_iff, !negb_true_iff in Hpl. destruct Hpl as [_ [[[[Hw Hram] Hro] _] _]].
  unfold f_entry, new_entry in E. destruct (page_flags_u12 (f_full f) (f_back f)) as [_ Hfl].
  assert (Hbit : Z.testbit (snd (page_flags (f_full f) (f_back f))) 10 = true).
  { unfold page_flags. unfold has in Hw. rewrite Hram, Hro, Ec, Hw. cbn [snd or_if]. rewrite Z.lor_spec. apply orb_true_r. }
  destruct (page_flags (f_full f) (f_back f)) as [r w]. cbn [snd] in Hbit, Hfl.
  assert (Hset : forall fl, is_u 12 fl -> Z.testbit fl 10 = true -> Z.testbit (fst (tlb_set_compare (f_page f) fl true)) 10 = true).
  { intros fl Hu12 Hb. unfold tlb_set_compare. destruct (Z.land fl TLB_SLOW_FLAGS_MASK =? 0); cbn [fst]; rewrite !Z.lor_spec, Z.land_spec, Hb;
      change (Z.testbit TLB_FLAGS_MASK 10) with true; by rewrite ?orb_true_r. }
  destruct (tlb_set_compare (f_page f) r _) as [code sc]. destruct (tlb_set_compare (f_page f) (or_if _ _ r) _) as [read sr].
  destruct (tlb_set_compare (f_page f) (or_if _ _ (or_if _ _ w)) _) as [write sw] eqn:Es. cbn [fst addr_write] in E. subst write.
  unfold has in Hw. rewrite Hw in Es. cbn [negb] in Es.
  match type of Es with tlb_set_compare _ ?fl _ = _ => pose proof (Hset fl) as Hs end. rewrite Es in Hs. cbn [fst] in Hs.
  assert (Hz : Z.testbit (f_page f) 10 = false) by (rewrite <- (Z.mod_pow2_bits_low _ 12), (proj2 Hp), Z.testbit_0_l by lia; done).
  rewrite Hs in Hz; [done | | by destruct (negb _), (negb _); cbn [or_if]; rewrite ?Z.lor_spec, Hbit].
  apply or_if_u12; [by vm_compute|]. by apply or_if_u12; [vm_compute|].
Qed.

(** ** One mode *)

(** A fill replaces the slot of its page and drops the victims of its page. *)
Lemma fill_lets A f t t' p : coherent A t -> is_u 64 (f_addr f) -> set_page_mode (f_addr f) (f_full f) (f_back f) t = Some t' ->
  page p -> lets_store t' p -> (p = f_page f /\ is_clean (f_back f) = false) \/ (p <> f_page f /\ lets_store t p).
Proof.
  intros Hc Hu. pose proof (page_of _ Hu) as Hpp. fold (f_page f) in Hpp. unfold set_page_mode. fold (f_lg f). fold (f_page f).
  case_goal; [done|]. set (t1 := if f_lg f <=? TARGET_PAGE_BITS then t else _).
  assert (Ht1 : exists la lm, t1 = set_large la lm t).
  { unfold t1. destruct (_ <=? _); [exists (large_page_addr t), (large_page_mask t); by destruct t|].
    unfold tlb_add_large_page. destruct (_ =? _); by eexists _, _. }
  destruct Ht1 as (la & lm & ->). do 2 (case_goal; [done|]).
  destruct (tlb_entry (set_large la lm t) (f_page f)) as [te|] eqn:Ete; cbn [mbind option_bind]; [|done].
  set (i := Z.to_nat (tlb_index (set_large la lm t) (f_page f))).
  destruct (evict i te (f_page f) _) as [t2|] eqn:Eev; cbn [mbind option_bind]; [|done].
  destruct (new_entry (f_page f) (f_full f) (f_back f)) as [tn fn] eqn:En.
  replace tn with (f_entry f) by (unfold f_entry; by rewrite En). intros [= <-] Hp (e & He & E). cbn in He.
  unfold tlb_flush_vtlb_page_locked in Eev. rewrite ones_m1 in Eev.
  destruct (vtlb_flush_eq (f_page f) 64 (set_large la lm t)) as (u1 & Hu1 & Ev). rewrite Ev in Eev. clear Ev.
  apply evict_eq in Eev as (u & vi & vt & vf & -> & Hlt & Hlf & _ & Hvic); [| |done].
  2: { apply (shape_same t); [apply Hc|..]; cbn in *; rewrite ?length_fmap; done. }
  cbn in He, Hlt, Hlf, Hvic. rewrite length_fmap in Hlt. pose proof (write_hits e p Hp E) as Hh.
  pose proof (co_shape _ _ Hc) as (k & _ & _ & Ht & Hf & Hv & Hvf & _).
  destruct He as [(j & Hj)%list_elem_of_lookup_1|(j & Hj)%list_elem_of_lookup_1].
  - destruct (decide (j = i)) as [->|Hne].
    + rewrite list_lookup_insert_eq in Hj by (by eapply lookup_lt_Some). injection Hj as <-. left.
      destruct Hh as [ty Hty]. pose proof (f_entry_hits f ty p Hu Hp Hty) as ->. split; [done|]. by apply fill_bare.
    + rewrite list_lookup_insert_ne in Hj by done. right. pose proof (lookup_lt_Some _ _ _ Hj).
      destruct (lookup_lt_is_Some_2 (fulltlb t) j) as [fe Hfe]; [lia|]. destruct (co_main _ _ Hc j e fe p Hj Hfe Hp Hh) as [_ Hi].
      split; [intros ->; by apply Hne|]. exists e. split; [left; by eapply list_elem_of_lookup_2 | done].
  - pose proof (lookup_lt_Some _ _ _ Hj). destruct (lookup_lt_is_Some_2 vf j) as [fe Hfe]; [lia|]. right.
    destruct (Hvic j e fe Hj Hfe) as [[He' _]|(-> & _ & Hn)].
    + rewrite list_lookup_fmap in He'. destruct (vtable t !! j) as [e0|] eqn:E0; simplify_eq/=.
      destruct (flushed_hits (f_page f) 64 e0 _ ltac:(lia) Hp Hh) as [Heq Hn]. split; [congruence|].
      exists e0. split; [right; by eapply list_elem_of_lookup_2 | by rewrite Heq].
    + split; [intros ->; by apply Hn|]. exists te. split; [left; by eapply list_elem_of_lookup_2 | done].
Qed.

(** Nothing becomes reachable. *)
Definition only_closes (t t' : tlbm) : Prop := forall p, page p -> lets_store t' p -> lets_store t p.

Lemma closes_refl t : only_closes t t.
Proof. by intros p. Qed.

Lemma flush_one_closes h now A t t' : heap_ok h -> coherent A t -> tlb_flush_one_mmuidx_locked h now t = Some t' -> only_closes t t'.
Proof.
  intros Hh Hc H p Hp (e & He & E). destruct (flush_one_ok h now t t' Hh (co_shape _ _ Hc) H) as (_ & _ & Hall).
  by destruct (lets_store_fill ∅ t' p (Hall ∅) Hp e He E) as (f & fe & Hf & _).
Qed.

Lemma flush_slot_closes q bits t t' : 0 <= bits <= 64 -> flush_slot q (Z.ones bits) t = Some t' -> only_closes t t'.
Proof.
  intros Hb (e0 & u & He0 & _ & ->)%flush_slot_eq p Hp (e & He & E). cbn in He.
  assert (Hfl : forall e1, addr_write (flushed q bits e1) = p -> flushed q bits e1 = e1)
    by (intros e1 E1; by destruct (flushed_hits q bits e1 p Hb Hp (write_hits _ _ Hp E1))).
  destruct He as [(j & Hj)%list_elem_of_lookup_1|(e1 & -> & He1)%list_elem_of_fmap].
  - destruct (decide (j = Z.to_nat (tlb_index t q))) as [->|Hne].
    + rewrite list_lookup_insert_eq in Hj by (by eapply lookup_lt_Some). injection Hj as <-.
      exists e0. split; [left; by eapply list_elem_of_lookup_2 | by rewrite <- (Hfl e0 E)].
    + rewrite list_lookup_insert_ne in Hj by done. exists e. split; [left; by eapply list_elem_of_lookup_2 | done].
  - exists e1. split; [by right | by rewrite <- (Hfl e1 E)].
Qed.

Lemma flush_pages_closes bits n q t t' : 0 <= bits <= 64 -> flush_pages n q (Z.ones bits) t = Some t' -> only_closes t t'.
Proof.
  intros Hb. revert q t. induction n as [|n IH]; intros q t; cbn; [intros [= <-]; apply closes_refl|].
  destruct (flush_slot q (Z.ones bits) t) as [u|] eqn:E; cbn [mbind option_bind]; [|done]. intros H p Hp Hl.
  eapply flush_slot_closes; [done | exact E | done |]. by eapply IH.
Qed.

Lemma flush_page_closes h now A q t t' : heap_ok h -> coherent A t -> tlb_flush_page_locked h now q t = Some t' -> only_closes t t'.
Proof.
  intros Hh Hc. unfold tlb_flush_page_locked. rewrite ones_m1. case_goal; [by apply (flush_one_closes h now A)|].
  by apply flush_slot_closes.
Qed.

Lemma flush_range_closes h now A addr len bits t t' : heap_ok h -> 0 <= bits <= 64 -> coherent A t ->
  tlb_flush_range_locked h now addr len bits t = Some t' -> only_closes t t'.
Proof.
  intros Hh Hb Hc. unfold tlb_flush_range_locked.
  rewrite range_mask by lia. do 2 (case_goal; [by apply (flush_one_closes h now A)|]). by apply flush_pages_closes.
Qed.

(** A victim and the main entry change places. *)
Lemma victim_closes i ty q t t' hit : victim_tlb_hit i ty q t = Some (t', hit) -> only_closes t t'.
Proof.
  unfold victim_tlb_hit. destruct (list_find _ (vtable t)) as [[vi v]|] eqn:Ev; [|intros [= <- _]; apply closes_refl].
  apply list_find_Some in Ev as (Hv & _ & _). destruct (table t !! i) as [e|] eqn:Ee; cbn [mbind option_bind]; [|done].
  destruct (fulltlb t !! i); cbn [mbind option_bind]; [|done]. destruct (vfulltlb t !! vi); cbn [mbind option_bind]; [|done].
  intros [= <- _] p Hp (e' & He' & E). exists e'. split; [|done]. cbn in He'.
  destruct He' as [(j & Hj)%list_elem_of_lookup_1|(j & Hj)%list_elem_of_lookup_1].
  - apply list_lookup_insert_Some in Hj as [(_ & <- & _)|[_ Hj]]; [right|left]; by eapply list_elem_of_lookup_2.
  - apply list_lookup_insert_Some in Hj as [(_ & <- & _)|[_ Hj]]; [left|right]; by eapply list_elem_of_lookup_2.
Qed.

(** The dirty flag is set where the host page is in the range, ... *)
Lemma reset_lets A s l t p : coherent A t -> page p -> lets_store (reset_dirty_mode (u32 s) (u32 l) t) p ->
  lets_store t p /\ stays_open s l A p = true.
Proof.
  intros Hc Hp (e & He & E). rewrite reset_table in He by apply Hc. cbn in He.
  assert (He0 : exists e0, e = tlb_reset_dirty_range_locked (u32 s) (u32 l) e0 /\ (e0 ∈ table t \/ e0 ∈ vtable t)).
  { destruct He as [(e0 & -> & ?)%list_elem_of_fmap|(e0 & -> & ?)%list_elem_of_fmap]; eauto. }
  destruct He0 as (e0 & -> & He0). pose proof (reset_dirty_entry (u32 s) (u32 l) e0) as Hr. cbv zeta in Hr. rewrite E in Hr.
  assert (Hz : Z.land p WRITE_SLOW = 0).
  { apply Z.bits_inj'. intros i Hi. rewrite Z.land_spec, Z.testbit_0_l. destruct (Z.lt_ge_cases i 12).
    - rewrite <- (Z.mod_pow2_bits_low p 12), (proj2 Hp), Z.testbit_0_l by lia. done.
    - rewrite (testbit_is_u 12 WRITE_SLOW) by (by vm_compute). apply andb_false_r. }
  specialize (Hr Hz).
  assert (Hsame : tlb_reset_dirty_range_locked (u32 s) (u32 l) e0 = e0).
  { unfold tlb_reset_dirty_range_locked in *. repeat case_goal; try done. exfalso. cbn in E.
    apply (f_equal (fun x => Z.testbit x 10)) in E. rewrite Z.lor_spec in E. change (Z.testbit TLB_NOTDIRTY 10) with true in E.
    rewrite orb_true_r, <- (Z.mod_pow2_bits_low p 12), (proj2 Hp), Z.testbit_0_l in E by lia. done. }
  rewrite Hsame in *. split; [by exists e0|].
  destruct (lets_store_fill A t p Hc Hp e0 He0 E) as (f & fe & HA & Hpf & Hu & Hrep). unfold stays_open. rewrite HA.
  unfold in_reset. apply negb_true_iff, Z.ltb_ge. unfold host_page in Hr. rewrite E, (page_page p Hp), (rep_addend _ _ _ Hrep) in Hr.
  assert (Ea : u32 (p + addend (f_entry f)) = u32 (addend_of (f_back f))).
  { unfold f_entry, new_entry. rewrite Hpf. repeat match goal with |- context [let '(_, _) := ?x in _] => destruct x end. cbn.
    rewrite uw_add_idemp_r. f_equal. lia. }
  rewrite Ea, uw_sub_idemp_l in Hr. exact Hr.
Qed.

(** ... and cleared for one page. *)
Lemma set_dirty_lets q t t' p : page p -> set_dirty_mode q t = Some t' -> lets_store t' p -> p = q \/ lets_store t p.
Proof.
  intros Hp. unfold set_dirty_mode. destruct (tlb_entry t q) as [e0|] eqn:E0; cbn [mbind option_bind]; [|done]. intros [= <-] (e & He & E).
  assert (Hs : forall e1, addr_write (tlb_set_dirty1_locked q e1) = p -> p = q \/ addr_write e1 = p).
  { intros e1. unfold tlb_set_dirty1_locked. destruct (_ =? _); cbn; [intros <-; by left | by right]. }
  cbn in He. destruct He as [(j & Hj)%list_elem_of_lookup_1|(e1 & -> & He1)%list_elem_of_fmap].
  - apply list_lookup_insert_Some in Hj as [(_ & <- & _)|[_ Hj]].
    + destruct (Hs _ E); [by left | right]. exists e0. split; [left; by eapply list_elem_of_lookup_2 | done].
    + right. exists e. split; [left; by eapply list_elem_of_lookup_2 | done].
  - destruct (Hs _ E); [by left | right]. exists e1. by split; [right|].
Qed.

(** ** All modes *)

(** What an operation does to the pages of mode [j], whose translations are [A]. *)
Definition moved (o : op) (j : nat) (A : gmap Z fill) (t t' : tlbm) : Prop := forall p, page p -> lets_store t' p ->
  match o with
  | OpFill m f => if decide (j = m) then (p = f_page f /\ is_clean (f_back f) = false) \/ (p <> f_page f /\ lets_store t p) else lets_store t p
  | OpSetDirty addr => p = Z.land addr TARGET_PAGE_MASK \/ lets_store t p
  | OpResetDirty start len => lets_store t p /\ stays_open start len A p = true
  | _ => lets_store t p
  end.

Lemma modes_before R c c' j t' : modes_by R c c' -> modes c' !! j = Some t' -> exists t, modes c !! j = Some t /\ R j t t'.
Proof.
  intros (_ & L & HR) Ht'. destruct (lookup_lt_is_Some_2 (modes c) j) as [t Ht]; [rewrite <- L; by eapply lookup_lt_Some|].
  exists t. split; [done|]. by apply HR.
Qed.

Lemma flush_moved As h now asked c c' j A t' : cpu_ok As c -> heap_ok h -> is_u 16 asked -> run_op (OpFlush h now asked) c = Some c' ->
  As !! j = Some A -> modes c' !! j = Some t' -> exists t, modes c !! j = Some t /\ only_closes t t'.
Proof.
  intros Hok Hh Ha H HA Ht'. cbn [run_op] in H. unfold tlb_flush_by_mmuidx_async_work in H.
  destruct (flush_work _ _ _ _ _) as [c1|] eqn:E1; cbn [mbind option_bind] in H; [|done]. injection H as <-.
  apply flush_work_by in E1; [|by apply land_is_u_l].
  assert (Ht1 : modes c1 !! j = Some t') by (revert Ht'; repeat case_goal; done).
  destruct (modes_before _ _ _ _ _ E1 Ht1) as (t & Ht & HR). exists t. split; [exact Ht|].
  destruct (asked_mode _ j); [|subst; apply closes_refl]. eapply (flush_one_closes h now A); [done | | exact HR]. by eapply (ok_modes _ _ Hok).
Qed.

Lemma asked_moved As g idxmap c c' j A t' : cpu_ok As c ->
  all_modes (fun i c => if asked_mode idxmap i then on_mode i g c else Some c) c = Some c' ->
  As !! j = Some A -> modes c' !! j = Some t' -> (forall t, coherent A t -> g t = Some t' -> only_closes t t') ->
  exists t, modes c !! j = Some t /\ only_closes t t'.
Proof.
  intros Hok E HA Ht' Hg. apply (all_modes_by _ (fun _ => g)) in E; [|apply (ok_len _ _ Hok)].
  destruct (modes_before _ _ _ _ _ E Ht') as (t & Ht & HR). exists t. split; [done|]. cbv beta in HR.
  destruct (asked_mode idxmap j); [|subst; apply closes_refl]. apply Hg; [by eapply (ok_modes _ _ Hok) | done].
Qed.

Lemma flush_page_moved As h now addr idxmap c c' j A t' : cpu_ok As c -> heap_ok h -> tlb_flush_page_by_mmuidx h now addr idxmap c = Some c' ->
  As !! j = Some A -> modes c' !! j = Some t' -> exists t, modes c !! j = Some t /\ only_closes t t'.
Proof.
  intros Hok Hh. unfold tlb_flush_page_by_mmuidx, tlb_flush_page_by_mmuidx_async_0.
  destruct (all_modes _ c) as [c1|] eqn:E; cbn [mbind option_bind]; [|done]. intros [= <-] HA Ht'.
  eapply asked_moved; [done | exact E | done | exact Ht' |]. intros t Hc. by apply (flush_page_closes h now A).
Qed.

Lemma every_moved As g c c' j A t' : cpu_ok As c -> all_modes (fun i => on_mode i g) c = Some c' ->
  As !! j = Some A -> modes c' !! j = Some t' -> exists t, modes c !! j = Some t /\ coherent A t /\ g t = Some t'.
Proof.
  intros Hok E HA Ht'. apply (all_modes_by (fun _ => true) (fun _ => g)) in E; [|apply (ok_len _ _ Hok)].
  destruct (modes_before _ _ _ _ _ E Ht') as (t & Ht & HR). exists t. split_and!; [done | by eapply (ok_modes _ _ Hok) | exact HR].
Qed.

Lemma run_op_moved As o c c' j A t' : cpu_ok As c -> op_ok o -> run_op o c = Some c' ->
  As !! j = Some A -> modes c' !! j = Some t' -> exists t, modes c !! j = Some t /\ moved o j A t t'.
Proof.
  intros Hok Ho H HA Ht'.
  destruct o as [m f|h now asked|h now addr idxmap|h now addr len idxmap bits|start len|addr|m ty addr]; cbn [op_ok] in Ho.
  - cbn [run_op] in H. unfold tlb_set_page_full in H. apply on_mode_by in H. destruct (modes_before _ _ _ _ _ H Ht') as (t & Ht & HR).
    exists t. split; [exact Ht|]. intros p Hp Hl. cbv beta in HR. case_decide; [|by subst].
    eapply fill_lets; [by eapply (ok_modes _ _ Hok) | apply Ho | done | done | done].
  - destruct Ho as [Hh Ha]. by apply (flush_moved As h now asked c c' j A t').
  - by apply (flush_page_moved As h now addr idxmap c c' j A t'); [| apply Ho | | |].
  - destruct Ho as (Hh & Ha & _ & Hi & Hb). cbn [run_op] in H. unfold tlb_flush_range_by_mmuidx in H.
    destruct (_ && _); [by apply (flush_page_moved As h now addr idxmap c c' j A t')|].
    destruct (bits <? TARGET_PAGE_BITS); [by apply (flush_moved As h now idxmap c c' j A t')|].
    unfold tlb_flush_range_by_mmuidx_async_0 in H. destruct (all_modes _ c) as [c1|] eqn:E; cbn [mbind option_bind] in H; [|done]. injection H as <-.
    assert (Ht1 : modes c1 !! j = Some t') by (revert Ht'; case_goal; done).
    eapply asked_moved; [done | exact E | done | exact Ht1 |]. intros t Hc. apply (flush_range_closes h now A); [done | lia | done].
  - destruct (every_moved As _ c c' j A t' Hok H HA Ht') as (t & Ht & Hc & [= <-]). exists t. split; [done|].
    intros p Hp Hl. by apply reset_lets.
  - destruct (every_moved As _ c c' j A t' Hok H HA Ht') as (t & Ht & Hc & HR). exists t. split; [done|].
    intros p Hp Hl. by eapply set_dirty_lets.
  - cbn [run_op] in H. apply on_mode_by in H. destruct (modes_before _ _ _ _ _ H Ht') as (t & Ht & HR). exists t. split; [done|].
    cbv beta in HR. case_decide; [|subst; apply closes_refl]. destruct (victim_tlb_hit _ _ _ t) as [[t1 hit]|] eqn:Ev; [|done].
    injection HR as <-. by eapply victim_closes.
Qed.

(** Whatever a store may reach without the slow path is open. *)
Definition tracked (Ds : opened) (c : cpu) : Prop :=
  length Ds = 16%nat /\ forall j D t p, Ds !! j = Some D -> modes c !! j = Some t -> page p -> lets_store t p -> p ∈ D.

Lemma run_op_tracked As Ds o c c' : cpu_ok As c -> tracked Ds c -> op_ok o -> run_op o c = Some c' -> tracked (opened_op o As Ds) c'.
Proof.
  intros Hok [HL HD] Ho H. split.
  { rewrite <- HL. destruct o; cbn [opened_op]; by rewrite ?length_alter, ?length_fmap, ?length_imap. }
  intros j D' t' p HD' Ht' Hp Hl.
  pose proof (lookup_lt_Some _ _ _ Ht') as Hj. rewrite (proj1 (ok_len _ _ (run_op_ok _ _ _ _ Hok Ho H))) in Hj.
  destruct (lookup_lt_is_Some_2 As j) as [A HA]; [rewrite (proj2 (ok_len _ _ Hok)); lia|].
  destruct (lookup_lt_is_Some_2 Ds j) as [D HDj]; [lia|].
  destruct (run_op_moved As o c c' j A t' Hok Ho H HA Ht') as (t & Ht & Hm). specialize (Hm p Hp Hl).
  assert (Hold : lets_store t p -> p ∈ D) by (intros; by eapply HD).
  destruct o as [m f|h now asked|h now addr idxmap|h now addr len idxmap bits|start len|addr|m ty addr]; cbn [opened_op] in HD';
    try (rewrite HDj in HD'; injection HD' as <-; by apply Hold).
  - destruct (decide (j = m)) as [->|Hne].
    + rewrite list_lookup_alter_eq, HDj in HD'. injection HD' as <-. destruct Hm as [[-> ->]|[Hn Hl0]]; [set_solver|].
      specialize (Hold Hl0). destruct (is_clean (f_back f)); set_solver.
    + rewrite list_lookup_alter_ne, HDj in HD' by done. injection HD' as <-. by apply Hold.
  - rewrite list_lookup_imap, HDj in HD'. injection HD' as <-. destruct Hm as [Hl0 Hs]. apply elem_of_filter.
    rewrite (list_lookup_total_correct _ _ _ HA). auto.
  - rewrite list_lookup_fmap, HDj in HD'. injection HD' as <-. destruct Hm as [->|Hl0]; [set_solver|]. specialize (Hold Hl0). set_solver.
Qed.

Lemma run_ops_tracked os : forall As Ds c c', cpu_ok As c -> tracked Ds c -> Forall op_ok os -> run_ops os c = Some c' ->
  tracked (opened_ops os As Ds) c'.
Proof.
  induction os as [|o os IH]; intros As Ds c c' Hok Ht Ho; cbn [run_ops opened_ops]; [by intros [= <-]|].
  apply Forall_cons_1 in Ho as [Ho1 Ho]. destruct (run_op o c) as [c1|] eqn:E; cbn [mbind option_bind]; [|done].
  apply IH; [by eapply run_op_ok | by eapply run_op_tracked | done].
Qed.

Lemma init_tracked h now jc c : tlb_init h now (zero_cpu jc) = Some c -> tracked none_opened c.
Proof.
  intros Hi. split; [done|]. intros j D t p HD Ht Hp (e & He & E). exfalso.
  pose proof (init_ok _ _ _ _ Hi) as Hok. pose proof (lookup_lt_Some _ _ _ HD) as Hj. change (length none_opened) with 16%nat in Hj.
  assert (HA : empty_tlb !! j = Some ∅) by (apply lookup_replicate_2; lia).
  by destruct (lets_store_fill ∅ t p (ok_modes _ _ Hok j ∅ t HA Ht) Hp e He E) as (f & fe & Hf & _).
Qed.

(** C21: Generated code skips the slow path when the comparator of its entry equals the
    page.  Then the page has a current translation that allows the access, its backing is
    RAM (or readable ROM, not for stores) that is neither watched, byte-swapped, smaller
    than a page, write-protected nor marked for refill, and the address the code computes
    is the one of the RAM block.  For a store the page is also open: its fill found the
    memory already dirty, or [tlb_set_dirty] was called for the page since, and no
    [tlb_reset_dirty] of its host page came after. *)
Theorem fast_path_safe h now jc c0 history c m t addr e ty :
  tlb_init h now (zero_cpu jc) = Some c0 -> Forall op_ok history -> run_ops history c0 = Some c -> is_u 64 addr ->
  modes c !! m = Some t -> tlb_entry t addr = Some e -> tlb_read_idx e ty = Z.land addr TARGET_PAGE_MASK ->
  (exists f, current (spec_ops history empty_tlb) m addr ty f /\ plain f ty = true
    /\ u32 (u32 addr + addend e) = u32 (ram_ptr (f_back f) + sec_xlat (f_back f) + addr mod 2 ^ 12))
  /\ (ty = MMU_DATA_STORE -> exists D, opened_ops history empty_tlb none_opened !! m = Some D /\ Z.land addr TARGET_PAGE_MASK ∈ D).
Proof.
  intros Hi Hh Hr Ha Ht He Hcmp. pose proof (run_ops_ok _ _ _ _ (init_ok _ _ _ _ Hi) Hh Hr) as Hok.
  destruct (abstract_mode _ _ _ _ Hok Ht) as [A HA]. split.
  - destruct (fast_entry A t addr e ty (ok_modes _ _ Hok m A t HA Ht) Ha He Hcmp) as (f & Hf & Hen & Hpl & Hhost).
    exists f. split_and!; [by exists A | done | done].
  - intros ->. destruct (run_ops_tracked history _ _ _ _ (init_ok _ _ _ _ Hi) (init_tracked _ _ _ _ Hi) Hh Hr) as [HL HD].
    destruct (lookup_lt_is_Some_2 (opened_ops history empty_tlb none_opened) m) as [D HDm].
    { rewrite HL, <- (proj1 (ok_len _ _ Hok)). by eapply lookup_lt_Some. }
    exists D. split; [done|]. eapply HD; [done | done | by apply page_of |]. exists e. split; [left; by eapply list_elem_of_lookup_2 | done].
Qed.

Module FastDemo.
Definition t : tlbm := default zero_mode (modes FillDemo.st !! 0%nat).
Definition e : CPUTLBEntry := f_entry FillDemo.f.
End FastDemo.

Lemma fast_path_safe_witness :
  (exists f, current (spec_ops (FillDemo.history ++ [OpFill 0 FillDemo.f]) empty_tlb) 0 0x105ffc MMU_DATA_STORE f
    /\ plain f MMU_DATA_STORE = true
    /\ u32 (u32 0x105ffc + addend FastDemo.e) = u32 (ram_ptr (f_back f) + sec_xlat (f_back f) + 0x105ffc mod 2 ^ 12))
  /\ exists D, opened_ops (FillDemo.history ++ [OpFill 0 FillDemo.f]) empty_tlb none_opened !! 0%nat = Some D /\ 0x105000 ∈ D.
Proof.
  destruct (fast_path_safe LookupDemo.h0 0 None LookupWitness.st0 (FillDemo.history ++ [OpFill 0 FillDemo.f]) FillDemo.st 0 FastDemo.t
    0x105ffc FastDemo.e MMU_DATA_STORE) as [H1 H2].
  - exact demo_start.
  - repeat apply Forall_cons_2; [..| apply Forall_nil_2]; (split; [lia | by vm_compute]).
  - apply (demo_runs (FillDemo.history ++ [OpFill 0 FillDemo.f])). vm_compute. reflexivity.
  - by vm_compute.
  - vm_compute. reflexivity.
  - vm_compute. reflexivity.
  - vm_compute. reflexivity.
  - split; [exact H1 | exact (H2 eq_refl)].
Defined.
