(* ===== verification/Softmmu.v ===== *)
(** * Guest loads and stores

    The slow path of a guest access, accel/tcg/cputlb.c: [mmu_lookup] translates the one
    or two pages it touches, and [do_ld*_mmu] / [do_st*_mmu] perform it on RAM (through
    HostAtomic), on a device, or in two parts across a page boundary.

    The other components a memory access calls are a [World]: watchpoints, the dirty
    bitmaps and the invalidation of translated code, the memory regions and their
    devices.  An access returns, leaves through [longjmp], or is stuck (a failed
    assertion or a trap). *)
From Stdlib Require Import String.
From S2P Require Import Prelude BitOps HostUtils Bitmap Memory Tci Tlb TlbCoherence TlbOps TlbLookup HostAtomic.

#[local] Open Scope Z_scope.

Definition MO_BSWAP : Z := 0x10.
Definition MO_LE : Z := 0.
Definition MO_BE : Z := MO_BSWAP.
Definition MO_ASHIFT : Z := 5.
Definition MO_AMASK : Z := Z.shiftl 7 MO_ASHIFT.
Definition MEMTX_OK : Z := 0.

Definition memop_size (op : Z) : Z := Z.shiftl 1 (Z.land op MO_SIZE).

Definition get_alignment_bits (memop : Z) : Z :=
  let a := Z.land memop MO_AMASK in
  if a =? 0 then 0
  else if a =? MO_AMASK then Z.land memop MO_SIZE
  else Z.shiftr a MO_ASHIFT.

(** ** What an access asks of the rest of the machine *)

Class World (W : Type) := {
  cpu_check_watchpoint : W -> Z -> Z -> MemTxAttrs -> Z -> option W;  (** [None]: it hit *)
  dirty_code : W -> Z -> bool;               (** [cpu_physical_memory_get_dirty_flag(_, DIRTY_MEMORY_CODE)] *)
  tb_invalidate : W -> Z -> Z -> option W;   (** [tb_invalidate_phys_range_fast]; [None]: the running block was one *)
  set_dirty_range : W -> Z -> Z -> W;        (** [cpu_physical_memory_set_dirty_range(_, _, DIRTY_CLIENTS_NOCODE)] *)
  page_is_clean : W -> Z -> bool;            (** [cpu_physical_memory_is_clean] *)
  can_do_io : W -> bool;
  iotlb_to_section : W -> Z -> MemTxAttrs -> Z;                    (** the region of the section *)
  memory_region_name : W -> Z -> option string;
  dispatch_read : W -> Z -> Z -> Z -> MemTxAttrs -> W * Z * Z;      (** world, value, result *)
  dispatch_write : W -> Z -> Z -> Z -> Z -> MemTxAttrs -> W * Z;
  io_failed : W -> CPUTLBEntryFull -> Z -> Z -> Z -> option W       (** [None]: the target raised an exception *)
}.

Inductive why := Unaligned | Watchpoint | CodeWritten | Recompile | Restart | IoFailed | NotAtomic.

Record st (W : Type) := { s_cpu : cpu; s_ram : mem; s_world : W; s_force_slow : Z }.
Arguments s_cpu {W}.
Arguments s_ram {W}.
Arguments s_world {W}.
Arguments s_force_slow {W}.

Inductive out (W A : Type) :=
| Return (a : A) (s : st W)
| Leave (w : why) (s : st W)
| NoPage                 (** the target's [tlb_fill] did not return *)
| Stuck.
Arguments Return {W A} a s.
Arguments Leave {W A} w s.
Arguments NoPage {W A}.
Arguments Stuck {W A}.

Section Softmmu.
Context {W : Type} `{!World W}.
Context (walk : cpu -> Z -> Z -> MMUAccessType -> nat -> bool -> option (list op * bool)).
(** [HAVE_al8], [cpu_in_serial_context(cpu)] and [bb_fast_tci_depth]. *)
Context (al8 serial : bool) (fast_depth : Z).
Implicit Type s : st W.

Definition M (A : Type) : Type := st W -> out W A.

#[local] Instance M_ret : MRet M := fun A a s => Return a s.
#[local] Instance M_bind : MBind M := fun A B f m s =>
  match m s with
  | Return a s => f a s
  | Leave w s => Leave w s
  | NoPage => NoPage
  | Stuck => Stuck
  end.

Definition set_cpu (c : cpu) s : st W :=
  {| s_cpu := c; s_ram := s_ram s; s_world := s_world s; s_force_slow := s_force_slow s |}.
Definition set_ram (m : mem) s : st W :=
  {| s_cpu := s_cpu s; s_ram := m; s_world := s_world s; s_force_slow := s_force_slow s |}.
Definition set_world (w : W) s : st W :=
  {| s_cpu := s_cpu s; s_ram := s_ram s; s_world := w; s_force_slow := s_force_slow s |}.
Definition set_force_slow (v : Z) s : st W :=
  {| s_cpu := s_cpu s; s_ram := s_ram s; s_world := s_world s; s_force_slow := v |}.

Definition get : M (st W) := fun s => Return s s.
Definition put (s : st W) : M unit := fun _ => Return () s.
Definition leave {A} (w : why) : M A := fun s => Leave w s.
Definition stuck {A} : M A := fun _ => Stuck.
Definition must {A} (o : option A) : M A := match o with Some a => mret a | None => stuck end.
Definition host {A} (r : res A) : M A :=
  match r with Ok a => mret a | Exit => leave NotAtomic | Assert | Trap => stuck end.

(** The [CPUTLBEntryFull] a pointer into the table of mode [m] points to. *)
Definition deref (m : nat) (index : Z) : M CPUTLBEntryFull :=
  s ← get;
  t ← must (modes (s_cpu s) !! m);
  must (fulltlb t !! Z.to_nat index).

(** ** Translation *)

(** [notdirty_write]. *)
Definition notdirty_write (mem_vaddr size : Z) (full : CPUTLBEntryFull) : M unit :=
  let ram_addr := u64 (mem_vaddr + xlat_section full) in
  s ← get;
  _ ← (if dirty_code (s_world s) ram_addr then mret ()
       else match tb_invalidate (s_world s) ram_addr size with
            | Some w => put (set_world w s)
            | None => leave CodeWritten
            end);
  s ← get;
  let w := set_dirty_range (s_world s) ram_addr size in
  _ ← put (set_world w s);
  if page_is_clean w ram_addr then mret ()
  else s ← get; c ← must (tlb_set_dirty mem_vaddr (s_cpu s)); put (set_cpu c s).

Definition is_store (ty : MMUAccessType) : bool := match ty with MMU_DATA_STORE => true | _ => false end.

Definition with_flags (f : Z) (d : MMULookupPageData) : MMULookupPageData :=
  {| l_full := l_full d; haddr := haddr d; l_addr := l_addr d; l_flags := f; l_size := l_size d |}.

Definition with_full (i : Z) (d : MMULookupPageData) : MMULookupPageData :=
  {| l_full := i; haddr := haddr d; l_addr := l_addr d; l_flags := l_flags d; l_size := l_size d |}.

Definition test (x mask : Z) : bool := negb (Z.land x mask =? 0).

Definition mmu_watch_or_dirty (m : nat) (d : MMULookupPageData) (ty : MMUAccessType) : M MMULookupPageData :=
  let flags := l_flags d in
  flags ←
    (if test flags TLB_WATCHPOINT then
       full ← deref m (l_full d);
       s ← get;
       match cpu_check_watchpoint (s_world s) (l_addr d) (l_size d) (attrs full) (if is_store ty then BP_MEM_WRITE else BP_MEM_READ) with
       | Some w => _ ← put (set_world w s); mret (Z.land flags (Z.lnot TLB_WATCHPOINT))
       | None => leave Watchpoint
       end
     else mret flags);
  flags ←
    (if test flags TLB_NOTDIRTY then
       full ← deref m (l_full d);
       _ ← notdirty_write (l_addr d) (l_size d) full;
       mret (Z.land flags (Z.lnot TLB_NOTDIRTY))
     else mret flags);
  mret (with_flags flags d).

Definition lookup1 (addr size : Z) (m : nat) (ty : MMUAccessType) : M (MMULookupPageData * bool) :=
  s ← get;
  match mmu_lookup1 walk (s_cpu s) addr size m ty with
  | Some (c, d, r) => _ ← put (set_cpu c s); mret (d, r)
  | None => fun _ => NoPage
  end.

Record MMULookupLocals := { page0 : MMULookupPageData; page1 : MMULookupPageData; l_memop : Z; l_mmu_idx : nat }.

Definition no_page (addr : Z) : MMULookupPageData := {| l_full := 0; haddr := 0; l_addr := addr; l_flags := 0; l_size := 0 |}.

Definition mmu_lookup (addr oi : Z) (ty : MMUAccessType) : M (MMULookupLocals * bool) :=
  let memop := get_memop oi in
  let m := Z.to_nat (get_mmuidx oi) in
  let a_bits := get_alignment_bits memop in
  if test addr (Z.shiftl 1 a_bits - 1) then leave Unaligned
  else
    let size := memop_size memop in
    let addr1 := Z.land (u64 (addr + size - 1)) TARGET_PAGE_MASK in
    if negb (test (Z.lxor addr addr1) TARGET_PAGE_MASK) then
      '(p0, _) ← lookup1 addr size m ty;
      let flags := l_flags p0 in
      p0 ← (if test flags (Z.lor TLB_WATCHPOINT TLB_NOTDIRTY) then mmu_watch_or_dirty m p0 ty else mret p0);
      let memop := if test flags TLB_BSWAP then Z.lxor memop MO_BSWAP else memop in
      mret ({| page0 := p0; page1 := no_page addr1; l_memop := memop; l_mmu_idx := m |}, false)
    else
      let size0 := s32 (u64 (addr1 - addr)) in
      '(p0, _) ← lookup1 addr size0 m ty;
      '(p1, resized) ← lookup1 addr1 (size - size0) m ty;
      p0 ← (if resized : bool then
              s ← get; t ← must (modes (s_cpu s) !! m); mret (with_full (tlb_index t addr) p0)
            else mret p0);
      let flags := Z.lor (l_flags p0) (l_flags p1) in
      '(p0, p1) ← (if test flags (Z.lor TLB_WATCHPOINT TLB_NOTDIRTY) then
                     p0 ← mmu_watch_or_dirty m p0 ty;
                     p1 ← mmu_watch_or_dirty m p1 ty;
                     mret (p0, p1)
                   else mret (p0, p1));
      mret ({| page0 := p0; page1 := p1; l_memop := memop; l_mmu_idx := m |}, true).
(** ** Devices *)

Definition io_prepare (full : CPUTLBEntryFull) (addr : Z) : M (Z * Z) :=
  s ← get;
  let mr := iotlb_to_section (s_world s) (xlat_section full) (attrs full) in
  let mr_offset := u64 (Z.land (xlat_section full) TARGET_PAGE_MASK + addr) in
  if can_do_io (s_world s) then mret (mr, mr_offset) else leave Recompile.

(** [strncmp(n, p, strlen(p)) == 0] and [strstr]. *)
Definition starts (p n : string) : bool := String.prefix p n.
Definition contains (p n : string) : bool := match String.index 0 p n with Some _ => true | None => false end.

Definition bb_mr_may_yield (name : option string) : bool :=
  match name with
  | None => true
  | Some n =>
      String.eqb n "virtio-pci" || starts "virtio-pci-common" n || starts "virtio-pci-device" n || starts "virtio-mmio" n
      || starts "ahci" n || starts "ide" n || starts "bmdma" n || starts "fdc" n || contains "pflash" n || starts "nvme" n
  end.

Definition bb_guard_mmio (mr : Z) : M unit :=
  s ← get;
  if negb (fast_depth =? 0) && bb_mr_may_yield (memory_region_name (s_world s) mr)
  then _ ← put (set_force_slow 1 s); leave Restart
  else mret ().

(** The size of the next piece: the largest power of two, at most 8, that divides the
    address and the size. *)
Definition piece_mop (size addr : Z) : Z := ctz32 (u32 (Z.lor (Z.lor size (u32 addr)) 8)).

Fixpoint int_ld_mmio_beN (fuel : nat) (full : CPUTLBEntryFull) (ret_be addr size : Z) (mr mr_offset : Z) : M Z :=
  match fuel with
  | O => stuck
  | S fuel =>
      let this_mop := piece_mop size addr in
      let this_size := Z.shiftl 1 this_mop in
      s ← get;
      let '(w, val, r) := dispatch_read (s_world s) mr mr_offset (Z.lor this_mop MO_BE) (attrs full) in
      w ← (if r =? MEMTX_OK then mret w
           else match io_failed w full addr this_size r with Some w => mret w | None => leave IoFailed end);
      _ ← put (set_world w s);
      if this_size =? 8 then mret val
      else
        let ret_be := Z.lor (u64 (Z.shiftl ret_be (this_size * 8))) val in
        if size - this_size =? 0 then mret ret_be
        else int_ld_mmio_beN fuel full ret_be (u64 (addr + this_size)) (size - this_size) mr (u64 (mr_offset + this_size))
  end.

Definition do_ld_mmio_beN (full : CPUTLBEntryFull) (ret_be addr size : Z) : M Z :=
  '(mr, mr_offset) ← io_prepare full addr;
  _ ← bb_guard_mmio mr;
  int_ld_mmio_beN (Z.to_nat size) full ret_be addr size mr mr_offset.

Fixpoint int_st_mmio_leN (fuel : nat) (full : CPUTLBEntryFull) (val_le addr size : Z) (mr mr_offset : Z) : M Z :=
  match fuel with
  | O => stuck
  | S fuel =>
      let this_mop := piece_mop size addr in
      let this_size := Z.shiftl 1 this_mop in
      s ← get;
      let '(w, r) := dispatch_write (s_world s) mr mr_offset val_le (Z.lor this_mop MO_LE) (attrs full) in
      w ← (if r =? MEMTX_OK then mret w
           else match io_failed w full addr this_size r with Some w => mret w | None => leave IoFailed end);
      _ ← put (set_world w s);
      if this_size =? 8 then mret 0
      else
        let val_le := Z.shiftr val_le (this_size * 8) in
        if size - this_size =? 0 then mret val_le
        else int_st_mmio_leN fuel full val_le (u64 (addr + this_size)) (size - this_size) mr (u64 (mr_offset + this_size))
  end.

Definition do_st_mmio_leN (full : CPUTLBEntryFull) (val_le addr size : Z) : M Z :=
  '(mr, mr_offset) ← io_prepare full addr;
  _ ← bb_guard_mmio mr;
  int_st_mmio_leN (Z.to_nat size) full val_le addr size mr mr_offset.

(** ** The part of an access in one page *)

Definition ram : M mem := s ← get; mret (s_ram s).

(** The loop of [do_ld_bytes_beN]. *)
Fixpoint ld_bytes (n : nat) (m : mem) (haddr ret_be : Z) : res Z :=
  match n with
  | O => Ok ret_be
  | S n => b ← acc (load8 m haddr); ld_bytes n m (haddr + 1) (Z.lor (u64 (Z.shiftl ret_be 8)) b)
  end.

Definition do_ld_bytes_beN (p : MMULookupPageData) (ret_be : Z) : M Z :=
  m ← ram; host (ld_bytes (Z.to_nat (l_size p)) m (haddr p) ret_be).

(** The loop of [do_ld_parts_beN]. *)
Fixpoint ld_parts (fuel : nat) (m : mem) (haddr size ret_be : Z) : res Z :=
  match fuel with
  | O => Assert
  | S fuel =>
      let k := Z.land (Z.lor haddr size) 7 in
      '(ret_be, n) ←
        (if k =? 4 then x ← load_atomic 4 m haddr; Ok (Z.lor (u64 (Z.shiftl ret_be 32)) (bswap32 x), 4)
         else if (k =? 2) || (k =? 6) then x ← load_atomic 2 m haddr; Ok (Z.lor (u64 (Z.shiftl ret_be 16)) (bswap16 x), 2)
         else if k =? 0 then Assert
         else x ← acc (load8 m haddr); Ok (Z.lor (u64 (Z.shiftl ret_be 8)) x, 1));
      if size - n =? 0 then Ok ret_be else ld_parts fuel m (haddr + n) (size - n) ret_be
  end.

Definition do_ld_parts_beN (p : MMULookupPageData) (ret_be : Z) : M Z :=
  m ← ram; host (ld_parts (Z.to_nat (l_size p)) m (haddr p) (l_size p) ret_be).

Definition do_ld_whole_be4 (p : MMULookupPageData) (ret_be : Z) : M Z :=
  let o := Z.land (l_addr p) 3 in
  m ← ram;
  x ← host (load_atomic 4 m (haddr p - o));
  let x := u32 (Z.shiftl (bswap32 x) (o * 8)) in
  let x := Z.shiftr x ((4 - l_size p) * 8) in
  mret (Z.lor (u64 (Z.shiftl ret_be (l_size p * 8))) x).

Definition do_ld_whole_be8 (p : MMULookupPageData) (ret_be : Z) : M Z :=
  let o := Z.land (l_addr p) 7 in
  m ← ram;
  x ← host (load_atomic8_or_exit al8 m (haddr p - o));
  let x := u64 (Z.shiftl (bswap64 x) (o * 8)) in
  let x := Z.shiftr x ((8 - l_size p) * 8) in
  mret (Z.lor (u64 (Z.shiftl ret_be (l_size p * 8))) x).

(** Whether the part must be atomic as a whole: half of the access of a pair. *)
Definition whole_half (mop size : Z) : bool :=
  let tmp := Z.land mop MO_SIZE in
  let tmp := if tmp =? 0 then 0 else tmp - 1 in
  let half_size := Z.shiftl 1 tmp in
  if Z.land mop MO_ATOM_MASK =? MO_ATOM_IFALIGN_PAIR then size =? half_size else half_size <=? size.

Definition do_ld_beN (m : nat) (p : MMULookupPageData) (ret_be mop : Z) : M Z :=
  if test (l_flags p) TLB_MMIO then full ← deref m (l_full p); do_ld_mmio_beN full ret_be (l_addr p) (l_size p)
  else
    let atom := Z.land mop MO_ATOM_MASK in
    if atom =? MO_ATOM_SUBALIGN then do_ld_parts_beN p ret_be
    else if ((atom =? MO_ATOM_IFALIGN_PAIR) || (atom =? MO_ATOM_WITHIN16_PAIR)) && whole_half mop (l_size p) then
      if l_size p <? 4 then do_ld_whole_be4 p ret_be else do_ld_whole_be8 p ret_be
    else if (atom =? MO_ATOM_IFALIGN_PAIR) || (atom =? MO_ATOM_WITHIN16_PAIR) || (atom =? MO_ATOM_IFALIGN)
            || (atom =? MO_ATOM_WITHIN16) || (atom =? MO_ATOM_NONE) then do_ld_bytes_beN p ret_be
    else stuck.

Definition do_ld_1 (m : nat) (p : MMULookupPageData) : M Z :=
  if test (l_flags p) TLB_MMIO then full ← deref m (l_full p); r ← do_ld_mmio_beN full 0 (l_addr p) 1; mret (u8 r)
  else mm ← ram; host (acc (load8 mm (haddr p))).

Definition do_ld_2 (m : nat) (p : MMULookupPageData) (memop : Z) : M Z :=
  if test (l_flags p) TLB_MMIO then
    full ← deref m (l_full p);
    ret ← do_ld_mmio_beN full 0 (l_addr p) 2;
    mret (if Z.land memop MO_BSWAP =? MO_LE then bswap16 (u16 ret) else u16 ret)
  else
    mm ← ram;
    ret ← host (load_atom_2 al8 serial mm (haddr p) memop);
    mret (if test memop MO_BSWAP then bswap16 ret else ret).

Definition do_ld_4 (m : nat) (p : MMULookupPageData) (memop : Z) : M Z :=
  if test (l_flags p) TLB_MMIO then
    full ← deref m (l_full p);
    ret ← do_ld_mmio_beN full 0 (l_addr p) 4;
    mret (if Z.land memop MO_BSWAP =? MO_LE then bswap32 (u32 ret) else u32 ret)
  else
    mm ← ram;
    ret ← host (load_atom_4 al8 serial mm (haddr p) memop);
    mret (if test memop MO_BSWAP then bswap32 ret else ret).

Definition do_ld_8 (m : nat) (p : MMULookupPageData) (memop : Z) : M Z :=
  if test (l_flags p) TLB_MMIO then
    full ← deref m (l_full p);
    ret ← do_ld_mmio_beN full 0 (l_addr p) 8;
    mret (if Z.land memop MO_BSWAP =? MO_LE then bswap64 ret else ret)
  else
    mm ← ram;
    ret ← host (load_atom_8 al8 serial mm (haddr p) memop);
    mret (if test memop MO_BSWAP then bswap64 ret else ret).

(** ** Loads *)

Definition do_ld1_mmu (addr oi : Z) (ty : MMUAccessType) : M Z :=
  '(l, _) ← mmu_lookup addr oi ty;
  do_ld_1 (l_mmu_idx l) (page0 l).

Definition do_ld2_mmu (addr oi : Z) (ty : MMUAccessType) : M Z :=
  '(l, crosspage) ← mmu_lookup addr oi ty;
  if negb crosspage then do_ld_2 (l_mmu_idx l) (page0 l) (l_memop l)
  else
    a ← do_ld_1 (l_mmu_idx l) (page0 l);
    b ← do_ld_1 (l_mmu_idx l) (page1 l);
    mret (if Z.land (l_memop l) MO_BSWAP =? MO_LE then Z.lor a (Z.shiftl b 8) else Z.lor b (Z.shiftl a 8)).

Definition do_ld4_mmu (addr oi : Z) (ty : MMUAccessType) : M Z :=
  '(l, crosspage) ← mmu_lookup addr oi ty;
  if negb crosspage then do_ld_4 (l_mmu_idx l) (page0 l) (l_memop l)
  else
    ret ← do_ld_beN (l_mmu_idx l) (page0 l) 0 (l_memop l);
    ret ← do_ld_beN (l_mmu_idx l) (page1 l) (u32 ret) (l_memop l);
    mret (if Z.land (l_memop l) MO_BSWAP =? MO_LE then bswap32 (u32 ret) else u32 ret).

Definition do_ld8_mmu (addr oi : Z) (ty : MMUAccessType) : M Z :=
  '(l, crosspage) ← mmu_lookup addr oi ty;
  if negb crosspage then do_ld_8 (l_mmu_idx l) (page0 l) (l_memop l)
  else
    ret ← do_ld_beN (l_mmu_idx l) (page0 l) 0 (l_memop l);
    ret ← do_ld_beN (l_mmu_idx l) (page1 l) ret (l_memop l);
    mret (if Z.land (l_memop l) MO_BSWAP =? MO_LE then bswap64 ret else ret).

(** ** Stores *)

Definition set_mem (m : mem) : M unit := s ← get; put (set_ram m s).

(** A routine that stores and returns the rest of the value. *)
Definition storing (f : mem -> res (mem * Z)) : M Z :=
  m ← ram; '(m, r) ← host (f m); _ ← set_mem m; mret r.

Definition do_st_leN (m : nat) (p : MMULookupPageData) (val_le mop : Z) : M Z :=
  let size := l_size p in
  if test (l_flags p) TLB_MMIO then full ← deref m (l_full p); do_st_mmio_leN full val_le (l_addr p) size
  else if test (l_flags p) TLB_DISCARD_WRITE then mret (Z.shiftr val_le (size * 8))
  else
    let atom := Z.land mop MO_ATOM_MASK in
    if atom =? MO_ATOM_SUBALIGN then storing (fun mm => store_parts_leN (Z.to_nat size) mm (haddr p) size val_le)
    else if ((atom =? MO_ATOM_IFALIGN_PAIR) || (atom =? MO_ATOM_WITHIN16_PAIR)) && whole_half mop size then
      if size <=? 4 then storing (fun mm => store_whole_le4 mm (haddr p) size val_le)
      else if al8 then storing (fun mm => store_whole_le8 mm (haddr p) size val_le)
      else leave NotAtomic
    else if (atom =? MO_ATOM_IFALIGN_PAIR) || (atom =? MO_ATOM_WITHIN16_PAIR) || (atom =? MO_ATOM_IFALIGN)
            || (atom =? MO_ATOM_WITHIN16) || (atom =? MO_ATOM_NONE)
    then storing (fun mm => store_bytes_leN mm (haddr p) (Z.to_nat size) val_le)
    else stuck.

(** The three kinds of page of a store that does not cross pages. *)
Definition st_page (m : nat) (p : MMULookupPageData) (to_device : CPUTLBEntryFull -> M Z) (to_ram : mem -> res mem) : M unit :=
  if test (l_flags p) TLB_MMIO then full ← deref m (l_full p); _ ← to_device full; mret ()
  else if test (l_flags p) TLB_DISCARD_WRITE then mret ()
  else mm ← ram; mm ← host (to_ram mm); set_mem mm.

Definition do_st_1 (m : nat) (p : MMULookupPageData) (val : Z) : M unit :=
  st_page m p (fun full => do_st_mmio_leN full val (l_addr p) 1) (fun mm => acc (store8 mm (haddr p) val)).

Definition do_st_2 (m : nat) (p : MMULookupPageData) (val memop : Z) : M unit :=
  st_page m p
    (fun full => do_st_mmio_leN full (if negb (Z.land memop MO_BSWAP =? MO_LE) then bswap16 val else val) (l_addr p) 2)
    (fun mm => store_atom_2 al8 serial mm (haddr p) memop (if test memop MO_BSWAP then bswap16 val else val)).

Definition do_st_4 (m : nat) (p : MMULookupPageData) (val memop : Z) : M unit :=
  st_page m p
    (fun full => do_st_mmio_leN full (if negb (Z.land memop MO_BSWAP =? MO_LE) then bswap32 val else val) (l_addr p) 4)
    (fun mm => store_atom_4 al8 serial mm (haddr p) memop (if test memop MO_BSWAP then bswap32 val else val)).

Definition do_st_8 (m : nat) (p : MMULookupPageData) (val memop : Z) : M unit :=
  st_page m p
    (fun full => do_st_mmio_leN full (if negb (Z.land memop MO_BSWAP =? MO_LE) then bswap64 val else val) (l_addr p) 8)
    (fun mm => store_atom_8 al8 serial mm (haddr p) memop (if test memop MO_BSWAP then bswap64 val else val)).

Definition do_st1_mmu (addr val oi : Z) : M unit :=
  '(l, _) ← mmu_lookup addr oi MMU_DATA_STORE;
  do_st_1 (l_mmu_idx l) (page0 l) val.

Definition do_st2_mmu (addr val oi : Z) : M unit :=
  '(l, crosspage) ← mmu_lookup addr oi MMU_DATA_STORE;
  if negb crosspage then do_st_2 (l_mmu_idx l) (page0 l) val (l_memop l)
  else
    let '(a, b) := if Z.land (l_memop l) MO_BSWAP =? MO_LE then (u8 val, u8 (Z.shiftr val 8)) else (u8 (Z.shiftr val 8), u8 val) in
    _ ← do_st_1 (l_mmu_idx l) (page0 l) a;
    do_st_1 (l_mmu_idx l) (page1 l) b.

Definition do_st4_mmu (addr val oi : Z) : M unit :=
  '(l, crosspage) ← mmu_lookup addr oi MMU_DATA_STORE;
  if negb crosspage then do_st_4 (l_mmu_idx l) (page0 l) val (l_memop l)
  else
    let val := if negb (Z.land (l_memop l) MO_BSWAP =? MO_LE) then bswap32 val else val in
    val ← do_st_leN (l_mmu_idx l) (page0 l) val (l_memop l);
    _ ← do_st_leN (l_mmu_idx l) (page1 l) (u32 val) (l_memop l);
    mret ().

Definition do_st8_mmu (addr val oi : Z) : M unit :=
  '(l, crosspage) ← mmu_lookup addr oi MMU_DATA_STORE;
  if negb crosspage then do_st_8 (l_mmu_idx l) (page0 l) val (l_memop l)
  else
    let val := if negb (Z.land (l_memop l) MO_BSWAP =? MO_LE) then bswap64 val else val in
    val ← do_st_leN (l_mmu_idx l) (page0 l) val (l_memop l);
    _ ← do_st_leN (l_mmu_idx l) (page1 l) val (l_memop l);
    mret ().

End Softmmu.

#[export] Existing Instances M_ret M_bind.
