(* ===== verification/SoftmmuLookup.v ===== *)
(** * Translating a guest access

    [mmu_lookup] of accel/tcg/cputlb.c: the one or two pages of an access get their
    current translations, watchpoints are checked and clean pages marked dirty.  Where
    the pages are RAM the lookup is never stuck, and it leaves only for a named reason. *)
From S2P Require Import Prelude BitOps HostUtils Bitmap Memory Tci Tlb TlbCoherence TlbOps TlbLookup TlbSafety HostAtomic HostAtomicExact Softmmu.

(** ** Lookups that do not return *)

Lemma victim_total t i ty p : shape t -> is_Some (table t !! i) -> is_Some (fulltlb t !! i) -> is_Some (victim_tlb_hit i ty p t).
Proof.
  intros (k & _ & _ & _ & _ & Hv & Hvf & _) [e He] [fe Hfe]. unfold victim_tlb_hit.
  destruct (list_find _ (vtable t)) as [[vi v]|] eqn:Ev; [|by eexists]. rewrite He, Hfe. cbn [mbind option_bind].
  apply list_find_Some in Ev as (Hvi & _). apply lookup_lt_Some in Hvi.
  destruct (lookup_lt_is_Some_2 (vfulltlb t) vi) as [x Hx]; [congruence|]. rewrite Hx. by eexists.
Qed.

(** A lookup fails only because the target's hook did. *)
Lemma lookup1_none walk As c addr size m ty : walk_ok walk -> cpu_ok As c -> (m < 16)%nat -> is_u 64 addr ->
  mmu_lookup1 walk c addr size m ty = None -> forall c', fill_hook walk c addr size ty m false <> Some (c', true).
Proof.
  intros Hw Hok Hm Ha Hn c' Hf. destruct (lookup_lt_is_Some_2 (modes c) m) as [t Et]; [by rewrite (proj1 (ok_len _ _ Hok))|].
  destruct (abstract_mode As c m t Hok Et) as [A HA]. pose proof (co_shape _ _ (ok_modes _ _ Hok m A t HA Et)) as Hs.
  destruct (index_in_table t addr Hs) as (e & fe & He & Hfe). unfold mmu_lookup1 in Hn. rewrite Et in Hn. cbn [mbind option_bind] in Hn.
  assert (Ee : tlb_entry t addr = Some e) by exact He. rewrite Ee in Hn. cbn [mbind option_bind] in Hn.
  destruct (tlb_hit (tlb_read_idx e ty) addr); cbn [mbind option_bind] in Hn; [by rewrite Et in Hn; cbn [mbind option_bind] in Hn; rewrite Hfe in Hn|].
  destruct (victim_total t (Z.to_nat (tlb_index t addr)) ty (Z.land addr TARGET_PAGE_MASK) Hs) as [[t1 found] Ev]; [by eexists..|].
  rewrite Ev in Hn. cbn [mbind option_bind] in Hn. destruct found; cbn [mbind option_bind] in Hn.
  - destruct (victim_case As c m t t1 addr ty Hok Et Ha Ev) as (Hok1 & Hm1 & Hi & v & He1 & _).
    rewrite Hm1 in Hn. cbn [mbind option_bind] in Hn. rewrite He1 in Hn. cbn [mbind option_bind] in Hn. rewrite Hm1 in Hn. cbn [mbind option_bind] in Hn.
    destruct (index_in_table t1 addr (co_shape _ _ (ok_modes _ _ Hok1 m A t1 HA Hm1))) as (_ & fe1 & _ & Hfe1). by rewrite Hfe1 in Hn.
  - apply victim_missed in Ev as ->. rewrite same_modes in Hn by done. unfold tlb_fill in Hn. rewrite Hf in Hn. cbn [mbind option_bind] in Hn.
    destruct (fill_hook_ok walk As c addr size ty m false c' Hw Hok Ha Hf) as (os & f & t1 & _ & _ & Hm1 & He1 & Hfe1 & _).
    rewrite Hm1 in Hn. cbn [mbind option_bind] in Hn. rewrite He1 in Hn. cbn [mbind option_bind] in Hn. rewrite Hm1 in Hn. cbn [mbind option_bind] in Hn.
    by rewrite Hfe1 in Hn.
Qed.

(** ** Fills that leave the other pages of a mode alone *)

(** The operations of a page walk: fills, of the page asked for where they concern the
    mode asked for, and operations that change no translation. *)
Definition tame (m : nat) (p : Z) (o : op) : Prop :=
  match o with
  | OpFill m' f => m' = m -> f_page f = p
  | OpVictim _ _ _ | OpSetDirty _ | OpResetDirty _ _ => True
  | _ => False
  end.

Lemma tame_spec m p q os As A : Forall (tame m p) os -> q <> p -> As !! m = Some A ->
  exists A', spec_ops os As !! m = Some A' /\ A' !! q = A !! q.
Proof.
  intros Hos Hq. revert As A. induction Hos as [|o os Ho _ IH]; intros As A HA; simpl; [by exists A|].
  assert (Hstep : exists A1, spec_op o As !! m = Some A1 /\ A1 !! q = A !! q).
  { destruct o as [m' f| | | | | |]; simpl in *; try done; try (by exists A).
    destruct (decide (m' = m)) as [->|Hne].
    - rewrite list_lookup_alter_eq, HA. eexists. split; [done|]. rewrite Ho by done. by apply lookup_insert_ne.
    - rewrite list_lookup_alter_ne by done. by exists A. }
  destruct Hstep as (A1 & HA1 & E1). destruct (IH _ _ HA1) as (A' & HA' & E'). exists A'. by rewrite E'.
Qed.

(** ** What RAM looks like *)

(** The fill maps its page to a page of host memory, for the access [ty]. *)
Definition ram_fill_ok (mm : mem) (ty : MMUAccessType) (f : fill) : Prop :=
  is_ram (f_back f) = true /\ byte_swap (attrs (f_full f)) = false
  /\ (ty = MMU_DATA_STORE -> sec_readonly (f_back f) = false)
  /\ addend_of (f_back f) mod 4096 = 0 /\ page_mapped mm (addend_of (f_back f)).

Lemma test_bit x k : 0 <= k -> test x (2 ^ k) = Z.testbit x k.
Proof.
  intros Hk. unfold test. destruct (Z.testbit x k) eqn:E.
  - apply negb_true_iff, Z.eqb_neq. intros H. apply (f_equal (fun z => Z.testbit z k)) in H.
    rewrite Z.land_spec, Z.pow2_bits_true, E, Z.bits_0 in H by done. done.
  - apply negb_false_iff, Z.eqb_eq, Z.bits_inj'. intros i Hi. rewrite Z.land_spec, Z.pow2_bits_eqb, Z.bits_0 by done.
    destruct (Z.eqb_spec k i) as [<-|]; [by rewrite E | apply andb_false_r].
Qed.

(** A flag that was not asked for is not in the comparator's flags. *)
Lemma compare_clear p fl en k : Z.testbit p k = false -> 0 <= k < 12 -> k <> 7 -> Z.testbit fl k = false -> fst (tlb_set_compare p fl en) <> u64 (-1) ->
  Z.testbit (Z.lor (Z.land (Z.land (fst (tlb_set_compare p fl en)) (unot 64 TLB_INVALID_MASK)) FLAGS) (snd (tlb_set_compare p fl en))) k = false.
Proof.
  intros Hpk Hk Hk7 Hfl Hen. unfold tlb_set_compare in *. destruct en; [|done]. cbn [fst snd] in *.
  assert (Hs : Z.testbit TLB_FORCE_SLOW k = false).
  { change TLB_FORCE_SLOW with (2 ^ 7). rewrite Z.pow2_bits_eqb by lia. by apply Z.eqb_neq. }
  rewrite Z.lor_spec, !Z.land_spec, Hfl. destruct (_ =? 0); rewrite ?Z.lor_spec, !Z.land_spec, Hfl, Hpk, ?Hs; done.
Qed.

Lemma page_flags_clear full b k : is_ram b = true -> byte_swap (attrs full) = false -> k ∈ [0; 8; 9] ->
  Z.testbit (fst (page_flags full b)) k = false /\ (sec_readonly b = false -> Z.testbit (snd (page_flags full b)) k = false).
Proof.
  intros Hram Hbs Hk. unfold page_flags, or_if. rewrite Hram, Hbs. set_unfold in Hk.
  destruct (lg_page_size full <? TARGET_PAGE_BITS), (negb (Z.land (sec_prot b) PAGE_WRITE =? 0)), (sec_readonly b), (is_clean b);
    cbn [fst snd]; (split; [|intros ?; try done]); destruct_or! Hk; subst; done.
Qed.

Lemma page_low_bits a k : 0 <= k < 12 -> Z.testbit (Z.land a TARGET_PAGE_MASK) k = false.
Proof. intros Hk. rewrite page_mask, Z.land_spec, hm_bits by lia. rewrite (proj2 (Z.leb_gt 12 k)) by lia. apply andb_false_r. Qed.

Definition wp_kind (ty : MMUAccessType) : Z := match ty with MMU_DATA_STORE => BP_MEM_WRITE | _ => BP_MEM_READ end.

(** A flag the page does not have is not in the flags of an access through its entry. *)
Lemma flags_clear f ty k : 0 <= k < 12 -> k <> 7 -> k <> 11 -> (k = 1 -> ty = MMU_INST_FETCH \/ watched (f_back f) (wp_kind ty) = false) ->
  Z.testbit (match ty with MMU_DATA_STORE => snd | _ => fst end (page_flags (f_full f) (f_back f))) k = false ->
  tlb_read_idx (f_entry f) ty <> u64 (-1) -> Z.testbit (flags_of f ty) k = false.
Proof.
  intros Hk Hk7 Hk11 Hw Hfl Hen. pose proof (page_low_bits (f_addr f) k Hk) as Hp. fold (f_page f) in Hp.
  unfold flags_of, f_entry, f_info, new_entry, watched in *. destruct (page_flags (f_full f) (f_back f)) as [r w].
  assert (Hor : forall b x, (k = 1 -> b = false) -> Z.testbit x k = false -> Z.testbit (or_if b TLB_WATCHPOINT x) k = false).
  { intros b x Hb Hx. destruct b; [|done]. unfold or_if. rewrite Z.lor_spec, Hx. change TLB_WATCHPOINT with (2 ^ 1).
    rewrite Z.pow2_bits_eqb by lia. apply Z.eqb_neq. intros <-. by specialize (Hb eq_refl). }
  assert (Hinv : forall b x, Z.testbit x k = false -> Z.testbit (or_if b TLB_INVALID_MASK x) k = false).
  { intros b x Hx. destruct b; [|done]. unfold or_if. rewrite Z.lor_spec, Hx. change TLB_INVALID_MASK with (2 ^ 11).
    rewrite Z.pow2_bits_eqb by lia. by apply Z.eqb_neq. }
  pose proof (compare_clear (f_page f) r (negb (Z.land (sec_prot (f_back f)) PAGE_EXEC =? 0)) k Hp Hk Hk7) as H1.
  pose proof (fun H => compare_clear (f_page f) (or_if (negb (Z.land (wp_flags (f_back f)) BP_MEM_READ =? 0)) TLB_WATCHPOINT r)
    (negb (Z.land (sec_prot (f_back f)) PAGE_READ =? 0)) k Hp Hk Hk7 (Hor _ _ (fun E => proj1 H E) (proj2 H))) as H2.
  pose proof (fun H => compare_clear (f_page f) (or_if (negb (Z.land (wp_flags (f_back f)) BP_MEM_WRITE =? 0)) TLB_WATCHPOINT
    (or_if (negb (Z.land (sec_prot (f_back f)) PAGE_WRITE_INV =? 0)) TLB_INVALID_MASK w))
    (negb (Z.land (sec_prot (f_back f)) PAGE_WRITE =? 0)) k Hp Hk Hk7 (Hor _ _ (fun E => proj1 H E) (Hinv _ _ (proj2 H)))) as H3.
  repeat (destruct (tlb_set_compare _ _ _)). cbn [fst snd] in *.
  destruct ty; simpl in *.
  - apply H2; [|done]. split; [|done]. intros E. by destruct (Hw E).
  - apply H3; [|done]. split; [|done]. intros E. by destruct (Hw E).
  - by apply H1.
Qed.

(** The flags of an access to RAM. *)
Lemma ram_flags mm ty f k : ram_fill_ok mm ty f -> tlb_read_idx (f_entry f) ty <> u64 (-1) ->
  k ∈ [0; 8; 9] -> Z.testbit (flags_of f ty) k = false.
Proof.
  intros (Hram & Hbs & Hro & _) Hen Hk. pose proof (page_flags_clear (f_full f) (f_back f) k Hram Hbs Hk) as [H1 H2].
  set_unfold in Hk. apply flags_clear; [lia | lia | lia | lia | | done]. destruct ty; auto.
Qed.

Lemma page_flags_unwatched full b : Z.testbit (fst (page_flags full b)) 1 = false /\ Z.testbit (snd (page_flags full b)) 1 = false.
Proof.
  unfold page_flags, or_if.
  by destruct (lg_page_size full <? TARGET_PAGE_BITS), (byte_swap (attrs full)), (is_ram b), (negb (Z.land (sec_prot b) PAGE_WRITE =? 0)), (sec_readonly b), (is_clean b), (is_romd b).
Qed.

(** Only a watched page has the watchpoint flag. *)
Lemma watch_flag f ty : tlb_read_idx (f_entry f) ty <> u64 (-1) -> Z.testbit (flags_of f ty) 1 = true -> watched (f_back f) (wp_kind ty) = true.
Proof.
  intros Hen Hb. destruct (watched (f_back f) (wp_kind ty)) eqn:E; [done|]. rewrite <- Hb. symmetry.
  destruct (page_flags_unwatched (f_full f) (f_back f)) as [H1 H2].
  apply flags_clear; [lia | lia | lia | by right | by destruct ty | done].
Qed.

(** The flags a lookup answers agree outside the dirty flag. *)
Lemma upto_bit ty a b k : upto_dirty ty a b -> 0 <= k -> k <> 10 -> Z.testbit a k = Z.testbit b k.
Proof.
  intros H Hk Hne. destruct ty; simpl in H; [by rewrite H | | by rewrite H].
  apply (f_equal (fun z => Z.testbit z k)) in H. rewrite !Z.lor_spec in H. change TLB_NOTDIRTY with (2 ^ 10) in H.
  rewrite Z.pow2_bits_eqb, (proj2 (Z.eqb_neq 10 k)), !orb_false_r in H by lia. done.
Qed.

(** Only a store sees the dirty flag. *)
Lemma dirty_flag f ty x : is_ram (f_back f) = true -> tlb_read_idx (f_entry f) ty <> u64 (-1) -> upto_dirty ty x (flags_of f ty) ->
  Z.testbit x 10 = true -> ty = MMU_DATA_STORE.
Proof.
  intros Hram Hen Hup Hb. assert (ty = MMU_DATA_STORE \/ ty <> MMU_DATA_STORE) as [|Hne] by (destruct ty; auto); [done|]. exfalso.
  assert (Hc : Z.testbit (flags_of f ty) 10 = false).
  { apply flags_clear; [lia | lia | lia | lia | | done].
    assert (Hf : Z.testbit (fst (page_flags (f_full f) (f_back f))) 10 = false).
    { unfold page_flags, or_if. rewrite Hram. by destruct (lg_page_size (f_full f) <? TARGET_PAGE_BITS), (byte_swap (attrs (f_full f))),
        (negb (Z.land (sec_prot (f_back f)) PAGE_WRITE =? 0)), (sec_readonly (f_back f)), (is_clean (f_back f)). }
    by destruct ty. }
  destruct ty; simpl in Hup; [congruence | done | congruence].
Qed.

(** ** Marking a page dirty *)

Definition shapes (c : cpu) : Prop := length (modes c) = 16%nat /\ forall i t, modes c !! i = Some t -> shape t.

Lemma cpu_ok_shapes As c : cpu_ok As c -> shapes c.
Proof.
  intros Hok. split; [apply (ok_len _ _ Hok)|]. intros i t Ht. destruct (abstract_mode As c i t Hok Ht) as [A HA].
  apply (co_shape A), (ok_modes _ _ Hok i A t HA Ht).
Qed.

Lemma set_dirty_mode_total a t : shape t -> exists t', set_dirty_mode a t = Some t' /\ shape t' /\ fulltlb t' = fulltlb t.
Proof.
  intros Hs. destruct (index_in_table t a Hs) as (e & fe & He & Hfe). unfold set_dirty_mode, tlb_entry. rewrite He. cbn [mbind option_bind].
  eexists. split; [done|]. split; [|done]. destruct Hs as (k & ? & ? & ? & ? & ? & ? & ? & ?). exists k. simpl.
  by rewrite length_insert, length_fmap.
Qed.

Lemma set_dirty_total a c : shapes c -> exists c', tlb_set_dirty a c = Some c' /\
  forall m t, modes c !! m = Some t -> exists t', modes c' !! m = Some t' /\ fulltlb t' = fulltlb t.
Proof.
  intros Hc. unfold tlb_set_dirty, all_modes. change (Z.to_nat NB_MMU_MODES) with 16%nat.
  assert (H : forall n i c, (i + n <= 16)%nat -> shapes c -> exists c',
    for_modes n i (fun i => on_mode i (set_dirty_mode (Z.land a TARGET_PAGE_MASK))) c = Some c'
    /\ forall m t, modes c !! m = Some t -> exists t', modes c' !! m = Some t' /\ fulltlb t' = fulltlb t).
  { clear. induction n as [|n IH]; intros i c Hi Hc; cbn [for_modes]; [by eauto|].
    destruct (lookup_lt_is_Some_2 (modes c) i) as [t Ht]; [rewrite (proj1 Hc); lia|].
    destruct (set_dirty_mode_total (Z.land a TARGET_PAGE_MASK) t (proj2 Hc i t Ht)) as (t' & Et' & Hs' & Hf').
    assert (E1 : on_mode i (set_dirty_mode (Z.land a TARGET_PAGE_MASK)) c = Some (with_modes (<[i := t']> (modes c)) c))
      by (unfold on_mode; rewrite Ht; cbn [mbind option_bind]; by rewrite Et').
    rewrite E1. cbn [mbind option_bind].
    assert (Hlt : (i < length (modes c))%nat) by (by eapply lookup_lt_Some).
    destruct (IH (S i) (with_modes (<[i := t']> (modes c)) c)) as (c' & Ec' & Hc'); [lia | |].
    { split; simpl; [by rewrite length_insert; apply Hc|]. intros j u Hu. destruct (decide (j = i)) as [->|].
      - rewrite list_lookup_insert_eq in Hu by done. by injection Hu as <-.
      - rewrite list_lookup_insert_ne in Hu by done. by eapply Hc. }
    exists c'. split; [done|]. intros m u Hu. destruct (decide (m = i)) as [->|].
    - destruct (Hc' i t') as (t2 & Ht2 & Hf2); [simpl; by apply list_lookup_insert_eq|]. exists t2. split; [done|]. congruence.
    - apply Hc'. simpl. by rewrite list_lookup_insert_ne. }
  destruct (H 16%nat 0%nat c ltac:(lia) Hc) as (c' & Ec' & Hc'). eauto.
Qed.

(** Unfold the monad and the accessors of the state. *)
Ltac run_m :=
  unfold mbind, M_bind, get, put, leave, must, mret, M_ret, stuck, host;
  unfold set_cpu, set_ram, set_world, set_force_slow; cbn [s_cpu s_ram s_world s_force_slow].

(** ** Outcomes of the access monad *)

Section Post.
Context {W : Type} `{!World W}.
Implicit Type s : st W.

(** Where a computation may go: return in [Q], leave for a reason in [E], find no page
    only if [N]; it is never stuck. *)
Definition post {A} (m : M A) (s : st W) (Q : A -> st W -> Prop) (E : why -> Prop) (N : Prop) : Prop :=
  match m s with
  | Return a s' => Q a s'
  | Leave w _ => E w
  | NoPage => N
  | Stuck => False
  end.

Lemma post_ret {A} (a : A) s (Q : A -> st W -> Prop) E N : Q a s -> post (mret a) s Q E N.
Proof. done. Qed.

Lemma post_bind {A B} (m : M A) (f : A -> M B) s Q1 (Q : B -> st W -> Prop) E N :
  post m s Q1 E N -> (forall a s', Q1 a s' -> post (f a) s' Q E N) -> post (mbind f m) s Q E N.
Proof. unfold post, mbind, M_bind. destruct (m s); intros H1 H2; try done. by apply H2. Qed.

Lemma post_mono {A} (m : M A) s Q1 Q2 (E1 E2 : why -> Prop) (N1 N2 : Prop) :
  post m s Q1 E1 N1 -> (forall a s', Q1 a s' -> Q2 a s') -> (forall w, E1 w -> E2 w) -> (N1 -> N2) -> post m s Q2 E2 N2.
Proof. unfold post. destruct (m s); auto. Qed.

Lemma post_get s (Q : st W -> st W -> Prop) E N : Q s s -> post get s Q E N.
Proof. done. Qed.

Lemma post_put s s' (Q : unit -> st W -> Prop) E N : Q () s' -> post (put s') s Q E N.
Proof. done. Qed.

Lemma post_leave {A} w s (Q : A -> st W -> Prop) (E : why -> Prop) N : E w -> post (leave w) s Q E N.
Proof. done. Qed.

Lemma post_must {A} (o : option A) a s (Q : A -> st W -> Prop) E N : o = Some a -> Q a s -> post (must o) s Q E N.
Proof. intros ->. done. Qed.
End Post.

(** The pointer to the full entry is inside its table. *)
Definition full_ok (c : cpu) (m : nat) (i : Z) : Prop := exists t, modes c !! m = Some t /\ is_Some (fulltlb t !! Z.to_nat i).

(** What translating does to the machine besides the TLB and the world. *)
Definition kept {W} (s s' : st W) : Prop := s_ram s' = s_ram s /\ s_force_slow s' = s_force_slow s.

Section Lookups.
Context {W : Type} `{!World W}.
Implicit Type s : st W.

Lemma deref_post s m i (Q : CPUTLBEntryFull -> st W -> Prop) E N :
  full_ok (s_cpu s) m i -> (forall full, Q full s) -> post (deref m i) s Q E N.
Proof.
  intros (t & Ht & [fe Hfe]) HQ. unfold deref. eapply post_bind; [by apply (post_get s (fun a s' => a = s /\ s' = s))|].
  intros a s' [-> ->]. eapply post_bind; [eapply (post_must _ t s (fun a s' => a = t /\ s' = s)); done|].
  intros a s' [-> ->]. by eapply post_must.
Qed.

Definition tlb_kept As s s' : Prop :=
  cpu_ok As (s_cpu s') /\ kept s s' /\ forall m i, full_ok (s_cpu s) m i -> full_ok (s_cpu s') m i.

Lemma notdirty_post As s a size full : cpu_ok As (s_cpu s) -> is_u 64 a ->
  post (notdirty_write a size full) s (fun _ s' => tlb_kept As s s')
    (fun w => w = CodeWritten /\ exists w a n, tb_invalidate w a n = None) False.
Proof.
  intros Hok Ha. unfold post, notdirty_write. run_m.
  destruct (dirty_code _ _); [|destruct (tb_invalidate _ _ _) as [w|] eqn:Ei; [|by eauto]];
    unfold set_cpu, set_world; cbn [s_cpu s_ram s_world s_force_slow]; destruct (page_is_clean _ _); try done;
    (destruct (set_dirty_total a (s_cpu s) (cpu_ok_shapes _ _ Hok)) as (c' & Ec & Hf);
     match goal with |- context [tlb_set_dirty a ?x] => change x with (s_cpu s) end; rewrite Ec; split_and!; [|done|]);
    try (apply (run_op_ok As (OpSetDirty a) (s_cpu s)); done);
    intros m i (t & Ht & Hi); destruct (Hf m t Ht) as (t' & Ht' & Ef); exists t'; by rewrite Ef.
Qed.

(** A flag cleared from a word. *)
Lemma clear_flag x k j : 0 <= k -> 0 <= j -> k <> j -> Z.testbit (Z.land x (Z.lnot (2 ^ k))) j = Z.testbit x j.
Proof.
  intros Hk Hj Hne. rewrite Z.land_spec, Z.lnot_spec, Z.pow2_bits_eqb by done. rewrite (proj2 (Z.eqb_neq k j)) by done. apply andb_true_r.
Qed.

(** What [mmu_watch_or_dirty] may leave for. *)
Definition watch_exit (ty : MMUAccessType) (flags : Z) (w : why) : Prop :=
  (w = Watchpoint /\ test flags TLB_WATCHPOINT = true)
  \/ (w = CodeWritten /\ test flags TLB_NOTDIRTY = true /\ exists w a n, tb_invalidate w a n = None).

Lemma watch_or_dirty_post As s m d ty : cpu_ok As (s_cpu s) -> full_ok (s_cpu s) m (l_full d) -> is_u 64 (l_addr d) ->
  post (mmu_watch_or_dirty m d ty) s
    (fun d' s' => tlb_kept As s s' /\ exists fl, d' = with_flags fl d /\ forall k, 0 <= k -> k <> 1 -> k <> 10 -> Z.testbit fl k = Z.testbit (l_flags d) k)
    (watch_exit ty (l_flags d)) False.
Proof.
  intros Hok Hf Ha. unfold mmu_watch_or_dirty.
  eapply (post_bind _ _ _ (fun fl s' => tlb_kept As s s' /\ (forall k, 0 <= k -> k <> 1 -> Z.testbit fl k = Z.testbit (l_flags d) k))).
  { destruct (test (l_flags d) TLB_WATCHPOINT) eqn:Et; [|by apply post_ret].
    eapply post_bind; [by eapply (deref_post s m _ (fun _ s' => s' = s))|]. intros full s' ->.
    eapply post_bind; [by apply (post_get s (fun a s' => a = s /\ s' = s))|]. intros a s' [-> ->].
    destruct (cpu_check_watchpoint _ _ _ _ _); [|apply post_leave; by left].
    eapply (post_bind _ _ _ (fun _ s' => s' = set_world w s)); [done|]. intros [] s' ->. apply post_ret.
    split; [done|]. intros k Hk H1. apply (clear_flag _ 1); lia. }
  intros fl s1 (Hk1 & Hfl). eapply (post_bind _ _ _ (fun fl' s' => tlb_kept As s s' /\ (forall k, 0 <= k -> k <> 1 -> k <> 10 -> Z.testbit fl' k = Z.testbit (l_flags d) k))).
  { destruct (test fl TLB_NOTDIRTY) eqn:Et; [|apply post_ret; split; [done | intros; by apply Hfl]].
    assert (Et' : test (l_flags d) TLB_NOTDIRTY = true).
    { change TLB_NOTDIRTY with (2 ^ 10) in *. rewrite test_bit in Et by lia. rewrite test_bit by lia. by rewrite <- Hfl by lia. }
    destruct Hk1 as (Hok1 & Hkk & Hfull).
    eapply post_bind; [eapply (deref_post s1 m _ (fun _ s' => s' = s1)); [by apply Hfull | done]|]. intros full s' ->.
    eapply post_bind; [eapply post_mono; [by apply (notdirty_post As s1 (l_addr d) (l_size d) full) | intros a s' H; exact H | | done]|].
    - intros w (-> & Hi). right. by split_and!.
    - intros [] s' (Hok' & [Hr' Hs'] & Hfull'). apply post_ret. destruct Hkk as [Hr Hs]. split.
      + split_and!; [done | split; congruence | auto].
      + intros k Hk H1 H10. rewrite (clear_flag _ 10) by lia. by apply Hfl. }
  intros fl' s2 (Hk2 & Hfl'). apply post_ret. split; [done|]. by exists fl'.
Qed.
End Lookups.

(** ** Translating the pages of an access *)

Abbreviation walk_t := (cpu -> Z -> Z -> MMUAccessType -> nat -> bool -> option (list op * bool)).
Abbreviation page_at a := (Z.land a TARGET_PAGE_MASK).

Lemma lookup1_fields walk c a size m ty c' d r : mmu_lookup1 walk c a size m ty = Some (c', d, r) -> l_addr d = a /\ l_size d = size.
Proof.
  unfold mmu_lookup1. destruct (modes c !! m); cbn [mbind option_bind]; [|done]. destruct (tlb_entry _ _); cbn [mbind option_bind]; [|done].
  match goal with |- (x ← ?o; _) = _ -> _ => destruct o as [[[[[c1 r1] i1] x1] e1]|] end; cbn [mbind option_bind]; [|done].
  destruct (modes c1 !! m) as [t1|]; cbn [mbind option_bind]; [|done]. destruct (fulltlb t1 !! _); cbn [mbind option_bind]; [|done].
  by intros [= <- <- <-].
Qed.

(** A lookup that did not fill leaves the pointers into the tables valid. *)
Lemma lookup1_full walk c a size m ty c' d : mmu_lookup1 walk c a size m ty = Some (c', d, false) ->
  forall m i, full_ok c m i -> full_ok c' m i.
Proof.
  unfold mmu_lookup1. destruct (modes c !! m) as [t|] eqn:Et; cbn [mbind option_bind]; [|done].
  destruct (tlb_entry _ _) as [e|]; cbn [mbind option_bind]; [|done]. destruct (tlb_hit _ _); cbn [mbind option_bind].
  { rewrite Et. cbn [mbind option_bind]. destruct (fulltlb t !! _); cbn [mbind option_bind]; [|done]. by intros [= <- <-]. }
  destruct (victim_tlb_hit _ _ _ t) as [[t1 [|]]|] eqn:Ev; cbn [mbind option_bind]; [| |done].
  - set (c1 := with_modes _ c). destruct (modes c1 !! m) as [t2|]; cbn [mbind option_bind]; [|done].
    destruct (tlb_entry _ _); cbn [mbind option_bind]; [|done]. destruct (modes c1 !! m); cbn [mbind option_bind]; [|done].
    destruct (fulltlb _ !! _); cbn [mbind option_bind]; [|done]. intros [= <- <-] m' i (u & Hu & Hi). unfold c1, full_ok. simpl.
    destruct (decide (m' = m)) as [->|].
    + exists t1. rewrite list_lookup_insert_eq by (by eapply lookup_lt_Some). split; [done|]. rewrite Et in Hu. injection Hu as <-.
      unfold victim_tlb_hit in Ev. destruct (list_find _ _) as [[vi v]|]; [|done]. destruct (table t !! _); simpl in Ev; [|done].
      destruct (fulltlb t !! Z.to_nat (tlb_index t a)); simpl in Ev; [|done]. destruct (vfulltlb t !! vi); simpl in Ev; [|done].
      injection Ev as <-. simpl. apply lookup_lt_is_Some. rewrite length_insert. by apply lookup_lt_is_Some.
    + exists u. by rewrite list_lookup_insert_ne.
  - destruct (tlb_fill _ _ _ _ _ _) as [c1|]; cbn [mbind option_bind]; [|done]. destruct (modes c1 !! m); cbn [mbind option_bind]; [|done].
    destruct (tlb_entry _ _); cbn [mbind option_bind]; [|done]. destruct (modes c1 !! m); cbn [mbind option_bind]; [|done].
    by destruct (fulltlb _ !! _).
Qed.

(** What the target's hook is relied on for, for accesses [ty] of mode [m]: its contract,
    no effect on the other pages of the mode, and for the pages in [P] only fills in [G]. *)
Record walk_spec (walk : walk_t) (m : nat) (ty : MMUAccessType) (P : Z -> Prop) (G : fill -> Prop) : Prop := {
  ws_ok : walk_ok walk;
  ws_tame : forall c a n os ok, walk c a n ty m false = Some (os, ok) -> Forall (tame m (page_at a)) os;
  ws_ram : forall c a n os ok f, walk c a n ty m false = Some (os, ok) -> P (page_at a) -> OpFill m f ∈ os -> G f
}.

(** The translations of the pages in [P] are in [G]. *)
Definition ram_tlb (m : nat) (P : Z -> Prop) (G : fill -> Prop) (As : atlb) : Prop :=
  forall A p f, As !! m = Some A -> P p -> A !! p = Some f -> G f.

Lemma spec_ram m (P : Z -> Prop) (G : fill -> Prop) p os As : Forall (tame m p) os ->
  (P p -> forall f, OpFill m f ∈ os -> G f) -> ram_tlb m P G As -> ram_tlb m P G (spec_ops os As).
Proof.
  intros Hos. revert As. induction Hos as [|o os Ho _ IH]; intros As Hg HA; simpl; [done|]. apply IH.
  { intros HP f Hf. apply Hg; [done | by right]. }
  destruct o as [m' f| | | | | |]; simpl in *; try done.
  intros A q g HAq HP Hl. destruct (decide (m' = m)) as [->|Hne].
  - rewrite list_lookup_alter_eq in HAq. destruct (As !! m) as [A0|] eqn:E0; simplify_eq/=. rewrite (Ho eq_refl) in Hl.
    destruct (decide (q = p)) as [->|].
    + rewrite lookup_insert_eq in Hl. injection Hl as <-. apply Hg; [done | by left].
    + rewrite lookup_insert_ne in Hl by done. by eapply HA.
  - rewrite list_lookup_alter_ne in HAq by done. by eapply HA.
Qed.

(** ** Page crossing *)

Lemma page_at_div a : is_u 64 a -> page_at a = a / 4096 * 4096.
Proof. intros Ha. rewrite page_mask. by apply hm_land. Qed.

(** The bytes of an access of [n] bytes that lie in its first page. *)
Definition first_part (addr n : Z) : Z := Z.min n (4096 - addr mod 4096).

Lemma last_page addr n : is_u 64 addr -> 1 <= n <= 4096 ->
  page_at (u64 (addr + n - 1)) = if 4096 <? addr mod 4096 + n then u64 (addr + first_part addr n) else page_at addr.
Proof.
  intros Ha Hn. pose proof (Z.div_mod addr 4096 ltac:(lia)) as Hd. pose proof (Z.mod_pos_bound addr 4096 ltac:(lia)) as Hr.
  unfold first_part, is_u in *. change (2 ^ 64) with (4503599627370496 * 4096) in *.
  set (q := addr / 4096) in *. set (r := addr mod 4096) in *.
  destruct (Z.ltb_spec 4096 (r + n)) as [Hc|Hc].
  - rewrite Z.min_r by lia. rewrite page_at_div by (apply uw_range; lia). unfold uw. change (2 ^ 64) with (4503599627370496 * 4096).
    destruct (Z.eq_dec q 4503599627370495) as [Eq|].
    + rewrite <- (Z.mod_unique (addr + n - 1) _ 1 (r + n - 1 - 4096)) by lia. rewrite <- (Z.div_unique (r + n - 1 - 4096) 4096 0 (r + n - 1 - 4096)) by lia.
      rewrite <- (Z.mod_unique (addr + (4096 - r)) _ 1 0) by lia. lia.
    + rewrite !Z.mod_small by lia. rewrite <- (Z.div_unique (addr + n - 1) 4096 (q + 1) (r + n - 1 - 4096)) by lia. lia.
  - rewrite !page_at_div by (done || apply uw_range; lia). unfold uw. rewrite Z.mod_small by lia.
    f_equal. symmetry. apply (Z.div_unique _ _ _ (r + n - 1)); lia.
Qed.

(** The test for a page crossing and the size of the first part. *)
Lemma crossing addr n : is_u 64 addr -> 1 <= n <= 4096 ->
  let a1 := page_at (u64 (addr + n - 1)) in
  test (Z.lxor addr a1) TARGET_PAGE_MASK = (4096 <? addr mod 4096 + n)
  /\ (4096 < addr mod 4096 + n -> is_u 64 a1 /\ page_at a1 = a1 /\ a1 <> page_at addr /\ s32 (u64 (a1 - addr)) = first_part addr n).
Proof.
  intros Ha Hn a1. pose proof (last_page addr n Ha Hn) as H1. fold a1 in H1.
  assert (Hu1 : is_u 64 a1) by (unfold a1; rewrite page_mask; apply land_is_u_l; [lia | apply uw_range; lia]).
  assert (Hp1 : page_at a1 = a1) by (unfold a1; by rewrite <- Z.land_assoc, Z.land_diag).
  assert (Hdiv : 4096 < addr mod 4096 + n -> a1 <> page_at addr /\ u64 (a1 - addr) = first_part addr n).
  { intros Hc. rewrite (proj2 (Z.ltb_lt _ _) Hc) in H1. rewrite H1, uw_sub_idemp_l.
    pose proof (Z.div_mod addr 4096 ltac:(lia)) as Hd. pose proof (Z.mod_pos_bound addr 4096 ltac:(lia)) as Hr.
    replace (addr + first_part addr n - addr) with (first_part addr n) by lia. unfold first_part. rewrite Z.min_r by lia.
    rewrite (uw_small 64 (4096 - _)) by (unfold is_u; lia). split; [|done]. rewrite page_at_div by done. unfold is_u, uw in *.
    intros E. destruct (Z.eq_dec (addr / 4096) 4503599627370495) as [Eq|].
    - rewrite <- (Z.mod_unique (addr + (4096 - addr mod 4096)) _ 1 0) in E by lia. lia.
    - rewrite Z.mod_small in E by lia. lia. }
  assert (Ht : test (Z.lxor addr a1) TARGET_PAGE_MASK = negb (bool_decide (addr / 4096 = a1 / 4096))).
  { unfold test. rewrite page_mask. pose proof (hm_xor addr a1 12 Ha Hu1 ltac:(lia)) as Hx. change (2 ^ 12) with 4096 in Hx.
    f_equal. apply eq_true_iff_eq. rewrite Z.eqb_eq, bool_decide_eq_true. done. }
  assert (Hdivs : addr / 4096 = a1 / 4096 <-> a1 = page_at addr).
  { rewrite <- Hp1 at 2. rewrite !page_at_div by done. split; lia. }
  split.
  - rewrite Ht. destruct (Z.ltb_spec 4096 (addr mod 4096 + n)) as [Hc|Hc].
    + destruct (Hdiv Hc) as [Hne _]. by rewrite bool_decide_eq_false_2 by tauto.
    + by rewrite bool_decide_eq_true_2 by tauto.
  - intros Hc. destruct (Hdiv Hc) as [Hne Hs]. split_and!; try done. rewrite Hs. apply sw_small; [lia|].
    pose proof (Z.mod_pos_bound addr 4096 ltac:(lia)). unfold is_s, first_part. lia.
Qed.

Section Translate.
Context {W : Type} `{!World W}.
Context (walk : walk_t) (m : nat) (ty : MMUAccessType) (P : Z -> Prop) (G : fill -> Prop) (mm : mem).
Hypothesis Hwalk : walk_spec walk m ty P G.
Hypothesis HG : forall f, G f -> ram_fill_ok mm ty f.
Hypothesis Hm : (m < 16)%nat.
Implicit Type s : st W.

(** The hook did not return for some page of [P]. *)
Definition walk_failed : Prop :=
  exists As c a n, cpu_ok As c /\ P (page_at a) /\ forall c', fill_hook walk c a n ty m false <> Some (c', true).

(** The page data of an access of [n] bytes at [a], translated by [f]. *)
Definition answers (As : atlb) (c : cpu) (a n : Z) (d : MMULookupPageData) (f : fill) : Prop :=
  current As m a ty f /\ haddr d = host_of f a /\ upto_dirty ty (l_flags d) (flags_of f ty) /\ full_ok c m (l_full d)
  /\ l_addr d = a /\ l_size d = n.

Definition tlb_ready (As : atlb) s : Prop := cpu_ok As (s_cpu s) /\ ram_tlb m P G As.

(** The target was not asked, or these are its TLB operations for the page of [a]. *)
Definition walked (a : Z) (os : list op) : Prop := os = [] \/ exists c n, walk c a n ty m false = Some (os, true).

Lemma lookup1_post As s a n : tlb_ready As s -> is_u 64 a -> P (page_at a) ->
  post (lookup1 walk a n m ty) s
    (fun '(d, r) s' => exists os f, Forall (tame m (page_at a)) os /\ tlb_ready (spec_ops os As) s' /\ kept s s'
       /\ answers (spec_ops os As) (s_cpu s') a n d f
       /\ (r = false -> forall m i, full_ok (s_cpu s) m i -> full_ok (s_cpu s') m i) /\ walked a os)
    (fun _ => False) walk_failed.
Proof.
  intros [Hok Hram] Ha HP. unfold post, lookup1, mbind, M_bind, get, put, mret, M_ret.
  destruct (mmu_lookup1 walk (s_cpu s) a n m ty) as [[[c d] r]|] eqn:El.
  - destruct (mmu_lookup1_ok walk As _ a n m ty c d r (ws_ok _ _ _ _ _ Hwalk) Hok Ha El)
      as (os & f & Hok' & Hcur & (Hh & Hfl & t & Ht & Hfull) & Hr & Hos).
    destruct (lookup1_fields _ _ _ _ _ _ _ _ _ El) as [Hda Hdn].
    exists os, f. assert (Htame : Forall (tame m (page_at a)) os).
    { destruct Hos as [->|[c0 Hc0]]; [apply Forall_nil_2 | by eapply (ws_tame _ _ _ _ _ Hwalk)]. }
    split_and!; try done.
    + split; [done|]. eapply spec_ram; [done | | done]. intros _ g Hg. destruct Hos as [->|[c0 Hc0]]; [by apply elem_of_nil in Hg|].
      by eapply (ws_ram _ _ _ _ _ Hwalk).
    + split_and!; try done. exists t. by rewrite Hfull.
    + intros ->. simpl. by eapply lookup1_full.
    + destruct Hos as [->|[c0 Hc0]]; [by left | right; by exists c0, n].
  - exists As, (s_cpu s), a, n. split_and!; [done | done |]. by eapply lookup1_none; [apply Hwalk | | | |].
Qed.
(** ** [mmu_lookup] *)

(** The part of an access of RAM in one page. *)
Definition ram_part (As : atlb) (a n : Z) (d : MMULookupPageData) : Prop :=
  exists f, current As m a ty f /\ haddr d = host_of f a /\ l_addr d = a /\ l_size d = n
    /\ test (l_flags d) TLB_MMIO = false /\ test (l_flags d) TLB_DISCARD_WRITE = false.

(** Why an access may leave before it is performed. *)
Definition watch_reason (w : why) : Prop :=
  match w with
  | Watchpoint => exists f, G f /\ watched (f_back f) (wp_kind ty) = true
  | CodeWritten => ty = MMU_DATA_STORE /\ exists w a n, tb_invalidate w a n = None
  | _ => False
  end.

Definition lookup_exit (addr oi : Z) (w : why) : Prop :=
  match w with
  | Unaligned => test addr (Z.shiftl 1 (get_alignment_bits (get_memop oi)) - 1) = true
  | _ => watch_reason w
  end.

Lemma answers_flags As s a n d f : tlb_ready As s -> P (page_at a) -> answers As (s_cpu s) a n d f ->
  (forall k, k ∈ [0; 8; 9] -> Z.testbit (l_flags d) k = false)
  /\ (test (l_flags d) TLB_WATCHPOINT = true -> watched (f_back f) (wp_kind ty) = true) /\ G f
  /\ (test (l_flags d) TLB_NOTDIRTY = true -> ty = MMU_DATA_STORE).
Proof.
  intros [_ Hram] HP (Hcur & _ & Hfl & _). destruct Hcur as (A & HA & Hf & Hen). pose proof (Hram A _ f HA HP Hf) as Hgood.
  split_and!; [| |done|].
  - intros k Hk. rewrite (upto_bit ty _ (flags_of f ty) k Hfl) by (set_unfold in Hk; lia). by eapply ram_flags; [apply HG | |].
  - change TLB_WATCHPOINT with (2 ^ 1). rewrite test_bit by lia. rewrite (upto_bit ty _ (flags_of f ty) 1 Hfl) by lia. by apply watch_flag.
  - change TLB_NOTDIRTY with (2 ^ 10). rewrite test_bit by lia. intros Hb. destruct (HG f Hgood) as (Hri & _). by eapply dirty_flag.
Qed.

Lemma flag_test d fl : (forall k, k ∈ [0; 8; 9] -> Z.testbit fl k = false) -> l_flags d = fl ->
  test (l_flags d) TLB_MMIO = false /\ test (l_flags d) TLB_DISCARD_WRITE = false /\ test (l_flags d) TLB_BSWAP = false.
Proof.
  intros H ->. change TLB_MMIO with (2 ^ 9). change TLB_DISCARD_WRITE with (2 ^ 8). change TLB_BSWAP with (2 ^ 0).
  rewrite !test_bit by lia. split_and!; apply H; set_solver.
Qed.

(** Watchpoints and dirty pages of one part. *)
Lemma part_post As s a n d f : tlb_ready As s -> P (page_at a) -> is_u 64 a -> answers As (s_cpu s) a n d f ->
  post (mmu_watch_or_dirty m d ty) s
    (fun d' s' => tlb_kept As s s' /\ ram_part As a n d') watch_reason False.
Proof.
  intros Hr HP Ha Hans. destruct (answers_flags As s a n d f Hr HP Hans) as (Hfl & Hwt & Hen & Hst).
  destruct Hans as (Hcur & Hh & Hup & Hfull & Hda & Hdn).
  eapply post_mono; [apply (watch_or_dirty_post As s m d ty); [apply Hr | done | by rewrite Hda] | | | done].
  - intros d' s' (Hk & fl & -> & Hbits). split; [done|]. exists f.
    assert (Hfl' : forall k, k ∈ [0; 8; 9] -> Z.testbit fl k = false).
    { intros k Hk'. rewrite Hbits by (set_unfold in Hk'; lia). by apply Hfl. }
    destruct (flag_test (with_flags fl d) fl Hfl' eq_refl) as (H1 & H2 & _). by split_and!.
  - intros w [[-> Hw]|(-> & Hnd & Hi)]; simpl; [|by auto]. exists f. split; [done | by apply Hwt].
Qed.
Lemma ready_kept As s s' : tlb_ready As s -> tlb_kept As s s' -> tlb_ready As s'.
Proof. intros [_ Hr] (Hok & _). by split. Qed.

Lemma exit_weaken addr oi w : watch_reason w -> lookup_exit addr oi w.
Proof. by destruct w. Qed.

Lemma kept_trans s1 s2 s3 : kept s1 s2 -> kept s2 s3 -> kept s1 s3.
Proof. intros [H1 H2] [H3 H4]. split; congruence. Qed.

(** The translation of another page survives a lookup. *)
Lemma current_kept As os a a1 f : Forall (tame m (page_at a1)) os -> page_at a1 <> page_at a -> current As m a ty f -> current (spec_ops os As) m a ty f.
Proof.
  intros Hos Hne (A & HA & Hf & Hen). destruct (tame_spec m _ (page_at a) os As A Hos) as (A' & HA' & E); [congruence | done |].
  exists A'. by rewrite E.
Qed.

(** The parts of the access after both lookups. *)
Lemma two_parts_post As s a0 n0 d0 f0 a1 n1 d1 f1 addr oi :
  tlb_ready As s -> P (page_at a0) -> P (page_at a1) -> is_u 64 a0 -> is_u 64 a1 ->
  answers As (s_cpu s) a0 n0 d0 f0 -> answers As (s_cpu s) a1 n1 d1 f1 ->
  post (if test (Z.lor (l_flags d0) (l_flags d1)) (Z.lor TLB_WATCHPOINT TLB_NOTDIRTY) then
          p0 ← mmu_watch_or_dirty m d0 ty; p1 ← mmu_watch_or_dirty m d1 ty; mret (p0, p1)
        else mret (d0, d1)) s
    (fun '(p0, p1) s' => tlb_ready As s' /\ kept s s' /\ ram_part As a0 n0 p0 /\ ram_part As a1 n1 p1) (lookup_exit addr oi) walk_failed.
Proof.
  intros Hr H0 H1 Hu0 Hu1 Ha0 Ha1. destruct (test _ _).
  - eapply post_bind.
    { eapply post_mono; [by eapply (part_post As s a0 n0 d0 f0) | intros d' s' H; exact H | apply exit_weaken | done]. }
    intros p0 s1 (Hk1 & Hp0). eapply post_bind.
    { assert (Ha1' : answers As (s_cpu s1) a1 n1 d1 f1).
      { destruct Ha1 as (? & ? & ? & Hfull & ? & ?). split_and!; try done. by apply Hk1. }
      eapply post_mono; [eapply (part_post As s1 a1 n1 d1 f1); [by eapply ready_kept | done | done | done] | intros d' s' H; exact H | apply exit_weaken | done]. }
    intros p1 s2 (Hk2 & Hp1). apply post_ret. split_and!; try done; [eapply ready_kept; [by eapply ready_kept | done]|].
    eapply kept_trans; [apply Hk1 | apply Hk2].
  - apply post_ret. split_and!; try done.
    + destruct (answers_flags As s a0 n0 d0 f0 Hr H0 Ha0) as (Hfl & _). destruct (flag_test d0 _ Hfl eq_refl) as (? & ? & _).
      destruct Ha0 as (? & ? & ? & ? & ? & ?). exists f0. by split_and!.
    + destruct (answers_flags As s a1 n1 d1 f1 Hr H1 Ha1) as (Hfl & _). destruct (flag_test d1 _ Hfl eq_refl) as (? & ? & _).
      destruct Ha1 as (? & ? & ? & ? & ? & ?). exists f1. by split_and!.
Qed.

(** The operations of the target for the pages of an access. *)
Definition asked (addr n : Z) (os : list op) : Prop :=
  exists os0 os1, os = os0 ++ os1 /\ walked addr os0 /\ walked (page_at (u64 (addr + n - 1))) os1.

(** What a translated access is. *)
Definition looked_up (addr n oi : Z) (As : atlb) s (l : MMULookupLocals) (cross : bool) s' : Prop :=
  tlb_ready As s' /\ kept s s' /\ l_memop l = get_memop oi /\ l_mmu_idx l = m /\ cross = (4096 <? addr mod 4096 + n)
  /\ ram_part As addr (first_part addr n) (page0 l)
  /\ (cross = true -> ram_part As (u64 (addr + first_part addr n)) (n - first_part addr n) (page1 l)).
Lemma memop_bytes memop k : memop_ok memop k -> 0 <= k <= 4 -> memop_size memop = 2 ^ k /\ 1 <= 2 ^ k <= 16.
Proof.
  intros [Hk _] Hr. unfold memop_size. rewrite Hk, Z.shiftl_1_l. clear Hk. split; [done|].
  assert (H : k ∈ [0; 1; 2; 3; 4]) by (rewrite !elem_of_cons; lia). set_unfold in H. destruct_or! H; try done; subst k; by vm_compute.
Qed.

Lemma answers_part As s a n d f : tlb_ready As s -> P (page_at a) -> answers As (s_cpu s) a n d f ->
  ram_part As a n d /\ test (l_flags d) TLB_BSWAP = false.
Proof.
  intros Hr HP Hans. destruct (answers_flags As s a n d f Hr HP Hans) as (Hfl & _). destruct (flag_test d _ Hfl eq_refl) as (? & ? & ?).
  destruct Hans as (? & ? & ? & ? & ? & ?). split; [|done]. exists f. by split_and!.
Qed.

(** One page. *)
Lemma lookup_one As s addr n oi : tlb_ready As s -> is_u 64 addr -> P (page_at addr) -> addr mod 4096 + n <= 4096 ->
  post ('(p0, _) ← lookup1 walk addr n m ty;
        let flags := l_flags p0 in
        p0 ← (if test flags (Z.lor TLB_WATCHPOINT TLB_NOTDIRTY) then mmu_watch_or_dirty m p0 ty else mret p0);
        let memop := if test flags TLB_BSWAP then Z.lxor (get_memop oi) MO_BSWAP else get_memop oi in
        mret ({| page0 := p0; page1 := no_page (page_at (u64 (addr + n - 1))); l_memop := memop; l_mmu_idx := m |}, false)) s
    (fun '(l, cross) s' => exists os, asked addr n os /\ looked_up addr n oi (spec_ops os As) s l cross s') (lookup_exit addr oi) walk_failed.
Proof.
  intros Hr Ha HP Hn. eapply post_bind; [eapply post_mono; [by eapply lookup1_post | intros x s' H; exact H | done | done]|].
  intros [d r] s1 (os & f & Hos & Hr1 & Hk1 & Hans & _ & Hwalked). cbv beta iota zeta.
  destruct (answers_part _ _ _ _ _ _ Hr1 HP Hans) as [Hpart ->].
  assert (Hfp : first_part addr n = n) by (unfold first_part; lia).
  eapply (post_bind _ _ _ (fun d' s' => tlb_kept (spec_ops os As) s1 s' /\ ram_part (spec_ops os As) addr n d')).
  { destruct (test _ _).
    - eapply post_mono; [by eapply part_post | by auto | apply exit_weaken | done].
    - apply post_ret. split; [|done]. split_and!; [apply Hr1 | done | done]. }
  intros d' s2 (Hk2 & Hp). apply post_ret. exists os.
  split; [exists os, []; rewrite app_nil_r; split_and!; [done | done | by left]|]. split_and!; try done.
  - by eapply ready_kept.
  - eapply kept_trans; [done | apply Hk2].
  - symmetry. apply Z.ltb_ge. lia.
  - by rewrite Hfp.
Qed.

(** Two pages. *)
Lemma lookup_two As s addr n oi : tlb_ready As s -> is_u 64 addr -> 1 <= n <= 4096 -> 4096 < addr mod 4096 + n ->
  let addr1 := page_at (u64 (addr + n - 1)) in
  P (page_at addr) -> P addr1 ->
  post (let size0 := s32 (u64 (addr1 - addr)) in
        '(p0, _) ← lookup1 walk addr size0 m ty;
        '(p1, resized) ← lookup1 walk addr1 (n - size0) m ty;
        p0 ← (if resized : bool then s ← get; t ← must (modes (s_cpu s) !! m); mret (with_full (tlb_index t addr) p0) else mret p0);
        let flags := Z.lor (l_flags p0) (l_flags p1) in
        '(p0, p1) ← (if test flags (Z.lor TLB_WATCHPOINT TLB_NOTDIRTY) then
                       p0 ← mmu_watch_or_dirty m p0 ty; p1 ← mmu_watch_or_dirty m p1 ty; mret (p0, p1)
                     else mret (p0, p1));
        mret ({| page0 := p0; page1 := p1; l_memop := get_memop oi; l_mmu_idx := m |}, true)) s
    (fun '(l, cross) s' => exists os, asked addr n os /\ looked_up addr n oi (spec_ops os As) s l cross s') (lookup_exit addr oi) walk_failed.
Proof.
  intros Hr Ha Hn Hc addr1 HP HP1. destruct (crossing addr n Ha Hn) as [_ Hcr]. destruct (Hcr Hc) as (Hu1 & Hpg1 & Hne & Hs0).
  fold addr1 in Hu1, Hpg1, Hne, Hs0. rewrite Hs0. cbv beta iota zeta. rewrite <- Hpg1 in HP1.
  eapply post_bind; [eapply post_mono; [by eapply lookup1_post | intros x s' H; exact H | done | done]|].
  intros [d0 r0] s1 (os0 & f0 & Hos0 & Hr1 & Hk1 & Hans0 & _ & Hw0). cbv beta iota zeta.
  eapply post_bind; [eapply post_mono; [by eapply lookup1_post | intros x s' H; exact H | done | done]|].
  intros [d1 r1] s2 (os1 & f1 & Hos1 & Hr2 & Hk2 & Hans1 & Hfull & Hw1). cbv beta iota zeta.
  rewrite <- spec_ops_app in *.
  eapply (post_bind _ _ _ (fun d0 s' => s' = s2 /\ answers (spec_ops (os0 ++ os1) As) (s_cpu s2) addr (first_part addr n) d0 f0)).
  { destruct Hans0 as (Hcur & Hh & Hfl & Hf0 & Hda & Hdn).
    assert (Hcur' : current (spec_ops (os0 ++ os1) As) m addr ty f0).
    { rewrite spec_ops_app. by eapply current_kept; [| rewrite Hpg1 |]. }
    destruct r1.
    - destruct (lookup_lt_is_Some_2 (modes (s_cpu s2)) m) as [t Et]; [by rewrite (proj1 (ok_len _ _ (proj1 Hr2)))|].
      eapply post_bind; [by apply (post_get s2 (fun a s' => a = s2 /\ s' = s2))|]. intros a s' [-> ->].
      eapply post_bind; [eapply (post_must _ t s2 (fun a s' => a = t /\ s' = s2)); done|]. intros a s' [-> ->].
      apply post_ret. split; [done|]. split_and!; try done. exists t. split; [done|].
      destruct (index_in_table t addr (proj2 (cpu_ok_shapes _ _ (proj1 Hr2)) m t Et)) as (_ & fe & _ & Hfe). simpl. by rewrite Hfe.
    - apply post_ret. split; [done|]. split_and!; try done. by apply Hfull. }
  intros d0' s' [-> Hans0']. cbv beta iota zeta.
  eapply post_bind; [by eapply (two_parts_post _ s2 addr _ d0' f0 addr1 _ d1 f1 addr oi)|].
  intros [p0 p1] s3 (Hr3 & Hk3 & Hp0 & Hp1). apply post_ret. exists (os0 ++ os1).
  split; [by exists os0, os1|]. split_and!; try done.
  - eapply kept_trans; [eapply kept_trans|]; done.
  - symmetry. by apply Z.ltb_lt.
  - intros _. replace (u64 (addr + first_part addr n)) with addr1; [done|].
    unfold addr1. rewrite last_page by done. by rewrite (proj2 (Z.ltb_lt _ _) Hc).
Qed.

Lemma mmu_lookup_post As s addr oi k : tlb_ready As s -> is_u 64 addr -> memop_ok (get_memop oi) k -> 0 <= k <= 4 ->
  Z.to_nat (get_mmuidx oi) = m -> P (page_at addr) -> P (page_at (u64 (addr + 2 ^ k - 1))) ->
  post (mmu_lookup walk addr oi ty) s
    (fun '(l, cross) s' => exists os, asked addr (2 ^ k) os /\ looked_up addr (2 ^ k) oi (spec_ops os As) s l cross s') (lookup_exit addr oi) walk_failed.
Proof.
  intros Hr Ha Hop Hk Hidx HP HP1. destruct (memop_bytes _ _ Hop Hk) as [Hsz Hr16].
  unfold mmu_lookup. rewrite Hidx, Hsz. destruct (test addr (Z.shiftl 1 _ - 1)) eqn:Eal; [by apply post_leave|].
  destruct (crossing addr (2 ^ k) Ha ltac:(lia)) as [Hx _]. rewrite Hx. destruct (Z.ltb_spec 4096 (addr mod 4096 + 2 ^ k)); cbn [negb].
  - by apply lookup_two; [| |lia|lia| |].
  - by apply lookup_one.
Qed.
End Translate.
