(* ===== verification/SoftmmuParts.v ===== *)
(** * The parts of a guest access

    What [do_ld_*] and [do_st_*] of accel/tcg/cputlb.c do to the part of an access that
    lies in one page of RAM: the bytes read in big-endian order after the previous part,
    the bytes of the value stored and the rest of the value.  [gload] and [gstore] are the
    reference: guest memory byte by byte through the current translations. *)
From S2P Require Import Prelude BitOps HostUtils Bitmap Memory Tci Tlb TlbCoherence TlbOps TlbLookup TlbSafety HostAtomic HostAtomicExact Softmmu SoftmmuLookup.

(** ** Reversed bytes *)

Lemma or_byte b x : 0 <= b < 256 -> Z.lor b (Z.shiftl x 8) = b + 256 * x.
Proof. intros Hb. rewrite Z.lor_comm. by apply (or_concat 8). Qed.

Lemma le_snoc l b : Forall (fun x => 0 <= x < 256) l ->  0 <= b < 256 ->
  little_endian_to_Z 8 (l ++ [b]) = little_endian_to_Z 8 l + 256 ^ Z.of_nat (length l) * b.
Proof.
  intros Hl Hb. induction Hl as [|x l Hx Hl IH]; cbn [app little_endian_to_Z length].
  - rewrite Z.shiftl_0_l, Z.lor_0_r. simpl. lia.
  - rewrite IH, !or_byte by done. rewrite Nat2Z.inj_succ, Z.pow_succ_r by lia. lia.
Qed.

Lemma bswap_S n b x : 0 <= n -> 0 <= b < 256 -> bswap_bytes (n + 1) (b + 256 * x) = bswap_bytes n x + 256 ^ n * b.
Proof.
  intros Hn Hb. unfold bswap_bytes. rewrite Z.add_1_r, Z_to_little_endian_succ by done.
  assert (Hs : Z.land (b + 256 * x) (Z.ones 8) = b).
  { rewrite Z.land_ones by lia. change (2 ^ 8) with 256. rewrite Z.mul_comm, Z.mod_add by lia. by apply Z.mod_small. }
  assert (Hr : Z.shiftr (b + 256 * x) 8 = x).
  { rewrite Z.shiftr_div_pow2 by lia. change (2 ^ 8) with 256. rewrite Z.mul_comm, Z.div_add, Z.div_small by lia. lia. }
  rewrite Hs, Hr, reverse_cons, le_snoc; [|apply Forall_reverse; by apply (Z_to_little_endian_bound n 8 x) | done].
  by rewrite length_reverse, length_Z_to_little_endian by lia.
Qed.

Lemma bswap_0 x : bswap_bytes 0 x = 0.
Proof. done. Qed.

Lemma bswap_1 x : 0 <= x < 256 -> bswap_bytes 1 x = x.
Proof.
  intros Hx. replace x with (x + 256 * 0) at 1 by lia. rewrite (bswap_S 0) by lia. rewrite bswap_0. simpl. lia.
Qed.

(** The bytes of two adjacent words in reverse order. *)
Lemma bswap_concat a b x y : 0 <= b -> is_u (8 * Z.of_nat a) x ->
  bswap_bytes (Z.of_nat a + b) (x + 2 ^ (8 * Z.of_nat a) * y) = bswap_bytes (Z.of_nat a) x * 256 ^ b + bswap_bytes b y.
Proof.
  intros Hb. revert x. induction a as [|a IH]; intros x Hx.
  - unfold is_u in Hx. simpl in Hx. assert (x = 0) as -> by lia. change (8 * Z.of_nat 0) with 0. replace (Z.of_nat 0 + b) with b by lia. replace (0 + 2 ^ 0 * y) with y by lia. rewrite bswap_0. lia.
  - unfold is_u in *. replace (8 * Z.of_nat (S a)) with (8 + 8 * Z.of_nat a) in * by lia. rewrite Z.pow_add_r in * by lia. change (2 ^ 8) with 256 in *.
    pose proof (Z.div_mod x 256 ltac:(lia)) as Hd. pose proof (Z.mod_pos_bound x 256 ltac:(lia)) as Hm.
    assert (Hq : 0 <= x / 256 < 2 ^ (8 * Z.of_nat a)) by (split; [apply Z.div_pos; lia | apply Z.div_lt_upper_bound; lia]).
    replace (x + 256 * 2 ^ (8 * Z.of_nat a) * y) with (x mod 256 + 256 * (x / 256 + 2 ^ (8 * Z.of_nat a) * y)) by lia.
    rewrite Nat2Z.inj_succ. replace (Z.succ (Z.of_nat a) + b) with (Z.of_nat a + b + 1) by lia. rewrite bswap_S, IH by lia.
    assert (Hx1 : bswap_bytes (Z.succ (Z.of_nat a)) x = bswap_bytes (Z.of_nat a) (x / 256) + 256 ^ Z.of_nat a * (x mod 256)).
    { rewrite <- Z.add_1_r, <- bswap_S by lia. f_equal. lia. }
    rewrite Hx1, Z.pow_add_r by lia. lia.
Qed.

(** ** The part of a load in one page *)

Lemma shift_or r n x : 0 <= n -> is_u (8 * n) x -> is_u (64 - 8 * n) r -> Z.lor (u64 (Z.shiftl r (n * 8))) x = r * 256 ^ n + x.
Proof.
  intros Hn Hx Hr. rewrite (Z.mul_comm n 8). rewrite uw_small.
  - rewrite or_concat by (done || lia). rewrite Z.pow_mul_r by lia. change (2 ^ 8) with 256. lia.
  - unfold is_u in *. rewrite Z.shiftl_mul_pow2 by lia. split; [lia|]. destruct (Z.le_gt_cases (8 * n) 64).
    + replace (2 ^ 64) with (2 ^ (64 - 8 * n) * 2 ^ (8 * n)) by (rewrite <- Z.pow_add_r by lia; f_equal; lia). nia.
    + rewrite Z.pow_neg_r in Hr by lia. lia.
Qed.

(** What a part read in big-endian order after [r]. *)
Definition be_value (r : Z) (n : nat) (x : Z) : Z := r * 256 ^ Z.of_nat n + bswap_bytes (Z.of_nat n) x.

Lemma be_value_range r n x : is_u (64 - 8 * Z.of_nat n) r -> Z.of_nat n <= 8 -> is_u 64 (be_value r n x).
Proof.
  intros Hr Hn. unfold be_value. pose proof (bswap_bytes_range (Z.of_nat n) x ltac:(lia)) as Hb. unfold is_u in *.
  replace (Z.of_nat n * 8) with (8 * Z.of_nat n) in Hb by lia. replace (256 ^ Z.of_nat n) with (2 ^ (8 * Z.of_nat n)) by (by rewrite Z.pow_mul_r by lia).
  replace (2 ^ 64) with (2 ^ (64 - 8 * Z.of_nat n) * 2 ^ (8 * Z.of_nat n)) by (rewrite <- Z.pow_add_r by lia; f_equal; lia). nia.
Qed.

(** One more piece. *)
Lemma be_value_step r a b x y : is_u (8 * Z.of_nat a) x -> be_value (be_value r a x) b y = be_value r (a + b) (x + 2 ^ (8 * Z.of_nat a) * y).
Proof.
  intros Hx. unfold be_value. rewrite Nat2Z.inj_add, bswap_concat, Z.pow_add_r by (done || lia). lia.
Qed.

Lemma be_prefix r a b x : is_u (64 - 8 * Z.of_nat (a + b)) r -> Z.of_nat (a + b) <= 8 -> is_u (64 - 8 * Z.of_nat b) (be_value r a x).
Proof.
  intros Hr Hab. unfold be_value. pose proof (bswap_bytes_range (Z.of_nat a) x ltac:(lia)) as Hb. unfold is_u in *.
  replace (Z.of_nat a * 8) with (8 * Z.of_nat a) in Hb by lia. replace (256 ^ Z.of_nat a) with (2 ^ (8 * Z.of_nat a)) by (by rewrite Z.pow_mul_r by lia).
  replace (64 - 8 * Z.of_nat b) with (64 - 8 * Z.of_nat (a + b) + 8 * Z.of_nat a) by lia. rewrite Z.pow_add_r by lia. nia.
Qed.

Lemma ld_bytes_ok n m p r x : mem_wf m -> load n m p = Some x -> is_u (64 - 8 * Z.of_nat n) r -> Z.of_nat n <= 8 ->
  ld_bytes n m p r = Ok (be_value r n x).
Proof.
  intros Hm. revert p r x. induction n as [|n IH]; intros p r x Hl Hr Hn.
  { cbn [load] in Hl. injection Hl as <-. unfold be_value. simpl. f_equal. rewrite bswap_0. lia. }
  cbn [load] in Hl. destruct (m !! p) as [b|] eqn:Eb; simpl in Hl; [|done]. destruct (load n m (p + 1)) as [y|] eqn:Ey; simpl in Hl; [|done].
  injection Hl as <-. pose proof (Hm _ _ Eb) as Hb. cbn [ld_bytes].
  assert (Eb1 : load8 m p = Some b) by (cbn [load]; rewrite Eb; simpl; f_equal; lia). rewrite Eb1. cbn [acc mbind res_bind].
  assert (H64 : is_u (64 - 8 * 1) r).
  { unfold is_u in *. split; [lia|]. eapply Z.lt_le_trans; [apply Hr | apply Z.pow_le_mono_r; lia]. }
  change (Z.shiftl r 8) with (Z.shiftl r (1 * 8)). rewrite shift_or by (done || lia).
  assert (E1 : r * 256 ^ 1 + b = be_value r 1 b).
  { unfold be_value. change (Z.of_nat 1) with 1. by rewrite bswap_1. }
  rewrite E1, (IH (p + 1) _ y) by (done || lia || (apply be_prefix; [done | lia])). f_equal. by rewrite be_value_step.
Qed.

(** The pieces of [do_ld_parts_beN] and [store_parts_leN]. *)
Lemma piece_cases h s : 1 <= s <= 7 -> let k := Z.land (Z.lor h s) 7 in
  k <> 0 /\ (k = 4 -> h mod 4 = 0 /\ s = 4) /\ (k = 2 \/ k = 6 -> h mod 2 = 0 /\ 2 <= s).
Proof.
  intros Hs k. assert (Hk : k = Z.lor (h mod 8) s).
  { unfold k. rewrite Z.land_lor_distr_l, !land_7. f_equal. apply Z.mod_small. lia. }
  assert (H4 : h mod 4 = (h mod 8) mod 4) by (Z.to_euclidean_division_equations; lia).
  assert (H2 : h mod 2 = (h mod 8) mod 2) by (Z.to_euclidean_division_equations; lia).
  pose proof (Z.mod_pos_bound h 8 ltac:(lia)) as Hh. rewrite Hk, H4, H2. clear k Hk H4 H2. set (a := h mod 8) in *. clearbody a.
  assert (Hall : forallb (fun a => forallb (fun s => let k := Z.lor a s in
     negb (k =? 0) && implb (k =? 4) ((a mod 4 =? 0) && (s =? 4)) && implb ((k =? 2) || (k =? 6)) ((a mod 2 =? 0) && (2 <=? s))) (seqZ 1 7)) (seqZ 0 8) = true)
    by done.
  rewrite forallb_forall in Hall. specialize (Hall a (proj1 (list_elem_of_In _ _) (proj2 (elem_of_seqZ 0 8 a) ltac:(lia)))).
  rewrite forallb_forall in Hall. specialize (Hall s (proj1 (list_elem_of_In _ _) (proj2 (elem_of_seqZ 1 7 s) ltac:(lia)))).
  cbv zeta in Hall. set (k := Z.lor a s) in *. clearbody k. clear Hh. lia.
Qed.

Lemma load_split a b m p x : load (a + b) m p = Some x ->
  exists x0 x1, load a m p = Some x0 /\ load b m (p + Z.of_nat a) = Some x1 /\ x = x0 + 2 ^ (8 * Z.of_nat a) * x1.
Proof.
  intros Hx. assert (Hm : mapped m p (a + b)) by (apply load_is_Some; by rewrite Hx).
  destruct (load_total a m p) as [x0 E0]; [intros i Hi; apply Hm; lia|].
  destruct (load_total b m (p + Z.of_nat a)) as [x1 E1]; [intros i Hi; rewrite <- Z.add_assoc; apply Hm; lia|].
  exists x0, x1. split_and!; try done. pose proof (load_concat a b m p x0 x1 E0 E1) as Ec. congruence.
Qed.

Lemma be_shift r n x y : is_u (8 * Z.of_nat n) x -> y = bswap_bytes (Z.of_nat n) x -> is_u (64 - 8 * Z.of_nat n) r ->
  Z.lor (u64 (Z.shiftl r (8 * Z.of_nat n))) y = be_value r n x.
Proof.
  intros Hx -> Hr. rewrite (Z.mul_comm 8). apply shift_or; [lia | | done].
  rewrite Z.mul_comm. apply bswap_bytes_range. lia.
Qed.

(** One round of the loop of [do_ld_parts_beN]. *)
Lemma ld_piece m h n r : in_page m h n -> (1 <= n <= 7)%nat -> is_u (64 - 8 * Z.of_nat n) r ->
  exists a x, (1 <= a <= n)%nat /\ load a m h = Some x
  /\ (let k := Z.land (Z.lor h (Z.of_nat n)) 7 in
      if k =? 4 then x ← load_atomic 4 m h; Ok (Z.lor (u64 (Z.shiftl r 32)) (bswap32 x), 4)
      else if (k =? 2) || (k =? 6) then x ← load_atomic 2 m h; Ok (Z.lor (u64 (Z.shiftl r 16)) (bswap16 x), 2)
      else if k =? 0 then Assert
      else x ← acc (load8 m h); Ok (Z.lor (u64 (Z.shiftl r 8)) x, 1)) = Ok (be_value r a x, Z.of_nat a).
Proof.
  intros Hp Hn Hr. destruct (piece_cases h (Z.of_nat n) ltac:(lia)) as (H0 & H4 & H2). cbv zeta in *.
  set (k := Z.land _ 7) in *. clearbody k.
  assert (Hra : forall a, (a <= n)%nat -> is_u (64 - 8 * Z.of_nat a) r).
  { intros a Ha. unfold is_u in *. split; [lia|]. eapply Z.lt_le_trans; [apply Hr | apply Z.pow_le_mono_r; lia]. }
  assert (Hin : forall a, (a <= n)%nat -> mapped m h a) by (intros a Ha; apply in_page_mapped; by eapply in_page_le).
  destruct (Z.eqb_spec k 4) as [E4|_]; [|destruct ((k =? 2) || (k =? 6)) eqn:E2; [|rewrite (proj2 (Z.eqb_neq _ _) H0)]].
  - destruct (H4 E4) as [Hal Hs]. destruct (load_atomic_ok 4 m h Hal (Hin 4%nat ltac:(lia))) as (x & Hx & ->). exists 4%nat, x.
    split_and!; [lia | lia | done |]. pose proof (load_range 4 m h x (proj1 Hp) Hx) as Hux. cbn [mbind res_bind]. do 2 f_equal.
    apply (be_shift r 4 x); [done | | apply Hra; lia]. unfold bswap32. by rewrite (uw_small 32 x).
  - destruct (H2 ltac:(lia)) as [Hal Hs]. destruct (load_atomic_ok 2 m h Hal (Hin 2%nat ltac:(lia))) as (x & Hx & ->). exists 2%nat, x.
    split_and!; [lia | lia | done |]. pose proof (load_range 2 m h x (proj1 Hp) Hx) as Hux. cbn [mbind res_bind]. do 2 f_equal.
    apply (be_shift r 2 x); [done | | apply Hra; lia]. unfold bswap16. by rewrite (uw_small 16 x).
  - destruct (load_total 1 m h (Hin 1%nat ltac:(lia))) as [x Hx]. rewrite Hx. exists 1%nat, x.
    split_and!; [lia | lia | done |]. pose proof (load_range 1 m h x (proj1 Hp) Hx) as Hux. cbn [mbind res_bind acc]. do 2 f_equal.
    apply (be_shift r 1 x); [done | | apply Hra; lia]. symmetry. by apply bswap_1.
Qed.

Lemma ld_parts_ok fuel m h n r x : in_page m h n -> (1 <= n <= 7)%nat -> (n <= fuel)%nat -> load n m h = Some x ->
  is_u (64 - 8 * Z.of_nat n) r -> ld_parts fuel m h (Z.of_nat n) r = Ok (be_value r n x).
Proof.
  revert h n r x. induction fuel as [|fuel IH]; intros h n r x Hp Hn Hf Hx Hr; [lia|]. cbn [ld_parts].
  destruct (ld_piece m h n r Hp Hn Hr) as (a & x0 & Ha & Hx0 & E). cbv zeta in E |- *. rewrite E. cbn [mbind res_bind]. clear E.
  destruct (Z.eqb_spec (Z.of_nat n - Z.of_nat a) 0) as [E|E].
  { assert (a = n) as -> by lia. congruence. }
  assert (exists b, n = (a + b)%nat /\ (0 < b)%nat) as (b & -> & Hb) by (exists (n - a)%nat; lia).
  destruct (load_split a b m h x Hx) as (y0 & y1 & E0 & E1 & ->). assert (y0 = x0) as -> by congruence.
  replace (Z.of_nat (a + b) - Z.of_nat a) with (Z.of_nat b) by lia.
  rewrite (IH _ b _ y1); [|by eapply in_page_sub; [exact Hp | lia | lia | lia] | lia | lia | done | apply be_prefix; [done | lia]].
  f_equal. apply be_value_step. by eapply load_range; [apply Hp|].
Qed.

(** The bytes of an aligned word that belong to the part, as [do_ld_whole_be4] and
    [do_ld_whole_be8] shift them out. *)
Lemma bswap_slice (o s t : nat) lo mid hi : is_u (8 * Z.of_nat o) lo -> is_u (8 * Z.of_nat s) mid -> is_u (8 * Z.of_nat t) hi ->
  let k := Z.of_nat o + (Z.of_nat s + Z.of_nat t) in
  Z.shiftr (uw (8 * k) (Z.shiftl (bswap_bytes k (lo + 2 ^ (8 * Z.of_nat o) * (mid + 2 ^ (8 * Z.of_nat s) * hi))) (8 * Z.of_nat o)))
    (8 * (k - Z.of_nat s)) = bswap_bytes (Z.of_nat s) mid.
Proof.
  intros Hlo Hmid Hhi k. unfold k. rewrite !bswap_concat by (done || lia).
  pose proof (bswap_bytes_range (Z.of_nat t) hi ltac:(lia)) as Ht. pose proof (bswap_bytes_range (Z.of_nat s) mid ltac:(lia)) as Hs.
  set (T := bswap_bytes (Z.of_nat t) hi) in *. set (S := bswap_bytes (Z.of_nat s) mid) in *. set (O := bswap_bytes (Z.of_nat o) lo).
  rewrite Z.shiftl_mul_pow2, Z.shiftr_div_pow2 by lia. unfold uw, is_u in *.
  replace (8 * (Z.of_nat o + (Z.of_nat s + Z.of_nat t) - Z.of_nat s)) with (8 * Z.of_nat t + 8 * Z.of_nat o) by lia.
  replace (8 * (Z.of_nat o + (Z.of_nat s + Z.of_nat t))) with (8 * Z.of_nat s + (8 * Z.of_nat t + 8 * Z.of_nat o)) by lia.
  change 256 with (2 ^ 8). rewrite <- !Z.pow_mul_r by lia. rewrite (Z.mul_comm (Z.of_nat t) 8), (Z.mul_comm (Z.of_nat s) 8) in *.
  replace (8 * (Z.of_nat s + Z.of_nat t)) with (8 * Z.of_nat s + 8 * Z.of_nat t) by lia. rewrite !Z.pow_add_r by lia.
  set (a := 2 ^ (8 * Z.of_nat s)) in *. set (b := 2 ^ (8 * Z.of_nat t)) in *. set (c := 2 ^ (8 * Z.of_nat o)).
  assert (0 < c) by (apply Z.pow_pos_nonneg; lia).
  replace ((O * (a * b) + (S * b + T)) * c) with ((S * b + T) * c + O * (a * (b * c))) by lia.
  assert (Hin : 0 <= S * b + T < a * b) by (split; [nia | apply Z.lt_le_trans with (S * b + b); nia]).
  rewrite Z.mod_add by nia. rewrite Z.mod_small by (split; nia).
  symmetry. apply (Z.div_unique _ _ _ (T * c)); nia.
Qed.

Lemma word_slice k m h n w x : mem_wf m -> (0 < k)%nat -> load k m (h - h mod Z.of_nat k) = Some w -> load n m h = Some x ->
  h mod Z.of_nat k + Z.of_nat n <= Z.of_nat k ->
  Z.shiftr (uw (8 * Z.of_nat k) (Z.shiftl (bswap_bytes (Z.of_nat k) w) (8 * (h mod Z.of_nat k)))) (8 * (Z.of_nat k - Z.of_nat n))
    = bswap_bytes (Z.of_nat n) x.
Proof.
  intros Hm Hk Hw Hx Ho. pose proof (Z.mod_pos_bound h (Z.of_nat k) ltac:(lia)) as Hr.
  remember (Z.to_nat (h mod Z.of_nat k)) as o eqn:Eo. assert (Eo' : h mod Z.of_nat k = Z.of_nat o) by lia. rewrite Eo' in *.
  assert (exists t, k = (o + (n + t))%nat) as [t ->] by (exists (k - o - n)%nat; lia). clear Eo.
  destruct (load_split _ _ _ _ _ Hw) as (lo & r & Elo & Er & ->). destruct (load_split _ _ _ _ _ Er) as (mid & hi & Emid & Ehi & ->).
  replace (h - Z.of_nat o + Z.of_nat o) with h in * by lia. assert (mid = x) as -> by congruence.
  rewrite !Nat2Z.inj_add. apply bswap_slice; by eapply load_range.
Qed.

(** A part that ends or begins at a page boundary lies in one aligned word. *)
Definition edge (h n : Z) : Prop := (h + n) mod 4096 = 0 \/ h mod 4096 = 0.

Lemma edge_word h n k : edge h n -> k = 4 \/ k = 8 -> 1 <= n <= k -> h mod k + n <= k /\ (h mod k + n = k \/ h mod k = 0).
Proof. unfold edge. intros [H|H] [->| ->] Hn; Z.to_euclidean_division_equations; lia. Qed.

(** The part of an access of RAM in one page, [n] bytes of it. *)
Definition part_ok (mm : mem) (p : MMULookupPageData) (n : nat) : Prop :=
  l_size p = Z.of_nat n /\ in_page mm (haddr p) n /\ l_addr p mod 4096 = haddr p mod 4096
  /\ test (l_flags p) TLB_MMIO = false /\ test (l_flags p) TLB_DISCARD_WRITE = false.

Section Parts.
Context {W : Type} `{!World W} (al8 serial : bool) (fast_depth : Z).
Implicit Type s : st W.

(** A load that returns [x] and changes nothing, or needs an atomic the host does not have. *)
Definition reads {A} (x : A) s (v : A) s' : Prop := s' = s /\ v = x.
Definition no_atomic (w : why) : Prop := w = NotAtomic /\ al8 = false.

Lemma same_offset p mm n k : part_ok mm p n -> k = 4 \/ k = 8 -> l_addr p mod k = haddr p mod k.
Proof. intros (_ & _ & H & _) [->| ->]; Z.to_euclidean_division_equations; lia. Qed.

Lemma whole_be4_post s p r n x : part_ok (s_ram s) p n -> (1 <= n <= 4)%nat -> edge (haddr p) (Z.of_nat n) ->
  load n (s_ram s) (haddr p) = Some x -> is_u (64 - 8 * Z.of_nat n) r ->
  post (do_ld_whole_be4 p r) s (reads (be_value r n x) s) no_atomic False.
Proof.
  intros Hp Hn He Hx Hr. destruct (edge_word _ _ 4 He ltac:(by left) ltac:(lia)) as [Ho _].
  pose proof (same_offset p _ n 4 Hp ltac:(by left)) as Hoff. destruct Hp as (Hs & Hin & _).
  destruct (load_atomic_ok 4 (s_ram s) (haddr p - haddr p mod 4) (aligned_down 4 _ eq_refl)
    (word_mapped _ _ n 4 Hin ltac:(lia) ltac:(set_solver))) as (w & Hw & Ew).
  pose proof (word_slice 4 _ (haddr p) n w x (proj1 Hin) ltac:(lia) Hw Hx Ho) as Hsl.
  unfold post, do_ld_whole_be4, ram. rewrite land_3, Hoff, Hs. run_m. rewrite Ew. split; [done|].
  rewrite !(Z.mul_comm _ 8). unfold bswap32. rewrite (uw_small 32 w) by (by eapply (load_range 4); [apply Hin|]).
  etransitivity; [|by apply (be_shift r n x _ (load_range n _ _ _ (proj1 Hin) Hx) Hsl)]. done.
Qed.

Lemma whole_be8_post s p r n x : part_ok (s_ram s) p n -> (1 <= n <= 8)%nat -> edge (haddr p) (Z.of_nat n) ->
  load n (s_ram s) (haddr p) = Some x -> is_u (64 - 8 * Z.of_nat n) r ->
  post (do_ld_whole_be8 al8 p r) s (reads (be_value r n x) s) no_atomic False.
Proof.
  intros Hp Hn He Hx Hr. destruct (edge_word _ _ 8 He ltac:(by right) ltac:(lia)) as [Ho _].
  pose proof (same_offset p _ n 8 Hp ltac:(by right)) as Hoff. destruct Hp as (Hs & Hin & _).
  destruct (load_atomic_ok 8 (s_ram s) (haddr p - haddr p mod 8) (aligned_down 8 _ eq_refl)
    (word_mapped _ _ n 8 Hin ltac:(lia) ltac:(set_solver))) as (w & Hw & Ew).
  pose proof (word_slice 8 _ (haddr p) n w x (proj1 Hin) ltac:(lia) Hw Hx Ho) as Hsl.
  unfold post, do_ld_whole_be8, ram, load_atomic8_or_exit. destruct al8 eqn:Eal; [|by run_m]. rewrite land_7, Hoff, Hs. run_m. rewrite Ew. split; [done|].
  rewrite !(Z.mul_comm _ 8). unfold bswap64. rewrite (uw_small 64 w) by (by eapply (load_range 8); [apply Hin|]).
  etransitivity; [|by apply (be_shift r n x _ (load_range n _ _ _ (proj1 Hin) Hx) Hsl)]. done.
Qed.

Lemma do_ld_beN_post s m0 p r mop n x : part_ok (s_ram s) p n -> (1 <= n <= 7)%nat -> edge (haddr p) (Z.of_nat n) ->
  Z.land mop MO_ATOM_MASK <= MO_ATOM_NONE -> load n (s_ram s) (haddr p) = Some x -> is_u (64 - 8 * Z.of_nat n) r ->
  post (do_ld_beN al8 fast_depth m0 p r mop) s (reads (be_value r n x) s) no_atomic False.
Proof.
  intros Hp Hn He Hop Hx Hr. pose proof Hp as (Hs & Hin & _ & Hmmio & _). unfold do_ld_beN. rewrite Hmmio, Hs. cbv zeta.
  assert (Hbytes : post (do_ld_bytes_beN p r) s (reads (be_value r n x) s) no_atomic False).
  { unfold post, do_ld_bytes_beN, ram. run_m. rewrite Hs, Nat2Z.id, (ld_bytes_ok n _ _ _ x (proj1 Hin)) by (done || lia). done. }
  assert (Hparts : post (do_ld_parts_beN p r) s (reads (be_value r n x) s) no_atomic False).
  { unfold post, do_ld_parts_beN, ram. run_m. rewrite Hs, (ld_parts_ok _ _ _ n _ x) by (done || lia). done. }
  assert (Hwhole : post (if Z.of_nat n <? 4 then do_ld_whole_be4 p r else do_ld_whole_be8 al8 p r) s (reads (be_value r n x) s) no_atomic False).
  { destruct (Z.ltb_spec (Z.of_nat n) 4); [apply whole_be4_post | apply whole_be8_post]; done || lia. }
  pose proof (atom_cases mop Hop) as Hc. set_unfold in Hc. destruct_or! Hc; rewrite Hc; cbn; try done; by destruct (whole_half _ _).
Qed.

Lemma do_ld_1_post s m0 p x : part_ok (s_ram s) p 1 -> load 1 (s_ram s) (haddr p) = Some x ->
  post (do_ld_1 fast_depth m0 p) s (reads x s) no_atomic False.
Proof.
  intros (_ & _ & _ & Hmmio & _) Hx. unfold post, do_ld_1, ram. rewrite Hmmio. run_m. by rewrite Hx.
Qed.

End Parts.

(** ** The part of a store in one page *)

(** One round of [store_parts_leN]. *)
Lemma st_piece m h n v : in_page m h n -> (1 <= n <= 7)%nat ->
  exists a m', (1 <= a <= n)%nat /\ store a m h v = Some m'
  /\ (let k := Z.land (Z.lor h (Z.of_nat n)) 7 in
      if k =? 4 then m ← store_atomic 4 m h (u32 v); Ok (m, Z.shiftr v 32, 4)
      else if (k =? 2) || (k =? 6) then m ← store_atomic 2 m h (u16 v); Ok (m, Z.shiftr v 16, 2)
      else if k =? 0 then Assert
      else m ← acc (store8 m h (u8 v)); Ok (m, Z.shiftr v 8, 1)) = Ok (m', Z.shiftr v (8 * Z.of_nat a), Z.of_nat a).
Proof.
  intros Hp Hn. destruct (piece_cases h (Z.of_nat n) ltac:(lia)) as (H0 & H4 & H2). cbv zeta in *.
  set (k := Z.land _ 7) in *. clearbody k.
  assert (Hin : forall a, (a <= n)%nat -> mapped m h a) by (intros a Ha; apply in_page_mapped; by eapply in_page_le).
  destruct (Z.eqb_spec k 4) as [E4|_]; [|destruct ((k =? 2) || (k =? 6)) eqn:E2; [|rewrite (proj2 (Z.eqb_neq _ _) H0)]].
  - destruct (H4 E4) as [Hal Hs]. destruct (store_atomic_ok 4 m h (u32 v) Hal (Hin 4%nat ltac:(lia))) as (m' & Hm' & ->).
    exists 4%nat, m'. split_and!; [lia | lia | by rewrite <- Hm', <- (store_trunc 4) | done].
  - destruct (H2 ltac:(lia)) as [Hal Hs]. destruct (store_atomic_ok 2 m h (u16 v) Hal (Hin 2%nat ltac:(lia))) as (m' & Hm' & ->).
    exists 2%nat, m'. split_and!; [lia | lia | by rewrite <- Hm', <- (store_trunc 2) | done].
  - destruct (store_total 1 m h (u8 v) (Hin 1%nat ltac:(lia))) as [m' Hm']. rewrite Hm'.
    exists 1%nat, m'. split_and!; [lia | lia | by rewrite <- Hm', <- (store_trunc 1) | done].
Qed.

Lemma st_parts_ok fuel m h n v : in_page m h n -> (1 <= n <= 7)%nat -> (n <= fuel)%nat ->
  exists m', store n m h v = Some m' /\ store_parts_leN fuel m h (Z.of_nat n) v = Ok (m', Z.shiftr v (8 * Z.of_nat n)).
Proof.
  revert m h n v. induction fuel as [|fuel IH]; intros m h n v Hp Hn Hf; [lia|]. cbn [store_parts_leN].
  destruct (st_piece m h n v Hp Hn) as (a & m1 & Ha & Hm1 & E). cbv zeta in E |- *. rewrite E. cbn [mbind res_bind]. clear E.
  destruct (Z.eqb_spec (Z.of_nat n - Z.of_nat a) 0) as [E|E].
  { assert (a = n) as -> by lia. by exists m1. }
  assert (exists b, n = (a + b)%nat /\ (0 < b)%nat) as (b & -> & Hb) by (exists (n - a)%nat; lia).
  replace (Z.of_nat (a + b) - Z.of_nat a) with (Z.of_nat b) by lia.
  destruct (IH m1 (h + Z.of_nat a) b (Z.shiftr v (8 * Z.of_nat a))) as (m' & Hm' & Er); [| lia | lia |].
  { eapply in_page_store; [exact Hm1|]. eapply in_page_sub; [exact Hp | lia | lia | lia]. }
  exists m'. rewrite store_concat, Hm1. cbn [mbind option_bind]. split; [done|]. rewrite Er. do 2 f_equal.
  rewrite Z.shiftr_shiftr by lia. f_equal. lia.
Qed.

Section StoreParts.
Context {W : Type} `{!World W} (al8 serial : bool) (fast_depth : Z).
Implicit Type s : st W.

(** A store of [n] bytes that leaves the rest of the value. *)
Definition writes (n : nat) (p : MMULookupPageData) (v : Z) s (r : Z) s' : Prop :=
  exists m', store n (s_ram s) (haddr p) v = Some m' /\ s' = set_ram m' s /\ r = Z.shiftr v (8 * Z.of_nat n).

Lemma storing_post n s p v f : (exists m', store n (s_ram s) (haddr p) v = Some m' /\ f (s_ram s) = Ok (m', Z.shiftr v (8 * Z.of_nat n))) ->
  post (storing f) s (writes n p v s) (no_atomic al8) False.
Proof. intros (m' & Hm' & Ef). unfold post, storing, ram, set_mem. run_m. rewrite Ef. by exists m'. Qed.

(** The rest of the value is all there is to store at the start of a page. *)
Definition fits (h : Z) (n : nat) (v : Z) : Prop := (h + Z.of_nat n) mod 4096 = 0 \/ h mod 4096 = 0 /\ is_u (8 * Z.of_nat n) v.

Lemma fits_word h n v k : fits h n v -> k = 4 \/ k = 8 -> 1 <= Z.of_nat n <= k -> word_fits k (Z.of_nat n) (h mod k) v.
Proof.
  intros H Hk Hn. destruct (edge_word h (Z.of_nat n) k) as [Hle Hor]; [destruct H as [H|[H _]]; [by left | by right] | done | done |].
  destruct H as [H|[H Hv]]; [left | by right]. clear Hor. destruct Hk as [->| ->]; Z.to_euclidean_division_equations; lia.
Qed.

Lemma do_st_leN_post s m0 p v mop n : part_ok (s_ram s) p n -> (1 <= n <= 7)%nat -> fits (haddr p) n v ->
  Z.land mop MO_ATOM_MASK <= MO_ATOM_NONE ->
  post (do_st_leN al8 fast_depth m0 p v mop) s (writes n p v s) (no_atomic al8) False.
Proof.
  intros (Hs & Hin & _ & Hmmio & Hdw) Hn Hf Hop. unfold do_st_leN. rewrite Hmmio, Hdw, Hs. cbv zeta.
  assert (Hbytes : post (storing (fun mm => store_bytes_leN mm (haddr p) (Z.to_nat (Z.of_nat n)) v)) s (writes n p v s) (no_atomic al8) False).
  { rewrite Nat2Z.id. apply storing_post, bytes_ok. by apply in_page_mapped. }
  assert (Hparts : post (storing (fun mm => store_parts_leN (Z.to_nat (Z.of_nat n)) mm (haddr p) (Z.of_nat n) v)) s (writes n p v s) (no_atomic al8) False).
  { apply storing_post. by apply st_parts_ok; [| |lia]. }
  assert (Hwhole : post (if Z.of_nat n <=? 4 then storing (fun mm => store_whole_le4 mm (haddr p) (Z.of_nat n) v)
      else if al8 then storing (fun mm => store_whole_le8 mm (haddr p) (Z.of_nat n) v) else leave NotAtomic) s (writes n p v s) (no_atomic al8) False).
  { destruct (Z.leb_spec (Z.of_nat n) 4); [|destruct al8 eqn:Eal; [rewrite <- Eal | by apply post_leave]].
    - apply storing_post, whole_le4_ok; [done | lia | apply fits_word; [done | by left | lia] | done].
    - apply storing_post, whole_le8_ok; [done | lia | apply fits_word; [done | by right | lia] | done]. }
  pose proof (atom_cases mop Hop) as Hc. set_unfold in Hc. destruct_or! Hc; rewrite Hc; cbn; try done; by destruct (whole_half _ _).
Qed.

Lemma do_st_1_post s m0 p v : part_ok (s_ram s) p 1 ->
  post (do_st_1 fast_depth m0 p v) s (fun _ s' => writes 1 p v s (Z.shiftr v (8 * Z.of_nat 1)) s') (no_atomic al8) False.
Proof.
  intros (_ & Hin & _ & Hmmio & Hdw). destruct (store_total 1 (s_ram s) (haddr p) v) as [m' Hm']; [by apply in_page_mapped|].
  unfold post, do_st_1, st_page, ram, set_mem. rewrite Hmmio, Hdw. run_m. rewrite Hm'. by exists m'.
Qed.
End StoreParts.

(** ** Guest memory through the current translations *)

(** Byte by byte, in memory order, with the guest address wrapping at 64 bits. *)
Fixpoint gload (n : nat) (A : gmap Z fill) (mm : mem) (a : Z) : option Z :=
  match n with
  | O => Some 0
  | S n =>
      f ← A !! page_at a;
      b ← mm !! host_of f a;
      r ← gload n A mm (u64 (a + 1));
      Some (b + 256 * r)
  end.

Fixpoint gstore (n : nat) (A : gmap Z fill) (mm : mem) (a v : Z) : option mem :=
  match n with
  | O => Some mm
  | S n =>
      f ← A !! page_at a;
      _ ← mm !! host_of f a;
      gstore n A (<[host_of f a := v mod 256]> mm) (u64 (a + 1)) (v / 256)
  end.

Lemma next_in_page a : is_u 64 a -> a mod 4096 + 1 < 4096 -> u64 (a + 1) = a + 1 /\ page_at (a + 1) = page_at a /\ (a + 1) mod 4096 = a mod 4096 + 1.
Proof.
  intros Ha Hn. pose proof (Z.div_mod a 4096 ltac:(lia)) as Hd. unfold is_u in Ha. change (2 ^ 64) with (4503599627370496 * 4096) in Ha.
  pose proof (Z.mod_pos_bound a 4096 ltac:(lia)) as Hr.
  assert (Hq : (a + 1) / 4096 = a / 4096) by (symmetry; apply (Z.div_unique _ _ _ (a mod 4096 + 1)); lia).
  assert (Hu : is_u 64 (a + 1)) by (unfold is_u; change (2 ^ 64) with (4503599627370496 * 4096); lia).
  split_and!; [by apply uw_small | rewrite !page_at_div by (done || (unfold is_u; change (2 ^ 64) with (4503599627370496 * 4096); lia)); lia |].
  symmetry. apply (Z.mod_unique _ _ (a / 4096)); lia.
Qed.

Lemma host_next f a : addend_of (f_back f) mod 4096 = 0 -> a mod 4096 + 1 < 4096 -> (a + 1) mod 4096 = a mod 4096 + 1 ->
  host_of f (a + 1) = host_of f a + 1 /\ is_u 32 (host_of f a) /\ host_of f a mod 4096 = a mod 4096.
Proof.
  intros Hf Hn Hs. unfold host_of. change (2 ^ 12) with 4096. rewrite Hs.
  assert (Hu : is_u 32 (addend_of (f_back f))) by (unfold addend_of; destruct (_ || _); [apply uw_range; lia | by vm_compute]).
  pose proof (Z.mod_pos_bound a 4096 ltac:(lia)) as Hr. pose proof (Z.div_mod (addend_of (f_back f)) 4096 ltac:(lia)) as Hd.
  unfold is_u in Hu. change (2 ^ 32) with (1048576 * 4096) in Hu.
  rewrite !uw_small by (unfold is_u; change (2 ^ 32) with (1048576 * 4096); lia). split_and!; [lia | unfold is_u; change (2 ^ 32) with (1048576 * 4096); lia |].
  symmetry. apply (Z.mod_unique _ _ (addend_of (f_back f) / 4096)); lia.
Qed.

Lemma gload_page n A mm a f : is_u 64 a -> A !! page_at a = Some f -> addend_of (f_back f) mod 4096 = 0 -> a mod 4096 + Z.of_nat n <= 4096 ->
  gload n A mm a = load n mm (host_of f a).
Proof.
  revert a. induction n as [|n IH]; intros a Ha Hf Hal Hn; cbn [gload load]; [done|]. rewrite Hf. cbn [mbind option_bind].
  destruct (mm !! host_of f a); cbn [mbind option_bind]; [|done]. destruct n as [|n]; [done|].
  destruct (next_in_page a Ha ltac:(lia)) as (Hu & Hpg & Hmod). destruct (host_next f a Hal ltac:(lia) Hmod) as (Hh & _).
  rewrite Hu, IH, Hh; [done | rewrite <- Hu; apply uw_range; lia | by rewrite Hpg | done | rewrite Hmod; lia].
Qed.

Lemma gstore_page n A mm a v f : is_u 64 a -> A !! page_at a = Some f -> addend_of (f_back f) mod 4096 = 0 -> a mod 4096 + Z.of_nat n <= 4096 ->
  gstore n A mm a v = store n mm (host_of f a) v.
Proof.
  revert mm a v. induction n as [|n IH]; intros mm a v Ha Hf Hal Hn; cbn [gstore store]; [done|]. rewrite Hf. cbn [mbind option_bind].
  destruct (mm !! host_of f a); cbn [mbind option_bind]; [|done]. destruct n as [|n]; [done|].
  destruct (next_in_page a Ha ltac:(lia)) as (Hu & Hpg & Hmod). destruct (host_next f a Hal ltac:(lia) Hmod) as (Hh & _).
  rewrite Hu, IH, Hh; [done | rewrite <- Hu; apply uw_range; lia | by rewrite Hpg | done | rewrite Hmod; lia].
Qed.

Lemma u64_step a k : u64 (u64 (a + 1) + k) = u64 (a + (1 + k)).
Proof. rewrite uw_add_idemp_l. f_equal. lia. Qed.

Lemma gload_concat n k A mm a x y : is_u 64 a -> gload n A mm a = Some x -> gload k A mm (u64 (a + Z.of_nat n)) = Some y ->
  gload (n + k) A mm a = Some (x + 2 ^ (8 * Z.of_nat n) * y).
Proof.
  revert a x. induction n as [|n IH]; intros a x Ha Hx Hy; cbn [gload Nat.add] in *.
  { injection Hx as <-. rewrite Z.add_0_r, uw_small in Hy by done. rewrite Hy. f_equal. simpl. lia. }
  destruct (A !! page_at a) as [f|]; simpl in *; [|done]. destruct (mm !! host_of f a); simpl in *; [|done].
  destruct (gload n A mm (u64 (a + 1))) as [r|] eqn:Er; simpl in *; [|done].
  injection Hx as <-. rewrite (IH _ _ (uw_range 64 _ ltac:(lia)) Er); [|rewrite u64_step; by replace (1 + Z.of_nat n) with (Z.of_nat (S n)) by lia].
  simpl. f_equal. replace (8 * Z.of_nat (S n)) with (8 + 8 * Z.of_nat n) by lia. rewrite Z.pow_add_r by lia. lia.
Qed.

Lemma gstore_concat n k A mm a v : is_u 64 a ->
  gstore (n + k) A mm a v = (m' ← gstore n A mm a v; gstore k A m' (u64 (a + Z.of_nat n)) (Z.shiftr v (8 * Z.of_nat n))).
Proof.
  revert mm a v. induction n as [|n IH]; intros mm a v Ha; cbn [gstore Nat.add].
  { cbn. by rewrite Z.add_0_r, uw_small, Z.shiftr_0_r by done. }
  destruct (A !! page_at a) as [f|]; simpl; [|done]. destruct (mm !! host_of f a); simpl; [|done].
  rewrite IH by (apply uw_range; lia). destruct (gstore n _ _ _ _) as [m'|]; simpl; [|done].
  rewrite u64_step. replace (1 + Z.of_nat n) with (Z.pos (Pos.of_succ_nat n)) by lia. f_equal.
  replace (8 * Z.of_nat (S n)) with (8 + 8 * Z.of_nat n) by lia. rewrite <- Z.shiftr_shiftr by lia. f_equal.
  by rewrite Z.shiftr_div_pow2 by lia.
Qed.

Lemma host_at f a : addend_of (f_back f) mod 4096 = 0 ->
  is_u 32 (host_of f a) /\ host_of f a mod 4096 = a mod 4096 /\ host_of f a / 4096 = addend_of (f_back f) / 4096.
Proof.
  intros Hf. unfold host_of. change (2 ^ 12) with 4096.
  assert (Hu : is_u 32 (addend_of (f_back f))) by (unfold addend_of; destruct (_ || _); [apply uw_range; lia | by vm_compute]).
  pose proof (Z.mod_pos_bound a 4096 ltac:(lia)) as Hr. pose proof (Z.div_mod (addend_of (f_back f)) 4096 ltac:(lia)) as Hd.
  unfold is_u in Hu. change (2 ^ 32) with (1048576 * 4096) in Hu.
  rewrite !uw_small by (unfold is_u; change (2 ^ 32) with (1048576 * 4096); lia). split_and!.
  - unfold is_u. change (2 ^ 32) with (1048576 * 4096). lia.
  - symmetry. apply (Z.mod_unique _ _ (addend_of (f_back f) / 4096)); lia.
  - symmetry. apply (Z.div_unique _ _ _ (a mod 4096)); lia.
Qed.

Section Guest.
Context (m : nat) (ty : MMUAccessType) (P : Z -> Prop) (mm : mem).
Hypothesis Hwf : mem_wf mm.

(** The translation of [a], and the part of the access it gives. *)
Definition guest_part (A : gmap Z fill) (a : Z) (n : nat) (d : MMULookupPageData) : Prop :=
  exists f, A !! page_at a = Some f /\ addend_of (f_back f) mod 4096 = 0 /\ haddr d = host_of f a /\ part_ok mm d n.

Lemma ram_part_ok As A a n d : ram_tlb m P (ram_fill_ok mm ty) As -> As !! m = Some A -> P (page_at a) -> is_u 64 a ->
  a mod 4096 + Z.of_nat n <= 4096 -> ram_part m ty As a (Z.of_nat n) d -> guest_part A a n d.
Proof.
  intros Hram HA HP Ha Hn (f & (A' & HA' & Hf & _) & Hh & Hda & Hdn & H9 & H8). assert (A' = A) as -> by congruence.
  destruct (Hram A _ f HA HP Hf) as (_ & _ & _ & Hal & Hmap). exists f. split_and!; try done.
  destruct (host_at f a Hal) as (Hu & Hmod & Hdiv). split_and!; [done | | by rewrite Hda, Hh, Hmod | done | done].
  rewrite Hh. split_and!; [done | | by rewrite Hmod | done]. intros q Hq. apply Hmap. congruence.
Qed.

Lemma guest_part_load A a n d : is_u 64 a -> guest_part A a n d -> exists x, load n mm (haddr d) = Some x /\ gload n A mm a = Some x /\ is_u (8 * Z.of_nat n) x.
Proof.
  intros Ha (f & Hf & Hal & Hh & _ & Hin & _). destruct (load_total n mm (haddr d)) as [x Hx]; [by apply in_page_mapped|].
  exists x. destruct (host_at f a Hal) as (_ & Hmod & _). split_and!; [done | | by eapply load_range].
  rewrite (gload_page n A mm a f), <- Hh; try done. rewrite <- Hmod, <- Hh. apply Hin.
Qed.
End Guest.
