(* ===== verification/SoftmmuExact.v ===== *)
(** * Guest accesses are exact

    A guest load or store of RAM through the slow path (Softmmu) reads or writes, byte by
    byte, the host bytes the current translations of its pages give, whatever its size,
    alignment, atomicity and byte order, also across a page boundary. *)
From S2P Require Import Prelude BitOps HostUtils Bitmap Memory Tci Tlb TlbCoherence TlbOps TlbLookup TlbSafety HostAtomic HostAtomicExact Softmmu SoftmmuLookup SoftmmuParts.

(** ** Loads *)

(** The bytes in the order the access wants them. *)
Definition byte_order (memop : Z) (n : nat) (x : Z) : Z := if test memop MO_BSWAP then bswap_bytes (Z.of_nat n) x else x.

Lemma le_test memop : (Z.land memop MO_BSWAP =? MO_LE) = negb (test memop MO_BSWAP).
Proof. unfold test. by rewrite negb_involutive. Qed.

Lemma bswap_twice n x : is_u (8 * Z.of_nat n) x -> bswap_bytes (Z.of_nat n) (bswap_bytes (Z.of_nat n) x) = x.
Proof. intros Hx. rewrite bswap_bytes_involutive by lia. rewrite Z.mul_comm. by apply uw_small. Qed.

Section Loads.
Context {W : Type} `{!World W} (walk : walk_t) (al8 serial : bool) (fast_depth : Z).
Implicit Type s : st W.

Definition do_ld_N (k : nat) (m0 : nat) (p : MMULookupPageData) (memop : Z) : M Z :=
  match k with
  | 0 => do_ld_1 fast_depth m0 p
  | 1 => do_ld_2 al8 serial fast_depth m0 p memop
  | 2 => do_ld_4 al8 serial fast_depth m0 p memop
  | _ => do_ld_8 al8 serial fast_depth m0 p memop
  end%nat.

Lemma do_ld_N_post s k m0 p memop x : (k <= 3)%nat -> part_ok (s_ram s) p (2 ^ k) -> memop_ok memop (Z.of_nat k) ->
  load (2 ^ k) (s_ram s) (haddr p) = Some x ->
  post (do_ld_N k m0 p memop) s (reads (byte_order memop (2 ^ k) x) s) (no_atomic al8) False.
Proof.
  intros Hk Hp Hop Hx. pose proof Hp as (_ & Hin & _ & Hmmio & _). pose proof (load_range _ _ _ _ (proj1 Hin) Hx) as Hu.
  assert (k = 0 \/ k = 1 \/ k = 2 \/ k = 3)%nat as [-> | [-> | [-> | ->]]] by lia; cbn [do_ld_N].
  - eapply post_mono; [by apply (do_ld_1_post al8 fast_depth s m0 p x) | | done | done]. intros v s' [-> ->]. split; [done|].
    unfold byte_order. destruct (test memop _); [|done]. symmetry. by apply bswap_1.
  - unfold post, do_ld_2, ram. rewrite Hmmio. run_m.
    destruct (load_atom_2_ok al8 serial _ _ memop Hin Hop) as [(v & Hv & ->)|(-> & Hal & _)]; [|by split].
    assert (v = x) as -> by (simpl in *; congruence). unfold byte_order. destruct (test memop _); [|by split]. split; [done|]. unfold bswap16. by rewrite (uw_small 16 x).
  - unfold post, do_ld_4, ram. rewrite Hmmio. run_m.
    destruct (load_atom_4_ok al8 serial _ _ memop Hin Hop) as [(v & Hv & ->)|(-> & Hal & _)]; [|by split].
    assert (v = x) as -> by (simpl in *; congruence). unfold byte_order. destruct (test memop _); [|by split]. split; [done|]. unfold bswap32. by rewrite (uw_small 32 x).
  - unfold post, do_ld_8, ram. rewrite Hmmio. run_m.
    destruct (load_atom_8_ok al8 serial _ _ memop Hin Hop) as [(v & Hv & ->)|(-> & Hal & _)]; [|by split].
    assert (v = x) as -> by (simpl in *; congruence). unfold byte_order. destruct (test memop _); [|by split]. split; [done|]. unfold bswap64. by rewrite (uw_small 64 x).
Qed.

(** The two parts of a load across a page boundary. *)
Definition ld_parts_N (k : nat) (l : MMULookupLocals) : M Z :=
  match k with
  | 1%nat =>
      a ← do_ld_1 fast_depth (l_mmu_idx l) (page0 l);
      b ← do_ld_1 fast_depth (l_mmu_idx l) (page1 l);
      mret (if Z.land (l_memop l) MO_BSWAP =? MO_LE then Z.lor a (Z.shiftl b 8) else Z.lor b (Z.shiftl a 8))
  | 2%nat =>
      ret ← do_ld_beN al8 fast_depth (l_mmu_idx l) (page0 l) 0 (l_memop l);
      ret ← do_ld_beN al8 fast_depth (l_mmu_idx l) (page1 l) (u32 ret) (l_memop l);
      mret (if Z.land (l_memop l) MO_BSWAP =? MO_LE then bswap32 (u32 ret) else u32 ret)
  | _ =>
      ret ← do_ld_beN al8 fast_depth (l_mmu_idx l) (page0 l) 0 (l_memop l);
      ret ← do_ld_beN al8 fast_depth (l_mmu_idx l) (page1 l) ret (l_memop l);
      mret (if Z.land (l_memop l) MO_BSWAP =? MO_LE then bswap64 ret else ret)
  end.

Definition do_ldN_mmu (k : nat) (addr oi : Z) (ty : MMUAccessType) : M Z :=
  match k with
  | 0 => do_ld1_mmu walk fast_depth addr oi ty
  | 1 => do_ld2_mmu walk al8 serial fast_depth addr oi ty
  | 2 => do_ld4_mmu walk al8 serial fast_depth addr oi ty
  | _ => do_ld8_mmu walk al8 serial fast_depth addr oi ty
  end%nat.

(** A page's part of a load across a page boundary. *)
Definition two_parts s (l : MMULookupLocals) (n0 n1 : nat) (x0 x1 : Z) : Prop :=
  part_ok (s_ram s) (page0 l) n0 /\ part_ok (s_ram s) (page1 l) n1
  /\ edge (haddr (page0 l)) (Z.of_nat n0) /\ edge (haddr (page1 l)) (Z.of_nat n1)
  /\ load n0 (s_ram s) (haddr (page0 l)) = Some x0 /\ load n1 (s_ram s) (haddr (page1 l)) = Some x1.

Lemma two_parts_range s l n0 n1 x0 x1 : two_parts s l n0 n1 x0 x1 -> is_u (8 * Z.of_nat n0) x0 /\ is_u (8 * Z.of_nat n1) x1.
Proof. intros ((_ & Hin & _) & _ & _ & _ & H0 & H1). split; by eapply load_range; [apply Hin|]. Qed.

(** The bytes of both parts, most significant first. *)
Lemma be_chain n0 n1 x0 x1 : is_u (8 * Z.of_nat n0) x0 ->
  be_value (be_value 0 n0 x0) n1 x1 = bswap_bytes (Z.of_nat (n0 + n1)) (x0 + 2 ^ (8 * Z.of_nat n0) * x1).
Proof. intros H. rewrite be_value_step by done. unfold be_value. lia. Qed.

Lemma be_zero n x w : 8 * Z.of_nat n <= w -> is_u w (be_value 0 n x).
Proof.
  intros Hw. unfold be_value. rewrite Z.mul_0_l, Z.add_0_l. pose proof (bswap_bytes_range (Z.of_nat n) x ltac:(lia)) as Hb. unfold is_u in *.
  split; [lia|]. eapply Z.lt_le_trans; [apply Hb | apply Z.pow_le_mono_r; lia].
Qed.

(** Both orders of [n0 + n1] bytes from their big-endian value. *)
Lemma order_be memop n x : is_u (8 * Z.of_nat n) x ->
  (if Z.land memop MO_BSWAP =? MO_LE then bswap_bytes (Z.of_nat n) (bswap_bytes (Z.of_nat n) x) else bswap_bytes (Z.of_nat n) x) = byte_order memop n x.
Proof. intros Hx. rewrite le_test. unfold byte_order. destruct (test memop _); cbn [negb]; [done | by apply bswap_twice]. Qed.

Lemma join_range n0 n1 x0 x1 : is_u (8 * Z.of_nat n0) x0 -> is_u (8 * Z.of_nat n1) x1 -> is_u (8 * Z.of_nat (n0 + n1)) (x0 + 2 ^ (8 * Z.of_nat n0) * x1).
Proof.
  unfold is_u. intros H0 H1. replace (8 * Z.of_nat (n0 + n1)) with (8 * Z.of_nat n0 + 8 * Z.of_nat n1) by lia. rewrite Z.pow_add_r by lia. nia.
Qed.

Lemma ld2_parts_post s l x0 x1 : two_parts s l 1 1 x0 x1 ->
  post (ld_parts_N 1 l) s (reads (byte_order (l_memop l) 2 (x0 + 256 * x1)) s) (no_atomic al8) False.
Proof.
  intros H. destruct (two_parts_range _ _ _ _ _ _ H) as [Hx0 Hx1]. destruct H as (H0 & H1 & _ & _ & E0 & E1). cbn [ld_parts_N].
  eapply post_bind; [by eapply do_ld_1_post|]. intros a s' [-> ->]. eapply post_bind; [by eapply do_ld_1_post|]. intros b s' [-> ->].
  apply post_ret. split; [done|]. rewrite le_test. unfold byte_order. destruct (test (l_memop l) _); cbn [negb]; [|by apply or_byte].
  rewrite or_byte by done. pose proof (bswap_concat 1 1 x0 x1 ltac:(lia) Hx0) as Hc. change (Z.of_nat 1) with 1 in *.
  rewrite !bswap_1 in Hc by done. change (256 ^ 1) with 256 in Hc. change (2 ^ (8 * 1)) with 256 in Hc. change (Z.of_nat 2) with (1 + 1). lia.
Qed.

Lemma ldN_parts_post s l k n0 n1 x0 x1 : k = 2%nat \/ k = 3%nat -> two_parts s l n0 n1 x0 x1 -> (n0 + n1 = 2 ^ k)%nat -> (1 <= n0)%nat -> (1 <= n1)%nat ->
  Z.land (l_memop l) MO_ATOM_MASK <= MO_ATOM_NONE ->
  post (ld_parts_N k l) s (reads (byte_order (l_memop l) (2 ^ k) (x0 + 2 ^ (8 * Z.of_nat n0) * x1)) s) (no_atomic al8) False.
Proof.
  intros Hk H Hsum Hn0 Hn1 Hop. destruct (two_parts_range _ _ _ _ _ _ H) as [Hx0 Hx1]. destruct H as (H0 & H1 & He0 & He1 & E0 & E1).
  pose proof (join_range _ _ _ _ Hx0 Hx1) as Hj. pose proof (be_chain n0 n1 x0 x1 Hx0) as Hbe. rewrite Hsum in Hj, Hbe.
  pose proof (order_be (l_memop l) _ _ Hj) as Ho. pose proof (bswap_bytes_range (Z.of_nat (2 ^ k)) (x0 + 2 ^ (8 * Z.of_nat n0) * x1) ltac:(lia)) as Hr.
  destruct Hk as [-> | ->]; cbn [ld_parts_N]; change (2 ^ 2)%nat with 4%nat in *; change (2 ^ 3)%nat with 8%nat in *.
  - eapply post_bind; [apply (do_ld_beN_post al8 fast_depth s _ _ _ _ n0 x0); try done; [lia | split; [lia | apply Z.pow_pos_nonneg; lia]]|]. intros a s' [-> ->].
    rewrite uw_small by (apply be_zero; lia).
    eapply post_bind; [apply (do_ld_beN_post al8 fast_depth s _ _ _ _ n1 x1); try done; [lia | apply be_zero; lia]|]. intros b s' [-> ->].
    apply post_ret. split; [done|]. rewrite Hbe, uw_small by done. unfold bswap32. by rewrite uw_small.
  - eapply post_bind; [apply (do_ld_beN_post al8 fast_depth s _ _ _ _ n0 x0); try done; [lia | split; [lia | apply Z.pow_pos_nonneg; lia]]|]. intros a s' [-> ->].
    eapply post_bind; [apply (do_ld_beN_post al8 fast_depth s _ _ _ _ n1 x1); try done; [lia | apply be_zero; lia]|]. intros b s' [-> ->].
    apply post_ret. split; [done|]. rewrite Hbe. unfold bswap64. by rewrite uw_small.
Qed.

Lemma do_ldN_steps k addr oi ty s : do_ldN_mmu k addr oi ty s =
  ('(l, crosspage) ← mmu_lookup walk addr oi ty;
   if negb crosspage || (k =? 0)%nat then do_ld_N k (l_mmu_idx l) (page0 l) (l_memop l) else ld_parts_N k l) s.
Proof.
  destruct k as [|[|[|k]]]; cbn [do_ldN_mmu do_ld_N ld_parts_N Nat.eqb]; unfold do_ld1_mmu, do_ld2_mmu, do_ld4_mmu, do_ld8_mmu, mbind, M_bind;
    destruct (mmu_lookup walk addr oi ty s) as [[l [|]] s'| | |]; done.
Qed.

(** The translated parts of an access of [n] bytes. *)
Lemma looked_up_parts m ty P As A s addr n oi l cross s' : mem_wf (s_ram s) -> is_u 64 addr -> (1 <= n <= 16)%nat ->
  P (page_at addr) -> P (page_at (u64 (addr + Z.of_nat n - 1))) -> As !! m = Some A ->
  looked_up m ty P (ram_fill_ok (s_ram s) ty) addr (Z.of_nat n) oi As s l cross s' ->
  (cross = false /\ guest_part (s_ram s) A addr n (page0 l))
  \/ (cross = true /\ exists n0 n1, n = (n0 + n1)%nat /\ (1 <= n0)%nat /\ (1 <= n1)%nat /\ is_u 64 (u64 (addr + Z.of_nat n0))
      /\ guest_part (s_ram s) A addr n0 (page0 l) /\ guest_part (s_ram s) A (u64 (addr + Z.of_nat n0)) n1 (page1 l)
      /\ (haddr (page0 l) + Z.of_nat n0) mod 4096 = 0 /\ haddr (page1 l) mod 4096 = 0).
Proof.
  intros Hwf Ha Hn HP HP1 HA ([_ Hram] & _ & _ & _ & -> & Hp0 & Hp1). pose proof (Z.mod_pos_bound addr 4096 ltac:(lia)) as Hr.
  destruct (Z.ltb_spec 4096 (addr mod 4096 + Z.of_nat n)) as [Hc|Hc]; [right|left]; (split; [done|]).
  - remember (Z.to_nat (first_part addr (Z.of_nat n))) as n0 eqn:E0.
    assert (Hf : first_part addr (Z.of_nat n) = Z.of_nat n0) by (unfold first_part in *; lia).
    assert (Hv : Z.of_nat n0 = 4096 - addr mod 4096) by (unfold first_part in Hf; lia).
    pose proof (last_page addr (Z.of_nat n) Ha ltac:(lia)) as Hl. rewrite (proj2 (Z.ltb_lt _ _) Hc), Hf in Hl.
    destruct (crossing addr (Z.of_nat n) Ha ltac:(lia)) as [_ Hcr]. destruct (Hcr Hc) as (Hu1 & Hpg & _). rewrite Hl in Hpg, Hu1, HP1.
    exists n0, (n - n0)%nat. specialize (Hp1 eq_refl). rewrite Hf in Hp0, Hp1. replace (Z.of_nat n - Z.of_nat n0) with (Z.of_nat (n - n0)) in Hp1 by lia.
    assert (Hz : u64 (addr + Z.of_nat n0) mod 4096 = 0).
    { rewrite <- Hpg, page_at_div by done. apply Z.mod_mul. lia. }
    pose proof (ram_part_ok m ty P (s_ram s) Hwf As A addr n0 _ Hram HA HP Ha ltac:(lia) Hp0) as G0.
    pose proof (ram_part_ok m ty P (s_ram s) Hwf As A _ (n - n0) _ Hram HA ltac:(by rewrite Hpg) Hu1 ltac:(lia) Hp1) as G1.
    assert (He0 : (haddr (page0 l) + Z.of_nat n0) mod 4096 = 0).
    { destruct G0 as (f & _ & Hal & -> & _). destruct (host_at f addr Hal) as (_ & Hmod & _). rewrite Z.add_mod, Hmod, <- Z.add_mod by lia.
      rewrite Hv. replace (addr + (4096 - addr mod 4096)) with ((addr - addr mod 4096) + 1 * 4096) by lia. rewrite Z.mod_add by lia. apply aligned_down. lia. }
    assert (He1 : haddr (page1 l) mod 4096 = 0).
    { destruct G1 as (f & _ & Hal & -> & _). destruct (host_at f (u64 (addr + Z.of_nat n0)) Hal) as (_ & Hmod & _). congruence. }
    split_and!; try done; lia.
  - unfold first_part in Hp0. rewrite Z.min_l in Hp0 by lia. by eapply ram_part_ok.
Qed.
End Loads.

Lemma mode_index oi : (Z.to_nat (get_mmuidx oi) < 16)%nat.
Proof. unfold get_mmuidx. change 15 with (Z.ones 4). rewrite Z.land_ones by lia. pose proof (Z.mod_pos_bound oi (2 ^ 4) ltac:(done)). lia. Qed.

Lemma ready_mode {W} `{!World W} m P G As (s : st W) : tlb_ready m P G As s -> (m < 16)%nat -> exists A, As !! m = Some A.
Proof. intros [Hok _] Hm. apply lookup_lt_is_Some_2. by rewrite (proj2 (ok_len _ _ Hok)). Qed.

(** An access of mode [m] whose pages are RAM. *)
Record ram_guest_access {W} `{!World W} (walk : walk_t) (m : nat) (ty : MMUAccessType) (P : Z -> Prop) (As : atlb) (s : st W) (addr oi : Z) (k : nat) : Prop := {
  ra_walk : walk_spec walk m ty P (ram_fill_ok (s_ram s) ty);   (** the target maps the pages in [P] to RAM *)
  ra_ready : tlb_ready m P (ram_fill_ok (s_ram s) ty) As s;     (** [As] is the TLB's contents *)
  ra_wf : mem_wf (s_ram s);
  ra_addr : is_u 64 addr;
  ra_memop : memop_ok (get_memop oi) (Z.of_nat k) /\ (k <= 3)%nat;
  ra_mode : Z.to_nat (get_mmuidx oi) = m;
  ra_first : P (page_at addr);
  ra_last : P (page_at (u64 (addr + 2 ^ Z.of_nat k - 1)))
}.

(** Why an access of RAM may leave. *)
Definition access_exit {W} `{!World W} (al8 : bool) (ty : MMUAccessType) (s : st W) (addr oi : Z) (w : why) : Prop :=
  lookup_exit ty (ram_fill_ok (s_ram s) ty) addr oi w \/ no_atomic al8 w.

Section Exact.
Context {W : Type} `{!World W} (walk : walk_t) (al8 serial : bool) (fast_depth : Z).
Context (m : nat) (P : Z -> Prop) (As : atlb).
Implicit Type s : st W.

(** The translated access: its target, and what it reads. *)
Lemma access_lookup ty s addr oi k : ram_guest_access walk m ty P As s addr oi k ->
  post (mmu_lookup walk addr oi ty) s
    (fun '(l, cross) s' => exists os A, asked walk m ty addr (2 ^ Z.of_nat k) os /\ spec_ops os As !! m = Some A
       /\ tlb_ready m P (ram_fill_ok (s_ram s) ty) (spec_ops os As) s' /\ kept s s' /\ l_memop l = get_memop oi
       /\ ((cross = false /\ guest_part (s_ram s) A addr (2 ^ k) (page0 l))
           \/ (cross = true /\ exists n0 n1, (2 ^ k)%nat = (n0 + n1)%nat /\ (1 <= n0)%nat /\ (1 <= n1)%nat /\ is_u 64 (u64 (addr + Z.of_nat n0))
               /\ guest_part (s_ram s) A addr n0 (page0 l) /\ guest_part (s_ram s) A (u64 (addr + Z.of_nat n0)) n1 (page1 l)
               /\ (haddr (page0 l) + Z.of_nat n0) mod 4096 = 0 /\ haddr (page1 l) mod 4096 = 0)))
    (access_exit al8 ty s addr oi) (walk_failed walk m ty P).
Proof.
  intros [Hw Hr Hwf Ha [Hop Hk] Hm HP HP1]. pose proof (mode_index oi) as Hlt. rewrite Hm in Hlt.
  assert (Hpow : 2 ^ Z.of_nat k = Z.of_nat (2 ^ k)) by (rewrite Nat2Z.inj_pow; done).
  eapply post_mono; [by eapply (mmu_lookup_post walk m ty P _ (s_ram s) Hw); [done | done | exact Hr | done | exact Hop | lia | done | done | done] | | by left | done].
  intros [l cross] s' (os & Hos & Hl). pose proof Hl as (Hr' & Hk' & Hmop & _). destruct (ready_mode _ _ _ _ _ Hr' Hlt) as [A HA].
  exists os, A. split_and!; try done. rewrite Hpow in *.
  eapply (looked_up_parts m ty P (spec_ops os As)); [done | done | | done | done | done | exact Hl].
  clear - Hk. assert (k = 0 \/ k = 1 \/ k = 2 \/ k = 3)%nat as [-> | [-> | [-> | ->]]] by lia; simpl; lia.
Qed.

Lemma parts_load s l k n0 n1 x0 x1 : (k <= 3)%nat -> (2 ^ k = n0 + n1)%nat -> (1 <= n0)%nat -> (1 <= n1)%nat ->
  two_parts s l n0 n1 x0 x1 -> Z.land (l_memop l) MO_ATOM_MASK <= MO_ATOM_NONE ->
  post (if negb true || (k =? 0)%nat then do_ld_N al8 serial fast_depth k (l_mmu_idx l) (page0 l) (l_memop l) else ld_parts_N al8 fast_depth k l) s
    (reads (byte_order (l_memop l) (2 ^ k) (x0 + 2 ^ (8 * Z.of_nat n0) * x1)) s) (no_atomic al8) False.
Proof.
  intros Hk Hs Hn0 Hn1 H Hop. assert (k = 0 \/ k = 1 \/ k = 2 \/ k = 3)%nat as [-> | [-> | Hk2]] by lia; cbn [negb orb Nat.eqb].
  - simpl in Hs. lia.
  - assert (n0 = 1%nat /\ n1 = 1%nat) as [-> ->] by (simpl in Hs; lia). by apply ld2_parts_post.
  - replace (k =? 0)%nat with false by (symmetry; apply Nat.eqb_neq; lia). by apply (ldN_parts_post al8 fast_depth s l k n0 n1).
Qed.

(** C5: A guest load of 1, 2, 4 or 8 bytes of RAM through the slow path returns exactly
    the bytes the current translations of its one or two pages give, in the byte order
    the access asks for, at every alignment and every atomicity and across a page
    boundary (also where the address wraps): the TLB then holds what it held and what the
    target filled for these pages, and RAM is unchanged.  It is never stuck; it leaves
    only for an unaligned address, a watchpoint on such a page or an atomic the host
    does not have, and misses a page only where the target's hook does not return. *)
Theorem guest_load_exact ty s addr oi k : ram_guest_access walk m ty P As s addr oi k ->
  post (do_ldN_mmu walk al8 serial fast_depth k addr oi ty) s
    (fun v s' => exists os A x, asked walk m ty addr (2 ^ Z.of_nat k) os /\ spec_ops os As !! m = Some A
       /\ tlb_ready m P (ram_fill_ok (s_ram s) ty) (spec_ops os As) s' /\ kept s s'
       /\ gload (2 ^ k) A (s_ram s) addr = Some x /\ v = byte_order (get_memop oi) (2 ^ k) x)
    (access_exit al8 ty s addr oi) (walk_failed walk m ty P).
Proof.
  intros Hacc. unfold post. rewrite do_ldN_steps. eapply post_bind; [by apply access_lookup|].
  intros [l cross] s' (os & A & Hos & HA & Hr & Hk & Hmop & Hparts). pose proof (ra_wf _ _ _ _ _ _ _ _ _ Hacc) as Hwf.
  destruct (ra_memop _ _ _ _ _ _ _ _ _ Hacc) as [Hop Hk3]. pose proof (ra_addr _ _ _ _ _ _ _ _ _ Hacc) as Ha. rewrite <- Hmop in Hop.
  pose proof (proj1 Hk) as Eram. rewrite <- Eram in Hwf, Hparts, Hr |- *. destruct Hparts as [[-> G0]|(-> & n0 & n1 & En & Hn0 & Hn1 & Hu1 & G0 & G1 & He0 & He1)].
  - destruct (guest_part_load _ Hwf A addr _ _ Ha G0) as (x & Hx & Hg & _). destruct G0 as (f & _ & _ & _ & Hp).
    eapply post_mono; [by apply (do_ld_N_post al8 serial fast_depth s' k _ _ _ x Hk3) | | by right | done].
    intros v s'' [-> ->]. exists os, A, x. rewrite <- Hmop. done.
  - destruct (guest_part_load _ Hwf A addr _ _ Ha G0) as (x0 & Hx0 & Hg0 & _).
    destruct (guest_part_load _ Hwf A _ _ _ Hu1 G1) as (x1 & Hx1 & Hg1 & _).
    destruct G0 as (f0 & _ & _ & _ & Hp0). destruct G1 as (f1 & _ & _ & _ & Hp1).
    eapply post_mono; [apply (parts_load s' l k n0 n1 x0 x1 Hk3 En Hn0 Hn1); [split_and!; [done | done | by left | by right | done | done] | apply Hop] | | by right | done].
    intros v s'' [-> ->]. exists os, A, (x0 + 2 ^ (8 * Z.of_nat n0) * x1). rewrite <- Hmop, En.
    split_and!; try done. by apply gload_concat.
Qed.
End Exact.

(** ** Stores *)

Lemma gstore_mapped n A mm a v m' : gstore n A mm a v = Some m' -> forall q, is_Some (mm !! q) -> is_Some (m' !! q).
Proof.
  revert mm a v. induction n as [|n IH]; intros mm a v H q Hq; cbn [gstore] in H; [congruence|].
  destruct (A !! page_at a) as [f|]; simpl in H; [|done]. destruct (mm !! host_of f a); simpl in H; [|done].
  eapply IH; [exact H|]. destruct (decide (host_of f a = q)) as [->|Hne]; [rewrite lookup_insert_eq; by eexists | by rewrite lookup_insert_ne].
Qed.

Lemma fill_ok_mapped mm m' ty f : (forall q, is_Some (mm !! q) -> is_Some (m' !! q)) -> ram_fill_ok mm ty f -> ram_fill_ok m' ty f.
Proof. intros Hm (H1 & H2 & H3 & H4 & H5). split_and!; try done. intros q Hq. by apply Hm, H5. Qed.

Lemma byte_order_range memop n x : is_u (8 * Z.of_nat n) x -> is_u (8 * Z.of_nat n) (byte_order memop n x).
Proof. intros Hx. unfold byte_order. destruct (test _ _); [|done]. rewrite Z.mul_comm. apply bswap_bytes_range. lia. Qed.

Lemma guest_part_store mm A a n d v : is_u 64 a -> guest_part mm A a n d ->
  exists m', store n mm (haddr d) v = Some m' /\ forall mm', gstore n A mm' a v = store n mm' (haddr d) v.
Proof.
  intros Ha (f & Hf & Hal & Hh & _ & Hin & _). destruct (store_total n mm (haddr d) v) as [m' Hm']; [by apply in_page_mapped|].
  exists m'. split; [done|]. intros mm'. destruct (host_at f a Hal) as (_ & Hmod & _).
  rewrite (gstore_page n A mm' a v f), <- Hh; try done. rewrite <- Hmod, <- Hh. apply Hin.
Qed.

Lemma guest_part_after mm A a n d k p v m' : store k mm p v = Some m' -> guest_part mm A a n d -> guest_part m' A a n d.
Proof.
  intros Hs (f & Hf & Hal & Hh & Hsz & Hin & Ho & H9 & H8). exists f. split_and!; try done. split_and!; try done. by eapply in_page_store.
Qed.

Section Stores.
Context {W : Type} `{!World W} (walk : walk_t) (al8 serial : bool) (fast_depth : Z).
Implicit Type s : st W.

Definition do_st_N (k : nat) (m0 : nat) (p : MMULookupPageData) (val memop : Z) : M unit :=
  match k with
  | 0 => do_st_1 fast_depth m0 p val
  | 1 => do_st_2 al8 serial fast_depth m0 p val memop
  | 2 => do_st_4 al8 serial fast_depth m0 p val memop
  | _ => do_st_8 al8 serial fast_depth m0 p val memop
  end%nat.

(** The two parts of a store across a page boundary. *)
Definition st_parts_N (k : nat) (l : MMULookupLocals) (val : Z) : M unit :=
  match k with
  | 1%nat =>
      let '(a, b) := if Z.land (l_memop l) MO_BSWAP =? MO_LE then (u8 val, u8 (Z.shiftr val 8)) else (u8 (Z.shiftr val 8), u8 val) in
      _ ← do_st_1 fast_depth (l_mmu_idx l) (page0 l) a;
      do_st_1 fast_depth (l_mmu_idx l) (page1 l) b
  | 2%nat =>
      let val := if negb (Z.land (l_memop l) MO_BSWAP =? MO_LE) then bswap32 val else val in
      val ← do_st_leN al8 fast_depth (l_mmu_idx l) (page0 l) val (l_memop l);
      _ ← do_st_leN al8 fast_depth (l_mmu_idx l) (page1 l) (u32 val) (l_memop l);
      mret ()
  | _ =>
      let val := if negb (Z.land (l_memop l) MO_BSWAP =? MO_LE) then bswap64 val else val in
      val ← do_st_leN al8 fast_depth (l_mmu_idx l) (page0 l) val (l_memop l);
      _ ← do_st_leN al8 fast_depth (l_mmu_idx l) (page1 l) val (l_memop l);
      mret ()
  end.

Definition do_stN_mmu (k : nat) (addr val oi : Z) : M unit :=
  match k with
  | 0 => do_st1_mmu walk fast_depth addr val oi
  | 1 => do_st2_mmu walk al8 serial fast_depth addr val oi
  | 2 => do_st4_mmu walk al8 serial fast_depth addr val oi
  | _ => do_st8_mmu walk al8 serial fast_depth addr val oi
  end%nat.

Lemma do_stN_steps k addr val oi s : do_stN_mmu k addr val oi s =
  ('(l, crosspage) ← mmu_lookup walk addr oi MMU_DATA_STORE;
   if negb crosspage || (k =? 0)%nat then do_st_N k (l_mmu_idx l) (page0 l) val (l_memop l) else st_parts_N k l val) s.
Proof.
  destruct k as [|[|[|k]]]; cbn [do_stN_mmu do_st_N st_parts_N Nat.eqb]; unfold do_st1_mmu, do_st2_mmu, do_st4_mmu, do_st8_mmu, mbind, M_bind;
    destruct (mmu_lookup walk addr oi MMU_DATA_STORE s) as [[l [|]] s'| | |]; done.
Qed.

(** What a store does to the machine. *)
Definition wrote (n : nat) (p : Z) (v : Z) s s' : Prop := exists m', store n (s_ram s) p v = Some m' /\ s' = set_ram m' s.

Lemma st_page_post s n m0 p dev f v : part_ok (s_ram s) p n -> stored al8 serial n (s_ram s) (haddr p) v (f (s_ram s)) ->
  post (st_page m0 p dev f) s (fun _ s' => wrote n (haddr p) v s s') (no_atomic al8) False.
Proof.
  intros (_ & _ & _ & Hmmio & Hdw) Hst. unfold post, st_page, ram, set_mem. rewrite Hmmio, Hdw. run_m.
  destruct Hst as [(m' & Hm' & ->)|(-> & Hal & _)]; [by exists m' | by split].
Qed.

Lemma do_st_N_post s k m0 p memop v : (k <= 3)%nat -> part_ok (s_ram s) p (2 ^ k) -> memop_ok memop (Z.of_nat k) -> is_u (8 * Z.of_nat (2 ^ k)) v ->
  post (do_st_N k m0 p v memop) s (fun _ s' => wrote (2 ^ k) (haddr p) (byte_order memop (2 ^ k) v) s s') (no_atomic al8) False.
Proof.
  intros Hk Hp Hop Hv. pose proof Hp as (_ & Hin & _). pose proof (byte_order_range memop _ _ Hv) as Hb.
  assert (k = 0 \/ k = 1 \/ k = 2 \/ k = 3)%nat as [-> | [-> | [-> | ->]]] by lia; cbn [do_st_N].
  - eapply post_mono; [by apply (do_st_1_post al8) | | done | done]. intros _ s' (m' & Hm' & -> & _). exists m'. split; [|done].
    unfold byte_order. destruct (test memop _); [|done]. rewrite bswap_1; done.
  - eapply st_page_post; [exact Hp|]. replace (if test memop MO_BSWAP then bswap16 v else v) with (byte_order memop (2 ^ 1) v); [by apply store_atom_2_ok|].
    unfold byte_order, bswap16. by rewrite (uw_small 16 v).
  - eapply st_page_post; [exact Hp|]. replace (if test memop MO_BSWAP then bswap32 v else v) with (byte_order memop (2 ^ 2) v); [by apply store_atom_4_ok|].
    unfold byte_order, bswap32. by rewrite (uw_small 32 v).
  - eapply st_page_post; [exact Hp|]. replace (if test memop MO_BSWAP then bswap64 v else v) with (byte_order memop (2 ^ 3) v); [by apply store_atom_8_ok|].
    unfold byte_order, bswap64. by rewrite (uw_small 64 v).
Qed.

(** Both parts written, the first one first. *)
Definition wrote_two (n0 n1 : nat) (l : MMULookupLocals) (v : Z) s s' : Prop :=
  exists m1 m', store n0 (s_ram s) (haddr (page0 l)) v = Some m1
    /\ store n1 m1 (haddr (page1 l)) (Z.shiftr v (8 * Z.of_nat n0)) = Some m' /\ s' = set_ram m' s.

(** The parts of a store across a page boundary. *)
Definition two_stores s (l : MMULookupLocals) (n0 n1 : nat) : Prop :=
  part_ok (s_ram s) (page0 l) n0 /\ part_ok (s_ram s) (page1 l) n1
  /\ (haddr (page0 l) + Z.of_nat n0) mod 4096 = 0 /\ haddr (page1 l) mod 4096 = 0.

Lemma part_after s n p v m' d k : store n (s_ram s) p v = Some m' -> part_ok (s_ram s) d k -> part_ok (s_ram (set_ram m' s)) d k.
Proof. intros Hs (H1 & H2 & H3). split; [done|]. split; [|done]. by apply (in_page_store n (s_ram s) p v). Qed.

Lemma bswap_two v : is_u 16 v -> bswap_bytes 2 v = v / 256 + 256 * (v mod 256) /\ 0 <= v / 256 < 256.
Proof.
  intros Hv. pose proof (Z.div_mod v 256 ltac:(lia)) as Hd. pose proof (Z.mod_pos_bound v 256 ltac:(lia)) as Hm.
  assert (Hq : 0 <= v / 256 < 256) by (unfold is_u in Hv; change (2 ^ 16) with (256 * 256) in Hv; lia). split; [|done].
  pose proof (bswap_concat 1 1 (v mod 256) (v / 256) ltac:(lia) Hm) as Hc. change (Z.of_nat 1) with 1 in Hc. change (2 ^ (8 * 1)) with 256 in Hc.
  rewrite !bswap_1 in Hc by done. replace (v mod 256 + 256 * (v / 256)) with v in Hc by lia. change (1 + 1) with 2 in Hc. rewrite Hc. lia.
Qed.

(** The bytes the two-byte case picks are those of the value in memory order. *)
Lemma two_bytes memop v : is_u 16 v ->
  (if Z.land memop MO_BSWAP =? MO_LE then (u8 v, u8 (Z.shiftr v 8)) else (u8 (Z.shiftr v 8), u8 v))
  = (u8 (byte_order memop 2 v), u8 (Z.shiftr (byte_order memop 2 v) 8)).
Proof.
  intros Hv. rewrite le_test. unfold byte_order. destruct (test memop _); cbn [negb]; [|done].
  change (Z.of_nat 2) with 2. destruct (bswap_two v Hv) as [-> Hq]. rewrite !Z.shiftr_div_pow2 by lia. unfold uw. change (2 ^ 8) with 256.
  pose proof (Z.mod_pos_bound v 256 ltac:(lia)). f_equal.
  - rewrite Z.mul_comm, Z.mod_add by lia. done.
  - rewrite (Z.mul_comm 256), Z.div_add, (Z.div_small (v / 256)) by lia. by rewrite Z.add_0_l, Z.mod_mod.
Qed.

Lemma st2_parts_post s l v : two_stores s l 1 1 -> is_u 16 v ->
  post (st_parts_N 1 l v) s (fun _ s' => wrote_two 1 1 l (byte_order (l_memop l) 2 v) s s') (no_atomic al8) False.
Proof.
  intros (H0 & H1 & _) Hv. cbn [st_parts_N]. rewrite two_bytes by done. set (v' := byte_order _ _ _). cbv beta iota zeta.
  eapply post_bind; [by apply (do_st_1_post al8)|]. intros _ s1 (m1 & Hm1 & -> & _).
  eapply post_mono; [apply (do_st_1_post al8 fast_depth (set_ram m1 s)); by eapply part_after | | done | done].
  intros _ s2 (m2 & Hm2 & -> & _). exists m1, m2. split_and!; [by rewrite <- Hm1, <- (store_trunc 1) | | done].
  rewrite <- (store_trunc 1). exact Hm2.
Qed.

Lemma stN_parts_post s l k n0 n1 v : k = 2%nat \/ k = 3%nat -> two_stores s l n0 n1 -> (2 ^ k = n0 + n1)%nat -> (1 <= n0)%nat -> (1 <= n1)%nat ->
  Z.land (l_memop l) MO_ATOM_MASK <= MO_ATOM_NONE -> is_u (8 * Z.of_nat (2 ^ k)) v ->
  post (st_parts_N k l v) s (fun _ s' => wrote_two n0 n1 l (byte_order (l_memop l) (2 ^ k) v) s s') (no_atomic al8) False.
Proof.
  intros Hk (H0 & H1 & He0 & He1) En Hn0 Hn1 Hop Hv. pose proof (byte_order_range (l_memop l) _ _ Hv) as Hv'.
  set (v' := byte_order (l_memop l) (2 ^ k) v) in *.
  assert (Hrest : is_u (8 * Z.of_nat n1) (Z.shiftr v' (8 * Z.of_nat n0))) by (apply shiftr_fits; [lia | lia |]; by rewrite En, Nat2Z.inj_add in Hv').
  assert (Hn : (n0 <= 7)%nat /\ (n1 <= 7)%nat) by (destruct Hk as [-> | ->]; simpl in En; lia).
  assert (Hgo : forall g : Z -> Z, g (Z.shiftr v' (8 * Z.of_nat n0)) = Z.shiftr v' (8 * Z.of_nat n0) ->
    post (r ← do_st_leN al8 fast_depth (l_mmu_idx l) (page0 l) v' (l_memop l);
          _ ← do_st_leN al8 fast_depth (l_mmu_idx l) (page1 l) (g r) (l_memop l); mret ()) s (fun _ s' => wrote_two n0 n1 l v' s s') (no_atomic al8) False).
  { intros g Hg. eapply post_bind; [apply (do_st_leN_post al8 fast_depth s _ _ _ _ n0); [done | lia | by left | done]|].
    intros r s1 (m1 & Hm1 & -> & ->). rewrite Hg.
    eapply post_bind; [apply (do_st_leN_post al8 fast_depth _ _ _ _ _ n1); [by eapply part_after | lia | by right | done]|].
    intros r s2 (m2 & Hm2 & -> & _). apply post_ret. by exists m1, m2. }
  destruct Hk as [-> | ->]; cbn [st_parts_N]; rewrite le_test, negb_involutive.
  - replace (if test (l_memop l) MO_BSWAP then bswap32 v else v) with v'; [apply (Hgo u32), uw_small|].
    + unfold is_u in *. split; [lia|]. eapply Z.lt_le_trans; [apply Hrest | apply Z.pow_le_mono_r; simpl in En; lia].
    + unfold v', byte_order, bswap32. by rewrite (uw_small 32 v).
  - replace (if test (l_memop l) MO_BSWAP then bswap64 v else v) with v'; [by apply (Hgo (fun x => x))|].
    unfold v', byte_order, bswap64. by rewrite (uw_small 64 v).
Qed.
End Stores.

Section StoreExact.
Context {W : Type} `{!World W} (walk : walk_t) (al8 serial : bool) (fast_depth : Z).
Context (m : nat) (P : Z -> Prop) (As : atlb).
Implicit Type s : st W.

Lemma parts_store s l k n0 n1 v : (k <= 3)%nat -> (2 ^ k = n0 + n1)%nat -> (1 <= n0)%nat -> (1 <= n1)%nat -> two_stores s l n0 n1 ->
  Z.land (l_memop l) MO_ATOM_MASK <= MO_ATOM_NONE -> is_u (8 * Z.of_nat (2 ^ k)) v ->
  post (if negb true || (k =? 0)%nat then do_st_N al8 serial fast_depth k (l_mmu_idx l) (page0 l) v (l_memop l) else st_parts_N al8 fast_depth k l v) s
    (fun _ s' => wrote_two n0 n1 l (byte_order (l_memop l) (2 ^ k) v) s s') (no_atomic al8) False.
Proof.
  intros Hk Hs Hn0 Hn1 H Hop Hv. assert (k = 0 \/ k = 1 \/ k = 2 \/ k = 3)%nat as [-> | [-> | Hk2]] by lia; cbn [negb orb Nat.eqb].
  - simpl in Hs. lia.
  - assert (n0 = 1%nat /\ n1 = 1%nat) as [-> ->] by (simpl in Hs; lia). by apply st2_parts_post.
  - replace (k =? 0)%nat with false by (symmetry; apply Nat.eqb_neq; lia). by apply stN_parts_post.
Qed.

(** C6: A guest store of 1, 2, 4 or 8 bytes to RAM through the slow path writes exactly
    the bytes of the value, in the byte order the access asks for, to the host bytes the
    current translations of its one or two pages give, and no other byte; at every
    alignment and every atomicity, across a page boundary (also where the address wraps,
    and where both pages are one host page).  It is never stuck; it leaves only for an
    unaligned address, a watchpoint, a write to the code being run or an atomic the host
    does not have, and misses a page only where the target's hook does not return. *)
Theorem guest_store_exact s addr val oi k : ram_guest_access walk m MMU_DATA_STORE P As s addr oi k -> is_u (8 * 2 ^ Z.of_nat k) val ->
  post (do_stN_mmu walk al8 serial fast_depth k addr val oi) s
    (fun _ s' => exists os A, asked walk m MMU_DATA_STORE addr (2 ^ Z.of_nat k) os /\ spec_ops os As !! m = Some A
       /\ tlb_ready m P (ram_fill_ok (s_ram s') MMU_DATA_STORE) (spec_ops os As) s'
       /\ gstore (2 ^ k) A (s_ram s) addr (byte_order (get_memop oi) (2 ^ k) val) = Some (s_ram s') /\ s_force_slow s' = s_force_slow s)
    (access_exit al8 MMU_DATA_STORE s addr oi) (walk_failed walk m MMU_DATA_STORE P).
Proof.
  intros Hacc Hv. replace (2 ^ Z.of_nat k) with (Z.of_nat (2 ^ k)) in Hv by (by rewrite Nat2Z.inj_pow).
  unfold post. rewrite do_stN_steps. eapply post_bind; [by apply access_lookup|].
  intros [l cross] s' (os & A & Hos & HA & Hr & Hk & Hmop & Hparts).
  destruct (ra_memop _ _ _ _ _ _ _ _ _ Hacc) as [Hop Hk3]. pose proof (ra_addr _ _ _ _ _ _ _ _ _ Hacc) as Ha. rewrite <- Hmop in Hop |- *.
  destruct Hk as [Eram Hfs]. rewrite <- Eram in Hparts, Hr |- *.
  assert (Hend : forall m', gstore (2 ^ k) A (s_ram s') addr (byte_order (l_memop l) (2 ^ k) val) = Some m' ->
    tlb_ready m P (ram_fill_ok m' MMU_DATA_STORE) (spec_ops os As) (set_ram m' s')).
  { intros m' Hg. destruct Hr as [Hok Hram]. split; [done|]. intros A0 p f HA0 HP Hf. eapply fill_ok_mapped; [by eapply gstore_mapped | by eapply Hram]. }
  destruct Hparts as [[-> G0]|(-> & n0 & n1 & En & Hn0 & Hn1 & Hu1 & G0 & G1 & He0 & He1)].
  - destruct (guest_part_store _ A addr _ _ (byte_order (l_memop l) (2 ^ k) val) Ha G0) as (m' & Hm' & Hg). destruct G0 as (f & _ & _ & _ & Hp).
    eapply post_mono; [by apply (do_st_N_post al8 serial fast_depth s' k _ _ _ val Hk3) | | by right | done].
    intros _ s'' (m2 & Hm2 & ->). rewrite <- Hg in Hm2. exists os, A. split_and!; try done. by apply Hend.
  - destruct (guest_part_store _ A addr _ _ (byte_order (l_memop l) (2 ^ k) val) Ha G0) as (_ & _ & Hg0).
    destruct (guest_part_store _ A _ _ _ (Z.shiftr (byte_order (l_memop l) (2 ^ k) val) (8 * Z.of_nat n0)) Hu1 G1) as (_ & _ & Hg1).
    destruct G0 as (f0 & _ & _ & _ & Hp0). destruct G1 as (f1 & _ & _ & _ & Hp1).
    eapply post_mono; [apply (parts_store s' l k n0 n1 val Hk3 En Hn0 Hn1); [by split_and! | apply Hop | done] | | by right | done].
    intros _ s'' (m1 & m2 & Hm1 & Hm2 & ->). rewrite <- Hg0 in Hm1. rewrite <- Hg1 in Hm2.
    assert (Hg : gstore (2 ^ k) A (s_ram s') addr (byte_order (l_memop l) (2 ^ k) val) = Some m2).
    { rewrite En at 1. rewrite gstore_concat by done. by rewrite Hm1. }
    exists os, A. split_and!; try done. by apply Hend.
Qed.
End StoreExact.

(** ** A machine with two pages of RAM *)

#[export] Instance quiet_world : World unit := {|
  cpu_check_watchpoint := fun w _ _ _ _ => Some w;
  dirty_code := fun _ _ => false;
  tb_invalidate := fun w _ _ => Some w;
  set_dirty_range := fun w _ _ => w;
  page_is_clean := fun _ _ => false;
  can_do_io := fun _ => true;
  iotlb_to_section := fun _ _ _ => 0;
  memory_region_name := fun _ _ => None;
  dispatch_read := fun w _ _ _ _ => (w, 0, MEMTX_OK);
  dispatch_write := fun w _ _ _ _ _ => (w, MEMTX_OK);
  io_failed := fun w _ _ _ _ => Some w
|}.

Module TwoPages.
Definition ram0 : mem := list_to_map ((fun q => (q, q mod 256)) <$> seqZ 0x105000 8192).
Definition machine : st unit := {| s_cpu := LookupWitness.st0; s_ram := ram0; s_world := (); s_force_slow := 0 |}.
(** The same machine with only the bytes about the page boundary, to run the access on. *)
Definition edge : st unit :=
  {| s_cpu := LookupWitness.st0; s_ram := list_to_map ((fun q => (q, q mod 256)) <$> seqZ 0x105ff8 16); s_world := (); s_force_slow := 0 |}.
Definition pages (p : Z) : Prop := p = 0x5000 \/ p = 0x6000.
(** Eight bytes, big-endian, each half atomic within 16 bytes. *)
Definition oi : Z := 0x3130.
Definition returned {A} (o : out unit A) : option A := match o with Return a _ => Some a | _ => None end.
Definition word_after {A} (o : out unit A) (p : Z) : option Z := match o with Return _ s => load 8 (s_ram s) p | _ => None end.
End TwoPages.

Lemma two_pages_mapped q : 0x105000 <= q < 0x107000 -> is_Some (TwoPages.ram0 !! q).
Proof. intros Hq. unfold TwoPages.ram0. rewrite bytes_lookup by lia. by eexists. Qed.

Lemma two_pages_access ty : ram_guest_access LookupDemo.flat_walk 0 ty TwoPages.pages (replicate 16 ∅) TwoPages.machine 0x5ffd TwoPages.oi 3.
Proof.
  split.
  - split; [exact flat_walk_ok | |].
    + intros c a n os ok. unfold LookupDemo.flat_walk. case_goal; [|done]. intros [= <- <-]. by apply Forall_singleton.
    + intros c a n os ok f. unfold LookupDemo.flat_walk. case_goal; [|done]. intros [= <- <-] HP Hf%list_elem_of_singleton. injection Hf as ->.
      split_and!; try done; unfold addend_of; cbn [LookupDemo.ram_fill f_back LookupDemo.ram_back is_ram is_romd ram_ptr sec_xlat orb].
      * by destruct HP as [-> | ->].
      * intros q Hq. apply two_pages_mapped. destruct HP as [HP|HP]; rewrite HP in Hq; vm_compute (u32 _ / _) in Hq; Z.to_euclidean_division_equations; lia.
  - split; [by eapply init_ok, demo_start|]. intros A p f HA HP Hf. apply lookup_replicate in HA as [-> _]. by rewrite lookup_empty in Hf.
  - apply bytes_wf.
  - by vm_compute.
  - by split; [split|lia].
  - done.
  - by left.
  - by right.
Qed.

(** The last three bytes of one page and the first five of the next, big-endian. *)
Lemma guest_load_exact_witness :
  post (do_ldN_mmu LookupDemo.flat_walk true false 0 3 0x5ffd TwoPages.oi MMU_DATA_LOAD) TwoPages.machine
    (fun v s' => exists os A x, asked LookupDemo.flat_walk 0 MMU_DATA_LOAD 0x5ffd (2 ^ Z.of_nat 3) os /\ spec_ops os (replicate 16 ∅) !! 0%nat = Some A
       /\ tlb_ready 0 TwoPages.pages (ram_fill_ok (s_ram TwoPages.machine) MMU_DATA_LOAD) (spec_ops os (replicate 16 ∅)) s' /\ kept TwoPages.machine s'
       /\ gload (2 ^ 3) A (s_ram TwoPages.machine) 0x5ffd = Some x /\ v = byte_order (get_memop TwoPages.oi) (2 ^ 3) x)
    (access_exit true MMU_DATA_LOAD TwoPages.machine 0x5ffd TwoPages.oi) (walk_failed LookupDemo.flat_walk 0 MMU_DATA_LOAD TwoPages.pages).
Proof.
  apply (guest_load_exact LookupDemo.flat_walk true false 0 0 TwoPages.pages (replicate 16 ∅) MMU_DATA_LOAD TwoPages.machine 0x5ffd TwoPages.oi 3).
  apply two_pages_access.
Defined.

(** The same access as a store. *)
Lemma guest_store_exact_witness :
  post (do_stN_mmu LookupDemo.flat_walk true false 0 3 0x5ffd 0x1122334455667788 TwoPages.oi) TwoPages.machine
    (fun _ s' => exists os A, asked LookupDemo.flat_walk 0 MMU_DATA_STORE 0x5ffd (2 ^ Z.of_nat 3) os /\ spec_ops os (replicate 16 ∅) !! 0%nat = Some A
       /\ tlb_ready 0 TwoPages.pages (ram_fill_ok (s_ram s') MMU_DATA_STORE) (spec_ops os (replicate 16 ∅)) s'
       /\ gstore (2 ^ 3) A (s_ram TwoPages.machine) 0x5ffd (byte_order (get_memop TwoPages.oi) (2 ^ 3) 0x1122334455667788) = Some (s_ram s')
       /\ s_force_slow s' = s_force_slow TwoPages.machine)
    (access_exit true MMU_DATA_STORE TwoPages.machine 0x5ffd TwoPages.oi) (walk_failed LookupDemo.flat_walk 0 MMU_DATA_STORE TwoPages.pages).
Proof.
  apply (guest_store_exact LookupDemo.flat_walk true false 0 0 TwoPages.pages (replicate 16 ∅) TwoPages.machine 0x5ffd 0x1122334455667788 TwoPages.oi 3).
  - apply two_pages_access.
  - by vm_compute.
Defined.

(** What the two accesses give, run on the bytes they touch. *)
Lemma two_pages_run :
  TwoPages.returned (do_ldN_mmu LookupDemo.flat_walk true false 0 3 0x5ffd TwoPages.oi MMU_DATA_LOAD TwoPages.edge) = Some 0xfdfeff0001020304
  /\ TwoPages.word_after (do_stN_mmu LookupDemo.flat_walk true false 0 3 0x5ffd 0x1122334455667788 TwoPages.oi TwoPages.edge) 0x105ffd
     = Some 0x8877665544332211.
Proof. split; vm_compute; reflexivity. Qed.
