(* ===== verification/SoftmmuDevice.v ===== *)
(** * Guest accesses of devices

    The memory-mapped part of accel/tcg/cputlb.c: the guard that keeps the fast
    interpreter, which has no Asyncify instrumentation, away from the devices that may
    switch coroutines, and the split of an access of a device into aligned pieces. *)
From Stdlib Require Import String.
From S2P Require Import Prelude BitOps HostUtils Bitmap Memory Tci Tlb TlbCoherence TlbOps TlbLookup TlbSafety HostAtomic HostAtomicExact Softmmu SoftmmuLookup SoftmmuParts SoftmmuExact.

#[local] Open Scope Z_scope.

Definition may_yield {W} `{!World W} (w : W) (mr : Z) : bool := bb_mr_may_yield (memory_region_name w mr).

(** A property of the world that only the handlers of devices that may yield can change. *)
Record only_yielding_change {W} `{!World W} (I : W -> Prop) : Prop := {
  oy_watch : forall w a n at_ fl w', cpu_check_watchpoint w a n at_ fl = Some w' -> I w -> I w';
  oy_invalidate : forall w a n w', tb_invalidate w a n = Some w' -> I w -> I w';
  oy_dirty : forall w a n, I w -> I (set_dirty_range w a n);
  oy_read : forall w mr off mop at_ w' v r, dispatch_read w mr off mop at_ = (w', v, r) -> may_yield w mr = false -> I w -> I w' /\ may_yield w' mr = false;
  oy_write : forall w mr off v mop at_ w' r, dispatch_write w mr off v mop at_ = (w', r) -> may_yield w mr = false -> I w -> I w' /\ may_yield w' mr = false;
  oy_failed : forall w full a n r w', io_failed w full a n r = Some w' -> I w -> I w' /\ forall mr, may_yield w' mr = may_yield w mr
}.

Section Guard.
Context {W : Type} `{!World W} (walk : walk_t) (al8 serial : bool) (fast_depth : Z) (I : W -> Prop).
Hypothesis HI : only_yielding_change I.
Hypothesis Hfast : fast_depth <> 0.
Implicit Type s : st W.

(** A computation that keeps [I], and restarts the instruction only in the slow interpreter. *)
Definition spares {A} (m : M A) : Prop := forall s, I (s_world s) ->
  match m s with
  | Return _ s' => I (s_world s')
  | Leave w s' => I (s_world s') /\ (w = Restart -> s_force_slow s' = 1)
  | _ => True
  end.

Lemma spares_ret {A} (a : A) : spares (mret a).
Proof. by intros s H. Qed.
Lemma spares_bind {A B} (m : M A) (f : A -> M B) : spares m -> (forall a, spares (f a)) -> spares (mbind f m).
Proof.
  intros Hm Hf s Hs. specialize (Hm s Hs). unfold mbind, M_bind. destruct (m s) as [a s'| | |]; [by apply Hf | done | done | done].
Qed.
Lemma spares_leave {A} w : w <> Restart -> spares (leave (A := A) w).
Proof. by intros Hw s H. Qed.
Lemma spares_stuck {A} : spares (stuck (A := A)).
Proof. by intros s H. Qed.
Lemma spares_must {A} (o : option A) : spares (must o).
Proof. destruct o; [apply spares_ret | apply spares_stuck]. Qed.
Lemma spares_host {A} (r : res A) : spares (host r).
Proof. destruct r; [apply spares_ret | by apply spares_leave | apply spares_stuck | apply spares_stuck]. Qed.

(** Reading the state and acting on it. *)
Lemma spares_get {A} (f : st W -> M A) : (forall s, I (s_world s) -> match f s s with
    | Return _ s' => I (s_world s') | Leave w s' => I (s_world s') /\ (w = Restart -> s_force_slow s' = 1) | _ => True end) -> spares (s ← get; f s).
Proof. intros H s Hs. apply (H s Hs). Qed.
Lemma spares_ram : spares ram.
Proof. by intros s H. Qed.
Lemma spares_set_mem m : spares (set_mem m).
Proof. by intros s H. Qed.

Lemma spares_deref m i : spares (deref m i).
Proof. apply spares_get. intros s Hs. apply (spares_bind (must _) _ (spares_must _)); [|done]. intros t. apply spares_must. Qed.

Ltac spare :=
  repeat first
    [ apply spares_ret | apply spares_stuck | apply spares_must | apply spares_host | apply spares_ram | apply spares_set_mem
    | apply spares_deref | (apply spares_leave; discriminate) | done
    | (apply spares_bind; [|intros ?])
    | match goal with |- context [if ?b then _ else _] => destruct b end
    | match goal with |- context [let '(_, _) := ?x in _] => destruct x end ].

Lemma spares_notdirty a n full : spares (notdirty_write a n full).
Proof.
  unfold notdirty_write. apply spares_get. intros s Hs. unfold mbind, M_bind.
  assert (Hgo : forall s, I (s_world s) ->
    spares (s ← get; let w := set_dirty_range (s_world s) (u64 (a + xlat_section full)) n in
      _ ← put (set_world w s); if page_is_clean w (u64 (a + xlat_section full)) then mret () else s ← get; c ← must (tlb_set_dirty a (s_cpu s)); put (set_cpu c s))).
  { intros _ _. apply spares_get. intros s0 H0. pose proof (oy_dirty _ HI _ (u64 (a + xlat_section full)) n H0) as Hd. run_m.
    destruct (page_is_clean _ _); [done|]. by destruct (tlb_set_dirty _ _). }
  destruct (dirty_code _ _); [by apply (Hgo s)|]. destruct (tb_invalidate _ _ _) as [w|] eqn:Ei; [|by split].
  apply (Hgo s Hs). by eapply oy_invalidate.
Qed.

Lemma spares_watch m d ty : spares (mmu_watch_or_dirty m d ty).
Proof.
  unfold mmu_watch_or_dirty. apply spares_bind.
  - destruct (test _ _); [|apply spares_ret]. apply spares_bind; [apply spares_deref|]. intros full. apply spares_get. intros s Hs.
    destruct (cpu_check_watchpoint _ _ _ _ _) as [w|] eqn:Ew; [|by split]. by eapply oy_watch.
  - intros fl. apply spares_bind; [|intros; apply spares_ret]. destruct (test _ _); [|apply spares_ret].
    apply spares_bind; [apply spares_deref|]. intros full. apply spares_bind; [apply spares_notdirty | intros; apply spares_ret].
Qed.

Lemma spares_lookup1 a n m ty : spares (lookup1 walk a n m ty).
Proof. apply spares_get. intros s Hs. by destruct (mmu_lookup1 _ _ _ _ _ _) as [[[c d] r]|]. Qed.

Lemma spares_mmu_lookup addr oi ty : spares (mmu_lookup walk addr oi ty).
Proof.
  unfold mmu_lookup. destruct (test addr _); [by apply spares_leave|]. destruct (negb _).
  - apply spares_bind; [apply spares_lookup1|]. intros [p0 r]. apply spares_bind; [|intros; apply spares_ret].
    destruct (test _ _); [apply spares_watch | apply spares_ret].
  - apply spares_bind; [apply spares_lookup1|]. intros [p0 r]. apply spares_bind; [apply spares_lookup1|]. intros [p1 r1].
    apply spares_bind.
    { destruct r1; [|apply spares_ret]. apply spares_get. intros s Hs. apply (spares_bind (must _) _ (spares_must _)); [|done]. intros t. apply spares_ret. }
    intros q0. apply spares_bind; [|intros [q1 q2]; apply spares_ret]. destruct (test _ _); [|apply spares_ret].
    apply spares_bind; [apply spares_watch|]. intros. apply spares_bind; [apply spares_watch | intros; apply spares_ret].
Qed.

(** After the guard, the pieces of an access all go to a device that does not yield. *)
Lemma spares_ld_pieces fuel full r a n mr off s : I (s_world s) -> may_yield (s_world s) mr = false ->
  match int_ld_mmio_beN fuel full r a n mr off s with
  | Return _ s' => I (s_world s') | Leave w s' => I (s_world s') /\ (w = Restart -> s_force_slow s' = 1) | _ => True end.
Proof.
  revert r a n off s. induction fuel as [|fuel IH]; intros r a n off s Hs Hy; [done|]. cbn [int_ld_mmio_beN]. run_m.
  destruct (dispatch_read _ _ _ _ _) as [[w v] e] eqn:Er. destruct (oy_read _ HI _ _ _ _ _ _ _ _ Er Hy Hs) as [Hw Hyw].
  destruct (e =? MEMTX_OK); [|destruct (io_failed _ _ _ _ _) as [w'|] eqn:Ef; [|done]; destruct (oy_failed _ HI _ _ _ _ _ _ Ef Hw) as [Hw' Hn]];
    (destruct (_ =? 8); [done|]; destruct (_ =? 0); [done|]; apply IH; [done|]); cbn [s_world]; by rewrite ?Hn.
Qed.

Lemma spares_st_pieces fuel full v a n mr off s : I (s_world s) -> may_yield (s_world s) mr = false ->
  match int_st_mmio_leN fuel full v a n mr off s with
  | Return _ s' => I (s_world s') | Leave w s' => I (s_world s') /\ (w = Restart -> s_force_slow s' = 1) | _ => True end.
Proof.
  revert v a n off s. induction fuel as [|fuel IH]; intros v a n off s Hs Hy; [done|]. cbn [int_st_mmio_leN]. run_m.
  destruct (dispatch_write _ _ _ _ _ _) as [w e] eqn:Er. destruct (oy_write _ HI _ _ _ _ _ _ _ _ Er Hy Hs) as [Hw Hyw].
  destruct (e =? MEMTX_OK); [|destruct (io_failed _ _ _ _ _) as [w'|] eqn:Ef; [|done]; destruct (oy_failed _ HI _ _ _ _ _ _ Ef Hw) as [Hw' Hn]];
    (destruct (_ =? 8); [done|]; destruct (_ =? 0); [done|]; apply IH; [done|]); cbn [s_world]; by rewrite ?Hn.
Qed.

Lemma spares_ld_mmio full r a n : spares (do_ld_mmio_beN fast_depth full r a n).
Proof.
  intros s Hs. unfold do_ld_mmio_beN, io_prepare, bb_guard_mmio. run_m. destruct (can_do_io _); [|done].
  rewrite (proj2 (Z.eqb_neq _ _) Hfast). cbn [negb andb]. destruct (bb_mr_may_yield _) eqn:Ey; [done|]. by apply spares_ld_pieces.
Qed.

Lemma spares_st_mmio full v a n : spares (do_st_mmio_leN fast_depth full v a n).
Proof.
  intros s Hs. unfold do_st_mmio_leN, io_prepare, bb_guard_mmio. run_m. destruct (can_do_io _); [|done].
  rewrite (proj2 (Z.eqb_neq _ _) Hfast). cbn [negb andb]. destruct (bb_mr_may_yield _) eqn:Ey; [done|]. by apply spares_st_pieces.
Qed.

Lemma spares_ld_beN m p r mop : spares (do_ld_beN al8 fast_depth m p r mop).
Proof.
  unfold do_ld_beN, do_ld_parts_beN, do_ld_bytes_beN, do_ld_whole_be4, do_ld_whole_be8. destruct (test _ _); [|by spare].
  apply spares_bind; [apply spares_deref | intros; apply spares_ld_mmio].
Qed.

Lemma spares_st_leN m p v mop : spares (do_st_leN al8 fast_depth m p v mop).
Proof.
  unfold do_st_leN, storing. destruct (test _ TLB_MMIO); [|by spare].
  apply spares_bind; [apply spares_deref | intros; apply spares_st_mmio].
Qed.

Lemma spares_ld_N k m p mop : spares (do_ld_N al8 serial fast_depth k m p mop).
Proof.
  destruct k as [|[|[|k]]]; cbn [do_ld_N]; unfold do_ld_1, do_ld_2, do_ld_4, do_ld_8; (destruct (test (l_flags p) _); [|by spare]);
    (apply spares_bind; [apply spares_deref | intros; apply spares_bind; [apply spares_ld_mmio | by spare]]).
Qed.

Lemma spares_st_page m p dev f : (forall full, spares (dev full)) -> spares (st_page m p dev f).
Proof.
  intros Hd. unfold st_page. destruct (test _ TLB_MMIO); [|by spare].
  apply spares_bind; [apply spares_deref | intros; apply spares_bind; [apply Hd | by spare]].
Qed.

Lemma spares_st_N k m p v mop : spares (do_st_N al8 serial fast_depth k m p v mop).
Proof. destruct k as [|[|[|k]]]; apply spares_st_page; intros; apply spares_st_mmio. Qed.

Lemma spares_ld_parts k l : spares (ld_parts_N al8 fast_depth k l).
Proof.
  destruct k as [|[|[|k]]]; cbn [ld_parts_N].
  2: { apply spares_bind; [apply (spares_ld_N 0 _ _ 0)|]. intros. apply spares_bind; [apply (spares_ld_N 0 _ _ 0) | by spare]. }
  all: apply spares_bind; [apply spares_ld_beN | intros; apply spares_bind; [apply spares_ld_beN | by spare]].
Qed.

Lemma spares_st_parts k l v : spares (st_parts_N al8 fast_depth k l v).
Proof.
  destruct k as [|[|[|k]]]; cbn [st_parts_N].
  2: { destruct (Z.land (l_memop l) MO_BSWAP =? MO_LE); (apply spares_bind; [apply (spares_st_N 0 _ _ _ 0) | intros; apply (spares_st_N 0 _ _ _ 0)]). }
  all: apply spares_bind; [apply spares_st_leN | intros; apply spares_bind; [apply spares_st_leN | by spare]].
Qed.

(** C18: While the fast interpreter is on the stack, no guest load or store, of any size,
    to any page and across pages, runs the handler of a device that may switch
    coroutines: whatever such handlers alone can change is as it was, whether the access
    returns or leaves.  Where the guard makes the access leave, the flag that sends the
    instruction to the instrumented interpreter is set. *)
Theorem fast_access_never_yields k addr val oi ty :
  spares (do_ldN_mmu walk al8 serial fast_depth k addr oi ty) /\ spares (do_stN_mmu walk al8 serial fast_depth k addr val oi).
Proof.
  split; intros s Hs; [rewrite do_ldN_steps | rewrite do_stN_steps].
  - apply (spares_bind (mmu_lookup walk addr oi ty)); [apply spares_mmu_lookup | | done]. intros [l c]. destruct (_ || _); [apply spares_ld_N | apply spares_ld_parts].
  - apply (spares_bind (mmu_lookup walk addr oi MMU_DATA_STORE)); [apply spares_mmu_lookup | | done]. intros [l c]. destruct (_ || _); [apply spares_st_N | apply spares_st_parts].
Qed.
End Guard.

(** ** Pieces *)

Lemma piece_spec n a : 1 <= n <= 8 -> let p := piece_mop n a in
  0 <= p <= 3 /\ (2 ^ p | n) /\ (2 ^ p | a) /\ (p = 3 -> n = 8).
Proof.
  intros Hn p. unfold p, piece_mop. set (x := u32 _). assert (Hx : is_u 32 x) by (apply uw_range; lia).
  assert (Hb : forall i, 0 <= i < 32 -> Z.testbit x i = Z.testbit n i || Z.testbit a i || (i =? 3)).
  { intros i Hi. unfold x. rewrite testbit_uw, !Z.lor_spec, testbit_uw by lia. change 8 with (2 ^ 3). rewrite Z.pow2_bits_eqb, Z.eqb_sym by lia.
    by rewrite (proj2 (Z.ltb_lt i 32)) by lia. }
  assert (H3 : Z.testbit x 3 = true) by (rewrite Hb by lia; apply orb_true_r).
  destruct (ctz32_spec x Hx) as (Hr & Ht & Hf); [intros E; by rewrite E in H3|].
  assert (Hle : ctz32 x <= 3). { destruct (Z.le_gt_cases (ctz32 x) 3) as [|Hgt]; [done|]. rewrite Hf in H3 by lia. done. }
  assert (Hdiv : forall y, (forall i, 0 <= i < ctz32 x -> Z.testbit y i = false) -> (2 ^ ctz32 x | y)).
  { intros y Hy. apply Z.mod_divide; [apply Z.pow_nonzero; lia|]. apply Z.bits_inj'; intros i Hi. rewrite Z.testbit_mod_pow2, Z.bits_0 by lia.
    destruct (Z.ltb_spec i (ctz32 x)); simpl; [by apply Hy | done]. }
  assert (Hlow : forall i, 0 <= i < ctz32 x -> Z.testbit n i = false /\ Z.testbit a i = false).
  { intros i Hi. specialize (Hf i Hi). rewrite Hb in Hf by lia. destruct (Z.testbit n i), (Z.testbit a i); done. }
  split_and!; [lia | lia | apply Hdiv; apply Hlow | apply Hdiv; apply Hlow |].
  intros E. assert (H8 : (8 | n)) by (change 8 with (2 ^ 3); rewrite <- E; apply Hdiv; apply Hlow). destruct H8 as [q ->]. lia.
Qed.

(** The next piece is as aligned in the device as in the guest. *)
Lemma aligned_next a off k : (8 | off - a) -> (8 | off + k - u64 (a + k)).
Proof.
  intros [q Hq]. unfold uw. exists (q + 2 ^ 61 * ((a + k) / 2 ^ 64)). pose proof (Z.div_mod (a + k) (2 ^ 64) ltac:(done)) as Hd.
  change (2 ^ 64) with (2 ^ 61 * 8) in *. lia.
Qed.

(** A device that is an array of bytes to aligned accesses. *)
Record byte_device {W} `{!World W} (mr : Z) (bytes : W -> mem) : Prop := {
  bd_read : forall w off p at_ x, 0 <= p <= 3 -> (2 ^ p | off) -> load (Z.to_nat (2 ^ p)) (bytes w) off = Some x ->
    dispatch_read w mr off (Z.lor p MO_BE) at_ = (w, bswap_bytes (2 ^ p) x, MEMTX_OK);
  bd_write : forall w off v p at_ m', 0 <= p <= 3 -> (2 ^ p | off) -> store (Z.to_nat (2 ^ p)) (bytes w) off v = Some m' ->
    exists w', dispatch_write w mr off v (Z.lor p MO_LE) at_ = (w', MEMTX_OK) /\ bytes w' = m'
}.

Section Pieces.
Context {W : Type} `{!World W} (fast_depth : Z) (mr : Z) (bytes : W -> mem).
Hypothesis Hdev : byte_device mr bytes.
Implicit Type s : st W.

(** The first piece of [n] bytes, as a size in bytes. *)
Lemma piece_size n a : (1 <= n <= 8)%nat -> exists k, Z.shiftl 1 (piece_mop (Z.of_nat n) a) = Z.of_nat k /\ (1 <= k <= n)%nat
  /\ Z.to_nat (2 ^ piece_mop (Z.of_nat n) a) = k /\ (k = 8 -> n = 8)%nat /\ ((k < n)%nat -> (k <= 4)%nat).
Proof.
  intros Hn. destruct (piece_spec (Z.of_nat n) a ltac:(lia)) as (Hp & Hdn & _ & H8). set (p := piece_mop _ _) in *. clearbody p.
  assert (Hpos : 0 < 2 ^ p) by (apply Z.pow_pos_nonneg; lia). pose proof (Z.divide_pos_le (2 ^ p) (Z.of_nat n) ltac:(lia) Hdn).
  exists (Z.to_nat (2 ^ p)). rewrite Z.shiftl_1_l. assert (Hc : (2 ^ p = 8 /\ Z.of_nat n = 8) \/ 2 ^ p <= 4).
  { destruct (Z.eq_dec p 3) as [E|]; [left; split; [by rewrite E | by apply H8] | right]. change 4 with (2 ^ 2). apply Z.pow_le_mono_r; lia. }
  split_and!; lia.
Qed.

Lemma next_piece a off k b : (8 | off - a) -> is_u 64 off -> off + Z.of_nat (k + b) <= 2 ^ 64 -> (0 < b)%nat ->
  u64 (off + Z.of_nat k) = off + Z.of_nat k /\ is_u 64 (off + Z.of_nat k) /\ (8 | off + Z.of_nat k - u64 (a + Z.of_nat k)).
Proof.
  intros H8 Ho Hle Hb. assert (Hu : is_u 64 (off + Z.of_nat k)) by (unfold is_u in *; lia). split_and!; [by apply uw_small | done | by apply aligned_next].
Qed.

Lemma ld_pieces_ok fuel full r a n off s x : (1 <= n <= 8)%nat -> (n <= fuel)%nat -> is_u 64 off -> off + Z.of_nat n <= 2 ^ 64 ->
  (8 | off - a) -> mem_wf (bytes (s_world s)) -> load n (bytes (s_world s)) off = Some x -> is_u (64 - 8 * Z.of_nat n) r ->
  int_ld_mmio_beN fuel full r a (Z.of_nat n) mr off s = Return (be_value r n x) s.
Proof.
  revert r a n off x. induction fuel as [|fuel IH]; intros r a n off x Hn Hf Ho Hle H8 Hwf Hx Hr; [lia|]. cbn [int_ld_mmio_beN].
  destruct (piece_spec (Z.of_nat n) a ltac:(lia)) as (Hp & _ & Hda & _). destruct (piece_size n a Hn) as (k & Hk & Hkn & Hkp & Hk8 & Hk4).
  rewrite Hk. set (p := piece_mop _ _) in *. clearbody p.
  assert (Hdo : (2 ^ p | off)).
  { replace off with (off - a + a) by lia. apply Z.divide_add_r; [|done]. etransitivity; [|exact H8]. change 8 with (2 ^ 3).
    exists (2 ^ (3 - p)). rewrite <- Z.pow_add_r by lia. f_equal. lia. }
  assert (exists b, n = (k + b)%nat) as [b ->] by (exists (n - k)%nat; lia). destruct (load_split k b _ off x Hx) as (x0 & x1 & E0 & E1 & ->).
  pose proof (load_range _ _ _ _ Hwf E0) as Hu0. rewrite <- Hkp in E0.
  run_m. rewrite (bd_read mr bytes Hdev _ _ p _ x0 Hp Hdo E0). cbn [Z.eqb MEMTX_OK].
  replace (2 ^ p) with (Z.of_nat k) by lia. destruct s as [sc sr sw sf]. cbn [s_cpu s_ram s_world s_force_slow] in *.
  destruct (Z.eqb_spec (Z.of_nat k) 8) as [E8|E8].
  - assert (k = 8%nat /\ b = 0%nat) as [-> ->] by lia. cbn [load] in E1. injection E1 as <-. f_equal.
    assert (r = 0) as -> by (unfold is_u in Hr; simpl in Hr; lia). unfold be_value. rewrite Z.mul_0_r, Z.add_0_r. done.
  - rewrite <- (Z.mul_comm 8), (be_shift r k x0) by (done || (unfold is_u in *; split; [lia|]; eapply Z.lt_le_trans; [apply Hr | apply Z.pow_le_mono_r; lia])).
    replace (Z.of_nat (k + b) - Z.of_nat k) with (Z.of_nat b) by lia. destruct (Z.eqb_spec (Z.of_nat b) 0) as [Eb|Eb].
    { assert (b = 0)%nat as -> by lia. cbn [load] in E1. injection E1 as <-. by rewrite Z.mul_0_r, Z.add_0_r, Nat.add_0_r. }
    destruct (next_piece a off k b H8 Ho Hle ltac:(lia)) as (Hw & Huo & H8'). rewrite Hw.
    rewrite (IH _ _ b _ x1); [by rewrite be_value_step | lia | lia | done | lia | done | done | done | apply be_prefix; [done | lia]].
Qed.

Lemma st_pieces_ok fuel full v a n off s : (1 <= n <= 8)%nat -> (n <= fuel)%nat -> is_u 64 off -> off + Z.of_nat n <= 2 ^ 64 ->
  (8 | off - a) -> mapped (bytes (s_world s)) off n -> is_u 64 v ->
  exists w', store n (bytes (s_world s)) off v = Some (bytes w')
    /\ int_st_mmio_leN fuel full v a (Z.of_nat n) mr off s = Return (Z.shiftr v (8 * Z.of_nat n)) (set_world w' s).
Proof.
  revert v a n off s. induction fuel as [|fuel IH]; intros v a n off s Hn Hf Ho Hle H8 Hm Hv; [lia|]. cbn [int_st_mmio_leN].
  destruct (piece_spec (Z.of_nat n) a ltac:(lia)) as (Hp & _ & Hda & _). destruct (piece_size n a Hn) as (k & Hk & Hkn & Hkp & Hk8 & Hk4).
  rewrite Hk. set (p := piece_mop _ _) in *. clearbody p.
  assert (Hdo : (2 ^ p | off)).
  { replace off with (off - a + a) by lia. apply Z.divide_add_r; [|done]. etransitivity; [|exact H8]. change 8 with (2 ^ 3).
    exists (2 ^ (3 - p)). rewrite <- Z.pow_add_r by lia. f_equal. lia. }
  assert (exists b, n = (k + b)%nat) as [b ->] by (exists (n - k)%nat; lia).
  destruct (store_total k (bytes (s_world s)) off v) as [m1 E1]; [intros i Hi; apply Hm; lia|]. rewrite <- Hkp in E1 at 1.
  destruct (bd_write mr bytes Hdev _ _ v p (attrs full) m1 Hp Hdo E1) as (w1 & Ew & <-). rewrite Hkp in E1.
  run_m. rewrite Ew. cbn [Z.eqb MEMTX_OK]. rewrite store_concat, E1. cbn [mbind option_bind].
  destruct (Z.eqb_spec (Z.of_nat k) 8) as [E8|E8].
  - assert (k = 8%nat /\ b = 0%nat) as [-> ->] by lia. exists w1. split; [done|]. f_equal. symmetry. change (8 * Z.of_nat (8 + 0)) with 64.
    rewrite Z.shiftr_div_pow2 by lia. by apply Z.div_small.
  - replace (Z.of_nat (k + b) - Z.of_nat k) with (Z.of_nat b) by lia. rewrite (Z.mul_comm (Z.of_nat k) 8). destruct (Z.eqb_spec (Z.of_nat b) 0) as [Eb|Eb].
    { assert (b = 0)%nat as -> by lia. exists w1. rewrite Nat.add_0_r. done. }
    destruct (next_piece a off k b H8 Ho Hle ltac:(lia)) as (Hw & Huo & H8'). rewrite Hw.
    destruct (IH (Z.shiftr v (8 * Z.of_nat k)) (u64 (a + Z.of_nat k)) b (off + Z.of_nat k) (set_world w1 s)) as (w' & Es & Er); [lia | lia | done | lia | done | | |].
    + apply (store_mapped k _ off v (bytes w1) (off + Z.of_nat k) b E1). intros i Hi. rewrite <- Z.add_assoc. apply Hm. lia.
    + unfold is_u in *. rewrite Z.shiftr_div_pow2 by lia. split; [apply Z.div_pos; [lia | apply Z.pow_pos_nonneg; lia]|].
      eapply Z.le_lt_trans; [apply Z.div_le_upper_bound with (q := v); [apply Z.pow_pos_nonneg; lia|] | apply Hv].
      assert (1 <= 2 ^ (8 * Z.of_nat k)) by (apply (Z.pow_le_mono_r 2 0); lia). nia.
    + exists w'. split; [done|]. unfold set_world in Er |- *. rewrite Er. cbn [s_cpu s_ram s_force_slow]. f_equal. rewrite Z.shiftr_shiftr by lia. f_equal. lia.
Qed.
End Pieces.

(** The offset in the region [io_prepare] gives for a guest address. *)
Definition region_offset (full : CPUTLBEntryFull) (addr : Z) : Z := u64 (Z.land (xlat_section full) TARGET_PAGE_MASK + addr).

Lemma region_aligned full addr : is_u 64 (xlat_section full) -> (8 | region_offset full addr - addr).
Proof.
  intros Hx. unfold region_offset. rewrite page_at_div by done. unfold uw. set (q := xlat_section full / 4096).
  exists (512 * q - 2 ^ 61 * ((q * 4096 + addr) / 2 ^ 64)). pose proof (Z.div_mod (q * 4096 + addr) (2 ^ 64) ltac:(done)) as Hd.
  change (2 ^ 64) with (2 ^ 61 * 8) in *. lia.
Qed.

(** A piece of an access: its guest address, its offset in the region and the logarithm
    of its size.  [tiles]: the pieces cover [n] bytes from [addr] and [off] on, each byte
    once and in order, each piece aligned in the region. *)
Record piece := { p_addr : Z; p_off : Z; p_mop : Z }.

Fixpoint tiles (addr off n : Z) (l : list piece) : Prop :=
  match l with
  | [] => n = 0
  | x :: l => p_addr x = addr /\ p_off x = off /\ 0 <= p_mop x <= 3 /\ (2 ^ p_mop x | off) /\ 2 ^ p_mop x <= n /\
              tiles (u64 (addr + 2 ^ p_mop x)) (off + 2 ^ p_mop x) (n - 2 ^ p_mop x) l
  end.

(** The pieces in order: one dispatch each; a failed one is reported, which may raise an
    exception ([None]).  A read shifts what was read before up, a write takes the low
    bytes of what is left of the value. *)
Definition answered {W} `{!World W} (w : W) (r : Z) (full : CPUTLBEntryFull) (x : piece) : option W :=
  if r =? MEMTX_OK then Some w else io_failed w full (p_addr x) (2 ^ p_mop x) r.

Fixpoint read_pieces {W} `{!World W} (full : CPUTLBEntryFull) (mr : Z) (l : list piece) (w : W) (ret : Z) : option (W * Z) :=
  match l with
  | [] => Some (w, ret)
  | x :: l =>
      let '(w, v, r) := dispatch_read w mr (p_off x) (Z.lor (p_mop x) MO_BE) (attrs full) in
      w ← answered w r full x;
      read_pieces full mr l w (Z.lor (u64 (Z.shiftl ret (8 * 2 ^ p_mop x))) v)
  end.

Fixpoint write_pieces {W} `{!World W} (full : CPUTLBEntryFull) (mr : Z) (l : list piece) (w : W) (v : Z) : option (W * Z) :=
  match l with
  | [] => Some (w, v)
  | x :: l =>
      let '(w, r) := dispatch_write w mr (p_off x) v (Z.lor (p_mop x) MO_LE) (attrs full) in
      w ← answered w r full x;
      write_pieces full mr l w (Z.shiftr v (8 * 2 ^ p_mop x))
  end.

Definition finished {W} (o : option (W * Z)) (s : st W) (r : out W Z) : Prop :=
  match o with Some (w, v) => r = Return v (set_world w s) | None => exists s', r = Leave IoFailed s' end.

(** The pieces the code makes, largest first as far as the address and the rest allow. *)
Fixpoint pieces (fuel : nat) (addr off size : Z) : list piece :=
  match fuel with
  | O => []
  | S fuel =>
      let p := piece_mop size addr in
      {| p_addr := addr; p_off := off; p_mop := p |} ::
      (if size - 2 ^ p =? 0 then [] else pieces fuel (u64 (addr + 2 ^ p)) (off + 2 ^ p) (size - 2 ^ p))
  end.

Lemma aligned_piece n a off : 1 <= n <= 8 -> (8 | off - a) -> let p := piece_mop n a in
  0 <= p <= 3 /\ (2 ^ p | off) /\ 1 <= 2 ^ p <= n /\ (2 ^ p = 8 -> n = 8).
Proof.
  intros Hn H8. destruct (piece_spec n a Hn) as (Hp & Hdn & Hda & E8). set (p := piece_mop n a) in *. clearbody p. cbv zeta.
  assert (Hpos : 1 <= 2 ^ p) by (apply (Z.pow_le_mono_r 2 0); lia). split_and!; try lia.
  - replace off with (off - a + a) by lia. apply Z.divide_add_r; [|done]. etransitivity; [|exact H8]. change 8 with (2 ^ 3).
    exists (2 ^ (3 - p)). rewrite <- Z.pow_add_r by lia. f_equal. lia.
  - apply Z.divide_pos_le; [lia | done].
  - intros E. apply E8. destruct (Z.le_gt_cases 3 p); [lia|]. assert (2 ^ p <= 2 ^ 2) by (apply Z.pow_le_mono_r; lia). lia.
Qed.

Lemma pieces_tile fuel : forall addr off n, 1 <= n <= 8 -> n <= Z.of_nat fuel -> (8 | off - addr) -> tiles addr off n (pieces fuel addr off n).
Proof.
  induction fuel as [|fuel IH]; intros addr off n Hn Hf H8; [lia|]. cbn [pieces tiles p_addr p_off p_mop].
  destruct (aligned_piece n addr off Hn H8) as (Hp & Hd & Hle & _). split_and!; try (done || lia).
  destruct (Z.eqb_spec (n - 2 ^ piece_mop n addr) 0) as [E|E]; [done|]. apply IH; [lia | lia | by apply aligned_next].
Qed.

Section Loops.
Context {W : Type} `{!World W} (fast_depth : Z) (full : CPUTLBEntryFull) (mr : Z).
Implicit Type s : st W.

Lemma ld_loop fuel : forall r a n off s, 1 <= n <= 8 -> n <= Z.of_nat fuel -> is_u 64 off -> off + n <= 2 ^ 64 -> (8 | off - a) ->
  finished (read_pieces full mr (pieces fuel a off n) (s_world s) r) s (int_ld_mmio_beN fuel full r a n mr off s).
Proof.
  induction fuel as [|fuel IH]; intros r a n off s Hn Hf Ho Hle H8; [lia|]. cbn [int_ld_mmio_beN pieces].
  destruct (aligned_piece n a off Hn H8) as (Hp & _ & Hk & E8). rewrite Z.shiftl_1_l. set (p := piece_mop n a) in *. clearbody p.
  cbn [read_pieces p_addr p_off p_mop]. unfold answered. cbn [p_addr p_mop]. run_m.
  destruct (dispatch_read _ _ _ _ _) as [[w v] e].
  assert (Hgo : forall w', finished (read_pieces full mr (if n - 2 ^ p =? 0 then [] else pieces fuel (u64 (a + 2 ^ p)) (off + 2 ^ p) (n - 2 ^ p)) w'
      (Z.lor (u64 (Z.shiftl r (8 * 2 ^ p))) v)) s
    ((if 2 ^ p =? 8 then fun s => Return v s
      else if n - 2 ^ p =? 0 then fun s => Return (Z.lor (u64 (Z.shiftl r (2 ^ p * 8))) v) s
      else int_ld_mmio_beN fuel full (Z.lor (u64 (Z.shiftl r (2 ^ p * 8))) v) (u64 (a + 2 ^ p)) (n - 2 ^ p) mr (u64 (off + 2 ^ p)))
     {| s_cpu := s_cpu s; s_ram := s_ram s; s_world := w'; s_force_slow := s_force_slow s |})).
  { intros w'. rewrite (Z.mul_comm (2 ^ p) 8). destruct (Z.eqb_spec (2 ^ p) 8) as [Ek|Ek].
    - rewrite (E8 Ek), Ek. cbn [Z.eqb Z.sub Z.add Z.opp Z.pos_sub read_pieces finished]. f_equal. unfold uw.
      change (8 * 8) with 64. rewrite Z.shiftl_mul_pow2, Z.mod_mul by done. by rewrite Z.lor_0_l.
    - destruct (Z.eqb_spec (n - 2 ^ p) 0) as [Er|Er]; [done|].
      assert (Hu : u64 (off + 2 ^ p) = off + 2 ^ p) by (apply uw_small; unfold is_u in *; lia). rewrite Hu.
      exact (IH (Z.lor (u64 (Z.shiftl r (8 * 2 ^ p))) v) (u64 (a + 2 ^ p)) (n - 2 ^ p) (off + 2 ^ p)
               {| s_cpu := s_cpu s; s_ram := s_ram s; s_world := w'; s_force_slow := s_force_slow s |}
               ltac:(lia) ltac:(lia) ltac:(unfold is_u in *; lia) ltac:(lia) (aligned_next _ _ _ H8)). }
  destruct (e =? MEMTX_OK); cbn [mbind option_bind]; [exact (Hgo w)|].
  destruct (io_failed w full a (2 ^ p) e) as [w'|]; cbn [mbind option_bind]; [exact (Hgo w') | by eexists].
Qed.

Lemma shiftr_u64 v k : 0 <= k -> is_u 64 v -> is_u 64 (Z.shiftr v k).
Proof.
  intros Hk Hv. unfold is_u in *. rewrite Z.shiftr_div_pow2 by lia. assert (1 <= 2 ^ k) by (apply (Z.pow_le_mono_r 2 0); lia).
  split; [apply Z.div_pos; lia|]. eapply Z.le_lt_trans; [|apply Hv]. apply Z.div_le_upper_bound; nia.
Qed.

Lemma st_loop fuel : forall v a n off s, 1 <= n <= 8 -> n <= Z.of_nat fuel -> is_u 64 off -> off + n <= 2 ^ 64 -> (8 | off - a) -> is_u 64 v ->
  finished (write_pieces full mr (pieces fuel a off n) (s_world s) v) s (int_st_mmio_leN fuel full v a n mr off s).
Proof.
  induction fuel as [|fuel IH]; intros v a n off s Hn Hf Ho Hle H8 Hv; [lia|]. cbn [int_st_mmio_leN pieces].
  destruct (aligned_piece n a off Hn H8) as (Hp & _ & Hk & E8). rewrite Z.shiftl_1_l. set (p := piece_mop n a) in *. clearbody p.
  cbn [write_pieces p_addr p_off p_mop]. unfold answered. cbn [p_addr p_mop]. run_m.
  destruct (dispatch_write _ _ _ _ _ _) as [w e].
  assert (Hgo : forall w', finished (write_pieces full mr (if n - 2 ^ p =? 0 then [] else pieces fuel (u64 (a + 2 ^ p)) (off + 2 ^ p) (n - 2 ^ p)) w'
      (Z.shiftr v (8 * 2 ^ p))) s
    ((if 2 ^ p =? 8 then fun s => Return 0 s
      else if n - 2 ^ p =? 0 then fun s => Return (Z.shiftr v (2 ^ p * 8)) s
      else int_st_mmio_leN fuel full (Z.shiftr v (2 ^ p * 8)) (u64 (a + 2 ^ p)) (n - 2 ^ p) mr (u64 (off + 2 ^ p)))
     {| s_cpu := s_cpu s; s_ram := s_ram s; s_world := w'; s_force_slow := s_force_slow s |})).
  { intros w'. rewrite (Z.mul_comm (2 ^ p) 8). destruct (Z.eqb_spec (2 ^ p) 8) as [Ek|Ek].
    - rewrite (E8 Ek), Ek. cbn [Z.eqb Z.sub Z.add Z.opp Z.pos_sub write_pieces finished]. f_equal.
      change (8 * 8) with 64. rewrite Z.shiftr_div_pow2 by lia. symmetry. by apply Z.div_small.
    - destruct (Z.eqb_spec (n - 2 ^ p) 0) as [Er|Er]; [done|].
      assert (Hu : u64 (off + 2 ^ p) = off + 2 ^ p) by (apply uw_small; unfold is_u in *; lia). rewrite Hu.
      exact (IH (Z.shiftr v (8 * 2 ^ p)) (u64 (a + 2 ^ p)) (n - 2 ^ p) (off + 2 ^ p)
               {| s_cpu := s_cpu s; s_ram := s_ram s; s_world := w'; s_force_slow := s_force_slow s |}
               ltac:(lia) ltac:(lia) ltac:(unfold is_u in *; lia) ltac:(lia) (aligned_next _ _ _ H8) ltac:(apply shiftr_u64; [lia | done])). }
  destruct (e =? MEMTX_OK); cbn [mbind option_bind]; [exact (Hgo w)|].
  destruct (io_failed w full a (2 ^ p) e) as [w'|]; cbn [mbind option_bind]; [exact (Hgo w') | by eexists].
Qed.

(** The access of [n] bytes at [addr] may go ahead: I/O is allowed here, the region is
    [mr], and the fast interpreter is not running or [mr] does not yield. *)
Definition may_access (addr : Z) (n : nat) s : Prop :=
  iotlb_to_section (s_world s) (xlat_section full) (attrs full) = mr /\ can_do_io (s_world s) = true /\
  (fast_depth = 0 \/ may_yield (s_world s) mr = false) /\ (1 <= n <= 8)%nat /\ is_u 64 (xlat_section full) /\
  region_offset full addr + Z.of_nat n <= 2 ^ 64.

Definition access_pieces (addr : Z) (n : nat) : list piece := pieces n addr (region_offset full addr) (Z.of_nat n).

Lemma guard_passes mr' s : fast_depth = 0 \/ may_yield (s_world s) mr' = false -> bb_guard_mmio fast_depth mr' s = Return () s.
Proof. intros Hg. unfold bb_guard_mmio. run_m. unfold may_yield in Hg. destruct Hg as [-> | ->]; [done | by rewrite andb_false_r]. Qed.

Lemma device_ld r addr n s : may_access addr n s ->
  finished (read_pieces full mr (access_pieces addr n) (s_world s) r) s (do_ld_mmio_beN fast_depth full r addr (Z.of_nat n) s).
Proof.
  intros (Hmr & Hio & Hg & Hn & Hx & Hle). pose proof (guard_passes mr s Hg) as Hgp.
  unfold do_ld_mmio_beN, io_prepare. unfold mbind, M_bind, get. rewrite Hio, Hmr. cbn [mret M_ret]. unfold mret, M_ret.
  rewrite Hgp, Nat2Z.id. fold (region_offset full addr).
  apply ld_loop; [lia | lia | apply uw_range; lia | done | by apply region_aligned].
Qed.

Lemma device_st v addr n s : may_access addr n s -> is_u 64 v ->
  finished (write_pieces full mr (access_pieces addr n) (s_world s) v) s (do_st_mmio_leN fast_depth full v addr (Z.of_nat n) s).
Proof.
  intros (Hmr & Hio & Hg & Hn & Hx & Hle) Hv. pose proof (guard_passes mr s Hg) as Hgp.
  unfold do_st_mmio_leN, io_prepare. unfold mbind, M_bind, get. rewrite Hio, Hmr. cbn [mret M_ret]. unfold mret, M_ret.
  rewrite Hgp, Nat2Z.id. fold (region_offset full addr).
  apply st_loop; [lia | lia | apply uw_range; lia | done | by apply region_aligned | done].
Qed.

(** C35: an access of 1 to 8 bytes of a device, at any alignment, where I/O is allowed and
    the guard lets it through, whatever the device does: the bytes are tiled by pieces,
    each aligned and at most 8 bytes long, that cover every byte once and in ascending
    order, and the access is one dispatch per piece in that order.  A load returns the
    answers joined in big-endian order after what was read before, a store passes each
    piece what is left of the value; a piece that fails is reported, and the access ends
    there only if that raises an exception.  The pieces do not depend on the device. *)
Theorem device_access_exact r v addr n s : may_access addr n s -> is_u 64 v ->
  tiles addr (region_offset full addr) (Z.of_nat n) (access_pieces addr n) /\
  finished (read_pieces full mr (access_pieces addr n) (s_world s) r) s (do_ld_mmio_beN fast_depth full r addr (Z.of_nat n) s) /\
  finished (write_pieces full mr (access_pieces addr n) (s_world s) v) s (do_st_mmio_leN fast_depth full v addr (Z.of_nat n) s).
Proof.
  intros Ha Hv. split; [|split; [by apply device_ld | by apply device_st]].
  destruct Ha as (_ & _ & _ & Hn & Hx & _). apply pieces_tile; [lia | lia | by apply region_aligned].
Qed.
End Loops.

(** On a device that is an array of bytes to aligned accesses, a load returns the bytes in
    big-endian order after those already read, and a store leaves the bytes of the value in
    the array and nothing else changed. *)
Lemma byte_device_exact {W} `{!World W} fast_depth mr (bytes : W -> mem) full r v addr n (s : st W) :
  byte_device mr bytes -> iotlb_to_section (s_world s) (xlat_section full) (attrs full) = mr -> can_do_io (s_world s) = true ->
  fast_depth = 0 \/ may_yield (s_world s) mr = false -> (1 <= n <= 8)%nat -> is_u 64 (xlat_section full) ->
  region_offset full addr + Z.of_nat n <= 2 ^ 64 -> mem_wf (bytes (s_world s)) -> mapped (bytes (s_world s)) (region_offset full addr) n ->
  is_u (64 - 8 * Z.of_nat n) r -> is_u 64 v ->
  (exists x, load n (bytes (s_world s)) (region_offset full addr) = Some x
     /\ do_ld_mmio_beN fast_depth full r addr (Z.of_nat n) s = Return (be_value r n x) s)
  /\ (exists w', store n (bytes (s_world s)) (region_offset full addr) v = Some (bytes w')
     /\ do_st_mmio_leN fast_depth full v addr (Z.of_nat n) s = Return (Z.shiftr v (8 * Z.of_nat n)) (set_world w' s)).
Proof.
  intros Hdev Hmr Hio Hg Hn Hx Hle Hwf Hm Hr Hv. assert (Ho : is_u 64 (region_offset full addr)) by (apply uw_range; lia).
  pose proof (region_aligned full addr Hx) as H8.
  assert (Hguard : negb (fast_depth =? 0) && may_yield (s_world s) mr = false).
  { destruct Hg as [-> | ->]; [done | apply andb_false_r]. }
  unfold may_yield in Hguard. unfold do_ld_mmio_beN, do_st_mmio_leN, io_prepare, bb_guard_mmio. rewrite Nat2Z.id.
  fold (region_offset full addr) in *. split.
  - destruct (load_total _ _ _ Hm) as [x Hl]. exists x. split; [done|]. run_m. rewrite Hio, Hmr, Hguard. by eapply ld_pieces_ok.
  - destruct (st_pieces_ok mr bytes Hdev n full v addr n (region_offset full addr) s) as (w' & Es & Er); try done.
    exists w'. split; [done|]. run_m. rewrite Hio, Hmr, Hguard. exact Er.
Qed.

(** ** A device that is an array of bytes *)

Definition piece_bytes (mop : Z) : nat := Z.to_nat (2 ^ Z.land mop 3).

#[export] Instance array_world : World mem := {|
  cpu_check_watchpoint := fun w _ _ _ _ => Some w;
  dirty_code := fun _ _ => false;
  tb_invalidate := fun w _ _ => Some w;
  set_dirty_range := fun w _ _ => w;
  page_is_clean := fun _ _ => false;
  can_do_io := fun _ => true;
  iotlb_to_section := fun _ _ _ => 0;
  memory_region_name := fun _ _ => Some "hpet"%string;
  dispatch_read := fun w _ off mop _ =>
    match load (piece_bytes mop) w off with Some x => (w, bswap_bytes (2 ^ Z.land mop 3) x, MEMTX_OK) | None => (w, 0, 1) end;
  dispatch_write := fun w _ off v mop _ => match store (piece_bytes mop) w off v with Some w => (w, MEMTX_OK) | None => (w, 1) end;
  io_failed := fun w _ _ _ _ => Some w
|}.

Lemma array_device mr : byte_device mr (fun w : mem => w).
Proof.
  assert (Hop : forall p x, 0 <= p <= 3 -> x = MO_BE \/ x = MO_LE -> Z.land (Z.lor p x) 3 = p).
  { intros p x Hp [-> | ->]; assert (p = 0 \/ p = 1 \/ p = 2 \/ p = 3) as [-> | [-> | [-> | ->]]] by lia; done. }
  split.
  - intros w off p at_ x Hp _ Hl. simpl. unfold piece_bytes. rewrite Hop by auto. by rewrite Hl.
  - intros w off v p at_ m' Hp _ Hs. simpl. unfold piece_bytes. rewrite Hop by auto. rewrite Hs. by exists m'.
Qed.

Module ArrayDemo.
Definition full : CPUTLBEntryFull :=
  {| xlat_section := 0x2000; phys_addr := 0; attrs := {| byte_swap := false; other_attrs := 0 |}; prot := 7; lg_page_size := 12;
     slow_flags := {| sf_read := 0; sf_write := 0; sf_code := 0 |} |}.
Definition registers : mem := list_to_map ((fun q => (q, q mod 256)) <$> seqZ 0x7000 16).
Definition machine : st mem := {| s_cpu := zero_cpu None; s_ram := ∅; s_world := registers; s_force_slow := 0 |}.
End ArrayDemo.

(** Seven bytes at an odd address: pieces of one, two and four bytes. *)
Lemma byte_device_example :
  (exists x, load 7 ArrayDemo.registers 0x7001 = Some x
     /\ do_ld_mmio_beN 1 ArrayDemo.full 0xab 0x5001 (Z.of_nat 7) ArrayDemo.machine = Return (be_value 0xab 7 x) ArrayDemo.machine)
  /\ (exists w', store 7 ArrayDemo.registers 0x7001 0x11223344556677 = Some w'
     /\ do_st_mmio_leN 1 ArrayDemo.full 0x11223344556677 0x5001 (Z.of_nat 7) ArrayDemo.machine
        = Return (Z.shiftr 0x11223344556677 (8 * Z.of_nat 7)) (set_world w' ArrayDemo.machine)).
Proof.
  apply (byte_device_exact 1 0 (fun w : mem => w) ArrayDemo.full 0xab 0x11223344556677 0x5001 7 ArrayDemo.machine).
  - apply array_device.
  - done.
  - done.
  - by right.
  - lia.
  - by vm_compute.
  - by vm_compute.
  - apply bytes_wf.
  - intros i Hi. change (region_offset ArrayDemo.full 0x5001) with 0x7001. cbn [s_world ArrayDemo.machine]. unfold ArrayDemo.registers. rewrite bytes_lookup by lia. by eexists.
  - by vm_compute.
  - by vm_compute.
Defined.

(** ** Devices that log their accesses *)

Definition region_name (mr : Z) : option string := if mr =? 1 then Some "hpet"%string else if mr =? 2 then Some "ide0"%string else None.

#[export] Instance log_world : World (list Z) := {|
  cpu_check_watchpoint := fun w _ _ _ _ => Some w;
  dirty_code := fun _ _ => false;
  tb_invalidate := fun w _ _ => Some w;
  set_dirty_range := fun w _ _ => w;
  page_is_clean := fun _ _ => false;
  can_do_io := fun _ => true;
  iotlb_to_section := fun _ xlat _ => Z.land xlat 0xfff;
  memory_region_name := fun _ mr => region_name mr;
  dispatch_read := fun w mr _ _ _ => (w ++ [mr], 0, MEMTX_OK);
  dispatch_write := fun w mr _ _ _ _ => (w ++ [mr], MEMTX_OK);
  io_failed := fun w _ _ _ _ => Some w
|}.

Module LogDemo.
Definition quiet (log : list Z) : Prop := Forall (fun mr => bb_mr_may_yield (region_name mr) = false) log.
(** Two device pages: an HPET, and behind it an IDE controller. *)
Definition io_back (section : Z) : backing :=
  {| sec_size := TARGET_PAGE_SIZE; sec_xlat := 0; sec_prot := 7; is_ram := false; is_romd := false; ram_ptr := 0; ram_addr := 0;
     sec_readonly := false; is_clean := false; section_iotlb := section; wp_flags := 0 |}.
Definition io_walk (c : cpu) (addr size : Z) (ty : MMUAccessType) (m : nat) (probe : bool) : option (list op * bool) :=
  let f := LookupDemo.ram_fill addr 0 12 in
  Some ([OpFill m {| f_addr := addr; f_full := f_full f; f_back := io_back (if addr <? 0x6000 then 1 else 2) |}], true).
Definition machine : st (list Z) := {| s_cpu := LookupWitness.st0; s_ram := ∅; s_world := []; s_force_slow := 0 |}.
(** Four bytes, of mode 0. *)
Definition oi : Z := 0x20.
Definition log {A} (o : out (list Z) A) : option (bool * Z * list Z) :=
  match o with Return _ s => Some (true, s_force_slow s, s_world s) | Leave Restart s => Some (false, s_force_slow s, s_world s) | _ => None end.
(** The access again, in the instrumented interpreter. *)
Definition again {A} (o : out (list Z) A) : st (list Z) := match o with Leave _ s => s | _ => machine end.
End LogDemo.

Lemma quiet_log : only_yielding_change (W := list Z) LogDemo.quiet.
Proof.
  split.
  - by intros w a n at_ fl w' [= <-].
  - by intros w a n w' [= <-].
  - done.
  - intros w mr off mop at_ w' v r [= <- <- <-] Hy Hq. split; [|done]. apply Forall_app. split; [done | by apply Forall_singleton].
  - intros w mr off v mop at_ w' r [= <- <-] Hy Hq. split; [|done]. apply Forall_app. split; [done | by apply Forall_singleton].
  - by intros w full a n r w' [= <-].
Qed.

Lemma fast_access_never_yields_witness :
  spares LogDemo.quiet (do_ldN_mmu LogDemo.io_walk true false 1 2 0x5ffe LogDemo.oi MMU_DATA_LOAD)
  /\ spares LogDemo.quiet (do_stN_mmu LogDemo.io_walk true false 1 2 0x5ffe 0x11223344 LogDemo.oi).
Proof.
  apply (fast_access_never_yields LogDemo.io_walk true false 1 LogDemo.quiet quiet_log).
  discriminate.
Defined.

(** ** An access over two device pages *)

Section TwoDevices.
Context {W : Type} `{!World W} (walk : walk_t) (al8 serial : bool).
Implicit Type s : st W.

(** Page [p] of an access is a device: region [mr] of section [full], [n] bytes. *)
Record device_page (m : nat) (p : MMULookupPageData) (full : CPUTLBEntryFull) (mr : Z) (n : nat) s : Prop := {
  dp_mmio : test (l_flags p) TLB_MMIO = true;
  dp_full : deref m (l_full p) s = Return full s;
  dp_size : l_size p = Z.of_nat n;
  dp_section : forall w : W, iotlb_to_section w (xlat_section full) (attrs full) = mr;
  dp_io : forall w : W, can_do_io w = true;
  dp_len : (1 <= n <= 8)%nat;
  dp_xlat : is_u 64 (xlat_section full);
  dp_end : region_offset full (l_addr p) + Z.of_nat n <= 2 ^ 64
}.

(** The entry depends only on the tables. *)
Lemma device_page_cpu m p full mr n s s' : s_cpu s' = s_cpu s -> device_page m p full mr n s -> device_page m p full mr n s'.
Proof.
  intros Hc [H1 H2 H3 H4 H5 H6 H7 H8]. split; try done. unfold deref in *. revert H2. run_m. rewrite Hc.
  destruct (modes _ !! m) as [t|]; [|done]. destruct (fulltlb t !! _); [|done]. by intros [= <-].
Qed.

(** The part of a load in a page whose device may be run. *)
Lemma page_read fast_depth m p full mr n mop ret s w v : device_page m p full mr n s ->
  fast_depth = 0 \/ may_yield (s_world s) mr = false ->
  read_pieces full mr (access_pieces full (l_addr p) n) (s_world s) ret = Some (w, v) ->
  do_ld_beN al8 fast_depth m p ret mop s = Return v (set_world w s).
Proof.
  intros [H1 H2 H3 H4 H5 H6 H7 H8] Hg Hr. unfold do_ld_beN. rewrite H1. unfold mbind, M_bind. rewrite H2, H3.
  pose proof (device_ld fast_depth full mr ret (l_addr p) n s (conj (H4 _) (conj (H5 _) (conj Hg (conj H6 (conj H7 H8)))))) as Hd.
  by rewrite Hr in Hd.
Qed.

(** The part in a page whose device the guard turns away. *)
Lemma page_refused fast_depth m p full mr n mop ret s : device_page m p full mr n s -> fast_depth <> 0 -> may_yield (s_world s) mr = true ->
  do_ld_beN al8 fast_depth m p ret mop s = Leave Restart (set_force_slow 1 s).
Proof.
  intros [H1 H2 H3 H4 H5 _ _ _] Hf Hy. unfold may_yield in Hy. unfold do_ld_beN. rewrite H1. unfold mbind, M_bind. rewrite H2.
  unfold do_ld_mmio_beN, io_prepare, bb_guard_mmio. run_m. rewrite H5, H4, (proj2 (Z.eqb_neq _ _) Hf), Hy. done.
Qed.

(** What the second page's load starts from. *)
Definition joined (k : nat) (v : Z) : Z := if (k =? 2)%nat then u32 v else v.

(** The guard is per page, not per access.  A four- or eight-byte load over two device
    pages, from the fast interpreter, where the first device does not yield and the
    second may: the first device is read, then the guard of the second restarts the
    instruction; and the retry, in the instrumented interpreter, with the two pages as
    they were, reads the first device again before the second.  The reads of the
    first device happen twice for one guest load. *)
Theorem restart_repeats_first_page k addr oi ty s l s1 s2 full0 full1 mr0 mr1 n0 n1 w0 v0 w1 v1 w2 v2 :
  k = 2%nat \/ k = 3%nat -> mmu_lookup walk addr oi ty s = Return (l, true) s1 ->
  device_page (l_mmu_idx l) (page0 l) full0 mr0 n0 s1 -> device_page (l_mmu_idx l) (page1 l) full1 mr1 n1 s1 ->
  may_yield (s_world s1) mr0 = false -> may_yield w0 mr1 = true ->
  let pieces0 := access_pieces full0 (l_addr (page0 l)) n0 in
  let pieces1 := access_pieces full1 (l_addr (page1 l)) n1 in
  read_pieces full0 mr0 pieces0 (s_world s1) 0 = Some (w0, v0) ->
  let restarted := set_force_slow 1 (set_world w0 s1) in
  mmu_lookup walk addr oi ty restarted = Return (l, true) s2 -> s_cpu s2 = s_cpu s1 -> s_world s2 = w0 ->
  read_pieces full0 mr0 pieces0 w0 0 = Some (w1, v1) ->
  read_pieces full1 mr1 pieces1 w1 (joined k v1) = Some (w2, v2) ->
  do_ldN_mmu walk al8 serial 1 k addr oi ty s = Leave Restart restarted /\
  exists v, do_ldN_mmu walk al8 serial 0 k addr oi ty restarted = Return v (set_world w2 s2).
Proof.
  intros Hk Hl D0 D1 Hy0 Hy1 pieces0 pieces1 R0 restarted Hl2 Hc2 Hw2 R1 R2.
  pose proof (device_page_cpu _ _ _ _ _ s1 s2 Hc2 D0) as D0'. pose proof (device_page_cpu _ _ _ _ _ s1 (set_world w0 s1) eq_refl D1) as D1w.
  pose proof (device_page_cpu _ _ _ _ _ s1 (set_world w1 s2) Hc2 D1) as D1w'.
  rewrite <- Hw2 in R1. rewrite !do_ldN_steps.
  destruct Hk as [-> | ->]; cbn [joined Nat.eqb] in R2; unfold mbind, M_bind; rewrite Hl, Hl2; cbn [negb orb Nat.eqb ld_parts_N]; unfold mbind, M_bind.
  all: rewrite (page_read 1 _ _ full0 mr0 n0 _ 0 s1 w0 v0 D0 (or_intror Hy0) R0), (page_read 0 _ _ full0 mr0 n0 _ 0 s2 w1 v1 D0' (or_introl eq_refl) R1).
  all: rewrite (page_refused 1 _ _ full1 mr1 n1 _ _ (set_world w0 s1) D1w) by done.
  all: rewrite (page_read 0 _ _ full1 mr1 n1 _ _ (set_world w1 s2) w2 v2 D1w' (or_introl eq_refl) R2).
  all: split; [done | by eexists].
Qed.
End TwoDevices.

(** Seven bytes at an odd address: pieces of one, two and four bytes. *)
Lemma device_access_exact_witness :
  access_pieces ArrayDemo.full 0x5001 7 =
    [{| p_addr := 0x5001; p_off := 0x7001; p_mop := 0 |}; {| p_addr := 0x5002; p_off := 0x7002; p_mop := 1 |};
     {| p_addr := 0x5004; p_off := 0x7004; p_mop := 2 |}] /\
  tiles 0x5001 0x7001 7 (access_pieces ArrayDemo.full 0x5001 7) /\
  exists w, write_pieces ArrayDemo.full 0 (access_pieces ArrayDemo.full 0x5001 7) ArrayDemo.registers 0x11223344556677 = Some (w, 0) /\
    do_st_mmio_leN 1 ArrayDemo.full 0x11223344556677 0x5001 7 ArrayDemo.machine = Return 0 (set_world w ArrayDemo.machine).
Proof.
  destruct (device_access_exact 1 ArrayDemo.full 0 0 0x11223344556677 0x5001 7 ArrayDemo.machine) as (Ht & _ & Hs).
  - split_and!; try done; try lia. by right.
  - by vm_compute.
  - split; [vm_compute; reflexivity |]. split; [exact Ht |]. revert Hs. cbn [s_world ArrayDemo.machine].
    assert (Hw : exists w, write_pieces ArrayDemo.full 0 (access_pieces ArrayDemo.full 0x5001 7) ArrayDemo.registers 0x11223344556677 = Some (w, 0)).
    { eexists. vm_compute. reflexivity. }
    destruct Hw as [w Hw]. rewrite Hw. intros Hs. exists w. split; [reflexivity | exact Hs].
Defined.

(** The two pages found, and the state then. *)
Definition looked (s : st (list Z)) : MMULookupLocals * st (list Z) :=
  match mmu_lookup LogDemo.io_walk 0x5ffe LogDemo.oi MMU_DATA_LOAD s with
  | Return (l, _) s1 => (l, s1)
  | _ => ({| page0 := no_page 0; page1 := no_page 0; l_memop := 0; l_mmu_idx := 0 |}, s)
  end.

Definition page_full (m : nat) (p : MMULookupPageData) (s : st (list Z)) : CPUTLBEntryFull :=
  match deref m (l_full p) s with Return full _ => full | _ => ArrayDemo.full end.

(** Four bytes over an HPET page and an IDE page: the HPET is read, then again, then the IDE controller. *)
Lemma restart_repeats_first_page_witness :
  let s1 := snd (looked LogDemo.machine) in
  let restarted := set_force_slow 1 (set_world [1] s1) in
  do_ldN_mmu LogDemo.io_walk true false 1 2 0x5ffe LogDemo.oi MMU_DATA_LOAD LogDemo.machine = Leave Restart restarted /\
  exists v s3, do_ldN_mmu LogDemo.io_walk true false 0 2 0x5ffe LogDemo.oi MMU_DATA_LOAD restarted = Return v s3 /\ s_world s3 = [1; 1; 2].
Proof.
  intros s1 restarted. set (l := fst (looked LogDemo.machine)). set (s2 := snd (looked restarted)).
  set (full0 := page_full (l_mmu_idx l) (page0 l) s1). set (full1 := page_full (l_mmu_idx l) (page1 l) s1).
  destruct (restart_repeats_first_page LogDemo.io_walk true false 2 0x5ffe LogDemo.oi MMU_DATA_LOAD LogDemo.machine l s1 s2 full0 full1 1 2 2 2
              [1] 0 [1; 1] 0 [1; 1; 2] 0) as (H1 & v & H2).
  - by left.
  - vm_compute. reflexivity.
  - split; [vm_compute; reflexivity | vm_compute; reflexivity | vm_compute; reflexivity | intros; vm_compute; reflexivity | reflexivity | lia | vm_compute; split; [discriminate | reflexivity] | vm_compute; discriminate].
  - split; [vm_compute; reflexivity | vm_compute; reflexivity | vm_compute; reflexivity | intros; vm_compute; reflexivity | reflexivity | lia | vm_compute; split; [discriminate | reflexivity] | vm_compute; discriminate].
  - vm_compute. reflexivity.
  - vm_compute. reflexivity.
  - vm_compute. reflexivity.
  - vm_compute. reflexivity.
  - vm_compute. reflexivity.
  - vm_compute. reflexivity.
  - vm_compute. reflexivity.
  - vm_compute. reflexivity.
  - split; [exact H1 |]. exists v, (set_world [1; 1; 2] s2). split; [exact H2 | reflexivity].
Defined.
