(* ===== verification/InlineTlb.v ===== *)
(** * The inline TLB lookup

    [tlb_load] of tcg/wasm32.c: the interpreter's guest loads and stores look the page up
    in the TLB's own memory before they call the slow path.  The lookup is composed with
    the TLB of accel/tcg/cputlb.c: where it hits, the access is the one the current
    translation of its page gives. *)
From S2P Require Import Prelude BitOps HostUtils Bitmap Memory Tci Tlb TlbCoherence TlbOps TlbLookup TlbSafety HostAtomic HostAtomicExact Softmmu SoftmmuLookup SoftmmuParts.

(** ** The comparison *)

(** The flags of a comparator are in bits 7 to 11. *)
Lemma set_compare_low p fl j : 0 <= j < 7 -> Z.testbit p j = false -> Z.testbit (fst (tlb_set_compare p fl true)) j = false.
Proof.
  intros Hj Hp. assert (Hm : Z.testbit TLB_FLAGS_MASK j = false /\ Z.testbit TLB_FORCE_SLOW j = false).
  { assert (j = 0 \/ j = 1 \/ j = 2 \/ j = 3 \/ j = 4 \/ j = 5 \/ j = 6) as H by lia. by destruct_or! H; subst. }
  destruct Hm as [Hm Hs]. cbn [tlb_set_compare fst]. destruct (_ =? 0); rewrite ?Z.lor_spec, Z.land_spec, Hp, Hm, ?Hs; by rewrite andb_false_r.
Qed.

Lemma comparator_low f ty j : 0 <= j < 7 -> tlb_read_idx (f_entry f) ty <> u64 (-1) -> Z.testbit (tlb_read_idx (f_entry f) ty) j = false.
Proof.
  intros Hj Hen. assert (Hp : Z.testbit (f_page f) j = false) by (apply page_low_bits; lia).
  assert (Hc : forall fl en, fst (tlb_set_compare (f_page f) fl en) <> u64 (-1) -> Z.testbit (fst (tlb_set_compare (f_page f) fl en)) j = false).
  { intros fl [|] H; [by apply set_compare_low | done]. }
  unfold f_entry, new_entry in *. destruct (page_flags _ _) as [r w].
  pose proof (Hc r (negb (Z.land (sec_prot (f_back f)) PAGE_EXEC =? 0))) as H1.
  pose proof (Hc (or_if (negb (Z.land (wp_flags (f_back f)) BP_MEM_READ =? 0)) TLB_WATCHPOINT r) (negb (Z.land (sec_prot (f_back f)) PAGE_READ =? 0))) as H2.
  pose proof (Hc (or_if (negb (Z.land (wp_flags (f_back f)) BP_MEM_WRITE =? 0)) TLB_WATCHPOINT
    (or_if (negb (Z.land (sec_prot (f_back f)) PAGE_WRITE_INV =? 0)) TLB_INVALID_MASK w)) (negb (Z.land (sec_prot (f_back f)) PAGE_WRITE =? 0))) as H3.
  repeat (destruct (tlb_set_compare _ _ _)). cbn [fst snd] in *. destruct ty; simpl in *; auto.
Qed.

(** The entry a hit finds has no flag in its low bits. *)
Lemma hit_low A t i e q ty j : coherent A t -> table t !! i = Some e -> page q -> tlb_hit_page (tlb_read_idx e ty) q = true -> 0 <= j < 7 ->
  Z.testbit (tlb_read_idx e ty) j = false /\ Z.to_nat (tlb_index t q) = i.
Proof.
  intros Hc He Hq Hhit Hj. assert (Hh : hits e q) by (by exists ty).
  destruct (co_shape _ _ Hc) as (k & _ & _ & L1 & L2 & _). pose proof (lookup_lt_Some _ _ _ He) as Hi.
  destruct (lookup_lt_is_Some_2 (fulltlb t) i) as [fe Hfe]; [lia|].
  destruct (co_main _ _ Hc i e fe q He Hfe Hq Hh) as [Hold Hidx]. split; [|done].
  destruct (holds_page _ _ _ _ _ _ Hq Hh Hold) as (f & _ & Hpf & Hu & Hr & _).
  assert (Hen : tlb_read_idx (f_entry f) ty <> u64 (-1)).
  { intros E. rewrite (represents_hit f e fe) in Hhit by done. rewrite E, hit_m1 in Hhit; done. }
  pose proof (comparator_low f ty j Hj Hen) as Hl. destruct Hr. destruct ty; simpl in *; [congruence | | congruence].
  apply (f_equal (fun z => Z.testbit z j)) in rep_write. rewrite !Z.lor_spec, Hl in rep_write. change TLB_NOTDIRTY with (2 ^ 10) in rep_write.
  rewrite Z.pow2_bits_eqb in rep_write by lia. rewrite (proj2 (Z.eqb_neq 10 j)), orb_false_r in rep_write by lia. done.
Qed.

(** The masked address: a page and the low bits the alignment asks about. *)
Lemma masked_address c a : is_u 64 c -> 0 <= a <= 6 -> Z.land c (Z.lor TARGET_PAGE_MASK (2 ^ a - 1)) = page_at c + c mod 2 ^ a.
Proof.
  intros Hc Ha. rewrite Z.land_lor_distr_r. replace (2 ^ a - 1) with (Z.ones a) by (rewrite Z.ones_equiv; lia). rewrite (Z.land_ones c a) by lia.
  rewrite (page_at_div c) by done. rewrite <- (Z.shiftl_mul_pow2 _ 12) by lia. rewrite or_concat; [|unfold is_u | lia].
  - rewrite Z.shiftl_mul_pow2 by lia. lia.
  - pose proof (Z.mod_pos_bound c (2 ^ a) ltac:(apply Z.pow_pos_nonneg; lia)). split; [lia|]. eapply Z.lt_le_trans; [apply H | apply Z.pow_le_mono_r; lia].
Qed.

Lemma masked_hits q l : page q -> 0 <= l < 64 -> tlb_hit_page (q + l) q = true.
Proof.
  intros [Hq Hm] Hl. unfold tlb_hit_page. apply Z.eqb_eq. unfold is_u in *. change (2 ^ 64) with (4503599627370496 * 4096) in Hq. change (2 ^ 12) with 4096 in Hm.
  rewrite compare_mask, hm_land; [|unfold is_u; change (2 ^ 64) with (4503599627370496 * 4096); Z.to_euclidean_division_equations; lia | lia].
  change (2 ^ 11) with 2048. Z.to_euclidean_division_equations; lia.
Qed.

Lemma low_zero x l q : page q -> x = q + l -> 0 <= l < 64 -> (forall j, 0 <= j < 7 -> Z.testbit x j = false) -> l = 0.
Proof.
  intros [_ Hq] -> Hl Hb. assert (Hm : (q + l) mod 2 ^ 7 = 0).
  { apply Z.bits_inj'; intros j Hj. rewrite Z.testbit_mod_pow2, Z.bits_0 by lia. destruct (Z.ltb_spec j 7); [by rewrite Hb by lia | done]. }
  change (2 ^ 12) with 4096 in Hq. change (2 ^ 7) with 128 in Hm. Z.to_euclidean_division_equations; lia.
Qed.

(** The address the inline lookup compares. *)
Definition compared (taddr a s : Z) : Z := if 2 ^ a - 1 <? 2 ^ s - 1 then u64 (taddr + (2 ^ s - 1 - (2 ^ a - 1))) else taddr.

Lemma next_index t x y : shape t -> x / 4096 = y / 4096 \/ y / 4096 = (x / 4096 + 1) mod 2 ^ 52 -> tlb_index t x = tlb_index t y -> x / 4096 = y / 4096.
Proof.
  intros (k & Hk & Hm & _) H E. destruct (mask_geometry t k Hk Hm) as (_ & _ & Hidx). rewrite !Hidx in E. change (2 ^ 12) with 4096 in E.
  destruct H as [H|H]; [done|]. exfalso. rewrite H in E.
  assert (Hp : 2 ^ 52 = 2 ^ k * 2 ^ (52 - k)) by (rewrite <- Z.pow_add_r by lia; f_equal; lia).
  assert (H2 : 2 <= 2 ^ k) by (apply (Z.pow_le_mono_r 2 1); lia). set (z := x / 4096) in *. clearbody z. set (n := 2 ^ k) in *. clearbody n.
  assert (Hmm : ((z + 1) mod 2 ^ 52) mod n = (z + 1) mod n).
  { pose proof (Z.div_mod (z + 1) (2 ^ 52) ltac:(done)) as Hd. rewrite Hp in Hd at 1. set (w := (z + 1) mod 2 ^ 52) in *. clearbody w.
    replace (z + 1) with (w + (2 ^ (52 - k) * ((z + 1) / 2 ^ 52)) * n) by lia. by rewrite Z.mod_add by lia. }
  rewrite Hmm in E. assert (H1 : 1 mod n = 0).
  { replace 1 with (z + 1 - z) by lia. rewrite Zminus_mod, <- E, Z.sub_diag. by apply Z.mod_0_l; lia. }
  rewrite Z.mod_small in H1 by lia. lia.
Qed.

Lemma aligned_room n x b : 0 < n -> (n | 4096) -> x mod n = 0 -> x mod 4096 + b * n < 4096 -> x mod 4096 + (b + 1) * n <= 4096.
Proof.
  intros Hn Hz Hal Hlt. apply Z.mod_divide in Hal; [|lia]. assert (Hr : (n | x mod 4096)).
  { replace (x mod 4096) with (x - 4096 * (x / 4096)) by (pose proof (Z.div_mod x 4096 ltac:(lia)); lia).
    apply Z.divide_sub_r; [done | by apply Z.divide_mul_l]. }
  destruct Hr as [u Hu], Hz as [z Hz]. rewrite Hu in *. rewrite Hz in *. rewrite <- Z.mul_add_distr_r in *.
  apply Z.mul_lt_mono_pos_r in Hlt; [|done]. apply Z.mul_le_mono_nonneg_r; lia.
Qed.

(** The page of an address a few bytes further. *)
Lemma page_step x d : is_u 64 x -> 0 < d < 4096 ->
  u64 (x + d) / 4096 = if x mod 4096 + d <? 4096 then x / 4096 else (x / 4096 + 1) mod 2 ^ 52.
Proof.
  intros Hx Hd. pose proof (Z.div_mod x 4096 ltac:(lia)) as Hq. pose proof (Z.mod_pos_bound x 4096 ltac:(lia)) as Hr.
  unfold uw, is_u in *. change (2 ^ 64) with (2 ^ 52 * 4096) in *. destruct (Z.ltb_spec (x mod 4096 + d) 4096) as [Hin|Hout].
  - rewrite Z.mod_small by lia. symmetry. apply (Z.div_unique _ _ _ (x mod 4096 + d)); lia.
  - destruct (Z.eq_dec (x / 4096) (2 ^ 52 - 1)) as [El|En].
    + rewrite El. rewrite <- (Z.mod_unique (x + d) _ 1 (x mod 4096 + d - 4096)) by lia. by rewrite Z.div_small by lia.
    + rewrite (Z.mod_small (x + d)), (Z.mod_small (x / 4096 + 1)) by lia. symmetry. apply (Z.div_unique _ _ _ (x mod 4096 + d - 4096)); lia.
Qed.

Lemma pow_divides a b : 0 <= a <= b -> (2 ^ a | 2 ^ b).
Proof. intros H. exists (2 ^ (b - a)). rewrite <- Z.pow_add_r by lia. f_equal. lia. Qed.

Lemma compared_page taddr a s : is_u 64 taddr -> 0 <= a <= 6 -> 0 <= s <= 3 ->
  is_u 64 (compared taddr a s) /\ compared taddr a s mod 2 ^ a = taddr mod 2 ^ a
  /\ (taddr / 4096 = compared taddr a s / 4096 \/ compared taddr a s / 4096 = (taddr / 4096 + 1) mod 2 ^ 52)
  /\ (taddr / 4096 = compared taddr a s / 4096 -> taddr mod 2 ^ a = 0 -> taddr mod 4096 + 2 ^ s <= 4096).
Proof.
  intros Ht Ha Hs. assert (Hpa : 0 < 2 ^ a) by (apply Z.pow_pos_nonneg; lia). pose proof (Z.mod_pos_bound taddr 4096 ltac:(lia)) as Hr.
  pose proof (pow_divides a 12 ltac:(lia)) as H4096. change (2 ^ 12) with 4096 in H4096.
  unfold compared. destruct (Z.ltb_spec (2 ^ a - 1) (2 ^ s - 1)) as [Hlt|Hge].
  - replace (2 ^ s - 1 - (2 ^ a - 1)) with (2 ^ s - 2 ^ a) by lia. assert (Has : a < s) by (apply (Z.pow_lt_mono_r_iff 2); lia).
    assert (Hd : 0 < 2 ^ s - 2 ^ a < 4096) by (assert (2 ^ s <= 2 ^ 3) by (apply Z.pow_le_mono_r; lia); change (2 ^ 3) with 8 in *; lia).
    assert (Hb : 2 ^ s - 2 ^ a = (2 ^ (s - a) - 1) * 2 ^ a).
    { replace (2 ^ s) with (2 ^ (s - a) * 2 ^ a) by (rewrite <- Z.pow_add_r by lia; f_equal; lia). lia. }
    rewrite page_step by done. split_and!; [apply uw_range; lia | | destruct (_ <? _); auto |].
    + unfold uw. rewrite Z.mod_mod_divide by (apply pow_divides; lia). rewrite Hb, Z.mod_add by lia. done.
    + intros Hpg Hal. destruct (Z.ltb_spec (taddr mod 4096 + (2 ^ s - 2 ^ a)) 4096) as [Hin|Hout].
      * rewrite Hb in Hin. pose proof (aligned_room _ _ _ Hpa H4096 Hal Hin). lia.
      * exfalso. unfold is_u in Ht. change (2 ^ 64) with (2 ^ 52 * 4096) in Ht.
        destruct (Z.eq_dec (taddr / 4096) (2 ^ 52 - 1)) as [El|En]; [by rewrite El in Hpg|].
        rewrite Z.mod_small in Hpg by (Z.to_euclidean_division_equations; lia). lia.
  - split_and!; [done | done | by left |]. intros _ Hal. pose proof (aligned_room _ taddr 0 Hpa H4096 Hal ltac:(lia)). lia.
Qed.

(** Where the comparison succeeds, the entry is the page's, without flags, and the access
    is aligned and inside the page. *)
Lemma inline_hit A t taddr e ty a s : coherent A t -> is_u 64 taddr -> tlb_entry t taddr = Some e -> 0 <= a <= 6 -> 0 <= s <= 3 ->
  Z.land (compared taddr a s) (Z.lor TARGET_PAGE_MASK (2 ^ a - 1)) = tlb_read_idx e ty ->
  tlb_read_idx e ty = page_at taddr /\ taddr mod 2 ^ a = 0 /\ taddr mod 4096 + 2 ^ s <= 4096.
Proof.
  intros Hc Ht He Ha Hs Hcmp. destruct (compared_page taddr a s Ht Ha Hs) as (Hu & Hmod & Hpage & Hroom). set (c := compared taddr a s) in *. clearbody c.
  rewrite masked_address, Hmod in Hcmp by done. pose proof (page_of c Hu) as Hq.
  assert (Hl : 0 <= taddr mod 2 ^ a < 64).
  { pose proof (Z.mod_pos_bound taddr (2 ^ a) ltac:(apply Z.pow_pos_nonneg; lia)). assert (2 ^ a <= 2 ^ 6) by (apply Z.pow_le_mono_r; lia). change (2 ^ 6) with 64 in *. lia. }
  assert (Hhit : tlb_hit_page (tlb_read_idx e ty) (page_at c) = true) by (rewrite <- Hcmp; by apply masked_hits).
  assert (Hz : taddr mod 2 ^ a = 0).
  { eapply (low_zero (tlb_read_idx e ty)); [exact Hq | by symmetry | done |]. intros j Hj. by eapply hit_low. }
  destruct (hit_low A t _ e _ ty 0 Hc He Hq Hhit ltac:(lia)) as [_ Hidx]. rewrite index_page in Hidx by done.
  assert (Hin : tlb_index t taddr = tlb_index t c).
  { pose proof (uw_range 32 (Z.land (Z.shiftr taddr TARGET_PAGE_BITS) (Z.shiftr (fmask t) CPU_TLB_ENTRY_BITS)) ltac:(lia)) as H1.
    pose proof (uw_range 32 (Z.land (Z.shiftr c TARGET_PAGE_BITS) (Z.shiftr (fmask t) CPU_TLB_ENTRY_BITS)) ltac:(lia)) as H2.
    unfold is_u, tlb_index in *. lia. }
  pose proof (next_index t taddr c (co_shape _ _ Hc) Hpage Hin) as Hpg.
  split_and!; [|done | by apply Hroom]. rewrite <- Hcmp, Hz, !page_at_div by done. rewrite Hpg. lia.
Qed.

(** ** The TLB in memory *)

(** One mode's [CPUTLBDescFast] and its table, at the offsets the instruction names. *)
Record tlb_image (m : mem) (env mask_ofs table_ofs tbl : Z) (t : tlbm) : Prop := {
  ti_mask : load32 m (u32 (env + mask_ofs)) = Some (fmask t) /\ mapped m (u32 (env + mask_ofs)) 8;
  ti_table : load32 m (u32 (env + table_ofs)) = Some tbl /\ mapped m (u32 (env + table_ofs)) 8;
  ti_range : 0 <= tbl /\ tbl + 32 * Z.of_nat (length (table t)) <= 2 ^ 32;
  ti_entries : forall i e, table t !! i = Some e -> let p := tbl + 32 * Z.of_nat i in
    load64 m (p + TLB_ADDR_READ) = Some (addr_read e) /\ load64 m (p + TLB_ADDR_WRITE) = Some (addr_write e)
    /\ load32 m (p + TLB_ADDEND) = Some (addend e)
}.

(** The constants of a guest access, as the emitter pooled them. *)
Record pool_image (m : mem) (ptr a mask_ofs table_ofs : Z) : Prop := {
  pi_align : 0 <= a <= 6 /\ load64 m (u32 (ptr + 8 * 3)) = Some (2 ^ a - 1);
  pi_mask_ofs : is_s 32 mask_ofs /\ load64 m (u32 (ptr + 8 * 4)) = Some (u64 mask_ofs);
  pi_page_bits : load64 m (u32 (ptr + 8 * 5)) = Some TARGET_PAGE_BITS;
  pi_page_mask : load64 m (u32 (ptr + 8 * 6)) = Some TARGET_PAGE_MASK;
  pi_table_ofs : is_s 32 table_ofs /\ load64 m (u32 (ptr + 8 * 7)) = Some (u64 table_ofs)
}.

(** A 32-bit word read with a 64-bit load has the next word above it. *)
Lemma load_wide m p v : mem_wf m -> load32 m p = Some v -> mapped m p 8 -> exists hi, load64 m p = Some (v + 2 ^ 32 * hi).
Proof.
  intros Hwf Hv Hm. destruct (load_total 8 m p Hm) as [x Hx]. destruct (load_split 4 4 m p x Hx) as (x0 & x1 & E0 & _ & ->).
  exists x1. rewrite Hx. by assert (x0 = v) as -> by congruence.
Qed.

Lemma land_low32 x y z : 0 <= z < 2 ^ 32 -> Z.land x (z + 2 ^ 32 * y) mod 2 ^ 32 = Z.land x z.
Proof.
  intros Hz. rewrite <- !Z.land_ones by lia. rewrite <- Z.land_assoc. f_equal. rewrite Z.land_ones by lia.
  rewrite Z.mul_comm, Z.mod_add, Z.mod_small by lia. done.
Qed.

Lemma index_offset t taddr : shape t -> Z.land (Z.shiftr taddr 7) (fmask t) = 32 * tlb_index t taddr /\ 0 <= tlb_index t taddr < Z.of_nat (length (table t)).
Proof.
  intros (k & Hk & Hm & Hl & _). destruct (mask_geometry t k Hk Hm) as (_ & _ & Hidx). rewrite Hidx, Hl.
  split; [|apply Z.mod_pos_bound, Z.pow_pos_nonneg; lia]. rewrite Hm.
  replace ((2 ^ k - 1) * 32) with (Z.shiftl (Z.ones k) 5) by (rewrite Z.shiftl_mul_pow2, Z.ones_equiv by lia; lia).
  replace (Z.land (Z.shiftr taddr 7) (Z.shiftl (Z.ones k) 5)) with (Z.shiftl (Z.land (Z.shiftr taddr 12) (Z.ones k)) 5).
  - rewrite Z.land_ones, Z.shiftl_mul_pow2, Z.shiftr_div_pow2 by lia. change (2 ^ 5) with 32. lia.
  - apply Z.bits_inj'; intros i Hi. rewrite testbit_shiftl, !Z.land_spec, testbit_shiftl by done. destruct (Z.leb_spec 5 i).
    + rewrite !testbit_shiftr by lia. by replace (i - 5 + 12) with (i + 7) by lia.
    + rewrite !(Z.testbit_neg_r _ (i - 5)) by lia. by rewrite !andb_false_r.
Qed.

Lemma u32_of_u64 y o : u32 (u64 y + o) = u32 (y + o).
Proof. unfold uw. rewrite Z.add_mod, Z.mod_mod_divide, <- Z.add_mod by (done || (exists (2 ^ 32); done)). done. Qed.

(** The address of the entry, although both words carry the next one in their upper half. *)
Lemma inline_entry m env mask_ofs table_ofs tbl t taddr : mem_wf m -> shape t -> is_u 64 taddr -> tlb_image m env mask_ofs table_ofs tbl t ->
  exists tmp3, Tci.tlb_entry m env taddr mask_ofs table_ofs TARGET_PAGE_BITS = Some tmp3
    /\ forall o, 0 <= o < 32 -> u32 (tmp3 + o) = tbl + 32 * tlb_index t taddr + o.
Proof.
  intros Hwf Hs Ht [[Hm1 Hm2] [Ht1 Ht2] Hr _]. destruct (load_wide _ _ _ Hwf Hm1 Hm2) as [h1 E1]. destruct (load_wide _ _ _ Hwf Ht1 Ht2) as [h2 E2].
  unfold Tci.tlb_entry. rewrite E1, E2. cbn [mbind option_bind]. eexists. split; [done|]. intros o Ho.
  destruct (index_offset t taddr Hs) as [Hx Hi]. change (TARGET_PAGE_BITS - Tci.CPU_TLB_ENTRY_BITS) with 7.
  assert (Hmask : 0 <= fmask t < 2 ^ 32) by apply (load_range 4 _ _ _ Hwf Hm1).
  pose proof (land_low32 (Z.shiftr taddr 7) h1 (fmask t) Hmask) as Hlow. rewrite Hx in Hlow. rewrite u32_of_u64. unfold uw.
  set (X := Z.land _ (_ + _)) in *. pose proof (Z.div_mod X (2 ^ 32) ltac:(done)) as Hd. rewrite Hlow in Hd.
  symmetry. apply (Z.mod_unique _ _ (X / 2 ^ 32 + h2)); lia.
Qed.

Lemma plain_backed f ty : plain f ty = true -> is_ram (f_back f) || is_romd (f_back f) = true.
Proof. unfold plain. destruct ty, (is_ram (f_back f)), (is_romd (f_back f)); simpl; try done; rewrite ?andb_false_r; done. Qed.

Lemma sext_host taddr x : is_u 32 x -> u32 (u64 (taddr + s32 x)) = u32 (u32 taddr + x).
Proof.
  intros Hx. pose proof (u32_of_u64 (taddr + s32 x) 0) as H. rewrite !Z.add_0_r in H. rewrite H, uw_add_idemp_l.
  rewrite <- (uw_add_idemp_r 32 taddr (s32 x)). rewrite uw_sw by lia. by rewrite uw_add_idemp_r.
Qed.

Definition access_of (is_ld : bool) : MMUAccessType := if is_ld then MMU_DATA_LOAD else MMU_DATA_STORE.

Section Inline.
Context (m : mem) (env ptr a mask_ofs table_ofs tbl : Z) (t : tlbm) (A : gmap Z fill).
Hypothesis Hwf : mem_wf m.
Hypothesis Hco : coherent A t.
Hypothesis Himg : tlb_image m env mask_ofs table_ofs tbl t.
Hypothesis Hpool : pool_image m ptr a mask_ofs table_ofs.

(** What the inline lookup computes: the entry of the page, compared. *)
Lemma tlb_load_spec taddr mop is_ld : is_u 64 taddr -> Z.land mop Tci.MO_SIZE <= 3 -> exists e, tlb_entry t taddr = Some e
  /\ tlb_load m env taddr mop ptr is_ld =
     Some (if Z.land (compared taddr a (Z.land mop Tci.MO_SIZE)) (Z.lor TARGET_PAGE_MASK (2 ^ a - 1)) =? tlb_read_idx e (access_of is_ld)
           then u64 (taddr + s32 (addend e)) else 0) /\ is_u 32 (addend e).
Proof.
  intros Ht Hs. set (s := Z.land mop Tci.MO_SIZE) in *. assert (Hs0 : 0 <= s) by (apply Z.land_nonneg; by right).
  destruct (index_in_table t taddr (co_shape _ _ Hco)) as (e & _ & He & _). exists e. split; [done|].
  destruct Hpool as [[Ha E3] [Hmo E4] E5 E6 [Hto E7]].
  destruct (inline_entry m env mask_ofs table_ofs tbl t taddr Hwf (co_shape _ _ Hco) Ht Himg) as (tmp3 & Etmp & Ho).
  destruct (ti_entries _ _ _ _ _ _ Himg _ _ He) as (Er & Ew & Ead). destruct (index_offset t taddr (co_shape _ _ Hco)) as [_ Hi].
  rewrite Z2Nat.id in Er, Ew, Ead by lia. split; [|by apply (load_range 4 _ _ _ Hwf Ead)].
  assert (Hsm : u32 (u32 (Z.shiftl 1 s) - 1) = 2 ^ s - 1).
  { rewrite Z.shiftl_1_l. assert (1 <= 2 ^ s <= 8) by (split; [apply (Z.pow_le_mono_r 2 0); lia | change 8 with (2 ^ 3); apply Z.pow_le_mono_r; lia]).
    rewrite !uw_small; unfold is_u; rewrite ?uw_small; unfold is_u; lia. }
  assert (Ham : u32 (2 ^ a - 1) = 2 ^ a - 1).
  { apply uw_small. unfold is_u. assert (1 <= 2 ^ a <= 2 ^ 6) by (split; [apply (Z.pow_le_mono_r 2 0); lia | apply Z.pow_le_mono_r; lia]). change (2 ^ 6) with 64 in *. lia. }
  assert (Hofs : forall o, is_s 32 o -> s32 (u64 o) = o).
  { intros o Hso. rewrite <- (sw_uw 32 (u64 o)) by lia. replace (uw 32 (u64 o)) with (uw 32 o); [rewrite sw_uw by lia; by apply sw_small|].
    pose proof (u32_of_u64 o 0) as E. by rewrite !Z.add_0_r in E. }
  unfold tlb_load. rewrite E3, E4, E5, E6, E7. cbn [mbind option_bind]. rewrite !Hofs by done. change (s8 TARGET_PAGE_BITS) with TARGET_PAGE_BITS.
  rewrite Etmp. cbn [mbind option_bind]. fold s. rewrite Hsm, Ham.
  assert (Etgt : load64 m (u32 (tmp3 + (if is_ld then TLB_ADDR_READ else TLB_ADDR_WRITE))) = Some (tlb_read_idx e (access_of is_ld))).
  { destruct is_ld; rewrite Ho by (unfold TLB_ADDR_READ, TLB_ADDR_WRITE; lia); done. }
  rewrite Etgt. cbn [mbind option_bind]. unfold compared. destruct (_ =? _); [|done].
  rewrite Ho by (unfold TLB_ADDEND; lia). by rewrite Ead.
Qed.

(** Whether the access is served inline. *)
Definition inline (e : CPUTLBEntry) (taddr a s : Z) (ty : MMUAccessType) : bool :=
  (tlb_read_idx e ty =? page_at taddr) && (taddr mod 2 ^ a =? 0) && (taddr mod 4096 + 2 ^ s <=? 4096)
  && negb (u64 (taddr + s32 (addend e)) =? 0).

Lemma inline_compares e taddr s ty : is_u 64 taddr -> tlb_entry t taddr = Some e -> 0 <= s <= 3 ->
  (Z.land (compared taddr a s) (Z.lor TARGET_PAGE_MASK (2 ^ a - 1)) =? tlb_read_idx e ty)
  = (tlb_read_idx e ty =? page_at taddr) && (taddr mod 2 ^ a =? 0) && (taddr mod 4096 + 2 ^ s <=? 4096).
Proof.
  intros Ht He Hs. destruct (pi_align _ _ _ _ _ Hpool) as [Ha _]. apply eq_true_iff_eq. rewrite !andb_true_iff, !Z.eqb_eq, Z.leb_le. split.
  - intros E. destruct (inline_hit A t taddr e ty a s Hco Ht He Ha Hs E) as (H1 & H2 & H3). done.
  - intros [[-> Hal] Hroom]. destruct (compared_page taddr a s Ht Ha Hs) as (Hu & Hmod & _). rewrite masked_address, Hmod, Hal by done.
    rewrite Z.add_0_r, !page_at_div by done. f_equal. unfold compared. destruct (Z.ltb_spec (2 ^ a - 1) (2 ^ s - 1)); [|done].
    assert (0 < 2 ^ a) by (apply Z.pow_pos_nonneg; lia). assert (2 ^ s <= 2 ^ 3) by (apply Z.pow_le_mono_r; lia). change (2 ^ 3) with 8 in *.
    rewrite page_step by (done || lia). by rewrite (proj2 (Z.ltb_lt _ _)) by lia.
Qed.

(** RAM blocks are aligned to pages and in memory. *)
Definition ram_backed : Prop := forall p f, A !! p = Some f -> is_ram (f_back f) || is_romd (f_back f) = true ->
  addend_of (f_back f) mod 4096 = 0 /\ page_mapped m (addend_of (f_back f)).

(** An access that is served inline has its page's translation, and its bytes are in memory. *)
Lemma inline_served e taddr (n : nat) s ty : ram_backed -> is_u 64 taddr -> tlb_entry t taddr = Some e -> is_u 32 (addend e) ->
  inline e taddr a s ty = true -> 2 ^ s = Z.of_nat n ->
  exists f, A !! page_at taddr = Some f /\ plain f ty = true /\ u32 (u64 (taddr + s32 (addend e))) = host_of f taddr
    /\ mapped m (host_of f taddr) n /\ gload n A m taddr = load n m (host_of f taddr) /\ (forall v, gstore n A m taddr v = store n m (host_of f taddr) v).
Proof.
  intros Hb Ht He Had Hin Hn. unfold inline in Hin. rewrite !andb_true_iff, !Z.eqb_eq, Z.leb_le in Hin. destruct Hin as [[[Hcmp _] Hroom] _].
  destruct (fast_entry A t taddr e ty Hco Ht He Hcmp) as (f & Hf & _ & Hpl & Hh). pose proof (plain_backed f ty Hpl) as Hram.
  destruct (Hb _ _ Hf Hram) as [Hal Hmap]. destruct (host_at f taddr Hal) as (Hu & Hmod & Hdiv). rewrite Hn in Hroom.
  exists f. split_and!; try done.
  - rewrite sext_host, Hh by done. unfold host_of, addend_of. by rewrite Hram, uw_add_idemp_l.
  - apply in_page_mapped. split_and!; [done | intros q Hq; apply Hmap; congruence | lia | done].
  - by apply gload_page.
  - intros v. by apply gstore_page.
Qed.
End Inline.

(** The value of a load of the kind. *)
Definition extend (kind x : Z) : Z :=
  if kind =? 8 then u64 (s8 x) else if kind =? 9 then u64 (s16 x) else if kind =? 10 then u64 (s32 x) else x.

Lemma size_of_kind mop : Z.land (Z.land mop MO_SSIZE) 7 = Z.land mop Tci.MO_SIZE.
Proof. rewrite <- Z.land_assoc. done. Qed.

Definition width (kind : Z) : nat := Z.to_nat (2 ^ Z.land kind 7).

Section Interp.
Context {W : Type} `{!Helpers W} (st : tci_state W) (env ptr a mask_ofs table_ofs tbl : Z) (t : tlbm) (A : gmap Z fill).

(** The machine around a guest access of the interpreter. *)
Record inline_ready : Prop := {
  ir_wf : mem_wf (tmem st);
  ir_coherent : coherent A t;                                             (** [A]: the translations the TLB may use *)
  ir_image : tlb_image (tmem st) env mask_ofs table_ofs tbl t;            (** the TLB in memory *)
  ir_pool : pool_image (tmem st) ptr a mask_ofs table_ofs;                (** the instruction's constants *)
  ir_backed : ram_backed (tmem st) A
}.

(** The lookup of an access, decided. *)
Lemma inline_decided taddr mop is_ld : inline_ready -> is_u 64 taddr -> Z.land mop Tci.MO_SIZE <= 3 ->
  exists e, tlb_entry t taddr = Some e
  /\ let hit := inline e taddr a (Z.land mop Tci.MO_SIZE) (access_of is_ld) in
     let h := u64 (taddr + s32 (addend e)) in
     tlb_load (tmem st) env taddr mop ptr is_ld = Some (if hit then h else 0) /\ (hit = true -> h <> 0 /\ is_u 32 (addend e)).
Proof.
  intros [Hwf Hco Himg Hpool Hb] Ht Hs. assert (Hs0 : 0 <= Z.land mop Tci.MO_SIZE) by (apply Z.land_nonneg; by right).
  destruct (tlb_load_spec _ _ _ _ _ _ _ _ _ Hwf Hco Himg Hpool taddr mop is_ld Ht Hs) as (e & He & Etl & Had). exists e. split; [done|].
  rewrite (inline_compares _ ptr a mask_ofs table_ofs t A Hco Hpool e taddr (Z.land mop Tci.MO_SIZE) _ Ht He ltac:(lia)) in Etl. cbv zeta. rewrite Etl. unfold inline.
  destruct (_ && _ && _); cbn [andb]; [|done]. destruct (Z.eqb_spec (u64 (taddr + s32 (addend e))) 0) as [->|]; done.
Qed.

(** An access that is served inline is to the guest's bytes. *)
Lemma inline_bytes taddr s e ty : inline_ready -> is_u 64 taddr -> tlb_entry t taddr = Some e -> is_u 32 (addend e) ->
  inline e taddr a s ty = true -> s <= 3 -> 0 <= s ->
  let h := u32 (u64 (taddr + s32 (addend e))) in
  exists f, A !! page_at taddr = Some f /\ plain f ty = true /\ mapped (tmem st) h (width s) /\ gload (width s) A (tmem st) taddr = load (width s) (tmem st) h
    /\ forall v, gstore (width s) A (tmem st) taddr v = store (width s) (tmem st) h v.
Proof.
  intros [Hwf Hco Himg Hpool Hb] Ht He Had Hin Hs Hs0 h. assert (Hn : 2 ^ s = Z.of_nat (width s)).
  { unfold width. change 7 with (Z.ones 3). rewrite Z.land_ones, Z.mod_small by (change (2 ^ 3) with 8; lia). rewrite Z2Nat.id; [done | by apply Z.pow_nonneg]. }
  destruct (inline_served _ a t A Hwf Hco e taddr _ _ _ Hb Ht He Had Hin Hn) as (f & Hf & Hpl & Hh & Hm & Hg & Hgs).
  exists f. unfold h. by rewrite Hh.
Qed.

Lemma qemu_ld_fast taddr oi tb_ptr k h x : let kind := Z.land (get_memop oi) MO_SSIZE in
  kind ∈ [0; 8; 1; 9; 2; 10; 3] -> h <> 0 -> tlb_load (tmem st) env taddr (get_memop oi) ptr true = Some h ->
  load (width kind) (tmem st) (u32 h) = Some x -> tci_qemu_ld env taddr oi tb_ptr ptr st k = k (extend kind x) st.
Proof.
  intros kind Hk Hh El Hx. unfold tci_qemu_ld. fold kind. rewrite El, (proj2 (Z.eqb_neq _ _) Hh). cbn [negb]. cbv zeta. unfold ld.
  set_unfold in Hk. destruct_or! Hk; rewrite Hk in *; cbn [Z.eqb Pos.eqb]; change (width _) with 1%nat in Hx || change (width _) with 2%nat in Hx
    || change (width _) with 4%nat in Hx || change (width _) with 8%nat in Hx; by rewrite Hx.
Qed.

Lemma qemu_ld_slow taddr oi tb_ptr k : let kind := Z.land (get_memop oi) MO_SSIZE in
  kind ∈ [0; 8; 1; 9; 2; 10; 3] -> tlb_load (tmem st) env taddr (get_memop oi) ptr true = Some 0 ->
  tci_qemu_ld env taddr oi tb_ptr ptr st k = helped st (helper_ld_mmu kind env taddr oi tb_ptr (hin st tb_ptr)) (fun v => k (u64 v)).
Proof. intros kind Hk El. unfold tci_qemu_ld. fold kind. rewrite El. cbn [Z.eqb negb]. by rewrite bool_decide_eq_true_2. Qed.

Lemma qemu_st_fast taddr val oi tb_ptr k h m' : let size := Z.land (get_memop oi) Tci.MO_SIZE in
  size ∈ [0; 1; 2; 3] -> h <> 0 -> tlb_load (tmem st) env taddr (get_memop oi) ptr false = Some h ->
  store (width size) (tmem st) (u32 h) val = Some m' -> tci_qemu_st env taddr val oi tb_ptr ptr st k = k (Tci.set_mem m' st).
Proof.
  intros size Hk Hh El Hx. unfold tci_qemu_st. fold size. rewrite El, (proj2 (Z.eqb_neq _ _) Hh). cbn [negb]. cbv zeta. unfold sto.
  set_unfold in Hk. destruct_or! Hk; rewrite Hk in *; cbn [Z.eqb Pos.eqb].
  - change (width 0) with 1%nat in Hx. change (u8 val) with (uw (8 * Z.of_nat 1) val). by rewrite store_trunc, Hx.
  - change (width 1) with 2%nat in Hx. change (u16 val) with (uw (8 * Z.of_nat 2) val). by rewrite store_trunc, Hx.
  - change (width 2) with 4%nat in Hx. change (u32 val) with (uw (8 * Z.of_nat 4) val). by rewrite store_trunc, Hx.
  - change (width 3) with 8%nat in Hx. by rewrite Hx.
Qed.

Lemma qemu_st_slow taddr val oi tb_ptr k : let size := Z.land (get_memop oi) Tci.MO_SIZE in
  size ∈ [0; 1; 2; 3] -> tlb_load (tmem st) env taddr (get_memop oi) ptr false = Some 0 ->
  tci_qemu_st env taddr val oi tb_ptr ptr st k = helped st (helper_st_mmu size env taddr val oi tb_ptr (hin st tb_ptr)) (fun _ => k).
Proof. intros size Hk El. unfold tci_qemu_st. fold size. rewrite El. cbn [Z.eqb negb]. by rewrite bool_decide_eq_true_2. Qed.

(** C7: A guest load or store of the interpreter is served inline exactly where the
    page's own TLB entry has no flag, the access is as aligned as it must be and inside
    the page.  Then it reads, or writes, the bytes the page's current translation gives,
    a page of plain RAM (readable ROM for a load), and sign-extends as the opcode says;
    every other access, and no other, goes to the slow path.  The lookup reads the table
    where it is, although it loads both 32-bit words of the descriptor with 64-bit loads. *)
Theorem inline_access_exact taddr val oi tb_ptr kl ks : inline_ready -> is_u 64 taddr -> Z.land (get_memop oi) MO_SSIZE ∈ [0; 8; 1; 9; 2; 10; 3] ->
  let kind := Z.land (get_memop oi) MO_SSIZE in
  let size := Z.land (get_memop oi) Tci.MO_SIZE in
  exists e, tlb_entry t taddr = Some e
  /\ (if inline e taddr a size MMU_DATA_LOAD
      then exists f x, A !! page_at taddr = Some f /\ plain f MMU_DATA_LOAD = true /\ gload (width size) A (tmem st) taddr = Some x
             /\ tci_qemu_ld env taddr oi tb_ptr ptr st kl = kl (extend kind x) st
      else tci_qemu_ld env taddr oi tb_ptr ptr st kl = helped st (helper_ld_mmu kind env taddr oi tb_ptr (hin st tb_ptr)) (fun v => kl (u64 v)))
  /\ (if inline e taddr a size MMU_DATA_STORE
      then exists f m', A !! page_at taddr = Some f /\ plain f MMU_DATA_STORE = true /\ gstore (width size) A (tmem st) taddr val = Some m'
             /\ tci_qemu_st env taddr val oi tb_ptr ptr st ks = ks (Tci.set_mem m' st)
      else tci_qemu_st env taddr val oi tb_ptr ptr st ks = helped st (helper_st_mmu size env taddr val oi tb_ptr (hin st tb_ptr)) (fun _ => ks)).
Proof.
  intros Hr Ht Hkind kind size. assert (Hks : kind ∈ [0; 8; 1; 9; 2; 10; 3] /\ size = Z.land kind 7) by (split; [done | symmetry; apply size_of_kind]).
  assert (Hs : size ∈ [0; 1; 2; 3]).
  { destruct Hks as [Hk ->]. clear - Hk. set_unfold in Hk. destruct_or! Hk; rewrite Hk; set_solver. }
  assert (Hs3 : size <= 3) by (set_unfold in Hs; lia). assert (Hs0 : 0 <= size) by (set_unfold in Hs; lia).
  destruct (inline_decided taddr (get_memop oi) true Hr Ht Hs3) as (e & He & El & Hl).
  destruct (inline_decided taddr (get_memop oi) false Hr Ht Hs3) as (e' & He' & Es & Hst). assert (e' = e) as -> by congruence. clear He'.
  fold size in El, Hl, Es, Hst. cbn [access_of] in *. exists e. split; [done|]. split.
  - destruct (inline e taddr a size MMU_DATA_LOAD) eqn:Ein; [|by apply qemu_ld_slow].
    destruct (Hl eq_refl) as [Hne Had]. destruct (inline_bytes taddr size e MMU_DATA_LOAD Hr Ht He Had Ein Hs3 Hs0) as (f & Hf & Hpl & Hm & Hg & _).
    destruct (load_total _ _ _ Hm) as [x Hx]. exists f, x. rewrite Hg. split_and!; try done.
    apply (qemu_ld_fast taddr oi tb_ptr kl (u64 (taddr + s32 (addend e)))); try done.
    replace (width (Z.land (get_memop oi) MO_SSIZE)) with (width size); [done|]. rewrite (proj2 Hks). unfold width. by rewrite <- Z.land_assoc.
  - destruct (inline e taddr a size MMU_DATA_STORE) eqn:Ein; [|by apply qemu_st_slow].
    destruct (Hst eq_refl) as [Hne Had]. destruct (inline_bytes taddr size e MMU_DATA_STORE Hr Ht He Had Ein Hs3 Hs0) as (f & Hf & Hpl & Hm & _ & Hg).
    destruct (store_total _ _ _ val Hm) as [m' Hm']. exists f, m'. rewrite Hg. split_and!; try done.
    by apply (qemu_st_fast taddr val oi tb_ptr ks (u64 (taddr + s32 (addend e)))).
Qed.
End Interp.

(** ** A memory of words *)

(** The little-endian bytes of 64-bit words laid out from an address. *)
Definition word_bytes (w : Z) : list Z := (fun i => byte i w) <$> seqZ 0 8.
Definition words_mem (base : Z) (ws : list Z) : mem := map_seqZ base (ws ≫= word_bytes).

Lemma blocks_lookup {X Y} (g : X -> list Y) (k : nat) l i j x y : (forall x, length (g x) = k) ->
  l !! i = Some x -> g x !! j = Some y -> (l ≫= g) !! (k * i + j)%nat = Some y.
Proof.
  intros Hk. revert i. induction l as [|z l IH]; intros i Hi Hj; [done|]. rewrite bind_cons. destruct i as [|i].
  - simplify_eq/=. rewrite Nat.mul_0_r, Nat.add_0_l. by apply lookup_app_l_Some.
  - rewrite lookup_app_r by (rewrite Hk; lia). rewrite Hk. replace (k * S i + j - k)%nat with (k * i + j)%nat by lia. by apply IH.
Qed.

Lemma blocks_length {X Y} (g : X -> list Y) (k : nat) l : (forall x, length (g x) = k) -> length (l ≫= g) = (k * length l)%nat.
Proof. intros Hk. induction l as [|z l IH]; [simpl; lia|]. rewrite bind_cons, length_app, Hk, IH. simpl. lia. Qed.

Lemma word_bytes_length w : length (word_bytes w) = 8%nat.
Proof. done. Qed.

Lemma words_mem_load base ws i w : ws !! i = Some w -> is_u 64 w -> load64 (words_mem base ws) (base + 8 * Z.of_nat i) = Some w.
Proof.
  intros Hi Hw. apply load_of_bytes; [done|]. intros k Hk. unfold words_mem. apply lookup_map_seqZ_Some. split; [lia|].
  replace (Z.to_nat _) with (8 * i + Z.to_nat k)%nat by lia. apply (blocks_lookup _ _ _ _ _ w); [apply word_bytes_length | done |].
  unfold word_bytes. rewrite list_lookup_fmap, lookup_seqZ_lt by lia. simpl. do 2 f_equal. lia.
Qed.

Lemma words_mem_mapped base ws q : base <= q < base + 8 * Z.of_nat (length ws) -> is_Some (words_mem base ws !! q).
Proof.
  intros Hq. unfold words_mem. rewrite lookup_map_seqZ. rewrite option_guard_True by lia. apply lookup_lt_is_Some.
  rewrite (blocks_length _ 8) by apply word_bytes_length. lia.
Qed.

Lemma words_mem_wf base ws : mem_wf (words_mem base ws).
Proof.
  intros q b [_ H]%lookup_map_seqZ_Some. apply list_elem_of_lookup_2 in H. apply list_elem_of_bind in H as (w & H & _).
  unfold word_bytes in H. apply list_elem_of_fmap in H as (i & -> & _). apply uw_range. lia.
Qed.

(** A half of a word. *)
Lemma words_mem_half base ws i w o : ws !! i = Some w -> is_u 64 w -> o = 0 \/ o = 4 ->
  load32 (words_mem base ws) (base + 8 * Z.of_nat i + o) = Some (u32 (Z.shiftr w (8 * o))).
Proof.
  intros Hi Hw Ho. apply (load_extract 8 4); [apply words_mem_wf | by apply words_mem_load | lia | lia].
Qed.

(** The words of a table's entry, and that they are words. *)
Definition entry_words (e : CPUTLBEntry) : list Z := [addr_read e; addr_write e; addr_code e; addend e].
Definition entry_fits (e : CPUTLBEntry) : bool :=
  bool_decide (is_u 64 (addr_read e) /\ is_u 64 (addr_write e) /\ is_u 64 (addr_code e) /\ is_u 32 (addend e)).

(** ** A machine *)

Module InlineDemo.
Definition f : fill := LookupDemo.ram_fill 0x5000 0x10000 12.
Definition history : list op := [OpFill 0 f].
Definition cpu0 : cpu := default (zero_cpu None) (c ← LookupDemo.start; run_ops history c).
Definition t : tlbm := default zero_mode (modes cpu0 !! 0%nat).
Definition A : gmap Z fill := {[ 0x5000 := f ]}.

Definition env : Z := 0x11010.
Definition ptr : Z := 0x11000.
Definition tbl : Z := 0x11040.

(** The descriptor and the pool entry of a two-byte aligned access. *)
Definition descriptor : list Z := [fmask t + 2 ^ 32 * tbl; 0; 0; 1; u64 (-16); 12; TARGET_PAGE_MASK; u64 (-12)].
(** The page of RAM, the descriptor and the table. *)
Definition words : list Z := replicate 512 0x0706050403020100 ++ descriptor ++ (table t ≫= entry_words).
Definition m : mem := words_mem 0x10000 words.
End InlineDemo.

Lemma demo_fits : forallb entry_fits (table InlineDemo.t) = true.
Proof. vm_compute. reflexivity. Qed.

Lemma demo_descriptor i w : InlineDemo.descriptor !! i = Some w -> InlineDemo.words !! (512 + i)%nat = Some w.
Proof.
  intros Hi. unfold InlineDemo.words. rewrite lookup_app_r; rewrite length_replicate; [|lia].
  replace (512 + i - 512)%nat with i by lia. by apply lookup_app_l_Some.
Qed.

Lemma demo_entry i e j w : table InlineDemo.t !! i = Some e -> entry_words e !! j = Some w -> InlineDemo.words !! (520 + (4 * i + j))%nat = Some w.
Proof.
  intros Hi Hj. unfold InlineDemo.words. rewrite lookup_app_r; rewrite length_replicate; [|lia].
  rewrite lookup_app_r; change (length InlineDemo.descriptor) with 8%nat; [|lia].
  replace (520 + (4 * i + j) - 512 - 8)%nat with (4 * i + j)%nat by lia. by apply (blocks_lookup _ _ _ _ _ e).
Qed.

Lemma demo_mapped q : 0x10000 <= q < 0x11040 -> is_Some (InlineDemo.m !! q).
Proof.
  intros Hq. unfold InlineDemo.m. apply words_mem_mapped. unfold InlineDemo.words. rewrite !length_app, length_replicate.
  change (length InlineDemo.descriptor) with 8%nat. lia.
Qed.

Lemma demo_shape : fmask InlineDemo.t = 0x1fe0 /\ length (table InlineDemo.t) = 256%nat.
Proof. vm_compute. split; reflexivity. Qed.

Lemma demo_word a i w : InlineDemo.descriptor !! i = Some w -> is_u 64 w -> a = 0x11000 + 8 * Z.of_nat i -> load64 InlineDemo.m a = Some w.
Proof.
  intros Hi Hw ->. replace (0x11000 + 8 * Z.of_nat i) with (0x10000 + 8 * Z.of_nat (512 + i)) by lia.
  apply words_mem_load; [by apply demo_descriptor | done].
Qed.

Lemma demo_half a o : o = 0 \/ o = 4 -> a = 0x11000 + o ->
  load32 InlineDemo.m a = Some (u32 (Z.shiftr (0x1fe0 + 2 ^ 32 * 0x11040) (8 * o))).
Proof.
  intros Ho ->. replace (0x11000 + o) with (0x10000 + 8 * Z.of_nat 512 + o) by lia.
  apply words_mem_half; [| by vm_compute | done]. apply (demo_descriptor 0).
  unfold InlineDemo.descriptor, InlineDemo.tbl. by rewrite (proj1 demo_shape).
Qed.

Lemma demo_entries i e : table InlineDemo.t !! i = Some e -> let p := InlineDemo.tbl + 32 * Z.of_nat i in
  load64 InlineDemo.m (p + TLB_ADDR_READ) = Some (addr_read e) /\ load64 InlineDemo.m (p + TLB_ADDR_WRITE) = Some (addr_write e)
  /\ load32 InlineDemo.m (p + TLB_ADDEND) = Some (addend e).
Proof.
  intros Hi p. pose proof demo_fits as Hf. rewrite forallb_forall in Hf.
  specialize (Hf e (proj1 (list_elem_of_In _ _) (list_elem_of_lookup_2 _ _ _ Hi))). unfold entry_fits in Hf. rewrite bool_decide_eq_true in Hf. destruct Hf as (Hr & Hw & _ & Ha).
  assert (Hp : forall j, p + 8 * Z.of_nat j = 0x10000 + 8 * Z.of_nat (520 + (4 * i + j))) by (intros j; unfold p, InlineDemo.tbl; lia).
  assert (He : forall j w, entry_words e !! j = Some w -> is_u 64 w -> load64 InlineDemo.m (p + 8 * Z.of_nat j) = Some w).
  { intros j w Hj Hu. rewrite Hp. apply words_mem_load; [by apply (demo_entry i e) | done]. }
  split; [by apply (He 0%nat)|]. split; [by apply (He 1%nat)|].
  assert (Hu : u32 (Z.shiftr (addend e) (8 * 0)) = addend e) by (by apply uw_small). rewrite <- Hu.
  replace (p + TLB_ADDEND) with (0x10000 + 8 * Z.of_nat (520 + (4 * i + 3)) + 0) by (rewrite <- Hp; unfold TLB_ADDEND; lia).
  apply words_mem_half; [by apply (demo_entry i e) | unfold is_u in *; lia | by left].
Qed.

Lemma demo_image : tlb_image InlineDemo.m InlineDemo.env (-16) (-12) InlineDemo.tbl InlineDemo.t.
Proof.
  split.
  - change (u32 (InlineDemo.env + -16)) with 0x11000. split; [| intros i Hi; apply demo_mapped; lia].
    rewrite (proj1 demo_shape). by apply (demo_half _ 0); [left|].
  - change (u32 (InlineDemo.env + -12)) with 0x11004. split; [| intros i Hi; apply demo_mapped; lia].
    by apply (demo_half _ 4); [right|].
  - rewrite (proj2 demo_shape). by vm_compute.
  - exact demo_entries.
Qed.

Lemma demo_pool : pool_image InlineDemo.m InlineDemo.ptr 1 (-16) (-12).
Proof.
  split.
  - split; [lia | by apply (demo_word _ 3)].
  - split; [by vm_compute | by apply (demo_word _ 4)].
  - by apply (demo_word _ 5).
  - by apply (demo_word _ 6).
  - split; [by vm_compute | by apply (demo_word _ 7)].
Qed.

#[export] Instance no_helpers : Helpers unit := {
  lookup_tb_ptr_func := 0;
  helper_lookup_tb_ptr _ h := HLongjmp (h_mem h) tt;
  helper_call _ _ _ h := HLongjmp (h_mem h) tt;
  helper_ret_i128 _ _ _ _ h := HLongjmp (h_mem h) tt;
  helper_arg_i128 _ _ _ _ _ h := HLongjmp (h_mem h) tt;
  ffi_call _ _ _ _ _ h := HLongjmp (h_mem h) tt;
  cif_sizes _ := [];
  helper_ld_mmu _ _ _ _ _ h := HLongjmp (h_mem h) tt;
  helper_st_mmu _ _ _ _ _ _ h := HLongjmp (h_mem h) tt
}.

Module InlineState.
Import InlineDemo.
Definition st : tci_state unit :=
  {| regs := replicate 16 0; ctx_tb_ptr := 0; tci_tb_ptr := 0; bb_cold_ptr := 0; bb_resume_ptr := 0; bb_fast_tci_depth := 0;
     bb_force_slow_tci := 0; tmem := m; world := tt |}.
(** A sign-extended four-byte access of mode 0. *)
Definition oi : Z := 0xa0.
Definition kind : Z := Z.land (get_memop oi) MO_SSIZE.
Definition size : Z := Z.land (get_memop oi) Tci.MO_SIZE.
Definition kl (v : Z) (st : tci_state unit) : outcome unit := Done (Ret v st).
Definition ks (st : tci_state unit) : outcome unit := Done (Ret 0 st).
End InlineState.

Lemma demo_fill : coherent InlineDemo.A InlineDemo.t.
Proof.
  assert (Hr : run_ops InlineDemo.history LookupWitness.st0 = Some InlineDemo.cpu0) by (apply (demo_runs InlineDemo.history); vm_compute; reflexivity).
  assert (Hok : cpu_ok (spec_ops InlineDemo.history empty_tlb) InlineDemo.cpu0).
  { eapply run_ops_ok; [eapply init_ok, demo_start | | exact Hr]. clear Hr. repeat apply Forall_cons_2; [..| apply Forall_nil_2]; (split; [lia | by vm_compute]). }
  apply (ok_modes _ _ Hok 0%nat); [done|]. unfold InlineDemo.t. apply some_default. vm_compute. reflexivity.
Qed.

Lemma demo_inline : inline_ready InlineState.st InlineDemo.env InlineDemo.ptr 1 (-16) (-12) InlineDemo.tbl InlineDemo.t InlineDemo.A.
Proof.
  split; [| exact demo_fill | exact demo_image | exact demo_pool |].
  - apply words_mem_wf.
  - intros p f Hf _. unfold InlineDemo.A in Hf. apply lookup_singleton_Some in Hf as [<- <-]. split; [done|]. intros q Hq. apply demo_mapped.
    change (addend_of (f_back InlineDemo.f)) with 0x10000 in Hq. Z.to_euclidean_division_equations; lia.
Qed.

(** The last word of the page, at an address that is two-byte aligned: served inline. *)
Lemma inline_access_exact_witness :
  exists e, tlb_entry InlineDemo.t 0x5ffa = Some e
  /\ (if inline e 0x5ffa 1 InlineState.size MMU_DATA_LOAD
      then exists f x, InlineDemo.A !! page_at 0x5ffa = Some f /\ plain f MMU_DATA_LOAD = true
             /\ gload (width InlineState.size) InlineDemo.A (tmem InlineState.st) 0x5ffa = Some x
             /\ tci_qemu_ld InlineDemo.env 0x5ffa InlineState.oi 0 InlineDemo.ptr InlineState.st InlineState.kl = InlineState.kl (extend InlineState.kind x) InlineState.st
      else tci_qemu_ld InlineDemo.env 0x5ffa InlineState.oi 0 InlineDemo.ptr InlineState.st InlineState.kl
           = helped InlineState.st (helper_ld_mmu InlineState.kind InlineDemo.env 0x5ffa InlineState.oi 0 (hin InlineState.st 0)) (fun v => InlineState.kl (u64 v)))
  /\ (if inline e 0x5ffa 1 InlineState.size MMU_DATA_STORE
      then exists f m', InlineDemo.A !! page_at 0x5ffa = Some f /\ plain f MMU_DATA_STORE = true
             /\ gstore (width InlineState.size) InlineDemo.A (tmem InlineState.st) 0x5ffa 0x11223344 = Some m'
             /\ tci_qemu_st InlineDemo.env 0x5ffa 0x11223344 InlineState.oi 0 InlineDemo.ptr InlineState.st InlineState.ks = InlineState.ks (Tci.set_mem m' InlineState.st)
      else tci_qemu_st InlineDemo.env 0x5ffa 0x11223344 InlineState.oi 0 InlineDemo.ptr InlineState.st InlineState.ks
           = helped InlineState.st (helper_st_mmu InlineState.size InlineDemo.env 0x5ffa 0x11223344 InlineState.oi 0 (hin InlineState.st 0)) (fun _ => InlineState.ks)).
Proof.
  apply (inline_access_exact InlineState.st InlineDemo.env InlineDemo.ptr 1 (-16) (-12) InlineDemo.tbl InlineDemo.t InlineDemo.A 0x5ffa 0x11223344
    InlineState.oi 0 InlineState.kl InlineState.ks).
  - exact demo_inline.
  - by vm_compute.
  - change (Z.land (get_memop InlineState.oi) MO_SSIZE) with 10. set_solver.
Defined.

(** It is served inline, in both directions. *)
Lemma demo_served : (e ← tlb_entry InlineDemo.t 0x5ffa; Some (inline e 0x5ffa 1 2 MMU_DATA_LOAD && inline e 0x5ffa 1 2 MMU_DATA_STORE)) = Some true.
Proof. vm_compute. reflexivity. Qed.
