(* ===== verification/AndroidVnc.v ===== *)
(** * The Android display bridge

    Models ubuntu-build/android-vnc/bootbox_android_vnc.c, the process that serves
    the Android guest's screen over VNC: settings from the environment and the
    system properties, key and pointer events written to uinput devices, and the
    relay of frames from the hardware composer.

    The kernel side is explicit: what each [write], [recv], [recvmsg], [mmap] and
    [send] returned is an input of the model.  The key and event codes are those
    of linux/input-event-codes.h, the keysyms those of ui/vnc_keysym.h.

    The theorems: the display size is always in range; what a multitouch reader
    makes of the written events is exactly the pointer, clamped to the screen; a
    key is one the keyboard device declared; a frame copy never leaves its
    mapping or the framebuffer, and no descriptor is left open.  They also show
    which letters and function keys are sent as another key. *)
From Stdlib Require Import Ascii.
From S2P Require Import Prelude Tune.

(** ** Event and key codes (linux/input-event-codes.h) *)

Definition EV_SYN : Z := 0x00.
Definition EV_KEY : Z := 0x01.
Definition EV_ABS : Z := 0x03.
Definition SYN_REPORT : Z := 0.
Definition BTN_MISC : Z := 0x100.
Definition BTN_TOOL_FINGER : Z := 0x145.
Definition BTN_TOUCH : Z := 0x14a.
Definition ABS_X : Z := 0x00.
Definition ABS_Y : Z := 0x01.
Definition ABS_MT_SLOT : Z := 0x2f.
Definition ABS_MT_POSITION_X : Z := 0x35.
Definition ABS_MT_POSITION_Y : Z := 0x36.
Definition ABS_MT_TRACKING_ID : Z := 0x39.

Definition KEY_ESC : Z := 1.
Definition KEY_1 : Z := 2.
Definition KEY_2 : Z := 3.
Definition KEY_3 : Z := 4.
Definition KEY_4 : Z := 5.
Definition KEY_5 : Z := 6.
Definition KEY_6 : Z := 7.
Definition KEY_7 : Z := 8.
Definition KEY_8 : Z := 9.
Definition KEY_9 : Z := 10.
Definition KEY_0 : Z := 11.
Definition KEY_MINUS : Z := 12.
Definition KEY_EQUAL : Z := 13.
Definition KEY_BACKSPACE : Z := 14.
Definition KEY_TAB : Z := 15.
Definition KEY_Q : Z := 16.
Definition KEY_W : Z := 17.
Definition KEY_E : Z := 18.
Definition KEY_R : Z := 19.
Definition KEY_T : Z := 20.
Definition KEY_Y : Z := 21.
Definition KEY_U : Z := 22.
Definition KEY_I : Z := 23.
Definition KEY_O : Z := 24.
Definition KEY_P : Z := 25.
Definition KEY_LEFTBRACE : Z := 26.
Definition KEY_RIGHTBRACE : Z := 27.
Definition KEY_ENTER : Z := 28.
Definition KEY_LEFTCTRL : Z := 29.
Definition KEY_A : Z := 30.
Definition KEY_S : Z := 31.
Definition KEY_D : Z := 32.
Definition KEY_F : Z := 33.
Definition KEY_G : Z := 34.
Definition KEY_H : Z := 35.
Definition KEY_J : Z := 36.
Definition KEY_K : Z := 37.
Definition KEY_L : Z := 38.
Definition KEY_SEMICOLON : Z := 39.
Definition KEY_APOSTROPHE : Z := 40.
Definition KEY_GRAVE : Z := 41.
Definition KEY_LEFTSHIFT : Z := 42.
Definition KEY_BACKSLASH : Z := 43.
Definition KEY_Z : Z := 44.
Definition KEY_X : Z := 45.
Definition KEY_C : Z := 46.
Definition KEY_V : Z := 47.
Definition KEY_B : Z := 48.
Definition KEY_N : Z := 49.
Definition KEY_M : Z := 50.
Definition KEY_COMMA : Z := 51.
Definition KEY_DOT : Z := 52.
Definition KEY_SLASH : Z := 53.
Definition KEY_RIGHTSHIFT : Z := 54.
Definition KEY_LEFTALT : Z := 56.
Definition KEY_SPACE : Z := 57.
Definition KEY_CAPSLOCK : Z := 58.
Definition KEY_F1 : Z := 59.
Definition KEY_F2 : Z := 60.
Definition KEY_F3 : Z := 61.
Definition KEY_F4 : Z := 62.
Definition KEY_F5 : Z := 63.
Definition KEY_F6 : Z := 64.
Definition KEY_F7 : Z := 65.
Definition KEY_F8 : Z := 66.
Definition KEY_F9 : Z := 67.
Definition KEY_F10 : Z := 68.
Definition KEY_NUMLOCK : Z := 69.
Definition KEY_SCROLLLOCK : Z := 70.
Definition KEY_F11 : Z := 87.
Definition KEY_F12 : Z := 88.
Definition KEY_RIGHTCTRL : Z := 97.
Definition KEY_RIGHTALT : Z := 100.
Definition KEY_HOME : Z := 102.
Definition KEY_UP : Z := 103.
Definition KEY_PAGEUP : Z := 104.
Definition KEY_LEFT : Z := 105.
Definition KEY_RIGHT : Z := 106.
Definition KEY_END : Z := 107.
Definition KEY_DOWN : Z := 108.
Definition KEY_PAGEDOWN : Z := 109.
Definition KEY_INSERT : Z := 110.
Definition KEY_DELETE : Z := 111.
Definition KEY_LEFTMETA : Z := 125.
Definition KEY_RIGHTMETA : Z := 126.

(** ** Keysyms (ui/vnc_keysym.h) *)

Definition XK_a : Z := 0x061.
Definition XK_z : Z := 0x07a.
Definition XK_A : Z := 0x041.
Definition XK_Z : Z := 0x05a.
Definition XK_1 : Z := 0x031.
Definition XK_9 : Z := 0x039.
Definition XK_0 : Z := 0x030.
Definition XK_F1 : Z := 0xffbe.
Definition XK_F12 : Z := 0xffc9.
Definition XK_BackSpace : Z := 0xff08.
Definition XK_Tab : Z := 0xff09.
Definition XK_Return : Z := 0xff0d.
Definition XK_Escape : Z := 0xff1b.
Definition XK_space : Z := 0x020.
Definition XK_exclam : Z := 0x021.
Definition XK_quotedbl : Z := 0x022.
Definition XK_numbersign : Z := 0x023.
Definition XK_dollar : Z := 0x024.
Definition XK_percent : Z := 0x025.
Definition XK_ampersand : Z := 0x026.
Definition XK_apostrophe : Z := 0x027.
Definition XK_parenleft : Z := 0x028.
Definition XK_parenright : Z := 0x029.
Definition XK_asterisk : Z := 0x02a.
Definition XK_plus : Z := 0x02b.
Definition XK_comma : Z := 0x02c.
Definition XK_minus : Z := 0x02d.
Definition XK_period : Z := 0x02e.
Definition XK_slash : Z := 0x02f.
Definition XK_colon : Z := 0x03a.
Definition XK_semicolon : Z := 0x03b.
Definition XK_less : Z := 0x03c.
Definition XK_equal : Z := 0x03d.
Definition XK_greater : Z := 0x03e.
Definition XK_question : Z := 0x03f.
Definition XK_at : Z := 0x040.
Definition XK_bracketleft : Z := 0x05b.
Definition XK_backslash : Z := 0x05c.
Definition XK_bracketright : Z := 0x05d.
Definition XK_asciicircum : Z := 0x05e.
Definition XK_underscore : Z := 0x05f.
Definition XK_grave : Z := 0x060.
Definition XK_braceleft : Z := 0x07b.
Definition XK_bar : Z := 0x07c.
Definition XK_braceright : Z := 0x07d.
Definition XK_asciitilde : Z := 0x07e.
Definition XK_Delete : Z := 0xffff.
Definition XK_Insert : Z := 0xff63.
Definition XK_Home : Z := 0xff50.
Definition XK_End : Z := 0xff57.
Definition XK_Page_Up : Z := 0xff55.
Definition XK_Page_Down : Z := 0xff56.
Definition XK_Left : Z := 0xff51.
Definition XK_Right : Z := 0xff53.
Definition XK_Up : Z := 0xff52.
Definition XK_Down : Z := 0xff54.
Definition XK_Shift_L : Z := 0xffe1.
Definition XK_Shift_R : Z := 0xffe2.
Definition XK_Control_L : Z := 0xffe3.
Definition XK_Control_R : Z := 0xffe4.
Definition XK_Alt_L : Z := 0xffe9.
Definition XK_Alt_R : Z := 0xffea.
Definition XK_Meta_L : Z := 0xffe7.
Definition XK_Meta_R : Z := 0xffe8.
Definition XK_Super_L : Z := 0xffeb.
Definition XK_Super_R : Z := 0xffec.
Definition XK_Caps_Lock : Z := 0xffe5.

(** ** Keys *)

Definition keysym_to_linux (key : Z) : Z :=
  if (XK_a <=? key) && (key <=? XK_z) then KEY_A + (key - XK_a)
  else if (XK_A <=? key) && (key <=? XK_Z) then KEY_A + (key - XK_A)
  else if (XK_1 <=? key) && (key <=? XK_9) then KEY_1 + (key - XK_1)
  else if key =? XK_0 then KEY_0
  else if (XK_F1 <=? key) && (key <=? XK_F12) then KEY_F1 + (key - XK_F1)
  else if key =? XK_BackSpace then KEY_BACKSPACE
  else if key =? XK_Tab then KEY_TAB
  else if key =? XK_Return then KEY_ENTER
  else if key =? XK_Escape then KEY_ESC
  else if key =? XK_space then KEY_SPACE
  else if key =? XK_exclam then KEY_1
  else if key =? XK_quotedbl then KEY_APOSTROPHE
  else if key =? XK_numbersign then KEY_3
  else if key =? XK_dollar then KEY_4
  else if key =? XK_percent then KEY_5
  else if key =? XK_ampersand then KEY_7
  else if key =? XK_apostrophe then KEY_APOSTROPHE
  else if key =? XK_parenleft then KEY_9
  else if key =? XK_parenright then KEY_0
  else if key =? XK_asterisk then KEY_8
  else if key =? XK_plus then KEY_EQUAL
  else if key =? XK_comma then KEY_COMMA
  else if key =? XK_minus then KEY_MINUS
  else if key =? XK_period then KEY_DOT
  else if key =? XK_slash then KEY_SLASH
  else if key =? XK_colon then KEY_SEMICOLON
  else if key =? XK_semicolon then KEY_SEMICOLON
  else if key =? XK_less then KEY_COMMA
  else if key =? XK_equal then KEY_EQUAL
  else if key =? XK_greater then KEY_DOT
  else if key =? XK_question then KEY_SLASH
  else if key =? XK_at then KEY_2
  else if key =? XK_bracketleft then KEY_LEFTBRACE
  else if key =? XK_backslash then KEY_BACKSLASH
  else if key =? XK_bracketright then KEY_RIGHTBRACE
  else if key =? XK_asciicircum then KEY_6
  else if key =? XK_underscore then KEY_MINUS
  else if key =? XK_grave then KEY_GRAVE
  else if key =? XK_braceleft then KEY_LEFTBRACE
  else if key =? XK_bar then KEY_BACKSLASH
  else if key =? XK_braceright then KEY_RIGHTBRACE
  else if key =? XK_asciitilde then KEY_GRAVE
  else if key =? XK_Delete then KEY_DELETE
  else if key =? XK_Insert then KEY_INSERT
  else if key =? XK_Home then KEY_HOME
  else if key =? XK_End then KEY_END
  else if key =? XK_Page_Up then KEY_PAGEUP
  else if key =? XK_Page_Down then KEY_PAGEDOWN
  else if key =? XK_Left then KEY_LEFT
  else if key =? XK_Right then KEY_RIGHT
  else if key =? XK_Up then KEY_UP
  else if key =? XK_Down then KEY_DOWN
  else if key =? XK_Shift_L then KEY_LEFTSHIFT
  else if key =? XK_Shift_R then KEY_RIGHTSHIFT
  else if key =? XK_Control_L then KEY_LEFTCTRL
  else if key =? XK_Control_R then KEY_RIGHTCTRL
  else if key =? XK_Alt_L then KEY_LEFTALT
  else if key =? XK_Alt_R then KEY_RIGHTALT
  else if key =? XK_Meta_L then KEY_LEFTMETA
  else if key =? XK_Meta_R then KEY_RIGHTMETA
  else if key =? XK_Super_L then KEY_LEFTMETA
  else if key =? XK_Super_R then KEY_RIGHTMETA
  else if key =? XK_Caps_Lock then KEY_CAPSLOCK
  else -1.
(** ** Settings *)

Definition DEFAULT_WIDTH : Z := 1024.
Definition DEFAULT_HEIGHT : Z := 768.
Definition HWC_MESSAGE_BYTES : nat := 64.

(** [strtol(s, &end, 10)] with a 64-bit [long]: the value, saturated, and the text
    at [end]. *)
Definition strtol (s : chars) : Z * chars :=
  let s0 := s in
  let s := skip_space s in
  let '(neg, s) :=
    match s with
    | "-"%char :: s' => (true, s')
    | "+"%char :: s' => (false, s')
    | _ => (false, s)
    end in
  let '(ds, rest) := span is_digit s in
  match ds with
  | [] => (0, s0)
  | _ => let y := if neg : bool then - decimal ds else decimal ds in
         (Z.max (- 2 ^ 63) (Z.min y (2 ^ 63 - 1)), rest)
  end.

(** The tail [env_int] and [prop_int] share: the parsed text, or the fallback. *)
Definition parse_int (value : chars) (fallback min max : Z) : Z :=
  let '(parsed, rest) := strtol value in
  match rest with
  | _ :: _ => fallback
  | [] => if (parsed <? min) || (max <? parsed) then fallback else s32 parsed
  end.

(** [value]: what [getenv] returned. *)
Definition env_int (value : option chars) (fallback min max : Z) : Z :=
  match value with
  | None | Some [] => fallback
  | Some v => parse_int v fallback min max
  end.

(** [value]: the property; [__system_property_get] returned its length. *)
Definition prop_int (value : chars) (fallback min max : Z) : Z :=
  match value with
  | [] => fallback
  | v => parse_int v fallback min max
  end.

Record settings := { display_width : Z; display_height : Z; port : Z }.

(** The head of [main]. *)
Definition read_settings (env_w env_h env_port : option chars) (prop_w prop_h : chars) : settings :=
  {| display_width := env_int env_w (prop_int prop_w DEFAULT_WIDTH 320 4096) 320 4096;
     display_height := env_int env_h (prop_int prop_h DEFAULT_HEIGHT 240 4096) 240 4096;
     port := env_int env_port 5900 1 65535 |}.

(** ** The uinput devices *)

(** What a device declares before [UI_DEV_CREATE]. *)
Record device := { keybits : list Z; absbits : list Z; absinfo : list (Z * (Z * Z)) }.

Definition open_input_device (S : settings) : device :=
  {| keybits := [BTN_TOUCH; BTN_TOOL_FINGER];
     absbits := [ABS_X; ABS_Y; ABS_MT_SLOT; ABS_MT_TRACKING_ID; ABS_MT_POSITION_X; ABS_MT_POSITION_Y];
     absinfo := [(ABS_X, (0, display_width S - 1)); (ABS_Y, (0, display_height S - 1));
                 (ABS_MT_SLOT, (0, 9)); (ABS_MT_TRACKING_ID, (0, 65535));
                 (ABS_MT_POSITION_X, (0, display_width S - 1)); (ABS_MT_POSITION_Y, (0, display_height S - 1))] |}.

Definition open_keyboard_device : device :=
  {| keybits := seqZ 1 (BTN_MISC - 1); absbits := []; absinfo := [] |}.

(** ** Writing events *)

Record input_event := { ev_type : Z; ev_code : Z; ev_value : Z }.

(** What a [write] to a device returned: all of the event, [EINTR], or less. *)
Inductive wres := W_full | W_eintr | W_other.

(** The bridge: its descriptors, the touch state, the writes so far and the
    events the kernel took, with the descriptor each went to. *)
Record bridge := {
  input_fd : Z;
  keyboard_fd : Z;
  touch_active : Z;
  touch_tracking_id : Z;
  writes : nat;
  taken : list (Z * input_event)
}.

Section Bridge.
(** The display, the results of the [write] calls in order, and how often an
    event may be retried. *)
Context (S : settings) (kernel : nat -> wres) (retries : nat).

(** A computation on the bridge; [None]: still retrying. *)
Definition io (A : Type) : Type := bridge -> option (A * bridge).

#[global] Instance io_ret : MRet io := fun _ x b => Some (x, b).
#[global] Instance io_bind : MBind io := fun _ _ k m b => match m b with Some (x, b) => k x b | None => None end.

Definition get : io bridge := fun b => Some (b, b).

Definition set_touch (active id : Z) : io unit := fun b =>
  Some (tt, {| input_fd := input_fd b; keyboard_fd := keyboard_fd b; touch_active := active;
               touch_tracking_id := id; writes := writes b; taken := taken b |}).

(** One [write]: its result, the event recorded if the kernel took all of it. *)
Definition write (fd : Z) (e : input_event) : io wres := fun b =>
  let r := kernel (writes b) in
  Some (r, {| input_fd := input_fd b; keyboard_fd := keyboard_fd b; touch_active := touch_active b;
              touch_tracking_id := touch_tracking_id b; writes := 1 + writes b;
              taken := match r with W_full => taken b ++ [(fd, e)] | _ => taken b end |}).

Fixpoint write_loop (n : nat) (fd : Z) (e : input_event) : io Z :=
  match n with
  | O => fun _ => None
  | Datatypes.S n =>
      r ← write fd e;
      match r with
      | W_full => mret 0
      | W_eintr => write_loop n fd e
      | W_other => mret (-1)
      end
  end.

Definition send_to (fd type code value : Z) : io Z :=
  if fd <? 0 then mret (-1)
  else write_loop retries fd {| ev_type := type; ev_code := code; ev_value := value |}.

Definition send_input_event (type code value : Z) : io Z :=
  b ← get; send_to (input_fd b) type code value.

Definition sync_input : io Z := send_input_event EV_SYN SYN_REPORT 0.

Definition keyboard_event (down : bool) (key : Z) : io unit :=
  let linux_key := keysym_to_linux key in
  if linux_key <? 0 then mret tt
  else
    b ← get;
    let fd := if 0 <=? keyboard_fd b then keyboard_fd b else input_fd b in
    _ ← send_to fd EV_KEY (u16 linux_key) (if down then 1 else 0);
    _ ← send_to fd EV_SYN SYN_REPORT 0;
    mret tt.

(** A coordinate brought into [0, size). *)
Definition clamp (v size : Z) : Z :=
  let v := if v <? 0 then 0 else v in
  if size <=? v then size - 1 else v.

Definition touch_down : io unit :=
  b ← get;
  let id := Z.land (touch_tracking_id b + 1) 0xffff in
  _ ← set_touch (touch_active b) id;
  _ ← send_input_event EV_ABS ABS_MT_TRACKING_ID id;
  _ ← send_input_event EV_KEY BTN_TOOL_FINGER 1;
  _ ← send_input_event EV_KEY BTN_TOUCH 1;
  mret tt.

Definition touch_position (x y : Z) : io unit :=
  _ ← send_input_event EV_ABS ABS_X x;
  _ ← send_input_event EV_ABS ABS_Y y;
  _ ← send_input_event EV_ABS ABS_MT_POSITION_X x;
  _ ← send_input_event EV_ABS ABS_MT_POSITION_Y y;
  mret tt.

Definition touch_up : io unit :=
  _ ← send_input_event EV_ABS ABS_MT_TRACKING_ID (-1);
  _ ← send_input_event EV_KEY BTN_TOUCH 0;
  _ ← send_input_event EV_KEY BTN_TOOL_FINGER 0;
  mret tt.

Definition pointer_event (button_mask x y : Z) : io unit :=
  let x := clamp x (display_width S) in
  let y := clamp y (display_height S) in
  let pressed := Z.land button_mask 1 in
  b ← get;
  if (pressed =? 0) && (touch_active b =? 0) then mret tt
  else
    _ ← send_input_event EV_ABS ABS_MT_SLOT 0;
    _ ← (if negb (pressed =? 0) && (touch_active b =? 0) then touch_down else mret tt);
    _ ← (if negb (pressed =? 0) then touch_position x y
         else if negb (touch_active b =? 0) then touch_up else mret tt);
    b ← get;
    _ ← set_touch pressed (touch_tracking_id b);
    _ ← sync_input;
    mret tt.

End Bridge.

(** ** Receiving *)

(** What a [recv] returned: bytes (at least one, at most what was asked for), end
    of stream, [EINTR], an error. *)
Inductive recv_res := R_got (bs : list Z) | R_eof | R_eintr | R_err.

(** Status, buffer and the results left; [None]: waiting for more. *)
Fixpoint receive_all (rs : list recv_res) (size : nat) (buf : list Z) : option (Z * list Z * list recv_res) :=
  match size with
  | O => Some (0, buf, rs)
  | _ =>
      match rs with
      | [] => None
      | R_eof :: rs => Some (-1, buf, rs)
      | R_eintr :: rs => receive_all rs size buf
      | R_err :: rs => Some (-1, buf, rs)
      | R_got bs :: rs => receive_all rs (size - length bs) (buf ++ bs)
      end
  end.

(** A control message: an [SCM_RIGHTS] of [SOL_SOCKET] or another, long enough
    for a descriptor or not, and the descriptor. *)
Record cmsg := { is_rights : bool; holds_int : bool; cmsg_fd : Z }.

Inductive msg_res := M_eintr | M_res (received : Z) (cmsgs : list cmsg).

Fixpoint first_fd (cs : list cmsg) : Z :=
  match cs with
  | [] => -1
  | c :: cs => if is_rights c && holds_int c then cmsg_fd c else first_fd cs
  end.

Fixpoint receive_shared_fd (ms : list msg_res) : option Z :=
  match ms with
  | [] => None
  | M_eintr :: ms => receive_shared_fd ms
  | M_res received cs :: _ => Some (if received =? 1 then first_fd cs else -1)
  end.

(** ** The relay *)

Record relay := { open_fds : list Z; frame_buffer : list Z; updates : nat }.

(** What the kernel answers during one frame: the message, the control message,
    the mapping ([None]: [MAP_FAILED]) and [send]. *)
Record frame_in := {
  fi_recv : list recv_res;
  fi_msg : list msg_res;
  fi_map : option (list Z);
  fi_sent : Z
}.

(** One pass of the inner loop: it goes on, it breaks, it waits for input, or it
    touches memory outside a buffer. *)
Inductive frame_res := F_continue (r : relay) | F_break (r : relay) | F_waiting | F_crash.

Definition memcpy (dst src : list Z) (n : Z) : option (list Z) :=
  if (n <=? Z.of_nat (length dst)) && (n <=? Z.of_nat (length src))
  then Some (take (Z.to_nat n) src ++ drop (Z.to_nat n) dst) else None.

(** [metadata[i]], a [uint32_t]. *)
Definition metadata_word (bytes : list Z) (i : nat) : Z :=
  little_endian_to_Z 8 (take 4 (drop (4 * i) bytes)).

Definition open_fd (fd : Z) (r : relay) : relay :=
  {| open_fds := fd :: open_fds r; frame_buffer := frame_buffer r; updates := updates r |}.

Definition close_fd (fd : Z) (r : relay) : relay :=
  {| open_fds := filter (fun f => f <> fd) (open_fds r); frame_buffer := frame_buffer r; updates := updates r |}.

Definition show (fb : list Z) (r : relay) : relay :=
  {| open_fds := open_fds r; frame_buffer := fb; updates := S (updates r) |}.

Definition frame_bytes (S : settings) : Z := display_width S * display_height S * 4.

Definition frame_iter (S : settings) (i : frame_in) (r : relay) : frame_res :=
  match receive_all (fi_recv i) HWC_MESSAGE_BYTES [] with
  | None => F_waiting
  | Some (status, metadata, _) =>
      if status <? 0 then F_break r
      else
        match receive_shared_fd (fi_msg i) with
        | None => F_waiting
        | Some shared_fd =>
            if shared_fd <? 0 then F_break r
            else
              let r := open_fd shared_fd r in
              let map_bytes := metadata_word metadata 6 in
              if (map_bytes <? frame_bytes S) || (frame_bytes S + 16 * 1024 * 1024 <? map_bytes)
              then F_break (close_fd shared_fd r)
              else
                match fi_map i with
                | None => F_break (close_fd shared_fd r)
                | Some pixels =>
                    match memcpy (frame_buffer r) pixels (frame_bytes S) with
                    | None => F_crash
                    | Some fb =>
                        let r := show fb (close_fd shared_fd r) in
                        if fi_sent i =? 2 then F_continue r else F_break r
                    end
                end
        end
  end.

(** A connection: the inner loop over its frames, then the socket is closed.
    [None]: the inputs ended while it was still connected, or a crash. *)
Fixpoint relay_session (S : settings) (socket_fd : Z) (ins : list frame_in) (r : relay) : option relay :=
  match ins with
  | [] => None
  | i :: ins =>
      match frame_iter S i r with
      | F_continue r => relay_session S socket_fd ins r
      | F_break r => Some (close_fd socket_fd r)
      | F_waiting | F_crash => None
      end
  end.

(** The outer loop over connection attempts ([connect_hwc] gave a descriptor or
    failed). *)
Fixpoint relay_frames (S : settings) (sessions : list (Z * list frame_in)) (r : relay) : option relay :=
  match sessions with
  | [] => Some r
  | (socket_fd, ins) :: sessions =>
      if socket_fd <? 0 then relay_frames S sessions r
      else r ← relay_session S socket_fd ins (open_fd socket_fd r); relay_frames S sessions r
  end.

(** ** Settings are in range *)

Lemma parse_int_range v fallback min max :
  - 2 ^ 31 <= min -> max < 2 ^ 31 -> min <= fallback <= max -> min <= parse_int v fallback min max <= max.
Proof.
  intros Hmin Hmax Hf. unfold parse_int. destruct (strtol v) as [parsed [| c rest]]; [| done].
  destruct (Z.ltb_spec parsed min), (Z.ltb_spec max parsed); cbn [orb]; try done.
  rewrite sw_small; [lia | lia |]. unfold is_s. lia.
Qed.

Lemma env_int_range v fallback min max :
  - 2 ^ 31 <= min -> max < 2 ^ 31 -> min <= fallback <= max -> min <= env_int v fallback min max <= max.
Proof. intros. unfold env_int. destruct v as [[| c v] |]; [done | by apply parse_int_range | done]. Qed.

Lemma prop_int_range v fallback min max :
  - 2 ^ 31 <= min -> max < 2 ^ 31 -> min <= fallback <= max -> min <= prop_int v fallback min max <= max.
Proof. intros. unfold prop_int. destruct v as [| c v]; [done | by apply parse_int_range]. Qed.

Definition settings_ok (S : settings) : Prop :=
  320 <= display_width S <= 4096 /\ 240 <= display_height S <= 4096 /\ 1 <= port S <= 65535.

Lemma read_settings_ok ew eh ep pw ph : settings_ok (read_settings ew eh ep pw ph).
Proof.
  unfold settings_ok, read_settings. cbn [display_width display_height port].
  split_and!; apply env_int_range; try lia; apply prop_int_range; unfold DEFAULT_WIDTH, DEFAULT_HEIGHT; lia.
Qed.

(** A frame's size fits any [size_t]. *)
Lemma frame_bytes_range S : settings_ok S -> 307200 <= frame_bytes S <= 2 ^ 26.
Proof. intros (Hw & Hh & _). unfold frame_bytes. nia. Qed.

Lemma span_all p a : Forall (fun c => p c = true) a -> span p a = (a, []).
Proof.
  unfold span. intros H. induction H as [| x a Hx _ IH]; cbn [span_max length]; [done |]. by rewrite Hx, IH.
Qed.

Lemma strtol_digits ds :
  Forall (fun c => is_digit c = true) ds -> ds <> [] -> decimal ds < 2 ^ 63 -> 0 <= decimal ds ->
  strtol ds = (decimal ds, []) /\ strtol ("-"%char :: ds) = (- decimal ds, []).
Proof.
  intros Hf Hne Hlt H0. destruct ds as [| d ds]; [done |]. assert (Hd : is_digit d = true) by (by inversion Hf).
  destruct (digit_not_space d Hd) as (Hs & Hm & Hp). split; unfold strtol.
  - rewrite skip_space_id by done.
    replace (match d :: ds with "-"%char :: s' => (true, s') | "+"%char :: s' => (false, s') | _ => (false, d :: ds) end)
      with (false, d :: ds) by (destruct d as [[] [] [] [] [] [] [] []]; done).
    rewrite span_all by done. f_equal. lia.
  - rewrite skip_space_id by done. rewrite span_all by done. f_equal. lia.
Qed.

Lemma strtol_print v : is_s 32 v -> strtol (print_d v) = (v, []).
Proof.
  intros Hv. unfold print_d. assert (Hp : 2 ^ 32 < 10 ^ Z.of_nat 11) by done.
  unfold is_s in Hv. change (2 ^ (32 - 1)) with (2 ^ 31) in Hv. destruct (Z.ltb_spec v 0).
  - destruct (print_digits_spec 11 (- v)) as (E & F & N); [lia |].
    destruct (strtol_digits (print_digits 11 (- v)) F (N ltac:(done)) ltac:(lia) ltac:(lia)) as [_ ->]. f_equal. lia.
  - destruct (print_digits_spec 11 v) as (E & F & N); [lia |].
    destruct (strtol_digits (print_digits 11 v) F (N ltac:(done)) ltac:(lia) ltac:(lia)) as [-> _]. by rewrite E.
Qed.

(** ** Keys *)

(** The keys of the letters, in alphabetical order. *)
Definition letter_keys : list Z :=
  [KEY_A; KEY_B; KEY_C; KEY_D; KEY_E; KEY_F; KEY_G; KEY_H; KEY_I; KEY_J; KEY_K; KEY_L; KEY_M;
   KEY_N; KEY_O; KEY_P; KEY_Q; KEY_R; KEY_S; KEY_T; KEY_U; KEY_V; KEY_W; KEY_X; KEY_Y; KEY_Z].

Definition function_keys : list Z :=
  [KEY_F1; KEY_F2; KEY_F3; KEY_F4; KEY_F5; KEY_F6; KEY_F7; KEY_F8; KEY_F9; KEY_F10; KEY_F11; KEY_F12].

Lemma if_sat (P : Z -> Prop) (c : bool) x y : (c = true -> P x) -> P y -> P (if c then x else y).
Proof. by destruct c; auto. Qed.

Lemma keysym_range key : keysym_to_linux key = -1 \/ 1 <= keysym_to_linux key < BTN_MISC.
Proof.
  unfold keysym_to_linux. apply (if_sat (fun k => k = -1 \/ 1 <= k < BTN_MISC)).
  { rewrite andb_true_iff, !Z.leb_le. unfold XK_a, XK_z, KEY_A, BTN_MISC. lia. }
  apply (if_sat (fun k => k = -1 \/ 1 <= k < BTN_MISC)).
  { rewrite andb_true_iff, !Z.leb_le. unfold XK_A, XK_Z, KEY_A, BTN_MISC. lia. }
  apply (if_sat (fun k => k = -1 \/ 1 <= k < BTN_MISC)).
  { rewrite andb_true_iff, !Z.leb_le. unfold XK_1, XK_9, KEY_1, BTN_MISC. lia. }
  apply (if_sat (fun k => k = -1 \/ 1 <= k < BTN_MISC)); [by right |].
  apply (if_sat (fun k => k = -1 \/ 1 <= k < BTN_MISC)).
  { rewrite andb_true_iff, !Z.leb_le. unfold XK_F1, XK_F12, KEY_F1, BTN_MISC. lia. }
  repeat (apply (if_sat (fun k => k = -1 \/ 1 <= k < BTN_MISC)); [intros _; by right |]). by left.
Qed.

(** ** What a multitouch reader sees *)

(** A reader of the type-B protocol (one contact slot): the current slot, the
    contact's tracking id (-1: none), its position, the touch button.  A report is
    made at every [SYN_REPORT]. *)
Record reader := { r_slot : Z; r_id : Z; r_x : Z; r_y : Z; r_touch : Z }.

Inductive report := Touch (id x y : Z) | Lifted.

Definition read_event (r : reader) (e : input_event) : reader * list report :=
  if ev_type e =? EV_ABS then
    if ev_code e =? ABS_MT_SLOT then
      ({| r_slot := ev_value e; r_id := r_id r; r_x := r_x r; r_y := r_y r; r_touch := r_touch r |}, [])
    else if negb (r_slot r =? 0) then (r, [])
    else if ev_code e =? ABS_MT_TRACKING_ID then
      ({| r_slot := r_slot r; r_id := ev_value e; r_x := r_x r; r_y := r_y r; r_touch := r_touch r |}, [])
    else if ev_code e =? ABS_MT_POSITION_X then
      ({| r_slot := r_slot r; r_id := r_id r; r_x := ev_value e; r_y := r_y r; r_touch := r_touch r |}, [])
    else if ev_code e =? ABS_MT_POSITION_Y then
      ({| r_slot := r_slot r; r_id := r_id r; r_x := r_x r; r_y := ev_value e; r_touch := r_touch r |}, [])
    else (r, [])
  else if (ev_type e =? EV_KEY) && (ev_code e =? BTN_TOUCH) then
    ({| r_slot := r_slot r; r_id := r_id r; r_x := r_x r; r_y := r_y r; r_touch := ev_value e |}, [])
  else if (ev_type e =? EV_SYN) && (ev_code e =? SYN_REPORT) then
    (r, [if (0 <=? r_id r) && (r_touch r =? 1) then Touch (r_id r) (r_x r) (r_y r) else Lifted])
  else (r, []).

Fixpoint read_events (r : reader) (es : list input_event) : reader * list report :=
  match es with
  | [] => (r, [])
  | e :: es =>
      let '(r, a) := read_event r e in
      let '(r, b) := read_events r es in (r, a ++ b)
  end.

(** The pointer as VNC reports it: button mask and position. *)
Record pointer := { button_mask : Z; px : Z; py : Z }.

(** The specification: a pressed pointer is a contact at its position on the
    screen, with a new id when the press begins; releasing lifts it; a pointer
    that only hovers does nothing.  [active] and [id] as in the bridge. *)
Fixpoint touches (S : settings) (active id : Z) (ps : list pointer) : list report :=
  match ps with
  | [] => []
  | p :: ps =>
      let pressed := Z.land (button_mask p) 1 in
      let id' := if active =? 0 then Z.land (id + 1) 0xffff else id in
      if negb (pressed =? 0) then
        Touch id' (clamp (px p) (display_width S)) (clamp (py p) (display_height S)) :: touches S 1 id' ps
      else if negb (active =? 0) then Lifted :: touches S 0 id ps
      else touches S 0 id ps
  end.

Section Touch.
Context (S : settings) (kernel : nat -> wres) (retries : nat).

(** Every event is taken after fewer than [retries] interruptions. *)
Definition reliable : Prop :=
  forall n, exists k, (k < retries)%nat /\ (forall j, (j < k)%nat -> kernel (n + j) = W_eintr) /\
                      kernel (n + k) = W_full.

(** From [b] to [b'] the kernel took [es] on the touch device; the touch state is
    given. *)
Definition took (b b' : bridge) (es : list input_event) (active id : Z) : Prop :=
  input_fd b' = input_fd b /\ keyboard_fd b' = keyboard_fd b /\ touch_active b' = active /\
  touch_tracking_id b' = id /\ taken b' = taken b ++ ((fun e => (input_fd b, e)) <$> es).

Lemma write_loop_took n k fd e b :
  (k < n)%nat -> (forall j, (j < k)%nat -> kernel (writes b + j) = W_eintr) -> kernel (writes b + k) = W_full ->
  exists b', write_loop kernel n fd e b = Some (0, b') /\
    input_fd b' = input_fd b /\ keyboard_fd b' = keyboard_fd b /\ touch_active b' = touch_active b /\
    touch_tracking_id b' = touch_tracking_id b /\ taken b' = taken b ++ [(fd, e)].
Proof.
  revert n b; induction k as [| k IH]; intros [| n] b Hn He Hf; try lia;
    cbn [write_loop]; unfold mbind, io_bind, write.
  - rewrite Nat.add_0_r in Hf. rewrite Hf. eexists. split; [reflexivity |]. done.
  - rewrite <- (Nat.add_0_r (writes b)), He, Nat.add_0_r by lia.
    match goal with |- context [write_loop kernel n fd e ?c] => set (b1 := c) end.
    destruct (IH n b1) as (b' & E & F1 & F2 & F3 & F4 & F5); [lia | | |].
    + intros j Hj. cbn [b1 writes]. replace (1 + writes b + j)%nat with (writes b + Datatypes.S j)%nat by lia. apply He. lia.
    + cbn [b1 writes]. by replace (1 + writes b + k)%nat with (writes b + Datatypes.S k)%nat by lia.
    + exists b'. done.
Qed.

Lemma send_took type code value b :
  reliable -> 0 <= input_fd b ->
  exists b', send_input_event kernel retries type code value b = Some (0, b') /\
    took b b' [{| ev_type := type; ev_code := code; ev_value := value |}] (touch_active b) (touch_tracking_id b).
Proof.
  intros Hr Hfd. unfold send_input_event, mbind, io_bind, get, send_to.
  destruct (Z.ltb_spec (input_fd b) 0); [lia |].
  destruct (Hr (writes b)) as (k & Hk & He & Hf).
  destruct (write_loop_took retries k (input_fd b)
    {| ev_type := type; ev_code := code; ev_value := value |} b Hk He Hf) as (b' & E & F).
  exists b'. split; [exact E |]. destruct_and!. by split_and!.
Qed.

Lemma took_app b b1 b2 es1 es2 a1 i1 a2 i2 :
  took b b1 es1 a1 i1 -> took b1 b2 es2 a2 i2 -> took b b2 (es1 ++ es2) a2 i2.
Proof.
  intros (A1 & A2 & A3 & A4 & A5) (B1 & B2 & B3 & B4 & B5).
  split_and!; try congruence. rewrite B5, A5, A1, fmap_app, app_assoc. done.
Qed.

(** From touch state [(a, i)] the computation makes the kernel take [es] and ends
    in touch state [(a', i')]. *)
Definition emits {A} (m : io A) (a i : Z) (es : list input_event) (a' i' : Z) : Prop :=
  forall b, 0 <= input_fd b -> touch_active b = a -> touch_tracking_id b = i ->
  exists x b', m b = Some (x, b') /\ took b b' es a' i'.

Lemma emits_ret {A} (x : A) a i : emits (mret x) a i [] a i.
Proof.
  intros b _ Ha Hi. exists x, b. split; [done |]. split_and!; try done. cbn. by rewrite app_nil_r.
Qed.

Lemma emits_bind {A B} (m : io A) (k : A -> io B) a i es1 a1 i1 es2 a2 i2 :
  emits m a i es1 a1 i1 -> (forall x, emits (k x) a1 i1 es2 a2 i2) -> emits (m ≫= k) a i (es1 ++ es2) a2 i2.
Proof.
  intros Hm Hk b Hfd Ha Hi. destruct (Hm b Hfd Ha Hi) as (x & b1 & E1 & T1).
  pose proof T1 as (F1 & _ & F3 & F4 & _).
  destruct (Hk x b1 ltac:(congruence) F3 F4) as (y & b2 & E2 & T2). exists y, b2. split; [| by eapply took_app].
  unfold mbind, io_bind. by rewrite E1.
Qed.

Lemma emits_get {A} (k : bridge -> io A) a i es a' i' :
  (forall b, touch_active b = a -> touch_tracking_id b = i -> emits (k b) a i es a' i') ->
  emits (get ≫= k) a i es a' i'.
Proof. intros Hk b Hfd Ha Hi. exact (Hk b Ha Hi b Hfd Ha Hi). Qed.

Lemma emits_set_touch a i a' i' : emits (set_touch a' i') a i [] a' i'.
Proof.
  intros b _ _ _. eexists _, _. split; [reflexivity |]. split_and!; try done. cbn. by rewrite app_nil_r.
Qed.

Lemma emits_send type code value a i :
  reliable -> emits (send_input_event kernel retries type code value) a i
    [{| ev_type := type; ev_code := code; ev_value := value |}] a i.
Proof.
  intros Hr b Hfd <- <-. destruct (send_took type code value b Hr Hfd) as (b' & E & T). by exists 0, b'.
Qed.

Abbreviation ev t c v := {| ev_type := t; ev_code := c; ev_value := v |}.

(** The events of a press, of a position, of a release. *)
Definition down_events (id : Z) : list input_event :=
  [ev EV_ABS ABS_MT_TRACKING_ID id; ev EV_KEY BTN_TOOL_FINGER 1; ev EV_KEY BTN_TOUCH 1].

Definition position_events (x y : Z) : list input_event :=
  [ev EV_ABS ABS_X x; ev EV_ABS ABS_Y y; ev EV_ABS ABS_MT_POSITION_X x; ev EV_ABS ABS_MT_POSITION_Y y].

Definition up_events : list input_event :=
  [ev EV_ABS ABS_MT_TRACKING_ID (-1); ev EV_KEY BTN_TOUCH 0; ev EV_KEY BTN_TOOL_FINGER 0].

Definition next_id (i : Z) : Z := Z.land (i + 1) 0xffff.

Ltac emit_seq Hr :=
  repeat first
    [ eapply emits_bind; [first [by apply emits_send | apply emits_set_touch | apply emits_ret] | intros ?]
    | apply emits_ret ].

Lemma touch_down_emits a i : reliable -> emits (touch_down kernel retries) a i (down_events (next_id i)) a (next_id i).
Proof.
  intros Hr. unfold touch_down. apply emits_get. intros b <- <-. fold (next_id (touch_tracking_id b)).
  change (down_events (next_id (touch_tracking_id b))) with
    ([] ++ [ev EV_ABS ABS_MT_TRACKING_ID (next_id (touch_tracking_id b))] ++ [ev EV_KEY BTN_TOOL_FINGER 1] ++
     [ev EV_KEY BTN_TOUCH 1] ++ []). emit_seq Hr.
Qed.

Lemma touch_position_emits x y a i : reliable -> emits (touch_position kernel retries x y) a i (position_events x y) a i.
Proof.
  intros Hr. unfold touch_position. change (position_events x y) with
    ([ev EV_ABS ABS_X x] ++ [ev EV_ABS ABS_Y y] ++ [ev EV_ABS ABS_MT_POSITION_X x] ++ [ev EV_ABS ABS_MT_POSITION_Y y] ++ []).
  emit_seq Hr.
Qed.

Lemma touch_up_emits a i : reliable -> emits (touch_up kernel retries) a i up_events a i.
Proof.
  intros Hr. unfold touch_up. change up_events with
    ([ev EV_ABS ABS_MT_TRACKING_ID (-1)] ++ [ev EV_KEY BTN_TOUCH 0] ++ [ev EV_KEY BTN_TOOL_FINGER 0] ++ []).
  emit_seq Hr.
Qed.

(** The events of one pointer event, and the touch state after it. *)
Definition frame (p : pointer) (a i : Z) : list input_event * Z * Z :=
  let x := clamp (px p) (display_width S) in
  let y := clamp (py p) (display_height S) in
  let pressed := Z.land (button_mask p) 1 in
  if (pressed =? 0) && (a =? 0) then ([], a, i)
  else
    let i' := if negb (pressed =? 0) && (a =? 0) then next_id i else i in
    ([ev EV_ABS ABS_MT_SLOT 0] ++
     (if negb (pressed =? 0) && (a =? 0) then down_events i' else []) ++
     (if negb (pressed =? 0) then position_events x y else if negb (a =? 0) then up_events else []) ++
     [ev EV_SYN SYN_REPORT 0], pressed, i').

Lemma pointer_event_emits p a i :
  reliable ->
  let '(es, a', i') := frame p a i in
  emits (pointer_event S kernel retries (button_mask p) (px p) (py p)) a i es a' i'.
Proof.
  intros Hr. unfold frame, pointer_event. set (pressed := Z.land (button_mask p) 1).
  set (x := clamp (px p) (display_width S)). set (y := clamp (py p) (display_height S)).
  destruct ((pressed =? 0) && (a =? 0)) eqn:E0.
  { apply emits_get. intros b -> _. rewrite E0. apply emits_ret. }
  apply emits_get. intros b -> _. rewrite E0. eapply emits_bind; [by apply emits_send | intros _].
  eapply emits_bind; [| intros _].
  { instantiate (2 := a). instantiate (1 := if negb (pressed =? 0) && (a =? 0) then next_id i else i).
    destruct (negb (pressed =? 0) && (a =? 0)); [by apply touch_down_emits | apply emits_ret]. }
  eapply emits_bind; [| intros _].
  { instantiate (2 := a). instantiate (1 := if negb (pressed =? 0) && (a =? 0) then next_id i else i).
    destruct (negb (pressed =? 0)); [by apply touch_position_emits |].
    destruct (negb (a =? 0)); [by apply touch_up_emits | apply emits_ret]. }
  apply emits_get. intros b1 _ Hi1. rewrite Hi1.
  change [ev EV_SYN SYN_REPORT 0] with ([] ++ [ev EV_SYN SYN_REPORT 0] ++ []). unfold sync_input. emit_seq Hr.
Qed.

(** ** A whole gesture *)

Fixpoint pointer_events (ps : list pointer) : io unit :=
  match ps with
  | [] => mret tt
  | p :: ps => _ ← pointer_event S kernel retries (button_mask p) (px p) (py p); pointer_events ps
  end.

Fixpoint frames (ps : list pointer) (a i : Z) : list input_event :=
  match ps with
  | [] => []
  | p :: ps => let '(es, a, i) := frame p a i in es ++ frames ps a i
  end.

Lemma pointer_events_emits ps a i :
  reliable -> exists a' i', emits (pointer_events ps) a i (frames ps a i) a' i'.
Proof.
  intros Hr. revert a i; induction ps as [| p ps IH]; intros a i; cbn [pointer_events frames].
  { exists a, i. apply emits_ret. }
  pose proof (pointer_event_emits p a i Hr) as Hp. destruct (frame p a i) as [[es a1] i1].
  destruct (IH a1 i1) as (a' & i' & H'). exists a', i'. by eapply emits_bind.
Qed.

(** The reader agrees with the bridge's touch state. *)
Definition in_step (r : reader) (a i : Z) : Prop :=
  0 <= i /\ (a = 0 /\ r_id r = -1 /\ r_touch r = 0 \/ a = 1 /\ r_id r = i /\ r_touch r = 1).

Lemma next_id_range i : 0 <= next_id i <= 65535.
Proof.
  unfold next_id. pose proof (Z.land_ones (i + 1) 16 ltac:(lia)) as E. change (Z.ones 16) with 0xffff in E. rewrite E.
  pose proof (Z.mod_pos_bound (i + 1) (2 ^ 16) ltac:(lia)). lia.
Qed.

Lemma pressed_bit m : Z.land m 1 = 0 \/ Z.land m 1 = 1.
Proof.
  pose proof (Z.land_ones m 1 ltac:(lia)) as E. change (Z.ones 1) with 1 in E. rewrite E.
  pose proof (Z.mod_pos_bound m (2 ^ 1) ltac:(lia)). lia.
Qed.

Lemma read_frame p ps r a i :
  in_step r a i ->
  let '(es, a', i') := frame p a i in
  exists r' reps, read_events r es = (r', reps) /\ in_step r' a' i' /\
    touches S a i (p :: ps) = reps ++ touches S a' i' ps.
Proof.
  intros [Hi Hs]. pose proof (next_id_range i) as Hn. unfold frame. cbn [touches].
  fold (next_id i). destruct (pressed_bit (button_mask p)) as [-> | ->]; destruct Hs as [(-> & Hid & Ht) | (-> & Hid & Ht)];
    cbn [Z.eqb negb andb].
  - exists r, []. by split_and!; [done | split; [done | left] |].
  - eexists _, _. split; [cbn; reflexivity |]. split; [split; [done | by left] | done].
  - eexists _, _. split; [cbn; reflexivity |]. split; [split; [lia | by right] |].
    destruct (Z.leb_spec 0 (next_id i)); [done | lia].
  - eexists _, _. split; [cbn; reflexivity |]. split; [split; [lia | right; by rewrite Hid, Ht] |].
    rewrite Hid, Ht. destruct (Z.leb_spec 0 i); [done | lia].
Qed.

Lemma read_events_app r es fs :
  read_events r (es ++ fs) =
  let '(r1, a) := read_events r es in let '(r2, b) := read_events r1 fs in (r2, a ++ b).
Proof.
  revert r; induction es as [| e es IH]; intros r; cbn [app read_events].
  { by destruct (read_events r fs). }
  destruct (read_event r e) as [r1 a]. rewrite IH. destruct (read_events r1 es) as [r2 b].
  destruct (read_events r2 fs) as [r3 c]. by rewrite app_assoc.
Qed.

Lemma read_frames ps r a i : in_step r a i -> snd (read_events r (frames ps a i)) = touches S a i ps.
Proof.
  revert r a i; induction ps as [| p ps IH]; intros r a i Hs; cbn [frames]; [done |].
  pose proof (read_frame p ps r a i Hs) as Hf. destruct (frame p a i) as [[es a1] i1].
  destruct Hf as (r1 & reps & E & Hs1 & ->). rewrite read_events_app, E.
  specialize (IH r1 a1 i1 Hs1). destruct (read_events r1 (frames ps a1 i1)) as [r2 b]. cbn [snd] in *. by rewrite IH.
Qed.

End Touch.

(** ** The relay keeps its books *)

(** Every [recv] returned at least one byte and no more than it was asked for. *)
Fixpoint recv_wf (rs : list recv_res) (size : nat) : Prop :=
  match size, rs with
  | S _, R_got bs :: rs => (0 < length bs <= size)%nat /\ recv_wf rs (size - length bs)
  | S _, R_eintr :: rs => recv_wf rs size
  | _, _ => True
  end.

(** A successful [receive_all] filled the buffer exactly, and none overfills it. *)
Lemma receive_all_exact rs size buf st buf' rs' :
  recv_wf rs size -> receive_all rs size buf = Some (st, buf', rs') ->
  (length buf' <= length buf + size)%nat /\ (st = 0 -> length buf' = (length buf + size)%nat) /\ (st = 0 \/ st = -1).
Proof.
  revert size buf; induction rs as [| x rs IH]; intros [| size] buf Hw; cbn [receive_all].
  - intros [= <- <- _]. lia.
  - done.
  - intros [= <- <- _]. lia.
  - destruct x as [bs | | |]; cbn [recv_wf] in Hw.
    + destruct Hw as [Hb Hw]. intros E. apply IH in E as (E1 & E2 & E3); [| done]. rewrite length_app in *.
      split_and!; [lia | intros Hs; specialize (E2 Hs); lia | done].
    + intros [= <- <- _]. split_and!; [lia | done | by right].
    + intros E. by apply IH in E.
    + intros [= <- <- _]. split_and!; [lia | done | by right].
Qed.

(** A mapping has the size that was asked for. *)
Definition map_ok (i : frame_in) : Prop :=
  forall st metadata rs pixels, receive_all (fi_recv i) HWC_MESSAGE_BYTES [] = Some (st, metadata, rs) ->
  fi_map i = Some pixels -> Z.of_nat (length pixels) = metadata_word metadata 6.

(** A new descriptor is not one already open. *)
Definition fd_fresh (i : frame_in) (r : relay) : Prop :=
  forall fd, receive_shared_fd (fi_msg i) = Some fd -> 0 <= fd -> fd ∉ open_fds r.

Lemma close_opened fd r :
  fd ∉ open_fds r -> open_fds (close_fd fd (open_fd fd r)) = open_fds r.
Proof.
  intros Hn. cbn [close_fd open_fd open_fds]. rewrite filter_cons_False by (intros H; by apply H).
  revert Hn. generalize (open_fds r). intros l. induction l as [| x l IH]; [done |]. intros Hn.
  rewrite not_elem_of_cons in Hn. destruct Hn as [Hx Hl]. rewrite filter_cons_True by done. by rewrite IH.
Qed.

Definition frame_ok (S : settings) (r : relay) : Prop := Z.of_nat (length (frame_buffer r)) = frame_bytes S.

Lemma memcpy_ok dst src n :
  0 <= n -> n = Z.of_nat (length dst) -> n <= Z.of_nat (length src) ->
  memcpy dst src n = Some (take (Z.to_nat n) src) /\ Z.of_nat (length (take (Z.to_nat n) src)) = n.
Proof.
  intros Hn Hd Hs. unfold memcpy. rewrite !(proj2 (Z.leb_le _ _)) by lia. cbn [andb].
  rewrite drop_ge by lia. rewrite app_nil_r, length_take. split; [done | lia].
Qed.

(** A pass of the inner loop never touches memory outside the framebuffer or the
    mapping, and leaves open exactly the descriptors that were open. *)
Lemma frame_iter_ok S i r :
  settings_ok S -> frame_ok S r -> map_ok i -> fd_fresh i r ->
  match frame_iter S i r with
  | F_continue r' | F_break r' => open_fds r' = open_fds r /\ frame_ok S r'
  | F_waiting => True
  | F_crash => False
  end.
Proof.
  intros HS Hf Hm Hfd. pose proof (frame_bytes_range S HS) as Hb. unfold frame_iter.
  destruct (receive_all (fi_recv i) HWC_MESSAGE_BYTES []) as [[[st metadata] rs] |] eqn:Er; [| done].
  destruct (st <? 0); [done |]. destruct (receive_shared_fd (fi_msg i)) as [fd |] eqn:Efd; [| done].
  destruct (Z.ltb_spec fd 0) as [| Hpos]; [done |]. specialize (Hfd fd Efd Hpos).
  pose proof (close_opened fd r Hfd) as Hcl. set (mb := metadata_word metadata 6).
  destruct (Z.ltb_spec mb (frame_bytes S)) as [| Hge]; cbn [orb]; [done |].
  destruct (Z.ltb_spec (frame_bytes S + 16 * 1024 * 1024) mb); [done |].
  destruct (fi_map i) as [pixels |] eqn:Emap; [| done].
  pose proof (Hm _ _ _ _ Er Emap) as Hlen. fold mb in Hlen.
  destruct (memcpy_ok (frame_buffer (open_fd fd r)) pixels (frame_bytes S)) as [-> Hl];
    [lia | cbn; unfold frame_ok in Hf; lia | lia |].
  destruct (fi_sent i =? 2); (split; [exact Hcl | exact Hl]).
Qed.

Lemma relay_session_ok S sock ins r r0 :
  settings_ok S -> frame_ok S r -> open_fds r = sock :: open_fds r0 -> sock ∉ open_fds r0 ->
  Forall (fun i => map_ok i /\ fd_fresh i r) ins ->
  match relay_session S sock ins r with
  | Some r' => open_fds r' = open_fds r0 /\ frame_ok S r'
  | None => True
  end.
Proof.
  intros HS Hf Ho Hn Hins. revert r Hf Ho Hins; induction ins as [| i ins IH]; intros r Hf Ho Hins; cbn [relay_session]; [done |].
  inversion Hins as [| ? ? [Hm Hfr] Hrest]; subst. pose proof (frame_iter_ok S i r HS Hf Hm Hfr) as Hi.
  destruct (frame_iter S i r) as [r1 | r1 | |]; [| | done | done]; destruct Hi as [Ho1 Hf1].
  - apply IH; [done | congruence |]. revert Hrest. apply Forall_impl. intros j [H1 H2]. split; [done |].
    unfold fd_fresh in *. by rewrite Ho1.
  - split; [| done]. pose proof (close_opened sock r0 Hn) as Hc. cbn [close_fd open_fd open_fds] in *. by rewrite Ho1, Ho.
Qed.

(** ** The properties *)

(** Whatever the environment and the system properties hold, the display is
    between 320x240 and 4096x4096, the port is a port, and a frame is at most
    64 MiB, so no size computed from them overflows. *)
Theorem settings_in_range ew eh ep pw ph :
  let S := read_settings ew eh ep pw ph in
  320 <= display_width S <= 4096 /\ 240 <= display_height S <= 4096 /\ 1 <= port S <= 65535 /\
  307200 <= frame_bytes S <= 2 ^ 26.
Proof.
  cbv zeta. pose proof (read_settings_ok ew eh ep pw ph) as HS. pose proof (frame_bytes_range _ HS) as Hb.
  destruct HS as (H1 & H2 & H3). done.
Qed.

(** A size set in the environment as a decimal number within the limits is the
    one used. *)
Theorem env_int_reads_number v fallback min max :
  - 2 ^ 31 <= min -> max < 2 ^ 31 -> min <= v <= max -> env_int (Some (print_d v)) fallback min max = v.
Proof.
  intros Hmin Hmax Hv. assert (Hs : is_s 32 v) by (unfold is_s; lia).
  pose proof (strtol_print v Hs) as E. unfold env_int. destruct (print_d v) as [| c cs] eqn:Ep.
  { by vm_compute in E; injection E as <-; vm_compute in Ep. }
  unfold parse_int. rewrite E. destruct (Z.ltb_spec v min), (Z.ltb_spec max v); cbn [orb]; try lia.
  by apply sw_small.
Qed.

Lemma env_int_reads_number_witness : env_int (Some (print_d 1280)) DEFAULT_WIDTH 320 4096 = 1280.
Proof. apply (env_int_reads_number 1280 DEFAULT_WIDTH 320 4096); lia. Defined.

(** what a multitouch reader makes of the events the kernel took from the
    bridge is exactly the pointer: a contact at the pointer's position clamped to
    the screen while the button is held, with a fresh tracking id per press, and
    one lift per release; hovering is silent.  Interrupted writes do not lose or
    repeat an event. *)
Theorem touch_stream_exact S kernel retries ps fd kbd :
  reliable kernel retries -> 0 <= fd ->
  let b := {| input_fd := fd; keyboard_fd := kbd; touch_active := 0; touch_tracking_id := 0;
              writes := 0; taken := [] |} in
  let r := {| r_slot := 0; r_id := -1; r_x := 0; r_y := 0; r_touch := 0 |} in
  exists b', pointer_events S kernel retries ps b = Some (tt, b') /\
    Forall (fun fe => fst fe = fd) (taken b') /\
    snd (read_events r (snd <$> taken b')) = touches S 0 0 ps.
Proof.
  intros Hr Hfd. cbv zeta. set (b := {| input_fd := fd; keyboard_fd := kbd; touch_active := 0; touch_tracking_id := 0;
    writes := 0; taken := [] |}).
  destruct (pointer_events_emits S kernel retries ps 0 0 Hr) as (a' & i' & H).
  destruct (H b Hfd eq_refl eq_refl) as ([] & b' & E & (_ & _ & _ & _ & T)). exists b'. split; [done |].
  cbn [b taken input_fd app] in T. rewrite T. split.
  - apply Forall_fmap, Forall_true. done.
  - rewrite <- list_fmap_compose. rewrite (list_fmap_ext _ id) by done. rewrite list_fmap_id.
    apply read_frames. split; [done | by left].
Qed.

Lemma touch_stream_exact_witness :
  let S := {| display_width := 1024; display_height := 768; port := 5900 |} in
  let ps := [ {| button_mask := 0; px := 3; py := 3 |}; {| button_mask := 1; px := 5000; py := -7 |};
              {| button_mask := 0; px := 10; py := 10 |} ] in
  exists b', pointer_events S (fun n => if Nat.even n then W_eintr else W_full) 3 ps
      {| input_fd := 4; keyboard_fd := 5; touch_active := 0; touch_tracking_id := 0; writes := 0; taken := [] |}
      = Some (tt, b') /\
    Forall (fun fe => fst fe = 4) (taken b') /\
    snd (read_events {| r_slot := 0; r_id := -1; r_x := 0; r_y := 0; r_touch := 0 |} (snd <$> taken b')) =
      [Touch 1 1023 0; Lifted].
Proof.
  cbv zeta. apply (touch_stream_exact {| display_width := 1024; display_height := 768; port := 5900 |}
    (fun n => if Nat.even n then W_eintr else W_full) 3
    [ {| button_mask := 0; px := 3; py := 3 |}; {| button_mask := 1; px := 5000; py := -7 |};
      {| button_mask := 0; px := 10; py := 10 |} ] 4 5); [| discriminate].
  intros n. destruct (Nat.even n) eqn:E.
  - exists 1%nat. split; [lia |]. split.
    + intros j Hj. replace j with 0%nat by lia. by rewrite Nat.add_0_r, E.
    + by rewrite Nat.add_1_r, Nat.even_succ, <- Nat.negb_even, E.
  - exists 0%nat. split; [lia |]. split; [intros j Hj; lia |]. by rewrite Nat.add_0_r, E.
Defined.

(** Every key the bridge sends is one the virtual keyboard declared when it was
    created; an unknown keysym sends nothing. *)
Theorem keys_declared kernel retries down key b :
  (keysym_to_linux key = -1 /\ keyboard_event kernel retries down key b = Some (tt, b)) \/
  u16 (keysym_to_linux key) ∈ keybits open_keyboard_device.
Proof.
  destruct (keysym_range key) as [E | Hk]; [left | right].
  - split; [done |]. unfold keyboard_event. by rewrite E.
  - cbn [open_keyboard_device keybits]. rewrite uw_small by (unfold is_u, BTN_MISC in *; lia).
    apply elem_of_seqZ. unfold BTN_MISC in *. lia.
Qed.

(** of the letters only A is sent as its own key (the key codes are in keyboard
    order, not in alphabetical order), and F11 and F12 are sent as Num Lock and
    Scroll Lock; F1 to F10 are right. *)
Theorem keysym_letters_misrouted :
  (forall i k, letter_keys !! i = Some k -> keysym_to_linux (XK_a + Z.of_nat i) = k <-> i = 0%nat) /\
  (forall i k, letter_keys !! i = Some k -> keysym_to_linux (XK_A + Z.of_nat i) = k <-> i = 0%nat) /\
  (forall i k, function_keys !! i = Some k -> keysym_to_linux (XK_F1 + Z.of_nat i) = k <-> (i < 10)%nat) /\
  keysym_to_linux XK_F12 = KEY_SCROLLLOCK.
Proof.
  split_and!; [| | | done]; intros i k Hk;
    repeat (destruct i as [| i]; [injection Hk as <-; vm_compute; (split; [intros H; first [done | lia | discriminate H] | intros H; first [done | lia | discriminate H]]) |]);
    discriminate Hk.
Qed.

(** relaying frames never reads outside the shared mapping nor writes outside
    the framebuffer, whatever the composer sends, and a connection that ends has
    closed its socket and every frame descriptor it received. *)
Theorem relay_safe S sock ins r0 :
  settings_ok S -> frame_ok S r0 -> sock ∉ open_fds r0 ->
  Forall (fun i => map_ok i /\ fd_fresh i (open_fd sock r0)) ins ->
  (forall i r, frame_ok S r -> map_ok i -> fd_fresh i r -> frame_iter S i r <> F_crash) /\
  (forall r', relay_session S sock ins (open_fd sock r0) = Some r' -> open_fds r' = open_fds r0 /\ frame_ok S r').
Proof.
  intros HS Hf Hn Hins. split.
  - intros i r Hr Hm Hfr E. pose proof (frame_iter_ok S i r HS Hr Hm Hfr) as H. by rewrite E in H.
  - intros r' E. pose proof (relay_session_ok S sock ins (open_fd sock r0) r0 HS Hf eq_refl Hn Hins) as H. by rewrite E in H.
Qed.

Definition demo_settings : settings := {| display_width := 320; display_height := 240; port := 5900 |}.

Definition demo_relay : relay :=
  {| open_fds := [3; 4]; frame_buffer := replicate (Z.to_nat 307200) 0; updates := 0 |}.

(** A frame that announces 4 bytes: it is rejected and the connection dropped. *)
Definition demo_frame : frame_in :=
  {| fi_recv := [R_got (replicate 24 0 ++ [4; 0; 0; 0]); R_eintr; R_got (replicate 36 0)];
     fi_msg := [M_eintr; M_res 1 [ {| is_rights := true; holds_int := true; cmsg_fd := 7 |} ]];
     fi_map := None; fi_sent := -1 |}.

Lemma relay_safe_witness :
  relay_session demo_settings 5 [demo_frame] (open_fd 5 demo_relay) = Some demo_relay /\
  open_fds demo_relay = [3; 4] /\ frame_ok demo_settings demo_relay.
Proof.
  destruct (relay_safe demo_settings 5 [demo_frame] demo_relay) as [_ H2].
  - repeat split; discriminate.
  - unfold frame_ok, demo_relay. cbn [frame_buffer]. rewrite length_replicate, Z2Nat.id by discriminate. reflexivity.
  - cbn [demo_relay open_fds]. rewrite !not_elem_of_cons. split_and!; [discriminate | discriminate | apply not_elem_of_nil].
  - constructor; [| constructor]. split; [intros st metadata rs pixels _ E2; discriminate E2 |].
    intros fd E. injection E as <-. intros _. cbn [open_fd demo_relay open_fds].
    rewrite !not_elem_of_cons. split_and!; [discriminate | discriminate | discriminate | apply not_elem_of_nil].
  - split; [reflexivity |]. exact (H2 demo_relay eq_refl).
Defined.
